(* ===== verification/_CoqProject ===== *)
-Q . S2P
Prelude.v
Bytes.v
Json.v
Secure.v
Protocol.v
Replay.v
Ingest.v
Rollout.v
Seats.v
Geometry.v
Registry.v
Receipts.v
GwLink.v
NodeServer.v
Cluster.v
Occupancy.v
Graph.v
Params.v
Zip.v
Sessions.v
Accounts.v
Campus.v
Publish.v
Flash.v
Provision.v
Adoption.v
Flashers.v
Documents.v
Mail.v
Board.v
Workspace.v
Failover.v
SharedReplay.v
Settings.v
Delivery.v
