(* ===== verification/Prelude.v ===== *)
(** * TMedge, verified core

    TMedge turns the reports of thermal sensor nodes into seat occupancy. A node
    speaks UDP, or a WebSocket of its own, or through a gateway; the edge
    authenticates each packet, refuses what it has seen before, folds the
    detections into the state of the seats and publishes snapshots. Around this
    path sit the rollout of firmware, the debugger console with its pipelines and
    parameter writes, the accounts of the people who may use it, and the upload
    of training projects. This library models that core as executable
    functions and proves what makes each part correct. Everything under
    "src/" below is src/src/ of the repository.

    ** The parts and where they are

    - [Prelude]: results with [let!] and [throw_if], insertion-ordered maps ([om_*]:
      a JavaScript Map or object), bounded queues, rounding, strings, stable
      sorting, step relations and runs, rational sums; the tactics [inv_ok],
      [break_goal], [bprop] and the hint databases [tmedge], [omap], [bool_prop].
    - [Bytes]: Node's Buffer (little-endian reads and writes, hex). [Json]: JSON values and the
      tests the code makes on values of unknown shape.
    - [Secure] (src/edge/secure.ts): the encrypted envelope, key derivation, the
      policies of device keys, gateway tokens.
    - [Protocol] (src/edge/protocol.ts): [parsePacket] and its parsers of every
      packet body, the commands and the OTA request sent down, the builders.
    - [Replay] (src/edge/replay.ts): the journal of (boot, seq) cursors.
    - [Ingest] (src/edge/ingest.ts, config.ts in part): from a datagram to an admitted packet, on top of
      [Protocol] and [Replay]; routes, downlinks, statistics.
    - [Rollout] (src/edge/rollout.ts): pilot, batches, failure, resume, history; and how
      durable-rollout-service.ts takes back what could not be committed.
    - [Seats] (src/shared/types.ts, seats.ts, allocate.ts), [Geometry]
      (src/shared/geometry.ts), [Registry] (src/edge/registry.ts): the floor plan,
      its seats, and the configuration that is accepted.
    - [Cluster] and [Occupancy] (src/edge/occupancy.ts): merging of blobs, authorities,
      seats, ageing, snapshots; they use [Registry], [Geometry] and [Seats].
    - [Receipts] (src/modules/nodes/application/live-command-receipts.ts): what a
      console is told of a command it sent.
    - [GwLink] (src/edge/gwlink.ts): the framed link of a gateway and its sessions.
    - [NodeServer] (src/edge/nodelink.ts): nodes that connect by themselves.
    - [Graph] (src/algo/graph.ts, nodes.ts, types.ts) and [Params]
      (src/algo/params.ts): the debugger's pipelines and parameter writes.
    - [Zip] (src/algo/train/zip.ts): judging and extracting an uploaded archive.
    - [Sessions] (src/web/auth.ts, src/shared/private-file.ts): signed sessions, their revocation
      across processes, the limiter of attempts.
    - [Accounts] (src/algo/auth.ts, src/modules/algo-admin/domain/permissions.ts): the accounts of
      the console in their shared file, roles, sign-in, and who a session stands for; on top of [Sessions].
    - [Campus] (src/web/store.ts, publishers.ts, src/modules/occupancy/routes/occupancy-router.ts,
      publicSnapshot of src/edge/runtime.ts): what an edge publishes, who may, the
      check of what arrives, the merged view and the search over it; on top of
      [Occupancy] and [Seats]. [Publish]: the contract between the two sides.
    - [Flash] (src/shared/flasher/images.ts, md5.ts, release.ts,
      src/infrastructure/firmware-release/github-release-source.ts,
      algo-app/src/console/flash/esp.ts): which images go where on a board, the release
      on offer and its downloads, and the job of writing it; [Provision]
      (src/shared/flasher/settings.ts, node-console.ts): the settings of a node and the
      talk over its serial console that writes, verifies and watches them.
    - [Adoption] (src/edge/provisioning.ts): the queue of boards that ask to join, and
      what an answer does to the nodes file and the registry that is running; on
      top of [Registry]. [Flashers] (src/edge/adoption-credentials.ts,
      src/algo/flasher-login.ts): the tokens of those who may ask, and the sign-in
      that hands them out; on top of [Accounts] and the limiter of [Sessions].
    - The team's workspace (src/modules/workspace, src/infrastructure/workspace):
      [Documents] has what may be typed and the JSON document over a private file of
      [Sessions], as a service that makes a change whole or not at all; [Mail] and
      [Board] are its clients, each an operation on the document and a check of the
      file; [Workspace] says who stands behind a request, from [Accounts].
    - [Failover] (src/infrastructure/postgres/site-leadership.ts): the lease that one
      process of a site holds in a row of the database, with the timers and the late or
      lost answers of several processes. [SharedReplay]
      (src/infrastructure/postgres/replay-store.ts, hello-replay-store.ts,
      replay-import.ts, src/edge/hello-replay.ts): the cursors, command numbers and
      handshakes they share behind the fence of that lease, and the import of a
      journal of [Replay].
    - [Settings] (src/modules/algo-admin/domain/account-settings.ts,
      use-cases/manage-own-account.ts, src/infrastructure/algo-admin/file-own-account.ts):
      the address a person keeps, the code that confirms it and who is written to, over
      the document of [Documents]; [Delivery] (domain/email-delivery.ts,
      use-cases/deliver-email-notifications.ts): what is sent there, and when.

    Every definition that translates code has a doc comment that ends with the
    file and the lines it translates, relative to src/. A component's state is a Record with the
    names of the code's fields; an operation takes the state and answers the new
    state, with what it sends or throws; a handler that awaits is cut at each await into the events of a
    run, so that anything may happen in between. What the platform or another process decides (the outcome of a
    write, the clock, random bytes, an answer of a callback) is an argument or part
    of the event.

    ** What is shown

    - Nothing unauthenticated gets in: [parsePacket_authentic],
      [uplink_only_after_hello], [only_the_proven_are_heard],
      [download_needs_a_live_grant].
    - Nothing gets in twice, also across restarts and failures:
      [accepted_strictly_increase], [replay_recovery] (the journal refines the
      abstract cursors), [replay_failed_closed], [backlog_is_refused].
    - What is sent arrives as it was meant: [encrypted_packet_roundtrip],
      [report_roundtrip], [frames_survive_chunking], [downlink_delivered].
    - The occupancy is counted once and adds up: the theorems of [Registry],
      [Cluster], [Occupancy] and [Seats]; [allocate_is_best] states the search as an
      optimum over all runs of tables.
    - Changes are staged and can be undone: [pilot_goes_first], [recovery_is_durable],
      [uncommitted_is_put_back], [told_what_happened], [every_receipt_ends].
    - The editor's pipelines are well typed and ordered: [validate_is_typing],
      [order_is_topological], [upstreamOf_is_ancestors].
    - Uploads cannot leave their directory, and good ones extract:
      [accepted_archive_is_safe], [extraction_stays_inside],
      [accepted_archive_extracts], [corrupt_archive_is_a_zip_error],
      [checksum_is_the_polynomial].
    - Sessions end when they are ended and guesses are limited: [logout_is_final],
      [issued_session_reads_back], [attempts_are_limited].
    - Access follows the accounts: [an_admin_always_remains],
      [changed_account_ends_sessions], [access_follows_the_file],
      [sign_in_needs_the_present_password].
    - Students see what the sensors say: [published_snapshot_is_accepted] (the edge's
      snapshot meets the check of the web tier, through the whole configuration
      and engine), [view_never_shows_old_numbers], [a_floor_has_one_publisher],
      [search_offers_free_seats_of_live_floors].
    - A board keeps what it knows: [a_flash_never_erases_nvs],
      [offered_release_is_genuine], [provisioned_node_is_as_asked],
      [logs_and_failures_are_masked], [commands_fit_the_console].
    - Who joins, and who may ask: [admission_changes_no_count],
      [queue_survives_a_restart], [flasher_token_is_current],
      [sign_in_is_for_who_asked].
    - The team's letters and plans: [mail_is_private], [mail_is_kept],
      [board_changes_need_rights], [no_edit_is_lost], [board_is_kept],
      [workspace_rights_follow_the_account].
    - One site, one leader: [one_leader_at_a_time] (while the database answers within
      the margin), [shared_replay_is_one_history] (however late it answers),
      [import_is_safe_to_repeat], [file_admits_once].
    - Mail to the outside: [news_goes_to_confirmed_addresses],
      [mail_is_news_and_no_flood].
    - Limits hold: [engine_stays_bounded], [rate_is_bounded], and
      [listener_is_bounded], [diagnostics_bounded], [batch_is_bounded].

    ** Bounds and fuel

    Loops that are not structural take fuel, and a theorem shows that it never
    runs out: [Graph.order_loop] gets one more turn than there are stages
    ([order_is_topological]), [Graph.upstream_loop] one more than there are edges
    ([upstreamOf_is_ancestors]), [GwLink.push_loop] as many turns as the chunk has
    bytes ([push_loop_spec]), [Cluster.root] as many steps as there are
    blobs ([root_spec]). Only [Rollout.base36_digits] has a fixed fuel, 64 digits,
    enough for any number below 36^64. Machine words
    are integers with their wrap-around written out; the sizes the code checks
    (776 bytes of payload, 10000 revoked tokens, 512 units of a name) are
    its own constants.

    ** What is assumed of code that is not here

    Each is a class or a hypothesis with the documented behaviour, and has a
    concrete instance in the witnesses: node:crypto ([Secure.Crypto],
    [CryptoLaws]: lengths, and that opening undoes sealing), JSON text
    ([Json.JsonText]), net.isIP ([GwLink.Net]), Math's trigonometry
    ([Geometry.Trig]), SHA-256 ([NodeServer.Sha]), TextDecoder and zlib
    ([Zip.Utf8], [Zip.Inflate]), HMAC and base64url of sessions ([Sessions.Tokens]; that two texts
    never share an HMAC is a hypothesis of [logout_is_final]). JavaScript numbers
    that are not integers are exact rationals: rounding of floating
    point is not modelled. Strings hold code units below 256
    except in [Provision], where a text is a list of its code units. The size of a
    file the program writes is the length of its JSON text ([Json.json_bytes];
    25 bytes are counted for a number that is not whole).
    scrypt is the class [Accounts.Scrypt]. [localeCompare]
    is the class [Json.Collation], of which nothing is assumed.
    [new URL] is the class [Flash.Urls] and [toLowerCase] and [Number] of any text
    the class [Provision.JsText], of which nothing is assumed.
    [String] of any value is the class [Json.Texts], of which nothing is
    assumed; that a digest is 32 bytes is [Flashers.ShaLaws].
    A statement of SQL is what it does to the rows it names, at one moment
    that follows its statement_timestamp; those of one holder on the row of the
    lease take effect in the order they started, and the clock of a process
    runs at the pace of the database's.

    ** Not modelled

    Everything whose work is input and output, and whose logic is in the parts
    above or in a library: the HTTP and WebSocket servers and their routes, the
    consoles and pages in the browser, the composition roots and command-line
    tools, the Postgres repositories and migrations, mail, cloud and
    GitHub clients, and the probes of the host. The algorithms on thermal images
    (background, edges, heat features, the model) work in floating point
    throughout, and stating them over rationals would not be faithful. Not
    yet modelled, but modellable: the runtime of the debugger, the assistant
    and analytics modules, the database side of provisioning and firmware builds, the HPC training
    service. Of the parts above, what is left out is said at the head of its
    file and in the notes of the components. *)

From stdpp Require Export base gmap strings list pretty.
From Stdlib Require Export ZArith QArith Qround Qabs Lia Lqa Sorting.Sorted.

#[global] Open Scope Z_scope.

Create HintDb tmedge.
Create Rewrite HintDb omap.

(** ** Results

    Code that throws returns [Err] with the error; [E] is a string where the
    source throws an [Error] whose message is its only content. *)
Inductive result (E A : Type) : Type :=
| Ok (a : A)
| Err (e : E).
Arguments Ok {E A} a.
Arguments Err {E A} e.

Declare Scope result_scope.
Delimit Scope result_scope with result.

Definition rbind {E A B} (m : result E A) (k : A -> result E B) : result E B :=
  match m with Ok a => k a | Err e => Err e end.

Notation "'let!' x := m 'in' k" := (rbind m (fun x => k))
  (at level 10, x pattern at level 0, m at level 100, k at level 200) : result_scope.
Notation "'throw_if' c 'with' e 'in' k" := (if c then Err e else k)
  (at level 10, c at level 100, e at level 100, k at level 200) : result_scope.
#[global] Open Scope result_scope.

Definition is_ok {E A} (m : result E A) : bool :=
  match m with Ok _ => true | Err _ => false end.

Definition of_option {E A} (e : E) (o : option A) : result E A :=
  match o with Some a => Ok a | None => Err e end.

(** [List.map] with a step that may throw, left to right. *)
Fixpoint rmap {E A B} (f : A -> result E B) (l : list A) : result E (list B) :=
  match l with
  | [] => Ok []
  | x :: l' => let! y := f x in let! ys := rmap f l' in Ok (y :: ys)
  end.

Lemma rbind_ok {E A B} (m : result E A) (k : A -> result E B) b :
  rbind m k = Ok b <-> exists a, m = Ok a /\ k a = Ok b.
Proof.
  destruct m as [a|e]; simpl; split.
  - eauto.
  - by intros (a' & [= ->] & ?).
  - done.
  - by intros (? & ? & _).
Qed.

Lemma Ok_inj {E A} (a b : A) : Ok (E := E) a = Ok b -> a = b.
Proof. by intros [=]. Qed.

Lemma of_option_ok {E A} (e : E) (o : option A) a :
  of_option e o = Ok a <-> o = Some a.
Proof. destruct o; simpl; split; congruence. Qed.

Lemma rmap_ok_length {E A B} (f : A -> result E B) l ys :
  rmap f l = Ok ys -> length ys = length l.
Proof.
  revert ys; induction l as [|x l IH]; intros ys; simpl.
  - by intros [= <-].
  - intros (y & _ & (zs & Hz & [= <-])%rbind_ok)%rbind_ok. simpl. by rewrite (IH zs).
Qed.

Lemma rmap_ok_iff {E A B} (f : A -> result E B) l ys :
  rmap f l = Ok ys <-> Forall2 (fun x y => f x = Ok y) l ys.
Proof.
  revert ys; induction l as [|x l IH]; intros ys; simpl.
  - split; [by intros [= <-] | by intros H; inversion H].
  - split.
    + intros (y & Hy & (zs & Hz & [= <-])%rbind_ok)%rbind_ok.
      constructor; [done | by apply IH].
    + intros H; inversion H as [|? y ? zs Hy Hzs]; subst.
      rewrite Hy; simpl. by rewrite (proj2 (IH zs) Hzs).
Qed.

(** ** Tactics *)

(** Split every conditional and option match the goal is stuck on. *)
Ltac break_goal :=
  repeat match goal with
  | |- context [if ?b then _ else _] =>
      lazymatch b with context [if _ then _ else _] => fail | _ => destruct b eqn:? end
  | |- context [match ?o with Some _ => _ | None => _ end] =>
      lazymatch o with context [match _ with _ => _ end] => fail | _ => destruct o eqn:? end
  end.

(** Take apart a hypothesis saying that a monadic computation returned. *)
Ltac inv_ok H :=
  repeat (simpl in H;
    match type of H with
    | rbind _ _ = Ok _ =>
        let a := fresh "a" in let Ha := fresh "Hm" in
        apply rbind_ok in H; destruct H as (a & Ha & H)
    | (if ?b then Err _ else _) = Ok _ =>
        let Hb := fresh "Hc" in destruct b eqn:Hb; [discriminate H|]
    | (if ?b then _ else Err _) = Ok _ =>
        let Hb := fresh "Hc" in destruct b eqn:Hb; [|discriminate H]
    | Err _ = Ok _ => discriminate H
    end).

(** Boolean tests of the code, as propositions. *)
Lemma negb_true b : negb b = true <-> b = false.
Proof. by destruct b. Qed.
Lemma negb_false b : negb b = false <-> b = true.
Proof. by destruct b. Qed.

Create Rewrite HintDb bool_prop.
#[export] Hint Rewrite andb_true_iff orb_true_iff andb_false_iff orb_false_iff
  negb_true negb_false bool_decide_eq_true bool_decide_eq_false
  Z.leb_le Z.leb_gt Z.ltb_lt Z.ltb_ge Z.eqb_eq Z.eqb_neq
  Nat.leb_le Nat.leb_gt Nat.ltb_lt Nat.ltb_ge Nat.eqb_eq Nat.eqb_neq : bool_prop.

Ltac bprop := autorewrite with bool_prop in *.


(** ** Insertion-ordered maps

    A JavaScript [Map] iterates in insertion order, and [set] on a key that is
    present keeps its place. Several components evict by that order, so a [Map]
    whose order shows is an association list with distinct keys. *)
Section omap.
Context {K V : Type} `{EqDecision K}.
Implicit Types (m : list (K * V)) (k : K) (v : V).

Fixpoint om_get (k : K) (m : list (K * V)) : option V :=
  match m with
  | [] => None
  | (k', v) :: m' => if bool_decide (k = k') then Some v else om_get k m'
  end.

Definition om_has (k : K) (m : list (K * V)) : bool :=
  match om_get k m with Some _ => true | None => false end.

Fixpoint om_set (k : K) (v : V) (m : list (K * V)) : list (K * V) :=
  match m with
  | [] => [(k, v)]
  | (k', v') :: m' => if bool_decide (k = k') then (k', v) :: m' else (k', v') :: om_set k v m'
  end.

Definition om_del (k : K) (m : list (K * V)) : list (K * V) :=
  List.filter (fun p => negb (bool_decide (k = p.1))) m.

Definition om_keys (m : list (K * V)) : list K := map fst m.

Lemma om_get_set_eq k v m : om_get k (om_set k v m) = Some v.
Proof.
  induction m as [|[k' v'] m IH]; simpl; repeat (case_bool_decide; simpl); congruence.
Qed.

Lemma om_get_set_ne k k' v m : k <> k' -> om_get k (om_set k' v m) = om_get k m.
Proof.
  intros Hne; induction m as [|[k2 v2] m IH]; simpl;
    repeat (case_bool_decide; simpl); congruence.
Qed.

Lemma om_get_set k k' v m :
  om_get k (om_set k' v m) = if bool_decide (k = k') then Some v else om_get k m.
Proof.
  case_bool_decide; [subst; apply om_get_set_eq | by apply om_get_set_ne].
Qed.

Lemma om_has_set k k' v m : om_has k (om_set k' v m) = bool_decide (k = k') || om_has k m.
Proof. unfold om_has. rewrite om_get_set. by case_bool_decide. Qed.

Lemma om_get_del_eq k m : om_get k (om_del k m) = None.
Proof.
  induction m as [|[k' v'] m IH]; [done|]; unfold om_del in *; simpl.
  case_bool_decide as Hk; simpl; [done|]. by rewrite bool_decide_eq_false_2.
Qed.

Lemma om_get_del_ne k k' m : k <> k' -> om_get k (om_del k' m) = om_get k m.
Proof.
  intros Hne; induction m as [|[k2 v2] m IH]; [done|]; unfold om_del in *; simpl.
  case_bool_decide as Hk; simpl; subst.
  - by rewrite bool_decide_eq_false_2.
  - by rewrite IH.
Qed.

Lemma om_get_del k k' m :
  om_get k (om_del k' m) = if bool_decide (k = k') then None else om_get k m.
Proof.
  case_bool_decide; [subst; apply om_get_del_eq | by apply om_get_del_ne].
Qed.

Lemma om_get_elem k v m : om_get k m = Some v -> (k, v) ∈ m.
Proof.
  induction m as [|[k' v'] m IH]; simpl; [done|].
  case_bool_decide as Hk; [intros [= ->]; subst; by left | intros; right; auto].
Qed.

Lemma om_has_keys k m : om_has k m = true <-> k ∈ om_keys m.
Proof.
  unfold om_has. induction m as [|[k' v'] m IH]; simpl.
  - split; [done|]. by intros ?%not_elem_of_nil.
  - rewrite elem_of_cons. case_bool_decide; [naive_solver|].
    rewrite IH. naive_solver.
Qed.

Lemma om_get_None k m : om_get k m = None <-> k ∉ om_keys m.
Proof.
  rewrite <- om_has_keys. unfold om_has. destruct (om_get k m); naive_solver.
Qed.

Lemma om_get_Some_keys k v m : om_get k m = Some v -> k ∈ om_keys m.
Proof. intros H. apply om_has_keys. unfold om_has. by rewrite H. Qed.

Lemma om_keys_set k v m :
  om_keys (om_set k v m) = if om_has k m then om_keys m else om_keys m ++ [k].
Proof.
  unfold om_has. induction m as [|[k' v'] m IH]; simpl; [done|].
  case_bool_decide; simpl; [done|]. rewrite IH. by destruct (om_get k m).
Qed.

Lemma om_keys_set_elem k k' v m : k ∈ om_keys (om_set k' v m) <-> k = k' \/ k ∈ om_keys m.
Proof.
  rewrite om_keys_set. destruct (om_has k' m) eqn:E.
  - apply om_has_keys in E. split; [auto|]. by intros [->|].
  - rewrite elem_of_app, list_elem_of_singleton. tauto.
Qed.

Lemma om_keys_del k m : om_keys (om_del k m) = List.filter (fun k' => negb (bool_decide (k = k'))) (om_keys m).
Proof.
  unfold om_del. induction m as [|[k' v'] m IH]; simpl; [done|].
  case_bool_decide; simpl; [done|]. by rewrite IH.
Qed.

Lemma om_length_keys m : length (om_keys m) = length m.
Proof. apply length_map. Qed.

Lemma om_length_set k v m :
  length (om_set k v m) = if om_has k m then length m else S (length m).
Proof.
  rewrite <- !om_length_keys, om_keys_set. destruct (om_has k m); [done|].
  rewrite length_app; simpl; lia.
Qed.

Lemma om_length_del k m : (length (om_del k m) <= length m)%nat.
Proof. apply List.filter_length_le. Qed.

Lemma om_set_nodup k v m : NoDup (om_keys m) -> NoDup (om_keys (om_set k v m)).
Proof.
  intros Hnd. rewrite om_keys_set. destruct (om_has k m) eqn:E; [done|].
  apply NoDup_app; split; [done|]. split; [|apply NoDup_singleton].
  intros x Hx ->%list_elem_of_singleton. apply om_has_keys in Hx. congruence.
Qed.

Lemma om_del_nodup k m : NoDup (om_keys m) -> NoDup (om_keys (om_del k m)).
Proof.
  intros Hnd. rewrite om_keys_del.
  apply NoDup_ListNoDup, List.NoDup_filter, NoDup_ListNoDup, Hnd.
Qed.

Lemma om_filter_nodup (f : K * V -> bool) m : NoDup (om_keys m) -> NoDup (om_keys (List.filter f m)).
Proof.
  induction m as [|p m IH]; [done|]. cbn [om_keys map]. intros [Hk Hnd]%NoDup_cons. cbn [List.filter]. destruct (f p); [|by apply IH].
  cbn [om_keys map]. apply NoDup_cons. split; [|by apply IH]. intros Hin. apply Hk. apply list_elem_of_fmap in Hin as (p' & E & Hp%list_elem_of_In).
  apply filter_In in Hp as [Hp _]. apply list_elem_of_fmap. exists p'. split; [done|]. by apply list_elem_of_In.
Qed.

Lemma om_get_filter_val (f : V -> bool) k m : NoDup (om_keys m) ->
  om_get k (List.filter (fun p => f p.2) m) = match om_get k m with Some v => if f v then Some v else None | None => None end.
Proof.
  induction m as [|[k' v'] m IH]; [done|]. cbn [om_keys map fst]. intros [Hk Hnd]%NoDup_cons. cbn [List.filter snd om_get].
  case_bool_decide as E.
  - subst k'. destruct (f v') eqn:Ef; cbn [om_get]; [by rewrite bool_decide_eq_true_2|]. rewrite IH by done.
    destruct (om_get k m) eqn:Eg; [|done]. exfalso. apply Hk, om_has_keys. unfold om_has. by rewrite Eg.
  - destruct (f v'); cbn [om_get]; [rewrite bool_decide_eq_false_2 by done|]; by apply IH.
Qed.

Lemma om_elem_get k v m : NoDup (om_keys m) -> (k, v) ∈ m -> om_get k m = Some v.
Proof.
  induction m as [|[k' v'] m IH]; simpl; [by intros _ ?%not_elem_of_nil|].
  intros [Hni Hnd]%NoDup_cons [[= -> ->]|Hin]%elem_of_cons.
  - by rewrite bool_decide_eq_true_2.
  - case_bool_decide as Hk; [|auto]. subst. destruct Hni.
    unfold om_keys. apply list_elem_of_fmap. by exists (k', v).
Qed.

Lemma om_set_elem k v p m : p ∈ om_set k v m -> p = (k, v) \/ p ∈ m.
Proof.
  induction m as [|[k' v'] m IH]; simpl.
  - intros ->%list_elem_of_singleton. by left.
  - case_bool_decide; intros [->|Hin]%elem_of_cons; subst; rewrite elem_of_cons; naive_solver.
Qed.

End omap.

(** ** Bounded queues and windows *)

(** [a.push(x); if (a.length > n) a.shift()] *)
Definition push_cap {A} (n : nat) (x : A) (l : list A) : list A :=
  let l' := l ++ [x] in
  if Nat.ltb n (length l') then tail l' else l'.

Lemma push_cap_length {A} n (x : A) l :
  (length l <= n)%nat -> (length (push_cap n x l) <= n)%nat.
Proof.
  intros Hl. unfold push_cap. case (Nat.ltb_spec n (length (l ++ [x]))); intros Hn.
  - rewrite length_app in Hn; simpl in Hn.
    assert (length (tail (l ++ [x])) = length l) as ->; [|lia].
    destruct l; simpl; [done|]. rewrite length_app; simpl. lia.
  - done.
Qed.

Lemma push_cap_elem {A} n (x y : A) l : y ∈ push_cap n x l -> y = x \/ y ∈ l.
Proof.
  unfold push_cap. case_match; intros Hy.
  - destruct l as [|z l]; simpl in *; [by apply not_elem_of_nil in Hy|].
    apply elem_of_app in Hy as [Hy| ->%list_elem_of_singleton]; [right; by right | by left].
  - apply elem_of_app in Hy as [Hy| ->%list_elem_of_singleton]; auto.
Qed.

(** Drop the leading samples that are older than [cut]. *)
Fixpoint drop_old {A} (t : A -> Z) (cut : Z) (l : list A) : list A :=
  match l with
  | [] => []
  | x :: l' => if t x <? cut then drop_old t cut l' else l
  end.

Lemma drop_old_suffix {A} (t : A -> Z) cut l : exists p, l = p ++ drop_old t cut l.
Proof.
  induction l as [|x l (p & IH)]; simpl; [by exists []|].
  case_match; [exists (x :: p); simpl; by rewrite <- IH | by exists []].
Qed.

Lemma drop_old_length {A} (t : A -> Z) cut l : (length (drop_old t cut l) <= length l)%nat.
Proof. destruct (drop_old_suffix t cut l) as [p Hp]. rewrite Hp at 2. rewrite length_app. lia. Qed.

(** ** Numbers

    [Math.round], [Math.floor] and [Math.ceil] on a rational; a JavaScript
    number that is not an integer is modelled by the exact rational its
    formula denotes. *)
Definition js_round (q : Q) : Z := Qfloor (q + (1 # 2))%Q.
Definition js_floor (q : Q) : Z := Qfloor q.
Definition js_ceil (q : Q) : Z := Qceiling q.

Lemma js_floor_bounds q : (inject_Z (js_floor q) <= q < inject_Z (js_floor q) + 1)%Q.
Proof.
  unfold js_floor. pose proof (Qfloor_le q). pose proof (Qlt_floor q) as H2.
  rewrite inject_Z_plus in H2. split; [done|]. exact H2.
Qed.

Lemma js_ceil_bounds q : (q <= inject_Z (js_ceil q) < q + 1)%Q.
Proof.
  unfold js_ceil. pose proof (Qle_ceiling q). pose proof (Qceiling_lt q) as H2.
  change (Qceiling q - 1) with (Qceiling q + - (1)) in H2. rewrite inject_Z_plus, inject_Z_opp in H2.
  split; [done|]. change (inject_Z 1) with 1%Q in H2. lra.
Qed.

Lemma js_round_bounds q : (q - (1 # 2) < inject_Z (js_round q) <= q + (1 # 2))%Q.
Proof.
  unfold js_round. pose proof (js_floor_bounds (q + (1 # 2))) as [H1 H2]. unfold js_floor in *. split; lra.
Qed.

Lemma js_round_comp p q : (p == q)%Q -> js_round p = js_round q.
Proof. intros H. unfold js_round. apply Qfloor_comp. by rewrite H. Qed.

Lemma js_round_Z q n : (q == inject_Z n)%Q -> js_round q = n.
Proof.
  intros ->%js_round_comp. pose proof (js_round_bounds (inject_Z n)) as [H1 H2].
  assert (inject_Z n < inject_Z (js_round (inject_Z n) + 1))%Q as H3 by (rewrite inject_Z_plus; change (inject_Z 1) with 1%Q; lra).
  assert (inject_Z (js_round (inject_Z n)) < inject_Z (n + 1))%Q as H4 by (rewrite inject_Z_plus; change (inject_Z 1) with 1%Q; lra).
  rewrite <- Zlt_Qlt in H3, H4. lia.
Qed.

Lemma js_round_range lo hi q : (inject_Z lo <= q <= inject_Z hi)%Q -> lo <= js_round q <= hi.
Proof.
  intros [H1 H2]. pose proof (js_round_bounds q) as [H3 H4].
  assert (inject_Z (lo - 1) < inject_Z (js_round q))%Q as H5.
  { unfold Z.sub. rewrite inject_Z_plus, inject_Z_opp. change (inject_Z 1) with 1%Q. lra. }
  assert (inject_Z (js_round q) < inject_Z (hi + 1))%Q as H6.
  { rewrite inject_Z_plus. change (inject_Z 1) with 1%Q. lra. }
  rewrite <- Zlt_Qlt in H5, H6. lia.
Qed.

(** A value rounded on a grid of step [1/d] is within half a step. *)
Lemma grid_error n d q :
  (inject_Z n - (1 # 2) <= q * inject_Z (Zpos d) <= inject_Z n + (1 # 2))%Q ->
  (Qabs ((n # d) - q) <= 1 # (2 * d))%Q.
Proof.
  intros [H1 H2]. set (D := inject_Z (Zpos d)) in *.
  assert (0 < D)%Q as HD by (unfold D; change 0%Q with (inject_Z 0); rewrite <- Zlt_Qlt; lia).
  assert ((n # d) * D == inject_Z n)%Q as E1 by (unfold Qeq, D; simpl; lia).
  assert ((1 # (2 * d)) * D == 1 # 2)%Q as E2 by (unfold Qeq, D; simpl; lia).
  apply Qabs_Qle_condition. split; apply (Qmult_le_r _ _ D HD); lra.
Qed.

Lemma Qmake_inject n p : (n # p == inject_Z n / inject_Z (Zpos p))%Q.
Proof. apply Qmake_Qdiv. Qed.

Definition clamp (lo hi v : Z) : Z := Z.max lo (Z.min hi v).

Lemma clamp_range lo hi v : lo <= hi -> lo <= clamp lo hi v <= hi.
Proof. unfold clamp; lia. Qed.

Lemma clamp_id lo hi v : lo <= v <= hi -> clamp lo hi v = v.
Proof. unfold clamp; lia. Qed.

(** Unsigned wrap-around: [v >>> 0] on an integer is its value modulo 2^32. *)
Definition u32 (v : Z) : Z := v mod 2 ^ 32.
(** [v | 0]: the signed 32-bit value. *)
Definition i32 (v : Z) : Z := (v + 2 ^ 31) mod 2 ^ 32 - 2 ^ 31.

Lemma u32_range v : 0 <= u32 v < 2 ^ 32.
Proof. apply Z.mod_pos_bound; lia. Qed.

Lemma i32_id v : - 2 ^ 31 <= v < 2 ^ 31 -> i32 v = v.
Proof. intros H. unfold i32. rewrite Z.mod_small; lia. Qed.

Lemma i32_range v : - 2 ^ 31 <= i32 v < 2 ^ 31.
Proof. unfold i32. pose proof (Z.mod_pos_bound (v + 2 ^ 31) (2 ^ 32)). lia. Qed.

(** ** Strings

    A JavaScript string is modelled by [String.string]: one character per
    UTF-16 code unit below 256, which covers every identifier, label and
    protocol text the code compares. *)
Definition code (c : Ascii.ascii) : Z := Z.of_N (Ascii.N_of_ascii c).
Definition chars (s : string) : list Ascii.ascii := String.list_ascii_of_string s.

Lemma chars_app a b : chars (a +:+ b) = chars a ++ chars b.
Proof. induction a as [|c a IH]; [done|]. exact (f_equal (cons c) IH). Qed.

Lemma chars_length s : length (chars s) = String.length s.
Proof. unfold chars. induction s; simpl; congruence. Qed.

Lemma code_inj a b : code a = code b -> a = b.
Proof.
  unfold code. intros H. apply N2Z.inj in H.
  by rewrite <- (Ascii.ascii_N_embedding a), <- (Ascii.ascii_N_embedding b), H.
Qed.

Lemma chars_inj a b : chars a = chars b -> a = b.
Proof. intros H. rewrite <- (String.string_of_list_ascii_of_string a), <- (String.string_of_list_ascii_of_string b). f_equal. exact H. Qed.

Definition between (lo hi x : Z) : bool := (lo <=? x) && (x <=? hi).
Definition is_digit (c : Ascii.ascii) : bool := between 48 57 (code c).
Definition is_lower (c : Ascii.ascii) : bool := between 97 122 (code c).
Definition is_upper (c : Ascii.ascii) : bool := between 65 90 (code c).
Definition is_hex_lower (c : Ascii.ascii) : bool := is_digit c || between 97 102 (code c).
Definition is_hex (c : Ascii.ascii) : bool := is_hex_lower c || between 65 70 (code c).

(** [/^[0-9a-f]{2}(:[0-9a-f]{2}){5}$/] *)
Fixpoint uid_tail (n : nat) (l : list Ascii.ascii) : bool :=
  match n, l with
  | O, [] => true
  | S n', c0 :: c1 :: c2 :: l' =>
      (code c0 =? 58) && is_hex_lower c1 && is_hex_lower c2 && uid_tail n' l'
  | _, _ => false
  end.
Definition is_uid (s : string) : bool :=
  match chars s with
  | a :: b :: l => is_hex_lower a && is_hex_lower b && uid_tail 5 l
  | _ => false
  end.

(** [/^[0-9a-f]{64}$/] *)
Definition is_hex64 (s : string) : bool := Nat.eqb (String.length s) 64 && forallb is_hex_lower (chars s).

Definition js_length (s : string) : Z := Z.of_nat (String.length s).

Lemma js_length_app a b : js_length (a +:+ b) = js_length a + js_length b.
Proof. unfold js_length. rewrite <- !chars_length, chars_app, length_app. lia. Qed.

Definition starts_with (p s : string) : bool := String.prefix p s.
Definition includes {A} `{EqDecision A} (x : A) (l : list A) : bool := bool_decide (x ∈ l).

Lemma includes_true {A} `{EqDecision A} (x : A) l : includes x l = true <-> x ∈ l.
Proof. apply bool_decide_eq_true. Qed.
Lemma includes_false {A} `{EqDecision A} (x : A) l : includes x l = false <-> x ∉ l.
Proof. apply bool_decide_eq_false. Qed.

(** [String(n)] for an integer. *)
Definition show (z : Z) : string := pretty z.

Lemma digits_char n : is_digit (pretty_N_char n) = true.
Proof. unfold pretty_N_char. by repeat case_match. Qed.

(** A whole number below [10 ^ k] is shown as at most [k] digits. *)
Lemma show_go_digits k : forall x s, (x < 10 ^ N.of_nat k)%N ->
  exists ds, chars (pretty_N_go x s) = ds ++ chars s /\ (length ds <= k)%nat /\ forallb is_digit ds = true.
Proof.
  induction k as [|k IH]; intros x s Hx; (destruct (decide (x = 0)%N) as [->|Hne]; [exists []; by split_and!; [|cbn; lia|]|]).
  - exfalso. cbn in Hx. lia.
  - rewrite pretty_N_go_step by lia. destruct (IH (x `div` 10)%N (String (pretty_N_char (x `mod` 10)) s)) as (ds & Hds & Hl & Hd).
    + apply N.Div0.div_lt_upper_bound. rewrite Nat2N.inj_succ, N.pow_succ_r' in Hx. lia.
    + exists (ds ++ [pretty_N_char (x `mod` 10)]). rewrite Hds. cbn [chars String.list_ascii_of_string]. rewrite <- app_assoc, length_app, forallb_app, Hd. cbn [forallb app length].
      rewrite digits_char. split_and!; [done|lia|done].
Qed.

Lemma show_digits n k : 0 <= n < 10 ^ Z.of_nat (S k) -> forallb is_digit (chars (show n)) = true /\ (length (chars (show n)) <= S k)%nat.
Proof.
  intros H. unfold show, pretty. destruct n as [|p|p]; [split; [done|cbn; lia]| |lia].
  change (pretty_Z (Z.pos p)) with (pretty_N (N.pos p)). unfold pretty_N. case_decide; [done|].
  destruct (show_go_digits (S k) (N.pos p) "") as (ds & -> & Hl & Hd); [|by rewrite app_nil_r].
  apply N2Z.inj_lt. rewrite N2Z.inj_pow, nat_N_Z. cbn [Z.of_N]. lia.
Qed.

#[export] Hint Resolve push_cap_length drop_old_length om_set_nodup om_del_nodup : tmedge.
#[export] Hint Rewrite @om_get_set_eq @om_get_del_eq @om_length_keys : omap.

(** ** Step relations: reachability by rule induction *)
Section steps.
Context {S E : Type} (step : S -> E -> S -> Prop).

Inductive steps : S -> list E -> S -> Prop :=
| steps_nil s : steps s [] s
| steps_cons s e s' es s'' : step s e s' -> steps s' es s'' -> steps s (e :: es) s''.

Lemma steps_invariant (I : S -> Prop) :
  (forall s e s', I s -> step s e s' -> I s') ->
  forall s es s', steps s es s' -> I s -> I s'.
Proof. intros Hstep s es s' Hs; induction Hs; eauto. Qed.

Lemma steps_app s es s' es' s'' :
  steps s es s' -> steps s' es' s'' -> steps s (es ++ es') s''.
Proof. induction 1; simpl; [done | econstructor; eauto]. Qed.

Lemma steps_snoc_inv s es e s'' :
  steps s (es ++ [e]) s'' -> exists s', steps s es s' /\ step s' e s''.
Proof.
  revert s; induction es as [|e' es IH]; simpl; intros s Hs; inversion Hs; subst.
  - match goal with H : steps _ [] _ |- _ => inversion H; subst end.
    eexists; split; [constructor | done].
  - match goal with H : steps _ (_ ++ _) _ |- _ => apply IH in H as (s1 & ? & ?) end.
    eexists; split; [econstructor; eauto | done].
Qed.
End steps.

(** Deterministic components: run a list of operations through a step function. *)
Definition run {S E} (f : S -> E -> S) (s : S) (es : list E) : S := fold_left f es s.

Lemma run_invariant {S E} (f : S -> E -> S) (I : S -> Prop) :
  (forall s e, I s -> I (f s e)) -> forall es s, I s -> I (run f s es).
Proof. intros Hf es; induction es as [|e es IH]; intros s Hs; [done|]. simpl. by apply IH, Hf. Qed.

(** [s.split(sep)] for a one-character separator, on the characters. *)
Fixpoint split_chars (sep : Ascii.ascii) (l : list Ascii.ascii) : list (list Ascii.ascii) :=
  match l with
  | [] => [[]]
  | c :: l' =>
      if bool_decide (c = sep) then [] :: split_chars sep l'
      else match split_chars sep l' with
           | [] => [[c]]
           | w :: ws => (c :: w) :: ws
           end
  end.
Definition split_on (sep : Ascii.ascii) (s : string) : list string :=
  map String.string_of_list_ascii (split_chars sep (chars s)).

(** [String.prototype.trim], of the white space below 256. *)
Definition is_space (c : Ascii.ascii) : bool := between 9 13 (code c) || (code c =? 32) || (code c =? 160).
Fixpoint trim_start (l : list Ascii.ascii) : list Ascii.ascii :=
  match l with [] => [] | c :: l' => if is_space c then trim_start l' else l end.
Definition js_trim (s : string) : string :=
  String.string_of_list_ascii (List.rev (trim_start (List.rev (trim_start (chars s))))).

(** [s.toLowerCase()], of the code units below 256. *)
Definition lower_char (c : Ascii.ascii) : Ascii.ascii :=
  if is_upper c || (between 192 222 (code c) && negb (code c =? 215)) then Ascii.ascii_of_N (Ascii.N_of_ascii c + 32) else c.
Definition js_lower (s : string) : string := String.string_of_list_ascii (map lower_char (chars s)).

(** The value of a run of decimal digits. *)
Definition digits_value (l : list Ascii.ascii) : Z := fold_left (fun n c => 10 * n + (code c - 48)) l 0.

(** [Number(text)] for a text of decimal digits (the empty text is 0). *)
Definition decimal (s : string) : option Z :=
  if forallb is_digit (chars s) then Some (digits_value (chars s)) else None.


(** ** Sorting

    [Array.prototype.sort] is stable; [before x y] says that the comparator does
    not put [y] strictly before [x]. *)
Section isort.
Context {A : Type} (before : A -> A -> bool).

Fixpoint sort_insert (x : A) (l : list A) : list A :=
  match l with
  | [] => [x]
  | y :: l' => if before x y then x :: l else y :: sort_insert x l'
  end.
Definition isort (l : list A) : list A := foldr sort_insert [] l.

Lemma sort_insert_perm x l : sort_insert x l ≡ₚ x :: l.
Proof.
  induction l as [|y l IH]; [done|]. simpl. destruct (before x y); [done|]. rewrite IH. apply Permutation_swap.
Qed.

Lemma isort_perm l : isort l ≡ₚ l.
Proof. induction l as [|x l IH]; [done|]. simpl. by rewrite sort_insert_perm, IH. Qed.

Lemma isort_length l : length (isort l) = length l.
Proof. by rewrite isort_perm. Qed.

Lemma isort_elem x l : x ∈ isort l <-> x ∈ l.
Proof. by rewrite isort_perm. Qed.

Lemma isort_sorted : (forall x y, before x y = true \/ before y x = true) ->
  (forall x y z, before x y = true -> before y z = true -> before x z = true) ->
  forall l, StronglySorted (fun x y => before x y = true) (isort l).
Proof.
  intros Htot Htr. induction l as [|x l IH]; [constructor|]. cbn [isort foldr]. fold (isort l). induction IH as [|y l' Hs IHs Hy].
  - repeat constructor.
  - cbn [sort_insert]. destruct (before x y) eqn:E.
    + constructor; [by constructor|]. constructor; [done|]. eapply Forall_impl; [exact Hy|]. intros z Hz. by eapply Htr.
    + constructor; [done|]. rewrite sort_insert_perm. constructor; [|done]. destruct (Htot x y); congruence.
Qed.
End isort.

(** ** Filtering *)

Lemma filter_filter {A} (f g : A -> bool) l : List.filter f (List.filter g l) = List.filter (fun x => g x && f x) l.
Proof. induction l as [|x l IH]; [done|]. cbn [List.filter]. destruct (g x); cbn [List.filter andb]; [destruct (f x)|]; by rewrite IH. Qed.

Lemma filter_all {A} (f : A -> bool) l : (forall x, x ∈ l -> f x = true) -> List.filter f l = l.
Proof.
  induction l as [|x l IH]; [done|]. intros H. cbn. rewrite (H x) by left. f_equal. apply IH. intros y Hy. apply H. by right.
Qed.

Lemma filter_nodup {A B} (g : A -> B) (f : A -> bool) l : NoDup (map g l) -> NoDup (map g (List.filter f l)).
Proof.
  induction l as [|x l IH]; [done|]. cbn [map List.filter]. intros [Hx Hl]%NoDup_cons. destruct (f x); [|by apply IH]. cbn [map]. apply NoDup_cons.
  split; [|by apply IH]. intros (y & E & [Hy _]%list_elem_of_In%filter_In)%list_elem_of_fmap. apply Hx, list_elem_of_fmap. exists y.
  split; [done|by apply list_elem_of_In].
Qed.

Lemma filter_in {A} (f : A -> bool) l x : x ∈ List.filter f l <-> x ∈ l /\ f x = true.
Proof. rewrite !list_elem_of_In. apply filter_In. Qed.

Lemma filter_length {A} (f : A -> bool) l : (length (List.filter f l) <= length l)%nat.
Proof. induction l as [|x l IH]; [done|]. cbn. destruct (f x); cbn; lia. Qed.

Lemma filter_Forall {A} (P : A -> Prop) f l : Forall P l -> Forall P (List.filter f l).
Proof. rewrite !Forall_forall. intros H x [Hx _]%filter_in. auto. Qed.

Lemma existsb_none {A} (f : A -> bool) l x : existsb f l = false -> x ∈ l -> f x = false.
Proof.
  intros H Hx%list_elem_of_In. destruct (f x) eqn:E; [|done]. rewrite (proj2 (existsb_exists f l)) in H by eauto. done.
Qed.

Lemma nodup_snoc {A} (l : list A) x : NoDup l -> x ∉ l -> NoDup (l ++ [x]).
Proof. intros Hl Hx. apply NoDup_app. split; [done|]. split; [by intros y Hy ->%list_elem_of_singleton|apply NoDup_singleton]. Qed.

Definition Qeqb (a b : Q) : bool := Qle_bool a b && Qle_bool b a.
Definition Qltb (a b : Q) : bool := negb (Qle_bool b a).

Lemma Qltb_lt a b : Qltb a b = true <-> (a < b)%Q.
Proof.
  unfold Qltb. rewrite negb_true_iff, <- not_true_iff_false, Qle_bool_iff. split; [apply Qnot_le_lt|apply Qlt_not_le].
Qed.

Definition Qmin' (a b : Q) : Q := if Qle_bool a b then a else b.
Definition Qmax' (a b : Q) : Q := if Qle_bool a b then b else a.
Definition Qsum (l : list Q) : Q := fold_left Qplus l 0%Q.

Lemma Qsum_acc l a : (fold_left Qplus l a == a + Qsum l)%Q.
Proof.
  revert a; induction l as [|x l IH]; intros a; unfold Qsum; cbn [fold_left]; [ring|]. rewrite IH, (IH (0 + x)%Q). ring.
Qed.

Lemma Qsum_cons x l : (Qsum (x :: l) == x + Qsum l)%Q.
Proof. unfold Qsum at 1. cbn [fold_left]. rewrite Qsum_acc. ring. Qed.

Lemma Qsum_app a b : (Qsum (a ++ b) == Qsum a + Qsum b)%Q.
Proof. induction a as [|x a IH]; cbn [app]; [unfold Qsum at 2; cbn [fold_left]; ring|]. rewrite !Qsum_cons, IH. ring. Qed.

Lemma Qsum_perm a b : a ≡ₚ b -> (Qsum a == Qsum b)%Q.
Proof. induction 1 as [|x a b _ IH|x y a|a b c _ IH1 _ IH2]; [done|by rewrite !Qsum_cons, IH|rewrite !Qsum_cons; ring|by rewrite IH1]. Qed.
