(* ===== verification/Bytes.v ===== *)
(** Buffers: byte lists, little-endian integers and the reads and writes of
    Node's [Buffer] that the wire formats and the flash images use. A read past
    the end is [None] where Node throws a RangeError. *)

From S2P Require Import Prelude.

Create Rewrite HintDb bytes.

Abbreviation bytes := (list Z) (only parsing).

Definition byte_ok (b : Z) : Prop := 0 <= b < 256.
Definition bytes_ok (bs : bytes) : Prop := Forall byte_ok bs.

(** [le n v]: [v] modulo 256^n in [n] bytes, least significant first. *)
Fixpoint le (n : nat) (v : Z) : bytes :=
  match n with
  | O => []
  | S n' => v mod 256 :: le n' (v / 256)
  end.

Fixpoint unle (bs : bytes) : Z :=
  match bs with
  | [] => 0
  | b :: bs' => b + 256 * unle bs'
  end.

(** [buf.subarray(o, o + n)] *)
Definition sub (o n : nat) (b : bytes) : bytes := take n (drop o b).

Definition byte_at (o : nat) (b : bytes) : Z := default 0 (b !! o).

Definition read_uint (n o : nat) (b : bytes) : option Z :=
  let s := sub o n b in
  if Nat.eqb (length s) n then Some (unle s) else None.

(** Two's complement on [n] bytes. *)
Definition to_signed (n : nat) (v : Z) : Z :=
  let w := 256 ^ Z.of_nat n in if 2 * v <? w then v else v - w.

Definition read_int (n o : nat) (b : bytes) : option Z :=
  to_signed n <$> read_uint n o b.

(** A write of [bs] at [o] inside the buffer. *)
Definition put (o : nat) (bs b : bytes) : bytes := take o b ++ bs ++ drop (o + length bs) b.

(** [buf[o] = v]: [v] modulo 256, ignored past the end. *)
Definition put_byte (o : nat) (v : Z) (b : bytes) : bytes := <[o := v mod 256]> b.

(** [buf.writeUIntLE]: throws when the value or the offset is out of range. *)
Definition write_uint (n o : nat) (v : Z) (b : bytes) : result string bytes :=
  throw_if negb ((0 <=? v) && (v <? 256 ^ Z.of_nat n)) with "ERR_OUT_OF_RANGE" in
  throw_if Nat.ltb (length b) (o + n) with "ERR_OUT_OF_RANGE" in
  Ok (put o (le n v) b).

Definition write_int (n o : nat) (v : Z) (b : bytes) : result string bytes :=
  let h := 256 ^ Z.of_nat n / 2 in
  throw_if negb ((- h <=? v) && (v <? h)) with "ERR_OUT_OF_RANGE" in
  throw_if Nat.ltb (length b) (o + n) with "ERR_OUT_OF_RANGE" in
  Ok (put o (le n v) b).

Definition alloc (n : nat) : bytes := replicate n 0.

(** ** Lemmas *)

Lemma length_le n v : length (le n v) = n.
Proof. revert v; induction n as [|n IH]; intros v; simpl; [done | by rewrite IH]. Qed.

Lemma le_bytes_ok n v : bytes_ok (le n v).
Proof.
  revert v; induction n as [|n IH]; intros v; simpl; constructor; [|apply IH].
  apply Z.mod_pos_bound; lia.
Qed.

Lemma pow256_S n : 256 ^ Z.of_nat (S n) = 256 * 256 ^ Z.of_nat n.
Proof. rewrite Nat2Z.inj_succ, Z.pow_succ_r; lia. Qed.

Lemma unle_range bs : bytes_ok bs -> 0 <= unle bs < 256 ^ Z.of_nat (length bs).
Proof.
  induction 1 as [|b bs Hb _ IH]; [simpl; lia|]. cbn [unle length].
  unfold byte_ok in Hb. rewrite pow256_S. lia.
Qed.

Lemma unle_le n v : unle (le n v) = v mod 256 ^ Z.of_nat n.
Proof.
  revert v; induction n as [|n IH]; intros v.
  - simpl. by rewrite Z.mod_1_r.
  - cbn [le unle]. rewrite IH, pow256_S, Z.rem_mul_r; lia.
Qed.

Lemma unle_le_id n v : 0 <= v < 256 ^ Z.of_nat n -> unle (le n v) = v.
Proof. intros H. by rewrite unle_le, Z.mod_small. Qed.

Lemma le_unle bs : bytes_ok bs -> le (length bs) (unle bs) = bs.
Proof.
  induction 1 as [|b bs Hb _ IH]; simpl; [done|]. unfold byte_ok in Hb.
  assert ((b + 256 * unle bs) mod 256 = b) as ->.
  { rewrite Z.mul_comm, Z.mod_add; [|lia]. apply Z.mod_small; lia. }
  assert ((b + 256 * unle bs) / 256 = unle bs) as ->.
  { rewrite Z.mul_comm, Z.div_add; [|lia]. rewrite Z.div_small; lia. }
  by rewrite IH.
Qed.

Lemma le_mod n v : le n (v mod 256 ^ Z.of_nat n) = le n v.
Proof.
  rewrite <- (unle_le n v). rewrite <- (length_le n v) at 1.
  apply le_unle, le_bytes_ok.
Qed.

Lemma le_inj n v w : 0 <= v < 256 ^ Z.of_nat n -> 0 <= w < 256 ^ Z.of_nat n ->
  le n v = le n w -> v = w.
Proof. intros Hv Hw H. rewrite <- (unle_le_id n v), <- (unle_le_id n w) by done. by rewrite H. Qed.

Lemma to_signed_mod n v :
  let h := 256 ^ Z.of_nat (S n) / 2 in
  - h <= v < h -> to_signed (S n) (v mod 256 ^ Z.of_nat (S n)) = v.
Proof.
  intros h Hv. unfold to_signed.
  assert (256 ^ Z.of_nat (S n) = 2 * h) as Hw.
  { unfold h. rewrite pow256_S.
    replace (256 * 256 ^ Z.of_nat n) with ((128 * 256 ^ Z.of_nat n) * 2) by lia.
    rewrite Z.div_mul; lia. }
  rewrite Hw.
  destruct (Z_lt_le_dec v 0) as [Hneg|Hpos].
  - replace (v mod (2 * h)) with (v + 2 * h).
    + destruct (Z.ltb_spec (2 * (v + 2 * h)) (2 * h)); lia.
    + rewrite <- (Z.mod_add v 1 (2 * h)), Z.mul_1_l by lia.
      symmetry; apply Z.mod_small; lia.
  - rewrite Z.mod_small by lia. destruct (Z.ltb_spec (2 * v) (2 * h)); lia.
Qed.

Lemma length_sub o n b : (o + n <= length b)%nat -> length (sub o n b) = n.
Proof. intros H. unfold sub. rewrite length_take, length_drop. lia. Qed.

Lemma sub_app_l o n b1 b2 : (o + n <= length b1)%nat -> sub o n (b1 ++ b2) = sub o n b1.
Proof. intros H. unfold sub. rewrite drop_app_le, take_app_le; [done| |]; rewrite ?length_drop; lia. Qed.

Lemma sub_app_r o n b1 b2 : (length b1 <= o)%nat -> sub o n (b1 ++ b2) = sub (o - length b1) n b2.
Proof. intros H. unfold sub. by rewrite drop_app_ge. Qed.

Lemma sub_all b n : length b = n -> sub 0 n b = b.
Proof. intros <-. unfold sub. by rewrite drop_0, firstn_all. Qed.

Lemma sub_bytes_ok o n b : bytes_ok b -> bytes_ok (sub o n b).
Proof. intros H. unfold sub. by apply Forall_take, Forall_drop. Qed.

Lemma read_uint_some n o b : (o + n <= length b)%nat -> read_uint n o b = Some (unle (sub o n b)).
Proof. intros H. unfold read_uint. by rewrite length_sub, Nat.eqb_refl. Qed.

Lemma read_uint_app_l n o b1 b2 :
  (o + n <= length b1)%nat -> read_uint n o (b1 ++ b2) = read_uint n o b1.
Proof. intros H. unfold read_uint. by rewrite sub_app_l. Qed.

Lemma read_uint_app_r n o b1 b2 :
  (length b1 <= o)%nat -> read_uint n o (b1 ++ b2) = read_uint n (o - length b1) b2.
Proof. intros H. unfold read_uint. by rewrite sub_app_r. Qed.

Lemma read_uint_le n v b : read_uint n 0 (le n v ++ b) = Some (v mod 256 ^ Z.of_nat n).
Proof.
  rewrite read_uint_app_l by (rewrite length_le; lia).
  rewrite read_uint_some by (rewrite length_le; lia).
  by rewrite sub_all, unle_le by apply length_le.
Qed.

Lemma read_uint_range n o b v : bytes_ok b -> read_uint n o b = Some v -> 0 <= v < 256 ^ Z.of_nat n.
Proof.
  intros Hb. unfold read_uint. case_match eqn:E; [|done]. intros [= <-].
  apply Nat.eqb_eq in E. pose proof (unle_range (sub o n b)) as H. rewrite E in H.
  by apply H, sub_bytes_ok.
Qed.

Lemma length_put o bs b : (o + length bs <= length b)%nat -> length (put o bs b) = length b.
Proof. intros H. unfold put. rewrite !length_app, length_take, length_drop. lia. Qed.

Lemma put_app_l o bs b1 b2 :
  (o + length bs <= length b1)%nat -> put o bs (b1 ++ b2) = put o bs b1 ++ b2.
Proof.
  intros H. unfold put. rewrite take_app_le by lia. rewrite drop_app_le by lia.
  by rewrite <- !app_assoc.
Qed.

Lemma put_app_r o bs b1 b2 :
  (length b1 <= o)%nat -> put o bs (b1 ++ b2) = b1 ++ put (o - length b1) bs b2.
Proof.
  intros H. unfold put. rewrite take_app_ge by lia. rewrite drop_app_ge by lia.
  replace (o + length bs - length b1)%nat with (o - length b1 + length bs)%nat by lia.
  by rewrite <- !app_assoc.
Qed.

Lemma put_all bs b : length bs = length b -> put 0 bs b = bs.
Proof. intros H. unfold put. simpl. rewrite drop_ge by lia. by rewrite app_nil_r. Qed.

Lemma put_bytes_ok o bs b : bytes_ok bs -> bytes_ok b -> bytes_ok (put o bs b).
Proof.
  intros Hs Hb. unfold put. repeat apply Forall_app_2; [by apply Forall_take|done|by apply Forall_drop].
Qed.

Lemma alloc_bytes_ok n : bytes_ok (alloc n).
Proof. apply Forall_replicate. unfold byte_ok; lia. Qed.

Lemma write_uint_ok n o v b :
  0 <= v < 256 ^ Z.of_nat n -> (o + n <= length b)%nat -> write_uint n o v b = Ok (put o (le n v) b).
Proof.
  intros Hv Ho. unfold write_uint.
  destruct (Z.leb_spec 0 v), (Z.ltb_spec v (256 ^ Z.of_nat n)), (Nat.ltb_spec (length b) (o + n));
    simpl; (lia || done).
Qed.

Lemma byte_at_ok o b : bytes_ok b -> byte_ok (byte_at o b).
Proof.
  intros H. unfold byte_at. destruct (b !! o) eqn:E; simpl; [|unfold byte_ok; lia].
  eapply Forall_lookup_1 in E; eauto.
Qed.

#[export] Hint Rewrite length_le unle_le @length_replicate : bytes.
#[export] Hint Resolve le_bytes_ok sub_bytes_ok put_bytes_ok alloc_bytes_ok byte_at_ok : tmedge.

(** ** Hexadecimal text *)

Definition hex_digit (n : Z) : Ascii.ascii :=
  Ascii.ascii_of_N (Z.to_N (if n <? 10 then 48 + n else 87 + n)).

(** [b.toString(16).padStart(2, '0')] *)
Definition hex_byte (b : Z) : list Ascii.ascii := [hex_digit (b / 16); hex_digit (b mod 16)].
Definition hex_chars (bs : bytes) : list Ascii.ascii := bs ≫= hex_byte.
Definition to_hex (bs : bytes) : string := String.string_of_list_ascii (hex_chars bs).

Definition hex_val (c : Ascii.ascii) : option Z :=
  let n := code c in
  if between 48 57 n then Some (n - 48)
  else if between 97 102 n then Some (n - 87)
  else if between 65 70 n then Some (n - 55)
  else None.

(** [Buffer.from(text, 'hex')]: decodes pairs and stops at the first that is not one. *)
Fixpoint from_hex_chars (l : list Ascii.ascii) : bytes :=
  match l with
  | a :: b :: l' =>
      match hex_val a, hex_val b with
      | Some x, Some y => 16 * x + y :: from_hex_chars l'
      | _, _ => []
      end
  | _ => []
  end.
Definition from_hex (s : string) : bytes := from_hex_chars (chars s).

(** Six bytes as [aa:bb:cc:dd:ee:ff]. *)
Fixpoint uid_chars (bs : bytes) : list Ascii.ascii :=
  match bs with
  | [] => []
  | [b] => hex_byte b
  | b :: bs' => hex_byte b ++ Ascii.ascii_of_N 58 :: uid_chars bs'
  end.
Definition uid_text (bs : bytes) : string := String.string_of_list_ascii (uid_chars bs).

(** The characters of a string as bytes ([Buffer.from(s, 'latin1')]), and back. *)
Definition bytes_of_string (s : string) : bytes := map code (chars s).
Definition string_of_bytes (bs : bytes) : string :=
  String.string_of_list_ascii (map (fun b => Ascii.ascii_of_N (Z.to_N (b mod 256))) bs).

Lemma chars_of_list l : chars (String.string_of_list_ascii l) = l.
Proof. apply String.list_ascii_of_string_of_list_ascii. Qed.

Lemma string_of_chars s : String.string_of_list_ascii (chars s) = s.
Proof. apply String.string_of_list_ascii_of_string. Qed.

(** What holds of every byte by computation over all 256 of them. *)
Lemma byte_forall (P : Z -> bool) :
  forallb P (map Z.of_nat (List.seq 0 256)) = true -> forall b, byte_ok b -> P b = true.
Proof.
  intros H b Hb. apply (proj1 (forallb_forall _ _) H). apply List.in_map_iff.
  exists (Z.to_nat b). unfold byte_ok in Hb. split; [lia|]. apply List.in_seq. lia.
Qed.

Definition hex_byte_test (b : Z) : bool :=
  match hex_byte b with
  | [x; y] => is_hex_lower x && is_hex_lower y &&
      match hex_val x, hex_val y with Some p, Some q => 16 * p + q =? b | _, _ => false end
  | _ => false
  end.

Lemma hex_byte_spec b : byte_ok b ->
  exists x y p q, hex_byte b = [x; y] /\ is_hex_lower x = true /\ is_hex_lower y = true /\
    hex_val x = Some p /\ hex_val y = Some q /\ 16 * p + q = b.
Proof.
  intros Hb. assert (hex_byte_test b = true) as H.
  { revert b Hb. apply byte_forall. vm_compute. reflexivity. }
  unfold hex_byte_test, hex_byte in *. set (x := hex_digit (b / 16)) in *. set (y := hex_digit (b mod 16)) in *.
  exists x, y. rewrite !andb_true_iff in H. destruct H as [[Hx Hy] H].
  destruct (hex_val x) as [p|]; [|done]. destruct (hex_val y) as [q|]; [|done].
  apply Z.eqb_eq in H. exists p, q. by split_and!.
Qed.

Lemma from_hex_to_hex bs : bytes_ok bs -> from_hex (to_hex bs) = bs.
Proof.
  intros H. unfold from_hex, to_hex. rewrite chars_of_list. unfold hex_chars.
  induction H as [|b bs Hb _ IH]; [done|].
  destruct (hex_byte_spec b Hb) as (x & y & p & q & Hxy & _ & _ & Hp & Hq & Hpq).
  cbn [mbind list_bind]. rewrite Hxy. simpl. rewrite Hp, Hq. by f_equal.
Qed.

Lemma to_hex_inj b1 b2 : bytes_ok b1 -> bytes_ok b2 -> to_hex b1 = to_hex b2 -> b1 = b2.
Proof. intros H1 H2 H. rewrite <- (from_hex_to_hex b1), <- (from_hex_to_hex b2) by done. by rewrite H. Qed.

(** The two characters of a byte's text, as a destructuring tactic for proofs over text. *)
Ltac destruct_hex b :=
  let x := fresh "x" in let y := fresh "y" in
  let Hxy := fresh "Hxy" in let Hx := fresh "Hx" in let Hy := fresh "Hy" in
  let p := fresh "p" in let q := fresh "q" in let Hp := fresh "Hp" in
  let Hq := fresh "Hq" in let Hpq := fresh "Hpq" in
  match goal with H : byte_ok b |- _ =>
    destruct (hex_byte_spec b H) as (x & y & p & q & Hxy & Hx & Hy & Hp & Hq & Hpq) end.

Lemma six_bytes (bs : bytes) : length bs = 6%nat -> bytes_ok bs ->
  exists a b c d e f, bs = [a; b; c; d; e; f] /\ byte_ok a /\ byte_ok b /\ byte_ok c /\
    byte_ok d /\ byte_ok e /\ byte_ok f.
Proof.
  intros Hl H. do 6 (destruct bs as [|? bs]; [done|]). destruct bs; [|done].
  unfold bytes_ok in H.
  repeat match goal with H : Forall byte_ok (_ :: _) |- _ => apply Forall_cons in H as [? H] end.
  do 6 eexists. by split_and!.
Qed.

Lemma uid_text_is_uid bs : length bs = 6%nat -> bytes_ok bs -> is_uid (uid_text bs) = true.
Proof.
  intros Hl H. destruct (six_bytes bs Hl H) as (a & b & c & d & e & f & -> & ? & ? & ? & ? & ? & ?).
  unfold is_uid, uid_text. rewrite chars_of_list.
  destruct_hex a. destruct_hex b. destruct_hex c. destruct_hex d. destruct_hex e. destruct_hex f.
  cbn [uid_chars]. repeat match goal with H : hex_byte _ = _ |- _ => rewrite H; clear H end.
  cbn [app]. repeat match goal with H : is_hex_lower _ = true |- _ => rewrite H; clear H end.
  cbn [uid_tail andb]. repeat match goal with H : is_hex_lower _ = true |- _ => rewrite H; clear H end.
  reflexivity.
Qed.

(** ** Layout proofs

    A builder writes fields into a buffer of known size. The tactics below
    replace each field by as many byte variables as it has, so that the buffer
    computes to its layout. *)
Ltac explode_list l H :=
  lazymatch type of H with
  | length l = O => destruct l; [clear H | discriminate H]
  | length l = S _ =>
      let b := fresh "b" in
      destruct l as [|b l]; [discriminate H | cbn [length] in H; apply eq_add_S in H; explode_list l H]
  end.

Ltac explode_le n v :=
  let l := fresh "l" in let H := fresh "Hlen" in
  pose proof (length_le n v) as H; revert H; generalize (le n v); intros l H; explode_list l H.

Ltac explode_les :=
  repeat match goal with |- context [put _ (le ?n ?v) _] => explode_le n v end.

(** Discharge the range and length conditions of a write whose buffer computes. *)
Ltac solve_write := first [ lia | simpl; lia | (vm_compute; lia) ].

Ltac step_write :=
  rewrite write_uint_ok; [ cbn [rbind]; explode_les; cbn [put take drop app length Nat.add] | try solve_write | try solve_write ].

Lemma write_int_ok n o v b :
  - (256 ^ Z.of_nat n / 2) <= v < 256 ^ Z.of_nat n / 2 -> (o + n <= length b)%nat ->
  write_int n o v b = Ok (put o (le n v) b).
Proof.
  intros Hv Ho. unfold write_int.
  destruct (Z.leb_spec (- (256 ^ Z.of_nat n / 2)) v), (Z.ltb_spec v (256 ^ Z.of_nat n / 2)),
    (Nat.ltb_spec (length b) (o + n)); simpl; (lia || done).
Qed.

Lemma read_int_le n v b :
  - (256 ^ Z.of_nat (S n) / 2) <= v < 256 ^ Z.of_nat (S n) / 2 -> read_int (S n) 0 (le (S n) v ++ b) = Some v.
Proof. intros H. unfold read_int. rewrite read_uint_le. cbn [fmap option_fmap option_map]. by rewrite to_signed_mod. Qed.

Lemma read_uint_le_id n v b : 0 <= v < 256 ^ Z.of_nat n -> read_uint n 0 (le n v ++ b) = Some v.
Proof. intros H. by rewrite read_uint_le, Z.mod_small. Qed.

(** Reading past a field of known length. *)
Lemma read_uint_skip n o l b : (length l <= o)%nat ->
  read_uint n o (l ++ b) = read_uint n (o - length l) b.
Proof. apply read_uint_app_r. Qed.
Lemma read_int_skip n o l b : (length l <= o)%nat ->
  read_int n o (l ++ b) = read_int n (o - length l) b.
Proof. intros H. unfold read_int. by rewrite read_uint_app_r. Qed.
Lemma byte_at_skip o l b : (length l <= o)%nat -> byte_at o (l ++ b) = byte_at (o - length l) b.
Proof. intros H. unfold byte_at. by rewrite lookup_app_r. Qed.

Lemma unle_le_keep n v : 0 <= v < 256 ^ Z.of_nat n -> exists l, le n v = l /\ length l = n /\ unle l = v.
Proof. intros H. exists (le n v). by rewrite length_le, unle_le_id. Qed.

(** Explode a field but remember the value its bytes denote. *)
Ltac explode_val n v :=
  let l := fresh "l" in let El := fresh "El" in let H := fresh "Hlen" in let E := fresh "Eval" in
  destruct (unle_le_keep n v) as (l & El & H & E); [try solve [lia | vm_compute; lia] |];
  rewrite ?El in *; explode_list l H.

(** Compute the reads of a buffer whose first bytes are explicit. *)
Ltac read_fields :=
  unfold read_uint, read_int, sub, byte_at, read_uint; cbn [take drop length Nat.eqb app lookup list_lookup
    of_option rbind default from_option id fmap option_fmap option_map].

(** *** Filling a fresh buffer in order

    Each builder writes at the end of what it has written so far; the rest of
    the buffer is still zero. *)
Lemma put_fill o bs pre k : o = length pre -> (length bs <= k)%nat ->
  put o bs (pre ++ alloc k) = (pre ++ bs) ++ alloc (k - length bs).
Proof.
  intros -> Hk. rewrite put_app_r by lia. rewrite Nat.sub_diag. unfold put. cbn [take app].
  unfold alloc. by rewrite drop_replicate, <- app_assoc.
Qed.

Lemma write_uint_fill n o v pre k : o = length pre -> 0 <= v < 256 ^ Z.of_nat n -> (n <= k)%nat ->
  write_uint n o v (pre ++ alloc k) = Ok ((pre ++ le n v) ++ alloc (k - n)).
Proof.
  intros Ho Hv Hk. rewrite write_uint_ok; [|done|rewrite length_app; unfold alloc; rewrite length_replicate; lia].
  rewrite put_fill by (rewrite ?length_le; done). by rewrite length_le.
Qed.

Lemma write_int_fill n o v pre k : o = length pre ->
  - (256 ^ Z.of_nat n / 2) <= v < 256 ^ Z.of_nat n / 2 -> (n <= k)%nat ->
  write_int n o v (pre ++ alloc k) = Ok ((pre ++ le n v) ++ alloc (k - n)).
Proof.
  intros Ho Hv Hk. rewrite write_int_ok; [|done|rewrite length_app; unfold alloc; rewrite length_replicate; lia].
  rewrite put_fill by (rewrite ?length_le; done). by rewrite length_le.
Qed.

Lemma put_byte_fill o v pre k : o = length pre -> (1 <= k)%nat ->
  put_byte o v (pre ++ alloc k) = (pre ++ [v mod 256]) ++ alloc (k - 1).
Proof.
  intros -> Hk. unfold put_byte, alloc. destruct k as [|k]; [lia|].
  rewrite insert_app_r_alt by lia. rewrite Nat.sub_diag. cbn [replicate]. rewrite <- app_assoc. cbn.
  by rewrite Nat.sub_0_r.
Qed.

Ltac fill_side := rewrite ?length_app, ?length_le; cbn [length]; first [lia | done | (vm_compute; lia)].

(** One sequential write of a layout proof. *)
Ltac fill :=
  first [ rewrite write_uint_fill by fill_side; cbn [rbind]
        | rewrite write_int_fill by fill_side; cbn [rbind]
        | rewrite put_byte_fill by fill_side
        | rewrite put_fill by fill_side ].
