(* ===== verification/Json.v ===== *)
(** JSON values as [JSON.parse] returns them, and the tests the code makes on
    a value of unknown shape. A number is the exact rational of its text; an
    object is the list of its keys in order, each once. *)

From S2P Require Import Prelude.

#[warnings="-register-all"]
Inductive json : Type :=
| JNull
| JBool (b : bool)
| JNum (q : Q)
| JStr (s : string)
| JArr (l : list json)
| JObj (fields : list (string * json)).

(** [typeof v === 'object' && v !== null && !Array.isArray(v)] *)
Definition as_object (v : json) : option (list (string * json)) :=
  match v with JObj f => Some f | _ => None end.
Definition as_array (v : json) : option (list json) :=
  match v with JArr l => Some l | _ => None end.
Definition as_string (v : json) : option string :=
  match v with JStr s => Some s | _ => None end.
Definition as_bool (v : json) : option bool :=
  match v with JBool b => Some b | _ => None end.

(** A field: [None] is [undefined]. *)
Definition field (k : string) (o : list (string * json)) : option json := om_get k o.

(** [Number.isInteger], with the integer. *)
Definition as_integer (v : json) : option Z :=
  match v with
  | JNum q => if Qnum q mod Zpos (Qden q) =? 0 then Some (Qnum q / Zpos (Qden q)) else None
  | _ => None
  end.

Definition max_safe : Z := 2 ^ 53 - 1.

(** [Number.isSafeInteger] *)
Definition as_safe_integer (v : json) : option Z :=
  match as_integer v with
  | Some z => if (- max_safe <=? z) && (z <=? max_safe) then Some z else None
  | None => None
  end.

Definition JInt (z : Z) : json := JNum (z # 1).

(** [Object.keys(o).some((k) => !allowed.includes(k))] *)
Definition has_extra (allowed : list string) (o : list (string * json)) : bool :=
  existsb (fun k => negb (includes k allowed)) (om_keys o).

Lemma as_integer_JInt z : as_integer (JInt z) = Some z.
Proof. unfold as_integer, JInt; simpl. by rewrite Z.mod_1_r, Z.div_1_r. Qed.

Lemma as_safe_integer_JInt z : - max_safe <= z <= max_safe -> as_safe_integer (JInt z) = Some z.
Proof.
  intros H. unfold as_safe_integer. rewrite as_integer_JInt.
  destruct (Z.leb_spec (- max_safe) z), (Z.leb_spec z max_safe); simpl; (lia || done).
Qed.

Lemma as_safe_integer_range v z : as_safe_integer v = Some z -> - max_safe <= z <= max_safe.
Proof.
  unfold as_safe_integer. destruct (as_integer v) as [z'|]; [|done].
  case_match eqn:E; [|done]. intros [= <-]. apply andb_true_iff in E as [?%Z.leb_le ?%Z.leb_le]. lia.
Qed.

(** What [JSON.parse] guarantees: every object has each key once. *)
Fixpoint json_wf (v : json) : bool :=
  match v with
  | JArr l => forallb json_wf l
  | JObj f =>
      bool_decide (NoDup (om_keys f)) && forallb (fun p => json_wf p.2) f
  | _ => true
  end.

Lemma json_wf_field f k v : json_wf (JObj f) = true -> field k f = Some v -> json_wf v = true.
Proof.
  cbn [json_wf]. intros [_ H]%andb_true_iff Hf. apply om_get_elem in Hf.
  apply list_elem_of_In in Hf. by apply (proj1 (forallb_forall _ _) H _ Hf).
Qed.

Lemma json_wf_keys f : json_wf (JObj f) = true -> NoDup (om_keys f).
Proof. cbn [json_wf]. by intros [?%bool_decide_eq_true _]%andb_true_iff. Qed.

(** [JSON.parse] of a UTF-8 text ([None] when it throws) and [JSON.stringify]. *)
Class JsonText := { json_parse : list Z -> option json; json_text : json -> list Z }.

(** [String(v)] of a JSON value; [None] is a [TypeError]. *)
Class Texts := { text_of : json -> option string }.

(** [localeCompare] of the host, negative, zero or positive. *)
Class Collation := { localeCompare : string -> string -> Z }.

(** ** Reading a document back *)

Definition is_some {A} (o : option A) : bool := match o with Some _ => true | None => false end.

Definition text_where (p : string -> bool) (v : option json) : option string := s ← v ≫= as_string; if p s then Some s else None.
Definition null_or {A} (f : option json -> option A) (v : option json) : option (option A) := match v with Some JNull => Some None | _ => Some <$> f v end.
(** [typeof v === 'number' && Number.isFinite(v) && v >= 0] *)
Definition time_of (v : option json) : option Q := match v with Some (JNum q) => if Qle_bool 0 q then Some q else None | _ => None end.

(** [version === 1] *)
Definition version_one (o : list (string * json)) : bool := match field "version" o with Some (JNum q) => Qeqb q 1 | _ => false end.

(** A text or [null]. *)
Definition opt_text (o : option string) : json := match o with Some s => JStr s | None => JNull end.

Lemma time_of_ok q : Qle_bool 0 q = true -> time_of (Some (JNum q)) = Some q.
Proof. intros H. unfold time_of. by rewrite H. Qed.

Lemma mapM_roundtrip {A B} (f : A -> option B) (g : B -> A) l : Forall (fun x => f (g x) = Some x) l -> mapM f (map g l) = Some l.
Proof. induction 1 as [|x l Hx Hl IH]; [done|]. cbn [map mapM]. rewrite Hx. cbn [mbind option_bind]. by rewrite IH. Qed.

(** ** How long a text is *)

(** The bytes of a character in [JSON.stringify], in UTF-8: seven have a short
    escape, the other control characters a long one. *)
Definition json_width (c : Ascii.ascii) : Z :=
  if includes (code c) [34; 92; 8; 9; 10; 12; 13] then 2 else if code c <? 32 then 6 else if code c <? 128 then 1 else 2.
Definition text_bytes (s : string) : Z := foldr (fun c n => json_width c + n) 2 (chars s).

(** A whole number below 10^21 has its digits. Any other is counted with 25, the
    most that are written. *)
Definition number_bytes (q : Q) : Z :=
  match as_integer (JNum q) with Some z => if Z.abs z <? 10 ^ 21 then js_length (show z) else 25 | None => 25 end.

(** The bytes between two brackets, with a comma between two items. *)
Definition list_bytes (l : list Z) : Z := match l with [] => 2 | n :: l => foldr (fun n m => 1 + n + m) (2 + n) l end.

Fixpoint json_bytes (v : json) : Z :=
  match v with
  | JNull => 4
  | JBool b => if b then 4 else 5
  | JNum q => number_bytes q
  | JStr s => text_bytes s
  | JArr l => list_bytes (map json_bytes l)
  | JObj f => list_bytes (map (fun e => text_bytes e.1 + 1 + json_bytes e.2) f)
  end.

(** A character that stands for itself. *)
Definition plain (c : Ascii.ascii) : bool := (32 <=? code c) && (code c <? 127) && negb (code c =? 34) && negb (code c =? 92).

Lemma text_bytes_plain s : forallb plain (chars s) = true -> text_bytes s = 2 + js_length s.
Proof.
  unfold text_bytes, js_length. rewrite <- chars_length. induction (chars s) as [|c l IH]; [done|]. cbn [forallb foldr length]. intros [Hc Hl]%andb_true_iff.
  rewrite IH by done. unfold plain in Hc. assert (json_width c = 1) as ->; [|lia]. unfold json_width. rewrite (proj2 (includes_false _ _)).
  - destruct (Z.ltb_spec (code c) 32); [lia|]. destruct (Z.ltb_spec (code c) 128); [done|lia].
  - rewrite !not_elem_of_cons. split_and!; try lia. apply not_elem_of_nil.
Qed.

Lemma number_bytes_bound q : 0 <= number_bytes q <= 25.
Proof.
  unfold number_bytes. destruct (as_integer _) as [z|]; [|lia]. destruct (Z.ltb_spec (Z.abs z) (10 ^ 21)) as [Hz|]; [|lia]. unfold js_length. split; [lia|].
  destruct (Z.le_gt_cases 0 z) as [H|H].
  - destruct (show_digits z 21) as [_ Hl]; [change (Z.of_nat 22) with 22; lia|]. rewrite <- chars_length. lia.
  - destruct (show_digits (- z) 21) as [_ Hl]; [change (Z.of_nat 22) with 22; lia|]. assert (show z = "-" +:+ show (- z)) as ->.
    { unfold show. destruct z; try lia. done. }
    rewrite <- chars_length, chars_app, length_app. cbn [length chars String.list_ascii_of_string]. lia.
Qed.

Lemma list_bytes_bound l m : (forall n, n ∈ l -> n <= m) -> 0 <= m -> list_bytes l <= 2 + Z.of_nat (length l) * (m + 1).
Proof.
  intros Hl Hm. destruct l as [|n l]; [cbn; lia|]. cbn [list_bytes length].
  assert (foldr (fun n m => 1 + n + m) (2 + n) l <= 2 + n + Z.of_nat (length l) * (m + 1)) as Hf.
  { assert (forall k, k ∈ l -> k <= m) as Hl' by (intros k Hk; apply Hl; by right). clear Hl. induction l as [|k l IH]; [cbn; lia|]. cbn [foldr length].
    assert (k <= m) by (apply Hl'; by left). assert (foldr (fun n m => 1 + n + m) (2 + n) l <= 2 + n + Z.of_nat (length l) * (m + 1)) by (apply IH; intros j Hj; apply Hl'; by right). lia. }
  assert (n <= m) by (apply Hl; by left). lia.
Qed.
