(* ===== verification/Secure.v ===== *)
(** Encrypted wire v2 and the key policies (src/edge/secure.ts): the
    authenticated header, the AES-GCM envelope around a v1 payload, the
    per-device keys with rotation and revocation, and the per-gateway tokens.
    The primitives of node:crypto are the operations of the class [Crypto];
    [CryptoLaws] states what the code relies on. *)

From S2P Require Import Prelude Bytes Json.

(** node:crypto *)
Class Crypto := {
  hmac_sha256 : list Z -> list Z -> list Z;
  hkdf_sha256 : list Z -> list Z -> list Z -> nat -> list Z;
  gcm_seal : list Z -> list Z -> list Z -> list Z -> list Z * list Z;
  gcm_open : list Z -> list Z -> list Z -> list Z -> list Z -> option (list Z);
}.

Class CryptoLaws `{Crypto} := {
  hmac_length k d : length (hmac_sha256 k d) = 32%nat;
  hmac_bytes k d : bytes_ok (hmac_sha256 k d);
  hkdf_length k s i n : length (hkdf_sha256 k s i n) = n;
  gcm_open_seal k n a p : gcm_open k n a (gcm_seal k n a p).1 (gcm_seal k n a p).2 = Some p;
  gcm_cipher_length k n a p : length (gcm_seal k n a p).1 = length p;
  gcm_tag_length k n a p : length (gcm_seal k n a p).2 = 16%nat;
}.

(** ** The envelope *)

(** @edge/secure.ts 5-5 SECURE_VERSION *)
Definition SECURE_VERSION : Z := 2.
(** @edge/secure.ts 6-6 SECURE_HEADER *)
Definition SECURE_HEADER : nat := 42.
(** @edge/secure.ts 7-7 SECURE_TAG *)
Definition SECURE_TAG : nat := 16.
(** @edge/secure.ts 8-8 SECURE_MAX *)
Definition SECURE_MAX : nat := SECURE_HEADER + 776 + SECURE_TAG.
(** @edge/secure.ts 9-9 TYPE_ACK *)
Definition TYPE_ACK : Z := 18.
(** @edge/secure.ts 10-10 TYPE_CONTROL *)
Definition TYPE_CONTROL : Z := 19.

(** @edge/secure.ts 15-15 SecureHeader *)
Record SecureHeader := {
  sh_type : Z; sh_uid : string; sh_boot : Z; sh_seq : Z; sh_uptimeMs : Z; sh_keyId : Z;
  sh_epoch : list Z }.

(** @edge/secure.ts 16-19 uidBytes *)
Definition uidBytes (uid : string) : result string (list Z) :=
  throw_if negb (is_uid uid) with "invalid device identity" in
  Ok (from_hex_chars (List.filter (fun c => negb (code c =? 58)) (chars uid))).

(** @edge/secure.ts 20-24 deriveKey *)
Definition deriveKey `{Crypto} (master : list Z) (uid : string) (id : Z) (role : string)
    (salt : list Z) : result string (list Z) :=
  throw_if negb (Nat.eqb (length master) 32) || (id <? 1) || (65535 <? id) with "invalid device key" in
  let! u := uidBytes uid in
  let! tail := write_uint 2 6 id (put 0 u (alloc 8)) in
  Ok (hkdf_sha256 master salt (bytes_of_string ("tmsense2/" +:+ role) ++ [0] ++ tail) 32).

Definition ERR_SHAPE : string := "invalid encrypted packet".
Definition ERR_RANGE : string := "ERR_OUT_OF_RANGE".

(** A read the code makes at a fixed offset: out of range is Node's RangeError. *)
Definition rd (n o : nat) (b : list Z) : result string Z := of_option ERR_RANGE (read_uint n o b).
Definition rds (n o : nat) (b : list Z) : result string Z := of_option ERR_RANGE (read_int n o b).

(** @edge/secure.ts 25-30 secureHeader *)
Definition secureHeader (buf : list Z) : result string SecureHeader :=
  throw_if Nat.ltb (length buf) (SECURE_HEADER + SECURE_TAG) || Nat.ltb SECURE_MAX (length buf)
    || negb (bool_decide (buf !! 0%nat = Some 84)) || negb (bool_decide (buf !! 1%nat = Some 77))
    || negb (bool_decide (buf !! 2%nat = Some 2)) with ERR_SHAPE in
  let! len := rd 2 22 buf in
  let! keyId := rd 2 24 buf in
  throw_if negb (len + Z.of_nat (SECURE_HEADER + SECURE_TAG) =? Z.of_nat (length buf)) || (keyId =? 0)
    with "encrypted length or key id" in
  let! boot := rd 4 10 buf in
  let! seq := rd 4 14 buf in
  let! up := rd 4 18 buf in
  Ok {| sh_type := byte_at 3 buf; sh_uid := uid_text (sub 4 6 buf); sh_boot := boot; sh_seq := seq;
        sh_uptimeMs := up; sh_keyId := keyId; sh_epoch := sub 26 16 buf |}.

(** @edge/secure.ts 31-33 nonce *)
Definition nonce (boot seq : Z) : result string (list Z) :=
  let! b := write_uint 4 4 boot (alloc 12) in write_uint 4 8 seq b.

(** @edge/secure.ts 34-41 encryptPayload *)
Definition encryptPayload `{Crypto} (h : SecureHeader) (payload key epoch : list Z) : result string (list Z) :=
  throw_if Nat.ltb 776 (length payload) || negb (Nat.eqb (length epoch) 16) || negb (Nat.eqb (length key) 32)
    with "encrypted payload too large or invalid key" in
  let b := put 0 [84; 77] (alloc SECURE_HEADER) in
  let b := put_byte 3 (sh_type h) (put_byte 2 2 b) in
  let! u := uidBytes (sh_uid h) in
  let b := put 4 u b in
  let! b := write_uint 4 10 (sh_boot h) b in
  let! b := write_uint 4 14 (sh_seq h) b in
  let! b := write_uint 4 18 (sh_uptimeMs h) b in
  let! b := write_uint 2 22 (Z.of_nat (length payload)) b in
  let! b := write_uint 2 24 (sh_keyId h) b in
  let b := put 26 epoch b in
  let! n := nonce (sh_boot h) (sh_seq h) in
  let ct := gcm_seal key n b payload in
  Ok (b ++ ct.1 ++ ct.2).

(** @edge/secure.ts 42-50 decryptPayload *)
Definition decryptPayload `{Crypto} (buf key : list Z) : result string (SecureHeader * list Z) :=
  let! h := secureHeader buf in
  match nonce (sh_boot h) (sh_seq h) with
  | Err _ => Err "encrypted authentication failed"
  | Ok n =>
      let l := length buf in
      match gcm_open key n (take SECURE_HEADER buf) (sub SECURE_HEADER (l - SECURE_TAG - SECURE_HEADER) buf)
              (drop (l - SECURE_TAG) buf) with
      | Some p => Ok (h, p)
      | None => Err "encrypted authentication failed"
      end
  end.

(** ** Device keys *)

(** @edge/secure.ts 13-13 DeviceKey *)
Record DeviceKey := { dk_id : Z; dk_master : list Z; dk_expiresAt : option Z }.
(** @edge/secure.ts 14-14 Device *)
Record Device := { dv_current : DeviceKey; dv_previous : option DeviceKey; dv_revoked : bool }.
(** @edge/secure.ts 65-67 DeviceKeys *)
Record DeviceKeys := { dks_devices : list (string * Device); dks_legacy : list string }.

(** @edge/secure.ts 52-58 encryptPacket *)
Definition encryptPacket `{Crypto} (legacy : list Z) (device : DeviceKey) (boot : Z) (epoch : list Z)
    (role : string) : result string (list Z) :=
  let uid := uid_text (sub 4 6 legacy) in
  let isDown := (byte_at 3 legacy =? 16) || (byte_at 3 legacy =? 17) in
  let! seq := rd 4 (if isDown then 22 else 12)%nat legacy in
  let! up := rd 4 16 legacy in
  let! key := deriveKey (dk_master device) uid (dk_id device) role epoch in
  encryptPayload {| sh_type := byte_at 3 legacy; sh_uid := uid; sh_boot := boot; sh_seq := seq;
                    sh_uptimeMs := up; sh_keyId := dk_id device; sh_epoch := epoch |}
    (sub 22 (length legacy - 8 - 22) legacy) key epoch.

(** @edge/secure.ts 60-63 object *)
Definition object (v : option json) : result string (list (string * json)) :=
  of_option "invalid device key file" (v ≫= as_object).

Definition is_secret (s : string) : bool :=
  Nat.eqb (String.length s) 64 && forallb is_hex_lower (chars s).
Definition all_zero (s : string) : bool := forallb (fun c => code c =? 48) (chars s).

(** The nested [key] function of the constructor: [secrets] is the set it fills.
    @edge/secure.ts 74-81 key *)
Definition parse_key (now : Z) (secrets : list string) (v : option json) (previous : bool) :
    result string (DeviceKey * list string) :=
  let! k := object v in
  throw_if has_extra ["id"; "secret"; "expiresAt"] k with "invalid per-device key" in
  match (field "id" k ≫= as_integer), (field "secret" k ≫= as_string) with
  | Some id, Some secret =>
      throw_if (id <? 1) || (65535 <? id) || negb (is_secret secret) || all_zero secret
        with "invalid per-device key" in
      throw_if includes secret secrets with "device keys must be distinct" in
      let exp := field "expiresAt" k ≫= as_safe_integer in
      throw_if previous && match exp with Some e => now + 30 * 86400000 <? e | None => true end
        with "previous key needs a bounded expiry" in
      throw_if negb previous && match field "expiresAt" k with Some _ => true | None => false end
        with "current key cannot have a rotation expiry" in
      Ok ({| dk_id := id; dk_master := from_hex secret; dk_expiresAt := if previous then exp else None |},
          secrets ++ [secret])
  | _, _ => Err "invalid per-device key"
  end.

(** The body of the loop over the nodes of the file.
    @edge/secure.ts 82-88 DeviceKeys *)
Definition parse_device (now : Z) (st : list (string * Device) * list string) (uid : string) (v : json) :
    result string (list (string * Device) * list string) :=
  let '(devs, secrets) := st in
  let! _ := uidBytes uid in
  let! d := object (Some v) in
  throw_if has_extra ["current"; "previous"; "revoked"] d
    || match field "revoked" d with Some (JBool _) | None => false | Some _ => true end
    with "invalid device policy" in
  let! (cur, secrets) := parse_key now secrets (field "current" d) false in
  let! (prev, secrets) :=
    match field "previous" d with
    | None => Ok (None, secrets)
    | Some p => let! (k, s) := parse_key now secrets (Some p) true in Ok (Some k, s)
    end in
  throw_if match prev with Some k => dk_id k =? dk_id cur | None => false end
    with "rotation requires a new key id" in
  Ok (om_set uid {| dv_current := cur; dv_previous := prev;
                    dv_revoked := bool_decide (field "revoked" d ≫= as_bool = Some true) |} devs, secrets).

Fixpoint parse_devices (now : Z) (nodes : list (string * json)) (st : list (string * Device) * list string) :
    result string (list (string * Device) * list string) :=
  match nodes with
  | [] => Ok st
  | (uid, v) :: rest => let! st := parse_device now st uid v in parse_devices now rest st
  end.

(** @edge/secure.ts 89-92 DeviceKeys *)
Fixpoint parse_legacy (devs : list (string * Device)) (l : list json) (legacy : list string) :
    result string (list string) :=
  match l with
  | [] => Ok legacy
  | JStr uid :: rest =>
      let! _ := uidBytes uid in
      throw_if om_has uid devs || includes uid legacy with "conflicting device policy" in
      parse_legacy devs rest (legacy ++ [uid])
  | _ :: _ => Err "invalid legacy identity"
  end.

(** @edge/secure.ts 68-93 DeviceKeys.constructor *)
Definition deviceKeys (now : Z) (value : json) : result string DeviceKeys :=
  let! root := object (Some value) in
  throw_if negb (bool_decide (field "version" root ≫= as_integer = Some 2))
    || has_extra ["version"; "nodes"; "legacy"] root with "invalid device key schema" in
  let! nodes := object (field "nodes" root) in
  match match field "legacy" root with None | Some JNull => Some [] | Some v => as_array v end with
  | None => Err "device key capacity exceeded"
  | Some legacy =>
      throw_if Nat.ltb 5000 (length nodes) || Nat.ltb 5000 (length legacy) with "device key capacity exceeded" in
      let! (devs, _) := parse_devices now nodes ([], []) in
      let! leg := parse_legacy devs legacy [] in
      Ok {| dks_devices := devs; dks_legacy := leg |}
  end.

(** @edge/secure.ts 99-99 DeviceKeys.allowsLegacy *)
Definition allowsLegacy (d : DeviceKeys) (uid : string) : bool := includes uid (dks_legacy d).

(** @edge/secure.ts 100-103 DeviceKeys.keys *)
Definition device_keys (now : Z) (d : DeviceKeys) (uid : string) : list DeviceKey :=
  match om_get uid (dks_devices d) with
  | None => []
  | Some v =>
      if dv_revoked v then []
      else dv_current v :: match dv_previous v with
                           | Some p => if now <? default 0 (dk_expiresAt p) then [p] else []
                           | None => []
                           end
  end.

(** @edge/secure.ts 104-104 DeviceKeys.find *)
Definition find_key (now : Z) (d : DeviceKeys) (uid : string) (id : Z) : option DeviceKey :=
  List.find (fun k => dk_id k =? id) (device_keys now d uid).

(** ** Gateway tokens *)

Record GatewayEntry := { ge_current : list Z; ge_previous : option (list Z * Z); ge_revoked : bool }.
(** @edge/secure.ts 107-109 GatewayKeys *)
Definition GatewayKeys : Type := list (string * GatewayEntry).

(** @edge/secure.ts 114-117 token *)
Definition parse_token (seen : list string) (v : option json) : result string (list Z * list string) :=
  match v ≫= as_string with
  | Some s =>
      throw_if negb (is_secret s) || all_zero s || includes s seen
        with "gateway credentials must be distinct random 64-hex strings" in
      Ok (bytes_of_string s, seen ++ [s])
  | None => Err "gateway credentials must be distinct random 64-hex strings"
  end.

(** [/^[A-Za-z0-9._-]{1,64}$/] *)
Definition is_token_char (c : Ascii.ascii) : bool :=
  is_digit c || is_lower c || is_upper c || (code c =? 46) || (code c =? 95) || (code c =? 45).
Definition is_name (max : nat) (s : string) : bool :=
  Nat.leb 1 (String.length s) && Nat.leb (String.length s) max && forallb is_token_char (chars s).

(** @edge/secure.ts 118-129 GatewayKeys.constructor *)
Definition parse_gateway (now : Z) (st : GatewayKeys * list string) (id : string) (raw : json) :
    result string (GatewayKeys * list string) :=
  let '(entries, seen) := st in
  throw_if negb (is_name 64 id) with "invalid gateway identity" in
  let! v := object (Some raw) in
  throw_if has_extra ["current"; "previous"; "revoked"] v
    || match field "revoked" v with Some (JBool _) | None => false | Some _ => true end
    with "invalid gateway credential policy" in
  let! (previous, seen) :=
    match field "previous" v with
    | None => Ok (None, seen)
    | Some pv =>
        let! p := object (Some pv) in
        match field "expiresAt" p ≫= as_safe_integer with
        | Some e =>
            throw_if has_extra ["secret"; "expiresAt"] p || (now + 30 * 86400000 <? e)
              with "previous gateway token needs a bounded expiry" in
            let! (t, seen) := parse_token seen (field "secret" p) in Ok (Some (t, e), seen)
        | None => Err "previous gateway token needs a bounded expiry"
        end
    end in
  let! (cur, seen) := parse_token seen (field "current" v) in
  Ok (om_set id {| ge_current := cur; ge_previous := previous;
                   ge_revoked := bool_decide (field "revoked" v ≫= as_bool = Some true) |} entries, seen).

Fixpoint parse_gateways (now : Z) (l : list (string * json)) (st : GatewayKeys * list string) :
    result string (GatewayKeys * list string) :=
  match l with
  | [] => Ok st
  | (id, raw) :: rest => let! st := parse_gateway now st id raw in parse_gateways now rest st
  end.

(** @edge/secure.ts 110-130 GatewayKeys.constructor *)
Definition gatewayKeys (now : Z) (value : json) : result string GatewayKeys :=
  let! root := object (Some value) in
  let! entries := object (field "gateways" root) in
  throw_if negb (bool_decide (field "version" root ≫= as_integer = Some 1))
    || has_extra ["version"; "gateways"] root || Nat.ltb 5000 (length entries)
    with "invalid gateway credential schema" in
  let! (st, _) := parse_gateways now entries ([], []) in Ok st.

(** @edge/secure.ts 136-139 GatewayKeys.tokens *)
Definition gateway_tokens (now : Z) (g : GatewayKeys) (id : string) : list (list Z) :=
  match om_get id g with
  | None => []
  | Some e =>
      if ge_revoked e then []
      else ge_current e :: match ge_previous e with
                           | Some (t, x) => if now <? x then [t] else []
                           | None => []
                           end
  end.

(** ** Lemmas *)

Lemma uidBytes_text bs : length bs = 6%nat -> bytes_ok bs -> uidBytes (uid_text bs) = Ok bs.
Proof.
  intros Hl H. unfold uidBytes. rewrite uid_text_is_uid by done. simpl. f_equal.
  destruct (six_bytes bs Hl H) as (a & b & c & d & e & f & -> & ? & ? & ? & ? & ? & ?).
  unfold uid_text. rewrite chars_of_list.
  destruct_hex a. destruct_hex b. destruct_hex c. destruct_hex d. destruct_hex e. destruct_hex f.
  assert (forall z, is_hex_lower z = true -> (code z =? 58) = false) as Hsep.
  { intros z Hz. unfold is_hex_lower, is_digit, between in Hz. destruct (Z.eqb_spec (code z) 58) as [Hc|]; [|done].
    rewrite Hc in Hz. discriminate Hz. }
  cbn [uid_chars]. repeat match goal with H : hex_byte _ = _ |- _ => rewrite H; clear H end.
  cbn [app List.filter].
  repeat match goal with H : is_hex_lower ?z = true |- _ => rewrite (Hsep z H); clear H end.
  cbn [negb]. simpl.
  repeat match goal with H : hex_val _ = _ |- _ => rewrite H; clear H end.
  by repeat f_equal.
Qed.

Lemma nonce_layout boot seq :
  0 <= boot < 2 ^ 32 -> 0 <= seq < 2 ^ 32 ->
  nonce boot seq = Ok ([0; 0; 0; 0] ++ le 4 boot ++ le 4 seq).
Proof.
  intros Hb Hs. unfold nonce.
  rewrite write_uint_ok by (change (256 ^ Z.of_nat 4) with (2 ^ 32); rewrite ?length_replicate; simpl; lia).
  cbn [rbind].
  rewrite write_uint_ok; [reflexivity | by change (256 ^ Z.of_nat 4) with (2 ^ 32) |].
  rewrite length_put; rewrite ?length_le; simpl; lia.
Qed.

(** Distinct (boot, seq) pairs give distinct GCM nonces. *)
Lemma nonce_inj b1 s1 b2 s2 n :
  0 <= b1 < 2 ^ 32 -> 0 <= s1 < 2 ^ 32 -> 0 <= b2 < 2 ^ 32 -> 0 <= s2 < 2 ^ 32 ->
  nonce b1 s1 = Ok n -> nonce b2 s2 = Ok n -> b1 = b2 /\ s1 = s2.
Proof.
  intros ? ? ? ?. rewrite !nonce_layout by done. intros Hn1 Hn2.
  apply (Ok_inj (E := string)) in Hn1, Hn2. rewrite <- Hn2 in Hn1.
  apply app_inv_head in Hn1 as E. apply app_inj_1 in E as [E1 E2]; [|by rewrite !length_le].
  split; [by apply (le_inj 4) in E1 | by apply (le_inj 4) in E2].
Qed.

Lemma hex_val_lower c : is_hex_lower c = true -> exists x, hex_val c = Some x /\ 0 <= x < 16.
Proof.
  unfold is_hex_lower, is_digit, hex_val, between. intros H.
  destruct (Z.leb_spec 48 (code c)), (Z.leb_spec (code c) 57), (Z.leb_spec 97 (code c)),
    (Z.leb_spec (code c) 102); simpl in *; try discriminate H; eexists; (split; [reflexivity | lia]).
Qed.

Lemma hex_val_inj a b x :
  is_hex_lower a = true -> is_hex_lower b = true -> hex_val a = Some x -> hex_val b = Some x -> a = b.
Proof.
  unfold is_hex_lower, is_digit, hex_val, between. intros Ha Hb E1 E2. apply code_inj.
  revert Ha E1.
  destruct (Z.leb_spec 48 (code a)), (Z.leb_spec (code a) 57), (Z.leb_spec 97 (code a)),
    (Z.leb_spec (code a) 102); simpl; intros Ha; try discriminate Ha; intros [= E1];
  revert Hb E2;
  destruct (Z.leb_spec 48 (code b)), (Z.leb_spec (code b) 57), (Z.leb_spec 97 (code b)),
    (Z.leb_spec (code b) 102); simpl; intros Hb; try discriminate Hb; intros [= E2]; lia.
Qed.

Lemma from_hex_chars_lower l1 l2 n :
  length l1 = (n + n)%nat -> length l2 = (n + n)%nat ->
  forallb is_hex_lower l1 = true -> forallb is_hex_lower l2 = true ->
  length (from_hex_chars l1) = n /\ (from_hex_chars l1 = from_hex_chars l2 -> l1 = l2).
Proof.
  revert l1 l2; induction n as [|n IH]; intros l1 l2 Hl1 Hl2 H1 H2.
  - destruct l1, l2; done.
  - destruct l1 as [|a [|b l1]], l2 as [|c [|d l2]]; simpl in Hl1, Hl2; try lia.
    simpl in H1, H2. rewrite !andb_true_iff in H1, H2.
    destruct H1 as (Ha & Hb & H1), H2 as (Hc & Hd & H2).
    destruct (hex_val_lower a Ha) as (xa & Ea & ?), (hex_val_lower b Hb) as (xb & Eb & ?),
      (hex_val_lower c Hc) as (xc & Ec & ?), (hex_val_lower d Hd) as (xd & Ed & ?).
    destruct (IH l1 l2) as [IHl IHi]; [lia..|done|done|].
    cbn [from_hex_chars]. rewrite Ea, Eb, Ec, Ed. simpl. split; [by rewrite IHl|].
    intros E. remember (16 * xa + xb) as u. remember (16 * xc + xd) as w. injection E as Eu El.
    assert (xa = xc /\ xb = xd) as [-> ->] by lia.
    f_equal; [by eapply hex_val_inj|]. f_equal; [by eapply hex_val_inj | auto].
Qed.

Lemma secret_master_inj a b :
  is_secret a = true -> is_secret b = true -> from_hex a = from_hex b -> a = b.
Proof.
  unfold is_secret. intros [Ha1 Ha2]%andb_true_iff [Hb1 Hb2]%andb_true_iff H.
  apply Nat.eqb_eq in Ha1, Hb1. apply chars_inj.
  apply (from_hex_chars_lower (chars a) (chars b) 32); rewrite ?chars_length; done.
Qed.

(** ** The layout of an encrypted packet, and the way back *)

(** The fields an encrypted header may hold. *)
Definition header_ok (h : SecureHeader) (u : list Z) : Prop :=
  byte_ok (sh_type h) /\ length u = 6%nat /\ bytes_ok u /\ sh_uid h = uid_text u /\
  0 <= sh_boot h < 2 ^ 32 /\ 0 <= sh_seq h < 2 ^ 32 /\ 0 <= sh_uptimeMs h < 2 ^ 32 /\
  1 <= sh_keyId h < 2 ^ 16.

Definition header_bytes (h : SecureHeader) (u epoch : list Z) (len : Z) : list Z :=
  [84; 77; 2; sh_type h] ++ u ++ le 4 (sh_boot h) ++ le 4 (sh_seq h) ++ le 4 (sh_uptimeMs h)
  ++ le 2 len ++ le 2 (sh_keyId h) ++ epoch.

Lemma encryptPayload_layout `{Crypto} h u payload key epoch :
  header_ok h u -> (length payload <= 776)%nat -> length epoch = 16%nat -> length key = 32%nat ->
  let aad := header_bytes h u epoch (Z.of_nat (length payload)) in
  let n := [0; 0; 0; 0] ++ le 4 (sh_boot h) ++ le 4 (sh_seq h) in
  encryptPayload h payload key epoch
  = Ok (aad ++ (gcm_seal key n aad payload).1 ++ (gcm_seal key n aad payload).2).
Proof.
  intros (Ht & Hu & Hub & Huid & Hb & Hs & Hup & Hk) Hp He Hkey aad n.
  unfold encryptPayload. rewrite He, Hkey.
  destruct (Nat.ltb_spec 776 (length payload)); [lia|]. cbn [orb negb Nat.eqb].
  rewrite Huid, uidBytes_text by done. cbn [rbind].
  rewrite nonce_layout by done. fold n.
  unfold put_byte. assert (sh_type h mod 256 = sh_type h) as -> by (apply Z.mod_small, Ht).
  subst aad. unfold header_bytes. clear Hub Huid. explode_list u Hu. explode_list epoch He.
  clearbody n.
  cbn [alloc replicate SECURE_HEADER put put_byte take drop app length Nat.add insert list_insert].
  do 5 step_write. reflexivity.
Qed.

Lemma header_bytes_length h u epoch len :
  length u = 6%nat -> length epoch = 16%nat -> length (header_bytes h u epoch len) = 42%nat.
Proof. intros Hu He. unfold header_bytes. rewrite !length_app, !length_le, Hu, He. done. Qed.

Lemma secureHeader_layout h u epoch len rest :
  header_ok h u -> length epoch = 16%nat -> 0 <= len <= 776 ->
  Z.of_nat (length rest) = len + 16 ->
  secureHeader (header_bytes h u epoch len ++ rest)
  = Ok {| sh_type := sh_type h; sh_uid := sh_uid h; sh_boot := sh_boot h; sh_seq := sh_seq h;
          sh_uptimeMs := sh_uptimeMs h; sh_keyId := sh_keyId h; sh_epoch := epoch |}.
Proof.
  intros (Ht & Hu & Hub & Huid & Hb & Hs & Hup & Hk) He Hlen Hrest.
  unfold secureHeader. rewrite length_app, header_bytes_length by done.
  destruct (Nat.ltb_spec (42 + length rest) (SECURE_HEADER + SECURE_TAG)); [unfold SECURE_HEADER, SECURE_TAG in *; lia|].
  destruct (Nat.ltb_spec SECURE_MAX (42 + length rest)); [unfold SECURE_MAX, SECURE_HEADER, SECURE_TAG in *; lia|].
  rewrite Huid. unfold header_bytes. clear Hub. explode_list u Hu. explode_list epoch He.
  explode_val 2%nat len. explode_val 4%nat (sh_boot h). explode_val 4%nat (sh_seq h).
  explode_val 4%nat (sh_uptimeMs h). explode_val 2%nat (sh_keyId h).
  unfold rd. cbn [app]. read_fields.
  repeat match goal with H : unle _ = _ |- _ => rewrite H; clear H end.
  rewrite !bool_decide_eq_true_2 by done. cbn [orb negb].
  destruct (Z.eqb_spec (sh_keyId h) 0); [lia|].
  replace (len + Z.of_nat (SECURE_HEADER + SECURE_TAG)) with (Z.of_nat (42 + length rest));
    [|unfold SECURE_HEADER, SECURE_TAG; lia].
  rewrite Z.eqb_refl. reflexivity.
Qed.

Lemma decrypt_encrypt `{CryptoLaws} h u payload key epoch buf :
  header_ok h u -> (length payload <= 776)%nat -> length epoch = 16%nat -> length key = 32%nat ->
  encryptPayload h payload key epoch = Ok buf ->
  decryptPayload buf key
  = Ok ({| sh_type := sh_type h; sh_uid := sh_uid h; sh_boot := sh_boot h; sh_seq := sh_seq h;
           sh_uptimeMs := sh_uptimeMs h; sh_keyId := sh_keyId h; sh_epoch := epoch |}, payload).
Proof.
  intros Hh Hp He Hk. pose proof Hh as (_ & Hu & _ & _ & Hb & Hs & _ & _).
  rewrite (encryptPayload_layout h u payload key epoch Hh Hp He Hk).
  intros Hbuf%Ok_inj. subst buf. unfold decryptPayload.
  set (aad := header_bytes h u epoch (Z.of_nat (length payload))).
  set (n := [0; 0; 0; 0] ++ le 4 (sh_boot h) ++ le 4 (sh_seq h)).
  pose proof (gcm_cipher_length key n aad payload) as Hc.
  pose proof (gcm_tag_length key n aad payload) as Htag.
  pose proof (gcm_open_seal key n aad payload) as Hopen.
  fold aad n. destruct (gcm_seal key n aad payload) as [ct tg]. cbn [fst snd] in *.
  assert (length aad = 42%nat) as Ha by (by apply header_bytes_length).
  pose proof (secureHeader_layout h u epoch (Z.of_nat (length payload)) (ct ++ tg)) as Hl. fold aad in Hl.
  rewrite Hl; [|done|done|lia|rewrite length_app; lia].
  cbn [rbind sh_boot sh_seq]. rewrite nonce_layout by done. fold n.
  rewrite !length_app, Ha, Hc, Htag.
  unfold sub, SECURE_HEADER, SECURE_TAG.
  rewrite take_app_length' by done.
  rewrite drop_app_length' by done.
  replace (42 + (length payload + 16) - 16 - 42)%nat with (length ct) by lia.
  rewrite take_app_length.
  rewrite (app_assoc aad ct tg), drop_app_length' by (rewrite length_app; lia).
  by rewrite Hopen.
Qed.

(** ** The policy the key file must satisfy *)

Definition device_masters (v : Device) : list (list Z) :=
  dk_master (dv_current v) :: match dv_previous v with Some p => [dk_master p] | None => [] end.
Definition masters (devs : list (string * Device)) : list (list Z) := devs ≫= (fun p => device_masters p.2).

Definition device_ok (now : Z) (v : Device) : Prop :=
  dk_expiresAt (dv_current v) = None /\ 1 <= dk_id (dv_current v) <= 65535 /\
  match dv_previous v with
  | Some p => dk_id p <> dk_id (dv_current v) /\ 1 <= dk_id p <= 65535 /\
              exists e, dk_expiresAt p = Some e /\ e <= now + 30 * 86400000
  | None => True
  end.

(** What the loop over the nodes maintains: the masters read so far are the
    secrets read so far, in order, and no secret came twice. *)
Record devices_inv (now : Z) (devs : list (string * Device)) (secrets : list string) : Prop := {
  di_masters : masters devs = map from_hex secrets;
  di_nodup : NoDup secrets;
  di_secret : Forall (fun s => is_secret s = true) secrets;
  di_ok : Forall (fun p => is_uid p.1 = true /\ device_ok now p.2) devs;
}.

Lemma parse_key_ok now secrets v prev k secrets' :
  parse_key now secrets v prev = Ok (k, secrets') ->
  exists s, secrets' = secrets ++ [s] /\ (s ∉ secrets) /\ is_secret s = true /\ dk_master k = from_hex s /\
    1 <= dk_id k <= 65535 /\
    (prev = true -> exists e, dk_expiresAt k = Some e /\ e <= now + 30 * 86400000) /\
    (prev = false -> dk_expiresAt k = None).
Proof.
  unfold parse_key. intros H. inv_ok H.
  destruct ((field "id" a) ≫= as_integer) as [id|]; [|done].
  destruct ((field "secret" a) ≫= as_string) as [s|]; [|done].
  inv_ok H. injection H as <- <-. bprop. exists s. simpl.
  destruct Hc0 as [[[? ?] ?] ?]. apply includes_false in Hc1.
  split_and!; try done; try lia; [|by intros ->].
  intros ->. destruct ((field "expiresAt" a) ≫= as_safe_integer) as [e|].
  - exists e. split; [done|]. destruct Hc2 as [|Hc2]; [done|]. apply Z.ltb_ge in Hc2. lia.
  - by destruct Hc2.
Qed.

Lemma om_set_fresh {V} (k : string) (v : V) m : k ∉ om_keys m -> om_set k v m = m ++ [(k, v)].
Proof.
  induction m as [|[k' v'] m IH]; simpl; [done|].
  rewrite not_elem_of_cons. intros [Hk Hm]. rewrite bool_decide_eq_false_2 by done. by rewrite IH.
Qed.

Lemma NoDup_snoc {A} (x : A) l : NoDup l -> x ∉ l -> NoDup (l ++ [x]).
Proof.
  intros Hl Hx. apply NoDup_app. split_and!; [done| |apply NoDup_singleton].
  by intros y Hy ->%list_elem_of_singleton.
Qed.

Lemma parse_device_inv now devs secrets uid v st' :
  devices_inv now devs secrets -> uid ∉ om_keys devs ->
  parse_device now (devs, secrets) uid v = Ok st' ->
  devices_inv now st'.1 st'.2 /\ om_keys st'.1 = om_keys devs ++ [uid].
Proof.
  intros [Hm Hnd Hs Hok] Hfresh H. unfold parse_device in H.
  apply rbind_ok in H as (u & Hu & H). apply rbind_ok in H as (d & Hd & H).
  destruct (_ || _); [done|].
  apply rbind_ok in H as ([cur s1] & Hcur & H). cbn in H.
  apply rbind_ok in H as ([prev s2] & Hprev & H). cbn in H.
  destruct (match prev with Some _ => _ | None => _ end) eqn:Hid; [done|].
  injection H as <-. cbn [fst snd].
  apply parse_key_ok in Hcur as (s & -> & Hsn & Hss & Hms & Hidr & _ & Hnone).
  assert (is_uid uid = true) as Huid.
  { unfold uidBytes in Hu. by destruct (is_uid uid). }
  rewrite om_set_fresh by done. split.
  2: { unfold om_keys. by rewrite map_app. }
  destruct (field "previous" d) as [p|].
  - apply rbind_ok in Hprev as ([k s3] & Hk & [= <- <-]).
    apply parse_key_ok in Hk as (sp & -> & Hspn & Hsps & Hmsp & Hpr & Hexp & _).
    constructor.
    + unfold masters. rewrite bind_app. fold (masters devs). rewrite Hm. cbn.
      unfold device_masters; cbn. rewrite Hms, Hmsp. rewrite !map_app, <- app_assoc. done.
    + by repeat apply NoDup_snoc.
    + repeat apply Forall_app_2; auto.
    + apply Forall_app_2; [done|]. apply Forall_singleton. split; [done|]. split; [auto|]. split; [done|].
      cbn. apply Z.eqb_neq in Hid. split_and!; [done|lia|lia|by apply Hexp].
  - injection Hprev as <- <-. constructor.
    + unfold masters. rewrite bind_app. fold (masters devs). rewrite Hm. cbn.
      rewrite Hms, map_app. done.
    + by apply NoDup_snoc.
    + apply Forall_app_2; auto.
    + apply Forall_app_2; [done|]. apply Forall_singleton. split; [done|]. split; [auto|]. by split.
Qed.

Lemma parse_devices_inv now nodes devs secrets st' :
  devices_inv now devs secrets -> NoDup (om_keys devs ++ om_keys nodes) ->
  parse_devices now nodes (devs, secrets) = Ok st' ->
  devices_inv now st'.1 st'.2 /\ om_keys st'.1 = om_keys devs ++ om_keys nodes.
Proof.
  revert devs secrets; induction nodes as [|[uid v] nodes IH]; intros devs secrets Hi Hnd H.
  - injection H as <-. by rewrite app_nil_r.
  - simpl in H. apply rbind_ok in H as ([devs1 secrets1] & H1 & H).
    assert (uid ∉ om_keys devs) as Hf.
    { intros Hin. apply NoDup_app in Hnd as (_ & Hd & _). apply (Hd uid Hin). left. }
    destruct (parse_device_inv _ _ _ _ _ _ Hi Hf H1) as [Hi1 Hk1]. cbn [fst snd] in Hi1, Hk1.
    apply IH in H; [| done |].
    + destruct H as [Hi' Hk']. split; [done|]. rewrite Hk', Hk1, <- app_assoc. done.
    + rewrite Hk1, <- app_assoc. done.
Qed.

Lemma parse_legacy_disjoint devs l legacy out :
  Forall (fun u => om_has u devs = false) legacy ->
  parse_legacy devs l legacy = Ok out -> Forall (fun u => om_has u devs = false) out.
Proof.
  revert legacy; induction l as [|v l IH]; intros legacy Hl H; simpl in H; [by injection H as <-|].
  destruct v; try done. apply rbind_ok in H as (u & _ & H).
  destruct (om_has s devs || includes s legacy) eqn:E; [done|].
  apply orb_false_iff in E as [E _]. eapply IH; [|exact H]. apply Forall_app_2; auto.
Qed.

Lemma deviceKeys_inv now v d :
  json_wf v = true -> deviceKeys now v = Ok d ->
  exists secrets, devices_inv now (dks_devices d) secrets /\ NoDup (om_keys (dks_devices d)) /\
    Forall (fun u => om_has u (dks_devices d) = false) (dks_legacy d).
Proof.
  intros Hwf H. unfold deviceKeys in H.
  apply rbind_ok in H as (root & Hroot & H). destruct (_ || _); [done|].
  apply rbind_ok in H as (ns & Hns & H).
  destruct (match field "legacy" root with None => _ | _ => _ end) as [leg|]; [|done].
  destruct (_ || _); [done|].
  apply rbind_ok in H as ([devs s] & Hd & H). cbn in H. apply rbind_ok in H as (l & Hl & H).
  injection H as <-. cbn [dks_devices dks_legacy].
  assert (NoDup (om_keys ns)) as Hnd.
  { destruct v; try done. injection Hroot as <-. unfold object in Hns.
    destruct (field "nodes" fields) as [n|] eqn:En; [|done].
    destruct n; try done. cbn in Hns. injection Hns as <-.
    by apply json_wf_keys, (json_wf_field _ _ _ Hwf En). }
  destruct (parse_devices_inv now ns [] [] (devs, s)) as [Hi Hk]; [|done..|].
  { by constructor; [| apply NoDup_nil_2 | |]. }
  exists s. split; [done|]. cbn [fst snd] in Hk. split; [by rewrite Hk|].
  eapply parse_legacy_disjoint; [|exact Hl]. constructor.
Qed.

Lemma NoDup_masters now devs secrets : devices_inv now devs secrets -> NoDup (masters devs).
Proof.
  intros [-> Hnd Hs _]. induction Hnd as [|s l Hs' Hnd IH]; [apply NoDup_nil_2|].
  apply Forall_cons in Hs as [H1 H2]. simpl. apply NoDup_cons; split; [|by apply IH].
  intros (s' & Heq & Hin)%list_elem_of_fmap.
  rewrite Forall_forall in H2. apply secret_master_inj in Heq; [congruence|done|auto].
Qed.

Lemma masters_cons u d devs : masters ((u, d) :: devs) = device_masters d ++ masters devs.
Proof. reflexivity. Qed.

(** Two keys with one master are one key of one node. *)
Lemma masters_inj devs uid1 uid2 d1 d2 m :
  NoDup (masters devs) -> (uid1, d1) ∈ devs -> (uid2, d2) ∈ devs ->
  m ∈ device_masters d1 -> m ∈ device_masters d2 -> (uid1, d1) = (uid2, d2).
Proof.
  induction devs as [|[u d] devs IH]; [by intros _ ?%not_elem_of_nil|].
  rewrite masters_cons. intros (H1 & Hd & H2)%NoDup_app Hin1 Hin2 Hm1 Hm2.
  assert (forall uid' d', (uid', d') ∈ devs -> m ∈ device_masters d' ->
    m ∈ masters devs) as Hb.
  { intros uid' d' Hin Hm. apply list_elem_of_bind. by exists (uid', d'). }
  apply elem_of_cons in Hin1 as [E1|Hin1], Hin2 as [E2|Hin2].
  - congruence.
  - injection E1 as -> ->. destruct (Hd m Hm1). eauto.
  - injection E2 as -> ->. destruct (Hd m Hm2). eauto.
  - by apply IH.
Qed.

Lemma device_keys_elem t d uid k :
  k ∈ device_keys t d uid -> exists v, om_get uid (dks_devices d) = Some v /\ dv_revoked v = false /\
    (k = dv_current v \/ (dv_previous v = Some k /\ t < default 0 (dk_expiresAt k))).
Proof.
  unfold device_keys. destruct (om_get uid (dks_devices d)) as [v|] eqn:E; [|by intros ?%not_elem_of_nil].
  destruct (dv_revoked v) eqn:Er; [by intros ?%not_elem_of_nil|].
  intros [->|Hk]%elem_of_cons; [eauto|].
  destruct (dv_previous v) as [p|] eqn:Ep; [|by apply not_elem_of_nil in Hk].
  destruct (Z.ltb_spec t (default 0 (dk_expiresAt p))); [|by apply not_elem_of_nil in Hk].
  apply list_elem_of_singleton in Hk as ->. eauto 8.
Qed.

Lemma find_key_elem t d uid id k :
  find_key t d uid id = Some k -> k ∈ device_keys t d uid /\ dk_id k = id.
Proof.
  intros [H1 H2%Z.eqb_eq]%find_some. by split; [apply list_elem_of_In|].
Qed.

Lemma elem_device_masters v k :
  k = dv_current v \/ dv_previous v = Some k -> dk_master k ∈ device_masters v.
Proof. unfold device_masters. intros [->|E]; [by left|]. rewrite E. right. by left. Qed.

Lemma same_master_same_key v k1 k2 :
  NoDup (device_masters v) ->
  k1 = dv_current v \/ dv_previous v = Some k1 -> k2 = dv_current v \/ dv_previous v = Some k2 ->
  dk_master k1 = dk_master k2 -> k1 = k2.
Proof.
  unfold device_masters. intros Hnd [->|E1] [->|E2] Hm; [done| | |congruence].
  - rewrite E2, Hm in Hnd. apply NoDup_cons in Hnd as [Hn _]. destruct Hn. by left.
  - rewrite E1, Hm in Hnd. apply NoDup_cons in Hnd as [Hn _]. destruct Hn. by left.
Qed.

Lemma NoDup_device_masters devs uid v : NoDup (masters devs) -> (uid, v) ∈ devs -> NoDup (device_masters v).
Proof.
  induction devs as [|[u d] devs IH]; [by intros _ ?%not_elem_of_nil|].
  rewrite masters_cons. intros (H1 & _ & H2)%NoDup_app [[= -> ->]|Hin]%elem_of_cons; auto.
Qed.

(** ** An instance that computes

    Checksums instead of cryptography: it satisfies the laws, so the witnesses
    evaluate the code on concrete packets. *)
Module TestCrypto.

Definition checksum (l : list Z) : Z := fold_left (fun a b => (31 * a + b + 7) mod 255) l 1 + 1.
Definition mac (k d : list Z) : list Z := replicate 32 (checksum (k ++ d) mod 256).
Definition seal (k n a p : list Z) : list Z * list Z := (p, replicate 16 (checksum (k ++ n ++ a ++ p) mod 256)).
Definition opens (k n a c t : list Z) : option (list Z) :=
  if bool_decide (t = (seal k n a c).2) then Some c else None.

#[local] Instance crypto : Crypto := {
  hmac_sha256 := mac;
  hkdf_sha256 k s i n := replicate n (checksum (k ++ s ++ i) mod 256);
  gcm_seal := seal;
  gcm_open := opens;
}.

#[local] Instance laws : CryptoLaws.
Proof.
  constructor; intros.
  - apply length_replicate.
  - apply Forall_replicate. apply Z.mod_pos_bound. lia.
  - apply length_replicate.
  - cbn. unfold opens. by rewrite bool_decide_eq_true_2.
  - done.
  - apply length_replicate.
Qed.

End TestCrypto.

(** ** Properties *)

(** C35: what the edge seals for a node, the node's key opens to the same header
    and payload: for every header whose fields fit the wire, every payload up
    to 776 bytes and every 16-byte epoch, [encryptPayload] succeeds, and
    [decryptPayload] under the same key returns that header (with the epoch)
    and that payload. *)
Theorem encrypted_packet_roundtrip `{CryptoLaws} h u payload key epoch :
  header_ok h u -> (length payload <= 776)%nat -> length epoch = 16%nat -> length key = 32%nat ->
  exists buf, encryptPayload h payload key epoch = Ok buf /\
    length buf = (SECURE_HEADER + length payload + SECURE_TAG)%nat /\
    decryptPayload buf key
    = Ok ({| sh_type := sh_type h; sh_uid := sh_uid h; sh_boot := sh_boot h; sh_seq := sh_seq h;
             sh_uptimeMs := sh_uptimeMs h; sh_keyId := sh_keyId h; sh_epoch := epoch |}, payload).
Proof.
  intros Hh Hp He Hk.
  destruct (encryptPayload h payload key epoch) as [buf|e] eqn:E.
  - exists buf. split; [done|]. split; [|by eapply decrypt_encrypt].
    rewrite (encryptPayload_layout h u) in E by done. apply Ok_inj in E as <-.
    rewrite !length_app, gcm_cipher_length, gcm_tag_length, header_bytes_length; [|apply Hh|done].
    unfold SECURE_HEADER, SECURE_TAG. lia.
  - by rewrite (encryptPayload_layout h u) in E by done.
Qed.

(** a key file that loads gives every node keys of its own. A key that
    [find] returns at time [t] carries the id asked for, belongs to a device
    that is not revoked and not on the plaintext list, has not expired, and no
    other node or key id has the same secret. *)
Theorem device_keys_exclusive now v d t uid id k :
  json_wf v = true -> deviceKeys now v = Ok d -> find_key t d uid id = Some k ->
  dk_id k = id /\ allowsLegacy d uid = false /\
  (exists dev, om_get uid (dks_devices d) = Some dev /\ dv_revoked dev = false) /\
  (forall e, dk_expiresAt k = Some e -> t < e <= now + 30 * 86400000) /\
  (forall t' uid' id' k', find_key t' d uid' id' = Some k' -> dk_master k' = dk_master k ->
     uid' = uid /\ id' = id).
Proof.
  intros Hwf Hd Hf. destruct (deviceKeys_inv now v d Hwf Hd) as (ss & Hi & Hnd & Hleg).
  pose proof (NoDup_masters _ _ _ Hi) as Hm.
  apply find_key_elem in Hf as [Hk Hid].
  apply device_keys_elem in Hk as (dev & Hg & Hr & Hkv).
  pose proof (om_get_elem _ _ _ Hg) as Hin.
  pose proof (di_ok _ _ _ Hi) as Hok. rewrite Forall_forall in Hok.
  destruct (Hok _ Hin) as [_ (Hnone & _ & Hprev)]. cbn [snd] in Hnone, Hprev.
  split; [done|]. split.
  { apply includes_false. intros Hl. rewrite Forall_forall in Hleg. apply Hleg in Hl.
    unfold om_has in Hl. by rewrite Hg in Hl. }
  split; [eauto|]. split.
  { intros e He. destruct Hkv as [->|[Ep Ht]]; [congruence|].
    rewrite Ep in Hprev. destruct Hprev as (_ & _ & e' & He' & ?). rewrite He in *. simpl in Ht.
    injection He' as ->. lia. }
  intros t' uid' id' k' Hf' Hmm. apply find_key_elem in Hf' as [Hk' Hid'].
  apply device_keys_elem in Hk' as (dev' & Hg' & _ & Hkv').
  pose proof (om_get_elem _ _ _ Hg') as Hin'.
  assert (k' = dv_current dev' \/ dv_previous dev' = Some k') as Hc' by tauto.
  assert (k = dv_current dev \/ dv_previous dev = Some k) as Hc by tauto.
  assert ((uid', dev') = (uid, dev)) as [= -> ->].
  { apply (masters_inj (dks_devices d) _ _ _ _ (dk_master k)); [done..| |by apply elem_device_masters].
    rewrite <- Hmm. by apply elem_device_masters. }
  split; [done|]. subst. f_equal.
  eapply same_master_same_key; [by eapply NoDup_device_masters|done|done|done].
Qed.

Definition test_header : SecureHeader :=
  {| sh_type := 1; sh_uid := "30:ed:a0:cb:f5:f8"; sh_boot := 3; sh_seq := 70000; sh_uptimeMs := 12;
     sh_keyId := 5; sh_epoch := [] |}.

Lemma encrypted_packet_roundtrip_witness :
  exists buf, @encryptPayload TestCrypto.crypto test_header [9; 8; 7] (replicate 32 1) (replicate 16 2) = Ok buf /\
    length buf = (SECURE_HEADER + 3 + SECURE_TAG)%nat /\
    @decryptPayload TestCrypto.crypto buf (replicate 32 1)
    = Ok ({| sh_type := 1; sh_uid := "30:ed:a0:cb:f5:f8"; sh_boot := 3; sh_seq := 70000; sh_uptimeMs := 12;
             sh_keyId := 5; sh_epoch := replicate 16 2 |}, [9; 8; 7]).
Proof.
  apply (@encrypted_packet_roundtrip TestCrypto.crypto TestCrypto.laws test_header [48; 237; 160; 203; 245; 248]
           [9; 8; 7] (replicate 32 1) (replicate 16 2)); [|cbn; lia|reflexivity..].
  unfold header_ok, byte_ok, bytes_ok, test_header; cbn [sh_type sh_uid sh_boot sh_seq sh_uptimeMs sh_keyId].
  repeat split; try lia; try reflexivity.
  repeat constructor; unfold byte_ok; lia.
Defined.

Definition test_key_file : json :=
  JObj [("version", JInt 2);
        ("nodes", JObj [("30:ed:a0:cb:f5:f8", JObj [
          ("current", JObj [("id", JInt 2); ("secret", JStr "aaaaaaaaaaaaaaaaaaaaaaaaaaaaaaaaaaaaaaaaaaaaaaaaaaaaaaaaaaaaaaaa")]);
          ("previous", JObj [("id", JInt 1); ("secret", JStr "bbbbbbbbbbbbbbbbbbbbbbbbbbbbbbbbbbbbbbbbbbbbbbbbbbbbbbbbbbbbbbbb");
                             ("expiresAt", JInt 5000)])])]);
        ("legacy", JArr [JStr "00:00:00:00:00:01"])].

Lemma device_keys_exclusive_witness : exists d k,
  deviceKeys 1000 test_key_file = Ok d /\ find_key 4999 d "30:ed:a0:cb:f5:f8" 1 = Some k /\
  (forall e, dk_expiresAt k = Some e -> 4999 < e <= 1000 + 30 * 86400000).
Proof.
  eexists _, _. split; [vm_compute; reflexivity|]. split; [vm_compute; reflexivity|].
  eapply (device_keys_exclusive 1000 test_key_file _ 4999 "30:ed:a0:cb:f5:f8" 1); vm_compute; reflexivity.
Defined.
