(* ===== verification/Protocol.v ===== *)
(** TMnode wire protocol v1 (src/edge/protocol.ts): the packets a node sends,
    parsed and authenticated by [parsePacket]; the commands and OTA requests
    sent down; and the builders the simulator uses. Physical values are the
    exact rationals of the code's scalings ([p / 8] is [p # 8]). *)

From S2P Require Import Prelude Bytes Secure.

(** @edge/protocol.ts 9-9 MAGIC *)
Definition MAGIC : list Z := [84; 77].
(** @edge/protocol.ts 10-10 VERSION *)
Definition VERSION : Z := 1.
(** @edge/protocol.ts 11-11 HEADER_SIZE *)
Definition HEADER_SIZE : nat := 22.
(** @edge/protocol.ts 12-12 TAG_SIZE *)
Definition TAG_SIZE : nat := 8.
(** @edge/protocol.ts 13-13 GRID_SIZE *)
Definition GRID_SIZE : nat := 768.
(** @edge/protocol.ts 14-14 MAX_DETECTIONS *)
Definition MAX_DETECTIONS : nat := 24.

(** @edge/protocol.ts 16-16 TYPE_REPORT *)
Definition TYPE_REPORT : Z := 1.
(** @edge/protocol.ts 17-17 TYPE_RAW *)
Definition TYPE_RAW : Z := 2.
(** @edge/protocol.ts 18-18 TYPE_STATUS *)
Definition TYPE_STATUS : Z := 3.
(** @edge/protocol.ts 19-19 TYPE_OTA_STATUS *)
Definition TYPE_OTA_STATUS : Z := 4.
(** @edge/protocol.ts 20-20 TYPE_COMMAND *)
Definition TYPE_COMMAND : Z := 16.
(** @edge/protocol.ts 21-21 TYPE_OTA *)
Definition TYPE_OTA : Z := 17.
(** @edge/protocol.ts 23-23 REPORT_BACKGROUND_READY *)
Definition REPORT_BACKGROUND_READY : Z := 1.
(** @edge/protocol.ts 24-24 REPORT_GLOBAL_SHIFT *)
Definition REPORT_GLOBAL_SHIFT : Z := 2.
(** @edge/protocol.ts 25-25 REPORT_TRUNCATED *)
Definition REPORT_TRUNCATED : Z := 4.
(** @edge/protocol.ts 31-31 CMD_SET_PARAM *)
Definition CMD_SET_PARAM : Z := 1.
(** @edge/protocol.ts 32-32 CMD_RESET_BACKGROUND *)
Definition CMD_RESET_BACKGROUND : Z := 2.
(** @edge/protocol.ts 33-33 CMD_IDENTIFY *)
Definition CMD_IDENTIFY : Z := 3.
(** @edge/protocol.ts 34-34 CMD_REBOOT *)
Definition CMD_REBOOT : Z := 4.
(** @edge/protocol.ts 35-35 CMD_SAVE_PARAMS *)
Definition CMD_SAVE_PARAMS : Z := 5.

(** @edge/protocol.ts 37-38 OTA_STATES *)
Definition OTA_STATES : list string :=
  ["idle"; "downloading"; "verifying"; "applying"; "rebooting"; "confirmed"; "failed"; "reverted"].
(** @edge/protocol.ts 40-40 OTA_ERRORS *)
Definition OTA_ERRORS : list string := ["none"; "http"; "size"; "sha"; "flash"; "no-wifi"; "busy"].
(** @edge/protocol.ts 43-43 OTA_PATH_LEN *)
Definition OTA_PATH_LEN : nat := 48.
(** @edge/protocol.ts 45-50 PARAM_NAMES *)
Definition PARAM_NAMES : list string :=
  ["min_contrast"; "min_peak"; "noise_k"; "min_area"; "max_area";
   "bg_tau"; "bg_frames"; "raw_every"; "refresh"; "split_sep"].
(** @edge/protocol.ts 63-74 PARAM_LIMITS *)
Definition PARAM_LIMITS : list (string * (Z * Z)) :=
  [("min_contrast", (10, 2000)); ("min_peak", (10, 3000)); ("noise_k", (10, 200)); ("min_area", (1, 200));
   ("max_area", (1, 768)); ("bg_tau", (5, 20000)); ("bg_frames", (3, 600)); ("raw_every", (0, 3600));
   ("refresh", (1, 5)); ("split_sep", (5, 100))].

(** ** Packets *)

(** @edge/protocol.ts 78-87 Header *)
Record Header := {
  h_type : Z; h_uid : string; h_boot : Z; h_seq : Z; h_uptimeMs : Z; h_signed : bool;
  h_secureId : option Z }.

(** @edge/protocol.ts 89-96 Detection *)
Record Detection := { d_x : Q; d_y : Q; d_area : Z; d_contrast : Q; d_peak : Q; d_heat : Q }.

(** @edge/protocol.ts 98-107 Report *)
Record Report := {
  r_frame : Z; r_ta : Q; r_sceneMin : Q; r_sceneMax : Q; r_bgMean : Q; r_flags : Z;
  r_detections : list Detection }.

(** @edge/protocol.ts 109-115 Raw *)
Record Raw := { w_frame : Z; w_tMin : Q; w_step : Q; w_pixels : list Z }.

(** @edge/protocol.ts 117-135 Status *)
Record Status := {
  s_fw : string; s_ip : string; s_rssi : Z; s_channel : Z; s_freeHeap : Z; s_minHeap : Z;
  s_stackFree : Z; s_wifiDrops : Z; s_sensorErrors : Z; s_frames : Z; s_fps : Q; s_vdd : Q; s_ta : Q;
  s_lastCmd : Z; s_flags : Z; s_params : list (string * Z) }.

(** @edge/protocol.ts 137-144 OtaStatus *)
Record OtaStatus := { o_state : string; o_percent : Z; o_error : string; o_image : string }.

Inductive Body :=
| BReport (r : Report)
| BRaw (w : Raw)
| BStatus (s : Status)
| BOta (o : OtaStatus).

(** @edge/protocol.ts 146-146 Packet *)
Record Packet := { p_header : Header; p_body : Body }.

(** @edge/protocol.ts 148-150 uidToString *)
Definition uidToString (b : list Z) : string := uid_text b.

(** @edge/protocol.ts 152-156 uidFromString *)
Definition uidFromString (s : string) : result string (list Z) :=
  let hex := List.filter (fun c => negb ((code c =? 58) || (code c =? 45))) (chars s) in
  throw_if negb (Nat.eqb (length hex) 12 && forallb is_hex hex) with "bad uid" in
  Ok (from_hex_chars hex).

(** @edge/protocol.ts 162-167 VerifyOptions *)
Record VerifyOptions := { v_keys : list (list Z); v_allowUnsigned : bool; v_devices : option DeviceKeys }.

Section protocol.
Context {C : Crypto}.

(** @edge/protocol.ts 158-160 tag *)
Definition tag (key data : list Z) : list Z := take TAG_SIZE (hmac_sha256 key data).

(** One detection of a report, at its offset.
    @edge/protocol.ts 207-217 parsePacket *)
Fixpoint parse_detections (n : nat) (o : nat) (p : list Z) : result string (list Detection) :=
  match n with
  | O => Ok []
  | S n' =>
      let! heat := rd 2 (o + 5) p in
      let! rest := parse_detections n' (o + 7) p in
      Ok ({| d_x := byte_at o p # 8; d_y := byte_at (o + 1) p # 8; d_area := byte_at (o + 2) p;
             d_contrast := byte_at (o + 3) p # 20; d_peak := byte_at (o + 4) p # 4;
             d_heat := heat # 10 |} :: rest)
  end.

(** @edge/protocol.ts 202-229 parsePacket *)
Definition parse_report (p : list Z) : result string Body :=
  throw_if Nat.ltb (length p) 14 with "short report" in
  let count := Z.to_nat (byte_at 13 p) in
  throw_if Nat.ltb MAX_DETECTIONS count || negb (Nat.eqb (length p) (14 + 7 * count)) with "report length" in
  let! dets := parse_detections count 14 p in
  let! frame := rd 4 0 p in
  let! ta := rds 2 4 p in
  let! lo := rds 2 6 p in
  let! hi := rds 2 8 p in
  let! bg := rds 2 10 p in
  Ok (BReport {| r_frame := frame; r_ta := ta # 100; r_sceneMin := lo # 100; r_sceneMax := hi # 100;
                 r_bgMean := bg # 100; r_flags := byte_at 12 p; r_detections := dets |}).

(** @edge/protocol.ts 230-240 parsePacket *)
Definition parse_raw (p : list Z) : result string Body :=
  throw_if negb (Nat.eqb (length p) (8 + GRID_SIZE)) with "raw length" in
  let! frame := rd 4 0 p in
  let! tMin := rds 2 4 p in
  let! step := rd 2 6 p in
  Ok (BRaw {| w_frame := frame; w_tMin := tMin # 100; w_step := step # 10000; w_pixels := drop 8 p |}).

(** The parameters a status carries, by position.
    @edge/protocol.ts 246-249 parsePacket *)
Fixpoint parse_params (names : list string) (n o : nat) (p : list Z) : result string (list (string * Z)) :=
  match n, names with
  | S n', name :: names' =>
      let! v := rds 4 o p in
      let! rest := parse_params names' n' (o + 4) p in Ok ((name, v) :: rest)
  | _, _ => Ok []
  end.

(** [.toString('latin1').replace(/\0+$/, '')] *)
Fixpoint strip_nuls (bs : list Z) : list Z :=
  match bs with
  | [] => []
  | b :: bs' => match strip_nuls bs' with [] => if b =? 0 then [] else [b] | r => b :: r end
  end.

(** [[...bytes].join('.')] *)
Definition dotted (bs : list Z) : string := String.concat "." (map show bs).

(** @edge/protocol.ts 241-270 parsePacket *)
Definition parse_status (p : list Z) : result string Body :=
  throw_if Nat.ltb (length p) 48 with "short status" in
  let count := Z.to_nat (byte_at 47 p) in
  throw_if negb (Nat.eqb (length p) (48 + 4 * count)) with "status length" in
  let! params := parse_params PARAM_NAMES count 48 p in
  let! rssi := rds 1 16 p in
  let! freeHeap := rd 4 18 p in
  let! minHeap := rd 4 22 p in
  let! stackFree := rd 2 26 p in
  let! wifiDrops := rd 2 28 p in
  let! sensorErrors := rd 2 30 p in
  let! frames := rd 4 32 p in
  let! fps := rd 2 36 p in
  let! vdd := rd 2 38 p in
  let! ta := rds 2 40 p in
  let! lastCmd := rd 4 42 p in
  Ok (BStatus {| s_fw := string_of_bytes (strip_nuls (sub 0 12 p)); s_ip := dotted (sub 12 4 p);
        s_rssi := rssi; s_channel := byte_at 17 p; s_freeHeap := freeHeap; s_minHeap := minHeap;
        s_stackFree := stackFree; s_wifiDrops := wifiDrops; s_sensorErrors := sensorErrors;
        s_frames := frames; s_fps := fps # 100; s_vdd := vdd # 100; s_ta := ta # 100;
        s_lastCmd := lastCmd; s_flags := byte_at 46 p; s_params := params |}).

(** @edge/protocol.ts 271-281 parsePacket *)
Definition parse_ota_status (p : list Z) : result string Body :=
  throw_if negb (Nat.eqb (length p) 8) with "ota status length" in
  Ok (BOta {| o_state := default "idle" (OTA_STATES !! Z.to_nat (byte_at 0 p));
              o_percent := byte_at 1 p;
              o_error := default "none" (OTA_ERRORS !! Z.to_nat (byte_at 2 p));
              o_image := to_hex (sub 4 4 p) |}).

(** @edge/protocol.ts 201-284 parsePacket *)
Definition parse_body (type : Z) (p : list Z) : result string Body :=
  if type =? TYPE_REPORT then parse_report p
  else if type =? TYPE_RAW then parse_raw p
  else if type =? TYPE_STATUS then parse_status p
  else if type =? TYPE_OTA_STATUS then parse_ota_status p
  else Err ("unexpected packet type " +:+ show type).

(** The encrypted branch: [now] is the clock of the device-key policy. A
    [SecureError] keeps its message; anything else thrown there becomes
    "invalid encrypted packet".
    @edge/protocol.ts 175-183 parsePacket *)
Definition open_secure (now : Z) (buf : list Z) (verify : VerifyOptions) : result string (Header * list Z) :=
  let attempt :=
    let! h := secureHeader buf in
    match v_devices verify ≫= (fun d => find_key now d (sh_uid h) (sh_keyId h)) with
    | None => Err "encrypted device key unavailable"
    | Some device =>
        throw_if negb (includes (sh_type h) [TYPE_REPORT; TYPE_RAW; TYPE_STATUS; TYPE_OTA_STATUS])
          with "unexpected encrypted uplink type" in
        let! key := deriveKey (dk_master device) (sh_uid h) (sh_keyId h) "uplink" (sh_epoch h) in
        let! (_, p) := decryptPayload buf key in
        Ok ({| h_type := sh_type h; h_uid := sh_uid h; h_boot := sh_boot h; h_seq := sh_seq h;
               h_uptimeMs := sh_uptimeMs h; h_signed := true; h_secureId := Some (sh_keyId h) |}, p)
    end in
  match attempt with
  | Err e => if bool_decide (e = ERR_RANGE) then Err "invalid encrypted packet" else Err e
  | ok => ok
  end.

(** [got.some((b) => b !== 0)] *)
Definition nonzero (t : list Z) : bool := existsb (fun b => negb (b =? 0)) t.

(** @edge/protocol.ts 184-199 parsePacket *)
Definition open_legacy (buf : list Z) (verify : VerifyOptions) : result string (Header * list Z) :=
  throw_if Nat.ltb (length buf) (HEADER_SIZE + TAG_SIZE) with "short datagram" in
  throw_if negb (byte_at 0 buf =? 84) || negb (byte_at 1 buf =? 77) with "bad magic" in
  throw_if negb (byte_at 2 buf =? VERSION) with "unsupported version " +:+ show (byte_at 2 buf) in
  let uid := uidToString (sub 4 6 buf) in
  throw_if match v_devices verify with Some d => negb (allowsLegacy d uid) | None => false end
    with "plaintext device traffic refused" in
  let! len := rd 2 20 buf in
  let n := (HEADER_SIZE + Z.to_nat len)%nat in
  throw_if negb (Nat.eqb (length buf) (n + TAG_SIZE)) with "length mismatch" in
  let signedPart := take n buf in
  let got := drop n buf in
  let signed := nonzero got in
  throw_if signed && negb (existsb (fun k => bool_decide (tag k signedPart = got)) (v_keys verify))
    with "bad signature" in
  throw_if negb signed && negb (v_allowUnsigned verify) with "unsigned" in
  let! boot := rd 2 10 buf in
  let! seq := rd 4 12 buf in
  let! up := rd 4 16 buf in
  Ok ({| h_type := byte_at 3 buf; h_uid := uid; h_boot := boot; h_seq := seq; h_uptimeMs := up;
         h_signed := signed; h_secureId := None |}, sub HEADER_SIZE (Z.to_nat len) buf).

(** @edge/protocol.ts 169-200 parsePacket *)
Definition parsePacket (now : Z) (buf : list Z) (verify : VerifyOptions) : result string Packet :=
  let! (h, p) :=
    if bool_decide (buf !! 2%nat = Some 2) then open_secure now buf verify else open_legacy buf verify in
  let! b := parse_body (h_type h) p in
  Ok {| p_header := h; p_body := b |}.

(** ** Downlinks *)

(** @edge/protocol.ts 287-292 Command *)
Record Command := { c_seq : Z; c_opcode : Z; c_arg0 : Z; c_value : Z }.

(** @edge/protocol.ts 294-307 buildCommand *)
Definition buildCommand (uid : string) (cmd : Command) (key : list Z) : result string (list Z) :=
  let buf := put_byte 3 TYPE_COMMAND (put_byte 2 VERSION (put 0 MAGIC (alloc (HEADER_SIZE + 10 + TAG_SIZE)))) in
  let! u := uidFromString uid in
  let buf := put 4 u buf in
  let! buf := write_uint 2 20 10 buf in
  let! buf := write_uint 4 22 (u32 (c_seq cmd)) buf in
  let buf := put_byte 27 (c_arg0 cmd) (put_byte 26 (c_opcode cmd) buf) in
  let! buf := write_int 4 28 (i32 (c_value cmd)) buf in
  Ok (put (HEADER_SIZE + 10) (tag key (take (HEADER_SIZE + 10) buf)) buf).

(** @edge/protocol.ts 309-319 OtaRequest *)
Record OtaRequest := { q_seq : Z; q_port : Z; q_size : Z; q_sha256 : string; q_path : string }.

(** @edge/protocol.ts 326-346 buildOta *)
Definition buildOta (uid : string) (ota : OtaRequest) (key : list Z) : result string (list Z) :=
  let sha := from_hex (q_sha256 ota) in
  throw_if negb (Nat.eqb (length sha) 32) with "sha256 must be 32 bytes of hex" in
  let path := bytes_of_string (q_path ota) in
  throw_if Nat.leb OTA_PATH_LEN (length path) with "path longer than 47" in
  let size := (42 + OTA_PATH_LEN)%nat in
  let buf := put_byte 3 TYPE_OTA (put_byte 2 VERSION (put 0 MAGIC (alloc (HEADER_SIZE + size + TAG_SIZE)))) in
  let! u := uidFromString uid in
  let buf := put 4 u buf in
  let! buf := write_uint 2 20 (Z.of_nat size) buf in
  let! buf := write_uint 4 (HEADER_SIZE + 0) (u32 (q_seq ota)) buf in
  let! buf := write_uint 2 (HEADER_SIZE + 4) (q_port ota) buf in
  let! buf := write_uint 4 (HEADER_SIZE + 6) (q_size ota) buf in
  let buf := put (HEADER_SIZE + 42) path (put (HEADER_SIZE + 10) sha buf) in
  Ok (put (HEADER_SIZE + size) (tag key (take (HEADER_SIZE + size) buf)) buf).

(** ** The builders of the simulator *)

(** @edge/protocol.ts 350-361 header *)
Definition header (type : Z) (uid : string) (boot seq uptimeMs : Z) (len : nat) : result string (list Z) :=
  let buf := put_byte 3 type (put_byte 2 VERSION (put 0 MAGIC (alloc (HEADER_SIZE + (len + TAG_SIZE))))) in
  let! u := uidFromString uid in
  let buf := put 4 u buf in
  let! buf := write_uint 2 10 boot buf in
  let! buf := write_uint 4 12 (u32 seq) buf in
  let! buf := write_uint 4 16 (u32 uptimeMs) buf in
  write_uint 2 20 (Z.of_nat len) buf.

(** @edge/protocol.ts 363-367 seal *)
Definition seal_packet (buf : list Z) (key : option (list Z)) : list Z :=
  let n := (length buf - TAG_SIZE)%nat in
  match key with Some k => put n (tag k (take n buf)) buf | None => buf end.

(** @edge/protocol.ts 369-369 clampU8 *)
Definition clampU8 (v : Q) : Z := Z.max 0 (Z.min 255 (js_round v)).

(** @edge/protocol.ts 371-376 Identity *)
Record Identity := { i_uid : string; i_boot : Z; i_seq : Z; i_key : option (list Z) }.

(** [id.seq++] *)
Definition next_seq (id : Identity) : Identity :=
  {| i_uid := i_uid id; i_boot := i_boot id; i_seq := i_seq id + 1; i_key := i_key id |}.

(** @edge/protocol.ts 389-397 buildReport *)
Fixpoint write_detections (dets : list Detection) (o : nat) (buf : list Z) : result string (list Z) :=
  match dets with
  | [] => Ok buf
  | d :: dets' =>
      let buf := put_byte o (clampU8 (d_x d * 8)) buf in
      let buf := put_byte (o + 1) (clampU8 (d_y d * 8)) buf in
      let buf := put_byte (o + 2) (clampU8 (inject_Z (d_area d))) buf in
      let buf := put_byte (o + 3) (clampU8 (d_contrast d / (1 # 20))) buf in
      let buf := put_byte (o + 4) (clampU8 (d_peak d / (1 # 4))) buf in
      let! buf := write_uint 2 (o + 5) (Z.max 0 (Z.min 65535 (js_round (d_heat d * 10)))) buf in
      write_detections dets' (o + 7) buf
  end.

(** @edge/protocol.ts 378-399 buildReport *)
Definition buildReport (id : Identity) (uptimeMs : Z) (r : Report) : Identity * result string (list Z) :=
  let dets := take MAX_DETECTIONS (r_detections r) in
  (next_seq id,
   let! buf := header TYPE_REPORT (i_uid id) (i_boot id) (i_seq id) uptimeMs (14 + 7 * length dets) in
   let p := HEADER_SIZE in
   let! buf := write_uint 4 p (u32 (r_frame r)) buf in
   let! buf := write_int 2 (p + 4) (js_round (r_ta r * 100)) buf in
   let! buf := write_int 2 (p + 6) (js_round (r_sceneMin r * 100)) buf in
   let! buf := write_int 2 (p + 8) (js_round (r_sceneMax r * 100)) buf in
   let! buf := write_int 2 (p + 10) (js_round (r_bgMean r * 100)) buf in
   let flags := Z.lor (r_flags r) (if Nat.ltb MAX_DETECTIONS (length (r_detections r)) then REPORT_TRUNCATED else 0) in
   let buf := put_byte (p + 13) (Z.of_nat (length dets)) (put_byte (p + 12) flags buf) in
   let! buf := write_detections dets (p + 14) buf in
   Ok (seal_packet buf (i_key id))).

Definition Qmin2 (a b : Q) : Q := if Qle_bool a b then a else b.
Definition Qmax2 (a b : Q) : Q := if Qle_bool a b then b else a.

(** The frame's range and the two numbers that encode it.
    @edge/protocol.ts 402-409 buildRaw *)
Definition raw_scale (temps : list Q) : option (Q * Z * Z) :=
  match temps with
  | [] => None
  | t :: ts =>
      let lo := fold_left Qmin2 ts t in
      let hi := fold_left Qmax2 ts t in
      let loC := js_floor (lo * 100) in
      let stepQ := Z.min 65535 (Z.max 1 (js_ceil ((hi - (loC # 100)) / 255 * 10000))) in
      Some (lo, loC, stepQ)
  end.

(** @edge/protocol.ts 414-414 buildRaw *)
Definition raw_pixel (loC stepQ : Z) (t : Q) : Z := clampU8 ((t - (loC # 100)) / (stepQ # 10000)).

(** @edge/protocol.ts 401-416 buildRaw *)
Definition buildRaw (id : Identity) (uptimeMs frame : Z) (temps : list Q) : Identity * result string (list Z) :=
  (next_seq id,
   let! buf := header TYPE_RAW (i_uid id) (i_boot id) (i_seq id) uptimeMs (8 + GRID_SIZE) in
   match raw_scale temps with
   | None => Err ERR_RANGE
   | Some (lo, loC, stepQ) =>
       let! buf := write_uint 4 HEADER_SIZE (u32 frame) buf in
       let! buf := write_int 2 (HEADER_SIZE + 4) loC buf in
       let! buf := write_uint 2 (HEADER_SIZE + 6) stepQ buf in
       let pixels := map (fun i => raw_pixel loC stepQ (default lo (temps !! i))) (List.seq 0 GRID_SIZE) in
       Ok (seal_packet (put (HEADER_SIZE + 8) pixels buf) (i_key id))
   end).

(** [Math.max(0, list.indexOf(x))] *)
Fixpoint index_of (x : string) (l : list string) : option nat :=
  match l with
  | [] => None
  | y :: l' => if bool_decide (x = y) then Some O else S <$> index_of x l'
  end.

(** @edge/protocol.ts 419-427 buildOtaStatus *)
Definition buildOtaStatus (id : Identity) (uptimeMs : Z) (st : OtaStatus) : Identity * result string (list Z) :=
  (next_seq id,
   let! buf := header TYPE_OTA_STATUS (i_uid id) (i_boot id) (i_seq id) uptimeMs 8 in
   let p := HEADER_SIZE in
   let buf := put_byte p (Z.of_nat (default O (index_of (o_state st) OTA_STATES))) buf in
   let buf := put_byte (p + 1) (o_percent st) buf in
   let buf := put_byte (p + 2) (Z.of_nat (default O (index_of (o_error st) OTA_ERRORS))) buf in
   Ok (seal_packet (put (p + 4) (take 4 (from_hex (o_image st))) buf) (i_key id))).

(** The gap-free prefix of the parameters.
    @edge/protocol.ts 430-435 buildStatus *)
Fixpoint param_prefix (names : list string) (params : list (string * Z)) : list Z :=
  match names with
  | [] => []
  | n :: names' =>
      match om_get n params with None => [] | Some v => v :: param_prefix names' params end
  end.

(** [s.ip.split('.').forEach((o, i) => (buf[p + 12 + i] = Number(o) & 255))], for
    parts of decimal digits; any other part is stored as 0, as NaN is. *)
Fixpoint write_octets (parts : list string) (o : nat) (buf : list Z) : list Z :=
  match parts with
  | [] => buf
  | s :: parts' => write_octets parts' (o + 1) (put_byte o (default 0 (decimal s)) buf)
  end.

(** @edge/protocol.ts 454-454 buildStatus *)
Fixpoint write_params (vs : list Z) (o : nat) (buf : list Z) : result string (list Z) :=
  match vs with
  | [] => Ok buf
  | v :: vs' => let! buf := write_int 4 o v buf in write_params vs' (o + 4) buf
  end.

(** @edge/protocol.ts 429-456 buildStatus *)
Definition buildStatus (id : Identity) (uptimeMs : Z) (s : Status) : Identity * result string (list Z) :=
  let params := param_prefix PARAM_NAMES (s_params s) in
  (next_seq id,
   let! buf := header TYPE_STATUS (i_uid id) (i_boot id) (i_seq id) uptimeMs (48 + 4 * length params) in
   let p := HEADER_SIZE in
   let buf := put p (take 12 (bytes_of_string (s_fw s))) buf in
   let buf := write_octets (split_on (Ascii.ascii_of_N 46) (s_ip s)) (p + 12) buf in
   let! buf := write_int 1 (p + 16) (s_rssi s) buf in
   let buf := put_byte (p + 17) (s_channel s) buf in
   let! buf := write_uint 4 (p + 18) (s_freeHeap s) buf in
   let! buf := write_uint 4 (p + 22) (s_minHeap s) buf in
   let! buf := write_uint 2 (p + 26) (s_stackFree s) buf in
   let! buf := write_uint 2 (p + 28) (s_wifiDrops s) buf in
   let! buf := write_uint 2 (p + 30) (s_sensorErrors s) buf in
   let! buf := write_uint 4 (p + 32) (u32 (s_frames s)) buf in
   let! buf := write_uint 2 (p + 36) (js_round (s_fps s * 100)) buf in
   let! buf := write_uint 2 (p + 38) (js_round (s_vdd s * 100)) buf in
   let! buf := write_int 2 (p + 40) (js_round (s_ta s * 100)) buf in
   let! buf := write_uint 4 (p + 42) (u32 (s_lastCmd s)) buf in
   let buf := put_byte (p + 47) (Z.of_nat (length params)) (put_byte (p + 46) (s_flags s) buf) in
   let! buf := write_params params (p + 48) buf in
   Ok (seal_packet buf (i_key id))).

End protocol.

(** ** Layout of the built packets *)

Lemma uid_filter p bs :
  (forall z, is_hex_lower z = true -> p z = true) -> p (Ascii.ascii_of_N 58) = false -> bytes_ok bs ->
  List.filter p (uid_chars bs) = concat (map hex_byte bs).
Proof.
  intros Hp Hc Hb. induction Hb as [|b bs Hb Hbs IH]; [done|].
  cbn [map concat]. destruct_hex b.
  destruct bs as [|b' bs]; cbn [uid_chars]; match goal with H : hex_byte b = _ |- _ => rewrite H end;
    cbn [app List.filter]; rewrite !Hp by done; [done|].
  rewrite Hc. f_equal. f_equal. exact IH.
Qed.

Lemma concat_hex_is_hex bs : bytes_ok bs ->
  forallb is_hex (concat (map hex_byte bs)) = true /\ length (concat (map hex_byte bs)) = (2 * length bs)%nat.
Proof.
  induction 1 as [|b bs Hb _ [IH1 IH2]]; [done|]. cbn [map concat]. destruct_hex b.
  match goal with H : hex_byte b = _ |- _ => rewrite H end. cbn [app forallb length]. rewrite IH1, IH2.
  unfold is_hex. repeat match goal with H : is_hex_lower _ = true |- _ => rewrite H end. split; [done | lia].
Qed.

Lemma uidFromString_text bs : length bs = 6%nat -> bytes_ok bs -> uidFromString (uid_text bs) = Ok bs.
Proof.
  intros Hl H. unfold uidFromString, uid_text. rewrite chars_of_list.
  rewrite uid_filter; [| |done|done].
  - destruct (concat_hex_is_hex bs H) as [-> ->]. rewrite Hl. cbn [Nat.mul Nat.add Nat.eqb andb negb].
    f_equal. rewrite <- (from_hex_to_hex bs H) at 2. unfold from_hex, to_hex.
    rewrite chars_of_list. unfold hex_chars. f_equal. clear. induction bs as [|b bs IH]; [done|].
    cbn [map concat]. by rewrite IH.
  - intros z Hz. destruct (Z.eqb_spec (code z) 58) as [E|_], (Z.eqb_spec (code z) 45) as [E'|_]; try done;
      revert Hz; unfold is_hex_lower, is_digit, between; rewrite ?E, ?E'; done.
Qed.

Definition hdr_bytes (type : Z) (u : list Z) (boot seq up len : Z) : list Z :=
  [84; 77; 1; type] ++ u ++ le 2 boot ++ le 4 seq ++ le 4 up ++ le 2 len.

Lemma length_hdr type u boot seq up len : length u = 6%nat -> length (hdr_bytes type u boot seq up len) = 22%nat.
Proof. intros H. unfold hdr_bytes. by rewrite !length_app, !length_le, H. Qed.

Lemma header_layout type u boot seq up len :
  byte_ok type -> length u = 6%nat -> bytes_ok u -> 0 <= boot < 2 ^ 16 -> Z.of_nat len < 2 ^ 16 ->
  header type (uid_text u) boot seq up len
  = Ok (hdr_bytes type u boot (u32 seq) (u32 up) (Z.of_nat len) ++ alloc (len + 8)).
Proof.
  intros Ht Hl Hu Hb Hlen. unfold header. rewrite uidFromString_text by done.
  pose proof (u32_range seq) as Hs. pose proof (u32_range up) as Hup.
  change (2 ^ 16) with (256 ^ Z.of_nat 2) in *. change (2 ^ 32) with (256 ^ Z.of_nat 4) in *.
  change (alloc (HEADER_SIZE + (len + TAG_SIZE))) with ([] ++ alloc (22 + (len + 8))).
  rewrite (put_fill 0 MAGIC []) by (simpl; lia). change ([] ++ MAGIC) with [84; 77]. change (length MAGIC) with 2%nat.
  rewrite (put_byte_fill 2) by fill_side. rewrite (put_byte_fill 3) by fill_side.
  cbn [rbind]. rewrite (put_fill 4) by fill_side. rewrite Hl.
  rewrite (write_uint_fill 2 10) by (rewrite ?length_app, ?Hl; simpl; lia || done). cbn [rbind].
  rewrite (write_uint_fill 4 12) by (rewrite ?length_app, ?length_le, ?Hl; simpl; lia || done). cbn [rbind].
  rewrite (write_uint_fill 4 16) by (rewrite ?length_app, ?length_le, ?Hl; simpl; lia || done). cbn [rbind].
  rewrite (write_uint_fill 2 20) by (rewrite ?length_app, ?length_le, ?Hl; simpl; lia || done).
  f_equal. unfold hdr_bytes. f_equal; [|f_equal; lia]. rewrite <- !app_assoc. cbn [app].
  rewrite (Z.mod_small type) by done. done.
Qed.

Section seal.
Context {C : Crypto} {Laws : CryptoLaws}.

Lemma length_tag k d : length (tag k d) = 8%nat.
Proof. unfold tag. by rewrite length_take, hmac_length. Qed.

Definition trailer (key : option (list Z)) (body : list Z) : list Z :=
  match key with Some k => tag k body | None => alloc 8 end.

Lemma length_trailer key body : length (trailer key body) = 8%nat.
Proof. destruct key; [apply length_tag | done]. Qed.

Lemma seal_layout body key : seal_packet (body ++ alloc 8) key = body ++ trailer key body.
Proof.
  unfold seal_packet. destruct key as [k|]; [|done].
  assert (length (body ++ alloc 8) - TAG_SIZE = length body)%nat as ->
    by (rewrite length_app; change (length (alloc 8)) with 8%nat; change TAG_SIZE with 8%nat; lia).
  rewrite take_app_le, firstn_all by lia. rewrite put_fill by (rewrite ?length_tag; lia).
  rewrite length_tag. simpl. by rewrite app_nil_r.
Qed.

(** What a node that holds [key] may send to a gateway with [verify]: signed by a
    key the gateway knows, or unsigned where that is allowed. *)
Definition admissible (verify : VerifyOptions) (key : option (list Z)) (uid : string) (body : list Z) : Prop :=
  match v_devices verify with Some d => allowsLegacy d uid = true | None => True end /\
  match key with
  | Some k => k ∈ v_keys verify /\ nonzero (tag k body) = true
  | None => v_allowUnsigned verify = true
  end.

Lemma open_legacy_layout verify key type u boot seq up payload :
  byte_ok type -> length u = 6%nat -> bytes_ok u -> 0 <= boot < 2 ^ 16 ->
  0 <= seq < 2 ^ 32 -> 0 <= up < 2 ^ 32 -> Z.of_nat (length payload) < 2 ^ 16 ->
  let body := hdr_bytes type u boot seq up (Z.of_nat (length payload)) ++ payload in
  admissible verify key (uid_text u) body ->
  open_legacy (body ++ trailer key body) verify
  = Ok ({| h_type := type; h_uid := uid_text u; h_boot := boot; h_seq := seq; h_uptimeMs := up;
           h_signed := match key with Some _ => true | None => false end; h_secureId := None |}, payload).
Proof.
  intros Ht Hl Hu Hb Hs Hup Hlen body [Hdev Hkey].
  set (t := trailer key body) in *. assert (length t = 8%nat) as Ht8 by apply length_trailer.
  assert (length body = 22 + length payload)%nat as Hbody.
  { unfold body. by rewrite length_app, length_hdr. }
  assert (take (22 + length payload) (body ++ t) = body) as Htake by (rewrite <- Hbody; apply take_app_length).
  assert (drop (22 + length payload) (body ++ t) = t) as Hdrop by (rewrite <- Hbody; apply drop_app_length).
  assert (sub 22 (length payload) (body ++ t) = payload) as Hsub.
  { unfold sub, body. rewrite <- app_assoc, <- (length_hdr type u boot seq up (Z.of_nat (length payload)) Hl).
    rewrite drop_app_length. apply take_app_length. }
  assert (length (body ++ t) = 22 + length payload + 8)%nat as Hall by (rewrite length_app; lia).
  assert (exists u0 u1 u2 u3 u4 u5 l0 l1, u = [u0; u1; u2; u3; u4; u5] /\
    body ++ t = [84; 77; 1; type] ++ u ++ le 2 boot ++ le 4 seq ++ le 4 up ++ [l0; l1] ++ payload ++ t /\
    unle [l0; l1] = Z.of_nat (length payload)) as (u0 & u1 & u2 & u3 & u4 & u5 & l0 & l1 & Eu & Eb & El).
  { destruct (six_bytes u Hl Hu) as (a & b & c & d & e & f & -> & _).
    exists a, b, c, d, e, f, (Z.of_nat (length payload) mod 256), (Z.of_nat (length payload) / 256 mod 256).
    split_and!; [done| |].
    - unfold body, hdr_bytes. by rewrite <- !app_assoc.
    - apply (unle_le_id 2). change (256 ^ Z.of_nat 2) with (2 ^ 16). lia. }
  destruct (unle_le_keep 2 boot) as (lb & Elb & Hlb & Evb); [done|].
  destruct (unle_le_keep 4 seq) as (ls & Els & Hls & Evs); [done|].
  destruct (unle_le_keep 4 up) as (lu & Elu & Hlu & Evu); [done|].
  rewrite Elb, Els, Elu, Eu in Eb. explode_list lb Hlb. explode_list ls Hls. explode_list lu Hlu.
  cbn [app] in Eb.
  assert (byte_at 0 (body ++ t) = 84 /\ byte_at 1 (body ++ t) = 77 /\ byte_at 2 (body ++ t) = 1 /\
    byte_at 3 (body ++ t) = type /\ sub 4 6 (body ++ t) = u) as (B0 & B1 & B2 & B3 & Bu) by (rewrite Eb, Eu; done).
  assert (rd 2 20 (body ++ t) = Ok (Z.of_nat (length payload)) /\ rd 2 10 (body ++ t) = Ok boot /\
    rd 4 12 (body ++ t) = Ok seq /\ rd 4 16 (body ++ t) = Ok up) as (R0 & R1 & R2 & R3).
  { rewrite Eb, <- El, <- Evb, <- Evs, <- Evu. done. }
  clearbody body. clear Eb.
  unfold open_legacy. change HEADER_SIZE with 22%nat. change TAG_SIZE with 8%nat.
  rewrite Hall, B0, B1, B2, B3, Bu, R0, R1, R2, R3. cbn [rbind].
  rewrite (proj2 (Nat.ltb_ge _ _)) by lia. cbn [negb orb Z.eqb Pos.eqb VERSION uidToString].
  assert (match v_devices verify with Some d => negb (allowsLegacy d (uidToString u)) | None => false end = false) as ->.
  { destruct (v_devices verify) as [d|]; [|done]. unfold uidToString. by rewrite Hdev. }
  rewrite Nat2Z.id, Nat.eqb_refl, Htake, Hdrop, Hsub. cbn [negb].
  destruct key as [k|]; simpl in t.
  - destruct Hkey as [Hk Hnz]. rewrite (Hnz : nonzero t = true). cbn [negb andb].
    rewrite (proj2 (existsb_exists _ _)); [done|]. exists k. split; [by apply list_elem_of_In|].
    by apply bool_decide_eq_true.
  - rewrite Hkey. done.
Qed.
End seal.

(** ** Quantisation

    A report carries its physical values as scaled integers. [quantise_report]
    is what is left of a report on the other side. *)
Definition quant (lo hi : Z) (d : positive) (q : Q) : Q := clamp lo hi (js_round (q * inject_Z (Zpos d))) # d.

Definition quantise_det (d : Detection) : Detection :=
  {| d_x := quant 0 255 8 (d_x d); d_y := quant 0 255 8 (d_y d); d_area := clamp 0 255 (d_area d);
     d_contrast := quant 0 255 20 (d_contrast d); d_peak := quant 0 255 4 (d_peak d);
     d_heat := quant 0 65535 10 (d_heat d) |}.

Definition quantise_report (r : Report) : Report :=
  let c q := js_round (q * 100) # 100 in
  {| r_frame := u32 (r_frame r); r_ta := c (r_ta r); r_sceneMin := c (r_sceneMin r);
     r_sceneMax := c (r_sceneMax r); r_bgMean := c (r_bgMean r);
     r_flags := Z.lor (r_flags r) (if Nat.ltb MAX_DETECTIONS (length (r_detections r)) then REPORT_TRUNCATED else 0) mod 256;
     r_detections := map quantise_det (take MAX_DETECTIONS (r_detections r)) |}.

Lemma quant_error lo hi d q :
  (inject_Z lo <= q * inject_Z (Zpos d) <= inject_Z hi)%Q -> (Qabs (quant lo hi d q - q) <= 1 # (2 * d))%Q.
Proof.
  intros H. unfold quant. rewrite clamp_id by (by apply js_round_range). apply grid_error.
  pose proof (js_round_bounds (q * inject_Z (Zpos d))). lra.
Qed.

(** *** Layout of a report *)
Definition det_bytes (d : Detection) : list Z :=
  [clampU8 (d_x d * 8); clampU8 (d_y d * 8); clampU8 (inject_Z (d_area d));
   clampU8 (d_contrast d / (1 # 20)); clampU8 (d_peak d / (1 # 4))]
  ++ le 2 (Z.max 0 (Z.min 65535 (js_round (d_heat d * 10)))).

Lemma clampU8_byte v : 0 <= clampU8 v < 256.
Proof. unfold clampU8. lia. Qed.

Lemma write_detections_layout dets pre k :
  write_detections dets (length pre) (pre ++ alloc (7 * length dets + k))
  = Ok ((pre ++ concat (map det_bytes dets)) ++ alloc k).
Proof.
  revert pre; induction dets as [|d dets IH]; intros pre.
  - simpl. by rewrite app_nil_r.
  - cbn [write_detections].
    rewrite (put_byte_fill (length pre)) by fill_side.
    rewrite (put_byte_fill (length pre + 1)) by fill_side.
    rewrite (put_byte_fill (length pre + 2)) by fill_side.
    rewrite (put_byte_fill (length pre + 3)) by fill_side.
    rewrite (put_byte_fill (length pre + 4)) by fill_side.
    rewrite (write_uint_fill 2 (length pre + 5)); cycle 1.
    { rewrite !length_app. simpl; lia. } { change (256 ^ Z.of_nat 2) with 65536. lia. } { simpl; lia. }
    cbn [rbind]. rewrite !Z.mod_small by apply clampU8_byte.
    set (pre' := (_ ++ le 2 _)).
    assert (pre' = pre ++ det_bytes d) as -> by (unfold pre', det_bytes; by rewrite <- !app_assoc).
    replace (length pre + 7)%nat with (length (pre ++ det_bytes d)) by (rewrite length_app; done).
    replace (7 * length (d :: dets) + k - 1 - 1 - 1 - 1 - 1 - 2)%nat with (7 * length dets + k)%nat by (simpl length; lia).
    rewrite IH. cbn [map concat]. by rewrite <- (app_assoc pre).
Qed.

Lemma length_det_bytes dets : length (concat (map det_bytes dets)) = (7 * length dets)%nat.
Proof. induction dets as [|d dets IH]; [done|]. cbn [map concat]. rewrite length_app, IH. cbn. lia. Qed.

Lemma quant_clampU8 d q : clampU8 (q * inject_Z (Zpos d)) # d = quant 0 255 d q.
Proof. reflexivity. Qed.

Lemma parse_detections_layout pre dets post :
  parse_detections (length dets) (length pre) (pre ++ concat (map det_bytes dets) ++ post)
  = Ok (map quantise_det dets).
Proof.
  revert pre; induction dets as [|d dets IH]; intros pre; [done|].
  cbn [length parse_detections map concat].
  set (heat := Z.max 0 (Z.min 65535 (js_round (d_heat d * 10)))).
  assert (rd 2 (length pre + 5) (pre ++ (det_bytes d ++ concat (map det_bytes dets)) ++ post) = Ok heat) as ->.
  { unfold rd. rewrite read_uint_app_r by lia. replace (length pre + 5 - length pre)%nat with 5%nat by lia.
    unfold det_bytes. rewrite <- !app_assoc. rewrite read_uint_skip by (simpl; lia).
    cbn [length Nat.sub]. rewrite read_uint_le_id; [done|]. change (256 ^ Z.of_nat 2) with 65536. unfold heat. lia. }
  cbn [rbind]. replace (length pre + 7)%nat with (length (pre ++ det_bytes d)) by (rewrite length_app; done).
  replace (pre ++ (det_bytes d ++ concat (map det_bytes dets)) ++ post)
    with ((pre ++ det_bytes d) ++ concat (map det_bytes dets) ++ post) by (by rewrite <- !app_assoc).
  rewrite IH. cbn [rbind]. do 2 f_equal.
  assert (forall i, (i < 7)%nat -> byte_at (length pre + i) ((pre ++ det_bytes d) ++ concat (map det_bytes dets) ++ post)
    = byte_at i (det_bytes d)) as B.
  { intros i Hi. unfold byte_at. rewrite <- app_assoc, lookup_app_r by lia.
    rewrite lookup_app_l by (simpl; lia). do 2 f_equal. lia. }
  pose proof (B 0%nat ltac:(lia)) as B0. rewrite Nat.add_0_r in B0. rewrite B0, !B by lia.
  unfold quantise_det. cbn [det_bytes app byte_at lookup list_lookup default from_option id].
  f_equal.
  - apply (js_round_Z (inject_Z (d_area d)) (d_area d)) || idtac. unfold byte_at, det_bytes; cbn. unfold clampU8, clamp. 
    by rewrite (js_round_Z _ (d_area d)).
Qed.

(** A temperature the centi-degree field can hold. *)
Definition temp_ok (q : Q) : Prop := - 32768 <= js_round (q * 100) < 32768.

Definition report_payload (r : Report) : list Z :=
  let dets := take MAX_DETECTIONS (r_detections r) in
  let q := quantise_report r in
  le 4 (r_frame q) ++ le 2 (js_round (r_ta r * 100)) ++ le 2 (js_round (r_sceneMin r * 100))
  ++ le 2 (js_round (r_sceneMax r * 100)) ++ le 2 (js_round (r_bgMean r * 100))
  ++ [r_flags q; Z.of_nat (length dets)] ++ concat (map det_bytes dets).

Definition report_ok (r : Report) : Prop :=
  temp_ok (r_ta r) /\ temp_ok (r_sceneMin r) /\ temp_ok (r_sceneMax r) /\ temp_ok (r_bgMean r).

Lemma length_report_payload r :
  length (report_payload r) = (14 + 7 * length (take MAX_DETECTIONS (r_detections r)))%nat.
Proof. unfold report_payload. rewrite !length_app, !length_le, length_det_bytes. simpl. lia. Qed.

Lemma take_max_detections r : (length (take MAX_DETECTIONS (r_detections r)) <= 24)%nat.
Proof. rewrite length_take. unfold MAX_DETECTIONS. lia. Qed.

Section reports.
Context {C : Crypto} {Laws : CryptoLaws}.

Ltac side Hh := first [ change (256 ^ Z.of_nat 2 / 2) with 32768; lia
    | rewrite ?length_app, ?length_le, ?Hh; cbn [length]; lia ].

Lemma buildReport_layout id u up r :
  i_uid id = uid_text u -> length u = 6%nat -> bytes_ok u -> 0 <= i_boot id < 2 ^ 16 -> report_ok r ->
  let body := hdr_bytes TYPE_REPORT u (i_boot id) (u32 (i_seq id)) (u32 up)
                (Z.of_nat (length (report_payload r))) ++ report_payload r in
  (buildReport id up r).2 = Ok (body ++ trailer (i_key id) body).
Proof.
  intros Hu Hl Hub Hb (Hta & Hlo & Hhi & Hbg). unfold temp_ok in *. unfold buildReport. cbn [snd].
  pose proof (take_max_detections r) as Hn. pose proof (length_report_payload r) as Hlen.
  set (dets := take MAX_DETECTIONS (r_detections r)) in *.
  rewrite Hu, header_layout; [|unfold byte_ok, TYPE_REPORT; lia|done|done|done|lia].
  cbn [rbind]. set (hdr := hdr_bytes _ _ _ _ _ _).
  assert (length hdr = 22%nat) as Hh by (by apply length_hdr).
  pose proof (u32_range (r_frame r)) as Hf. change (2 ^ 32) with (256 ^ Z.of_nat 4) in Hf.
  change HEADER_SIZE with 22%nat.
  rewrite (write_uint_fill 4 22) by (lia || done). cbn [rbind].
  rewrite (write_int_fill 2 (22 + 4)) by side Hh. cbn [rbind].
  rewrite (write_int_fill 2 (22 + 6)) by side Hh. cbn [rbind].
  rewrite (write_int_fill 2 (22 + 8)) by side Hh. cbn [rbind].
  rewrite (write_int_fill 2 (22 + 10)) by side Hh. cbn [rbind].
  rewrite (put_byte_fill (22 + 12)) by side Hh.
  rewrite (put_byte_fill (22 + 13)) by side Hh.
  set (pre := _ ++ [Z.of_nat (length dets) mod 256]).
  assert (length pre = 22 + 14)%nat as Hp.
  { unfold pre. rewrite !length_app, !length_le, Hh. done. }
  rewrite <- Hp. replace (14 + 7 * length dets + 8 - 4 - 2 - 2 - 2 - 2 - 1 - 1)%nat with (7 * length dets + 8)%nat by lia.
  rewrite write_detections_layout. cbn [rbind].
  rewrite seal_layout. do 2 f_equal.
  - unfold pre, hdr. rewrite Hlen, (Z.mod_small (Z.of_nat (length dets))) by lia.
    unfold report_payload. fold dets. by rewrite <- !app_assoc.
  - unfold pre, hdr. rewrite Hlen, (Z.mod_small (Z.of_nat (length dets))) by lia.
    unfold report_payload. fold dets. by rewrite <- !app_assoc.
Qed.

Lemma parse_report_layout r : report_ok r -> parse_report (report_payload r) = Ok (BReport (quantise_report r)).
Proof.
  intros (Hta & Hlo & Hhi & Hbg). unfold temp_ok in *.
  pose proof (take_max_detections r) as Hn. pose proof (length_report_payload r) as Hlen.
  unfold parse_report. rewrite Hlen. set (dets := take MAX_DETECTIONS (r_detections r)) in *.
  set (pre := le 4 (r_frame (quantise_report r)) ++ le 2 (js_round (r_ta r * 100)) ++ le 2 (js_round (r_sceneMin r * 100))
    ++ le 2 (js_round (r_sceneMax r * 100)) ++ le 2 (js_round (r_bgMean r * 100))
    ++ [r_flags (quantise_report r); Z.of_nat (length dets)]).
  assert (report_payload r = pre ++ concat (map det_bytes dets)) as Epay.
  { unfold report_payload, pre. fold dets. by rewrite <- !app_assoc. }
  assert (length pre = 14%nat) as Hp by (unfold pre; by rewrite !length_app, !length_le).
  assert (byte_at 13 (report_payload r) = Z.of_nat (length dets) /\ byte_at 12 (report_payload r) = r_flags (quantise_report r))
    as [-> ->] by (rewrite Epay; done).
  rewrite Nat2Z.id, (proj2 (Nat.ltb_ge _ _)) by lia. rewrite (proj2 (Nat.ltb_ge _ _)) by (unfold MAX_DETECTIONS; lia).
  rewrite Nat.eqb_refl. cbn [orb negb].
  rewrite Epay, <- Hp, <- (app_nil_r (concat _)), parse_detections_layout. cbn [rbind]. rewrite app_nil_r.
  pose proof (u32_range (r_frame r)) as Hf. change (2 ^ 32) with (256 ^ Z.of_nat 4) in Hf.
  assert (rd 4 0 (pre ++ concat (map det_bytes dets)) = Ok (u32 (r_frame r))) as ->.
  { unfold rd, pre. rewrite <- !app_assoc, read_uint_le_id; done. }
  cbn [rbind].
  assert (forall o v a b, pre = a ++ le 2 v ++ b -> length a = o -> -32768 <= v < 32768 ->
    rds 2 o (pre ++ concat (map det_bytes dets)) = Ok v) as R.
  { intros o v a b E Ho Hv. unfold rds. rewrite E, <- !app_assoc, read_int_skip by lia.
    rewrite Ho, Nat.sub_diag, (read_int_le 1); [done|]. exact Hv. }
  rewrite (R 4%nat (js_round (r_ta r * 100)) (le 4 (u32 (r_frame r))) _ eq_refl eq_refl Hta). cbn [rbind].
  rewrite (R 6%nat (js_round (r_sceneMin r * 100)) (le 4 (u32 (r_frame r)) ++ le 2 _) _ ltac:(by rewrite <- !app_assoc) eq_refl Hlo). cbn [rbind].
  rewrite (R 8%nat (js_round (r_sceneMax r * 100)) (le 4 (u32 (r_frame r)) ++ le 2 _ ++ le 2 _) _ ltac:(by rewrite <- !app_assoc) eq_refl Hhi). cbn [rbind].
  rewrite (R 10%nat (js_round (r_bgMean r * 100)) (le 4 (u32 (r_frame r)) ++ le 2 _ ++ le 2 _ ++ le 2 _) _ ltac:(by rewrite <- !app_assoc) eq_refl Hbg). cbn [rbind].
  reflexivity.
Qed.

End reports.

(** ** No read outside a packet *)
Lemma rd_ok n o b : (o + n <= length b)%nat -> exists v, rd n o b = Ok v.
Proof. intros H. unfold rd. rewrite read_uint_some by done. by eexists. Qed.
Lemma rds_ok n o b : (o + n <= length b)%nat -> exists v, rds n o b = Ok v.
Proof. intros H. unfold rds, read_int. rewrite read_uint_some by done. by eexists. Qed.

(** Discharge a read known to be inside the buffer. *)
Ltac read_in_bounds :=
  match goal with
  | |- context [rbind (rd ?n ?o ?b) _] =>
      let v := fresh "v" in let E := fresh "E" in
      destruct (rd_ok n o b ltac:(cbn; lia)) as [v E]; rewrite E; cbn [rbind]
  | |- context [rbind (rds ?n ?o ?b) _] =>
      let v := fresh "v" in let E := fresh "E" in
      destruct (rds_ok n o b ltac:(cbn; lia)) as [v E]; rewrite E; cbn [rbind]
  end.

Lemma parse_detections_total n o p : (o + 7 * n <= length p)%nat -> exists ds, parse_detections n o p = Ok ds.
Proof.
  revert o; induction n as [|n IH]; intros o H; [by eexists|]. cbn [parse_detections].
  read_in_bounds. destruct (IH (o + 7)%nat) as [ds ->]; [lia|]. by eexists.
Qed.

Lemma parse_params_total names n o p : (o + 4 * n <= length p)%nat -> exists ps, parse_params names n o p = Ok ps.
Proof.
  revert n o; induction names as [|nm names IH]; intros [|n] o H; try by eexists. cbn [parse_params].
  read_in_bounds. destruct (IH n (o + 4)%nat) as [ps ->]; [lia|]. by eexists.
Qed.

Lemma parse_body_no_range type p : parse_body type p <> Err ERR_RANGE.
Proof.
  unfold parse_body. repeat case_match; [| | | |done].
  - unfold parse_report. destruct (Nat.ltb_spec (length p) 14) as [|Hlong]; [done|].
    destruct (_ || _) eqn:E; [done|]. apply orb_false_iff in E as [_ E2]. apply negb_false_iff, Nat.eqb_eq in E2.
    destruct (parse_detections_total (Z.to_nat (byte_at 13 p)) 14 p) as [ds ->]; [lia|]. cbn [rbind].
    repeat read_in_bounds. done.
  - unfold parse_raw. destruct (Nat.eqb_spec (length p) (8 + GRID_SIZE)) as [E|]; [|done].
    unfold GRID_SIZE in E. cbn [negb]. repeat read_in_bounds. done.
  - unfold parse_status. destruct (Nat.ltb_spec (length p) 48) as [|Hlong]; [done|].
    destruct (Nat.eqb_spec (length p) (48 + 4 * Z.to_nat (byte_at 47 p))) as [E|]; [|done]. cbn [negb].
    destruct (parse_params_total PARAM_NAMES (Z.to_nat (byte_at 47 p)) 48 p) as [ds ->]; [lia|]. cbn [rbind].
    repeat read_in_bounds. done.
  - unfold parse_ota_status. by destruct (negb _).
Qed.

Section packets.
Context {C : Crypto} {Laws : CryptoLaws}.

Lemma open_secure_no_range now buf verify : open_secure now buf verify <> Err ERR_RANGE.
Proof. unfold open_secure. destruct (let! h := secureHeader buf in _) as [a|e]; [done|]. case_bool_decide; [done | congruence]. Qed.

Lemma open_legacy_no_range buf verify : open_legacy buf verify <> Err ERR_RANGE.
Proof.
  unfold open_legacy. destruct (Nat.ltb_spec (length buf) (HEADER_SIZE + TAG_SIZE)) as [|Hshort]; [done|].
  unfold HEADER_SIZE, TAG_SIZE in Hshort. repeat (destruct (_ || _); [done|]). destruct (negb _); [done|].
  case_match; [done|]. read_in_bounds. destruct (negb _); [done|]. cbv zeta.
  destruct (_ && _); [done|]. destruct (_ && _); [done|]. by repeat read_in_bounds.
Qed.

(** No datagram, of any length and content, makes [parsePacket] read outside
    it: whatever it rejects, it rejects with one of its own errors, and a
    RangeError raised under the encrypted branch comes out as "invalid
    encrypted packet". *)
Theorem parsePacket_no_range now buf verify : parsePacket now buf verify <> Err ERR_RANGE.
Proof.
  unfold parsePacket. destruct (if bool_decide _ then _ else _) as [[h p]|e] eqn:E; cbn [rbind].
  - destruct (parse_body (h_type h) p) eqn:Ep; cbn [rbind]; [done|].
    intros [= ->]. by apply parse_body_no_range in Ep.
  - intros [= ->]. case_bool_decide; [by apply open_secure_no_range in E | by apply open_legacy_no_range in E].
Qed.

(** What the gateway holds about a sender it accepted. *)
Definition authentic (now : Z) (buf : list Z) (verify : VerifyOptions) (h : Header) (payload : list Z) : Prop :=
  match h_secureId h with
  | None =>
      (forall d, v_devices verify = Some d -> allowsLegacy d (h_uid h) = true) /\
      if h_signed h
      then exists k, k ∈ v_keys verify /\ tag k (take (length buf - TAG_SIZE) buf) = drop (length buf - TAG_SIZE) buf
      else v_allowUnsigned verify = true
  | Some id =>
      h_signed h = true /\
      exists d k key n, v_devices verify = Some d /\ find_key now d (h_uid h) id = Some k /\
        deriveKey (dk_master k) (h_uid h) id "uplink" (sub 26 16 buf) = Ok key /\
        nonce (h_boot h) (h_seq h) = Ok n /\
        gcm_open key n (take SECURE_HEADER buf)
          (sub SECURE_HEADER (length buf - SECURE_TAG - SECURE_HEADER) buf) (drop (length buf - SECURE_TAG) buf)
        = Some payload
  end.

Lemma open_legacy_authentic now buf verify h p :
  open_legacy buf verify = Ok (h, p) -> authentic now buf verify h p.
Proof.
  unfold open_legacy. intros H.
  destruct (Nat.ltb_spec (length buf) (HEADER_SIZE + TAG_SIZE)) as [|Hlen]; [done|].
  destruct (negb (byte_at 0 buf =? 84) || negb (byte_at 1 buf =? 77)); [done|]. destruct (negb (byte_at 2 buf =? VERSION)); [done|].
  cbv zeta in H. destruct (match v_devices verify with Some _ => _ | None => _ end) eqn:Hd; [done|].
  apply rbind_ok in H as (len & _ & H).
  destruct (Nat.eqb_spec (length buf) (HEADER_SIZE + Z.to_nat len + TAG_SIZE)) as [El|]; [|done]. cbn [negb] in H.
  set (n := (HEADER_SIZE + Z.to_nat len)%nat) in *.
  destruct (nonzero (drop n buf) && _) eqn:Es; [done|].
  destruct (negb (nonzero (drop n buf)) && _) eqn:Eu; [done|].
  inv_ok H. injection H as <- <-. unfold authentic. cbn [h_secureId h_signed h_uid].
  replace (length buf - TAG_SIZE)%nat with n by lia. split.
  { intros d E. rewrite E in Hd. by apply negb_false_iff in Hd. }
  destruct (nonzero (drop n buf)); [|by destruct (v_allowUnsigned verify)].
  rewrite andb_true_l in Es. apply negb_false_iff, existsb_exists in Es as (k & Hk & Ht%bool_decide_eq_true).
  exists k. split; [by apply list_elem_of_In | done].
Qed.

Lemma open_secure_authentic now buf verify h p :
  open_secure now buf verify = Ok (h, p) -> authentic now buf verify h p.
Proof.
  unfold open_secure. destruct (let! h := secureHeader buf in _) as [a|e] eqn:E;
    [intros [= ->] | case_bool_decide; discriminate].
  apply rbind_ok in E as (sh & Hsh & E).
  destruct ((v_devices verify) ≫= _) as [k|] eqn:Ek; [|done].
  destruct (negb _); [done|]. apply rbind_ok in E as (key & Hkey & E).
  apply rbind_ok in E as ([sh' p'] & Hdec & E). injection E as <- ->.
  unfold decryptPayload in Hdec. rewrite Hsh in Hdec. cbn [rbind] in Hdec.
  destruct (nonce _ _) as [n|] eqn:Hn; [|done].
  destruct (gcm_open _ _ _ _ _) as [q|] eqn:Hg; [|done]. injection Hdec as -> ->.
  apply bind_Some in Ek as (d & Hd & Hf).
  assert (sh_epoch sh' = sub 26 16 buf) as He.
  { unfold secureHeader in Hsh. inv_ok Hsh. injection Hsh as <-. done. }
  unfold authentic. cbn. split; [done|]. exists d, k, key, n. rewrite <- He. done.
Qed.

(** C1: Whatever [parsePacket] accepts was authenticated. A plaintext packet comes
    from a node the device policy lets speak plaintext, and its trailer is the
    tag of all that precedes it under one of the configured keys, or it is
    unsigned where unsigned packets are allowed; an encrypted one was opened by
    AES-GCM, with its header as associated data, under the uplink key derived
    from a current device key of the very node and key id it names. *)
Theorem parsePacket_authentic now buf verify pkt :
  parsePacket now buf verify = Ok pkt ->
  exists payload, authentic now buf verify (p_header pkt) payload /\
    parse_body (h_type (p_header pkt)) payload = Ok (p_body pkt).
Proof.
  unfold parsePacket. intros H. apply rbind_ok in H as ([h p] & Ho & H).
  apply rbind_ok in H as (b & Hb & H). injection H as <-. exists p. split; [|done]. cbn.
  case_bool_decide; [by apply open_secure_authentic | by apply open_legacy_authentic].
Qed.

(** A report round trip. What [parsePacket] makes of the datagram
    [buildReport] built is the report with its values on the grid of the wire,
    its frame counter modulo 2^32 and at most 24 detections, the truncation
    flag set when there were more; the identity's counter has advanced. *)
Theorem report_roundtrip now verify id u up r :
  i_uid id = uid_text u -> length u = 6%nat -> bytes_ok u -> 0 <= i_boot id < 2 ^ 16 -> report_ok r ->
  exists buf, buildReport id up r = (next_seq id, Ok buf) /\
    (admissible verify (i_key id) (i_uid id) (take (length buf - TAG_SIZE) buf) ->
     parsePacket now buf verify
     = Ok {| p_header := {| h_type := TYPE_REPORT; h_uid := i_uid id; h_boot := i_boot id; h_seq := u32 (i_seq id);
                            h_uptimeMs := u32 up;
                            h_signed := match i_key id with Some _ => true | None => false end;
                            h_secureId := None |};
             p_body := BReport (quantise_report r) |}).
Proof.
  intros Hu Hl Hub Hb Hr. pose proof (buildReport_layout id u up r Hu Hl Hub Hb Hr) as E.
  set (body := hdr_bytes _ _ _ _ _ _ ++ _) in E. cbv zeta in E.
  exists (body ++ trailer (i_key id) body). split.
  { rewrite <- E. unfold buildReport. done. }
  rewrite length_app, length_trailer. replace (length body + 8 - TAG_SIZE)%nat with (length body) by (unfold TAG_SIZE; lia).
  rewrite take_app_length. intros Hadm. unfold parsePacket.
  assert ((body ++ trailer (i_key id) body) !! 2%nat = Some 1) as -> by done.
  rewrite bool_decide_eq_false_2 by done. rewrite Hu in Hadm.
  assert (Z.of_nat (length (report_payload r)) < 2 ^ 16) as Hlen.
  { rewrite length_report_payload. pose proof (take_max_detections r). lia. }
  rewrite (open_legacy_layout verify (i_key id) TYPE_REPORT u (i_boot id) (u32 (i_seq id)) (u32 up) (report_payload r));
    [|unfold byte_ok, TYPE_REPORT; lia|done|done|done|apply u32_range|apply u32_range|done|exact Hadm].
  cbn [rbind h_type]. unfold parse_body. cbn [Z.eqb TYPE_REPORT Pos.eqb].
  rewrite parse_report_layout by done. cbn [rbind]. by rewrite Hu.
Qed.
End packets.

(** The wire loses at most half a step. A report's temperatures come back
    within 0.005 degrees, and each detection whose values the fields can hold
    within 1/16 of a pixel, 1/40 of a degree of contrast, 1/8 of a degree of
    peak contrast and 0.05 of heat. *)
Theorem report_quantisation r d :
  (Qabs (r_ta (quantise_report r) - r_ta r) <= 1 # 200)%Q /\
  (Qabs (r_sceneMin (quantise_report r) - r_sceneMin r) <= 1 # 200)%Q /\
  (Qabs (r_sceneMax (quantise_report r) - r_sceneMax r) <= 1 # 200)%Q /\
  (Qabs (r_bgMean (quantise_report r) - r_bgMean r) <= 1 # 200)%Q /\
  ((0 <= d_x d <= 255 # 8)%Q -> (Qabs (d_x (quantise_det d) - d_x d) <= 1 # 16)%Q) /\
  ((0 <= d_y d <= 255 # 8)%Q -> (Qabs (d_y (quantise_det d) - d_y d) <= 1 # 16)%Q) /\
  ((0 <= d_contrast d <= 255 # 20)%Q -> (Qabs (d_contrast (quantise_det d) - d_contrast d) <= 1 # 40)%Q) /\
  ((0 <= d_peak d <= 255 # 4)%Q -> (Qabs (d_peak (quantise_det d) - d_peak d) <= 1 # 8)%Q) /\
  ((0 <= d_heat d <= 65535 # 10)%Q -> (Qabs (d_heat (quantise_det d) - d_heat d) <= 1 # 20)%Q).
Proof.
  assert (forall q, Qabs ((js_round (q * 100) # 100) - q) <= 1 # 200)%Q as Hc.
  { intros q. apply (grid_error _ 100). change (inject_Z 100) with 100%Q. pose proof (js_round_bounds (q * 100)). lra. }
  split_and!; try apply Hc; intros [H1 H2]; apply quant_error; unfold inject_Z in *; lra.
Qed.

(** ** Thermal frames *)
Lemma fold_Qmin ts t x : x ∈ t :: ts -> (fold_left Qmin2 ts t <= x)%Q.
Proof.
  assert (forall ts t, (fold_left Qmin2 ts t <= t)%Q /\ forall x, x ∈ ts -> (fold_left Qmin2 ts t <= x)%Q) as H.
  { clear. induction ts as [|y ts IH]; intros t; simpl; [split; [lra | by intros x ?%not_elem_of_nil]|].
    destruct (IH (Qmin2 t y)) as [H1 H2].
    assert (Qmin2 t y <= t /\ Qmin2 t y <= y)%Q as [Ht Hy].
    { unfold Qmin2. destruct (Qle_bool t y) eqn:E; [apply Qle_bool_iff in E; lra|].
      assert (~ (t <= y)%Q) by (by rewrite <- Qle_bool_iff, E). lra. }
    split; [lra|]. intros x [->|Hx]%elem_of_cons; [lra | by apply H2]. }
  intros [->|Hx]%elem_of_cons; [apply (proj1 (H ts t)) | by apply (proj2 (H ts t))].
Qed.

Lemma fold_Qmax ts t x : x ∈ t :: ts -> (x <= fold_left Qmax2 ts t)%Q.
Proof.
  assert (forall ts t, (t <= fold_left Qmax2 ts t)%Q /\ forall x, x ∈ ts -> (x <= fold_left Qmax2 ts t)%Q) as H.
  { clear. induction ts as [|y ts IH]; intros t; simpl; [split; [lra | by intros x ?%not_elem_of_nil]|].
    destruct (IH (Qmax2 t y)) as [H1 H2].
    assert (t <= Qmax2 t y /\ y <= Qmax2 t y)%Q as [Ht Hy].
    { unfold Qmax2. destruct (Qle_bool t y) eqn:E; [apply Qle_bool_iff in E; lra|].
      assert (~ (t <= y)%Q) by (by rewrite <- Qle_bool_iff, E). lra. }
    split; [lra|]. intros x [->|Hx]%elem_of_cons; [lra | by apply H2]. }
  intros [->|Hx]%elem_of_cons; [apply (proj1 (H ts t)) | by apply (proj2 (H ts t))].
Qed.

Lemma fold_pick (f : Q -> Q -> Q) ts t : (forall a b, f a b = a \/ f a b = b) -> fold_left f ts t ∈ t :: ts.
Proof.
  intros Hf. revert t; induction ts as [|y ts IH]; intros t; simpl; [by left|].
  specialize (IH (f t y)). apply elem_of_cons in IH as [E|Hin]; [|by do 2 right].
  rewrite E. destruct (Hf t y) as [->| ->]; [by left | right; by left].
Qed.

Lemma clampU8_near v : (0 <= v <= 255)%Q -> (inject_Z (clampU8 v) - (1 # 2) <= v <= inject_Z (clampU8 v) + (1 # 2))%Q.
Proof.
  intros [H1 H2]. unfold clampU8.
  assert (0 <= js_round v <= 255) as Hr by (apply js_round_range; unfold inject_Z; lra).
  rewrite Z.min_r, Z.max_r by lia. pose proof (js_round_bounds v). lra.
Qed.

(** A thermal frame on the wire. With the offset and step [buildRaw] chooses,
    every pixel of a frame spanning at most 1600 degrees decodes to within half a
    step of the temperature it was built from, and the step is at least 0.0001. *)
Theorem raw_frame_error temps lo loC stepQ t :
  raw_scale temps = Some (lo, loC, stepQ) -> t ∈ temps ->
  (forall a b, a ∈ temps -> b ∈ temps -> a - b <= 1600)%Q ->
  1 <= stepQ <= 65535 /\ 0 <= raw_pixel loC stepQ t <= 255 /\
  (Qabs ((loC # 100) + inject_Z (raw_pixel loC stepQ t) * (stepQ # 10000) - t) <= (1 # 2) * (stepQ # 10000))%Q.
Proof.
  destruct temps as [|t0 ts]; [done|]. unfold raw_scale.
  set (hi := fold_left Qmax2 ts t0). set (lo' := fold_left Qmin2 ts t0). set (loC' := js_floor (lo' * 100)).
  remember (Z.min 65535 _) as stepQ' eqn:E. intros Heq. assert (lo' = lo /\ loC' = loC /\ stepQ' = stepQ) as (<- & <- & <-)
    by (injection Heq; auto). clear Heq. rename lo' into lo, loC' into loC, stepQ' into stepQ. intros Ht Hspan.
  assert (1 <= stepQ <= 65535) as Hstep by lia. split; [done|].
  split; [unfold raw_pixel, clampU8; lia|].
  pose proof (fold_Qmin ts t0 t Ht) as Hlo. pose proof (fold_Qmax ts t0 t Ht) as Hhi. fold lo in Hlo. fold hi in Hhi.
  pose proof (js_floor_bounds (lo * 100)) as [Hf1 Hf2]. fold loC in Hf1, Hf2.
  assert ((loC # 100) == inject_Z loC * (1 # 100))%Q as EL by (unfold Qeq; simpl; lia).
  assert ((stepQ # 10000) == inject_Z stepQ * (1 # 10000))%Q as ES by (unfold Qeq; simpl; lia).
  set (s := (stepQ # 10000)%Q) in *. set (l := (loC # 100)%Q) in *.
  assert (0 < s)%Q as Hs by (rewrite ES; assert (inject_Z 1 <= inject_Z stepQ)%Q by (rewrite <- Zle_Qle; lia); unfold inject_Z in *; lra).
  assert (hi - lo <= 1600)%Q as Hsp.
  { apply Hspan; apply fold_pick; intros a b; unfold Qmax2, Qmin2; destruct (Qle_bool a b); auto. }
  set (c := js_ceil ((hi - l) / 255 * 10000)) in *.
  pose proof (js_ceil_bounds ((hi - l) / 255 * 10000)) as [Hc1 Hc2]. fold c in Hc1, Hc2.
  assert (c <= 65535) as Hc.
  { assert (inject_Z c < inject_Z 65536)%Q as H; [|rewrite <- Zlt_Qlt in H; lia].
    change (inject_Z 65536) with 65536%Q.
    assert ((hi - l) / 255 * 10000 == (hi - l) * (10000 # 255))%Q as E1 by field. lra. }
  assert (inject_Z c <= inject_Z stepQ)%Q as Hcs by (rewrite <- Zle_Qle; lia).
  assert (hi - l <= 255 * s)%Q as Hhs.
  { assert ((hi - l) / 255 * 10000 == (hi - l) * (10000 # 255))%Q as E1 by field. lra. }
  unfold raw_pixel. fold l s.
  assert ((t - l) / s * s == t - l)%Q as Hdiv by (field; lra).
  set (v := ((t - l) / s)%Q) in *.
  assert (0 <= v <= 255)%Q as Hv.
  { split; apply (Qmult_le_r _ _ s Hs); rewrite Hdiv; lra. }
  pose proof (clampU8_near v Hv) as [Hn1 Hn2]. set (n := inject_Z (clampU8 v)) in *.
  apply Qabs_Qle_condition. split; nra.
Qed.

(** ** Witnesses *)

Definition demo_key : list Z := replicate 32 7.
Definition demo_uid : list Z := [48; 237; 160; 203; 245; 248].
Definition demo_id : Identity := {| i_uid := uid_text demo_uid; i_boot := 3; i_seq := 41; i_key := Some demo_key |}.
Definition demo_verify : VerifyOptions := {| v_keys := [demo_key]; v_allowUnsigned := false; v_devices := None |}.
Definition demo_det : Detection :=
  {| d_x := 81 # 16; d_y := 12; d_area := 9; d_contrast := 23 # 10; d_peak := 5; d_heat := 41 |}.
Definition demo_report : Report :=
  {| r_frame := 77; r_ta := 2150 # 100; r_sceneMin := 1999 # 100; r_sceneMax := 3111 # 100; r_bgMean := 2222 # 100;
     r_flags := 1; r_detections := [demo_det; demo_det] |}.

Definition demo_packet : Packet :=
  {| p_header := {| h_type := TYPE_REPORT; h_uid := uid_text demo_uid; h_boot := 3; h_seq := 41; h_uptimeMs := 1000;
                    h_signed := true; h_secureId := None |};
     p_body := BReport (quantise_report demo_report) |}.

Lemma report_roundtrip_witness : exists buf,
  @buildReport TestCrypto.crypto demo_id 1000 demo_report = (next_seq demo_id, Ok buf) /\
  @parsePacket TestCrypto.crypto 0 buf demo_verify = Ok demo_packet.
Proof.
  destruct (@report_roundtrip TestCrypto.crypto TestCrypto.laws 0 demo_verify demo_id demo_uid 1000 demo_report)
    as (buf & Hb & Hp).
  - reflexivity.
  - reflexivity.
  - repeat constructor; unfold byte_ok; lia.
  - vm_compute; split; [discriminate | reflexivity].
  - unfold report_ok, temp_ok. vm_compute. repeat split; discriminate.
  - exists buf. split; [exact Hb|]. refine (Hp _).
    assert (Ok (E := string) buf = (@buildReport TestCrypto.crypto demo_id 1000 demo_report).2) as E by (rewrite Hb; reflexivity).
    vm_compute in E. injection E as ->. unfold admissible. split; [exact I|].
    split; [vm_compute; left; reflexivity | vm_compute; reflexivity].
Defined.

Lemma parsePacket_authentic_witness : exists buf payload,
  @parsePacket TestCrypto.crypto 0 buf demo_verify = Ok demo_packet /\
  @authentic TestCrypto.crypto 0 buf demo_verify (p_header demo_packet) payload.
Proof.
  set (r := (@buildReport TestCrypto.crypto demo_id 1000 demo_report).2).
  exists (match r with Ok b => b | Err _ => [] end).
  assert (@parsePacket TestCrypto.crypto 0 (match r with Ok b => b | Err _ => [] end) demo_verify = Ok demo_packet) as H
    by (vm_compute; reflexivity).
  destruct (@parsePacket_authentic TestCrypto.crypto 0 _ demo_verify demo_packet H) as (p & Hp & _).
  exists p. split; [exact H | exact Hp].
Defined.

Lemma report_quantisation_witness : (Qabs (d_x (quantise_det demo_det) - d_x demo_det) <= 1 # 16)%Q.
Proof.
  destruct (report_quantisation demo_report demo_det) as (_ & _ & _ & _ & H & _).
  apply H. split; vm_compute; discriminate.
Defined.

Lemma raw_frame_error_witness : exists lo loC stepQ,
  raw_scale [20%Q; 21%Q; 61 # 2] = Some (lo, loC, stepQ) /\ raw_pixel loC stepQ 21%Q = 24 /\
  1 <= stepQ <= 65535 /\ 0 <= raw_pixel loC stepQ 21%Q <= 255.
Proof.
  destruct (raw_scale [20%Q; 21%Q; 61 # 2]) as [[[lo loC] stepQ]|] eqn:E; [|vm_compute in E; discriminate E].
  exists lo, loC, stepQ. split; [reflexivity|].
  destruct (raw_frame_error [20%Q; 21%Q; 61 # 2] lo loC stepQ 21%Q) as (H1 & H2 & _).
  - exact E.
  - right; left; reflexivity.
  - intros a b Ha Hb. rewrite !elem_of_cons in Ha, Hb.
    destruct Ha as [->|[->|[->|Ha]]]; [..|by apply not_elem_of_nil in Ha];
    (destruct Hb as [->|[->|[->|Hb]]]; [..|by apply not_elem_of_nil in Hb]); vm_compute; discriminate.
  - split; [vm_compute in E; injection E as <- <- <-; vm_compute; reflexivity | split; [exact H1 | exact H2]].
Defined.
