(* ===== verification/Replay.v ===== *)
(** The replay journal (src/edge/replay.ts): the durable (boot, seq) cursors
    that keep an old signed packet old after a restart. The file is its lines,
    as JSON values, and whether its last line is complete; the file system's
    answers to each operation are part of the events, so every failure of a
    write, an fsync, a checkpoint or an open is a behaviour of the model. *)

From S2P Require Import Prelude Json.

(** @edge/replay.ts 4-4 Cursor *)
Record Cursor := { boot : Z; seq : Z }.
(** @edge/replay.ts 5-5 ReplaySnapshot *)
Record ReplaySnapshot := { sn_cursors : list (string * Cursor); sn_commandSeq : Z }.
(** @edge/replay.ts 19-19 u32 *)
Definition is_u32 (v : Z) : bool := (0 <=? v) && (v <=? 4294967295).
(** @edge/replay.ts 20-20 MAX_QUEUED *)
Definition MAX_QUEUED : nat := Z.to_nat 10000.
(** @edge/replay.ts 21-27 Pending *)
Record Pending := { pd_uid : string; pd_cursor : Cursor; pd_commandSeq : option Z }.

(** The file: one JSON value a line ([None] for a line that is not JSON), and
    whether the text ends in a newline. *)
Record Journal := { j_lines : list (option json); j_complete : bool }.

(** A record of a type [u32] accepts. *)
Definition json_u32 (v : json) : option Z :=
  match as_integer v with Some n => if is_u32 n then Some n else None | None => None end.

(** One line of the journal.
    @edge/replay.ts 36-50 readReplaySnapshot *)
Definition read_line (s : ReplaySnapshot) (line : option json) : result string ReplaySnapshot :=
  match line with
  | None => Err "SyntaxError"
  | Some (JArr record) =>
      match record with
      | [JStr tag; v] =>
          match json_u32 v with
          | Some n =>
              if bool_decide (tag = "cmd")
              then Ok {| sn_cursors := sn_cursors s; sn_commandSeq := Z.max (sn_commandSeq s) n |}
              else Err "invalid replay journal record"
          | None =>
              match v with
              | JNull =>
                  if is_uid tag
                  then Ok {| sn_cursors := om_del tag (sn_cursors s); sn_commandSeq := sn_commandSeq s |}
                  else Err "invalid replay journal record"
              | _ => Err "invalid replay journal record"
              end
          end
      | [JStr uid; b; q] =>
          match json_u32 b, json_u32 q with
          | Some b, Some q =>
              if is_uid uid
              then Ok {| sn_cursors := om_set uid {| boot := b; seq := q |} (sn_cursors s);
                         sn_commandSeq := sn_commandSeq s |}
              else Err "invalid replay journal record"
          | _, _ => Err "invalid replay journal record"
          end
      | _ => Err "invalid replay journal record"
      end
  | Some _ => Err "invalid replay journal"
  end.

Fixpoint read_lines (s : ReplaySnapshot) (lines : list (option json)) : result string ReplaySnapshot :=
  match lines with
  | [] => Ok s
  | l :: rest => let! s' := read_line s l in read_lines s' rest
  end.

Definition empty_snapshot : ReplaySnapshot := {| sn_cursors := []; sn_commandSeq := 0 |}.

(** [size] is the file's length in bytes.
    @edge/replay.ts 30-52 readReplaySnapshot *)
Definition readReplaySnapshot (size : Z) (j : Journal) : result string ReplaySnapshot :=
  throw_if 8 * 1024 * 1024 <? size with "replay journal exceeds its limit" in
  throw_if negb (j_complete j) with "incomplete replay journal; restore it before starting" in
  let! s := read_lines empty_snapshot (j_lines j) in
  throw_if Nat.ltb 5000 (length (sn_cursors s)) with "replay journal node limit exceeded" in
  Ok s.

(** ** The store *)

(** @edge/replay.ts 54-64 ReplayStore *)
Record ReplayStore := {
  cursors : list (string * Cursor); commandSeq : Z; records : Z; pending : list Pending;
  flushing : option (list Pending);  (** the batch whose fsync is outstanding *)
  timer : bool; failed : option string; queued : nat; disk : Journal }.

(** What the file system does with a checkpoint: the failure may come before
    the rename or after it. *)
Inductive CheckpointIO := CkOk | CkFailBefore | CkFailAfter.
(** What it does with an append: written and synced; the open refused; or a
    failure that left [n] whole lines, and part of the next one if [torn]. *)
Inductive WriteIO := WOk | WNoOpen | WFail (n : nat) (torn : bool).

Definition cursor_line (uid : string) (c : Cursor) : option json :=
  Some (JArr [JStr uid; JInt (boot c); JInt (seq c)]).
Definition command_line (n : Z) : option json := Some (JArr [JStr "cmd"; JInt n]).
Definition reset_line (uid : string) : option json := Some (JArr [JStr uid; JNull]).

(** Append [lines] to the file.
    @edge/replay.ts 186-194 write *)
Definition write (io : WriteIO) (lines : list (option json)) (j : Journal) : Journal :=
  match io with
  | WOk => {| j_lines := j_lines j ++ lines; j_complete := j_complete j |}
  | WNoOpen => j
  | WFail n torn =>
      {| j_lines := j_lines j ++ take n lines; j_complete := j_complete j && negb (torn && Nat.ltb n (length lines)) |}
  end.

Definition set_disk (st : ReplayStore) (d : Journal) (r : Z) : ReplayStore :=
  {| cursors := cursors st; commandSeq := commandSeq st; records := r; pending := pending st;
     flushing := flushing st; timer := timer st; failed := failed st; queued := queued st; disk := d |}.
Definition set_failed (st : ReplayStore) (e : string) : ReplayStore :=
  {| cursors := cursors st; commandSeq := commandSeq st; records := records st; pending := pending st;
     flushing := flushing st; timer := timer st; failed := Some e; queued := queued st; disk := disk st |}.
Definition set_memory (st : ReplayStore) (c : list (string * Cursor)) (n : Z) : ReplayStore :=
  {| cursors := c; commandSeq := n; records := records st; pending := pending st;
     flushing := flushing st; timer := timer st; failed := failed st; queued := queued st; disk := disk st |}.

(** @edge/replay.ts 196-208 checkpoint *)
Definition checkpoint (io : CheckpointIO) (st : ReplayStore) : ReplayStore * result string unit :=
  let fresh := {| j_lines := command_line (commandSeq st) :: map (fun p => cursor_line p.1 p.2) (cursors st);
                  j_complete := true |} in
  match io with
  | CkFailBefore => (st, Err "EIO")
  | CkFailAfter => (set_disk st fresh (records st), Err "EIO")
  | CkOk => (set_disk st fresh 0, Ok tt)
  end.

(** @edge/replay.ts 124-124 checkHealth *)
Definition checkHealth (st : ReplayStore) : result string unit :=
  match failed st with Some e => Err e | None => Ok tt end.

(** @edge/replay.ts 175-184 append *)
Definition append (ck : CheckpointIO) (io : WriteIO) (st : ReplayStore) (line : option json) :
    ReplayStore * result string unit :=
  match checkHealth st with
  | Err e => (st, Err e)
  | Ok _ =>
      let '(st, r) :=
        if match flushing st with None => 10000 <=? records st | Some _ => false end
        then checkpoint ck st else (st, Ok tt) in
      match r with
      | Err e => (st, Err e)
      | Ok _ =>
          let d := write io [line] (disk st) in
          match io with
          | WNoOpen => (st, Err "EIO")
          | WFail _ _ => (set_failed (set_disk st d (records st)) "EIO", Err "EIO")
          | WOk => (set_disk st d (records st + 1), Ok tt)
          end
      end
  end.

(** @edge/replay.ts 118-122 validate *)
Definition validate (uid : string) (c : Cursor) : result string unit :=
  throw_if negb (is_uid uid) || (boot c <? 0) || (4294967295 <? boot c) || negb (is_u32 (seq c))
    with "invalid replay cursor" in Ok tt.

(** @edge/replay.ts 78-83 accept *)
Definition accept (ck : CheckpointIO) (io : WriteIO) (st : ReplayStore) (uid : string) (c : Cursor) :
    ReplayStore * result string unit :=
  if negb (Nat.eqb (queued st) 0) then (st, Err "durable packet writes are pending")
  else match validate uid c with
       | Err e => (st, Err e)
       | Ok _ =>
           match append ck io st (cursor_line uid c) with
           | (st, Err e) => (st, Err e)
           | (st, Ok _) => (set_memory st (om_set uid c (cursors st)) (commandSeq st), Ok tt)
           end
       end.

(** @edge/replay.ts 99-107 command *)
Definition command (ck : CheckpointIO) (io : WriteIO) (st : ReplayStore) (n : Z) : ReplayStore * result string unit :=
  if negb (is_u32 n) then (st, Err "invalid command cursor")
  else match checkHealth st with
       | Err e => (st, Err e)
       | Ok _ =>
           if n <=? commandSeq st then (st, Ok tt)
           else match append ck io st (command_line n) with
                | (st, Err e) => (st, Err e)
                | (st, Ok _) => (set_memory st (cursors st) n, Ok tt)
                end
       end.

(** @edge/replay.ts 109-116 reset *)
Definition reset (ck : CheckpointIO) (io : WriteIO) (st : ReplayStore) (uid : string) : ReplayStore * result string bool :=
  if negb (is_uid uid) then (st, Err "invalid node uid")
  else if negb (Nat.eqb (queued st) 0) then (st, Err "durable packet writes are pending; retry cursor reset")
  else let existed := om_has uid (cursors st) in
       match append ck io st (reset_line uid) with
       | (st, Err e) => (st, Err e)
       | (st, Ok _) => (set_memory st (om_del uid (cursors st)) (commandSeq st), Ok existed)
       end.

(** @edge/replay.ts 126-132 schedule *)
Definition schedule (st : ReplayStore) : ReplayStore :=
  if match flushing st with Some _ => true | None => false end || timer st || Nat.eqb (length (pending st)) 0 then st
  else {| cursors := cursors st; commandSeq := commandSeq st; records := records st; pending := pending st;
          flushing := flushing st; timer := true; failed := failed st; queued := queued st; disk := disk st |}.

(** The promise is still open when this returns [Ok].
    @edge/replay.ts 86-97 acceptAsync *)
Definition acceptAsync (st : ReplayStore) (uid : string) (c : Cursor) (cmd : option Z) : ReplayStore * result string unit :=
  match
    let! _ := checkHealth st in
    let! _ := validate uid c in
    throw_if match cmd with Some n => negb (is_u32 n) | None => false end with "invalid command cursor" in
    throw_if Nat.leb MAX_QUEUED (queued st) with "replay journal queue full" in Ok tt
  with
  | Err e => (st, Err e)
  | Ok _ =>
      (schedule {| cursors := cursors st; commandSeq := commandSeq st; records := records st;
                   pending := pending st ++ [{| pd_uid := uid; pd_cursor := c; pd_commandSeq := cmd |}];
                   flushing := flushing st; timer := timer st; failed := failed st;
                   queued := S (queued st); disk := disk st |}, Ok tt)
  end.

(** The lines of a batch.
    @edge/replay.ts 146-150 flush *)
Definition batch_lines (batch : list Pending) : list (option json) :=
  batch ≫= (fun p => cursor_line (pd_uid p) (pd_cursor p)
                     :: match pd_commandSeq p with Some n => [command_line n] | None => [] end).

(** The failure branch and the [finally] of [flush]: every request of the batch
    and every one queued behind it is rejected.
    @edge/replay.ts 161-173 flush *)
Definition flush_failed (st : ReplayStore) (batch : list Pending) (e : string) : ReplayStore * list (Pending * bool) :=
  ({| cursors := cursors st; commandSeq := commandSeq st; records := records st; pending := [];
      flushing := None; timer := timer st; failed := Some e;
      queued := (queued st - length (pending st) - length batch)%nat; disk := disk st |},
   map (fun p => (p, false)) (batch ++ pending st)).

(** The timer fires: up to the [await] of the fsync.
    @edge/replay.ts 134-152 flush *)
Definition flush_start (ck : CheckpointIO) (io : WriteIO) (st : ReplayStore) : ReplayStore * list (Pending * bool) :=
  let st := {| cursors := cursors st; commandSeq := commandSeq st; records := records st; pending := pending st;
               flushing := flushing st; timer := false; failed := failed st; queued := queued st; disk := disk st |} in
  if match flushing st with Some _ => true | None => false end || Nat.eqb (length (pending st)) 0 then (st, [])
  else
    let batch := pending st in
    let st := {| cursors := cursors st; commandSeq := commandSeq st; records := records st; pending := [];
                 flushing := Some batch; timer := timer st; failed := failed st; queued := queued st; disk := disk st |} in
    match checkHealth st with
    | Err e => flush_failed st batch e
    | Ok _ =>
        let '(st, r) := if 10000 <=? records st then checkpoint ck st else (st, Ok tt) in
        match r with
        | Err e => flush_failed st batch e
        | Ok _ =>
            let st' := set_disk st (write io (batch_lines batch) (disk st)) (records st) in
            match io with
            | WOk => (st', [])
            | _ => flush_failed st' batch "EIO"
            end
        end
    end.

(** A batch reaches memory.
    @edge/replay.ts 156-159 flush *)
Definition commit_batch (mem : ReplaySnapshot) (batch : list Pending) : ReplaySnapshot :=
  fold_left (fun m p =>
    {| sn_cursors := om_set (pd_uid p) (pd_cursor p) (sn_cursors m);
       sn_commandSeq := match pd_commandSeq p with
                        | Some n => Z.max (sn_commandSeq m) n
                        | None => sn_commandSeq m
                        end |}) batch mem.

(** The fsync of the outstanding batch returns.
    @edge/replay.ts 152-174 flush *)
Definition flush_end (ok : bool) (st : ReplayStore) : ReplayStore * list (Pending * bool) :=
  match flushing st with
  | None => (st, [])
  | Some batch =>
      if negb ok then flush_failed st batch "EIO"
      else match checkHealth st with
           | Err e => flush_failed st batch e
           | Ok _ =>
               let mem := commit_batch {| sn_cursors := cursors st; sn_commandSeq := commandSeq st |} batch in
               (schedule {| cursors := sn_cursors mem; commandSeq := sn_commandSeq mem;
                            records := records st + Z.of_nat (length (batch_lines batch));
                            pending := pending st; flushing := None; timer := timer st; failed := failed st;
                            queued := (queued st - length batch)%nat; disk := disk st |},
                map (fun p => (p, true)) batch)
           end
  end.

(** Opening the store on what is on disk: the file as found, its size, and the
    answers to the two checkpoints.
    @edge/replay.ts 66-74 constructor *)
Definition open_store (found : option Journal) (size : Z) (ck1 ck2 : CheckpointIO) : result string ReplayStore :=
  let blank := {| cursors := []; commandSeq := 0; records := 0; pending := []; flushing := None; timer := false;
                  failed := None; queued := 0%nat; disk := default {| j_lines := []; j_complete := true |} found |} in
  let! st := match found with
             | Some _ => Ok blank
             | None => let (st, r) := checkpoint ck1 blank in let! _ := r in Ok st
             end in
  let! s := readReplaySnapshot size (disk st) in
  let (st, r) := checkpoint ck2 (set_memory st (sn_cursors s) (sn_commandSeq s)) in
  let! _ := r in Ok st.

(** Everything that can happen to a running store, with the file system's answers. *)
Inductive Event :=
| EAccept (uid : string) (c : Cursor) (ck : CheckpointIO) (io : WriteIO)
| EAcceptAsync (uid : string) (c : Cursor) (cmd : option Z)
| ECommand (n : Z) (ck : CheckpointIO) (io : WriteIO)
| EReset (uid : string) (ck : CheckpointIO) (io : WriteIO)
| EFlush (ck : CheckpointIO) (io : WriteIO)
| ESynced (ok : bool).

Definition step (st : ReplayStore) (e : Event) : ReplayStore :=
  match e with
  | EAccept uid c ck io => (accept ck io st uid c).1
  | EAcceptAsync uid c cmd => (acceptAsync st uid c cmd).1
  | ECommand n ck io => (command ck io st n).1
  | EReset uid ck io => (reset ck io st uid).1
  | EFlush ck io => (flush_start ck io st).1
  | ESynced ok => (flush_end ok st).1
  end.

(** ** What a line does *)

Definition cursor_ok (uid : string) (c : Cursor) : Prop :=
  is_uid uid = true /\ is_u32 (boot c) = true /\ is_u32 (seq c) = true.
Definition pending_ok (p : Pending) : Prop :=
  cursor_ok (pd_uid p) (pd_cursor p) /\ match pd_commandSeq p with Some n => is_u32 n = true | None => True end.

Definition memory (st : ReplayStore) : ReplaySnapshot :=
  {| sn_cursors := cursors st; sn_commandSeq := commandSeq st |}.
Definition in_flight (st : ReplayStore) : list Pending := default [] (flushing st).

Lemma validate_ok uid c : validate uid c = Ok tt <-> cursor_ok uid c.
Proof.
  unfold validate, cursor_ok, is_u32.
  destruct (is_uid uid), (Z.ltb_spec (boot c) 0), (Z.ltb_spec 4294967295 (boot c)),
    (Z.leb_spec 0 (boot c)), (Z.leb_spec (boot c) 4294967295), ((0 <=? seq c) && (seq c <=? 4294967295));
    simpl; split; intuition (try discriminate; try lia).
Qed.

Lemma json_u32_JInt n : is_u32 n = true -> json_u32 (JInt n) = Some n.
Proof. intros H. unfold json_u32. by rewrite as_integer_JInt, H. Qed.

Lemma read_cursor_line s uid c : cursor_ok uid c ->
  read_line s (cursor_line uid c) = Ok {| sn_cursors := om_set uid c (sn_cursors s); sn_commandSeq := sn_commandSeq s |}.
Proof.
  intros (Hu & Hb & Hs). unfold read_line, cursor_line.
  rewrite !json_u32_JInt, Hu by done. by destruct c.
Qed.

Lemma read_command_line s n : is_u32 n = true ->
  read_line s (command_line n) = Ok {| sn_cursors := sn_cursors s; sn_commandSeq := Z.max (sn_commandSeq s) n |}.
Proof. intros H. unfold read_line, command_line. by rewrite json_u32_JInt. Qed.

Lemma read_reset_line s uid : is_uid uid = true ->
  read_line s (reset_line uid) = Ok {| sn_cursors := om_del uid (sn_cursors s); sn_commandSeq := sn_commandSeq s |}.
Proof. intros H. unfold read_line, reset_line. cbn [json_u32 as_integer]. by rewrite H. Qed.

Lemma read_lines_app s l1 l2 :
  read_lines s (l1 ++ l2) = let! s' := read_lines s l1 in read_lines s' l2.
Proof.
  revert s; induction l1 as [|l l1 IH]; intros s; [done|]. cbn [app read_lines].
  destruct (read_line s l); cbn [rbind]; [apply IH | done].
Qed.

Lemma read_batch s batch : Forall pending_ok batch ->
  read_lines s (batch_lines batch) = Ok (commit_batch s batch).
Proof.
  intros H. revert s. induction H as [|p batch [Hp Hn] _ IH]; intros s; [done|].
  unfold batch_lines in *. cbn [mbind list_bind].
  rewrite read_lines_app. cbn [read_lines app]. rewrite read_cursor_line by done. cbn [rbind].
  destruct (pd_commandSeq p) as [n|] eqn:E.
  - cbn [read_lines]. rewrite read_command_line by done. cbn [rbind]. rewrite IH. unfold commit_batch. cbn [fold_left].
    by rewrite E.
  - cbn [read_lines rbind]. rewrite IH. unfold commit_batch. cbn [fold_left]. by rewrite E.
Qed.

(** A command record commutes with a batch: both only raise the command counter. *)
Lemma commit_batch_command c m n batch :
  commit_batch {| sn_cursors := c; sn_commandSeq := Z.max m n |} batch
  = let r := commit_batch {| sn_cursors := c; sn_commandSeq := m |} batch in
    {| sn_cursors := sn_cursors r; sn_commandSeq := Z.max (sn_commandSeq r) n |}.
Proof.
  revert c m; induction batch as [|p batch IH]; intros c m; [done|]. cbn [commit_batch fold_left].
  cbv zeta. cbn [sn_cursors sn_commandSeq].
  destruct (pd_commandSeq p) as [k|]; [|apply IH].
  replace (Z.max (Z.max m n) k) with (Z.max (Z.max m k) n) by lia. apply IH.
Qed.

Lemma om_set_snoc {V} (k : string) (v : V) m : k ∉ om_keys m -> om_set k v m = m ++ [(k, v)].
Proof.
  induction m as [|[k' v'] m IH]; simpl; [done|].
  rewrite not_elem_of_cons. intros [Hk Hm]. rewrite bool_decide_eq_false_2 by done. by rewrite IH.
Qed.

Lemma read_cursor_lines cs acc n :
  Forall (fun p => cursor_ok p.1 p.2) cs -> NoDup (om_keys (acc ++ cs)) ->
  read_lines {| sn_cursors := acc; sn_commandSeq := n |} (map (fun p => cursor_line p.1 p.2) cs)
  = Ok {| sn_cursors := acc ++ cs; sn_commandSeq := n |}.
Proof.
  revert acc; induction cs as [|[uid c] cs IH]; intros acc Hok Hnd; [by rewrite app_nil_r|].
  apply Forall_cons in Hok as [H1 H2]. cbn [map read_lines]. rewrite read_cursor_line by done.
  cbn [rbind sn_cursors sn_commandSeq fst snd].
  rewrite om_set_snoc.
  - rewrite IH; rewrite <- ?app_assoc; done.
  - unfold om_keys in *. rewrite map_app in Hnd. apply NoDup_app in Hnd as (_ & Hd & _).
    intros Hin. apply (Hd uid Hin). by left.
Qed.

(** The invariant of a healthy store. *)
Record healthy (st : ReplayStore) : Prop := {
  hl_complete : j_complete (disk st) = true;
  hl_disk : read_lines empty_snapshot (j_lines (disk st)) = Ok (commit_batch (memory st) (in_flight st));
  hl_nodup : NoDup (om_keys (cursors st));
  hl_cursors : Forall (fun p => cursor_ok p.1 p.2) (cursors st);
  hl_command : is_u32 (commandSeq st) = true;
  hl_pending : Forall pending_ok (pending st);
  hl_flight : Forall pending_ok (in_flight st);
  hl_queued : queued st = (length (pending st) + length (in_flight st))%nat;
}.

Definition inv (st : ReplayStore) : Prop := failed st = None -> healthy st.

Lemma checkpoint_lines st : NoDup (om_keys (cursors st)) -> Forall (fun p => cursor_ok p.1 p.2) (cursors st) ->
  is_u32 (commandSeq st) = true ->
  read_lines empty_snapshot (command_line (commandSeq st) :: map (fun p => cursor_line p.1 p.2) (cursors st))
  = Ok (memory st).
Proof.
  intros Hn Hc Hs. cbn [read_lines]. rewrite read_command_line by done. cbn [rbind].
  rewrite read_cursor_lines by done. unfold memory, empty_snapshot; cbn. do 2 f_equal.
  unfold is_u32 in Hs. bprop. lia.
Qed.

Lemma checkpoint_healthy ck st st' r : healthy st -> in_flight st = [] -> checkpoint ck st = (st', r) ->
  healthy st' /\ memory st' = memory st /\ pending st' = pending st /\ flushing st' = flushing st /\
  failed st' = failed st /\ queued st' = queued st.
Proof.
  intros Hh Hf. destruct Hh as [H1 H2 H3 H4 H5 H6 H7 H8].
  assert (forall r', healthy (set_disk st
    {| j_lines := command_line (commandSeq st) :: map (fun p => cursor_line p.1 p.2) (cursors st); j_complete := true |} r')).
  { intros r'. constructor; try done. cbn [disk set_disk j_lines].
    rewrite checkpoint_lines by done. unfold in_flight, memory in *. cbn. rewrite Hf. done. }
  destruct ck; intros [= <- <-]; split_and!; done.
Qed.

Lemma append_spec ck io st line st' r :
  healthy st -> append ck io st line = (st', r) ->
  memory st' = memory st /\ pending st' = pending st /\ flushing st' = flushing st /\ queued st' = queued st /\
  match r with
  | Ok _ => failed st' = None /\ j_complete (disk st') = true /\
            exists l0, j_lines (disk st') = l0 ++ [line] /\
              read_lines empty_snapshot l0 = Ok (commit_batch (memory st) (in_flight st))
  | Err _ => failed st' = None -> healthy st'
  end.
Proof.
  intros Hh. unfold append, checkHealth. destruct (failed st) eqn:Hf; [by intros [= <- <-]|].
  destruct (if (match flushing st with None => _ | Some _ => false end) then _ else _) as [st1 r1] eqn:E.
  assert (healthy st1 /\ memory st1 = memory st /\ pending st1 = pending st /\ flushing st1 = flushing st /\
          failed st1 = None /\ queued st1 = queued st) as (Hh1 & Hm & Hp & Hfl & Hfa & Hq).
  { destruct (flushing st) as [b|] eqn:Hfl; [by injection E as <- <-|].
    destruct (10000 <=? records st); [|by injection E as <- <-].
    rewrite <- Hf. rewrite <- Hfl. eapply checkpoint_healthy; [done| |done]. unfold in_flight. by rewrite Hfl. }
  destruct r1 as [[]|e]; [|intros [= <- <-]; split_and!; try done].
  destruct io as [| |n torn]; intros [= <- <-]; split_and!; try done; try (cbn; congruence).
  - cbn. destruct Hh1 as [-> _ _ _ _ _ _ _]. done.
  - exists (j_lines (disk st1)). split; [done|]. destruct Hh1 as [_ -> _ _ _ _ _ _]. unfold in_flight. by rewrite Hm, Hfl.
Qed.

Lemma accept_inv ck io st uid c : inv st -> inv (accept ck io st uid c).1.
Proof.
  intros Hi. unfold accept. destruct (Nat.eqb_spec (queued st) 0) as [Hq|]; [|done]. cbn [negb].
  destruct (validate uid c) as [[]|e] eqn:Hv; [|done]. apply validate_ok in Hv.
  destruct (append ck io st (cursor_line uid c)) as [st' r] eqn:E.
  destruct (failed st) as [e|] eqn:Hf.
  { unfold append, checkHealth in E. rewrite Hf in E. injection E as <- <-. cbn. done. }
  specialize (Hi Hf). pose proof (append_spec _ _ _ _ _ _ Hi E) as (Hm & Hp & Hfl & Hqq & Hr).
  destruct r as [[]|e]; [|exact Hr]. destruct Hr as (Hfa & Hc & l0 & Hl & Hread). intros _. cbn [fst].
  destruct Hi as [_ _ H3 H4 H5 H6 H7 H8]. injection Hm as Hcu Hcs.
  assert (in_flight st = []) as Hif by (destruct (in_flight st); simpl in *; [done | lia]).
  assert (in_flight st' = []) as Hif' by (unfold in_flight in *; by rewrite Hfl).
  rewrite Hif in Hread.
  constructor; cbn [disk set_memory cursors commandSeq pending queued flushing].
  - done.
  - rewrite Hl, read_lines_app, Hread. cbn [rbind read_lines]. rewrite read_cursor_line by done. cbn [rbind].
    unfold in_flight in *. cbn [flushing set_memory]. rewrite Hif'. unfold memory; cbn. by rewrite Hcu, Hcs.
  - rewrite Hcu. by apply om_set_nodup.
  - rewrite Forall_forall in *. intros p Hin. apply om_set_elem in Hin as [->|Hin]; [done|]. apply H4. by rewrite <- Hcu.
  - by rewrite Hcs.
  - by rewrite Hp.
  - unfold in_flight in *. cbn. by rewrite Hif'.
  - unfold in_flight in *. cbn. rewrite Hif', Hp, Hqq, H8. by rewrite Hif.
Qed.

Lemma reset_inv ck io st uid : inv st -> inv (reset ck io st uid).1.
Proof.
  intros Hi. unfold reset. destruct (is_uid uid) eqn:Hu; [|done]. cbn [negb].
  destruct (Nat.eqb_spec (queued st) 0) as [Hq|]; [|done]. cbn [negb].
  destruct (append ck io st (reset_line uid)) as [st' r] eqn:E.
  destruct (failed st) as [e|] eqn:Hf.
  { unfold append, checkHealth in E. rewrite Hf in E. injection E as <- <-. cbn. done. }
  specialize (Hi Hf). pose proof (append_spec _ _ _ _ _ _ Hi E) as (Hm & Hp & Hfl & Hqq & Hr).
  destruct r as [[]|e]; [|exact Hr]. destruct Hr as (Hfa & Hc & l0 & Hl & Hread). intros _. cbn [fst].
  destruct Hi as [_ _ H3 H4 H5 H6 H7 H8]. injection Hm as Hcu Hcs.
  assert (in_flight st = []) as Hif by (destruct (in_flight st); simpl in *; [done | lia]).
  assert (in_flight st' = []) as Hif' by (unfold in_flight in *; by rewrite Hfl).
  rewrite Hif in Hread.
  constructor; cbn [disk set_memory cursors commandSeq pending queued flushing].
  - done.
  - rewrite Hl, read_lines_app, Hread. cbn [rbind read_lines]. rewrite read_reset_line by done. cbn [rbind].
    unfold in_flight in *. cbn [flushing set_memory]. rewrite Hif'. unfold memory; cbn. by rewrite Hcu, Hcs.
  - rewrite Hcu. by apply om_del_nodup.
  - rewrite Forall_forall in *. intros p Hin. unfold om_del in Hin.
    apply list_elem_of_In, filter_In, proj1, list_elem_of_In in Hin. apply H4. by rewrite <- Hcu.
  - by rewrite Hcs.
  - by rewrite Hp.
  - unfold in_flight in *. cbn. by rewrite Hif'.
  - unfold in_flight in *. cbn. rewrite Hif', Hp, Hqq, H8. by rewrite Hif.
Qed.

Lemma command_inv ck io st n : inv st -> inv (command ck io st n).1.
Proof.
  intros Hi. unfold command. destruct (is_u32 n) eqn:Hn; [|done]. cbn [negb].
  unfold checkHealth. destruct (failed st) as [e|] eqn:Hf; [done|].
  destruct (Z.leb_spec n (commandSeq st)) as [|Hlt]; [done|].
  destruct (append ck io st (command_line n)) as [st' r] eqn:E.
  specialize (Hi Hf). pose proof (append_spec _ _ _ _ _ _ Hi E) as (Hm & Hp & Hfl & Hqq & Hr).
  destruct r as [[]|e]; [|exact Hr]. destruct Hr as (Hfa & Hc & l0 & Hl & Hread). intros _. cbn [fst].
  destruct Hi as [_ _ H3 H4 H5 H6 H7 H8]. injection Hm as Hcu Hcs.
  assert (in_flight st' = in_flight st) as Hif' by (unfold in_flight in *; by rewrite Hfl).
  constructor; cbn [disk set_memory cursors commandSeq pending queued flushing].
  - done.
  - rewrite Hl, read_lines_app, Hread. cbn [rbind read_lines]. rewrite read_command_line by done. cbn [rbind].
    change (in_flight (set_memory st' (cursors st') n)) with (in_flight st'). rewrite Hif'.
    unfold memory. cbn [cursors commandSeq set_memory]. rewrite Hcu.
    replace n with (Z.max (commandSeq st) n) at 2 by lia. by rewrite commit_batch_command.
  - by rewrite Hcu.
  - by rewrite Hcu.
  - done.
  - by rewrite Hp.
  - change (Forall pending_ok (in_flight st')). by rewrite Hif'.
  - change (queued st' = (length (pending st') + length (in_flight st'))%nat). by rewrite Hif', Hp, Hqq.
Qed.

Lemma schedule_healthy st : healthy st -> healthy (schedule st).
Proof. intros [H1 H2 H3 H4 H5 H6 H7 H8]. unfold schedule. by destruct (_ || _). Qed.

Lemma schedule_failed st : failed (schedule st) = failed st.
Proof. unfold schedule. by destruct (_ || _). Qed.

Lemma acceptAsync_inv st uid c cmd : inv st -> inv (acceptAsync st uid c cmd).1.
Proof.
  intros Hi. unfold acceptAsync, checkHealth. destruct (failed st) as [e|] eqn:Hf; [done|]. cbn [rbind].
  destruct (validate uid c) as [[]|e] eqn:Hv; [|done]. apply validate_ok in Hv. cbn [rbind].
  destruct (match cmd with Some n => negb (is_u32 n) | None => false end) eqn:Hc; [done|].
  destruct (Nat.leb MAX_QUEUED (queued st)); [done|]. cbn [fst]. intros _. apply schedule_healthy.
  destruct (Hi Hf) as [H1 H2 H3 H4 H5 H6 H7 H8]. constructor; try done.
  - cbn. apply Forall_app. split; [done|]. constructor; [|constructor]. split; [done|]. cbn.
    destruct cmd as [n|]; [|done]. by apply negb_false_iff in Hc.
  - cbn. rewrite H8, length_app. unfold in_flight. cbn. lia.
Qed.

Lemma commit_batch_ok mem batch :
  Forall pending_ok batch -> NoDup (om_keys (sn_cursors mem)) ->
  Forall (fun p => cursor_ok p.1 p.2) (sn_cursors mem) -> is_u32 (sn_commandSeq mem) = true ->
  let r := commit_batch mem batch in
  NoDup (om_keys (sn_cursors r)) /\ Forall (fun p => cursor_ok p.1 p.2) (sn_cursors r) /\ is_u32 (sn_commandSeq r) = true.
Proof.
  intros Hb. revert mem; induction Hb as [|p batch [Hp Hn] _ IH]; intros mem H1 H2 H3; [done|].
  cbn [commit_batch fold_left]. apply IH; cbn [sn_cursors sn_commandSeq].
  - by apply om_set_nodup.
  - rewrite Forall_forall in *. intros q Hq. apply om_set_elem in Hq as [->|Hq]; auto.
  - destruct (pd_commandSeq p) as [n|]; [|done]. unfold is_u32 in *. bprop. lia.
Qed.

Lemma flush_failed_inv st batch e : inv (flush_failed st batch e).1.
Proof. intros Hf. done. Qed.

Lemma flush_start_inv ck io st : inv st -> inv (flush_start ck io st).1.
Proof.
  intros Hi. unfold flush_start. cbn [flushing pending].
  destruct (flushing st) as [b|] eqn:Hfl; cbn [orb].
  { intros Hf. cbn in Hf. destruct (Hi Hf) as [H1 H2 H3 H4 H5 H6 H7 H8].
    constructor; try done; unfold in_flight, memory in *; rewrite Hfl in *; done. }
  destruct (Nat.eqb_spec (length (pending st)) 0) as [Hl|Hl].
  { intros Hf. cbn in Hf. destruct (Hi Hf) as [H1 H2 H3 H4 H5 H6 H7 H8].
    constructor; try done; unfold in_flight, memory in *; rewrite Hfl in *; done. }
  unfold checkHealth. cbn [failed]. destruct (failed st) as [e|] eqn:Hf; [apply flush_failed_inv|].
  set (st0 := {| flushing := Some (pending st) |}).
  destruct (Hi Hf) as [H1 H2 H3 H4 H5 H6 H7 H8].
  unfold in_flight in *. rewrite Hfl in *. cbn [default] in *.
  destruct (if 10000 <=? records st0 then checkpoint ck st0 else (st0, Ok tt)) as [st1 r] eqn:E.
  assert (memory st1 = memory st /\ flushing st1 = Some (pending st) /\ pending st1 = [] /\ queued st1 = queued st /\
    j_complete (disk st1) = true /\ read_lines empty_snapshot (j_lines (disk st1)) = Ok (memory st))
    as (Hm & Hfl1 & Hp1 & Hq1 & Hc1 & Hd1).
  { destruct (10000 <=? records st0); [|injection E as <- <-; split_and!; done].
    pose proof (checkpoint_lines st H3 H4 H5) as Hck.
    destruct ck; injection E as <- <-; split_and!; done. }
  destruct r as [[]|e]; [|apply flush_failed_inv].
  destruct io; [|apply flush_failed_inv..]. intros _. cbn [fst].
  injection Hm as Hcu Hcs.
  constructor; unfold in_flight, memory; cbn [disk set_disk write j_complete j_lines cursors commandSeq pending flushing queued].
  - done.
  - rewrite read_lines_app, Hd1. cbn [rbind]. rewrite read_batch by done.
    rewrite Hfl1, Hcu, Hcs. done.
  - by rewrite Hcu.
  - by rewrite Hcu.
  - by rewrite Hcs.
  - by rewrite Hp1.
  - by rewrite Hfl1.
  - rewrite Hfl1, Hp1, Hq1, H8. cbn. lia.
Qed.

Lemma flush_end_inv ok st : inv st -> inv (flush_end ok st).1.
Proof.
  intros Hi. unfold flush_end. destruct (flushing st) as [batch|] eqn:Hfl; [|done].
  destruct ok; cbn [negb]; [|apply flush_failed_inv].
  unfold checkHealth. destruct (failed st) as [e|] eqn:Hf; [apply flush_failed_inv|]. intros _. cbn [fst].
  apply schedule_healthy. destruct (Hi Hf) as [H1 H2 H3 H4 H5 H6 H7 H8].
  unfold in_flight in *. rewrite Hfl in *. cbn [default from_option id] in *. fold (memory st).
  destruct (commit_batch_ok (memory st) batch H7 H3 H4 H5) as (Hn & Hc & Hs).
  constructor; unfold in_flight; try done; cbn [flushing default].
  - cbn [disk j_lines]. rewrite H2. unfold memory at 2; cbn. by destruct (commit_batch (memory st) batch).
  - cbn. rewrite H8. lia.
Qed.

Lemma step_inv st e : inv st -> inv (step st e).
Proof.
  destruct e; cbn [step]; [apply accept_inv | apply acceptAsync_inv | apply command_inv | apply reset_inv
    | apply flush_start_inv | apply flush_end_inv].
Qed.

(** ** Opening *)
Definition snapshot_ok (s : ReplaySnapshot) : Prop :=
  NoDup (om_keys (sn_cursors s)) /\ Forall (fun p => cursor_ok p.1 p.2) (sn_cursors s) /\ is_u32 (sn_commandSeq s) = true.

Lemma json_u32_range v n : json_u32 v = Some n -> is_u32 n = true.
Proof. unfold json_u32. destruct (as_integer v) as [m|]; [|done]. by destruct (is_u32 m) eqn:E; intros [= <-]. Qed.

Lemma read_line_ok s l s' : snapshot_ok s -> read_line s l = Ok s' -> snapshot_ok s'.
Proof.
  intros (Hn & Hc & Hu). unfold read_line.
  destruct l as [[| | | |[|[| | |tag| |] [|v [|w [|]]]]|]|]; try done.
  - destruct (json_u32 v) as [n|] eqn:En.
    + case_bool_decide; [|done]. intros [= <-]. unfold snapshot_ok; cbn. split_and!; [done..|].
      apply json_u32_range in En. unfold is_u32 in *. bprop. lia.
    + destruct v; try done. destruct (is_uid tag); [|done]. intros [= <-]. unfold snapshot_ok; cbn. split_and!; [|..|done].
      * by apply om_del_nodup.
      * rewrite Forall_forall in *. intros p Hp. unfold om_del in Hp.
        apply list_elem_of_In, filter_In, proj1, list_elem_of_In in Hp. auto.
  - destruct (json_u32 v) as [b|] eqn:Eb; [|done]. destruct (json_u32 w) as [q|] eqn:Eq; [|done].
    destruct (is_uid tag) eqn:Eu; [|done]. intros [= <-]. unfold snapshot_ok; cbn. split_and!; [|..|done].
    + by apply om_set_nodup.
    + rewrite Forall_forall in *. intros p Hp. apply om_set_elem in Hp as [->|Hp]; [|auto].
      apply json_u32_range in Eb, Eq. done.
Qed.

Lemma read_lines_ok s ls s' : snapshot_ok s -> read_lines s ls = Ok s' -> snapshot_ok s'.
Proof.
  revert s; induction ls as [|l ls IH]; intros s Hs; cbn [read_lines]; [by intros [= <-]|].
  intros (s1 & H1 & H2)%rbind_ok. eapply IH; [|done]. by eapply read_line_ok.
Qed.

Lemma readReplaySnapshot_ok size j s : readReplaySnapshot size j = Ok s -> snapshot_ok s.
Proof.
  unfold readReplaySnapshot. intros H. inv_ok H. injection H as <-.
  eapply read_lines_ok; [|done]. split_and!; [apply NoDup_nil_2 | constructor | done].
Qed.

Lemma open_store_healthy found size ck1 ck2 st : open_store found size ck1 ck2 = Ok st ->
  healthy st /\ failed st = None /\ in_flight st = [] /\
  forall j, found = Some j -> readReplaySnapshot size j = Ok (memory st).
Proof.
  unfold open_store. intros (st0 & H0 & H)%rbind_ok. apply rbind_ok in H as (s & Hs & H).
  destruct (checkpoint ck2 _) as [st1 r] eqn:E. apply rbind_ok in H as ([] & Hr & [= <-]).
  pose proof (readReplaySnapshot_ok _ _ _ Hs) as (Hn & Hc & Hu).
  destruct ck2; injection E as <- Er; rewrite <- Er in Hr; try discriminate Hr.
  assert (failed st0 = None /\ flushing st0 = None /\ pending st0 = [] /\ queued st0 = 0%nat /\
    forall j, found = Some j -> disk st0 = j) as (Hf & Hfl & Hp & Hq & Hfd).
  { destruct found as [j|]; [injection H0 as <-; split_and!; try done; by intros ? [= <-]|].
    destruct ck1; cbn in H0; try discriminate H0. injection H0 as <-. by split_and!. }
  pose proof (checkpoint_lines (set_memory st0 (sn_cursors s) (sn_commandSeq s)) Hn Hc Hu) as Hck.
  assert (in_flight st0 = []) as Hif by (unfold in_flight; by rewrite Hfl).
  split_and!; [| |done|].
  - constructor; unfold in_flight, memory; cbn [disk set_disk set_memory j_complete j_lines cursors commandSeq pending flushing queued];
      rewrite ?Hfl, ?Hp, ?Hq; done.
  - done.
  - intros j Hj. rewrite <- (Hfd j Hj). unfold memory. cbn. by destruct s.
Qed.

(** C3: Recovery. Open a store on any journal, and let it run through any sequence
    of accepts, batches, command reservations and resets, with the file system
    failing wherever it likes. As long as the store has not latched a failure,
    reopening what is on disk at that moment gives back exactly the memory of
    the store, together with the batch whose fsync is outstanding, if any: no
    cursor that was admitted can become new again, and none appears from
    nowhere. (The reader's own limits, 8 MiB and 5,000 nodes, must hold.) *)
Theorem replay_recovery found size ck1 ck2 st0 es size' :
  open_store found size ck1 ck2 = Ok st0 ->
  let st := run step st0 es in
  failed st = None -> size' <= 8 * 1024 * 1024 ->
  (length (sn_cursors (commit_batch (memory st) (in_flight st))) <= 5000)%nat ->
  readReplaySnapshot size' (disk st) = Ok (commit_batch (memory st) (in_flight st)) /\
  exists st1, open_store (Some (disk st)) size' CkOk CkOk = Ok st1 /\
    memory st1 = commit_batch (memory st) (in_flight st).
Proof.
  intros Ho st Hf Hsize Hlen. destruct (open_store_healthy _ _ _ _ _ Ho) as (Hh & _ & _).
  assert (inv st) as Hi by (apply (run_invariant step inv); [intros; by apply step_inv | by intros _]).
  destruct (Hi Hf) as [Hc Hd _ _ _ _ _ _].
  assert (readReplaySnapshot size' (disk st) = Ok (commit_batch (memory st) (in_flight st))) as Hread.
  { unfold readReplaySnapshot. rewrite (proj2 (Z.ltb_ge _ _)) by lia. rewrite Hc, Hd. cbn [negb rbind].
    by rewrite (proj2 (Nat.ltb_ge _ _)). }
  split; [done|]. unfold open_store. cbn [default rbind disk]. unfold from_option, id.
  rewrite Hread. cbn [rbind checkpoint]. eexists. split; [done|]. unfold memory at 1; cbn.
  by destruct (commit_batch _ _).
Qed.

(** The promises a step settles. *)
Definition settled (st : ReplayStore) (e : Event) : list (Pending * bool) :=
  match e with
  | EFlush ck io => (flush_start ck io st).2
  | ESynced ok => (flush_end ok st).2
  | _ => []
  end.

(** Fail closed. After a failure has been latched the store admits nothing
    more: no event changes the cursors, the command counter or the file, the
    failure stays latched, every promise still open is rejected, and every
    synchronous write throws, a command that is already recorded included. *)
Theorem replay_failed_closed st e er :
  failed st = Some er ->
  memory (step st e) = memory st /\ disk (step st e) = disk st /\ failed (step st e) <> None /\
  Forall (fun p => p.2 = false) (settled st e) /\
  (forall ck io uid c, is_ok (accept ck io st uid c).2 = false) /\
  (forall ck io uid, is_ok (reset ck io st uid).2 = false) /\
  (forall ck io n, is_ok (command ck io st n).2 = false) /\
  (forall uid c cmd, is_ok (acceptAsync st uid c cmd).2 = false).
Proof.
  intros Hf.
  assert (forall ck io line, append ck io st line = (st, Err er)) as Happ.
  { intros. unfold append, checkHealth. by rewrite Hf. }
  assert (forall ck io uid c, (accept ck io st uid c).1 = st /\ is_ok (accept ck io st uid c).2 = false) as Ha.
  { intros. unfold accept. destruct (negb _); [done|]. destruct (validate uid c); [|done]. by rewrite Happ. }
  assert (forall ck io uid, (reset ck io st uid).1 = st /\ is_ok (reset ck io st uid).2 = false) as Hr.
  { intros. unfold reset. destruct (negb _); [done|]. destruct (negb _); [done|]. by rewrite Happ. }
  assert (forall ck io n, (command ck io st n).1 = st /\ is_ok (command ck io st n).2 = false) as Hc.
  { intros. unfold command, checkHealth. rewrite Hf. by destruct (negb _). }
  assert (forall uid c cmd, (acceptAsync st uid c cmd).1 = st /\ is_ok (acceptAsync st uid c cmd).2 = false) as Hs.
  { intros. unfold acceptAsync, checkHealth. by rewrite Hf. }
  split_and!; [..|apply Ha|apply Hr|apply Hc|apply Hs].
  all: destruct e; cbn [step settled]; rewrite ?(proj1 (Ha _ _ _ _)), ?(proj1 (Hr _ _ _)), ?(proj1 (Hc _ _ _)),
    ?(proj1 (Hs _ _ _)); try done; try congruence; try constructor.
  all: unfold flush_start, flush_end, checkHealth; cbn [flushing pending failed]; rewrite ?Hf;
    repeat (case_match; cbn [fst snd]); try done; try congruence; try constructor.
  all: unfold flush_failed; cbn [snd]; by apply Forall_fmap, Forall_true.
Qed.

(** ** Witnesses *)
Definition demo_events : list Event :=
  [EAccept "30:ed:a0:cb:f5:f8" {| boot := 3; seq := 9 |} CkOk WOk;
   EAcceptAsync "30:ed:a0:cb:f5:f9" {| boot := 1; seq := 7 |} (Some 500);
   EFlush CkOk WOk; ECommand 900 CkOk WOk].

Lemma replay_recovery_witness : exists st0 st1,
  open_store None 100 CkOk CkOk = Ok st0 /\
  open_store (Some (disk (run step st0 demo_events))) 200 CkOk CkOk = Ok st1 /\
  memory st1 = {| sn_cursors := [("30:ed:a0:cb:f5:f8", {| boot := 3; seq := 9 |}); ("30:ed:a0:cb:f5:f9", {| boot := 1; seq := 7 |})];
                  sn_commandSeq := 900 |}.
Proof.
  destruct (open_store None 100 CkOk CkOk) as [st0|e] eqn:E; [|vm_compute in E; discriminate E].
  destruct (replay_recovery None 100 CkOk CkOk st0 demo_events 200 E) as (_ & st1 & H1 & H2).
  - vm_compute in E. injection E as <-. vm_compute. reflexivity.
  - lia.
  - vm_compute in E. injection E as <-. vm_compute. lia.
  - exists st0, st1. split; [reflexivity|]. split; [exact H1|].
    rewrite H2. vm_compute in E. injection E as <-. vm_compute. reflexivity.
Defined.

Definition demo_failed : ReplayStore :=
  match open_store None 100 CkOk CkOk with
  | Ok st0 => run step st0 (demo_events ++ [ESynced false])
  | Err _ => {| cursors := []; commandSeq := 0; records := 0; pending := []; flushing := None; timer := false;
                failed := None; queued := 0; disk := {| j_lines := []; j_complete := true |} |}
  end.

Lemma replay_failed_closed_witness :
  failed demo_failed = Some "EIO" /\ memory (step demo_failed (EFlush CkOk WOk)) = memory demo_failed.
Proof.
  split; [vm_compute; reflexivity|].
  destruct (replay_failed_closed demo_failed (EFlush CkOk WOk) "EIO") as (H & _); [vm_compute; reflexivity | exact H].
Defined.
