(* ===== verification/Ingest.v ===== *)
(** Ingest (src/edge/ingest.ts): every datagram from every transport is
    authenticated, checked against the sender's replay cursor, made durable and
    only then admitted; and the way back, commands and OTA requests sent to
    wherever a node last spoke from. The replay store is the one of Replay.v,
    with the file system's answers in the events; a direct session is the
    record of what its callbacks answer. One event reads the clock once. *)

From S2P Require Import Prelude Bytes Secure Protocol Replay.

(** @edge/ingest.ts 31-31 DOWNLINK_PORT *)
Definition DOWNLINK_PORT : Z := 5201.
(** @edge/ingest.ts 32-32 WINDOW_MS *)
Definition WINDOW_MS : Z := 60000.
(** @edge/ingest.ts 33-33 MAX_NODES *)
Definition MAX_NODES : nat := Z.to_nat 5000.
(** @edge/ingest.ts 34-34 MAX_UNKNOWN_SOURCES *)
Definition MAX_UNKNOWN_SOURCES : nat := Z.to_nat 200.
(** @edge/ingest.ts 35-35 MAX_DURABLE_PACKETS *)
Definition MAX_DURABLE_PACKETS : nat := Z.to_nat 4096.
(** @edge/ingest.ts 36-36 MAX_DURABLE_BYTES *)
Definition MAX_DURABLE_BYTES : Z := 4 * 1024 * 1024.
Definition MAX_SAMPLES : nat := Z.to_nat 10000.

(** @edge/ingest.ts 51-69 DirectSession *)
Record DirectSession := {
  ss_uid : string; ss_sessionId : string; ss_key : list Z; ss_secureId : option Z;
  ss_send : list Z -> bool; ss_grantOta : Z -> string -> bool;
  ss_admit : Packet -> Z -> option string; ss_isOpen : bool }.

(** @edge/ingest.ts 45-48 Route *)
Inductive Route :=
| RUdp (address : string)
| RGateway (address : string)
| RDirect (address : string) (session : DirectSession).

Definition address_of (r : Route) : string := match r with RUdp a | RGateway a | RDirect a _ => a end.

(** @edge/ingest.ts 37-37 PreparedPacket *)
Record PreparedPacket := { pp_packet : Packet; pp_route : Route; pp_receivedAt : Z }.

(** @edge/ingest.ts 75-95 NodeLink *)
Record NodeLink := {
  k_address : string; k_route : option Route; k_firstSeen : Z; k_lastSeen : Z; k_boot : Z; k_seq : Z;
  k_signed : bool; k_secureId : option Z; k_reports : Z; k_raws : Z; k_statuses : Z; k_rejected : Z;
  k_recvTimes : list Z; k_reportTimes : list Z; k_gapEvents : list (Z * Z) }.

(** @edge/ingest.ts 97-103 RejectedSource *)
Record RejectedSource := { x_address : string; x_uid : option string; x_count : Z; x_lastSeen : Z; x_reason : string }.

(** @edge/ingest.ts 105-123 IngestOptions *)
Record IngestOptions := { op_verify : VerifyOptions; op_commandKey : option (list Z) }.

(** @edge/ingest.ts 71-73 IngestResult *)
Inductive IngestResult :=
| Accepted (packet : Packet) (route : Route) (ack : option (list Z))
| Rejected (uid : option string) (reason : string).

(** The listener. [queues] are the packets of a node behind the one whose
    durable write is outstanding ([waiting]): the promise chain of its tail.
    @edge/ingest.ts 136-153 Ingest *)
Record Ingest := {
  links : list (string * NodeLink); rejectedSources : list (string * RejectedSource);
  rejectReasons : list (string * Z); packetTimes : list Z; bytesInWindow : list (Z * Z); rejectTimes : list Z;
  lastCommandSeq : Z; replay : option ReplayStore;
  queues : list (string * list (PreparedPacket * nat)); waiting : list (string * (PreparedPacket * nat));
  pendingNewNodes : list string; durablePackets : nat; durableBytes : Z; closing : bool }.

Definition set_links (st : Ingest) (l : list (string * NodeLink)) : Ingest :=
  {| links := l; rejectedSources := rejectedSources st; rejectReasons := rejectReasons st;
     packetTimes := packetTimes st; bytesInWindow := bytesInWindow st; rejectTimes := rejectTimes st;
     lastCommandSeq := lastCommandSeq st; replay := replay st; queues := queues st; waiting := waiting st;
     pendingNewNodes := pendingNewNodes st; durablePackets := durablePackets st; durableBytes := durableBytes st;
     closing := closing st |}.
Definition set_windows (st : Ingest) (p : list Z) (b : list (Z * Z)) (r : list Z) : Ingest :=
  {| links := links st; rejectedSources := rejectedSources st; rejectReasons := rejectReasons st;
     packetTimes := p; bytesInWindow := b; rejectTimes := r;
     lastCommandSeq := lastCommandSeq st; replay := replay st; queues := queues st; waiting := waiting st;
     pendingNewNodes := pendingNewNodes st; durablePackets := durablePackets st; durableBytes := durableBytes st;
     closing := closing st |}.
Definition set_rejects (st : Ingest) (s : list (string * RejectedSource)) (r : list (string * Z)) (t : list Z) : Ingest :=
  {| links := links st; rejectedSources := s; rejectReasons := r;
     packetTimes := packetTimes st; bytesInWindow := bytesInWindow st; rejectTimes := t;
     lastCommandSeq := lastCommandSeq st; replay := replay st; queues := queues st; waiting := waiting st;
     pendingNewNodes := pendingNewNodes st; durablePackets := durablePackets st; durableBytes := durableBytes st;
     closing := closing st |}.
Definition set_replay (st : Ingest) (r : option ReplayStore) (n : Z) : Ingest :=
  {| links := links st; rejectedSources := rejectedSources st; rejectReasons := rejectReasons st;
     packetTimes := packetTimes st; bytesInWindow := bytesInWindow st; rejectTimes := rejectTimes st;
     lastCommandSeq := n; replay := r; queues := queues st; waiting := waiting st;
     pendingNewNodes := pendingNewNodes st; durablePackets := durablePackets st; durableBytes := durableBytes st;
     closing := closing st |}.
Definition set_durable (st : Ingest) (q : list (string * list (PreparedPacket * nat)))
    (w : list (string * (PreparedPacket * nat))) (pn : list string) (n : nat) (b : Z) : Ingest :=
  {| links := links st; rejectedSources := rejectedSources st; rejectReasons := rejectReasons st;
     packetTimes := packetTimes st; bytesInWindow := bytesInWindow st; rejectTimes := rejectTimes st;
     lastCommandSeq := lastCommandSeq st; replay := replay st; queues := q; waiting := w;
     pendingNewNodes := pn; durablePackets := n; durableBytes := b; closing := closing st |}.

(** [if (a.length > 10000) a.shift()] *)
Definition cap_samples {A} (l : list A) : list A := if Nat.ltb MAX_SAMPLES (length l) then tail l else l.

(** @edge/ingest.ts 590-607 reject *)
Definition reject (now : Z) (st : Ingest) (address : string) (uid : option string) (reason : string) : Ingest * IngestResult :=
  let times := cap_samples (rejectTimes st ++ [now]) in
  let rk := if om_has reason (rejectReasons st) || Nat.ltb (length (rejectReasons st)) 128 then reason else "other" in
  let reasons := om_set rk (default 0 (om_get rk (rejectReasons st)) + 1) (rejectReasons st) in
  let key := address +:+ "|" +:+ default "-" uid in
  let sources :=
    match om_get key (rejectedSources st) with
    | Some s => om_set key {| x_address := x_address s; x_uid := x_uid s; x_count := x_count s + 1; x_lastSeen := now;
                              x_reason := reason |} (rejectedSources st)
    | None =>
        if Nat.ltb (length (rejectedSources st)) MAX_UNKNOWN_SOURCES
        then om_set key {| x_address := address; x_uid := uid; x_count := 1; x_lastSeen := now; x_reason := reason |}
               (rejectedSources st)
        else rejectedSources st
    end in
  (set_rejects st sources reasons times, Rejected uid reason).

(** @edge/ingest.ts 626-630 trim *)
Definition trim_link (cut : Z) (k : NodeLink) : NodeLink :=
  {| k_address := k_address k; k_route := k_route k; k_firstSeen := k_firstSeen k; k_lastSeen := k_lastSeen k;
     k_boot := k_boot k; k_seq := k_seq k; k_signed := k_signed k; k_secureId := k_secureId k;
     k_reports := k_reports k; k_raws := k_raws k; k_statuses := k_statuses k; k_rejected := k_rejected k;
     k_recvTimes := drop_old id cut (k_recvTimes k); k_reportTimes := drop_old id cut (k_reportTimes k);
     k_gapEvents := drop_old fst cut (k_gapEvents k) |}.

(** What of the links a call trims. *)
Inductive TrimScope := TrimNone | TrimOnly (uid : string) | TrimAll.

(** @edge/ingest.ts 614-631 trim *)
Definition trim (now : Z) (scope : TrimScope) (st : Ingest) : Ingest :=
  let cut := now - WINDOW_MS in
  let st := set_windows st (drop_old id cut (packetTimes st)) (drop_old fst cut (bytesInWindow st))
              (drop_old id cut (rejectTimes st)) in
  match scope with
  | TrimNone => st
  | TrimAll => set_links st (map (fun p => (p.1, trim_link cut p.2)) (links st))
  | TrimOnly uid =>
      match om_get uid (links st) with
      | Some k => set_links st (om_set uid (trim_link cut k) (links st))
      | None => st
      end
  end.

Section ingest.
Context {C : Crypto}.

(** @edge/ingest.ts 289-291 prepare *)
Definition uidOf (msg : list Z) : option string :=
  if Nat.leb 10 (length msg) && (byte_at 0 msg =? 84) && (byte_at 1 msg =? 77) then Some (uid_text (sub 4 6 msg)) else None.

(** [source.startsWith('gw:')] *)
Definition route_of_source (source : string) : Route :=
  if starts_with "gw:" source then RGateway source else RUdp source.

(** @edge/ingest.ts 276-310 prepare *)
Definition prepare (opts : IngestOptions) (now : Z) (st : Ingest) (msg : list Z) (route : Route) :
    Ingest * (PreparedPacket + IngestResult) :=
  let address := address_of route in
  let st := set_windows st (packetTimes st ++ [now]) (bytesInWindow st ++ [(now, Z.of_nat (length msg))]) (rejectTimes st) in
  let st := trim now TrimNone st in
  let st := set_windows st (cap_samples (packetTimes st)) (cap_samples (bytesInWindow st)) (rejectTimes st) in
  let refuse uid reason := let '(st, r) := reject now st address uid reason in (st, inr r) in
  match parsePacket now msg
          match route with
          | RDirect _ s => {| v_keys := [ss_key s]; v_allowUnsigned := false; v_devices := v_devices (op_verify opts) |}
          | _ => op_verify opts
          end with
  | Err e => refuse (uidOf msg) e
  | Ok packet =>
      let uid := h_uid (p_header packet) in
      if match route with RDirect _ s => negb (bool_decide (h_secureId (p_header packet) = ss_secureId s)) | _ => false end
      then refuse (Some uid) "key does not match the session"
      else if match route with RDirect _ s => negb (bool_decide (uid = ss_uid s)) | _ => false end
      then refuse (Some uid) "uid does not match the session"
      else if closing st then refuse (Some uid) "ingest is shutting down"
      else (st, inl {| pp_packet := packet; pp_route := route; pp_receivedAt := now |})
  end.

Definition bump_rejected (uid : string) (st : Ingest) : Ingest :=
  match om_get uid (links st) with
  | Some k => set_links st (om_set uid
      {| k_address := k_address k; k_route := k_route k; k_firstSeen := k_firstSeen k; k_lastSeen := k_lastSeen k;
         k_boot := k_boot k; k_seq := k_seq k; k_signed := k_signed k; k_secureId := k_secureId k;
         k_reports := k_reports k; k_raws := k_raws k; k_statuses := k_statuses k; k_rejected := k_rejected k + 1;
         k_recvTimes := k_recvTimes k; k_reportTimes := k_reportTimes k; k_gapEvents := k_gapEvents k |} (links st))
  | None => st
  end.

(** The cursor a packet must be newer than.
    @edge/ingest.ts 314-319 admitPacket *)
Definition cursor_for (st : Ingest) (uid : string) : option Cursor :=
  let link := om_get uid (links st) in
  let saved := replay st ≫= (fun r => om_get uid (Replay.cursors r)) in
  match saved, link with
  | Some s, None => Some s
  | Some s, Some k =>
      if (k_boot k <? boot s) || ((boot s =? k_boot k) && (k_seq k <? seq s)) then Some s
      else Some {| boot := k_boot k; seq := k_seq k |}
  | None, Some k => Some {| boot := k_boot k; seq := k_seq k |}
  | None, None => None
  end.

(** The packet's cursor, and the order of cursors. *)
Definition cursor_of (p : Packet) : Cursor := {| boot := h_boot (p_header p); seq := h_seq (p_header p) |}.
Definition stale (p c : Cursor) : bool := (boot p <? boot c) || ((boot p =? boot c) && (seq p <=? seq c)).

(** [None] lets the packet through.
    @edge/ingest.ts 312-338 admitPacket *)
Definition admitPacket (now : Z) (st : Ingest) (pp : PreparedPacket) : Ingest * option IngestResult :=
  let packet := pp_packet pp in
  let uid := h_uid (p_header packet) in
  let address := address_of (pp_route pp) in
  let refuse st reason := let '(st, r) := reject now st address (Some uid) reason in (st, Some r) in
  let direct st :=
    match pp_route pp with
    | RDirect _ s =>
        match ss_admit s packet (pp_receivedAt pp) with
        | Some reason => refuse (bump_rejected uid st) reason
        | None => (st, None)
        end
    | _ => (st, None)
    end in
  match cursor_for st uid with
  | Some c =>
      if stale (cursor_of packet) c
      then refuse (bump_rejected uid st)
             (if h_boot (p_header packet) <? boot c then "boot counter went backwards (replay, or node flash erased)"
              else "replayed or duplicate sequence")
      else direct st
  | None =>
      let known := match replay st with Some r => length (Replay.cursors r) | None => 0%nat end in
      if Nat.leb MAX_NODES (length (links st) + length (pendingNewNodes st))
         || Nat.leb MAX_NODES (known + length (pendingNewNodes st))
      then refuse st "node table full"
      else direct st
  end.

(** The link after an accepted packet.
    @edge/ingest.ts 347-390 commitPacket *)
Definition update_link (now : Z) (old : option NodeLink) (packet : Packet) (route : Route) : NodeLink :=
  let h := p_header packet in
  let k := default {| k_address := address_of route; k_route := Some route; k_firstSeen := now; k_lastSeen := now;
                      k_boot := h_boot h; k_seq := h_seq h; k_signed := h_signed h; k_secureId := None;
                      k_reports := 0; k_raws := 0; k_statuses := 0; k_rejected := 0;
                      k_recvTimes := []; k_reportTimes := []; k_gapEvents := [] |} old in
  let gaps := match old with
              | Some k => if (h_boot h =? k_boot k) && (k_seq k + 1 <? h_seq h)
                          then k_gapEvents k ++ [(now, h_seq h - k_seq k - 1)] else k_gapEvents k
              | None => []
              end in
  let isReport := match p_body packet with BReport _ => true | _ => false end in
  {| k_address := address_of route; k_route := Some route; k_firstSeen := k_firstSeen k; k_lastSeen := now;
     k_boot := h_boot h; k_seq := h_seq h; k_signed := h_signed h; k_secureId := h_secureId h;
     k_reports := if isReport then k_reports k + 1 else k_reports k;
     k_raws := match p_body packet with BRaw _ => k_raws k + 1 | _ => k_raws k end;
     k_statuses := match p_body packet with BStatus _ => k_statuses k + 1 | _ => k_statuses k end;
     k_rejected := k_rejected k; k_recvTimes := cap_samples (k_recvTimes k ++ [now]);
     k_reportTimes := if isReport then cap_samples (k_reportTimes k ++ [now]) else k_reportTimes k;
     k_gapEvents := gaps |}.

(** The acknowledgement of an encrypted packet that came through a gateway or by
    UDP; [epoch] are the random bytes. [None]: none is sent.
    @edge/ingest.ts 401-410 commitPacket *)
Definition ack_for (opts : IngestOptions) (now : Z) (packet : Packet) (route : Route) (epoch : list Z) : option (list Z) :=
  let h := p_header packet in
  match h_secureId h, route, p_body packet with
  | _, RDirect _ _, _ => None
  | Some id, _, (BReport _ | BStatus _) =>
      match v_devices (op_verify opts) ≫= (fun d => find_key now d (h_uid h) id) with
      | None => None
      | Some device =>
          match
            let! key := deriveKey (dk_master device) (h_uid h) (dk_id device) "ack" epoch in
            encryptPayload {| sh_type := TYPE_ACK; sh_uid := h_uid h; sh_boot := h_boot h; sh_seq := h_seq h;
                              sh_uptimeMs := 0; sh_keyId := dk_id device; sh_epoch := epoch |}
              [h_type h mod 256] key epoch
          with Ok a => Some a | Err _ => None end
      end
  | _, _, _ => None
  end.

(** @edge/ingest.ts 340-414 commitPacket *)
Definition commitPacket (opts : IngestOptions) (now : Z) (epoch : list Z) (st : Ingest) (pp : PreparedPacket) : Ingest * IngestResult :=
  let packet := pp_packet pp in
  let uid := h_uid (p_header packet) in
  let route := pp_route pp in
  if match route with RDirect _ s => negb (ss_isOpen s) | _ => false end
  then reject now st (address_of route) (Some uid) "session closed"
  else
    let k := update_link (pp_receivedAt pp) (om_get uid (links st)) packet route in
    let st := set_links st (om_set uid k (links st)) in
    (trim (pp_receivedAt pp) (TrimOnly uid) st, Accepted packet route (ack_for opts now packet route epoch)).

Definition last_command (p : Packet) : option Z := match p_body p with BStatus s => Some (s_lastCmd s) | _ => None end.

(** The file system's answers to the store calls of one event. *)
Record StoreIO := { io_ck : CheckpointIO; io_write : WriteIO }.

(** @edge/ingest.ts 219-233 handle *)
Definition handle (opts : IngestOptions) (now : Z) (epoch : list Z) (io1 io2 : StoreIO) (st : Ingest) (msg : list Z)
    (route : Route) : Ingest * IngestResult :=
  match prepare opts now st msg route with
  | (st, inr refused) => (st, refused)
  | (st, inl pp) =>
      match admitPacket now st pp with
      | (st, Some refused) => (st, refused)
      | (st, None) =>
          let packet := pp_packet pp in
          let uid := h_uid (p_header packet) in
          let '(r1, res1) :=
            match replay st with
            | Some r => let '(r, e) := accept (io_ck io1) (io_write io1) r uid (cursor_of packet) in (Some r, e)
            | None => (None, Ok tt)
            end in
          let unavailable st := reject now st (address_of route) (Some uid) "replay journal unavailable" in
          match res1 with
          | Err _ => unavailable (set_replay st r1 (lastCommandSeq st))
          | Ok _ =>
              match last_command packet with
              | Some n =>
                  if lastCommandSeq st <? n then
                    let '(r2, res2) :=
                      match r1 with
                      | Some r => let '(r, e) := command (io_ck io2) (io_write io2) r n in (Some r, e)
                      | None => (None, Ok tt)
                      end in
                    match res2 with
                    | Err _ => unavailable (set_replay st r2 (lastCommandSeq st))
                    | Ok _ => commitPacket opts now epoch (set_replay st r2 n) pp
                    end
                  else commitPacket opts now epoch (set_replay st r1 (lastCommandSeq st)) pp
              | None => commitPacket opts now epoch (set_replay st r1 (lastCommandSeq st)) pp
              end
          end
      end
  end.

(** ** The durable path *)

(** What one event lets the outside see. *)
Inductive Output :=
| OResult (r : IngestResult)
| OSent (uid : string) (route : Route) (datagram : list Z) (seq : Z)
| OError (e : string).

(** A datagram arrives: everything [handleDurable] does before its first await.
    @edge/ingest.ts 236-249 handleDurable *)
Definition durable_arrive (opts : IngestOptions) (now : Z) (st : Ingest) (msg : list Z) (route : Route) : Ingest * list Output :=
  match prepare opts now st msg route with
  | (st, inr refused) => (st, [OResult refused])
  | (st, inl pp) =>
      let uid := h_uid (p_header (pp_packet pp)) in
      if Nat.leb MAX_DURABLE_PACKETS (durablePackets st)
         || (MAX_DURABLE_BYTES <? durableBytes st + Z.of_nat (length msg))
      then let '(st, r) := reject now st (address_of route) (Some uid) "durable ingest queue full" in (st, [OResult r])
      else (set_durable st (om_set uid (default [] (om_get uid (queues st)) ++ [(pp, length msg)]) (queues st))
              (waiting st) (pendingNewNodes st) (S (durablePackets st)) (durableBytes st + Z.of_nat (length msg)), [])
  end.

(** The [finally] of a packet's chain.
    @edge/ingest.ts 266-270 handleDurable *)
Definition durable_done (st : Ingest) (uid : string) (len : nat) : Ingest :=
  set_durable st (queues st) (om_del uid (waiting st))
    (List.filter (fun u => negb (bool_decide (u = uid))) (pendingNewNodes st))
    (pred (durablePackets st)) (durableBytes st - Z.of_nat len).

(** The next packet of [uid] has its turn: its predecessor is done.
    @edge/ingest.ts 250-264 handleDurable *)
Definition durable_admit (now : Z) (st : Ingest) (uid : string) : Ingest * list Output :=
  match om_get uid (queues st), om_has uid (waiting st), replay st with
  | Some ((pp, len) :: rest), false, Some store =>
      let st := set_durable st (om_set uid rest (queues st)) (waiting st) (pendingNewNodes st) (durablePackets st) (durableBytes st) in
      match admitPacket now st pp with
      | (st, Some refused) => (durable_done st uid len, [OResult refused])
      | (st, None) =>
          let pn := if om_has uid (links st) || om_has uid (Replay.cursors store) then pendingNewNodes st
                    else if includes uid (pendingNewNodes st) then pendingNewNodes st
                    else pendingNewNodes st ++ [uid] in
          let last := match last_command (pp_packet pp) with
                      | Some n => Z.max (lastCommandSeq st) n
                      | None => lastCommandSeq st
                      end in
          let '(store, res) := acceptAsync store uid (cursor_of (pp_packet pp)) (last_command (pp_packet pp)) in
          let st := set_replay st (Some store) last in
          match res with
          | Ok _ => (set_durable st (queues st) (om_set uid (pp, len) (waiting st)) pn (durablePackets st) (durableBytes st), [])
          | Err _ =>
              let '(st, r) := reject now st (address_of (pp_route pp)) (Some uid) "replay journal unavailable" in
              (durable_done st uid len, [OResult r])
          end
      end
  | _, _, _ => (st, [])
  end.

(** One promise of the store settles: commit, or reject.
    @edge/ingest.ts 258-270 handleDurable *)
Definition durable_settle (opts : IngestOptions) (now : Z) (epoch : list Z) (st : Ingest) (uid : string) (ok : bool) : Ingest * list Output :=
  match om_get uid (waiting st) with
  | None => (st, [])
  | Some (pp, len) =>
      let '(st, r) :=
        if ok then commitPacket opts now epoch st pp
        else reject now st (address_of (pp_route pp)) (Some uid) "replay journal unavailable" in
      (durable_done st uid len, [OResult r])
  end.

Fixpoint settle_all (opts : IngestOptions) (now : Z) (epoch : list Z) (st : Ingest) (l : list (Pending * bool)) : Ingest * list Output :=
  match l with
  | [] => (st, [])
  | (p, ok) :: rest =>
      let '(st, o1) := durable_settle opts now epoch st (pd_uid p) ok in
      let '(st, o2) := settle_all opts now epoch st rest in (st, o1 ++ o2)
  end.

(** The store's timer fires, or its fsync returns. *)
Definition store_event (opts : IngestOptions) (now : Z) (epoch : list Z) (st : Ingest)
    (f : ReplayStore -> ReplayStore * list (Pending * bool)) : Ingest * list Output :=
  match replay st with
  | None => (st, [])
  | Some store =>
      let '(store, l) := f store in
      settle_all opts now epoch (set_replay st (Some store) (lastCommandSeq st)) l
  end.

(** ** Routes, cursors and counters *)

(** @edge/ingest.ts 422-427 dropDirectRoute *)
Definition dropDirectRoute (st : Ingest) (uid sessionId : string) : Ingest * bool :=
  match om_get uid (links st) with
  | Some k =>
      match k_route k with
      | Some (RDirect _ s) =>
          if bool_decide (ss_sessionId s = sessionId)
          then (set_links st (om_set uid
                 {| k_address := k_address k; k_route := None; k_firstSeen := k_firstSeen k; k_lastSeen := k_lastSeen k;
                    k_boot := k_boot k; k_seq := k_seq k; k_signed := k_signed k; k_secureId := k_secureId k;
                    k_reports := k_reports k; k_raws := k_raws k; k_statuses := k_statuses k; k_rejected := k_rejected k;
                    k_recvTimes := k_recvTimes k; k_reportTimes := k_reportTimes k; k_gapEvents := k_gapEvents k |}
                 (links st)), true)
          else (st, false)
      | _ => (st, false)
      end
  | None => (st, false)
  end.

(** [now] in milliseconds.
    @edge/ingest.ts 430-439 allocateCommandSeq *)
Definition allocateCommandSeq (now : Z) (io : StoreIO) (st : Ingest) : Ingest * result string Z :=
  let n := Z.max (now / 1000) (lastCommandSeq st + 1) in
  if 4294967295 <? n then (st, Err "command sequence exhausted")
  else match replay st with
       | None => (set_replay st None n, Ok n)
       | Some r =>
           match command (io_ck io) (io_write io) r n with
           | (r, Err e) => (set_replay st (Some r) (lastCommandSeq st), Err e)
           | (r, Ok _) => (set_replay st (Some r) n, Ok n)
           end
       end.

(** @edge/ingest.ts 442-448 resetCursor *)
Definition resetCursor (io : StoreIO) (st : Ingest) (uid : string) : Ingest * result string bool :=
  if negb (Nat.eqb (durablePackets st) 0) then (st, Err "durable packet writes are pending; retry cursor reset")
  else if negb (is_uid uid) then (st, Err "invalid node uid")
  else match match replay st with
             | None => (None, Ok false)
             | Some r => let '(r, e) := reset (io_ck io) (io_write io) r uid in (Some r, e)
             end with
       | (r, Err e) => (set_replay st r (lastCommandSeq st), Err e)
       | (r, Ok saved) =>
           (set_links (set_replay st r (lastCommandSeq st)) (om_del uid (links st)), Ok (om_has uid (links st) || saved))
       end.

(** ** Downlinks *)

(** [/^(127\.|::1$|::ffff:127\.)/] *)
Definition is_loopback (a : string) : bool :=
  starts_with "127." a || bool_decide (a = "::1") || starts_with "::ffff:127." a.

Section downlinks.
(** [net.isIP(address) !== 0], and the outcome of a UDP send or a gateway relay. *)
Context (is_ip : string -> bool) (udp_send : string -> list Z -> bool) (routeViaGateway : string -> list Z -> bool).

(** @edge/ingest.ts 524-543 downlinkTarget *)
Definition downlinkTarget (opts : IngestOptions) (now : Z) (st : Ingest) (uid what : string) : result string (Route * list Z) :=
  match om_get uid (links st) with
  | None => Err ("node " +:+ uid +:+ " has not been heard from; no address to send to")
  | Some k =>
      match k_route k with
      | None => Err ("node " +:+ uid +:+ "'s direct session has closed; it cannot " +:+ what +:+ " until it reconnects")
      | Some route =>
          throw_if match k_secureId k with
                   | Some id => match v_devices (op_verify opts) ≫= (fun d => find_key now d uid id) with
                                | Some _ => false | None => true end
                   | None => false
                   end with "device key expired or revoked" in
          match route with
          | RDirect _ s => Ok (route, ss_key s)
          | _ =>
              match k_secureId k with
              | Some _ => Ok (route, alloc 32)
              | None =>
                  match op_commandKey opts with
                  | None => Err ("no TM_KEY: nothing can be signed for " +:+ uid)
                  | Some key =>
                      match route with
                      | RUdp a =>
                          throw_if is_loopback a with
                            "node " +:+ uid +:+ " is reached through a local proxy (" +:+ a +:+ "); it cannot " +:+ what in
                          throw_if negb (is_ip a) with
                            "node " +:+ uid +:+ " has no IP address to send to (" +:+ a +:+ ")" in
                          Ok (route, key)
                      | _ => Ok (route, key)
                      end
                  end
              end
          end
      end
  end.

(** [epoch] are the random bytes of the envelope.
    @edge/ingest.ts 516-522 protectDownlink *)
Definition protectDownlink (opts : IngestOptions) (now : Z) (epoch : list Z) (st : Ingest) (uid : string) (legacy : list Z) : result string (list Z) :=
  match om_get uid (links st) ≫= k_secureId with
  | None => Ok legacy
  | Some id =>
      match v_devices (op_verify opts) ≫= (fun d => find_key now d uid id) with
      | None => Err "device key expired or revoked; downlink refused"
      | Some device => encryptPacket legacy device 0 epoch "downlink"
      end
  end.

(** @edge/ingest.ts 545-562 deliver *)
Definition deliver (uid : string) (route : Route) (buf : list Z) : result string unit :=
  match route with
  | RDirect _ s => throw_if negb (ss_send s buf) with "node " +:+ uid +:+ "'s direct session could not take the packet" in Ok tt
  | RGateway a => throw_if negb (routeViaGateway a buf) with "gateway for " +:+ uid +:+ " is not connected" in Ok tt
  | RUdp a => throw_if negb (udp_send a buf) with "send failed" in Ok tt
  end.

(** @edge/ingest.ts 503-509 sendCommand *)
Definition sendCommand (opts : IngestOptions) (now : Z) (epoch : list Z) (io : StoreIO) (st : Ingest) (uid : string)
    (opcode arg0 value : Z) : Ingest * result string (Z * list Z) :=
  match downlinkTarget opts now st uid "receive commands" with
  | Err e => (st, Err e)
  | Ok (route, key) =>
      match allocateCommandSeq now io st with
      | (st, Err e) => (st, Err e)
      | (st, Ok n) =>
          (st, let! legacy := buildCommand uid {| c_seq := n; c_opcode := opcode; c_arg0 := arg0; c_value := value |} key in
               let! buf := protectDownlink opts now epoch st uid legacy in
               let! _ := deliver uid route buf in Ok (n, buf))
      end
  end.

(** The firmware build named by an image path: [/^\/fw\/([0-9a-f]{16})\.bin$/] *)
Definition build_of_path (path : string) : option string :=
  let cs := chars path in
  let build := String.string_of_list_ascii (take 16 (drop 4 cs)) in
  if bool_decide (path = "/fw/" +:+ build +:+ ".bin") && Nat.eqb (String.length build) 16 && forallb is_hex_lower (chars build)
  then Some build else None.

(** @edge/ingest.ts 569-588 sendOta *)
Definition sendOta (opts : IngestOptions) (now : Z) (epoch : list Z) (io : StoreIO) (st : Ingest) (uid : string)
    (port size : Z) (sha256 path : string) : Ingest * result string (list Z) :=
  match downlinkTarget opts now st uid "be updated" with
  | Err e => (st, Err e)
  | Ok (route, key) =>
      match allocateCommandSeq now io st with
      | (st, Err e) => (st, Err e)
      | (st, Ok n) =>
          (st, let! legacy := buildOta uid {| q_seq := n; q_port := port; q_size := size; q_sha256 := sha256; q_path := path |} key in
               let! buf := protectDownlink opts now epoch st uid legacy in
               let! _ := match route with
                         | RDirect _ s =>
                             let e := "a direct node downloads from /fw/<build>.bin on 443, not " +:+ show port +:+ path in
                             match build_of_path path with
                             | Some build =>
                                 throw_if negb (port =? 443) with e in
                                 throw_if negb (ss_grantOta s n build) with "could not issue a download grant to " +:+ uid in Ok tt
                             | None => Err e
                             end
                         | _ => Ok tt
                         end in
               let! _ := deliver uid route buf in Ok buf)
      end
  end.
End downlinks.

(** ** Statistics *)

(** @edge/ingest.ts 469-476 frameRate *)
Definition frameRate (now : Z) (st : Ingest) (uid : string) : Q :=
  let st := trim now (TrimOnly uid) st in
  match om_get uid (links st) with
  | None => 0
  | Some k =>
      let t := k_reportTimes k in
      if Nat.ltb (length t) 2 then 0%Q
      else let span := default 0 (last t) - default 0 (head t) in
           if 0 <? span then (inject_Z (Z.of_nat (length t) - 1) / (inject_Z span / 1000))%Q else 0%Q
  end.

(** @edge/ingest.ts 479-486 lossRate *)
Definition lossRate (now : Z) (st : Ingest) (uid : string) : Q :=
  let st := trim now (TrimOnly uid) st in
  match om_get uid (links st) with
  | None => 0
  | Some k =>
      let lost := fold_left (fun a g => a + g.2) (k_gapEvents k) 0 in
      let total := lost + Z.of_nat (length (k_recvTimes k)) in
      if 0 <? total then (inject_Z lost / inject_Z total)%Q else 0%Q
  end.

(** Packets and bytes a second, rejections a minute.
    @edge/ingest.ts 488-495 rates *)
Definition rates (now : Z) (st : Ingest) : Q * Q * Q :=
  let st := trim now TrimAll st in
  let bytes := fold_left (fun a b => a + b.2) (bytesInWindow st) 0 in
  (inject_Z (Z.of_nat (length (packetTimes st))) / 60, inject_Z bytes / 60,
   inject_Z (Z.of_nat (length (rejectTimes st))) / 1)%Q.

(** ** The listener as a whole *)

Inductive Event :=
| EDatagram (msg : list Z) (route : Route)          (** [handleDurable], or [handle] without a store *)
| ETurn (uid : string)                              (** the tail of [uid]'s chain runs *)
| EStoreTimer (io : StoreIO)
| EStoreSynced (ok : bool)
| EDropRoute (uid sessionId : string)
| EAllocate
| EClose.

(** One event, at [now], with the random bytes and the store's answers it may use. *)
Record Env := { ev_now : Z; ev_epoch : list Z; ev_io1 : StoreIO; ev_io2 : StoreIO }.

Definition step (opts : IngestOptions) (st : Ingest) (env : Env) (e : Event) : Ingest * list Output :=
  let now := ev_now env in
  match e with
  | EDatagram msg route =>
      match replay st with
      | Some _ => durable_arrive opts now st msg route
      | None => let '(st, r) := handle opts now (ev_epoch env) (ev_io1 env) (ev_io2 env) st msg route in (st, [OResult r])
      end
  | ETurn uid => durable_admit now st uid
  | EStoreTimer io => store_event opts now (ev_epoch env) st (flush_start (io_ck io) (io_write io))
  | EStoreSynced ok => store_event opts now (ev_epoch env) st (flush_end ok)
  | EDropRoute uid sid => ((dropDirectRoute st uid sid).1, [])
  | EAllocate => ((allocateCommandSeq now (ev_io1 env) st).1, [])
  | EClose =>
      ({| links := links st; rejectedSources := rejectedSources st; rejectReasons := rejectReasons st;
          packetTimes := packetTimes st; bytesInWindow := bytesInWindow st; rejectTimes := rejectTimes st;
          lastCommandSeq := lastCommandSeq st; replay := replay st; queues := queues st; waiting := waiting st;
          pendingNewNodes := pendingNewNodes st; durablePackets := durablePackets st; durableBytes := durableBytes st;
          closing := true |}, [])
  end.

Fixpoint run_events (opts : IngestOptions) (st : Ingest) (es : list (Env * Event)) : Ingest * list Output :=
  match es with
  | [] => (st, [])
  | (env, e) :: rest =>
      let '(st, o1) := step opts st env e in
      let '(st, o2) := run_events opts st rest in (st, o1 ++ o2)
  end.

End ingest.

(** ** Cursors only move forward *)

Definition newer (p : Cursor) (c : option Cursor) : Prop := match c with Some c => stale p c = false | None => True end.
Definition link_cursor (st : Ingest) (uid : string) : option Cursor :=
  (fun k => {| boot := k_boot k; seq := k_seq k |}) <$> om_get uid (links st).
Definition saved_cursor (st : Ingest) (uid : string) : option Cursor :=
  replay st ≫= (fun r => om_get uid (Replay.cursors r)).

Lemma stale_spec p c : stale p c = false <-> boot c < boot p \/ (boot p = boot c /\ seq c < seq p).
Proof. unfold stale. bprop. lia. Qed.

Lemma newer_trans p c b : stale p c = false -> newer c b -> newer p b.
Proof. destruct b as [b|]; [|done]. unfold newer. rewrite !stale_spec. lia. Qed.

(** Each cursor of the list is newer than the one before it. *)
Fixpoint chain (c : option Cursor) (l : list Cursor) : Prop :=
  match l with
  | [] => True
  | x :: l' => newer x c /\ chain (Some x) l'
  end.
Definition final (c : option Cursor) (l : list Cursor) : option Cursor :=
  match last l with Some x => Some x | None => c end.

Lemma chain_app c l1 l2 : chain c l1 -> chain (final c l1) l2 -> chain c (l1 ++ l2).
Proof.
  revert c; induction l1 as [|x l1 IH]; intros c; [done|]. cbn [app chain]. intros [H1 H2] H3.
  split; [done|]. apply IH; [done|]. destruct l1; [done|]. unfold final in *. rewrite last_cons_cons in H3.
  destruct (last (c0 :: l1)) eqn:E; [done|]. apply last_None in E. done.
Qed.

Lemma final_app c l1 l2 : final c (l1 ++ l2) = final (final c l1) l2.
Proof.
  unfold final. rewrite last_app. destruct (last l2); [done|]. done.
Qed.

(** The cursors a list of outputs reports accepted for [uid]. *)
Definition accepted_cursor (uid : string) (o : Output) : list Cursor :=
  match o with
  | OResult (Accepted p _ _) => if bool_decide (h_uid (p_header p) = uid) then [cursor_of p] else []
  | _ => []
  end.
Definition accepted (uid : string) (os : list Output) : list Cursor := os ≫= accepted_cursor uid.

Lemma accepted_app uid o1 o2 : accepted uid (o1 ++ o2) = accepted uid o1 ++ accepted uid o2.
Proof. apply bind_app. Qed.

(** States that agree on everything admission depends on. *)
Record same_core (st st' : Ingest) : Prop := {
  sc_links : forall uid, link_cursor st' uid = link_cursor st uid;
  sc_replay : replay st' = replay st;
  sc_queues : queues st' = queues st;
  sc_waiting : waiting st' = waiting st;
}.

#[local] Instance same_core_refl : Reflexive same_core.
Proof. by constructor. Qed.
#[local] Instance same_core_trans : Transitive same_core.
Proof. intros a b c [H1 H2 H3 H4] [H5 H6 H7 H8]. constructor; intros; congruence. Qed.

Lemma link_cursor_set st uid k u :
  link_cursor (set_links st (om_set uid k (links st))) u
  = if bool_decide (u = uid) then Some {| boot := k_boot k; seq := k_seq k |} else link_cursor st u.
Proof. unfold link_cursor. cbn [links set_links]. rewrite om_get_set. by case_bool_decide. Qed.

Lemma link_cursor_same st uid k k' :
  om_get uid (links st) = Some k -> k_boot k' = k_boot k -> k_seq k' = k_seq k ->
  forall u, link_cursor (set_links st (om_set uid k' (links st))) u = link_cursor st u.
Proof.
  intros Hg Hb Hs u. rewrite link_cursor_set. case_bool_decide; [|done]. subst.
  unfold link_cursor. by rewrite Hg, Hb, Hs.
Qed.

Lemma reject_core now st a u r : same_core st (reject now st a u r).1 /\ exists u' r', (reject now st a u r).2 = Rejected u' r'.
Proof. split; [by constructor | by do 2 eexists]. Qed.

Lemma bump_core uid st : same_core st (bump_rejected uid st).
Proof.
  unfold bump_rejected. destruct (om_get uid (links st)) as [k|] eqn:E; [|done].
  constructor; [|done..]. by eapply link_cursor_same.
Qed.

Lemma om_get_map {V W} (f : V -> W) (m : list (string * V)) u :
  om_get u (map (fun p => (p.1, f p.2)) m) = f <$> om_get u m.
Proof. induction m as [|[k v] m IH]; [done|]. cbn. by case_bool_decide. Qed.

Lemma trim_core now scope st : same_core st (trim now scope st).
Proof.
  unfold trim. destruct scope; [by constructor| |].
  - cbn [links set_windows]. destruct (om_get uid (links st)) as [k|] eqn:E; [|by constructor].
    constructor; [|done..]. intros u. by eapply (link_cursor_same (set_windows st _ _ _)).
  - constructor; [|done..]. intros u. unfold link_cursor. cbn [links set_links set_windows].
    rewrite om_get_map. by destruct (om_get u (links st)).
Qed.

Lemma windows_core st a b c : same_core st (set_windows st a b c).
Proof. by constructor. Qed.

Section monotone.
Context {C : Crypto}.

Lemma prepare_core opts now st msg route :
  same_core st (prepare opts now st msg route).1 /\
  match (prepare opts now st msg route).2 with
  | inl _ => True
  | inr r => exists u e, r = Rejected u e
  end.
Proof.
  unfold prepare. set (st1 := set_windows _ _ _ _). 
  assert (same_core st st1) as H1.
  { unfold st1. etrans; [|apply windows_core]. etrans; [apply windows_core | apply trim_core]. }
  assert (forall u e, same_core st (let '(s, r) := reject now st1 (address_of route) u e in (s, inr (A := PreparedPacket) r)).1 /\
    match (let '(s, r) := reject now st1 (address_of route) u e in (s, inr (A := PreparedPacket) r)).2 with
    | inl _ => True | inr r => exists u e, r = Rejected u e end) as Hr.
  { intros u e. destruct (reject_core now st1 (address_of route) u e) as [Hc He].
    destruct (reject now st1 (address_of route) u e) as [s r]. split; [by etrans | done]. }
  destruct (parsePacket _ _ _); [|apply Hr]. repeat (match goal with |- context [if ?b then _ else _] => destruct b end; try apply Hr).
  done.
Qed.

Lemma cursor_for_newer st uid p c : cursor_for st uid = Some c -> stale p c = false ->
  newer p (link_cursor st uid) /\ newer p (saved_cursor st uid).
Proof.
  unfold cursor_for, link_cursor, saved_cursor.
  destruct (replay st ≫= _) as [s|] eqn:Es, (om_get uid (links st)) as [k|] eqn:Ek; cbn [fmap option_fmap option_map newer];
    try by intros [= <-].
  destruct ((k_boot k <? boot s) || ((boot s =? k_boot k) && (k_seq k <? seq s))) eqn:E; intros [= <-];
    rewrite !stale_spec; cbn [boot seq] in *; bprop; lia.
Qed.

Lemma admit_core now st pp :
  same_core st (admitPacket now st pp).1 /\
  match (admitPacket now st pp).2 with
  | Some r => exists u e, r = Rejected u e
  | None => newer (cursor_of (pp_packet pp)) (link_cursor st (h_uid (p_header (pp_packet pp)))) /\
            newer (cursor_of (pp_packet pp)) (saved_cursor st (h_uid (p_header (pp_packet pp))))
  end.
Proof.
  unfold admitPacket. set (uid := h_uid (p_header (pp_packet pp))).
  assert (forall s e (P : Prop), same_core st s ->
    same_core st (let '(s, r) := reject now s (address_of (pp_route pp)) (Some uid) e in (s, Some r)).1 /\
    match (let '(s, r) := reject now s (address_of (pp_route pp)) (Some uid) e in (s, Some r)).2 with
    | Some r => exists u e, r = Rejected u e | None => P end) as Hr.
  { intros s e P Hs. destruct (reject_core now s (address_of (pp_route pp)) (Some uid) e) as [Hc He].
    destruct (reject now s (address_of (pp_route pp)) (Some uid) e) as [s' r]. split; [by etrans | done]. }
  destruct (cursor_for st uid) as [c|] eqn:Ec.
  - destruct (stale _ _) eqn:Est; [apply Hr, bump_core|].
    pose proof (cursor_for_newer _ _ _ _ Ec Est) as Hn.
    destruct (pp_route pp); [done|done|]. destruct (ss_admit _ _ _); [apply Hr, bump_core | done].
  - assert (link_cursor st uid = None /\ saved_cursor st uid = None) as [Hl Hs].
    { revert Ec. unfold cursor_for, link_cursor, saved_cursor.
      destruct (replay st ≫= _), (om_get uid (links st)); try done. by destruct (_ || _). }
    rewrite Hl, Hs. destruct (_ || _); [by apply Hr|].
    destruct (pp_route pp); [done|done|]. destruct (ss_admit _ _ _); [apply Hr, bump_core | done].
Qed.

Lemma commit_core opts now epoch st pp :
  let r := commitPacket opts now epoch st pp in
  let p := pp_packet pp in
  replay r.1 = replay st /\ queues r.1 = queues st /\ waiting r.1 = waiting st /\
  match r.2 with
  | Rejected _ _ => forall u, link_cursor r.1 u = link_cursor st u
  | Accepted p' _ _ => p' = p /\ forall u, link_cursor r.1 u =
                         if bool_decide (u = h_uid (p_header p)) then Some (cursor_of p) else link_cursor st u
  end.
Proof.
  unfold commitPacket. destruct (match pp_route pp with RDirect _ s => negb (ss_isOpen s) | _ => false end); cbv zeta; [done|].
  cbn [fst snd]. set (st1 := set_links _ _).
  destruct (trim_core (pp_receivedAt pp) (TrimOnly (h_uid (p_header (pp_packet pp)))) st1) as [H1 H2 H3 H4].
  split_and!; [by rewrite H2|by rewrite H3|by rewrite H4|done|].
  intros u. rewrite H1. unfold st1. by rewrite link_cursor_set.
Qed.

(** The invariant of the listener, over the cursors [floor] the store had when
    it was opened. *)
Context (floor : string -> option Cursor).

Record cursors_inv (st : Ingest) : Prop := {
  ci_waiting uid pp len : om_get uid (waiting st) = Some (pp, len) ->
    h_uid (p_header (pp_packet pp)) = uid /\ newer (cursor_of (pp_packet pp)) (link_cursor st uid) /\
    newer (cursor_of (pp_packet pp)) (floor uid);
  ci_queues uid l pp len : om_get uid (queues st) = Some l -> (pp, len) ∈ l -> h_uid (p_header (pp_packet pp)) = uid;
  ci_links uid c : link_cursor st uid = Some c -> newer c (floor uid);
  ci_saved uid b : floor uid = Some b -> exists s, saved_cursor st uid = Some s /\ (s = b \/ stale s b = false);
  ci_pending store : replay st = Some store ->
    Forall (fun p => newer (pd_cursor p) (floor (pd_uid p))) (pending store ++ in_flight store);
  ci_none : replay st = None -> waiting st = [];
}.

Lemma inv_core st st' : same_core st st' -> cursors_inv st -> cursors_inv st'.
Proof.
  intros [H1 H2 H3 H4] [I1 I2 I3 I4 I5 I6]. constructor.
  - intros uid pp len. rewrite H4, H1. apply I1.
  - intros uid l pp len. rewrite H3. apply I2.
  - intros uid c. rewrite H1. apply I3.
  - intros uid b Hb. unfold saved_cursor. rewrite H2. by apply I4.
  - intros store. rewrite H2. apply I5.
  - rewrite H2, H4. apply I6.
Qed.

(** What one event may do to the cursors. *)
Definition good (st st' : Ingest) (os : list Output) : Prop :=
  cursors_inv st' /\ forall uid, chain (link_cursor st uid) (accepted uid os) /\
    Forall (fun c => newer c (floor uid)) (accepted uid os) /\ link_cursor st' uid = final (link_cursor st uid) (accepted uid os).

Lemma good_core st st' : cursors_inv st -> same_core st st' -> good st st' [].
Proof.
  intros Hi Hc. split; [by eapply inv_core|]. intros uid. cbn. split_and!; [done|done|]. by destruct Hc as [-> _ _ _].
Qed.

Lemma good_rejected st st' u r : good st st' [] -> good st st' [OResult (Rejected u r)].
Proof. done. Qed.

Lemma good_trans a b c o1 o2 : good a b o1 -> good b c o2 -> good a c (o1 ++ o2).
Proof.
  intros [_ H1] [H2 H3]. split; [done|]. intros uid. destruct (H1 uid) as (A1 & A2 & A3), (H3 uid) as (B1 & B2 & B3).
  rewrite accepted_app. split_and!.
  - apply chain_app; [done|]. by rewrite <- A3.
  - by apply Forall_app.
  - by rewrite B3, A3, final_app.
Qed.

Lemma floor_saved st uid p : cursors_inv st -> newer p (saved_cursor st uid) -> newer p (floor uid).
Proof.
  intros Hi Hp. destruct (floor uid) as [b|] eqn:Eb; [|done].
  destruct (ci_saved st Hi uid b Eb) as (s & Es & Hs). rewrite Es in Hp. destruct Hs as [->|Hs]; [done|].
  by eapply newer_trans.
Qed.

(** Committing a packet, and forgetting that it was waiting. *)
Lemma good_commit opts now epoch st st2 pp :
  let uid := h_uid (p_header (pp_packet pp)) in
  let r := commitPacket opts now epoch st pp in
  cursors_inv st -> newer (cursor_of (pp_packet pp)) (link_cursor st uid) -> newer (cursor_of (pp_packet pp)) (floor uid) ->
  (forall u, link_cursor st2 u = link_cursor r.1 u) -> replay st2 = replay r.1 -> queues st2 = queues r.1 ->
  waiting st2 = om_del uid (waiting st) ->
  good st st2 [OResult r.2].
Proof.
  intros uid r [I1 I2 I3 I4 I5 I6] Hn Hf El Er Eq Ew.
  destruct (commit_core opts now epoch st pp) as (H1 & H2 & H3 & H4). fold r in H1, H2, H3, H4.
  destruct r as [st' res]. cbn [fst snd] in *.
  assert (match res with Rejected _ _ => forall u, link_cursor st2 u = link_cursor st u
          | Accepted p' _ _ => p' = pp_packet pp /\ forall u, link_cursor st2 u = if bool_decide (u = uid) then Some (cursor_of p') else link_cursor st u end) as Hl.
  { destruct res; [destruct H4 as [-> H4]; split; [done|]|]; intros u; rewrite El; apply H4. }
  split.
  - constructor.
    + intros u pp' len. rewrite Ew, om_get_del. case_bool_decide as Hu; [done|]. intros Hg.
      destruct (I1 _ _ _ Hg) as (A & B & D). split_and!; [done| |done].
      destruct res; [destruct Hl as [_ Hl]; rewrite Hl, bool_decide_eq_false_2 by done | rewrite Hl]; done.
    + rewrite Eq, H2. apply I2.
    + intros u c. destruct res; [destruct Hl as [-> Hl]; rewrite Hl; case_bool_decide as Hu; [intros [= <-]; by subst | apply I3] | rewrite Hl; apply I3].
    + intros u b Hb. unfold saved_cursor. rewrite Er, H1. by apply I4.
    + intros store. rewrite Er, H1. apply I5.
    + rewrite Er, H1, Ew. intros E. by rewrite (I6 E).
  - intros u. unfold accepted. cbn [mbind list_bind app]. rewrite app_nil_r. unfold final.
    destruct res as [p' route ack|]; cbn [accepted_cursor]; [destruct Hl as [-> Hl]|]; rewrite Hl.
    + fold uid. case_bool_decide as E1; [subst u; rewrite bool_decide_eq_true_2 by done | rewrite bool_decide_eq_false_2 by congruence];
        cbn; [|done]. split_and!; [done|done| |done]. by constructor.
    + cbn. done.
Qed.

(** Changing the bookkeeping of the durable path only. *)
Lemma inv_durable st q w pn n b :
  cursors_inv st ->
  (forall uid pp len, om_get uid w = Some (pp, len) -> om_get uid (waiting st) = Some (pp, len) \/
     (h_uid (p_header (pp_packet pp)) = uid /\ newer (cursor_of (pp_packet pp)) (link_cursor st uid) /\
      newer (cursor_of (pp_packet pp)) (floor uid))) ->
  (forall uid l pp len, om_get uid q = Some l -> (pp, len) ∈ l -> h_uid (p_header (pp_packet pp)) = uid) ->
  (replay st = None -> w = []) ->
  cursors_inv (set_durable st q w pn n b).
Proof.
  intros [I1 I2 I3 I4 I5 I6] Hw Hq Hn. constructor; try done.
  intros uid pp len Hg. destruct (Hw _ _ _ Hg) as [Hg'|]; [by eapply I1 | done].
Qed.

Lemma done_inv st uid len : cursors_inv st -> cursors_inv (durable_done st uid len).
Proof.
  intros Hi. apply inv_durable; [done| | |].
  - intros u pp l. rewrite om_get_del. case_bool_decide; [done|]. by left.
  - apply (ci_queues st Hi).
  - intros E. by rewrite (ci_none st Hi E).
Qed.

Lemma good_done st uid len r u e : cursors_inv st -> r = Rejected u e -> good st (durable_done st uid len) [OResult r].
Proof.
  intros Hi ->. apply good_rejected. split; [by apply done_inv|]. intros v. cbn. done.
Qed.

Lemma good_quiet st st' : cursors_inv st' -> (forall u, link_cursor st' u = link_cursor st u) -> good st st' [].
Proof. intros Hi Hl. split; [done|]. intros u. cbn. split_and!; [done|done|]. by rewrite Hl. Qed.

(** [good] starting from a state that agrees with another. *)
Lemma good_after st st1 st' os : same_core st st1 -> good st1 st' os -> good st st' os.
Proof. intros [H _ _ _] [Hi Hg]. split; [done|]. intros u. rewrite <- H. apply Hg. Qed.

Lemma same_replay st n : same_core st (set_replay st (replay st) n).
Proof. by constructor. Qed.

Lemma settle_good opts now epoch st uid ok : cursors_inv st ->
  let r := durable_settle opts now epoch st uid ok in good st r.1 r.2.
Proof.
  intros Hi. unfold durable_settle. destruct (om_get uid (waiting st)) as [[pp len]|] eqn:Ew; [|by apply good_core].
  destruct (ci_waiting st Hi _ _ _ Ew) as (Hu & Hn & Hf). cbv zeta. destruct ok.
  - destruct (commit_core opts now epoch st pp) as (_ & _ & H3 & _). subst uid.
    pose proof (fun st2 => good_commit opts now epoch st st2 pp Hi Hn Hf) as G. revert H3 G.
    destruct (commitPacket opts now epoch st pp) as [st' res]. cbn [fst snd]. intros H3 G. apply G; [reflexivity..|].
    unfold durable_done. cbn [waiting set_durable]. by rewrite H3.
  - destruct (reject_core now st (address_of (pp_route pp)) (Some uid) "replay journal unavailable") as [Hc (u' & r' & Hr)].
    destruct (reject now st _ _ _) as [st' res]. cbn [fst snd] in *. subst res.
    eapply good_after; [done|]. eapply good_done; [|done]. by eapply inv_core.
Qed.

Lemma settle_all_good opts now epoch l st : cursors_inv st ->
  let r := settle_all opts now epoch st l in good st r.1 r.2.
Proof.
  revert st; induction l as [|[p ok] l IH]; intros st Hi; [by apply good_core|]. cbn [settle_all].
  pose proof (settle_good opts now epoch st (pd_uid p) ok Hi) as H1. cbv zeta in H1.
  destruct (durable_settle opts now epoch st (pd_uid p) ok) as [st1 o1]. cbn [fst snd] in *.
  specialize (IH st1 (proj1 H1)). cbv zeta in IH. destruct (settle_all opts now epoch st1 l) as [st2 o2]. cbn [fst snd] in *.
  by eapply good_trans.
Qed.

(** What the store's own events do to its cursors and requests. *)
Definition store_grows (r r' : ReplayStore) : Prop :=
  (forall uid, om_get uid (Replay.cursors r') = om_get uid (Replay.cursors r) \/
     exists p, p ∈ pending r ++ in_flight r /\ pd_uid p = uid /\ om_get uid (Replay.cursors r') = Some (pd_cursor p)) /\
  (forall p, p ∈ pending r' ++ in_flight r' -> p ∈ pending r ++ in_flight r).

Lemma flush_failed_grows r b e : store_grows r (flush_failed r b e).1.
Proof. split; [by left|]. unfold in_flight. cbn. by intros p ?%not_elem_of_nil. Qed.

Lemma flush_start_grows ck io r : store_grows r (flush_start ck io r).1.
Proof.
  assert (forall r1 b e, Replay.cursors r1 = Replay.cursors r -> store_grows r (flush_failed r1 b e).1) as Hf.
  { intros r1 b e Hc. split; [left; cbn; by rewrite Hc|]. unfold in_flight. cbn. by intros p ?%not_elem_of_nil. }
  unfold flush_start. cbn [flushing pending]. destruct (_ || _) eqn:E; [by split; [by left|]|].
  apply orb_false_iff in E as [E _]. destruct (flushing r) eqn:Efl; [done|].
  destruct (checkHealth _); [|by apply Hf].
  match goal with |- context [if ?b then checkpoint ck ?s else ?t] => destruct (if b then checkpoint ck s else t) as [r1 res] eqn:E1 end.
  assert (Replay.cursors r1 = Replay.cursors r /\ pending r1 = [] /\ flushing r1 = Some (pending r)) as (H1 & H2 & H3).
  { revert E1. destruct (10000 <=? _); [destruct ck|]; cbn; intros [= <- <-]; done. }
  destruct res; [|by apply Hf]. destruct io; try by apply Hf. cbn [fst].
  split; [left; by rewrite <- H1|]. intros p. unfold in_flight. cbn [pending set_disk flushing]. rewrite H2, H3. cbn.
  intros Hp. apply elem_of_app. by left.
Qed.

Lemma commit_batch_get batch m uid :
  om_get uid (sn_cursors (commit_batch m batch)) = om_get uid (sn_cursors m) \/
  exists p, p ∈ batch /\ pd_uid p = uid /\ om_get uid (sn_cursors (commit_batch m batch)) = Some (pd_cursor p).
Proof.
  revert m; induction batch as [|p batch IH]; intros m; [by left|]. cbn [commit_batch fold_left].
  destruct (IH {| sn_cursors := om_set (pd_uid p) (pd_cursor p) (sn_cursors m);
       sn_commandSeq := match pd_commandSeq p with Some n => Z.max (sn_commandSeq m) n | None => sn_commandSeq m end |})
    as [E|(q & Hq & Hu & E)].
  - unfold commit_batch in E. rewrite E. cbn [sn_cursors]. rewrite om_get_set. case_bool_decide as Hu; [|by left].
    right. exists p. split_and!; [by left|done|done].
  - right. exists q. split_and!; [by right|done|done].
Qed.

Lemma flush_end_grows ok r : store_grows r (flush_end ok r).1.
Proof.
  unfold flush_end. destruct (flushing r) as [batch|] eqn:Efl; [|by split; [by left|]].
  destruct (negb ok); [apply flush_failed_grows|]. destruct (checkHealth r); [|apply flush_failed_grows]. cbn [fst].
  assert (in_flight r = batch) as Hif by (unfold in_flight; by rewrite Efl). unfold schedule.
  set (m := {| sn_cursors := Replay.cursors r; sn_commandSeq := commandSeq r |}).
  set (r1 := {| Replay.cursors := sn_cursors (commit_batch m batch) |}).
  assert (store_grows r r1) as Hg.
  { split.
    - intros uid. destruct (commit_batch_get batch m uid) as [E|(p & Hp & E)]; [by left|]. right. exists p.
      split; [|done]. apply elem_of_app. right. by rewrite Hif.
    - intros p. unfold in_flight at 1. cbn. rewrite app_nil_r. intros Hp. apply elem_of_app. by left. }
  by destruct (_ || _).
Qed.

Lemma store_grows_inv st r r' n : cursors_inv st -> replay st = Some r -> store_grows r r' ->
  cursors_inv (set_replay st (Some r') n).
Proof.
  intros [I1 I2 I3 I4 I5 I6] Hr [Hg Hp]. pose proof (I5 r Hr) as Hfl. constructor; try done.
  - intros uid b Hb. destruct (I4 uid b Hb) as (s & Hs & Hle). unfold saved_cursor in *. rewrite Hr in Hs. cbn in *.
    destruct (Hg uid) as [E|(p & Hin & Hu & E)]; [exists s; by rewrite E|].
    exists (pd_cursor p). split; [done|]. right. rewrite Forall_forall in Hfl. specialize (Hfl p Hin).
    rewrite Hu, Hb in Hfl. done.
  - intros store [= <-]. rewrite Forall_forall in *. intros p Hin. by apply Hfl, Hp.
Qed.

Lemma acceptAsync_spec r uid c n r' res : acceptAsync r uid c n = (r', res) ->
  Replay.cursors r' = Replay.cursors r /\ in_flight r' = in_flight r /\
  pending r' = match res with Ok _ => pending r ++ [{| pd_uid := uid; pd_cursor := c; pd_commandSeq := n |}] | Err _ => pending r end.
Proof.
  unfold acceptAsync. destruct (let! _ := checkHealth r in _) as [[]|e]; [|by intros [= <- <-]].
  intros [= <- <-]. unfold schedule, in_flight. by destruct (_ || _).
Qed.

Lemma store_event_good opts now epoch st f : cursors_inv st ->
  (forall r, store_grows r (f r).1) -> let r := store_event opts now epoch st f in good st r.1 r.2.
Proof.
  intros Hi Hf. unfold store_event. destruct (replay st) as [store|] eqn:E; [|by apply good_core].
  specialize (Hf store). destruct (f store) as [store' l]. cbn [fst] in Hf.
  pose proof (store_grows_inv st store store' (lastCommandSeq st) Hi E Hf) as Hi'.
  pose proof (settle_all_good opts now epoch l _ Hi') as H. cbv zeta in H.
  exact (good_trans _ _ _ [] _ (good_quiet _ (set_replay st (Some store') (lastCommandSeq st)) Hi' (fun _ => eq_refl)) H).
Qed.

Lemma arrive_good opts now st msg route : cursors_inv st ->
  let r := durable_arrive opts now st msg route in good st r.1 r.2.
Proof.
  intros Hi. unfold durable_arrive. destruct (prepare_core opts now st msg route) as [Hc Hr].
  destruct (prepare opts now st msg route) as [st1 [pp|res]]; cbn [fst snd] in *.
  - pose proof (inv_core _ _ Hc Hi) as Hi1. destruct (_ || _).
    + destruct (reject_core now st1 (address_of route) (Some (h_uid (p_header (pp_packet pp)))) "durable ingest queue full")
        as [Hc2 (u & e & Hr2)]. destruct (reject now st1 _ _ _) as [st2 res]. cbn [fst snd] in *. subst res.
      apply good_rejected, good_core; [done | by etrans].
    + cbn [fst snd]. eapply good_after; [done|]. apply good_quiet; [|done].
      apply inv_durable; [done|by left| |apply (ci_none _ Hi1)].
      intros uid l pp' len. rewrite om_get_set. case_bool_decide as Hu; [|apply (ci_queues _ Hi1)].
      intros [= <-]. rewrite elem_of_app, list_elem_of_singleton. intros [Hin|[= -> ->]]; [|done].
      destruct (om_get (h_uid (p_header (pp_packet pp))) (queues st1)) as [l'|] eqn:El; cbn in Hin; [|by apply not_elem_of_nil in Hin].
      rewrite Hu. by eapply (ci_queues _ Hi1).
  - destruct Hr as (u & e & ->). by apply good_rejected, good_core.
Qed.

Lemma turn_good now st uid : cursors_inv st -> let r := durable_admit now st uid in good st r.1 r.2.
Proof.
  intros Hi. unfold durable_admit. destruct (om_get uid (queues st)) as [[|[pp len] rest]|] eqn:Eq; try by apply good_core.
  destruct (om_has uid (waiting st)) eqn:Ew; [by apply good_core|].
  destruct (replay st) as [store|] eqn:Er; [|by apply good_core].
  assert (h_uid (p_header (pp_packet pp)) = uid) as Hu by (eapply (ci_queues _ Hi); [done | by left]).
  set (st1 := set_durable st _ _ _ _ _).
  assert (cursors_inv st1) as Hi1.
  { apply inv_durable; [done|by left| |apply (ci_none _ Hi)].
    intros u l pp' len'. rewrite om_get_set. case_bool_decide as E; [|apply (ci_queues _ Hi)].
    intros [= <-] Hin. subst u. eapply (ci_queues _ Hi); [done | by right]. }
  destruct (admit_core now st1 pp) as [Hc Hr]. rewrite Hu in Hr.
  destruct (admitPacket now st1 pp) as [st2 [res|]]; cbn [fst snd] in *.
  - destruct Hr as (u & e & ->). apply good_rejected, good_quiet; [by eapply done_inv, inv_core|].
    intros v. exact (sc_links _ _ Hc v).
  - pose proof (inv_core _ _ Hc Hi1) as Hi2. destruct Hr as [Hn Hs]. pose proof (floor_saved _ _ _ Hi1 Hs) as Hf.
    assert (replay st2 = Some store) as Er2 by (by rewrite (sc_replay _ _ Hc)).
    destruct (acceptAsync store uid (cursor_of (pp_packet pp)) (last_command (pp_packet pp))) as [store' ares] eqn:Ea.
    destruct (acceptAsync_spec _ _ _ _ _ _ Ea) as (E1 & E2 & E3).
    set (n := match last_command (pp_packet pp) with Some _ => _ | None => _ end).
    assert (cursors_inv (set_replay st2 (Some store') n)) as Hi3.
    { destruct Hi2 as [I1 I2 I3 I4 I5 I6]. constructor; try done.
      - intros u b Hb. destruct (I4 u b Hb) as (s & Es & Hle). exists s. split; [|done].
        unfold saved_cursor in *. rewrite Er2 in Es. cbn in *. by rewrite E1.
      - intros store0 [= <-]. specialize (I5 store Er2). rewrite E2, E3. destruct ares; [|done].
        rewrite <- app_assoc. rewrite Forall_app in *. destruct I5 as [A B]. split; [done|]. constructor; [done|done]. }
    assert (same_core st1 st2) as Hc12 by done.
    assert (forall u, link_cursor (set_replay st2 (Some store') n) u = link_cursor st u) as Hlk.
    { intros u. change (link_cursor (set_replay st2 (Some store') n) u) with (link_cursor st2 u). by rewrite (sc_links _ _ Hc12). }
    destruct ares as [|e]; cbn [fst snd].
    + apply good_quiet; [|done]. apply inv_durable; [done| |apply (ci_queues _ Hi3)|done].
      intros u pp' len'. rewrite om_get_set. case_bool_decide as E; [|by left].
      intros [= <- <-]. right. subst u. split_and!; [done| |done]. rewrite Hlk. done.
    + destruct (reject_core now (set_replay st2 (Some store') n) (address_of (pp_route pp)) (Some uid) "replay journal unavailable")
        as [Hc3 (u & e' & Hr3)]. destruct (reject now (set_replay st2 (Some store') n) _ _ _) as [st3 res].
      cbn [fst snd] in *. subst res. apply good_rejected. apply good_quiet.
      * apply done_inv. by eapply inv_core.
      * intros u'. change (link_cursor (durable_done st3 uid len) u') with (link_cursor st3 u').
        by rewrite (sc_links _ _ Hc3), Hlk.
Qed.

Lemma append_keeps ck io r line r' res : append ck io r line = (r', res) ->
  Replay.cursors r' = Replay.cursors r /\ pending r' = pending r /\ flushing r' = flushing r.
Proof.
  unfold append. destruct (checkHealth r); [|by intros [= <- <-]].
  destruct (if (match flushing r with None => _ | Some _ => false end) then _ else _) as [r1 e1] eqn:E.
  assert (Replay.cursors r1 = Replay.cursors r /\ pending r1 = pending r /\ flushing r1 = flushing r) as (H1 & H2 & H3).
  { revert E. destruct (match flushing r with None => _ | Some _ => false end); [destruct ck|]; by intros [= <- <-]. }
  destruct e1; [|by intros [= <- <-]]. destruct io; intros [= <- <-]; cbn; done.
Qed.

Lemma command_grows ck io r n : store_grows r (command ck io r n).1.
Proof.
  assert (store_grows r r) as Hrefl by (split; [by left | done]).
  unfold command. destruct (negb _); [done|]. destruct (checkHealth r); [|done]. destruct (n <=? commandSeq r); [done|].
  destruct (append ck io r (command_line n)) as [r' res] eqn:E. destruct (append_keeps _ _ _ _ _ _ E) as (H1 & H2 & H3).
  destruct res; cbn [fst]; split; unfold in_flight; cbn [Replay.cursors set_memory pending flushing]; rewrite ?H1, ?H2, ?H3; try done; by left.
Qed.

Lemma allocate_good now io st : cursors_inv st -> good st (allocateCommandSeq now io st).1 [].
Proof.
  intros Hi. unfold allocateCommandSeq. destruct (_ <? _); [by apply good_core|].
  destruct (replay st) as [r|] eqn:Er.
  - pose proof (command_grows (io_ck io) (io_write io) r (Z.max (now / 1000) (lastCommandSeq st + 1))) as Hg.
    destruct (command _ _ _ _) as [r' res]. cbn [fst] in Hg.
    destruct res; (apply good_quiet; [by eapply store_grows_inv | done]).
  - apply good_quiet; [|done]. eapply inv_core; [|done]. constructor; done.
Qed.

Lemma handle_good opts now epoch io1 io2 st msg route : replay st = None -> cursors_inv st ->
  let r := handle opts now epoch io1 io2 st msg route in good st r.1 [OResult r.2].
Proof.
  intros Hnone Hi. unfold handle. destruct (prepare_core opts now st msg route) as [Hc Hr].
  destruct (prepare opts now st msg route) as [st1 [pp|res]]; cbn [fst snd] in *.
  - pose proof (inv_core _ _ Hc Hi) as Hi1. destruct (admit_core now st1 pp) as [Hc2 Hr2].
    destruct (admitPacket now st1 pp) as [st2 [res|]]; cbn [fst snd] in *.
    + destruct Hr2 as (u & e & ->). apply good_rejected, good_core; [done | by etrans].
    + destruct Hr2 as [Hn Hs]. pose proof (floor_saved _ _ _ Hi1 Hs) as Hf.
      assert (replay st2 = None) as -> by (by rewrite (sc_replay _ _ Hc2), (sc_replay _ _ Hc)).
      assert (forall n, let r := commitPacket opts now epoch (set_replay st2 None n) pp in good st r.1 [OResult r.2]) as G.
      { intros n. assert (same_core st (set_replay st2 None n)) as Hc3.
        { etrans; [exact Hc|]. etrans; [exact Hc2|]. constructor; try done. cbn. by rewrite (sc_replay _ _ Hc2), (sc_replay _ _ Hc). }
        pose proof (inv_core _ _ Hc3 Hi) as Hi3.
        assert (waiting (set_replay st2 None n) = []) as Hw by (by apply (ci_none _ Hi3)).
        eapply good_after; [exact Hc3|].
        assert (forall u, link_cursor (set_replay st2 None n) u = link_cursor st1 u) as Hl.
        { intros u. change (link_cursor st2 u = link_cursor st1 u). apply (sc_links _ _ Hc2). }
        apply (good_commit opts now epoch (set_replay st2 None n)); [done|by rewrite Hl|done|done|done|done|].
        destruct (commit_core opts now epoch (set_replay st2 None n) pp) as (_ & _ & E & _). by rewrite E, Hw. }
      destruct (last_command (pp_packet pp)) as [n|]; [destruct (lastCommandSeq st2 <? n)|]; apply G.
  - destruct Hr as (u & e & ->). by apply good_rejected, good_core.
Qed.

Lemma drop_core st uid sid : same_core st (dropDirectRoute st uid sid).1.
Proof.
  unfold dropDirectRoute. destruct (om_get uid (links st)) as [k|] eqn:E; [|done].
  destruct (k_route k) as [[| |]|]; try done. case_bool_decide; [|done].
  constructor; [|done..]. by eapply link_cursor_same.
Qed.

Lemma step_good opts st env e : cursors_inv st -> let r := step opts st env e in good st r.1 r.2.
Proof.
  intros Hi. destruct e; cbn [step].
  - destruct (replay st) eqn:Er; [by apply arrive_good|].
    pose proof (handle_good opts (ev_now env) (ev_epoch env) (ev_io1 env) (ev_io2 env) st msg route Er Hi) as H.
    cbv zeta in H. destruct (handle _ _ _ _ _ _ _ _) as [st' r]. exact H.
  - by apply turn_good.
  - apply store_event_good; [done|]. intros r. apply flush_start_grows.
  - apply store_event_good; [done|]. intros r. apply flush_end_grows.
  - apply good_core; [done|]. apply drop_core.
  - by apply allocate_good.
  - apply good_core; [done|]. by constructor.
Qed.

Lemma run_good opts es st : cursors_inv st -> let r := run_events opts st es in good st r.1 r.2.
Proof.
  revert st; induction es as [|[env e] es IH]; intros st Hi; [by apply good_core|]. cbn [run_events].
  pose proof (step_good opts st env e Hi) as H. cbv zeta in H. destruct (step opts st env e) as [st1 o1]. cbn [fst snd] in H.
  specialize (IH st1 (proj1 H)). cbv zeta in IH. destruct (run_events opts st1 es) as [st2 o2]. cbn [fst snd] in *.
  by eapply good_trans.
Qed.
End monotone.

(** A listener that has just been constructed on a store, or on none.
    @edge/ingest.ts 155-171 constructor *)
Definition new_ingest (store : option ReplayStore) : Ingest :=
  {| links := []; rejectedSources := []; rejectReasons := []; packetTimes := []; bytesInWindow := []; rejectTimes := [];
     lastCommandSeq := match store with Some r => commandSeq r | None => 0 end; replay := store; queues := []; waiting := [];
     pendingNewNodes := []; durablePackets := 0; durableBytes := 0; closing := false |}.

(** C2: The replay rule. Start a listener on a store that was just opened (or on
    none), and let anything happen: datagrams from any transport in any order,
    durable writes that finish, fail or interleave between nodes, sessions that
    close, commands. The cursors accepted from one node form a strictly
    increasing chain that starts above the cursor the store had recorded: no
    packet is accepted twice, out of order, or again after a restart. *)
Theorem accepted_strictly_increase {C : Crypto} opts store es uid :
  match store with Some r => pending r = [] /\ in_flight r = [] | None => True end ->
  chain (saved_cursor (new_ingest store) uid) (accepted uid (run_events opts (new_ingest store) es).2).
Proof.
  intros Hq. set (floor := saved_cursor (new_ingest store)).
  assert (cursors_inv floor (new_ingest store)) as Hi.
  { constructor; try done.
    - intros u b Hb. exists b. by split; [|left].
    - intros r Hr. cbn in Hr. rewrite Hr in Hq. destruct Hq as [-> ->]. constructor. }
  destruct (run_good floor opts es _ Hi) as [_ H]. destruct (H uid) as (Hch & Hfl & _).
  change (link_cursor (new_ingest store) uid) with (@None Cursor) in Hch. fold (floor uid).
  destruct (accepted uid _) as [|x l]; [done|]. cbn [chain] in *. apply Forall_cons in Hfl as [Hx _].
  by split; [|apply Hch].
Qed.

(** ** Refusals *)

(** Where a node is reached and with what: everything a downlink depends on. *)
Definition link_view (k : NodeLink) : string * option Route * option Z * Z * Z :=
  (k_address k, k_route k, k_secureId k, k_boot k, k_seq k).
Definition view (st : Ingest) (uid : string) := link_view <$> om_get uid (links st).

Lemma view_set st uid k k' : om_get uid (links st) = Some k -> link_view k' = link_view k ->
  forall u, view (set_links st (om_set uid k' (links st))) u = view st u.
Proof.
  intros Hg Hv u. unfold view. cbn [links set_links]. rewrite om_get_set. case_bool_decide; [|done].
  subst. rewrite Hg. cbn. by rewrite Hv.
Qed.

Lemma bump_view uid st u : view (bump_rejected uid st) u = view st u.
Proof. unfold bump_rejected. destruct (om_get uid (links st)) eqn:E; [|done]. by eapply view_set. Qed.

Section refusals.
Context {C : Crypto}.

Lemma prepare_links opts now st msg route : links (prepare opts now st msg route).1 = links st.
Proof.
  unfold prepare. set (st1 := set_windows _ _ _ _). change (links st) with (links st1).
  destruct (parsePacket _ _ _); [|done]. by repeat (match goal with |- context [if ?b then _ else _] => destruct b end; try done).
Qed.

Lemma admit_view now st pp u : view (admitPacket now st pp).1 u = view st u.
Proof.
  unfold admitPacket.
  assert (forall s e, view (let '(s, r) := reject now s (address_of (pp_route pp)) (Some (h_uid (p_header (pp_packet pp)))) e
    in (s, Some r)).1 u = view s u) as Hr by done.
  destruct (cursor_for _ _).
  - destruct (stale _ _); [rewrite Hr; apply bump_view|]. destruct (pp_route pp); [done|done|].
    destruct (ss_admit _ _ _); [rewrite Hr; apply bump_view | done].
  - destruct (_ || _); [apply Hr|]. destruct (pp_route pp); [done|done|].
    destruct (ss_admit _ _ _); [rewrite Hr; apply bump_view | done].
Qed.

Lemma commit_rejected_view opts now epoch st pp st' u e v :
  commitPacket opts now epoch st pp = (st', Rejected u e) -> view st' v = view st v.
Proof. unfold commitPacket. destruct (match pp_route pp with RDirect _ _ => _ | _ => _ end); [|done]. by intros [= <- <- <-]. Qed.

(** A refused datagram changes nothing that matters. Whatever the reason
    (unauthenticated, replayed, wrong session, full table, store failure, closed
    session), every node keeps its address, route, key and cursor, and no node
    appears or disappears: only an accepted packet says where a node is. *)
Theorem refused_changes_no_route opts now epoch io1 io2 st msg route st' u e :
  handle opts now epoch io1 io2 st msg route = (st', Rejected u e) ->
  forall uid, view st' uid = view st uid.
Proof.
  unfold handle. intros H uid. pose proof (prepare_links opts now st msg route) as Hp.
  destruct (prepare opts now st msg route) as [st1 [pp|r]]; cbn [fst] in Hp.
  - assert (view st1 uid = view st uid) as <- by (unfold view; by rewrite Hp).
    pose proof (admit_view now st1 pp uid) as Ha. destruct (admitPacket now st1 pp) as [st2 [r|]]; cbn [fst] in Ha.
    + injection H as <- _. done.
    + rewrite <- Ha. clear Ha Hp. 
      repeat match type of H with
      | (let '(_, _) := ?x in _) = _ => destruct x
      | match ?x with _ => _ end = _ => destruct x
      end; first [ injection H as <- _ _; done | apply (commit_rejected_view _ _ _ _ _ _ _ _ uid) in H; done ].
  - injection H as <- _. unfold view. by rewrite Hp.
Qed.

(** Command sequence numbers. [allocateCommandSeq] hands out a number above
    every one handed out or observed before, not below the Unix second, inside 32
    bits, and recorded in the store before anybody sees it; when the store cannot
    record it, nothing is handed out and the high-water mark stays. *)
Theorem command_seq_increases now io st st' res :
  allocateCommandSeq now io st = (st', res) ->
  match res with
  | Ok n => lastCommandSeq st < n <= 4294967295 /\ now / 1000 <= n /\ lastCommandSeq st' = n /\
            match replay st' with Some r => 0 <= now -> n <= commandSeq r | None => True end
  | Err _ => lastCommandSeq st' = lastCommandSeq st
  end.
Proof.
  unfold allocateCommandSeq. set (n := Z.max (now / 1000) (lastCommandSeq st + 1)).
  destruct (Z.ltb_spec 4294967295 n) as [|Hn]; [by intros [= <- <-]|].
  destruct (replay st) as [r|]; [|intros [= <- <-]; cbn; split_and!; lia || done].
  destruct (command _ _ r n) as [r' [[]|e]] eqn:E; intros [= <- <-]; cbn; [|done].
  split_and!; try lia. intros _. unfold command in E. destruct (negb _); [done|].
  destruct (checkHealth r); [|done]. destruct (Z.leb_spec n (commandSeq r)); [injection E as <-; lia|].
  destruct (append _ _ r _) as [r1 [|]]; [injection E as <-; cbn; lia | done].
Qed.
End refusals.

(** ** Bounded tables *)

Definition bounded (st : Ingest) : Prop :=
  ((length (rejectReasons st) <= 128)%nat \/ (length (rejectReasons st) = 129%nat /\ om_has "other" (rejectReasons st) = true)) /\
  (length (rejectedSources st) <= 200)%nat /\
  (length (rejectTimes st) <= MAX_SAMPLES)%nat /\ (length (packetTimes st) <= MAX_SAMPLES)%nat /\
  (length (bytesInWindow st) <= MAX_SAMPLES)%nat.

Lemma cap_samples_length {A} (l : list A) x : (length l <= MAX_SAMPLES)%nat -> (length (cap_samples (l ++ [x])) <= MAX_SAMPLES)%nat.
Proof. intros H. exact (push_cap_length MAX_SAMPLES x l H). Qed.

Lemma cap_samples_drop {A} (f : A -> Z) cut (l : list A) x :
  (length l <= MAX_SAMPLES)%nat -> (length (cap_samples (drop_old f cut (l ++ [x]))) <= MAX_SAMPLES)%nat.
Proof.
  intros H. pose proof (drop_old_length f cut (l ++ [x])) as Hd. rewrite length_app in Hd. cbn [length] in Hd.
  unfold cap_samples. destruct (Nat.ltb_spec MAX_SAMPLES (length (drop_old f cut (l ++ [x])))); [|done].
  destruct (drop_old f cut (l ++ [x])); cbn in *; lia.
Qed.

Lemma om_has_keep {V} (k k' : string) (v : V) m : om_has k m = true -> om_has k (om_set k' v m) = true.
Proof. intros H. by rewrite om_has_set, H, orb_true_r. Qed.

Lemma reject_bounded now st a u r : bounded st -> bounded (reject now st a u r).1.
Proof.
  intros (H1 & H2 & H3 & H4 & H5). unfold bounded, reject.
  cbn [fst rejectReasons rejectedSources rejectTimes packetTimes bytesInWindow set_rejects].
  split_and!; [| |by apply cap_samples_length|done|done].
  - clear H2 H3 H4 H5. rewrite om_length_set. destruct (om_has r (rejectReasons st)) eqn:Er; cbn [orb].
    + rewrite Er. destruct H1 as [|[? ?]]; [by left|right]. split; [done|]. by apply om_has_keep.
    + destruct (Nat.ltb_spec (length (rejectReasons st)) 128) as [Hl|Hl].
      * rewrite Er. left. lia.
      * destruct (om_has "other" (rejectReasons st)) eqn:Eo.
        -- destruct H1 as [|[? ?]]; [by left|right]. split; [done|]. by apply om_has_keep.
        -- destruct H1 as [|[? ?]]; [|congruence]. right. split; [lia|]. unfold om_has. by rewrite om_get_set_eq.
  - set (key := a +:+ "|" +:+ default "-" u). destruct (om_get key (rejectedSources st)) as [x|] eqn:Ek.
    + rewrite om_length_set. unfold om_has. by rewrite Ek.
    + destruct (Nat.ltb_spec (length (rejectedSources st)) MAX_UNKNOWN_SOURCES) as [Hl|]; [|done].
      rewrite om_length_set. unfold om_has. rewrite Ek. change MAX_UNKNOWN_SOURCES with 200%nat in Hl. lia.
Qed.

Lemma trim_bounded now scope st : bounded st -> bounded (trim now scope st).
Proof.
  intros (H1 & H2 & H3 & H4 & H5). unfold trim.
  assert (bounded (set_windows st (drop_old id (now - WINDOW_MS) (packetTimes st))
    (drop_old fst (now - WINDOW_MS) (bytesInWindow st)) (drop_old id (now - WINDOW_MS) (rejectTimes st)))) as Hb.
  { unfold bounded. cbn. split_and!; [done|done|etrans; [apply drop_old_length|done]..]. }
  destruct scope; [done| |done]. destruct (om_get uid _); done.
Qed.

Section bounds.
Context {C : Crypto}.

Ltac keep_bounded :=
  repeat first
    [ progress cbn [fst snd]
    | apply reject_bounded | apply trim_bounded | assumption
    | match goal with
      | |- context [let '(_, _) := reject ?n ?s ?a ?u ?r in _] =>
          let H := fresh in assert (bounded (reject n s a u r).1) as H; [apply reject_bounded | destruct (reject n s a u r)]
      end ].

Lemma prepare_bounded opts now st msg route : bounded st -> bounded (prepare opts now st msg route).1.
Proof.
  intros (H1 & H2 & H3 & H4 & H5). unfold prepare. set (st1 := set_windows _ _ _ _).
  assert (bounded st1) as Hb.
  { unfold st1, bounded, trim. cbn. split_and!; [done|done| | |]; try by apply cap_samples_drop.
    etrans; [apply drop_old_length | done]. }
  clearbody st1. assert (forall u e, bounded (let '(s, r) := reject now st1 (address_of route) u e in (s, inr (A := PreparedPacket) r)).1) as Hr.
  { intros u e. keep_bounded. }
  destruct (parsePacket _ _ _); [|apply Hr].
  repeat (match goal with |- context [if ?b then _ else _] => destruct b end; try apply Hr). done.
Qed.

Lemma bump_bounded uid st : bounded st -> bounded (bump_rejected uid st).
Proof. intros H. unfold bump_rejected. by destruct (om_get _ _). Qed.

Lemma admit_bounded now st pp : bounded st -> bounded (admitPacket now st pp).1.
Proof.
  intros Hb. unfold admitPacket.
  assert (forall s e, bounded s -> bounded (let '(s, r) := reject now s (address_of (pp_route pp))
     (Some (h_uid (p_header (pp_packet pp)))) e in (s, Some r)).1) as Hr by (intros; by apply reject_bounded).
  pose proof (bump_bounded (h_uid (p_header (pp_packet pp))) st Hb) as Hb'.
  destruct (cursor_for _ _).
  - destruct (stale _ _); [by apply Hr|]. destruct (pp_route pp); [done|done|]. destruct (ss_admit _ _ _); [by apply Hr | done].
  - destruct (_ || _); [by apply Hr|]. destruct (pp_route pp); [done|done|]. destruct (ss_admit _ _ _); [by apply Hr | done].
Qed.

Lemma commit_bounded opts now epoch st pp : bounded st -> bounded (commitPacket opts now epoch st pp).1.
Proof.
  intros Hb. unfold commitPacket. destruct (match pp_route pp with RDirect _ _ => _ | _ => _ end); [by apply reject_bounded|].
  by apply trim_bounded.
Qed.

Lemma settle_bounded opts now epoch st uid ok : bounded st -> bounded (durable_settle opts now epoch st uid ok).1.
Proof.
  intros Hb. unfold durable_settle. destruct (om_get _ _) as [[pp len]|]; [|done]. destruct ok.
  - pose proof (commit_bounded opts now epoch st pp Hb). by destruct (commitPacket _ _ _ _ _).
  - pose proof (reject_bounded now st (address_of (pp_route pp)) (Some uid) "replay journal unavailable" Hb). by destruct (reject _ _ _ _ _).
Qed.

Lemma settle_all_bounded opts now epoch l st : bounded st -> bounded (settle_all opts now epoch st l).1.
Proof.
  revert st; induction l as [|[p ok] l IH]; intros st Hb; [done|]. cbn [settle_all].
  pose proof (settle_bounded opts now epoch st (pd_uid p) ok Hb) as H. destruct (durable_settle _ _ _ _ _ _) as [st1 o1].
  specialize (IH st1 H). by destruct (settle_all _ _ _ st1 l).
Qed.

Lemma handle_bounded opts now epoch io1 io2 st msg route : bounded st -> bounded (handle opts now epoch io1 io2 st msg route).1.
Proof.
  intros Hb. unfold handle. pose proof (prepare_bounded opts now st msg route Hb) as Hp.
  destruct (prepare _ _ _ _ _) as [st1 [pp|r]]; [|done]. cbn [fst] in Hp.
  pose proof (admit_bounded now st1 pp Hp) as Ha. destruct (admitPacket _ _ _) as [st2 [r|]]; [done|]. cbn [fst] in Ha.
  assert (forall r n, bounded (set_replay st2 r n)) as Hs by done.
  repeat match goal with
  | |- bounded (fst (let '(_, _) := ?x in _)) => destruct x
  | |- bounded (fst (match ?x with _ => _ end)) => destruct x
  end; first [apply reject_bounded | apply commit_bounded]; apply Hs.
Qed.

Lemma turn_bounded now st uid : bounded st -> bounded (durable_admit now st uid).1.
Proof.
  intros Hb. unfold durable_admit. destruct (om_get uid (queues st)) as [[|[pp len] rest]|]; try done.
  destruct (om_has _ _); [done|]. destruct (replay st) as [store|]; [|done].
  set (st1 := set_durable _ _ _ _ _ _). assert (bounded st1) as H1 by done.
  pose proof (admit_bounded now st1 pp H1) as Ha. destruct (admitPacket now st1 pp) as [st2 [r|]]; [done|]. cbn [fst] in Ha.
  destruct (acceptAsync _ _ _ _) as [store' [|e]]; [done|].
  set (st3 := set_replay _ _ _). assert (bounded st3) as H3 by done.
  pose proof (reject_bounded now st3 (address_of (pp_route pp)) (Some uid) "replay journal unavailable" H3) as Hr.
  by destruct (reject _ _ _ _ _).
Qed.

Lemma step_bounded opts st env e : bounded st -> bounded (step opts st env e).1.
Proof.
  intros Hb. destruct e; cbn [step].
  - destruct (replay st).
    + unfold durable_arrive. pose proof (prepare_bounded opts (ev_now env) st msg route Hb) as Hp.
      destruct (prepare _ _ _ _ _) as [st1 [pp|r']]; [|done]. cbn [fst] in Hp. destruct (_ || _); [|done].
      pose proof (reject_bounded (ev_now env) st1 (address_of route) (Some (h_uid (p_header (pp_packet pp)))) "durable ingest queue full" Hp) as Hr.
      by destruct (reject _ _ _ _ _).
    + pose proof (handle_bounded opts (ev_now env) (ev_epoch env) (ev_io1 env) (ev_io2 env) st msg route Hb) as H.
      by destruct (handle _ _ _ _ _ _ _ _).
  - by apply turn_bounded.
  - unfold store_event. destruct (replay st) as [r|]; [|done]. destruct (flush_start _ _ r). by apply settle_all_bounded.
  - unfold store_event. destruct (replay st) as [r|]; [|done]. destruct (flush_end _ r). by apply settle_all_bounded.
  - unfold dropDirectRoute. destruct (om_get _ _) as [k|]; [|done]. destruct (k_route k) as [[| |]|]; try done. by case_bool_decide.
  - unfold allocateCommandSeq. destruct (_ <? _); [done|]. destruct (replay st); [|done]. by destruct (command _ _ _ _) as [? [|]].
  - done.
Qed.

(** Unauthenticated traffic cannot grow the listener. After any sequence of
    events the diagnostic tables are bounded: at most 129 reject reasons, 200
    rejected sources and 10,000 samples in each of the three windows, whatever
    datagrams arrived and however fast. *)
Theorem diagnostics_bounded opts store es :
  let st := (run_events opts (new_ingest store) es).1 in
  (length (rejectReasons st) <= 129)%nat /\ (length (rejectedSources st) <= 200)%nat /\
  Z.of_nat (length (rejectTimes st)) <= 10000 /\ Z.of_nat (length (packetTimes st)) <= 10000 /\
  Z.of_nat (length (bytesInWindow st)) <= 10000.
Proof.
  assert (forall es st, bounded st -> bounded (run_events opts st es).1) as Hrun.
  { clear. intros es; induction es as [|[env e] es IH]; intros st Hb; [done|]. cbn [run_events].
    pose proof (step_bounded opts st env e Hb) as H. destruct (step opts st env e) as [st1 o1].
    specialize (IH st1 H). by destruct (run_events opts st1 es). }
  assert (bounded (new_ingest store)) as H0.
  { unfold bounded; cbn [new_ingest rejectReasons rejectedSources rejectTimes packetTimes bytesInWindow length].
    split_and!; [left|..]; lia. }
  intros st. destruct (Hrun es _ H0) as (H1 & H2 & H3 & H4 & H5). fold st in H1, H2, H3, H4, H5.
  assert (Z.of_nat MAX_SAMPLES = 10000) as HM by (vm_compute; done). split_and!; lia.
Qed.
End bounds.

(** ** Witnesses *)
Definition demo_opts : IngestOptions := {| op_verify := demo_verify; op_commandKey := Some demo_key |}.
Definition demo_io : StoreIO := {| io_ck := CkOk; io_write := WOk |}.
Definition demo_env (t : Z) : Env := {| ev_now := t; ev_epoch := replicate 16 1; ev_io1 := demo_io; ev_io2 := demo_io |}.
Definition demo_datagram (n : Z) : list Z :=
  match (@buildReport TestCrypto.crypto {| i_uid := uid_text demo_uid; i_boot := 3; i_seq := n; i_key := Some demo_key |}
           1000 demo_report).2 with Ok b => b | Err _ => [] end.
Definition demo_store : option ReplayStore :=
  match open_store None 10 CkOk CkOk with Ok r => Some r | Err _ => None end.
Definition demo_run : list (Env * Event) :=
  let uid := uid_text demo_uid in
  [(demo_env 5, EDatagram (demo_datagram 41) (RUdp "10.0.0.4"));
   (demo_env 6, EDatagram (demo_datagram 41) (RUdp "10.0.0.4"));
   (demo_env 7, EDatagram (demo_datagram 42) (RUdp "10.0.0.4"));
   (demo_env 8, ETurn uid); (demo_env 9, EStoreTimer demo_io); (demo_env 10, EStoreSynced true);
   (demo_env 11, ETurn uid); (demo_env 12, ETurn uid); (demo_env 13, EStoreTimer demo_io); (demo_env 14, EStoreSynced true)].

Lemma accepted_strictly_increase_witness :
  @accepted (uid_text demo_uid) (@run_events TestCrypto.crypto demo_opts (new_ingest demo_store) demo_run).2
    = [{| boot := 3; seq := 41 |}; {| boot := 3; seq := 42 |}] /\
  chain (saved_cursor (new_ingest demo_store) (uid_text demo_uid))
    (accepted (uid_text demo_uid) (@run_events TestCrypto.crypto demo_opts (new_ingest demo_store) demo_run).2).
Proof.
  split; [vm_compute; reflexivity|].
  apply (@accepted_strictly_increase TestCrypto.crypto demo_opts demo_store demo_run (uid_text demo_uid)).
  vm_compute. split; reflexivity.
Defined.

Definition demo_unsigned : list Z := demo_datagram 41 ++ [0].

Lemma refused_changes_no_route_witness :
  view (@handle TestCrypto.crypto demo_opts 5 [] demo_io demo_io (new_ingest None) demo_unsigned (RUdp "10.0.0.4")).1 (uid_text demo_uid)
  = view (new_ingest None) (uid_text demo_uid).
Proof.
  destruct (@handle TestCrypto.crypto demo_opts 5 [] demo_io demo_io (new_ingest None) demo_unsigned (RUdp "10.0.0.4")) as [st' r] eqn:E.
  apply (@refused_changes_no_route TestCrypto.crypto demo_opts 5 [] demo_io demo_io (new_ingest None) demo_unsigned (RUdp "10.0.0.4")
    st' (Some (uid_text demo_uid)) "length mismatch").
  rewrite E. f_equal. vm_compute in E. injection E as _ <-. vm_compute. reflexivity.
Defined.

Lemma command_seq_increases_witness : exists st',
  allocateCommandSeq 1700000000000 demo_io (new_ingest demo_store) = (st', Ok 1700000000) /\ lastCommandSeq st' = 1700000000.
Proof.
  destruct (allocateCommandSeq 1700000000000 demo_io (new_ingest demo_store)) as [st' res] eqn:E.
  assert (res = Ok 1700000000) as -> by (vm_compute in E; injection E as _ <-; reflexivity).
  exists st'. split; [reflexivity|].
  destruct (command_seq_increases 1700000000000 demo_io (new_ingest demo_store) st' (Ok 1700000000) E) as (_ & _ & H & _).
  exact H.
Defined.
