(* ===== verification/Rollout.v ===== *)
(** Staged firmware rollouts (src/edge/rollout.ts): one pilot first, the rest in
    batches only after it confirmed, everything stopped if it fails. A rollout
    is an object that the running rollouts and the history share; a node of it is named
    by the rollout's serial and its position. Asynchronous calls are
    continuations: what is left of [beginOnce] and [request] after an await is
    a constructor of [Cont], and an event resumes it. How a change that could
    not be committed is taken back is that of
    src/modules/rollouts/application/durable-rollout-service.ts. *)

From S2P Require Import Prelude.

(** @edge/rollout.ts 19-28 NodeUpdateState *)
Inductive NodeUpdateState :=
| Queued | Sending | Downloading | Verifying | Applying | Rebooting | Confirmed | Failed | Skipped.
#[export] Instance state_eq_dec : EqDecision NodeUpdateState.
Proof. solve_decision. Defined.

(** @edge/rollout.ts 30-30 TERMINAL *)
Definition TERMINAL : list NodeUpdateState := [Confirmed; Failed; Skipped].
Definition terminal (s : NodeUpdateState) : bool := includes s TERMINAL.

Definition state_text (s : NodeUpdateState) : string :=
  match s with
  | Queued => "queued" | Sending => "sending" | Downloading => "downloading" | Verifying => "verifying"
  | Applying => "applying" | Rebooting => "rebooting" | Confirmed => "confirmed" | Failed => "failed" | Skipped => "skipped"
  end.

(** A double quote. *)
Definition quote : string := String (Ascii.ascii_of_N 34) EmptyString.

Inductive Transport := TUdp | TGateway | TDirect.
#[export] Instance transport_eq_dec : EqDecision Transport.
Proof. solve_decision. Defined.

(** @edge/rollout.ts 32-44 NodeUpdate *)
Record NodeUpdate := {
  n_uid : string; n_label : string; n_floorId : option string; n_gatewayId : option string;
  n_transport : option Transport; n_state : NodeUpdateState; n_percent : Z; n_error : option string;
  n_startedAt : option Z; n_updatedAt : Z }.

Inductive Stage := SPilot | SRest | SDone | SStopped.
#[export] Instance stage_eq_dec : EqDecision Stage.
Proof. solve_decision. Defined.

Inductive RolloutTarget := TgAll | TgNode (uid : string) | TgFloor (floorId : string).

(** [r_serial] is the object's identity.
    @edge/rollout.ts 46-59 RolloutView *)
Record RolloutView := {
  r_serial : nat; r_id : string; r_buildId : string; r_version : string; r_target : RolloutTarget; r_startedBy : string;
  r_startedAt : Z; r_finishedAt : option Z; r_stage : Stage; r_note : string; r_nodes : list NodeUpdate }.

(** @edge/rollout.ts 61-76 RolloutNode *)
Record RolloutNode := {
  rn_uid : string; rn_label : string; rn_floorId : option string; rn_address : option string;
  rn_transport : option Transport; rn_online : bool; rn_encryptionRequired : bool }.

Record Image := { im_sha256 : string; im_size : Z; im_version : string }.

(** @edge/rollout.ts 94-103 RolloutTimings *)
Record RolloutTimings := { imageMs : Z; flashMs : Z; confirmMs : Z; batch : nat }.
(** @edge/rollout.ts 105-110 DEFAULT_TIMINGS *)
Definition DEFAULT_TIMINGS : RolloutTimings := {| imageMs := 120000; flashMs := 180000; confirmMs := 300000; batch := 3 |}.

(** What the dependencies answer during one event: the clock, the images, the
    nodes, whether a gateway takes the push, and whether a durable hook is set.
    @edge/rollout.ts 78-92 RolloutDeps *)
Record World := {
  w_now : Z; w_image : string -> option Image; w_nodes : list RolloutNode; w_sendImage : string -> bool;
  w_directPort : Z; w_hook : bool }.

(** What is left of an asynchronous call: the gateway push and the OTA request
    behind the durable hook, and the wait for the OTA to be written. *)
Inductive Cont :=
| KImage (serial i : nat) (gatewayId : string) (image : Image)
| KRequest (serial i : nat) (port : Z) (image : Image)
| KSend (serial i : nat).

(** What leaves the module: an image pushed, an OTA request, a revoked grant. *)
Inductive Out :=
| OImage (gatewayId buildId : string)
| OOta (uid : string) (port size : Z) (sha256 path : string)
| ONodeDone (uid : string).

(** @edge/rollout.ts 114-124 Rollouts *)
Record Rollouts := {
  active : option RolloutView; past : list RolloutView; gatewaysReady : list (string * Z); gatewaysAsked : list (string * Z);
  launching : list (nat * nat); awaitingDispatch : list (nat * nat); conts : list Cont; serials : nat }.

Section rollout.
Context (timings : RolloutTimings).

Definition with_active (st : Rollouts) (a : option RolloutView) (p : list RolloutView) : Rollouts :=
  {| active := a; past := p; gatewaysReady := gatewaysReady st; gatewaysAsked := gatewaysAsked st;
     launching := launching st; awaitingDispatch := awaitingDispatch st; conts := conts st; serials := serials st |}.
Definition with_gateways (st : Rollouts) (r a : list (string * Z)) : Rollouts :=
  {| active := active st; past := past st; gatewaysReady := r; gatewaysAsked := a;
     launching := launching st; awaitingDispatch := awaitingDispatch st; conts := conts st; serials := serials st |}.
Definition with_tasks (st : Rollouts) (l w : list (nat * nat)) (k : list Cont) : Rollouts :=
  {| active := active st; past := past st; gatewaysReady := gatewaysReady st; gatewaysAsked := gatewaysAsked st;
     launching := l; awaitingDispatch := w; conts := k; serials := serials st |}.

(** Write to the running rollout: the history holds the same object. *)
Definition write (st : Rollouts) (r : RolloutView) : Rollouts :=
  with_active st (Some r) (map (fun p => if Nat.eqb (r_serial p) (r_serial r) then r else p) (past st)).

Definition with_nodes (r : RolloutView) (ns : list NodeUpdate) : RolloutView :=
  {| r_serial := r_serial r; r_id := r_id r; r_buildId := r_buildId r; r_version := r_version r; r_target := r_target r;
     r_startedBy := r_startedBy r; r_startedAt := r_startedAt r; r_finishedAt := r_finishedAt r; r_stage := r_stage r;
     r_note := r_note r; r_nodes := ns |}.
Definition with_stage (r : RolloutView) (s : Stage) (note : string) : RolloutView :=
  {| r_serial := r_serial r; r_id := r_id r; r_buildId := r_buildId r; r_version := r_version r; r_target := r_target r;
     r_startedBy := r_startedBy r; r_startedAt := r_startedAt r; r_finishedAt := r_finishedAt r; r_stage := s;
     r_note := note; r_nodes := r_nodes r |}.
Definition with_finished (r : RolloutView) (t : option Z) : RolloutView :=
  {| r_serial := r_serial r; r_id := r_id r; r_buildId := r_buildId r; r_version := r_version r; r_target := r_target r;
     r_startedBy := r_startedBy r; r_startedAt := r_startedAt r; r_finishedAt := t; r_stage := r_stage r;
     r_note := r_note r; r_nodes := r_nodes r |}.

(** [error] is kept when none is given; an empty text is none.
    @edge/rollout.ts 427-434 set *)
Definition set_node (now : Z) (n : NodeUpdate) (s : NodeUpdateState) (error : option string) (percent : option Z) : NodeUpdate :=
  {| n_uid := n_uid n; n_label := n_label n; n_floorId := n_floorId n; n_gatewayId := n_gatewayId n;
     n_transport := n_transport n; n_state := s;
     n_percent := if bool_decide (s = Confirmed) then 100 else default (n_percent n) percent;
     n_error := match error with Some EmptyString | None => n_error n | e => e end;
     n_startedAt := n_startedAt n; n_updatedAt := now |}.

Definition done_out (s : NodeUpdateState) (uid : string) : list Out :=
  if bool_decide (s = Sending) || bool_decide (s = Downloading) then [] else [ONodeDone uid].

(** [this.set(node, ...)] on the node at [i] of the running rollout. *)
Definition set_at (w : World) (st : Rollouts) (i : nat) (s : NodeUpdateState) (error : option string) (percent : option Z) :
    Rollouts * list Out :=
  match active st with
  | None => (st, [])
  | Some r =>
      match r_nodes r !! i with
      | None => (st, [])
      | Some n => (write st (with_nodes r (<[i := set_node (w_now w) n s error percent]> (r_nodes r))), done_out s (n_uid n))
      end
  end.

Definition finished_stage (s : Stage) : bool := bool_decide (s = SDone) || bool_decide (s = SStopped).

(** @edge/rollout.ts 423-425 isCurrentNode *)
Definition isCurrentNode (st : Rollouts) (serial i : nat) : bool :=
  match active st with
  | Some r => Nat.eqb (r_serial r) serial && negb (finished_stage (r_stage r)) && Nat.ltb i (length (r_nodes r))
  | None => false
  end.

Definition node_state (st : Rollouts) (i : nat) : option NodeUpdateState :=
  active st ≫= (fun r => n_state <$> r_nodes r !! i).

(** @edge/rollout.ts 419-421 canDispatch *)
Definition canDispatch (st : Rollouts) (serial i : nat) (s : NodeUpdateState) : bool :=
  isCurrentNode st serial i && bool_decide (node_state st i = Some s).

Definition without (x : nat * nat) (l : list (nat * nat)) : list (nat * nat) :=
  List.filter (fun y => negb (bool_decide (y = x))) l.
Definition unlaunch (st : Rollouts) (serial i : nat) : Rollouts :=
  with_tasks st (without (serial, i) (launching st)) (awaitingDispatch st) (conts st).

(** The OTA request itself, once nothing stands before it.
    @edge/rollout.ts 406-410 request *)
Definition dispatch (st : Rollouts) (serial i : nat) (port : Z) (image : Image) : Rollouts * list Out :=
  let st := with_tasks st (launching st) (without (serial, i) (awaitingDispatch st)) (conts st) in
  if negb (canDispatch st serial i Sending) then (unlaunch st serial i, [])
  else match active st with
       | Some r =>
           match r_nodes r !! i with
           | Some n =>
               (with_tasks st (launching st) (awaitingDispatch st) (conts st ++ [KSend serial i]),
                [OOta (n_uid n) port (im_size image) (im_sha256 image) ("/fw/" +:+ r_buildId r +:+ ".bin")])
           | None => (st, [])
           end
       | None => (st, [])
       end.

Definition set_started (st : Rollouts) (i : nat) (s : option NodeUpdateState) (t : option Z) : Rollouts :=
  match active st with
  | Some r =>
      match r_nodes r !! i with
      | Some n =>
          write st (with_nodes r (<[i :=
            {| n_uid := n_uid n; n_label := n_label n; n_floorId := n_floorId n; n_gatewayId := n_gatewayId n;
               n_transport := n_transport n; n_state := default (n_state n) s; n_percent := n_percent n; n_error := n_error n;
               n_startedAt := t; n_updatedAt := n_updatedAt n |}]> (r_nodes r)))
      | None => st
      end
  | None => st
  end.

(** @edge/rollout.ts 392-408 request *)
Definition request (w : World) (st : Rollouts) (serial i : nat) (port : Z) (image : Image) : Rollouts * list Out :=
  if negb (canDispatch st serial i Queued) then (unlaunch st serial i, [])
  else
    let '(st, o1) := set_at w st i Sending None None in
    let st := set_started st i None (Some (w_now w)) in
    let st := with_tasks st (launching st) (awaitingDispatch st ++ [(serial, i)]) (conts st) in
    if w_hook w then (with_tasks st (launching st) (awaitingDispatch st) (conts st ++ [KRequest serial i port image]), o1)
    else let '(st, o2) := dispatch st serial i port image in (st, o1 ++ o2).

(** The push of the image to a gateway, behind the hook.
    @edge/rollout.ts 378-380 beginOnce *)
Definition push_image (w : World) (st : Rollouts) (serial i : nat) (gatewayId : string) (image : Image) : Rollouts * list Out :=
  if negb (canDispatch st serial i Queued) then (unlaunch st serial i, [])
  else
    let buildId := match active st with Some r => r_buildId r | None => EmptyString end in
    if w_sendImage w gatewayId then (unlaunch st serial i, [OImage gatewayId buildId])
    else let '(st, o) := set_at w st i Failed (Some ("gateway " +:+ gatewayId +:+ " is not connected")) None in
         (unlaunch st serial i, OImage gatewayId buildId :: o).

(** @edge/rollout.ts 354-390 beginOnce *)
Definition beginOnce (w : World) (st : Rollouts) (r : RolloutView) (i : nat) (n : NodeUpdate) : Rollouts * list Out :=
  let serial := r_serial r in
  match w_image w (r_buildId r) with
  | None => let '(st, o) := set_at w st i Failed (Some "the image is gone from this edge") None in (unlaunch st serial i, o)
  | Some image =>
      if bool_decide (n_transport n = Some TDirect) then request w st serial i 443 image
      else match n_gatewayId n with
           | Some g =>
               match om_get g (gatewaysReady st) with
               | Some port => request w st serial i port image
               | None =>
                   match om_get g (gatewaysAsked st) with
                   | None =>
                       let st := with_gateways st (gatewaysReady st) (om_set g (w_now w) (gatewaysAsked st)) in
                       if w_hook w
                       then (with_tasks st (launching st) (awaitingDispatch st) (conts st ++ [KImage serial i g image]), [])
                       else push_image w st serial i g image
                   | Some asked =>
                       if imageMs timings <? w_now w - asked
                       then let '(st, o) := set_at w st i Failed (Some ("gateway " +:+ g +:+ " never took the image")) None in
                            (unlaunch st serial i, o)
                       else (unlaunch st serial i, [])
                   end
               end
           | None => request w st serial i (w_directPort w) image
           end
  end.

(** Without a hook the node leaves [launching] as soon as the call returns.
    @edge/rollout.ts 345-352 begin *)
Definition begin (w : World) (st : Rollouts) (i : nat) : Rollouts * list Out :=
  match active st with
  | None => (st, [])
  | Some r =>
      if negb (canDispatch st (r_serial r) i Queued) || bool_decide ((r_serial r, i) ∈ launching st) then (st, [])
      else match r_nodes r !! i with
           | None => (st, [])
           | Some n =>
               let st := with_tasks st (launching st ++ [(r_serial r, i)]) (awaitingDispatch st) (conts st) in
               let '(st, o) := beginOnce w st r i n in
               (if w_hook w then st else unlaunch st (r_serial r) i, o)
           end
  end.

(** @edge/rollout.ts 436-442 finish *)
Definition finish (w : World) (st : Rollouts) : Rollouts :=
  match active st with
  | None => st
  | Some r =>
      let st := write st (with_finished r (Some (w_now w))) in
      with_active st (active st) (push_cap 20 (with_finished r (Some (w_now w))) (past st))
  end.

(** Do [f] to each of the positions, in order. *)
Fixpoint each (f : Rollouts -> nat -> Rollouts * list Out) (st : Rollouts) (ids : list nat) : Rollouts * list Out :=
  match ids with
  | [] => (st, [])
  | i :: ids' => let '(st, o1) := f st i in let '(st, o2) := each f st ids' in (st, o1 ++ o2)
  end.

Definition positions (st : Rollouts) : list nat :=
  match active st with Some r => List.seq 0 (length (r_nodes r)) | None => [] end.

Definition node_at (st : Rollouts) (i : nat) : option NodeUpdate := active st ≫= (fun r => r_nodes r !! i).

(** @edge/rollout.ts 296-305 tick *)
Definition timeout_node (w : World) (st : Rollouts) (i : nat) : Rollouts * list Out :=
  match node_at st i with
  | Some n =>
      match n_startedAt n with
      | Some t =>
          if terminal (n_state n) then (st, [])
          else
            let waited := w_now w - (if n_updatedAt n =? 0 then t else n_updatedAt n) in
            let rebooting := bool_decide (n_state n = Rebooting) in
            if (if rebooting then confirmMs timings else flashMs timings) <? waited
            then set_at w st i Failed (Some (if rebooting then "the node did not come back and confirm the new image"
                                             else "stuck in " +:+ quote +:+ state_text (n_state n) +:+ quote)) None
            else (st, [])
      | None => (st, [])
      end
  | None => (st, [])
  end.

(** A node that is not done and has been started. *)
Definition in_flight (n : NodeUpdate) : bool :=
  negb (terminal (n_state n)) && match n_startedAt n with Some _ => true | None => false end.
Definition flying (r : RolloutView) : nat := length (List.filter in_flight (r_nodes r)).

(** The batch loop, from position [i] on.
    @edge/rollout.ts 327-332 tick *)
Fixpoint fill_batch (w : World) (st : Rollouts) (inFlight : nat) (ids : list nat) : Rollouts * list Out :=
  match ids with
  | [] => (st, [])
  | i :: ids' =>
      if Nat.leb (batch timings) inFlight then (st, [])
      else if negb (bool_decide (node_state st i = Some Queued)) then fill_batch w st inFlight ids'
      else
        let '(st, o1) := begin w st i in
        let started := match node_at st i with Some n => match n_startedAt n with Some _ => true | None => false end | None => false end in
        let '(st, o2) := fill_batch w st (if started then S inFlight else inFlight) ids' in (st, o1 ++ o2)
  end.

Definition skip_node (w : World) (why : string) (st : Rollouts) (i : nat) : Rollouts * list Out :=
  match node_state st i with
  | Some s => if terminal s then (st, []) else set_at w st i Skipped (Some why) None
  | None => (st, [])
  end.

Definition restage (st : Rollouts) (s : Stage) (note : string) : Rollouts :=
  match active st with Some r => write st (with_stage r s note) | None => st end.

(** @edge/rollout.ts 309-321 tick *)
Definition tick_pilot (w : World) (st : Rollouts) (r : RolloutView) (pilot : NodeUpdate) : Rollouts * list Out :=
  match n_state pilot with
  | Queued => begin w st 0
  | Confirmed =>
      (if Nat.ltb 1 (length (r_nodes r)) then restage st SRest "pilot confirmed; updating the rest" else restage st SDone "done", [])
  | Failed =>
      let '(st, o) := each (skip_node w "pilot failed") st (List.tl (positions st)) in
      (restage st SStopped ("stopped: the pilot node failed (" +:+ default "unknown" (n_error pilot)
                            +:+ "). Every other node kept its firmware."), o)
  | _ => (st, [])
  end.

(** @edge/rollout.ts 323-333 tick *)
Definition tick_rest (w : World) (st : Rollouts) : Rollouts * list Out :=
  match active st with
  | Some r => if bool_decide (r_stage r = SRest) then fill_batch w st (flying r) (List.tl (positions st)) else (st, [])
  | None => (st, [])
  end.

(** @edge/rollout.ts 335-340 tick *)
Definition tick_done (w : World) (st : Rollouts) : Rollouts :=
  match active st with
  | Some r =>
      if negb (bool_decide (r_stage r = SStopped)) && forallb (fun n => terminal (n_state n)) (r_nodes r)
      then
        let ok := Z.of_nat (length (List.filter (fun n => bool_decide (n_state n = Confirmed)) (r_nodes r))) in
        finish w (write st (with_stage r SDone
          (show ok +:+ " of " +:+ show (Z.of_nat (length (r_nodes r))) +:+ " node(s) now run " +:+ r_version r)))
      else st
  | None => st
  end.

(** @edge/rollout.ts 291-341 tick *)
Definition tick (w : World) (st : Rollouts) : Rollouts * list Out :=
  match active st with
  | None => (st, [])
  | Some r =>
      if finished_stage (r_stage r) then (st, [])
      else
        let '(st, o1) := each (timeout_node w) st (positions st) in
        match active st ≫= (fun r => pair r <$> r_nodes r !! 0%nat) with
        | None => (st, o1)
        | Some (r, pilot) =>
            let '(st, o2) := if bool_decide (r_stage r = SPilot) then tick_pilot w st r pilot else (st, []) in
            let '(st, o3) := tick_rest w st in
            (tick_done w st, o1 ++ o2 ++ o3)
        end
  end.

(** ** Operations *)

(** @edge/rollout.ts 446-448 gatewayOf *)
Definition gatewayOf (address : option string) : option string :=
  match address with
  | None => None
  | Some a =>
      if starts_with "gw:" a then
        match split_on (Ascii.ascii_of_N 124) (String.string_of_list_ascii (drop 3 (chars a))) with
        | g :: _ :: _ => if bool_decide (g = EmptyString) then None else Some g
        | _ => None
        end
      else None
  end.

(** @edge/rollout.ts 168-181 select *)
Definition select (w : World) (target : RolloutTarget) : result string (list RolloutNode) :=
  throw_if match target with TgNode EmptyString | TgFloor EmptyString => true | _ => false end with "target must be all, a node uid, or a floorId" in
  let pick := match target with
              | TgAll => w_nodes w
              | TgNode uid => List.filter (fun n => bool_decide (rn_uid n = uid)) (w_nodes w)
              | TgFloor f => List.filter (fun n => bool_decide (rn_floorId n = Some f)) (w_nodes w)
              end in
  Ok (List.filter (fun n => rn_online n && bool_decide (is_Some (rn_address n)) && bool_decide (is_Some (rn_transport n))) pick).

(** [/^tmsense-(\d+)\.(\d+)(?:\.\d+)?$/], and at least 1.7.
    @edge/rollout.ts 192-193 start *)
Definition supportsEncryption (version : string) : bool :=
  starts_with "tmsense-" version &&
  match split_on (Ascii.ascii_of_N 46) (String.string_of_list_ascii (drop 8 (chars version))) with
  | major :: minor :: patch =>
      let digits s := Nat.ltb 0 (String.length s) && forallb is_digit (chars s) in
      let value s := digits_value (chars s) in
      digits major && digits minor && match patch with [] => true | [p] => digits p | _ => false end
      && ((1 <? value major) || ((value major =? 1) && (7 <=? value minor)))
  | _ => false
  end.

(** [n.toString(36)] for a non-negative integer. *)
Fixpoint base36_digits (fuel : nat) (n : Z) (acc : list Ascii.ascii) : list Ascii.ascii :=
  match fuel with
  | O => acc
  | S fuel' =>
      let d := n mod 36 in
      let c := Ascii.ascii_of_N (Z.to_N (if d <? 10 then 48 + d else 87 + d)) in
      if n <? 36 then c :: acc else base36_digits fuel' (n / 36) (c :: acc)
  end.
Definition base36 (n : Z) : string := String.string_of_list_ascii (base36_digits 64 n []).

Definition queued_node (at_ : Z) (n : RolloutNode) : NodeUpdate :=
  {| n_uid := rn_uid n; n_label := rn_label n; n_floorId := rn_floorId n;
     n_gatewayId := if bool_decide (rn_transport n = Some TGateway) then gatewayOf (rn_address n) else None;
     n_transport := rn_transport n; n_state := Queued; n_percent := 0; n_error := None; n_startedAt := None; n_updatedAt := at_ |}.

(** @edge/rollout.ts 183-226 start *)
Definition start (w : World) (st : Rollouts) (buildId : string) (target : RolloutTarget) (by_ : string) (deferDispatch : bool) :
    result string (Rollouts * list Out) :=
  throw_if negb (Nat.eqb (String.length buildId) 16 && forallb is_hex_lower (chars buildId)) with "invalid build id" in
  throw_if match active st with Some r => negb (finished_stage (r_stage r)) | None => false end with "an update is already running" in
  let! image := of_option ("build " +:+ buildId +:+ " has no image") (w_image w buildId) in
  let! chosen := select w target in
  throw_if Nat.eqb (length chosen) 0 with "no node matches that target, or none is online" in
  throw_if negb (supportsEncryption (im_version image)) && existsb rn_encryptionRequired chosen
    with "encrypted nodes require reviewed tmsense-1.7 or newer firmware; plaintext downgrade refused" in
  let r := {| r_serial := serials st; r_id := "roll-" +:+ base36 (w_now w); r_buildId := buildId; r_version := im_version image;
              r_target := target; r_startedBy := by_; r_startedAt := w_now w; r_finishedAt := None; r_stage := SPilot;
              r_note := if Nat.eqb (length chosen) 1 then "one node"
                        else match chosen with n :: _ => rn_label n | [] => "first node" end
                             +:+ " goes first; the rest follow if it comes back healthy";
              r_nodes := map (queued_node (w_now w)) chosen |} in
  let st := {| active := Some r; past := past st; gatewaysReady := []; gatewaysAsked := []; launching := launching st;
               awaitingDispatch := awaitingDispatch st; conts := conts st; serials := S (serials st) |} in
  Ok (if deferDispatch then (st, []) else tick w st).

Definition cancel_node (w : World) (st : Rollouts) (i : nat) : Rollouts * list Out :=
  match active st with
  | Some r =>
      if bool_decide (node_state st i = Some Queued) || bool_decide ((r_serial r, i) ∈ awaitingDispatch st)
      then set_at w st i Skipped (Some "cancelled") None else (st, [])
  | None => (st, [])
  end.

(** @edge/rollout.ts 229-237 cancel *)
Definition cancel (w : World) (st : Rollouts) (by_ : string) : Rollouts * list Out :=
  match active st with
  | None => (st, [])
  | Some r =>
      if finished_stage (r_stage r) then (st, [])
      else
        let '(st, o) := each (cancel_node w) st (positions st) in
        (finish w (restage st SStopped ("cancelled by " +:+ by_)), o)
  end.

Definition refuse_node (w : World) (gatewayId : string) (error : option string) (st : Rollouts) (i : nat) : Rollouts * list Out :=
  match node_at st i with
  | Some n =>
      if bool_decide (n_gatewayId n = Some gatewayId) && negb (terminal (n_state n))
      then set_at w st i Failed (Some ("gateway: " +:+ default "refused the image" error)) None else (st, [])
  | None => (st, [])
  end.

(** @edge/rollout.ts 240-252 onImageReady *)
Definition onImageReady (w : World) (st : Rollouts) (gatewayId id : string) (ok : bool) (error : option string) (port : Z) : Rollouts * list Out :=
  match active st with
  | None => (st, [])
  | Some r =>
      if finished_stage (r_stage r) || negb (bool_decide (id = r_buildId r)) then (st, [])
      else
        let '(st, o1) :=
          if ok then (with_gateways st (om_set gatewayId port (gatewaysReady st)) (gatewaysAsked st), [])
          else each (refuse_node w gatewayId error) st (positions st) in
        let '(st, o2) := tick w st in (st, o1 ++ o2)
  end.

(** The position of the first node with that uid. *)
Fixpoint find_uid (uid : string) (i : nat) (ns : list NodeUpdate) : option (nat * NodeUpdate) :=
  match ns with
  | [] => None
  | n :: ns' => if bool_decide (n_uid n = uid) then Some (i, n) else find_uid uid (S i) ns'
  end.

(** What a reported state does to the node.
    @edge/rollout.ts 262-286 onOtaStatus *)
Definition ota_effect (w : World) (st : Rollouts) (i : nat) (state error : string) (percent : Z) : Rollouts * list Out :=
  if bool_decide (state = "downloading") then set_at w st i Downloading None (Some percent)
  else if bool_decide (state = "verifying") then set_at w st i Verifying None (Some 100)
  else if bool_decide (state = "applying") then set_at w st i Applying None (Some 100)
  else if bool_decide (state = "rebooting") then set_at w st i Rebooting None (Some 100)
  else if bool_decide (state = "confirmed") then set_at w st i Confirmed None (Some 100)
  else if bool_decide (state = "reverted")
  then set_at w st i Failed (Some "the new image did not come up; the node went back to the old one") None
  else if bool_decide (state = "failed") then set_at w st i Failed (Some ("node reported " +:+ error)) None
  else (st, []).

(** @edge/rollout.ts 255-288 onOtaStatus *)
Definition onOtaStatus (w : World) (st : Rollouts) (uid state error image : string) (percent : Z) : Rollouts * list Out :=
  match active st with
  | None => (st, [])
  | Some r =>
      match find_uid uid 0 (r_nodes r) with
      | None => (st, [])
      | Some (i, n) =>
          if bool_decide (r_stage r = SDone) || negb (bool_decide (is_Some (n_startedAt n))) || terminal (n_state n) then (st, [])
          else if negb (bool_decide (image = String.substring 0 8 (r_buildId r))) then (st, [])
          else
            let '(st, o1) := ota_effect w st i state error percent in
            let '(st, o2) := tick w st in (st, o1 ++ o2)
      end
  end.

(** @edge/rollout.ts 149-154 wantsDownload *)
Definition wantsDownload (st : Rollouts) (uid buildId : string) : bool :=
  match active st with
  | None => false
  | Some r =>
      bool_decide (r_buildId r = buildId) && negb (finished_stage (r_stage r)) &&
      match find_uid uid 0 (r_nodes r) with
      | Some (_, n) => bool_decide (n_state n = Sending) || bool_decide (n_state n = Downloading)
      | None => false
      end
  end.

(** @edge/rollout.ts 139-141 pendingDispatchUids *)
Definition pendingDispatchUids (st : Rollouts) : list string :=
  match active st with
  | None => []
  | Some r => (positions st) ≫= (fun i => if bool_decide ((r_serial r, i) ∈ awaitingDispatch st)
                                         then match r_nodes r !! i with Some n => [n_uid n] | None => [] end else [])
  end.

(** [restore] hands over fresh objects, each with a serial of its own.
    @edge/rollout.ts 158-165 restore *)
Definition restore (st : Rollouts) (current : option RolloutView) (history : list RolloutView) : Rollouts :=
  let fresh := S (length history) in
  let number i r := {| r_serial := serials st + i; r_id := r_id r; r_buildId := r_buildId r; r_version := r_version r;
                       r_target := r_target r; r_startedBy := r_startedBy r; r_startedAt := r_startedAt r;
                       r_finishedAt := r_finishedAt r; r_stage := r_stage r; r_note := r_note r; r_nodes := r_nodes r |} in
  {| active := number 0%nat <$> current;
     past := drop (length history - 20) (imap (fun i r => number (S i) r) history);
     gatewaysReady := []; gatewaysAsked := []; launching := []; awaitingDispatch := []; conts := conts st;
     serials := serials st + fresh |}.

(** @modules/rollouts/application/durable-rollout-service.ts 9-13 RolloutSnapshot *)
Record RolloutSnapshot := { sp_current : option RolloutView; sp_history : list RolloutView; sp_pending : list string }.
(** @modules/rollouts/application/durable-rollout-service.ts 139-146 viewSnapshot *)
Definition viewSnapshot (st : Rollouts) : RolloutSnapshot := {| sp_current := active st; sp_history := past st; sp_pending := pendingDispatchUids st |}.

(** A request that has not left is queued again.
    @modules/rollouts/application/durable-rollout-service.ts 151-156 restore *)
Definition requeue (pending : list string) (n : NodeUpdate) : NodeUpdate :=
  if bool_decide (n_state n = Sending) && bool_decide (n_uid n ∈ pending)
  then {| n_uid := n_uid n; n_label := n_label n; n_floorId := n_floorId n; n_gatewayId := n_gatewayId n; n_transport := n_transport n;
          n_state := Queued; n_percent := n_percent n; n_error := n_error n; n_startedAt := None; n_updatedAt := n_updatedAt n |}
  else n.
(** What could not be committed is taken back: the state of a snapshot.
    @modules/rollouts/application/durable-rollout-service.ts 148-158 restore *)
Definition rollback (st : Rollouts) (snapshot : RolloutSnapshot) : Rollouts :=
  restore st ((fun r => with_nodes r (map (requeue (sp_pending snapshot)) (r_nodes r))) <$> sp_current snapshot) (sp_history snapshot).

(** A continuation resumes: the hook, or the OTA write, settled.
    @edge/rollout.ts 372-416 request *)
Definition resume (w : World) (st : Rollouts) (k : Cont) (ok : bool) (error : string) : Rollouts * list Out :=
  match k with
  | KImage serial i g image =>
      if ok then push_image w st serial i g image
      else
        let st := if canDispatch st serial i Queued
                  then with_gateways st (gatewaysReady st) (om_del g (gatewaysAsked st)) else st in
        (unlaunch st serial i, [])
  | KRequest serial i port image =>
      if ok then dispatch st serial i port image
      else
        let st := if canDispatch st serial i Sending then set_started st i (Some Queued) None else st in
        (with_tasks st (without (serial, i) (launching st)) (without (serial, i) (awaitingDispatch st)) (conts st), [])
  | KSend serial i =>
      let st := unlaunch st serial i in
      if ok then (st, [])
      else if isCurrentNode st serial i && negb (match node_state st i with Some s => terminal s | None => true end)
      then let '(st, o1) := set_at w st i Failed (Some error) None in
           let '(st, o2) := tick w st in (st, o1 ++ o2)
      else (st, [])
  end.

Inductive Event :=
| EStart (buildId : string) (target : RolloutTarget) (by_ : string) (deferDispatch : bool)
| ECancel (by_ : string)
| EImageReady (gatewayId id : string) (ok : bool) (error : option string) (port : Z)
| EOtaStatus (uid state error image : string) (percent : Z)
| ETick
| EResume (j : nat) (ok : bool) (error : string).

Definition step (w : World) (st : Rollouts) (e : Event) : Rollouts * list Out :=
  match e with
  | EStart b t u d => match start w st b t u d with Ok r => r | Err _ => (st, []) end
  | ECancel u => cancel w st u
  | EImageReady g id ok err port => onImageReady w st g id ok err port
  | EOtaStatus uid s err im pct => onOtaStatus w st uid s err im pct
  | ETick => tick w st
  | EResume j ok err =>
      match conts st !! j with
      | Some k => resume w (with_tasks st (launching st) (awaitingDispatch st) (delete j (conts st))) k ok err
      | None => (st, [])
      end
  end.

End rollout.

(** ** Pilot first, and a batch at a time *)

(** Not touched yet, or given up before it was. *)
Definition idle (n : NodeUpdate) : Prop := n_startedAt n = None /\ (n_state n = Queued \/ terminal (n_state n) = true).

Definition pilot_confirmed (r : RolloutView) : Prop := exists p, r_nodes r !! 0%nat = Some p /\ n_state p = Confirmed.

Section safety.
Context (timings : RolloutTimings).

Record rinv (r : RolloutView) : Prop := {
  ri_pilot i n : r_stage r = SPilot -> r_nodes r !! S i = Some n -> idle n;
  ri_rest : r_stage r = SRest -> pilot_confirmed r;
  ri_flying : (flying r <= Nat.max 1 (batch timings))%nat;
  ri_batch : r_stage r = SRest -> (flying r <= batch timings)%nat;
}.

Definition inv (st : Rollouts) : Prop := forall r, active st = Some r -> rinv r.

(** A request goes to the pilot, or the pilot is confirmed. *)
Definition out_ok (st : Rollouts) (o : Out) : Prop :=
  match o with
  | OOta uid _ _ _ _ => exists r, active st = Some r /\
      ((exists p, r_nodes r !! 0%nat = Some p /\ n_uid p = uid) \/ pilot_confirmed r)
  | _ => True
  end.

Definition count {A} (f : A -> bool) (l : list A) : nat := length (List.filter f l).

Lemma count_insert {A} (f : A -> bool) l i x y : l !! i = Some x ->
  (count f (<[i := y]> l) + (if f x then 1 else 0) = count f l + (if f y then 1 else 0))%nat.
Proof.
  unfold count. revert i; induction l as [|z l IH]; intros [|i]; try done.
  - intros [= ->]. cbn. destruct (f x), (f y); cbn; lia.
  - intros H. specialize (IH i H). change (<[S i := y]> (z :: l)) with (z :: <[i := y]> l). cbn [List.filter].
    destruct (f z); cbn [length]; lia.
Qed.

Lemma rinv_update r i n n' :
  rinv r -> r_nodes r !! i = Some n ->
  (in_flight n' = true -> in_flight n = true) ->
  (idle n -> idle n') -> (n_state n = Confirmed -> n_state n' = Confirmed) ->
  rinv (with_nodes r (<[i := n']> (r_nodes r))).
Proof.
  intros [H1 H2 H3 H4] Hn Hf Hi Hc.
  assert (flying (with_nodes r (<[i := n']> (r_nodes r))) <= flying r)%nat as Hfl.
  { pose proof (count_insert in_flight (r_nodes r) i n n' Hn) as E. unfold flying, count in *. cbn [r_nodes with_nodes].
    destruct (in_flight n'); [rewrite Hf in E by done|destruct (in_flight n)]; lia. }
  constructor; cbn [r_stage with_nodes r_nodes].
  - intros j m Hs. destruct (decide (i = S j)) as [->|Hne].
    + rewrite list_lookup_insert_eq by (by eapply lookup_lt_Some). intros [= <-]. by apply Hi, (H1 j).
    + rewrite list_lookup_insert_ne by done. by apply H1.
  - intros Hs. destruct (H2 Hs) as (p & Hp & Hpc). unfold pilot_confirmed. cbn [r_nodes with_nodes]. destruct (decide (i = 0%nat)) as [->|Hne].
    + exists n'. rewrite list_lookup_insert_eq by (by eapply lookup_lt_Some). split; [done|]. apply Hc. congruence.
    + exists p. by rewrite list_lookup_insert_ne.
  - lia.
  - intros Hs. specialize (H4 Hs). lia.
Qed.

Lemma out_ok_mono st st' r r' o : active st = Some r -> active st' = Some r' ->
  (forall p, r_nodes r !! 0%nat = Some p -> exists p', r_nodes r' !! 0%nat = Some p' /\ n_uid p' = n_uid p /\
     (n_state p = Confirmed -> n_state p' = Confirmed)) ->
  out_ok st o -> out_ok st' o.
Proof.
  intros Hr Hr' Hp. destruct o; try done. intros (r0 & E & Ho). rewrite Hr in E. injection E as <-.
  exists r'. split; [done|]. destruct Ho as [(p & H1 & H2)|(p & H1 & H2)]; destruct (Hp p H1) as (p' & A & B & D).
  - left. exists p'. split; [done | congruence].
  - right. exists p'. auto.
Qed.

(** *** Writing one node *)

(** [st'] is [st] with node [i] of the running rollout replaced. *)
Definition wrote (st st' : Rollouts) (r : RolloutView) (i : nat) (n' : NodeUpdate) : Prop :=
  active st' = Some (with_nodes r (<[i := n']> (r_nodes r))).

Lemma set_at_spec w st r i n s e p : active st = Some r -> r_nodes r !! i = Some n ->
  wrote st (set_at w st i s e p).1 r i (set_node (w_now w) n s e p) /\ Forall (fun o => out_ok st o) (set_at w st i s e p).2 /\
  awaitingDispatch (set_at w st i s e p).1 = awaitingDispatch st.
Proof.
  intros Hr Hn. unfold set_at. rewrite Hr, Hn. split_and!; [done| |done]. unfold done_out. cbn. destruct (_ || _); repeat constructor.
Qed.

Lemma set_at_inv w st i s e p r n : inv st -> active st = Some r -> r_nodes r !! i = Some n ->
  terminal (n_state n) = false -> (terminal s = true \/ is_Some (n_startedAt n)) ->
  inv (set_at w st i s e p).1.
Proof.
  intros Hi Hr Hn Ht Hs. destruct (set_at_spec w st r i n s e p Hr Hn) as (Hw & _ & _). intros r' Hr'. rewrite Hw in Hr'. injection Hr' as <-.
  eapply rinv_update; [by apply Hi|done|..].
  - unfold in_flight. rewrite Ht. cbn. destruct (n_startedAt n); [done|]. destruct Hs as [->|[x [=]]]. done.
  - intros [Hst _]. destruct Hs as [Hs|[x Hx]]; [|congruence]. split; [done|]. by right.
  - intros E. rewrite E in Ht. done.
Qed.

(** Fields beside the running rollout do not matter. *)
Lemma inv_active st st' : active st' = active st -> inv st -> inv st'.
Proof. unfold inv. by intros ->. Qed.
Lemma out_ok_active st st' o : active st' = active st -> out_ok st o -> out_ok st' o.
Proof. intros E. destruct o; try done. cbn. by rewrite E. Qed.

(** A sequence of writes that leaves the rollout's order, stage and pilot alone. *)
Definition keeps (st st' : Rollouts) : Prop :=
  match active st with
  | None => active st' = None
  | Some r => exists r', active st' = Some r' /\ r_stage r' = r_stage r /\ r_serial r' = r_serial r /\
      length (r_nodes r') = length (r_nodes r) /\
      forall i n, r_nodes r !! i = Some n -> exists n', r_nodes r' !! i = Some n' /\ n_uid n' = n_uid n /\
        (n_state n = Confirmed -> n_state n' = Confirmed)
  end.

#[local] Instance keeps_refl : Reflexive keeps.
Proof. intros st. unfold keeps. destruct (active st); [|done]. eexists. split_and!; eauto. Qed.
#[local] Instance keeps_trans : Transitive keeps.
Proof.
  intros a b c. unfold keeps. destruct (active a) as [r|]; [|by intros ->].
  intros (r1 & -> & A1 & A2 & A3 & A4) (r2 & -> & B1 & B2 & B3 & B4). exists r2. split_and!; try congruence.
  intros i n Hn. destruct (A4 i n Hn) as (n1 & H1 & U1 & C1). destruct (B4 i n1 H1) as (n2 & H2 & U2 & C2).
  exists n2. split_and!; [done|congruence|auto].
Qed.

Lemma keeps_active st st' : active st' = active st -> keeps st st'.
Proof. intros E. unfold keeps. rewrite E. destruct (active st); [|done]. eexists. split_and!; eauto. Qed.

Lemma keeps_wrote st st' r i n n' : active st = Some r -> r_nodes r !! i = Some n -> wrote st st' r i n' ->
  n_uid n' = n_uid n -> (n_state n = Confirmed -> n_state n' = Confirmed) -> keeps st st'.
Proof.
  intros Hr Hn Hw Hu Hc. unfold keeps. rewrite Hr, Hw. eexists. split; [done|]. cbn. split_and!; [done..|by rewrite length_insert|].
  intros j m Hj. destruct (decide (i = j)) as [->|Hne].
  - exists n'. rewrite list_lookup_insert_eq by (by eapply lookup_lt_Some). rewrite Hj in Hn. injection Hn as <-. done.
  - exists m. by rewrite list_lookup_insert_ne.
Qed.

Lemma out_ok_keeps st st' o : keeps st st' -> out_ok st o -> out_ok st' o.
Proof.
  unfold keeps. destruct o; try done. intros Hk (r & Hr & Ho). rewrite Hr in Hk. destruct Hk as (r' & Hr' & _ & _ & _ & Hp).
  eapply (out_ok_mono st st' r r' (OOta uid port size sha256 path)); [done|done|apply Hp|by exists r].
Qed.

(** What an operation promises. *)
Definition good (st st' : Rollouts) (os : list Out) : Prop := inv st' /\ Forall (out_ok st') os.

Lemma good_seq st1 st2 st3 o1 o2 : good st1 st2 o1 -> keeps st2 st3 -> good st2 st3 o2 -> good st1 st3 (o1 ++ o2).
Proof.
  intros [_ H1] Hk [H2 H3]. split; [done|]. apply Forall_app. split; [|done].
  eapply Forall_impl; [exact H1|]. intros o. by apply out_ok_keeps.
Qed.


(** *** Starting one node *)

Definition began (n n' : NodeUpdate) : Prop :=
  n' = n \/ (n_state n = Queued /\ n_uid n' = n_uid n /\
    ((n_state n' = Failed /\ n_startedAt n' = n_startedAt n) \/ (n_state n' = Sending /\ is_Some (n_startedAt n')))).

Definition ota_for (uid : string) (o : Out) : Prop := match o with OOta u _ _ _ _ => u = uid | _ => True end.

Lemma done_out_for s u uid : Forall (ota_for uid) (done_out s u).
Proof. unfold done_out. destruct (_ || _); repeat constructor. Qed.

Lemma wrote_same st st' r i n : active st' = Some r -> r_nodes r !! i = Some n -> wrote st st' r i n.
Proof. intros H Hn. unfold wrote. rewrite H, list_insert_id by done. by destruct r. Qed.

Lemma dispatch_spec st serial i port image r n : active st = Some r -> r_nodes r !! i = Some n ->
  active (dispatch st serial i port image).1 = Some r /\ Forall (ota_for (n_uid n)) (dispatch st serial i port image).2 /\
  (canDispatch st serial i Sending = false -> (dispatch st serial i port image).2 = []).
Proof.
  intros Hr Hn. unfold dispatch. set (st1 := with_tasks _ _ _ _).
  change (canDispatch st1 serial i Sending) with (canDispatch st serial i Sending).
  destruct (canDispatch st serial i Sending) eqn:E; cbn [negb]; [|by split_and!].
  change (active st1) with (active st). rewrite Hr, Hn. cbn. split_and!; [done| |done]. by repeat constructor.
Qed.

Lemma canDispatch_node st serial i s r n : active st = Some r -> r_nodes r !! i = Some n ->
  canDispatch st serial i s = true -> n_state n = s /\ r_serial r = serial /\ finished_stage (r_stage r) = false.
Proof.
  intros Hr Hn. unfold canDispatch, isCurrentNode, node_state. rewrite Hr. cbn. rewrite Hn. cbn.
  intros [[[H1 H2]%andb_true_iff _]%andb_true_iff H3%bool_decide_eq_true]%andb_true_iff.
  apply Nat.eqb_eq in H1. apply negb_true_iff in H2. split_and!; [congruence|done|done].
Qed.

Lemma set_failed_spec w st r i n e : active st = Some r -> r_nodes r !! i = Some n -> n_state n = Queued ->
  exists n', wrote st (set_at w st i Failed e None).1 r i n' /\ began n n' /\
    Forall (ota_for (n_uid n)) (set_at w st i Failed e None).2.
Proof.
  intros Hr Hn Hq. destruct (set_at_spec w st r i n Failed e None Hr Hn) as (Hw & _ & _).
  eexists. split_and!; [exact Hw| |].
  - right. split_and!; [done|done|]. by left.
  - unfold set_at. rewrite Hr, Hn. apply done_out_for.
Qed.

Lemma request_spec w st serial i port image r n : active st = Some r -> r_nodes r !! i = Some n ->
  exists n', wrote st (request w st serial i port image).1 r i n' /\ began n n' /\
    Forall (ota_for (n_uid n)) (request w st serial i port image).2.
Proof.
  intros Hr Hn. unfold request. destruct (canDispatch st serial i Queued) eqn:E; cbn [negb]; cycle 1.
  { exists n. split_and!; [by apply wrote_same|by left|constructor]. }
  destruct (canDispatch_node _ _ _ _ _ _ Hr Hn E) as (Hq & _ & _).
  destruct (set_at_spec w st r i n Sending None None Hr Hn) as (Hw & _ & _).
  assert (Forall (ota_for (n_uid n)) (set_at w st i Sending None None).2) as Ho.
  { unfold set_at. rewrite Hr, Hn. apply done_out_for. }
  destruct (set_at w st i Sending None None) as [st1 o1]. cbn [fst snd] in *. unfold wrote in Hw.
  set (n1 := set_node (w_now w) n Sending None None) in *.
  set (r1 := with_nodes r (<[i := n1]> (r_nodes r))) in *.
  assert (r_nodes r1 !! i = Some n1) as Hn1 by (cbn; apply list_lookup_insert_eq; by eapply lookup_lt_Some).
  unfold set_started. rewrite Hw, Hn1. 
  match goal with |- context [write st1 ?x] => set (r2 := x); set (st2 := write st1 r2) end.
  match eval unfold r2 in r2 with with_nodes _ (<[_ := ?x]> _) => set (n2 := x) in * end.
  assert (r2 = with_nodes r (<[i := n2]> (r_nodes r))) as Er2.
  { unfold r2, r1, with_nodes. cbn. f_equal. apply list_insert_insert_eq. }
  assert (began n n2) as Hb by (right; split_and!; [done|done|right; by split]).
  set (st3 := with_tasks st2 _ _ _).
  assert (active st3 = Some r2) as H3 by done.
  assert (r_nodes r2 !! i = Some n2) as Hn2 by (rewrite Er2; cbn; apply list_lookup_insert_eq; by eapply lookup_lt_Some).
  destruct (w_hook w).
  - exists n2. split_and!; [|done|done]. cbn [fst]. unfold wrote. rewrite <- Er2. done.
  - destruct (dispatch_spec st3 serial i port image r2 n2 H3 Hn2) as (Ha & Hof & _).
    destruct (dispatch st3 serial i port image) as [st4 o4]. cbn [fst snd] in *.
    exists n2. split_and!; [unfold wrote; by rewrite Ha, Er2|done|]. apply Forall_app. by split.
Qed.

Lemma push_spec w st serial i g image r n : active st = Some r -> r_nodes r !! i = Some n ->
  exists n', wrote st (push_image w st serial i g image).1 r i n' /\ began n n' /\
    Forall (ota_for (n_uid n)) (push_image w st serial i g image).2.
Proof.
  intros Hr Hn. unfold push_image. destruct (canDispatch st serial i Queued) eqn:E; cbn [negb]; cycle 1.
  { exists n. split_and!; [by apply wrote_same|by left|constructor]. }
  destruct (canDispatch_node _ _ _ _ _ _ Hr Hn E) as (Hq & _ & _). destruct (w_sendImage w g).
  { exists n. split_and!; [by apply wrote_same|by left|by repeat constructor]. }
  destruct (set_failed_spec w st r i n (Some ("gateway " +:+ g +:+ " is not connected")) Hr Hn Hq) as (n' & Hw & Hb & Ho).
  destruct (set_at _ _ _ _ _ _) as [st1 o1]. exists n'. split_and!; [done|done|by constructor].
Qed.

Lemma begin_spec w st i r n : active st = Some r -> r_nodes r !! i = Some n ->
  exists n', wrote st (begin timings w st i).1 r i n' /\ began n n' /\ Forall (ota_for (n_uid n)) (begin timings w st i).2.
Proof.
  intros Hr Hn. unfold begin. rewrite Hr.
  destruct (canDispatch st (r_serial r) i Queued) eqn:E; cbn [negb orb]; cycle 1.
  { exists n. split_and!; [by apply wrote_same|by left|constructor]. }
  case_bool_decide. { exists n. split_and!; [by apply wrote_same|by left|constructor]. }
  rewrite Hn. destruct (canDispatch_node _ _ _ _ _ _ Hr Hn E) as (Hq & _ & _).
  set (st1 := with_tasks _ _ _ _). assert (active st1 = Some r) as Hr1 by done.
  assert (exists n', wrote st1 (beginOnce timings w st1 r i n).1 r i n' /\ began n n' /\
    Forall (ota_for (n_uid n)) (beginOnce timings w st1 r i n).2) as (n' & Hw & Hb & Ho); cycle 1.
  { destruct (beginOnce timings w st1 r i n) as [st2 o2]. exists n'. cbn [fst snd] in *.
    split_and!; [|done|done]. destruct (w_hook w); done. }
  assert (forall e, exists n', wrote st1 (let '(s, o) := set_at w st1 i Failed e None in (unlaunch s (r_serial r) i, o)).1 r i n' /\
    began n n' /\ Forall (ota_for (n_uid n)) (let '(s, o) := set_at w st1 i Failed e None in (unlaunch s (r_serial r) i, o)).2) as Hfail.
  { intros e. destruct (set_failed_spec w st1 r i n e Hr1 Hn Hq) as (n' & Hw & Hb & Ho).
    destruct (set_at w st1 i Failed e None) as [s o]. exists n'. done. }
  unfold beginOnce. destruct (w_image w (r_buildId r)) as [image|]; [|apply Hfail].
  case_bool_decide; [by apply request_spec|]. destruct (n_gatewayId n) as [g|]; [|by apply request_spec].
  destruct (om_get g (gatewaysReady st1)); [by apply request_spec|].
  destruct (om_get g (gatewaysAsked st1)).
  - destruct (_ <? _); [apply Hfail|]. exists n. split_and!; [by apply wrote_same|by left|constructor].
  - destruct (w_hook w);
      [|exact (push_spec w (with_gateways st1 (gatewaysReady st1) (om_set g (w_now w) (gatewaysAsked st1))) (r_serial r) i g image r n Hr1 Hn)].
    exists n. split_and!; [by apply wrote_same|by left|constructor].
Qed.

(** The place a node may be started in. *)
Definition room (r : RolloutView) (i : nat) : Prop :=
  (r_stage r = SPilot /\ i = 0%nat) \/ (r_stage r = SRest /\ i <> 0%nat /\ (flying r < batch timings)%nat).

Lemma in_flight_idle n : idle n -> in_flight n = false.
Proof. intros [H _]. unfold in_flight. rewrite H. apply andb_false_r. Qed.

Lemma flying_pilot p ns : (forall i n, ns !! i = Some n -> idle n) -> (count in_flight (p :: ns) <= 1)%nat.
Proof.
  intros H. unfold count. cbn [List.filter]. assert (List.filter in_flight ns = []) as ->; [|by destruct (in_flight p); cbn; lia].
  induction ns as [|n ns IH]; [done|]. cbn. rewrite in_flight_idle by (by apply (H 0%nat)). apply IH. intros i m. apply (H (S i)).
Qed.

Lemma began_flying r i n n' : r_nodes r !! i = Some n -> began n n' ->
  (flying (with_nodes r (<[i := n']> (r_nodes r))) <= flying r + (if bool_decide (is_Some (n_startedAt n')) then 1 else 0))%nat.
Proof.
  intros Hn Hb. pose proof (count_insert in_flight (r_nodes r) i n n' Hn) as E. unfold flying, count in *. cbn [r_nodes with_nodes].
  destruct Hb as [->|(Hq & _ & [[Hf Hs]|[Hs Hst]])].
  - destruct (in_flight n); cbv iota in E; lia.
  - assert (in_flight n' = false) as E1 by (unfold in_flight; by rewrite Hf). rewrite E1 in E. destruct (in_flight n); cbv iota in E; lia.
  - rewrite bool_decide_eq_true_2 by done. destruct (in_flight n), (in_flight n'); cbv iota in E; lia.
Qed.

Lemma began_rinv r i n n' : rinv r -> r_nodes r !! i = Some n -> began n n' -> room r i ->
  rinv (with_nodes r (<[i := n']> (r_nodes r))).
Proof.
  intros [H1 H2 H3 H4] Hn Hb Hroom. pose proof (began_flying r i n n' Hn Hb) as Hfl.
  destruct Hroom as [[Hs ->]|(Hs & Hi & Hlt)].
  - assert (forall j m, <[0%nat := n']> (r_nodes r) !! S j = Some m -> idle m) as Hidle.
    { intros j m. rewrite list_lookup_insert_ne by done. by apply H1. }
    constructor; cbn [r_stage with_nodes r_nodes].
    + intros j m _. apply Hidle.
    + congruence.
    + destruct (r_nodes r) as [|p ns] eqn:E; [done|]. unfold flying. cbn [r_nodes with_nodes].
      change (<[0%nat := n']> (p :: ns)) with (n' :: ns). pose proof (flying_pilot n' ns Hidle). unfold count in *. lia.
    + congruence.
  - assert (flying (with_nodes r (<[i := n']> (r_nodes r))) <= batch timings)%nat as Hle by (case_bool_decide; lia).
    constructor; cbn [r_stage with_nodes r_nodes]; [congruence| |lia|done].
    intros _. destruct (H2 Hs) as (p & Hp & Hc). exists p. cbn. by rewrite list_lookup_insert_ne.
Qed.

Lemma begin_good w st i r n : inv st -> active st = Some r -> r_nodes r !! i = Some n -> room r i ->
  let x := begin timings w st i in
  good st x.1 x.2 /\ keeps st x.1 /\ exists r', active x.1 = Some r' /\
    (flying r' <= flying r + match node_at x.1 i with Some n' => if bool_decide (is_Some (n_startedAt n')) then 1 else 0 | None => 0 end)%nat.
Proof.
  intros Hi Hr Hn Hroom. destruct (begin_spec w st i r n Hr Hn) as (n' & Hw & Hb & Ho). cbv zeta.
  pose proof (began_rinv r i n n' (Hi r Hr) Hn Hb Hroom) as Hri.
  assert (keeps st (begin timings w st i).1) as Hk.
  { eapply keeps_wrote; [done|done|done|..]; destruct Hb as [->|(Hq & Hu & Hc)]; try done. by rewrite Hq. }
  split_and!; [split|done|].
  - intros r' Hr'. unfold wrote in Hw. rewrite Hw in Hr'. by injection Hr' as <-.
  - eapply Forall_impl; [exact Ho|]. intros [|uid port size sha path|] Hot; try done. cbn in Hot. subst uid.
    apply (out_ok_keeps st); [done|]. exists r. split; [done|].
    destruct Hroom as [[_ ->]|(Hs & _)]; [left; eauto | right; by apply ri_rest; [apply Hi|]].
  - eexists. split; [exact Hw|]. unfold node_at. unfold wrote in Hw. rewrite Hw. cbn [mbind option_bind r_nodes with_nodes].
    rewrite list_lookup_insert_eq by (by eapply lookup_lt_Some). by apply began_flying with (n := n).
Qed.

Lemma fill_good w ids st k : inv st ->
  (forall r, active st = Some r -> r_stage r = SRest /\ (flying r <= k)%nat) -> (0%nat ∉ ids) ->
  let x := fill_batch timings w st k ids in good st x.1 x.2 /\ keeps st x.1.
Proof.
  revert st k; induction ids as [|i ids IH]; intros st k Hi Hf Hz; cbn [fill_batch].
  { by split; [split; [done|constructor]|]. }
  apply not_elem_of_cons in Hz as [Hz0 Hz].
  destruct (Nat.leb_spec (batch timings) k) as [|Hk]; [by split; [split; [done|constructor]|]|].
  case_bool_decide as Hq; cbn [negb]; [|by apply IH].
  unfold node_state in Hq. destruct (active st) as [r|] eqn:Hr; [|done]. cbn in Hq.
  destruct (r_nodes r !! i) as [n|] eqn:Hn; [|done].
  destruct (Hf r eq_refl) as [Hs Hfl].
  destruct (begin_good w st i r n Hi Hr Hn) as (Hg & Hkp & r' & Hr' & Hfl').
  { right. split_and!; [done|done|lia]. }
  cbv zeta in *. destruct (begin timings w st i) as [st1 o1] eqn:E. cbn [fst snd] in *.
  match goal with |- context [fill_batch timings w st1 ?x ids] => set (k' := x) end.
  assert (flying r' <= k')%nat as Hk'.
  { unfold k'. destruct (node_at st1 i) as [n'|]; [|lia]. destruct (n_startedAt n'); [|rewrite bool_decide_eq_false_2 in Hfl' by (by intros [? [=]]); lia].
    rewrite bool_decide_eq_true_2 in Hfl' by eauto. lia. }
  destruct (IH st1 k') as [Hg2 Hk2]; [apply Hg| |done|].
  { intros r0 Hr0. rewrite Hr' in Hr0. injection Hr0 as <-. split; [|done].
    unfold keeps in Hkp. rewrite Hr in Hkp. destruct Hkp as (r0 & Hr0 & Hs0 & _). congruence. }
  destruct (fill_batch timings w st1 k' ids) as [st2 o2]. cbn [fst snd] in *. split; [|by etrans].
  by eapply good_seq.
Qed.

Lemma each_good f ids st :
  (forall st i, inv st -> good st (f st i).1 (f st i).2 /\ keeps st (f st i).1) -> inv st ->
  good st (each f st ids).1 (each f st ids).2 /\ keeps st (each f st ids).1.
Proof.
  intros Hf. revert st; induction ids as [|i ids IH]; intros st Hi; cbn [each]; [by split; [split; [done|constructor]|]|].
  destruct (Hf st i Hi) as [Hg Hk]. destruct (f st i) as [st1 o1]. cbn [fst snd] in *.
  destruct (IH st1 (proj1 Hg)) as [Hg2 Hk2]. destruct (each f st1 ids) as [st2 o2]. cbn [fst snd] in *.
  split; [by eapply good_seq | by etrans].
Qed.

Lemma still_good st : inv st -> good st st [] /\ keeps st st.
Proof. intros Hi. by split; [split; [done|constructor]|]. Qed.

Lemma set_terminal_good w st i s e n : inv st -> node_at st i = Some n -> terminal (n_state n) = false ->
  (terminal s = true \/ is_Some (n_startedAt n)) ->
  forall p, good st (set_at w st i s e p).1 (set_at w st i s e p).2 /\ keeps st (set_at w st i s e p).1.
Proof.
  intros Hi Hn Ht Hs p. unfold node_at in Hn. destruct (active st) as [r|] eqn:Hr; [|done]. cbn in Hn.
  destruct (set_at_spec w st r i n s e p Hr Hn) as (Hw & Ho & _).
  assert (keeps st (set_at w st i s e p).1) as Hk.
  { eapply keeps_wrote; [done|done|done|done|]. intros E. by rewrite E in Ht. }
  split; [|done]. split; [by eapply set_at_inv|]. eapply Forall_impl; [exact Ho|]. intros o. by apply out_ok_keeps.
Qed.

Lemma timeout_good w st i : inv st -> good st (timeout_node timings w st i).1 (timeout_node timings w st i).2 /\ keeps st (timeout_node timings w st i).1.
Proof.
  intros Hi. unfold timeout_node. destruct (node_at st i) as [n|] eqn:Hn; [|by apply still_good].
  destruct (n_startedAt n) as [t|] eqn:Ht; [|by apply still_good]. destruct (terminal (n_state n)) eqn:Hterm; [by apply still_good|].
  cbv zeta. destruct (_ <? _); [|by apply still_good]. eapply set_terminal_good; [done|done|done|by left].
Qed.

Lemma skip_good w why st i : inv st -> good st (skip_node w why st i).1 (skip_node w why st i).2 /\ keeps st (skip_node w why st i).1.
Proof.
  intros Hi. unfold skip_node, node_state. destruct (active st) as [r|] eqn:Hr; [|by apply still_good]. cbn.
  destruct (r_nodes r !! i) as [n|] eqn:Hn; [|by apply still_good]. cbn. destruct (terminal (n_state n)) eqn:Ht; [by apply still_good|].
  eapply set_terminal_good; [done| |done|by left]. unfold node_at. by rewrite Hr.
Qed.

Lemma refuse_good w g e st i : inv st -> good st (refuse_node w g e st i).1 (refuse_node w g e st i).2 /\ keeps st (refuse_node w g e st i).1.
Proof.
  intros Hi. unfold refuse_node. destruct (node_at st i) as [n|] eqn:Hn; [|by apply still_good].
  destruct (bool_decide _ && _) eqn:E; [|by apply still_good]. apply andb_true_iff in E as [_ E%negb_true_iff].
  eapply set_terminal_good; [done|done|done|by left].
Qed.

(** *** Stages *)

(** As [keeps], whatever became of the stage. *)
Definition same_nodes (st st' : Rollouts) : Prop :=
  match active st with
  | None => active st' = None
  | Some r => exists r', active st' = Some r' /\
      forall i n, r_nodes r !! i = Some n -> exists n', r_nodes r' !! i = Some n' /\ n_uid n' = n_uid n /\
        (n_state n = Confirmed -> n_state n' = Confirmed)
  end.

Lemma keeps_same st st' : keeps st st' -> same_nodes st st'.
Proof. unfold keeps, same_nodes. destruct (active st); [|done]. intros (r' & H1 & _ & _ & _ & H2). by exists r'. Qed.

#[local] Instance same_refl : Reflexive same_nodes.
Proof. intros st. by apply keeps_same. Qed.
#[local] Instance same_trans : Transitive same_nodes.
Proof.
  intros a b c. unfold same_nodes. destruct (active a) as [r|]; [|by intros ->].
  intros (r1 & -> & A) (r2 & -> & B). exists r2. split; [done|].
  intros i n Hn. destruct (A i n Hn) as (n1 & H1 & U1 & C1). destruct (B i n1 H1) as (n2 & H2 & U2 & C2).
  exists n2. split_and!; [done|congruence|auto].
Qed.

Lemma out_ok_same st st' o : same_nodes st st' -> out_ok st o -> out_ok st' o.
Proof.
  unfold same_nodes. destruct o; try done. intros Hk (r & Hr & Ho). rewrite Hr in Hk. destruct Hk as (r' & Hr' & Hp).
  eapply (out_ok_mono st st' r r' (OOta uid port size sha256 path)); [done|done|apply Hp|by exists r].
Qed.

Lemma good_then st1 st2 st3 o1 o2 : good st1 st2 o1 -> same_nodes st2 st3 -> good st2 st3 o2 -> good st1 st3 (o1 ++ o2).
Proof.
  intros [_ H1] Hk [H2 H3]. split; [done|]. apply Forall_app. split; [|done].
  eapply Forall_impl; [exact H1|]. intros o. by apply out_ok_same.
Qed.

Lemma same_active st st' r r' : active st = Some r -> active st' = Some r' -> r_nodes r' = r_nodes r -> same_nodes st st'.
Proof. intros H H' E. unfold same_nodes. rewrite H, H'. exists r'. split; [done|]. rewrite E. eauto. Qed.

Lemma rinv_over r s note : rinv r -> finished_stage s = true -> rinv (with_stage r s note).
Proof. intros [H1 H2 H3 H4] Hs. constructor; cbn; [by intros i n ->|by intros ->|done|by intros ->]. Qed.

Lemma rinv_rest r note : rinv r -> r_stage r = SPilot -> pilot_confirmed r -> rinv (with_stage r SRest note).
Proof.
  intros [H1 H2 H3 H4] Hs (p & Hp & Hc).
  assert (flying r = 0%nat) as Hfl.
  { unfold flying. destruct (r_nodes r) as [|q ns] eqn:E; [done|]. injection Hp as ->. cbn [List.filter].
    assert (in_flight p = false) as -> by (unfold in_flight; by rewrite Hc).
    assert (forall i n, ns !! i = Some n -> idle n) as Hidle by (intros i n Hn; by apply (H1 i)).
    clear -Hidle. induction ns as [|n ns IH]; [done|]. cbn. rewrite in_flight_idle by (by apply (Hidle 0%nat)).
    apply IH. intros i m. apply (Hidle (S i)). }
  assert (flying (with_stage r SRest note) = 0%nat) as Hfl' by exact Hfl.
  constructor; [done|intros _; by exists p|lia|intros _; lia].
Qed.

Lemma restage_good st s note : inv st ->
  (forall r, active st = Some r -> finished_stage s = true \/ (s = SRest /\ r_stage r = SPilot /\ pilot_confirmed r)) ->
  good st (restage st s note) [] /\ same_nodes st (restage st s note).
Proof.
  intros Hi Hs. unfold restage. destruct (active st) as [r|] eqn:Hr; [|by split; [split; [done|constructor]|]].
  split; [split; [|constructor]|by eapply same_active].
  intros r' [= <-]. destruct (Hs r eq_refl) as [|(-> & H1 & H2)]; [apply rinv_over | apply rinv_rest]; auto.
Qed.

Lemma finish_good w st : inv st -> good st (finish w st) [] /\ same_nodes st (finish w st).
Proof.
  intros Hi. unfold finish. destruct (active st) as [r|] eqn:Hr; [|by split; [split; [done|constructor]|]].
  split; [split; [|constructor]|by eapply same_active].
  intros r' [= <-]. destruct (Hi r Hr) as [H1 H2 H3 H4]. by constructor.
Qed.

Lemma positions_tail st : 0%nat ∉ List.tl (positions st).
Proof.
  unfold positions. destruct (active st) as [r|]; [|by intros ?%not_elem_of_nil].
  destruct (length (r_nodes r)) as [|n]; cbn; [by intros ?%not_elem_of_nil|].
  rewrite list_elem_of_In, in_seq. lia.
Qed.

Lemma tick_pilot_good w st r p : inv st -> active st = Some r -> r_nodes r !! 0%nat = Some p -> r_stage r = SPilot ->
  let x := tick_pilot timings w st r p in good st x.1 x.2 /\ same_nodes st x.1.
Proof.
  intros Hi Hr Hp Hs. unfold tick_pilot. destruct (n_state p) eqn:E; try (by split; [split; [done|constructor]|]).
  - destruct (begin_good w st 0 r p Hi Hr Hp) as (Hg & Hk & _); [by left|]. split; [done | by apply keeps_same].
  - destruct (Nat.ltb _ _); apply restage_good; try done.
    + intros r0 Hr0. right. rewrite Hr in Hr0. injection Hr0 as <-. split_and!; [done|done|by exists p].
    + intros. by left.
  - destruct (each_good (skip_node w "pilot failed") (List.tl (positions st)) st) as [Hg Hk]; [intros; by apply skip_good|done|].
    destruct (each _ _ _) as [st1 o1]. cbn [fst snd] in *.
    destruct (restage_good st1 SStopped ("stopped: the pilot node failed (" +:+ default "unknown" (n_error p)
                            +:+ "). Every other node kept its firmware.") (proj1 Hg)) as [Hg2 Hk2]; [intros; by left|].
    rewrite <- (app_nil_r o1). split; [by eapply good_then | etrans; [by apply keeps_same | done]].
Qed.

Lemma tick_rest_good w st : inv st -> let x := tick_rest timings w st in good st x.1 x.2 /\ same_nodes st x.1.
Proof.
  intros Hi. unfold tick_rest. destruct (active st) as [r|] eqn:Hr; [|by split; [split; [done|constructor]|]].
  case_bool_decide as Hs; [|by split; [split; [done|constructor]|]].
  destruct (fill_good w (List.tl (positions st)) st (flying r) Hi) as [Hg Hk].
  - intros r0 Hr0. rewrite Hr in Hr0. injection Hr0 as <-. done.
  - apply positions_tail.
  - split; [done | by apply keeps_same].
Qed.

Lemma tick_done_good w st : inv st -> good st (tick_done w st) [] /\ same_nodes st (tick_done w st).
Proof.
  intros Hi. unfold tick_done. destruct (active st) as [r|] eqn:Hr; [|by split; [split; [done|constructor]|]].
  destruct (_ && _); [|by split; [split; [done|constructor]|]].
  set (note := show _ +:+ _).
  destruct (restage_good st SDone note Hi) as [Hg Hk]; [intros; by left|]. unfold restage in *. rewrite Hr in *.
  destruct (finish_good w _ (proj1 Hg)) as [Hg2 Hk2]. split; [|by etrans].
  exact (good_then _ _ _ [] [] Hg Hk2 Hg2).
Qed.

Lemma tick_good w st : inv st -> let x := tick timings w st in good st x.1 x.2 /\ same_nodes st x.1.
Proof.
  intros Hi. unfold tick. destruct (active st) as [r|] eqn:Hr; [|by split; [split; [done|constructor]|]].
  destruct (finished_stage (r_stage r)); [by split; [split; [done|constructor]|]|].
  destruct (each_good (timeout_node timings w) (positions st) st) as [Hg Hk]; [intros; by apply timeout_good|done|].
  destruct (each (timeout_node timings w) st (positions st)) as [st1 o1]. cbn [fst snd] in *. apply keeps_same in Hk.
  destruct (active st1) as [r1|] eqn:Hr1; cbn [mbind option_bind]; [|done].
  destruct (r_nodes r1 !! 0%nat) as [p|] eqn:Hp; cbn [fmap option_fmap option_map]; [|done].
  assert (let x := if bool_decide (r_stage r1 = SPilot) then tick_pilot timings w st1 r1 p else (st1, []) in
    good st1 x.1 x.2 /\ same_nodes st1 x.1) as [Hg2 Hk2].
  { case_bool_decide; [by apply tick_pilot_good; [apply Hg|..] | by split; [split; [apply Hg|constructor]|]]. }
  destruct (if bool_decide (r_stage r1 = SPilot) then _ else _) as [st2 o2]. cbn [fst snd] in *.
  destruct (tick_rest_good w st2 (proj1 Hg2)) as [Hg3 Hk3]. cbv zeta in *. destruct (tick_rest timings w st2) as [st3 o3]. cbn [fst snd] in *.
  destruct (tick_done_good w st3 (proj1 Hg3)) as [Hg4 Hk4].
  assert (good st2 (tick_done w st3) o3) as G3 by (rewrite <- (app_nil_r o3); by eapply good_then).
  assert (same_nodes st2 (tick_done w st3)) as K3 by (by etrans).
  split; [eapply good_then; [done| |eapply good_then; [done|done|done]]; by etrans | by repeat (etrans; [done|])].
Qed.

(** *** Operations *)

Lemma find_uid_spec uid k ns i n : find_uid uid k ns = Some (i, n) -> (k <= i)%nat /\ ns !! (i - k)%nat = Some n /\ n_uid n = uid.
Proof.
  revert k; induction ns as [|m ns IH]; intros k; [done|]. cbn [find_uid]. case_bool_decide.
  - intros [= -> ->]. by rewrite Nat.sub_diag.
  - intros H'%IH. destruct H' as (Hle & Hn & Hu). split_and!; [lia| |done].
    replace (i - k)%nat with (S (i - S k)) by lia. done.
Qed.

Lemma good_tick w st1 st2 o1 : good st1 st2 o1 -> let x := tick timings w st2 in good st1 x.1 (o1 ++ x.2).
Proof. intros Hg. destruct (tick_good w st2 (proj1 Hg)) as [Hg2 Hk]. by eapply good_then. Qed.

Lemma image_ready_good w st g id ok e port : inv st ->
  let x := onImageReady timings w st g id ok e port in good st x.1 x.2.
Proof.
  intros Hi. unfold onImageReady. destruct (active st) as [r|] eqn:Hr; [|by split; [done|constructor]].
  destruct (_ || _); [by split; [done|constructor]|].
  assert (let x := if ok then (with_gateways st (om_set g port (gatewaysReady st)) (gatewaysAsked st), [])
                   else each (refuse_node w g e) st (positions st) in good st x.1 x.2) as Hg.
  { destruct ok; [by split; [done|constructor]|]. apply each_good; [intros; by apply refuse_good | done]. }
  destruct (if ok then _ else _) as [st1 o1]. pose proof (good_tick w st st1 o1 Hg) as H. cbv zeta in H.
  by destruct (tick timings w st1).
Qed.

Lemma ota_status_good w st uid s e im pct : inv st -> let x := onOtaStatus timings w st uid s e im pct in good st x.1 x.2.
Proof.
  intros Hi. assert (good st st []) as Hnil by (by split; [done|constructor]).
  unfold onOtaStatus. destruct (active st) as [r|] eqn:Hr; [|done].
  destruct (find_uid uid 0 (r_nodes r)) as [[i n]|] eqn:Hf; [|done].
  cbv zeta. destruct (_ || _ || _) eqn:E; [done|]. destruct (negb (bool_decide (im = _))); [done|].
  apply find_uid_spec in Hf as (_ & Hn & _). rewrite Nat.sub_0_r in Hn.
  apply orb_false_iff in E as [[_ E1%negb_false_iff%bool_decide_eq_true]%orb_false_iff E2].
  assert (node_at st i = Some n) as Hat by (unfold node_at; by rewrite Hr).
  assert (good st (ota_effect w st i s e pct).1 (ota_effect w st i s e pct).2) as Hg.
  { unfold ota_effect. repeat (case_bool_decide; [eapply set_terminal_good; [done|done|done|by right]|]). done. }
  destruct (ota_effect w st i s e pct) as [st1 o1]. pose proof (good_tick w st st1 o1 Hg) as H. cbv zeta in H.
  by destruct (tick timings w st1).
Qed.

Definition flies_at_most (k : nat) (st : Rollouts) : Prop := forall r, active st = Some r -> (flying r <= k)%nat.

Lemma cancel_node_spec w k st i : flies_at_most k st ->
  flies_at_most k (cancel_node w st i).1 /\ Forall (fun o => match o with OOta _ _ _ _ _ => False | _ => True end) (cancel_node w st i).2.
Proof.
  intros Hf. unfold cancel_node. destruct (active st) as [r|] eqn:Hr; [|by split]. destruct (_ || _); [|by split].
  unfold set_at. rewrite Hr. destruct (r_nodes r !! i) as [n|] eqn:Hn; [|by split]. cbn [fst snd]. split.
  - intros r' [= <-]. specialize (Hf r Hr).
    pose proof (count_insert in_flight (r_nodes r) i n (set_node (w_now w) n Skipped (Some "cancelled") None) Hn) as E.
    unfold flying, count in *. cbn [r_nodes with_nodes]. change (in_flight (set_node _ _ Skipped _ _)) with false in E.
    destruct (in_flight n); cbv iota in E; lia.
  - unfold done_out. destruct (_ || _); repeat constructor.
Qed.

Lemma cancel_good w st u : inv st -> let x := cancel w st u in good st x.1 x.2.
Proof.
  intros Hi. unfold cancel. destruct (active st) as [r|] eqn:Hr; [|by split; [done|constructor]].
  destruct (finished_stage (r_stage r)); [by split; [done|constructor]|].
  set (K := Nat.max 1 (batch timings)).
  assert (flies_at_most K st) as Hf by (intros r0 Hr0; apply ri_flying; by apply Hi).
  assert (forall ids st, flies_at_most K st -> flies_at_most K (each (cancel_node w) st ids).1 /\
    Forall (fun o => match o with OOta _ _ _ _ _ => False | _ => True end) (each (cancel_node w) st ids).2) as Heach.
  { clear. induction ids as [|i ids IH]; intros st Hf; cbn [each]; [by split|].
    destruct (cancel_node_spec w K st i Hf) as [H1 H2]. destruct (cancel_node w st i) as [st1 o1].
    destruct (IH st1 H1) as [H3 H4]. destruct (each _ st1 ids) as [st2 o2]. split; [done|]. apply Forall_app. by split. }
  destruct (Heach (positions st) st Hf) as [H1 H2]. destruct (each _ _ _) as [st1 o1]. cbn [fst snd] in *. split.
  - unfold restage. destruct (active st1) as [r1|] eqn:Hr1; unfold finish.
    + cbn [active write with_active]. intros r2 [= <-]. specialize (H1 r1 Hr1). by constructor.
    + rewrite Hr1. intros r2. by rewrite Hr1.
  - eapply Forall_impl; [exact H2|]. by intros [].
Qed.

Lemma dispatch_good st serial i port image : inv st ->
  let x := dispatch st serial i port image in good st x.1 x.2.
Proof.
  intros Hi. cbv zeta. unfold dispatch. set (st1 := with_tasks _ _ _ _).
  destruct (canDispatch st1 serial i Sending) eqn:E; cbn [negb]; [|by split; [apply (inv_active st)|constructor]].
  change (active st1) with (active st). destruct (active st) as [r|] eqn:Hr; [|by split; [apply (inv_active st)|constructor]].
  destruct (r_nodes r !! i) as [n|] eqn:Hn; [|by split; [apply (inv_active st)|constructor]].
  split; [by apply (inv_active st)|]. constructor; [|constructor]. exists r. split; [done|].
  destruct (canDispatch_node st1 serial i Sending r n Hr Hn E) as (Hs & _ & Hfin).
  destruct i as [|i]; [left; by exists n|right].
  destruct (Hi r Hr) as [H1 H2 _ _]. destruct (r_stage r) eqn:Est; [|by apply H2|done|done].
  destruct (H1 i n eq_refl Hn) as [_ [Hq|Ht]]; rewrite Hs in *; done.
Qed.

Lemma resume_good w st k ok e : inv st -> let x := resume timings w st k ok e in good st x.1 x.2.
Proof.
  intros Hi. assert (forall st', active st' = active st -> good st st' []) as Hnil by (intros st' E; split; [by apply (inv_active st)|constructor]).
  destruct k as [serial i g image|serial i port image|serial i]; cbn [resume]; cbv zeta; destruct ok.
  - unfold push_image. destruct (canDispatch st serial i Queued) eqn:E; cbn [negb]; [|by apply Hnil].
    destruct (w_sendImage w g); [by split; [apply (inv_active st)|repeat constructor]|].
    destruct (active st) as [r|] eqn:Hr; [|unfold canDispatch, isCurrentNode in E; by rewrite Hr in E].
    destruct (r_nodes r !! i) as [n|] eqn:Hn.
    + destruct (canDispatch_node _ _ _ _ _ _ Hr Hn E) as (Hq & _).
      destruct (set_terminal_good w st i Failed (Some ("gateway " +:+ g +:+ " is not connected")) n Hi) with (p := @None Z) as [[G1 G2] _].
      * unfold node_at. by rewrite Hr.
      * by rewrite Hq.
      * by left.
      * destruct (set_at _ _ _ _ _ _) as [st1 o1]. split; [by apply (inv_active st1)|]. constructor; [done|].
        eapply Forall_impl; [exact G2|]. intros o. by apply out_ok_active.
    + unfold canDispatch, node_state in E. rewrite Hr in E. cbn in E. rewrite Hn in E. cbn in E. by rewrite andb_false_r in E.
  - destruct (canDispatch st serial i Queued); by apply Hnil.
  - by apply dispatch_good.
  - destruct (canDispatch st serial i Sending) eqn:E; [|by apply Hnil]. split; [|constructor].
    unfold set_started. destruct (active st) as [r|] eqn:Hr; [|intros r'; cbn [active with_tasks fst]; by rewrite Hr].
    destruct (r_nodes r !! i) as [n|] eqn:Hn; [|intros r'; cbn [active with_tasks fst]; rewrite Hr; apply Hi, Hr || (intros [= <-]; by apply Hi)].
    intros r' [= <-]. destruct (canDispatch_node _ _ _ _ _ _ Hr Hn E) as (Hq & _).
    eapply rinv_update; [by apply Hi|done|..].
    + unfold in_flight. cbn. done.
    + intros [_ [Hs|Hs]]; rewrite Hq in Hs; done.
    + by rewrite Hq.
  - by apply Hnil.
  - set (st1 := unlaunch st serial i). assert (active st1 = active st) as E1 by done.
    assert (inv st1) as Hi1 by (by apply (inv_active st)).
    destruct (isCurrentNode st1 serial i && _) eqn:E; [|by apply Hnil]. apply andb_true_iff in E as [_ E%negb_true_iff].
    unfold node_state in E. destruct (active st1) as [r|] eqn:Hr; [|done]. cbn in E.
    destruct (r_nodes r !! i) as [n|] eqn:Hn; [|done]. cbn in E.
    destruct (set_terminal_good w st1 i Failed (Some e) n Hi1) with (p := @None Z) as [G _]; [unfold node_at; by rewrite Hr|done|by left|].
    destruct (set_at w st1 i Failed (Some e) None) as [st2 o2]. pose proof (good_tick w st1 st2 o2 G) as H. cbv zeta in H.
    by destruct (tick timings w st2).
Qed.

Lemma start_good w st b t u d st' os : inv st -> start timings w st b t u d = Ok (st', os) -> good st st' os.
Proof.
  intros Hi H. unfold start in H. inv_ok H. apply (Ok_inj (E := string)) in H.
  match type of H with (if d then (?s, []) else _) = _ => set (st0 := s) in * end.
  assert (inv st0) as Hi0.
  { intros r [= <-].
    assert (forall n, n ∈ map (queued_node (w_now w)) a0 -> idle n) as Hidle.
    { intros n Hn. apply list_elem_of_fmap in Hn as (m & -> & _). split; [done|by left]. }
    constructor; cbn [r_stage r_nodes]; try done.
    - intros i n _ Hn. apply Hidle. by eapply list_elem_of_lookup_2.
    - unfold flying. cbn [r_nodes]. assert (List.filter in_flight (map (queued_node (w_now w)) a0) = []) as ->; [|cbn; lia].
      clear -Hidle. induction a0 as [|m l IH]; [done|]. cbn. apply IH. intros n Hn. apply Hidle. by right. }
  destruct d; [injection H as <- <-; by split; [done|constructor]|].
  destruct (tick_good w st0 Hi0) as [[G1 G2] _]. rewrite H in G1, G2. done.
Qed.

Lemma rollout_step_good w st e : inv st -> let x := step timings w st e in good st x.1 x.2.
Proof.
  intros Hi. assert (good st st []) as Hnil by (by split; [done|constructor]). cbv zeta. destruct e; cbn [step].
  - destruct (start timings w st buildId target by_ deferDispatch) as [[st' os]|] eqn:E; [|done]. by eapply start_good.
  - by apply cancel_good.
  - by apply image_ready_good.
  - by apply ota_status_good.
  - by apply tick_good.
  - destruct (conts st !! j) as [k|]; [|done].
    pose proof (resume_good w (with_tasks st (launching st) (awaitingDispatch st) (delete j (conts st))) k ok error) as H.
    exact (H (inv_active _ _ eq_refl Hi)).
Qed.

Definition new_rollouts : Rollouts :=
  {| active := None; past := []; gatewaysReady := []; gatewaysAsked := []; launching := []; awaitingDispatch := []; conts := [];
     serials := 0 |}.

(** What the events so far left, and what the last one sent. A process starts
    with nothing, or with the history of the database; and a change that could
    not be committed is taken back to the snapshot of any state before. *)
Inductive reached : Rollouts -> list Out -> Prop :=
| reached_new : reached new_rollouts []
| reached_boot history : reached (restore new_rollouts None history) []
| reached_step st os w e : reached st os -> reached (step timings w st e).1 (step timings w st e).2
| reached_back st os st0 os0 : reached st os -> reached st0 os0 -> reached (rollback st (viewSnapshot st0)) [].

Lemma requeue_cases pending n : requeue pending n = n \/ (n_state n = Sending /\ n_state (requeue pending n) = Queued /\ n_startedAt (requeue pending n) = None).
Proof. unfold requeue. case_bool_decide; cbn [andb]; [|by left]. case_bool_decide; [by right|by left]. Qed.

Lemma rinv_requeue pending r serial : rinv r ->
  rinv {| r_serial := serial; r_id := r_id r; r_buildId := r_buildId r; r_version := r_version r; r_target := r_target r; r_startedBy := r_startedBy r; r_startedAt := r_startedAt r;
          r_finishedAt := r_finishedAt r; r_stage := r_stage r; r_note := r_note r; r_nodes := map (requeue pending) (r_nodes r) |}.
Proof.
  intros [H1 H2 H3 H4]. set (r' := {| r_serial := serial |}). assert (flying r' <= flying r)%nat as Hf.
  { unfold flying. subst r'. cbn [r_nodes]. clear. induction (r_nodes r) as [|n l IH]; [done|]. cbn [map List.filter].
    destruct (requeue_cases pending n) as [->|(_ & _ & Hn)]; [destruct (in_flight n); cbn [length]; lia|].
    assert (in_flight (requeue pending n) = false) as -> by (unfold in_flight; by rewrite Hn, ?andb_false_r). destruct (in_flight n); cbn [length]; lia. }
  constructor; subst r'; cbn [r_stage r_nodes] in *; [| |lia|intros Hs; specialize (H4 Hs); lia].
  - intros i n Hs Hn. change (map (requeue pending) (r_nodes r) !! S i) with ((requeue pending <$> r_nodes r) !! S i) in Hn. rewrite list_lookup_fmap in Hn.
    destruct (r_nodes r !! S i) as [m|] eqn:Em; [|done]. injection Hn as <-. specialize (H1 i m Hs Em). destruct (requeue_cases pending m) as [->|(Hm & _)]; [done|].
    destruct H1 as [_ [H1|H1]]; by rewrite Hm in H1.
  - intros Hs. destruct (H2 Hs) as (p & Hp & Hc). exists p. split; [|done]. change (r_nodes _) with (requeue pending <$> r_nodes r). rewrite list_lookup_fmap, Hp. cbn.
    destruct (requeue_cases pending p) as [->|(Hm & _)]; [done|]. congruence.
Qed.

Lemma reached_good st os : reached st os -> inv st /\ Forall (out_ok st) os.
Proof.
  induction 1 as [|history|st os w e _ [IH _]|st os st0 os0 _ _ _ [IH _]]; [by split; [|constructor]|by split; [|constructor]|apply (rollout_step_good w st e IH)|].
  split; [|constructor]. intros r Hr. unfold rollback, restore, viewSnapshot in Hr. cbn [active sp_current] in Hr. destruct (active st0) as [r0|] eqn:E; [|done].
  injection Hr as <-. apply (rinv_requeue (pendingDispatchUids st0) r0 (serials st + 0)). by apply IH.
Qed.

(** C4: One node goes first. Whatever happens, however the durable hook, the
    gateways and the nodes answer, and also when what could not be committed is
    taken back: while a rollout is in its pilot stage no node
    but the pilot has been started; and an OTA request that leaves the edge is
    either for the pilot or finds the pilot confirmed. *)
Theorem pilot_goes_first st os :
  reached st os ->
  (forall r i n, active st = Some r -> r_stage r = SPilot -> r_nodes r !! S i = Some n -> n_startedAt n = None) /\
  (forall uid port size sha path, OOta uid port size sha path ∈ os -> exists r, active st = Some r /\
     ((exists p, r_nodes r !! 0%nat = Some p /\ n_uid p = uid) \/ pilot_confirmed r)).
Proof.
  intros H. destruct (reached_good st os H) as [Hi Ho]. split.
  - intros r i n Hr Hs Hn. by destruct (ri_pilot r (Hi r Hr) i n Hs Hn).
  - intros uid port size sha path Hin. rewrite Forall_forall in Ho. exact (Ho _ Hin).
Qed.

(** No outage by update. At every moment the nodes of a rollout that are
    started and not done are at most the batch size, once the rest is being
    updated, and never more than one in the pilot stage. *)
Theorem batch_is_bounded st os r :
  reached st os -> active st = Some r ->
  (r_stage r = SRest -> (flying r <= batch timings)%nat) /\ (r_stage r = SPilot -> (flying r <= 1)%nat) /\
  (flying r <= Nat.max 1 (batch timings))%nat.
Proof.
  intros H Hr. destruct (reached_good st os H) as [Hi _]. destruct (Hi r Hr) as [H1 H2 H3 H4]. split_and!; [done| |done].
  intros Hs. destruct (r_nodes r) as [|p ns] eqn:E; [unfold flying; rewrite E; cbn; lia|].
  unfold flying. rewrite E. apply (flying_pilot p ns). intros i n Hn. by apply (H1 i).
Qed.
End safety.

(** ** When the pilot fails *)
Section failure.
Context (timings : RolloutTimings).

(** Nodes that are done stay as they are, and the history does not move. *)
Definition calm (st st' : Rollouts) (os : list Out) : Prop :=
  Forall (fun o => match o with OOta _ _ _ _ _ => False | _ => True end) os /\
  forall r, active st = Some r -> exists r', active st' = Some r' /\ r_stage r' = r_stage r /\ r_finishedAt r' = r_finishedAt r /\
    length (r_nodes r') = length (r_nodes r) /\ length (past st') = length (past st) /\
    forall i n, r_nodes r !! i = Some n -> terminal (n_state n) = true -> r_nodes r' !! i = Some n.

Lemma calm_refl st : calm st st [].
Proof. split; [constructor|]. intros r Hr. exists r. split_and!; auto. Qed.

Lemma calm_trans a b c o1 o2 : calm a b o1 -> calm b c o2 -> calm a c (o1 ++ o2).
Proof.
  intros [Ho1 H1] [Ho2 H2]. split; [by apply Forall_app|]. intros r Hr.
  destruct (H1 r Hr) as (r1 & E1 & A1 & A2 & A3 & A4 & A5). destruct (H2 r1 E1) as (r2 & E2 & B1 & B2 & B3 & B4 & B5).
  exists r2. split_and!; try congruence. intros i n Hn Ht. apply B5; [by apply A5 | done].
Qed.

Lemma set_at_calm w st i n s e p : node_at st i = Some n -> terminal (n_state n) = false -> calm st (set_at w st i s e p).1 (set_at w st i s e p).2.
Proof.
  unfold node_at. destruct (active st) as [r|] eqn:Hr; [|done]. cbn. intros Hn Ht. unfold set_at. rewrite Hr, Hn. split.
  - cbn. unfold done_out. destruct (_ || _); repeat constructor.
  - intros r0 Hr0. rewrite Hr in Hr0. injection Hr0 as <-. eexists. split; [done|]. cbn. split_and!; try done; [apply length_insert|apply length_map|].
    intros j m Hj Hm. rewrite list_lookup_insert_ne; [done|]. intros ->. congruence.
Qed.

Lemma timeout_calm w st i : calm st (timeout_node timings w st i).1 (timeout_node timings w st i).2.
Proof.
  unfold timeout_node. destruct (node_at st i) as [n|] eqn:Hn; [|apply calm_refl].
  destruct (n_startedAt n); [|apply calm_refl]. destruct (terminal (n_state n)) eqn:Ht; [apply calm_refl|].
  cbv zeta. destruct (_ <? _); [by eapply set_at_calm | apply calm_refl].
Qed.

Lemma skip_calm w why st i : calm st (skip_node w why st i).1 (skip_node w why st i).2.
Proof.
  unfold skip_node. destruct (node_state st i) as [s|] eqn:Hs; [|apply calm_refl]. destruct (terminal s) eqn:Ht; [apply calm_refl|].
  unfold node_state in Hs. destruct (active st) as [r|] eqn:Hr; [|done]. cbn in Hs. destruct (r_nodes r !! i) as [n|] eqn:Hn; [|done].
  injection Hs as <-. eapply set_at_calm; [|done]. unfold node_at. by rewrite Hr.
Qed.

Lemma each_calm f ids st : (forall st i, calm st (f st i).1 (f st i).2) -> calm st (each f st ids).1 (each f st ids).2.
Proof.
  intros Hf. revert st; induction ids as [|i ids IH]; intros st; cbn [each]; [apply calm_refl|].
  specialize (Hf st i). destruct (f st i) as [st1 o1]. specialize (IH st1). destruct (each f st1 ids) as [st2 o2]. by eapply calm_trans.
Qed.

Lemma skip_terminal w why ids st i : i ∈ ids -> forall r n, active (each (skip_node w why) st ids).1 = Some r ->
  r_nodes r !! i = Some n -> is_Some (active st) -> terminal (n_state n) = true.
Proof.
  revert st; induction ids as [|j ids IH]; intros st Hi r n Hr Hn [r0 H0]; [by apply not_elem_of_nil in Hi|]. cbn [each] in *.
  pose proof (skip_calm w why st j) as [_ Hc]. destruct (Hc r0 H0) as (r1 & E1 & _ & _ & Hlen & _).
  destruct (skip_node w why st j) as [st1 o1] eqn:E. cbn [fst snd] in *.
  pose proof (each_calm (skip_node w why) ids st1 (fun st i => skip_calm w why st i)) as [_ Hc2].
  destruct (Hc2 r1 E1) as (r2 & E2 & _ & _ & Hlen2 & _ & Hkeep).
  pose proof (IH st1) as IH1. destruct (each (skip_node w why) st1 ids) as [st2 o2] eqn:E3. cbn [fst snd] in *.
  rewrite Hr in E2. injection E2 as <-.
  apply elem_of_cons in Hi as [->|Hi]; [|eapply IH1; eauto].
  destruct (r_nodes r1 !! j) as [m|] eqn:Hm.
  - assert (terminal (n_state m) = true) as Hmt.
    { revert E. unfold skip_node, node_state. rewrite H0. cbn. destruct (r_nodes r0 !! j) as [m0|] eqn:Hm0; cbn.
      - destruct (terminal (n_state m0)) eqn:Ht0; [intros [= <- _]; congruence|].
        unfold set_at. rewrite H0, Hm0. intros [= <- _]. cbn in E1. injection E1 as <-. cbn in Hm.
        rewrite list_lookup_insert_eq in Hm by (by eapply lookup_lt_Some). by injection Hm as <-.
      - apply lookup_ge_None in Hm0. apply lookup_lt_Some in Hm. lia. }
    rewrite (Hkeep j m Hm Hmt) in Hn. by injection Hn as <-.
  - apply lookup_ge_None in Hm. apply lookup_lt_Some in Hn. lia.
Qed.

(** A bad build costs one node. On the first tick after the pilot failed the
    rollout is stopped, every other node is skipped (or was already given up),
    nothing is sent to any node; and, unlike every other end of a rollout, this
    one is not recorded: the finishing time and the history stay as they were. *)
Theorem pilot_failure_stops w st r p :
  active st = Some r -> r_stage r = SPilot -> r_nodes r !! 0%nat = Some p -> n_state p = Failed ->
  exists r', active (tick timings w st).1 = Some r' /\ r_stage r' = SStopped /\
    Forall (fun n => terminal (n_state n) = true) (r_nodes r') /\
    Forall (fun o => match o with OOta _ _ _ _ _ => False | _ => True end) (tick timings w st).2 /\
    r_finishedAt r' = r_finishedAt r /\ length (past (tick timings w st).1) = length (past st).
Proof.
  intros Hr Hs Hp Hf. unfold tick. rewrite Hr, Hs. change (finished_stage SPilot) with false. cbv iota.
  pose proof (each_calm (timeout_node timings w) (positions st) st (timeout_calm w)) as [Ho1 Hc1].
  destruct (each (timeout_node timings w) st (positions st)) as [st1 o1]. cbn [fst snd] in *.
  destruct (Hc1 r Hr) as (r1 & E1 & A1 & A2 & A3 & A4 & A5). rewrite E1. cbn [mbind option_bind].
  assert (r_nodes r1 !! 0%nat = Some p) as Hp1 by (apply A5; [done | by rewrite Hf]). rewrite Hp1. cbn [fmap option_fmap option_map].
  rewrite bool_decide_eq_true_2 by congruence. unfold tick_pilot. rewrite Hf.
  pose proof (each_calm (skip_node w "pilot failed") (List.tl (positions st1)) st1 (skip_calm w "pilot failed")) as [Ho2 Hc2].
  pose proof (fun i H => skip_terminal w "pilot failed" (List.tl (positions st1)) st1 i H) as Hskip.
  destruct (each (skip_node w "pilot failed") st1 (List.tl (positions st1))) as [st2 o2]. cbn [fst snd] in *.
  destruct (Hc2 r1 E1) as (r2 & E2 & B1 & B2 & B3 & B4 & B5).
  set (note := "stopped: the pilot node failed (" +:+ _).
  assert (active (restage st2 SStopped note) = Some (with_stage r2 SStopped note)) as E3 by (unfold restage; by rewrite E2).
  unfold tick_rest. rewrite E3. cbn [r_stage with_stage]. rewrite bool_decide_eq_false_2 by done.
  unfold tick_done. rewrite E3. cbn [r_stage with_stage]. rewrite bool_decide_eq_true_2 by done. cbn [negb andb fst snd].
  exists (with_stage r2 SStopped note). split_and!; [done|done| | | |].
  - cbn [r_nodes with_stage]. apply Forall_lookup. intros [|i] n Hn.
    + assert (r_nodes r2 !! 0%nat = Some p) as Hp2 by (apply B5; [done | by rewrite Hf]).
      rewrite Hp2 in Hn. injection Hn as <-. by rewrite Hf.
    + eapply (Hskip (S i)); [|exact E2|exact Hn|by exists r1].
      unfold positions. rewrite E1. rewrite list_elem_of_In. apply lookup_lt_Some in Hn.
      destruct (length (r_nodes r1)) as [|k] eqn:El; [lia|]. cbn [List.seq List.tl]. apply in_seq. lia.
  - rewrite !Forall_app. split_and!; [done|done|constructor].
  - cbn. congruence.
  - unfold restage. rewrite E2. cbn. rewrite length_map. congruence.
Qed.
End failure.

(** ** A rollout, run *)
Definition demo_node (uid : string) : RolloutNode :=
  {| rn_uid := uid; rn_label := uid; rn_floorId := None; rn_address := Some "10.0.0.1"; rn_transport := Some TUdp;
     rn_online := true; rn_encryptionRequired := false |}.
Definition demo_world (t : Z) : World :=
  {| w_now := t; w_image := fun _ => Some {| im_sha256 := "aa"; im_size := 9; im_version := "tmsense-1.7" |};
     w_nodes := [demo_node "a"; demo_node "b"; demo_node "c"]; w_sendImage := fun _ => true; w_directPort := 5200; w_hook := false |}.
Definition demo_build : string := "0123456789abcdef".
Definition demo_started : Rollouts :=
  (step DEFAULT_TIMINGS (demo_world 1000) new_rollouts (EStart demo_build TgAll "ops" false)).1.
Definition demo_confirm : Event := EOtaStatus "a" "confirmed" "none" "01234567" 100.

Definition demo_reached : reached DEFAULT_TIMINGS (step DEFAULT_TIMINGS (demo_world 2000) demo_started demo_confirm).1
    (step DEFAULT_TIMINGS (demo_world 2000) demo_started demo_confirm).2 :=
  reached_step DEFAULT_TIMINGS demo_started _ (demo_world 2000) demo_confirm
    (reached_step DEFAULT_TIMINGS new_rollouts [] (demo_world 1000) (EStart demo_build TgAll "ops" false) (reached_new DEFAULT_TIMINGS)).

Lemma pilot_goes_first_witness : exists st os,
  reached DEFAULT_TIMINGS st os /\
  OOta "c" 5200 9 "aa" "/fw/0123456789abcdef.bin" ∈ os /\ exists r, active st = Some r /\ pilot_confirmed r.
Proof.
  set (st := (step DEFAULT_TIMINGS (demo_world 2000) demo_started demo_confirm).1).
  set (os := (step DEFAULT_TIMINGS (demo_world 2000) demo_started demo_confirm).2).
  assert (reached DEFAULT_TIMINGS st os) as H by exact demo_reached.
  exists st, os. split; [exact H|].
  assert (OOta "c" 5200 9 "aa" "/fw/0123456789abcdef.bin" ∈ os) as Hin.
  { apply list_elem_of_lookup_2 with 2%nat. vm_compute. reflexivity. }
  split; [exact Hin|].
  destruct (pilot_goes_first DEFAULT_TIMINGS st os H) as [_ Ho].
  destruct (Ho _ _ _ _ _ Hin) as (r & Hr & [(p & Hp & Hu)|Hc]); [|exists r; exact (conj Hr Hc)].
  exfalso. vm_compute in Hr. injection Hr as <-. cbn in Hp. injection Hp as <-. discriminate Hu.
Defined.

Lemma batch_is_bounded_witness : exists st os r,
  reached DEFAULT_TIMINGS st os /\ active st = Some r /\ r_stage r = SRest /\ flying r = 2%nat /\ (flying r <= 3)%nat.
Proof.
  set (x := step DEFAULT_TIMINGS (demo_world 2000) demo_started demo_confirm).
  assert (reached DEFAULT_TIMINGS x.1 x.2) as H by exact demo_reached.
  destruct (active x.1) as [r|] eqn:E; [|vm_compute in E; discriminate E].
  exists x.1, x.2, r. split; [exact H|]. split; [exact E|].
  destruct (batch_is_bounded DEFAULT_TIMINGS x.1 x.2 r H E) as (Hb & _ & _).
  assert (r_stage r = SRest /\ flying r = 2%nat) as [Hs Hf] by (vm_compute in E; injection E as <-; vm_compute; split; reflexivity).
  split; [exact Hs|]. split; [exact Hf|]. exact (Hb Hs).
Defined.


Definition demo_failing : Rollouts :=
  match active demo_started with
  | Some r => write demo_started (with_nodes r (match r_nodes r with p :: l => set_node 1500 p Failed (Some "sha") None :: l | [] => [] end))
  | None => demo_started
  end.

Lemma pilot_failure_stops_witness : exists r', active (tick DEFAULT_TIMINGS (demo_world 2000) demo_failing).1 = Some r' /\
  r_stage r' = SStopped /\ r_finishedAt r' = None /\ past (tick DEFAULT_TIMINGS (demo_world 2000) demo_failing).1 = [].
Proof.
  destruct (active demo_failing) as [r|] eqn:E; [|vm_compute in E; discriminate E].
  destruct (r_nodes r !! 0%nat) as [p|] eqn:Hp; [|vm_compute in E; injection E as <-; vm_compute in Hp; discriminate Hp].
  destruct (pilot_failure_stops DEFAULT_TIMINGS (demo_world 2000) demo_failing r p E) as (r' & H1 & H2 & _ & _ & H5 & H6).
  - vm_compute in E. injection E as <-. vm_compute. reflexivity.
  - exact Hp.
  - vm_compute in E. injection E as <-. vm_compute in Hp. injection Hp as <-. vm_compute. reflexivity.
  - exists r'. split; [exact H1|]. split; [exact H2|]. split.
    + rewrite H5. vm_compute in E. injection E as <-. vm_compute. reflexivity.
    + apply nil_length_inv. rewrite H6. vm_compute. reflexivity.
Defined.
