(* ===== verification/Seats.v ===== *)
(** Seats and where to sit (src/shared/types.ts, seats.ts, allocate.ts): the
    shapes of the snapshot, the seats of a table, the search for a group of
    seats that belong together, and the allocation of a group to a run of
    tables. Coordinates are rationals. *)

From S2P Require Import Prelude.

Inductive SeatSide := L | R | T | B.
#[export] Instance side_eq_dec : EqDecision SeatSide.
Proof. solve_decision. Defined.

(** @shared/types.ts 12-17 Rect *)
Record Rect := { rect_x : Q; rect_y : Q; rect_width : Q; rect_height : Q }.

(** @shared/types.ts 21-33 SeatState *)
Record SeatState := {
  st_id : string; st_x : Q; st_y : Q; st_side : SeatSide; st_index : Z; st_occupied : option bool; st_neighbors : list string }.

(** @shared/types.ts 40-40 CoverageStatus *)
Inductive CoverageStatus := CovOk | CovFallback | CovUnknown.
#[export] Instance coverage_eq_dec : EqDecision CoverageStatus.
Proof. solve_decision. Defined.

(** @shared/types.ts 42-53 TableState *)
Record TableState := {
  tb_id : string; tb_name : string; tb_zoneId : string; tb_rect : Rect; tb_capacity : Z; tb_occupied : option Z;
  tb_free : option Z; tb_status : CoverageStatus; tb_seats : list SeatState }.

(** @shared/types.ts 55-61 ZoneState *)
Record ZoneState := { zn_id : string; zn_name : string; zn_polygon : list (Q * Q); zn_people : option Z }.

(** @shared/types.ts 63-70 FloorTotals *)
Record FloorTotals := { tt_seats : Z; tt_free : Z; tt_occupied : Z; tt_unknownSeats : Z; tt_tablesFullyFree : Z }.

(** @shared/types.ts 72-82 FloorState *)
Record FloorState := {
  fl_id : string; fl_building : string; fl_name : string; fl_width : Q; fl_height : Q; fl_outline : list (Q * Q);
  fl_zones : list ZoneState; fl_tables : list TableState; fl_totals : FloorTotals }.

(** @shared/types.ts 108-120 SeatSuggestion *)
Record SeatSuggestion := {
  sg_floorId : string; sg_floorName : string; sg_building : string; sg_tableIds : list string; sg_tableName : string;
  sg_seatIds : list string; sg_freeAtTable : Z; sg_capacity : Z; sg_busyness : Q }.

(** ** The seats of a table *)

(** @shared/seats.ts 16-16 SEAT_OFFSET_CM *)
Definition SEAT_OFFSET_CM : Q := 35.

(** @shared/seats.ts 18-25 SeatSpec *)
Record SeatSpec := { sp_id : string; sp_x : Q; sp_y : Q; sp_side : SeatSide; sp_index : Z; sp_neighbors : list string }.

Definition side_text (s : SeatSide) : string := match s with L => "L" | R => "R" | T => "T" | B => "B" end.

(** The seats of one side, without neighbours.
    @shared/seats.ts 37-49 generateSeats *)
Definition side_seats (tableId : string) (rect : Rect) (vertical : bool) (side : SeatSide) (n : nat) : list SeatSpec :=
  map (fun i : nat =>
    let t := ((inject_Z (Z.of_nat i) + (1 # 2)) / inject_Z (Z.of_nat n))%Q in
    let x := (if vertical
              then if bool_decide (side = L) then rect_x rect - SEAT_OFFSET_CM else rect_x rect + rect_width rect + SEAT_OFFSET_CM
              else rect_x rect + t * rect_width rect)%Q in
    let y := (if vertical then rect_y rect + t * rect_height rect
              else if bool_decide (side = T) then rect_y rect - SEAT_OFFSET_CM else rect_y rect + rect_height rect + SEAT_OFFSET_CM)%Q in
    {| sp_id := tableId +:+ "-" +:+ side_text side +:+ show (Z.of_nat i + 1); sp_x := inject_Z (js_round x); sp_y := inject_Z (js_round y);
       sp_side := side; sp_index := Z.of_nat i; sp_neighbors := [] |}) (List.seq 0 n).

(** [seats.find((s) => s.side === side && s.index === index)] *)
Definition seat_at (seats : list SeatSpec) (side : SeatSide) (index : Z) : option SeatSpec :=
  List.find (fun s => bool_decide (sp_side s = side) && (sp_index s =? index)) seats.

(** @shared/seats.ts 32-58 generateSeats *)
Definition generateSeats (tableId : string) (rect : Rect) (capacity : nat) : list SeatSpec :=
  let vertical := Qle_bool (rect_width rect) (rect_height rect) in
  let '(s0, s1) := if vertical then (L, R) else (T, B) in
  let seats := side_seats tableId rect vertical s0 (Nat.div2 (S capacity)) ++ side_seats tableId rect vertical s1 (Nat.div2 capacity) in
  map (fun seat =>
    let other := if bool_decide (sp_side seat = s0) then s1 else s0 in
    let near := [seat_at seats (sp_side seat) (sp_index seat - 1); seat_at seats (sp_side seat) (sp_index seat + 1);
                 seat_at seats other (sp_index seat)] in
    {| sp_id := sp_id seat; sp_x := sp_x seat; sp_y := sp_y seat; sp_side := sp_side seat; sp_index := sp_index seat;
       sp_neighbors := map sp_id (omap id near) |}) seats.

(** ** A group of seats at one table *)

(** @shared/seats.ts 67-67 findGroup *)
Definition free_seats (table : TableState) : list (string * SeatState) :=
  fold_left (fun m s => if bool_decide (st_occupied s = Some false) then om_set (st_id s) s m else m) (tb_seats table) [].

(** The free neighbours of a seat not seen yet, those on its own side first.
    @shared/seats.ts 81-84 findGroup *)
Definition next_seats (free : list (string * SeatState)) (seen : list string) (seat : SeatState) : list SeatState :=
  let away s := negb (bool_decide (st_side s = st_side seat)) in
  isort (fun a b => implb (away a) (away b))
    (List.filter (fun s => negb (includes (st_id s) seen)) (omap (fun id => om_get id free) (st_neighbors seat))).

(** The breadth-first walk; each turn picks one seat, so [n] turns are enough.
    @shared/seats.ts 74-89 findGroup *)
Fixpoint walk (n : nat) (free : list (string * SeatState)) (seen : list string) (queue picked : list SeatState) : list SeatState :=
  match n, queue with
  | S n', seat :: rest =>
      let next := next_seats free seen seat in
      walk n' free (seen ++ map st_id next) (rest ++ next) (picked ++ [seat])
  | _, _ => picked
  end.

(** The number of different sides. *)
Definition sides (l : list SeatState) : nat := length (remove_dups (map st_side l)).

(** The best start so far.
    @shared/seats.ts 71-96 findGroup *)
Definition try_start (free : list (string * SeatState)) (n : nat) (best : option (list string * nat)) (start : SeatState) :
    option (list string * nat) :=
  let picked := walk n free [st_id start] [start] [] in
  if Nat.ltb (length picked) n then best
  else if match best with None => true | Some (_, k) => Nat.ltb (sides picked) k end
       then Some (map st_id picked, sides picked) else best.

(** @shared/seats.ts 65-98 findGroup *)
Definition findGroup (table : TableState) (n : Z) : option (list string) :=
  if bool_decide (tb_status table = CovUnknown) || (n <? 1) then None
  else
    let free := free_seats table in
    if Z.of_nat (length free) <? n then None
    else fst <$> fold_left (try_start free (Z.to_nat n)) (map snd free) None.

(** ** The search *)

(** @shared/seats.ts 150-163 neighbouringTables *)
Definition near_tables (a b : TableState) : bool :=
  bool_decide (tb_zoneId a = tb_zoneId b) &&
  let ra := tb_rect a in let rb := tb_rect b in
  let gapX := Qmax' 0 (Qmax' (rect_x ra) (rect_x rb) - Qmin' (rect_x ra + rect_width ra) (rect_x rb + rect_width rb)) in
  let gapY := Qmax' 0 (Qmax' (rect_y ra) (rect_y rb) - Qmin' (rect_y ra + rect_height ra) (rect_y rb + rect_height rb)) in
  Qle_bool (gapX * gapX + gapY * gapY) (300 * 300).

Fixpoint neighbouringTables (tables : list TableState) : list (TableState * TableState) :=
  match tables with
  | [] => []
  | a :: rest => map (pair a) (List.filter (near_tables a) rest) ++ neighbouringTables rest
  end.

Definition ratio (a b : Z) : Q := (inject_Z a / inject_Z b)%Q.

(** @shared/seats.ts 109-123 searchSeats *)
Definition single_suggestion (floor : FloorState) (n : Z) (table : TableState) : list SeatSuggestion :=
  match findGroup table n, tb_free table, tb_occupied table with
  | Some group, Some free, Some occupied =>
      [{| sg_floorId := fl_id floor; sg_floorName := fl_name floor; sg_building := fl_building floor; sg_tableIds := [tb_id table];
          sg_tableName := tb_name table; sg_seatIds := group; sg_freeAtTable := free; sg_capacity := tb_capacity table;
          sg_busyness := ratio occupied (tb_capacity table) |}]
  | _, _, _ => []
  end.

(** @shared/seats.ts 126-141 searchSeats *)
Definition pair_suggestion (floor : FloorState) (n : Z) (ab : TableState * TableState) : list SeatSuggestion :=
  let '(a, b) := ab in
  match tb_free a, tb_free b, tb_occupied a, tb_occupied b with
  | Some fa, Some fb, Some oa, Some ob =>
      if fa + fb <? n then []
      else
        let seats := map st_id (take (Z.to_nat n) (List.filter (fun s => bool_decide (st_occupied s = Some false)) (tb_seats a ++ tb_seats b))) in
        [{| sg_floorId := fl_id floor; sg_floorName := fl_name floor; sg_building := fl_building floor;
            sg_tableIds := [tb_id a; tb_id b]; sg_tableName := tb_name a +:+ " + " +:+ tb_name b; sg_seatIds := seats;
            sg_freeAtTable := fa + fb; sg_capacity := tb_capacity a + tb_capacity b;
            sg_busyness := ratio (oa + ob) (tb_capacity a + tb_capacity b) |}]
  | _, _, _, _ => []
  end.

(** @shared/seats.ts 107-142 searchSeats *)
Definition floor_suggestions (n : Z) (floor : FloorState) : list SeatSuggestion :=
  let maxCapacity := fold_left Z.max (map tb_capacity (fl_tables floor)) 0 in
  (fl_tables floor ≫= single_suggestion floor n) ++
  (if maxCapacity <? n then neighbouringTables (fl_tables floor) ≫= pair_suggestion floor n else []).

Definition suggestion_before (p q : SeatSuggestion) : bool :=
  let lp := length (sg_tableIds p) in let lq := length (sg_tableIds q) in
  if negb (Nat.eqb lp lq) then Nat.ltb lp lq
  else if negb (Qeqb (sg_busyness p) (sg_busyness q)) then Qltb (sg_busyness p) (sg_busyness q)
  else sg_freeAtTable q <=? sg_freeAtTable p.

(** @shared/seats.ts 105-147 searchSeats *)
Definition searchSeats (floors : list FloorState) (n : Z) (floorId : option string) : list SeatSuggestion :=
  isort suggestion_before
    (List.filter (fun f => match floorId with
                           | Some id => bool_decide (id = EmptyString) || bool_decide (fl_id f = id)
                           | None => true end) floors ≫= floor_suggestions n).

(** ** Allocation to a run of tables *)

(** @shared/allocate.ts 23-29 TableShare *)
Record TableShare := { sh_tableId : string; sh_name : string; sh_take : Z }.
(** @shared/allocate.ts 31-39 Allocation *)
Record Allocation := { al_shares : list TableShare; al_label : string; al_seats : Z; al_waste : Z }.

(** The comparator is not transitive on every plan; what follows holds of any
    order.
    @shared/allocate.ts 46-54 walkOrder *)
Definition walkOrder (tables : list TableState) : list TableState :=
  let rowHeight := fold_left Qmax' (map (fun t => rect_height (tb_rect t)) tables) 1%Q in
  isort (fun a b =>
    let ay := (rect_y (tb_rect a) + rect_height (tb_rect a) / 2)%Q in
    let by_ := (rect_y (tb_rect b) + rect_height (tb_rect b) / 2)%Q in
    if Qltb (rowHeight * (3 # 4)) (Qabs (ay - by_)) then Qle_bool ay by_
    else Qle_bool (rect_x (tb_rect a)) (rect_x (tb_rect b))) tables.

(** @shared/allocate.ts 64-64 allocate *)
Definition live_free (t : TableState) : Z :=
  match tb_status t, tb_free t with CovUnknown, _ | _, None => 0 | _, Some f => f end.

Record Best := { b_start : nat; b_end : nat; b_length : nat; b_waste : Z }.

(** The run that starts at the head of [free]: how many tables, and their seats.
    @shared/allocate.ts 67-79 allocate *)
Fixpoint scan (n : Z) (free : list Z) (sum : Z) (len : nat) : option (nat * Z) :=
  match free with
  | [] => None
  | f :: rest =>
      if f =? 0 then None
      else if n <=? sum + f then Some (S len, sum + f - n) else scan n rest (sum + f) (S len)
  end.

(** @shared/allocate.ts 66-80 allocate *)
Fixpoint best_run (n : Z) (i : nat) (free : list Z) (best : option Best) : option Best :=
  match free with
  | [] => best
  | _ :: rest =>
      let best' :=
        match scan n free 0 0 with
        | None => best
        | Some (len, waste) =>
            if match best with
               | None => true
               | Some b => Nat.ltb len (b_length b) || (Nat.eqb len (b_length b) && (waste <? b_waste b))
               end
            then Some {| b_start := i; b_end := i + len - 1; b_length := len; b_waste := waste |} else best
        end in
      best_run n (S i) rest best'
  end.

(** @shared/allocate.ts 82-90 allocate *)
Fixpoint share_out (run : list TableState) (left : Z) : list TableShare :=
  match run with
  | [] => []
  | t :: rest =>
      if left <=? 0 then []
      else
        let take := Z.min (live_free t) left in
        if take <=? 0 then share_out rest left
        else {| sh_tableId := tb_id t; sh_name := tb_name t; sh_take := take |} :: share_out rest (left - take)
  end.

(** The trailing digits of a name, and what is before them. *)
Definition split_name (name : string) : option (string * Z) :=
  let rev := List.rev (chars name) in
  let digits := List.rev ((fix go l := match l with c :: l' => if is_digit c then c :: go l' else [] | [] => [] end) rev) in
  match digits with
  | [] => None
  | _ => Some (String.string_of_list_ascii (take (length rev - length digits) (chars name)), digits_value digits)
  end.

(** @shared/allocate.ts 111-121 consecutive *)
Fixpoint consecutive_from (previous : option (string * Z)) (names : list string) : bool :=
  match names with
  | [] => match previous with Some _ => true | None => false end
  | name :: rest =>
      match split_name name with
      | None => false
      | Some (prefix, n) =>
          if match previous with
             | Some (p, m) => negb (bool_decide (prefix = p)) || negb (n =? m + 1)
             | None => false end then false
          else consecutive_from (Some (prefix, n)) rest
      end
  end.

(** @shared/allocate.ts 102-108 label *)
Definition label (names : list string) : string :=
  match names with
  | [] => "No table"
  | [first] => "Table " +:+ first
  | first :: _ =>
      if consecutive_from None names then "Tables " +:+ first +:+ "–" +:+ List.last names EmptyString
      else "Tables " +:+ String.concat ", " names
  end.

(** @shared/allocate.ts 60-92 allocate *)
Definition allocate (floor : FloorState) (n : Z) : option Allocation :=
  if n <? 1 then None
  else
    let tables := walkOrder (fl_tables floor) in
    let free := map live_free tables in
    match best_run n 0 free None with
    | None => None
    | Some b =>
        let shares := share_out (take (b_end b + 1 - b_start b) (drop (b_start b) tables)) n in
        Some {| al_shares := shares; al_label := label (map sh_name shares); al_seats := n; al_waste := b_waste b |}
    end.

(** @shared/allocate.ts 124-126 knownFree *)
Definition knownFree (floor : FloorState) : Z := fold_left (fun sum t => sum + live_free t) (fl_tables floor) 0.

(** @shared/allocate.ts 129-131 floorIsDark *)
Definition floorIsDark (floor : FloorState) : bool :=
  Nat.ltb 0 (length (fl_tables floor)) &&
  forallb (fun t => bool_decide (tb_status t = CovUnknown) || match tb_free t with None => true | Some _ => false end) (fl_tables floor).

(** ** The group search is right *)

Definition is_free (s : SeatState) : Prop := st_occupied s = Some false.

(** Seats that belong together: different free seats of the table, each after
    the first next to one before it. *)
Definition group (table : TableState) (ids : list string) : Prop :=
  NoDup ids /\
  (forall id, id ∈ ids -> exists s, s ∈ tb_seats table /\ st_id s = id /\ is_free s) /\
  (forall k id, ids !! S k = Some id -> exists j s, (j <= k)%nat /\ s ∈ tb_seats table /\ ids !! j = Some (st_id s) /\ id ∈ st_neighbors s).

Definition table_wf (table : TableState) : Prop :=
  NoDup (map st_id (tb_seats table)) /\ Forall (fun s => NoDup (st_neighbors s)) (tb_seats table).

(** The map of the free seats. *)
Definition free_ok (table : TableState) (free : list (string * SeatState)) : Prop :=
  NoDup (om_keys free) /\ forall id s, om_get id free = Some s -> st_id s = id /\ s ∈ tb_seats table /\ is_free s.

Lemma free_seats_ok table : free_ok table (free_seats table).
Proof.
  unfold free_seats, free_ok.
  assert (forall l m, (forall s, s ∈ l -> s ∈ tb_seats table) -> NoDup (om_keys m) ->
    (forall id s, om_get id m = Some s -> st_id s = id /\ s ∈ tb_seats table /\ is_free s) ->
    let r := fold_left (fun m s => if bool_decide (st_occupied s = Some false) then om_set (st_id s) s m else m) l m in
    NoDup (om_keys r) /\ forall id s, om_get id r = Some s -> st_id s = id /\ s ∈ tb_seats table /\ is_free s) as H.
  { induction l as [|x l IH]; intros m Hl Hnd Hm; [done|]. cbn [fold_left]. apply IH.
    - intros s Hs. apply Hl. by right.
    - case_bool_decide; [by apply om_set_nodup | done].
    - case_bool_decide as E; [|done]. intros id s. rewrite om_get_set. case_bool_decide as Ei; [|apply Hm].
      intros [= <-]. split_and!; [done|apply Hl; by left|done]. }
  apply H; [done|constructor|done].
Qed.

Lemma free_seats_complete table s : NoDup (map st_id (tb_seats table)) -> s ∈ tb_seats table -> is_free s ->
  om_get (st_id s) (free_seats table) = Some s.
Proof.
  intros Hnd Hs Hf. unfold free_seats. generalize (@nil (string * SeatState)).
  revert Hnd Hs. induction (tb_seats table) as [|x l IH]; intros Hnd Hs m; [by apply not_elem_of_nil in Hs|].
  cbn [map] in Hnd. apply NoDup_cons in Hnd as [Hx Hnd]. cbn [fold_left].
  apply elem_of_cons in Hs as [->|Hs]; [|by apply IH].
  rewrite bool_decide_eq_true_2 by done.
  assert (forall l m, st_id x ∉ map st_id l -> om_get (st_id x) m = Some x ->
    om_get (st_id x) (fold_left (fun m s => if bool_decide (st_occupied s = Some false) then om_set (st_id s) s m else m) l m) = Some x) as H.
  { clear. induction l as [|y l IH]; intros m Hni Hm; [done|]. cbn [fold_left map] in *. apply not_elem_of_cons in Hni as [Hy Hni].
    apply IH; [done|]. case_bool_decide; [|done]. by rewrite om_get_set_ne. }
  apply H; [done|]. apply om_get_set_eq.
Qed.

(** What holds of the walk: [seen] names the picked and the queued seats. *)
Record walk_inv (free : list (string * SeatState)) (seen : list string) (queue picked : list SeatState) : Prop := {
  wi_seen : seen = map st_id (picked ++ queue);
  wi_nodup : NoDup seen;
  wi_free s : s ∈ picked ++ queue -> om_get (st_id s) free = Some s;
  wi_linked k s : (picked ++ queue) !! S k = Some s ->
    exists j p, (j <= k)%nat /\ (picked ++ queue) !! j = Some p /\ st_id s ∈ st_neighbors p;
  wi_closed p id s : p ∈ picked -> id ∈ st_neighbors p -> om_get id free = Some s -> id ∈ seen;
}.

Section walks.
Context (table : TableState) (free : list (string * SeatState)).
Hypothesis Hfree : free_ok table free.
Hypothesis Hneigh : Forall (fun s => NoDup (st_neighbors s)) (tb_seats table).

Lemma omap_get_ids ids : map st_id (omap (fun id => om_get id free) ids) = List.filter (fun id => om_has id free) ids.
Proof.
  induction ids as [|id ids IH]; [done|]. cbn. unfold om_has at 1. destruct (om_get id free) as [s|] eqn:E; cbn; [|done].
  destruct Hfree as [_ Hf]. destruct (Hf id s E) as [-> _]. by rewrite IH.
Qed.

Lemma next_seats_spec seen seat : seat ∈ tb_seats table ->
  NoDup (map st_id (next_seats free seen seat)) /\
  forall s, s ∈ next_seats free seen seat <-> om_get (st_id s) free = Some s /\ st_id s ∈ st_neighbors seat /\ st_id s ∉ seen.
Proof.
  intros Hs. set (cand := omap (fun id => om_get id free) (st_neighbors seat)).
  set (l := List.filter (fun s => negb (includes (st_id s) seen)) cand).
  assert (next_seats free seen seat ≡ₚ l) as Hp by apply isort_perm.
  assert (NoDup (map st_id cand)) as Hnc.
  { unfold cand. rewrite omap_get_ids. apply NoDup_ListNoDup, List.NoDup_filter, NoDup_ListNoDup.
    rewrite Forall_forall in Hneigh. by apply Hneigh. }
  split.
  - assert (map st_id (next_seats free seen seat) ≡ₚ map st_id l) as -> by (by apply Permutation_map).
    unfold l. clear -Hnc. induction cand as [|c cand IH]; [done|]. cbn [map] in Hnc. apply NoDup_cons in Hnc as [H1 H2]. cbn.
    destruct (negb _); [|by apply IH]. cbn. apply NoDup_cons. split; [|by apply IH].
    intros Hin. apply H1. apply list_elem_of_fmap in Hin as (y & -> & Hy). apply list_elem_of_In, filter_In in Hy as [Hy _].
    apply list_elem_of_fmap. exists y. split; [done|]. by apply list_elem_of_In.
  - intros s. rewrite Hp. unfold l. rewrite list_elem_of_In, filter_In, <- list_elem_of_In. unfold cand.
    rewrite list_elem_of_omap. split.
    + intros [(id & Hid & E) Hn]. destruct Hfree as [_ Hf]. destruct (Hf id s E) as [<- _].
      apply negb_true_iff, includes_false in Hn. done.
    + intros (E & Hin & Hn). split; [by exists (st_id s)|]. by apply negb_true_iff, includes_false.
Qed.

Lemma walk_step seen seat rest picked : walk_inv free seen (seat :: rest) picked ->
  walk_inv free (seen ++ map st_id (next_seats free seen seat)) (rest ++ next_seats free seen seat) (picked ++ [seat]).
Proof.
  intros [Hs Hnd Hf Hl Hc].
  assert (om_get (st_id seat) free = Some seat) as Hseat by (apply Hf; apply elem_of_app; right; by left).
  assert (seat ∈ tb_seats table) as Hin by (destruct Hfree as [_ H]; by apply (H _ _ Hseat)).
  destruct (next_seats_spec seen seat Hin) as [Hn1 Hn2]. set (next := next_seats free seen seat) in *.
  assert ((picked ++ [seat]) ++ rest ++ next = (picked ++ seat :: rest) ++ next) as Eq by (by rewrite <- !app_assoc).
  constructor.
  - rewrite Eq, map_app, <- Hs. done.
  - apply NoDup_app. split_and!; [done| |done]. intros x Hx Hx2.
    apply list_elem_of_fmap in Hx2 as (y & -> & Hy). apply Hn2 in Hy as (_ & _ & Hns). done.
  - intros s. rewrite Eq, elem_of_app. intros [H|H]; [by apply Hf | by apply Hn2].
  - intros k s. rewrite Eq. intros Hk. destruct (decide (S k < length (picked ++ seat :: rest))%nat) as [Hlt|Hge].
    + rewrite lookup_app_l in Hk by done. destruct (Hl k s Hk) as (j & p & Hj & Hp & Hn). exists j, p. split_and!; [done| |done].
      rewrite lookup_app_l; [done|]. lia.
    + exists (length picked), seat. assert (s ∈ next) as Hsn.
      { rewrite lookup_app_r in Hk by lia. by eapply list_elem_of_lookup_2. }
      apply Hn2 in Hsn as (_ & Hnb & _). rewrite length_app in Hge. cbn in Hge. split_and!; [lia| |done].
      rewrite lookup_app_l by (rewrite length_app; cbn; lia). rewrite lookup_app_r by lia. by rewrite Nat.sub_diag.
  - intros p id s. rewrite elem_of_app, list_elem_of_singleton, elem_of_app. intros [Hp| ->] Hid Hg.
    + left. by eapply Hc.
    + destruct (decide (id ∈ seen)) as [|Hns]; [by left|right]. destruct Hfree as [_ H]. destruct (H id s Hg) as [<- _].
      apply list_elem_of_fmap. exists s. split; [done|]. by apply Hn2.
Qed.

Lemma walk_spec n seen queue picked : walk_inv free seen queue picked ->
  exists seen' queue', walk_inv free seen' queue' (walk n free seen queue picked) /\
    (length (walk n free seen queue picked) <= length picked + n)%nat /\
    (length (walk n free seen queue picked) = (length picked + n)%nat \/ queue' = []) /\
    (forall x, x ∈ seen -> x ∈ seen').
Proof.
  revert seen queue picked; induction n as [|n IH]; intros seen queue picked Hi.
  - exists seen, queue. cbn. split_and!; [by destruct queue|lia|left; lia|done].
  - destruct queue as [|seat rest]; [exists seen, []; cbn; split_and!; [done|lia|by right|done]|].
    cbn [walk]. destruct (IH _ _ _ (walk_step _ _ _ _ Hi)) as (seen' & queue' & H1 & H2 & H3 & H4).
    rewrite length_app in H2, H3. cbn [length] in H2, H3. exists seen', queue'.
    split_and!; [done|lia|destruct H3 as [H3|H3]; [left; lia|by right]|]. intros x Hx. apply H4, elem_of_app. by left.
Qed.

Lemma walk_start start : om_get (st_id start) free = Some start -> walk_inv free [st_id start] [start] [].
Proof.
  intros H. constructor; cbn.
  - done.
  - apply NoDup_singleton.
  - by intros s ->%list_elem_of_singleton.
  - by intros [|k] s.
  - by intros p id s ?%not_elem_of_nil.
Qed.

Lemma try_start_sound n best start ids k : (0 < n)%nat ->
  om_get (st_id start) free = Some start ->
  (forall ids k, best = Some (ids, k) -> group table ids /\ length ids = n) ->
  try_start free n best start = Some (ids, k) -> group table ids /\ length ids = n.
Proof.
  intros Hn Hst Hb. unfold try_start. destruct (walk_spec n _ _ _ (walk_start start Hst)) as (seen & queue & [H1 H2 H3 H4 H5] & Hlen & _ & _).
  set (picked := walk n free [st_id start] [start] []) in *. cbn [length] in Hlen.
  destruct (Nat.ltb_spec (length picked) n) as [|Hge]; [apply Hb|].
  destruct (match best with None => true | Some (_, k0) => Nat.ltb (sides picked) k0 end); [|apply Hb]. intros [= <- <-].
  split; [|rewrite length_map; lia]. unfold group. split_and!.
  - rewrite H1, map_app in H2. by apply NoDup_app in H2 as (? & _ & _).
  - intros id (s & -> & Hs)%list_elem_of_fmap. destruct Hfree as [_ Hf].
    destruct (Hf _ _ (H3 s ltac:(apply elem_of_app; by left))) as (_ & ? & ?). by exists s.
  - intros j id Hid. rewrite list_lookup_fmap in Hid. destruct (picked !! S j) as [s|] eqn:E; [|done]. injection Hid as <-.
    assert ((picked ++ queue) !! S j = Some s) as E' by (rewrite lookup_app_l; [done | by eapply lookup_lt_Some]).
    destruct (H4 j s E') as (i & p & Hi & Hp & Hnb). exists i, p.
    assert (picked !! i = Some p) as Hpi.
    { rewrite lookup_app_l in Hp; [done|]. apply lookup_lt_Some in E. lia. }
    split_and!; [done| | |done].
    + destruct Hfree as [_ Hf]. apply (Hf (st_id p) p). apply H3, elem_of_app. left. by eapply list_elem_of_lookup_2.
    + by rewrite list_lookup_fmap, Hpi.
Qed.

Hypothesis Hids : NoDup (map st_id (tb_seats table)).

Lemma same_id s t : s ∈ tb_seats table -> t ∈ tb_seats table -> st_id s = st_id t -> s = t.
Proof.
  intros Hs Ht E. apply list_elem_of_lookup in Hs as (i & Hi), Ht as (j & Hj).
  assert (i = j) as ->; [|congruence].
  apply (NoDup_lookup _ i j (st_id s) Hids); rewrite list_lookup_fmap; [by rewrite Hi | by rewrite Hj, E].
Qed.

Lemma walk_short n start ids : om_get (st_id start) free = Some start ->
  (length (walk n free [st_id start] [start] []) < n)%nat ->
  group table ids -> ids !! 0%nat = Some (st_id start) ->
  (forall s, s ∈ tb_seats table -> is_free s -> om_get (st_id s) free = Some s) -> (length ids < n)%nat.
Proof.
  intros Hst Hlt (Hnd & Hin & Hlink) Hhead Hall.
  destruct (walk_spec n _ _ _ (walk_start start Hst)) as (seen & queue & [H1 H2 H3 H4 H5] & _ & [Hl| ->] & Hsub); [cbn in Hl; lia|].
  set (picked := walk n free [st_id start] [start] []) in *. rewrite app_nil_r in *.
  assert (forall k id, ids !! k = Some id -> id ∈ seen) as Hreach.
  { induction k as [k IH] using lt_wf_ind. intros id Hid. destruct k as [|k].
    - rewrite Hhead in Hid. injection Hid as <-. apply Hsub. by left.
    - destruct (Hlink k id Hid) as (j & s & Hj & Hs & Hjs & Hnb).
      assert (st_id s ∈ seen) as Hss by (apply (IH j); [lia|done]).
      rewrite H1 in Hss. apply list_elem_of_fmap in Hss as (p & Ep & Hp).
      pose proof (H3 p Hp) as Hgp. destruct Hfree as [_ Hf]. destruct (Hf _ _ Hgp) as (_ & Hsp & _).
      assert (s = p) as -> by (by apply (same_id s p)).
      destruct (Hin id) as (t & Ht & Et & Hft); [by eapply list_elem_of_lookup_2|].
      pose proof (Hall t Ht Hft) as Hgt. rewrite Et in Hgt. by eapply H5. }
  eapply Nat.le_lt_trans; [|exact Hlt]. rewrite <- (length_map st_id picked), <- H1.
  apply submseteq_length, NoDup_submseteq; [done|]. intros id (k & Hk)%list_elem_of_lookup. by eapply Hreach.
Qed.
End walks.

(** The group search finds a group exactly when there is one. For a table whose
    seats have different names and lists of different neighbours, [findGroup]
    answers with [n] different free seats, each next to one before it; and if
    any [n] free seats of the table belong together in that way, it does not
    answer with none. *)
Theorem findGroup_correct table n :
  table_wf table -> tb_status table <> CovUnknown -> 1 <= n ->
  (forall ids, findGroup table n = Some ids -> group table ids /\ Z.of_nat (length ids) = n) /\
  ((exists ids, group table ids /\ Z.of_nat (length ids) = n) -> findGroup table n <> None).
Proof.
  intros [Hids Hneigh] Hst Hn. unfold findGroup. rewrite bool_decide_eq_false_2 by done.
  rewrite (proj2 (Z.ltb_ge _ _)) by lia. cbn [orb].
  pose proof (free_seats_ok table) as Hfree. set (free := free_seats table) in *.
  assert (forall s, s ∈ map snd free -> om_get (st_id s) free = Some s) as Hval.
  { intros s ([id s'] & -> & Hin)%list_elem_of_fmap. cbn. destruct Hfree as [Hnd Hf].
    pose proof (om_elem_get _ _ _ Hnd Hin) as Hg. by destruct (Hf id s' Hg) as [-> _]. }
  split.
  - intros ids. destruct (_ <? _); [done|].
    assert (forall l best, (forall s, s ∈ l -> om_get (st_id s) free = Some s) ->
      (forall ids k, best = Some (ids, k) -> group table ids /\ length ids = Z.to_nat n) ->
      forall ids k, fold_left (try_start free (Z.to_nat n)) l best = Some (ids, k) -> group table ids /\ length ids = Z.to_nat n) as H.
    { induction l as [|x l IH]; intros best Hl Hb; [done|]. cbn [fold_left]. apply IH; [intros s Hs; apply Hl; by right|].
      intros ids' k'. apply (try_start_sound table free Hfree Hneigh); [lia|apply Hl; by left|done]. }
    destruct (fold_left _ _ _) as [[ids' k]|] eqn:E; [|done]. cbn. intros [= <-].
    destruct (H (map snd free) None Hval ltac:(done) ids' k E) as [Hg Hl]. split; [done|lia].
  - intros (ids & Hg & Hl) Hnone. pose proof Hg as (Hnd & Hin & _).
    assert (forall s, s ∈ tb_seats table -> is_free s -> om_get (st_id s) free = Some s) as Hall by (intros; by apply free_seats_complete).
    destruct (ids !! 0%nat) as [h|] eqn:Eh; [|apply lookup_ge_None in Eh; lia].
    destruct (Hin h) as (start & Hs & <- & Hfs); [by eapply list_elem_of_lookup_2|].
    pose proof (Hall start Hs Hfs) as Hgs.
    assert (length ids <= length free)%nat as Hle.
    { rewrite <- (om_length_keys free). apply submseteq_length, NoDup_submseteq; [done|]. intros id Hid.
      destruct (Hin id Hid) as (s & Hs' & <- & Hf'). eapply om_get_Some_keys. by apply Hall. }
    rewrite (proj2 (Z.ltb_ge _ _)) in Hnone by lia.
    assert (forall l best, fold_left (try_start free (Z.to_nat n)) l best = None -> best = None /\
      forall s, s ∈ l -> (length (walk (Z.to_nat n) free [st_id s] [s] []) < Z.to_nat n)%nat) as H.
    { induction l as [|x l IH]; intros best Hf; [by split; [|intros s ?%not_elem_of_nil]|]. cbn [fold_left] in Hf.
      destruct (IH _ Hf) as [Ht Hrest]. unfold try_start in Ht.
      destruct (Nat.ltb_spec (length (walk (Z.to_nat n) free [st_id x] [x] [])) (Z.to_nat n)) as [Hlt|]; cycle 1.
      { destruct best as [[? k]|]; [destruct (Nat.ltb _ k)|]; done. }
      split; [done|]. intros s [->|Hs']%elem_of_cons; [done | by apply Hrest]. }
    destruct (fold_left _ _ _) as [[? ?]|] eqn:E; [done|]. destruct (H _ _ E) as [_ Hshort].
    assert (start ∈ map snd free) as Hstart.
    { apply list_elem_of_fmap. exists (st_id start, start). split; [done|]. by apply om_get_elem. }
    pose proof (walk_short table free Hfree Hneigh Hids (Z.to_nat n) start ids Hgs (Hshort start Hstart) Hg Eh Hall). lia.
Qed.

(** ** The allocation is the best run *)

Definition zsum (l : list Z) : Z := foldr Z.add 0 l.

Lemma zsum_cons x l : zsum (x :: l) = x + zsum l.
Proof. reflexivity. Qed.
Lemma zsum_nil : zsum [] = 0.
Proof. reflexivity. Qed.
Opaque zsum.

Lemma zsum_app a b : zsum (a ++ b) = zsum a + zsum b.
Proof. induction a as [|x a IH]; cbn [app]; [by rewrite zsum_nil|]. rewrite !zsum_cons. lia. Qed.

(** A run of [len] tables from position [i] that can seat [n]: none of them full
    or unknown. *)
Definition run_fits (tables : list TableState) (n : Z) (i len : nat) : Prop :=
  let r := take len (drop i tables) in
  (1 <= len)%nat /\ length r = len /\ Forall (fun t => 0 < live_free t) r /\ n <= zsum (map live_free r).

Lemma scan_some n free sum len0 len w : sum < n -> scan n free sum len0 = Some (len, w) ->
  exists k, len = (len0 + S k)%nat /\ (S k <= length free)%nat /\ Forall (fun f => f <> 0) (take (S k) free) /\
    w = sum + zsum (take (S k) free) - n /\ 0 <= w /\ sum + zsum (take k free) < n.
Proof.
  revert sum len0; induction free as [|f free IH]; intros sum len0 Hs; [done|]. cbn [scan].
  destruct (Z.eqb_spec f 0) as [|Hf]; [done|]. destruct (Z.leb_spec n (sum + f)) as [Hle|Hlt].
  - intros [= <- <-]. exists 0%nat. rewrite firstn_cons, !take_0, zsum_cons, zsum_nil. cbn [length].
    split_and!; [lia|lia| |lia|lia|lia]. by constructor.
  - intros H. destruct (IH _ _ Hlt H) as (k & -> & Hk & Hall & -> & Hw & Hmin).
    exists (S k). rewrite !firstn_cons, !zsum_cons in *. cbn [length].
    split_and!; [lia|lia|by constructor|lia|lia|lia].
Qed.

Lemma scan_none n free sum len0 : sum < n -> scan n free sum len0 = None ->
  forall k, Forall (fun f => f <> 0) (take k free) -> sum + zsum (take k free) < n.
Proof.
  revert sum len0; induction free as [|f free IH]; intros sum len0 Hs H k Hall.
  - rewrite take_nil, zsum_nil. lia.
  - cbn [scan] in H. destruct k as [|k]; [rewrite take_0, zsum_nil; lia|]. cbn [take] in *. apply Forall_cons in Hall as [Hf Hall].
    rewrite (proj2 (Z.eqb_neq f 0) Hf) in H. destruct (Z.leb_spec n (sum + f)); [done|].
    specialize (IH _ _ ltac:(eassumption) H k Hall). rewrite zsum_cons. lia.
Qed.

Definition better (b : Best) (len : nat) (w : Z) : Prop := (b_length b < len)%nat \/ (b_length b = len /\ b_waste b <= w).

(** The search over starts: the result is a candidate, and beats every candidate. *)
Lemma best_run_spec n all i free best :
  drop i all = free ->
  let r := best_run n i free best in
  (r = best \/ exists b j, r = Some b /\ b_start b = j /\ (i <= j)%nat /\ scan n (drop j all) 0 0 = Some (b_length b, b_waste b) /\
     (b_end b + 1 - b_start b = b_length b)%nat) /\
  (forall b, best = Some b -> exists b', r = Some b' /\ better b' (b_length b) (b_waste b)) /\
  (forall j len w, (i <= j)%nat -> scan n (drop j all) 0 0 = Some (len, w) -> exists b', r = Some b' /\ better b' len w).
Proof.
  revert i best; induction free as [|f free IH]; intros i best Hd.
  - cbn. split_and!; [by left|intros b ->; exists b; split; [done|right; lia]|].
    intros j len w Hj Hs. assert (length all <= j)%nat as Hlen.
    { apply (f_equal length) in Hd. rewrite length_drop in Hd. cbn in Hd. lia. }
    rewrite drop_ge in Hs by lia. done.
  - cbn [best_run]. set (best' := match scan n (f :: free) 0 0 with None => best | Some _ => _ end).
    assert (drop (S i) all = free) as Hd' by (replace (S i) with (i + 1)%nat by lia; rewrite <- drop_drop, Hd; done).
    assert (drop i all = f :: free) as Hd0 by done.
    destruct (IH (S i) best' Hd') as (H1 & H2 & H3).
    assert ((best' = best \/ exists b, best' = Some b /\ b_start b = i /\ scan n (drop i all) 0 0 = Some (b_length b, b_waste b) /\
               (b_end b + 1 - b_start b = b_length b)%nat) /\
            (forall b, best = Some b -> exists b', best' = Some b' /\ better b' (b_length b) (b_waste b)) /\
            (forall len w, scan n (drop i all) 0 0 = Some (len, w) -> exists b', best' = Some b' /\ better b' len w)) as (G1 & G2 & G3).
    { unfold best'. rewrite Hd0. destruct (scan n (f :: free) 0 0) as [[len w]|] eqn:Es; cycle 1.
      { split_and!; [by left|intros b ->; exists b; split; [done|right; lia]|done]. }
      destruct (match best with None => true | Some b => Nat.ltb len (b_length b) || (Nat.eqb len (b_length b) && (w <? b_waste b)) end) eqn:Eb.
      - split_and!.
        + right. eexists. split; [done|]. cbn. split_and!; [done|done|].
          assert (exists k, len = S k) as (k & ->).
          { destruct (Z.ltb_spec 0 n) as [Hn|Hn].
            - destruct (scan_some _ _ _ _ _ _ Hn Es) as (k & -> & _). by exists k.
            - cbn in Es. destruct (f =? 0); [done|]. destruct (n <=? 0 + f) eqn:El; [injection Es as <- _; by exists 0%nat|].
              clear -Es. assert (forall free s l, scan n free s (S l) = Some (len, w) -> exists k, len = S k) as H.
              { induction free0 as [|x fr IH]; intros s l; [done|]. cbn. destruct (x =? 0); [done|].
                destruct (_ <=? _); [intros [= <- _]; by exists (S l)|apply IH]. }
              by eapply H. }
          lia.
        + intros b ->. eexists. split; [done|]. unfold better; cbn. bprop. lia.
        + intros len' w' [= <- <-]. eexists. split; [done|]. right; cbn; lia.
      - destruct best as [b|]; [|done]. split_and!; [by left|intros b0 [= <-]; exists b; split; [done|right; lia]|].
        intros len' w' [= <- <-]. exists b. split; [done|]. unfold better. bprop. lia. }
    assert (forall b' len w, better b' len w -> forall b'', better b'' (b_length b') (b_waste b') -> better b'' len w) as Htr.
    { unfold better. intros. lia. }
    split_and!.
    + destruct H1 as [->|(b & j & Hr & Hj & Hij & Hs & He)].
      * destruct G1 as [->|(b & Hb & Hi & Hs & He)]; [by left|right]. exists b, i. split_and!; [done|done|lia|exact Hs|done].
      * right. exists b, j. split_and!; [done|done|lia|done|done].
    + intros b Hb. destruct (G2 b Hb) as (b1 & Hb1 & Hbt). destruct (H2 b1 Hb1) as (b2 & Hb2 & Hbt2). exists b2. split; [done|]. exact (Htr _ _ _ Hbt _ Hbt2).
    + intros j len w Hj Hs. destruct (decide (j = i)) as [->|Hne].
      * destruct (G3 len w Hs) as (b1 & Hb1 & Hbt). destruct (H2 b1 Hb1) as (b2 & Hb2 & Hbt2). exists b2. split; [done|]. exact (Htr _ _ _ Hbt _ Hbt2).
      * apply (H3 j len w); [lia|done].
Qed.

Lemma scan_fits n free sum len0 m : sum < n -> (m <= length free)%nat -> Forall (fun f => 0 < f) (take m free) ->
  n <= sum + zsum (take m free) ->
  exists len w, scan n free sum len0 = Some (len, w) /\ ((len < len0 + m)%nat \/ (len = len0 + m)%nat /\ w = sum + zsum (take m free) - n).
Proof.
  revert sum len0 m; induction free as [|f free IH]; intros sum len0 m Hs Hm Hall Hn.
  - rewrite take_nil, zsum_nil in Hn. lia.
  - destruct m as [|m]; [rewrite take_0, zsum_nil in Hn; lia|]. rewrite firstn_cons in *. apply Forall_cons in Hall as [Hf Hall].
    rewrite zsum_cons in *. cbn [scan length] in *. rewrite (proj2 (Z.eqb_neq f 0)) by lia.
    destruct (Z.leb_spec n (sum + f)) as [Hle|Hlt].
    + eexists _, _. split; [done|]. destruct m as [|m]; [right|left; lia]. rewrite take_0, zsum_nil. split; lia.
    + destruct (IH (sum + f) (S len0) m Hlt ltac:(lia) Hall ltac:(lia)) as (len & w & H1 & H2).
      exists len, w. split; [done|]. destruct H2 as [H2|[H2 H3]]; [left; lia|right; split; lia].
Qed.

Lemma share_out_spec run last left : Forall (fun t => 0 < live_free t) (run ++ [last]) ->
  zsum (map live_free run) < left <= zsum (map live_free (run ++ [last])) ->
  let shares := share_out (run ++ [last]) left in
  Forall2 (fun s t => sh_tableId s = tb_id t /\ sh_name s = tb_name t /\ 0 < sh_take s <= live_free t) shares (run ++ [last]) /\
  zsum (map sh_take shares) = left.
Proof.
  revert left; induction run as [|t run IH]; intros left Hall Hl; cbn [app map] in *; apply Forall_cons in Hall as [Ht Hall].
  - rewrite zsum_cons, !zsum_nil in Hl. cbn [share_out]. rewrite (proj2 (Z.leb_gt _ _)) by lia.
    rewrite Z.min_r by lia. rewrite (proj2 (Z.leb_gt _ _)) by lia. cbn [map]. rewrite zsum_cons, zsum_nil. split; [|cbn; lia].
    constructor; [|constructor]. cbn. split_and!; [done|done|lia|lia].
  - assert (0 <= zsum (map live_free run)) as Hp.
    { clear -Hall. induction run as [|x run IH]; [cbn [map]; rewrite zsum_nil; lia|]. cbn [map app] in *. rewrite zsum_cons.
      apply Forall_cons in Hall as [? ?]. specialize (IH ltac:(done)). lia. }
    rewrite !zsum_cons in Hl. cbn [share_out]. rewrite (proj2 (Z.leb_gt _ _)) by lia.
    rewrite Z.min_l by lia. rewrite (proj2 (Z.leb_gt _ _)) by lia. destruct (IH (left - live_free t) Hall ltac:(lia)) as [H1 H2].
    cbn [map]. rewrite zsum_cons. cbn [sh_take]. split; [|lia]. constructor; [|done]. cbn. split_and!; [done|done|lia|lia].
Qed.

Lemma run_map tables i len : map live_free (take len (drop i tables)) = take len (drop i (map live_free tables)).
Proof. by rewrite <- firstn_map, <- skipn_map. Qed.

Lemma run_fits_free tables n i len : run_fits tables n i len ->
  (1 <= len)%nat /\ (len <= length (drop i (map live_free tables)))%nat /\
  Forall (fun f => 0 < f) (take len (drop i (map live_free tables))) /\ n <= zsum (take len (drop i (map live_free tables))).
Proof.
  unfold run_fits. intros (H1 & H2 & H3 & H4). rewrite run_map in H4. split_and!; [done| | |done].
  - rewrite length_take in H2. rewrite skipn_map, length_map. lia.
  - rewrite <- run_map. rewrite Forall_map. done.
Qed.

Definition run_waste (tables : list TableState) (n : Z) (i len : nat) : Z := zsum (map live_free (take len (drop i tables))) - n.

(** C33: A group is seated at the shortest run of neighbouring tables, and among
    those at the one that leaves the fewest seats over. Where the free counts
    are not negative, the answer of [allocate] is such a run of the walking
    order, every table of it is known and not full, its shares are one per
    table, none larger than the free seats, and add up to the size of the
    group; and there is no answer only when no run of tables can seat the
    group. *)
Theorem allocate_is_best floor n : 1 <= n -> Forall (fun t => 0 <= live_free t) (fl_tables floor) ->
  let order := walkOrder (fl_tables floor) in
  match allocate floor n with
  | Some a => exists i len,
      run_fits order n i len /\ al_seats a = n /\ al_waste a = run_waste order n i len /\
      Forall2 (fun s t => sh_tableId s = tb_id t /\ sh_name s = tb_name t /\ 0 < sh_take s <= live_free t)
        (al_shares a) (take len (drop i order)) /\
      zsum (map sh_take (al_shares a)) = n /\
      (forall j m, run_fits order n j m -> (len < m)%nat \/ (len = m /\ al_waste a <= run_waste order n j m))
  | None => forall j m, ~ run_fits order n j m
  end.
Proof.
  intros Hn Hpos order. unfold allocate. rewrite (proj2 (Z.ltb_ge _ _)) by lia. fold order.
  destruct (best_run_spec n (map live_free order) 0 (map live_free order) None eq_refl) as (H1 & _ & H3).
  assert (forall j m, run_fits order n j m -> exists len w b, scan n (drop j (map live_free order)) 0 0 = Some (len, w) /\
    ((len < m)%nat \/ len = m /\ w = run_waste order n j m) /\ best_run n 0 (map live_free order) None = Some b /\ better b len w) as Hcand.
  { intros j m (Hm1 & Hm & Hall & Hle)%run_fits_free.
    destruct (scan_fits n (drop j (map live_free order)) 0 0 m ltac:(lia) Hm Hall ltac:(lia)) as (len & w & Hs & Hc).
    destruct (H3 j len w ltac:(lia) Hs) as (b & Hb & Hbt). exists len, w, b. split_and!; [done| |done|done].
    unfold run_waste. rewrite run_map. cbn in Hc. destruct Hc as [?|[-> ->]]; [by left|right]. split; [done|lia]. }
  destruct (best_run n 0 (map live_free order) None) as [b|].
  - destruct H1 as [|(b' & j & [= <-] & Hj & _ & Hscan & Hend)]; [done|]. rewrite Hend. rewrite Hj.
    destruct (scan_some _ _ _ _ _ _ (ltac:(lia) : 0 < n) Hscan) as (k & Hlen & Hk & Hall & Hw & Hw0 & Hmin).
    cbn [Nat.add] in Hlen. rewrite Hlen. exists j, (S k).
    assert (Forall (fun t => 0 <= live_free t) (take (S k) (drop j order))) as Hpos'.
    { apply Forall_take, Forall_drop. unfold order, walkOrder. by rewrite (isort_perm _ (fl_tables floor)). }
    rewrite <- run_map in Hall, Hw. rewrite <- (run_map order j k) in Hmin. rewrite Forall_map in Hall.
    assert (length (take (S k) (drop j order)) = S k) as Hl.
    { rewrite length_take. rewrite skipn_map, length_map in Hk. lia. }
    assert (Forall (fun t => 0 < live_free t) (take (S k) (drop j order))) as Hgt.
    { rewrite Forall_forall in *. intros t Ht. specialize (Hall t Ht). specialize (Hpos' t Ht). cbn in *. lia. }
    destruct (exists_last (l := take (S k) (drop j order))) as (run & last & Erun); [by intros E; rewrite E in Hl|].
    assert (take k (drop j order) = run) as Ek.
    { replace k with (k `min` S k)%nat by lia. rewrite <- take_take, Erun. apply take_app_length'.
      apply (f_equal length) in Erun. rewrite Hl, length_app in Erun. cbn in Erun. lia. }
    rewrite Ek in Hmin. cbn [al_shares al_seats al_waste].
    destruct (share_out_spec run last n) as [Hs1 Hs2]; [by rewrite <- Erun|rewrite <- Erun; lia|]. rewrite <- Erun in Hs1, Hs2.
    split_and!; [|done|rewrite Hw; unfold run_waste; lia|done|done|].
    + unfold run_fits. split_and!; [lia|done|done|lia].
    + intros j' m Hf. destruct (Hcand j' m Hf) as (len & w & b' & _ & Hc & [= <-] & Hbt). unfold better in Hbt. lia.
  - intros j m Hf. destruct (Hcand j m Hf) as (? & ? & ? & _ & _ & ? & _). done.
Qed.

(** ** Witnesses *)

Definition demo_seat (id : string) (side : SeatSide) (occupied : bool) (near : list string) : SeatState :=
  {| st_id := id; st_x := 0; st_y := 0; st_side := side; st_index := 0; st_occupied := Some occupied; st_neighbors := near |}.

Definition demo_table (id : string) (x : Q) (seats : list SeatState) : TableState :=
  let free := Z.of_nat (length (List.filter (fun s => bool_decide (st_occupied s = Some false)) seats)) in
  {| tb_id := id; tb_name := id; tb_zoneId := "z"; tb_rect := {| rect_x := x; rect_y := 0; rect_width := 80; rect_height := 160 |};
     tb_capacity := Z.of_nat (length seats); tb_occupied := Some (Z.of_nat (length seats) - free); tb_free := Some free;
     tb_status := CovOk; tb_seats := seats |}.

Definition demo_a : TableState := demo_table "A1" 0
  [demo_seat "A1-L1" L false ["A1-L2"; "A1-R1"]; demo_seat "A1-L2" L false ["A1-L1"; "A1-R2"];
   demo_seat "A1-R1" R true ["A1-R2"; "A1-L1"]; demo_seat "A1-R2" R false ["A1-R1"; "A1-L2"]].
Definition demo_b : TableState := demo_table "A2" 300 [demo_seat "A2-L1" L false ["A2-R1"]; demo_seat "A2-R1" R false ["A2-L1"]].

Definition demo_floor : FloorState :=
  {| fl_id := "f"; fl_building := "b"; fl_name := "n"; fl_width := 1000; fl_height := 1000; fl_outline := []; fl_zones := [];
     fl_tables := [demo_b; demo_a]; fl_totals := {| tt_seats := 6; tt_free := 5; tt_occupied := 1; tt_unknownSeats := 0; tt_tablesFullyFree := 1 |} |}.

Lemma findGroup_correct_witness :
  findGroup demo_a 3 = Some ["A1-L1"; "A1-L2"; "A1-R2"] /\ group demo_a ["A1-L1"; "A1-L2"; "A1-R2"] /\
  (exists ids, group demo_a ids /\ Z.of_nat (length ids) = 2) /\ findGroup demo_a 2 <> None.
Proof.
  assert (table_wf demo_a) as Hwf.
  { split; [apply (bool_decide_unpack _); vm_compute; exact I|]. repeat constructor; apply (bool_decide_unpack _); vm_compute; exact I. }
  assert (tb_status demo_a <> CovUnknown) as Hst by discriminate.
  assert (findGroup demo_a 3 = Some ["A1-L1"; "A1-L2"; "A1-R2"]) as H3 by reflexivity.
  assert (exists ids, group demo_a ids /\ Z.of_nat (length ids) = 2) as H2.
  { exists ["A1-R2"; "A1-L2"]. split; [|reflexivity]. split; [apply (bool_decide_unpack _); vm_compute; exact I|]. split.
    - intros id [->|[->|[]%elem_of_nil]%elem_of_cons]%elem_of_cons.
      + exists (demo_seat "A1-R2" R false ["A1-R1"; "A1-L2"]). split_and!; [do 3 right; left|reflexivity|reflexivity].
      + exists (demo_seat "A1-L2" L false ["A1-L1"; "A1-R2"]). split_and!; [right; left|reflexivity|reflexivity].
    - intros [|k] id E; [|done]. injection E as <-. exists 0%nat, (demo_seat "A1-R2" R false ["A1-R1"; "A1-L2"]).
      split_and!; [lia|do 3 right; left|reflexivity|right; left]. }
  split; [exact H3|]. split.
  - apply (findGroup_correct demo_a 3 Hwf Hst ltac:(lia)). exact H3.
  - split; [exact H2|]. apply (findGroup_correct demo_a 2 Hwf Hst ltac:(lia)). exact H2.
Defined.

Lemma allocate_is_best_witness :
  (exists a, allocate demo_floor 4 = Some a /\ map sh_take (al_shares a) = [3; 1] /\ al_label a = "Tables A1–A2" /\ al_waste a = 1 /\
     forall j m, run_fits (walkOrder (fl_tables demo_floor)) 4 j m ->
       (2 < m)%nat \/ (2%nat = m /\ 1 <= run_waste (walkOrder (fl_tables demo_floor)) 4 j m)) /\
  forall j m, ~ run_fits (walkOrder (fl_tables demo_floor)) 6 j m.
Proof.
  assert (Forall (fun t => 0 <= live_free t) (fl_tables demo_floor)) as Hpos by (repeat constructor; vm_compute; discriminate).
  split.
  - pose proof (allocate_is_best demo_floor 4 ltac:(lia) Hpos) as H. cbv zeta in H.
    destruct (allocate demo_floor 4) as [a|] eqn:E; [|vm_compute in E; discriminate]. exists a.
    vm_compute in E. injection E as <-. destruct H as (i & len & _ & _ & _ & Hsh & _ & Hbest).
    assert (len <= 2)%nat as Hlen.
    { destruct (Hbest 0%nat 2%nat) as [Hlt|[-> _]]; [|lia|lia].
      unfold run_fits. split_and!; [lia|vm_compute; reflexivity|repeat constructor|vm_compute; discriminate]. }
    apply Forall2_length in Hsh. rewrite length_take in Hsh. cbn [al_shares length] in Hsh. assert (len = 2%nat) as -> by lia.
    split_and!; [reflexivity|reflexivity|reflexivity|reflexivity|]. exact Hbest.
  - exact (allocate_is_best demo_floor 6 ltac:(lia) Hpos).
Defined.
