(* ===== verification/Geometry.v ===== *)
(** Sensor pixels and the floor plan (src/shared/geometry.ts). Coordinates are
    rationals; the trigonometric functions of the language's [Math] object are
    the class [Trig], so everything the code computes around them is explicit. *)

From S2P Require Import Prelude.

Class Trig := { tan : Q -> Q; cos : Q -> Q; sin : Q -> Q; atan2 : Q -> Q -> Q; PI : Q }.

Abbreviation Point := (Q * Q)%type.

(** @shared/types.ts 124-134 NodePose *)
Record NodePose := { ps_x : Q; ps_y : Q; ps_heightCm : Q; ps_yawDeg : Q; ps_mirror : bool }.

(** @shared/geometry.ts 20-20 GRID_W *)
Definition GRID_W : Q := 32.
(** @shared/geometry.ts 21-21 GRID_H *)
Definition GRID_H : Q := 24.
(** @shared/geometry.ts 22-22 HALF_FOV_X_DEG *)
Definition HALF_FOV_X_DEG : Q := 55.
(** @shared/geometry.ts 23-23 HALF_FOV_Y_DEG *)
Definition HALF_FOV_Y_DEG : Q := 75 # 2.
(** @shared/geometry.ts 25-25 TARGET_HEIGHT_CM *)
Definition TARGET_HEIGHT_CM : Q := 110.

Section geometry.
Context {T : Trig}.
Open Scope Q_scope.

(** @shared/geometry.ts 27-27 DEG *)
Definition DEG : Q := PI / 180.

(** @shared/geometry.ts 30-40 pixelToFloor *)
Definition pixelToFloor (pose : NodePose) (u v zCm : Q) : Point :=
  let d := Qmax' (ps_heightCm pose - zCm) 1 in
  let ax := ((u - GRID_W / 2) / (GRID_W / 2)) * HALF_FOV_X_DEG * DEG in
  let ay := ((v - GRID_H / 2) / (GRID_H / 2)) * HALF_FOV_Y_DEG * DEG in
  let lx := d * tan ax in
  let ly := d * tan ay in
  let lx := if ps_mirror pose then - lx else lx in
  let c := cos (ps_yawDeg pose * DEG) in
  let s := sin (ps_yawDeg pose * DEG) in
  (ps_x pose + lx * c - ly * s, ps_y pose + lx * s + ly * c).

(** @shared/geometry.ts 43-56 floorToPixel *)
Definition floorToPixel (pose : NodePose) (x y zCm : Q) : option Point :=
  let d := Qmax' (ps_heightCm pose - zCm) 1 in
  let c := cos (ps_yawDeg pose * DEG) in
  let s := sin (ps_yawDeg pose * DEG) in
  let dx := x - ps_x pose in
  let dy := y - ps_y pose in
  let lx := dx * c + dy * s in
  let ly := - dx * s + dy * c in
  let lx := if ps_mirror pose then - lx else lx in
  let u := (atan2 lx d / (HALF_FOV_X_DEG * DEG)) * (GRID_W / 2) + GRID_W / 2 in
  let v := (atan2 ly d / (HALF_FOV_Y_DEG * DEG)) * (GRID_H / 2) + GRID_H / 2 in
  if Qltb u 0 || Qltb GRID_W u || Qltb v 0 || Qltb GRID_H v then None else Some (u, v).

(** @shared/geometry.ts 59-66 footprint *)
Definition footprint (pose : NodePose) (zCm : Q) (stepsPerEdge : nat) : list Point :=
  let n := inject_Z (Z.of_nat stepsPerEdge) in
  let up := List.seq 0 stepsPerEdge in
  let down := List.rev (List.seq 1 stepsPerEdge) in
  map (fun i => pixelToFloor pose (GRID_W * inject_Z (Z.of_nat i) / n) 0 zCm) up ++
  map (fun i => pixelToFloor pose GRID_W (GRID_H * inject_Z (Z.of_nat i) / n) zCm) up ++
  map (fun i => pixelToFloor pose (GRID_W * inject_Z (Z.of_nat i) / n) GRID_H zCm) down ++
  map (fun i => pixelToFloor pose 0 (GRID_H * inject_Z (Z.of_nat i) / n) zCm) down.

(** @shared/geometry.ts 69-74 pixelAreaCm2 *)
Definition pixelAreaCm2 (pose : NodePose) (u v zCm : Q) : Q :=
  let '(x0, y0) := pixelToFloor pose (u - (1 # 2)) (v - (1 # 2)) zCm in
  let '(x1, y1) := pixelToFloor pose (u + (1 # 2)) (v - (1 # 2)) zCm in
  let '(x2, y2) := pixelToFloor pose (u - (1 # 2)) (v + (1 # 2)) zCm in
  Qabs ((x1 - x0) * (y2 - y0) - (y1 - y0) * (x2 - x0)).

End geometry.

(** Whether the edge from [a] back to [b] is crossed to the right of the point.
    @shared/geometry.ts 82-82 pointInPolygon *)
Definition crosses (p a b : Point) : bool :=
  xorb (Qltb p.2 a.2) (Qltb p.2 b.2) && Qltb p.1 ((b.1 - a.1) * (p.2 - a.2) / (b.2 - a.2) + a.1)%Q.

(** The fold over the vertices, [b] the one before.
    @shared/geometry.ts 79-85 pointInPolygon *)
Fixpoint pip_loop (p b : Point) (poly : list Point) (inside : bool) : bool :=
  match poly with
  | [] => inside
  | a :: rest => pip_loop p a rest (if crosses p a b then negb inside else inside)
  end.

(** @shared/geometry.ts 76-87 pointInPolygon *)
Definition pointInPolygon (p : Point) (poly : list Point) : bool :=
  match poly with
  | [] => false
  | _ => pip_loop p (List.last poly (0%Q, 0%Q)) poly false
  end.

(** ** Order on rationals as booleans *)

Lemma Qltb_ge a b : Qltb a b = false <-> (b <= a)%Q.
Proof. unfold Qltb. by rewrite negb_false_iff, Qle_bool_iff. Qed.
Lemma Qmax'_ge_r a b : (b <= Qmax' a b)%Q.
Proof. unfold Qmax'. destruct (Qle_bool a b) eqn:E; [lra|]. apply not_true_iff_false in E. rewrite Qle_bool_iff in E. lra. Qed.
#[export] Hint Rewrite Qltb_lt Qltb_ge Qle_bool_iff : bool_prop.

(** ** The projection and its inverse *)

(** What the code relies on of the trigonometric functions: the identity of
    Pythagoras, and that [atan2] undoes [tan] in front of the sensor. *)
Class TrigLaws {T : Trig} : Prop := {
  PI_pos : (0 < PI)%Q;
  cos_sin a : (cos a * cos a + sin a * sin a == 1)%Q;
  atan2_comp x y d : (x == y -> atan2 x d == atan2 y d)%Q;
  atan2_tan a d : (0 < d -> - (PI / 2) < a -> a < PI / 2 -> atan2 (d * tan a) d == a)%Q;
}.

Section roundtrip.
Context {T : Trig} {L : TrigLaws}.
Open Scope Q_scope.

Lemma DEG_pos : 0 < DEG.
Proof. unfold DEG. pose proof PI_pos. apply Qlt_shift_div_l; lra. Qed.

(** Half the field of view is under a right angle, on either axis. *)
Lemma view_angle half fov u : 0 < half -> 0 < fov -> fov < 90 -> 0 <= u -> u <= 2 * half ->
  - (PI / 2) < ((u - half) / half) * fov * DEG /\ ((u - half) / half) * fov * DEG < PI / 2.
Proof.
  intros Hh Hf Hf9 H0 H1. pose proof DEG_pos as HD.
  assert (PI / 2 == 90 * DEG) as -> by (unfold DEG; field).
  assert (-(1) <= (u - half) / half) as Hl by (apply Qle_shift_div_l; lra).
  assert ((u - half) / half <= 1) as Hu by (apply Qle_shift_div_r; lra).
  set (r := (u - half) / half) in *.
  assert (- fov <= r * fov <= fov) as [H2 H3] by nra. set (w := r * fov) in *. split; nra.
Qed.

(** The angle a projected coordinate is seen under. *)
Lemma view_back half fov u x d : 0 < d -> 0 < half -> 0 < fov -> fov < 90 -> 0 <= u -> u <= 2 * half ->
  x == d * tan (((u - half) / half) * fov * DEG) ->
  (atan2 x d / (fov * DEG)) * half + half == u.
Proof.
  intros Hd Hh Hf Hf9 H0 H1 E. pose proof DEG_pos. rewrite (atan2_comp _ _ d E).
  destruct (view_angle half fov u) as [? ?]; try done. rewrite atan2_tan by done. field. split; [|split]; lra.
Qed.

Lemma unrotate lx ly c s : c * c + s * s == 1 ->
  (lx * c - ly * s) * c + (lx * s + ly * c) * s == lx /\ - (lx * c - ly * s) * s + (lx * s + ly * c) * c == ly.
Proof.
  intros H. split.
  - assert (((lx * c - ly * s) * c + (lx * s + ly * c) * s) == (lx * (c * c + s * s))) as -> by ring. rewrite H. ring.
  - assert ((- (lx * c - ly * s) * s + (lx * s + ly * c) * c) == (ly * (c * c + s * s))) as -> by ring. rewrite H. ring.
Qed.

(** The two projections are inverse to each other. Whatever the pose of the
    node, its height, rotation and mirroring included, the plan point that a
    pixel position of the sensor sees is seen by the lens at that pixel
    position. *)
Theorem projection_roundtrip pose u v zCm :
  0 <= u -> u <= GRID_W -> 0 <= v -> v <= GRID_H ->
  let p := pixelToFloor pose u v zCm in
  exists q, floorToPixel pose p.1 p.2 zCm = Some q /\ q.1 == u /\ q.2 == v.
Proof.
  intros Hu0 Hu1 Hv0 Hv1. unfold floorToPixel, pixelToFloor. cbn [fst snd].
  set (d := Qmax' (ps_heightCm pose - zCm) 1). assert (0 < d) as Hd by (pose proof (Qmax'_ge_r (ps_heightCm pose - zCm) 1); fold d in H; lra).
  set (c := cos (ps_yawDeg pose * DEG)). set (s := sin (ps_yawDeg pose * DEG)).
  set (ax := (u - GRID_W / 2) / (GRID_W / 2) * HALF_FOV_X_DEG * DEG). set (ay := (v - GRID_H / 2) / (GRID_H / 2) * HALF_FOV_Y_DEG * DEG).
  set (lx := if ps_mirror pose then - (d * tan ax) else d * tan ax). set (ly := d * tan ay).
  set (dx := ps_x pose + lx * c - ly * s - ps_x pose). set (dy := ps_y pose + lx * s + ly * c - ps_y pose).
  assert (dx == lx * c - ly * s) as Edx by (unfold dx; ring). assert (dy == lx * s + ly * c) as Edy by (unfold dy; ring).
  destruct (unrotate lx ly c s (cos_sin _)) as [Ex Ey]. rewrite <- Edx, <- Edy in Ex, Ey.
  set (lx' := if ps_mirror pose then - (dx * c + dy * s) else dx * c + dy * s).
  assert (lx' == d * tan ax) as Elx by (unfold lx'; destruct (ps_mirror pose); rewrite Ex; unfold lx; ring).
  set (u' := atan2 lx' d / (HALF_FOV_X_DEG * DEG) * (GRID_W / 2) + GRID_W / 2).
  set (v' := atan2 (- dx * s + dy * c) d / (HALF_FOV_Y_DEG * DEG) * (GRID_H / 2) + GRID_H / 2).
  unfold GRID_W, GRID_H in *.
  assert (u' == u) as Eu by (apply view_back; [done|reflexivity|reflexivity|reflexivity|done|by apply (Qle_trans _ 32)|exact Elx]).
  assert (v' == v) as Ev by (apply view_back; [done|reflexivity|reflexivity|reflexivity|done|by apply (Qle_trans _ 24)|exact Ey]).
  assert (Qltb u' 0 = false) as -> by (apply Qltb_ge; lra). assert (Qltb 32 u' = false) as -> by (apply Qltb_ge; lra).
  assert (Qltb v' 0 = false) as -> by (apply Qltb_ge; lra). assert (Qltb 24 v' = false) as -> by (apply Qltb_ge; lra).
  by exists (u', v').
Qed.
End roundtrip.

(** ** Points in a rectangular zone *)

Definition rect_polygon (x0 y0 x1 y1 : Q) : list Point := [(x0, y0); (x1, y0); (x1, y1); (x0, y1)].

Lemma crosses_vertical px py x ya yb : (ya < yb)%Q ->
  crosses (px, py) (x, yb) (x, ya) = Qle_bool ya py && Qltb py yb && Qltb px x.
Proof.
  intros Hy. unfold crosses. cbn [fst snd].
  assert (((x - x) * (py - yb) / (ya - yb) + x == x)%Q) as E by (field; lra).
  assert (Qltb px ((x - x) * (py - yb) / (ya - yb) + x) = Qltb px x) as -> by (unfold Qltb; by rewrite E).
  f_equal. unfold Qltb. destruct (Qle_bool yb py) eqn:E1, (Qle_bool ya py) eqn:E2; try done.
  apply Qle_bool_iff in E1. apply not_true_iff_false in E2. rewrite Qle_bool_iff in E2. lra.
Qed.

Lemma crosses_sym p x ya yb : crosses p (x, yb) (x, ya) = crosses p (x, ya) (x, yb).
Proof.
  unfold crosses. cbn [fst snd]. rewrite xorb_comm. f_equal. unfold Qltb. f_equal.
  assert (forall y k, (x - x) * y / k + x == x)%Q as E by (intros; unfold Qdiv; ring). by rewrite !E.
Qed.

Lemma crosses_horizontal p a b y : crosses p (a, y) (b, y) = false.
Proof. unfold crosses. cbn [fst snd]. by rewrite xorb_nilpotent. Qed.

(** A rectangular zone contains exactly the points between its sides, the low
    sides included and the high sides not, so of two zones that share a side a
    point is in at most one. *)
Theorem pointInPolygon_rectangle x0 y0 x1 y1 px py : (x0 < x1)%Q -> (y0 < y1)%Q ->
  pointInPolygon (px, py) (rect_polygon x0 y0 x1 y1) = Qle_bool y0 py && Qltb py y1 && Qle_bool x0 px && Qltb px x1.
Proof.
  intros Hx Hy. unfold pointInPolygon, rect_polygon. cbn [List.last pip_loop].
  rewrite !crosses_horizontal, (crosses_sym _ x0 y1 y0), !crosses_vertical by done.
  destruct (Qle_bool y0 py) eqn:E1, (Qltb py y1) eqn:E2; cbn [andb]; try done.
  unfold Qltb. destruct (Qle_bool x0 px) eqn:E3, (Qle_bool x1 px) eqn:E4; cbn [andb negb]; try done.
  apply Qle_bool_iff in E4. apply not_true_iff_false in E3. rewrite Qle_bool_iff in E3. lra.
Qed.

(** ** Witnesses *)

(** Trigonometry in which every rotation is the identity and angles are their
    own tangents satisfies the laws. *)
Definition flat_trig : Trig := {| tan := fun a => a; cos := fun _ => 1%Q; sin := fun _ => 0%Q; atan2 := fun y x => (y / x)%Q; PI := 3%Q |}.

Lemma flat_laws : @TrigLaws flat_trig.
Proof.
  constructor; cbn.
  - reflexivity.
  - intros; ring.
  - intros x y d ->; reflexivity.
  - intros a d Hd _ _. field. lra.
Qed.

Definition demo_pose : NodePose := {| ps_x := 300; ps_y := 200; ps_heightCm := 270; ps_yawDeg := 90; ps_mirror := true |}.

Lemma projection_roundtrip_witness :
  exists q, @floorToPixel flat_trig demo_pose (@pixelToFloor flat_trig demo_pose 7 20 TARGET_HEIGHT_CM).1
    (@pixelToFloor flat_trig demo_pose 7 20 TARGET_HEIGHT_CM).2 TARGET_HEIGHT_CM = Some q /\ (q.1 == 7)%Q /\ (q.2 == 20)%Q.
Proof. exact (@projection_roundtrip flat_trig flat_laws demo_pose 7 20 TARGET_HEIGHT_CM ltac:(discriminate) ltac:(discriminate) ltac:(discriminate) ltac:(discriminate)). Defined.

Lemma pointInPolygon_rectangle_witness :
  pointInPolygon (5, 0)%Q (rect_polygon 0 0 10 10) = true /\ pointInPolygon (10, 5)%Q (rect_polygon 0 0 10 10) = false.
Proof.
  split.
  - exact (pointInPolygon_rectangle 0 0 10 10 5 0 ltac:(reflexivity) ltac:(reflexivity)).
  - exact (pointInPolygon_rectangle 0 0 10 10 10 5 ltac:(reflexivity) ltac:(reflexivity)).
Defined.
