(* ===== verification/Registry.v ===== *)
(** The site configuration (src/edge/registry.ts): what a floor plan and a list
    of nodes must look like to be accepted, who owns and who covers each table.

    A floor's tables and the entries of the seat index are the same objects as
    the tables of the site, so they are kept by name and the site's map holds
    the one copy that ownership and coverage write to. Error texts are the
    code's without the value they quote. *)

From S2P Require Import Prelude Json Geometry Seats.

(** @edge/registry.ts 17-34 TableDef *)
Record TableDef := {
  td_id : string; td_name : string; td_floorId : string; td_zoneId : string; td_rect : Rect; td_capacity : Z;
  td_seats : list SeatSpec; td_seatRadiusCm : option Q; td_coveredBy : list string; td_owner : option string }.

(** @edge/registry.ts 36-40 ZoneDef *)
Record ZoneDef := { zd_id : string; zd_name : string; zd_polygon : list Point }.

(** @edge/registry.ts 47-47 Visibility *)
Inductive Visibility := Public | Console.
#[export] Instance visibility_eq_dec : EqDecision Visibility.
Proof. solve_decision. Defined.

(** @edge/registry.ts 49-59 FloorDef *)
Record FloorDef := {
  fd_id : string; fd_visibility : Visibility; fd_building : string; fd_name : string; fd_width : Q; fd_height : Q;
  fd_outline : list Point; fd_zones : list ZoneDef; fd_tables : list string }.

(** @edge/registry.ts 96-96 NodeDetector *)
Inductive NodeDetector := OnNode | OnEdge.
#[export] Instance detector_eq_dec : EqDecision NodeDetector.
Proof. solve_decision. Defined.

(** @edge/registry.ts 61-94 NodeDef *)
Record NodeDef := {
  nd_uid : string; nd_label : string; nd_floorId : option string; nd_pose : option NodePose; nd_owns : list string;
  nd_simulated : bool; nd_rgb : bool; nd_detector : NodeDetector }.

(** @edge/registry.ts 98-104 Registry *)
Record Registry := {
  rg_siteId : string; rg_siteName : string; rg_floors : list FloorDef; rg_tables : list (string * TableDef);
  rg_nodes : list (string * NodeDef); rg_seatIndex : list (string * (SeatSpec * string)) }.

Definition at_ (w : string) (i : nat) : string := w +:+ "[" +:+ show (Z.of_nat i) +:+ "]".

(** ** Reading a field *)

(** @edge/registry.ts 110-113 obj *)
Definition obj (v : option json) (w : string) : result string (list (string * json)) :=
  match v with Some (JObj o) => Ok o | _ => Err (w +:+ ": expected an object") end.

(** @edge/registry.ts 115-119 only *)
Definition only (o : list (string * json)) (w : string) (allowed : list string) : result string unit :=
  match List.find (fun k => negb (includes k allowed)) (om_keys o) with
  | Some k => Err (w +:+ ": unknown field " +:+ k)
  | None => Ok tt
  end.

(** [s.trim() === ''] *)
Definition is_blank (s : string) : bool := forallb is_space (chars s).

(** @edge/registry.ts 121-125 str *)
Definition str (o : list (string * json)) (k w : string) : result string string :=
  match field k o with
  | Some (JStr s) => throw_if is_blank s with (w +:+ "." +:+ k +:+ ": expected a non-empty string") in Ok s
  | _ => Err (w +:+ "." +:+ k +:+ ": expected a non-empty string")
  end.

(** @edge/registry.ts 127-133 num *)
Definition num (o : list (string * json)) (k w : string) (lo hi : Q) : result string Q :=
  match field k o with
  | Some (JNum v) => throw_if Qltb v lo || Qltb hi v with (w +:+ "." +:+ k +:+ ": expected a number in range") in Ok v
  | _ => Err (w +:+ "." +:+ k +:+ ": expected a number in range")
  end.

Definition point_of (v : json) : option Point :=
  match v with JArr [JNum x; JNum y] => Some (x, y) | _ => None end.

(** @edge/registry.ts 135-143 points *)
Definition points (v : option json) (w : string) : result string (list Point) :=
  match v with
  | Some (JArr l) =>
      throw_if Nat.ltb (length l) 3 with (w +:+ ": expected at least 3 [x, y] points") in
      rmap (fun p => of_option (w +:+ ": expected [x, y]") (point_of p)) l
  | _ => Err (w +:+ ": expected at least 3 [x, y] points")
  end.

(** A [forEach] whose body may throw, with the index. *)
Fixpoint for_each {S A} (f : nat -> A -> S -> result string S) (i : nat) (l : list A) (s : S) : result string S :=
  match l with
  | [] => Ok s
  | x :: rest => let! s' := f i x s in for_each f (Datatypes.S i) rest s'
  end.

Definition array_of (v : option json) (msg : string) : result string (list json) :=
  match v with Some (JArr l) => Ok l | _ => Err msg end.

Definition non_empty {A} (l : list A) (msg : string) : result string unit :=
  match l with [] => Err msg | _ => Ok tt end.

(** ** Floors, zones and tables *)

(** @edge/registry.ts 191-198 buildRegistry *)
Definition add_zone (w : string) (zi : nat) (zv : json) (zones : list ZoneDef) : result string (list ZoneDef) :=
  let zw := at_ (w +:+ ".zones") zi in
  let! z := obj (Some zv) zw in
  let! _ := only z zw ["id"; "name"; "polygon"] in
  let! id := str z "id" zw in
  let! name := str z "name" zw in
  let! polygon := points (field "polygon" z) (zw +:+ ".polygon") in
  throw_if existsb (fun x => bool_decide (zd_id x = id)) zones with (zw +:+ ": duplicate zone id " +:+ id) in
  Ok (zones ++ [{| zd_id := id; zd_name := name; zd_polygon := polygon |}]).

Definition side_of (v : option json) : option SeatSide :=
  match v with
  | None => Some L
  | Some (JStr s) =>
      if bool_decide (s = "L") then Some L else if bool_decide (s = "R") then Some R
      else if bool_decide (s = "T") then Some T else if bool_decide (s = "B") then Some B else None
  | Some _ => None
  end.

(** @edge/registry.ts 367-381 explicitSeats *)
Definition add_seat (tableId : string) (floor : FloorDef) (w : string) (i : nat) (sv : json) (seats : list SeatSpec) :
    result string (list SeatSpec) :=
  let sw := at_ (w +:+ ".seats") i in
  let! o := obj (Some sv) sw in
  let! _ := only o sw ["id"; "x"; "y"; "side"] in
  let! side := of_option (sw +:+ ".side: expected L, R, T or B") (side_of (field "side" o)) in
  let! id := str o "id" sw in
  let! x := num o "x" sw 0 (fd_width floor) in
  let! y := num o "y" sw 0 (fd_height floor) in
  Ok (seats ++ [{| sp_id := tableId +:+ "-" +:+ id; sp_x := x; sp_y := y; sp_side := side; sp_index := Z.of_nat i; sp_neighbors := [] |}]).

Definition sq (x : Q) : Q := (x * x)%Q.

(** @edge/registry.ts 363-387 explicitSeats *)
Definition explicitSeats (v : json) (tableId : string) (capacity : Z) (floor : FloorDef) (w : string) : result string (list SeatSpec) :=
  match v with
  | JArr l =>
      throw_if negb (Z.of_nat (length l) =? capacity) with (w +:+ ".seats: expected exactly the table's capacity") in
      let! seats := for_each (add_seat tableId floor w) 0 l [] in
      throw_if negb (bool_decide (NoDup (map sp_id seats))) with (w +:+ ".seats: duplicate seat id") in
      Ok (map (fun a =>
        {| sp_id := sp_id a; sp_x := sp_x a; sp_y := sp_y a; sp_side := sp_side a; sp_index := sp_index a;
           sp_neighbors := map sp_id (List.filter (fun b => negb (sp_index a =? sp_index b) &&
             Qle_bool (sq (sp_x a - sp_x b) + sq (sp_y a - sp_y b)) (100 * 100)) seats) |}) seats)
  | _ => Err (w +:+ ".seats: expected exactly the table's capacity")
  end.

(** What the loops over floors and tables have built. *)
Record Build := { bd_floors : list FloorDef; bd_tables : list (string * TableDef); bd_seatIndex : list (string * (SeatSpec * string)) }.

(** @edge/registry.ts 227-227 buildRegistry *)
Definition table_seats (t : list (string * json)) (id : string) (rect : Rect) (capacity : Z) (floor : FloorDef) (tw : string) :
    result string (list SeatSpec) :=
  match field "seats" t with
  | None => Ok (generateSeats id rect (Z.to_nat capacity))
  | Some v => explicitSeats v id capacity floor tw
  end.

(** @edge/registry.ts 201-235 buildRegistry *)
Definition add_table (w : string) (ti : nat) (tv : json) (st : FloorDef * (list (string * TableDef) * list (string * (SeatSpec * string)))) :
    result string (FloorDef * (list (string * TableDef) * list (string * (SeatSpec * string)))) :=
  let '(floor, (tables, seatIndex)) := st in
  let tw := at_ (w +:+ ".tables") ti in
  let! t := obj (Some tv) tw in
  let! _ := only t tw ["id"; "name"; "zone"; "x"; "y"; "width"; "height"; "capacity"; "seats"; "seatRadiusCm"] in
  let! id := str t "id" tw in
  throw_if om_has id tables with (tw +:+ ": duplicate table id " +:+ id +:+ " (table ids are unique site-wide)") in
  let! zoneId := str t "zone" tw in
  throw_if negb (existsb (fun z => bool_decide (zd_id z = zoneId)) (fd_zones floor))
    with (tw +:+ ".zone: no zone " +:+ zoneId +:+ " on floor " +:+ fd_id floor) in
  let! x := num t "x" tw 0 (fd_width floor) in
  let! y := num t "y" tw 0 (fd_height floor) in
  let! width := num t "width" tw 20 2000 in
  let! height := num t "height" tw 20 2000 in
  let rect := {| rect_x := x; rect_y := y; rect_width := width; rect_height := height |} in
  throw_if Qltb (fd_width floor) (x + width) || Qltb (fd_height floor) (y + height) with (tw +:+ ": table extends past the floor") in
  let! capacity := num t "capacity" tw 1 20 in
  let! capacity := of_option (tw +:+ ".capacity: must be a whole number") (as_integer (JNum capacity)) in
  let! name := str t "name" tw in
  let! seats := table_seats t id rect capacity floor tw in
  let! radius := match field "seatRadiusCm" t with None => Ok None | Some _ => let! r := num t "seatRadiusCm" tw 20 150 in Ok (Some r) end in
  let table := {| td_id := id; td_name := name; td_floorId := fd_id floor; td_zoneId := zoneId; td_rect := rect; td_capacity := capacity;
                  td_seats := seats; td_seatRadiusCm := radius; td_coveredBy := []; td_owner := None |} in
  let floor' := {| fd_id := fd_id floor; fd_visibility := fd_visibility floor; fd_building := fd_building floor; fd_name := fd_name floor;
                   fd_width := fd_width floor; fd_height := fd_height floor; fd_outline := fd_outline floor; fd_zones := fd_zones floor;
                   fd_tables := fd_tables floor ++ [id] |} in
  Ok (floor', (om_set id table tables, fold_left (fun m s => om_set (sp_id s) (s, id) m) seats seatIndex)).

Definition visibility_of (v : option json) (w : string) : result string Visibility :=
  match v with
  | None => Ok Public
  | Some (JStr s) =>
      if bool_decide (s = "public") then Ok Public else if bool_decide (s = "console") then Ok Console
      else Err (w +:+ ".visibility: expected public or console")
  | Some _ => Err (w +:+ ".visibility: expected public or console")
  end.

(** @edge/registry.ts 170-237 buildRegistry *)
Definition add_floor (fi : nat) (fv : json) (st : Build) : result string Build :=
  let w := at_ "floors" fi in
  let! f := obj (Some fv) w in
  let! _ := only f w ["id"; "building"; "name"; "width"; "height"; "outline"; "zones"; "tables"; "visibility"] in
  let! visibility := visibility_of (field "visibility" f) w in
  let! id := str f "id" w in
  let! building := str f "building" w in
  let! name := str f "name" w in
  let! width := num f "width" w 100 100000 in
  let! height := num f "height" w 100 100000 in
  let! outline := points (field "outline" f) (w +:+ ".outline") in
  throw_if existsb (fun x => bool_decide (fd_id x = id)) (bd_floors st) with (w +:+ ": duplicate floor id " +:+ id) in
  let! zonesJson := array_of (field "zones" f) (w +:+ ".zones: expected a non-empty array") in
  let! _ := non_empty zonesJson (w +:+ ".zones: expected a non-empty array") in
  let! zones := for_each (add_zone w) 0 zonesJson [] in
  let! tablesJson := array_of (field "tables" f) (w +:+ ".tables: expected an array") in
  let floor := {| fd_id := id; fd_visibility := visibility; fd_building := building; fd_name := name; fd_width := width; fd_height := height;
                  fd_outline := outline; fd_zones := zones; fd_tables := [] |} in
  let! done := for_each (add_table w) 0 tablesJson (floor, (bd_tables st, bd_seatIndex st)) in
  let '(floor', (tables, seatIndex)) := done in
  Ok {| bd_floors := bd_floors st ++ [floor']; bd_tables := tables; bd_seatIndex := seatIndex |}.

(** ** Nodes *)

(** @edge/registry.ts 145-145 UID_RE *)
Definition UID_RE (s : string) : bool :=
  bool_decide (length (chars s) = 17%nat) && (fix go (i : nat) l := match l with
    | [] => true
    | c :: l' => (if Nat.eqb (Nat.modulo i 3) 2 then code c =? 58 else is_hex_lower c) && go (S i) l'
    end) 0%nat (chars s).

Definition lower_char (c : Ascii.ascii) : Ascii.ascii := if is_upper c then Ascii.ascii_of_N (Z.to_N (code c + 32)) else c.
(** [toLowerCase] on the characters a uid can have. *)
Definition toLowerCase (s : string) : string := String.string_of_list_ascii (map lower_char (chars s)).

Definition strings_of (v : json) : option (list string) :=
  match v with JArr l => let s := omap as_string l in if Nat.eqb (length s) (length l) then Some s else None | _ => None end.

Definition is_bool_or_absent (v : option json) : bool := match v with None | Some (JBool _) => true | _ => false end.
Definition is_true (v : option json) : bool := match v with Some (JBool b) => b | _ => false end.

(** @edge/registry.ts 325-325 buildRegistry *)
Definition label_of (v : option json) (uid : string) : string :=
  match v with Some (JStr s) => if bool_decide (s = EmptyString) then uid else s | _ => uid end.

(** @edge/registry.ts 253-258 buildRegistry *)
Definition detector_of (v : option json) (w : string) : result string NodeDetector :=
  match v with
  | None => Ok OnNode
  | Some (JStr s) =>
      if bool_decide (s = "edge") then Ok OnEdge else if bool_decide (s = "node") then Ok OnNode
      else Err (w +:+ ".detector: expected node or edge")
  | Some _ => Err (w +:+ ".detector: expected node or edge")
  end.

(** @edge/registry.ts 296-306 buildRegistry *)
Definition parse_pose (p : list (string * json)) (floor : FloorDef) (w : string) : result string NodePose :=
  let pw := w +:+ ".pose" in
  let! _ := only p pw ["x"; "y"; "heightCm"; "yawDeg"; "mirror"] in
  let! x := num p "x" pw (-1000) (fd_width floor + 1000) in
  let! y := num p "y" pw (-1000) (fd_height floor + 1000) in
  let! heightCm := num p "heightCm" pw 150 1500 in
  let! yawDeg := match field "yawDeg" p with None => Ok 0%Q | Some _ => num p "yawDeg" pw (-360) 360 end in
  throw_if negb (is_bool_or_absent (field "mirror" p)) with (pw +:+ ".mirror: expected true/false") in
  Ok {| ps_x := x; ps_y := y; ps_heightCm := heightCm; ps_yawDeg := yawDeg; ps_mirror := is_true (field "mirror" p) |}.

Definition set_owner (uid : string) (t : TableDef) : TableDef :=
  {| td_id := td_id t; td_name := td_name t; td_floorId := td_floorId t; td_zoneId := td_zoneId t; td_rect := td_rect t;
     td_capacity := td_capacity t; td_seats := td_seats t; td_seatRadiusCm := td_seatRadiusCm t; td_coveredBy := td_coveredBy t;
     td_owner := Some uid |}.

(** @edge/registry.ts 309-315 buildRegistry *)
Definition own (w uid floorId : string) (_ : nat) (tid : string) (tables : list (string * TableDef)) :
    result string (list (string * TableDef)) :=
  match om_get tid tables with
  | None => Err (w +:+ ".owns: no table " +:+ tid)
  | Some t =>
      throw_if negb (bool_decide (td_floorId t = floorId)) with (w +:+ ".owns: table " +:+ tid +:+ " is on another floor") in
      match td_owner t with
      | Some o => Err (w +:+ ".owns: table " +:+ tid +:+ " is already owned by " +:+ o)
      | None => Ok (om_set tid (set_owner uid t) tables)
      end
  end.

(** @edge/registry.ts 271-290 buildRegistry *)
Definition add_unplaced (w uid : string) (detector : NodeDetector) (n : list (string * json)) (nodes : list (string * NodeDef)) :
    result string (list (string * NodeDef)) :=
  throw_if match field "owns" n with Some (JArr (_ :: _)) => true | _ => false end
    with (w +:+ ".owns: an unplaced node cannot own tables; place it first") in
  throw_if is_true (field "rgb" n) with (w +:+ ".rgb: place the node before marking it RGB") in
  Ok (om_set uid {| nd_uid := uid; nd_label := label_of (field "label" n) uid; nd_floorId := None; nd_pose := None; nd_owns := [];
                    nd_simulated := is_true (field "simulated" n); nd_rgb := false; nd_detector := detector |} nodes).

(** @edge/registry.ts 292-332 buildRegistry *)
Definition add_placed (w uid : string) (detector : NodeDetector) (floors : list FloorDef) (n : list (string * json))
    (st : list (string * TableDef) * list (string * NodeDef)) : result string (list (string * TableDef) * list (string * NodeDef)) :=
  let '(tables, nodes) := st in
  let! floorId := str n "floor" w in
  let! floor := of_option (w +:+ ".floor: no floor " +:+ floorId) (List.find (fun f => bool_decide (fd_id f = floorId)) floors) in
  let! p := obj (field "pose" n) (w +:+ ".pose") in
  let! pose := parse_pose p floor w in
  let! owns := of_option (w +:+ ".owns: expected an array of table ids") (o ← field "owns" n; strings_of o) in
  let! tables := for_each (own w uid floorId) 0 owns tables in
  throw_if negb (is_bool_or_absent (field "simulated" n)) with (w +:+ ".simulated: expected true/false") in
  throw_if negb (is_bool_or_absent (field "rgb" n)) with (w +:+ ".rgb: expected true/false") in
  throw_if is_true (field "rgb" n) && negb (bool_decide (fd_visibility floor = Console))
    with (w +:+ ".rgb: an RGB node is only allowed on a floor with console visibility") in
  Ok (tables, om_set uid {| nd_uid := uid; nd_label := label_of (field "label" n) uid; nd_floorId := Some floorId; nd_pose := Some pose;
                            nd_owns := owns; nd_simulated := is_true (field "simulated" n); nd_rgb := is_true (field "rgb" n);
                            nd_detector := detector |} nodes).

(** @edge/registry.ts 243-333 buildRegistry *)
Definition add_node (floors : list FloorDef) (ni : nat) (nv : json) (st : list (string * TableDef) * list (string * NodeDef)) :
    result string (list (string * TableDef) * list (string * NodeDef)) :=
  let w := at_ "nodes" ni in
  let! n := obj (Some nv) w in
  let! _ := only n w ["uid"; "label"; "floor"; "pose"; "owns"; "simulated"; "rgb"; "detector"] in
  throw_if negb (is_bool_or_absent (field "simulated" n)) with (w +:+ ".simulated: expected true/false") in
  throw_if negb (is_bool_or_absent (field "rgb" n)) with (w +:+ ".rgb: expected true/false") in
  throw_if match field "owns" n with None => false | Some v => match strings_of v with None => true | Some _ => false end end
    with (w +:+ ".owns: expected an array of table ids") in
  let! detector := detector_of (field "detector" n) w in
  let! uid := str n "uid" w in
  let uid := toLowerCase uid in
  throw_if negb (UID_RE uid) with (w +:+ ".uid: expected a MAC like 30:ed:a0:cb:f5:f8") in
  throw_if om_has uid (snd st) with (w +:+ ": duplicate uid " +:+ uid) in
  match field "floor" n, field "pose" n with
  | None, None => let! nodes := add_unplaced w uid detector n (snd st) in Ok (fst st, nodes)
  | Some _, Some _ => add_placed w uid detector floors n st
  | _, _ => Err (w +:+ ": give both floor and pose, or neither (an unplaced node)")
  end.

(** ** Who covers a table *)

Section coverage.
Context {T : Trig}.

(** @edge/registry.ts 389-392 seesWithMargin *)
Definition seesWithMargin (pose : NodePose) (x y : Q) : bool :=
  match floorToPixel pose x y TARGET_HEIGHT_CM with
  | None => false
  | Some (px, py) =>
      Qle_bool (1 # 2) px && Qle_bool px (GRID_W - (1 # 2)) && Qle_bool (1 # 2) py && Qle_bool py (GRID_H - (1 # 2))
  end.

(** The square of the distance; only its order is used.
    @edge/registry.ts 394-396 dist *)
Definition dist2 (pose : NodePose) (t : TableDef) : Q :=
  (sq (ps_x pose - (rect_x (td_rect t) + rect_width (td_rect t) / 2)) +
   sq (ps_y pose - (rect_y (td_rect t) + rect_height (td_rect t) / 2)))%Q.

(** The nodes that see every seat of a table, with their poses, nearest first.
    @edge/registry.ts 337-344 buildRegistry *)
Definition seeing (nodes : list (string * NodeDef)) (table : TableDef) : list (NodeDef * NodePose) :=
  let placed := omap (fun n => p ← nd_pose n; Some (n, p)) (map snd nodes) in
  isort (fun a b => Qle_bool (dist2 a.2 table) (dist2 b.2 table))
    (List.filter (fun np => forallb (fun s => seesWithMargin np.2 (sp_x s) (sp_y s)) (td_seats table))
      (List.filter (fun np => bool_decide (nd_floorId np.1 = Some (td_floorId table))) placed)).

Definition set_coveredBy (l : list string) (t : TableDef) : TableDef :=
  {| td_id := td_id t; td_name := td_name t; td_floorId := td_floorId t; td_zoneId := td_zoneId t; td_rect := td_rect t;
     td_capacity := td_capacity t; td_seats := td_seats t; td_seatRadiusCm := td_seatRadiusCm t; td_coveredBy := l;
     td_owner := td_owner t |}.

(** @edge/registry.ts 348-351 buildRegistry *)
Definition coveredBy (nodes : list (string * NodeDef)) (table : TableDef) : list string :=
  let uids := map (fun np => nd_uid np.1) (seeing nodes table) in
  match td_owner table with
  | None => uids
  | Some o => o :: List.filter (fun u => negb (bool_decide (u = o))) uids
  end.

(** @edge/registry.ts 336-352 buildRegistry *)
Definition cover (nodes : list (string * NodeDef)) (_ : nat) (entry : string * TableDef) (tables : list (string * TableDef)) :
    result string (list (string * TableDef)) :=
  let '(id, table) := entry in
  throw_if match td_owner table with
           | None => false
           | Some o => negb (existsb (fun np => bool_decide (nd_uid np.1 = o)) (seeing nodes table))
           end with ("table " +:+ td_id table +:+ ": its owner cannot see all of its seats from that pose") in
  Ok (om_set id (set_coveredBy (coveredBy nodes table) table) tables).

(** @edge/registry.ts 158-243 buildRegistry *)
Definition buildRegistry (siteJson nodesJson : json) : result string Registry :=
  let! root := obj (Some siteJson) "site.json" in
  let! _ := only root "site.json" ["site"; "floors"] in
  let! siteObj := obj (field "site" root) "site.json.site" in
  let! _ := only siteObj "site" ["id"; "name"] in
  let! siteId := str siteObj "id" "site" in
  let! siteName := str siteObj "name" "site" in
  let! floorsJson := array_of (field "floors" root) "site.json.floors: expected a non-empty array" in
  let! _ := non_empty floorsJson "site.json.floors: expected a non-empty array" in
  let! b := for_each add_floor 0 floorsJson {| bd_floors := []; bd_tables := []; bd_seatIndex := [] |} in
  let! nroot := obj (Some nodesJson) "nodes.json" in
  let! _ := only nroot "nodes.json" ["nodes"] in
  let! nodesJ := array_of (field "nodes" nroot) "nodes.json.nodes: expected an array" in
  let! tn := for_each (add_node (bd_floors b)) 0 nodesJ (bd_tables b, []) in
  let '(tables, nodes) := tn in
  let! tables' := for_each (cover nodes) 0 tables tables in
  Ok {| rg_siteId := siteId; rg_siteName := siteName; rg_floors := bd_floors b; rg_tables := tables'; rg_nodes := nodes;
        rg_seatIndex := bd_seatIndex b |}.
End coverage.

(** ** Loops that may throw *)

Lemma for_each_inv {S A} (I : S -> Prop) (f : nat -> A -> S -> result string S) l i s s' :
  (forall i x s s', x ∈ l -> I s -> f i x s = Ok s' -> I s') -> I s -> for_each f i l s = Ok s' -> I s'.
Proof.
  revert i s; induction l as [|x l IH]; intros i s Hf Hs; cbn [for_each]; [by intros [= <-]|].
  intros (s1 & H1 & H2)%rbind_ok. apply (IH (Datatypes.S i) s1); [|by eapply Hf; [left| |exact H1]|done].
  intros i' x' t t' Hx. apply Hf. by right.
Qed.

Lemma find_by_id {A} (key : A -> string) id l x : List.find (fun y => bool_decide (key y = id)) l = Some x -> x ∈ l /\ key x = id.
Proof. intros [H1 H2%bool_decide_eq_true]%find_some. by rewrite list_elem_of_In. Qed.

Lemma not_exists_id {A} (key : A -> string) id l : existsb (fun y => bool_decide (key y = id)) l = false -> id ∉ map key l.
Proof.
  intros H (y & -> & Hy)%list_elem_of_fmap. apply not_true_iff_false in H. apply H. apply existsb_exists.
  exists y. split; [by apply list_elem_of_In | by apply bool_decide_eq_true].
Qed.

(** ** Tables *)

Definition floor_ids (floors : list FloorDef) : list string := map fd_id floors.

(** What is true of a table on the floor it was read for. *)
Definition table_on (floor : FloorDef) (t : TableDef) : Prop :=
  td_floorId t = fd_id floor /\ (exists z, z ∈ fd_zones floor /\ zd_id z = td_zoneId t) /\
  (0 <= rect_x (td_rect t) /\ 0 <= rect_y (td_rect t) /\ rect_x (td_rect t) + rect_width (td_rect t) <= fd_width floor /\
   rect_y (td_rect t) + rect_height (td_rect t) <= fd_height floor)%Q /\
  1 <= td_capacity t <= 20 /\ Z.of_nat (length (td_seats t)) = td_capacity t.

Lemma num_range o k w lo hi v : num o k w lo hi = Ok v -> (lo <= v <= hi)%Q.
Proof. unfold num. destruct (field k o) as [[]|]; try done. intros H. inv_ok H. injection H as <-. bprop. tauto. Qed.

Lemma div2_split n : (Nat.div2 (S n) + Nat.div2 n = n)%nat.
Proof. induction n as [|n IH]; [done|]. change (Nat.div2 (S (S n))) with (S (Nat.div2 n)). lia. Qed.

Lemma generateSeats_length id rect capacity : length (generateSeats id rect capacity) = capacity.
Proof.
  unfold generateSeats. destruct (Qle_bool _ _); rewrite length_map, length_app; unfold side_seats; rewrite !length_map, !length_seq; apply div2_split.
Qed.

Lemma table_seats_length t id rect capacity floor tw seats : 0 <= capacity ->
  table_seats t id rect capacity floor tw = Ok seats -> Z.of_nat (length seats) = capacity.
Proof.
  intros Hc. unfold table_seats. destruct (field "seats" t) as [v|].
  - unfold explicitSeats. destruct v as [| | | |l|]; try done. destruct (Z.eqb_spec (Z.of_nat (length l)) capacity) as [<-|]; [|done]. cbn [negb].
    intros (s & Hs & H)%rbind_ok. inv_ok H. injection H as <-. rewrite length_map.
    assert (forall l i (acc s : list SeatSpec), for_each (add_seat id floor tw) i l acc = Ok s -> length s = (length acc + length l)%nat) as Hl.
    { clear. induction l as [|x l IH]; intros i acc s; cbn [for_each]; [intros [= <-]; cbn; lia|].
      intros (s1 & H1 & H2)%rbind_ok. rewrite (IH _ _ _ H2). unfold add_seat in H1. inv_ok H1. injection H1 as <-. rewrite length_app. cbn. lia. }
    by rewrite (Hl _ _ _ _ Hs).
  - intros [= <-]. rewrite generateSeats_length. lia.
Qed.

(** The tables read so far, for finished floors and the one being read. *)
Record tables_ok (floors : list FloorDef) (tables : list (string * TableDef)) : Prop := {
  to_keys : NoDup (om_keys tables);
  to_table id t : om_get id tables = Some t ->
    td_id t = id /\ td_owner t = None /\ exists fl, fl ∈ floors /\ table_on fl t /\ id ∈ fd_tables fl;
  to_listed fl id : fl ∈ floors -> id ∈ fd_tables fl -> exists t, om_get id tables = Some t /\ td_floorId t = fd_id fl;
}.

Lemma integer_in_range q z : (1 <= q <= 20)%Q -> as_integer (JNum q) = Some z -> 1 <= z <= 20.
Proof.
  destruct q as [n d]. unfold as_integer, Qle. cbn. intros [H1 H2]. destruct (Z.eqb_spec (n mod Zpos d) 0) as [Hi|]; [|done]. intros [= <-].
  apply Z_div_exact_full_2 in Hi; [|done]. split; nia.
Qed.

(** The result of reading one table. *)
Lemma add_table_ok w ti tv floor tables si floor' tables' si' : add_table w ti tv (floor, (tables, si)) = Ok (floor', (tables', si')) ->
  exists id t, om_get id tables = None /\ td_id t = id /\ td_owner t = None /\ td_coveredBy t = [] /\ table_on floor t /\
    tables' = om_set id t tables /\
    floor' = {| fd_id := fd_id floor; fd_visibility := fd_visibility floor; fd_building := fd_building floor; fd_name := fd_name floor;
                fd_width := fd_width floor; fd_height := fd_height floor; fd_outline := fd_outline floor; fd_zones := fd_zones floor;
                fd_tables := fd_tables floor ++ [id] |}.
Proof.
  unfold add_table. intros H. inv_ok H. injection H as <- <- <-.
  match goal with H : om_has ?i tables = false |- _ => exists i; rename H into Hnew end.
  eexists. split; [|split; [|split; [|split; [|split; [|split; [reflexivity|reflexivity]]]]]]; try reflexivity.
  - unfold om_has in Hnew. by destruct (om_get _ tables).
  - repeat match goal with H : num _ _ _ _ _ = Ok _ |- _ => apply num_range in H end.
    apply of_option_ok in Hm8. assert (1 <= a8 <= 20) as Ha8 by exact (integer_in_range _ _ Hm7 Hm8).
    unfold table_on. cbn. bprop. split_and!; try done; try tauto.
    + apply existsb_exists in Hc0 as (z & Hz & E). apply bool_decide_eq_true in E.
      exists z. split; [by apply list_elem_of_In|done].
    + eapply table_seats_length; [|exact Hm10]. lia.
Qed.

Lemma table_on_set_tables floor t l :
  table_on {| fd_id := fd_id floor; fd_visibility := fd_visibility floor; fd_building := fd_building floor; fd_name := fd_name floor;
              fd_width := fd_width floor; fd_height := fd_height floor; fd_outline := fd_outline floor; fd_zones := fd_zones floor;
              fd_tables := l |} t <-> table_on floor t.
Proof. reflexivity. Qed.

Lemma add_table_inv floors w ti tv floor tables si floor' tables' si' : add_table w ti tv (floor, (tables, si)) = Ok (floor', (tables', si')) ->
  tables_ok (floors ++ [floor]) tables -> tables_ok (floors ++ [floor']) tables'.
Proof.
  intros (id & t & Hnew & Hid & Ho & _ & Hon & -> & ->)%add_table_ok [Hk Ht Hl]. constructor.
  - by apply om_set_nodup.
  - intros id' t'. rewrite om_get_set. case_bool_decide as E.
    + intros [= <-]. subst id'. split_and!; [done|done|]. eexists. split; [apply elem_of_app; right; by left|]. split; [exact Hon|].
      cbn. apply elem_of_app. right. by left.
    + intros H. destruct (Ht id' t' H) as (? & ? & fl & Hfl & Hfon & Hin). split_and!; [done|done|].
      apply elem_of_app in Hfl as [Hfl| ->%list_elem_of_singleton].
      * exists fl. split_and!; [apply elem_of_app; by left|done|done].
      * eexists. split; [apply elem_of_app; right; by left|]. split; [exact Hfon|]. cbn. apply elem_of_app. by left.
  - assert (forall fl id', id' ∈ fd_tables fl -> fl ∈ floors ++ [floor] -> exists t', om_get id' (om_set id t tables) = Some t' /\ td_floorId t' = fd_id fl) as H.
    { intros fl id' Hin Hfl. destruct (Hl fl id' Hfl Hin) as (t' & Ht' & E). exists t'. split; [|done]. rewrite om_get_set_ne; [done|]. intros ->. congruence. }
    intros fl id' [Hfl| ->%list_elem_of_singleton]%elem_of_app; [intros; apply H; [done|apply elem_of_app; by left]|].
    cbn [fd_tables fd_id]. intros [Hin| ->%list_elem_of_singleton]%elem_of_app; [apply H; [done|apply elem_of_app; right; by left]|].
    exists t. split; [apply om_get_set_eq|]. by destruct Hon.
Qed.

Definition build_ok (b : Build) : Prop := NoDup (floor_ids (bd_floors b)) /\ tables_ok (bd_floors b) (bd_tables b).

Lemma add_tables_inv floors w l i st st' : for_each (add_table w) i l st = Ok st' ->
  tables_ok (floors ++ [fst st]) (fst (snd st)) -> tables_ok (floors ++ [fst st']) (fst (snd st')) /\ fd_id (fst st') = fd_id (fst st).
Proof.
  intros H Hok. eapply (for_each_inv (fun s => tables_ok (floors ++ [fst s]) (fst (snd s)) /\ fd_id (fst s) = fd_id (fst st)) _ _ _ _ _ _ _ H).
  Unshelve.
  - intros i' tv [floor [tables si]] [floor' [tables' si']] _ [H1 H2] E. cbn [fst snd] in *. split; [by eapply add_table_inv|].
    apply add_table_ok in E as (? & ? & _ & _ & _ & _ & _ & _ & ->). done.
  - done.
Qed.

Lemma add_floor_inv fi fv b b' : build_ok b -> add_floor fi fv b = Ok b' -> build_ok b'.
Proof.
  intros [Hnd Ht] H. unfold add_floor in H. inv_ok H.
  match goal with E : for_each (add_table _) _ _ _ = Ok ?d |- _ => destruct d as [floor' [tables si]]; rename E into Hloop end. injection H as <-.
  match goal with E : existsb _ _ = false |- _ => apply not_exists_id in E; rename E into Hc end.
  apply (add_tables_inv (bd_floors b)) in Hloop as [Hok Hid]; cbn [fst snd] in *.
  - split; [|done]. unfold floor_ids. cbn [bd_floors]. rewrite map_app. cbn [map]. rewrite Hid. cbn [fd_id].
    apply NoDup_app. split_and!; [done| |apply NoDup_singleton]. intros x Hx ->%list_elem_of_singleton. done.
  - destruct Ht as [Hk Ht Hl]. constructor; [done| |].
    + intros id t Hg. destruct (Ht id t Hg) as (? & ? & fl & ? & ? & ?). split_and!; [done|done|]. exists fl. split_and!; [apply elem_of_app; by left|done|done].
    + intros fl id [Hfl| ->%list_elem_of_singleton]%elem_of_app; [by apply Hl|]. cbn. by intros ?%not_elem_of_nil.
Qed.

(** ** Owners *)

Lemma own_loop w uid floorId owns i tables tables' : for_each (own w uid floorId) i owns tables = Ok tables' ->
  om_keys tables' = om_keys tables /\
  (forall tid, om_get tid tables' = if includes tid owns then set_owner uid <$> om_get tid tables else om_get tid tables) /\
  (forall tid, tid ∈ owns -> exists t, om_get tid tables = Some t /\ td_owner t = None /\ td_floorId t = floorId).
Proof.
  revert i tables; induction owns as [|tid owns IH]; intros i tables; cbn [for_each].
  - intros [= <-]. split_and!; [done|done|by intros tid ?%not_elem_of_nil].
  - intros (t1 & H1 & H2)%rbind_ok. unfold own in H1. destruct (om_get tid tables) as [t|] eqn:Et; [|done].
    case_bool_decide as Ef; [|done]. cbn [negb] in H1. destruct (td_owner t) eqn:Eo; [done|]. injection H1 as <-.
    destruct (IH _ _ H2) as (Hk & Hg & Ho). split_and!.
    + rewrite Hk, om_keys_set. unfold om_has. by rewrite Et.
    + intros x. rewrite Hg, om_get_set. destruct (includes x owns) eqn:Ex.
      * apply includes_true in Ex. destruct (Ho x Ex) as (t' & Ht' & Hn & _). rewrite om_get_set in Ht'.
        case_bool_decide as E; [injection Ht' as <-; done|]. rewrite (proj2 (includes_true x (tid :: owns))); [done|by right].
      * apply includes_false in Ex. case_bool_decide as E.
        -- subst x. rewrite (proj2 (includes_true tid (tid :: owns))) by left. by rewrite Et.
        -- rewrite (proj2 (includes_false x (tid :: owns))); [done|]. by intros [?|?]%elem_of_cons.
    + intros x [->|Hx]%elem_of_cons; [by exists t|]. destruct (Ho x Hx) as (t' & Ht' & Hn & Hf). rewrite om_get_set in Ht'.
      case_bool_decide; [by injection Ht' as <-|by exists t'].
Qed.

Definition node_ok (floors : list FloorDef) (n : NodeDef) : Prop :=
  match nd_floorId n, nd_pose n with
  | None, None => nd_owns n = [] /\ nd_rgb n = false
  | Some fid, Some _ => exists fl, fl ∈ floors /\ fd_id fl = fid /\ (nd_rgb n = true -> fd_visibility fl = Console)
  | _, _ => False
  end.

(** What the loop over the nodes keeps of the tables and the nodes. *)
Record nodes_ok (floors : list FloorDef) (tables : list (string * TableDef)) (nodes : list (string * NodeDef)) : Prop := {
  no_keys : NoDup (om_keys tables);
  no_table tid t : om_get tid tables = Some t -> td_id t = tid /\ exists fl, fl ∈ floors /\ table_on fl t /\ tid ∈ fd_tables fl;
  no_nodup : NoDup (om_keys nodes);
  no_node u n : om_get u nodes = Some n -> nd_uid n = u /\ node_ok floors n;
  no_owner tid t u : om_get tid tables = Some t -> td_owner t = Some u ->
    exists n, om_get u nodes = Some n /\ tid ∈ nd_owns n /\ nd_floorId n = Some (td_floorId t);
  no_owns u n tid : om_get u nodes = Some n -> tid ∈ nd_owns n -> exists t, om_get tid tables = Some t /\ td_owner t = Some u;
}.

Lemma add_unplaced_inv floors w uid detector n tables nodes nodes' : om_has uid nodes = false ->
  add_unplaced w uid detector n nodes = Ok nodes' -> nodes_ok floors tables nodes -> nodes_ok floors tables nodes'.
Proof.
  unfold add_unplaced, om_has. intros Hnew H [H1 H2 H3 H4 H5 H6]. inv_ok H. injection H as <-.
  assert (om_get uid nodes = None) as Hn by (by destruct (om_get uid nodes)). constructor; try done.
  - by apply om_set_nodup.
  - intros u m. rewrite om_get_set. case_bool_decide as E; [|apply H4]. intros [= <-]. done.
  - intros tid t u Ht Hu. destruct (H5 tid t u Ht Hu) as (m & Hm & ?). exists m. split; [|done]. rewrite om_get_set_ne; [done|]. intros ->. congruence.
  - intros u m tid. rewrite om_get_set. case_bool_decide as E; [|apply H6]. intros [= <-]. cbn. by intros ?%not_elem_of_nil.
Qed.

Lemma add_placed_inv floors w uid detector n tables nodes tables' nodes' : om_has uid nodes = false ->
  add_placed w uid detector floors n (tables, nodes) = Ok (tables', nodes') -> nodes_ok floors tables nodes -> nodes_ok floors tables' nodes'.
Proof.
  unfold add_placed, om_has. intros Hnew H [H1 H2 H3 H4 H5 H6]. inv_ok H. injection H as -> <-.
  assert (om_get uid nodes = None) as Hn by (by destruct (om_get uid nodes)).
  match goal with E : for_each _ _ ?o _ = Ok _ |- _ => set (owns := o) in *; apply own_loop in E as (Hk & Hg & Ho) end.
  match goal with E : of_option _ (List.find _ _) = Ok _ |- _ => apply of_option_ok, find_by_id in E as [Hfl Hid] end.
  assert (forall tid t u, om_get tid tables' = Some t -> td_owner t = Some u ->
    (tid ∈ owns /\ u = uid /\ td_floorId t = a) \/ (~ tid ∈ owns /\ om_get tid tables = Some t)) as Hcase.
  { intros tid t u. rewrite Hg. destruct (includes tid owns) eqn:E.
    - apply includes_true in E. destruct (Ho tid E) as (t0 & -> & _ & Hf). cbn. intros [= <-] [= <-]. by left.
    - apply includes_false in E. by right. }
  assert (is_true (field "rgb" n) = true -> fd_visibility a0 = Console) as Hrgb.
  { intros Hr. match goal with E : _ && negb _ = false |- _ => rewrite Hr in E; by apply negb_false, bool_decide_eq_true in E end. }
  match goal with E : _ && negb _ = false |- _ => clear E end. constructor.
  - by rewrite Hk.
  - intros tid t Ht. rewrite Hg in Ht. destruct (includes tid owns); [|by apply H2].
    destruct (om_get tid tables) as [t0|] eqn:E; [|done]. injection Ht as <-. exact (H2 tid t0 E).
  - by apply om_set_nodup.
  - intros u m. rewrite om_get_set. case_bool_decide as E; [|apply H4]. intros [= <-]. subst u. split; [done|].
    by exists a0.
  - intros tid t u Ht Hu. destruct (Hcase tid t u Ht Hu) as [(Hin & -> & Hf)|[Hni Ht']].
    + eexists. rewrite om_get_set_eq. split; [done|]. cbn. by rewrite Hf.
    + destruct (H5 tid t u Ht' Hu) as (m & Hmn & ?). exists m. split; [|done]. rewrite om_get_set_ne; [done|]. intros ->. congruence.
  - intros u m tid. rewrite om_get_set. case_bool_decide as E.
    + intros [= <-]. cbn. intros Hin. subst u. destruct (Ho tid Hin) as (t0 & Ht0 & _). exists (set_owner uid t0).
      rewrite Hg, (proj2 (includes_true tid owns) Hin), Ht0. done.
    + intros Hmn Hin. destruct (H6 u m tid Hmn Hin) as (t & Ht & Hu). exists t. split; [|done]. rewrite Hg.
      destruct (includes tid owns) eqn:Ei; [|done]. apply includes_true in Ei. destruct (Ho tid Ei) as (t0 & Ht0 & Hnone & _). congruence.
Qed.

#[local] Arguments add_placed : simpl never.
#[local] Arguments add_unplaced : simpl never.

Lemma add_node_inv floors ni nv st st' : add_node floors ni nv st = Ok st' ->
  nodes_ok floors (fst st) (snd st) -> nodes_ok floors (fst st') (snd st').
Proof.
  destruct st as [tables nodes], st' as [tables' nodes']. cbn [fst snd]. unfold add_node. intros H Hok. inv_ok H.
  destruct (field "floor" a), (field "pose" a); try done.
  - match goal with E : om_has ?u nodes = false |- _ => by apply (add_placed_inv floors _ _ _ _ _ _ _ _ E H) end.
  - inv_ok H. injection H as -> ->.
    match goal with E : om_has ?u nodes = false, H : add_unplaced _ _ _ _ _ = Ok _ |- _ => by apply (add_unplaced_inv floors _ _ _ _ tables' _ _ E H) end.
Qed.

(** ** Coverage *)

Section covering.
Context {T : Trig}.

(** A node that sees every seat of the table, from where it is. *)
Definition covers (nodes : list (string * NodeDef)) (u : string) (t : TableDef) : Prop :=
  exists n p, om_get u nodes = Some n /\ nd_pose n = Some p /\ nd_floorId n = Some (td_floorId t) /\
    Forall (fun s => seesWithMargin p (sp_x s) (sp_y s) = true) (td_seats t).

Definition uids_ok (nodes : list (string * NodeDef)) : Prop :=
  NoDup (om_keys nodes) /\ forall u n, om_get u nodes = Some n -> nd_uid n = u.

Lemma seeing_elem nodes t np : np ∈ seeing nodes t <->
  (exists u, (u, np.1) ∈ nodes) /\ nd_pose np.1 = Some np.2 /\ nd_floorId np.1 = Some (td_floorId t) /\
  Forall (fun s => seesWithMargin np.2 (sp_x s) (sp_y s) = true) (td_seats t).
Proof.
  destruct np as [n p]. unfold seeing. cbn [fst snd].
  rewrite isort_elem, list_elem_of_In, filter_In, filter_In, <- list_elem_of_In, list_elem_of_omap. cbn [fst snd].
  rewrite bool_decide_eq_true, forallb_forall, List.Forall_forall. split.
  - intros [[(m & Hin & Hm) Hf] Hs]. apply list_elem_of_fmap in Hin as (e & -> & He). destruct (nd_pose e.2) as [q|] eqn:Eq; [|done].
    injection Hm as <- <-. split_and!; try done. exists e.1. by destruct e.
  - intros [[u Hu] [Hp [Hf Hs]]]. split_and!; try done. exists n. rewrite Hp. split; [|done].
    apply list_elem_of_fmap. by exists (u, n).
Qed.

Lemma seeing_covers nodes t u : uids_ok nodes -> u ∈ map (fun np => nd_uid np.1) (seeing nodes t) <-> covers nodes u t.
Proof.
  intros [Hk Hu]. rewrite list_elem_of_fmap. split.
  - intros ([n p] & -> & [[v Hv] [Hp [Hf Hs]]]%seeing_elem). cbn [fst snd] in *. pose proof (om_elem_get _ _ _ Hk Hv) as Hg.
    rewrite (Hu _ _ Hg). by exists n, p.
  - intros (n & p & Hg & Hp & Hf & Hs). exists (n, p). split; [cbn; by rewrite (Hu _ _ Hg)|]. apply seeing_elem. split_and!; try done.
    exists u. by apply om_get_elem.
Qed.

Lemma seeing_nodup nodes t : uids_ok nodes -> NoDup (map (fun np => nd_uid np.1) (seeing nodes t)).
Proof.
  intros [Hk Hu]. assert (Forall (fun e => nd_uid e.2 = e.1) nodes) as Hall.
  { apply Forall_forall. intros [u n] He. cbn. apply Hu. by apply om_elem_get. }
  clear Hu. unfold seeing. match goal with |- NoDup (map ?f (isort ?b ?l)) => assert (map f (isort b l) ≡ₚ map f l) as -> by apply Permutation_map, isort_perm end.
  induction nodes as [|[u n] nodes IH]; [constructor|]. cbn [om_keys map] in Hk. apply NoDup_cons in Hk as [Hni Hk].
  apply Forall_cons in Hall as [Hn Hall]. cbn [fst snd] in Hn. specialize (IH Hk Hall). cbn.
  destruct (nd_pose n) as [p|]; [|exact IH]. cbn. case_bool_decide; [|exact IH]. cbn. destruct (forallb _ _); [|exact IH]. cbn.
  apply NoDup_cons. split; [|exact IH]. rewrite Hn. intros ([m q] & Hu & Hin)%list_elem_of_fmap. apply Hni. cbn in Hu. cbn [fst].
  apply list_elem_of_In, filter_In in Hin as [Hin _]. apply filter_In in Hin as [Hin _].
  apply list_elem_of_In, list_elem_of_omap in Hin as (m' & Hm' & Hq). apply list_elem_of_fmap in Hm' as ([v w] & -> & Hvw). cbn in Hq.
  destruct (nd_pose w); [|done]. injection Hq as <- <-. rewrite Forall_forall in Hall. pose proof (Hall _ Hvw) as Ev. cbn in Ev. rewrite Hu, Ev.
  apply list_elem_of_fmap. by exists (v, w).
Qed.

(** The whole pass over the tables. *)
Lemma cover_loop nodes l i acc acc' : NoDup (om_keys l) -> for_each (cover nodes) i l acc = Ok acc' ->
  (forall id, om_get id acc' = match om_get id l with Some t => Some (set_coveredBy (coveredBy nodes t) t) | None => om_get id acc end) /\
  (forall id t o, om_get id l = Some t -> td_owner t = Some o -> o ∈ map (fun np => nd_uid np.1) (seeing nodes t)).
Proof.
  revert i acc; induction l as [|[id t] l IH]; intros i acc Hnd; cbn [for_each].
  - intros [= <-]. split; [done|]. done.
  - intros (t1 & H1 & H2)%rbind_ok. cbn [om_keys map] in Hnd. apply NoDup_cons in Hnd as [Hni Hnd]. cbn [fst] in Hni.
    destruct (IH _ _ Hnd H2) as [Hg Ho]. unfold cover in H1. inv_ok H1. injection H1 as <-. apply om_get_None in Hni. split.
    + intros x. cbn [om_get]. rewrite Hg, om_get_set. case_bool_decide as E; [subst x; by rewrite Hni|done].
    + intros x t' o. cbn [om_get]. case_bool_decide as E; [|apply Ho]. intros [= <-] Eo. rewrite Eo in Hc.
      apply negb_false, existsb_exists in Hc as (np & Hin & <-%bool_decide_eq_true). apply list_elem_of_fmap. exists np.
      split; [done|]. by apply list_elem_of_In.
Qed.

Lemma buildRegistry_inv site nodesJ reg : buildRegistry site nodesJ = Ok reg -> exists tables,
  NoDup (floor_ids (rg_floors reg)) /\ nodes_ok (rg_floors reg) tables (rg_nodes reg) /\
  for_each (cover (rg_nodes reg)) 0 tables tables = Ok (rg_tables reg).
Proof.
  unfold buildRegistry. intros H. inv_ok H.
  match goal with E : for_each add_floor _ _ _ = Ok ?b |- _ => set (bd := b) in *; rename E into Hfloors end.
  match goal with E : for_each (add_node _) _ _ _ = Ok ?tn |- _ => destruct tn as [tables nodes]; rename E into Hnodes end.
  inv_ok H. injection H as <-. cbn [rg_floors rg_nodes rg_tables]. exists tables.
  assert (build_ok bd) as [Hids Hbd].
  { eapply (for_each_inv build_ok); [|  |exact Hfloors].
    - intros fi fv b b' _. by intros ? ?%add_floor_inv.
    - split; [constructor|]. constructor; [constructor|done|]. by intros fl id ?%not_elem_of_nil. }
  assert (nodes_ok (bd_floors bd) tables nodes) as Hok.
  { eapply (for_each_inv (fun st => nodes_ok (bd_floors bd) (fst st) (snd st)) _ _ _ _ (tables, nodes)); [| |exact Hnodes].
    - intros ni nv st st' _ Hst E. by eapply add_node_inv.
    - destruct Hbd as [Hk Ht Hl]. constructor; cbn [fst snd]; [done| |constructor|done| |done].
      + intros id t Hg. destruct (Ht id t Hg) as (? & _ & ?). done.
      + intros tid t u Hg Hu. destruct (Ht tid t Hg) as (_ & Hn & _). congruence. }
  done.
Qed.

(** What the last pass leaves: the tables of the node pass, with coverage. *)
Lemma registry_inv site nodesJ reg : buildRegistry site nodesJ = Ok reg ->
  NoDup (floor_ids (rg_floors reg)) /\ nodes_ok (rg_floors reg) (rg_tables reg) (rg_nodes reg) /\
  (forall tid t, om_get tid (rg_tables reg) = Some t ->
     exists t0, td_owner t = td_owner t0 /\ t = set_coveredBy (coveredBy (rg_nodes reg) t0) t0 /\
       forall o, td_owner t = Some o -> o ∈ map (fun np => nd_uid np.1) (seeing (rg_nodes reg) t0)).
Proof.
  intros (tables & Hids & Hok & Hloop)%buildRegistry_inv. pose proof Hok as [H1 H2 H3 H4 H5 H6].
  destruct (cover_loop _ _ _ _ _ H1 Hloop) as [Hg Ho].
  assert (forall tid t, om_get tid (rg_tables reg) = Some t -> exists t0, om_get tid tables = Some t0 /\ t = set_coveredBy (coveredBy (rg_nodes reg) t0) t0) as Hback.
  { intros tid t E. rewrite Hg in E. destruct (om_get tid tables) as [t0|] eqn:E0; [|congruence]. injection E as <-. by exists t0. }
  split_and!; [done| |].
  - constructor; [| | done | done | |].
    + eapply (for_each_inv (fun st => NoDup (om_keys st)) (cover (rg_nodes reg))); [|exact H1|exact Hloop].
      intros i [id t] st st' _ Hst E. unfold cover in E. inv_ok E. injection E as <-. by apply om_set_nodup.
    + intros tid t E. destruct (Hback tid t E) as (t0 & E0 & ->). exact (H2 tid t0 E0).
    + intros tid t u E Hu. destruct (Hback tid t E) as (t0 & E0 & ->). exact (H5 tid t0 u E0 Hu).
    + intros u n tid Hn Hin. destruct (H6 u n tid Hn Hin) as (t & Ht & Hu). exists (set_coveredBy (coveredBy (rg_nodes reg) t) t).
      split; [by rewrite Hg, Ht|done].
  - intros tid t E. destruct (Hback tid t E) as (t0 & E0 & ->). exists t0. split_and!; [done|done|]. intros o Hu. by eapply Ho.
Qed.

Lemma nodes_uids floors tables nodes : nodes_ok floors tables nodes -> uids_ok nodes.
Proof. intros [_ _ H3 H4 _ _]. split; [done|]. intros u n Hg. by apply H4 in Hg as [? _]. Qed.

(** No table is counted twice. In an accepted configuration a table has an
    owner exactly when some node lists it: the owner is a placed node of the
    table's own floor that lists the table, and a node that lists a table is
    its owner, so no two nodes list the same one. *)
Theorem ownership_is_exclusive site nodesJ reg : buildRegistry site nodesJ = Ok reg ->
  (forall tid t u, om_get tid (rg_tables reg) = Some t -> td_owner t = Some u ->
     exists n, om_get u (rg_nodes reg) = Some n /\ tid ∈ nd_owns n /\ nd_floorId n = Some (td_floorId t)) /\
  (forall u n tid, om_get u (rg_nodes reg) = Some n -> tid ∈ nd_owns n ->
     exists t, om_get tid (rg_tables reg) = Some t /\ td_owner t = Some u).
Proof. intros (_ & [_ _ _ _ H5 H6] & _)%registry_inv. split; [exact H5|exact H6]. Qed.

(** The coverage of a table of an accepted configuration. *)
Lemma registry_coverage site nodesJ reg tid t : buildRegistry site nodesJ = Ok reg -> om_get tid (rg_tables reg) = Some t ->
  NoDup (td_coveredBy t) /\
  (forall u, u ∈ td_coveredBy t <-> covers (rg_nodes reg) u t) /\
  (forall o, td_owner t = Some o -> head (td_coveredBy t) = Some o).
Proof.
  intros (_ & Hok & Hcov)%registry_inv Ht. destruct (Hcov tid t Ht) as (t0 & Eo & -> & Ho). apply nodes_uids in Hok.
  pose proof (seeing_nodup (rg_nodes reg) t0 Hok) as Hnd. pose proof (fun u => seeing_covers (rg_nodes reg) t0 u Hok) as Hel.
  set (uids := map (fun np => nd_uid np.1) (seeing (rg_nodes reg) t0)) in *.
  cbn [td_coveredBy set_coveredBy td_owner] in *. unfold coveredBy. fold uids.
  assert (forall u l, covers (rg_nodes reg) u (set_coveredBy l t0) <-> covers (rg_nodes reg) u t0) as Hc by done.
  destruct (td_owner t0) as [o|].
  - split_and!.
    + apply NoDup_cons. split; [|apply NoDup_ListNoDup, List.NoDup_filter, NoDup_ListNoDup; done].
      rewrite list_elem_of_In, filter_In. intros [_ E]. by rewrite bool_decide_eq_true_2 in E.
    + intros u. rewrite Hc, <- Hel, elem_of_cons, list_elem_of_In, filter_In, <- list_elem_of_In. split.
      * intros [->|[? _]]; [by apply Ho|done].
      * intros Hin. destruct (decide (u = o)) as [->|Hne]; [by left|right]. split; [done|]. by rewrite bool_decide_eq_false_2.
    + by intros o' [= <-].
  - split_and!; [done|intros u; by rewrite Hc, <- Hel|done].
Qed.

(** A table is covered by exactly the nodes that can see it. In an accepted
    configuration the nodes a table is covered by are, each once, the placed
    nodes of its floor that see every one of its seats with half a pixel to
    spare; the owner is one of them and comes first. *)
Theorem coverage_is_exact site nodesJ reg tid t : buildRegistry site nodesJ = Ok reg -> om_get tid (rg_tables reg) = Some t ->
  NoDup (td_coveredBy t) /\
  (forall u, u ∈ td_coveredBy t <-> covers (rg_nodes reg) u t) /\
  (forall o, td_owner t = Some o -> head (td_coveredBy t) = Some o).
Proof. exact (registry_coverage site nodesJ reg tid t). Qed.

(** A camera image never sits on a floor students can see, and a node nobody
    has placed counts for nothing. In an accepted configuration an RGB node is
    placed on a floor that only the console shows; a node without a pose has
    no floor, owns no table, is not an RGB node and covers no table. *)
Theorem cameras_and_unplaced_nodes site nodesJ reg u n : buildRegistry site nodesJ = Ok reg -> om_get u (rg_nodes reg) = Some n ->
  (nd_rgb n = true -> exists fid, nd_floorId n = Some fid /\
     forall fl, fl ∈ rg_floors reg -> fd_id fl = fid -> fd_visibility fl = Console) /\
  (nd_pose n = None -> nd_floorId n = None /\ nd_owns n = [] /\ nd_rgb n = false /\ forall t, ~ covers (rg_nodes reg) u t).
Proof.
  intros (Hids & [_ _ H3 H4 _ _] & _)%registry_inv Hn. destruct (H4 u n Hn) as [_ Hok]. unfold node_ok in Hok. split.
  - intros Hr. destruct (nd_floorId n) as [fid|], (nd_pose n); try done; [|by destruct Hok; congruence].
    destruct Hok as (fl & Hfl & Hid & Hv). exists fid. split; [done|]. intros fl' Hfl' Hid'.
    assert (fl' = fl) as ->; [|by apply Hv]. apply list_elem_of_lookup in Hfl as (i & Hi), Hfl' as (j & Hj).
    assert (i = j) as ->; [|congruence]. apply (NoDup_lookup _ i j fid Hids); unfold floor_ids; rewrite list_lookup_fmap; [by rewrite Hi, <- Hid|by rewrite Hj, <- Hid'].
  - intros Hp. rewrite Hp in Hok. destruct (nd_floorId n) as [fid|]; [done|]. destruct Hok as [-> ->]. split_and!; try done.
    intros t (m & p & Hm & Hmp & _). congruence.
Qed.

(** A table of an accepted configuration. *)
Lemma registry_table site nodesJ reg tid t : buildRegistry site nodesJ = Ok reg -> om_get tid (rg_tables reg) = Some t ->
  td_id t = tid /\ exists fl, fl ∈ rg_floors reg /\ table_on fl t /\ tid ∈ fd_tables fl.
Proof. intros (_ & [_ H2 _ _ _ _] & _)%registry_inv Ht. by apply H2. Qed.

(** The tables of an accepted configuration fit their floor. Each table lies
    on a floor of the site, inside its outline box and in one of its zones,
    holds between one and twenty people and has exactly that many seats. *)
Theorem tables_fit site nodesJ reg tid t : buildRegistry site nodesJ = Ok reg -> om_get tid (rg_tables reg) = Some t ->
  td_id t = tid /\ exists fl, fl ∈ rg_floors reg /\ table_on fl t /\ tid ∈ fd_tables fl.
Proof. exact (registry_table site nodesJ reg tid t). Qed.
End covering.

(** ** A configuration, and what it shows *)

Definition jn (n : Z) : json := JNum (inject_Z n).
Definition jbox : json := JArr [JArr [jn 0; jn 0]; JArr [jn 600; jn 0]; JArr [jn 600; jn 400]; JArr [jn 0; jn 400]].

Definition demo_table_json (id : string) (x : Z) (extra : list (string * json)) : json :=
  JObj ([("id", JStr id); ("name", JStr id); ("zone", JStr "z1"); ("x", jn x); ("y", jn 100); ("width", jn 60); ("height", jn 120)] ++ extra).

Definition demo_floor_json (id visibility : string) (tables : list json) : json :=
  JObj [("id", JStr id); ("building", JStr "Library"); ("name", JStr "Level 1"); ("width", jn 600); ("height", jn 400); ("outline", jbox);
        ("zones", JArr [JObj [("id", JStr "z1"); ("name", JStr "North"); ("polygon", jbox)]]); ("tables", JArr tables);
        ("visibility", JStr visibility)].

Definition demo_site (floors : list json) : json := JObj [("site", JObj [("id", JStr "s"); ("name", JStr "Site")]); ("floors", JArr floors)].

Definition demo_node_json (uid : string) (rest : list (string * json)) : json := JObj (("uid", JStr uid) :: rest).
Definition demo_pose_json (x : Z) : json := JObj [("x", jn x); ("y", jn 160); ("heightCm", jn 270)].

Definition demo_site_json : json :=
  demo_site [demo_floor_json "f1" "public" [demo_table_json "T1" 200 [("capacity", jn 3)]]; demo_floor_json "f2" "console" []].
Definition demo_nodes_json : json := JObj [("nodes", JArr
  [demo_node_json "30:ED:A0:00:00:01" [("floor", JStr "f1"); ("pose", demo_pose_json 300); ("owns", JArr [JStr "T1"])];
   demo_node_json "30:ed:a0:00:00:02" [("floor", JStr "f1"); ("pose", demo_pose_json 230); ("owns", JArr [])];
   demo_node_json "30:ed:a0:00:00:03" [("floor", JStr "f2"); ("pose", demo_pose_json 230); ("owns", JArr []); ("rgb", JBool true)];
   demo_node_json "30:ed:a0:00:00:04" []])].

Definition demo_reg : Registry :=
  match @buildRegistry flat_trig demo_site_json demo_nodes_json with
  | Ok reg => reg
  | Err _ => {| rg_siteId := ""; rg_siteName := ""; rg_floors := []; rg_tables := []; rg_nodes := []; rg_seatIndex := [] |}
  end.

Lemma demo_reg_ok : @buildRegistry flat_trig demo_site_json demo_nodes_json = Ok demo_reg.
Proof. vm_compute. reflexivity. Qed.

Lemma ownership_is_exclusive_witness :
  option_map td_owner (om_get "T1" (rg_tables demo_reg)) = Some (Some "30:ed:a0:00:00:01") /\
  (forall n tid, om_get "30:ed:a0:00:00:02" (rg_nodes demo_reg) = Some n -> tid ∈ nd_owns n ->
     exists t, om_get tid (rg_tables demo_reg) = Some t /\ td_owner t = Some "30:ed:a0:00:00:02").
Proof.
  split; [vm_compute; reflexivity|]. intros n tid.
  exact (proj2 (@ownership_is_exclusive flat_trig demo_site_json demo_nodes_json demo_reg demo_reg_ok) "30:ed:a0:00:00:02" n tid).
Defined.

Lemma coverage_is_exact_witness : exists t, om_get "T1" (rg_tables demo_reg) = Some t /\
  td_coveredBy t = ["30:ed:a0:00:00:01"; "30:ed:a0:00:00:02"] /\ @covers flat_trig (rg_nodes demo_reg) "30:ed:a0:00:00:02" t.
Proof.
  destruct (om_get "T1" (rg_tables demo_reg)) as [t|] eqn:E; [|vm_compute in E; discriminate]. exists t. split; [reflexivity|].
  pose proof (@coverage_is_exact flat_trig demo_site_json demo_nodes_json demo_reg "T1" t demo_reg_ok E) as (_ & Hc & _).
  assert (td_coveredBy t = ["30:ed:a0:00:00:01"; "30:ed:a0:00:00:02"]) as Et by (clear Hc; vm_compute in E; injection E as <-; reflexivity).
  split; [exact Et|]. apply Hc. rewrite Et. right. left.
Defined.

Lemma cameras_and_unplaced_nodes_witness :
  (exists n, om_get "30:ed:a0:00:00:03" (rg_nodes demo_reg) = Some n /\ nd_rgb n = true /\ exists fid, nd_floorId n = Some fid /\
     forall fl, fl ∈ rg_floors demo_reg -> fd_id fl = fid -> fd_visibility fl = Console) /\
  (forall t, ~ @covers flat_trig (rg_nodes demo_reg) "30:ed:a0:00:00:04" t).
Proof.
  split.
  - destruct (om_get "30:ed:a0:00:00:03" (rg_nodes demo_reg)) as [n|] eqn:E; [|vm_compute in E; discriminate]. exists n.
    assert (nd_rgb n = true) as Hr by (vm_compute in E; injection E as <-; reflexivity). split; [reflexivity|]. split; [exact Hr|].
    exact (proj1 (@cameras_and_unplaced_nodes flat_trig demo_site_json demo_nodes_json demo_reg _ n demo_reg_ok E) Hr).
  - destruct (om_get "30:ed:a0:00:00:04" (rg_nodes demo_reg)) as [n|] eqn:E; [|vm_compute in E; discriminate].
    assert (nd_pose n = None) as Hp by (vm_compute in E; injection E as <-; reflexivity).
    apply (proj2 (@cameras_and_unplaced_nodes flat_trig demo_site_json demo_nodes_json demo_reg _ n demo_reg_ok E) Hp).
Defined.

Lemma tables_fit_witness : exists t fl, om_get "T1" (rg_tables demo_reg) = Some t /\ fl ∈ rg_floors demo_reg /\ table_on fl t.
Proof.
  destruct (om_get "T1" (rg_tables demo_reg)) as [t|] eqn:E; [|vm_compute in E; discriminate]. exists t.
  destruct (@tables_fit flat_trig demo_site_json demo_nodes_json demo_reg "T1" t demo_reg_ok E) as (_ & fl & Hfl & Hon & _).
  exists fl. split; [reflexivity|]. split; [exact Hfl|exact Hon].
Defined.

(** Table ids are unique site-wide but seat ids are not: a configuration is
    accepted in which two different tables have a seat of the same id, because
    a seat's id is the table's id, a dash and a name the configuration gives. *)
Theorem seat_ids_can_clash {T : Trig} : exists site nodesJ reg t1 t2 s,
  buildRegistry site nodesJ = Ok reg /\ om_get "A" (rg_tables reg) = Some t1 /\ om_get "A-B" (rg_tables reg) = Some t2 /\
  s ∈ map sp_id (td_seats t1) /\ s ∈ map sp_id (td_seats t2).
Proof.
  exists (demo_site [demo_floor_json "f" "public"
     [demo_table_json "A" 100 [("capacity", jn 1); ("seats", JArr [JObj [("id", JStr "B-L1"); ("x", jn 90); ("y", jn 160)]])];
      demo_table_json "A-B" 300 [("capacity", jn 1)]]]), (JObj [("nodes", JArr [])]).
  match goal with |- exists reg t1 t2 s, ?b = Ok reg /\ _ => let r := eval vm_compute in b in
    match r with Ok ?x => exists x; let a := eval vm_compute in (om_get "A" (rg_tables x)) in match a with Some ?t => exists t end;
      let a := eval vm_compute in (om_get "A-B" (rg_tables x)) in match a with Some ?t => exists t end end end.
  exists "A-B-L1". repeat split; vm_compute; try reflexivity; constructor.
Qed.
