(* ===== verification/Receipts.v ===== *)
(** Receipts of node commands (src/modules/nodes/application/
    live-command-receipts.ts): what a console is told of a command it sent,
    from the request to the device's acknowledgement. A receipt is an object
    that the running [send] keeps when the map has dropped it, so receipts live
    in a heap by id and the map is the list of its keys in order; the dispatch,
    its time-out and the device's status are events. *)

From S2P Require Import Prelude Protocol.

(** @modules/nodes/domain/command-receipt.ts 1-1 ReceiptState *)
Inductive ReceiptState := Requested | Sent | Acknowledged | TimedOut | Uncertain | Failed.
#[export] Instance receipt_state_eq_dec : EqDecision ReceiptState.
Proof. solve_decision. Defined.

(** @modules/nodes/domain/command-receipt.ts 2-5 CommandReceipt *)
Record CommandReceipt := {
  rc_id : string; rc_uid : string; rc_operation : string; rc_sequence : option Z; rc_boot : option Z; rc_state : ReceiptState;
  rc_requestedAt : Z; rc_updatedAt : Z; rc_message : string }.

(** @modules/nodes/application/execute-node-command.ts 6-6 NodeCommand *)
Record NodeCommand := { nc_uid : string; nc_opcode : Z; nc_argument : Z; nc_value : Z }.

(** @modules/nodes/application/live-command-receipts.ts 6-6 StoredReceipt *)
Record StoredReceipt := { sr_receipt : CommandReceipt; sr_issuer : string; sr_generation : Z }.
(** @modules/nodes/application/live-command-receipts.ts 7-7 Observation *)
Record Observation := { ob_sequence : Z; ob_boot : option Z; ob_generation : Z; ob_at : Z }.

(** @modules/nodes/application/live-command-receipts.ts 14-14 TERMINAL *)
Definition TERMINAL (s : ReceiptState) : bool := match s with Requested | Sent => false | _ => true end.
(** @modules/nodes/application/live-command-receipts.ts 15-15 MAX_RECEIPTS *)
Definition MAX_RECEIPTS : nat := Z.to_nat 512.
(** @modules/nodes/application/live-command-receipts.ts 16-16 RECEIPT_TTL_MS *)
Definition RECEIPT_TTL_MS : Z := 15 * 60000.
(** @modules/nodes/application/live-command-receipts.ts 17-17 ACK_TIMEOUT_MS *)
Definition ACK_TIMEOUT_MS : Z := 60000.

(** @modules/nodes/application/live-command-receipts.ts 111-111 operation *)
Definition operation (opcode : Z) : string :=
  match opcode with
  | 1 => "Set parameter" | 2 => "Relearn background" | 3 => "Identify" | 4 => "Reboot" | 5 => "Save parameters" | _ => "Device command"
  end.

(** [heap] holds every receipt ever made; [live] is the order of the map
    [receipts]; [waiting] are the sends whose race of dispatch and time-out is
    open.
    @modules/nodes/application/live-command-receipts.ts 25-29 LiveCommandReceipts *)
Record Receipts := {
  rs_heap : list (string * StoredReceipt); rs_live : list string; rs_observations : list (string * Observation); rs_generation : Z;
  rs_dispatching : list string; rs_waiting : list string; rs_stopped : bool }.

Definition new_receipts : Receipts :=
  {| rs_heap := []; rs_live := []; rs_observations := []; rs_generation := 0; rs_dispatching := []; rs_waiting := []; rs_stopped := false |}.

Definition with_heap (h : list (string * StoredReceipt)) (st : Receipts) : Receipts :=
  {| rs_heap := h; rs_live := rs_live st; rs_observations := rs_observations st; rs_generation := rs_generation st;
     rs_dispatching := rs_dispatching st; rs_waiting := rs_waiting st; rs_stopped := rs_stopped st |}.
Definition with_live (l : list string) (st : Receipts) : Receipts :=
  {| rs_heap := rs_heap st; rs_live := l; rs_observations := rs_observations st; rs_generation := rs_generation st;
     rs_dispatching := rs_dispatching st; rs_waiting := rs_waiting st; rs_stopped := rs_stopped st |}.
Definition with_flight (dispatching waiting : list string) (st : Receipts) : Receipts :=
  {| rs_heap := rs_heap st; rs_live := rs_live st; rs_observations := rs_observations st; rs_generation := rs_generation st;
     rs_dispatching := dispatching; rs_waiting := waiting; rs_stopped := rs_stopped st |}.

Definition without (id : string) (l : list string) : list string := List.filter (fun x => negb (bool_decide (x = id))) l.

(** @modules/nodes/application/live-command-receipts.ts 92-94 update *)
Definition updated (state : ReceiptState) (message : string) (now : Z) (s : StoredReceipt) : StoredReceipt :=
  let r := sr_receipt s in
  {| sr_receipt := {| rc_id := rc_id r; rc_uid := rc_uid r; rc_operation := rc_operation r; rc_sequence := rc_sequence r; rc_boot := rc_boot r;
                      rc_state := state; rc_requestedAt := rc_requestedAt r; rc_updatedAt := now; rc_message := message |};
     sr_issuer := sr_issuer s; sr_generation := sr_generation s |}.

(** A change to one object of the heap. *)
Definition change (id : string) (f : StoredReceipt -> StoredReceipt) (st : Receipts) : Receipts :=
  match om_get id (rs_heap st) with Some s => with_heap (om_set id (f s) (rs_heap st)) st | None => st end.

(** @modules/nodes/application/live-command-receipts.ts 86-91 correlate *)
Definition correlate (o : Observation) (now : Z) (s : StoredReceipt) : StoredReceipt :=
  let r := sr_receipt s in
  if negb (bool_decide (rc_state r = Sent)) || (ob_generation o <=? sr_generation s) || (ob_at o <? rc_requestedAt r) then s
  else if negb (bool_decide (rc_boot r = None)) && negb (bool_decide (ob_boot o = rc_boot r))
  then updated Uncertain "Device restarted; check device state before sending again." now s
  else if bool_decide (Some (ob_sequence o) = rc_sequence r)
  then updated Acknowledged "Device acknowledged. Acknowledgement does not confirm execution or persistence." now s
  else s.

(** What a sweep does to one receipt of the map: [None] is dropped.
    @modules/nodes/application/live-command-receipts.ts 98-100 sweep *)
Definition aged (now : Z) (s : StoredReceipt) : option StoredReceipt :=
  let r := sr_receipt s in
  if TERMINAL (rc_state r) && (RECEIPT_TTL_MS <=? now - rc_updatedAt r) then None
  else if bool_decide (rc_state r = Requested) && (ACK_TIMEOUT_MS <=? now - rc_requestedAt r)
  then Some (updated Uncertain "Dispatch status timed out. Check device state before sending again." now s)
  else if bool_decide (rc_state r = Sent) && (ACK_TIMEOUT_MS <=? now - rc_updatedAt r)
  then Some (updated TimedOut "Outcome uncertain: device acknowledgement timed out. Check device state before sending again." now s)
  else Some s.

(** @modules/nodes/application/live-command-receipts.ts 95-102 sweep *)
Definition sweep (now : Z) (st : Receipts) : Receipts :=
  fold_left (fun st id =>
    match om_get id (rs_heap st) with
    | None => st
    | Some s =>
        match aged now s with
        | None => with_live (without id (rs_live st)) st
        | Some s' => with_heap (om_set id s' (rs_heap st)) st
        end
    end) (rs_live st) st.

Inductive Kind := Conflict | Unavailable.

Definition is_terminal (st : Receipts) (id : string) : bool :=
  match om_get id (rs_heap st) with Some s => TERMINAL (rc_state (sr_receipt s)) | None => false end.

(** @modules/nodes/application/live-command-receipts.ts 103-109 reserve *)
Definition reserve (st : Receipts) : result Kind Receipts :=
  throw_if rs_stopped st with Unavailable in
  throw_if Nat.leb MAX_RECEIPTS (length (rs_dispatching st)) with Unavailable in
  if Nat.ltb (length (rs_live st)) MAX_RECEIPTS then Ok st
  else match List.find (is_terminal st) (rs_live st) with
       | Some id => Ok (with_live (without id (rs_live st)) st)
       | None => Err Unavailable
       end.

(** The answer of [send] when it has one. *)
Inductive Reply := Returned (r : CommandReceipt) | Thrown (k : Kind) (r : option CommandReceipt).

Definition receipt_of (st : Receipts) (id : string) : option CommandReceipt := sr_receipt <$> om_get id (rs_heap st).
Definition return_receipt (st : Receipts) (id : string) : option Reply := Returned <$> receipt_of st id.

(** [send] up to its dispatch; [id] is the fresh UUID, [boot] what the node's
    status says and [authorized] the answer of the caller's check.
    @modules/nodes/application/live-command-receipts.ts 33-40 send *)
Definition send (id : string) (command : NodeCommand) (issuer : string) (authorized : bool) (boot : option Z) (now : Z) (st : Receipts) :
    Receipts * option Reply :=
  if om_has id (rs_heap st) then (st, None)
  else
    let st := sweep now st in
    match reserve st with
    | Err k => (st, Some (Thrown k None))
    | Ok st =>
        let receipt := {| rc_id := id; rc_uid := nc_uid command; rc_operation := operation (nc_opcode command); rc_sequence := None;
                          rc_boot := boot; rc_state := Requested; rc_requestedAt := now; rc_updatedAt := now; rc_message := "Requested." |} in
        let stored := {| sr_receipt := receipt; sr_issuer := issuer; sr_generation := rs_generation st |} in
        let st := with_live (rs_live st ++ [id]) (with_heap (om_set id stored (rs_heap st)) st) in
        if authorized then (with_flight (rs_dispatching st ++ [id]) (rs_waiting st ++ [id]) st, None)
        else
          let st := change id (updated Failed "Access changed; no command was sent." now) st in
          (st, Some (Thrown Conflict (receipt_of st id)))
    end.

Definition set_sequence (seq : Z) (s : StoredReceipt) : StoredReceipt :=
  let r := sr_receipt s in
  {| sr_receipt := {| rc_id := rc_id r; rc_uid := rc_uid r; rc_operation := rc_operation r; rc_sequence := Some seq; rc_boot := rc_boot r;
                      rc_state := rc_state r; rc_requestedAt := rc_requestedAt r; rc_updatedAt := rc_updatedAt r; rc_message := rc_message r |};
     sr_issuer := sr_issuer s; sr_generation := sr_generation s |}.

(** @modules/nodes/application/live-command-receipts.ts 41-48 send *)
Definition sent_now (seq : Z) (st : Receipts) (now : Z) (s : StoredReceipt) : StoredReceipt :=
  let s := set_sequence seq s in
  if TERMINAL (rc_state (sr_receipt s)) then s
  else if rs_stopped st then updated Uncertain "Service stopped; command outcome is uncertain." now s
  else
    let s := updated Sent "Sent — waiting for device." now s in
    match om_get (rc_uid (sr_receipt s)) (rs_observations st) with Some o => correlate o now s | None => s end.

(** The dispatch settles: [inl] the sequence number it sent under, [inr] that it
    failed, and whether as unavailable.
    @modules/nodes/application/live-command-receipts.ts 40-60 send *)
Definition on_dispatched (id : string) (answer : Z + bool) (now : Z) (st : Receipts) : Receipts * option Reply :=
  let st := with_flight (without id (rs_dispatching st)) (rs_waiting st) st in
  if negb (includes id (rs_waiting st)) then (st, None)
  else
    let st := with_flight (rs_dispatching st) (without id (rs_waiting st)) st in
    match answer with
    | inl seq => let st := change id (sent_now seq st now) st in (st, return_receipt st id)
    | inr unavailable =>
        let st := change id (updated Uncertain "Delivery could not be confirmed. Check device state before sending again." now) st in
        (st, Some (Thrown (if unavailable then Unavailable else Conflict) (receipt_of st id)))
    end.

(** The dispatch takes too long; it may still settle later.
    @modules/nodes/application/live-command-receipts.ts 61-64 dispatchBounded *)
Definition on_dispatch_timeout (id : string) (now : Z) (st : Receipts) : Receipts * option Reply :=
  if negb (includes id (rs_waiting st)) then (st, None)
  else
    let st := with_flight (rs_dispatching st) (without id (rs_waiting st)) st in
    let st := change id (updated Uncertain "Dispatch status timed out. Check device state before sending again." now) st in
    (st, return_receipt st id).

(** @modules/nodes/application/live-command-receipts.ts 67-70 get *)
Definition get (issuer uid id : string) (now : Z) (st : Receipts) : Receipts * option CommandReceipt :=
  let st := sweep now st in
  (st,
   if includes id (rs_live st) then
     match om_get id (rs_heap st) with
     | Some s => if bool_decide (sr_issuer s = issuer) && bool_decide (rc_uid (sr_receipt s) = uid) then Some (sr_receipt s) else None
     | None => None
     end
   else None).

(** @modules/nodes/application/live-command-receipts.ts 72-78 observeStatus *)
Definition observeStatus (uid : string) (sequence : Z) (boot : option Z) (at_ now : Z) (st : Receipts) : Receipts :=
  let st := sweep now st in
  let obs := if Nat.leb MAX_RECEIPTS (length (rs_observations st)) then tail (rs_observations st) else rs_observations st in
  let o := {| ob_sequence := sequence; ob_boot := boot; ob_generation := rs_generation st + 1; ob_at := at_ |} in
  let st := {| rs_heap := rs_heap st; rs_live := rs_live st; rs_observations := om_set uid o obs; rs_generation := rs_generation st + 1;
               rs_dispatching := rs_dispatching st; rs_waiting := rs_waiting st; rs_stopped := rs_stopped st |} in
  fold_left (fun st id => change id (fun s => if bool_decide (rc_uid (sr_receipt s) = uid) then correlate o now s else s) st) (rs_live st) st.

(** @modules/nodes/application/live-command-receipts.ts 80-84 dispose *)
Definition dispose (now : Z) (st : Receipts) : Receipts :=
  let st := {| rs_heap := rs_heap st; rs_live := rs_live st; rs_observations := rs_observations st; rs_generation := rs_generation st;
               rs_dispatching := rs_dispatching st; rs_waiting := rs_waiting st; rs_stopped := true |} in
  let st := fold_left (fun st id => change id (fun s =>
    if TERMINAL (rc_state (sr_receipt s)) then s else updated Uncertain "Service stopped; command outcome is uncertain." now s) st) (rs_live st) st in
  {| rs_heap := rs_heap st; rs_live := rs_live st; rs_observations := []; rs_generation := rs_generation st;
     rs_dispatching := rs_dispatching st; rs_waiting := rs_waiting st; rs_stopped := rs_stopped st |}.

Inductive Event :=
| ESend (id : string) (command : NodeCommand) (issuer : string) (authorized : bool) (boot : option Z) (now : Z)
| EDispatched (id : string) (answer : Z + bool) (now : Z)
| EDispatchTimeout (id : string) (now : Z)
| EGet (issuer uid id : string) (now : Z)
| EStatus (uid : string) (sequence : Z) (boot : option Z) (at_ now : Z)
| EDispose (now : Z).

Definition receipts_step (st : Receipts) (e : Event) : Receipts :=
  match e with
  | ESend id c issuer a boot now => fst (send id c issuer a boot now st)
  | EDispatched id answer now => fst (on_dispatched id answer now st)
  | EDispatchTimeout id now => fst (on_dispatch_timeout id now st)
  | EGet issuer uid id now => fst (get issuer uid id now st)
  | EStatus uid seq boot at_ now => observeStatus uid seq boot at_ now st
  | EDispose now => dispose now st
  end.

(** ** What a step does to one receipt *)

Definition same_order (s s' : StoredReceipt) : Prop :=
  sr_issuer s' = sr_issuer s /\ sr_generation s' = sr_generation s /\ rc_id (sr_receipt s') = rc_id (sr_receipt s) /\
  rc_uid (sr_receipt s') = rc_uid (sr_receipt s) /\ rc_operation (sr_receipt s') = rc_operation (sr_receipt s) /\
  rc_boot (sr_receipt s') = rc_boot (sr_receipt s) /\ rc_requestedAt (sr_receipt s') = rc_requestedAt (sr_receipt s).

Definition rank (s : ReceiptState) : Z := match s with Requested => 0 | Sent => 1 | _ => 2 end.

(** The receipt is the same order, and its state went forward or stayed. *)
Definition onward (s s' : StoredReceipt) : Prop :=
  same_order s s' /\ let x := rc_state (sr_receipt s) in let x' := rc_state (sr_receipt s') in
  rank x <= rank x' /\ (TERMINAL x = true -> x' = x).

Lemma onward_refl s : onward s s.
Proof. by repeat split. Qed.

Lemma onward_trans s1 s2 s3 : onward s1 s2 -> onward s2 s3 -> onward s1 s3.
Proof.
  intros [(?&?&?&?&?&?&?) [? Ht1]] [(?&?&?&?&?&?&?) [? Ht2]]. split; [repeat split; congruence|]. split; [lia|]. intros Ht. rewrite Ht2; [auto|]. by rewrite Ht1.
Qed.

Lemma updated_onward x m now s : TERMINAL (rc_state (sr_receipt s)) = false -> rank (rc_state (sr_receipt s)) <= rank x -> onward s (updated x m now s).
Proof. intros Ht Hr. repeat split; [done|]. by rewrite Ht. Qed.

Lemma again_onward m now s : rc_state (sr_receipt s) = Requested \/ rc_state (sr_receipt s) = Uncertain -> onward s (updated Uncertain m now s).
Proof. intros [H|H]; repeat split; rewrite H; done. Qed.

Lemma correlate_onward o now s : onward s (correlate o now s).
Proof.
  unfold correlate. case_bool_decide as E; cbn [negb orb]; [|apply onward_refl].
  break_goal; try apply onward_refl; apply updated_onward; by rewrite E.
Qed.

Lemma aged_onward now s s' : aged now s = Some s' -> onward s s'.
Proof.
  unfold aged. destruct (_ && _); [done|]. case_bool_decide as E; cbn [andb].
  - destruct (_ <=? _); [intros [= <-]; apply updated_onward; by rewrite E|]. rewrite bool_decide_eq_false_2 by (rewrite E; discriminate).
    intros [= <-]. apply onward_refl.
  - case_bool_decide as E'; cbn [andb]; [|intros [= <-]; apply onward_refl].
    destruct (_ <=? _); intros [= <-]; [apply updated_onward; by rewrite E' | apply onward_refl].
Qed.

Lemma aged_dropped now s : aged now s = None -> TERMINAL (rc_state (sr_receipt s)) = true.
Proof. unfold aged. destruct (TERMINAL _); [done|]. cbn [andb]. by break_goal. Qed.

Lemma sent_now_onward seq st now s : rc_state (sr_receipt s) = Requested \/ rc_state (sr_receipt s) = Uncertain -> onward s (sent_now seq st now s).
Proof.
  intros Hs. assert (onward s (set_sequence seq s)) as H0 by (repeat split; done). unfold sent_now.
  destruct (TERMINAL (rc_state (sr_receipt (set_sequence seq s)))) eqn:E; [done|]. eapply onward_trans; [exact H0|].
  assert (rc_state (sr_receipt s) = Requested) as Hr by (destruct Hs as [|Hs]; [done|]; cbn in E; by rewrite Hs in E).
  destruct (rs_stopped st); [apply updated_onward; [done|]; cbn; by rewrite Hr|].
  eapply onward_trans; [apply (updated_onward Sent "Sent — waiting for device." now); [done|]; cbn; by rewrite Hr|].
  destruct (om_get _ _); [apply correlate_onward | apply onward_refl].
Qed.

(** ** The heap, the map and the observations after each operation *)

Lemma get_change id f st id' : om_get id' (rs_heap (change id f st)) = if decide (id' = id) then f <$> om_get id (rs_heap st) else om_get id' (rs_heap st).
Proof.
  unfold change. destruct (om_get id (rs_heap st)) as [s|] eqn:E; cbn [rs_heap with_heap].
  - rewrite om_get_set. case_decide; case_bool_decide; done.
  - case_decide; [by subst|done].
Qed.

Lemma change_same id f st : rs_live (change id f st) = rs_live st /\ rs_observations (change id f st) = rs_observations st /\
  rs_generation (change id f st) = rs_generation st /\ rs_dispatching (change id f st) = rs_dispatching st /\
  rs_waiting (change id f st) = rs_waiting st /\ rs_stopped (change id f st) = rs_stopped st.
Proof. unfold change. by destruct (om_get id (rs_heap st)). Qed.

Lemma elem_of_without id id' l : id' ∈ without id l <-> id' ≠ id /\ id' ∈ l.
Proof.
  unfold without. rewrite list_elem_of_In, filter_In, <- list_elem_of_In, negb_true, bool_decide_eq_false. tauto.
Qed.

Lemma without_nodup id l : NoDup l -> NoDup (without id l).
Proof. intros H. apply NoDup_ListNoDup, List.NoDup_filter, NoDup_ListNoDup, H. Qed.

Lemma without_length id l : (length (without id l) <= length l)%nat.
Proof. apply List.filter_length_le. Qed.

Lemma without_shorter id l : id ∈ l -> (length (without id l) < length l)%nat.
Proof.
  induction l as [|y l IH]; intros Hin; [by apply not_elem_of_nil in Hin|]. unfold without. cbn [List.filter]. fold (without id l).
  pose proof (without_length id l). case_bool_decide as E; cbn [negb length]; [lia|].
  apply elem_of_cons in Hin as [->|Hin]; [done|]. specialize (IH Hin). lia.
Qed.

Definition sweep_one (now : Z) (st : Receipts) (id : string) : Receipts :=
  match om_get id (rs_heap st) with
  | None => st
  | Some s => match aged now s with
              | None => with_live (without id (rs_live st)) st
              | Some s' => with_heap (om_set id s' (rs_heap st)) st
              end
  end.

Lemma sweep_one_spec now st i : let st' := sweep_one now st i in
  (forall id, om_get id (rs_heap st') = if decide (id = i) then (fun s => default s (aged now s)) <$> om_get i (rs_heap st) else om_get id (rs_heap st)) /\
  (forall id, id ∈ rs_live st' <-> id ∈ rs_live st /\ ~ (id = i /\ exists s, om_get i (rs_heap st) = Some s /\ aged now s = None)) /\
  (NoDup (rs_live st) -> NoDup (rs_live st')) /\ (length (rs_live st') <= length (rs_live st))%nat /\
  rs_observations st' = rs_observations st /\ rs_generation st' = rs_generation st /\ rs_dispatching st' = rs_dispatching st /\
  rs_waiting st' = rs_waiting st /\ rs_stopped st' = rs_stopped st.
Proof.
  unfold sweep_one. cbv zeta. destruct (om_get i (rs_heap st)) as [s|] eqn:Es.
  - destruct (aged now s) as [s'|] eqn:Ea; cbn; rewrite ?Ea; split_and!; auto using without_nodup, without_length.
    + intros id. rewrite om_get_set. repeat case_decide; repeat case_bool_decide; done.
    + naive_solver.
    + intros id. case_decide; by subst.
    + intros id. rewrite elem_of_without. naive_solver.
  - cbn. split_and!; auto; [intros id; case_decide; by subst|naive_solver].
Qed.

Lemma sweep_fold now l : forall st, NoDup l ->
  let st' := fold_left (sweep_one now) l st in
  (forall id, om_get id (rs_heap st') = if decide (id ∈ l) then (fun s => default s (aged now s)) <$> om_get id (rs_heap st) else om_get id (rs_heap st)) /\
  (forall id, id ∈ rs_live st' <-> id ∈ rs_live st /\ ~ (id ∈ l /\ exists s, om_get id (rs_heap st) = Some s /\ aged now s = None)) /\
  (NoDup (rs_live st) -> NoDup (rs_live st')) /\ (length (rs_live st') <= length (rs_live st))%nat /\
  rs_observations st' = rs_observations st /\ rs_generation st' = rs_generation st /\ rs_dispatching st' = rs_dispatching st /\
  rs_waiting st' = rs_waiting st /\ rs_stopped st' = rs_stopped st.
Proof.
  induction l as [|i l IH]; intros st Hnd st'; subst st'; cbn [fold_left].
  - split_and!; try done; try lia; intros id; set_solver.
  - apply NoDup_cons in Hnd as [Hi Hnd].
    destruct (IH (sweep_one now st i) Hnd) as (Hh & Hl & Hn & Hlen & -> & -> & -> & -> & ->). clear IH.
    destruct (sweep_one_spec now st i) as (E & L & N & Len & -> & -> & -> & -> & ->). split_and!; try done; try lia. all: cycle 2. { auto. }
    + intros id. rewrite Hh, E. destruct (decide (id = i)) as [->|Hne].
      * rewrite decide_False by done. by rewrite decide_True by set_solver.
      * destruct (decide (id ∈ l)); [by rewrite decide_True by set_solver|by rewrite decide_False by set_solver].
    + intros id. rewrite Hl, L, E. destruct (decide (id = i)) as [->|Hne]; set_solver.
Qed.

(** Every receipt of [st] is there in [st'], the same order and not further back. *)
Definition grows (st st' : Receipts) : Prop :=
  forall id s, om_get id (rs_heap st) = Some s -> exists s', om_get id (rs_heap st') = Some s' /\ onward s s'.

Lemma grows_refl st : grows st st.
Proof. intros id s Hs. exists s. split; [done|apply onward_refl]. Qed.

Lemma grows_trans st1 st2 st3 : grows st1 st2 -> grows st2 st3 -> grows st1 st3.
Proof.
  intros H1 H2 id s Hs. apply H1 in Hs as (s2 & Hs2 & Ho). apply H2 in Hs2 as (s3 & Hs3 & Ho'). exists s3. split; [done|]. by eapply onward_trans.
Qed.

Definition open_state (x : ReceiptState) : Prop := x = Requested \/ x = Uncertain.

Record well_formed (st : Receipts) : Prop := {
  wf_nodup : NoDup (rs_live st);
  wf_live : forall id, id ∈ rs_live st -> om_has id (rs_heap st) = true;
  wf_gone : forall id s, om_get id (rs_heap st) = Some s -> id ∉ rs_live st -> TERMINAL (rc_state (sr_receipt s)) = true;
  wf_waiting : forall id s, om_get id (rs_heap st) = Some s -> id ∈ rs_waiting st -> open_state (rc_state (sr_receipt s));
  wf_known : forall id, id ∈ rs_waiting st -> om_has id (rs_heap st) = true;
  wf_live_bound : (length (rs_live st) <= MAX_RECEIPTS)%nat;
  wf_obs_bound : (length (rs_observations st) <= MAX_RECEIPTS)%nat;
  wf_dispatching_bound : (length (rs_dispatching st) <= MAX_RECEIPTS)%nat }.

Arguments MAX_RECEIPTS : simpl never.

Lemma om_has_get id (h : list (string * StoredReceipt)) : om_has id h = true <-> is_Some (om_get id h).
Proof. unfold om_has. destruct (om_get id h); split; try done; by intros []. Qed.

Lemma aged_open now s : open_state (rc_state (sr_receipt s)) -> open_state (rc_state (sr_receipt (default s (aged now s)))).
Proof.
  intros H. unfold aged. destruct (_ && _); [done|]. destruct (_ && _); [by right|]. rewrite (bool_decide_eq_false_2 (_ = Sent)); [done|].
  by destruct H as [-> | ->].
Qed.

Lemma sweep_wf now st : well_formed st -> well_formed (sweep now st) /\ grows st (sweep now st).
Proof.
  intros [Hn Hl Hg Hw Hk B1 B2 B3]. destruct (sweep_fold now (rs_live st) st Hn) as (Hh & Hl' & Hn' & Hlen & Ho & Hge & Hd & Hwa & Hs).
  assert (grows st (sweep now st)) as G.
  { intros id s Hs0. unfold sweep. rewrite Hh, Hs0. case_decide; [|exists s; split; [done|apply onward_refl]]. cbn.
    destruct (aged now s) as [s'|] eqn:E; [exists s'; split; [done|by eapply aged_onward]|exists s; split; [done|apply onward_refl]]. }
  split; [|done]. unfold sweep in *. fold (sweep_one now) in *. constructor; [auto| | | | |lia|congruence|congruence].
  - intros id [Hin _]%Hl'. apply om_has_get. apply Hl, om_has_get in Hin as [s Hs0]. destruct (G id s Hs0) as (s' & -> & _). by eexists.
  - intros id s Hs0 Hni. rewrite Hl' in Hni. rewrite Hh in Hs0. case_decide as Hin; [|by eapply Hg].
    destruct (om_get id (rs_heap st)) as [s0|] eqn:E0; [|done]. cbn in Hs0. injection Hs0 as <-.
    destruct (aged now s0) as [s'|] eqn:Ea; cbn; [|by eapply aged_dropped]. destruct Hni. split; [done|]. intros [_ (s1 & [= <-] & ?)]. congruence.
  - intros id s Hs0. rewrite Hwa. intros Hin. rewrite Hh in Hs0. case_decide; [|by eapply Hw].
    destruct (om_get id (rs_heap st)) as [s0|] eqn:E0; [|done]. cbn in Hs0. injection Hs0 as <-. specialize (Hw _ _ E0 Hin).
    by apply aged_open.
  - intros id. rewrite Hwa. intros Hin. apply om_has_get. apply Hk, om_has_get in Hin as [s Hs0]. destruct (G id s Hs0) as (s' & -> & _). by eexists.
Qed.

Lemma onward_terminal s s' : onward s s' -> TERMINAL (rc_state (sr_receipt s)) = true -> TERMINAL (rc_state (sr_receipt s')) = true.
Proof. intros [_ [_ H]] Ht. by rewrite H. Qed.

Lemma change_wf id f st : well_formed st ->
  (forall s, om_get id (rs_heap st) = Some s -> onward s (f s) /\ (id ∈ rs_waiting st -> open_state (rc_state (sr_receipt s)) -> open_state (rc_state (sr_receipt (f s))))) ->
  well_formed (change id f st) /\ grows st (change id f st).
Proof.
  intros [Hn Hl Hg Hw Hk B1 B2 B3] Hf. destruct (change_same id f st) as (El & Eo & _ & Ed & Ew & _). split.
  - constructor; rewrite ?El, ?Eo, ?Ed, ?Ew; try done.
    + intros i Hi. apply om_has_get. rewrite get_change. specialize (Hl _ Hi). apply om_has_get in Hl. case_decide; [subst|done]. by apply fmap_is_Some.
    + intros i s. rewrite get_change. case_decide; [subst|by apply Hg]. destruct (om_get id (rs_heap st)) as [s0|] eqn:E; [|done].
      intros [= <-] Hni. eapply onward_terminal; [by apply Hf|]. by eapply Hg.
    + intros i s. rewrite get_change. case_decide; [subst|by apply Hw]. destruct (om_get id (rs_heap st)) as [s0|] eqn:E; [|done].
      intros [= <-] Hi. apply Hf; [done..|]. by eapply Hw.
    + intros i Hi. apply om_has_get. rewrite get_change. specialize (Hk _ Hi). apply om_has_get in Hk. case_decide; [subst|done]. by apply fmap_is_Some.
  - intros i s Hs. rewrite get_change. case_decide; [subst|exists s; split; [done|apply onward_refl]]. rewrite Hs. exists (f s). split; [done|by apply Hf].
Qed.

Lemma fold_change_wf f l : forall st, well_formed st ->
  (forall s, onward s (f s) /\ (open_state (rc_state (sr_receipt s)) -> open_state (rc_state (sr_receipt (f s))))) ->
  let st' := fold_left (fun st id => change id f st) l st in well_formed st' /\ grows st st'.
Proof.
  induction l as [|i l IH]; intros st H Hf; cbn [fold_left]; [split; [done|apply grows_refl]|].
  assert (forall s, om_get i (rs_heap st) = Some s -> onward s (f s) /\ (i ∈ rs_waiting st -> open_state (rc_state (sr_receipt s)) -> open_state (rc_state (sr_receipt (f s))))) as Hfi by (intros s _; split; [apply Hf|intros _; apply Hf]).
  destruct (change_wf i f st H Hfi) as [H1 G1]. destruct (IH _ H1 Hf) as [H2 G2]. split; [exact H2|]. by eapply grows_trans.
Qed.

Lemma correlate_open o now s : open_state (rc_state (sr_receipt s)) -> open_state (rc_state (sr_receipt (correlate o now s))).
Proof. intros H. unfold correlate. rewrite bool_decide_eq_false_2 by (destruct H as [-> | ->]; discriminate). done. Qed.

Lemma observeStatus_wf uid seq boot at_ now st : well_formed st ->
  well_formed (observeStatus uid seq boot at_ now st) /\ grows st (observeStatus uid seq boot at_ now st).
Proof.
  intros H. destruct (sweep_wf now st H) as [H1 G1]. unfold observeStatus.
  match goal with |- context [fold_left ?g ?l ?x] => destruct (fold_change_wf (fun s => if bool_decide (rc_uid (sr_receipt s) = uid) then correlate
     {| ob_sequence := seq; ob_boot := boot; ob_generation := rs_generation (sweep now st) + 1; ob_at := at_ |} now s else s) l x) as [H2 G2] end.
  - destruct H1 as [Hn Hl Hg Hw Hk B1 B2 B3]. constructor; try done. cbn [rs_observations]. rewrite om_length_set.
    destruct (om_has _ _) eqn:Eh; destruct (Nat.leb_spec MAX_RECEIPTS (length (rs_observations (sweep now st)))); rewrite ?length_tl; unfold MAX_RECEIPTS in *; lia.
  - intros s. case_bool_decide; [split; [apply correlate_onward|apply correlate_open]|split; [apply onward_refl|done]].
  - split; [done|]. eapply grows_trans; [exact G1|]. exact G2.
Qed.

Lemma dispose_wf now st : well_formed st -> well_formed (dispose now st) /\ grows st (dispose now st).
Proof.
  intros H. unfold dispose.
  match goal with |- context [fold_left ?g ?l ?x] => destruct (fold_change_wf (fun s => if TERMINAL (rc_state (sr_receipt s)) then s else
     updated Uncertain "Service stopped; command outcome is uncertain." now s) l x) as [H2 G2] end.
  - by destruct H.
  - intros s. destruct (TERMINAL _) eqn:E; [split; [apply onward_refl|done]|]. split; [|by right]. apply updated_onward; [done|]. by destruct (rc_state _).
  - split; [|exact G2]. destruct H2. constructor; try done. cbn. unfold MAX_RECEIPTS. lia.
Qed.

Lemma with_flight_wf d w st : well_formed st -> (length d <= MAX_RECEIPTS)%nat -> (forall id, id ∈ w -> id ∈ rs_waiting st) ->
  well_formed (with_flight d w st).
Proof. intros [Hn Hl Hg Hw Hk B1 B2 B3] Hd Hi. constructor; try done; cbn; [intros id s Hs Hin; by apply (Hw _ _ Hs), Hi | auto]. Qed.

Lemma settle_wf id f st : well_formed st -> id ∉ rs_waiting st ->
  (forall s, om_get id (rs_heap st) = Some s -> onward s (f s)) -> well_formed (change id f st) /\ grows st (change id f st).
Proof. intros H Hni Hf. apply change_wf; [done|]. intros s Hs. split; [by apply Hf|]. intros Hi. by destruct Hni. Qed.

Lemma on_dispatched_wf id answer now st : well_formed st ->
  well_formed (fst (on_dispatched id answer now st)) /\ grows st (fst (on_dispatched id answer now st)).
Proof.
  intros H. unfold on_dispatched. cbn [rs_waiting with_flight].
  assert (length (without id (rs_dispatching st)) <= MAX_RECEIPTS)%nat as Hlen by (pose proof (without_length id (rs_dispatching st)); destruct H; lia).
  destruct (includes id (rs_waiting st)) eqn:E; cbn [negb]; [|split; [by apply with_flight_wf|exact (grows_refl st)]].
  apply includes_true in E.
  assert (forall s, om_get id (rs_heap st) = Some s -> open_state (rc_state (sr_receipt s))) as Ho by (intros s Hs; by eapply wf_waiting).
  match goal with |- context [change id _ ?x] => assert (well_formed x) as Hx by (apply with_flight_wf; [by apply with_flight_wf|done|]; intros i [_ Hi]%elem_of_without; exact Hi);
    assert (id ∉ rs_waiting x) as Hni by (cbn; rewrite elem_of_without; tauto) end.
  destruct answer as [seq|u]; cbn [fst]; (edestruct settle_wf as [H2 G2]; [exact Hx|exact Hni| |split; [exact H2|exact G2]]);
    intros s Hs; apply Ho in Hs; [by apply sent_now_onward | by apply again_onward].
Qed.

Lemma on_dispatch_timeout_wf id now st : well_formed st ->
  well_formed (fst (on_dispatch_timeout id now st)) /\ grows st (fst (on_dispatch_timeout id now st)).
Proof.
  intros H. unfold on_dispatch_timeout. destruct (includes id (rs_waiting st)) eqn:E; cbn [negb fst]; [|split; [done|exact (grows_refl st)]].
  apply includes_true in E.
  match goal with |- context [change id _ ?x] => assert (well_formed x) as Hx by (apply with_flight_wf; [done|by destruct H|]; intros i [_ Hi]%elem_of_without; exact Hi);
    assert (id ∉ rs_waiting x) as Hni by (cbn; rewrite elem_of_without; tauto) end.
  edestruct settle_wf as [H2 G2]; [exact Hx|exact Hni| |split; [exact H2|exact G2]].
  intros s Hs. apply again_onward. exact (wf_waiting st H id s Hs E).
Qed.

Lemma reserve_wf st st' : well_formed st -> reserve st = Ok st' ->
  well_formed st' /\ (length (rs_live st') < MAX_RECEIPTS)%nat /\ (length (rs_dispatching st') < MAX_RECEIPTS)%nat /\
  rs_heap st' = rs_heap st /\ rs_generation st' = rs_generation st /\ rs_waiting st' = rs_waiting st /\ rs_observations st' = rs_observations st /\
  (forall id, id ∈ rs_live st' -> id ∈ rs_live st).
Proof.
  intros H. unfold reserve. destruct (rs_stopped st); [done|]. destruct (Nat.leb_spec MAX_RECEIPTS (length (rs_dispatching st))); [done|].
  destruct (Nat.ltb_spec (length (rs_live st)) MAX_RECEIPTS); [intros <-%Ok_inj; done|].
  destruct (List.find (is_terminal st) (rs_live st)) as [id|] eqn:E; [|done]. intros <-%Ok_inj.
  apply find_some in E as [Hin Ht]. apply list_elem_of_In in Hin. destruct H as [Hn Hl Hg Hw Hk B1 B2 B3].
  pose proof (without_shorter id (rs_live st) Hin). split_and!; try done; [|cbn; lia|intros i [_ Hi]%elem_of_without; exact Hi].
  constructor; try done; cbn [rs_live with_live rs_heap]; [by apply without_nodup| | |lia].
  - intros i [_ Hi]%elem_of_without. auto.
  - intros i s Hs Hni. destruct (decide (i = id)) as [->|]; [|eapply Hg; [done|]; by rewrite elem_of_without in Hni; tauto].
    unfold is_terminal in Ht. by rewrite Hs in Ht.
Qed.

Definition first_receipt (id : string) (command : NodeCommand) (boot : option Z) (now : Z) : CommandReceipt :=
  {| rc_id := id; rc_uid := nc_uid command; rc_operation := operation (nc_opcode command); rc_sequence := None;
     rc_boot := boot; rc_state := Requested; rc_requestedAt := now; rc_updatedAt := now; rc_message := "Requested." |}.

Definition fresh_receipt (id : string) (s : StoredReceipt) (st : Receipts) : Receipts :=
  with_live (rs_live st ++ [id]) (with_heap (om_set id s (rs_heap st)) st).

Lemma fresh_wf id s st : well_formed st -> om_has id (rs_heap st) = false -> (length (rs_live st) < MAX_RECEIPTS)%nat ->
  well_formed (fresh_receipt id s st) /\ grows st (fresh_receipt id s st) /\ id ∉ rs_waiting st.
Proof.
  intros [Hn Hl Hg Hw Hk B1 B2 B3] Hf Hlt.
  assert (id ∉ rs_live st) as Hnl by (intros Hi%Hl; congruence). assert (id ∉ rs_waiting st) as Hnw by (intros Hi%Hk; congruence).
  assert (om_get id (rs_heap st) = None) as Hnone by (unfold om_has in Hf; by destruct (om_get id (rs_heap st))).
  assert (forall i, om_has i (rs_heap st) = true -> om_has i (om_set id s (rs_heap st)) = true) as Hkeep.
  { intros i Hi. apply om_has_get. rewrite om_get_set. case_bool_decide; [by eexists|]. by apply om_has_get. }
  split_and!; [constructor; try done; cbn [rs_live with_live rs_heap with_heap rs_waiting fresh_receipt]| |done].
  - apply NoDup_app. split; [done|]. split; [|apply NoDup_singleton]. intros x Hx ->%list_elem_of_singleton. done.
  - intros i [Hi| ->%list_elem_of_singleton]%elem_of_app; [by apply Hkeep, Hl|]. apply om_has_get. rewrite om_get_set_eq. by eexists.
  - intros i s'. rewrite om_get_set. case_bool_decide; [subst; intros _ []; set_solver|]. intros Hs Hni. eapply Hg; [done|]. set_solver.
  - intros i s'. rewrite om_get_set. case_bool_decide; [by subst|]. by apply Hw.
  - intros i Hi. by apply Hkeep, Hk.
  - rewrite length_app. cbn. lia.
  - intros i s' Hs. exists s'. split; [|apply onward_refl]. cbn. rewrite om_get_set. case_bool_decide; [subst; congruence|done].
Qed.

Lemma sweep_keys now st id : well_formed st -> om_has id (rs_heap (sweep now st)) = om_has id (rs_heap st).
Proof.
  intros H. destruct (sweep_fold now (rs_live st) st (wf_nodup _ H)) as (Hh & _). unfold sweep, om_has. fold (sweep_one now). rewrite Hh.
  case_decide; [|done]. by destruct (om_get id (rs_heap st)).
Qed.

Lemma send_wf id c issuer a boot now st : well_formed st ->
  well_formed (fst (send id c issuer a boot now st)) /\ grows st (fst (send id c issuer a boot now st)).
Proof.
  intros H. unfold send. destruct (om_has id (rs_heap st)) eqn:Eh; [split; [done|apply grows_refl]|].
  destruct (sweep_wf now st H) as [H1 G1]. destruct (reserve (sweep now st)) as [st2|k] eqn:Er; [|done].
  destruct (reserve_wf _ _ H1 Er) as (H2 & Hlt & Hdt & Eh2 & _). fold (first_receipt id c boot now).
  set (s := {| sr_receipt := first_receipt id c boot now; sr_issuer := issuer; sr_generation := rs_generation st2 |}). fold (fresh_receipt id s st2).
  destruct (fresh_wf id s st2 H2) as (H3 & G3 & Hnw); [by rewrite Eh2, sweep_keys|done|].
  assert (grows st st2) as G2 by (intros i x Hx; destruct (G1 i x Hx) as (x' & Hx' & Ho); exists x'; by rewrite Eh2).
  assert (om_get id (rs_heap (fresh_receipt id s st2)) = Some s) as Hs by (cbn; by rewrite om_get_set_eq).
  destruct a; cbn [fst].
  - split; [|by eapply grows_trans]. destruct H3 as [Hn Hl Hg Hw Hk B1 B2 B3]. constructor; try done; cbn [rs_waiting with_flight rs_dispatching].
    + intros i x Hx [Hi| ->%list_elem_of_singleton]%elem_of_app; [by eapply Hw|]. cbn in Hs, Hx. rewrite Hs in Hx. injection Hx as <-. by left.
    + intros i [Hi| ->%list_elem_of_singleton]%elem_of_app; [by apply Hk|]. apply om_has_get. cbn in Hs |- *. rewrite Hs. by eexists.
    + rewrite length_app. cbn in *. lia.
  - edestruct (change_wf id (updated Failed "Access changed; no command was sent." now)) as [H4 G4]; [exact H3| |split; [exact H4|]].
    + intros x Hx. rewrite Hs in Hx. injection Hx as <-. split; [by apply updated_onward|]. cbn. intros Hi. by destruct Hnw.
    + eapply grows_trans; [exact G2|]. by eapply grows_trans.
Qed.

Lemma step_wf e st : well_formed st -> well_formed (receipts_step st e) /\ grows st (receipts_step st e).
Proof.
  intros H. destruct e; [by apply send_wf|by apply on_dispatched_wf|by apply on_dispatch_timeout_wf| |by apply observeStatus_wf|by apply dispose_wf].
  by apply sweep_wf.
Qed.

Lemma new_wf : well_formed new_receipts.
Proof. constructor; try done; cbn; try (intros; set_solver); try (unfold MAX_RECEIPTS; lia). constructor. Qed.

Lemma run_wf es : forall st, well_formed st -> well_formed (run receipts_step st es) /\ grows st (run receipts_step st es).
Proof.
  induction es as [|e es IH]; intros st H; [split; [done|apply grows_refl]|]. destruct (step_wf e st H) as [H1 G1].
  destruct (IH _ H1) as [H2 G2]. split; [exact H2|]. by eapply grows_trans.
Qed.

Definition event_time (e : Event) : Z :=
  match e with
  | ESend _ _ _ _ _ now | EDispatched _ _ now | EDispatchTimeout _ now | EGet _ _ _ now | EStatus _ _ _ _ now | EDispose now => now
  end.

(** ** Every receipt reaches an outcome *)

Definition stamped (T : Z) (s : StoredReceipt) : Prop := rc_requestedAt (sr_receipt s) <= T /\ rc_updatedAt (sr_receipt s) <= T.

Lemma updated_stamped T x m now s : stamped T s -> now <= T -> stamped T (updated x m now s).
Proof. unfold stamped. cbn. lia. Qed.

Lemma correlate_stamped T o now s : stamped T s -> now <= T -> stamped T (correlate o now s).
Proof. intros H Hn. unfold correlate. break_goal; auto using updated_stamped. Qed.

Lemma sent_now_stamped T seq st now s : stamped T s -> now <= T -> stamped T (sent_now seq st now s).
Proof.
  intros H Hn. unfold sent_now. assert (stamped T (set_sequence seq s)) by done. break_goal; auto using updated_stamped, correlate_stamped.
Qed.

Definition all_heap (R : string -> StoredReceipt -> Prop) (st : Receipts) : Prop := forall id s, om_get id (rs_heap st) = Some s -> R id s.

(** A fact about single receipts holds after a step if every change the code
    makes to one keeps it. *)
Section each_receipt.
Context (R : string -> StoredReceipt -> Prop) (now : Z).
Hypothesis R_updated : forall id x m s, R id s -> x <> Acknowledged -> R id (updated x m now s).

Lemma change_all id f st : all_heap R st -> (forall s, om_get id (rs_heap st) = Some s -> R id s -> R id (f s)) -> all_heap R (change id f st).
Proof.
  intros H Hf i s. rewrite get_change. case_decide; [subst|apply H]. destruct (om_get id (rs_heap st)) eqn:E; [|done]. intros [= <-]. auto.
Qed.

Lemma fold_change_all f l : forall st, all_heap R st -> (forall id s, R id s -> R id (f s)) -> all_heap R (fold_left (fun st id => change id f st) l st).
Proof. induction l as [|i l IH]; intros st H Hf; [done|]. cbn [fold_left]. apply IH; [|done]. apply change_all; auto. Qed.

Lemma aged_all id s s' : R id s -> aged now s = Some s' -> R id s'.
Proof. intros H. unfold aged. destruct (_ && _); [done|]. break_goal; intros [= <-]; auto; by apply R_updated. Qed.

Lemma sweep_all st : all_heap R st -> all_heap R (sweep now st).
Proof.
  unfold sweep. generalize (rs_live st) as l. intros l. revert st. induction l as [|i l IH]; intros st H; [done|]. cbn [fold_left]. apply IH.
  destruct (om_get i (rs_heap st)) as [s|] eqn:E; [|done]. destruct (aged now s) as [s'|] eqn:Ea; [|done].
  intros j x. cbn [rs_heap with_heap]. rewrite om_get_set. case_bool_decide; [subst; intros [= <-]; eauto using aged_all|apply H].
Qed.
End each_receipt.

Lemma reserve_heap st st' : reserve st = Ok st' -> rs_heap st' = rs_heap st /\ rs_generation st' = rs_generation st.
Proof. unfold reserve. destruct (rs_stopped st); [done|]. break_goal; by intros [= <-]. Qed.

Lemma step_stamped T e st : all_heap (fun _ => stamped T) st -> event_time e <= T -> all_heap (fun _ => stamped T) (receipts_step st e).
Proof.
  intros H Ht. assert (forall now, now <= T -> all_heap (fun _ => stamped T) (sweep now st)) as Hsw by (intros; apply sweep_all; auto using updated_stamped).
  destruct e as [id c issuer a boot now|id answer now|id now|issuer uid id now|uid seq boot at_ now|now]; cbn [receipts_step event_time] in *.
  - unfold send. destruct (om_has _ _); [done|]. destruct (reserve _) as [st2|] eqn:Er; [|by apply Hsw]. apply reserve_heap in Er as [E _].
    assert (forall s, stamped T s -> all_heap (fun _ => stamped T) (fresh_receipt id s st2)) as Hfr.
    { intros s Hs i x. cbn. rewrite om_get_set, E. case_bool_decide; [by intros [= <-]|by apply Hsw]. }
    destruct a; [apply Hfr; split; cbn; lia|]. apply change_all; [apply Hfr; split; cbn; lia|]. auto using updated_stamped.
  - unfold on_dispatched. destruct (negb _); [done|]. destruct answer; apply change_all; auto using updated_stamped, sent_now_stamped.
  - unfold on_dispatch_timeout. destruct (negb _); [done|]. apply change_all; auto using updated_stamped.
  - by apply Hsw.
  - apply fold_change_all; [by apply Hsw|]. intros _ s Hs. case_bool_decide; auto using correlate_stamped.
  - apply fold_change_all; [done|]. intros _ s Hs. destruct (TERMINAL _); auto using updated_stamped.
Qed.

Lemma run_stamped T es : forall st, all_heap (fun _ => stamped T) st -> Forall (fun e => event_time e <= T) es ->
  all_heap (fun _ => stamped T) (run receipts_step st es).
Proof. induction es as [|e es IH]; intros st H Hf; [done|]. apply Forall_cons in Hf as [He Hf]. apply IH; [by apply step_stamped|done]. Qed.

Lemma aged_ends T now s : stamped T s -> T + ACK_TIMEOUT_MS <= now -> TERMINAL (rc_state (sr_receipt (default s (aged now s)))) = true.
Proof.
  intros [H1 H2] Hn. unfold aged. destruct (TERMINAL (rc_state (sr_receipt s))) eqn:Et; cbn [andb].
  - destruct (_ <=? _); [done|]. rewrite !bool_decide_eq_false_2 by (intros E; by rewrite E in Et). done.
  - case_bool_decide as E1; cbn [andb].
    + by rewrite (proj2 (Z.leb_le _ _)) by lia.
    + rewrite bool_decide_eq_true_2 by (destruct (rc_state (sr_receipt s)); done). cbn [andb]. by rewrite (proj2 (Z.leb_le _ _)) by lia.
Qed.

(** With every outcome final, a send is refused a place only by a shutdown, or by
    512 dispatches that have not ended. *)
Lemma send_room st id command issuer authorized boot now : well_formed st -> (forall i s, om_get i (rs_heap st) = Some s -> TERMINAL (rc_state (sr_receipt s)) = true) ->
  om_has id (rs_heap st) = false ->
  (snd (send id command issuer authorized boot now st) = Some (Thrown Unavailable None) <-> rs_stopped st = true \/ (512 <= length (rs_dispatching st))%nat).
Proof.
  intros H Ht Hid. unfold send. rewrite Hid. destruct (sweep_wf now st H) as [H1 _].
  destruct (sweep_fold now (rs_live st) st (wf_nodup _ H)) as (Hh & _ & _ & _ & _ & _ & Hd & _ & Hs).
  change (fold_left (sweep_one now) (rs_live st) st) with (sweep now st) in *. rewrite <- Hs, <- Hd. unfold reserve.
  destruct (rs_stopped (sweep now st)) eqn:Estop; [cbn; naive_solver|].
  change 512%nat with MAX_RECEIPTS. destruct (Nat.leb_spec MAX_RECEIPTS (length (rs_dispatching (sweep now st)))) as [Hle|Hlt]; [cbn; naive_solver|].
  assert (forall st' : Receipts, snd (if authorized then (with_flight (rs_dispatching st' ++ [id]) (rs_waiting st' ++ [id]) st', None : option Reply)
    else let st2 := change id (updated Failed "Access changed; no command was sent." now) st' in (st2, Some (Thrown Conflict (receipt_of st2 id)))) <> Some (Thrown Unavailable None)) as Hno by (intros ?; by destruct authorized).
  destruct (Nat.ltb_spec (length (rs_live (sweep now st))) MAX_RECEIPTS) as [Hl|Hl].
  - split; [intros E; by apply Hno in E|intros [?|?]; [done|lia]].
  - destruct (List.find _ _) as [i|] eqn:Ef; [split; [intros E; by apply Hno in E|intros [?|?]; [done|lia]]|]. exfalso.
    destruct (rs_live (sweep now st)) as [|i l] eqn:El; [unfold MAX_RECEIPTS in Hl; cbn in Hl; lia|].
    assert (is_terminal (sweep now st) i = true) as Hi; [|eapply find_none in Ef; [|by left]; congruence].
    pose proof (wf_live _ H1 i ltac:(rewrite El; by left)) as [s Es]%om_has_get. unfold is_terminal. rewrite Es.
    specialize (Hh i). rewrite Es in Hh. case_decide; [|by eapply Ht]. destruct (om_get i (rs_heap st)) as [s0|] eqn:E0; [|done]. injection Hh as ->.
    specialize (Ht i s0 E0). unfold aged. rewrite Ht. cbn [andb]. destruct (_ <=? _); [done|]. by rewrite !bool_decide_eq_false_2 by (intros E; by rewrite E in Ht).
Qed.


(** An outcome is final and a state never goes back: in any reachable state,
    whatever the next event, a receipt keeps its order (id, node, operation,
    boot, issuer, time of the request), moves only from requested to sent to a
    final state, and never leaves a final state; the map, the observations and
    the open dispatches each stay within 512 entries. *)
Theorem receipts_only_go_forward es e :
  let st := run receipts_step new_receipts es in
  (forall i s, om_get i (rs_heap st) = Some s -> exists s', om_get i (rs_heap (receipts_step st e)) = Some s' /\ onward s s') /\
  (length (rs_live st) <= 512)%nat /\ (length (rs_observations st) <= 512)%nat /\ (length (rs_dispatching st) <= 512)%nat.
Proof.
  intros st. destruct (run_wf es _ new_wf) as [H _]. fold st in H. destruct (step_wf e st H) as [_ G]. destruct H. unfold MAX_RECEIPTS in *.
  split_and!; [exact G|lia..].
Qed.

(** ** An acknowledgement comes from the device

    The counter of observations is the number of statuses heard so far, which
    orders a status after or before a request. *)

Definition is_status (e : Event) : bool := match e with EStatus _ _ _ _ _ => true | _ => false end.
Definition statuses (past : list Event) : Z := Z.of_nat (length (List.filter is_status past)).

Lemma statuses_snoc past e : statuses (past ++ [e]) = statuses past + (if is_status e then 1 else 0).
Proof. unfold statuses. rewrite List.filter_app, length_app. cbn. destruct (is_status e); cbn; lia. Qed.

Lemma statuses_mono p q : statuses p <= statuses (p ++ q).
Proof. unfold statuses. rewrite List.filter_app, length_app. lia. Qed.

Lemma statuses_take i j past : (i <= j)%nat -> statuses (take i past) <= statuses (take j past).
Proof. intros H. replace (take i past) with (take i (take j past)) by (rewrite take_take; f_equal; lia). rewrite <- (take_drop i (take j past)) at 2. apply statuses_mono. Qed.

Lemma lookup_take_snoc (past : list Event) i e x : past !! i = Some x -> (past ++ [e]) !! i = Some x /\ take i (past ++ [e]) = take i past /\ take (S i) (past ++ [e]) = take (S i) past.
Proof.
  intros H. pose proof (lookup_lt_Some _ _ _ H). split; [by apply lookup_app_l_Some|]. by rewrite !take_app_le by lia.
Qed.

(** The [i]-th event is the request of the receipt. *)
Definition requested_at (past : list Event) (i : nat) (id : string) (s : StoredReceipt) : Prop :=
  exists c a, past !! i = Some (ESend id c (sr_issuer s) a (rc_boot (sr_receipt s)) (rc_requestedAt (sr_receipt s))) /\
    rc_id (sr_receipt s) = id /\ nc_uid c = rc_uid (sr_receipt s) /\ sr_generation s = statuses (take i past).

(** The [j]-th event is a status of the device that carries the sequence number
    of the command and does not contradict the boot it was sent to. *)
Definition answered_at (past : list Event) (j : nat) (s : StoredReceipt) : Prop :=
  exists seq boot at_ now, past !! j = Some (EStatus (rc_uid (sr_receipt s)) seq boot at_ now) /\
    rc_sequence (sr_receipt s) = Some seq /\ rc_requestedAt (sr_receipt s) <= at_ /\
    (rc_boot (sr_receipt s) = None \/ boot = rc_boot (sr_receipt s)).

Definition sent_under (past : list Event) (id : string) (s : StoredReceipt) : Prop :=
  forall q, rc_sequence (sr_receipt s) = Some q -> exists t, EDispatched id (inl q) t ∈ past.

Definition accounted (past : list Event) (id : string) (s : StoredReceipt) : Prop :=
  sent_under past id s /\
  exists i, requested_at past i id s /\
    (rc_state (sr_receipt s) = Acknowledged -> exists j, (i < j)%nat /\ answered_at past j s).

Definition observed (past : list Event) (uid : string) (o : Observation) : Prop :=
  exists j now, past !! j = Some (EStatus uid (ob_sequence o) (ob_boot o) (ob_at o) now) /\ ob_generation o = statuses (take (S j) past).

Definition observations_ok (past : list Event) (st : Receipts) : Prop := forall uid o, (uid, o) ∈ rs_observations st -> observed past uid o.

Record history_ok (past : list Event) (st : Receipts) : Prop := {
  ho_heap : all_heap (accounted past) st;
  ho_obs : observations_ok past st;
  ho_generation : rs_generation st = statuses past }.

Lemma accounted_mono past e id s : accounted past id s -> accounted (past ++ [e]) id s.
Proof.
  intros [Hq (i & (c & a & Hi & ? & ? & Hg) & Hj)]. destruct (lookup_take_snoc past i e _ Hi) as (Hi' & Ht & _). split.
  - intros q Hs. destruct (Hq q Hs) as [t Hin]. exists t. set_solver.
  - exists i. split; [exists c, a; by rewrite Ht|]. intros Ha. destruct (Hj Ha) as (j & Hlt & seq & b & at_ & now & Hl & Hr).
    exists j. split; [done|]. exists seq, b, at_, now. split; [|done]. by apply lookup_app_l_Some.
Qed.

Lemma observed_mono past e uid o : observed past uid o -> observed (past ++ [e]) uid o.
Proof. intros (j & now & Hj & Hg). destruct (lookup_take_snoc past j e _ Hj) as (Hj' & _ & Ht). exists j, now. by rewrite Ht. Qed.

Lemma updated_accounted past id x m now s : accounted past id s -> x ≠ Acknowledged -> accounted past id (updated x m now s).
Proof. intros [Hq (i & Hi & Hj)] Hx. split; [exact Hq|]. exists i. split; [exact Hi|]. cbn. done. Qed.

(** The observation that acknowledges a receipt is younger than its request. *)
Lemma correlate_accounted past id uid o now s : accounted past id s -> observed past uid o -> rc_uid (sr_receipt s) = uid ->
  accounted past id (correlate o now s).
Proof.
  intros H (j & t & Hj & Hg) Hu. unfold correlate.
  destruct (negb _ || _ || _) eqn:E1; [done|]. apply orb_false_iff in E1 as [[_ E1]%orb_false_iff E2]. bprop.
  destruct (negb _ && negb _) eqn:E3; [by apply updated_accounted|]. destruct (bool_decide (Some _ = _)) eqn:E4; [|done]. apply bool_decide_eq_true in E4.
  destruct H as [Hq (i & Hi & _)]. split; [exact Hq|]. exists i. split; [exact Hi|]. intros _. exists j. split.
  - destruct Hi as (c & a & Hi & _ & _ & Hgs). destruct (decide (S j <= i)%nat) as [Hle|Hgt].
    + pose proof (statuses_take (S j) i past Hle). lia.
    + destruct (decide (i = j)) as [->|]; [congruence|lia].
  - exists (ob_sequence o), (ob_boot o), (ob_at o), t. cbn. rewrite Hu. split_and!; try done.
    apply andb_false_iff in E3. bprop. tauto.
Qed.

Lemma sent_now_accounted past id seq st t now s : accounted past id s -> observations_ok past st -> EDispatched id (inl seq) t ∈ past ->
  open_state (rc_state (sr_receipt s)) -> accounted past id (sent_now seq st now s).
Proof.
  intros H Ho Hin Hop. assert (accounted past id (set_sequence seq s)) as H1.
  { destruct H as [_ (i & Hi & _)]. split; [intros q [= <-]; by exists t|]. exists i. split; [exact Hi|]. cbn. by destruct Hop as [-> | ->]. }
  unfold sent_now. destruct (TERMINAL _); [done|]. destruct (rs_stopped st); [by apply updated_accounted|].
  assert (accounted past id (updated Sent "Sent — waiting for device." now (set_sequence seq s))) as H2 by (by apply updated_accounted).
  destruct (om_get _ (rs_observations st)) as [o|] eqn:E; [|done]. by eapply correlate_accounted; [|apply Ho, om_get_elem, E|].
Qed.

Lemma sweep_same now st : well_formed st -> rs_generation (sweep now st) = rs_generation st /\ rs_observations (sweep now st) = rs_observations st.
Proof. intros H. destruct (sweep_fold now (rs_live st) st (wf_nodup _ H)) as (_ & _ & _ & _ & Ho & Hg & _). done. Qed.

Lemma sweep_history past now st : well_formed st -> history_ok past st -> history_ok past (sweep now st).
Proof.
  intros Hw [H1 H2 H3]. destruct (sweep_same now st Hw) as [Eg Eo]. constructor; [|unfold observations_ok; by rewrite Eo|by rewrite Eg].
  apply sweep_all; [|done]. intros. by apply updated_accounted.
Qed.

Lemma change_history past id f st : history_ok past st ->
  (forall s, om_get id (rs_heap st) = Some s -> accounted past id s -> accounted past id (f s)) -> history_ok past (change id f st).
Proof.
  intros [H1 H2 H3] Hf. destruct (change_same id f st) as (_ & Eo & Eg & _). constructor; [by apply change_all|unfold observations_ok; by rewrite Eo|by rewrite Eg].
Qed.

Lemma history_mono past e st : history_ok past st -> is_status e = false -> history_ok (past ++ [e]) st.
Proof.
  intros [H1 H2 H3] He. constructor; [intros i s Hs; by apply accounted_mono, H1|intros u o Ho; by apply observed_mono, H2|]. rewrite statuses_snoc, He. lia.
Qed.

Lemma fold_change_same f l : forall st, let st' := fold_left (fun st id => change id f st) l st in
  rs_observations st' = rs_observations st /\ rs_generation st' = rs_generation st.
Proof.
  induction l as [|i l IH]; intros st; [done|]. cbn [fold_left]. destruct (IH (change i f st)) as [-> ->]. destruct (change_same i f st) as (_ & -> & -> & _). done.
Qed.

Lemma observe_history past uid seq boot at_ now st : well_formed st -> history_ok past st ->
  history_ok (past ++ [EStatus uid seq boot at_ now]) (observeStatus uid seq boot at_ now st).
Proof.
  intros Hw H. destruct (sweep_history past now st Hw H) as [H1 H2 H3]. unfold observeStatus.
  set (o := {| ob_sequence := seq; ob_boot := boot; ob_generation := rs_generation (sweep now st) + 1; ob_at := at_ |}).
  match goal with |- context [fold_left ?g ?l ?x] => set (st1 := x); destruct (fold_change_same (fun s => if bool_decide (rc_uid (sr_receipt s) = uid) then correlate o now s else s) (rs_live st1) st1) as [Eo Eg] end.
  assert (observed (past ++ [EStatus uid seq boot at_ now]) uid o) as Ho.
  { exists (length past), now. split; [by rewrite list_lookup_middle|]. rewrite firstn_all2 by (rewrite length_app; cbn; lia). rewrite statuses_snoc. cbn. lia. }
  constructor.
  - apply fold_change_all; [intros i s Hs; by apply accounted_mono, H1|]. intros i s Hs. case_bool_decide; [by eapply correlate_accounted|done].
  - unfold observations_ok. rewrite Eo. intros u x. subst st1. cbn [rs_observations]. intros [[= -> ->]|Hx]%om_set_elem; [done|].
    apply observed_mono, H2. destruct (Nat.leb _ _); [|done]. destruct (rs_observations (sweep now st)); [done|by right].
  - rewrite Eg, statuses_snoc. subst st1. cbn. lia.
Qed.

Lemma send_history past id c issuer a boot now st : well_formed st -> history_ok past st ->
  history_ok (past ++ [ESend id c issuer a boot now]) (fst (send id c issuer a boot now st)).
Proof.
  intros Hw H. set (e := ESend id c issuer a boot now). pose proof (sweep_history past now st Hw H) as H1.
  unfold send. destruct (om_has _ _); [by apply history_mono|]. destruct (reserve _) as [st2|] eqn:Er; [|by apply history_mono].
  destruct (sweep_wf now st Hw) as [Hw1 _]. destruct (reserve_wf _ _ Hw1 Er) as (_ & _ & _ & Eh & Eg & _ & Eo & _).
  assert (history_ok (past ++ [e]) st2) as H2.
  { apply history_mono; [|done]. destruct H1 as [P1 P2 P3]. constructor; [unfold all_heap; by rewrite Eh|unfold observations_ok; by rewrite Eo|by rewrite Eg]. }
  fold (first_receipt id c boot now). set (s := {| sr_receipt := first_receipt id c boot now; sr_issuer := issuer; sr_generation := rs_generation st2 |}).
  fold (fresh_receipt id s st2).
  assert (history_ok (past ++ [e]) (fresh_receipt id s st2)) as H3.
  { destruct H2 as [P1 P2 P3]. constructor; [|done|done]. intros i x. cbn. rewrite om_get_set. case_bool_decide; [|apply P1]. intros [= <-]. subst i. split; [done|].
    exists (length past). split; [|done]. exists c, a. rewrite list_lookup_middle by done. split_and!; try done. rewrite take_app_length.
    cbn. rewrite Eg. apply H1. }
  destruct a; cbn [fst]; [by destruct H3|]. apply change_history; [exact H3|]. intros x Hx Ha. by apply updated_accounted.
Qed.

Lemma with_flight_history past d w st : history_ok past st -> history_ok past (with_flight d w st).
Proof. by intros []. Qed.

Lemma step_history past e st : well_formed st -> history_ok past st -> history_ok (past ++ [e]) (receipts_step st e).
Proof.
  intros Hw H. destruct e as [id c issuer a boot now|id answer now|id now|issuer uid id now|uid seq boot at_ now|now]; cbn [receipts_step].
  - by apply send_history.
  - apply (history_mono _ (EDispatched id answer now)) in H; [|done]. unfold on_dispatched. destruct (includes id (rs_waiting st)) eqn:E.
    + apply includes_true in E. assert (forall s, om_get id (rs_heap st) = Some s -> open_state (rc_state (sr_receipt s))) as Hop by (intros s Hs; by eapply wf_waiting).
      cbn [rs_waiting with_flight]. rewrite (proj2 (includes_true _ _) E). cbn [negb].
      destruct answer as [seq|u]; apply change_history; try by do 2 apply with_flight_history.
      * intros s Hs Ha. apply (sent_now_accounted _ _ _ _ now); [done|apply H| |by apply Hop]. set_solver.
      * intros s Hs Ha. by apply updated_accounted.
    + cbn [rs_waiting with_flight]. rewrite E. by apply with_flight_history.
  - apply (history_mono _ (EDispatchTimeout id now)) in H; [|done]. unfold on_dispatch_timeout. destruct (negb _); [done|].
    apply change_history; [by apply with_flight_history|]. intros s Hs Ha. by apply updated_accounted.
  - apply history_mono; [|done]. by apply sweep_history.
  - by apply observe_history.
  - apply (history_mono _ (EDispose now)) in H; [|done]. unfold dispose.
    match goal with |- context [fold_left ?g ?l ?x] => set (st1 := x); destruct (fold_change_same (fun s => if TERMINAL (rc_state (sr_receipt s)) then s else
      updated Uncertain "Service stopped; command outcome is uncertain." now s) (rs_live st1) st1) as [Eo Eg] end.
    constructor; [|by intros ? ? ?%not_elem_of_nil|rewrite <- (ho_generation _ _ H); exact Eg].
    apply fold_change_all; [apply H|]. intros i s Hs. destruct (TERMINAL _); [done|]. by apply updated_accounted.
Qed.

Lemma run_history es : history_ok es (run receipts_step new_receipts es).
Proof.
  induction es as [|e es IH] using rev_ind; [constructor; [intros ? ? [=]|by intros ? ? ?%not_elem_of_nil|done]|].
  unfold run. rewrite fold_left_app. apply step_history; [|exact IH]. by apply run_wf, new_wf.
Qed.

(** C8: What a console is told is what happened: an answer of [get] goes only to
    the issuer of that very command (the [i]-th event is its request, for that
    node, by that issuer, at that time and boot), a sequence number is one the
    dispatch returned, and "acknowledged" is said only if the device itself
    reported, after the request, a status with that sequence number, not older
    than the request and not from another boot than the one the command was
    sent to: a status that was already known when the command was requested, or
    one of another node, never acknowledges it. *)
Theorem told_what_happened es issuer uid id now r :
  snd (get issuer uid id now (run receipts_step new_receipts es)) = Some r ->
  rc_id r = id /\ rc_uid r = uid /\
    (forall q, rc_sequence r = Some q -> exists t, EDispatched id (inl q) t ∈ es) /\
    exists i c a, es !! i = Some (ESend id c issuer a (rc_boot r) (rc_requestedAt r)) /\ nc_uid c = uid /\
    (rc_state r = Acknowledged -> exists j seq boot at_ t, (i < j)%nat /\ es !! j = Some (EStatus uid seq boot at_ t) /\
    rc_sequence r = Some seq /\ rc_requestedAt r <= at_ /\ (rc_boot r = None \/ boot = rc_boot r)).
Proof.
  unfold get. cbn [snd]. destruct (includes id _); [|done].
  destruct (run_wf es _ new_wf) as [Hw _]. pose proof (sweep_history es now _ Hw (run_history es)) as [H _ _].
  destruct (om_get id _) as [s|] eqn:E; [|done]. destruct (bool_decide (sr_issuer s = issuer) && _) eqn:Eb; [|done]. intros [= <-].
  apply andb_true_iff in Eb. bprop. destruct Eb as [E1 E2]. destruct (H id s E) as [Hq (i & (c & a & Hi & ? & ? & _) & Hj)].
  split_and!; [done|done|exact Hq|]. exists i, c, a. rewrite E1 in Hi. split_and!; [done|congruence|]. intros Ha.
  destruct (Hj Ha) as (j & Hlt & seq & b & at_ & t & Hl & Hr). rewrite E2 in Hl. by exists j, seq, b, at_, t.
Qed.

Definition demo_command : NodeCommand := {| nc_uid := "aa:bb:cc:dd:ee:01"; nc_opcode := 4; nc_argument := 0; nc_value := 0 |}.
Definition demo_events : list Event :=
  [EStatus "aa:bb:cc:dd:ee:01" 6 (Some 3) 10 10; ESend "r1" demo_command "ana" true (Some 3) 1000; EDispatched "r1" (inl 7) 1010;
   ESend "r2" demo_command "ana" true (Some 3) 1020; EDispatchTimeout "r2" 1030; EStatus "aa:bb:cc:dd:ee:01" 7 (Some 3) 1500 1500;
   ESend "r3" demo_command "bob" true (Some 3) 1600; EDispatched "r3" (inl 8) 1700].

Lemma told_what_happened_witness : exists r, rc_state r = Acknowledged /\
    snd (get "ana" "aa:bb:cc:dd:ee:01" "r1" 2000 (run receipts_step new_receipts demo_events)) = Some r /\
    rc_id r = "r1" /\ (exists t, EDispatched "r1" (inl 7) t ∈ demo_events).
Proof.
  assert (exists r, rc_state r = Acknowledged /\ rc_sequence r = Some 7 /\
    snd (get "ana" "aa:bb:cc:dd:ee:01" "r1" 2000 (run receipts_step new_receipts demo_events)) = Some r) as (r & Ha & Hs & Hg)
    by (eexists; split_and!; [| |vm_compute; reflexivity]; reflexivity).
  destruct (told_what_happened demo_events "ana" "aa:bb:cc:dd:ee:01" "r1" 2000 r Hg) as (Hi & _ & Hq & _).
  exists r. split; [exact Ha|]. split; [exact Hg|]. split; [exact Hi|]. exact (Hq 7 Hs).
Defined.

