(* ===== verification/GwLink.v ===== *)
(** The gateway link (src/edge/gwlink.ts): the frames of protocol TMGW, the
    incremental reader that takes them off a stream in whatever pieces arrive,
    the addressed datagrams inside them, and the server's sessions from the
    HELLO to the close. *)

From S2P Require Import Prelude Bytes Json Secure.

(** @edge/gwlink.ts 44-44 TMGW_VERSION *)
Definition TMGW_VERSION : Z := 1.
(** @edge/gwlink.ts 45-45 T_HELLO *)
Definition T_HELLO : Z := 1.
(** @edge/gwlink.ts 46-46 T_WELCOME *)
Definition T_WELCOME : Z := 2.
(** @edge/gwlink.ts 47-47 T_DENY *)
Definition T_DENY : Z := 3.
(** @edge/gwlink.ts 48-48 T_UPLINK *)
Definition T_UPLINK : Z := 16.
(** @edge/gwlink.ts 49-49 T_DOWNLINK *)
Definition T_DOWNLINK : Z := 32.
(** @edge/gwlink.ts 50-50 T_PING *)
Definition T_PING : Z := 48.
(** @edge/gwlink.ts 51-51 T_PONG *)
Definition T_PONG : Z := 49.
(** @edge/gwlink.ts 52-52 T_STATS *)
Definition T_STATS : Z := 64.
(** @edge/gwlink.ts 54-54 T_IMAGE_META *)
Definition T_IMAGE_META : Z := 80.
(** @edge/gwlink.ts 55-55 T_IMAGE_CHUNK *)
Definition T_IMAGE_CHUNK : Z := 81.
(** @edge/gwlink.ts 56-56 T_IMAGE_READY *)
Definition T_IMAGE_READY : Z := 82.
(** @edge/gwlink.ts 57-57 MAX_FRAME *)
Definition MAX_FRAME : Z := 64 * 1024.
(** @edge/gwlink.ts 58-58 HELLO_WINDOW_MS *)
Definition HELLO_WINDOW_MS : Z := 60000.

(** ** Frames *)

(** @edge/gwlink.ts 61-67 frame *)
Definition frame (type : Z) (payload : list Z) : result string (list Z) :=
  throw_if (type <? 0) || (255 <? type) || (MAX_FRAME <? Z.of_nat (length payload) + 1) with "bad frame" in
  Ok (le 4 (Z.of_nat (length payload) + 1) ++ [type] ++ payload).

(** The header bytes collected so far, and the body being collected with its
    length.
    @edge/gwlink.ts 96-100 FrameReader *)
Record FrameReader := { fr_header : list Z; fr_body : option (nat * list Z) }.
Definition new_reader : FrameReader := {| fr_header := []; fr_body := None |}.

(** What a push gave: the frames called back in order, the reader after it, and
    the error if it threw. *)
Definition pushed : Type := list (Z * list Z) * FrameReader * option string.

(** The part of the loop that fills the body; [again] is the next turn.
    @edge/gwlink.ts 118-127 FrameReader.push *)
Definition fill (again : FrameReader -> list Z -> pushed) (header : list Z) (len : nat) (got chunk : list Z) : pushed :=
  let n := Nat.min (len - length got) (length chunk) in
  let got := got ++ take n chunk in
  let chunk := drop n chunk in
  if Nat.ltb (length got) len then ([], {| fr_header := header; fr_body := Some (len, got) |}, None)
  else
    let '(frames, r, e) := again new_reader chunk in
    ((default 0 (head got), tail got) :: frames, r, e).

(** Each turn of the loop takes at least one byte, so the length of the chunk
    is fuel enough.
    @edge/gwlink.ts 102-129 FrameReader.push *)
Fixpoint push_loop (fuel : nat) (r : FrameReader) (chunk : list Z) : pushed :=
  match fuel, chunk with
  | O, _ | _, [] => ([], r, None)
  | S fuel', _ =>
      match fr_body r with
      | None =>
          let n := Nat.min (4 - length (fr_header r)) (length chunk) in
          let header := fr_header r ++ take n chunk in
          let chunk := drop n chunk in
          if Nat.ltb (length header) 4 then ([], {| fr_header := header; fr_body := None |}, None)
          else
            let len := unle header in
            if (len <? 1) || (MAX_FRAME <? len) then ([], {| fr_header := header; fr_body := None |}, Some "bad frame length")
            else fill (push_loop fuel') header (Z.to_nat len) [] chunk
      | Some (len, got) => fill (push_loop fuel') (fr_header r) len got chunk
      end
  end.

(** @edge/gwlink.ts 102-129 FrameReader.push *)
Definition push (r : FrameReader) (chunk : list Z) : pushed := push_loop (length chunk) r chunk.

(** A stream of chunks; a push that throws is the last. *)
Fixpoint push_all (r : FrameReader) (chunks : list (list Z)) : pushed :=
  match chunks with
  | [] => ([], r, None)
  | c :: rest =>
      let '(fs, r, e) := push r c in
      match e with
      | Some _ => (fs, r, e)
      | None => let '(fs', r, e) := push_all r rest in (fs ++ fs', r, e)
      end
  end.

(** ** The reader sees the stream, not the chunks *)

(** One byte. *)
Definition read_byte (r : FrameReader) (b : Z) : pushed :=
  match fr_body r with
  | None =>
      let header := fr_header r ++ [b] in
      if Nat.ltb (length header) 4 then ([], {| fr_header := header; fr_body := None |}, None)
      else if (unle header <? 1) || (MAX_FRAME <? unle header) then ([], {| fr_header := header; fr_body := None |}, Some "bad frame length")
      else ([], {| fr_header := header; fr_body := Some (Z.to_nat (unle header), []) |}, None)
  | Some (len, got) =>
      if Nat.ltb (S (length got)) len then ([], {| fr_header := fr_header r; fr_body := Some (len, got ++ [b]) |}, None)
      else ([(default 0 (head (got ++ [b])), tail (got ++ [b]))], new_reader, None)
  end.

Fixpoint read_bytes (r : FrameReader) (l : list Z) : pushed :=
  match l with
  | [] => ([], r, None)
  | b :: rest =>
      let '(fs, r, e) := read_byte r b in
      match e with
      | Some _ => (fs, r, e)
      | None => let '(fs', r, e) := read_bytes r rest in (fs ++ fs', r, e)
      end
  end.

Definition reader_ok (r : FrameReader) : Prop :=
  match fr_body r with
  | None => (length (fr_header r) < 4)%nat
  | Some (len, got) => (length got < len)%nat
  end.

(** Sequencing of pushes. *)
Definition then_push (p : pushed) (k : FrameReader -> pushed) : pushed :=
  let '(fs, r, e) := p in
  match e with Some _ => (fs, r, e) | None => let '(fs', r, e) := k r in (fs ++ fs', r, e) end.

Lemma then_push_assoc p k1 k2 : then_push (then_push p k1) k2 = then_push p (fun r => then_push (k1 r) k2).
Proof. destruct p as [[fs r] [e|]]; [done|]. cbn. destruct (k1 r) as [[fs1 r1] [e1|]]; [done|]. cbn. destruct (k2 r1) as [[fs2 r2] e2]. by rewrite app_assoc. Qed.

Lemma then_push_nil r k : then_push ([], r, None) k = k r.
Proof. cbn. by destruct (k r) as [[? ?] ?]. Qed.

Lemma read_bytes_cons r b l : read_bytes r (b :: l) = then_push (read_byte r b) (fun r => read_bytes r l).
Proof. reflexivity. Qed.

Lemma read_bytes_app r a b : read_bytes r (a ++ b) = then_push (read_bytes r a) (fun r => read_bytes r b).
Proof.
  revert r; induction a as [|x a IH]; intros r; [symmetry; apply then_push_nil|]. cbn [app].
  rewrite !read_bytes_cons, then_push_assoc. unfold then_push at 1 3. destruct (read_byte r x) as [[fs r'] [e|]]; [done|]. by rewrite IH.
Qed.

Lemma read_header h l : (length h + length l < 4)%nat ->
  read_bytes {| fr_header := h; fr_body := None |} l = ([], {| fr_header := h ++ l; fr_body := None |}, None).
Proof.
  revert h; induction l as [|b l IH]; intros h Hl; [by rewrite app_nil_r|]. cbn [length] in Hl. rewrite read_bytes_cons. unfold read_byte. cbn [fr_body fr_header].
  rewrite (proj2 (Nat.ltb_lt _ _)) by (rewrite length_app; cbn; lia). rewrite then_push_nil, IH by (rewrite length_app; cbn; lia).
  by rewrite <- app_assoc.
Qed.

Lemma read_header_end h l b : (length h + length l = 3)%nat -> let header := h ++ l ++ [b] in
  read_bytes {| fr_header := h; fr_body := None |} (l ++ [b]) =
  if (unle header <? 1) || (MAX_FRAME <? unle header) then ([], {| fr_header := header; fr_body := None |}, Some "bad frame length")
  else ([], {| fr_header := header; fr_body := Some (Z.to_nat (unle header), []) |}, None).
Proof.
  intros Hl header. rewrite read_bytes_app, read_header, then_push_nil by lia. rewrite read_bytes_cons. unfold read_byte. cbn [fr_body fr_header].
  rewrite <- app_assoc. fold header. rewrite (proj2 (Nat.ltb_ge _ _)) by (unfold header; rewrite !length_app; cbn; lia).
  by destruct (_ || _).
Qed.

Lemma read_body h len got l : (length got + length l < len)%nat ->
  read_bytes {| fr_header := h; fr_body := Some (len, got) |} l = ([], {| fr_header := h; fr_body := Some (len, got ++ l) |}, None).
Proof.
  revert got; induction l as [|b l IH]; intros got Hl; [by rewrite app_nil_r|]. cbn [length] in Hl. rewrite read_bytes_cons. unfold read_byte. cbn [fr_body fr_header].
  rewrite (proj2 (Nat.ltb_lt _ _)) by lia. rewrite then_push_nil, IH by (rewrite length_app; cbn; lia). by rewrite <- app_assoc.
Qed.

Lemma read_body_end h len got l : (length got < len)%nat -> (length got + length l = len)%nat ->
  read_bytes {| fr_header := h; fr_body := Some (len, got) |} l = ([(default 0 (head (got ++ l)), tail (got ++ l))], new_reader, None).
Proof.
  intros Hg Hl. destruct l as [|b l _] using rev_ind; [cbn in Hl; lia|]. rewrite length_app in Hl. cbn in Hl.
  rewrite read_bytes_app, read_body, then_push_nil by lia. rewrite read_bytes_cons. unfold read_byte. cbn [fr_body fr_header].
  rewrite (proj2 (Nat.ltb_ge _ _)) by (rewrite length_app; lia). cbn. by rewrite <- app_assoc.
Qed.

Lemma fill_spec again h len got chunk : (length got < len)%nat ->
  (forall l, (length l < length chunk)%nat -> again new_reader l = read_bytes new_reader l) ->
  fill again h len got chunk = read_bytes {| fr_header := h; fr_body := Some (len, got) |} chunk.
Proof.
  intros Hg Hagain. unfold fill. set (n := Nat.min _ _).
  destruct (Nat.le_gt_cases (len - length got) (length chunk)) as [Hle|Hgt].
  - assert (n = (len - length got)%nat) as Hn by (unfold n; lia). assert (length (take n chunk) = n) as Hlen by (rewrite length_take; lia).
    rewrite (proj2 (Nat.ltb_ge _ _)) by (rewrite length_app; lia). rewrite Hagain by (rewrite length_drop; lia).
    transitivity (read_bytes {| fr_header := h; fr_body := Some (len, got) |} (take n chunk ++ drop n chunk)); [|by rewrite take_drop].
    rewrite read_bytes_app, read_body_end by lia. cbn [then_push]. by destruct (read_bytes new_reader (drop n chunk)) as [[? ?] ?].
  - assert (n = length chunk) as Hn by (unfold n; lia). rewrite Hn, firstn_all, (proj2 (Nat.ltb_lt _ _)) by (rewrite length_app; lia).
    by rewrite read_body by lia.
Qed.

Lemma push_loop_spec fuel r chunk : reader_ok r -> (length chunk <= fuel)%nat -> push_loop fuel r chunk = read_bytes r chunk.
Proof.
  revert r chunk; induction fuel as [|fuel IH]; intros r chunk Hr Hl; [by destruct chunk; [|cbn in Hl; lia]|].
  destruct chunk as [|b chunk0]; [done|]. set (chunk := b :: chunk0) in *. cbn [push_loop]. unfold chunk at 1. fold chunk.
  assert (forall l, (length l < length chunk)%nat -> push_loop fuel new_reader l = read_bytes new_reader l) as Hagain.
  { intros l Hlt. apply IH; [cbn; lia|]. lia. }
  unfold reader_ok in Hr. destruct r as [h [[len got]|]]; cbn [fr_body fr_header] in *; [by apply fill_spec|].
  set (n := Nat.min _ _). destruct (Nat.le_gt_cases (4 - length h) (length chunk)) as [Hle|Hgt].
  - assert (n = (4 - length h)%nat) as Hn by (unfold n; lia). assert (length (take n chunk) = n) as Hlen by (rewrite length_take; lia).
    rewrite (proj2 (Nat.ltb_ge _ _)) by (rewrite length_app; lia).
    transitivity (read_bytes {| fr_header := h; fr_body := None |} (take n chunk ++ drop n chunk)); [|by rewrite take_drop].
    rewrite read_bytes_app. destruct (exists_last (l := take n chunk)) as (l & x & El); [by intros E; rewrite E in Hlen; cbn in Hlen; lia|].
    rewrite El in *. rewrite length_app in Hlen. cbn in Hlen. rewrite (read_header_end h l x) by lia. destruct (_ || _) eqn:E; [done|].
    rewrite then_push_nil. apply fill_spec; [cbn; bprop; lia|]. intros l' Hl'. apply Hagain. rewrite length_drop in Hl'. lia.
  - assert (n = length chunk) as Hn by (unfold n; lia). rewrite Hn, firstn_all, (proj2 (Nat.ltb_lt _ _)) by (rewrite length_app; lia).
    by rewrite read_header by lia.
Qed.

Lemma read_byte_ok r b fs r' : reader_ok r -> read_byte r b = (fs, r', None) -> reader_ok r'.
Proof.
  unfold reader_ok, read_byte. destruct r as [h [[len got]|]]; cbn [fr_body fr_header]; intros Hr.
  - destruct (Nat.ltb_spec (S (length got)) len); intros [= <- <-]; cbn; [rewrite length_app; cbn; lia|lia].
  - destruct (Nat.ltb_spec (length (h ++ [b])) 4); [intros [= <- <-]; cbn; lia|]. destruct (_ || _) eqn:E; [done|]. intros [= <- <-]. cbn. bprop. lia.
Qed.

Lemma read_bytes_ok r l fs r' : reader_ok r -> read_bytes r l = (fs, r', None) -> reader_ok r'.
Proof.
  revert r fs; induction l as [|b l IH]; intros r fs Hr; cbn [read_bytes]; [by intros [= <- <-]|].
  destruct (read_byte r b) as [[f1 r1] [e|]] eqn:E; [done|]. destruct (read_bytes r1 l) as [[f2 r2] e2] eqn:E2. intros [= <- -> ->].
  eapply IH; [|exact E2]. by eapply read_byte_ok.
Qed.

Lemma push_all_spec r chunks : reader_ok r -> push_all r chunks = read_bytes r (concat chunks).
Proof.
  revert r; induction chunks as [|c chunks IH]; intros r Hr; [done|]. cbn [push_all concat]. unfold push. rewrite push_loop_spec by done.
  rewrite read_bytes_app. destruct (read_bytes r c) as [[fs r'] [e|]] eqn:E; [done|]. cbn [then_push]. rewrite IH; [done|]. by eapply read_bytes_ok.
Qed.

Lemma read_frame t p b : frame t p = Ok b -> read_bytes new_reader b = ([(t, p)], new_reader, None).
Proof.
  unfold frame. destruct (_ || _) eqn:Hc; [done|]. intros <-%Ok_inj. bprop. destruct Hc as [[H0 H1] H2].
  pose proof (length_le 4 (Z.of_nat (length p) + 1)) as Hlen. unfold MAX_FRAME in H2.
  pose proof (unle_le_id 4 (Z.of_nat (length p) + 1) ltac:(lia)) as Hun. set (h := le 4 _) in *.
  destruct (exists_last (l := h)) as (l & x & El); [by intros E; rewrite E in Hlen|]. rewrite read_bytes_app, El.
  rewrite El, length_app in Hlen. cbn in Hlen. unfold new_reader at 1. rewrite (read_header_end [] l x) by (cbn; lia). rewrite app_nil_l, <- El, Hun.
  rewrite (proj2 (Z.ltb_ge _ _)) by lia. rewrite (proj2 (Z.ltb_ge _ _)) by (unfold MAX_FRAME; lia). cbn [orb].
  rewrite then_push_nil, read_body_end; [done|cbn; lia|cbn; lia].
Qed.

(** The link delivers the frames, however the stream is cut up. Whatever
    frames were sent and whatever pieces their bytes arrive in, a new reader
    calls back exactly those frames in order and is left as it began; and any
    reader gives the same frames, state and error for a stream as for the same
    bytes in one piece. *)
Theorem frames_survive_chunking : 
  (forall frames sent chunks, Forall2 (fun f b => frame f.1 f.2 = Ok b) frames sent -> concat chunks = concat sent ->
     push_all new_reader chunks = (frames, new_reader, None)) /\
  (forall r chunks, reader_ok r -> push_all r chunks = push r (concat chunks)).
Proof.
  split.
  - intros frames sent chunks Hf Hc. rewrite push_all_spec by (cbn; lia). rewrite Hc. clear Hc. induction Hf as [|[t p] b frames sent Hb _ IH]; [done|].
    cbn [concat]. rewrite read_bytes_app, (read_frame t p b Hb). cbn [then_push]. rewrite IH. done.
  - intros r chunks Hr. rewrite push_all_spec by done. unfold push. by rewrite push_loop_spec.
Qed.

(** ** Addresses *)

(** [isIP] of node:net *)
Class Net := { isIP : string -> bool }.
Class NetLaws {N : Net} : Prop := {
  isIP_ascii a : isIP a = true -> Forall (fun c => code c < 128) (chars a) /\ (String.length a < 256)%nat }.

Section addresses.
Context {N : Net}.

(** @edge/gwlink.ts 69-77 addressed *)
Definition addressed (addr : string) (port : Z) (datagram : list Z) : result string (list Z) :=
  throw_if negb (isIP addr) || (port <? 1) || (65535 <? port) with "bad node address" in
  let a := bytes_of_string addr in
  let head := put 1 a (put_byte 0 (Z.of_nat (length a)) (alloc (1 + length a + 2))) in
  let! head := write_uint 2 (1 + length a) port head in
  Ok (head ++ datagram).

(** @edge/gwlink.ts 79-89 parseAddressed *)
Definition parseAddressed (p : list Z) : option (string * Z * list Z) :=
  match p with
  | [] => None
  | n :: _ =>
      if Nat.ltb (length p) (1 + Z.to_nat n + 2) then None
      else
        let raw := sub 1 (Z.to_nat n) p in
        if existsb (fun b => 127 <? b) raw then None
        else
          let addr := string_of_bytes raw in
          match read_uint 2 (1 + Z.to_nat n) p with
          | None => None
          | Some port => if negb (isIP addr) || (port =? 0) then None else Some (addr, port, drop (3 + Z.to_nat n) p)
          end
  end.

Lemma addressed_layout addr port datagram p : addressed addr port datagram = Ok p ->
  isIP addr = true /\ 1 <= port <= 65535 /\
  p = put_byte 0 (Z.of_nat (length (bytes_of_string addr))) [0] ++ bytes_of_string addr ++ le 2 port ++ datagram.
Proof.
  unfold addressed. destruct (_ || _) eqn:Ec; [done|]. bprop. destruct Ec as [[Hip H1] H2].
  change (alloc (1 + length (bytes_of_string addr) + 2)) with ([] ++ alloc (1 + length (bytes_of_string addr) + 2)).
  rewrite put_byte_fill by fill_side. rewrite put_fill by fill_side. rewrite write_uint_fill; [|rewrite length_app; cbn; lia|cbn; lia|cbn; lia].
  cbn [rbind]. intros <-%Ok_inj. split_and!; [done|lia|lia|].
  replace (1 + length (bytes_of_string addr) + 2 - 1 - length (bytes_of_string addr) - 2)%nat with 0%nat by lia.
  cbn [alloc replicate]. rewrite app_nil_r, <- !app_assoc. done.
Qed.

Lemma string_of_bytes_of s : string_of_bytes (bytes_of_string s) = s.
Proof.
  unfold string_of_bytes, bytes_of_string. rewrite <- (string_of_chars s) at 2. f_equal. rewrite map_map. rewrite <- (map_id (chars s)) at 2.
  apply map_ext. intros c. unfold code. pose proof (Ascii.N_ascii_bounded c). rewrite Z.mod_small by lia. rewrite N2Z.id. apply Ascii.ascii_N_embedding.
Qed.

(** What is addressed is read back. *)
Lemma addressed_roundtrip {NL : NetLaws} addr port datagram p : addressed addr port datagram = Ok p -> parseAddressed p = Some (addr, port, datagram).
Proof.
  intros (Hip & Hport & ->)%addressed_layout. destruct (isIP_ascii addr Hip) as [Hascii Hlen].
  assert (length (bytes_of_string addr) = String.length addr) as Hl by (unfold bytes_of_string, chars; rewrite length_map; clear; induction addr; cbn; congruence).
  set (a := bytes_of_string addr) in *. unfold put_byte. cbn [list_insert insert app]. rewrite Z.mod_small by lia.
  unfold parseAddressed. rewrite Nat2Z.id.
  assert (length (Z.of_nat (length a) :: a ++ le 2 port ++ datagram) = (1 + length a + 2 + length datagram)%nat) as Htotal.
  { cbn [length]. rewrite !length_app, length_le. lia. }
  rewrite Htotal, (proj2 (Nat.ltb_ge _ _)) by lia.
  assert (sub 1 (length a) (Z.of_nat (length a) :: a ++ le 2 port ++ datagram) = a) as -> by (unfold sub; rewrite skipn_cons, drop_0; apply take_app_length).
  assert (existsb (fun b => 127 <? b) a = false) as ->.
  { apply not_true_iff_false. intros (b & Hb & Hgt)%existsb_exists. apply in_map_iff in Hb as (c & <- & Hc).
    rewrite List.Forall_forall in Hascii. specialize (Hascii c Hc). bprop. lia. }
  change (Z.of_nat (length a) :: a ++ le 2 port ++ datagram) with ((Z.of_nat (length a) :: a) ++ le 2 port ++ datagram).
  rewrite read_uint_app_r by (cbn; lia). replace (1 + length a - length (Z.of_nat (length a) :: a))%nat with 0%nat by (cbn; lia).
  rewrite read_uint_le, Z.mod_small by (cbn; lia). assert (string_of_bytes a = addr) as -> by apply string_of_bytes_of.
  rewrite Hip. cbn [negb orb]. rewrite (proj2 (Z.eqb_neq _ _)) by lia. do 2 f_equal.
  replace (3 + length a)%nat with (length (Z.of_nat (length a) :: a) + 2)%nat by (cbn; lia). rewrite drop_app_add. done.
Qed.
End addresses.

(** The text before the first character [c], and after it. *)
Fixpoint cut_at (c : Z) (l : list Ascii.ascii) : option (list Ascii.ascii * list Ascii.ascii) :=
  match l with
  | [] => None
  | x :: rest => if code x =? c then Some ([], rest) else '(a, b) ← cut_at c rest; Some (x :: a, b)
  end.

(** [/^gw:([^|]+)\|/]: the gateway and what follows.
    @edge/gwlink.ts 332-334 gatewayOf *)
Definition gateway_source (source : string) : option (string * list Ascii.ascii) :=
  match chars source with
  | g :: w :: colon :: rest =>
      if bool_decide (String.string_of_list_ascii [g; w; colon] = "gw:") then
        match cut_at 124 rest with
        | Some ((_ :: _) as id, tail) => Some (String.string_of_list_ascii id, tail)
        | _ => None
        end
      else None
  | _ => None
  end.

(** [/^gw:([^|]+)\|(.+):(\d+)$/]: the address and the port are split at the last
    colon.
    @edge/gwlink.ts 336-340 sendDownlink *)
Definition downlink_target (source : string) : option (string * string * Z) :=
  '(id, tail) ← gateway_source source;
  match cut_at 58 (List.rev tail) with
  | Some ((_ :: _) as port, (_ :: _) as addr) =>
      if forallb is_digit port
      then Some (id, String.string_of_list_ascii (List.rev addr), digits_value (List.rev port)) else None
  | _ => None
  end.

(** ** Sessions *)

(** @edge/gwlink.ts 131-141 GatewayInfo *)
Record GatewayInfo := {
  gi_id : string; gi_remote : string; gi_connectedAt : Z; gi_lastSeen : Z; gi_uplink : Z; gi_downlink : Z;
  gi_rttMs : option Z; gi_stats : option (list (string * json)) }.

(** @edge/gwlink.ts 172-176 Conn *)
Record Conn := { cn_token : list Z; cn_info : GatewayInfo }.

(** A HELLO that was found good and waits for its journal. *)
Record Admission := { ad_id : string; ad_nonce : string; ad_ts : Z; ad_token : list Z }.

(** The variables of [session].
    @edge/gwlink.ts 388-393 session *)
Record Session := {
  se_remote : string; se_reader : FrameReader; se_conn : option Conn; se_denied : bool; se_authenticating : bool;
  se_pending : option Admission; se_closed : bool }.

(** The server: which link each gateway's session is on, and the sessions by
    link. A session's connection and the entry of the code's map are one
    object.
    @edge/gwlink.ts 242-245 GatewayServer *)
Record Server := { sv_conns : list (string * nat); sv_hellos : list (string * Z); sv_sessions : list (nat * Session) }.

(** @edge/gwlink.ts 143-159 GatewayServerOptions *)
Record GatewayServerOptions := {
  go_token : list Z; go_tokens : option (Z -> string -> list (list Z)); go_store : bool; go_edgeId : string }.

(** What the server does that can be seen: a frame it took in, and its calls. *)
Inductive Action :=
| AGot (link : nat) (now : Z) (type : Z) (payload : list Z)
| AWrite (link : nat) (bytes : list Z)
| AEnd (link : nat) (bytes : list Z)
| ADestroy (link : nat)
| AJournal (link : nat) (id nonce : string) (expires now : Z)
| AUplink (link : nat) (datagram : list Z) (source : string)
| AImageReady (link : nat) (gatewayId : string) (result : json).

Definition set_session (l : nat) (f : Session -> Session) (st : Server) : Server :=
  {| sv_conns := sv_conns st; sv_hellos := sv_hellos st;
     sv_sessions := match om_get l (sv_sessions st) with Some s => om_set l (f s) (sv_sessions st) | None => sv_sessions st end |}.

Definition with_reader (r : FrameReader) (s : Session) : Session :=
  {| se_remote := se_remote s; se_reader := r; se_conn := se_conn s; se_denied := se_denied s;
     se_authenticating := se_authenticating s; se_pending := se_pending s; se_closed := se_closed s |}.
Definition with_conn (c : option Conn) (s : Session) : Session :=
  {| se_remote := se_remote s; se_reader := se_reader s; se_conn := c; se_denied := se_denied s;
     se_authenticating := se_authenticating s; se_pending := None; se_closed := se_closed s |}.
Definition with_denied (s : Session) : Session :=
  {| se_remote := se_remote s; se_reader := se_reader s; se_conn := se_conn s; se_denied := true;
     se_authenticating := se_authenticating s; se_pending := None; se_closed := se_closed s |}.
Definition with_pending (a : Admission) (s : Session) : Session :=
  {| se_remote := se_remote s; se_reader := se_reader s; se_conn := se_conn s; se_denied := se_denied s;
     se_authenticating := true; se_pending := Some a; se_closed := se_closed s |}.
Definition with_closed (s : Session) : Session :=
  {| se_remote := se_remote s; se_reader := se_reader s; se_conn := se_conn s; se_denied := se_denied s;
     se_authenticating := se_authenticating s; se_pending := se_pending s; se_closed := true |}.

Section server.
Context {C : Crypto} {N : Net} {J : JsonText}.
Context (cfg : GatewayServerOptions).

(** Frames that fit by their construction. *)
Definition frame_of (type : Z) (payload : list Z) : list Z := match frame type payload with Ok b => b | Err _ => [] end.

(** @edge/gwlink.ts 91-93 helloMac *)
Definition helloMac (token : list Z) (gatewayId : string) (ts : Z) (nonce : string) : string :=
  to_hex (hmac_sha256 token (bytes_of_string ("tmgw1|" +:+ gatewayId +:+ "|" +:+ show ts +:+ "|" +:+ nonce))).

(** @edge/gwlink.ts 427-427 session *)
Definition candidates (now : Z) (id : string) : list (list Z) :=
  match go_tokens cfg with Some f => f now id | None => [go_token cfg] end.

(** @edge/gwlink.ts 347-350 credentialValid *)
Definition credential_valid (now : Z) (c : Conn) : bool :=
  match go_tokens cfg with Some f => includes (cn_token c) (f now (gi_id (cn_info c))) | None => true end.

(** @edge/gwlink.ts 396-401 session *)
Definition deny (l : nat) (reason : string) (st : Server) : Server * list Action :=
  match om_get l (sv_sessions st) with
  | Some s =>
      if se_denied s then (st, [])
      else (set_session l with_denied st, [AEnd l (frame_of T_DENY (json_text (JObj [("reason", JStr reason)])))])
  | None => (st, [])
  end.

Record Hello := { h_id : string; h_ts : Z; h_nonce : string; h_mac : string }.


(** The shape of a HELLO.
    @edge/gwlink.ts 409-423 session *)
Definition parse_hello (payload : list Z) : option Hello :=
  if Nat.ltb 4096 (length payload) then None
  else
    h ← json_parse payload ≫= as_object;
    let id := match field "gatewayId" h with None | Some JNull => Some EmptyString | Some (JStr s) => Some s | _ => None end in
    match id, field "v" h, field "ts" h ≫= as_safe_integer, field "nonce" h ≫= as_string, field "mac" h ≫= as_string with
    | Some id, Some v, Some ts, Some nonce, Some mac =>
        if bool_decide (as_integer v = Some TMGW_VERSION) && is_name 64 id && is_name 128 nonce && is_hex64 mac
        then Some {| h_id := id; h_ts := ts; h_nonce := nonce; h_mac := mac |} else None
    | _, _, _, _, _ => None
    end.

(** The token a HELLO proves.
    @edge/gwlink.ts 426-429 session *)
Definition proved (now : Z) (h : Hello) : option (list Z) :=
  List.find (fun token => bool_decide (helloMac token (h_id h) (h_ts h) (h_nonce h) = h_mac h)) (candidates now (h_id h)).

Definition hello_key (id nonce : string) : string := id +:+ "|" +:+ nonce.

(** What follows a HELLO that the journal accepted.
    @edge/gwlink.ts 447-455 session *)
Definition accept_hello (l : nat) (a : Admission) (now : Z) (st : Server) : Server * list Action :=
  match om_get l (sv_sessions st) with
  | Some s =>
      if se_denied s || se_closed s then (st, [])
      else
        let replaced := match om_get (ad_id a) (sv_conns st) with Some old => [ADestroy old] | None => [] end in
        let conn := {| cn_token := ad_token a;
                       cn_info := {| gi_id := ad_id a; gi_remote := se_remote s; gi_connectedAt := now; gi_lastSeen := now; gi_uplink := 0;
                                     gi_downlink := 0; gi_rttMs := None; gi_stats := None |} |} in
        let st := set_session l (with_conn (Some conn)) st in
        ({| sv_conns := om_set (ad_id a) l (sv_conns st);
            sv_hellos := om_set (hello_key (ad_id a) (ad_nonce a)) (ad_ts a + HELLO_WINDOW_MS) (sv_hellos st);
            sv_sessions := sv_sessions st |},
         replaced ++ [AWrite l (frame_of T_WELCOME (json_text (JObj [("v", JInt TMGW_VERSION); ("edgeId", JStr (go_edgeId cfg))])))])
  | None => (st, [])
  end.

(** A frame on a link that has not said HELLO yet.
    @edge/gwlink.ts 406-458 session *)
Definition handle_hello (l : nat) (s : Session) (now type : Z) (payload : list Z) (st : Server) : Server * list Action :=
  if se_authenticating s then deny l "HELLO authentication pending" st
  else if negb (type =? T_HELLO) then deny l "HELLO expected" st
  else
    match parse_hello payload with
    | None => deny l "bad HELLO" st
    | Some h =>
        if HELLO_WINDOW_MS <? Z.abs (now - h_ts h) then deny l "clock skew or replayed HELLO" st
        else
          match proved now h with
          | None => deny l "bad token" st
          | Some token =>
              let hellos := List.filter (fun p => negb (p.2 <? now)) (sv_hellos st) in
              let st := {| sv_conns := sv_conns st; sv_hellos := hellos; sv_sessions := sv_sessions st |} in
              if om_has (hello_key (h_id h) (h_nonce h)) hellos then deny l "replayed HELLO" st
              else if Nat.leb (Z.to_nat 4096) (length hellos) then deny l "HELLO capacity exceeded" st
              else
                let a := {| ad_id := h_id h; ad_nonce := h_nonce h; ad_ts := h_ts h; ad_token := token |} in
                let st := set_session l (with_pending a) st in
                if go_store cfg
                then (st, [AJournal l (h_id h) (h_nonce h) (h_ts h + HELLO_WINDOW_MS) now])
                else accept_hello l a now st
          end
    end.

Definition set_info (f : GatewayInfo -> GatewayInfo) (c : Conn) : Conn := {| cn_token := cn_token c; cn_info := f (cn_info c) |}.
Definition update_conn (l : nat) (c : Conn) (st : Server) : Server := set_session l (with_conn (Some c)) st.

(** The text the test of the id looks at: [String(v)], which for an array of one
    is the text of its element. Other values are no sixteen digits. *)
Fixpoint image_id (v : json) : option string :=
  match v with
  | JStr s => Some s
  | JNum q => show <$> as_integer (JNum q)
  | JArr [x] => image_id x
  | _ => None
  end.

(** Whether an IMAGE_READY answer has the right shape.
    @edge/gwlink.ts 480-483 session *)
Definition image_ready_ok (r : list (string * json)) : bool :=
  match field "id" r ≫= image_id, field "ok" r, field "port" r ≫= as_integer with
  | Some id, Some (JBool ok), Some port =>
      Nat.eqb (String.length id) 16 && forallb is_hex_lower (chars id) && between 0 65535 port && negb (ok && (port =? 0)) &&
      match field "error" r with None => true | Some (JStr e) => js_length e <=? 1024 | Some _ => false end
  | _, _, _ => false
  end.

(** A frame of a gateway that is connected.
    @edge/gwlink.ts 459-499 session *)
Definition handle_connected (l : nat) (c : Conn) (now type : Z) (payload : list Z) (st : Server) : Server * list Action :=
  if negb (credential_valid now c) then deny l "gateway credential expired or revoked" st
  else
    let c := set_info (fun i => {| gi_id := gi_id i; gi_remote := gi_remote i; gi_connectedAt := gi_connectedAt i; gi_lastSeen := now;
      gi_uplink := gi_uplink i; gi_downlink := gi_downlink i; gi_rttMs := gi_rttMs i; gi_stats := gi_stats i |}) c in
    let st := update_conn l c st in
    if type =? T_UPLINK then
      match parseAddressed payload with
      | None => (st, [])
      | Some (addr, port, datagram) =>
          (update_conn l (set_info (fun i => {| gi_id := gi_id i; gi_remote := gi_remote i; gi_connectedAt := gi_connectedAt i;
             gi_lastSeen := gi_lastSeen i; gi_uplink := gi_uplink i + 1; gi_downlink := gi_downlink i; gi_rttMs := gi_rttMs i;
             gi_stats := gi_stats i |}) c) st,
           [AUplink l datagram ("gw:" +:+ gi_id (cn_info c) +:+ "|" +:+ addr +:+ ":" +:+ show port)])
      end
    else if type =? T_PING then (st, [AWrite l (frame_of T_PONG payload)])
    else if type =? T_PONG then
      if Nat.eqb (length payload) 8 then
        let rtt := now - unle payload in
        if (0 <=? rtt) && (rtt <=? 60000) then
          (update_conn l (set_info (fun i => {| gi_id := gi_id i; gi_remote := gi_remote i; gi_connectedAt := gi_connectedAt i;
             gi_lastSeen := gi_lastSeen i; gi_uplink := gi_uplink i; gi_downlink := gi_downlink i; gi_rttMs := Some rtt;
             gi_stats := gi_stats i |}) c) st, [])
        else (st, [])
      else (st, [])
    else if type =? T_IMAGE_READY then
      match json_parse payload ≫= as_object with
      | Some r => if image_ready_ok r then (st, [AImageReady l (gi_id (cn_info c)) (JObj r)]) else (st, [])
      | None => (st, [])
      end
    else if type =? T_STATS then
      match json_parse payload ≫= as_object with
      | Some stats =>
          (update_conn l (set_info (fun i => {| gi_id := gi_id i; gi_remote := gi_remote i; gi_connectedAt := gi_connectedAt i;
             gi_lastSeen := gi_lastSeen i; gi_uplink := gi_uplink i; gi_downlink := gi_downlink i; gi_rttMs := gi_rttMs i;
             gi_stats := Some stats |}) c) st, [])
      | None => (st, [])
      end
    else (st, []).

(** @edge/gwlink.ts 405-500 session *)
Definition handle_frame (l : nat) (now : Z) (f : Z * list Z) (st : Server) : Server * list Action :=
  match om_get l (sv_sessions st) with
  | None => (st, [])
  | Some s =>
      if se_denied s then (st, [])
      else
        let '(st', acts) :=
          match se_conn s with
          | None => handle_hello l s now f.1 f.2 st
          | Some c => handle_connected l c now f.1 f.2 st
          end in
        (st', AGot l now f.1 f.2 :: acts)
  end.

Fixpoint handle_frames (l : nat) (now : Z) (fs : list (Z * list Z)) (st : Server) : Server * list Action :=
  match fs with
  | [] => (st, [])
  | f :: rest => let '(st, a) := handle_frame l now f st in let '(st, b) := handle_frames l now rest st in (st, a ++ b)
  end.

(** What can happen to the server: a link opens, bytes arrive on it, the journal
    answers ([None] when it failed), the ten-second ping or the five-second
    HELLO timer fires, the link closes, and a command is sent down. *)
Inductive Event :=
| EOpen (link : nat) (remote : string)
| EData (link : nat) (chunk : list Z) (now : Z)
| EJournal (link : nat) (answer : option bool) (now : Z)
| EPing (link : nat) (now : Z)
| EHelloTimeout (link : nat)
| EClose (link : nat)
| EDownlink (source : string) (datagram : list Z) (now : Z).

(** @edge/gwlink.ts 403-505 session *)
Definition on_data (l : nat) (chunk : list Z) (now : Z) (st : Server) : Server * list Action :=
  match om_get l (sv_sessions st) with
  | None => (st, [])
  | Some s =>
      let '(frames, r, e) := push (se_reader s) chunk in
      let '(st, acts) := handle_frames l now frames (set_session l (with_reader r) st) in
      (st, acts ++ match e with Some _ => [ADestroy l] | None => [] end)
  end.

(** @edge/gwlink.ts 435-446 session *)
Definition on_journal (l : nat) (answer : option bool) (now : Z) (st : Server) : Server * list Action :=
  match om_get l (sv_sessions st) ≫= se_pending with
  | None => (st, [])
  | Some a =>
      match answer with
      | None => deny l "HELLO journal unavailable" st
      | Some false => deny l "replayed HELLO or clock rollback" st
      | Some true => accept_hello l a now st
      end
  end.

(** @edge/gwlink.ts 506-512 session *)
Definition on_ping (l : nat) (now : Z) (st : Server) : Server * list Action :=
  match om_get l (sv_sessions st) ≫= se_conn with
  | None => (st, [])
  | Some c =>
      if negb (credential_valid now c) then (st, [ADestroy l])
      else if 45000 <? now - gi_lastSeen (cn_info c) then (st, [ADestroy l])
      else (st, [AWrite l (frame_of T_PING (le 8 now))])
  end.

(** @edge/gwlink.ts 513-521 session *)
Definition on_close (l : nat) (st : Server) : Server * list Action :=
  match om_get l (sv_sessions st) with
  | None => (st, [])
  | Some s =>
      let st := set_session l with_closed st in
      match se_conn s with
      | Some c =>
          if bool_decide (om_get (gi_id (cn_info c)) (sv_conns st) = Some l)
          then ({| sv_conns := om_del (gi_id (cn_info c)) (sv_conns st); sv_hellos := sv_hellos st; sv_sessions := sv_sessions st |}, [])
          else (st, [])
      | None => (st, [])
      end
  end.

(** The answer is whether the command was written; a datagram too long for a
    frame throws, and the link is untouched.
    @edge/gwlink.ts 336-345 sendDownlink *)
Definition sendDownlink (source : string) (datagram : list Z) (now : Z) (st : Server) : result string (bool * Server * list Action) :=
  match downlink_target source with
  | None => Ok (false, st, [])
  | Some (id, addr, port) =>
      match om_get id (sv_conns st) with
      | None => Ok (false, st, [])
      | Some l =>
          match om_get l (sv_sessions st) ≫= se_conn with
          | None => Ok (false, st, [])
          | Some c =>
              if negb (credential_valid now c) then Ok (false, st, [ADestroy l])
              else if negb (isIP addr) || (port <? 1) || (65535 <? port) then Ok (false, st, [])
              else
                let! payload := addressed addr port datagram in
                let! bytes := frame T_DOWNLINK payload in
                Ok (true,
                    update_conn l (set_info (fun i => {| gi_id := gi_id i; gi_remote := gi_remote i; gi_connectedAt := gi_connectedAt i;
                      gi_lastSeen := gi_lastSeen i; gi_uplink := gi_uplink i; gi_downlink := gi_downlink i + 1; gi_rttMs := gi_rttMs i;
                      gi_stats := gi_stats i |}) c) st,
                    [AWrite l bytes])
          end
      end
  end.

Definition server_step (st : Server) (e : Event) : Server * list Action :=
  match e with
  | EOpen l remote =>
      if om_has l (sv_sessions st) then (st, [])
      else ({| sv_conns := sv_conns st; sv_hellos := sv_hellos st;
               sv_sessions := om_set l {| se_remote := remote; se_reader := new_reader; se_conn := None; se_denied := false;
                                          se_authenticating := false; se_pending := None; se_closed := false |} (sv_sessions st) |}, [])
  | EData l chunk now => on_data l chunk now st
  | EJournal l answer now => on_journal l answer now st
  | EPing l now => on_ping l now st
  | EHelloTimeout l =>
      match om_get l (sv_sessions st) ≫= se_conn with Some _ => (st, []) | None => (st, [ADestroy l]) end
  | EClose l => on_close l st
  | EDownlink source datagram now =>
      match sendDownlink source datagram now st with Ok (_, st', acts) => (st', acts) | Err _ => (st, []) end
  end.

(** The server after some events, and everything it did. *)
Definition server_run (st : Server) (events : list Event) : Server * list Action :=
  fold_left (fun s e => let '(st', acts) := server_step (fst s) e in (st', snd s ++ acts)) events (st, []).

Record ImageMeta := { im_id : string; im_size : Z; im_sha256 : string }.
Definition CHUNK : nat := Z.to_nat (32 * 1024).

(** One chunk, with its offset.
    @edge/gwlink.ts 321-326 sendImage *)
Definition image_chunk (id : string) (bytes : list Z) (off : nat) : list Z :=
  let idBytes := bytes_of_string id in
  let head := put 1 idBytes (put_byte 0 (Z.of_nat (length idBytes)) (alloc (1 + length idBytes + 4))) in
  let head := put (1 + length idBytes) (le 4 (Z.of_nat off)) head in
  frame_of T_IMAGE_CHUNK (head ++ sub off CHUNK bytes).

(** @edge/gwlink.ts 313-329 sendImage *)
Definition sendImage (gatewayId : string) (meta : ImageMeta) (bytes : list Z) (now : Z) (st : Server) : bool * list Action :=
  match om_get gatewayId (sv_conns st) with
  | None => (false, [])
  | Some l =>
      match om_get l (sv_sessions st) ≫= se_conn with
      | None => (false, [])
      | Some c =>
          if negb (credential_valid now c) then (false, [ADestroy l])
          else if negb (is_hex64 (im_sha256 meta)) || negb (bool_decide (im_id meta = String.substring 0 16 (im_sha256 meta)))
                  || negb (im_size meta =? Z.of_nat (length bytes)) || (im_size meta <=? 0) || (8 * 1024 * 1024 <? im_size meta)
          then (false, [])
          else
            (true,
             AWrite l (frame_of T_IMAGE_META (json_text (JObj [("id", JStr (im_id meta)); ("size", JInt (im_size meta)); ("sha256", JStr (im_sha256 meta))])))
             :: map (fun k => AWrite l (image_chunk (im_id meta) bytes (k * CHUNK)%nat)) (List.seq 0 ((length bytes + (CHUNK - 1)) / CHUNK)))
      end
  end.

(** ** Nothing is believed before a HELLO *)

(** A frame the link sent proves the gateway's token. *)
Definition authentic (past : list Action) (l : nat) (id : string) (token : list Z) : Prop :=
  exists now payload h, AGot l now T_HELLO payload ∈ past /\ parse_hello payload = Some h /\ h_id h = id /\
    Z.abs (now - h_ts h) <= HELLO_WINDOW_MS /\ token ∈ candidates now id /\ helloMac token id (h_ts h) (h_nonce h) = h_mac h.

(** What a datagram or an answer that is passed on must come after. *)
Definition ok_action (past : list Action) (x : Action) : Prop :=
  match x with
  | AUplink l _ source => exists id token addr port, authentic past l id token /\ isIP addr = true /\
      source = "gw:" +:+ id +:+ "|" +:+ addr +:+ ":" +:+ show port
  | AImageReady l id _ => exists token, authentic past l id token
  | _ => True
  end.

Fixpoint good_from (past acts : list Action) : Prop :=
  match acts with [] => True | x :: rest => ok_action past x /\ good_from (past ++ [x]) rest end.

Definition quiet (x : Action) : bool := match x with AUplink _ _ _ | AImageReady _ _ _ => false | _ => true end.

Lemma good_from_app past a b : good_from past (a ++ b) <-> good_from past a /\ good_from (past ++ a) b.
Proof.
  revert past; induction a as [|x a IH]; intros past; cbn [app good_from]; [rewrite app_nil_r; tauto|]. rewrite IH, <- app_assoc. cbn. tauto.
Qed.

Lemma good_from_quiet past a : forallb quiet a = true -> good_from past a.
Proof. revert past; induction a as [|x a IH]; intros past; [done|]. cbn. intros [Hx Ha]%andb_true_iff. split; [by destruct x|by apply IH]. Qed.

Lemma authentic_mono past more l id token : authentic past l id token -> authentic (past ++ more) l id token.
Proof. intros (now & payload & h & Hin & H). exists now, payload, h. split; [apply elem_of_app; by left|exact H]. Qed.

Definition session_ok (past : list Action) (l : nat) (s : Session) : Prop :=
  (forall c, se_conn s = Some c -> authentic past l (gi_id (cn_info c)) (cn_token c)) /\
  (forall a, se_pending s = Some a -> authentic past l (ad_id a) (ad_token a)).

Definition server_ok (past : list Action) (st : Server) : Prop := forall l s, om_get l (sv_sessions st) = Some s -> session_ok past l s.

Lemma session_mono past more l s : session_ok past l s -> session_ok (past ++ more) l s.
Proof. intros [H1 H2]. split; intros; apply authentic_mono; auto. Qed.

Lemma server_mono past more st : server_ok past st -> server_ok (past ++ more) st.
Proof. intros H l s Hs. by apply session_mono, H. Qed.

Lemma get_set_session l f st l' : om_get l' (sv_sessions (set_session l f st)) =
  if decide (l' = l) then f <$> om_get l (sv_sessions st) else om_get l' (sv_sessions st).
Proof.
  unfold set_session. cbn [sv_sessions]. destruct (om_get l (sv_sessions st)) as [s|] eqn:E.
  - rewrite om_get_set. repeat case_decide; repeat case_bool_decide; done.
  - case_decide; [by subst|done].
Qed.

Lemma server_set past l f st : server_ok past st -> (forall s, om_get l (sv_sessions st) = Some s -> session_ok past l (f s)) ->
  server_ok past (set_session l f st).
Proof.
  intros H Hf l' s'. rewrite get_set_session. case_decide as E; [|apply H]. subst l'.
  destruct (om_get l (sv_sessions st)) as [s|] eqn:Es; [|done]. intros [= <-]. by apply Hf.
Qed.

(** A step that keeps the sessions right and passes nothing on unproved. *)
Definition step_ok (past : list Action) (r : Server * list Action) : Prop := server_ok past (fst r) /\ forallb quiet (snd r) = true.

Lemma deny_ok past l reason st : server_ok past st -> step_ok past (deny l reason st).
Proof.
  intros H. unfold deny. destruct (om_get l (sv_sessions st)) as [s|] eqn:E; [|done]. destruct (se_denied s); [done|]. split; [|done].
  apply server_set; [done|]. intros s' Hs'. destruct (H l s' Hs') as [H1 _]. by split.
Qed.

Lemma admit_ok past l a now st : server_ok past st -> authentic past l (ad_id a) (ad_token a) -> step_ok past (accept_hello l a now st).
Proof.
  intros H Ha. unfold accept_hello. destruct (om_get l (sv_sessions st)) as [s|] eqn:E; [|done]. destruct (_ || _); [done|]. split.
  - intros l' s'. cbn [fst sv_sessions]. apply server_set; [done|]. intros s0 _. split; [|done]. by intros c [= <-].
  - cbn [snd]. destruct (om_get (ad_id a) (sv_conns st)); done.
Qed.

Lemma handle_hello_ok past l s now type payload st : server_ok past st -> AGot l now type payload ∈ past ->
  step_ok past (handle_hello l s now type payload st).
Proof.
  intros H Hgot. unfold handle_hello. destruct (se_authenticating s); [by apply deny_ok|].
  destruct (Z.eqb_spec type T_HELLO) as [->|]; [cbn [negb]|by apply deny_ok].
  destruct (parse_hello payload) as [h|] eqn:Eh; [|by apply deny_ok].
  destruct (Z.ltb_spec HELLO_WINDOW_MS (Z.abs (now - h_ts h))) as [|Hw]; [by apply deny_ok|].
  destruct (proved now h) as [token|] eqn:Ep; [|by apply deny_ok].
  apply find_some in Ep as [Hin Hmac]. apply list_elem_of_In in Hin. apply bool_decide_eq_true in Hmac.
  destruct (om_has _ _); [by apply deny_ok|]. destruct (Nat.leb _ _); [by apply deny_ok|].
  set (a := Build_Admission _ _ _ _).
  assert (authentic past l (ad_id a) (ad_token a)) as Ha by (by exists now, payload, h).
  match goal with |- context [set_session l (with_pending a) ?s0] => assert (server_ok past (set_session l (with_pending a) s0)) as Hs end.
  { apply server_set; [done|]. intros s1 Hs1. destruct (H l s1 Hs1) as [H1 _]. split; [done|]. by intros a' [= <-]. }
  destruct (go_store cfg); [by split|by apply admit_ok].
Qed.

Lemma update_conn_ok past l c st : server_ok past st -> authentic past l (gi_id (cn_info c)) (cn_token c) -> server_ok past (update_conn l c st).
Proof. intros H Hc. apply server_set; [done|]. intros s _. split; [|done]. by intros c' [= <-]. Qed.

Lemma handle_connected_ok past l c now type payload st : server_ok past st -> authentic past l (gi_id (cn_info c)) (cn_token c) ->
  let r := handle_connected l c now type payload st in server_ok past (fst r) /\ good_from past (snd r).
Proof.
  intros H Hc. unfold handle_connected. destruct (credential_valid now c); cbn [negb].
  2:{ destruct (deny_ok past l "gateway credential expired or revoked" st H) as [H1 H2]. split; [done|by apply good_from_quiet]. }
  set (c1 := set_info _ c). assert (server_ok past (update_conn l c1 st)) as H1 by (by apply update_conn_ok).
  destruct (type =? T_UPLINK).
  { destruct (parseAddressed payload) as [[[addr port] d]|] eqn:Ea; [|done]. split; [by apply update_conn_ok|]. cbn [snd good_from]. split; [|done].
    exists (gi_id (cn_info c)), (cn_token c), addr, port. split_and!; [exact Hc| |done].
    unfold parseAddressed in Ea. destruct payload as [|n rest]; [done|]. destruct (Nat.ltb _ _); [done|]. destruct (existsb _ _); [done|].
    destruct (read_uint _ _ _); [|done]. destruct (isIP _) eqn:Eip; [|done]. cbn [negb orb] in Ea. destruct (_ =? 0); [done|]. by injection Ea as <- <- <-. }
  destruct (type =? T_PING); [done|]. destruct (type =? T_PONG).
  { destruct (Nat.eqb _ _); [|done]. destruct (_ && _); [|done]. split; [by apply update_conn_ok|done]. }
  destruct (type =? T_IMAGE_READY).
  { destruct (json_parse payload ≫= as_object) as [r|]; [|done]. destruct (image_ready_ok r); [|done]. split; [done|]. split; [|done]. by exists (cn_token c). }
  destruct (type =? T_STATS); [|done]. destruct (json_parse payload ≫= as_object) as [r|]; [|done]. split; [by apply update_conn_ok|done].
Qed.

Lemma handle_frame_ok past l now f st : server_ok past st ->
  let r := handle_frame l now f st in server_ok (past ++ snd r) (fst r) /\ good_from past (snd r).
Proof.
  intros H. unfold handle_frame. destruct (om_get l (sv_sessions st)) as [s|] eqn:E; [|cbn; rewrite app_nil_r; done].
  destruct (se_denied s); [cbn; rewrite app_nil_r; done|].
  set (got := AGot l now f.1 f.2). assert (server_ok (past ++ [got]) st) as H' by (by apply server_mono).
  destruct (se_conn s) as [c|] eqn:Ec.
  - destruct (handle_connected_ok (past ++ [got]) l c now f.1 f.2 st H') as [H1 H2].
    { apply authentic_mono. by destruct (H l s E) as [Hc _]; apply Hc. }
    destruct (handle_connected _ _ _ _ _ _) as [st' acts]. cbn [fst snd] in *. split.
    + rewrite (app_assoc past [got] acts : past ++ got :: acts = _). by apply server_mono.
    + split; done.
  - destruct (handle_hello_ok (past ++ [got]) l s now f.1 f.2 st H') as [H1 H2]; [apply elem_of_app; right; by left|].
    destruct (handle_hello _ _ _ _ _ _) as [st' acts]. cbn [fst snd] in *. split.
    + rewrite (app_assoc past [got] acts : past ++ got :: acts = _). by apply server_mono.
    + split; [done|by apply good_from_quiet].
Qed.

Lemma handle_frames_ok past l now fs st : server_ok past st ->
  let r := handle_frames l now fs st in server_ok (past ++ snd r) (fst r) /\ good_from past (snd r).
Proof.
  revert past st; induction fs as [|f fs IH]; intros past st H; [cbn; rewrite app_nil_r; done|]. cbn [handle_frames].
  destruct (handle_frame_ok past l now f st H) as [H1 H2]. destruct (handle_frame l now f st) as [st1 a]. cbn [fst snd] in *.
  destruct (IH (past ++ a) st1 H1) as [H3 H4]. destruct (handle_frames l now fs st1) as [st2 b]. cbn [fst snd] in *. split.
  - by rewrite app_assoc.
  - by apply good_from_app.
Qed.

Lemma server_step_ok past st e : server_ok past st ->
  let r := server_step st e in server_ok (past ++ snd r) (fst r) /\ good_from past (snd r).
Proof.
  intros H. assert (forall r, step_ok past r -> server_ok (past ++ snd r) (fst r) /\ good_from past (snd r)) as Hstep.
  { intros r [H1 H2]. split; [by apply server_mono|by apply good_from_quiet]. }
  destruct e as [l remote|l chunk now|l answer now|l now|l|l|source datagram now]; cbn [server_step].
  - apply Hstep. destruct (om_has _ _); [done|]. split; [|done]. intros l' s'. cbn [fst sv_sessions]. rewrite om_get_set.
    case_bool_decide; [|apply H]. intros [= <-]. done.
  - unfold on_data. destruct (om_get l (sv_sessions st)) as [s|] eqn:E; [|by apply Hstep]. destruct (push (se_reader s) chunk) as [[fs r] err].
    destruct (handle_frames_ok past l now fs (set_session l (with_reader r) st)) as [H1 H2].
    { apply server_set; [done|]. intros s' Hs'. exact (H l s' Hs'). }
    destruct (handle_frames _ _ _ _) as [st' acts]. cbn [fst snd] in *. split.
    + rewrite app_assoc. by apply server_mono.
    + apply good_from_app. split; [done|]. by destruct err.
  - apply Hstep. unfold on_journal. destruct (om_get l (sv_sessions st)) as [s|] eqn:E; [|done]. cbn. destruct (se_pending s) as [a|] eqn:Ea; [|done].
    destruct answer as [[|]|]; [|by apply deny_ok|by apply deny_ok]. apply admit_ok; [done|]. destruct (H l s E) as [_ Hp]. by apply Hp.
  - apply Hstep. unfold on_ping. destruct (_ ≫= _); [|done]. repeat (destruct (_ : bool); [done|]). repeat case_match; done.
  - apply Hstep. by destruct (_ ≫= _).
  - apply Hstep. unfold on_close. destruct (om_get l (sv_sessions st)) as [s|] eqn:E; [|done].
    assert (server_ok past (set_session l with_closed st)) as H1 by (apply server_set; [done|]; intros s' Hs'; exact (H l s' Hs')).
    destruct (se_conn s); [|done]. by case_bool_decide.
  - apply Hstep. destruct (sendDownlink source datagram now st) as [[[b st'] acts]|] eqn:E; [|done]. unfold sendDownlink in E.
    destruct (downlink_target source) as [[[id addr] port]|]; [|by injection E as <- <- <-].
    destruct (om_get id (sv_conns st)) as [l|]; [|by injection E as <- <- <-].
    destruct (om_get l (sv_sessions st)) as [s|] eqn:Es; [|by injection E as <- <- <-]. cbn in E.
    destruct (se_conn s) as [c|] eqn:Ec; [|by injection E as <- <- <-]. destruct (negb _); [by injection E as <- <- <-|].
    destruct (_ || _); [by injection E as <- <- <-|]. inv_ok E. injection E as <- <- <-. split; [|done].
    apply update_conn_ok; [done|]. destruct (H l s Es) as [Hc _]. exact (Hc c Ec).
Qed.

(** C9: Nothing is taken from a gateway that has not proved its token. In any run
    of the server from its start, a node datagram is passed on, and an image
    answer is reported, only for a link that before sent a HELLO with the
    right MAC under a token of that gateway, fresh within a minute; and the
    source the datagram is given names that same gateway. *)
Theorem uplink_only_after_hello events :
  good_from [] (snd (server_run {| sv_conns := []; sv_hellos := []; sv_sessions := [] |} events)).
Proof.
  unfold server_run.
  assert (forall es past st, server_ok past st -> good_from [] past ->
    good_from [] (snd (fold_left (fun s e => let '(st', acts) := server_step (fst s) e in (st', snd s ++ acts)) es (st, past)))) as H.
  { induction es as [|e es IH]; intros past st H1 H2; [done|]. cbn [fold_left fst snd].
    destruct (server_step_ok past st e H1) as [H3 H4]. destruct (server_step st e) as [st' acts]. cbn [fst snd] in *.
    apply IH; [done|]. apply good_from_app. by split. }
  by apply H.
Qed.

(** ** One session per gateway *)

Definition init_server : Server := {| sv_conns := []; sv_hellos := []; sv_sessions := [] |}.

(** The map of gateways points at open sessions of those gateways, and a session
    that waits for its journal is not connected yet. *)
Record conns_ok (st : Server) : Prop := {
  co_conn id l : om_get id (sv_conns st) = Some l ->
    exists s c, om_get l (sv_sessions st) = Some s /\ se_conn s = Some c /\ gi_id (cn_info c) = id /\ se_closed s = false;
  co_pending l s a : om_get l (sv_sessions st) = Some s -> se_pending s = Some a -> se_conn s = None;
}.

Definition same_conn (c c' : option Conn) : Prop := (fun x => gi_id (cn_info x)) <$> c = (fun x => gi_id (cn_info x)) <$> c'.

Lemma conns_set l f st : conns_ok st ->
  (forall s, om_get l (sv_sessions st) = Some s -> same_conn (se_conn (f s)) (se_conn s) /\ se_closed (f s) = se_closed s /\
     (se_pending (f s) = None \/ se_conn (f s) = None \/ se_pending (f s) = se_pending s)) -> conns_ok (set_session l f st).
Proof.
  intros [H1 H2] Hf. constructor.
  - intros id l' Hid. destruct (H1 id l' Hid) as (s & c & Hs & Hc & Hg & Hcl). rewrite get_set_session. case_decide as E; [|by exists s, c].
    subst l'. destruct (Hf s Hs) as (F1 & F2 & _). rewrite Hs. unfold same_conn in F1. rewrite Hc in F1. destruct (se_conn (f s)) as [c'|] eqn:Ec; [|done].
    injection F1 as F1. exists (f s), c'. split_and!; [done|done|congruence|congruence].
  - intros l' s' a. rewrite get_set_session. case_decide as E; [|apply H2]. subst l'. destruct (om_get l (sv_sessions st)) as [s|] eqn:Es; [|done].
    intros [= <-] Ha. destruct (Hf s eq_refl) as (F1 & _ & [F3|[F3|F3]]); [congruence|done|]. rewrite F3 in Ha. specialize (H2 l s a Es Ha).
    unfold same_conn in F1. rewrite H2 in F1. by destruct (se_conn (f s)).
Qed.

Lemma deny_conns l reason st : conns_ok st -> conns_ok (fst (deny l reason st)).
Proof. intros H. unfold deny. destruct (om_get l (sv_sessions st)) as [s|]; [|done]. destruct (se_denied s); [done|]. apply conns_set; [done|]. intros s0 _. split_and!; [done|done|by left]. Qed.

Lemma admit_conns l a now st s : conns_ok st -> om_get l (sv_sessions st) = Some s -> se_conn s = None -> conns_ok (fst (accept_hello l a now st)).
Proof.
  intros [H1 H2] Hs Hn. unfold accept_hello. rewrite Hs. destruct (_ || _) eqn:E; [by constructor|]. apply orb_false_iff in E as [_ Hcl]. constructor; cbn [fst sv_conns sv_sessions].
  - intros id l' Hid. rewrite get_set_session, Hs. rewrite om_get_set in Hid. case_bool_decide as Eid.
    + injection Hid as <-. rewrite decide_True by done. eexists _, _. split; [done|]. cbn. split_and!; [done|by subst|done].
    + destruct (H1 id l' Hid) as (s' & c & Hs' & Hc & Hg & Hcl'). rewrite decide_False; [by exists s', c|]. intros ->. congruence.
  - intros l' s' a'. rewrite get_set_session, Hs. case_decide; [by intros [= <-]|apply H2].
Qed.

Lemma update_conns l c c0 s st : conns_ok st -> om_get l (sv_sessions st) = Some s -> se_conn s = Some c0 ->
  gi_id (cn_info c) = gi_id (cn_info c0) -> conns_ok (update_conn l c st).
Proof.
  intros H Hs Hc Hg. apply conns_set; [done|]. intros s' Hs'. rewrite Hs in Hs'. injection Hs' as <-. split_and!; [|done|by left].
  unfold same_conn. cbn. rewrite Hc. cbn. congruence.
Qed.

Lemma get_update_conn l c s st : om_get l (sv_sessions st) = Some s -> om_get l (sv_sessions (update_conn l c st)) = Some (with_conn (Some c) s).
Proof. intros Hs. unfold update_conn. rewrite get_set_session, decide_True by done. by rewrite Hs. Qed.

Lemma handle_frame_conns l now f st : conns_ok st -> conns_ok (fst (handle_frame l now f st)).
Proof.
  intros H. unfold handle_frame. destruct (om_get l (sv_sessions st)) as [s|] eqn:Es; [|done]. destruct (se_denied s); [done|].
  enough (conns_ok (fst (match se_conn s with None => handle_hello l s now f.1 f.2 st | Some c => handle_connected l c now f.1 f.2 st end))) as He
    by (by destruct (match se_conn s with None => _ | Some _ => _ end)).
  destruct (se_conn s) as [c|] eqn:Ec.
  - unfold handle_connected. destruct (credential_valid now c); [cbn [negb]|by apply deny_conns]. set (c1 := set_info _ c).
    assert (conns_ok (update_conn l c1 st)) as H1 by (by apply (update_conns l c1 c s)).
    pose proof (get_update_conn l c1 s st Es) as Es1. set (st1 := update_conn l c1 st) in *.
    assert (forall g, (forall i, gi_id (g i) = gi_id i) -> conns_ok (update_conn l (set_info g c1) st1)) as H2.
    { intros g Hg. apply (update_conns l _ c1 (with_conn (Some c1) s)); [done|done|done|apply Hg]. }
    repeat (match goal with |- context [if ?b then _ else _] => destruct b end || match goal with |- context [match ?o with Some _ => _ | None => _ end] => destruct o as [[[? ?] ?]|] || destruct o end); try done; by apply H2.
  - unfold handle_hello. destruct (se_authenticating s); [by apply deny_conns|]. destruct (negb _); [by apply deny_conns|].
    destruct (parse_hello f.2) as [h|]; [|by apply deny_conns]. destruct (_ <? _); [by apply deny_conns|]. destruct (proved now h) as [token|]; [|by apply deny_conns].
    match goal with |- context [om_has ?k ?hs] => set (hellos := hs) end.
    set (st1 := Build_Server (sv_conns st) hellos (sv_sessions st)). assert (conns_ok st1) as H1 by (destruct H; by constructor).
    destruct (om_has _ _); [by apply deny_conns|]. destruct (Nat.leb _ _); [by apply deny_conns|]. set (a := Build_Admission _ _ _ _).
    assert (conns_ok (set_session l (with_pending a) st1)) as H2.
    { apply conns_set; [done|]. intros s' Hs'. split_and!; [done|done|]. right. left. cbn in Hs'. rewrite Es in Hs'. injection Hs' as <-. exact Ec. }
    destruct (go_store cfg); [done|]. apply (admit_conns l a now _ (with_pending a s)); [done| |done].
    rewrite get_set_session, decide_True by done. cbn. by rewrite Es.
Qed.

Lemma server_step_conns st e : conns_ok st -> conns_ok (fst (server_step st e)).
Proof.
  intros H. destruct e as [l remote|l chunk now|l answer now|l now|l|l|source datagram now]; cbn [server_step].
  - unfold om_has. destruct (om_get l (sv_sessions st)) as [s0|] eqn:E; [done|]. destruct H as [H1 H2]. constructor; cbn [fst sv_conns sv_sessions].
    + intros id l' Hid. destruct (H1 id l' Hid) as (s & c & Hs & ?). exists s, c. split; [|done]. rewrite om_get_set_ne; [done|]. intros ->. congruence.
    + intros l' s a. rewrite om_get_set. case_bool_decide; [by intros [= <-]|apply H2].
  - unfold on_data. destruct (om_get l (sv_sessions st)) as [s|]; [|done]. destruct (push (se_reader s) chunk) as [[fs r] err].
    assert (conns_ok (set_session l (with_reader r) st)) as H1 by (apply conns_set; [done|]; intros s' _; split_and!; [done|done|by right; right]).
    assert (forall fs st, conns_ok st -> conns_ok (fst (handle_frames l now fs st))) as Hfs.
    { clear. induction fs as [|f fs IH]; intros st H; [done|]. cbn [handle_frames]. pose proof (handle_frame_conns l now f st H) as H1.
      destruct (handle_frame l now f st) as [st1 a]. specialize (IH st1 H1). by destruct (handle_frames l now fs st1). }
    specialize (Hfs fs _ H1). by destruct (handle_frames l now fs _).
  - unfold on_journal. destruct (om_get l (sv_sessions st)) as [s|] eqn:Es; [|done]. cbn. destruct (se_pending s) as [a|] eqn:Ea; [|done].
    destruct answer as [[|]|]; [|by apply deny_conns|by apply deny_conns]. eapply admit_conns; [done|done|]. destruct H as [_ H2]. by eapply H2.
  - unfold on_ping. destruct (_ ≫= _); [|done]. by repeat case_match.
  - by destruct (_ ≫= _).
  - unfold on_close. destruct (om_get l (sv_sessions st)) as [s|] eqn:Es; [|done]. destruct H as [H1 H2].
    assert (forall l' s' a, om_get l' (sv_sessions (set_session l with_closed st)) = Some s' -> se_pending s' = Some a -> se_conn s' = None) as Hp.
    { intros l' s' a. rewrite get_set_session. case_decide; [|apply H2]. rewrite Es. intros [= <-]. exact (H2 l s a Es). }
    assert (forall id l', om_get id (sv_conns st) = Some l' -> l' <> l -> exists s' c, om_get l' (sv_sessions (set_session l with_closed st)) = Some s' /\
      se_conn s' = Some c /\ gi_id (cn_info c) = id /\ se_closed s' = false) as Hother.
    { intros id l' Hid Hne. rewrite get_set_session, decide_False by done. by apply H1. }
    assert (forall id, om_get id (sv_conns st) = Some l -> exists c, se_conn s = Some c /\ gi_id (cn_info c) = id) as Hown.
    { intros id Hid. destruct (H1 id l Hid) as (s' & c & Hs' & Hc & Hg & _). exists c. split; [congruence|done]. }
    destruct (se_conn s) as [c|] eqn:Ec; [case_bool_decide as Eb|]; constructor; try exact Hp; cbn [fst sv_conns].
    + intros id l' Hid. rewrite om_get_del in Hid. case_bool_decide as Ei; [done|]. apply Hother; [done|]. intros ->. destruct (Hown id Hid) as (c' & [= <-] & Hg). congruence.
    + intros id l' Hid. apply Hother; [done|]. intros ->. destruct (Hown id Hid) as (c' & [= <-] & Hg). apply Eb. by rewrite Hg.
    + intros id l' Hid. apply Hother; [done|]. intros ->. by destruct (Hown id Hid) as (c' & ? & _).
  - destruct (sendDownlink source datagram now st) as [[[b st'] acts]|] eqn:E; [|done]. unfold sendDownlink in E.
    destruct (downlink_target source) as [[[id addr] port]|]; [|by injection E as <- <- <-].
    destruct (om_get id (sv_conns st)) as [l|]; [|by injection E as <- <- <-].
    destruct (om_get l (sv_sessions st)) as [s|] eqn:Es; [|by injection E as <- <- <-]. cbn in E.
    destruct (se_conn s) as [c|] eqn:Ec; [|by injection E as <- <- <-]. destruct (negb _); [by injection E as <- <- <-|].
    destruct (_ || _); [by injection E as <- <- <-|]. inv_ok E. injection E as <- <- <-. by apply (update_conns l _ c s).
Qed.

Lemma server_run_conns events : conns_ok (fst (server_run init_server events)).
Proof.
  unfold server_run. assert (forall es past st, conns_ok st ->
    conns_ok (fst (fold_left (fun s e => let '(st', acts) := server_step (fst s) e in (st', snd s ++ acts)) es (st, past)))) as H.
  { induction es as [|e es IH]; intros past st H; [done|]. cbn [fold_left fst snd]. pose proof (server_step_conns st e H) as H1.
    destruct (server_step st e) as [st' acts]. by apply IH. }
  apply H. by constructor.
Qed.

(** A command goes to the gateway the node was heard through. In any state
    the server can reach, when [sendDownlink] says it wrote, it wrote one frame
    on one link: the open, current session of the gateway the source names,
    whose token is still valid, however many sessions of that gateway came and
    went; and reading that frame gives back the address, the port and the
    datagram. *)
Theorem downlink_delivered {NL : NetLaws} events source datagram now st' acts :
  let st := fst (server_run init_server events) in
  sendDownlink source datagram now st = Ok (true, st', acts) ->
  exists id addr port l s c bytes payload,
    downlink_target source = Some (id, addr, port) /\ acts = [AWrite l bytes] /\
    om_get id (sv_conns st) = Some l /\ om_get l (sv_sessions st) = Some s /\ se_closed s = false /\
    se_conn s = Some c /\ gi_id (cn_info c) = id /\ credential_valid now c = true /\
    push new_reader bytes = ([(T_DOWNLINK, payload)], new_reader, None) /\ parseAddressed payload = Some (addr, port, datagram).
Proof.
  intros st E. pose proof (server_run_conns events) as [H1 _]. fold st in H1. unfold sendDownlink in E.
  destruct (downlink_target source) as [[[id addr] port]|]; [|done]. destruct (om_get id (sv_conns st)) as [l|] eqn:El; [|done].
  destruct (H1 id l El) as (s & c & Hs & Hc & Hg & Hcl). rewrite Hs in E. cbn in E. rewrite Hc in E.
  destruct (credential_valid now c) eqn:Ev; [cbn [negb] in E|done]. destruct (_ || _); [done|].
  destruct (addressed addr port datagram) as [payload|] eqn:Ep; [|done]. cbn [rbind] in E.
  destruct (frame T_DOWNLINK payload) as [bytes|] eqn:Ef; [|done]. cbn [rbind] in E. injection E as <- <-.
  exists id, addr, port, l, s, c, bytes, payload. split_and!; try done.
  - unfold push. rewrite push_loop_spec by (cbn; lia). by apply read_frame.
  - by apply addressed_roundtrip.
Qed.
End server.

(** ** Witness *)

Definition demo_net : Net := {| isIP := fun s => bool_decide (s = "10.0.0.7") |}.
Lemma demo_net_laws : @NetLaws demo_net.
Proof.
  constructor. intros a Ha. apply bool_decide_eq_true in Ha as ->. split; [|vm_compute; lia]. repeat constructor.
Qed.

Definition demo_hello_mac : string := @helloMac TestCrypto.crypto [1; 2; 3] "gw1" 1000 "n1".
(** A parser that knows one text. *)
Definition demo_json : JsonText := {|
  json_parse := fun b => if bool_decide (b = [123]) then
    Some (JObj [("v", JInt 1); ("gatewayId", JStr "gw1"); ("ts", JInt 1000); ("nonce", JStr "n1"); ("mac", JStr demo_hello_mac)]) else None;
  json_text := fun _ => [123; 125] |}.
Definition demo_options : GatewayServerOptions := {| go_token := [1; 2; 3]; go_tokens := None; go_store := false; go_edgeId := "edge" |}.
Definition demo_events : list Event := [EOpen 0 "peer"; EData 0 [2; 0; 0; 0] 1500; EData 0 [1; 123] 1500].

Lemma downlink_delivered_witness :
  let st := fst (@server_run TestCrypto.crypto demo_net demo_json demo_options init_server demo_events) in
  exists st' acts payload, @sendDownlink demo_net demo_options "gw:gw1|10.0.0.7:5201" [9; 8; 7] 2000 st = Ok (true, st', acts) /\
    @parseAddressed demo_net payload = Some ("10.0.0.7", 5201, [9; 8; 7]).
Proof.
  cbv zeta.
  destruct (@sendDownlink demo_net demo_options "gw:gw1|10.0.0.7:5201" [9; 8; 7] 2000
    (fst (@server_run TestCrypto.crypto demo_net demo_json demo_options init_server demo_events))) as [[[b st'] acts]|] eqn:E;
    [|vm_compute in E; discriminate].
  assert (b = true) as -> by (vm_compute in E; injection E; intros; congruence).
  destruct (@downlink_delivered TestCrypto.crypto demo_net demo_json demo_options demo_net_laws demo_events "gw:gw1|10.0.0.7:5201" [9; 8; 7] 2000 st' acts E)
    as (id & addr & port & l & s & c & bytes & payload & Ht & _ & _ & _ & _ & _ & _ & _ & _ & Hp).
  assert (addr = "10.0.0.7" /\ port = 5201) as [-> ->] by (vm_compute in Ht; injection Ht as <- <- <-; split; reflexivity).
  exists st', acts, payload. split; [reflexivity|exact Hp].
Defined.
