(* ===== verification/NodeServer.v ===== *)
(** The listener for nodes that connect by themselves (src/edge/nodelink.ts):
    the upgrade and its limits, the challenge and its one answer, the route of
    a node and the session it belongs to, the refusal of delayed packets, the
    token buckets, the controls sent back and the grants for firmware
    downloads.

    The handlers are written in a state monad over the server that also reads
    what the world answers during the event ([Env]) and collects what the
    server does ([Action]); one event reads each clock once. The WebSocket
    objects are numbers; a packet handed to the ingest is an action, and its
    answers, [admit] and the result, are events. Milliseconds of the monotonic
    clock and the tokens are exact rationals. *)

From S2P Require Import Prelude Bytes Json Secure Protocol Ingest.

(** @edge/nodelink.ts 29-29 SUBPROTOCOL *)
Definition SUBPROTOCOL : string := "tmnode.v1".
(** @edge/nodelink.ts 30-30 DIRECT_VERSION *)
Definition DIRECT_VERSION : Z := 1.
(** @edge/nodelink.ts 31-31 PATH *)
Definition PATH : string := "/tmnode".
(** @edge/nodelink.ts 33-33 CONTROL_MAX *)
Definition CONTROL_MAX : nat := 512.
(** @edge/nodelink.ts 40-40 LAG_BUDGET_MS *)
Definition LAG_BUDGET_MS : Q := 2000.
(** @edge/nodelink.ts 42-42 DRIFT_ALLOWANCE *)
Definition DRIFT_ALLOWANCE : Q := 200 # 1000000.
(** @edge/nodelink.ts 44-44 MAX_BUFFERED *)
Definition MAX_BUFFERED : Z := 64 * 1024.
(** @edge/nodelink.ts 45-45 MAX_DOWNLOADS *)
Definition MAX_DOWNLOADS : Z := 4.
Definition MAX_SOURCES : nat := Z.to_nat 10000.
Definition MAX_REASONS : nat := 128.

(** @edge/nodelink.ts 48-57 CLOSE *)
Inductive CloseCode := BadMessage | AuthFailed | HandshakeTimeout | Replaced | RateLimited | SlowReader | Dead | Shutdown.
Definition close_code (c : CloseCode) : Z :=
  match c with
  | BadMessage => 4400 | AuthFailed => 4401 | HandshakeTimeout => 4408 | Replaced => 4409
  | RateLimited => 4429 | SlowReader => 4508 | Dead => 4504 | Shutdown => 1001
  end.

(** [createHash('sha256')] of node:crypto. *)
Class Sha := { sha256 : list Z -> list Z }.

(** [/^(127\.|::1$|::ffff:127\.)/]
    @edge/nodelink.ts 66-66 LOOPBACK *)
Definition is_loopback (peer : string) : bool :=
  starts_with "127." peer || bool_decide (peer = "::1") || starts_with "::ffff:127." peer.

(** ** State *)

(** @edge/config.ts 65-78 NodeListenerLimits *)
Record NodeListenerLimits := {
  maxSessions : nat; maxPending : nat; maxPendingPerSource : nat; upgradesPerMinute : nat;
  messagesPerSec : Z; bytesPerSec : Z; grantMs : Z }.

(** @edge/config.ts 80-90 DEFAULT_NODE_LIMITS *)
Definition DEFAULT_NODE_LIMITS : NodeListenerLimits :=
  {| maxSessions := 256; maxPending := 64; maxPendingPerSource := 8; upgradesPerMinute := 60;
     messagesPerSec := 40; bytesPerSec := 32768; grantMs := 600000 |}.

(** What the listener is given; what the site answers to a question is in [Env].
    @edge/nodelink.ts 68-91 NodeServerOptions *)
Record NodeServerOptions := {
  no_limits : NodeListenerLimits; no_keys : list (list Z); no_devices : option DeviceKeys; no_heartbeatMs : Z; no_deadMs : Z }.

Inductive SessionState := Challenged | Authenticated | Closed.
#[export] Instance SessionState_eq : EqDecision SessionState.
Proof. solve_decision. Defined.

(** The session as the ingest sees it; its callbacks are the events [EDownlink],
    [EGrant], [EAdmit].
    @edge/nodelink.ts 440-451 routeFor *)
Record NodeRoute := { nr_uid : string; nr_sessionId : string; nr_key : list Z; nr_secureId : option Z }.

(** @edge/nodelink.ts 93-119 Session *)
Record Session := {
  se_source : string; se_openedAt : Z; se_nonce : string; se_controlSalt : string; se_controlSeq : Z;
  se_device : option DeviceKey; se_state : SessionState; se_uid : option string; se_sessionId : string;
  se_keyIndex : Z; se_active : bool; se_lastHeard : Q; se_lastAcceptedAt : option Z; se_lastReportAt : option Z;
  se_accepted : Z; se_acks : Z; se_rejected : Z; se_lastRejection : option string;
  se_msgs : Q; se_bytes : Q; se_at_ : Q; se_drops : list Q; se_timer : bool; se_route : option NodeRoute;
  se_closeReason : option string }.

(** @edge/nodelink.ts 121-126 Grant *)
Record Grant := { g_uid : string; g_build : string; g_seq : Z; g_expires : Q }.

(** @edge/nodelink.ts 129-136 Baseline *)
Record Baseline := { bl_boot : Z; bl_wraps : Z; bl_lastUptime : Z; bl_offset : Q; bl_at : Q }.

(** @edge/nodelink.ts 153-157 DirectNodeHistory *)
Record DirectNodeHistory := { hi_connects : Z; hi_lastDisconnectAt : option Z; hi_lastDisconnectReason : option string }.

(** The sets keep their order; [heap] holds the session objects.
    @edge/nodelink.ts 162-179 NodeServer *)
Record Server := {
  ns_heap : gmap nat Session; ns_pending : list nat; ns_authed : list nat; ns_active : gmap string nat;
  ns_grants : gmap string Grant; ns_baselines : gmap string Baseline; ns_upgrades : gmap string (list Q);
  ns_history : gmap string DirectNodeHistory; ns_rejects : gmap string Z; ns_downloads : Z; ns_closing : bool }.

Definition new_server : Server :=
  {| ns_heap := ∅; ns_pending := []; ns_authed := []; ns_active := ∅; ns_grants := ∅; ns_baselines := ∅; ns_upgrades := ∅;
     ns_history := ∅; ns_rejects := ∅; ns_downloads := 0; ns_closing := false |}.

Definition with_heard (t : Q) (s : Session) : Session :=
  {| se_source := se_source s; se_openedAt := se_openedAt s; se_nonce := se_nonce s; se_controlSalt := se_controlSalt s;
     se_controlSeq := se_controlSeq s; se_device := se_device s; se_state := se_state s; se_uid := se_uid s;
     se_sessionId := se_sessionId s; se_keyIndex := se_keyIndex s; se_active := se_active s; se_lastHeard := t;
     se_lastAcceptedAt := se_lastAcceptedAt s; se_lastReportAt := se_lastReportAt s; se_accepted := se_accepted s;
     se_acks := se_acks s; se_rejected := se_rejected s; se_lastRejection := se_lastRejection s; se_msgs := se_msgs s;
     se_bytes := se_bytes s; se_at_ := se_at_ s; se_drops := se_drops s; se_timer := se_timer s; se_route := se_route s;
     se_closeReason := se_closeReason s |}.
Definition with_spent (s : Session) : Session :=
  {| se_source := se_source s; se_openedAt := se_openedAt s; se_nonce := EmptyString; se_controlSalt := se_nonce s;
     se_controlSeq := se_controlSeq s; se_device := se_device s; se_state := se_state s; se_uid := se_uid s;
     se_sessionId := se_sessionId s; se_keyIndex := se_keyIndex s; se_active := se_active s; se_lastHeard := se_lastHeard s;
     se_lastAcceptedAt := se_lastAcceptedAt s; se_lastReportAt := se_lastReportAt s; se_accepted := se_accepted s;
     se_acks := se_acks s; se_rejected := se_rejected s; se_lastRejection := se_lastRejection s; se_msgs := se_msgs s;
     se_bytes := se_bytes s; se_at_ := se_at_ s; se_drops := se_drops s; se_timer := se_timer s; se_route := se_route s;
     se_closeReason := se_closeReason s |}.
Definition with_device (d : option DeviceKey) (s : Session) : Session :=
  {| se_source := se_source s; se_openedAt := se_openedAt s; se_nonce := se_nonce s; se_controlSalt := se_controlSalt s;
     se_controlSeq := se_controlSeq s; se_device := d; se_state := se_state s; se_uid := se_uid s;
     se_sessionId := se_sessionId s; se_keyIndex := se_keyIndex s; se_active := se_active s; se_lastHeard := se_lastHeard s;
     se_lastAcceptedAt := se_lastAcceptedAt s; se_lastReportAt := se_lastReportAt s; se_accepted := se_accepted s;
     se_acks := se_acks s; se_rejected := se_rejected s; se_lastRejection := se_lastRejection s; se_msgs := se_msgs s;
     se_bytes := se_bytes s; se_at_ := se_at_ s; se_drops := se_drops s; se_timer := se_timer s; se_route := se_route s;
     se_closeReason := se_closeReason s |}.
Definition with_auth (uid : string) (i : Z) (r : NodeRoute) (s : Session) : Session :=
  {| se_source := se_source s; se_openedAt := se_openedAt s; se_nonce := se_nonce s; se_controlSalt := se_controlSalt s;
     se_controlSeq := se_controlSeq s; se_device := se_device s; se_state := Authenticated; se_uid := Some uid;
     se_sessionId := se_sessionId s; se_keyIndex := i; se_active := se_active s; se_lastHeard := se_lastHeard s;
     se_lastAcceptedAt := se_lastAcceptedAt s; se_lastReportAt := se_lastReportAt s; se_accepted := se_accepted s;
     se_acks := se_acks s; se_rejected := se_rejected s; se_lastRejection := se_lastRejection s; se_msgs := se_msgs s;
     se_bytes := se_bytes s; se_at_ := se_at_ s; se_drops := se_drops s; se_timer := false; se_route := Some r;
     se_closeReason := se_closeReason s |}.
Definition with_rejected (reason : string) (s : Session) : Session :=
  {| se_source := se_source s; se_openedAt := se_openedAt s; se_nonce := se_nonce s; se_controlSalt := se_controlSalt s;
     se_controlSeq := se_controlSeq s; se_device := se_device s; se_state := se_state s; se_uid := se_uid s;
     se_sessionId := se_sessionId s; se_keyIndex := se_keyIndex s; se_active := se_active s; se_lastHeard := se_lastHeard s;
     se_lastAcceptedAt := se_lastAcceptedAt s; se_lastReportAt := se_lastReportAt s; se_accepted := se_accepted s;
     se_acks := se_acks s; se_rejected := se_rejected s + 1; se_lastRejection := Some reason; se_msgs := se_msgs s;
     se_bytes := se_bytes s; se_at_ := se_at_ s; se_drops := se_drops s; se_timer := se_timer s; se_route := se_route s;
     se_closeReason := se_closeReason s |}.
Definition with_accepted (now : Z) (s : Session) : Session :=
  {| se_source := se_source s; se_openedAt := se_openedAt s; se_nonce := se_nonce s; se_controlSalt := se_controlSalt s;
     se_controlSeq := se_controlSeq s; se_device := se_device s; se_state := se_state s; se_uid := se_uid s;
     se_sessionId := se_sessionId s; se_keyIndex := se_keyIndex s; se_active := se_active s; se_lastHeard := se_lastHeard s;
     se_lastAcceptedAt := Some now; se_lastReportAt := se_lastReportAt s; se_accepted := se_accepted s + 1; se_acks := se_acks s;
     se_rejected := se_rejected s; se_lastRejection := se_lastRejection s; se_msgs := se_msgs s; se_bytes := se_bytes s;
     se_at_ := se_at_ s; se_drops := se_drops s; se_timer := se_timer s; se_route := se_route s;
     se_closeReason := se_closeReason s |}.
Definition with_active (s : Session) : Session :=
  {| se_source := se_source s; se_openedAt := se_openedAt s; se_nonce := se_nonce s; se_controlSalt := se_controlSalt s;
     se_controlSeq := se_controlSeq s; se_device := se_device s; se_state := se_state s; se_uid := se_uid s;
     se_sessionId := se_sessionId s; se_keyIndex := se_keyIndex s; se_active := true; se_lastHeard := se_lastHeard s;
     se_lastAcceptedAt := se_lastAcceptedAt s; se_lastReportAt := se_lastReportAt s; se_accepted := se_accepted s;
     se_acks := se_acks s; se_rejected := se_rejected s; se_lastRejection := se_lastRejection s; se_msgs := se_msgs s;
     se_bytes := se_bytes s; se_at_ := se_at_ s; se_drops := se_drops s; se_timer := se_timer s; se_route := se_route s;
     se_closeReason := se_closeReason s |}.
Definition with_report (s : Session) : Session :=
  {| se_source := se_source s; se_openedAt := se_openedAt s; se_nonce := se_nonce s; se_controlSalt := se_controlSalt s;
     se_controlSeq := se_controlSeq s; se_device := se_device s; se_state := se_state s; se_uid := se_uid s;
     se_sessionId := se_sessionId s; se_keyIndex := se_keyIndex s; se_active := se_active s; se_lastHeard := se_lastHeard s;
     se_lastAcceptedAt := se_lastAcceptedAt s; se_lastReportAt := se_lastAcceptedAt s; se_accepted := se_accepted s;
     se_acks := se_acks s; se_rejected := se_rejected s; se_lastRejection := se_lastRejection s; se_msgs := se_msgs s;
     se_bytes := se_bytes s; se_at_ := se_at_ s; se_drops := se_drops s; se_timer := se_timer s; se_route := se_route s;
     se_closeReason := se_closeReason s |}.
Definition with_ack (s : Session) : Session :=
  {| se_source := se_source s; se_openedAt := se_openedAt s; se_nonce := se_nonce s; se_controlSalt := se_controlSalt s;
     se_controlSeq := se_controlSeq s; se_device := se_device s; se_state := se_state s; se_uid := se_uid s;
     se_sessionId := se_sessionId s; se_keyIndex := se_keyIndex s; se_active := se_active s; se_lastHeard := se_lastHeard s;
     se_lastAcceptedAt := se_lastAcceptedAt s; se_lastReportAt := se_lastReportAt s; se_accepted := se_accepted s;
     se_acks := se_acks s + 1; se_rejected := se_rejected s; se_lastRejection := se_lastRejection s; se_msgs := se_msgs s;
     se_bytes := se_bytes s; se_at_ := se_at_ s; se_drops := se_drops s; se_timer := se_timer s; se_route := se_route s;
     se_closeReason := se_closeReason s |}.
Definition with_seq (s : Session) : Session :=
  {| se_source := se_source s; se_openedAt := se_openedAt s; se_nonce := se_nonce s; se_controlSalt := se_controlSalt s;
     se_controlSeq := se_controlSeq s + 1; se_device := se_device s; se_state := se_state s; se_uid := se_uid s;
     se_sessionId := se_sessionId s; se_keyIndex := se_keyIndex s; se_active := se_active s; se_lastHeard := se_lastHeard s;
     se_lastAcceptedAt := se_lastAcceptedAt s; se_lastReportAt := se_lastReportAt s; se_accepted := se_accepted s;
     se_acks := se_acks s; se_rejected := se_rejected s; se_lastRejection := se_lastRejection s; se_msgs := se_msgs s;
     se_bytes := se_bytes s; se_at_ := se_at_ s; se_drops := se_drops s; se_timer := se_timer s; se_route := se_route s;
     se_closeReason := se_closeReason s |}.
Definition with_tokens (m b t : Q) (s : Session) : Session :=
  {| se_source := se_source s; se_openedAt := se_openedAt s; se_nonce := se_nonce s; se_controlSalt := se_controlSalt s;
     se_controlSeq := se_controlSeq s; se_device := se_device s; se_state := se_state s; se_uid := se_uid s;
     se_sessionId := se_sessionId s; se_keyIndex := se_keyIndex s; se_active := se_active s; se_lastHeard := se_lastHeard s;
     se_lastAcceptedAt := se_lastAcceptedAt s; se_lastReportAt := se_lastReportAt s; se_accepted := se_accepted s;
     se_acks := se_acks s; se_rejected := se_rejected s; se_lastRejection := se_lastRejection s; se_msgs := m; se_bytes := b;
     se_at_ := t; se_drops := se_drops s; se_timer := se_timer s; se_route := se_route s; se_closeReason := se_closeReason s |}.
Definition with_drops (l : list Q) (s : Session) : Session :=
  {| se_source := se_source s; se_openedAt := se_openedAt s; se_nonce := se_nonce s; se_controlSalt := se_controlSalt s;
     se_controlSeq := se_controlSeq s; se_device := se_device s; se_state := se_state s; se_uid := se_uid s;
     se_sessionId := se_sessionId s; se_keyIndex := se_keyIndex s; se_active := se_active s; se_lastHeard := se_lastHeard s;
     se_lastAcceptedAt := se_lastAcceptedAt s; se_lastReportAt := se_lastReportAt s; se_accepted := se_accepted s;
     se_acks := se_acks s; se_rejected := se_rejected s; se_lastRejection := se_lastRejection s; se_msgs := se_msgs s;
     se_bytes := se_bytes s; se_at_ := se_at_ s; se_drops := l; se_timer := se_timer s; se_route := se_route s;
     se_closeReason := se_closeReason s |}.
Definition with_reason (reason : string) (s : Session) : Session :=
  {| se_source := se_source s; se_openedAt := se_openedAt s; se_nonce := se_nonce s; se_controlSalt := se_controlSalt s;
     se_controlSeq := se_controlSeq s; se_device := se_device s; se_state := se_state s; se_uid := se_uid s;
     se_sessionId := se_sessionId s; se_keyIndex := se_keyIndex s; se_active := se_active s; se_lastHeard := se_lastHeard s;
     se_lastAcceptedAt := se_lastAcceptedAt s; se_lastReportAt := se_lastReportAt s; se_accepted := se_accepted s;
     se_acks := se_acks s; se_rejected := se_rejected s; se_lastRejection := se_lastRejection s; se_msgs := se_msgs s;
     se_bytes := se_bytes s; se_at_ := se_at_ s; se_drops := se_drops s; se_timer := se_timer s; se_route := se_route s;
     se_closeReason := Some (default reason (se_closeReason s)) |}.
Definition with_closed (s : Session) : Session :=
  {| se_source := se_source s; se_openedAt := se_openedAt s; se_nonce := se_nonce s; se_controlSalt := se_controlSalt s;
     se_controlSeq := se_controlSeq s; se_device := se_device s; se_state := Closed; se_uid := se_uid s;
     se_sessionId := se_sessionId s; se_keyIndex := se_keyIndex s; se_active := se_active s; se_lastHeard := se_lastHeard s;
     se_lastAcceptedAt := se_lastAcceptedAt s; se_lastReportAt := se_lastReportAt s; se_accepted := se_accepted s;
     se_acks := se_acks s; se_rejected := se_rejected s; se_lastRejection := se_lastRejection s; se_msgs := se_msgs s;
     se_bytes := se_bytes s; se_at_ := se_at_ s; se_drops := se_drops s; se_timer := false; se_route := se_route s;
     se_closeReason := se_closeReason s |}.
Definition set_heap (h : gmap nat Session) (st : Server) : Server :=
  {| ns_heap := h; ns_pending := ns_pending st; ns_authed := ns_authed st; ns_active := ns_active st; ns_grants := ns_grants st;
     ns_baselines := ns_baselines st; ns_upgrades := ns_upgrades st; ns_history := ns_history st; ns_rejects := ns_rejects st;
     ns_downloads := ns_downloads st; ns_closing := ns_closing st |}.
Definition set_pending (l : list nat) (st : Server) : Server :=
  {| ns_heap := ns_heap st; ns_pending := l; ns_authed := ns_authed st; ns_active := ns_active st; ns_grants := ns_grants st;
     ns_baselines := ns_baselines st; ns_upgrades := ns_upgrades st; ns_history := ns_history st; ns_rejects := ns_rejects st;
     ns_downloads := ns_downloads st; ns_closing := ns_closing st |}.
Definition set_authed (l : list nat) (st : Server) : Server :=
  {| ns_heap := ns_heap st; ns_pending := ns_pending st; ns_authed := l; ns_active := ns_active st; ns_grants := ns_grants st;
     ns_baselines := ns_baselines st; ns_upgrades := ns_upgrades st; ns_history := ns_history st; ns_rejects := ns_rejects st;
     ns_downloads := ns_downloads st; ns_closing := ns_closing st |}.
Definition set_active (m : gmap string nat) (st : Server) : Server :=
  {| ns_heap := ns_heap st; ns_pending := ns_pending st; ns_authed := ns_authed st; ns_active := m; ns_grants := ns_grants st;
     ns_baselines := ns_baselines st; ns_upgrades := ns_upgrades st; ns_history := ns_history st; ns_rejects := ns_rejects st;
     ns_downloads := ns_downloads st; ns_closing := ns_closing st |}.
Definition set_grants (m : gmap string Grant) (st : Server) : Server :=
  {| ns_heap := ns_heap st; ns_pending := ns_pending st; ns_authed := ns_authed st; ns_active := ns_active st; ns_grants := m;
     ns_baselines := ns_baselines st; ns_upgrades := ns_upgrades st; ns_history := ns_history st; ns_rejects := ns_rejects st;
     ns_downloads := ns_downloads st; ns_closing := ns_closing st |}.
Definition set_baselines (m : gmap string Baseline) (st : Server) : Server :=
  {| ns_heap := ns_heap st; ns_pending := ns_pending st; ns_authed := ns_authed st; ns_active := ns_active st;
     ns_grants := ns_grants st; ns_baselines := m; ns_upgrades := ns_upgrades st; ns_history := ns_history st;
     ns_rejects := ns_rejects st; ns_downloads := ns_downloads st; ns_closing := ns_closing st |}.
Definition set_upgrades (m : gmap string (list Q)) (st : Server) : Server :=
  {| ns_heap := ns_heap st; ns_pending := ns_pending st; ns_authed := ns_authed st; ns_active := ns_active st;
     ns_grants := ns_grants st; ns_baselines := ns_baselines st; ns_upgrades := m; ns_history := ns_history st;
     ns_rejects := ns_rejects st; ns_downloads := ns_downloads st; ns_closing := ns_closing st |}.
Definition set_history (m : gmap string DirectNodeHistory) (st : Server) : Server :=
  {| ns_heap := ns_heap st; ns_pending := ns_pending st; ns_authed := ns_authed st; ns_active := ns_active st;
     ns_grants := ns_grants st; ns_baselines := ns_baselines st; ns_upgrades := ns_upgrades st; ns_history := m;
     ns_rejects := ns_rejects st; ns_downloads := ns_downloads st; ns_closing := ns_closing st |}.
Definition set_rejects (m : gmap string Z) (st : Server) : Server :=
  {| ns_heap := ns_heap st; ns_pending := ns_pending st; ns_authed := ns_authed st; ns_active := ns_active st;
     ns_grants := ns_grants st; ns_baselines := ns_baselines st; ns_upgrades := ns_upgrades st; ns_history := ns_history st;
     ns_rejects := m; ns_downloads := ns_downloads st; ns_closing := ns_closing st |}.
Definition set_downloads (n : Z) (st : Server) : Server :=
  {| ns_heap := ns_heap st; ns_pending := ns_pending st; ns_authed := ns_authed st; ns_active := ns_active st;
     ns_grants := ns_grants st; ns_baselines := ns_baselines st; ns_upgrades := ns_upgrades st; ns_history := ns_history st;
     ns_rejects := ns_rejects st; ns_downloads := n; ns_closing := ns_closing st |}.
Definition set_closing (st : Server) : Server :=
  {| ns_heap := ns_heap st; ns_pending := ns_pending st; ns_authed := ns_authed st; ns_active := ns_active st;
     ns_grants := ns_grants st; ns_baselines := ns_baselines st; ns_upgrades := ns_upgrades st; ns_history := ns_history st;
     ns_rejects := ns_rejects st; ns_downloads := ns_downloads st; ns_closing := true |}.

(** What is read for a WebSocket that never was one. *)
Definition no_session : Session :=
  {| se_source := EmptyString; se_openedAt := 0; se_nonce := EmptyString; se_controlSalt := EmptyString; se_controlSeq := 0;
     se_device := None; se_state := Closed; se_uid := None; se_sessionId := EmptyString; se_keyIndex := -1; se_active := false;
     se_lastHeard := 0; se_lastAcceptedAt := None; se_lastReportAt := None; se_accepted := 0; se_acks := 0; se_rejected := 0;
     se_lastRejection := None; se_msgs := 0; se_bytes := 0; se_at_ := 0; se_drops := []; se_timer := false; se_route := None;
     se_closeReason := None |}.
Definition sess (st : Server) (s : nat) : Session := default no_session (ns_heap st !! s).

(** ** The monad *)

Inductive ReadyState := CONNECTING | OPEN | CLOSING | CLOSED.
Definition is_open (r : ReadyState) : bool := match r with OPEN => true | _ => false end.
Definition is_connecting (r : ReadyState) : bool := match r with CONNECTING => true | _ => false end.

(** What the world answers during one event: the clocks, the sockets, the
    site, and the random bytes it draws. *)
Record Env := {
  ev_now : Z; ev_mono : Q; ev_ready : nat -> ReadyState; ev_buffered : nat -> Z;
  ev_registered : string -> bool; ev_approved : string -> string -> bool; ev_image : string -> option (list Z);
  ev_nonce : list Z; ev_id : string; ev_token : list Z; ev_epoch : list Z }.

(** The controls a node is sent. *)
Inductive Control :=
| Challenge (nonce : string)
| Ready (uid session : string)
| Ack (session : string) (boot seq : Z)
| OtaGrant (seq : Z) (build token : string).

Inductive Action :=
| AControl (ws : nat) (msg : Control) (wire : list Z)
| ASend (ws : nat) (datagram : list Z)
| AClose (ws : nat) (code : CloseCode) (told : string)
| ATerminate (ws : nat)
| APing (ws : nat)
| ADropRoute (uid sessionId : string)
| AIngest (ws : nat) (data : list Z) (address : string)
| AAnswer (uid : string) (boot uptimeMs : Z) (at_ : Q) (reason : option string)
| ARefuse (status : Z)
| AHttp (status : Z)
| ADownload (uid build : string) (bytes : list Z)
| AThrow (error : string).

Definition M (A : Type) : Type := Env -> Server -> A * Server * list Action.
#[export] Instance M_ret : MRet M := fun A x _ st => (x, st, []).
#[export] Instance M_bind : MBind M := fun A B k m env st =>
  let '(x, st1, a) := m env st in let '(y, st2, b) := k x env st1 in (y, st2, a ++ b).

Definition ask : M Env := fun env st => (env, st, []).
Definition get : M Server := fun _ st => (st, st, []).
Definition modify (f : Server -> Server) : M unit := fun _ st => (tt, f st, []).
Definition emit (a : Action) : M unit := fun _ st => (tt, st, [a]).
Definition session (s : nat) : M Session := fun _ st => (sess st s, st, []).
Definition upd (s : nat) (f : Session -> Session) (st : Server) : Server := set_heap (<[s := f (sess st s)]> (ns_heap st)) st.
Definition update (s : nat) (f : Session -> Session) : M unit := modify (upd s f).
Fixpoint each (f : nat -> M unit) (l : list nat) : M unit :=
  match l with [] => mret tt | s :: l' => f s ;; each f l' end.

Definition without (s : nat) (l : list nat) : list nat := List.filter (fun x => negb (Nat.eqb x s)) l.

Section server.
Context {C : Crypto} {J : JsonText} {H : Sha}.
Context (cfg : NodeServerOptions).

(** ** Closing a session *)

(** @edge/nodelink.ts 632-636 count *)
Definition count (reason : string) : M unit :=
  modify (fun st =>
    let key := if bool_decide (is_Some (ns_rejects st !! reason)) || Nat.ltb (size (ns_rejects st)) MAX_REASONS then reason else "other" in
    set_rejects (<[key := default 0 (ns_rejects st !! key) + 1]> (ns_rejects st)) st).

(** The second half: the route goes only if it is still this session's.
    @edge/nodelink.ts 617-629 closed *)
Definition closed_node (s : nat) (uid : string) (code : Z) : M unit :=
  env ← ask; se ← session s; st ← get;
  modify (fun st => set_history (alter (fun h =>
    {| hi_connects := hi_connects h; hi_lastDisconnectAt := Some (ev_now env);
       hi_lastDisconnectReason := Some (default ("node closed (" +:+ show code +:+ ")") (se_closeReason se)) |}) uid (ns_history st)) st) ;;
  if bool_decide (ns_active st !! uid = Some s) then
    modify (fun st => set_active (delete uid (ns_active st)) st) ;;
    emit (ADropRoute uid (se_sessionId se))
  else mret tt.

(** @edge/nodelink.ts 611-630 closed *)
Definition closed (s : nat) (code : Z) : M unit :=
  se ← session s;
  if bool_decide (se_state se = Closed) then mret tt
  else
    update s with_closed ;;
    modify (fun st => set_authed (without s (ns_authed st)) (set_pending (without s (ns_pending st)) st)) ;;
    match se_uid se with None => mret tt | Some uid => closed_node s uid code end.

(** @edge/nodelink.ts 604-609 fail *)
Definition fail_told (s : nat) (code : CloseCode) (reason told : string) : M unit :=
  count reason ;;
  update s (with_reason reason) ;;
  env ← ask;
  (if is_open (ev_ready env s) || is_connecting (ev_ready env s) then emit (AClose s code (String.substring 0 120 told)) else mret tt) ;;
  closed s (close_code code).
Definition fail (s : nat) (code : CloseCode) (reason : string) : M unit := fail_told s code reason reason.

(** ** Controls *)

(** @edge/nodelink.ts 371-371 open *)
Definition control_json (msg : Control) : json :=
  match msg with
  | Challenge nonce => JObj [("type", JStr "challenge"); ("v", JInt DIRECT_VERSION); ("nonce", JStr nonce)]
  | Ready uid session => JObj [("type", JStr "ready"); ("v", JInt DIRECT_VERSION); ("uid", JStr uid); ("session", JStr session);
                               ("heartbeatMs", JInt (no_heartbeatMs cfg))]
  | Ack session boot seq => JObj [("type", JStr "ack"); ("v", JInt DIRECT_VERSION); ("session", JStr session); ("boot", JInt boot); ("seq", JInt seq)]
  | OtaGrant seq build token => JObj [("type", JStr "ota_grant"); ("v", JInt DIRECT_VERSION); ("seq", JInt seq); ("build", JStr build);
                                      ("token", JStr token); ("expiresInMs", JInt (grantMs (no_limits cfg)))]
  end.

(** @edge/nodelink.ts 559-562 control *)
Definition seal_control (se : Session) (d : DeviceKey) (uid : string) (epoch text : list Z) : result string (list Z) :=
  let! root := deriveKey (dk_master d) uid (dk_id d) "control" (from_hex (se_controlSalt se)) in
  let! key := deriveKey root uid (dk_id d) "control-message" epoch in
  encryptPayload {| sh_type := TYPE_CONTROL; sh_uid := uid; sh_boot := 0; sh_seq := se_controlSeq se + 1; sh_uptimeMs := 0;
                    sh_keyId := dk_id d; sh_epoch := epoch |} text key epoch.

Definition device_known (now : Z) (uid : string) (id : Z) : bool :=
  match no_devices cfg with Some ds => bool_decide (is_Some (find_key now ds uid id)) | None => false end.

(** A derivation that throws leaves through the handler: the error is an action
    and the answer is that nothing was sent.
    @edge/nodelink.ts 548-567 control *)
Definition control (s : nat) (msg : Control) : M bool :=
  env ← ask; se ← session s;
  let text := json_text (control_json msg) in
  let fits n := ev_buffered env s + Z.of_nat n <=? MAX_BUFFERED in
  if Nat.ltb CONTROL_MAX (length text) || negb (is_open (ev_ready env s)) then mret false
  else if negb (fits (length text)) then fail s SlowReader "slow reader" ;; mret false
  else
    match se_device se, se_uid se with
    | Some d, Some uid =>
        if (2 ^ 32 - 1 <=? se_controlSeq se) || negb (device_known (ev_now env) uid (dk_id d)) then mret false
        else
          update s with_seq ;;
          match seal_control se d uid (ev_epoch env) text with
          | Err e => emit (AThrow e) ;; mret false
          | Ok packet =>
              if negb (fits (length packet)) then fail s SlowReader "slow reader" ;; mret false
              else emit (AControl s msg packet) ;; mret true
          end
    | _, _ => emit (AControl s msg text) ;; mret true
    end.

(** ** Opening *)

(** @edge/nodelink.ts 355-372 open *)
Definition open (s : nat) (source : string) : M unit :=
  env ← ask;
  let t := ev_mono env in
  let lim := no_limits cfg in
  modify (fun st => set_pending (ns_pending st ++ [s]) (set_heap (<[s :=
    {| se_source := source; se_openedAt := ev_now env; se_nonce := to_hex (ev_nonce env); se_controlSalt := EmptyString;
       se_controlSeq := 0; se_device := None; se_state := Challenged; se_uid := None; se_sessionId := ev_id env; se_keyIndex := -1;
       se_active := false; se_lastHeard := t; se_lastAcceptedAt := None; se_lastReportAt := None; se_accepted := 0; se_acks := 0;
       se_rejected := 0; se_lastRejection := None; se_msgs := inject_Z (messagesPerSec lim * 2); se_bytes := inject_Z (bytesPerSec lim * 2);
       se_at_ := t; se_drops := []; se_timer := true; se_route := None; se_closeReason := None |}]> (ns_heap st)) st)) ;;
  control s (Challenge (to_hex (ev_nonce env))) ;;
  mret tt.

(** @edge/nodelink.ts 324-327 refuse *)
Definition refuse (status : Z) (reason : string) : M unit := count ("upgrade: " +:+ reason) ;; emit (ARefuse status).

(** @edge/nodelink.ts 318-322 sourceOf *)
Definition sourceOf (peer : string) (cf : option string) : string :=
  match cf with Some a => if is_loopback peer && (js_length a <? 64) then a else peer | None => peer end.

(** The upgrades of a source in the last minute.
    @edge/nodelink.ts 338-338 upgrade *)
Definition recent_upgrades (t : Q) (source : string) (st : Server) : list Q :=
  List.filter (fun x => Qltb (t - x) 60000) (default [] (ns_upgrades st !! source)).

(** @edge/nodelink.ts 342-342 upgrade *)
Definition purge_upgrades (t : Q) (m : gmap string (list Q)) : gmap string (list Q) :=
  filter (fun p => Qle_bool 60000 (t - default 0%Q (last p.2)) = false) m.

(** [ws] is the WebSocket the handshake made, none if it did not complete.
    @edge/nodelink.ts 345-353 upgrade *)
Definition upgrade_counted (source : string) (recent : list Q) (t : Q) (ws : option nat) : M unit :=
  let lim := no_limits cfg in
  modify (fun st => set_upgrades (<[source := recent ++ [t]]> (ns_upgrades st)) st) ;;
  st ← get;
  if Nat.leb (maxPending lim) (length (ns_pending st)) then refuse 503 "too many handshakes"
  else if Nat.leb (maxPendingPerSource lim) (length (List.filter (fun s => bool_decide (se_source (sess st s) = source)) (ns_pending st)))
  then refuse 429 "too many handshakes from one source"
  else if Nat.leb (maxSessions lim) (length (ns_authed st)) then refuse 503 "session table full"
  else match ws with Some s => open s source | None => mret tt end.

(** @edge/nodelink.ts 336-353 upgrade *)
Definition upgrade_source (source : string) (ws : option nat) : M unit :=
  env ← ask; st ← get;
  let t := ev_mono env in
  let recent := recent_upgrades t source st in
  if Nat.leb (upgradesPerMinute (no_limits cfg)) (length recent) then refuse 429 "too many upgrades from one source"
  else if negb (bool_decide (is_Some (ns_upgrades st !! source))) && Nat.leb MAX_SOURCES (size (ns_upgrades st)) then
    modify (fun st => set_upgrades (purge_upgrades t (ns_upgrades st)) st) ;;
    st ← get;
    if Nat.leb MAX_SOURCES (size (ns_upgrades st)) then refuse 503 "upgrade table full"
    else upgrade_counted source recent t ws
  else upgrade_counted source recent t ws.

(** A URL is its path name and its search part.
    @edge/nodelink.ts 329-353 upgrade *)
Definition upgrade (url : option (string * string)) (protocols peer : string) (cf : option string) (ws : option nat) : M unit :=
  match url with
  | None => refuse 400 "malformed target"
  | Some (pathname, search) =>
      if negb (bool_decide (pathname = PATH)) || negb (bool_decide (search = EmptyString)) then refuse 404 "wrong path"
      else if negb (includes SUBPROTOCOL (map js_trim (split_on (Ascii.ascii_of_N 44) protocols))) then refuse 400 "unsupported subprotocol"
      else upgrade_source (sourceOf peer cf) ws
  end.

(** ** Authentication *)

(** @edge/nodelink.ts 60-62 authMac *)
Definition authMac (key : list Z) (uid nonce : string) : string :=
  to_hex (hmac_sha256 key (bytes_of_string ("tmnode1|" +:+ uid +:+ "|" +:+ nonce))).

(** @edge/nodelink.ts 387-400 authenticate *)
Definition parse_auth (data : list Z) : result string (string * string * string) :=
  match json_parse data ≫= as_object with
  | None => Err "auth is not JSON"
  | Some m =>
      match field "uid" m ≫= as_string, field "nonce" m ≫= as_string, field "mac" m ≫= as_string with
      | Some uid, Some nonce, Some mac =>
          throw_if negb (bool_decide (field "type" m ≫= as_string = Some "auth"))
            || negb (bool_decide (field "v" m ≫= as_integer = Some DIRECT_VERSION))
            || negb (is_uid uid) || negb (is_hex64 nonce) || negb (is_hex64 mac) || negb (Nat.eqb (length m) 5) with "malformed auth" in
          Ok (uid, nonce, mac)
      | _, _, _ => Err "malformed auth"
      end
  end.

Definition devices_of (now : Z) (uid : string) : list DeviceKey :=
  match no_devices cfg with Some ds => device_keys now ds uid | None => [] end.

(** @edge/nodelink.ts 408-410 authenticate *)
Definition auth_keys (now : Z) (uid : string) : result string (list (list Z)) :=
  match devices_of now uid with
  | [] => Ok (if match no_devices cfg with Some ds => allowsLegacy ds uid | None => true end then no_keys cfg else [])
  | devices => rmap (fun d => deriveKey (dk_master d) uid (dk_id d) "auth" (replicate 32 0)) devices
  end.

(** @edge/nodelink.ts 411-413 authenticate *)
Fixpoint key_index (i : Z) (uid expected : string) (got : list Z) (keys : list (list Z)) : option (Z * list Z) :=
  match keys with
  | [] => None
  | k :: keys' => if bool_decide (got = from_hex (authMac k uid expected)) then Some (i, k) else key_index (i + 1) uid expected got keys'
  end.

(** @edge/nodelink.ts 425-437 authenticate *)
Definition accept_auth (s : nat) (uid : string) (i : Z) (key : list Z) : M unit :=
  se ← session s;
  update s (with_auth uid i {| nr_uid := uid; nr_sessionId := se_sessionId se; nr_key := key; nr_secureId := dk_id <$> se_device se |}) ;;
  modify (fun st => set_authed (ns_authed st ++ [s]) (set_pending (without s (ns_pending st)) st)) ;;
  modify (fun st => set_history (<[uid :=
    match ns_history st !! uid with
    | Some h => {| hi_connects := hi_connects h + 1; hi_lastDisconnectAt := hi_lastDisconnectAt h; hi_lastDisconnectReason := hi_lastDisconnectReason h |}
    | None => {| hi_connects := 1; hi_lastDisconnectAt := None; hi_lastDisconnectReason := None |}
    end]> (ns_history st)) st) ;;
  control s (Ready uid (se_sessionId se)) ;;
  mret tt.

(** @edge/nodelink.ts 386-438 authenticate *)
Definition authenticate (s : nat) (data : list Z) : M unit :=
  match parse_auth data with
  | Err reason => fail s BadMessage reason
  | Ok (uid, nonce, mac) =>
      env ← ask; se ← session s; st ← get;
      let expected := se_nonce se in
      update s with_spent ;;
      match auth_keys (ev_now env) uid with
      | Err e => emit (AThrow e)
      | Ok keys =>
          let found := key_index 0 uid expected (from_hex mac) keys in
          let refuse_auth why := fail_told s AuthFailed ("auth: " +:+ why) "authentication failed" in
          if negb (bool_decide (nonce = expected)) then refuse_auth "wrong nonce"
          else
            match found with
            | None => refuse_auth "bad mac"
            | Some (i, key) =>
                if negb (ev_registered env uid) then refuse_auth "unregistered node"
                else
                  update s (with_device (devices_of (ev_now env) uid !! Z.to_nat i)) ;;
                  if Nat.leb (maxSessions (no_limits cfg)) (length (ns_authed st)) then fail s AuthFailed "session table full"
                  else accept_auth s uid i key
            end
      end
  end.

(** ** Packets *)

(** @edge/nodelink.ts 453-461 packet *)
Definition packet (s : nat) (data : list Z) : M unit :=
  se ← session s;
  match se_route se with
  | None => mret tt
  | Some r => emit (AIngest s data ("ws:" +:+ nr_uid r +:+ ":" +:+ se_sessionId se))
  end.

(** A message that comes too fast is dropped; a hundred of them in ten seconds
    close the session.
    @edge/nodelink.ts 582-588 withinRate *)
Definition over_rate (s : nat) (t : Q) : M unit :=
  update s (with_rejected "rate limited") ;;
  count "rate limited" ;;
  se ← session s;
  let drops := List.filter (fun x => Qltb (t - x) 10000) (se_drops se) ++ [t] in
  update s (with_drops drops) ;;
  if Nat.ltb 100 (length drops) then fail s RateLimited "sustained rate limit" else mret tt.

Definition refill (rate : Z) (tokens dt : Q) : Q := Qmin' (inject_Z (rate * 2)) (tokens + dt * inject_Z rate).

(** @edge/nodelink.ts 570-589 withinRate *)
Definition withinRate (s : nat) (bytes : Z) : M bool :=
  env ← ask; se ← session s;
  let lim := no_limits cfg in
  let t := ev_mono env in
  let dt := (Qmax' 0 (t - se_at_ se) / 1000)%Q in
  let msgs := refill (messagesPerSec lim) (se_msgs se) dt in
  let bs := refill (bytesPerSec lim) (se_bytes se) dt in
  if Qle_bool 1 msgs && Qle_bool (inject_Z bytes) bs then
    update s (with_tokens (msgs - 1)%Q (bs - inject_Z bytes)%Q t) ;; mret true
  else
    update s (with_tokens msgs bs t) ;; over_rate s t ;; mret false.

(** @edge/nodelink.ts 374-384 message *)
Definition message (s : nat) (data : list Z) (isBinary : bool) : M unit :=
  env ← ask; se ← session s;
  match se_state se with
  | Closed => mret tt
  | Challenged =>
      update s (with_heard (ev_mono env)) ;;
      if isBinary || Nat.ltb CONTROL_MAX (length data) then fail s BadMessage "auth expected" else authenticate s data
  | Authenticated =>
      update s (with_heard (ev_mono env)) ;;
      if negb isBinary then fail s BadMessage "unexpected control message"
      else
        ok ← withinRate s (Z.of_nat (length data));
        if ok : bool then packet s data else mret tt
  end.

(** @edge/nodelink.ts 484-490 activate *)
Definition activate (s : nat) (uid : string) : M unit :=
  st ← get;
  update s with_active ;;
  modify (fun st => set_active (<[uid := s]> (ns_active st)) st) ;;
  match ns_active st !! uid with
  | Some old => if Nat.eqb old s then mret tt else fail old Replaced "replaced by a newer session"
  | None => mret tt
  end.

Definition is_report (p : Packet) : bool := match p_body p with BReport _ => true | _ => false end.
Definition is_status (p : Packet) : bool := match p_body p with BStatus _ => true | _ => false end.

(** @edge/nodelink.ts 473-480 packetResult *)
Definition acknowledge (s : nat) (p : Packet) : M unit :=
  (if is_report p then update s with_report else mret tt) ;;
  if is_report p || is_status p then
    se ← session s;
    sent ← control s (Ack (se_sessionId se) (h_boot (p_header p)) (h_seq (p_header p)));
    if sent : bool then update s with_ack else mret tt
  else mret tt.

(** @edge/nodelink.ts 463-481 packetResult *)
Definition packetResult (s : nat) (result : IngestResult) : M unit :=
  env ← ask; se ← session s;
  if negb (bool_decide (se_state se = Authenticated)) then mret tt
  else
    match result with
    | Rejected _ reason => update s (with_rejected reason)
    | Accepted p _ _ =>
        update s (with_accepted (ev_now env)) ;;
        (if se_active se then mret tt else activate s (default EmptyString (se_uid se))) ;;
        acknowledge s p
    end.

(** ** Delayed packets *)

(** The answer to a packet of boot [boot] at uptime [uptime], and the baseline
    after it.
    @edge/nodelink.ts 500-519 admit *)
Definition judge (b : option Baseline) (t : Q) (boot uptime : Z) : option string * Baseline :=
  let fresh := {| bl_boot := boot; bl_wraps := 0; bl_lastUptime := uptime; bl_offset := t - inject_Z uptime; bl_at := t |} in
  match b with
  | None => (None, fresh)
  | Some b =>
      if negb (bl_boot b =? boot) then (None, fresh)
      else
        let wraps := if (uptime <? bl_lastUptime b) && (2 ^ 31 <? bl_lastUptime b - uptime) then bl_wraps b + 1 else bl_wraps b in
        let offset := (t - inject_Z (wraps * 2 ^ 32 + uptime))%Q in
        let lag := (offset - bl_offset b)%Q in
        if Qltb LAG_BUDGET_MS lag then (Some ("delayed " +:+ show (js_round lag) +:+ " ms beyond this boot's fastest delivery"), b)
        else
          (None, {| bl_boot := boot; bl_wraps := wraps; bl_lastUptime := uptime;
                    bl_offset := if Qltb lag 0 then offset else (bl_offset b + Qmin' lag ((t - bl_at b) * DRIFT_ALLOWANCE))%Q;
                    bl_at := t |})
  end.

(** @edge/nodelink.ts 498-520 admit *)
Definition admit_packet (s : nat) (p : Packet) : M (option string) :=
  env ← ask; se ← session s; st ← get;
  if negb (bool_decide (se_state se = Authenticated)) then mret (Some "session closed")
  else
    let h := p_header p in
    let '(reason, b) := judge (ns_baselines st !! h_uid h) (ev_mono env) (h_boot h) (h_uptimeMs h) in
    modify (fun st => set_baselines (<[h_uid h := b]> (ns_baselines st)) st) ;;
    emit (AAnswer (h_uid h) (h_boot h) (h_uptimeMs h) (ev_mono env) reason) ;;
    mret reason.

(** ** The way back *)

(** @edge/nodelink.ts 522-530 downlink *)
Definition downlink (s : nat) (datagram : list Z) : M bool :=
  env ← ask; se ← session s;
  if negb (bool_decide (se_state se = Authenticated)) || negb (is_open (ev_ready env s)) then mret false
  else if MAX_BUFFERED <? ev_buffered env s + Z.of_nat (length datagram) then fail s SlowReader "slow reader" ;; mret false
  else emit (ASend s datagram) ;; mret true.

(** @edge/nodelink.ts 644-646 tokenId *)
Definition tokenId (token : string) : string := to_hex (sha256 (bytes_of_string token)).

(** @edge/nodelink.ts 544-546 revokeGrants *)
Definition revokeGrants (uid : string) : M unit :=
  modify (fun st => set_grants (filter (fun p => g_uid p.2 <> uid) (ns_grants st)) st).

(** @edge/nodelink.ts 532-541 grant *)
Definition grant (s : nat) (seq : Z) (build : string) : M bool :=
  env ← ask; se ← session s;
  match se_uid se with
  | None => mret false
  | Some uid =>
      if negb (ev_approved env uid build) then mret false
      else
        revokeGrants uid ;;
        let token := to_hex (ev_token env) in
        modify (fun st => set_grants (<[tokenId token := {| g_uid := uid; g_build := build; g_seq := seq;
                                                            g_expires := ev_mono env + inject_Z (grantMs (no_limits cfg)) |}]> (ns_grants st)) st) ;;
        control s (OtaGrant seq build token)
  end.

(** [/^Bearer ([0-9a-f]{64})$/] *)
Definition bearer (authorization : string) : option string :=
  let token := String.substring 7 (String.length authorization - 7) authorization in
  if starts_with "Bearer " authorization && is_hex64 token then Some token else None.

(** @edge/nodelink.ts 282-313 download *)
Definition download (build authorization : string) : M unit :=
  env ← ask; st ← get;
  match bearer authorization ≫= (fun token => ns_grants st !! tokenId token) with
  | None => count "download: no valid grant" ;; emit (AHttp 401)
  | Some g =>
      if Qle_bool (g_expires g) (ev_mono env) || negb (bool_decide (g_build g = build)) then
        count "download: no valid grant" ;; emit (AHttp 401)
      else if negb (ev_approved env (g_uid g) build) then count "download: rollout no longer wants it" ;; emit (AHttp 403)
      else
        match ev_image env build with
        | None => emit (AHttp 404)
        | Some bytes =>
            if MAX_DOWNLOADS <=? ns_downloads st then emit (AHttp 503)
            else modify (fun st => set_downloads (ns_downloads st + 1) st) ;; emit (ADownload (g_uid g) build bytes)
        end
  end.

(** [/^\/fw\/([0-9a-f]{16})\.bin$/] *)
Definition firmware_path (pathname : string) : option string :=
  let id := String.substring 4 16 pathname in
  if bool_decide (pathname = "/fw/" +:+ id +:+ ".bin") && Nat.eqb (String.length id) 16 && forallb is_hex_lower (chars id) then Some id else None.

(** @edge/nodelink.ts 261-280 http *)
Definition http (url : option (string * string)) (method authorization : string) : M unit :=
  match url with
  | None => emit (AHttp 400)
  | Some (pathname, search) =>
      if bool_decide (pathname = "/healthz") && bool_decide (method = "GET") then emit (AHttp 200)
      else
        match firmware_path pathname with
        | Some build =>
            if negb (bool_decide (search = EmptyString)) then emit (AHttp 404)
            else if negb (bool_decide (method = "GET")) then emit (AHttp 405)
            else download build authorization
        | None => emit (AHttp 404)
        end
  end.

(** ** The heartbeat and the shutdown *)

(** @edge/nodelink.ts 594-601 beat *)
Definition beat_session (s : nat) : M unit :=
  env ← ask; se ← session s;
  if Qltb (inject_Z (no_deadMs cfg)) (ev_mono env - se_lastHeard se) then
    fail s Dead "no response" ;; emit (ATerminate s)
  else if is_open (ev_ready env s) then emit (APing s) else mret tt.

(** @edge/nodelink.ts 591-602 beat *)
Definition beat : M unit :=
  env ← ask;
  modify (fun st => set_grants (filter (fun p => Qle_bool (g_expires p.2) (ev_mono env) = false) (ns_grants st)) st) ;;
  st ← get;
  each beat_session (ns_authed st).

(** @edge/nodelink.ts 216-228 close *)
Definition close : M unit :=
  st ← get;
  if ns_closing st then mret tt
  else modify set_closing ;; each (fun s => emit (AClose s Shutdown "edge shutting down")) (ns_pending st ++ ns_authed st).

(** ** Events *)

(** What can happen: a request, the end of a download, an upgrade with the
    WebSocket it makes, what that WebSocket does, the handshake timer, the
    callbacks of the ingest, the heartbeat and the shutdown. *)
Inductive Event :=
| EHttp (url : option (string * string)) (method authorization : string)
| EDownloadEnd
| EUpgrade (url : option (string * string)) (protocols peer : string) (cf : option string) (ws : option nat)
| EMessage (ws : nat) (data : list Z) (isBinary : bool)
| EPong (ws : nat)
| EClosed (ws : nat) (code : Z)
| ETimeout (ws : nat)
| EAdmit (ws : nat) (p : Packet)
| EResult (ws : nat) (result : IngestResult)
| EIngestFailed (ws : nat)
| EDownlink (ws : nat) (datagram : list Z)
| EGrant (ws : nat) (seq : Z) (build : string)
| ERevoke (uid : string)
| EBeat
| EShutdown.

Definition about (e : Event) : option nat :=
  match e with
  | EMessage s _ _ | EPong s | EClosed s _ | ETimeout s | EAdmit s _ | EResult s _ | EIngestFailed s
  | EDownlink s _ | EGrant s _ _ => Some s
  | _ => None
  end.

(** @edge/nodelink.ts 365-370 open *)
Definition handle (e : Event) : M unit :=
  match e with
  | EHttp url method authorization => http url method authorization
  | EDownloadEnd => modify (fun st => set_downloads (ns_downloads st - 1) st)
  | EUpgrade url protocols peer cf ws => upgrade url protocols peer cf ws
  | EMessage s data isBinary => message s data isBinary
  | EPong s => env ← ask; update s (with_heard (ev_mono env))
  | EClosed s code => closed s code
  | ETimeout s => se ← session s; if se_timer se then fail s HandshakeTimeout "handshake timeout" else mret tt
  | EAdmit s p => admit_packet s p ;; mret tt
  | EResult s result => packetResult s result
  | EIngestFailed s => fail s BadMessage "packet admission failed"
  | EDownlink s datagram => downlink s datagram ;; mret tt
  | EGrant s seq build => grant s seq build ;; mret tt
  | ERevoke uid => revokeGrants uid
  | EBeat => beat
  | EShutdown => close
  end.

(** The WebSocket of an upgrade is a new one; only one that was opened does
    anything. *)
Definition possible (st : Server) (e : Event) : bool :=
  match e with
  | EUpgrade _ _ _ _ (Some s) => negb (bool_decide (is_Some (ns_heap st !! s)))
  | _ => match about e with Some s => bool_decide (is_Some (ns_heap st !! s)) | None => true end
  end.

Definition step (st : Server) (ev : Env * Event) : Server * list Action :=
  if possible st ev.2 then let '(_, st', acts) := handle ev.2 ev.1 st in (st', acts) else (st, []).

(** The server after some events, and everything it did, event by event. *)
Fixpoint serve (st : Server) (evs : list (Env * Event)) : Server * list (list Action) :=
  match evs with
  | [] => (st, [])
  | ev :: rest => let '(st, acts) := step st ev in let '(st, more) := serve st rest in (st, acts :: more)
  end.

(** ** Views *)

(** @edge/nodelink.ts 138-151 DirectNodeInfo *)
Record DirectNodeInfo := {
  di_uid : string; di_sessionId : string; di_source : string; di_connectedAt : Z; di_active : bool; di_lastAcceptedAt : option Z;
  di_lastReportAt : option Z; di_acks : Z; di_rejected : Z; di_lastRejection : option string; di_keyIndex : Z }.

(** @edge/nodelink.ts 230-244 sessions *)
Definition sessions (st : Server) : list DirectNodeInfo :=
  omap (fun s => let se := sess st s in
    uid ← se_uid se;
    Some {| di_uid := uid; di_sessionId := se_sessionId se; di_source := se_source se; di_connectedAt := se_openedAt se;
            di_active := se_active se; di_lastAcceptedAt := se_lastAcceptedAt se; di_lastReportAt := se_lastReportAt se;
            di_acks := se_acks se; di_rejected := se_rejected se; di_lastRejection := se_lastRejection se;
            di_keyIndex := se_keyIndex se |}) (ns_authed st).

(** @edge/nodelink.ts 247-253 nodeInfo *)
Definition nodeInfo (st : Server) (uid : string) : option DirectNodeInfo * option DirectNodeHistory :=
  (s ← ns_active st !! uid; List.find (fun x => bool_decide (di_sessionId x = se_sessionId (sess st s))) (sessions st),
   ns_history st !! uid).

(** @edge/nodelink.ts 255-257 stats *)
Definition stats (st : Server) : nat * nat * nat * gmap string Z :=
  (length (ns_authed st), length (ns_pending st), size (ns_grants st), ns_rejects st).

End server.

(** ** What most of the handlers leave alone

    A computation [keeps] a relation between the state before, what was done
    and the state after when it holds of its every run; relations that compose
    are kept by sequences. *)
Class Composes (R : Server -> list Action -> Server -> Prop) : Prop := {
  composes_nil st : R st [] st;
  composes_app st a st1 b st2 : R st a st1 -> R st1 b st2 -> R st (a ++ b) st2 }.

Definition keeps (R : Server -> list Action -> Server -> Prop) {A} (m : M A) : Prop :=
  forall env st, R st (m env st).2 (m env st).1.2.

Section keeps.
Context (R : Server -> list Action -> Server -> Prop) `{Composes R}.

Lemma keeps_ret {A} (x : A) : keeps R (mret x).
Proof. intros env st. apply composes_nil. Qed.

Lemma keeps_ask : keeps R ask.
Proof. intros env st. apply composes_nil. Qed.

Lemma keeps_get : keeps R get.
Proof. intros env st. apply composes_nil. Qed.

Lemma keeps_session s : keeps R (session s).
Proof. intros env st. apply composes_nil. Qed.

Lemma keeps_bind {A B} (m : M A) (k : A -> M B) : keeps R m -> (forall x, keeps R (k x)) -> keeps R (m ≫= k).
Proof.
  intros Hm Hk env st. unfold mbind, M_bind. specialize (Hm env st). destruct (m env st) as [[x st1] a].
  specialize (Hk x env st1). destruct (k x env st1) as [[y st2] b]. by eapply composes_app.
Qed.

Lemma keeps_if {A} (b : bool) (m m' : M A) : keeps R m -> keeps R m' -> keeps R (if b then m else m').
Proof. by destruct b. Qed.

Lemma keeps_each f l : (forall s, keeps R (f s)) -> keeps R (each f l).
Proof. intros Hf. induction l as [|s l IH]; [apply keeps_ret|]. cbn [each]. by apply keeps_bind. Qed.
End keeps.

(** What a session is, apart from what its traffic changes. *)
Definition ident (se : Session) := (se_source se, se_nonce se, se_controlSalt se, se_uid se, se_sessionId se, se_route se, se_device se, se_active se).
Definition tokens (se : Session) : Q * Q * Q := (se_msgs se, se_bytes se, se_at_ se).

(** The sets hold exactly the sessions in their state. *)
Record tidy (st : Server) : Prop := {
  tidy_pending s : s ∈ ns_pending st <-> se_state (sess st s) = Challenged;
  tidy_authed s : s ∈ ns_authed st <-> se_state (sess st s) = Authenticated;
  tidy_nodup_pending : NoDup (ns_pending st);
  tidy_nodup_authed : NoDup (ns_authed st) }.

(** The route of a node is its one active session. *)
Definition routed (st : Server) : Prop :=
  forall uid s, ns_active st !! uid = Some s <->
    se_state (sess st s) = Authenticated /\ se_active (sess st s) = true /\ se_uid (sess st s) = Some uid.

Definition drops (uid : string) (acts : list Action) : list string :=
  omap (fun a => match a with ADropRoute u sid => if bool_decide (u = uid) then Some sid else None | _ => None end) acts.

(** A node's route is as it was, or it went with its session and the ingest was
    told once. *)
Definition route_kept (st : Server) (acts : list Action) (st' : Server) (uid : string) : Prop :=
  (ns_active st' !! uid = ns_active st !! uid /\ drops uid acts = []) \/
  (exists s, ns_active st !! uid = Some s /\ ns_active st' !! uid = None /\ se_state (sess st' s) = Closed /\
     drops uid acts = [se_sessionId (sess st s)]).

Definition reasons_bounded (st : Server) : Prop := (size (delete "other" (ns_rejects st)) <= MAX_REASONS)%nat.

(** Sessions may be closed and their counters move; [P] is what may be done. *)
Record quiet (P : Action -> Prop) (st : Server) (acts : list Action) (st' : Server) : Prop := {
  q_ident s : ident (sess st' s) = ident (sess st s);
  q_state s : se_state (sess st' s) = se_state (sess st s) \/ se_state (sess st' s) = Closed;
  q_tokens s : tokens (sess st' s) = tokens (sess st s);
  q_known s : is_Some (ns_heap st !! s) -> is_Some (ns_heap st' !! s);
  q_tables : ns_baselines st' = ns_baselines st /\ ns_grants st' = ns_grants st /\ ns_upgrades st' = ns_upgrades st /\
    ns_downloads st' = ns_downloads st;
  q_pending : ns_pending st' `sublist_of` ns_pending st;
  q_authed : ns_authed st' `sublist_of` ns_authed st;
  q_tidy : tidy st -> tidy st';
  q_routed : tidy st -> routed st -> routed st' /\ forall uid, route_kept st acts st' uid;
  q_reasons : reasons_bounded st -> reasons_bounded st';
  q_acts : Forall P acts }.

Lemma drops_app uid a b : drops uid (a ++ b) = drops uid a ++ drops uid b.
Proof. apply omap_app. Qed.

Lemma route_kept_app st a st1 b st2 uid :
  (forall s, se_sessionId (sess st1 s) = se_sessionId (sess st s)) -> (forall s, se_state (sess st1 s) = Closed -> se_state (sess st2 s) = Closed) ->
  route_kept st a st1 uid -> route_kept st1 b st2 uid -> route_kept st (a ++ b) st2 uid.
Proof.
  intros Hid Hclosed [[E1 D1]|(s & A1 & A2 & Hs & D1)] [[E2 D2]|(s' & B1 & B2 & Hs' & D2)]; unfold route_kept; rewrite drops_app, D1, D2.
  - left. by rewrite E2.
  - right. exists s'. rewrite <- E1. by rewrite B1, Hid.
  - right. exists s. rewrite E2. auto.
  - congruence.
Qed.

#[export] Instance quiet_composes P : Composes (quiet P).
Proof.
  split.
  - intros st. split; try done; auto. intros _ Hr. split; [done|]. intros uid. by left.
  - intros st a st1 b st2 [i1 s1 t1 k1 (b1 & g1 & u1 & d1) p1 a1 y1 r1 e1 f1] [i2 s2 t2 k2 (b2 & g2 & u2 & d2) p2 a2 y2 r2 e2 f2]. split.
    + intros s. by rewrite i2.
    + intros s. destruct (s2 s) as [->|]; auto.
    + intros s. by rewrite t2.
    + auto.
    + split_and!; congruence.
    + by transitivity (ns_pending st1).
    + by transitivity (ns_authed st1).
    + auto.
    + intros Ht Hr. destruct (r1 Ht Hr) as [Hr1 K1]. destruct (r2 (y1 Ht) Hr1) as [Hr2 K2]. split; [done|]. intros uid.
      eapply route_kept_app; [| |apply K1|apply K2].
      * intros s. specialize (i1 s). unfold ident in i1. congruence.
      * intros s Hs. destruct (s2 s) as [->|]; auto.
    + auto.
    + by apply Forall_app.
Qed.

Lemma quiet_weaken P Q st acts st' : (forall a, P a -> Q a) -> quiet P st acts st' -> quiet Q st acts st'.
Proof. intros HPQ []. split; try done. by eapply Forall_impl. Qed.

Lemma keeps_weaken P Q {A} (m : M A) : (forall a, P a -> Q a) -> keeps (quiet P) m -> keeps (quiet Q) m.
Proof. intros HPQ Hm env st. by eapply quiet_weaken. Qed.

Lemma sess_upd s f st s' : sess (upd s f st) s' = if bool_decide (s = s') then f (sess st s) else sess st s'.
Proof.
  unfold sess, upd, set_heap. cbn [ns_heap]. case_bool_decide as E; [subst; by rewrite lookup_insert_eq|by rewrite lookup_insert_ne].
Qed.

Lemma known_upd s f st s' : is_Some (ns_heap st !! s') -> is_Some (ns_heap (upd s f st) !! s').
Proof. intros Hk. unfold upd, set_heap. cbn [ns_heap]. destruct (decide (s = s')) as [->|]; [by rewrite lookup_insert_eq|by rewrite lookup_insert_ne]. Qed.

Lemma ident_fields a b : ident a = ident b ->
  se_source a = se_source b /\ se_nonce a = se_nonce b /\ se_controlSalt a = se_controlSalt b /\ se_uid a = se_uid b /\
  se_sessionId a = se_sessionId b /\ se_route a = se_route b /\ se_device a = se_device b /\ se_active a = se_active b.
Proof. unfold ident. intros [=]. by split_and!. Qed.

Lemma tidy_ext st st' : ns_pending st' = ns_pending st -> ns_authed st' = ns_authed st ->
  (forall s, se_state (sess st' s) = se_state (sess st s)) -> tidy st -> tidy st'.
Proof. intros Ep Ea Es [p a np na]. split; rewrite ?Ep, ?Ea; try done; intros s; by rewrite Es. Qed.

Lemma routed_ext st st' : ns_active st' = ns_active st -> (forall s, ident (sess st' s) = ident (sess st s)) ->
  (forall s, se_state (sess st' s) = se_state (sess st s)) -> routed st -> routed st'.
Proof.
  intros Ea Ei Es Hr uid s. destruct (ident_fields _ _ (Ei s)) as (_ & _ & _ & -> & _ & _ & _ & ->). by rewrite Ea, Es.
Qed.

(** A change of nothing but the sessions' counters. *)
Lemma quiet_heap P st st' :
  (forall s, ident (sess st' s) = ident (sess st s) /\ tokens (sess st' s) = tokens (sess st s) /\ se_state (sess st' s) = se_state (sess st s)) ->
  (forall s, is_Some (ns_heap st !! s) -> is_Some (ns_heap st' !! s)) ->
  ns_baselines st' = ns_baselines st -> ns_grants st' = ns_grants st -> ns_upgrades st' = ns_upgrades st -> ns_downloads st' = ns_downloads st ->
  ns_pending st' = ns_pending st -> ns_authed st' = ns_authed st -> ns_active st' = ns_active st ->
  (reasons_bounded st -> reasons_bounded st') -> quiet P st [] st'.
Proof.
  intros Hs Hk Hb Hg Hu Hd Hp Ha Hact Hre. split; try done.
  - intros s. apply Hs.
  - intros s. left. apply Hs.
  - intros s. apply Hs.
  - by rewrite Hp.
  - by rewrite Ha.
  - apply tidy_ext; try done. intros s. apply Hs.
  - intros _ Hr. split; [eapply routed_ext; try done; intros s; apply Hs|]. intros uid. left. by rewrite Hact.
Qed.

Lemma quiet_update P s f :
  (forall se, ident (f se) = ident se /\ tokens (f se) = tokens se /\ se_state (f se) = se_state se) -> keeps (quiet P) (update s f).
Proof.
  intros Hf env st. apply quiet_heap; try done; [|intros s'; apply known_upd].
  intros s'. unfold update, modify. cbn [fst snd]. rewrite sess_upd. case_bool_decide; [subst; apply Hf|done].
Qed.

Definition is_drop (a : Action) : bool := match a with ADropRoute _ _ => true | _ => false end.

Lemma quiet_emit (P : Action -> Prop) a : P a -> is_drop a = false -> keeps (quiet P) (emit a).
Proof.
  intros Ha Hd env st. split; try done; auto; [|by constructor].
  intros _ Hr. split; [done|]. intros uid. left. by destruct a.
Qed.

(** ** The table of reasons stays small *)

Lemma size_delete_le {V} (k : string) (m : gmap string V) : (size (delete k m) <= size m <= S (size (delete k m)))%nat.
Proof.
  destruct (m !! k) as [v|] eqn:E.
  - rewrite <- (insert_delete_id m k v E) at 2 3. rewrite map_size_insert_None by apply lookup_delete_eq. lia.
  - rewrite delete_id by done. lia.
Qed.

Lemma size_insert_le {V} (k : string) (v : V) (m : gmap string V) : (size (<[k:=v]> m) <= S (size m))%nat.
Proof. rewrite map_size_insert. destruct (m !! k); cbn; lia. Qed.

Lemma reasons_bounded_size st : reasons_bounded st -> (size (ns_rejects st) <= S MAX_REASONS)%nat.
Proof. unfold reasons_bounded. pose proof (size_delete_le "other" (ns_rejects st)). lia. Qed.

Lemma count_bounded (m : gmap string Z) reason : (size (delete "other" m) <= MAX_REASONS)%nat ->
  let key := if bool_decide (is_Some (m !! reason)) || Nat.ltb (size m) MAX_REASONS then reason else "other" in
  forall v, (size (delete "other" (<[key:=v]> m)) <= MAX_REASONS)%nat.
Proof.
  intros Hm key v. destruct (decide (key = "other")) as [->|Hne]; [by rewrite delete_insert_eq|].
  rewrite delete_insert_ne by done. rewrite map_size_insert, lookup_delete_ne by done. unfold key in *. clear key.
  destruct (_ || _) eqn:E; [|done]. apply orb_true_iff in E as [[w ->]%bool_decide_eq_true|Hlt%Nat.ltb_lt]; [done|].
  pose proof (size_delete_le "other" m). destruct (m !! reason); cbn; lia.
Qed.

Lemma quiet_count P reason : keeps (quiet P) (count reason).
Proof. intros env st. apply quiet_heap; try done. unfold reasons_bounded. cbn. intros Hm. by apply count_bounded. Qed.

(** ** A close *)

Lemma elem_without x s l : x ∈ without s l <-> x ∈ l /\ x <> s.
Proof. unfold without. rewrite !list_elem_of_In, filter_In, negb_true. rewrite Nat.eqb_neq. done. Qed.

Lemma without_sublist s l : without s l `sublist_of` l.
Proof. induction l as [|x l IH]; [done|]. cbn. destruct (negb _); by constructor. Qed.

Lemma without_NoDup s l : NoDup l -> NoDup (without s l).
Proof. intros Hl. by eapply sublist_NoDup; [|apply without_sublist]. Qed.

(** The state a close leaves, and whether the ingest is told. *)
Definition tells (st : Server) (s : nat) : option string :=
  uid ← se_uid (sess st s); if bool_decide (ns_active st !! uid = Some s) then Some uid else None.

Lemma closed_run s code env st : se_state (sess st s) <> Closed ->
  exists hist, closed s code env st =
    (tt, {| ns_heap := <[s := with_closed (sess st s)]> (ns_heap st); ns_pending := without s (ns_pending st); ns_authed := without s (ns_authed st);
            ns_active := match tells st s with Some uid => delete uid (ns_active st) | None => ns_active st end;
            ns_grants := ns_grants st; ns_baselines := ns_baselines st; ns_upgrades := ns_upgrades st; ns_history := hist;
            ns_rejects := ns_rejects st; ns_downloads := ns_downloads st; ns_closing := ns_closing st |},
     match tells st s with Some uid => [ADropRoute uid (se_sessionId (sess st s))] | None => [] end).
Proof.
  intros Hs. unfold closed, mbind, M_bind, session. cbn [fst snd]. rewrite bool_decide_eq_false_2 by done.
  unfold tells. destruct (se_uid (sess st s)) as [uid|] eqn:Eu; [|eexists; reflexivity].
  unfold closed_node, mbind, M_bind, ask, get, session, update, modify, emit. cbn -[upd sess].
  change (ns_active (upd s with_closed st)) with (ns_active st).
  destruct (bool_decide (ns_active st !! uid = Some s)); eexists; cbn -[sess]; [|reflexivity].
  do 3 f_equal. unfold sess. cbn. by rewrite lookup_insert_eq.
Qed.

Lemma sess_closed st s s' h : ns_heap h = <[s := with_closed (sess st s)]> (ns_heap st) ->
  sess h s' = if bool_decide (s = s') then with_closed (sess st s) else sess st s'.
Proof. intros Hh. unfold sess. rewrite Hh. case_bool_decide as E; [subst; by rewrite lookup_insert_eq|by rewrite lookup_insert_ne]. Qed.

Definition may_drop (P : Action -> Prop) : Prop := forall uid sid, P (ADropRoute uid sid).

Lemma closed_routed st s st' : se_state (sess st s) <> Closed -> ns_heap st' = <[s := with_closed (sess st s)]> (ns_heap st) ->
  ns_active st' = match tells st s with Some uid => delete uid (ns_active st) | None => ns_active st end ->
  routed st -> routed st'.
Proof.
  intros Hopen Hh Ha Hr uid x. rewrite Ha, (sess_closed st s x st' Hh). unfold tells. destruct (decide (s = x)) as [<-|Hne].
  - rewrite bool_decide_eq_true_2 by done. split; [|by intros (? & _)]. intros Hx. exfalso. revert Hx.
    destruct (se_uid (sess st s)) as [u|] eqn:Eu; cbn [mbind option_bind].
    + case_bool_decide as Eact; intros Hx.
      * destruct (decide (u = uid)) as [->|Hu]; [by rewrite lookup_delete_eq in Hx|]. rewrite lookup_delete_ne in Hx by done.
        apply Hr in Hx as (_ & _ & ?). congruence.
      * apply Hr in Hx as Hx2. destruct Hx2 as (_ & _ & ?). congruence.
    + intros Hx. apply Hr in Hx as (_ & _ & ?). congruence.
  - rewrite bool_decide_eq_false_2 by done. rewrite <- (Hr uid x). destruct (se_uid (sess st s)) as [u|] eqn:Eu; [|done]. cbn [mbind option_bind].
    case_bool_decide as Eact; [|done]. destruct (decide (u = uid)) as [->|Hu]; [|by rewrite lookup_delete_ne].
    rewrite lookup_delete_eq, Eact. split; [done|]. congruence.
Qed.

Lemma closed_tidy st s st' : ns_heap st' = <[s := with_closed (sess st s)]> (ns_heap st) ->
  ns_pending st' = without s (ns_pending st) -> ns_authed st' = without s (ns_authed st) -> tidy st -> tidy st'.
Proof.
  intros Hh Hp Ha [p a np na]. split; rewrite ?Hp, ?Ha; [| |by apply without_NoDup|by apply without_NoDup];
    intros x; rewrite elem_without, ?p, ?a, (sess_closed st s x st' Hh); case_bool_decide; subst; naive_solver.
Qed.

Lemma quiet_closed P s code : may_drop P -> keeps (quiet P) (closed s code).
Proof.
  intros HP env st. destruct (decide (se_state (sess st s) = Closed)) as [Hc|Hc].
  - unfold closed, mbind, M_bind, session. cbn [fst snd]. rewrite bool_decide_eq_true_2 by done. apply composes_nil.
  - destruct (closed_run s code env st Hc) as [hist ->]. cbn [fst snd]. set (st' := Build_Server _ _ _ _ _ _ _ _ _ _ _).
    pose proof (fun x => sess_closed st s x st' eq_refl) as Hs. split.
    + intros x. rewrite Hs. case_bool_decide; by subst.
    + intros x. rewrite Hs. case_bool_decide; [by right|by left].
    + intros x. rewrite Hs. case_bool_decide; by subst.
    + intros x. apply (known_upd s with_closed st x).
    + done.
    + apply without_sublist.
    + apply without_sublist.
    + by apply (closed_tidy st s).
    + intros _ Hr. split; [by eapply closed_routed|]. intros uid. unfold route_kept. cbn [ns_active st']. unfold tells.
      destruct (se_uid (sess st s)) as [u|] eqn:Eu; [|by left]. cbn [mbind option_bind]. case_bool_decide as Eact; [|by left].
      unfold drops. cbn [omap list_omap]. destruct (decide (u = uid)) as [->|Hu].
      * right. exists s. rewrite lookup_delete_eq, Hs, !bool_decide_eq_true_2 by done. done.
      * left. by rewrite lookup_delete_ne, bool_decide_eq_false_2 by done.
    + done.
    + destruct (tells st s); by repeat constructor.
Qed.

Definition may_close (P : Action -> Prop) : Prop := may_drop P /\ forall s code told, P (AClose s code told).

Create HintDb quiet.
#[export] Hint Resolve quiet_composes : quiet.

Lemma quiet_fail_told P s code reason told : may_close P -> keeps (quiet P) (fail_told s code reason told).
Proof.
  intros [HPd HPc]. unfold fail_told. apply (keeps_bind _); [apply quiet_count|]. intros _. apply (keeps_bind _); [by apply quiet_update|].
  intros _. apply (keeps_bind _); [apply (keeps_ask _)|]. intros env. apply (keeps_bind _); [|intros _; by apply quiet_closed].
  apply keeps_if; [by apply quiet_emit|apply (keeps_ret _)].
Qed.

Lemma quiet_fail P s code reason : may_close P -> keeps (quiet P) (fail s code reason).
Proof. intros HP. unfold fail. by apply quiet_fail_told. Qed.

(** The calls that speak for a session, hand on a packet or answer for one; the
    others are plain. *)
Definition plain (a : Action) : Prop :=
  match a with AControl _ _ _ | ASend _ _ | AIngest _ _ _ | AAnswer _ _ _ _ _ | ADownload _ _ _ => False | _ => True end.
Definition or_control (s : nat) (msg : Control) (a : Action) : Prop := plain a \/ exists w, a = AControl s msg w.

Lemma plain_may_close : may_close plain.
Proof. by split. Qed.
Lemma or_control_may_close s msg : may_close (or_control s msg).
Proof. split; by left. Qed.
#[export] Hint Resolve plain_may_close or_control_may_close : quiet.

(** One step for each operation of the monad and each quiet handler. *)
Ltac quietly_step :=
  lazymatch goal with
  | |- keeps _ (mret _) => apply (keeps_ret _)
  | |- keeps _ ask => apply (keeps_ask _)
  | |- keeps _ get => apply (keeps_get _)
  | |- keeps _ (session _) => apply (keeps_session _)
  | |- keeps _ (count _) => apply quiet_count
  | |- keeps _ (fail_told _ _ _ _) => apply quiet_fail_told; solve [eauto with quiet]
  | |- keeps _ (fail _ _ _) => apply quiet_fail; solve [eauto with quiet]
  | |- keeps _ (closed _ _) => apply quiet_closed; solve [eauto with quiet]
  | |- keeps _ (update _ _) => apply quiet_update; solve [intros ?; split_and!; reflexivity]
  | |- keeps _ (emit _) => apply quiet_emit; [solve [cbn; eauto with quiet | left; exact I | right; eauto]|reflexivity]
  | |- keeps _ (mbind _ _) => apply (keeps_bind _); [|intros ?]
  | |- keeps _ (match ?x with _ => _ end) => destruct x
  end.
Ltac quietly := repeat quietly_step.

Section quiet.
Context {C : Crypto} {J : JsonText} {H : Sha}.
Context (cfg : NodeServerOptions).

Lemma quiet_control s msg : keeps (quiet (or_control s msg)) (control cfg s msg).
Proof. unfold control. quietly. Qed.

Lemma quiet_refuse status reason : keeps (quiet plain) (refuse status reason).
Proof. unfold refuse. quietly. Qed.

Lemma quiet_over_rate s t : keeps (quiet plain) (over_rate s t).
Proof. unfold over_rate. quietly. Qed.

Lemma quiet_acknowledge s p : keeps (quiet (fun a => plain a \/ (is_report p || is_status p = true /\
  exists w sid, a = AControl s (Ack sid (h_boot (p_header p)) (h_seq (p_header p))) w))) (acknowledge cfg s p).
Proof.
  unfold acknowledge. apply (keeps_bind _); [quietly|]. intros _. destruct (is_report p || is_status p) eqn:E; [|quietly].
  apply (keeps_bind _); [quietly|]. intros se. apply (keeps_bind _); [|intros; quietly].
  eapply keeps_weaken; [|apply quiet_control]. intros a [Ha|[w ->]]; [by left|right]. eauto.
Qed.

Lemma quiet_downlink s datagram : keeps (quiet (fun a => plain a \/ a = ASend s datagram)) (downlink s datagram).
Proof. assert (may_close (fun a => plain a \/ a = ASend s datagram)) as Hp by (split; by left). unfold downlink. quietly. Qed.

Lemma quiet_beat_session s : keeps (quiet plain) (beat_session cfg s).
Proof. unfold beat_session. quietly. Qed.

Lemma quiet_set_closing : keeps (quiet plain) (modify set_closing).
Proof. intros env st. by apply quiet_heap. Qed.

Lemma quiet_close : keeps (quiet plain) close.
Proof.
  unfold close. apply (keeps_bind _); [quietly|]. intros st. destruct (ns_closing st); [quietly|].
  apply (keeps_bind _); [apply quiet_set_closing|]. intros _. apply (keeps_each _). intros s. quietly.
Qed.

(** ** The other handlers, as a change and what follows it quietly *)

(** The parts of a server that the handlers' own changes touch. *)
Lemma quiet_packet s data : forall env st, exists acts, packet s data env st = (tt, st, acts) /\
  acts = match se_route (sess st s) with
         | Some r => [AIngest s data ("ws:" +:+ nr_uid r +:+ ":" +:+ se_sessionId (sess st s))]
         | None => [] end.
Proof. intros env st. unfold packet, mbind, M_bind, session. cbn. destruct (se_route (sess st s)); eexists; split; reflexivity. Qed.

Definition bucket (rate : Z) (tok : Q) (at_ t : Q) : Q := refill rate tok (Qmax' 0 (t - at_) / 1000).

Lemma withinRate_run s n env st :
  let se := sess st s in
  let t := ev_mono env in
  let msgs := bucket (messagesPerSec (no_limits cfg)) (se_msgs se) (se_at_ se) t in
  let bs := bucket (bytesPerSec (no_limits cfg)) (se_bytes se) (se_at_ se) t in
  (Qle_bool 1 msgs && Qle_bool (inject_Z n) bs = true /\
     withinRate cfg s n env st = (true, upd s (with_tokens (msgs - 1)%Q (bs - inject_Z n)%Q t) st, [])) \/
  (exists st' acts, withinRate cfg s n env st = (false, st', acts) /\ quiet plain (upd s (with_tokens msgs bs t) st) acts st').
Proof.
  intros se t msgs bs. unfold withinRate, mbind, M_bind, ask, session. fold se t. change (refill (messagesPerSec _) _ _) with msgs.
  change (refill (bytesPerSec _) _ _) with bs. destruct (Qle_bool 1 msgs && Qle_bool (inject_Z n) bs) eqn:E.
  - left. split; [done|]. reflexivity.
  - right. pose proof (quiet_over_rate s t env (upd s (with_tokens msgs bs t) st)) as Hq.
    unfold update, modify. destruct (over_rate s t env (upd s (with_tokens msgs bs t) st)) as [[u st'] acts]. cbn in *.
    exists st', acts. rewrite app_nil_r. done.
Qed.
End quiet.

(** ** The effect of an event

    Every handler, case by case: the change it makes itself, and what follows
    it quietly. *)
Lemma upd_upd s f g st : upd s g (upd s f st) = upd s (fun se => g (f se)) st.
Proof.
  unfold upd at 1 3. rewrite sess_upd, bool_decide_eq_true_2 by done. unfold upd, set_heap. cbn. by rewrite insert_insert_eq.
Qed.

Lemma fail_closes s code reason told env st : se_state (sess (fail_told s code reason told env st).1.2 s) = Closed.
Proof.
  unfold fail_told, mbind, M_bind, count, update, modify, ask. cbn -[upd set_rejects closed].
  set (st1 := upd s (with_reason reason) _). set (em := if is_open _ || _ then emit _ else _). 
  assert (exists a, em env st1 = (tt, st1, a)) as [a ->] by (unfold em; destruct (is_open (ev_ready env s) || is_connecting (ev_ready env s)); eexists; reflexivity). cbn -[closed].
  destruct (decide (se_state (sess st1 s) = Closed)) as [Hc|Hc].
  - unfold closed, mbind, M_bind, session. cbn. by rewrite bool_decide_eq_true_2.
  - destruct (closed_run s (close_code code) env st1 Hc) as [hist ->]. cbn. unfold sess. cbn. by rewrite lookup_insert_eq.
Qed.

(** Symbolic execution of what reads and writes the state. *)
Section run.
Context {A B : Type} (env : Env) (st : Server).

Lemma run_silent (m : M A) (k : A -> M B) x st1 : m env st = (x, st1, []) -> (m ≫= k) env st = k x env st1.
Proof. unfold mbind, M_bind. intros ->. by destruct (k x env st1) as [[? ?] ?]. Qed.

Lemma run_bind (m : M A) (k : A -> M B) x st1 a : m env st = (x, st1, a) ->
  (m ≫= k) env st = (let '(y, st2, b) := k x env st1 in (y, st2, a ++ b)).
Proof. unfold mbind, M_bind. by intros ->. Qed.
End run.

Lemma run_ask {B} (k : Env -> M B) env st : (ask ≫= k) env st = k env env st.
Proof. by apply run_silent. Qed.
Lemma run_get {B} (k : Server -> M B) env st : (get ≫= k) env st = k st env st.
Proof. by apply run_silent. Qed.
Lemma run_session {B} s (k : Session -> M B) env st : (session s ≫= k) env st = k (sess st s) env st.
Proof. by apply run_silent. Qed.
Lemma run_modify {B} f (k : unit -> M B) env st : (modify f ≫= k) env st = k tt env (f st).
Proof. by apply run_silent. Qed.
Lemma run_update {B} s f (k : unit -> M B) env st : (update s f ≫= k) env st = k tt env (upd s f st).
Proof. by apply run_silent. Qed.
Ltac run := repeat first [rewrite run_ask | rewrite run_get | rewrite run_session | rewrite run_modify | rewrite run_update]; cbv beta.

Section effect.
Context {C : Crypto} {J : JsonText} {H : Sha}.
Context (cfg : NodeServerOptions).
Let lim := no_limits cfg.

Definition blank_session (env : Env) (source : string) : Session :=
  {| se_source := source; se_openedAt := ev_now env; se_nonce := to_hex (ev_nonce env); se_controlSalt := EmptyString;
     se_controlSeq := 0; se_device := None; se_state := Challenged; se_uid := None; se_sessionId := ev_id env; se_keyIndex := -1;
     se_active := false; se_lastHeard := ev_mono env; se_lastAcceptedAt := None; se_lastReportAt := None; se_accepted := 0; se_acks := 0;
     se_rejected := 0; se_lastRejection := None; se_msgs := inject_Z (messagesPerSec lim * 2); se_bytes := inject_Z (bytesPerSec lim * 2);
     se_at_ := ev_mono env; se_drops := []; se_timer := true; se_route := None; se_closeReason := None |}.

Definition opened (env : Env) (s : nat) (source : string) (st : Server) : Server :=
  set_pending (ns_pending st ++ [s]) (set_heap (<[s := blank_session env source]> (ns_heap st)) st).

(** The challenge was answered with the MAC of one of the node's keys. *)
Definition answered (env : Env) (nonce : string) (data : list Z) (uid : string) (i : Z) (key : list Z) : Prop :=
  exists mac keys, parse_auth data = Ok (uid, nonce, mac) /\ auth_keys cfg (ev_now env) uid = Ok keys /\
    key_index 0 uid nonce (from_hex mac) keys = Some (i, key) /\ ev_registered env uid = true.

Definition proven_session (env : Env) (uid : string) (i : Z) (key : list Z) (se : Session) : Session :=
  let se := with_device (devices_of cfg (ev_now env) uid !! Z.to_nat i) (with_spent (with_heard (ev_mono env) se)) in
  with_auth uid i {| nr_uid := uid; nr_sessionId := se_sessionId se; nr_key := key; nr_secureId := dk_id <$> se_device se |} se.

Definition proved_to (env : Env) (s : nat) (uid : string) (i : Z) (key : list Z) (hist : gmap string DirectNodeHistory) (st : Server) : Server :=
  set_history hist (set_authed (ns_authed st ++ [s]) (set_pending (without s (ns_pending st)) (upd s (proven_session env uid i key) st))).

(** What spends a nonce without proving anything. *)
Definition spends (f : Session -> Session) : Prop :=
  forall se, se_nonce (f se) = EmptyString /\ se_state (f se) = se_state se /\ se_uid (f se) = se_uid se /\ se_route (f se) = se_route se /\
    se_source (f se) = se_source se /\ se_sessionId (f se) = se_sessionId se /\ se_active (f se) = se_active se /\ tokens (f se) = tokens se.

Definition now_active (env : Env) (s : nat) (uid : string) (st : Server) : Server :=
  set_active (<[uid := s]> (ns_active st)) (upd s (fun se => with_active (with_accepted (ev_now env) se)) st).

Definition acks (s : nat) (p : Packet) (a : Action) : Prop :=
  plain a \/ is_report p || is_status p = true /\ exists w sid, a = AControl s (Ack sid (h_boot (p_header p)) (h_seq (p_header p))) w.

(** The upgrade may be counted against its source. *)
Definition upgrades_next (t : Q) (source : string) (st : Server) (m : gmap string (list Q)) : Prop :=
  exists m0, m0 ⊆ ns_upgrades st /\ (is_Some (m0 !! source) \/ (size m0 < MAX_SOURCES)%nat) /\
    (length (recent_upgrades t source st) < upgradesPerMinute lim)%nat /\ m = <[source := recent_upgrades t source st ++ [t]]> m0.

Inductive effect (env : Env) (st : Server) : Event -> list Action -> Server -> Prop :=
| eff_quiet e acts st' : quiet plain st acts st' ->
    (forall s data b, e = EMessage s data b -> se_state (sess st' s) <> Challenged) -> (forall u, e <> ERevoke u) -> effect env st e acts st'
| eff_download url method authorization token g bytes : bearer authorization = Some token -> ns_grants st !! tokenId token = Some g ->
    (ev_mono env < g_expires g)%Q -> ev_approved env (g_uid g) (g_build g) = true -> ev_image env (g_build g) = Some bytes ->
    ns_downloads st < MAX_DOWNLOADS ->
    effect env st (EHttp url method authorization) [ADownload (g_uid g) (g_build g) bytes] (set_downloads (ns_downloads st + 1) st)
| eff_download_end : effect env st EDownloadEnd [] (set_downloads (ns_downloads st - 1) st)
| eff_upgrade_refused url protocols peer cf ws m acts st' : m ⊆ ns_upgrades st \/ (exists source, upgrades_next (ev_mono env) source st m) ->
    quiet plain (set_upgrades m st) acts st' -> effect env st (EUpgrade url protocols peer cf ws) acts st'
| eff_opened url protocols peer cf s source m acts st' : upgrades_next (ev_mono env) source st m ->
    (length (ns_pending st) < maxPending lim)%nat -> (length (ns_authed st) < maxSessions lim)%nat ->
    (length (List.filter (fun s => bool_decide (se_source (sess st s) = source)) (ns_pending st)) < maxPendingPerSource lim)%nat ->
    quiet (or_control s (Challenge (to_hex (ev_nonce env)))) (opened env s source (set_upgrades m st)) acts st' ->
    effect env st (EUpgrade url protocols peer cf (Some s)) acts st'
| eff_spent s data f acts st' : se_state (sess st s) = Challenged -> spends f -> quiet plain (upd s f st) acts st' ->
    effect env st (EMessage s data false) acts st'
| eff_proved s data uid i key hist acts st' : se_state (sess st s) = Challenged -> answered env (se_nonce (sess st s)) data uid i key ->
    (length (ns_authed st) < maxSessions lim)%nat ->
    quiet (or_control s (Ready uid (se_sessionId (sess st s)))) (proved_to env s uid i key hist st) acts st' ->
    effect env st (EMessage s data false) acts st'
| eff_heard s data : let se := sess st s in let t := ev_mono env in let n := Z.of_nat (length data) in
    let msgs := bucket (messagesPerSec lim) (se_msgs se) (se_at_ se) t in let bs := bucket (bytesPerSec lim) (se_bytes se) (se_at_ se) t in
    se_state se = Authenticated -> (1 <= msgs)%Q -> (inject_Z n <= bs)%Q ->
    effect env st (EMessage s data true)
      (match se_route se with Some r => [AIngest s data ("ws:" +:+ nr_uid r +:+ ":" +:+ se_sessionId se)] | None => [] end)
      (upd s (fun se => with_tokens (msgs - 1)%Q (bs - inject_Z n)%Q t (with_heard t se)) st)
| eff_dropped s data acts st' : let se := sess st s in let t := ev_mono env in
    let msgs := bucket (messagesPerSec lim) (se_msgs se) (se_at_ se) t in let bs := bucket (bytesPerSec lim) (se_bytes se) (se_at_ se) t in
    se_state se = Authenticated -> quiet plain (upd s (fun se => with_tokens msgs bs t (with_heard t se)) st) acts st' ->
    effect env st (EMessage s data true) acts st'
| eff_admitted s p : se_state (sess st s) = Authenticated -> let h := p_header p in
    let r := judge (ns_baselines st !! h_uid h) (ev_mono env) (h_boot h) (h_uptimeMs h) in
    effect env st (EAdmit s p) [AAnswer (h_uid h) (h_boot h) (h_uptimeMs h) (ev_mono env) r.1] (set_baselines (<[h_uid h := r.2]> (ns_baselines st)) st)
| eff_accepted s p route ack acts st' : se_state (sess st s) = Authenticated -> se_active (sess st s) = true ->
    quiet (acks s p) st acts st' -> effect env st (EResult s (Accepted p route ack)) acts st'
| eff_activated s p route ack uid acts st3 more st' : se_state (sess st s) = Authenticated -> se_active (sess st s) = false ->
    uid = default EmptyString (se_uid (sess st s)) -> quiet plain (now_active env s uid st) acts st3 ->
    (tidy st -> routed st -> se_uid (sess st s) <> None -> routed st3 /\ ns_active st3 = <[uid := s]> (ns_active st) /\ forall u, drops u acts = []) ->
    quiet (acks s p) st3 more st' -> effect env st (EResult s (Accepted p route ack)) (acts ++ more) st'
| eff_sent s datagram acts st' : (forall a, a ∈ acts -> a = ASend s datagram -> se_state (sess st s) = Authenticated) ->
    quiet (fun a => plain a \/ a = ASend s datagram) st acts st' -> effect env st (EDownlink s datagram) acts st'
| eff_granted s seq build uid acts st' : se_uid (sess st s) = Some uid -> ev_approved env uid build = true ->
    let token := to_hex (ev_token env) in
    let g := {| g_uid := uid; g_build := build; g_seq := seq; g_expires := ev_mono env + inject_Z (grantMs lim) |} in
    quiet (or_control s (OtaGrant seq build token)) (set_grants (<[tokenId token := g]> (filter (fun p => g_uid p.2 <> uid) (ns_grants st))) st) acts st' ->
    effect env st (EGrant s seq build) acts st'
| eff_revoked uid : effect env st (ERevoke uid) [] (set_grants (filter (fun p => g_uid p.2 <> uid) (ns_grants st)) st)
| eff_beat acts st' : quiet plain (set_grants (filter (fun p => Qle_bool (g_expires p.2) (ev_mono env) = false) (ns_grants st)) st) acts st' ->
    effect env st EBeat acts st'.

Definition ran {A} (r : A * Server * list Action) (P : list Action -> Server -> Prop) : Prop := P r.2 r.1.2.

Lemma ran_quiet {A} (m : M A) env st e : keeps (quiet plain) m -> (forall s d b, e <> EMessage s d b) -> (forall u, e <> ERevoke u) ->
  ran (m env st) (effect env st e).
Proof. intros Hm He Hr. apply eff_quiet; [apply Hm| |done]. intros s d b ->. by destruct (He s d b). Qed.

Lemma effect_http url method authorization env st :
  ran (http url method authorization env st) (effect env st (EHttp url method authorization)).
Proof.
  unfold http. destruct url as [[pathname search]|]; [|apply ran_quiet; [quietly|done..]].
  destruct (_ && _); [apply ran_quiet; [quietly|done..]|]. destruct (firmware_path pathname) as [build|]; [|apply ran_quiet; [quietly|done..]].
  destruct (negb (bool_decide (search = _))); [apply ran_quiet; [quietly|done..]|]. destruct (negb _); [apply ran_quiet; [quietly|done..]|].
  unfold download. run. destruct (bearer authorization) as [token|] eqn:Eb; cbn [mbind option_bind]; [|apply ran_quiet; [quietly|done..]].
  destruct (ns_grants st !! tokenId token) as [g|] eqn:Eg; [|apply ran_quiet; [quietly|done..]].
  destruct (Qle_bool _ _ || _) eqn:Ev; [apply ran_quiet; [quietly|done..]|]. apply orb_false_iff in Ev as [Ee Ebuild].
  apply negb_false, bool_decide_eq_true in Ebuild as <-. destruct (ev_approved env _ _) eqn:Ea; cbn [negb]; [|apply ran_quiet; [quietly|done..]].
  destruct (ev_image env _) as [bytes|] eqn:Ei; [|apply ran_quiet; [quietly|done..]].
  destruct (Z.leb_spec MAX_DOWNLOADS (ns_downloads st)); [apply ran_quiet; [quietly|done..]|]. run. unfold ran, emit. cbn [fst snd].
  eapply eff_download; try done. apply Qnot_le_lt. rewrite <- Qle_bool_iff. congruence.
Qed.

Lemma keeps_ran_quiet {A} P (m : M A) env st : keeps (quiet P) m -> ran (m env st) (quiet P st).
Proof. intros Hm. apply Hm. Qed.

Lemma quiet_tables_id st : st = set_upgrades (ns_upgrades st) st.
Proof. by destruct st. Qed.

Lemma recent_upgrades_same t source st m : default [] (m !! source) = default [] (ns_upgrades st !! source) ->
  recent_upgrades t source (set_upgrades m st) = recent_upgrades t source st.
Proof. unfold recent_upgrades. cbn. by intros ->. Qed.

Lemma effect_upgrade_counted env st url protocols peer cf ws source m0 : 
  m0 ⊆ ns_upgrades st -> (is_Some (m0 !! source) \/ (size m0 < MAX_SOURCES)%nat) ->
  (length (recent_upgrades (ev_mono env) source st) < upgradesPerMinute lim)%nat ->
  ran (upgrade_counted cfg source (recent_upgrades (ev_mono env) source st) (ev_mono env) ws env (set_upgrades m0 st))
    (effect env st (EUpgrade url protocols peer cf ws)).
Proof.
  intros Hsub Hroom Hrecent. unfold upgrade_counted. run. set (m := <[source := _]> _).
  assert (upgrades_next (ev_mono env) source st m) as Hm by (by exists m0).
  change (set_upgrades m (set_upgrades m0 st)) with (set_upgrades m st).
  assert (forall m' : M unit, keeps (quiet plain) m' -> ran (m' env (set_upgrades m st)) (effect env st (EUpgrade url protocols peer cf ws))) as Hq.
  { intros m' Hm'. eapply eff_upgrade_refused; [right; by exists source|]. apply Hm'. }
  destruct (Nat.leb_spec (maxPending (no_limits cfg)) (length (ns_pending (set_upgrades m st)))); [apply Hq, quiet_refuse|].
  destruct (Nat.leb_spec (maxPendingPerSource (no_limits cfg))
    (length (List.filter (fun s => bool_decide (se_source (sess (set_upgrades m st) s) = source)) (ns_pending (set_upgrades m st)))));
    [apply Hq, quiet_refuse|].
  destruct (Nat.leb_spec (maxSessions (no_limits cfg)) (length (ns_authed (set_upgrades m st)))); [apply Hq, quiet_refuse|].
  destruct ws as [s|]; [|apply Hq; quietly]. unfold open. run.
  change (set_pending _ _) with (opened env s source (set_upgrades m st)).
  assert (keeps (quiet (or_control s (Challenge (to_hex (ev_nonce env))))) (control cfg s (Challenge (to_hex (ev_nonce env))) ;; mret tt)) as Hk.
  { apply (keeps_bind _); [apply quiet_control|]. intros _. quietly. }
  eapply eff_opened; [exact Hm|done|done|done|]. apply Hk.
Qed.

Lemma purge_subseteq t m : purge_upgrades t m ⊆ m.
Proof. apply map_filter_subseteq. Qed.

Lemma effect_upgrade url protocols peer cf ws env st :
  ran (upgrade cfg url protocols peer cf ws env st) (effect env st (EUpgrade url protocols peer cf ws)).
Proof.
  unfold upgrade. destruct url as [[pathname search]|]; [|apply ran_quiet; [apply quiet_refuse|done..]].
  destruct (_ || _); [apply ran_quiet; [apply quiet_refuse|done..]|]. destruct (negb _); [apply ran_quiet; [apply quiet_refuse|done..]|].
  set (source := sourceOf peer cf). unfold upgrade_source. run.
  destruct (Nat.leb_spec (upgradesPerMinute (no_limits cfg)) (length (recent_upgrades (ev_mono env) source st)));
    [apply ran_quiet; [apply quiet_refuse|done..]|].
  case_bool_decide as Eknown; cbn [negb andb].
  - pose proof (effect_upgrade_counted env st (Some (pathname, search)) protocols peer cf ws source (ns_upgrades st)) as Hc.
    rewrite <- quiet_tables_id in Hc. apply Hc; [done|by left|done].
  - destruct (Nat.leb_spec MAX_SOURCES (size (ns_upgrades st))).
    + run. cbn [ns_upgrades set_upgrades]. destruct (Nat.leb_spec MAX_SOURCES (size (purge_upgrades (ev_mono env) (ns_upgrades st)))).
      * eapply eff_upgrade_refused; [left; apply purge_subseteq|]. apply quiet_refuse.
      * apply effect_upgrade_counted; [apply purge_subseteq|by right|done].
    + pose proof (effect_upgrade_counted env st (Some (pathname, search)) protocols peer cf ws source (ns_upgrades st)) as Hc.
      rewrite <- quiet_tables_id in Hc. apply Hc; [done|by right|done].
Qed.

Lemma sess_upd_eq s f st : sess (upd s f st) s = f (sess st s).
Proof. by rewrite sess_upd, bool_decide_eq_true_2. Qed.

(** A change of the counters before the rest. *)
Lemma quiet_upd P s f st acts st' :
  (forall se, ident (f se) = ident se /\ tokens (f se) = tokens se /\ se_state (f se) = se_state se) ->
  quiet P (upd s f st) acts st' -> quiet P st acts st'.
Proof.
  intros Hf Hq. change acts with ([] ++ acts). eapply composes_app; [|exact Hq].
  by apply (quiet_update P s f Hf {| ev_now := 0; ev_mono := 0; ev_ready := fun _ => OPEN; ev_buffered := fun _ => 0; ev_registered := fun _ => false;
    ev_approved := fun _ _ => false; ev_image := fun _ => None; ev_nonce := []; ev_id := EmptyString; ev_token := []; ev_epoch := [] |}).
Qed.

Ltac counters := solve [intros ?; split_and!; reflexivity].

(** A message that ends in a refusal. *)
Lemma effect_failed s data b f code reason told env st :
  (forall se, ident (f se) = ident se /\ tokens (f se) = tokens se /\ se_state (f se) = se_state se) ->
  ran (fail_told s code reason told env (upd s f st)) (effect env st (EMessage s data b)).
Proof.
  intros Hf. apply eff_quiet.
  - eapply quiet_upd; [exact Hf|]. apply quiet_fail_told, plain_may_close.
  - intros s' d b' [= <- _ _]. by rewrite fail_closes.
  - done.
Qed.

Lemma effect_authenticate s data env st : se_state (sess st s) = Challenged ->
  ran (authenticate cfg s data env (upd s (with_heard (ev_mono env)) st)) (effect env st (EMessage s data false)).
Proof.
  intros Hs. unfold authenticate. destruct (parse_auth data) as [[[uid n] mac]|reason] eqn:Ep;
    [|exact (effect_failed s data false (with_heard (ev_mono env)) BadMessage reason reason env st ltac:(counters))].
  run. rewrite sess_upd_eq, upd_upd. change (se_nonce (with_heard _ (sess st s))) with (se_nonce (sess st s)).
  set (f := fun se => with_spent (with_heard (ev_mono env) se)).
  assert (spends f) as Hf by (intros se; by split_and!).
  assert (forall (m : M unit) f, spends f -> keeps (quiet plain) m -> ran (m env (upd s f st)) (effect env st (EMessage s data false))) as Hq.
  { intros m g Hg Hm. eapply eff_spent; [done|exact Hg|apply Hm]. }
  destruct (auth_keys cfg (ev_now env) uid) as [keys|e] eqn:Ek; [|apply Hq; [done|quietly]].
  case_bool_decide as En; cbn [negb]; [|apply Hq; [done|quietly]]. subst n.
  destruct (key_index 0 uid _ _ keys) as [[i key]|] eqn:Ei; [|apply Hq; [done|quietly]].
  destruct (ev_registered env uid) eqn:Er; cbn [negb]; [|apply Hq; [done|quietly]]. run. rewrite upd_upd.
  destruct (Nat.leb_spec (maxSessions (no_limits cfg)) (length (ns_authed (upd s (with_heard (ev_mono env)) st)))) as [Hfull|Hroom].
  - apply Hq; [intros se; by split_and!|quietly].
  - unfold accept_auth. run. rewrite sess_upd_eq, upd_upd. cbn [se_sessionId se_device with_device f with_spent with_heard].
    match goal with |- context [set_history ?h ?x] => change (set_history h x) with (proved_to env s uid i key h st) end.
    assert (keeps (quiet (or_control s (Ready uid (se_sessionId (sess st s))))) (control cfg s (Ready uid (se_sessionId (sess st s))) ;; mret tt)) as Hk.
    { apply (keeps_bind _); [apply quiet_control|]. intros _. quietly. }
    eapply eff_proved; [done| |exact Hroom|apply Hk]. exists mac, keys. done.
Qed.

Lemma fail_run s code reason told env st : exists rej a, (forall uid, drops uid a = []) /\
  fail_told s code reason told env st =
    (let '(x, st', b) := closed s (close_code code) env (upd s (with_reason reason) (set_rejects rej st)) in (x, st', a ++ b)).
Proof.
  unfold fail_told, count. run. set (rej := <[_ := _]> _). exists rej.
  destruct (is_open (ev_ready env s) || is_connecting (ev_ready env s)).
  - eexists [_]. split; [|by erewrite run_bind by reflexivity]. done.
  - exists []. split; [done|]. rewrite (run_silent env _ _ _ tt (upd s (with_reason reason) (set_rejects rej st))) by done.
    by destruct (closed s _ env _) as [[? ?] ?].
Qed.

(** When a session takes over a node, the close of the older one leaves the
    route alone. *)
Lemma replace_routes env s uid old code reason st : tidy st -> routed st -> se_state (sess st s) = Authenticated -> se_uid (sess st s) = Some uid ->
  ns_active st !! uid = Some old -> old <> s ->
  ran (fail old code reason env (now_active env s uid st)) (fun acts st3 =>
    routed st3 /\ ns_active st3 = <[uid := s]> (ns_active st) /\ forall u, drops u acts = []).
Proof.
  intros Ht Hr Hs Hu Hold Hne. unfold fail. destruct (fail_run old code reason reason env (now_active env s uid st)) as (rej & a & Ha & ->).
  pose proof (proj1 (Hr uid old) Hold) as (Sold & Aold & Uold). set (st2 := upd old _ _).
  assert (forall x, sess st2 x = (if bool_decide (old = x) then with_reason reason (sess st old)
    else if bool_decide (s = x) then with_active (with_accepted (ev_now env) (sess st s)) else sess st x)) as Hst2.
  { intros x. unfold st2. rewrite sess_upd. change (sess (set_rejects rej (now_active env s uid st))) with
      (sess (upd s (fun se => with_active (with_accepted (ev_now env) se)) st)). rewrite !sess_upd.
    rewrite (bool_decide_eq_false_2 (s = old)) by done. by repeat case_bool_decide. }
  assert (se_state (sess st2 old) <> Closed) as Hopen by (rewrite Hst2, bool_decide_eq_true_2 by done; cbn; congruence).
  destruct (closed_run old (close_code code) env st2 Hopen) as [hist ->]. unfold ran. cbn [fst snd].
  assert (tells st2 old = None) as ->.
  { unfold tells. rewrite Hst2, bool_decide_eq_true_2 by done. cbn [se_uid with_reason]. rewrite Uold. cbn [mbind option_bind].
    change (ns_active st2) with (<[uid := s]> (ns_active st)). rewrite lookup_insert_eq. rewrite bool_decide_eq_false_2; [done|]. congruence. }
  set (st3 := Build_Server _ _ _ _ _ _ _ _ _ _ _). split_and!; [|done|by intros u; rewrite drops_app, Ha].
  intros u x. rewrite (sess_closed st2 old x st3 eq_refl), Hst2. change (ns_active st3) with (<[uid := s]> (ns_active st)).
  destruct (decide (old = x)) as [<-|Hox].
  - rewrite bool_decide_eq_true_2 by done. split; [|by intros (? & _)]. intros Hx. exfalso.
    apply lookup_insert_Some in Hx as [[_ ?]|[? Hx]]; [congruence|]. apply Hr in Hx as (_ & _ & ?). congruence.
  - rewrite bool_decide_eq_false_2 by done. destruct (decide (s = x)) as [<-|Hsx].
    + rewrite Hst2, (bool_decide_eq_false_2 (old = s)), bool_decide_eq_true_2 by done. cbn [se_state se_active se_uid with_active with_accepted].
      rewrite Hs, Hu. destruct (decide (uid = u)) as [<-|Hu']; [by rewrite lookup_insert_eq|]. rewrite lookup_insert_ne by done.
      split; [|intros (_ & _ & ?); congruence]. intros Hx. apply Hr in Hx as (_ & _ & ?). congruence.
    + rewrite Hst2, (bool_decide_eq_false_2 (old = x)), bool_decide_eq_false_2 by done. rewrite <- (Hr u x).
      destruct (decide (uid = u)) as [<-|Hu']; [|by rewrite lookup_insert_ne]. rewrite lookup_insert_eq, Hold. split; congruence.
Qed.

(** The same, when there is no older one. *)
Lemma first_routes env s uid st : routed st -> se_state (sess st s) = Authenticated -> se_uid (sess st s) = Some uid ->
  ns_active st !! uid = None -> routed (now_active env s uid st).
Proof.
  intros Hr Hs Hu Hnone u x. change (sess (now_active env s uid st)) with (sess (upd s (fun se => with_active (with_accepted (ev_now env) se)) st)).
  rewrite sess_upd. cbn [ns_active now_active set_active]. destruct (decide (s = x)) as [<-|Hsx].
  - rewrite bool_decide_eq_true_2 by done. cbn [se_state se_active se_uid with_active with_accepted]. rewrite Hs, Hu.
    destruct (decide (uid = u)) as [<-|Hu']; [by rewrite lookup_insert_eq|]. rewrite lookup_insert_ne by done.
    split; [|intros (_ & _ & ?); congruence]. intros Hx. apply Hr in Hx as (_ & _ & ?). congruence.
  - rewrite bool_decide_eq_false_2 by done. rewrite <- (Hr u x).
    destruct (decide (uid = u)) as [<-|Hu']; [|by rewrite lookup_insert_ne]. rewrite lookup_insert_eq, Hnone. split; congruence.
Qed.

(** The run of [activate] after the packet was counted. *)
Lemma activate_run s uid env st : ran (activate s uid env (upd s (with_accepted (ev_now env)) st)) (fun acts st3 =>
  quiet plain (now_active env s uid st) acts st3 /\
  (tidy st -> routed st -> se_state (sess st s) = Authenticated -> se_active (sess st s) = false -> se_uid (sess st s) = Some uid ->
   routed st3 /\ ns_active st3 = <[uid := s]> (ns_active st) /\ forall u, drops u acts = [])).
Proof.
  unfold activate. run. rewrite upd_upd. change (ns_active (upd s _ st)) with (ns_active st).
  match goal with |- context [set_active _ ?x] => change (set_active _ x) with (now_active env s uid st) end.
  destruct (ns_active st !! uid) as [old|] eqn:Eo.
  - destruct (Nat.eqb_spec old s) as [->|Hne].
    + split; [apply composes_nil|]. intros _ Hr _ Ha _. apply Hr in Eo as (_ & ? & _). congruence.
    + split; [apply quiet_fail, plain_may_close|]. intros Ht Hr Hs _ Hu. by apply replace_routes.
  - split; [apply composes_nil|]. intros _ Hr Hs _ Hu. split; [by apply first_routes|]. done.
Qed.

Lemma effect_result s result env st : ran (packetResult cfg s result env st) (effect env st (EResult s result)).
Proof.
  unfold packetResult. run. case_bool_decide as Hs; cbn [negb]; [|apply ran_quiet; [quietly|done..]].
  destruct result as [p route ack|u reason]; [|apply ran_quiet; [quietly|done..]]. run.
  destruct (se_active (sess st s)) eqn:Ea.
  - rewrite (run_silent env _ _ _ tt (upd s (with_accepted (ev_now env)) st)) by done. eapply eff_accepted; [done|done|].
    eapply quiet_upd; [|apply quiet_acknowledge]. counters.
  - set (uid := default EmptyString (se_uid (sess st s))). pose proof (activate_run s uid env st) as Hact.
    destruct (activate s uid env _) as [[[] st3] acts] eqn:Erun. destruct Hact as [Hq Hroutes]. cbn [fst snd] in *.
    rewrite (run_bind _ _ _ _ _ _ _ Erun). pose proof (quiet_acknowledge cfg s p env st3) as Hk.
    destruct (acknowledge cfg s p env st3) as [[[] st'] more]. unfold ran. cbn [fst snd] in *.
    eapply eff_activated; [done|done|reflexivity|exact Hq| |exact Hk]. intros Ht Hr Hu. apply Hroutes; try done.
    unfold uid. by destruct (se_uid (sess st s)).
Qed.

Lemma effect_message s data b env st : ran (message cfg s data b env st) (effect env st (EMessage s data b)).
Proof.
  unfold message. run. destruct (se_state (sess st s)) eqn:Es.
  - run. destruct (b || _) eqn:Eb.
    + exact (effect_failed s data b (with_heard (ev_mono env)) BadMessage "auth expected" "auth expected" env st ltac:(counters)).
    + apply orb_false_iff in Eb as [-> _]. by apply effect_authenticate.
  - run. destruct b; cbn [negb].
    2: exact (effect_failed s data false (with_heard (ev_mono env)) BadMessage "unexpected control message" "unexpected control message" env st
                ltac:(counters)).
    destruct (withinRate_run cfg s (Z.of_nat (length data)) env (upd s (with_heard (ev_mono env)) st)) as [[Hin E]|(st' & acts & E & Hq)];
      rewrite sess_upd_eq in *; cbn [se_msgs se_bytes se_at_ with_heard] in *; rewrite upd_upd in *.
    + rewrite (run_silent env _ _ _ _ _ E). set (st1 := upd s _ st).
      destruct (quiet_packet s data env st1) as (acts & -> & ->). unfold ran. cbn [fst snd]. unfold st1 at 1 2. rewrite sess_upd_eq.
      apply andb_true_iff in Hin as [H1%Qle_bool_iff H2%Qle_bool_iff]. by apply eff_heard.
    + rewrite (run_bind _ _ _ _ _ _ _ E). unfold ran. cbn. rewrite app_nil_r. by eapply eff_dropped.
  - apply eff_quiet; [apply composes_nil| |done]. intros s' d b' [= <- _ _]. cbn. congruence.
Qed.

Lemma ran_discard {A} (m : M A) env st P : ran (m env st) P -> ran ((m ;; mret tt) env st) P.
Proof. unfold ran, mbind, M_bind. destruct (m env st) as [[x st1] a]. cbn. by rewrite app_nil_r. Qed.

Lemma effect_admit s p env st : ran ((admit_packet s p ;; mret tt) env st) (effect env st (EAdmit s p)).
Proof.
  apply ran_discard. unfold admit_packet. run. case_bool_decide as Hs; cbn [negb]; [|apply eff_quiet; [apply composes_nil|done..]].
  pose proof (eff_admitted env st s p Hs) as He. cbn zeta in He.
  destruct (judge _ _ _ _) as [reason b] eqn:Ej. run. exact He.
Qed.

Lemma effect_downlink s datagram env st : ran ((downlink s datagram ;; mret tt) env st) (effect env st (EDownlink s datagram)).
Proof.
  apply ran_discard, eff_sent; [|apply quiet_downlink]. intros a Ha ->. revert Ha. unfold downlink. run.
  case_bool_decide as Hs; [done|]. cbn. by intros ?%not_elem_of_nil.
Qed.

Lemma effect_grant s seq build env st : ran ((grant cfg s seq build ;; mret tt) env st) (effect env st (EGrant s seq build)).
Proof.
  apply ran_discard. unfold grant. run.
  destruct (se_uid (sess st s)) as [uid|] eqn:Eu; [|apply eff_quiet; [apply composes_nil|done..]].
  destruct (ev_approved env uid build) eqn:Ea; cbn [negb]; [|apply eff_quiet; [apply composes_nil|done..]].
  unfold revokeGrants. run. eapply eff_granted; [exact Eu|exact Ea|]. apply quiet_control.
Qed.

(** Every handler does what [effect] says. *)
Lemma handle_effect e env st : ran (handle cfg e env st) (effect env st e).
Proof.
  destruct e; cbn [handle].
  - apply effect_http.
  - apply eff_download_end.
  - apply effect_upgrade.
  - apply effect_message.
  - apply ran_quiet; [quietly|done..].
  - apply ran_quiet; [apply quiet_closed, plain_may_close|done..].
  - apply ran_quiet; [quietly|done..].
  - apply effect_admit.
  - apply effect_result.
  - apply ran_quiet; [apply quiet_fail, plain_may_close|done..].
  - apply effect_downlink.
  - apply effect_grant.
  - apply eff_revoked.
  - unfold beat. run. apply eff_beat. apply (keeps_each _). intros s. apply quiet_beat_session.
  - apply ran_quiet; [apply quiet_close|done..].
Qed.

(** A step is the effect of its event, or nothing when the event cannot be. *)
Lemma step_effect ev st st' acts : step cfg st ev = (st', acts) ->
  (possible st ev.2 = true /\ effect ev.1 st ev.2 acts st') \/ (possible st ev.2 = false /\ st' = st /\ acts = []).
Proof.
  unfold step. pose proof (handle_effect ev.2 ev.1 st) as He. destruct (possible st ev.2); [|by intros [= <- <-]; right].
  destruct (handle cfg ev.2 ev.1 st) as [[u st1] a]. intros [= <- <-]. by left.
Qed.

(** ** Only the proven are heard *)

(** The session was opened with this challenge and has said nothing since. *)
Definition challenged_in (evs : list (Env * Event)) (s : nat) (nonce : string) : Prop :=
  exists before env url protocols peer cf after, evs = before ++ (env, EUpgrade url protocols peer cf (Some s)) :: after /\
    nonce = to_hex (ev_nonce env) /\ Forall (fun ev => forall data b, ev.2 <> EMessage s data b) after.

(** Its first message answered its own challenge with a MAC under [key], one of
    the keys of the registered node [uid] at that moment. *)
Definition proven (evs : list (Env * Event)) (s : nat) (uid : string) (key : list Z) : Prop :=
  exists before env nonce data i after, evs = before ++ (env, EMessage s data false) :: after /\
    challenged_in before s nonce /\ answered env nonce data uid i key.

Lemma proven_snoc evs ev s uid key : proven evs s uid key -> proven (evs ++ [ev]) s uid key.
Proof.
  intros (before & env & nonce & data & i & after & -> & Hc & Ha). exists before, env, nonce, data, i, (after ++ [ev]).
  split; [by rewrite <- app_assoc|done].
Qed.

Lemma challenged_snoc evs ev s nonce : challenged_in evs s nonce -> (forall data b, ev.2 <> EMessage s data b) -> challenged_in (evs ++ [ev]) s nonce.
Proof.
  intros (before & env & url & protocols & peer & cf & after & -> & Hn & Hf) Hev. exists before, env, url, protocols, peer, cf, (after ++ [ev]).
  split_and!; [by rewrite <- app_assoc|done|]. apply Forall_app. split; [done|by repeat constructor].
Qed.

Section sessions_ok.
Context (ch : nat -> string -> Prop) (pr : nat -> string -> list Z -> Prop).

(** What a session that was challenged, or proven, looks like. *)
Record session_ok (s : nat) (se : Session) : Prop := {
  so_challenged : se_state se = Challenged -> se_uid se = None /\ se_active se = false /\ (se_nonce se = EmptyString \/ ch s (se_nonce se));
  so_proven uid : se_uid se = Some uid -> exists r, se_route se = Some r /\ nr_uid r = uid /\ pr s uid (nr_key r);
  so_unproven : se_uid se = None -> se_route se = None /\ se_state se <> Authenticated }.

Record sessions_ok (st : Server) : Prop := { sk_tidy : tidy st; sk_session s : session_ok s (sess st s) }.

Lemma session_ok_ext s se se' : ident se' = ident se -> se_state se' = se_state se \/ se_state se' = Closed -> session_ok s se -> session_ok s se'.
Proof.
  intros (_ & En & _ & Eu & _ & Er & _ & Ea)%ident_fields Hst [c p u]. split; rewrite ?En, ?Eu, ?Er, ?Ea.
  - destruct Hst as [->|Hc]; [done|congruence].
  - done.
  - destruct Hst as [->|Hc]; [done|]. intros Hn. split; [by apply u|congruence].
Qed.

Lemma sessions_ok_quiet P st acts st' : quiet P st acts st' -> sessions_ok st -> sessions_ok st'.
Proof.
  intros Hq [Ht Hs]. split; [by apply (q_tidy _ _ _ _ Hq)|]. intros s. eapply session_ok_ext; [apply (q_ident _ _ _ _ Hq)|apply (q_state _ _ _ _ Hq)|done].
Qed.

(** One session changes in its own way. *)
Lemma sessions_ok_upd s f st st' : (forall x, sess st' x = sess (upd s f st) x) -> ns_pending st' = ns_pending st -> ns_authed st' = ns_authed st ->
  se_state (f (sess st s)) = se_state (sess st s) -> (session_ok s (sess st s) -> session_ok s (f (sess st s))) -> sessions_ok st -> sessions_ok st'.
Proof.
  intros Hst Hp Ha Hstate Hf [Ht Hs]. split.
  - eapply tidy_ext; [exact Hp|exact Ha| |done]. intros x. rewrite Hst, sess_upd. case_bool_decide; by subst.
  - intros x. rewrite Hst, sess_upd. case_bool_decide; [subst; by apply Hf|done].
Qed.
End sessions_ok.

Lemma sessions_ok_weaken ch pr ch' pr' st : (forall s nonce, se_state (sess st s) = Challenged -> ch s nonce -> ch' s nonce) ->
  (forall s uid key, pr s uid key -> pr' s uid key) -> sessions_ok ch pr st -> sessions_ok ch' pr' st.
Proof.
  intros Hc Hp [Ht Hs]. split; [done|]. intros s. destruct (Hs s) as [c p u]. split; [|naive_solver|done].
  intros E. destruct (c E) as (? & ? & [|]); eauto.
Qed.

Lemma sess_fresh st s : ns_heap st !! s = None -> sess st s = no_session.
Proof. unfold sess. by intros ->. Qed.

Lemma sess_opened env s source st m x : sess (opened env s source (set_upgrades m st)) x = if bool_decide (s = x) then blank_session env source else sess st x.
Proof. unfold sess, opened. cbn. case_bool_decide as E; [subst; by rewrite lookup_insert_eq|by rewrite lookup_insert_ne]. Qed.

Lemma tidy_opened env s source st m : ns_heap st !! s = None -> tidy st -> tidy (opened env s source (set_upgrades m st)).
Proof.
  intros Hfresh [p a np na]. assert (se_state (sess st s) = Closed) as Hs by by rewrite sess_fresh.
  split; [| | |done]; cbn [ns_pending ns_authed opened set_pending set_heap set_upgrades].
  - intros x. rewrite elem_of_app, list_elem_of_singleton, sess_opened, p. case_bool_decide; [subst; cbn; naive_solver|naive_solver].
  - intros x. rewrite sess_opened, a. case_bool_decide; [subst; cbn; rewrite Hs; naive_solver|done].
  - apply nodup_snoc; [done|]. rewrite p, Hs. done.
Qed.

Lemma routed_opened env s source st m : ns_heap st !! s = None -> routed st -> routed (opened env s source (set_upgrades m st)).
Proof.
  intros Hfresh Hr uid x. rewrite sess_opened. cbn [ns_active opened set_pending set_heap set_upgrades]. rewrite (Hr uid x).
  case_bool_decide; [subst|done]. rewrite sess_fresh by done. cbn. naive_solver.
Qed.

Lemma sess_proved env s uid i key hist st x : sess (proved_to env s uid i key hist st) x = if bool_decide (s = x) then proven_session env uid i key (sess st s) else sess st x.
Proof. exact (sess_upd s (proven_session env uid i key) st x). Qed.

Lemma tidy_proved env s uid i key hist st : se_state (sess st s) = Challenged -> tidy st -> tidy (proved_to env s uid i key hist st).
Proof.
  intros Hs [p a np na]. split; cbn [ns_pending ns_authed proved_to set_history set_authed set_pending];
    [| |by apply without_NoDup|apply nodup_snoc; [done|]; change (ns_authed (upd s _ st)) with (ns_authed st); by rewrite a, Hs].
  - intros x. rewrite elem_without, sess_proved. change (ns_pending (upd s _ st)) with (ns_pending st). rewrite p. case_bool_decide; [subst; cbn; naive_solver|naive_solver].
  - intros x. rewrite elem_of_app, list_elem_of_singleton, sess_proved. change (ns_authed (upd s _ st)) with (ns_authed st). rewrite a.
    case_bool_decide; [subst; cbn; naive_solver|naive_solver].
Qed.

Lemma routed_proved env s uid i key hist st : se_state (sess st s) = Challenged -> se_active (sess st s) = false -> routed st -> routed (proved_to env s uid i key hist st).
Proof.
  intros Hs Ha Hr u x. rewrite sess_proved. change (ns_active (proved_to env s uid i key hist st)) with (ns_active st). rewrite (Hr u x).
  case_bool_decide; [subst|done]. cbn. rewrite Ha. split; [|by intros (_ & ? & _)]. by intros (_ & ? & _).
Qed.

(** Case analysis on an effect, with the names used below. *)
Ltac case_effect He :=
  destruct He as [e acts st' Hq Hmsg Hrev
    | url method authorization token g bytes Hbearer Hget Hlive Happ Himage Hroom |
    | url protocols peer cf ws m acts st' Hm Hq
    | url protocols peer cf s source m acts st' Hm Hpend Hroom Hpersource Hq
    | s data f acts st' Hch Hf Hq
    | s data uid i key hist acts st' Hch Hans Hroom Hq
    | s data se t n msgs bs Hauth Hmsgs Hbs
    | s data acts st' se t msgs bs Hauth Hq
    | s p Hauth h r
    | s p route ack acts st' Hauth Hact Hq
    | s p route ack uid acts st3 more st' Hauth Hact Huid Hq Hroutes Hq2
    | s datagram acts st' Hsend Hq
    | s seq build uid acts st' Huid Happ token g Hq
    | uid
    | acts st' Hq].

(** What an event can do to the route of a node. *)
Inductive route_step (st : Server) (e : Event) (acts : list Action) (st' : Server) (uid : string) : Prop :=
| rs_kept : ns_active st' !! uid = ns_active st !! uid -> drops uid acts = [] -> route_step st e acts st' uid
| rs_dropped s : ns_active st !! uid = Some s -> ns_active st' !! uid = None -> se_state (sess st' s) = Closed ->
    drops uid acts = [se_sessionId (sess st s)] -> route_step st e acts st' uid
| rs_taken s p route ack : e = EResult s (Accepted p route ack) -> se_state (sess st s) = Authenticated -> se_uid (sess st s) = Some uid ->
    (forall old, ns_active st !! uid = Some old -> old <> s /\ se_state (sess st' old) = Closed) ->
    (ns_active st' !! uid = Some s /\ drops uid acts = [] \/
     ns_active st' !! uid = None /\ drops uid acts = [se_sessionId (sess st s)]) -> route_step st e acts st' uid.

Lemma routes_quiet P st e acts st' : tidy st -> routed st -> quiet P st acts st' -> routed st' /\ forall uid, route_step st e acts st' uid.
Proof.
  intros Ht Hr Hq. destruct (q_routed _ _ _ _ Hq Ht Hr) as [Hr' Hk]. split; [done|]. intros uid.
  destruct (Hk uid) as [[? ?]|(s & ? & ? & ? & ?)]; [by apply rs_kept|by eapply rs_dropped].
Qed.

(** The own change of the handler leaves the routes alone. *)
Lemma routes_from P st st1 e acts st' : tidy st1 -> routed st1 -> ns_active st1 = ns_active st ->
  (forall s uid, ns_active st !! uid = Some s -> se_sessionId (sess st1 s) = se_sessionId (sess st s)) ->
  quiet P st1 acts st' -> routed st' /\ forall uid, route_step st e acts st' uid.
Proof.
  intros Ht Hr Ha Hid Hq. destruct (routes_quiet P st1 e acts st' Ht Hr Hq) as [Hr' _]. split; [done|]. intros uid.
  destruct (proj2 (q_routed _ _ _ _ Hq Ht Hr) uid) as [[E ?]|(s & E & ? & ? & D)]; rewrite Ha in E; [by apply rs_kept|].
  eapply rs_dropped; try done. rewrite D. f_equal. by eapply Hid.
Qed.

Lemma routes_same st e acts st' : ns_active st' = ns_active st -> (forall uid, drops uid acts = []) -> forall uid, route_step st e acts st' uid.
Proof. intros Ha Hd uid. apply rs_kept; [by rewrite Ha|done]. Qed.

Lemma tidy_upd s f st : (forall se, se_state (f se) = se_state se) -> tidy st -> tidy (upd s f st).
Proof. intros Hf. apply tidy_ext; [done|done|]. intros x. rewrite sess_upd. case_bool_decide; [subst; apply Hf|done]. Qed.

Lemma routed_upd s f st : (forall se, se_state (f se) = se_state se /\ se_uid (f se) = se_uid se /\ se_active (f se) = se_active se) -> routed st -> routed (upd s f st).
Proof.
  intros Hf Hr uid x. rewrite sess_upd. change (ns_active (upd s f st)) with (ns_active st). rewrite (Hr uid x).
  case_bool_decide; [subst|done]. by destruct (Hf (sess st x)) as (-> & -> & ->).
Qed.

Lemma tidy_tables st st' : ns_heap st' = ns_heap st -> ns_pending st' = ns_pending st -> ns_authed st' = ns_authed st -> tidy st -> tidy st'.
Proof. intros Hh Hp Ha. apply tidy_ext; [done|done|]. intros s. unfold sess. by rewrite Hh. Qed.

Lemma tidy_now_active env s uid st : tidy st -> tidy (now_active env s uid st).
Proof.
  intros Ht. refine (tidy_ext (upd s (fun se => with_active (with_accepted (ev_now env) se)) st) (now_active env s uid st) eq_refl eq_refl (fun _ => eq_refl) _).
  by apply tidy_upd.
Qed.

Lemma heard_drops uid s data (r : option NodeRoute) sid :
  drops uid (match r with Some r => [AIngest s data ("ws:" +:+ nr_uid r +:+ ":" +:+ sid)] | None => [] end) = [].
Proof. by destruct r. Qed.

Lemma activated_routes env s uid st acts st3 more st' e p route ack : e = EResult s (Accepted p route ack) ->
  tidy st -> routed st -> se_state (sess st s) = Authenticated -> se_active (sess st s) = false -> se_uid (sess st s) = Some uid ->
  quiet plain (now_active env s uid st) acts st3 ->
  routed st3 -> ns_active st3 = <[uid := s]> (ns_active st) -> (forall u, drops u acts = []) ->
  quiet (acks s p) st3 more st' -> routed st' /\ forall u, route_step st e (acts ++ more) st' u.
Proof.
  intros -> Ht Hr Hs Hinact Hu Hq Hr3 Ha3 Hd Hq2. pose proof (tidy_now_active env s uid st Ht) as Ht2.
  pose proof (q_tidy _ _ _ _ Hq Ht2) as Ht3. destruct (q_routed _ _ _ _ Hq2 Ht3 Hr3) as [Hr' Hk]. split; [done|]. intros u.
  assert (forall x, se_sessionId (sess st3 x) = se_sessionId (sess st x)) as Hid.
  { intros x. pose proof (q_ident _ _ _ _ Hq x) as (_ & _ & _ & _ & -> & _)%ident_fields. unfold now_active.
    change (sess (set_active _ ?z) x) with (sess z x). rewrite sess_upd. case_bool_decide; by subst. }
  specialize (Hk u). destruct (decide (u = uid)) as [->|Hne].
  - assert (forall old, ns_active st !! uid = Some old -> old <> s /\ se_state (sess st' old) = Closed) as Hold.
    { intros old Ho. apply Hr in Ho as Ho'. destruct Ho' as (So & Ao & Uo). assert (old <> s) as Hne by congruence. split; [done|].
      assert (se_state (sess st3 old) = Closed) as Hc.
      { destruct (q_state _ _ _ _ Hq old) as [E|E]; [|done]. exfalso.
        assert (sess (now_active env s uid st) old = sess st old) as E2.
        { unfold now_active. change (sess (set_active _ ?z) old) with (sess z old). by rewrite sess_upd, bool_decide_eq_false_2. }
        rewrite E2, So in E. pose proof (q_ident _ _ _ _ Hq old) as (_ & _ & _ & Eu & _ & _ & _ & Ea)%ident_fields. rewrite E2 in Eu, Ea.
        assert (ns_active st3 !! uid = Some old) as E3 by (apply Hr3; rewrite E, Eu, Ea; done). rewrite Ha3, lookup_insert_eq in E3. congruence. }
      destruct (q_state _ _ _ _ Hq2 old) as [->|]; done. }
    eapply rs_taken; try done. rewrite drops_app, Hd. destruct Hk as [[E D]|(x & E & E' & _ & D)]; rewrite Ha3, lookup_insert_eq in E.
    + left. done.
    + right. injection E as [= ->]. by rewrite Hid in D.
  - destruct Hk as [[E D]|(x & E & E' & Hc & D)]; rewrite Ha3, lookup_insert_ne in E by done.
    + apply rs_kept; [done|]. by rewrite drops_app, Hd, D.
    + eapply rs_dropped; try done. by rewrite drops_app, Hd, D, Hid.
Qed.

Lemma fresh_ws st url protocols peer cf s : possible st (EUpgrade url protocols peer cf (Some s)) = true -> ns_heap st !! s = None.
Proof. cbn. by rewrite negb_true, bool_decide_eq_false, <- eq_None_not_Some. Qed.

Lemma effect_routes ch pr env e st acts st' : sessions_ok ch pr st -> routed st -> possible st e = true -> effect env st e acts st' ->
  routed st' /\ forall uid, route_step st e acts st' uid.
Proof.
  intros [Ht Hs] Hr Hposs He. case_effect He.
  - by eapply routes_quiet.
  - split; [done|]. by apply routes_same.
  - split; [done|]. by apply routes_same.
  - eapply (routes_from plain st (set_upgrades m st)); try done. by apply (tidy_tables st).
  - apply fresh_ws in Hposs.
    eapply (routes_from _ st (opened env s source (set_upgrades m st))); [by apply tidy_opened|exact (routed_opened env s source st m Hposs Hr)|done| |done].
    intros x uid Hx. rewrite sess_opened, bool_decide_eq_false_2; [done|]. intros ->. apply Hr in Hx as (Hx & _). by rewrite sess_fresh in Hx.
  - eapply (routes_from _ st (upd s f st)); [apply tidy_upd; [apply Hf|done]| |done| |done].
    + apply routed_upd; [|done]. intros se. by destruct (Hf se) as (_ & ? & ? & _ & _ & _ & ? & _).
    + intros x uid _. rewrite sess_upd. case_bool_decide; [subst; apply Hf|done].
  - assert (se_active (sess st s) = false) as Ha by by destruct (so_challenged _ _ _ _ (Hs s) Hch) as (_ & ? & _).
    eapply (routes_from _ st (proved_to env s uid i key hist st)); [by apply tidy_proved| |done| |done].
    + exact (routed_proved env s uid i key hist st Hch Ha Hr).
    + intros x u _. rewrite sess_proved. case_bool_decide; by subst.
  - split; [by apply routed_upd|]. apply routes_same; [done|]. intros u. apply heard_drops.
  - eapply (routes_from _ st _); [| | | |exact Hq]; [by apply tidy_upd|by apply routed_upd|done|].
    intros x u _. rewrite sess_upd. case_bool_decide; by subst.
  - split; [done|]. by apply routes_same.
  - by eapply routes_quiet.
  - destruct (se_uid (sess st s)) as [u|] eqn:Eu; [|by destruct (so_unproven _ _ _ _ (Hs s) Eu)]. cbn in *. subst.
    destruct (Hroutes Ht Hr ltac:(done)) as (Hr3 & Ha3 & Hd). by eapply activated_routes.
  - by eapply routes_quiet.
  - eapply (routes_from _ st _); [| | | |exact Hq]; try done. by apply (tidy_tables st).
  - split; [done|]. by apply routes_same.
  - eapply (routes_from _ st _); [| | | |exact Hq]; try done. by apply (tidy_tables st).
Qed.

Lemma session_ok_snoc evs ev x se : session_ok (challenged_in evs) (proven evs) x se ->
  (se_state se = Challenged -> forall data b, ev.2 <> EMessage x data b) ->
  session_ok (challenged_in (evs ++ [ev])) (proven (evs ++ [ev])) x se.
Proof.
  intros [c p u] Hev. split; [| |done].
  - intros Hc. destruct (c Hc) as (? & ? & [|Hch]); split_and!; eauto using challenged_snoc.
  - intros w Hw. destruct (p w Hw) as (r & ? & ? & ?). exists r. eauto using proven_snoc.
Qed.

Lemma sessions_ok_snoc evs ev st : sessions_ok (challenged_in evs) (proven evs) st ->
  (forall s data b, ev.2 = EMessage s data b -> se_state (sess st s) <> Challenged) ->
  sessions_ok (challenged_in (evs ++ [ev])) (proven (evs ++ [ev])) st.
Proof. intros [Ht Hs] Hev. split; [done|]. intros x. apply session_ok_snoc; [done|]. intros Hc data b E. by eapply Hev. Qed.

Lemma sessions_ok_tables ch pr st st' : ns_heap st' = ns_heap st -> ns_pending st' = ns_pending st -> ns_authed st' = ns_authed st ->
  sessions_ok ch pr st -> sessions_ok ch pr st'.
Proof. intros Hh Hp Ha [Ht Hs]. split; [by apply (tidy_tables st)|]. intros s. unfold sess. rewrite Hh. apply Hs. Qed.

Lemma sessions_ok_opened evs env s url protocols peer cf source m st :
  ns_heap st !! s = None -> sessions_ok (challenged_in evs) (proven evs) st ->
  let evs := evs ++ [(env, EUpgrade url protocols peer cf (Some s))] in
  sessions_ok (challenged_in evs) (proven evs) (opened env s source (set_upgrades m st)).
Proof.
  intros Hfresh Hok evs'. assert (sessions_ok (challenged_in evs') (proven evs') st) as [Ht Hs] by by apply sessions_ok_snoc.
  split; [by apply tidy_opened|]. intros x. rewrite sess_opened. case_bool_decide; [|apply Hs]. subst. split; [|done|done].
  intros _. split_and!; [done|done|]. right. exists evs, env, url, protocols, peer, cf, []. by split_and!.
Qed.

Lemma sessions_ok_spent evs env s data b f st : spends f -> sessions_ok (challenged_in evs) (proven evs) st ->
  let evs := evs ++ [(env, EMessage s data b)] in sessions_ok (challenged_in evs) (proven evs) (upd s f st).
Proof.
  intros Hf [Ht Hs] evs'. split; [apply tidy_upd; [apply Hf|done]|]. intros x. rewrite sess_upd. case_bool_decide; subst.
  - destruct (Hf (sess st x)) as (Fn & Fs & Fu & Fr & _ & _ & Fa & _). destruct (Hs x) as [c p u]. split; rewrite ?Fn, ?Fs, ?Fu, ?Fr, ?Fa; [|naive_solver eauto using proven_snoc|done].
    intros Hc. destruct (c Hc) as (? & ? & _). auto.
  - apply session_ok_snoc; [done|]. cbn. congruence.
Qed.

Lemma parse_auth_nonce data uid nonce mac : parse_auth data = Ok (uid, nonce, mac) -> is_hex64 nonce = true.
Proof.
  unfold parse_auth. destruct (json_parse data ≫= as_object) as [m|]; [|done]. destruct (field "uid" m ≫= as_string); [|done].
  destruct (field "nonce" m ≫= as_string); [|done]. destruct (field "mac" m ≫= as_string); [|done].
  destruct (_ || _) eqn:E; [done|]. intros [= -> -> ->]. bprop. tauto.
Qed.

Lemma sessions_ok_proved evs env s data uid i key hist st : se_state (sess st s) = Challenged -> answered env (se_nonce (sess st s)) data uid i key ->
  sessions_ok (challenged_in evs) (proven evs) st ->
  let evs := evs ++ [(env, EMessage s data false)] in sessions_ok (challenged_in evs) (proven evs) (proved_to env s uid i key hist st).
Proof.
  intros Hch Hans [Ht Hs] evs'. destruct (so_challenged _ _ _ _ (Hs s) Hch) as (Hu & Ha & Hn). split; [by apply tidy_proved|].
  intros x. rewrite sess_proved. case_bool_decide; subst.
  - split; [done| |done]. intros w [= <-]. eexists. split_and!; [reflexivity|done|]. cbn [nr_key]. destruct Hn as [Hn|Hn].
    + destruct Hans as (mac & keys & Hp%parse_auth_nonce & _). by rewrite Hn in Hp.
    + by exists evs, env, (se_nonce (sess st x)), data, i, [].
  - apply session_ok_snoc; [done|]. cbn. congruence.
Qed.

Lemma effect_sessions evs env e st acts st' : sessions_ok (challenged_in evs) (proven evs) st -> possible st e = true ->
  effect env st e acts st' -> sessions_ok (challenged_in (evs ++ [(env, e)])) (proven (evs ++ [(env, e)])) st'.
Proof.
  intros Hok Hposs He. pose proof (sessions_ok_snoc evs (env, e) st Hok) as Hlift. cbn [snd] in Hlift.
  case_effect He; [apply sessions_ok_snoc; [by eapply sessions_ok_quiet|done]|..]; try (eapply sessions_ok_quiet; [eassumption|]).
  - apply (sessions_ok_tables _ _ st); [done..|by apply Hlift].
  - apply (sessions_ok_tables _ _ st); [done..|by apply Hlift].
  - apply (sessions_ok_tables _ _ st); [done..|by apply Hlift].
  - apply fresh_ws in Hposs. by apply sessions_ok_opened.
  - by apply sessions_ok_spent.
  - by apply sessions_ok_proved.
  - eapply (sessions_ok_upd _ _ s _ st); [done|done|done|done| |apply Hlift; intros ? ? ? [= <- _ _]; unfold se in *; congruence].
    apply session_ok_ext; [done|by left].
  - eapply (sessions_ok_upd _ _ s _ st); [done|done|done|done| |apply Hlift; intros ? ? ? [= <- _ _]; unfold se in *; congruence].
    apply session_ok_ext; [done|by left].
  - apply (sessions_ok_tables _ _ st); [done..|by apply Hlift].
  - by apply Hlift.
  - eapply sessions_ok_quiet; [exact Hq|].
    eapply (sessions_ok_upd _ _ s (fun se => with_active (with_accepted (ev_now env) se)) st); [done|done|done|done| |by apply Hlift].
    intros [c p' u]. split; cbn; [congruence|done|done].
  - by apply Hlift.
  - apply (sessions_ok_tables _ _ st); [done..|by apply Hlift].
  - apply (sessions_ok_tables _ _ st); [done..|by apply Hlift].
  - apply (sessions_ok_tables _ _ st); [done..|by apply Hlift].
Qed.

Lemma serve_snoc st evs ev : serve cfg st (evs ++ [ev]) =
  (let '(st1, a) := serve cfg st evs in let '(st2, b) := step cfg st1 ev in (st2, a ++ [b])).
Proof.
  revert st; induction evs as [|ev' evs IH]; intros st; cbn [serve app]; [by destruct (step cfg st ev)|].
  destruct (step cfg st ev') as [st1 a]. rewrite IH. destruct (serve cfg st1 evs) as [st2 b]. by destruct (step cfg st2 ev).
Qed.

(** The server after the events, and all it did. *)
Definition after (evs : list (Env * Event)) : Server := (serve cfg new_server evs).1.
Definition done_in (evs : list (Env * Event)) : list Action := concat (serve cfg new_server evs).2.

Lemma after_snoc evs ev : after (evs ++ [ev]) = (step cfg (after evs) ev).1.
Proof. unfold after. rewrite serve_snoc. destruct (serve cfg new_server evs) as [st a]. cbn. by destruct (step cfg st ev). Qed.

Lemma done_in_snoc evs ev : done_in (evs ++ [ev]) = done_in evs ++ (step cfg (after evs) ev).2.
Proof.
  unfold done_in, after. rewrite serve_snoc. destruct (serve cfg new_server evs) as [st a]. cbn. destruct (step cfg st ev) as [st2 b]. cbn.
  by rewrite concat_app, (app_nil_r b : concat [b] = b).
Qed.

(** Induction over the events of a server, with the effect of the last one. *)
Lemma after_ind (P : list (Env * Event) -> Prop) : P [] ->
  (forall evs env e acts, P evs -> step cfg (after evs) (env, e) = (after (evs ++ [(env, e)]), acts) ->
     done_in (evs ++ [(env, e)]) = done_in evs ++ acts ->
     (possible (after evs) e = true /\ effect env (after evs) e acts (after (evs ++ [(env, e)]))) \/
     (possible (after evs) e = false /\ after (evs ++ [(env, e)]) = after evs /\ acts = []) -> P (evs ++ [(env, e)])) -> forall evs, P evs.
Proof.
  intros H0 Hs evs. induction evs as [|[env e] evs IH] using rev_ind; [done|]. apply (Hs evs env e (step cfg (after evs) (env, e)).2 IH).
  - rewrite after_snoc. by destruct (step cfg (after evs) (env, e)).
  - apply done_in_snoc.
  - rewrite after_snoc. destruct (step cfg (after evs) (env, e)) as [st' acts] eqn:E.
    destruct (step_effect _ _ _ _ E) as [[Hp He]|(Hp & -> & ->)]; [by left|by right].
Qed.

Lemma sessions_ok_new ch pr : sessions_ok ch pr new_server /\ routed new_server.
Proof.
  assert (forall s, sess new_server s = no_session) as Hs by (intros s; by apply sess_fresh).
  split; [split|].
  - split; [| |constructor|constructor]; intros s; rewrite Hs; split; try done; by intros ?%not_elem_of_nil.
  - intros s. by rewrite Hs.
  - intros uid s. rewrite Hs. split; [done|]. by intros (? & _).
Qed.

Lemma impossible_message st s data b : possible st (EMessage s data b) = false -> se_state (sess st s) = Closed.
Proof.
  cbn. rewrite bool_decide_eq_false. intros Hn%eq_None_not_Some. by rewrite sess_fresh.
Qed.

Lemma reached evs : sessions_ok (challenged_in evs) (proven evs) (after evs) /\ routed (after evs).
Proof.
  induction evs as [|evs env e acts [Hok Hr] _ _ [[Hp He]|(Hp & -> & _)]] using after_ind; [apply sessions_ok_new| |].
  - split; [by eapply effect_sessions|]. by eapply effect_routes.
  - split; [|done]. apply sessions_ok_snoc; [done|]. cbn. intros s data b ->. by rewrite (impossible_message _ _ _ _ Hp).
Qed.

(** The session of a packet that was taken, or of a datagram that was sent, has
    proved itself. *)
Lemma proven_speaks evs s : se_state (sess (after evs) s) = Authenticated ->
  exists r, se_route (sess (after evs) s) = Some r /\ proven evs s (nr_uid r) (nr_key r).
Proof.
  intros Hs. destruct (reached evs) as [[_ Hok] _]. destruct (Hok s) as [_ p u]. destruct (se_uid (sess (after evs) s)) as [w|] eqn:Eu.
  - destruct (p w eq_refl) as (r & ? & <- & ?). eauto.
  - by destruct (u eq_refl).
Qed.

Definition speech (a : Action) : option nat := match a with AIngest s _ _ => Some s | ASend s _ => Some s | _ => None end.

Lemma plain_silent P st acts st' a s : quiet P st acts st' -> (forall a, P a -> speech a = None) -> a ∈ acts -> speech a = Some s -> False.
Proof.
  intros Hq HP Ha Hs. pose proof (q_acts _ _ _ _ Hq) as Hf. rewrite Forall_forall in Hf. specialize (HP a (Hf a Ha)). congruence.
Qed.

Lemma plain_speech a : plain a -> speech a = None.
Proof. by destruct a. Qed.
Lemma or_control_speech s msg a : or_control s msg a -> speech a = None.
Proof. by intros [?%plain_speech|[w ->]]. Qed.
Lemma acks_speech s p a : acks s p a -> speech a = None.
Proof. by intros [?%plain_speech|(_ & w & sid & ->)]. Qed.

(** Only an authenticated session is heard or spoken to. *)
Lemma effect_speech env e st acts st' a sk : effect env st e acts st' -> a ∈ acts -> speech a = Some sk -> se_state (sess st sk) = Authenticated /\
  (forall data addr, a = AIngest sk data addr ->
     exists r, se_route (sess st sk) = Some r /\ addr = "ws:" +:+ nr_uid r +:+ ":" +:+ se_sessionId (sess st sk)).
Proof.
  intros He Ha Hs. case_effect He;
    try (by destruct (plain_silent _ _ _ _ a sk Hq); eauto using plain_speech, or_control_speech, acks_speech);
    try (apply list_elem_of_singleton in Ha; subst; done); try by apply not_elem_of_nil in Ha.
  - destruct (se_route se) as [r|] eqn:Er; [|by apply not_elem_of_nil in Ha]. apply list_elem_of_singleton in Ha as ->. injection Hs as [= <-].
    split; [done|]. intros d addr [= <- <-]. by exists r.
  - apply elem_of_app in Ha as [Ha|Ha]; [destruct (plain_silent _ _ _ _ a sk Hq)|destruct (plain_silent _ _ _ _ a sk Hq2)];
      eauto using plain_speech, acks_speech.
  - pose proof (q_acts _ _ _ _ Hq) as Hf. rewrite Forall_forall in Hf. destruct (Hf a Ha) as [Hp%plain_speech|Hp]; [congruence|].
    subst a. injection Hs as [= <-]. split; [by eapply Hsend|done].
Qed.

(** C6: A node is heard and spoken to only after it proved its key. Every
    packet handed to the ingest came on a session whose first message answered
    that session's own challenge, under a key of the node at that moment, by a
    node that was registered, and it is handed on under the address of that
    node; every datagram sent down went to such a session; and the session a
    node's downlinks go to is one. *)
Theorem only_the_proven_are_heard evs :
  (forall s data addr, AIngest s data addr ∈ done_in evs ->
     exists uid key sid, proven evs s uid key /\ addr = "ws:" +:+ uid +:+ ":" +:+ sid) /\
  (forall s datagram, ASend s datagram ∈ done_in evs -> exists uid key, proven evs s uid key) /\
  (forall uid s, ns_active (after evs) !! uid = Some s -> exists key, proven evs s uid key).
Proof.
  split; [|split].
  - induction evs as [|evs env e acts IH _ -> Hlast] using after_ind; [by intros ? ? ? ?%not_elem_of_nil|].
    intros s data addr [Hin|Hin]%elem_of_app.
    + destruct (IH s data addr Hin) as (uid & key & sid & ? & ?). exists uid, key, sid. eauto using proven_snoc.
    + destruct Hlast as [[_ He]|(_ & _ & ->)]; [|by apply not_elem_of_nil in Hin].
      destruct (effect_speech _ _ _ _ _ _ s He Hin eq_refl) as [Hs Haddr]. destruct (Haddr data addr eq_refl) as (r & Hr & ->).
      destruct (proven_speaks evs s Hs) as (r' & Hr' & Hp). rewrite Hr in Hr'. injection Hr' as [= <-].
      exists (nr_uid r), (nr_key r), (se_sessionId (sess (after evs) s)). eauto using proven_snoc.
  - induction evs as [|evs env e acts IH _ -> Hlast] using after_ind; [by intros ? ? ?%not_elem_of_nil|].
    intros s datagram [Hin|Hin]%elem_of_app.
    + destruct (IH s datagram Hin) as (uid & key & ?). eauto using proven_snoc.
    + destruct Hlast as [[_ He]|(_ & _ & ->)]; [|by apply not_elem_of_nil in Hin].
      destruct (effect_speech _ _ _ _ _ _ s He Hin eq_refl) as [Hs _].
      destruct (proven_speaks evs s Hs) as (r & _ & Hp). eauto using proven_snoc.
  - intros uid s Hact. destruct (reached evs) as [[_ Hok] Hr]. apply Hr in Hact as (_ & _ & Hu).
    destruct (so_proven _ _ _ _ (Hok s) uid Hu) as (r & _ & _ & Hp). eauto.
Qed.

(** The route of a node belongs to its newest session that had a packet
    accepted, and the late close of an older one cannot take it away. After any
    events the route of a node is its one session that is authenticated and
    active; and with the next event, node by node, the route either stays and
    the ingest is told nothing, or goes with the close of its session, which
    the ingest is told once, or is taken by a session whose packet was just
    accepted, and then the session it is taken from is closed and nothing is
    said of it. *)
Theorem route_of_the_newest evs env e :
  routed (after evs) /\ forall uid, route_step (after evs) e (step cfg (after evs) (env, e)).2 (after (evs ++ [(env, e)])) uid.
Proof.
  destruct (reached evs) as [Hok Hr]. split; [done|]. intros uid. rewrite after_snoc.
  destruct (step cfg (after evs) (env, e)) as [st' acts] eqn:E. cbn [fst snd].
  destruct (step_effect _ _ _ _ E) as [[Hp He]|(_ & -> & ->)]; [|by apply rs_kept].
  by eapply effect_routes.
Qed.

(** An acknowledgement is evidence. A node is sent an ACK only in answer to
    a report or status packet of its own authenticated session that the ingest
    has just accepted, with that packet's boot and sequence number. *)
Theorem ack_only_what_was_accepted evs env e sk sid boot sq wire :
  AControl sk (Ack sid boot sq) wire ∈ (step cfg (after evs) (env, e)).2 ->
  exists p route ack, e = EResult sk (Accepted p route ack) /\ is_report p || is_status p = true /\
    boot = h_boot (p_header p) /\ sq = h_seq (p_header p) /\ exists uid key, proven evs sk uid key.
Proof.
  destruct (step cfg (after evs) (env, e)) as [st' acts] eqn:E. cbn [snd]. intros Ha.
  destruct (step_effect _ _ _ _ E) as [[_ He]|(_ & _ & ->)]; [|by apply not_elem_of_nil in Ha]. cbn [fst snd] in He.
  assert (forall P st1 a st2, quiet P st1 a st2 -> AControl sk (Ack sid boot sq) wire ∈ a -> P (AControl sk (Ack sid boot sq) wire)) as Hacts.
  { intros P st1 a st2 Hq Hin. pose proof (q_acts _ _ _ _ Hq) as Hf. rewrite Forall_forall in Hf. by apply Hf. }
  assert (forall x p route ack, se_state (sess (after evs) x) = Authenticated -> acks x p (AControl sk (Ack sid boot sq) wire) ->
    exists p' route' ack', EResult x (Accepted p route ack) = EResult sk (Accepted p' route' ack') /\ is_report p' || is_status p' = true /\
      boot = h_boot (p_header p') /\ sq = h_seq (p_header p') /\ exists uid key, proven evs sk uid key) as Hyes.
  { intros x p route ack Hx [[]|(Hk & w & sid' & [= -> -> -> -> ->])]. destruct (proven_speaks evs x Hx) as (r & _ & Hp).
    exists p, route, ack. split_and!; [done..|]. eauto. }
  case_effect He; try (by destruct (Hacts _ _ _ _ Hq Ha) as [[]|[? ?]]); try (by destruct (Hacts _ _ _ _ Hq Ha));
    try (by apply list_elem_of_singleton in Ha); try (by apply not_elem_of_nil in Ha).
  - by destruct (se_route se); [apply list_elem_of_singleton in Ha|apply not_elem_of_nil in Ha].
  - apply Hyes; [done|]. by eapply Hacts.
  - apply elem_of_app in Ha as [Ha|Ha]; [by destruct (Hacts _ _ _ _ Hq Ha)|]. apply Hyes; [done|]. by eapply Hacts.
Qed.

(** ** The token buckets bound what a node can send *)

(** What is metered, messages or bytes. *)
Inductive meter := Messages | Bytes.
Definition rate (m : meter) : Z := match m with Messages => messagesPerSec lim | Bytes => bytesPerSec lim end.
Definition level (m : meter) (se : Session) : Q := match m with Messages => se_msgs se | Bytes => se_bytes se end.
Definition cost (m : meter) (data : list Z) : Q := match m with Messages => 1 | Bytes => inject_Z (Z.of_nat (length data)) end.

(** What was handed on of one session. *)
Definition taken (m : meter) (s : nat) (acts : list Action) : Q :=
  Qsum (omap (fun a => match a with AIngest x data _ => if Nat.eqb x s then Some (cost m data) else None | _ => None end) acts).

(** What a session could send at a moment; one that does not exist yet, a full
    bucket. *)
Definition avail (m : meter) (s : nat) (t : Q) (st : Server) : Q :=
  match ns_heap st !! s with
  | Some se => bucket (rate m) (level m se) (se_at_ se) t
  | None => inject_Z (rate m * 2)
  end.

Definition levels_ok (m : meter) (t : Q) (st : Server) : Prop :=
  forall s, (0 <= level m (sess st s))%Q /\ (se_at_ (sess st s) <= t)%Q.

Fixpoint clocked (t : Q) (evs : list (Env * Event)) : Prop :=
  match evs with [] => True | ev :: evs => (t <= ev_mono ev.1)%Q /\ clocked (ev_mono ev.1) evs end.
Fixpoint ends (t : Q) (evs : list (Env * Event)) : Q := match evs with [] => t | ev :: evs => ends (ev_mono ev.1) evs end.

Lemma Qmin'_spec a b : (Qmin' a b <= a /\ Qmin' a b <= b /\ (Qmin' a b == a \/ Qmin' a b == b))%Q.
Proof.
  unfold Qmin'. destruct (Qle_bool a b) eqn:E.
  - apply Qle_bool_iff in E. repeat split; [lra|lra|left; lra].
  - assert (~ (a <= b)%Q) as Hn by (rewrite <- Qle_bool_iff; congruence). repeat split; [lra|lra|right; lra].
Qed.

Lemma Qmax'_0 a : (0 <= a -> Qmax' 0 a == a)%Q.
Proof. intros Ha. unfold Qmax'. by rewrite (proj2 (Qle_bool_iff 0 a) Ha). Qed.

Lemma taken_app m s a b : (taken m s (a ++ b) == taken m s a + taken m s b)%Q.
Proof. unfold taken. by rewrite omap_app, Qsum_app. Qed.

Definition hands (a : Action) : option nat := match a with AIngest s _ _ => Some s | _ => None end.

Lemma plain_hands a : plain a -> hands a = None.
Proof. by destruct a. Qed.
Lemma or_control_hands s msg a : or_control s msg a -> hands a = None.
Proof. by intros [?%plain_hands|[w ->]]. Qed.
Lemma acks_hands s p a : acks s p a -> hands a = None.
Proof. by intros [?%plain_hands|(_ & w & sid & ->)]. Qed.
Lemma sent_hands s d a : plain a \/ a = ASend s d -> hands a = None.
Proof. by intros [?%plain_hands| ->]. Qed.

Lemma taken_silent m s acts : (forall a, a ∈ acts -> hands a = None) -> taken m s acts = 0%Q.
Proof.
  intros Hf. unfold taken. assert (omap (fun a => match a with AIngest x data _ => if Nat.eqb x s then Some (cost m data) else None | _ => None end) acts = [])
    as ->; [|done].
  induction acts as [|a acts IH]; [done|]. cbn. rewrite IH by (intros x Hx; apply Hf; by right).
  specialize (Hf a ltac:(by left)). by destruct a.
Qed.

Lemma bucket_full r tok at_ t : (bucket r tok at_ t <= inject_Z (r * 2))%Q.
Proof. unfold bucket, refill. apply Qmin'_spec. Qed.

Lemma dt_nonneg at_ t : (0 <= Qmax' 0 (t - at_) / 1000)%Q.
Proof.
  apply Qle_shift_div_l; [lra|]. unfold Qmax'. destruct (Qle_bool 0 (t - at_)) eqn:E; [apply Qle_bool_iff in E; lra|lra].
Qed.

Lemma bucket_nonneg r tok at_ t : 0 <= r -> (0 <= tok)%Q -> (0 <= bucket r tok at_ t)%Q.
Proof.
  intros Hr Ht. unfold bucket, refill. pose proof (dt_nonneg at_ t) as Hd. set (dt := (Qmax' 0 (t - at_) / 1000)%Q) in *.
  assert (0 <= inject_Z r)%Q as Hq by (change 0%Q with (inject_Z 0); by rewrite <- Zle_Qle).
  assert (0 <= inject_Z (r * 2))%Q as Hq2 by (change 0%Q with (inject_Z 0); rewrite <- Zle_Qle; lia).
  pose proof (Qmult_le_0_compat _ _ Hd Hq). destruct (Qmin'_spec (inject_Z (r * 2)) (tok + dt * inject_Z r)) as (_ & _ & [->| ->]); lra.
Qed.

(** At the moment of the last refill the bucket holds no more than was put in. *)
Lemma bucket_now r tok t : (bucket r tok t t <= tok)%Q.
Proof.
  unfold bucket, refill. eapply Qle_trans; [apply (proj1 (proj2 (Qmin'_spec _ _)))|]. rewrite Qmax'_0 by lra. assert ((t - t) / 1000 == 0)%Q as -> by (unfold Qdiv; lra). lra.
Qed.

(** It fills at the rate. *)
Lemma bucket_later r tok at_ t t' : 0 <= r -> (at_ <= t)%Q -> (t <= t')%Q ->
  (bucket r tok at_ t' <= bucket r tok at_ t + (t' - t) / 1000 * inject_Z r)%Q.
Proof.
  intros Hr H1 H2. assert (0 <= inject_Z r)%Q as Hq by (change 0%Q with (inject_Z 0); by rewrite <- Zle_Qle).
  assert (0 <= (t' - t) / 1000)%Q as Hd by (apply Qle_shift_div_l; lra). pose proof (Qmult_le_0_compat _ _ Hd Hq) as Hm.
  unfold bucket, refill. destruct (Qmin'_spec (inject_Z (r * 2)) (tok + Qmax' 0 (t - at_) / 1000 * inject_Z r)) as (_ & _ & [->| ->]).
  - eapply Qle_trans; [apply (proj1 (Qmin'_spec _ _))|]. lra.
  - eapply Qle_trans; [apply (proj1 (proj2 (Qmin'_spec _ _)))|]. rewrite !Qmax'_0 by lra.
    assert ((t' - at_) / 1000 * inject_Z r == (t - at_) / 1000 * inject_Z r + (t' - t) / 1000 * inject_Z r)%Q as -> by (unfold Qdiv; ring). lra.
Qed.

Lemma sess_known st s se : ns_heap st !! s = Some se -> sess st s = se.
Proof. unfold sess. by intros ->. Qed.

Lemma avail_known m s t st : is_Some (ns_heap st !! s) -> avail m s t st = bucket (rate m) (level m (sess st s)) (se_at_ (sess st s)) t.
Proof. intros [se E]. unfold avail. by rewrite E, (sess_known _ _ _ E). Qed.

Lemma avail_full m s t st : (avail m s t st <= inject_Z (rate m * 2))%Q.
Proof. unfold avail. destruct (ns_heap st !! s); [apply bucket_full|lra]. Qed.

Lemma avail_nonneg m s t st : 0 <= rate m -> levels_ok m t st -> (0 <= avail m s t st)%Q.
Proof.
  intros Hr Hl. unfold avail. destruct (ns_heap st !! s) as [se|] eqn:E.
  - apply bucket_nonneg; [done|]. rewrite <- (sess_known _ _ _ E). apply Hl.
  - change 0%Q with (inject_Z 0). rewrite <- Zle_Qle. lia.
Qed.

Lemma avail_later m s t t' st : 0 <= rate m -> levels_ok m t st -> (t <= t')%Q ->
  (avail m s t' st <= avail m s t st + (t' - t) / 1000 * inject_Z (rate m))%Q.
Proof.
  intros Hr Hl Ht. unfold avail. destruct (ns_heap st !! s) as [se|] eqn:E.
  - apply bucket_later; [done| |done]. rewrite <- (sess_known _ _ _ E). apply Hl.
  - assert (0 <= inject_Z (rate m))%Q as Hq by (change 0%Q with (inject_Z 0); by rewrite <- Zle_Qle).
    assert (0 <= (t' - t) / 1000)%Q as Hd by (apply Qle_shift_div_l; lra). pose proof (Qmult_le_0_compat _ _ Hd Hq). lra.
Qed.

Lemma levels_later m t t' st : (t <= t')%Q -> levels_ok m t st -> levels_ok m t' st.
Proof. intros Ht Hl s. destruct (Hl s). split; lra. Qed.

Lemma level_tokens m se se' : tokens se' = tokens se -> level m se' = level m se /\ se_at_ se' = se_at_ se.
Proof. unfold tokens, level. intros [= -> -> ->]. by destruct m. Qed.

Definition metered (m : meter) (s : nat) (t : Q) (st : Server) (acts : list Action) (st' : Server) : Prop :=
  levels_ok m t st' /\ (avail m s t st' + taken m s acts <= avail m s t st)%Q.

(** Nothing changes but what leaves the tokens alone. *)
Lemma metered_tokens m s t st acts st' : (forall x, tokens (sess st' x) = tokens (sess st x)) ->
  (forall x, is_Some (ns_heap st !! x) -> is_Some (ns_heap st' !! x)) -> (forall a, a ∈ acts -> hands a = None) ->
  levels_ok m t st -> metered m s t st acts st'.
Proof.
  intros Htok Hk Hsp Hl. split.
  - intros x. destruct (level_tokens m _ _ (Htok x)) as [-> ->]. apply Hl.
  - rewrite taken_silent by done. destruct (ns_heap st !! s) as [se|] eqn:E.
    + rewrite !avail_known by eauto. destruct (level_tokens m _ _ (Htok s)) as [-> ->]. lra.
    + pose proof (avail_full m s t st'). unfold avail at 2. rewrite E. lra.
Qed.

Lemma metered_quiet m s t P st acts st' : quiet P st acts st' -> (forall a, P a -> hands a = None) -> levels_ok m t st -> metered m s t st acts st'.
Proof.
  intros Hq HP. apply metered_tokens; [apply (q_tokens _ _ _ _ Hq)|apply (q_known _ _ _ _ Hq)|].
  intros a Ha. apply HP. pose proof (q_acts _ _ _ _ Hq) as Hf. rewrite Forall_forall in Hf. by apply Hf.
Qed.

Lemma metered_app m s t st a st1 b st2 : metered m s t st a st1 -> (levels_ok m t st1 -> metered m s t st1 b st2) -> metered m s t st (a ++ b) st2.
Proof. intros [Hl1 H1] H2. destruct (H2 Hl1) as [Hl2 H3]. split; [done|]. rewrite taken_app. lra. Qed.

(** A session's own refill, and what it paid for. *)
Lemma metered_refill m s t x st se' acts : 0 <= rate m -> is_Some (ns_heap st !! x) ->
  let f := fun se => se' se in
  (0 <= level m (f (sess st x)))%Q -> se_at_ (f (sess st x)) = t ->
  (level m (f (sess st x)) + taken m x acts <= bucket (rate m) (level m (sess st x)) (se_at_ (sess st x)) t)%Q ->
  (forall y, x <> y -> taken m y acts = 0%Q) -> levels_ok m t st -> metered m s t st acts (upd x f st).
Proof.
  intros Hr Hknown f Hpos Hat Hlevel Hothers Hl. split.
  - intros y. rewrite sess_upd. case_bool_decide as E; [|apply Hl]. subst y. split; [done|]. change (se' (sess st x)) with (f (sess st x)). rewrite Hat. lra.
  - destruct (decide (x = s)) as [->|Hne].
    + rewrite !avail_known by eauto using known_upd. rewrite sess_upd_eq. change (se' (sess st s)) with (f (sess st s)). rewrite Hat. pose proof (bucket_now (rate m) (level m (f (sess st s))) t). lra.
    + rewrite Hothers by done. assert (avail m s t (upd x f st) = avail m s t st) as ->; [|lra]. unfold avail, upd. cbn. by rewrite lookup_insert_ne.
Qed.

Lemma metered_opened m s t env x source tbl st : ev_mono env = t -> 0 <= rate m -> ns_heap st !! x = None -> levels_ok m t st ->
  metered m s t st [] (opened env x source (set_upgrades tbl st)).
Proof.
  intros <- Hr Hfresh Hl. split.
  - intros y. rewrite sess_opened. case_bool_decide; [|apply Hl]. split; [|cbn; lra]. destruct m; cbn; change 0%Q with (inject_Z 0); rewrite <- Zle_Qle; cbn in Hr; unfold lim in *; lia.
  - change (taken m s []) with 0%Q. destruct (decide (x = s)) as [->|Hne].
    + pose proof (avail_full m s (ev_mono env) (opened env s source (set_upgrades tbl st))). unfold avail at 2. rewrite Hfresh. lra.
    + assert (avail m s (ev_mono env) (opened env x source (set_upgrades tbl st)) = avail m s (ev_mono env) st) as ->; [|lra].
      unfold avail, opened. cbn. by rewrite lookup_insert_ne.
Qed.

Lemma metered_upd m s t x f st : (forall se, tokens (f se) = tokens se) -> levels_ok m t st -> metered m s t st [] (upd x f st).
Proof.
  intros Hf. apply metered_tokens; [|intros y; apply known_upd|by intros a ?%not_elem_of_nil].
  intros y. rewrite sess_upd. case_bool_decide; [by subst|done].
Qed.

Lemma open_known st s : se_state (sess st s) <> Closed -> is_Some (ns_heap st !! s).
Proof. intros Hs. destruct (ns_heap st !! s) eqn:E; [eauto|]. by rewrite sess_fresh in Hs. Qed.

Lemma taken_one m s x data addr : (taken m s [AIngest x data addr] == if Nat.eqb x s then cost m data else 0)%Q.
Proof. unfold taken. cbn. destruct (Nat.eqb x s); unfold Qsum; cbn; lra. Qed.

Lemma taken_other m s y acts : (forall a, a ∈ acts -> hands a = None \/ hands a = Some y) -> y <> s -> taken m s acts = 0%Q.
Proof.
  intros Hf Hne. unfold taken. assert (omap (fun a => match a with AIngest x data _ => if Nat.eqb x s then Some (cost m data) else None | _ => None end) acts = [])
    as ->; [|done].
  induction acts as [|a acts IH]; [done|]. cbn. rewrite IH by (intros x Hx; apply Hf; by right).
  destruct (Hf a ltac:(by left)) as [E|E]; destruct a; try done. cbn in E. injection E as [= ->]. by rewrite (proj2 (Nat.eqb_neq _ _) Hne).
Qed.

Lemma metered_same m s t st acts st' : ns_heap st' = ns_heap st -> (forall a, a ∈ acts -> hands a = None) -> levels_ok m t st -> metered m s t st acts st'.
Proof. intros Hh. apply metered_tokens; [intros x; unfold sess; by rewrite Hh|by rewrite Hh]. Qed.

Lemma metered_after m s t P st st1 acts st' : metered m s t st [] st1 -> quiet P st1 acts st' -> (forall a, P a -> hands a = None) ->
  metered m s t st acts st'.
Proof. intros Hm Hq HP. change acts with ([] ++ acts). eapply metered_app; [exact Hm|]. intros Hl. by eapply metered_quiet. Qed.

Lemma level_pays m x (d : list Z) msgs bs t st acts : (forall s : nat, x <> s -> taken m s acts = 0%Q) ->
  (taken m x acts <= cost m d)%Q ->
  let se := sess st x in msgs = bucket (messagesPerSec lim) (se_msgs se) (se_at_ se) t -> bs = bucket (bytesPerSec lim) (se_bytes se) (se_at_ se) t ->
  (1 <= msgs)%Q -> (inject_Z (Z.of_nat (length d)) <= bs)%Q -> 0 <= rate m -> is_Some (ns_heap st !! x) -> forall s, levels_ok m t st ->
  metered m s t st acts (upd x (fun se => with_tokens (msgs - 1)%Q (bs - inject_Z (Z.of_nat (length d)))%Q t (with_heard t se)) st).
Proof.
  intros Hother Hcost se Em Eb Hm Hb Hr Hknown s Hl. apply metered_refill; try done; destruct m; cbn; cbn in Hcost; fold se; rewrite <- ?Em, <- ?Eb; lra.
Qed.

Lemma effect_metered (mt : meter) w env e st acts st' : 0 <= rate mt -> possible st e = true -> effect env st e acts st' ->
  levels_ok mt (ev_mono env) st -> metered mt w (ev_mono env) st acts st'.
Proof.
  intros Hr Hposs He Hl.
  assert (forall a : Action, a ∈ [] -> hands a = None) as Hnil by by intros a ?%not_elem_of_nil.
  case_effect He.
  - eapply metered_quiet; eauto using plain_hands.
  - apply metered_same; [done| |done]. by intros a ->%list_elem_of_singleton.
  - by apply metered_same.
  - eapply metered_after; [|exact Hq|apply plain_hands]. by apply metered_same.
  - apply fresh_ws in Hposs. eapply metered_after; [|exact Hq|apply or_control_hands]. by apply metered_opened.
  - eapply metered_after; [|exact Hq|apply plain_hands]. apply metered_upd; [apply Hf|done].
  - eapply metered_after; [|exact Hq|apply or_control_hands]. by apply (metered_upd mt w (ev_mono env) s (proven_session env uid i key)).
  - eapply level_pays; try done; [| |by apply open_known; unfold se in *; congruence].
    + intros y Hy. apply (taken_other mt y s); [|done]. intros a. destruct (se_route se); [intros ->%list_elem_of_singleton; by right|by intros ?%not_elem_of_nil].
    + destruct (se_route se); [rewrite taken_one, Nat.eqb_refl; lra|]. change (taken mt s []) with 0%Q. destruct mt; cbn; [lra|]. change 0%Q with (inject_Z 0). rewrite <- Zle_Qle. lia.
  - eapply metered_after; [|exact Hq|apply plain_hands].
    apply metered_refill; try done; [by apply open_known; unfold se in *; congruence| |].
    + destruct mt; cbn; apply bucket_nonneg; try done; apply (Hl s).
    + change (taken mt s []) with 0%Q. rewrite Qplus_0_r. destruct mt; apply Qle_refl.
  - apply metered_same; [done| |done]. by intros a ->%list_elem_of_singleton.
  - eapply metered_quiet; eauto using acks_hands.
  - eapply metered_app; [|intros Hl3; eapply metered_quiet; eauto using acks_hands].
    eapply metered_after; [|exact Hq|apply plain_hands]. by apply (metered_upd mt w (ev_mono env) s (fun se => with_active (with_accepted (ev_now env) se))).
  - eapply metered_quiet; [exact Hq|apply sent_hands|done].
  - eapply metered_after; [|exact Hq|apply or_control_hands]. by apply metered_same.
  - by apply metered_same.
  - eapply metered_after; [|exact Hq|apply plain_hands]. by apply metered_same.
Qed.

Lemma clocked_app t a b : clocked t (a ++ b) -> clocked t a /\ clocked (ends t a) b.
Proof. revert t; induction a as [|ev a IH]; intros t; [done|]. cbn. intros [Ht H1]. by destruct (IH _ H1). Qed.

Lemma clocked_ends t evs : clocked t evs -> (t <= ends t evs)%Q.
Proof. revert t; induction evs as [|ev evs IH]; intros t; cbn; [intros; lra|]. intros [Ht H1%IH]. lra. Qed.

(** One step, whatever its event. *)
Lemma step_metered m s st ev t : 0 <= rate m -> (t <= ev_mono ev.1)%Q -> levels_ok m t st ->
  metered m s (ev_mono ev.1) st (step cfg st ev).2 (step cfg st ev).1.
Proof.
  intros Hr Ht Hl%(levels_later m t (ev_mono ev.1)); [|done]. destruct (step cfg st ev) as [st' acts] eqn:E. cbn [fst snd].
  destruct (step_effect _ _ _ _ E) as [[Hp He]|(_ & -> & ->)]; [by eapply effect_metered|].
  apply metered_same; [done| |done]. by intros a ?%not_elem_of_nil.
Qed.

Lemma serve_metered m s evs : forall t st, 0 <= rate m -> clocked t evs -> levels_ok m t st ->
  let '(st', acts) := serve cfg st evs in
  levels_ok m (ends t evs) st' /\
  (avail m s (ends t evs) st' + taken m s (concat acts) <= avail m s t st + (ends t evs - t) / 1000 * inject_Z (rate m))%Q.
Proof.
  induction evs as [|ev evs IH]; intros t st Hr Hc Hl; cbn [serve ends].
  - split; [done|]. change (taken m s (concat [])) with 0%Q. assert ((t - t) / 1000 * inject_Z (rate m) == 0)%Q as -> by (unfold Qdiv; ring). lra.
  - destruct Hc as [Ht Hc]. destruct (step_metered m s st ev t Hr Ht Hl) as [Hl1 H1]. pose proof (avail_later m s t _ st Hr Hl Ht) as H2.
    destruct (step cfg st ev) as [st1 a]. cbn [fst snd] in *. specialize (IH _ st1 Hr Hc Hl1). destruct (serve cfg st1 evs) as [st2 acts].
    destruct IH as [Hl2 H3]. split; [done|]. cbn [concat]. rewrite taken_app.
    assert ((ends (ev_mono ev.1) evs - t) / 1000 * inject_Z (rate m) ==
      (ends (ev_mono ev.1) evs - ev_mono ev.1) / 1000 * inject_Z (rate m) + (ev_mono ev.1 - t) / 1000 * inject_Z (rate m))%Q as -> by (unfold Qdiv; ring).
    lra.
Qed.

Lemma levels_new m : levels_ok m 0 new_server.
Proof. intros s. rewrite sess_fresh by done. destruct m; cbn; lra. Qed.

(** A node cannot send faster than its buckets fill. While the monotonic
    clock does not go back, in any stretch of events the messages, and the
    bytes, of one session that are handed to the ingest are at most two seconds
    of its rate and the rate times the length of the stretch. *)
Theorem rate_is_bounded (m : meter) s evs window : 0 <= rate m -> clocked 0 (evs ++ window) ->
  let t0 := ends 0 evs in let t1 := ends t0 window in
  (taken m s (concat (serve cfg (after evs) window).2) <= inject_Z (rate m * 2) + (t1 - t0) / 1000 * inject_Z (rate m))%Q.
Proof.
  intros Hr [Hc1 Hc2]%clocked_app t0 t1. pose proof (serve_metered m s evs 0 new_server Hr Hc1 (levels_new m)) as H1.
  unfold after. destruct (serve cfg new_server evs) as [st acts]. destruct H1 as [Hl _]. cbn [fst] in *. fold t0 in Hl, Hc2.
  pose proof (serve_metered m s window t0 st Hr Hc2 Hl) as H2. destruct (serve cfg st window) as [st' acts']. cbn [snd]. destruct H2 as [Hl' H2].
  fold t1 in Hl', H2. pose proof (avail_nonneg m s _ st' Hr Hl'). pose proof (avail_full m s t0 st). lra.
Qed.

(** ** A backlog is told from a fresh packet *)

(** The answers the ingest was given about a node. *)
Definition answers (uid : string) (acts : list Action) : list (Q * Z * Z * option string) :=
  omap (fun a => match a with AAnswer u boot up t v => if bool_decide (u = uid) then Some (t, boot, up, v) else None | _ => None end) acts.

(** Each answer is the judgement on the baseline the one before left. *)
Inductive judged : option Baseline -> list (Q * Z * Z * option string) -> option Baseline -> Prop :=
| judged_nil b : judged b [] b
| judged_cons b t boot up v b1 l b2 : judge b t boot up = (v, b1) -> judged (Some b1) l b2 -> judged b ((t, boot, up, v) :: l) b2.

Lemma judged_app b l b1 l' b2 : judged b l b1 -> judged b1 l' b2 -> judged b (l ++ l') b2.
Proof. induction 1; [done|]. intros H2. econstructor; eauto. Qed.

Lemma answers_app uid a b : answers uid (a ++ b) = answers uid a ++ answers uid b.
Proof. apply omap_app. Qed.

Definition unanswered (a : Action) : Prop := match a with AAnswer _ _ _ _ _ => False | _ => True end.

Lemma answers_none uid acts : Forall unanswered acts -> answers uid acts = [].
Proof. induction 1 as [|a acts Ha _ IH]; [done|]. unfold answers in *. cbn. rewrite IH. by destruct a. Qed.

Lemma quiet_unanswered P st acts st' : quiet P st acts st' -> (forall a, P a -> unanswered a) -> Forall unanswered acts.
Proof. intros Hq HP. eapply Forall_impl; [apply (q_acts _ _ _ _ Hq)|done]. Qed.

Lemma plain_unanswered a : plain a -> unanswered a.
Proof. by destruct a. Qed.
Lemma or_control_unanswered s msg a : or_control s msg a -> unanswered a.
Proof. by intros [?%plain_unanswered|[w ->]]. Qed.
Lemma acks_unanswered s p a : acks s p a -> unanswered a.
Proof. by intros [?%plain_unanswered|(_ & w & sid & ->)]. Qed.
Lemma sent_unanswered s d a : plain a \/ a = ASend s d -> unanswered a.
Proof. by intros [?%plain_unanswered| ->]. Qed.

Lemma effect_judged node env e st acts st' : effect env st e acts st' ->
  judged (ns_baselines st !! node) (answers node acts) (ns_baselines st' !! node).
Proof.
  intros He. assert (forall st1, Forall unanswered acts -> ns_baselines st' = ns_baselines st1 -> ns_baselines st1 = ns_baselines st ->
    judged (ns_baselines st !! node) (answers node acts) (ns_baselines st' !! node)) as Hsame.
  { intros st1 Ha -> ->. rewrite answers_none by done. constructor. }
  assert (forall P st1 a st2, quiet P st1 a st2 -> ns_baselines st2 = ns_baselines st1) as Htab by (intros P st1 a st2 []; tauto).
  case_effect He.
  - eapply Hsame; [eapply quiet_unanswered, plain_unanswered; exact Hq|by eapply Htab|done].
  - eapply Hsame; [by repeat constructor|done|done].
  - eapply Hsame; [by repeat constructor|done|done].
  - eapply Hsame; [eapply quiet_unanswered, plain_unanswered; exact Hq|by eapply Htab|done].
  - eapply Hsame; [eapply quiet_unanswered, or_control_unanswered; exact Hq|by eapply Htab|done].
  - eapply Hsame; [eapply quiet_unanswered, plain_unanswered; exact Hq|by eapply Htab|done].
  - eapply Hsame; [eapply quiet_unanswered, or_control_unanswered; exact Hq|by eapply Htab|done].
  - eapply Hsame; [destruct (se_route se); by repeat constructor|done|done].
  - eapply Hsame; [eapply quiet_unanswered, plain_unanswered; exact Hq|by eapply Htab|done].
  - unfold answers. cbn. case_bool_decide as E; [|rewrite lookup_insert_ne by done; constructor]. rewrite <- E, lookup_insert_eq.
    econstructor; [|constructor]. fold h. fold r. apply surjective_pairing.
  - eapply Hsame; [eapply quiet_unanswered, acks_unanswered; exact Hq|by eapply Htab|done].
  - eapply (Hsame st3); [|by eapply Htab|by apply (Htab _ _ _ _ Hq)]. apply Forall_app. split.
    + eapply quiet_unanswered, plain_unanswered; exact Hq.
    + eapply quiet_unanswered, acks_unanswered; exact Hq2.
  - eapply Hsame; [eapply quiet_unanswered, sent_unanswered; exact Hq|by eapply Htab|done].
  - eapply Hsame; [eapply quiet_unanswered, or_control_unanswered; exact Hq|by eapply Htab|done].
  - eapply Hsame; [by repeat constructor|done|done].
  - eapply Hsame; [eapply quiet_unanswered, plain_unanswered; exact Hq|by eapply Htab|done].
Qed.

Lemma serve_judged uid evs : forall st, judged (ns_baselines st !! uid) (answers uid (concat (serve cfg st evs).2)) (ns_baselines (serve cfg st evs).1 !! uid).
Proof.
  induction evs as [|ev evs IH]; intros st; cbn [serve]; [constructor|]. destruct (step cfg st ev) as [st1 a] eqn:E. specialize (IH st1).
  destruct (serve cfg st1 evs) as [st2 acts]. cbn [fst snd concat] in *. rewrite answers_app. eapply judged_app; [|exact IH].
  destruct (step_effect _ _ _ _ E) as [[_ He]|(_ & -> & ->)]; [by eapply effect_judged|constructor].
Qed.

(** A packet of a boot: when it came, the uptime of the node in full, and the
    answer. *)
Definition Seen : Type := Q * Z * option string.
Definition shown (boot : Z) (x : Seen) : Q * Z * Z * option string := let '(t, up, v) := x in (t, boot, up mod 2 ^ 32, v).

(** Delivered in order, and never half a turn of the 32-bit clock after the
    last one that was accepted. *)
Fixpoint paced (t0 : Q) (up0 : Z) (l : list Seen) : Prop :=
  match l with
  | [] => True
  | (t, up, v) :: l =>
      (t0 <= t)%Q /\ up0 <= up < up0 + 2 ^ 31 /\ match v with None => paced t up l | Some _ => paced t0 up0 l end
  end.

(** How much later than [a] a packet came, for its node's clock. *)
Definition added (a : Q * Z) (t : Q) (up : Z) : Q := (t - inject_Z up) - (a.1 - inject_Z a.2).

(** The answers are right, [A] being the packets accepted before: one that is
    accepted is not behind any of them by more than the budget and the drift
    allowance, and one that is refused is behind one of them by more than the
    budget. *)
Fixpoint verdicts (A : list (Q * Z)) (l : list Seen) : Prop :=
  match l with
  | [] => True
  | (t, up, None) :: l =>
      (forall a, a ∈ A -> added a t up <= LAG_BUDGET_MS + (t - a.1) * DRIFT_ALLOWANCE)%Q /\ verdicts (A ++ [(t, up)]) l
  | (t, up, Some _) :: l => (exists a, a ∈ A /\ (LAG_BUDGET_MS < added a t up)%Q) /\ verdicts A l
  end.

(** What the baseline knows of the packets accepted, [turn] being the uptime
    that the clock of the first one had already turned over. *)
Record follows (boot turn : Z) (A : list (Q * Z)) (tk : Q) (upk : Z) (b : Baseline) : Prop := {
  fl_boot : bl_boot b = boot;
  fl_at : bl_at b = tk;
  fl_up : bl_wraps b * 2 ^ 32 + bl_lastUptime b = upk - turn;
  fl_last : bl_lastUptime b = upk mod 2 ^ 32;
  fl_above a : a ∈ A -> (a.1 <= tk /\ bl_offset b <= a.1 - inject_Z a.2 + inject_Z turn + (tk - a.1) * DRIFT_ALLOWANCE)%Q;
  fl_below : exists a, a ∈ A /\ (a.1 - inject_Z a.2 + inject_Z turn <= bl_offset b)%Q }.

(** The clock that turned over is noticed. *)
Lemma wraps_right up0 up w turn last : w * 2 ^ 32 + last = up0 - turn -> last = up0 mod 2 ^ 32 -> up0 <= up < up0 + 2 ^ 31 ->
  (if (up mod 2 ^ 32 <? last) && (2 ^ 31 <? last - up mod 2 ^ 32) then w + 1 else w) * 2 ^ 32 + up mod 2 ^ 32 = up - turn.
Proof.
  intros Hw Hlast Hup. pose proof (Z.div_mod up0 (2 ^ 32) ltac:(lia)) as E0. pose proof (Z.div_mod up (2 ^ 32) ltac:(lia)) as E1.
  pose proof (Z.mod_pos_bound up0 (2 ^ 32) ltac:(lia)). pose proof (Z.mod_pos_bound up (2 ^ 32) ltac:(lia)).
  assert (up / 2 ^ 32 = up0 / 2 ^ 32 \/ up / 2 ^ 32 = up0 / 2 ^ 32 + 1) as [Ed|Ed] by nia;
    destruct (Z.ltb_spec (up mod 2 ^ 32) last), (Z.ltb_spec (2 ^ 31) (last - up mod 2 ^ 32)); cbn [andb]; lia.
Qed.

Lemma follows_first boot t up : follows boot (up - up mod 2 ^ 32) [(t, up)] t up
  {| bl_boot := boot; bl_wraps := 0; bl_lastUptime := up mod 2 ^ 32; bl_offset := t - inject_Z (up mod 2 ^ 32); bl_at := t |}.
Proof.
  assert (t - inject_Z (up mod 2 ^ 32) == t - inject_Z up + inject_Z (up - up mod 2 ^ 32))%Q as E.
  { unfold Z.sub. rewrite inject_Z_plus, inject_Z_opp. lra. }
  split; cbn; try done; [lia| |].
  - intros a ->%list_elem_of_singleton. cbn [fst snd]. split; [lra|]. rewrite E. assert (t - t == 0)%Q as -> by lra. lra.
  - exists (t, up). split; [by left|]. cbn [fst snd]. rewrite E. lra.
Qed.

Lemma follows_step boot turn A tk upk b t up v b' : follows boot turn A tk upk b -> (tk <= t)%Q -> upk <= up < upk + 2 ^ 31 ->
  judge (Some b) t boot (up mod 2 ^ 32) = (v, b') ->
  match v with
  | None => (forall a, a ∈ A -> added a t up <= LAG_BUDGET_MS + (t - a.1) * DRIFT_ALLOWANCE)%Q /\ follows boot turn (A ++ [(t, up)]) t up b'
  | Some _ => (exists a, a ∈ A /\ (LAG_BUDGET_MS < added a t up)%Q) /\ b' = b
  end.
Proof.
  intros [Hb Hat Hup Hlast Habove (a0 & Ha0 & Hbelow)] Ht Hpace. unfold judge. rewrite Hb, Z.eqb_refl. cbn [negb].
  rewrite (wraps_right upk up (bl_wraps b) turn (bl_lastUptime b) Hup Hlast Hpace). set (w := if _ && _ then _ else _).
  set (offset := (t - inject_Z (up - turn))%Q).
  assert (offset == t - inject_Z up + inject_Z turn)%Q as Eo by (unfold offset, Z.sub; rewrite inject_Z_plus, inject_Z_opp; lra).
  assert (0 <= (t - tk) * DRIFT_ALLOWANCE)%Q as Hd by (apply Qmult_le_0_compat; [lra|unfold DRIFT_ALLOWANCE; lra]).
  unfold added. destruct (Qltb LAG_BUDGET_MS (offset - bl_offset b)) eqn:El.
  - intros [= <- <-]. apply negb_true, not_true_iff_false in El. rewrite Qle_bool_iff in El. split; [|done]. exists a0. split; [done|]. lra.
  - intros [= <- <-]. apply negb_false, Qle_bool_iff in El. split.
    + intros a Ha. destruct (Habove a Ha) as [H1 H2].
      assert ((t - a.1) * DRIFT_ALLOWANCE == (tk - a.1) * DRIFT_ALLOWANCE + (t - tk) * DRIFT_ALLOWANCE)%Q as -> by ring. lra.
    + set (off' := if Qltb _ _ then _ else _).
      assert (off' <= offset /\ off' <= bl_offset b + (t - tk) * DRIFT_ALLOWANCE /\ (off' == offset \/ bl_offset b <= off'))%Q as (O1 & O2 & O3).
      { unfold off', Qltb. rewrite Hat. destruct (Qle_bool 0 (offset - bl_offset b)) eqn:E; cbn [negb].
        - apply Qle_bool_iff in E. destruct (Qmin'_spec (offset - bl_offset b) ((t - tk) * DRIFT_ALLOWANCE)) as (M1 & M2 & [M3|M3]);
            repeat split; solve [lra | right; lra].
        - assert (~ (0 <= offset - bl_offset b)%Q) as Hn by (rewrite <- Qle_bool_iff; congruence). repeat split; solve [lra | left; lra]. }
      split; cbn [bl_boot bl_at bl_wraps bl_lastUptime bl_offset]; try done.
      * apply (wraps_right upk up (bl_wraps b) turn (bl_lastUptime b) Hup Hlast Hpace).
      * intros a [Ha| ->%list_elem_of_singleton]%elem_of_app; cbn [fst snd].
        -- destruct (Habove a Ha) as [H1 H2]. split; [lra|].
           assert ((t - a.1) * DRIFT_ALLOWANCE == (tk - a.1) * DRIFT_ALLOWANCE + (t - tk) * DRIFT_ALLOWANCE)%Q as -> by ring. lra.
        -- split; [lra|]. assert ((t - t) * DRIFT_ALLOWANCE == 0)%Q as -> by ring. lra.
      * destruct O3 as [O3|O3].
        -- exists (t, up). split; [apply elem_of_app; right; by left|]. cbn [fst snd]. lra.
        -- exists a0. split; [apply elem_of_app; by left|]. lra.
Qed.

Lemma follows_verdicts boot turn l : forall A tk upk b b', follows boot turn A tk upk b -> paced tk upk l ->
  judged (Some b) (map (shown boot) l) b' -> verdicts A l.
Proof.
  induction l as [|[[t up] v] l IH]; intros A tk upk b b' Hf Hp Hj; [done|]. cbn [map shown] in Hj. destruct Hp as (Ht & Hup & Hp).
  inversion Hj as [|? ? ? ? ? b1 ? ? Hjudge Hrest]; subst. pose proof (follows_step _ _ _ _ _ _ _ _ _ _ Hf Ht Hup Hjudge) as Hs.
  destruct v as [reason|]; cbn [verdicts]; destruct Hs as [H1 H2]; (split; [done|]).
  - subst b1. by eapply IH.
  - by eapply IH.
Qed.

(** A delayed backlog is refused and nothing else is. From the first packet
    of a boot on, whatever else happens meanwhile and although the node's clock
    turns over every 49.7 days: a packet is accepted only if, measured by its
    node's clock, it came at most the budget of two seconds and 200 ppm of the
    time between later than every packet of that boot accepted before it; and
    one that is refused came more than the budget later than one of them. *)
Theorem backlog_is_refused uid evs window boot t0 up0 rest :
  (forall b, ns_baselines (after evs) !! uid = Some b -> bl_boot b <> boot) ->
  answers uid (concat (serve cfg (after evs) window).2) = map (shown boot) ((t0, up0, None) :: rest) ->
  paced t0 up0 rest -> verdicts [(t0, up0)] rest.
Proof.
  intros Hnew Hans Hp. pose proof (serve_judged uid window (after evs)) as Hj. rewrite Hans in Hj. cbn [map shown] in Hj.
  inversion Hj as [|? ? ? ? ? b1 ? ? Hjudge Hrest]; subst. eapply follows_verdicts; [apply (follows_first boot)|exact Hp|].
  assert (b1 = {| bl_boot := boot; bl_wraps := 0; bl_lastUptime := up0 mod 2 ^ 32; bl_offset := t0 - inject_Z (up0 mod 2 ^ 32); bl_at := t0 |}) as <-; [|exact Hrest].
  unfold judge in Hjudge. destruct (ns_baselines (after evs) !! uid) as [b|]; [|by injection Hjudge as [= <-]].
  rewrite (proj2 (Z.eqb_neq _ _) (Hnew b eq_refl)) in Hjudge. by injection Hjudge as [= <-].
Qed.

(** ** Downloads *)

(** The grant was given to a session that had proved itself to be the node's,
    when the rollout wanted the build, and was not revoked since. *)
Definition granted (evs : list (Env * Event)) (id : string) (g : Grant) : Prop :=
  exists before env s after key, evs = before ++ (env, EGrant s (g_seq g) (g_build g)) :: after /\ id = tokenId (to_hex (ev_token env)) /\
    g_expires g = (ev_mono env + inject_Z (grantMs lim))%Q /\ ev_approved env (g_uid g) (g_build g) = true /\
    proven before s (g_uid g) key /\ Forall (fun ev => ev.2 <> ERevoke (g_uid g)) after.

Lemma granted_snoc evs ev id g : granted evs id g -> ev.2 <> ERevoke (g_uid g) -> granted (evs ++ [ev]) id g.
Proof.
  intros (before & env & s & after & key & -> & Hid & He & Ha & Hp & Hf) Hev. exists before, env, s, (after ++ [ev]), key.
  split_and!; [by rewrite <- app_assoc|done..|]. apply Forall_app. split; [done|by repeat constructor].
Qed.

Record grants_ok (evs : list (Env * Event)) (m : gmap string Grant) : Prop := {
  gr_granted id g : m !! id = Some g -> granted evs id g;
  gr_single id g id' g' : m !! id = Some g -> m !! id' = Some g' -> g_uid g = g_uid g' -> id = id' }.

Lemma grants_ok_subseteq evs m m' : m' ⊆ m -> grants_ok evs m -> grants_ok evs m'.
Proof. intros Hm [Hg Hs]. split; [intros id g E; eapply Hg, lookup_weaken; eauto|intros id g id' g' E E' Hu; eapply Hs; eauto using lookup_weaken]. Qed.

Lemma grants_ok_snoc evs ev m : grants_ok evs m -> (forall id g, m !! id = Some g -> ev.2 <> ERevoke (g_uid g)) -> grants_ok (evs ++ [ev]) m.
Proof. intros [Hg Hs] Hev. split; [|done]. intros id g E. apply granted_snoc; eauto. Qed.

Lemma grants_ok_granted evs env s seq build uid st : sessions_ok (challenged_in evs) (proven evs) st ->
  se_uid (sess st s) = Some uid -> ev_approved env uid build = true -> grants_ok (evs ++ [(env, EGrant s seq build)]) (ns_grants st) ->
  let g := {| g_uid := uid; g_build := build; g_seq := seq; g_expires := ev_mono env + inject_Z (grantMs lim) |} in
  grants_ok (evs ++ [(env, EGrant s seq build)])
    (<[tokenId (to_hex (ev_token env)) := g]> (filter (fun p => g_uid p.2 <> uid) (ns_grants st))).
Proof.
  intros Hok Hu Ha [Hg Hs] g. destruct (so_proven _ _ _ _ (sk_session _ _ _ Hok s) uid Hu) as (r & _ & _ & Hp). split.
  - intros id g' [[<- <-]|[_ [Hl _]%map_lookup_filter_Some]]%lookup_insert_Some; [|by apply Hg].
    exists evs, env, s, [], (nr_key r). by split_and!.
  - intros id g1 id' g2 [[<- <-]|[_ [Hl1 Hn1]%map_lookup_filter_Some]]%lookup_insert_Some
      [[<- <-]|[_ [Hl2 Hn2]%map_lookup_filter_Some]]%lookup_insert_Some Hu12; [done|by destruct Hn2|by destruct Hn1|by eapply Hs].
Qed.

Lemma effect_grants evs env e st acts st' : sessions_ok (challenged_in evs) (proven evs) st -> effect env st e acts st' ->
  grants_ok evs (ns_grants st) -> grants_ok (evs ++ [(env, e)]) (ns_grants st').
Proof.
  intros Hok He Hg. assert (forall m, m ⊆ ns_grants st -> (forall u, e <> ERevoke u) -> grants_ok (evs ++ [(env, e)]) m) as Hsame.
  { intros m Hm Hne. apply grants_ok_snoc; [by eapply grants_ok_subseteq|]. cbn. intros id g _. apply Hne. }
  assert (forall P st1 a st2, quiet P st1 a st2 -> ns_grants st2 = ns_grants st1) as Htab by (intros P st1 a st2 []; tauto).
  case_effect He; try (erewrite (Htab _ _ _ _ Hq)); try (by apply Hsame).
  - rewrite (Htab _ _ _ _ Hq2), (Htab _ _ _ _ Hq). by apply Hsame.
  - apply (grants_ok_granted evs env s seq build uid st); try done. by apply Hsame.
  - apply grants_ok_snoc.
    + eapply grants_ok_subseteq; [apply map_filter_subseteq|done].
    + intros id g [_ Hn]%map_lookup_filter_Some. cbn in *. congruence.
  - apply Hsame; [apply map_filter_subseteq|done].
Qed.

Lemma grants_reached evs : grants_ok evs (ns_grants (after evs)).
Proof.
  induction evs as [|evs env e acts IH _ _ Hlast] using after_ind; [by split|]. destruct (reached evs) as [Hok _].
  destruct Hlast as [[_ He]|(Hp & -> & _)]; [by eapply effect_grants|]. apply grants_ok_snoc; [done|]. cbn. intros id g _ ->. done.
Qed.

Lemma download_of env e st acts st' uid build bytes : effect env st e acts st' -> ADownload uid build bytes ∈ acts ->
  exists url method authorization token g, e = EHttp url method authorization /\ bearer authorization = Some token /\
    ns_grants st !! tokenId token = Some g /\ g_uid g = uid /\ g_build g = build /\ (ev_mono env < g_expires g)%Q /\
    ev_approved env uid build = true /\ ev_image env build = Some bytes.
Proof.
  intros He Ha. assert (forall P st1 a st2, quiet P st1 a st2 -> ADownload uid build bytes ∈ a -> P (ADownload uid build bytes)) as Hacts.
  { intros P st1 a st2 Hq Hin. pose proof (q_acts _ _ _ _ Hq) as Hf. rewrite Forall_forall in Hf. by apply Hf. }
  destruct He; try (match goal with Hq : quiet _ _ _ _ |- _ => by destruct (Hacts _ _ _ _ Hq Ha) as [[]|[? ?]] end);
    try (match goal with Hq : quiet _ _ _ _ |- _ => by destruct (Hacts _ _ _ _ Hq Ha) end);
    try (by apply list_elem_of_singleton in Ha); try (by apply not_elem_of_nil in Ha).
  - apply list_elem_of_singleton in Ha. injection Ha as [= -> -> ->]. by repeat eexists.
  - by destruct (se_route se); [apply list_elem_of_singleton in Ha|apply not_elem_of_nil in Ha].
  - by destruct (Hacts _ _ _ _ H2 Ha) as [[]|(_ & ? & ? & ?)].
  - apply elem_of_app in Ha as [Ha|Ha]; [by destruct (Hacts _ _ _ _ H3 Ha)|by destruct (Hacts _ _ _ _ H5 Ha) as [[]|(_ & ? & ? & ?)]].
Qed.

(** Firmware is served only under a live grant. When an image is sent, the
    request bore a token whose grant is the only one of its node, has not
    expired and is for that build; it had been given to a session that had
    proved itself to be that node's and was not revoked since; and the rollout
    still wants this node to fetch this build. *)
Theorem download_needs_a_live_grant evs env e uid build bytes :
  ADownload uid build bytes ∈ (step cfg (after evs) (env, e)).2 ->
  exists url method authorization token g,
    e = EHttp url method authorization /\ bearer authorization = Some token /\
    ns_grants (after evs) !! tokenId token = Some g /\ g_uid g = uid /\ g_build g = build /\ (ev_mono env < g_expires g)%Q /\
    granted evs (tokenId token) g /\
    (forall id g', ns_grants (after evs) !! id = Some g' -> g_uid g' = uid -> id = tokenId token) /\
    ev_approved env uid build = true /\ ev_image env build = Some bytes.
Proof.
  destruct (step cfg (after evs) (env, e)) as [st' acts] eqn:E. cbn [snd]. intros Ha.
  destruct (step_effect _ _ _ _ E) as [[_ He]|(_ & _ & ->)]; [|by apply not_elem_of_nil in Ha]. cbn [fst snd] in He.
  destruct (download_of _ _ _ _ _ _ _ _ He Ha) as (url & method & authorization & token & g & -> & Hb & Hl & <- & <- & He' & Happ & Hi).
  destruct (grants_reached evs) as [Hg Hs]. exists url, method, authorization, token, g. split_and!; try done; [by apply Hg|].
  intros id g' Hl' Hu. by eapply Hs.
Qed.

(** ** Everything is bounded *)

Definition from_source (st : Server) (source : string) : list nat :=
  List.filter (fun s => bool_decide (se_source (sess st s) = source)) (ns_pending st).

Record bounded (st : Server) : Prop := {
  bd_pending : (length (ns_pending st) <= maxPending lim)%nat;
  bd_source source : (length (from_source st source) <= maxPendingPerSource lim)%nat;
  bd_authed : (length (ns_authed st) <= maxSessions lim)%nat;
  bd_sources : (size (ns_upgrades st) <= MAX_SOURCES)%nat;
  bd_upgrades source times : ns_upgrades st !! source = Some times -> (length times <= upgradesPerMinute lim)%nat;
  bd_reasons : reasons_bounded st;
  bd_downloads : ns_downloads st <= MAX_DOWNLOADS }.

Lemma filter_sublist_length {A} (f : A -> bool) l l' : l `sublist_of` l' -> (length (List.filter f l) <= length (List.filter f l'))%nat.
Proof. induction 1 as [|x l l' _ IH|x l l' _ IH]; cbn; [lia| |]; destruct (f x); cbn; lia. Qed.

Lemma filter_ext_length {A} (f g : A -> bool) l : (forall x, f x = g x) -> length (List.filter f l) = length (List.filter g l).
Proof. intros Hf. by rewrite (List.filter_ext f g Hf). Qed.

Lemma bounded_quiet P st acts st' : quiet P st acts st' -> bounded st -> bounded st'.
Proof.
  intros Hq [p s a k u r d]. destruct (q_tables _ _ _ _ Hq) as (_ & _ & Eu & Ed). split; rewrite ?Eu, ?Ed; try done.
  - pose proof (sublist_length _ _ (q_pending _ _ _ _ Hq)). lia.
  - intros source. etransitivity; [|apply (s source)]. unfold from_source. etransitivity; [apply filter_sublist_length, (q_pending _ _ _ _ Hq)|].
    erewrite filter_ext_length; [reflexivity|]. intros x. cbn. by destruct (ident_fields _ _ (q_ident _ _ _ _ Hq x)) as (-> & _).
  - pose proof (sublist_length _ _ (q_authed _ _ _ _ Hq)). lia.
  - by apply (q_reasons _ _ _ _ Hq).
Qed.

(** The fields that a handler's own change does not touch. *)
Lemma bounded_same st st' : (length (ns_pending st') <= length (ns_pending st))%nat -> (length (ns_authed st') <= maxSessions lim)%nat ->
  (forall source, (length (from_source st' source) <= length (from_source st source))%nat) -> ns_upgrades st' = ns_upgrades st ->
  ns_rejects st' = ns_rejects st -> ns_downloads st' <= MAX_DOWNLOADS -> bounded st -> bounded st'.
Proof.
  intros Hp Ha Hs Hu Hr Hd [p s a k u r d]. split; rewrite ?Hu; try done; [lia| |].
  - intros source. etransitivity; [apply Hs|apply s].
  - unfold reasons_bounded. by rewrite Hr.
Qed.

Lemma bounded_upd s f st : (forall se, se_source (f se) = se_source se) -> bounded st -> bounded (upd s f st).
Proof.
  intros Hf Hb. apply (bounded_same st); try done; [apply Hb| |apply Hb]. intros source. unfold from_source.
  erewrite filter_ext_length; [reflexivity|]. intros x. cbn. rewrite sess_upd. destruct (bool_decide (s = x)) eqn:E; [apply bool_decide_eq_true in E as <-; by rewrite Hf|done].
Qed.

Lemma bounded_upgrades m st : (size m <= MAX_SOURCES)%nat -> (forall source times, m !! source = Some times -> (length times <= upgradesPerMinute lim)%nat) ->
  bounded st -> bounded (set_upgrades m st).
Proof. intros Hm Ht [p s a k u r d]. by split. Qed.

Lemma upgrades_next_bounded t source st m : upgrades_next t source st m -> bounded st ->
  (size m <= MAX_SOURCES)%nat /\ forall src times, m !! src = Some times -> (length times <= upgradesPerMinute lim)%nat.
Proof.
  intros (m0 & Hsub & Hroom & Hrecent & ->) [p s a k u r d]. split.
  - rewrite map_size_insert. pose proof (map_subseteq_size _ _ Hsub) as Hsize. destruct Hroom as [[x ->]|]; [cbn; lia|]. destruct (m0 !! source); cbn; lia.
  - intros src times [[<- <-]|[_ Hl]]%lookup_insert_Some; [rewrite length_app; cbn; lia|]. eapply u, lookup_weaken; eauto.
Qed.

Lemma bounded_opened env s source m st : ns_heap st !! s = None -> tidy st ->
  (length (ns_pending st) < maxPending lim)%nat -> (length (from_source st source) < maxPendingPerSource lim)%nat ->
  bounded (set_upgrades m st) -> bounded (opened env s source (set_upgrades m st)).
Proof.
  intros Hfresh Ht Hp Hs [p s' a k u r d]. split; try done.
  - cbn. rewrite length_app. cbn. lia.
  - intros src. unfold from_source. cbn [ns_pending opened set_pending set_heap set_upgrades]. rewrite List.filter_app, length_app. cbn [List.filter].
    rewrite sess_opened, (bool_decide_eq_true_2 (s = s)) by done. cbn [se_source blank_session].
    assert (length (List.filter (fun x => bool_decide (se_source (sess (opened env s source (set_upgrades m st)) x) = src)) (ns_pending st)) =
      length (from_source st src)) as ->.
    { unfold from_source. f_equal. apply List.filter_ext_in. intros x Hx%list_elem_of_In. rewrite sess_opened, (bool_decide_eq_false_2 (s = x)); [done|].
      intros ->. apply (tidy_pending _ Ht) in Hx. by rewrite sess_fresh in Hx. }
    case_bool_decide; cbn [length]; [subst; lia|]. rewrite Nat.add_0_r. apply (s' src).
Qed.

Lemma bounded_proved env s uid i key hist st : (length (ns_authed st) < maxSessions lim)%nat -> bounded st -> bounded (proved_to env s uid i key hist st).
Proof.
  intros Hroom Hb. apply (bounded_same st); try done.
  - apply sublist_length, without_sublist.
  - cbn. rewrite length_app. cbn. lia.
  - intros source. unfold from_source. etransitivity; [apply filter_sublist_length, without_sublist|].
    change (ns_pending (upd s _ st)) with (ns_pending st). erewrite filter_ext_length; [reflexivity|]. intros x. cbn. rewrite sess_proved.
    destruct (bool_decide (s = x)) eqn:E; [by apply bool_decide_eq_true in E as <-|done].
  - apply Hb.
Qed.

Lemma effect_bounded ch pr env e st acts st' : sessions_ok ch pr st -> possible st e = true -> effect env st e acts st' -> bounded st -> bounded st'.
Proof.
  intros [Ht _] Hp He Hb. case_effect He; try (eapply bounded_quiet; [eassumption|]); try done.
  - apply (bounded_same st); try done; [apply Hb|cbn; lia].
  - apply (bounded_same st); try done; [apply Hb|]. cbn. pose proof (bd_downloads _ Hb). lia.
  - destruct Hm as [Hm|[source Hm]].
    + apply bounded_upgrades; [| |done].
      * pose proof (map_subseteq_size _ _ Hm). pose proof (bd_sources _ Hb). lia.
      * intros source times Hl. eapply (bd_upgrades _ Hb), lookup_weaken; eauto.
    + destruct (upgrades_next_bounded _ _ _ _ Hm Hb). by apply bounded_upgrades.
  - apply fresh_ws in Hp. destruct (upgrades_next_bounded _ _ _ _ Hm Hb). apply bounded_opened; try done. by apply bounded_upgrades.
  - apply bounded_upd; [apply Hf|done].
  - by apply bounded_proved.
  - by apply bounded_upd.
  - by apply bounded_upd.
  - apply (bounded_same st); try done; apply Hb.
  - eapply bounded_quiet; [exact Hq|].
    apply (bounded_same (upd s (fun se => with_active (with_accepted (ev_now env) se)) st)); try done; [apply Hb|apply Hb|]. by apply bounded_upd.
  - apply (bounded_same st); try done; apply Hb.
  - apply (bounded_same st); try done; apply Hb.
  - apply (bounded_same st); try done; apply Hb.
Qed.

(** Whatever strangers do, the listener's tables stay small: handshakes in
    all and from one source, authenticated sessions, sources and the upgrades
    counted of each, downloads, and the reasons counted (one more than 128, for
    the others). *)
Theorem listener_is_bounded evs : bounded (after evs) /\ (size (ns_rejects (after evs)) <= 129)%nat.
Proof.
  assert (bounded (after evs)) as Hb.
  { induction evs as [|evs env e acts IH _ _ Hlast] using after_ind.
    - split; try (cbn; lia); try done.
      + apply Nat.leb_le. reflexivity.
      + apply Nat.leb_le. reflexivity.
    - destruct Hlast as [[Hp He]|(_ & -> & _)]; [|done]. destruct (reached evs) as [Hok _]. by eapply effect_bounded. }
  split; [done|]. apply (reasons_bounded_size _ (bd_reasons _ Hb)).
Qed.
End effect.

(** ** Witnesses *)

Definition demo_uid : string := uid_text Protocol.demo_uid.
Definition demo_nonce : string := to_hex (replicate 32 1).
Definition demo_options : NodeServerOptions :=
  {| no_limits := DEFAULT_NODE_LIMITS; no_keys := [demo_key]; no_devices := None; no_heartbeatMs := 15000; no_deadMs := 45000 |}.
Definition demo_auth : json :=
  JObj [("type", JStr "auth"); ("v", JInt 1); ("uid", JStr demo_uid); ("nonce", JStr demo_nonce);
        ("mac", JStr (@authMac TestCrypto.crypto demo_key demo_uid demo_nonce))].
Definition demo_json : JsonText := {| json_parse b := if bool_decide (b = [123]) then Some demo_auth else None; json_text _ := [123] |}.
Definition demo_sha : Sha := {| sha256 b := TestCrypto.mac [] b |}.
Definition at_ms (t : Z) : Env :=
  {| ev_now := t; ev_mono := inject_Z t; ev_ready := fun _ => OPEN; ev_buffered := fun _ => 0; ev_registered := fun _ => true;
     ev_approved := fun _ _ => true; ev_image := fun _ => Some [1; 2; 3]; ev_nonce := replicate 32 1; ev_id := "sid";
     ev_token := replicate 32 2; ev_epoch := replicate 16 3 |}.
Definition demo_build : string := "0123456789abcdef".
Definition demo_upgrade (ws : nat) : Event := EUpgrade (Some ("/tmnode", EmptyString)) "tmnode.v1" "1.2.3.4" None (Some ws).

(** A node connects, answers its challenge and sends a report. *)
Definition demo_events : list (Env * Event) :=
  [(at_ms 10, demo_upgrade 0); (at_ms 20, EMessage 0 [123] false); (at_ms 30, EMessage 0 [9; 9] true); (at_ms 31, EAdmit 0 demo_packet)].
Definition demo_result : Event := EResult 0 (Accepted demo_packet (RUdp "a") None).
Notation demo_after := (@after TestCrypto.crypto demo_json demo_sha demo_options).
Notation demo_step := (@step TestCrypto.crypto demo_json demo_sha demo_options).

Lemma only_the_proven_are_heard_witness :
  AIngest 0 [9; 9] ("ws:" +:+ demo_uid +:+ ":sid") ∈ @done_in TestCrypto.crypto demo_json demo_sha demo_options demo_events /\
  exists uid key sid, @proven TestCrypto.crypto demo_json demo_options demo_events 0 uid key /\ "ws:" +:+ demo_uid +:+ ":sid" = "ws:" +:+ uid +:+ ":" +:+ sid.
Proof.
  assert (AIngest 0 [9; 9] ("ws:" +:+ demo_uid +:+ ":sid") ∈ @done_in TestCrypto.crypto demo_json demo_sha demo_options demo_events) as Hin.
  { apply (list_elem_of_lookup_2 _ 2). vm_compute. reflexivity. }
  split; [exact Hin|].
  exact (proj1 (@only_the_proven_are_heard TestCrypto.crypto demo_json demo_sha demo_options demo_events) 0%nat [9; 9] _ Hin).
Defined.

Lemma ack_only_what_was_accepted_witness :
  exists p route ack, demo_result = EResult 0 (Accepted p route ack) /\ is_report p || is_status p = true /\
    3 = h_boot (p_header p) /\ 41 = h_seq (p_header p) /\ exists uid key, @proven TestCrypto.crypto demo_json demo_options demo_events 0 uid key.
Proof.
  apply (@ack_only_what_was_accepted TestCrypto.crypto demo_json demo_sha demo_options demo_events (at_ms 40) demo_result 0 "sid" 3 41 [123]).
  apply (list_elem_of_lookup_2 _ 0). vm_compute. reflexivity.
Defined.

Lemma rate_is_bounded_witness :
  let t0 := ends 0 (take 2 demo_events) in let t1 := ends t0 (drop 2 demo_events) in
  (taken Bytes 0 (concat (@serve TestCrypto.crypto demo_json demo_sha demo_options (demo_after (take 2 demo_events)) (drop 2 demo_events)).2)
   <= inject_Z (rate demo_options Bytes * 2) + (t1 - t0) / 1000 * inject_Z (rate demo_options Bytes))%Q.
Proof.
  apply (@rate_is_bounded TestCrypto.crypto demo_json demo_sha demo_options Bytes 0 (take 2 demo_events) (drop 2 demo_events)).
  - vm_compute. discriminate.
  - vm_compute. repeat split; discriminate.
Defined.

Definition demo_status (up : Z) : Packet :=
  {| p_header := {| h_type := TYPE_STATUS; h_uid := demo_uid; h_boot := 4; h_seq := 1; h_uptimeMs := up mod 2 ^ 32; h_signed := true; h_secureId := None |};
     p_body := p_body demo_packet |}.

(** The node's clock turns over between the first and the second packet, and
    the third is three seconds late. *)
Definition demo_window : list (Env * Event) :=
  [(at_ms 100, EAdmit 0 (demo_status (2 ^ 32 - 500))); (at_ms 1100, EAdmit 0 (demo_status (2 ^ 32 + 500))); (at_ms 5100, EAdmit 0 (demo_status (2 ^ 32 + 1500)))].
Definition demo_seen : list Seen :=
  [(inject_Z 1100, 2 ^ 32 + 500, None); (inject_Z 5100, 2 ^ 32 + 1500, Some "delayed 3000 ms beyond this boot's fastest delivery")].

Lemma backlog_is_refused_witness : verdicts [(inject_Z 100, 2 ^ 32 - 500)] demo_seen.
Proof.
  apply (@backlog_is_refused TestCrypto.crypto demo_json demo_sha demo_options demo_uid demo_events demo_window 4).
  - intros b Hb. vm_compute in Hb. injection Hb as [= <-]. discriminate.
  - vm_compute. reflexivity.
  - vm_compute. repeat split; discriminate.
Defined.

Lemma download_needs_a_live_grant_witness :
  let evs := demo_events ++ [(at_ms 50, EGrant 0 7 demo_build)] in
  let request := EHttp (Some ("/fw/0123456789abcdef.bin", EmptyString)) "GET" ("Bearer " +:+ to_hex (replicate 32 2)) in
  ADownload demo_uid demo_build [1; 2; 3] ∈ (demo_step (demo_after evs) (at_ms 60, request)).2 /\
  exists token g, @granted TestCrypto.crypto demo_json demo_sha demo_options evs (@tokenId demo_sha token) g /\ g_uid g = demo_uid.
Proof.
  intros evs request.
  assert (ADownload demo_uid demo_build [1; 2; 3] ∈ (demo_step (demo_after evs) (at_ms 60, request)).2) as Hin.
  { apply (list_elem_of_lookup_2 _ 0). vm_compute. reflexivity. }
  split; [exact Hin|].
  destruct (@download_needs_a_live_grant TestCrypto.crypto demo_json demo_sha demo_options evs (at_ms 60) request demo_uid demo_build [1; 2; 3] Hin)
    as (url & method & authorization & token & g & _ & _ & _ & Hu & _ & _ & Hg & _).
  exists token, g. split; [exact Hg|exact Hu].
Defined.
