(* ===== verification/Cluster.v ===== *)
(** Blobs of one node that are one person (src/edge/occupancy.ts, mergeClose):
    a disjoint-set forest with path compression over the blobs, kept as the
    array of parents it is in the code, and the clusters it leads to. Distances
    are compared by their squares. *)

From S2P Require Import Prelude Geometry Protocol.

(** A detection with its place on the floor and its normalised heat.
    @edge/occupancy.ts 211-214 ingest *)
Record Blob := { bl_det : Detection; bl_floorX : Q; bl_floorY : Q; bl_norm : Q }.

(** @edge/occupancy.ts 108-108 FRAGMENT_RATIO *)
Definition FRAGMENT_RATIO : Q := 2 # 5.

(** [Math.hypot(x, y)] against a bound, by squares. *)
Definition within (x y r : Q) : bool := Qle_bool 0 r && Qle_bool (x * x + y * y) (r * r).
Definition nearer (x y r : Q) : bool := Qltb 0 r && Qltb (x * x + y * y) (r * r).

(** @edge/occupancy.ts 344-349 mergeClose *)
Definition link (mergeCm : Q) (a b : Blob) : bool :=
  nearer (bl_floorX a - bl_floorX b) (bl_floorY a - bl_floorY b) mergeCm &&
  let small := Qmin' (bl_norm a) (bl_norm b) in
  let large := Qmax' (bl_norm a) (bl_norm b) in
  Qltb 0 large && Qltb (small / large) FRAGMENT_RATIO.

(** The root of [i]'s tree, and the array with the path to it compressed. The
    fuel bounds the height of a tree; the length of the array is enough.
    @edge/occupancy.ts 341-341 mergeClose *)
Fixpoint root (fuel : nat) (group : list nat) (i : nat) : list nat * nat :=
  match fuel with
  | O => (group, i)
  | S fuel' =>
      match group !! i with
      | None => (group, i)
      | Some p => if Nat.eqb p i then (group, i) else let '(group', r) := root fuel' group p in (<[i := r]> group', r)
      end
  end.

(** @edge/occupancy.ts 349-349 mergeClose *)
Definition unite (group : list nat) (i j : nat) : list nat :=
  let '(g1, ri) := root (length group) group i in
  let '(g2, rj) := root (length group) g1 j in
  <[ri := rj]> g2.

(** The pairs the two loops go through.
    @edge/occupancy.ts 342-343 mergeClose *)
Definition index_pairs (n : nat) : list (nat * nat) :=
  List.seq 0 n ≫= fun i => map (pair i) (List.seq (S i) (n - S i)).

Definition linked (mergeCm : Q) (blobs : list Blob) (i j : nat) : bool :=
  match blobs !! i, blobs !! j with Some a, Some b => link mergeCm a b | _, _ => false end.

(** @edge/occupancy.ts 339-351 mergeClose *)
Definition join_close (mergeCm : Q) (blobs : list Blob) : list nat :=
  fold_left (fun g ij => if linked mergeCm blobs ij.1 ij.2 then unite g ij.1 ij.2 else g)
    (index_pairs (length blobs)) (List.seq 0 (length blobs)).

(** The members of each cluster, by index.
    @edge/occupancy.ts 352-357 mergeClose *)
Definition by_root (group : list nat) : list (nat * list nat) :=
  snd (fold_left (fun st i =>
    let '(g, m) := st in
    let '(g', r) := root (length group) g i in
    (g', om_set r (default [] (om_get r m) ++ [i]) m)) (List.seq 0 (length group)) (group, [])).

(** @edge/occupancy.ts 361-361 mergeClose *)
Definition weight (b : Blob) : Q := Qmax' (bl_norm b) (1 # 1000000).

(** @edge/occupancy.ts 358-372 mergeClose *)
Definition merge_members (first : Blob) (rest : list Blob) : Blob :=
  match rest with
  | [] => first
  | _ =>
      let members := first :: rest in
      let largest := fold_left (fun a b => if d_area (bl_det a) <? d_area (bl_det b) then b else a) rest first in
      let w := Qsum (map weight members) in
      {| bl_det := {| d_x := d_x (bl_det largest); d_y := d_y (bl_det largest);
                      d_area := fold_left Z.add (map (fun b => d_area (bl_det b)) members) 0;
                      d_contrast := fold_left Qmax' (map (fun b => d_contrast (bl_det b)) rest) (d_contrast (bl_det first));
                      d_peak := fold_left Qmax' (map (fun b => d_peak (bl_det b)) rest) (d_peak (bl_det first));
                      d_heat := Qsum (map (fun b => d_heat (bl_det b)) members) |};
         bl_floorX := (Qsum (map (fun b => bl_floorX b * weight b)%Q members) / w)%Q;
         bl_floorY := (Qsum (map (fun b => bl_floorY b * weight b)%Q members) / w)%Q;
         bl_norm := Qsum (map bl_norm members) |}
  end.

Definition clusters (mergeCm : Q) (blobs : list Blob) : list (list nat) := map snd (by_root (join_close mergeCm blobs)).

(** @edge/occupancy.ts 338-373 mergeClose *)
Definition mergeClose (mergeCm : Q) (blobs : list Blob) : list Blob :=
  omap (fun ids => match omap (fun i => blobs !! i) ids with b :: rest => Some (merge_members b rest) | [] => None end)
    (clusters mergeCm blobs).

(** ** The forest *)

Section forest.
Context (n : nat).

(** The array is a forest: [rep] is the root of each index and [dep] falls along
    the way to it. *)
Record forest (g : list nat) (rep dep : nat -> nat) : Prop := {
  fo_len : length g = n;
  fo_step i : (i < n)%nat -> exists p, g !! i = Some p /\ (p < n)%nat /\ rep p = rep i /\ (rep i < n)%nat /\
    (p = i -> rep i = i) /\ (p <> i -> (dep p < dep i)%nat);
}.

Lemma below_length (l : list nat) : NoDup l -> (forall x, x ∈ l -> (x < n)%nat) -> (length l <= n)%nat.
Proof.
  intros Hnd Hl. rewrite <- (length_seq n 0). apply submseteq_length, NoDup_submseteq; [done|]. intros x Hx. apply list_elem_of_In, in_seq.
  specialize (Hl x Hx). lia.
Qed.

(** Enough fuel reaches the root; what was [visited] on the way is deeper. *)
Lemma root_spec rep dep fuel : forall g visited i, forest g rep dep -> (i < n)%nat -> NoDup visited ->
  (forall v, v ∈ visited -> (v < n)%nat /\ (dep i < dep v)%nat) -> (n <= length visited + fuel)%nat ->
  exists g', root fuel g i = (g', rep i) /\ forest g' rep dep /\ g' !! rep i = Some (rep i) /\ rep (rep i) = rep i /\
    (rep i <> i -> (dep (rep i) < dep i)%nat).
Proof.
  induction fuel as [|fuel IH]; intros g visited i Hf Hi Hnd Hv Hn.
  - assert (length (i :: visited) <= n)%nat; [|cbn in *; lia]. apply below_length.
    + apply NoDup_cons. split; [|done]. intros Hin. specialize (Hv i Hin). lia.
    + intros x [->|Hx]%elem_of_cons; [done | by apply Hv].
  - cbn [root]. destruct (fo_step _ _ _ Hf i Hi) as (p & Hp & Hpn & Hrep & Hrn & Hself & Hdep). rewrite Hp.
    destruct (Nat.eqb_spec p i) as [->|Hne].
    + exists g. pose proof (Hself eq_refl) as Er. rewrite !Er. split_and!; done.
    + destruct (IH g (i :: visited) p) as (g' & E & Hf' & Hroot & Hrr & Hlt); [done|done| | | |].
      * apply NoDup_cons. split; [|done]. intros Hin. specialize (Hv i Hin). lia.
      * intros v [->|Hin]%elem_of_cons; [split; [done | by apply Hdep]|]. destruct (Hv v Hin). specialize (Hdep Hne). lia.
      * cbn. lia.
      * rewrite E. cbn [fst snd]. rewrite Hrep in *. specialize (Hdep Hne).
        assert (dep (rep i) < dep i)%nat as Hd by (destruct (decide (rep i = p)) as [Ep|Ep]; [rewrite Ep; lia|specialize (Hlt Ep); lia]).
        exists (<[i := rep i]> g'). split_and!; try done.
        -- constructor; [rewrite length_insert; apply Hf'|]. intros x Hx. destruct (decide (x = i)) as [->|Hx'].
           ++ exists (rep i). rewrite list_lookup_insert_eq by (by rewrite (fo_len _ _ _ Hf')). split_and!; done.
           ++ rewrite list_lookup_insert_ne by done. by apply Hf'.
        -- rewrite list_lookup_insert_ne; [done|]. intros Heq. rewrite <- Heq in Hd. lia.
Qed.

Lemma root_ok rep dep g i : forest g rep dep -> (i < n)%nat ->
  exists g', root n g i = (g', rep i) /\ forest g' rep dep /\ g' !! rep i = Some (rep i) /\ rep (rep i) = rep i.
Proof.
  intros Hf Hi. destruct (root_spec rep dep n g [] i) as (g' & H1 & H2 & H3 & H4 & _); try done; [constructor|by intros v ?%not_elem_of_nil|].
  by exists g'.
Qed.

Definition join (rep : nat -> nat) (i j x : nat) : nat := if decide (rep x = rep i) then rep j else rep x.

Lemma unite_ok rep dep g i j : forest g rep dep -> (i < n)%nat -> (j < n)%nat -> exists dep', forest (unite g i j) (join rep i j) dep'.
Proof.
  intros Hf Hi Hj. unfold unite. rewrite (fo_len _ _ _ Hf).
  destruct (root_ok rep dep g i Hf Hi) as (g1 & E1 & Hf1 & R1 & RR1). rewrite E1.
  destruct (root_ok rep dep g1 j Hf1 Hj) as (g2 & E2 & Hf2 & R2 & RR2). rewrite E2.
  assert (rep i < n)%nat as Hri by (by destruct (fo_step _ _ _ Hf i Hi) as (? & _ & _ & _ & ? & _)).
  assert (rep j < n)%nat as Hrj by (by destruct (fo_step _ _ _ Hf j Hj) as (? & _ & _ & _ & ? & _)).
  exists (fun x => if decide (rep x = rep i) then if decide (rep i = rep j) then dep x else (dep x + dep (rep j) + 1)%nat else dep x).
  constructor; [rewrite length_insert; apply Hf2|]. intros x Hx. unfold join.
  destruct (decide (x = rep i)) as [->|Hne].
  - exists (rep j). rewrite list_lookup_insert_eq by (by rewrite (fo_len _ _ _ Hf2)).
    rewrite RR1, (decide_True _ _ eq_refl). rewrite RR2. split_and!; [done|done| |done| |].
    + by destruct (decide (rep j = rep i)).
    + intros E. by rewrite E.
    + intros Hd. repeat case_decide; try congruence; lia.
  - destruct (fo_step _ _ _ Hf2 x Hx) as (p & Hp & Hpn & Hrep & Hrn & Hself & Hdep).
    exists p. rewrite list_lookup_insert_ne by done. rewrite Hrep. split_and!; [done|done|done| | |].
    + by destruct (decide (rep x = rep i)).
    + intros E. specialize (Hself E). destruct (decide (rep x = rep i)) as [Ex|]; [|done]. rewrite Hself in Ex. congruence.
    + intros E. specialize (Hdep E). destruct (decide (rep x = rep i)); [destruct (decide (rep i = rep j))|]; lia.
Qed.
End forest.

(** ** The clusters are the connected components *)

Lemma elem_of_pairs n i j : (i, j) ∈ index_pairs n <-> (i < j < n)%nat.
Proof.
  unfold index_pairs. rewrite list_elem_of_bind. split.
  - intros (k & (b & [= -> ->] & Hb%list_elem_of_In%in_seq)%list_elem_of_fmap & Hk%list_elem_of_In%in_seq). lia.
  - intros H. exists i. split; [|apply list_elem_of_In, in_seq; lia]. apply list_elem_of_fmap. exists j. split; [done|].
    apply list_elem_of_In, in_seq. lia.
Qed.

Definition edge (mergeCm : Q) (blobs : list Blob) (l : list (nat * nat)) (i j : nat) : Prop :=
  (i, j) ∈ l /\ linked mergeCm blobs i j = true.

Lemma rtsc_mono {A} (R S : A -> A -> Prop) x y : (forall a b, R a b -> S a b) -> rtsc R x y -> rtsc S x y.
Proof. intros H. apply rtc_subrel. intros a b [?|?]; [left|right]; auto. Qed.

Lemma rtsc_eq {A B} (R : A -> A -> Prop) (f : A -> B) x y : (forall a b, R a b -> f a = f b) -> rtsc R x y -> f x = f y.
Proof. intros H. induction 1 as [x|x y z [Hr|Hr] _ IH]; [done| |]; apply H in Hr; congruence. Qed.

(** The forest knows exactly the edges gone through so far. *)
Definition knows (n : nat) (R : nat -> nat -> Prop) (g : list nat) : Prop :=
  exists rep dep, forest n g rep dep /\ (forall x y, R x y -> rep x = rep y) /\
    (forall x y, (x < n)%nat -> (y < n)%nat -> rep x = rep y -> rtsc R x y).

Lemma join_eq rep i j x y : join rep i j x = join rep i j y ->
  rep x = rep y \/ (rep x = rep i /\ rep y = rep j) \/ (rep x = rep j /\ rep y = rep i).
Proof. unfold join. repeat case_decide; intuition congruence. Qed.

Lemma knows_unite n (R : nat -> nat -> Prop) g i j : knows n R g -> (i < n)%nat -> (j < n)%nat ->
  knows n (fun a b => R a b \/ (a = i /\ b = j)) (unite g i j).
Proof.
  intros (rep & dep & Hf & H1 & H2) Hi Hj. destruct (unite_ok n rep dep g i j Hf Hi Hj) as [dep' Hf'].
  exists (join rep i j), dep'. split_and!; [done| |].
  - intros x y [H%H1|[-> ->]]; unfold join; [by rewrite H|]. rewrite decide_True by done. by case_decide.
  - assert (forall a b, (a < n)%nat -> (b < n)%nat -> rep a = rep b -> rtsc (fun a b => R a b \/ (a = i /\ b = j)) a b) as Hm.
    { intros a b Ha Hb E. apply (rtsc_mono R); [by left|]. by apply H2. }
    assert (rtsc (fun a b => R a b \/ (a = i /\ b = j)) i j) as Hij by (apply rtc_once; left; by right).
    assert (rtsc (fun a b => R a b \/ (a = i /\ b = j)) j i) as Hji by (apply rtc_once; right; by right).
    intros x y Hx Hy [E|[[E1 E2]|[E1 E2]]]%join_eq; [by apply Hm| |].
    + transitivity i; [by apply Hm|]. transitivity j; [done | by apply Hm].
    + transitivity j; [by apply Hm|]. transitivity i; [done | by apply Hm].
Qed.

Lemma knows_ext n (R S : nat -> nat -> Prop) g : (forall a b, R a b <-> S a b) -> knows n R g -> knows n S g.
Proof.
  intros H (rep & dep & Hf & H1 & H2). exists rep, dep. split_and!; [done|intros x y E; by apply H1, H|].
  intros x y Hx Hy E. eapply rtsc_mono; [|by apply H2]. intros a b. apply H.
Qed.

Lemma join_close_knows mergeCm blobs : let n := length blobs in
  knows n (edge mergeCm blobs (index_pairs n)) (join_close mergeCm blobs).
Proof.
  intros n. unfold join_close. fold n.
  assert (forall l done g, (forall ij, ij ∈ l -> (ij.1 < n)%nat /\ (ij.2 < n)%nat) -> knows n (edge mergeCm blobs done) g ->
    knows n (edge mergeCm blobs (done ++ l))
      (fold_left (fun g ij => if linked mergeCm blobs ij.1 ij.2 then unite g ij.1 ij.2 else g) l g)) as H.
  { induction l as [|[i j] l IH]; intros d g Hl Hg; [by rewrite app_nil_r|]. cbn [fold_left].
    rewrite (app_assoc d [(i, j)] l : d ++ (i, j) :: l = _). apply IH; [intros ij Hin; apply Hl; by right|]. cbn [fst snd].
    destruct (Hl (i, j) ltac:(by left)) as [Hi Hj]. cbn in Hi, Hj. destruct (linked mergeCm blobs i j) eqn:E.
    - eapply knows_ext; [|by apply knows_unite]. intros a b. unfold edge. rewrite elem_of_app, list_elem_of_singleton. split.
      + intros [[? ?]|[-> ->]]; [split; [by left|done]|split; [by right|done]].
      + intros [[?|[= -> ->]] ?]; [by left|by right].
    - eapply knows_ext; [|exact Hg]. intros a b. unfold edge. rewrite elem_of_app, list_elem_of_singleton. split.
      + intros [? ?]. split; [by left|done].
      + intros [[?|[= -> ->]] ?]; [done|congruence]. }
  apply (H _ [] (List.seq 0 n)).
  - intros [i j] ?%elem_of_pairs. cbn. lia.
  - exists id, (fun _ => 0%nat). split_and!.
    + constructor; [apply length_seq|]. intros i Hi. exists i. rewrite lookup_seq_lt by done. by split_and!.
    + intros x y [?%not_elem_of_nil _]. done.
    + intros x y _ _ E. unfold id in E. subst. reflexivity.
Qed.

(** One index filed under its root. *)
Definition file (m : list (nat * list nat)) (r i : nat) : list (nat * list nat) := om_set r (default [] (om_get r m) ++ [i]) m.

Lemma file_concat m r i : concat (map snd (file m r i)) ≡ₚ concat (map snd m) ++ [i].
Proof.
  unfold file. induction m as [|[k c] m IH]; [done|]. cbn [om_get om_set]. case_bool_decide as E; cbn [map snd concat].
  - cbn [default from_option id]. rewrite <- !app_assoc. apply Permutation_app_head, Permutation_app_comm.
  - rewrite IH. by rewrite app_assoc.
Qed.

Lemma file_elem m r i k c : (k, c) ∈ file m r i -> (k, c) ∈ m \/ (k = r /\ c = default [] (om_get r m) ++ [i]).
Proof. intros [[= -> ->]|?]%om_set_elem; [by right|by left]. Qed.

Lemma by_root_ok n rep dep g : forest n g rep dep -> let m := by_root g in
  NoDup (om_keys m) /\ concat (map snd m) ≡ₚ List.seq 0 n /\ (forall k c, (k, c) ∈ m -> c <> [] /\ forall i, i ∈ c -> rep i = k).
Proof.
  intros Hf. unfold by_root. rewrite (fo_len _ _ _ _ Hf).
  assert (forall l g m done, (forall i, i ∈ l -> (i < n)%nat) -> forest n g rep dep -> NoDup (om_keys m) -> concat (map snd m) ≡ₚ done ->
    (forall k c, (k, c) ∈ m -> c <> [] /\ forall i, i ∈ c -> rep i = k) ->
    let m' := snd (fold_left (fun st i => let '(g, m) := st in let '(g', r) := root n g i in (g', om_set r (default [] (om_get r m) ++ [i]) m)) l (g, m)) in
    NoDup (om_keys m') /\ concat (map snd m') ≡ₚ done ++ l /\ (forall k c, (k, c) ∈ m' -> c <> [] /\ forall i, i ∈ c -> rep i = k)) as H.
  { clear g Hf. induction l as [|i l IH]; intros g m d Hl Hf Hk Hc Hm; [by rewrite app_nil_r|]. cbn [fold_left].
    destruct (root_ok n rep dep g i Hf (Hl i ltac:(by left))) as (g' & -> & Hf' & _). rewrite (app_assoc d [i] l : d ++ i :: l = _).
    apply IH; [intros j Hj; apply Hl; by right|done|by apply om_set_nodup| |].
    - change (concat (map snd (file m (rep i) i)) ≡ₚ d ++ [i]). by rewrite file_concat, Hc.
    - intros k c [Hin|[-> ->]]%file_elem; [by apply Hm|]. split; [by destruct (default [] _)|].
      intros j [Hj| ->%list_elem_of_singleton]%elem_of_app; [|done]. destruct (om_get (rep i) m) as [c|] eqn:E; [|by apply not_elem_of_nil in Hj].
      eapply Hm; [|exact Hj]. by apply om_get_elem. }
  apply (H (List.seq 0 n) g [] []); [intros i ?%list_elem_of_In%in_seq; lia|done|constructor|done|by intros k c ?%not_elem_of_nil].
Qed.

(** C34: Two blobs are one person exactly when a chain of small, close fragments
    joins them. The clusters [mergeClose] finds, with its parent array and path
    compression, contain every blob once, and two blobs are in one cluster if
    and only if they are connected by pairs that the merge rule links. *)
Theorem clusters_are_components mergeCm blobs : let n := length blobs in
  concat (clusters mergeCm blobs) ≡ₚ List.seq 0 n /\
  forall i j, (i < n)%nat -> (j < n)%nat ->
    (exists c, c ∈ clusters mergeCm blobs /\ i ∈ c /\ j ∈ c) <->
    rtsc (fun a b => (a < b < n)%nat /\ linked mergeCm blobs a b = true) i j.
Proof.
  intros n. destruct (join_close_knows mergeCm blobs) as (rep & dep & Hf & H1 & H2). fold n in Hf, H1, H2.
  destruct (by_root_ok n rep dep _ Hf) as (Hk & Hc & Hm). fold (clusters mergeCm blobs) in Hc.
  set (m := by_root (join_close mergeCm blobs)) in *. split; [exact Hc|]. intros i j Hi Hj.
  assert (forall x y, edge mergeCm blobs (index_pairs n) x y <-> (x < y < n)%nat /\ linked mergeCm blobs x y = true) as He.
  { intros x y. unfold edge. by rewrite elem_of_pairs. }
  assert (forall x, (x < n)%nat -> exists c, (rep x, c) ∈ m /\ x ∈ c) as Hfind.
  { intros x Hx. assert (x ∈ concat (clusters mergeCm blobs)) as Hin by (rewrite Hc; apply list_elem_of_In, in_seq; lia).
    apply list_elem_of_In, in_concat in Hin as (c & Hcm%list_elem_of_In & Hxc%list_elem_of_In).
    apply list_elem_of_fmap in Hcm as ([k c'] & -> & Hkc). exists c'. split; [|done]. cbn in Hxc.
    destruct (Hm k c' Hkc) as [_ Hrep]. by rewrite (Hrep x Hxc). }
  split.
  - intros (c & Hcm & Hic & Hjc). apply list_elem_of_fmap in Hcm as ([k c'] & -> & Hkc). cbn in Hic, Hjc.
    destruct (Hm k c' Hkc) as [_ Hrep]. eapply rtsc_mono; [|apply H2]; [intros a b; apply He|done|done|]. by rewrite (Hrep i Hic), (Hrep j Hjc).
  - intros Hr. assert (rep i = rep j) as E. { eapply rtsc_eq; [|exact Hr]. intros a b Hab. by apply H1, He. }
    destruct (Hfind i Hi) as (c & Hic & ?). destruct (Hfind j Hj) as (c' & Hjc & ?). rewrite E in Hic.
    pose proof (om_elem_get _ _ _ Hk Hic). pose proof (om_elem_get _ _ _ Hk Hjc). assert (c' = c) as -> by congruence.
    exists c. split; [|done]. apply list_elem_of_fmap. by exists (rep j, c).
Qed.

(** ** What merging keeps *)

(** A quantity that merging adds up is the same in total before and after. *)
Lemma mergeClose_total (f : Blob -> Q) mergeCm blobs :
  (forall b rest, f (merge_members b rest) == Qsum (map f (b :: rest)))%Q ->
  (Qsum (map f (mergeClose mergeCm blobs)) == Qsum (map f blobs))%Q.
Proof.
  intros Hf. assert (concat (clusters mergeCm blobs) ≡ₚ List.seq 0 (length blobs)) as Hc.
  { destruct (join_close_knows mergeCm blobs) as (rep & dep & Hfo & _). by destruct (by_root_ok _ rep dep _ Hfo) as (_ & Hc & _). }
  assert (forall l : list Blob, omap (fun i => l !! i) (List.seq 0 (length l)) = l) as Hall.
  { induction l as [|x l IH] using rev_ind; [done|]. rewrite length_app, seq_app, omap_app. cbn.
    rewrite lookup_app_r, Nat.sub_diag by done. cbn. f_equal. rewrite <- IH at 2. apply list_omap_ext, Forall2_same_length_lookup_2.
    - done.
    - intros k i j Hi Hj. rewrite Hi in Hj. injection Hj as <-. apply lookup_seq in Hi. rewrite lookup_app_l by lia. done. }
  unfold mergeClose. revert Hc. generalize (clusters mergeCm blobs). intros cs Hc.
  transitivity (Qsum (map f (omap (fun i => blobs !! i) (concat cs)))); cycle 1.
  { transitivity (Qsum (map f (omap (fun i => blobs !! i) (List.seq 0 (length blobs))))); [|by rewrite Hall].
    apply Qsum_perm, Permutation_map, omap_Permutation, Hc. }
  clear Hc. induction cs as [|c cs IH]; [reflexivity|]. cbn [concat]. rewrite omap_app, map_app, Qsum_app, <- IH. cbn [omap list_omap].
  destruct (omap (fun i => blobs !! i) c) as [|b rest]; cbn [map].
  - unfold Qsum at 2. cbn [fold_left]. ring.
  - rewrite Qsum_cons, Hf. reflexivity.
Qed.

(** Merging loses nobody's heat. However the blobs of a frame fall into
    clusters, their total heat, their total normalised heat and their total
    area are the same before and after [mergeClose]. *)
Theorem merging_conserves mergeCm blobs : let merged := mergeClose mergeCm blobs in
  (Qsum (map (fun b => d_heat (bl_det b)) merged) == Qsum (map (fun b => d_heat (bl_det b)) blobs))%Q /\
  (Qsum (map bl_norm merged) == Qsum (map bl_norm blobs))%Q /\
  (Qsum (map (fun b => inject_Z (d_area (bl_det b))) merged) == Qsum (map (fun b => inject_Z (d_area (bl_det b))) blobs))%Q.
Proof.
  assert (forall f : Blob -> Q, forall b, (f b == Qsum (map f [b]))%Q) as H1 by (intros f b; cbn [map]; unfold Qsum; cbn [fold_left]; ring).
  split_and!; apply mergeClose_total; intros b [|b' rest].
  - exact (H1 (fun b => d_heat (bl_det b)) b).
  - reflexivity.
  - exact (H1 bl_norm b).
  - reflexivity.
  - exact (H1 (fun b => inject_Z (d_area (bl_det b))) b).
  - cbn [merge_members bl_det d_area]. generalize (b :: b' :: rest). intros l.
    assert (forall a, (inject_Z (fold_left Z.add (map (fun b => d_area (bl_det b)) l) a) ==
      inject_Z a + Qsum (map (fun b => inject_Z (d_area (bl_det b))) l))%Q) as H.
    { induction l as [|x l IH]; intros a; cbn [map fold_left]; [unfold Qsum; cbn [fold_left]; ring|]. rewrite IH, Qsum_cons, inject_Z_plus. ring. }
    rewrite H. unfold inject_Z at 1. ring.
Qed.
