(* ===== verification/Occupancy.v ===== *)
(** The occupancy engine (src/edge/occupancy.ts): from the detections of many
    nodes to which seats are taken. Times are whole milliseconds; a floor point
    that the code leaves [NaN] is [None]; an instant that is [NaN] ("as of the
    last frame") is [None]. Distances are compared by their squares. *)

From S2P Require Import Prelude Geometry Seats Protocol Registry Cluster.

(** @edge/occupancy.ts 36-58 OccupancyOptions *)
Record OccupancyOptions := {
  staleMs : Q; releaseMs : Q; seatRadiusCm : Q; enterWindow : Z; enterMin : Z; mergeCm : Q }.

(** @edge/occupancy.ts 60-67 DEFAULT_OCCUPANCY *)
Definition DEFAULT_OCCUPANCY : OccupancyOptions :=
  {| staleMs := 10000; releaseMs := 20000; seatRadiusCm := 80; enterWindow := 5; enterMin := 3; mergeCm := 50 |}.

(** @shared/types.ts 136-150 ConsoleDetection *)
Record ConsoleDetection := {
  cd_det : Detection; cd_floor : option Point; cd_tableId : option string; cd_counted : bool; cd_persons : Z }.

(** @edge/occupancy.ts 69-84 NodeState *)
Record NodeState := {
  ns_lastReportAt : Z; ns_healthy : bool; ns_heats : list Q; ns_zoneHistory : list (string * list Z);
  ns_lastDetections : list ConsoleDetection }.

(** @edge/occupancy.ts 86-91 SeatTrack *)
Record SeatTrack := { sk_window : list bool; sk_occupied : bool; sk_lastSeenAt : Z; sk_framesSeen : Z }.

(** @edge/occupancy.ts 93-98 TableTrack *)
Record TableTrack := { tk_authority : option string; tk_peopleHistory : list Z; tk_unknownSince : option Z }.

(** @edge/occupancy.ts 101-105 median *)
Definition median (a : list Z) : Z :=
  match a with
  | [] => 0
  | _ => default 0 (isort Z.leb a !! Nat.div2 (length a))
  end.

(** @edge/occupancy.ts 107-107 HEAT_SAMPLES *)
Definition HEAT_SAMPLES : nat := 300.
(** @edge/occupancy.ts 109-109 HEAT_MIN_SAMPLES *)
Definition HEAT_MIN_SAMPLES : nat := 30.
(** @edge/occupancy.ts 110-110 ZONE_WINDOW *)
Definition ZONE_WINDOW : nat := 7.

(** @edge/occupancy.ts 112-121 OccupancyEngine *)
Record Engine := {
  en_nodes : list (string * NodeState); en_seats : list (string * SeatTrack); en_tables : list (string * TableTrack);
  en_opts : OccupancyOptions }.

Definition with_nodes (v : list (string * NodeState)) (e : Engine) : Engine :=
  {| en_nodes := v; en_seats := en_seats e; en_tables := en_tables e; en_opts := en_opts e |}.
Definition with_seats (v : list (string * SeatTrack)) (e : Engine) : Engine :=
  {| en_nodes := en_nodes e; en_seats := v; en_tables := en_tables e; en_opts := en_opts e |}.
Definition with_tables (v : list (string * TableTrack)) (e : Engine) : Engine :=
  {| en_nodes := en_nodes e; en_seats := en_seats e; en_tables := v; en_opts := en_opts e |}.

(** @edge/occupancy.ts 124-124 OccupancyEngine *)
Definition empty_track : SeatTrack := {| sk_window := []; sk_occupied := false; sk_lastSeenAt := 0; sk_framesSeen := 0 |}.

Definition reset_seats (t : TableDef) (seats : list (string * SeatTrack)) : list (string * SeatTrack) :=
  fold_left (fun m s => om_set (sp_id s) empty_track m) (td_seats t) seats.

(** @edge/occupancy.ts 122-125 OccupancyEngine *)
Definition new_engine (reg : Registry) (opts : OccupancyOptions) : Engine :=
  fold_left (fun e t =>
    with_seats (reset_seats t (en_seats e))
      (with_tables (om_set (td_id t) {| tk_authority := None; tk_peopleHistory := []; tk_unknownSince := None |} (en_tables e)) e))
    (map snd (rg_tables reg)) {| en_nodes := []; en_seats := []; en_tables := []; en_opts := opts |}.

(** ** Settings *)

(** A number of a web request: it may be [NaN] or infinite. *)
Inductive jsnum := Finite (q : Q) | NotFinite.

Record Patch := {
  pt_staleMs : option jsnum; pt_releaseMs : option jsnum; pt_seatRadiusCm : option jsnum; pt_enterWindow : option jsnum;
  pt_enterMin : option jsnum; pt_mergeCm : option jsnum }.

Definition clampQ (v lo hi : Q) : Q := Qmin' hi (Qmax' lo v).
Definition not_finite (v : option jsnum) : bool := match v with Some NotFinite => true | _ => false end.
Definition patched {A} (v : option jsnum) (set : Q -> A) (old : A) : A := match v with Some (Finite q) => set q | _ => old end.

Definition cut_window (n : Z) (track : SeatTrack) : SeatTrack :=
  {| sk_window := if n <? Z.of_nat (length (sk_window track)) then drop (length (sk_window track) - Z.to_nat n) (sk_window track) else sk_window track;
     sk_occupied := sk_occupied track; sk_lastSeenAt := sk_lastSeenAt track; sk_framesSeen := sk_framesSeen track |}.

(** @edge/occupancy.ts 138-155 setOptions *)
Definition setOptions (e : Engine) (patch : Patch) : result string (Engine * OccupancyOptions) :=
  throw_if existsb not_finite [pt_staleMs patch; pt_releaseMs patch; pt_seatRadiusCm patch; pt_enterWindow patch; pt_enterMin patch; pt_mergeCm patch]
    with "occupancy settings must be finite numbers" in
  let o := en_opts e in
  let next := {|
    staleMs := patched (pt_staleMs patch) (fun v => clampQ v 2000 120000) (staleMs o);
    releaseMs := patched (pt_releaseMs patch) (fun v => clampQ v 2000 300000) (releaseMs o);
    seatRadiusCm := patched (pt_seatRadiusCm patch) (fun v => clampQ v 20 300) (seatRadiusCm o);
    enterWindow := patched (pt_enterWindow patch) (fun v => js_round (clampQ v 1 60)) (enterWindow o);
    enterMin := patched (pt_enterMin patch) (fun v => js_round (clampQ v 1 60)) (enterMin o);
    mergeCm := patched (pt_mergeCm patch) (fun v => clampQ v 0 200) (mergeCm o) |} in
  throw_if enterWindow next <? enterMin next with "enterMin cannot exceed enterWindow" in
  Ok ({| en_nodes := en_nodes e; en_seats := map (fun p => (p.1, cut_window (enterWindow next) p.2)) (en_seats e);
         en_tables := en_tables e; en_opts := next |}, next).

(** @edge/occupancy.ts 158-163 refHeat *)
Definition refHeat (e : Engine) (uid : string) : option Q :=
  match om_get uid (en_nodes e) with
  | None => None
  | Some st =>
      if Nat.ltb (length (ns_heats st)) HEAT_MIN_SAMPLES then None
      else isort Qle_bool (ns_heats st) !! Nat.div2 (length (ns_heats st))
  end.

(** @edge/occupancy.ts 165-167 lastDetections *)
Definition lastDetections (e : Engine) (uid : string) : list ConsoleDetection :=
  match om_get uid (en_nodes e) with Some st => ns_lastDetections st | None => [] end.

(** ** Who is trusted *)

(** @edge/occupancy.ts 315-320 isHealthy *)
Definition isHealthy (e : Engine) (uid : string) (now : option Z) : bool :=
  match om_get uid (en_nodes e) with
  | None => false
  | Some st =>
      ns_healthy st &&
      match now with None => true | Some t => Qle_bool (inject_Z (t - ns_lastReportAt st)) (staleMs (en_opts e)) end
  end.

(** @edge/occupancy.ts 322-325 authorityFor *)
Definition authorityFor (e : Engine) (table : TableDef) (now : option Z) : option string :=
  List.find (fun uid => isHealthy e uid now) (td_coveredBy table).

(** @edge/occupancy.ts 327-330 statusFor *)
Definition statusFor (table : TableDef) (authority : option string) : CoverageStatus :=
  match authority with
  | None => CovUnknown
  | Some a => if bool_decide (Some a = td_owner table) then CovOk else CovFallback
  end.

(** @edge/occupancy.ts 170-177 authorities *)
Definition authorities (reg : Registry) (e : Engine) : list (string * (option string * CoverageStatus)) :=
  map (fun t => let a := authorityFor e t None in (td_id t, (a, statusFor t a))) (map snd (rg_tables reg)).

(** ** Seats *)

(** @edge/occupancy.ts 375-390 nearestTable *)
Definition nearestTable (reg : Registry) (o : OccupancyOptions) (floorId : string) (x y : Q) : option string :=
  fst <$> fold_left (fun best t =>
    if negb (bool_decide (td_floorId t = floorId)) then best
    else
      let radius := default (seatRadiusCm o) (td_seatRadiusCm t) in
      fold_left (fun best s =>
        let d := (sq (sp_x s - x) + sq (sp_y s - y))%Q in
        if within (sp_x s - x) (sp_y s - y) radius && match best with None => true | Some (_, bestD) => Qltb d bestD end
        then Some (td_id t, d) else best) (td_seats t) best)
    (map snd (rg_tables reg)) None.

Record Claim := { cl_d : Q; cl_det : nat; cl_seat : string }.

(** Every person and seat within reach, nearest first.
    @edge/occupancy.ts 409-417 assignSeats *)
Definition claims (o : OccupancyOptions) (table : TableDef) (dets : list ConsoleDetection) : list Claim :=
  isort (fun a b => Qle_bool (cl_d a) (cl_d b))
    (concat (imap (fun i det =>
      match cd_floor det with
      | None => []
      | Some (x, y) =>
          let reach := (default (seatRadiusCm o) (td_seatRadiusCm table) + (if (1 <? cd_persons det)%Z then 60 else 0))%Q in
          omap (fun s =>
            if within (sp_x s - x) (sp_y s - y) reach
            then Some {| cl_d := (sq (sp_x s - x) + sq (sp_y s - y))%Q; cl_det := i; cl_seat := sp_id s |} else None) (td_seats table)
      end) dets)).

(** One claim: who it is still has a person left, and the seat is not taken.
    @edge/occupancy.ts 420-425 assignSeats *)
Definition claim (st : list Z * list string) (p : Claim) : list Z * list string :=
  let '(remaining, taken) := st in
  let left := default 0 (remaining !! cl_det p) in
  if (left <=? 0) || includes (cl_seat p) taken then st
  else (<[cl_det p := left - 1]> remaining, taken ++ [cl_seat p]).

(** @edge/occupancy.ts 408-427 assignSeats *)
Definition assignSeats (o : OccupancyOptions) (table : TableDef) (dets : list ConsoleDetection) : list string :=
  snd (fold_left claim (claims o table dets) (map cd_persons dets, [])).

(** One seat, one frame.
    @edge/occupancy.ts 433-445 updateSeats *)
Definition update_seat (o : OccupancyOptions) (seen : bool) (at_ : Z) (track : SeatTrack) : SeatTrack :=
  let window := sk_window track ++ [seen] in
  let window := if enterWindow o <? Z.of_nat (length window) then drop (length window - Z.to_nat (enterWindow o)) window else window in
  let lastSeenAt := if seen then at_ else sk_lastSeenAt track in
  let framesSeen := sk_framesSeen track + 1 in
  if negb (sk_occupied track) then
    if enterMin o <=? Z.of_nat (length (List.filter id window))
    then {| sk_window := window; sk_occupied := true; sk_lastSeenAt := at_; sk_framesSeen := framesSeen |}
    else {| sk_window := window; sk_occupied := false; sk_lastSeenAt := lastSeenAt; sk_framesSeen := framesSeen |}
  else
    {| sk_window := window; sk_occupied := negb (Qltb (releaseMs o) (inject_Z (at_ - lastSeenAt)));
       sk_lastSeenAt := lastSeenAt; sk_framesSeen := framesSeen |}.

(** @edge/occupancy.ts 429-447 updateSeats *)
Definition updateSeats (o : OccupancyOptions) (table : TableDef) (observed : list string) (at_ : Z) (seats : list (string * SeatTrack)) :
    list (string * SeatTrack) :=
  fold_left (fun m s =>
    match om_get (sp_id s) m with
    | None => m
    | Some track => om_set (sp_id s) (update_seat o (includes (sp_id s) observed) at_ track) m
    end) (td_seats table) seats.

(** ** One report *)

Section engine.
Context {T : Trig}.

(** @edge/occupancy.ts 192-197 ingest *)
Definition unplaced_detections (dets : list Detection) : list ConsoleDetection :=
  map (fun d => {| cd_det := d; cd_floor := None; cd_tableId := None; cd_counted := false; cd_persons := 1 |}) dets.

(** @edge/occupancy.ts 208-214 ingest *)
Definition project (pose : NodePose) (d : Detection) : Blob :=
  let '(fx, fy) := pixelToFloor pose (d_x d) (d_y d) TARGET_HEIGHT_CM in
  {| bl_det := d; bl_floorX := fx; bl_floorY := fy;
     bl_norm := (d_heat d * pixelAreaCm2 pose (d_x d) (d_y d) TARGET_HEIGHT_CM / 10000)%Q |}.

(** How many people a blob is, against the heat of one; a reference that is
    absent or zero counts as one person.
    @edge/occupancy.ts 215-216 ingest *)
Definition persons_of (ref : option Q) (norm : Q) : Z :=
  let ratio := match ref with Some r => if Qeqb r 0 then 1%Q else (norm / r)%Q | None => 1%Q end in
  if Qltb ratio (16 # 10) then 1 else if Qltb ratio (25 # 10) then 2 else 3.

(** @edge/occupancy.ts 211-228 ingest *)
Definition place_blob (reg : Registry) (o : OccupancyOptions) (floorId : string) (ref : option Q) (b : Blob) : ConsoleDetection :=
  {| cd_det := bl_det b; cd_floor := Some (bl_floorX b, bl_floorY b);
     cd_tableId := nearestTable reg o floorId (bl_floorX b) (bl_floorY b); cd_counted := false; cd_persons := persons_of ref (bl_norm b) |}.

(** A table id that is not the empty string, the only one that is not true. *)
Definition at_table (d : ConsoleDetection) : option string :=
  match cd_tableId d with Some id => if bool_decide (id = EmptyString) then None else Some id | None => None end.

(** @edge/occupancy.ts 224-227 ingest *)
Definition learn (heats : list Q) (p : ConsoleDetection * Q) : list Q :=
  match at_table p.1 with Some _ => push_cap HEAT_SAMPLES p.2 heats | None => heats end.

Definition count_at (tid : string) (d : ConsoleDetection) : ConsoleDetection :=
  {| cd_det := cd_det d; cd_floor := cd_floor d; cd_tableId := cd_tableId d;
     cd_counted := bool_decide (at_table d = Some tid) || cd_counted d; cd_persons := cd_persons d |}.

Definition sum_persons (l : list ConsoleDetection) : Z := fold_left (fun a d => a + cd_persons d) l 0.

(** The pass over one table of the node's floor.
    @edge/occupancy.ts 238-251 ingest *)
Definition ingest_table (uid floorId : string) (healthy : bool) (at_ : Z) (st : Engine * list ConsoleDetection) (table : TableDef) :
    Engine * list ConsoleDetection :=
  let '(e, dets) := st in
  if negb (bool_decide (td_floorId table = floorId)) then st
  else
    let authority := authorityFor e table (Some at_) in
    match om_get (td_id table) (en_tables e) with
    | None => st
    | Some track =>
        let track := {| tk_authority := authority; tk_peopleHistory := tk_peopleHistory track; tk_unknownSince := tk_unknownSince track |} in
        if negb (bool_decide (authority = Some uid)) || negb healthy
        then (with_tables (om_set (td_id table) track (en_tables e)) e, dets)
        else
          let here := List.filter (fun d => bool_decide (at_table d = Some (td_id table))) dets in
          let track := {| tk_authority := authority; tk_peopleHistory := push_cap ZONE_WINDOW (sum_persons here) (tk_peopleHistory track);
                          tk_unknownSince := tk_unknownSince track |} in
          let e := with_tables (om_set (td_id table) track (en_tables e)) e in
          (with_seats (updateSeats (en_opts e) table (assignSeats (en_opts e) table here) at_ (en_seats e)) e,
           map (count_at (td_id table)) dets)
    end.

(** @edge/occupancy.ts 392-405 nearestHealthyViewer *)
Definition nearestHealthyViewer (reg : Registry) (e : Engine) (floorId : string) (x y : Q) (now : Z) : option string :=
  fst <$> fold_left (fun best n =>
    match nd_pose n with
    | None => best
    | Some pose =>
        if negb (bool_decide (nd_floorId n = Some floorId)) then best
        else if negb (isHealthy e (nd_uid n) (Some now)) then best
        else match floorToPixel pose x y TARGET_HEIGHT_CM with
             | None => best
             | Some _ =>
                 let d := (sq (ps_x pose - x) + sq (ps_y pose - y))%Q in
                 if match best with None => true | Some (_, bestD) => Qltb d bestD end then Some (nd_uid n, d) else best
             end
    end) (map snd (rg_nodes reg)) None.

(** Whether a person away from the tables is this node's to count, in a zone.
    @edge/occupancy.ts 257-258 ingest *)
Definition zone_counts (reg : Registry) (e : Engine) (uid floorId : string) (zone : ZoneDef) (at_ : Z) (d : ConsoleDetection) : bool :=
  match at_table d, cd_floor d with
  | None, Some (x, y) =>
      pointInPolygon (x, y) (zd_polygon zone) && bool_decide (nearestHealthyViewer reg e floorId x y at_ = Some uid)
  | _, _ => false
  end.

Definition set_counted (d : ConsoleDetection) : ConsoleDetection :=
  {| cd_det := cd_det d; cd_floor := cd_floor d; cd_tableId := cd_tableId d; cd_counted := true; cd_persons := cd_persons d |}.

(** @edge/occupancy.ts 254-266 ingest *)
Definition ingest_zone (reg : Registry) (e : Engine) (uid floorId : string) (at_ : Z)
    (st : list (string * list Z) * list ConsoleDetection) (zone : ZoneDef) : list (string * list Z) * list ConsoleDetection :=
  let '(history, dets) := st in
  let mine := zone_counts reg e uid floorId zone at_ in
  let n := sum_persons (List.filter mine dets) in
  (om_set (zd_id zone) (push_cap ZONE_WINDOW n (default [] (om_get (zd_id zone) history))) history,
   map (fun d => if mine d then set_counted d else d) dets).

Definition report_healthy (flags : Z) : bool :=
  negb (Z.land flags REPORT_BACKGROUND_READY =? 0) && (Z.land flags REPORT_GLOBAL_SHIFT =? 0).

(** What a report says of the node itself, before anything is projected.
    @edge/occupancy.ts 180-189 ingest *)
Definition heard (e : Engine) (uid : string) (report : Report) (at_ : Z) : NodeState :=
  match om_get uid (en_nodes e) with
  | Some st => {| ns_lastReportAt := at_; ns_healthy := report_healthy (r_flags report); ns_heats := ns_heats st;
                  ns_zoneHistory := ns_zoneHistory st; ns_lastDetections := ns_lastDetections st |}
  | None => {| ns_lastReportAt := at_; ns_healthy := report_healthy (r_flags report); ns_heats := []; ns_zoneHistory := []; ns_lastDetections := [] |}
  end.

(** A report of a node that has a place.
    @edge/occupancy.ts 204-271 ingest *)
Definition ingest_placed (reg : Registry) (e : Engine) (uid floorId : string) (pose : NodePose) (st : NodeState) (report : Report) (at_ : Z) :
    Engine * list ConsoleDetection :=
  let ref := refHeat e uid in
  let merged := mergeClose (mergeCm (en_opts e)) (map (project pose) (r_detections report)) in
  let dets := map (place_blob reg (en_opts e) floorId ref) merged in
  let heats := fold_left learn (zip dets (map bl_norm merged)) (ns_heats st) in
  let '(e, dets) := fold_left (ingest_table uid floorId (ns_healthy st) at_) (map snd (rg_tables reg)) (e, dets) in
  let '(history, dets) :=
    match List.find (fun f => bool_decide (fd_id f = floorId)) (rg_floors reg) with
    | Some floor =>
        if ns_healthy st then fold_left (ingest_zone reg e uid floorId at_) (fd_zones floor) (ns_zoneHistory st, dets)
        else (ns_zoneHistory st, dets)
    | None => (ns_zoneHistory st, dets)
    end in
  (with_nodes (om_set uid {| ns_lastReportAt := ns_lastReportAt st; ns_healthy := ns_healthy st; ns_heats := heats; ns_zoneHistory := history;
                             ns_lastDetections := dets |} (en_nodes e)) e, dets).

(** @edge/occupancy.ts 179-271 ingest *)
Definition ingest (reg : Registry) (e : Engine) (uid : string) (report : Report) (at_ : Z) : Engine * list ConsoleDetection :=
  let st := heard e uid report at_ in
  let e := with_nodes (om_set uid st (en_nodes e)) e in
  match om_get uid (rg_nodes reg) with
  | Some {| nd_pose := Some pose; nd_floorId := Some floorId |} => ingest_placed reg e uid floorId pose st report at_
  | _ =>
      let dets := unplaced_detections (r_detections report) in
      (with_nodes (om_set uid {| ns_lastReportAt := ns_lastReportAt st; ns_healthy := ns_healthy st; ns_heats := ns_heats st;
                                 ns_zoneHistory := ns_zoneHistory st; ns_lastDetections := dets |} (en_nodes e)) e, dets)
  end.
End engine.

(** ** The snapshot *)

Definition get_track (e : Engine) (id : string) : option SeatTrack := om_get id (en_seats e).

(** What looking at a table does to its tracks.
    @edge/occupancy.ts 452-465 tableState *)
Definition age_table (e : Engine) (t : TableDef) (status : CoverageStatus) (now : Z) : Engine :=
  match om_get (td_id t) (en_tables e) with
  | None => e
  | Some track =>
      let set hist since e := with_tables (om_set (td_id t) {| tk_authority := tk_authority track; tk_peopleHistory := hist; tk_unknownSince := since |} (en_tables e)) e in
      if bool_decide (status = CovUnknown) then
        let since := default now (tk_unknownSince track) in
        if Qltb (releaseMs (en_opts e)) (inject_Z (now - since))
        then set [] (Some since) (with_seats (reset_seats t (en_seats e)) e)
        else set (tk_peopleHistory track) (Some since) e
      else set (tk_peopleHistory track) None e
  end.

(** @edge/occupancy.ts 467-467 tableState *)
Definition is_warm (e : Engine) (t : TableDef) : bool :=
  forallb (fun s => enterWindow (en_opts e) <=? match get_track e (sp_id s) with Some k => sk_framesSeen k | None => 0 end) (td_seats t).

(** @edge/occupancy.ts 469-477 tableState *)
Definition seat_state (e : Engine) (known : bool) (s : SeatSpec) : SeatState :=
  {| st_id := sp_id s; st_x := sp_x s; st_y := sp_y s; st_side := sp_side s; st_index := sp_index s;
     st_occupied := if known then Some (match get_track e (sp_id s) with Some k => sk_occupied k | None => false end) else None;
     st_neighbors := sp_neighbors s |}.

Definition count_occupied (seats : list SeatState) : Z :=
  Z.of_nat (length (List.filter (fun s => bool_decide (st_occupied s = Some true)) seats)).

(** @edge/occupancy.ts 449-490 tableState *)
Definition tableState (e : Engine) (t : TableDef) (now : Z) : Engine * TableState :=
  let status := statusFor t (authorityFor e t (Some now)) in
  let e := age_table e t status now in
  let known := negb (bool_decide (status = CovUnknown)) && is_warm e t in
  let seats := map (seat_state e known) (td_seats t) in
  let occupied := if known then Some (count_occupied seats) else None in
  (e, {| tb_id := td_id t; tb_name := td_name t; tb_zoneId := td_zoneId t; tb_rect := td_rect t; tb_capacity := td_capacity t;
         tb_occupied := occupied; tb_free := (fun o => td_capacity t - o) <$> occupied;
         tb_status := if known then status else CovUnknown; tb_seats := seats |}).

Fixpoint table_states (e : Engine) (l : list TableDef) (now : Z) : Engine * list TableState :=
  match l with
  | [] => (e, [])
  | t :: rest => let '(e, s) := tableState e t now in let '(e, ss) := table_states e rest now in (e, s :: ss)
  end.

Definition is_unknown (t : TableState) : bool := bool_decide (tb_status t = CovUnknown).

(** What the nodes count of people away from tables: whether any node covers
    the zone, and how many.
    @edge/occupancy.ts 282-288 snapshot *)
Definition zone_step (e : Engine) (zoneId : string) (now : Z) (acc : bool * Z) (p : string * NodeState) : bool * Z :=
  if negb (isHealthy e p.1 (Some now)) then acc
  else match om_get zoneId (ns_zoneHistory p.2) with
       | None | Some [] => acc
       | Some h => (true, snd acc + median h)
       end.

(** @edge/occupancy.ts 276-290 snapshot *)
Definition zone_state (e : Engine) (tables : list TableState) (now : Z) (z : ZoneDef) : ZoneState :=
  let zt := List.filter (fun t => bool_decide (tb_zoneId t = zd_id z)) tables in
  let anyUnknown := existsb is_unknown zt in
  let people := fold_left (fun n t => n + median (match om_get (tb_id t) (en_tables e) with Some k => tk_peopleHistory k | None => [] end)) zt 0 in
  let '(covered, people) := fold_left (zone_step e (zd_id z) now) (en_nodes e) (Nat.ltb 0 (length zt) && negb anyUnknown, people) in
  {| zn_id := zd_id z; zn_name := zd_name z; zn_polygon := zd_polygon z; zn_people := if covered && negb anyUnknown then Some people else None |}.

Definition sum_of {A} (f : A -> Z) (l : list A) : Z := fold_left (fun n x => n + f x) l 0.

(** @edge/occupancy.ts 291-307 snapshot *)
Definition floor_totals (tables : list TableState) : FloorTotals :=
  let known := List.filter (fun t => negb (is_unknown t)) tables in
  {| tt_seats := sum_of tb_capacity tables;
     tt_free := sum_of (fun t => default 0 (tb_free t)) known;
     tt_occupied := sum_of (fun t => default 0 (tb_occupied t)) known;
     tt_unknownSeats := sum_of tb_capacity (List.filter is_unknown tables);
     tt_tablesFullyFree := Z.of_nat (length (List.filter (fun t => bool_decide (tb_occupied t = Some 0)) known)) |}.

(** @edge/occupancy.ts 274-309 snapshot *)
Definition floor_state (reg : Registry) (e : Engine) (now : Z) (floor : FloorDef) : Engine * FloorState :=
  let '(e, tables) := table_states e (omap (fun id => om_get id (rg_tables reg)) (fd_tables floor)) now in
  (e, {| fl_id := fd_id floor; fl_building := fd_building floor; fl_name := fd_name floor; fl_width := fd_width floor;
         fl_height := fd_height floor; fl_outline := fd_outline floor; fl_zones := map (zone_state e tables now) (fd_zones floor);
         fl_tables := tables; fl_totals := floor_totals tables |}).

(** @edge/occupancy.ts 273-311 snapshot *)
Definition snapshot (reg : Registry) (e : Engine) (now : Z) : Engine * list FloorState :=
  fold_left (fun st floor => let '(e, s) := floor_state reg (fst st) now floor in (e, snd st ++ [s])) (rg_floors reg) (e, []).

(** ** What a table shows *)

Lemma tableState_eq e t now : let s := snd (tableState e t now) in
  tb_capacity s = td_capacity t /\ length (tb_seats s) = length (td_seats t).
Proof. cbn. by rewrite length_map. Qed.

(** What a table shows is either nothing or the whole picture. *)
Definition table_shown (capacity : Z) (s : TableState) : Prop :=
  (tb_status s = CovUnknown /\ tb_occupied s = None /\ tb_free s = None /\ Forall (fun x => st_occupied x = None) (tb_seats s)) \/
  (tb_status s <> CovUnknown /\ Forall (fun x => st_occupied x <> None) (tb_seats s) /\
   exists o f, tb_occupied s = Some o /\ tb_free s = Some f /\ o = count_occupied (tb_seats s) /\ 0 <= o /\ 0 <= f /\ o + f = capacity).

Lemma tableState_shown e t now : Z.of_nat (length (td_seats t)) = td_capacity t -> table_shown (td_capacity t) (snd (tableState e t now)).
Proof.
  intros Hc. unfold tableState. cbn [snd]. set (status := statusFor t _). set (e' := age_table e t status now).
  destruct (negb (bool_decide (status = CovUnknown)) && is_warm e' t) eqn:Ek; [right|left]; cbn.
  - bprop. destruct Ek as [Hs _]. split_and!; [done| |].
    + apply Forall_map, Forall_forall. intros s _. done.
    + eexists _, _. split_and!; [reflexivity|reflexivity|reflexivity| | |lia]; unfold count_occupied; [lia|].
      match goal with |- 0 <= _ - Z.of_nat (length (List.filter ?f ?l)) => pose proof (List.filter_length_le f l) as Hl; rewrite length_map in Hl end. lia.
  - split_and!; try done. apply Forall_map, Forall_forall. intros s _. done.
Qed.

Lemma authorityFor_some e t now u : authorityFor e t now = Some u -> u ∈ td_coveredBy t /\ isHealthy e u now = true.
Proof. unfold authorityFor. intros [H1 H2]%find_some. by rewrite list_elem_of_In. Qed.

Lemma authorityFor_none e t now : authorityFor e t now = None <-> forall u, u ∈ td_coveredBy t -> isHealthy e u now = false.
Proof.
  unfold authorityFor. split.
  - intros H u Hu. by apply (find_none _ _ H u), list_elem_of_In.
  - intros H. destruct (List.find _ _) as [u|] eqn:E; [|done]. apply find_some in E as [H1 H2]. apply list_elem_of_In, H in H1. congruence.
Qed.

Lemma statusFor_known t a : statusFor t a <> CovUnknown <-> exists u, a = Some u.
Proof.
  unfold statusFor. destruct a as [u|]; [|split; [done|by intros (? & ?)]]. split; [by exists u|]. intros _. by case_bool_decide.
Qed.

Lemma age_table_opts e t status now : en_opts (age_table e t status now) = en_opts e /\ en_nodes (age_table e t status now) = en_nodes e.
Proof. unfold age_table. destruct (om_get _ _); [|done]. repeat case_match; done. Qed.

(** A table is unknown or fully accounted for, never silently empty. For a
    table with as many seats as its capacity, [tableState] shows it known
    exactly when some node that covers it is healthy now and every seat has
    been decided on enough frames; if known, every seat is taken or free and
    the two counts add up to the capacity, and if not, the counts and every
    seat are left open. *)
Theorem table_known_or_open e t now : Z.of_nat (length (td_seats t)) = td_capacity t -> 1 <= enterWindow (en_opts e) ->
  let e' := fst (tableState e t now) in
  let s := snd (tableState e t now) in
  table_shown (td_capacity t) s /\
  (tb_status s <> CovUnknown <->
   (exists u, u ∈ td_coveredBy t /\ isHealthy e u (Some now) = true) /\
   Forall (fun x => exists k, om_get (sp_id x) (en_seats e') = Some k /\ enterWindow (en_opts e) <= sk_framesSeen k) (td_seats t)).
Proof.
  intros Hc Hw. cbv zeta. split; [by apply tableState_shown|]. unfold tableState. cbn [fst snd tb_status].
  set (status := statusFor t (authorityFor e t (Some now))).
  assert (status <> CovUnknown <-> exists u, u ∈ td_coveredBy t /\ isHealthy e u (Some now) = true) as Hst.
  { unfold status. rewrite statusFor_known. split; [intros (u & ?%authorityFor_some); by exists u|].
    intros (u & Hu & Hh). destruct (authorityFor e t (Some now)) as [v|] eqn:E; [by exists v|].
    rewrite authorityFor_none in E. rewrite (E u Hu) in Hh. done. }
  rewrite <- Hst. set (e' := age_table e t status now).
  assert (is_warm e' t = true <-> Forall (fun x => exists k, om_get (sp_id x) (en_seats e') = Some k /\ enterWindow (en_opts e) <= sk_framesSeen k) (td_seats t)) as Hwarm.
  { unfold is_warm. assert (en_opts e' = en_opts e) as -> by apply age_table_opts. rewrite forallb_forall, List.Forall_forall. unfold get_track.
    split; intros H x Hx; specialize (H x Hx); destruct (om_get (sp_id x) (en_seats e')) as [k|]; bprop.
    - by exists k.
    - lia.
    - by destruct H as (k' & [= <-] & ?).
    - by destruct H as (k' & ? & _). }
  rewrite <- Hwarm. destruct (is_warm e' t), (decide (status = CovUnknown)) as [E|E].
  - rewrite E. cbn. tauto.
  - rewrite bool_decide_eq_false_2 by done. cbn. tauto.
  - rewrite E. cbn. tauto.
  - rewrite andb_false_r. cbn. intuition discriminate.
Qed.

(** Who is believed about a table. In an accepted configuration the authority
    of a table is always a node that sees all of its seats and is healthy; it
    is the owner whenever the owner is healthy, and the table is then shown as
    covered by its owner and not by a fallback; and there is no authority only
    if no node that covers the table is healthy. *)
Theorem authority_is_owner_or_fallback {T : Trig} site nodesJ reg e tid t now :
  buildRegistry site nodesJ = Ok reg -> om_get tid (rg_tables reg) = Some t ->
  (forall u, authorityFor e t now = Some u -> covers (rg_nodes reg) u t /\ isHealthy e u now = true) /\
  (forall o, td_owner t = Some o -> isHealthy e o now = true -> authorityFor e t now = Some o /\ statusFor t (authorityFor e t now) = CovOk) /\
  (authorityFor e t now = None <-> forall u, covers (rg_nodes reg) u t -> isHealthy e u now = false).
Proof.
  intros Hreg Ht. destruct (registry_coverage site nodesJ reg tid t Hreg Ht) as (_ & Hcov & Hown). split_and!.
  - intros u [Hu Hh]%authorityFor_some. split; [by apply Hcov|done].
  - intros o Ho Hh. specialize (Hown o Ho). assert (authorityFor e t now = Some o) as Ea.
    { unfold authorityFor. destruct (td_coveredBy t) as [|x l]; [done|]. cbn in Hown. injection Hown as ->. cbn. by rewrite Hh. }
    split; [done|]. rewrite Ea. unfold statusFor. rewrite Ho. by rewrite bool_decide_eq_true_2.
  - rewrite authorityFor_none. split; intros H u Hu; apply H; by apply Hcov.
Qed.

(** ** What a floor shows *)

Lemma sum_of_acc {A} (f : A -> Z) l a : fold_left (fun n x => n + f x) l a = a + sum_of f l.
Proof. unfold sum_of. revert a; induction l as [|x l IH]; intros a; cbn [fold_left]; [lia|]. rewrite IH, (IH (0 + f x)). lia. Qed.

Lemma sum_of_cons {A} (f : A -> Z) x l : sum_of f (x :: l) = f x + sum_of f l.
Proof. unfold sum_of at 1. cbn [fold_left]. rewrite sum_of_acc. lia. Qed.

Lemma floor_totals_add tables : Forall (fun s => table_shown (tb_capacity s) s) tables ->
  let t := floor_totals tables in tt_seats t = tt_free t + tt_occupied t + tt_unknownSeats t.
Proof.
  cbn. induction 1 as [|s l Hs _ IH]; [done|]. cbn [List.filter]. rewrite sum_of_cons, IH.
  destruct Hs as [(Hu & Ho & Hf & _)|(Hk & _ & o & f & Ho & Hf & _ & _ & _ & Hc)].
  - assert (is_unknown s = true) as -> by (by apply bool_decide_eq_true). cbn [negb]. rewrite !sum_of_cons. lia.
  - assert (is_unknown s = false) as -> by (by apply bool_decide_eq_false). cbn [negb]. rewrite !sum_of_cons, Ho, Hf. cbn. lia.
Qed.

Lemma table_states_shown e l now : Forall (fun t => Z.of_nat (length (td_seats t)) = td_capacity t) l ->
  Forall (fun s => table_shown (tb_capacity s) s) (snd (table_states e l now)).
Proof.
  intros H. revert e; induction H as [|t l Ht _ IH]; intros e; [constructor|]. cbn [table_states].
  pose proof (tableState_shown e t now Ht) as Hs. pose proof (proj1 (tableState_eq e t now)) as Hc.
  destruct (tableState e t now) as [e1 s]. specialize (IH e1). destruct (table_states e1 l now) as [e2 ss]. cbn [snd] in *.
  constructor; [by rewrite Hc|done].
Qed.

(** One floor's tables and totals, as published. *)
Definition floor_adds_up (f : FloorState) : Prop :=
  Forall (fun s => table_shown (tb_capacity s) s) (fl_tables f) /\
  tt_seats (fl_totals f) = tt_free (fl_totals f) + tt_occupied (fl_totals f) + tt_unknownSeats (fl_totals f) /\
  Forall (fun z => (exists s, s ∈ fl_tables f /\ tb_zoneId s = zn_id z /\ tb_status s = CovUnknown) -> zn_people z = None) (fl_zones f).

Lemma zone_state_id e tables now z : zn_id (zone_state e tables now z) = zd_id z.
Proof. unfold zone_state. by destruct (fold_left _ (en_nodes e) _). Qed.

Lemma zone_state_open e tables now z s : s ∈ tables -> tb_zoneId s = zd_id z -> tb_status s = CovUnknown ->
  zn_people (zone_state e tables now z) = None.
Proof.
  intros Hs Hz Hu. unfold zone_state. destruct (fold_left _ (en_nodes e) _) as [c p]. cbn [zn_people].
  assert (existsb is_unknown (List.filter (fun t => bool_decide (tb_zoneId t = zd_id z)) tables) = true) as ->.
  { apply existsb_exists. exists s. split; [|by apply bool_decide_eq_true]. apply filter_In. split; [by apply list_elem_of_In|by apply bool_decide_eq_true]. }
  by rewrite andb_false_r.
Qed.

Lemma floor_state_adds_up reg e now floor : (forall tid t, om_get tid (rg_tables reg) = Some t -> Z.of_nat (length (td_seats t)) = td_capacity t) ->
  floor_adds_up (snd (floor_state reg e now floor)).
Proof.
  intros Hreg. unfold floor_state. pose proof (table_states_shown e (omap (fun id => om_get id (rg_tables reg)) (fd_tables floor)) now) as Hs.
  destruct (table_states e _ now) as [e' tables]. cbn [snd] in *. unfold floor_adds_up. cbn [fl_tables fl_totals fl_zones].
  assert (Forall (fun s => table_shown (tb_capacity s) s) tables) as Hall.
  { apply Hs, Forall_forall. intros t (id & _ & Ht)%list_elem_of_omap. by eapply Hreg. }
  split_and!; [done|by apply floor_totals_add|]. apply Forall_map, Forall_forall. intros z _ (s & H1 & H2 & H3).
  rewrite zone_state_id in H2. by eapply zone_state_open.
Qed.

(** The published numbers add up. For an accepted configuration, whatever the
    engine has seen and whenever the snapshot is taken, on every floor each
    table is either open or fully accounted for, the free, the taken and the
    unknown seats add up to all seats of the floor, and a zone with an unknown
    table shows no number of people. *)
Theorem snapshot_adds_up {T : Trig} site nodesJ reg e now : buildRegistry site nodesJ = Ok reg ->
  length (snd (snapshot reg e now)) = length (rg_floors reg) /\ Forall floor_adds_up (snd (snapshot reg e now)).
Proof.
  intros Hreg. assert (forall tid t, om_get tid (rg_tables reg) = Some t -> Z.of_nat (length (td_seats t)) = td_capacity t) as Hseats.
  { intros tid t Ht. by destruct (registry_table site nodesJ reg tid t Hreg Ht) as (_ & fl & _ & (_ & _ & _ & _ & ?) & _). }
  unfold snapshot. assert (forall l st, Forall floor_adds_up (snd st) ->
    let r := fold_left (fun st floor => let '(e, s) := floor_state reg (fst st) now floor in (e, snd st ++ [s])) l st in
    length (snd r) = (length (snd st) + length l)%nat /\ Forall floor_adds_up (snd r)) as H.
  { induction l as [|f l IH]; intros st Hst; [split; [cbn; lia|done]|]. cbn [fold_left].
    pose proof (floor_state_adds_up reg (fst st) now f Hseats) as Hf. destruct (floor_state reg (fst st) now f) as [e' s]. cbn [snd] in Hf.
    destruct (IH (e', snd st ++ [s])) as [H1 H2]; [cbn; apply Forall_app; split; [done|by constructor]|]. split; [|exact H2].
    rewrite H1. cbn [snd]. rewrite length_app. cbn. lia. }
  by apply (H (rg_floors reg) (e, [])).
Qed.

(** ** Who sits where *)

(** The claims are the pairs within reach. *)
Definition reaches (o : OccupancyOptions) (table : TableDef) (dets : list ConsoleDetection) (c : Claim) : Prop :=
  exists det s x y, dets !! cl_det c = Some det /\ cd_floor det = Some (x, y) /\ s ∈ td_seats table /\
    within (sp_x s - x) (sp_y s - y) (default (seatRadiusCm o) (td_seatRadiusCm table) + (if 1 <? cd_persons det then 60 else 0)) = true /\
    c = {| cl_d := (sq (sp_x s - x) + sq (sp_y s - y))%Q; cl_det := cl_det c; cl_seat := sp_id s |}.

Lemma elem_of_imap_concat {A B} (f : nat -> A -> list B) l b : b ∈ concat (imap f l) <-> exists i a, l !! i = Some a /\ b ∈ f i a.
Proof.
  rewrite list_elem_of_In, in_concat. split.
  - intros (c & Hc%list_elem_of_In & Hb%list_elem_of_In). apply elem_of_lookup_imap in Hc as (i & a & -> & Ha). by exists i, a.
  - intros (i & a & Ha & Hb). exists (f i a). split; [|by apply list_elem_of_In]. apply list_elem_of_In, elem_of_lookup_imap. by exists i, a.
Qed.

Lemma elem_of_claims o table dets c : c ∈ claims o table dets <-> reaches o table dets c.
Proof.
  unfold claims. rewrite isort_elem, elem_of_imap_concat. unfold reaches. split.
  - intros (i & det & Hdet & Hc). destruct (cd_floor det) as [[x y]|] eqn:Ef; [|by apply not_elem_of_nil in Hc].
    apply list_elem_of_omap in Hc as (s & Hs & E). destruct (within _ _ _) eqn:Ew; [|done]. injection E as <-. by exists det, s, x, y.
  - intros (det & s & x & y & Hdet & Hf & Hs & Hw & ->). cbn [cl_det] in *. exists (cl_det c), det. split; [done|]. rewrite Hf.
    apply list_elem_of_omap. exists s. split; [done|]. by rewrite Hw.
Qed.

Lemma claims_sorted o table dets : StronglySorted (fun a b => (cl_d a <= cl_d b)%Q) (claims o table dets).
Proof.
  assert (StronglySorted (fun a b => Qle_bool (cl_d a) (cl_d b) = true) (claims o table dets)) as H.
  { apply isort_sorted.
    - intros x y. rewrite !Qle_bool_iff. destruct (Qlt_le_dec (cl_d x) (cl_d y)); [left; by apply Qlt_le_weak|by right].
    - intros x y z. rewrite !Qle_bool_iff. apply Qle_trans. }
  induction H as [|c l _ IH Hc]; [constructor|]. constructor; [done|]. eapply Forall_impl; [exact Hc|]. intros x. apply Qle_bool_iff.
Qed.

(** How many claims of a choice are a given person's blob, up to a distance. *)
Definition uses (i : nat) (d : option Q) (M : list Claim) : Z :=
  Z.of_nat (length (List.filter (fun c => Nat.eqb (cl_det c) i && match d with Some d => Qle_bool (cl_d c) d | None => true end) M)).

Lemma uses_snoc i d M c : uses i d (M ++ [c]) =
  uses i d M + (if Nat.eqb (cl_det c) i && match d with Some d => Qle_bool (cl_d c) d | None => true end then 1 else 0).
Proof. unfold uses. rewrite List.filter_app, length_app. cbn. destruct (_ && _); cbn; lia. Qed.

(** What holds of the claims made so far. *)
Record choice (persons : list Z) (past : list Claim) (st : list Z * list string) (M : list Claim) : Prop := {
  ch_taken : snd st = map cl_seat M;
  ch_nodup : NoDup (map cl_seat M);
  ch_past c : c ∈ M -> c ∈ past;
  ch_left i : fst st !! i = (fun p => p - uses i None M) <$> persons !! i;
  ch_pos i p : persons !! i = Some p -> 0 <= p -> uses i None M <= p;
  ch_why c : c ∈ past -> c ∈ M \/ (exists c', c' ∈ M /\ cl_seat c' = cl_seat c /\ (cl_d c' <= cl_d c)%Q) \/
    default 0 (persons !! cl_det c) <= uses (cl_det c) (Some (cl_d c)) M;
}.

Lemma uses_mono i d M c : uses i d M <= uses i d (M ++ [c]).
Proof. rewrite uses_snoc. destruct (_ && _); lia. Qed.

Lemma uses_all i d M : Forall (fun c => (cl_d c <= d)%Q) M -> uses i (Some d) M = uses i None M.
Proof.
  intros H. unfold uses. do 2 f_equal. induction H as [|c M Hc _ IH]; [done|]. cbn. rewrite (proj2 (Qle_bool_iff _ _) Hc), !andb_true_r, IH. done.
Qed.

Lemma claim_step persons past st M c : choice persons past st M -> Forall (fun c' => (cl_d c' <= cl_d c)%Q) past ->
  exists M', choice persons (past ++ [c]) (claim st c) M'.
Proof.
  intros [H1 H2 H3 H4 H5 H6] Hd. destruct st as [remaining taken]. cbn [fst snd] in *. unfold claim.
  assert (Forall (fun c' => (cl_d c' <= cl_d c)%Q) M) as HdM by (rewrite Forall_forall in *; intros x Hx; apply Hd; by apply H3).
  assert (default 0 (remaining !! cl_det c) = default 0 (persons !! cl_det c) - match persons !! cl_det c with Some _ => uses (cl_det c) None M | None => 0 end) as Hleft.
  { rewrite H4. destruct (persons !! cl_det c); cbn; lia. }
  destruct (_ || _) eqn:Eskip.
  - exists M. constructor; try done.
    + intros x Hx. apply elem_of_app. left. by apply H3.
    + intros x [Hx| ->%list_elem_of_singleton]%elem_of_app; [by apply H6|]. right. bprop. destruct Eskip as [Hl|Hin].
      * right. rewrite uses_all by done. destruct (persons !! cl_det c); cbn in *; [lia|unfold uses; lia].
      * left. apply includes_true in Hin. rewrite H1 in Hin. apply list_elem_of_fmap in Hin as (c' & E & Hc'). exists c'. split_and!; [done|done|].
        rewrite Forall_forall in HdM. by apply HdM.
  - exists (M ++ [c]). bprop. destruct Eskip as [Hl Hni]. apply includes_false in Hni.
    destruct (persons !! cl_det c) as [p|] eqn:Ep; cbn in Hleft; [|lia]. constructor; cbn [fst snd].
    + by rewrite map_app, H1.
    + rewrite map_app. apply NoDup_app. split_and!; [done| |apply NoDup_singleton]. rewrite <- H1. intros x Hx ->%list_elem_of_singleton. done.
    + intros x [Hx| ->%list_elem_of_singleton]%elem_of_app; apply elem_of_app; [left; by apply H3|right; by left].
    + intros i. rewrite uses_snoc. destruct (decide (i = cl_det c)) as [->|Hne].
      * rewrite Nat.eqb_refl, Ep. cbn. rewrite list_lookup_insert_eq; [f_equal; lia|].
        apply lookup_lt_is_Some. rewrite H4, Ep. by eexists.
      * rewrite list_lookup_insert_ne by done. rewrite H4. rewrite (proj2 (Nat.eqb_neq _ _)) by done. cbn. destruct (persons !! i); cbn; [f_equal; lia|done].
    + intros i q Hq Hq0. rewrite uses_snoc. destruct (Nat.eqb_spec (cl_det c) i) as [<-|]; cbn; [|specialize (H5 i q Hq Hq0); lia].
      rewrite Ep in Hq. injection Hq as <-. lia.
    + intros x [Hx| ->%list_elem_of_singleton]%elem_of_app; [|left; apply elem_of_app; right; by left].
      destruct (H6 x Hx) as [Hin|[(c' & ? & ? & ?)|Hu]]; [left; apply elem_of_app; by left| |].
      * right. left. exists c'. split_and!; [apply elem_of_app; by left|done|done].
      * right. right. pose proof (uses_mono (cl_det x) (Some (cl_d x)) M c). lia.
Qed.

(** Seats are given out fairly, nearest first. There is a choice of pairs of
    a blob and a seat within its reach that [assignSeats] answers with: no seat
    is given twice, no blob gets more seats than it holds people, and nobody
    can complain: a blob and a seat within reach that were not paired lost only
    to a pair at least as near, either for that seat or because all the people
    of the blob were already seated no further away. *)
Theorem assignSeats_fair o table dets : exists M,
  assignSeats o table dets = map cl_seat M /\ NoDup (map cl_seat M) /\ (forall c, c ∈ M -> reaches o table dets c) /\
  (forall i det, dets !! i = Some det -> 0 <= cd_persons det -> uses i None M <= cd_persons det) /\
  (forall c, reaches o table dets c -> c ∈ M \/
     (exists c', c' ∈ M /\ cl_seat c' = cl_seat c /\ (cl_d c' <= cl_d c)%Q) \/
     (exists det, dets !! cl_det c = Some det /\ cd_persons det <= uses (cl_det c) (Some (cl_d c)) M)).
Proof.
  set (persons := map cd_persons dets).
  assert (forall l past st M, StronglySorted (fun a b => (cl_d a <= cl_d b)%Q) l ->
    (forall c c', c ∈ past -> c' ∈ l -> (cl_d c <= cl_d c')%Q) -> choice persons past st M ->
    exists M', choice persons (past ++ l) (fold_left claim l st) M') as H.
  { induction l as [|c l IH]; intros past st M Hs Hle HM; [rewrite app_nil_r; by exists M|]. apply StronglySorted_inv in Hs as [Hs Hc].
    destruct (claim_step persons past st M c HM) as [M1 HM1]; [apply Forall_forall; intros c' Hc'; apply Hle; [done|by left]|].
    destruct (IH (past ++ [c]) (claim st c) M1 Hs) as [M2 HM2]; [|done|].
    - intros x y [Hx| ->%list_elem_of_singleton]%elem_of_app Hy; [apply Hle; [done|by right]|]. rewrite Forall_forall in Hc. by apply Hc.
    - exists M2. by rewrite <- app_assoc in HM2. }
  destruct (H (claims o table dets) [] (persons, []) [] (claims_sorted o table dets)) as [M [H1 H2 H3 _ H5 H6]].
  - by intros c c' ?%not_elem_of_nil.
  - constructor; cbn [fst snd map].
    + done.
    + by apply NoDup_nil.
    + by intros c ?%not_elem_of_nil.
    + intros i. destruct (persons !! i); cbn; [by rewrite Z.sub_0_r|done].
    + intros i p _ Hp. exact Hp.
    + by intros c ?%not_elem_of_nil.
  - exists M. cbn [app] in *. split_and!; [exact H1|done| | |].
    + intros c Hc. by apply elem_of_claims, H3.
    + intros i det Hi Hp. apply H5; [|done]. unfold persons. by rewrite list_lookup_fmap, Hi.
    + intros c Hc. destruct (H6 c) as [?|[?|Hu]]; [by apply elem_of_claims|by left|by right; left|]. right. right.
      destruct Hc as (det & s & x & y & Hdet & _). exists det. split; [done|]. unfold persons in Hu. by rewrite list_lookup_fmap, Hdet in Hu.
Qed.

(** ** A seat over time *)

Definition last_n {A} (n : nat) (l : list A) : list A := drop (length l - n) l.

Lemma last_n_snoc {A} n (l : list A) x : last_n n (last_n n l ++ [x]) = last_n n (l ++ [x]).
Proof.
  unfold last_n. rewrite !length_app, length_drop. cbn [length].
  destruct (Nat.le_gt_cases (length l) n) as [Hle|Hgt].
  - replace (length l - n)%nat with 0%nat by lia. rewrite drop_0. do 2 f_equal. lia.
  - replace (length l - (length l - n) + 1 - n)%nat with 1%nat by lia.
    rewrite <- drop_app_le by lia. rewrite drop_drop. f_equal. lia.
Qed.

Lemma last_n_length {A} n (l : list A) : (length (last_n n l) <= n)%nat.
Proof. unfold last_n. rewrite length_drop. lia. Qed.

Definition opts_ok (o : OccupancyOptions) : Prop :=
  (0 <= releaseMs o)%Q /\ 1 <= enterMin o /\ enterMin o <= enterWindow o.

Lemma update_seat_window o seen at_ k : 1 <= enterWindow o ->
  sk_window (update_seat o seen at_ k) = last_n (Z.to_nat (enterWindow o)) (sk_window k ++ [seen]).
Proof.
  intros Hw. unfold update_seat. set (w := sk_window k ++ [seen]).
  assert ((if enterWindow o <? Z.of_nat (length w) then drop (length w - Z.to_nat (enterWindow o)) w else w) = last_n (Z.to_nat (enterWindow o)) w) as E.
  { unfold last_n. destruct (Z.ltb_spec (enterWindow o) (Z.of_nat (length w))); [done|].
    replace (length w - Z.to_nat (enterWindow o))%nat with 0%nat by lia. done. }
  rewrite E. destruct (negb _); [destruct (_ <=? _)|]; done.
Qed.

Definition shown (l : list bool) : Z := Z.of_nat (length (List.filter id l)).

(** The track of a seat after some frames: whether someone was on it, and when. *)
Definition watch (o : OccupancyOptions) (k : SeatTrack) (frames : list (bool * Z)) : SeatTrack :=
  fold_left (fun k f => update_seat o f.1 f.2 k) frames k.

Lemma watch_snoc o k frames f : watch o k (frames ++ [f]) = update_seat o f.1 f.2 (watch o k frames).
Proof. unfold watch. by rewrite fold_left_app. Qed.

Lemma watch_window o frames : 1 <= enterWindow o ->
  sk_window (watch o empty_track frames) = last_n (Z.to_nat (enterWindow o)) (map fst frames).
Proof.
  intros Hw. induction frames as [|f frames IH] using rev_ind; [done|].
  rewrite watch_snoc, update_seat_window, IH, map_app, last_n_snoc; done.
Qed.

Lemma update_seat_free o seen at_ k : 1 <= enterWindow o -> sk_occupied k = false ->
  sk_occupied (update_seat o seen at_ k) = (enterMin o <=? shown (last_n (Z.to_nat (enterWindow o)) (sk_window k ++ [seen]))).
Proof.
  intros Hw Hk. rewrite <- (update_seat_window o seen at_ k Hw). unfold update_seat, shown. rewrite Hk. cbn [negb].
  match goal with |- context [if (enterMin o <=? ?n)%Z then _ else _] => destruct (enterMin o <=? n)%Z eqn:E end; cbn [sk_occupied sk_window]; by rewrite E.
Qed.

Lemma update_seat_taken o (seen : bool) at_ k : sk_occupied k = true -> let last := if seen then at_ else sk_lastSeenAt k in
  sk_occupied (update_seat o seen at_ k) = negb (Qltb (releaseMs o) (inject_Z (at_ - last))) /\ sk_lastSeenAt (update_seat o seen at_ k) = last.
Proof. intros Hk. unfold update_seat. by rewrite Hk. Qed.

Lemma seen_now o at_ k : (0 <= releaseMs o)%Q -> sk_occupied k = true -> sk_occupied (update_seat o true at_ k) = true.
Proof. intros Hr Hk. destruct (update_seat_taken o true at_ k Hk) as [-> _]. rewrite Z.sub_diag. apply negb_true_iff, Qltb_ge. exact Hr. Qed.

(** A seat is taken only on the evidence of enough frames, and held through
    the gaps. Starting from nothing, whatever the frames, a seat that is taken
    was shown in [enterMin] of the last [enterWindow] frames at some moment
    before; it is taken whenever the newest frame shows someone and
    [enterMin] of the last [enterWindow] do; once taken it stays taken through
    any frames, full or empty, until [releaseMs] after it was last seen; and an
    empty frame later than that frees it. *)
Theorem seat_taken_and_held o frames : opts_ok o -> let k := watch o empty_track frames in
  let recent l := last_n (Z.to_nat (enterWindow o)) (map fst l) in
  (sk_occupied k = true -> exists before after, frames = before ++ after /\ enterMin o <= shown (recent before)) /\
  (forall earlier at_, frames = earlier ++ [(true, at_)] -> enterMin o <= shown (recent frames) -> sk_occupied k = true) /\
  (sk_occupied k = true ->
     forall later, Forall (fun f : bool * Z => sk_lastSeenAt k <= f.2 /\ (inject_Z (f.2 - sk_lastSeenAt k) <= releaseMs o)%Q) later ->
       sk_occupied (watch o k later) = true) /\
  (sk_occupied k = true -> forall at_, (releaseMs o < inject_Z (at_ - sk_lastSeenAt k))%Q -> sk_occupied (update_seat o false at_ k) = false).
Proof.
  intros (Hr & Hm1 & Hm2). cbv zeta. assert (1 <= enterWindow o) as Hw by lia. split_and!.
  - induction frames as [|[seen at_] frames IH] using rev_ind; [done|]. rewrite watch_snoc. cbn [fst snd]. intros Hk.
    destruct (sk_occupied (watch o empty_track frames)) eqn:E.
    + destruct (IH eq_refl) as (b & a & -> & H). exists b, (a ++ [(seen, at_)]). by rewrite app_assoc.
    + rewrite update_seat_free in Hk by done. exists (frames ++ [(seen, at_)]), []. rewrite app_nil_r. split; [done|].
      rewrite map_app. cbn [map fst]. rewrite <- last_n_snoc, <- watch_window by done. by apply Z.leb_le.
  - intros earlier at_ -> Hs. rewrite watch_snoc. cbn [fst snd]. destruct (sk_occupied (watch o empty_track earlier)) eqn:E; [by apply seen_now|].
    rewrite update_seat_free, watch_window, last_n_snoc by done. apply Z.leb_le. by rewrite map_app in Hs.
  - generalize (watch o empty_track frames). intros k Hk later Hl.
    assert (forall later k, sk_occupied k = true -> forall l, l <= sk_lastSeenAt k ->
      Forall (fun f : bool * Z => l <= f.2 /\ (inject_Z (f.2 - l) <= releaseMs o)%Q) later -> sk_occupied (watch o k later) = true) as H.
    { clear. induction later as [|[seen at_] later IH]; intros k Hk l Hkl Hl; [done|]. apply Forall_cons in Hl as [[H1 H2] Hl]. cbn [fst snd] in *.
      change (sk_occupied (watch o (update_seat o seen at_ k) later) = true).
      destruct (update_seat_taken o seen at_ k Hk) as [Ho Hls]. apply (IH _) with (l := l); [|rewrite Hls; by destruct seen|done].
      rewrite Ho. apply negb_true_iff, Qltb_ge. eapply Qle_trans; [|exact H2]. rewrite <- Zle_Qle. destruct seen; lia. }
    by apply (H later k Hk (sk_lastSeenAt k)).
  - intros Hk at_ Hlate. destruct (update_seat_taken o false at_ _ Hk) as [-> _]. apply negb_false_iff, Qltb_lt. exact Hlate.
Qed.

(** A seat that was released can come back without anyone on it. With the
    default settings, three frames with someone on the seat, a gap longer than
    [releaseMs] and one empty frame free the seat; the next empty frame takes
    it again and calls it seen now, because the frames before the gap are still
    in the window when the seat is free. *)
Theorem released_seat_is_retaken :
  let before := [(true, 0); (true, 250); (true, 500); (false, 30000)] in
  let freed := watch DEFAULT_OCCUPANCY empty_track before in
  let retaken := watch DEFAULT_OCCUPANCY freed [(false, 30250)] in
  sk_occupied freed = false /\ sk_occupied retaken = true /\ sk_lastSeenAt retaken = 30250.
Proof. vm_compute. done. Qed.

(** ** Whose report counts *)

(** The engine once it knows that the node reported, and how it is. *)
Definition hear (e : Engine) (uid : string) (report : Report) (at_ : Z) : Engine :=
  with_nodes (om_set uid (heard e uid report at_) (en_nodes e)) e.

(** Trust depends on the nodes and the settings only. *)
Definition same_trust (e e' : Engine) : Prop := en_nodes e = en_nodes e' /\ en_opts e = en_opts e'.

Lemma trust_healthy e e' uid now : same_trust e e' -> isHealthy e uid now = isHealthy e' uid now.
Proof. intros [H1 H2]. unfold isHealthy. by rewrite H1, H2. Qed.

Lemma trust_authority e e' t now : same_trust e e' -> authorityFor e t now = authorityFor e' t now.
Proof. intros H. unfold authorityFor. induction (td_coveredBy t) as [|u l IH]; [done|]. cbn. by rewrite (trust_healthy e e' u now H), IH. Qed.

Section whose.
Context {T : Trig}.

Lemma trust_viewer reg e e' fid x y now : same_trust e e' -> nearestHealthyViewer reg e fid x y now = nearestHealthyViewer reg e' fid x y now.
Proof.
  intros H. unfold nearestHealthyViewer. f_equal. generalize (@None (string * Q)). induction (map snd (rg_nodes reg)) as [|n l IH]; intros best; [done|].
  cbn [fold_left]. rewrite (trust_healthy e e' (nd_uid n) (Some now) H). apply IH.
Qed.

Lemma updateSeats_other o t observed at_ seats s : s ∉ map sp_id (td_seats t) -> om_get s (updateSeats o t observed at_ seats) = om_get s seats.
Proof.
  unfold updateSeats. revert seats. induction (td_seats t) as [|x l IH]; intros seats Hs; [done|]. cbn [map] in Hs. apply not_elem_of_cons in Hs as [Hx Hl].
  cbn [fold_left]. rewrite IH by done. destruct (om_get (sp_id x) seats); [|done]. by rewrite om_get_set_ne.
Qed.

(** What a detection that is counted shows. *)
Definition rightly_counted (reg : Registry) (e : Engine) (uid floorId : string) (at_ : Z) (d : ConsoleDetection) : Prop :=
  cd_counted d = true ->
  match at_table d with
  | Some tid => exists t, t ∈ map snd (rg_tables reg) /\ td_id t = tid /\ td_floorId t = floorId /\ authorityFor e t (Some at_) = Some uid
  | None => exists x y, cd_floor d = Some (x, y) /\ nearestHealthyViewer reg e floorId x y at_ = Some uid
  end.

Lemma at_table_count tid d : at_table (count_at tid d) = at_table d /\ cd_floor (count_at tid d) = cd_floor d.
Proof. done. Qed.

Lemma ingest_tables_spec reg uid floorId healthy at_ e0 l : l ⊆ map snd (rg_tables reg) -> forall e dets,
  same_trust e e0 -> Forall (rightly_counted reg e0 uid floorId at_) dets ->
  let st := fold_left (ingest_table uid floorId healthy at_) l (e, dets) in
  same_trust (fst st) e0 /\ Forall (rightly_counted reg e0 uid floorId at_) (snd st) /\
  (forall s, (forall t, t ∈ l -> s ∈ map sp_id (td_seats t) -> authorityFor e0 t (Some at_) <> Some uid) -> om_get s (en_seats (fst st)) = om_get s (en_seats e)).
Proof.
  induction l as [|t l IH]; intros Hl e dets He Hd; [done|]. cbn [fold_left].
  assert (l ⊆ map snd (rg_tables reg)) as Hl' by (intros x Hx; apply Hl; by right). assert (t ∈ map snd (rg_tables reg)) as Ht by (apply Hl; by left).
  assert (exists e' dets', ingest_table uid floorId healthy at_ (e, dets) t = (e', dets') /\ same_trust e' e0 /\
    Forall (rightly_counted reg e0 uid floorId at_) dets' /\
    forall s, (s ∈ map sp_id (td_seats t) -> authorityFor e0 t (Some at_) <> Some uid) -> om_get s (en_seats e') = om_get s (en_seats e)) as (e' & dets' & -> & H1 & H2 & H3).
  { unfold ingest_table. case_bool_decide as Ef; cbn [negb]; [|by exists e, dets]. destruct (om_get (td_id t) (en_tables e)) as [track|]; [|by exists e, dets].
    destruct (_ || _) eqn:Ea; [by eexists _, _|]. bprop. destruct Ea as [Ea _]. rewrite (trust_authority e e0 t _ He) in Ea.
    eexists _, _. split; [done|]. split_and!; [exact He| |].
    - apply Forall_map. eapply Forall_impl; [exact Hd|]. intros d Hd0 Hc. unfold count_at in Hc. cbn in Hc.
      change (at_table (count_at (td_id t) d)) with (at_table d). destruct (bool_decide (at_table d = Some (td_id t))) eqn:Eb.
      + apply bool_decide_eq_true in Eb. rewrite Eb. by exists t.
      + apply Hd0. exact Hc.
    - intros s Hs. cbn. apply updateSeats_other. intros Hin. by apply Hs. }
  destruct (IH Hl' e' dets' H1 H2) as (I1 & I2 & I3). split_and!; [done|done|]. intros s Hs.
  rewrite I3, H3; [done| |].
  - intros Hin. apply Hs; [by left|done].
  - intros t' Ht'. apply Hs. by right.
Qed.

Lemma ingest_zones_spec reg e e0 uid floorId at_ l : same_trust e e0 -> forall st, Forall (rightly_counted reg e0 uid floorId at_) (snd st) ->
  Forall (rightly_counted reg e0 uid floorId at_) (snd (fold_left (ingest_zone reg e uid floorId at_) l st)).
Proof.
  intros He. induction l as [|z l IH]; intros [h dets] Hd; [done|]. cbn [fold_left]. apply IH. cbn [ingest_zone snd] in *.
  apply Forall_map. eapply Forall_impl; [exact Hd|]. intros d Hd0. cbn beta. destruct (zone_counts reg e uid floorId z at_ d) eqn:Ez; [|exact Hd0].
  intros _. change (at_table (set_counted d)) with (at_table d). change (cd_floor (set_counted d)) with (cd_floor d).
  unfold zone_counts in Ez. destruct (at_table d); [done|]. destruct (cd_floor d) as [[x y]|]; [|done]. bprop. destruct Ez as [_ Ez].
  exists x, y. split; [done|]. by rewrite <- (trust_viewer reg e e0).
Qed.

(** C5: Each person is counted by one node. When a report comes in, a seat that
    belongs to no table the reporting node is the authority of keeps its track,
    in particular every seat if the node is not healthy or has no place; and a
    detection is counted only if it is at a table this node is the authority of
    at that moment, or at no table and this node is the nearest healthy one
    that sees the spot. *)
Theorem only_the_authority_counts reg e uid report at_ :
  let e0 := hear e uid report at_ in
  let r := ingest reg e uid report at_ in
  (forall s, (forall t, t ∈ map snd (rg_tables reg) -> s ∈ map sp_id (td_seats t) -> authorityFor e0 t (Some at_) <> Some uid) ->
     om_get s (en_seats (fst r)) = om_get s (en_seats e)) /\
  match om_get uid (rg_nodes reg) with
  | Some {| nd_pose := Some _; nd_floorId := Some floorId |} => Forall (rightly_counted reg e0 uid floorId at_) (snd r)
  | _ => Forall (fun d => cd_counted d = false) (snd r) /\ forall s, om_get s (en_seats (fst r)) = om_get s (en_seats e)
  end.
Proof.
  cbv zeta. unfold ingest. fold (hear e uid report at_). set (e0 := hear e uid report at_).
  assert (Forall (fun d => cd_counted d = false) (unplaced_detections (r_detections report))) as Hun by (apply Forall_map, Forall_forall; done).
  destruct (om_get uid (rg_nodes reg)) as [[? ? floorId pose ? ? ? ?]|]; [|by split_and!].
  destruct pose as [pose|]; [|by destruct floorId; split_and!]. destruct floorId as [floorId|]; [|by split_and!].
  unfold ingest_placed.
  set (dets := map (place_blob _ _ _ _) _). assert (Forall (rightly_counted reg e0 uid floorId at_) dets) as Hd by (apply Forall_map, Forall_forall; done).
  destruct (ingest_tables_spec reg uid floorId (ns_healthy (heard e uid report at_)) at_ e0 (map snd (rg_tables reg)) ltac:(done) e0 dets ltac:(done) Hd) as (H1 & H2 & H3).
  destruct (fold_left (ingest_table _ _ _ _) _ _) as [e' dets']. cbn [fst snd] in *.
  match goal with |- context [let '(_, _) := ?m in _] => assert (Forall (rightly_counted reg e0 uid floorId at_) (snd m)) as Hm; [|destruct m as [history dets'']] end.
  { destruct (List.find _ (rg_floors reg)); [|done]. destruct (ns_healthy _); [|done]. by apply ingest_zones_spec. }
  cbn [fst snd] in *. split; [|done]. intros s Hs. exact (H3 s Hs).
Qed.
End whose.

(** ** The engine stays bounded *)

Definition opts_in_range (o : OccupancyOptions) : Prop :=
  (2000 <= staleMs o <= 120000 /\ 2000 <= releaseMs o <= 300000 /\ 20 <= seatRadiusCm o <= 300 /\ 0 <= mergeCm o <= 200)%Q /\
  1 <= enterMin o /\ enterMin o <= enterWindow o /\ enterWindow o <= 60.

Definition track_bounded (o : OccupancyOptions) (p : string * SeatTrack) : Prop := Z.of_nat (length (sk_window p.2)) <= enterWindow o.
Definition node_bounded (p : string * NodeState) : Prop :=
  (length (ns_heats p.2) <= HEAT_SAMPLES)%nat /\ Forall (fun h => (length h.2 <= ZONE_WINDOW)%nat) (ns_zoneHistory p.2).
Definition table_bounded (p : string * TableTrack) : Prop := (length (tk_peopleHistory p.2) <= ZONE_WINDOW)%nat.

Record engine_ok (e : Engine) : Prop := {
  eo_opts : opts_in_range (en_opts e);
  eo_seats : Forall (track_bounded (en_opts e)) (en_seats e);
  eo_nodes : Forall node_bounded (en_nodes e);
  eo_tables : Forall table_bounded (en_tables e);
}.

Lemma om_set_Forall {V} (P : string * V -> Prop) k v m : Forall P m -> P (k, v) -> Forall P (om_set k v m).
Proof. rewrite !Forall_forall. intros Hm Hv x [->|?]%om_set_elem; [done | by apply Hm]. Qed.

Lemma om_get_Forall {V} (P : string * V -> Prop) k v m : Forall P m -> om_get k m = Some v -> P (k, v).
Proof. rewrite Forall_forall. intros Hm ?%om_get_elem. by apply Hm. Qed.

Lemma clampQ_range v lo hi : (lo <= hi -> lo <= clampQ v lo hi <= hi)%Q.
Proof.
  assert (forall a b, Qle_bool a b = false -> (b < a)%Q) as Hf by (intros a b E; apply Qltb_lt; unfold Qltb; by rewrite E).
  intros H. unfold clampQ, Qmin', Qmax'.
  destruct (Qle_bool lo v) eqn:E1; [apply Qle_bool_iff in E1|apply Hf in E1];
    match goal with |- context [Qle_bool hi ?x] => destruct (Qle_bool hi x) eqn:E2; [apply Qle_bool_iff in E2|apply Hf in E2] end; lra.
Qed.

Lemma patched_range lo hi v old : (lo <= hi -> lo <= old <= hi -> lo <= patched v (fun q => clampQ q lo hi) old <= hi)%Q.
Proof. intros H1 H2. destruct v as [[q|]|]; [by apply clampQ_range|done|done]. Qed.

Lemma patched_round v old : 1 <= old <= 60 -> 1 <= patched v (fun q => js_round (clampQ q 1 60)) old <= 60.
Proof. intros H. destruct v as [[q|]|]; [|done|done]. apply js_round_range. apply clampQ_range. discriminate. Qed.

Lemma cut_window_bounded n k : 1 <= n -> Z.of_nat (length (sk_window (cut_window n k))) <= n.
Proof. intros Hn. unfold cut_window. cbn. destruct (Z.ltb_spec n (Z.of_nat (length (sk_window k)))); [rewrite length_drop; lia|done]. Qed.

Lemma setOptions_ok e patch e' o : engine_ok e -> setOptions e patch = Ok (e', o) -> engine_ok e' /\ en_opts e' = o.
Proof.
  intros [H1 H2 H3 H4] H. unfold setOptions in H. inv_ok H. injection H as <- <-. split; [|done].
  destruct H1 as [(R1 & R2 & R3 & R4) (R5 & R6 & R7)].
  set (next := Build_OccupancyOptions _ _ _ _ _ _) in *. cbn [en_opts].
  assert (1 <= enterMin next <= 60) as Hmin by (apply patched_round; lia).
  assert (1 <= enterWindow next <= 60) as Hwin by (apply patched_round; lia).
  assert (enterMin next <= enterWindow next) as Hle by (unfold next; cbn [enterMin enterWindow]; bprop; exact Hc0).
  assert (opts_in_range next) as Hnext.
  { split; [|lia]. unfold next. cbn [staleMs releaseMs seatRadiusCm mergeCm].
    split; [|split; [|split]]; apply patched_range; (done || discriminate). }
  constructor; cbn; [done| |done|done]. apply Forall_map, Forall_forall. intros [s k] _. apply (cut_window_bounded (enterWindow next) k). lia.
Qed.

Section bounded.
Context {T : Trig}.

Lemma learn_bounded l h : (length h <= HEAT_SAMPLES)%nat -> (length (fold_left learn l h) <= HEAT_SAMPLES)%nat.
Proof. revert h; induction l as [|[d q] l IH]; intros h Hh; [done|]. cbn [fold_left]. apply IH. unfold learn. destruct (at_table _); [by apply push_cap_length|done]. Qed.

Lemma updateSeats_bounded o t observed at_ seats : 1 <= enterWindow o -> Forall (track_bounded o) seats ->
  Forall (track_bounded o) (updateSeats o t observed at_ seats).
Proof.
  intros Hw. unfold updateSeats. revert seats. induction (td_seats t) as [|s l IH]; intros seats Hs; [done|]. cbn [fold_left]. apply IH.
  destruct (om_get (sp_id s) seats); [|done]. apply om_set_Forall; [done|]. unfold track_bounded. cbn [snd].
  rewrite update_seat_window by done. pose proof (last_n_length (Z.to_nat (enterWindow o)) (sk_window s0 ++ [includes (sp_id s) observed])). lia.
Qed.

Lemma ingest_table_ok uid fid healthy at_ e dets t : engine_ok e -> engine_ok (fst (ingest_table uid fid healthy at_ (e, dets) t)).
Proof.
  intros [H1 H2 H3 H4]. unfold ingest_table. destruct (negb _); [done|]. destruct (om_get (td_id t) (en_tables e)) as [track|] eqn:Et; [|done].
  pose proof (om_get_Forall _ _ _ _ H4 Et) as Hb. destruct (_ || _).
  - constructor; cbn; try done. by apply om_set_Forall.
  - constructor; cbn; try done.
    + apply updateSeats_bounded; [destruct H1 as [_ ?]; lia|done].
    + apply om_set_Forall; [done|]. unfold table_bounded. cbn. by apply push_cap_length.
Qed.

Lemma ingest_zones_bounded reg e uid fid at_ l st : Forall (fun h => (length h.2 <= ZONE_WINDOW)%nat) (fst st) ->
  Forall (fun h => (length h.2 <= ZONE_WINDOW)%nat) (fst (fold_left (ingest_zone reg e uid fid at_) l st)).
Proof.
  revert st; induction l as [|z l IH]; intros [h d] Hh; [done|]. cbn [fold_left]. apply IH. cbn [fst ingest_zone] in *.
  apply om_set_Forall; [done|]. cbn [snd]. apply push_cap_length. destruct (om_get (zd_id z) h) as [x|] eqn:E; [|cbn; lia].
  exact (om_get_Forall _ _ _ _ Hh E).
Qed.

Lemma heard_bounded e uid report at_ : engine_ok e -> node_bounded (uid, heard e uid report at_).
Proof.
  intros [_ _ H _]. unfold heard. destruct (om_get uid (en_nodes e)) as [st|] eqn:E; [exact (om_get_Forall _ _ _ _ H E)|].
  split; [cbn; lia|constructor].
Qed.

Lemma with_nodes_ok v e : engine_ok e -> Forall node_bounded v -> engine_ok (with_nodes v e).
Proof. intros [H1 H2 _ H4] Hv. by constructor. Qed.

Lemma ingest_ok reg e uid report at_ : engine_ok e -> engine_ok (fst (ingest reg e uid report at_)).
Proof.
  intros He. unfold ingest. pose proof (heard_bounded e uid report at_ He) as Hst. set (st := heard e uid report at_) in *.
  assert (engine_ok (with_nodes (om_set uid st (en_nodes e)) e)) as He0 by (apply with_nodes_ok, om_set_Forall; [done|apply He|done]).
  set (e0 := with_nodes _ e) in *.
  assert (forall d, engine_ok (with_nodes (om_set uid {| ns_lastReportAt := ns_lastReportAt st; ns_healthy := ns_healthy st; ns_heats := ns_heats st;
     ns_zoneHistory := ns_zoneHistory st; ns_lastDetections := d |} (en_nodes e0)) e0)) as Hun.
  { intros d. apply with_nodes_ok, om_set_Forall; [done|apply He0|exact Hst]. }
  destruct (om_get uid (rg_nodes reg)) as [[? ? fid pose ? ? ? ?]|]; [|apply Hun].
  destruct pose as [pose|], fid as [fid|]; try apply Hun. unfold ingest_placed.
  set (dets := map (place_blob _ _ _ _) _). set (heats := fold_left learn _ _).
  assert (length heats <= HEAT_SAMPLES)%nat as Hh by (apply learn_bounded, Hst).
  assert (forall l e d, engine_ok e -> engine_ok (fst (fold_left (ingest_table uid fid (ns_healthy st) at_) l (e, d)))) as Hloop.
  { induction l as [|t l IH]; intros e1 d H1; [done|]. cbn [fold_left]. pose proof (ingest_table_ok uid fid (ns_healthy st) at_ e1 d t H1) as H2.
    destruct (ingest_table _ _ _ _ (e1, d) t) as [e2 d2]. by apply IH. }
  specialize (Hloop (map snd (rg_tables reg)) e0 dets He0). destruct (fold_left (ingest_table _ _ _ _) _ _) as [e1 dets1]. cbn [fst] in Hloop.
  match goal with |- context [let '(_, _) := ?m in _] => assert (Forall (fun h => (length h.2 <= ZONE_WINDOW)%nat) (fst m)) as Hm; [|destruct m as [history dets2]] end.
  { destruct (List.find _ (rg_floors reg)); [|apply Hst]. destruct (ns_healthy st); [|apply Hst]. apply ingest_zones_bounded, Hst. }
  apply with_nodes_ok, om_set_Forall; [done|apply Hloop|]. by split.
Qed.
End bounded.

Lemma reset_seats_bounded o t seats : 1 <= enterWindow o -> Forall (track_bounded o) seats -> Forall (track_bounded o) (reset_seats t seats).
Proof.
  intros Hw. unfold reset_seats. revert seats. induction (td_seats t) as [|s l IH]; intros seats Hs; [done|]. cbn [fold_left]. apply IH.
  apply om_set_Forall; [done|]. unfold track_bounded. cbn. lia.
Qed.

Lemma tableState_ok e t now : engine_ok e -> engine_ok (fst (tableState e t now)).
Proof.
  intros [H1 H2 H3 H4]. cbn. unfold age_table. destruct (om_get (td_id t) (en_tables e)) as [track|] eqn:Et; [|done].
  pose proof (om_get_Forall _ _ _ _ H4 Et) as Hb. assert (1 <= enterWindow (en_opts e)) as Hw by (destruct H1 as [_ ?]; lia).
  repeat case_match; constructor; cbn; try done; try (by apply reset_seats_bounded); apply om_set_Forall; try done. unfold table_bounded. cbn. lia.
Qed.

Lemma snapshot_ok reg e now : engine_ok e -> engine_ok (fst (snapshot reg e now)).
Proof.
  assert (forall l e, engine_ok e -> engine_ok (fst (table_states e l now))) as Ht.
  { induction l as [|t l IH]; intros e1 H1; [done|]. cbn [table_states]. pose proof (tableState_ok e1 t now H1) as H2.
    destruct (tableState e1 t now) as [e2 s]. specialize (IH e2 H2). by destruct (table_states e2 l now). }
  intros He. unfold snapshot.
  assert (forall l st, engine_ok (fst st) ->
    engine_ok (fst (fold_left (fun st floor => let '(e, s) := floor_state reg (fst st) now floor in (e, snd st ++ [s])) l st))) as H; [|by apply H].
  induction l as [|f l IH]; intros [e1 acc] H1; [done|]. cbn [fold_left fst snd] in *. apply IH. unfold floor_state.
  specialize (Ht (omap (fun id => om_get id (rg_tables reg)) (fd_tables f)) e1 H1). by destruct (table_states _ _ _).
Qed.

(** What can happen to the engine. *)
Inductive engine_step {T : Trig} (reg : Registry) : Engine -> Engine -> Prop :=
| step_ingest e uid report at_ : engine_step reg e (fst (ingest reg e uid report at_))
| step_snapshot e now : engine_step reg e (fst (snapshot reg e now))
| step_options e patch e' o : setOptions e patch = Ok (e', o) -> engine_step reg e e'.

(** The engine never grows or drifts out of its settings. Starting from
    settings in range, after any reports, snapshots and changes of settings,
    the settings are still within the ranges of [setOptions], a seat never
    needs more frames than its window holds, and no window, heat sample,
    people history or zone history is longer than its bound. *)
Theorem engine_stays_bounded {T : Trig} reg o e : opts_in_range o -> rtc (engine_step reg) (new_engine reg o) e -> engine_ok e.
Proof.
  intros Ho Hr. assert (engine_ok (new_engine reg o)) as Hnew.
  { unfold new_engine. assert (forall l e, engine_ok e -> engine_ok (fold_left (fun e t => with_seats (reset_seats t (en_seats e))
        (with_tables (om_set (td_id t) {| tk_authority := None; tk_peopleHistory := []; tk_unknownSince := None |} (en_tables e)) e)) l e)) as H.
    { induction l as [|t l IH]; intros e1 [H1 H2 H3 H4]; [done|]. cbn [fold_left]. apply IH. constructor; cbn; try done.
      - apply reset_seats_bounded; [destruct H1 as [_ ?]; lia|done].
      - apply om_set_Forall; [done|]. unfold table_bounded. cbn. lia. }
    apply H. by constructor. }
  induction Hr as [e|e e1 e2 Hstep _ IH]; [done|]. apply IH. destruct Hstep as [e uid report at_|e now|e patch e' o' H].
  - by apply ingest_ok.
  - by apply snapshot_ok.
  - by apply setOptions_ok in H as [? _].
Qed.

(** ** Witnesses *)

Definition demo_report : Report :=
  {| r_frame := 1; r_ta := 20; r_sceneMin := 19; r_sceneMax := 30; r_bgMean := 20; r_flags := 1;
     r_detections := [{| d_x := 10; d_y := 12; d_area := 20; d_contrast := 5; d_peak := 8; d_heat := 40 |}] |}.
Definition demo_engine : Engine := new_engine demo_reg DEFAULT_OCCUPANCY.
Definition demo_frames (n : nat) : Engine :=
  fold_left (fun e i => fst (@ingest flat_trig demo_reg e "30:ed:a0:00:00:01" demo_report (250 * Z.of_nat i))) (List.seq 1 n) demo_engine.
Definition demo_seen : Engine := Eval vm_compute in demo_frames 5.

Lemma default_in_range : opts_in_range DEFAULT_OCCUPANCY.
Proof. unfold opts_in_range. cbn. split; [|lia]. repeat split; discriminate. Qed.

(** One taken seat out of three, after five frames. *)
Lemma table_known_or_open_witness : exists t, om_get "T1" (rg_tables demo_reg) = Some t /\
  let s := snd (tableState demo_seen t 1500) in
  tb_occupied s = Some 1 /\ tb_free s = Some 2 /\ table_shown 3 s /\
  Forall (fun x => exists k, om_get (sp_id x) (en_seats (fst (tableState demo_seen t 1500))) = Some k /\ 5 <= sk_framesSeen k) (td_seats t).
Proof.
  destruct (om_get "T1" (rg_tables demo_reg)) as [t|] eqn:E; [|vm_compute in E; discriminate]. exists t. split; [reflexivity|]. cbv zeta.
  assert (tb_occupied (snd (tableState demo_seen t 1500)) = Some 1 /\ tb_free (snd (tableState demo_seen t 1500)) = Some 2 /\
    Z.of_nat (length (td_seats t)) = td_capacity t /\ td_capacity t = 3 /\ tb_status (snd (tableState demo_seen t 1500)) <> CovUnknown)
    as (Ho & Hf & Hc & H3 & Hs) by (vm_compute in E; injection E as <-; repeat split; vm_compute; discriminate).
  destruct (table_known_or_open demo_seen t 1500 Hc ltac:(vm_compute; discriminate)) as [Hshown Hknown]. rewrite H3 in Hshown.
  split; [exact Ho|]. split; [exact Hf|]. split; [exact Hshown|]. exact (proj2 (proj1 Hknown Hs)).
Defined.

Lemma authority_is_owner_or_fallback_witness : exists t, om_get "T1" (rg_tables demo_reg) = Some t /\
  authorityFor demo_seen t (Some 1500) = Some "30:ed:a0:00:00:01" /\
  @covers flat_trig (rg_nodes demo_reg) "30:ed:a0:00:00:01" t /\
  (authorityFor demo_seen t (Some 60000) = None <->
   forall u, @covers flat_trig (rg_nodes demo_reg) u t -> isHealthy demo_seen u (Some 60000) = false).
Proof.
  destruct (om_get "T1" (rg_tables demo_reg)) as [t|] eqn:E; [|vm_compute in E; discriminate]. exists t. split; [reflexivity|].
  assert (authorityFor demo_seen t (Some 1500) = Some "30:ed:a0:00:00:01") as Ha by (vm_compute in E; injection E as <-; vm_compute; reflexivity).
  split; [exact Ha|]. split.
  - exact (proj1 (proj1 (@authority_is_owner_or_fallback flat_trig demo_site_json demo_nodes_json demo_reg demo_seen "T1" t (Some 1500) demo_reg_ok E) _ Ha)).
  - exact (proj2 (proj2 (@authority_is_owner_or_fallback flat_trig demo_site_json demo_nodes_json demo_reg demo_seen "T1" t (Some 60000) demo_reg_ok E))).
Defined.

Lemma snapshot_adds_up_witness :
  map (fun f => fl_totals f) (snd (snapshot demo_reg demo_seen 1500)) =
    [{| tt_seats := 3; tt_free := 2; tt_occupied := 1; tt_unknownSeats := 0; tt_tablesFullyFree := 0 |};
     {| tt_seats := 0; tt_free := 0; tt_occupied := 0; tt_unknownSeats := 0; tt_tablesFullyFree := 0 |}] /\
  Forall floor_adds_up (snd (snapshot demo_reg demo_seen 1500)).
Proof.
  split; [vm_compute; reflexivity|].
  exact (proj2 (@snapshot_adds_up flat_trig demo_site_json demo_nodes_json demo_reg demo_seen 1500 demo_reg_ok)).
Defined.

Lemma seat_taken_and_held_witness :
  let frames := [(true, 0); (false, 250); (true, 500); (true, 750)] in
  sk_occupied (watch DEFAULT_OCCUPANCY empty_track frames) = true /\
  sk_occupied (watch DEFAULT_OCCUPANCY (watch DEFAULT_OCCUPANCY empty_track frames) [(false, 10000); (false, 20000)]) = true.
Proof.
  assert (opts_ok DEFAULT_OCCUPANCY) as Hok by (split; [discriminate|cbn; lia]).
  destruct (seat_taken_and_held DEFAULT_OCCUPANCY [(true, 0); (false, 250); (true, 500); (true, 750)] Hok) as (_ & Htake & Hhold & _).
  assert (sk_occupied (watch DEFAULT_OCCUPANCY empty_track [(true, 0); (false, 250); (true, 500); (true, 750)]) = true) as Hk.
  { apply (Htake [(true, 0); (false, 250); (true, 500)] 750); [reflexivity|vm_compute; discriminate]. }
  split; [exact Hk|]. apply (Hhold Hk). repeat constructor; vm_compute; discriminate.
Defined.

Lemma engine_stays_bounded_witness : engine_ok (fst (@ingest flat_trig demo_reg demo_engine "30:ed:a0:00:00:01" demo_report 250)).
Proof.
  apply (@engine_stays_bounded flat_trig demo_reg DEFAULT_OCCUPANCY); [exact default_in_range|].
  apply rtc_once. exact (step_ingest demo_reg demo_engine "30:ed:a0:00:00:01" demo_report 250).
Defined.
