(* ===== verification/Graph.v ===== *)
(** The pipelines of the debugger (src/algo/graph.ts, nodes.ts, types.ts): the
    catalogue of stages with their typed ports and parameter ranges, the rules
    a pipeline sent by the editor must meet, the order of its stages and the
    stages one of them depends on. A pipeline arrives as JSON of any shape, so
    [validate] is a function on [json]. The prose of the catalogue ([summary],
    [help]) is left out. *)

From S2P Require Import Prelude Json.

(** ** Data *)

(** @algo/types.ts 14-22 PortType *)
Inductive PortType := Thermal | Mask | Detections | Points | HeatMap | Tables | Occupied | AnyJson.
#[export] Instance port_type_eq_dec : EqDecision PortType.
Proof. solve_decision. Defined.

(** @algo/types.ts 24-30 NodeDomain *)
Inductive NodeDomain := OnDevice | OnEdge | OnView.
(** @algo/types.ts 32-32 NodeCategory *)
Inductive NodeCategory := CatInput | CatFilter | CatDetection | CatTracking | CatMl | CatVisualization | CatUtility.
(** @algo/types.ts 35-38 ParamBinding *)
Inductive ParamBinding := Device (name : string) | Edge (path : string) | Local.

(** @algo/types.ts 40-52 ParamSpec *)
Record ParamSpec := {
  pa_id : string; pa_label : string; pa_min : Q; pa_max : Q; pa_step : Q; pa_unit : option string; pa_scale : option Q; pa_binding : ParamBinding }.
(** @algo/types.ts 54-58 PortSpec *)
Record PortSpec := { po_id : string; po_label : string; po_type : PortType }.
(** @algo/types.ts 60-71 NodeSpec *)
Record NodeSpec := {
  ns_type : string; ns_name : string; ns_version : string; ns_category : NodeCategory; ns_domain : NodeDomain;
  ns_inputs : list PortSpec; ns_outputs : list PortSpec; ns_params : list ParamSpec }.

(** The values of the parameters are still of unknown type.
    @algo/types.ts 73-81 GraphNode *)
Record GraphNode := {
  gn_id : string; gn_type : string; gn_name : string; gn_enabled : bool; gn_x : Q; gn_y : Q; gn_params : list (string * json) }.
(** @algo/types.ts 83-89 GraphEdge *)
Record GraphEdge := { ge_id : string; sourceNode : string; sourcePort : string; targetNode : string; targetPort : string }.
(** @algo/types.ts 91-100 Pipeline *)
Record Pipeline := { pl_id : string; pl_name : string; pl_uid : string; pl_nodes : list GraphNode; pl_edges : list GraphEdge; pl_updatedAt : Q }.

Definition port (id label : string) (t : PortType) : PortSpec := {| po_id := id; po_label := label; po_type := t |}.
Definition param (id label : string) (lo hi step : Q) (unit : option string) (scale : option Q) (b : ParamBinding) : ParamSpec :=
  {| pa_id := id; pa_label := label; pa_min := lo; pa_max := hi; pa_step := step; pa_unit := unit; pa_scale := scale; pa_binding := b |}.

(** ** The catalogue *)

(** @algo/nodes.ts 19-38 NODE_SPECS *)
Definition spec_thermal_input : NodeSpec :=
  {| ns_type := "thermal_input"; ns_name := "Thermal Camera"; ns_version := "1"; ns_category := CatInput; ns_domain := OnDevice;
     ns_inputs := [];
     ns_outputs := [port "frame" "frame" Thermal];
     ns_params := [param "refresh" "Sensor refresh" (1 # 1) (5 # 1) (1 # 1) None None (Device "refresh");
                  param "raw_every" "Send RAW every N frames" (0 # 1) (255 # 1) (1 # 1) None None (Device "raw_every")] |}.
(** @algo/nodes.ts 39-71 NODE_SPECS *)
Definition spec_background_subtraction : NodeSpec :=
  {| ns_type := "background_subtraction"; ns_name := "Background Subtraction"; ns_version := "1"; ns_category := CatFilter; ns_domain := OnDevice;
     ns_inputs := [port "frame" "frame" Thermal];
     ns_outputs := [port "background" "background" Thermal; port "diff" "difference" Thermal; port "foreground" "foreground" Mask];
     ns_params := [param "min_contrast" "Min contrast" (10 # 1) (400 # 1) (5 # 1) (Some "C") (Some (1 # 100)) (Device "min_contrast");
                  param "noise_k" "Noise k" (10 # 1) (150 # 1) (1 # 1) None (Some (1 # 10)) (Device "noise_k");
                  param "bg_tau" "Background tau" (5 # 1) (1000 # 1) (5 # 1) (Some "frames") None (Device "bg_tau");
                  param "bg_frames" "Learn before detecting" (3 # 1) (200 # 1) (1 # 1) (Some "frames") None (Device "bg_frames")] |}.
(** @algo/nodes.ts 72-94 NODE_SPECS *)
Definition spec_human_detection : NodeSpec :=
  {| ns_type := "human_detection"; ns_name := "Human Detection"; ns_version := "1"; ns_category := CatDetection; ns_domain := OnDevice;
     ns_inputs := [port "foreground" "foreground" Mask];
     ns_outputs := [port "detections" "detections" Detections];
     ns_params := [param "min_area" "Min blob area" (1 # 1) (100 # 1) (1 # 1) (Some "px") None (Device "min_area");
                  param "max_area" "Max blob area" (2 # 1) (768 # 1) (1 # 1) (Some "px") None (Device "max_area");
                  param "min_peak" "Min peak contrast" (10 # 1) (600 # 1) (5 # 1) (Some "C") (Some (1 # 100)) (Device "min_peak");
                  param "split_sep" "Peak separation" (5 # 1) (100 # 1) (1 # 1) (Some "px") (Some (1 # 10)) (Device "split_sep")] |}.
(** @algo/nodes.ts 95-105 NODE_SPECS *)
Definition spec_projection : NodeSpec :=
  {| ns_type := "projection"; ns_name := "Human Location"; ns_version := "1"; ns_category := CatFilter; ns_domain := OnEdge;
     ns_inputs := [port "detections" "detections" Detections];
     ns_outputs := [port "points" "people" Points];
     ns_params := [] |}.
(** @algo/nodes.ts 106-124 NODE_SPECS *)
Definition spec_human_location_ml : NodeSpec :=
  {| ns_type := "human_location_ml"; ns_name := "Human Location ML"; ns_version := "0.1"; ns_category := CatMl; ns_domain := OnEdge;
     ns_inputs := [port "frame" "frame" Thermal];
     ns_outputs := [port "points" "people" Points];
     ns_params := [param "threshold" "Probability threshold" (5 # 100) (95 # 100) (5 # 100) None None Local;
                  param "minArea" "Min blob area" (1 # 1) (40 # 1) (1 # 1) (Some "px") None Local] |}.
(** @algo/nodes.ts 125-135 NODE_SPECS *)
Definition spec_heatmap : NodeSpec :=
  {| ns_type := "heatmap"; ns_name := "Historical Heat Map"; ns_version := "1"; ns_category := CatMl; ns_domain := OnEdge;
     ns_inputs := [port "points" "people" Points];
     ns_outputs := [port "heat" "dwell" HeatMap];
     ns_params := [] |}.
(** @algo/nodes.ts 136-155 NODE_SPECS *)
Definition spec_desk_estimator : NodeSpec :=
  {| ns_type := "desk_estimator"; ns_name := "Desk Location Estimator"; ns_version := "0.1"; ns_category := CatMl; ns_domain := OnEdge;
     ns_inputs := [port "heat" "dwell" HeatMap];
     ns_outputs := [port "tables" "candidates" Tables];
     ns_params := [param "clusterRadiusCm" "Cluster radius" (20 # 1) (200 # 1) (5 # 1) (Some "cm") None Local;
                  param "minDwellSeconds" "Min dwell" (10 # 1) (3600 # 1) (10 # 1) (Some "person-s") None Local;
                  param "seatToDeskCm" "Seat setback" (10 # 1) (150 # 1) (5 # 1) (Some "cm") None Local;
                  param "deskSpacingCm" "Table span" (60 # 1) (400 # 1) (10 # 1) (Some "cm") None Local;
                  param "minConfidence" "Min confidence" (0 # 1) (1 # 1) (5 # 100) None None Local] |}.
(** @algo/nodes.ts 156-196 NODE_SPECS *)
Definition spec_occupancy : NodeSpec :=
  {| ns_type := "occupancy"; ns_name := "Occupancy Classifier"; ns_version := "1"; ns_category := CatDetection; ns_domain := OnEdge;
     ns_inputs := [port "points" "people" Points; port "tables" "tables" Tables];
     ns_outputs := [port "occupancy" "occupancy" Occupied];
     ns_params := [param "seatRadiusCm" "Seat radius" (20 # 1) (300 # 1) (5 # 1) (Some "cm") None (Edge "occupancy.seatRadiusCm");
                  param "mergeCm" "Merge distance" (0 # 1) (200 # 1) (5 # 1) (Some "cm") None (Edge "occupancy.mergeCm");
                  param "enterWindow" "Enter window" (1 # 1) (60 # 1) (1 # 1) (Some "frames") None (Edge "occupancy.enterWindow");
                  param "enterMin" "Frames to seat" (1 # 1) (60 # 1) (1 # 1) (Some "frames") None (Edge "occupancy.enterMin");
                  param "releaseMs" "Seat release" (2000 # 1) (300000 # 1) (1000 # 1) (Some "ms") None (Edge "occupancy.releaseMs");
                  param "staleMs" "Node stale after" (2000 # 1) (120000 # 1) (1000 # 1) (Some "ms") None (Edge "occupancy.staleMs")] |}.
(** @algo/nodes.ts 197-211 NODE_SPECS *)
Definition spec_final_map : NodeSpec :=
  {| ns_type := "final_map"; ns_name := "Final Map"; ns_version := "1"; ns_category := CatVisualization; ns_domain := OnView;
     ns_inputs := [port "points" "people" Points; port "tables" "tables" Tables; port "occupancy" "occupancy" Occupied];
     ns_outputs := [];
     ns_params := [] |}.
(** @algo/nodes.ts 212-222 NODE_SPECS *)
Definition spec_frame_stats : NodeSpec :=
  {| ns_type := "frame_stats"; ns_name := "Frame Statistics"; ns_version := "1"; ns_category := CatUtility; ns_domain := OnView;
     ns_inputs := [port "frame" "frame" Thermal];
     ns_outputs := [];
     ns_params := [] |}.

(** @algo/nodes.ts 18-18 NODE_SPECS *)
Definition NODE_SPECS : list NodeSpec :=
  [spec_thermal_input; spec_background_subtraction; spec_human_detection; spec_projection; spec_human_location_ml; spec_heatmap; spec_desk_estimator; spec_occupancy; spec_final_map; spec_frame_stats].

(** @algo/nodes.ts 225-227 specOf *)
Definition specOf (type : string) : option NodeSpec := List.find (fun s => bool_decide (ns_type s = type)) NODE_SPECS.

(** @algo/desk.ts 33-39 DEFAULT_DESK *)
Definition DEFAULT_DESK : list (string * json) :=
  [("clusterRadiusCm", JInt 60); ("minDwellSeconds", JInt 120); ("seatToDeskCm", JInt 55); ("deskSpacingCm", JInt 140);
   ("minConfidence", JNum (35 # 100))].

(** @algo/nodes.ts 265-267 e *)
Definition e (sn sp tn tp : string) : GraphEdge :=
  {| ge_id := sn +:+ "." +:+ sp +:+ "->" +:+ tn +:+ "." +:+ tp; sourceNode := sn; sourcePort := sp; targetNode := tn; targetPort := tp |}.

Definition stage (id type name : string) (x y : Z) (params : list (string * json)) : GraphNode :=
  {| gn_id := id; gn_type := type; gn_name := name; gn_enabled := true; gn_x := x # 1; gn_y := y # 1; gn_params := params |}.

(** @algo/nodes.ts 230-263 defaultPipeline *)
Definition defaultPipeline (uid : string) (now : Z) : Pipeline :=
  {| pl_id := "default"; pl_name := "Production path"; pl_uid := uid; pl_updatedAt := now # 1;
     pl_nodes :=
       [stage "thermal-1" "thermal_input" "Thermal Camera" 0 160 []; stage "bg-1" "background_subtraction" "Background Subtraction" 260 160 [];
        stage "stats-1" "frame_stats" "Frame Statistics" 260 380 []; stage "human-1" "human_detection" "Human Detection" 520 160 [];
        stage "proj-1" "projection" "Human Location" 780 100 []; stage "heat-1" "heatmap" "Historical Heat Map" 780 300 [];
        stage "desk-1" "desk_estimator" "Desk Location Estimator" 1040 300 DEFAULT_DESK; stage "occ-1" "occupancy" "Occupancy Classifier" 1300 160 [];
        stage "map-1" "final_map" "Final Map" 1560 160 []];
     pl_edges :=
       [e "thermal-1" "frame" "bg-1" "frame"; e "thermal-1" "frame" "stats-1" "frame"; e "bg-1" "foreground" "human-1" "foreground";
        e "human-1" "detections" "proj-1" "detections"; e "proj-1" "points" "heat-1" "points"; e "proj-1" "points" "occ-1" "points";
        e "heat-1" "heat" "desk-1" "heat"; e "desk-1" "tables" "occ-1" "tables"; e "proj-1" "points" "map-1" "points";
        e "desk-1" "tables" "map-1" "tables"; e "occ-1" "occupancy" "map-1" "occupancy"] |}.

(** The JSON the editor sends for a pipeline. *)
Definition node_json (n : GraphNode) : json :=
  JObj [("id", JStr (gn_id n)); ("type", JStr (gn_type n)); ("name", JStr (gn_name n)); ("enabled", JBool (gn_enabled n));
        ("position", JObj [("x", JNum (gn_x n)); ("y", JNum (gn_y n))]); ("params", JObj (gn_params n))].
Definition edge_json (x : GraphEdge) : json :=
  JObj [("id", JStr (ge_id x)); ("sourceNode", JStr (sourceNode x)); ("sourcePort", JStr (sourcePort x));
        ("targetNode", JStr (targetNode x)); ("targetPort", JStr (targetPort x))].
Definition pipeline_json (p : Pipeline) : json :=
  JObj [("version", JInt 1); ("id", JStr (pl_id p)); ("name", JStr (pl_name p)); ("uid", JStr (pl_uid p));
        ("nodes", JArr (map node_json (pl_nodes p))); ("edges", JArr (map edge_json (pl_edges p))); ("updatedAt", JNum (pl_updatedAt p))].

(** ** The order of the stages *)

(** A counter in a map, which counts [d] when it is absent. *)
Definition counter (d : Z) (k : string) (m : list (string * Z)) : Z := default d (om_get k m).
Definition successors (k : string) (m : list (string * list string)) : list string := default [] (om_get k m).

(** @algo/graph.ts 91-95 order *)
Definition count_edge (acc : list (string * Z) * list (string * list string)) (x : GraphEdge) : list (string * Z) * list (string * list string) :=
  let '(incoming, out) := acc in
  if negb (om_has (sourceNode x) incoming) || negb (om_has (targetNode x) incoming) then acc
  else (om_set (targetNode x) (counter 0 (targetNode x) incoming + 1) incoming,
        om_set (sourceNode x) (successors (sourceNode x) out ++ [targetNode x]) out).

(** @algo/graph.ts 102-106 order *)
Definition release (acc : list (string * Z) * list string) (next : string) : list (string * Z) * list string :=
  let '(incoming, ready) := acc in
  let left := counter 1 next incoming - 1 in
  (om_set next left incoming, if left =? 0 then ready ++ [next] else ready).

(** The [while] loop; [None] is out of fuel.
    @algo/graph.ts 98-107 order *)
Fixpoint order_loop (fuel : nat) (out : list (string * list string)) (incoming : list (string * Z)) (ready sorted : list string) : option (list string) :=
  match fuel with
  | O => None
  | S fuel =>
      match ready with
      | [] => Some sorted
      | id :: ready =>
          if bool_decide (id = EmptyString) then Some sorted
          else
            let '(incoming, ready) := fold_left release (successors id out) (incoming, ready) in
            order_loop fuel out incoming ready (sorted ++ [id])
      end
  end.

Definition zero_counts (nodes : list GraphNode) : list (string * Z) := fold_left (fun m n => om_set (gn_id n) 0 m) nodes [].
Definition initially_ready (incoming : list (string * Z)) : list string := map fst (List.filter (fun c => c.2 =? 0) incoming).

(** One turn of the loop per stage is enough, see [order_terminates].
    @algo/graph.ts 88-107 order *)
Definition order_run (p : Pipeline) : option (list string) :=
  let '(incoming, out) := fold_left count_edge (pl_edges p) (zero_counts (pl_nodes p), []) in
  order_loop (S (length (pl_nodes p))) out incoming (initially_ready incoming) [].
(** @algo/graph.ts 108-108 order *)
Definition order (p : Pipeline) : option (list string) :=
  match order_run p with
  | Some sorted => if Nat.eqb (length sorted) (length (pl_nodes p)) then Some sorted else None
  | None => None
  end.

(** ** The stages one depends on *)

(** @algo/graph.ts 117-122 upstreamOf *)
Definition grow (acc : list string * bool) (x : GraphEdge) : list string * bool :=
  let '(need, grew) := acc in
  if includes (targetNode x) need && negb (includes (sourceNode x) need) then (need ++ [sourceNode x], true) else acc.

(** @algo/graph.ts 114-123 upstreamOf *)
Fixpoint upstream_loop (fuel : nat) (edges : list GraphEdge) (need : list string) : option (list string) :=
  match fuel with
  | O => None
  | S fuel => match fold_left grow edges (need, false) with (need, grew) => if grew : bool then upstream_loop fuel edges need else Some need end
  end.

(** @algo/graph.ts 112-125 upstreamOf *)
Definition upstreamOf (p : Pipeline) (id : string) : option (list string) := upstream_loop (S (length (pl_edges p))) (pl_edges p) [id].

(** The stages a run works through, in this order.
    @algo/runtime.ts 132-133 run *)
Definition stages_run (p : Pipeline) (only : option string) : option (list GraphNode) :=
  match only with
  | None => Some (List.filter gn_enabled (pl_nodes p))
  | Some id =>
      match upstreamOf p id with
      | Some needed => Some (List.filter (fun n => gn_enabled n && includes (gn_id n) needed) (pl_nodes p))
      | None => None
      end
  end.

(** ** The rules *)

(** @algo/graph.ts 11-14 GraphProblem *)
Record GraphProblem := { where_ : string; message : string }.
Definition quoted (s : string) : string := String (Ascii.ascii_of_nat 34) (s +:+ String (Ascii.ascii_of_nat 34) EmptyString).
Definition problem (w m : string) : GraphProblem := {| where_ := w; message := m |}.

(** @algo/graph.ts 19-19 text *)
Definition text (v : option json) : option string :=
  match v with
  | Some (JStr s) => if (0 <? js_length s) && (js_length s <=? 160) then Some s else None
  | _ => None
  end.
Definition number (v : option json) : option Q := match v with Some (JNum q) => Some q | _ => None end.

(** @algo/graph.ts 20-24 validate *)
Definition read_shape (v : json) : option (string * string * string * Q * list json * list json) :=
  f ← as_object v;
  match field "version" f with
  | Some (JNum q) =>
      if negb (Qeqb q 1) then None
      else
        id ← text (field "id" f); name ← text (field "name" f);
        uid ← field "uid" f ≫= as_string;
        (if negb (bool_decide (uid = EmptyString)) && negb (is_uid uid) then None
         else
           at_ ← number (field "updatedAt" f);
           nodes ← field "nodes" f ≫= as_array; edges ← field "edges" f ≫= as_array;
           if Nat.ltb 128 (length nodes) || (512 <? Z.of_nat (length edges)) then None
           else Some (id, name, uid, at_, nodes, edges))
  | _ => None
  end.

(** @algo/graph.ts 28-31 validate *)
Definition read_node (v : json) : option GraphNode :=
  f ← as_object v;
  id ← text (field "id" f); type ← text (field "type" f); name ← text (field "name" f);
  enabled ← field "enabled" f ≫= as_bool;
  position ← field "position" f ≫= as_object;
  x ← number (field "x" position); y ← number (field "y" position);
  params ← field "params" f ≫= as_object;
  Some {| gn_id := id; gn_type := type; gn_name := name; gn_enabled := enabled; gn_x := x; gn_y := y; gn_params := params |}.

(** @algo/graph.ts 36-37 validate *)
Definition param_ok (spec : option NodeSpec) (p : string * json) : bool :=
  match List.find (fun s => bool_decide (pa_id s = p.1)) (from_option ns_params [] spec) with
  | None => false
  | Some s => match p.2 with JNum q => negb (Qltb q (pa_min s) || Qltb (pa_max s) q) | _ => false end
  end.

(** @algo/graph.ts 32-40 validate *)
Definition node_problems (n : GraphNode) (seen : list string) : list GraphProblem :=
  (if includes (gn_id n) seen then [problem (gn_id n) "duplicate node id"] else []) ++
  map (fun p => problem (gn_id n) ("invalid parameter " +:+ p.1)) (List.filter (fun p => negb (param_ok (specOf (gn_type n)) p)) (gn_params n)).

(** @algo/graph.ts 26-41 validate *)
Fixpoint read_nodes (l : list json) (seen : list string) : option (list GraphNode * list GraphProblem) :=
  match l with
  | [] => Some ([], [])
  | v :: l =>
      n ← read_node v;
      '(ns, ps) ← read_nodes l (gn_id n :: seen);
      Some (n :: ns, node_problems n seen ++ ps)
  end.

(** @algo/graph.ts 44-46 validate *)
Definition read_edge (v : json) : option GraphEdge :=
  f ← as_object v;
  id ← text (field "id" f); sn ← text (field "sourceNode" f); sp ← text (field "sourcePort" f);
  tn ← text (field "targetNode" f); tp ← text (field "targetPort" f);
  Some {| ge_id := id; sourceNode := sn; sourcePort := sp; targetNode := tn; targetPort := tp |}.

(** @algo/graph.ts 42-49 validate *)
Fixpoint read_edges (l : list json) (seen : list string) : option (list GraphEdge * list GraphProblem) :=
  match l with
  | [] => Some ([], [])
  | v :: l =>
      x ← read_edge v;
      '(es, ps) ← read_edges l (ge_id x :: seen);
      Some (x :: es, (if includes (ge_id x) seen then [problem (ge_id x) "duplicate edge id"] else []) ++ ps)
  end.

Definition by_id (nodes : list GraphNode) : list (string * GraphNode) := fold_left (fun m n => om_set (gn_id n) n m) nodes [].

Definition port_name (t : PortType) : string :=
  match t with
  | Thermal => "thermal" | Mask => "mask" | Detections => "detections" | Points => "points" | HeatMap => "heatmap"
  | Tables => "tables" | Occupied => "occupancy" | AnyJson => "json"
  end.

Definition output_port (n : GraphNode) (id : string) : option PortSpec :=
  List.find (fun o => bool_decide (po_id o = id)) (from_option ns_outputs [] (specOf (gn_type n))).
Definition input_port (n : GraphNode) (id : string) : option PortSpec :=
  List.find (fun o => bool_decide (po_id o = id)) (from_option ns_inputs [] (specOf (gn_type n))).

(** @algo/graph.ts 57-72 validate *)
Definition edge_problem (ids : list (string * GraphNode)) (x : GraphEdge) : option GraphProblem :=
  match om_get (sourceNode x) ids, om_get (targetNode x) ids with
  | None, _ => Some (problem (ge_id x) ("no such node " +:+ sourceNode x))
  | _, None => Some (problem (ge_id x) ("no such node " +:+ targetNode x))
  | Some s, Some t =>
      match output_port s (sourcePort x), input_port t (targetPort x) with
      | None, _ => Some (problem (ge_id x) (gn_type s +:+ " has no output " +:+ quoted (sourcePort x)))
      | _, None => Some (problem (ge_id x) (gn_type t +:+ " has no input " +:+ quoted (targetPort x)))
      | Some out, Some inp =>
          if bool_decide (po_type out = po_type inp) then None
          else Some (problem (ge_id x) ("cannot connect " +:+ port_name (po_type out) +:+ " to " +:+ port_name (po_type inp) +:+ ": " +:+
                 gn_name s +:+ "." +:+ po_id out +:+ " outputs " +:+ port_name (po_type out) +:+ ", " +:+
                 gn_name t +:+ "." +:+ po_id inp +:+ " expects " +:+ port_name (po_type inp)))
      end
  end.

(** @algo/graph.ts 78-78 validate *)
Definition input_key (x : GraphEdge) : string := targetNode x +:+ "." +:+ targetPort x.

(** @algo/graph.ts 76-81 validate *)
Fixpoint double_inputs (edges : list GraphEdge) (seen : list string) : list GraphProblem :=
  match edges with
  | [] => []
  | x :: edges =>
      (if includes (input_key x) seen then [problem (ge_id x) (input_key x +:+ " already has a source")] else []) ++
      double_inputs edges (input_key x :: seen)
  end.

(** @algo/graph.ts 50-84 validate *)
Definition graph_problems (p : Pipeline) : list GraphProblem :=
  map (fun n => problem (gn_id n) ("unknown node type " +:+ quoted (gn_type n))) (List.filter (fun n => negb (bool_decide (is_Some (specOf (gn_type n))))) (pl_nodes p)) ++
  omap (edge_problem (by_id (pl_nodes p))) (pl_edges p) ++
  double_inputs (pl_edges p) [] ++
  (if bool_decide (order p = None) then [problem "graph" "the graph has a cycle"] else []).

(** The pipeline a JSON value is read as, with the problems found while reading.
    @algo/graph.ts 16-49 validate *)
Definition read_pipeline (v : json) : GraphProblem + Pipeline * list GraphProblem :=
  match read_shape v with
  | None => inl (problem "graph" "invalid pipeline shape or size")
  | Some (id, name, uid, at_, nodes, edges) =>
      match read_nodes nodes [] with
      | None => inl (problem "graph" "invalid node shape")
      | Some (ns, ps) =>
          match read_edges edges [] with
          | None => inl (problem "graph" "invalid edge shape")
          | Some (es, ps') =>
              inr ({| pl_id := id; pl_name := name; pl_uid := uid; pl_nodes := ns; pl_edges := es; pl_updatedAt := at_ |}, ps ++ ps')
          end
      end
  end.

(** @algo/graph.ts 16-85 validate *)
Definition validate (v : json) : list GraphProblem :=
  match read_pipeline v with
  | inl x => [x]
  | inr (p, ps) => ps ++ graph_problems p
  end.

Example default_is_valid : validate (pipeline_json (defaultPipeline "aa:bb:cc:dd:ee:01" 5)) = [].
Proof. vm_compute. reflexivity. Qed.
Example default_order : order (defaultPipeline "aa:bb:cc:dd:ee:01" 5) =
  Some ["thermal-1"; "bg-1"; "stats-1"; "human-1"; "proj-1"; "heat-1"; "desk-1"; "occ-1"; "map-1"].
Proof. vm_compute. reflexivity. Qed.

(** ** The order is topological, and there is one unless there is a cycle *)

Definition cnt (n : string) (l : list string) : nat := length (List.filter (fun m => bool_decide (m = n)) l).

Lemma cnt_cons n m l : cnt n (m :: l) = ((if bool_decide (m = n) then 1 else 0) + cnt n l)%nat.
Proof. unfold cnt. cbn. by case_bool_decide. Qed.

Lemma cnt_zero n l : cnt n l = O <-> n ∉ l.
Proof.
  induction l as [|m l IH]; [split; [intros _; apply not_elem_of_nil|done]|]. rewrite cnt_cons, not_elem_of_cons, <- IH. case_bool_decide; split; intros; [lia|naive_solver|naive_solver lia|naive_solver].
Qed.

Lemma cnt_pos n l : n ∈ l -> (0 < cnt n l)%nat.
Proof. intros H. destruct (cnt n l) eqn:E; [|lia]. by apply cnt_zero in E. Qed.

Lemma om_keys_set_known {V} (k : string) (v : V) m : k ∈ om_keys m -> om_keys (om_set k v m) = om_keys m.
Proof. intros H%om_has_keys. by rewrite om_keys_set, H. Qed.

Lemma om_get_known {V} (k : string) (m : list (string * V)) : k ∈ om_keys m -> exists v, om_get k m = Some v.
Proof. rewrite <- om_has_keys. unfold om_has. destruct (om_get k m); [by eexists|done]. Qed.

(** What the inner loop does to the counters and the queue. *)
Lemma release_fold l : forall inc ready, (forall n, n ∈ l -> exists v, om_get n inc = Some v /\ Z.of_nat (cnt n l) <= v) ->
  exists inc' extra, fold_left release l (inc, ready) = (inc', ready ++ extra) /\ om_keys inc' = om_keys inc /\
    (forall n v, om_get n inc = Some v -> om_get n inc' = Some (v - Z.of_nat (cnt n l))) /\
    NoDup extra /\ (forall n, n ∈ extra <-> n ∈ l /\ om_get n inc = Some (Z.of_nat (cnt n l))).
Proof.
  induction l as [|m l IH]; intros inc ready H.
  - exists inc, []. rewrite app_nil_r. split_and!; try done; [intros n v ->; cbn; f_equal; lia|constructor|set_solver].
  - destruct (H m) as (v & Hv & Hle); [by left|]. rewrite cnt_cons, bool_decide_eq_true_2 in Hle by done.
    cbn [fold_left release]. unfold counter at 1 2. rewrite Hv. cbn [default from_option id].
    assert (m ∈ om_keys inc) as Hk by (by eapply om_get_Some_keys).
    destruct (IH (om_set m (v - 1) inc) (if v - 1 =? 0 then ready ++ [m] else ready)) as (inc' & extra & E & Ek & Eg & Hnd & Hex).
    { intros n Hn. rewrite om_get_set. case_bool_decide; [subst; exists (v - 1); split; [done|lia]|].
      destruct (H n) as (w & Hw & Hwle); [by right|]. exists w. split; [done|]. rewrite cnt_cons in Hwle. lia. }
    exists inc', (if v - 1 =? 0 then m :: extra else extra). rewrite om_keys_set_known in Ek by done. split_and!; [|done| | |].
    + rewrite E. destruct (v - 1 =? 0); [by rewrite <- app_assoc|done].
    + intros n w Hn. rewrite cnt_cons. case_bool_decide; [subst; rewrite Hv in Hn; injection Hn as <-; rewrite (Eg n (v - 1)) by (by rewrite om_get_set_eq); f_equal; lia|].
      rewrite (Eg n w) by (by rewrite om_get_set_ne). f_equal.
    + destruct (Z.eqb_spec (v - 1) 0); [|done]. constructor; [|done]. rewrite Hex. intros [Hin _]. apply cnt_pos in Hin. lia.
    + intros n. transitivity ((n = m /\ v = 1) \/ n ∈ extra).
      { destruct (Z.eqb_spec (v - 1) 0); rewrite ?elem_of_cons; intuition lia. }
      rewrite Hex, elem_of_cons, cnt_cons, om_get_set. destruct (decide (n = m)) as [->|Hne].
      * rewrite !bool_decide_eq_true_2 by done. rewrite Hv. split.
        -- intros [[_ ->]|[Hin [= He]]]; [split; [by left|]; f_equal; lia|]. split; [by left|]. f_equal. lia.
        -- intros [_ [= He]]. destruct (cnt m l) eqn:Ec; [left; split; [done|lia]|]. right. split; [|f_equal; lia].
           destruct (decide (m ∈ l)) as [|Hni]; [done|]. apply cnt_zero in Hni. lia.
      * rewrite !bool_decide_eq_false_2 by done. cbn [Nat.add]. intuition.
Qed.

(** The edges whose two ends exist. *)
Definition live_edges (ids : list string) (edges : list GraphEdge) : list GraphEdge :=
  List.filter (fun x => includes (sourceNode x) ids && includes (targetNode x) ids) edges.

Definition into (n : string) (edges : list GraphEdge) : list string := map sourceNode (List.filter (fun x => bool_decide (targetNode x = n)) edges).
Definition targets_of (s : string) (edges : list GraphEdge) : list string := map targetNode (List.filter (fun x => bool_decide (sourceNode x = s)) edges).

(** Edges into [n] whose source is not done. *)
Definition indeg (edges : list GraphEdge) (n : string) (done_ : list string) : nat :=
  length (List.filter (fun s => negb (includes s done_)) (into n edges)).

Lemma elem_of_into a n edges : a ∈ into n edges <-> exists x, x ∈ edges /\ sourceNode x = a /\ targetNode x = n.
Proof.
  unfold into. rewrite list_elem_of_In, in_map_iff. setoid_rewrite filter_In. setoid_rewrite bool_decide_eq_true. setoid_rewrite <- list_elem_of_In. naive_solver.
Qed.

Lemma elem_of_targets t s edges : t ∈ targets_of s edges <-> exists x, x ∈ edges /\ sourceNode x = s /\ targetNode x = t.
Proof.
  unfold targets_of. rewrite list_elem_of_In, in_map_iff. setoid_rewrite filter_In. setoid_rewrite bool_decide_eq_true. setoid_rewrite <- list_elem_of_In. naive_solver.
Qed.

Lemma indeg_zero edges n done_ : indeg edges n done_ = O <-> (forall a, a ∈ into n edges -> a ∈ done_).
Proof.
  unfold indeg. induction (into n edges) as [|s l IH]; cbn [List.filter length]; [split; [set_solver|done]|].
  destruct (includes s done_) eqn:Es; cbn [negb length].
  - apply includes_true in Es. rewrite IH. set_solver.
  - apply includes_false in Es. split; [lia|]. intros H. destruct Es. apply H. by left.
Qed.

Lemma indeg_snoc edges n done_ s : s ∉ done_ -> (indeg edges n (done_ ++ [s]) + cnt n (targets_of s edges))%nat = indeg edges n done_.
Proof.
  intros Hs. unfold indeg, into, targets_of, cnt. induction edges as [|x edges IH]; [done|]. cbn [List.filter map].
  assert (includes (sourceNode x) (done_ ++ [s]) = includes (sourceNode x) done_ || bool_decide (sourceNode x = s)) as Ei.
  { destruct (includes (sourceNode x) done_) eqn:E1; cbn [orb]; [apply includes_true; apply includes_true in E1; set_solver|].
    apply includes_false in E1. case_bool_decide; [apply includes_true|apply includes_false]; set_solver. }
  destruct (decide (targetNode x = n)) as [Et|Et], (decide (sourceNode x = s)) as [Es|Es];
    repeat first [rewrite (bool_decide_eq_true_2 _ Et)|rewrite (bool_decide_eq_false_2 _ Et)|rewrite (bool_decide_eq_true_2 _ Es)|rewrite (bool_decide_eq_false_2 _ Es)];
    cbn [List.filter map]; rewrite ?Ei; repeat first [rewrite (bool_decide_eq_true_2 _ Et)|rewrite (bool_decide_eq_false_2 _ Et)|rewrite (bool_decide_eq_true_2 _ Es)|rewrite (bool_decide_eq_false_2 _ Es)];
    rewrite ?orb_true_r, ?orb_false_r; cbn [negb length]; try (exact IH).
  - assert (includes (sourceNode x) done_ = false) as -> by (apply includes_false; by rewrite Es). cbn [negb length]. lia.
  - destruct (includes (sourceNode x) done_); cbn [negb length]; lia.
Qed.

Lemma count_fold ids edges : forall inc out, om_keys inc = ids ->
  exists inc' out', fold_left count_edge edges (inc, out) = (inc', out') /\ om_keys inc' = ids /\
    (forall n v, om_get n inc = Some v -> om_get n inc' = Some (v + Z.of_nat (length (into n (live_edges ids edges))))) /\
    (forall s, successors s out' = successors s out ++ targets_of s (live_edges ids edges)).
Proof.
  induction edges as [|x edges IH]; intros inc out Hk.
  - exists inc, out. split_and!; try done; [intros n v ->; cbn; f_equal; lia|intros s; cbn; by rewrite app_nil_r].
  - cbn [fold_left count_edge live_edges List.filter].
    assert (forall k, om_has k inc = includes k ids) as Hh.
    { intros k. destruct (om_has k inc) eqn:E1; symmetry; [apply includes_true; by rewrite <- Hk, <- om_has_keys|].
      apply includes_false. rewrite <- Hk, <- om_has_keys. congruence. }
    rewrite !Hh. destruct (includes (sourceNode x) ids) eqn:Es; cbn [negb orb andb]; [|by apply IH].
    destruct (includes (targetNode x) ids) eqn:Et; cbn [negb]; [|by apply IH].
    assert (targetNode x ∈ om_keys inc) as Hin by (rewrite Hk; by apply includes_true).
    destruct (om_get_known _ _ Hin) as [v0 Hv0].
    destruct (IH (om_set (targetNode x) (counter 0 (targetNode x) inc + 1) inc) (om_set (sourceNode x) (successors (sourceNode x) out ++ [targetNode x]) out)) as (inc' & out' & E & Ek & Eg & Eo);
      [by rewrite om_keys_set_known|].
    exists inc', out'. split_and!; [exact E|done| |].
    + intros n v Hn. unfold counter in Eg. rewrite Hv0 in Eg. cbn in Eg. unfold into, live_edges. cbn [List.filter map].
      destruct (decide (targetNode x = n)) as [<-|Hne].
      * rewrite bool_decide_eq_true_2 by done. cbn [map length]. rewrite Hv0 in Hn. injection Hn as <-.
        rewrite (Eg (targetNode x) (v0 + 1)) by (by rewrite om_get_set_eq). f_equal. unfold into, live_edges. lia.
      * rewrite bool_decide_eq_false_2 by done. apply Eg. by rewrite om_get_set_ne by congruence.
    + intros s. rewrite Eo. unfold targets_of, live_edges, successors. cbn [List.filter map]. destruct (decide (sourceNode x = s)) as [<-|Hne].
      * rewrite bool_decide_eq_true_2 by done. rewrite om_get_set_eq. cbn. by rewrite <- app_assoc.
      * rewrite bool_decide_eq_false_2 by done. by rewrite om_get_set_ne by congruence.
Qed.

(** [a] stands before every [b] it feeds. *)
Definition feeds_ok (edges : list GraphEdge) (l : list string) : Prop :=
  forall l1 b l2, l = l1 ++ b :: l2 -> forall a, a ∈ into b edges -> a ∈ l1.

Record loop_ok (ids : list string) (edges : list GraphEdge) (inc : list (string * Z)) (ready sorted : list string) : Prop := {
  lo_nodup : NoDup (sorted ++ ready);
  lo_known : forall n, n ∈ sorted ++ ready -> n ∈ ids;
  lo_keys : om_keys inc = ids;
  lo_count : forall n, n ∈ ids -> om_get n inc = Some (Z.of_nat (indeg edges n sorted));
  lo_zero : forall n, n ∈ ids -> (n ∈ sorted ++ ready <-> indeg edges n sorted = O);
  lo_feeds : feeds_ok edges sorted }.

Lemma feeds_snoc edges l b : feeds_ok edges l -> (forall a, a ∈ into b edges -> a ∈ l) -> feeds_ok edges (l ++ [b]).
Proof.
  intros H Hb l1 c l2 E a Ha. destruct l2 as [|d l2 _] using rev_ind.
  - apply app_inj_tail in E as [<- <-]. by apply Hb.
  - rewrite app_comm_cons, app_assoc in E. apply app_inj_tail in E as [-> _]. by eapply H.
Qed.

Lemma loop_step ids edges out inc id ready sorted :
  loop_ok ids edges inc (id :: ready) sorted -> (forall s, successors s out = targets_of s edges) -> (forall x, x ∈ edges -> targetNode x ∈ ids) ->
  exists inc' ready', fold_left release (successors id out) (inc, ready) = (inc', ready') /\ loop_ok ids edges inc' ready' (sorted ++ [id]).
Proof.
  intros [Hnd Hkn Hk Hc Hz Hf] Ho Ht.
  assert (id ∉ sorted) as Hni by (apply NoDup_app in Hnd as (_ & Hd & _); intros Hi; apply (Hd _ Hi); by left).
  assert (id ∈ ids) as Hid by (apply Hkn; set_solver).
  assert (forall n, n ∈ targets_of id edges -> n ∈ ids) as Htn by (intros n (x & Hx & _ & <-)%elem_of_targets; by apply Ht).
  destruct (release_fold (successors id out) inc ready) as (inc' & extra & E & Ek & Eg & End & Eex).
  { intros n. rewrite Ho. intros Hn. eexists. split; [by apply Hc, Htn|]. pose proof (indeg_snoc edges n sorted id Hni). lia. }
  rewrite Ho in *. exists inc', (ready ++ extra). split; [done|].
  assert (forall n, n ∈ ids -> (n ∈ extra <-> n ∈ targets_of id edges /\ indeg edges n sorted = cnt n (targets_of id edges))) as Hex.
  { intros n Hn. rewrite Eex, (Hc n Hn). split; intros [? He]; (split; [done|]); [injection He; lia|by rewrite He]. }
  assert (forall n, n ∈ extra -> n ∉ sorted ++ id :: ready) as Hdis.
  { intros n Hn Hin. assert (n ∈ ids) as Hn' by (by apply Hkn). apply Hz in Hin; [|done]. apply Hex in Hn as [Hn E0]; [|done]. apply cnt_pos in Hn. lia. }
  assert (forall n, n ∈ (sorted ++ [id]) ++ ready ++ extra <-> n ∈ sorted ++ id :: ready \/ n ∈ extra) as Hsplit by (intros n; set_solver).
  constructor.
  - replace ((sorted ++ [id]) ++ ready ++ extra) with ((sorted ++ id :: ready) ++ extra) by (rewrite <- !app_assoc; done).
    apply NoDup_app. split; [done|]. split; [intros n Hn Hn'; by apply (Hdis n)|done].
  - intros n [Hn|Hn]%Hsplit; [by apply Hkn|]. apply Eex in Hn as [Hn _]. auto.
  - congruence.
  - intros n Hn. rewrite (Eg n _ (Hc n Hn)). f_equal. pose proof (indeg_snoc edges n sorted id Hni). lia.
  - intros n Hn. rewrite Hsplit, Hex by done. rewrite (Hz n Hn). pose proof (indeg_snoc edges n sorted id Hni) as Hs.
    destruct (cnt n (targets_of id edges)) eqn:Ec; [apply cnt_zero in Ec; intuition lia|].
    assert (n ∈ targets_of id edges) by (destruct (decide (n ∈ targets_of id edges)) as [|Hd]; [done|]; apply cnt_zero in Hd; lia). intuition lia.
  - apply feeds_snoc; [done|]. intros a Ha. assert (indeg edges id sorted = O) as H0 by (apply Hz; [done|]; set_solver). exact (proj1 (indeg_zero _ _ _) H0 a Ha).
Qed.

Lemma order_loop_ok ids edges out : (forall s, successors s out = targets_of s edges) -> (forall x, x ∈ edges -> targetNode x ∈ ids) ->
  forall fuel inc ready sorted, loop_ok ids edges inc ready sorted -> EmptyString ∉ sorted -> (length ids < fuel + length sorted)%nat ->
  exists inc' ready' sorted', order_loop fuel out inc ready sorted = Some sorted' /\ loop_ok ids edges inc' ready' sorted' /\ EmptyString ∉ sorted' /\
    (ready' = [] \/ EmptyString ∈ ready').
Proof.
  intros Ho Ht. induction fuel as [|fuel IH]; intros inc ready sorted H He Hf.
  - exfalso. assert (length (sorted ++ ready) <= length ids)%nat as Hl.
    { apply submseteq_length, NoDup_submseteq; [apply H|]. intros n Hn. by apply (lo_known _ _ _ _ _ H). }
    rewrite length_app in Hl. lia.
  - cbn [order_loop]. destruct ready as [|id ready]; [exists inc, [], sorted; by auto|].
    case_bool_decide as Ei; [exists inc, (id :: ready), sorted; split_and!; [done|done|done|right; subst; by left]|].
    destruct (loop_step ids edges out inc id ready sorted H Ho Ht) as (inc' & ready' & -> & H').
    apply (IH _ _ _ H'); [set_solver|]. rewrite length_app. cbn. lia.
Qed.

Lemma zero_counts_fold nodes : forall m, NoDup (om_keys m) -> let m' := fold_left (fun m n => om_set (gn_id n) 0 m) nodes m in
  NoDup (om_keys m') /\ (forall k, k ∈ om_keys m' <-> k ∈ om_keys m \/ k ∈ map gn_id nodes) /\
  (forall k, k ∈ map gn_id nodes -> om_get k m' = Some 0) /\ (forall k, k ∉ map gn_id nodes -> om_get k m' = om_get k m) /\
  (length (om_keys m') <= length m + length nodes)%nat.
Proof.
  induction nodes as [|n nodes IH]; intros m Hnd; cbn [fold_left map].
  - split_and!; try done; [intros k; set_solver|set_solver|rewrite om_length_keys; cbn; lia].
  - destruct (IH (om_set (gn_id n) 0 m)) as (H1 & H2 & H3 & H4 & H5); [by apply om_set_nodup|]. split_and!; [done| | | |].
    + intros k. rewrite H2, om_keys_set_elem. set_solver.
    + intros k Hk. destruct (decide (k ∈ map gn_id nodes)) as [|Hni]; [by apply H3|]. rewrite H4 by done.
      assert (k = gn_id n) as -> by set_solver. by rewrite om_get_set_eq.
    + intros k Hk. rewrite H4 by set_solver. apply om_get_set_ne. set_solver.
    + rewrite om_length_set in H5. cbn [length]. destruct (om_has (gn_id n) m); lia.
Qed.

Lemma zero_counts_ok nodes : let ids := om_keys (zero_counts nodes) in
  NoDup ids /\ (forall k, k ∈ ids <-> k ∈ map gn_id nodes) /\ (forall k, k ∈ ids -> om_get k (zero_counts nodes) = Some 0) /\
  (length ids <= length nodes)%nat.
Proof.
  destruct (zero_counts_fold nodes []) as (H1 & H2 & H3 & _ & H5); [constructor|]. fold (zero_counts nodes) in *.
  assert (forall k, k ∈ om_keys (zero_counts nodes) <-> k ∈ map gn_id nodes) as Hk by (intros k; rewrite H2; split; [intros [Hn|]; [by apply not_elem_of_nil in Hn|done]|by right]).
  split_and!; [done|done|intros k Hi; by apply H3, Hk|done].
Qed.

Definition ids_of (p : Pipeline) : list string := om_keys (zero_counts (pl_nodes p)).

(** An edge between two stages that exist. *)
Definition precedes (p : Pipeline) (a b : string) : Prop :=
  exists x, x ∈ pl_edges p /\ sourceNode x = a /\ targetNode x = b /\ a ∈ map gn_id (pl_nodes p) /\ b ∈ map gn_id (pl_nodes p).

Lemma elem_of_live ids edges x : x ∈ live_edges ids edges <-> x ∈ edges /\ sourceNode x ∈ ids /\ targetNode x ∈ ids.
Proof. unfold live_edges. rewrite list_elem_of_In, filter_In, andb_true_iff, !includes_true, <- list_elem_of_In. tauto. Qed.

Lemma precedes_into p a b : precedes p a b <-> a ∈ into b (live_edges (ids_of p) (pl_edges p)).
Proof.
  destruct (zero_counts_ok (pl_nodes p)) as (_ & Hk & _). unfold precedes, ids_of. rewrite elem_of_into. setoid_rewrite elem_of_live. setoid_rewrite Hk.
  split; intros (x & H); exists x; [destruct H as (? & <- & <- & ? & ?)|destruct H as ((? & ? & ?) & <- & <-)]; done.
Qed.

Lemma start_ok ids edges inc : NoDup ids -> om_keys inc = ids -> (forall n, n ∈ ids -> om_get n inc = Some (Z.of_nat (length (into n edges)))) ->
  loop_ok ids edges inc (initially_ready inc) [].
Proof.
  intros Hnd Hk Hc.
  assert (forall n, length (into n edges) = indeg edges n []) as Hi.
  { intros n. unfold indeg. induction (into n edges) as [|s l IHl]; [done|]. cbn. by rewrite IHl. }
  assert (forall n, n ∈ initially_ready inc <-> om_get n inc = Some 0) as Hr.
  { intros n. unfold initially_ready. rewrite list_elem_of_In, in_map_iff. split.
    - intros ([k v] & <- & [Hin Hz]%filter_In). cbn in *. apply Z.eqb_eq in Hz as ->. apply om_elem_get; [by rewrite Hk|]. by apply list_elem_of_In.
    - intros Hg. exists (n, 0). split; [done|]. apply filter_In. split; [|done]. apply list_elem_of_In. by apply om_get_elem. }
  constructor; cbn [app]; [| |done| | |].
  - unfold initially_ready. rewrite <- Hk in Hnd. clear -Hnd. induction inc as [|[k v] inc IH]; [constructor|].
    apply NoDup_cons in Hnd as [Hni Hnd]. cbn [List.filter snd]. destruct (v =? 0); [|by apply IH]. cbn [map fst]. constructor; [|by apply IH].
    intros Hin. apply Hni. apply list_elem_of_In, in_map_iff in Hin as (q & Hq & [Hin _]%filter_In). apply list_elem_of_In, in_map_iff. by exists q.
  - intros n Hn%Hr. rewrite <- Hk. by eapply om_get_Some_keys.
  - intros n Hn. by rewrite (Hc n Hn), Hi.
  - intros n Hn. rewrite Hr, (Hc n Hn), Hi. split; [intros [= E]; lia|by intros ->].
  - intros l1 b l2 E. by destruct l1.
Qed.

(** The loop of [order] ends where nothing is ready, or a stage whose id is empty. *)
Lemma order_ends p : exists inc ready sorted, order_run p = Some sorted /\ loop_ok (ids_of p) (live_edges (ids_of p) (pl_edges p)) inc ready sorted /\
  EmptyString ∉ sorted /\ (ready = [] \/ EmptyString ∈ ready).
Proof.
  destruct (zero_counts_ok (pl_nodes p)) as (Hnd & Hk & Hz & Hlen). fold (ids_of p) in *.
  destruct (count_fold (ids_of p) (pl_edges p) (zero_counts (pl_nodes p)) [] eq_refl) as (inc & out & E & Ek & Eg & Eo).
  unfold order_run. rewrite E.
  destruct (order_loop_ok (ids_of p) (live_edges (ids_of p) (pl_edges p)) out) with (fuel := S (length (pl_nodes p))) (inc := inc) (ready := initially_ready inc) (sorted := @nil string)
    as (inc' & ready & sorted & Hs & Hok).
  - intros s. by rewrite Eo.
  - intros x (_ & _ & Ht)%elem_of_live. done.
  - apply start_ok; [done|done|]. intros n Hn. by rewrite (Eg n 0 (Hz n Hn)).
  - by intros ?%not_elem_of_nil.
  - cbn [length]. lia.
  - by exists inc', ready, sorted.
Qed.

(** A walk along the edges, last stage first. *)
Fixpoint walk_back (p : Pipeline) (l : list string) : Prop :=
  match l with
  | b :: (a :: _) as l' => precedes p a b /\ walk_back p l'
  | _ => True
  end.

Lemma walk_back_tc p l1 b l2 a l3 : walk_back p (l1 ++ b :: l2 ++ a :: l3) -> tc (precedes p) a b.
Proof.
  revert b l2. induction l1 as [|x l1 IH]; intros b l2 H.
  - cbn [app] in H. revert b H. induction l2 as [|c l2 IH2]; intros b H.
    + destruct H as [H _]. by constructor.
    + destruct H as [Hcb H]. eapply tc_r; [by apply IH2|done].
  - apply (IH b l2). cbn [app] in H. destruct (l1 ++ b :: l2 ++ a :: l3) eqn:E; [done|]. by destruct H.
Qed.

Lemma not_nodup (l : list string) : ~ NoDup l -> exists l1 a l2 l3, l = l1 ++ a :: l2 ++ a :: l3.
Proof.
  induction l as [|x l IH]; intros H; [destruct H; constructor|]. destruct (decide (x ∈ l)) as [Hin|Hni].
  - apply list_elem_of_split in Hin as (l2 & l3 & ->). by exists [], x, l2, l3.
  - destruct IH as (l1 & a & l2 & l3 & ->); [intros Hn; apply H; by constructor|]. by exists (x :: l1), a, l2, l3.
Qed.

(** A set of stages each fed by one of the set contains a cycle. *)
Lemma no_source_cycle p (U : string -> Prop) n0 : U n0 -> (forall b, U b -> b ∈ map gn_id (pl_nodes p) /\ exists a, U a /\ precedes p a b) ->
  exists n, tc (precedes p) n n.
Proof.
  intros H0 HU. assert (forall k, exists n l, length l = k /\ U n /\ Forall U l /\ walk_back p (rev (n :: l))) as Hw. 2: {
    destruct (Hw (S (length (pl_nodes p)))) as (n & l & Hl & Hn & Hf & Hwalk).
    destruct (not_nodup (rev (n :: l))) as (l1 & a & l2 & l3 & E); [|exists a; rewrite E in Hwalk; by eapply walk_back_tc].
    intros Hnd. assert (length (rev (n :: l)) <= length (map gn_id (pl_nodes p)))%nat as Hle.
    { apply submseteq_length, NoDup_submseteq; [done|]. intros x Hx. apply HU. rewrite list_elem_of_In, <- in_rev in Hx. destruct Hx as [<-|Hx]; [done|].
      rewrite Forall_forall in Hf. by apply Hf, list_elem_of_In. }
    rewrite length_rev, length_map in Hle. cbn in Hle. lia. }
  induction k as [|k (n & l & Hl & Hn & Hf & Hwalk)]; [by exists n0, []|].
  destruct (HU n Hn) as [_ (a & Ha & Hp)]. exists a, (n :: l). split_and!; [cbn; lia|done|by constructor|].
  cbn [rev] in *. assert (forall w, walk_back p (w ++ [n]) -> walk_back p ((w ++ [n]) ++ [a])) as Hgo; [|by apply Hgo].
  clear -Hp. induction w as [|x w IH]; [cbn; tauto|]. intros H. destruct w as [|y w]; [cbn in *; tauto|]. destruct H as [H1 H2]. split; [done|by apply IH].
Qed.

(** [a] stands somewhere before [b]. *)
Definition stands_before (a b : string) (l : list string) : Prop := exists l1 l2 l3, l = l1 ++ a :: l2 ++ b :: l3.

Lemma ordered_no_cycle p l : NoDup l -> l ≡ₚ map gn_id (pl_nodes p) -> (forall a b, precedes p a b -> stands_before a b l) -> forall n, ~ tc (precedes p) n n.
Proof.
  intros Hnd Hp Hb.
  assert (forall a b, tc (precedes p) a b -> stands_before a b l) as Htc; [|intros n (l1 & l2 & l3 & E)%Htc; rewrite E in Hnd; apply NoDup_app in Hnd as (_ & _ & [Hni _]%NoDup_cons); set_solver].
  induction 1 as [a b H|a b c H1 _ H2]; [by apply Hb|]. apply Hb in H1 as (l1 & l2 & l3 & E1). destruct H2 as (m1 & m2 & m3 & E2).
  assert (exists k1 k2, l = k1 ++ b :: k2 /\ a ∈ k1) as (k1 & k2 & Ek & Hk) by (exists (l1 ++ a :: l2), l3; split; [rewrite E1, <- app_assoc; done|set_solver]).
  assert (k1 = m1 /\ k2 = m2 ++ c :: m3) as [-> ->].
  { rewrite Ek in E2, Hnd. clear -E2 Hnd. revert m1 E2. induction k1 as [|x k1 IH]; intros [|y m1] E2; cbn in *.
    - by injection E2.
    - injection E2 as -> E2. apply NoDup_cons in Hnd as [Hni _]. exfalso. apply Hni. rewrite E2. set_solver.
    - injection E2 as -> E2. apply NoDup_cons in Hnd as [Hni _]. exfalso. apply Hni. set_solver.
    - injection E2 as -> E2. apply NoDup_cons in Hnd as [_ Hnd]. destruct (IH Hnd m1 E2) as [-> ->]. done. }
  apply list_elem_of_split in Hk as (p1 & p2 & ->). exists p1, (p2 ++ b :: m2), m3. rewrite Ek. by rewrite <- !app_assoc.
Qed.

Lemma order_some p l : order p = Some l ->
  NoDup l /\ l ≡ₚ map gn_id (pl_nodes p) /\ EmptyString ∉ l /\ (forall a b, precedes p a b -> stands_before a b l).
Proof.
  intros Eo. destruct (order_ends p) as (inc & ready & sorted & Er & H & He & _). unfold order in Eo. rewrite Er in Eo.
  destruct (Nat.eqb_spec (length sorted) (length (pl_nodes p))) as [El|]; [|done]. injection Eo as ->.
  destruct (zero_counts_ok (pl_nodes p)) as (_ & Hk & _). fold (ids_of p) in *. destruct H as [[Hs _]%NoDup_app Hkn _ _ _ Hf].
  assert (l ≡ₚ map gn_id (pl_nodes p)) as Hp.
  { apply submseteq_length_Permutation; [apply NoDup_submseteq; [done|]|rewrite length_map; lia]. intros n Hn. apply Hk, Hkn. set_solver. }
  split_and!; [done|done|done|]. intros a b Hab. assert (b ∈ l) as Hin by (rewrite Hp; by destruct Hab as (x & _ & _ & _ & _ & ?)).
  apply list_elem_of_split in Hin as (l1 & l2 & ->). apply precedes_into in Hab. specialize (Hf l1 b l2 eq_refl a Hab).
  apply list_elem_of_split in Hf as (k1 & k2 & ->). exists k1, k2, l2. by rewrite <- app_assoc.
Qed.

Lemma order_none p : order p = None -> EmptyString ∈ map gn_id (pl_nodes p) \/ ~ NoDup (map gn_id (pl_nodes p)) \/ exists n, tc (precedes p) n n.
Proof.
  intros Eo. destruct (order_ends p) as (inc & ready & sorted & Er & H & _ & Hr). unfold order in Eo. rewrite Er in Eo.
  destruct (Nat.eqb_spec (length sorted) (length (pl_nodes p))) as [|El]; [done|]. clear Eo.
  destruct (zero_counts_ok (pl_nodes p)) as (_ & Hk & _). fold (ids_of p) in *. destruct H as [Hs Hkn _ _ Hz _].
  destruct Hr as [-> |Hr]; [|left; apply Hk, Hkn; set_solver]. right. rewrite app_nil_r in *.
  destruct (decide (NoDup (map gn_id (pl_nodes p)))) as [Hn|]; [right|by left].
  assert (exists n0, n0 ∈ map gn_id (pl_nodes p) /\ n0 ∉ sorted) as (n0 & Hn0 & Hns).
  { destruct (decide (Forall (fun n => n ∈ sorted) (map gn_id (pl_nodes p)))) as [Hall|Hex]; [|apply not_Forall_Exists in Hex; [|apply _]; by apply Exists_exists in Hex].
    exfalso. apply El. rewrite <- (length_map gn_id). apply Nat.le_antisymm; apply submseteq_length, NoDup_submseteq; try done; [by intros n Hi; apply Hk, Hkn|by apply Forall_forall]. }
  apply (no_source_cycle p (fun n => n ∈ map gn_id (pl_nodes p) /\ n ∉ sorted) n0 (conj Hn0 Hns)). intros b [Hb Hbs]. split; [done|].
  assert (indeg (live_edges (ids_of p) (pl_edges p)) b sorted ≠ O) as Hi by (intros E0; apply Hbs, Hz; [by apply Hk|done]).
  destruct (decide (Forall (fun a => a ∈ sorted) (into b (live_edges (ids_of p) (pl_edges p))))) as [Hall|Hex].
  - destruct Hi. apply indeg_zero. by apply Forall_forall.
  - apply not_Forall_Exists in Hex; [|apply _]. apply Exists_exists in Hex as (a & Ha & Has). apply precedes_into in Ha. exists a. split; [|done].
    split; [|done]. by destruct Ha as (x & _ & _ & _ & ? & _).
Qed.

(** C11: Kahn's loop of [order] always ends, and its answer is right both ways:
    an order is a permutation of the stages in which every edge goes forward
    (and then no stage depends on itself), and "cannot be ordered" means that a
    stage has the empty id, that two stages share an id, or that following the
    edges from some stage leads back to it; each of these three alone prevents
    an order. *)
Theorem order_is_topological p :
  is_Some (order_run p) /\
  (forall l, order p = Some l -> NoDup l /\ l ≡ₚ map gn_id (pl_nodes p) /\ (forall a b, precedes p a b -> stands_before a b l)) /\
  (order p = None <-> EmptyString ∈ map gn_id (pl_nodes p) \/ ~ NoDup (map gn_id (pl_nodes p)) \/ exists n, tc (precedes p) n n).
Proof.
  destruct (order_ends p) as (_ & _ & sorted & Er & _). split_and!; [by eexists|by intros l (? & ? & _ & ?)%order_some|]. split; [apply order_none|].
  intros Hbad. destruct (order p) as [l|] eqn:E; [exfalso|done]. apply order_some in E as (Hnd & Hp & He & Hb). rewrite <- Hp in Hbad.
  destruct Hbad as [?|[?|[n Hn]]]; [done|done|]. by apply (ordered_no_cycle p l) in Hn.
Qed.

(** ** The stages one depends on *)

Definition feeds (p : Pipeline) (a b : string) : Prop := exists x, x ∈ pl_edges p /\ sourceNode x = a /\ targetNode x = b.

Lemma grow_fold edges : forall need g, exists new, fold_left grow edges (need, g) = (need ++ new, g || negb (bool_decide (new = []))) /\
  (NoDup need -> NoDup (need ++ new)) /\ (forall n, n ∈ new -> n ∈ map sourceNode edges) /\
  (new = [] -> forall x, x ∈ edges -> targetNode x ∈ need -> sourceNode x ∈ need) /\
  (forall P : string -> Prop, (forall x, x ∈ edges -> P (targetNode x) -> P (sourceNode x)) -> (forall n, n ∈ need -> P n) -> forall n, n ∈ new -> P n).
Proof.
  induction edges as [|x edges IH]; intros need g.
  - exists []. rewrite app_nil_r, bool_decide_eq_true_2, orb_false_r by done. split_and!; try done; set_solver.
  - cbn [fold_left grow map]. destruct (includes (targetNode x) need && negb (includes (sourceNode x) need)) eqn:E.
    + apply andb_true_iff in E as [Et%includes_true Es%negb_true%includes_false].
      destruct (IH (need ++ [sourceNode x]) true) as (new & E & Hn & Hs & _ & HP). exists (sourceNode x :: new).
      rewrite bool_decide_eq_false_2 by done. cbn [negb]. rewrite orb_true_r. split_and!; [by rewrite E, <- app_assoc| |set_solver|done|].
      * intros Hnd. replace (need ++ sourceNode x :: new) with ((need ++ [sourceNode x]) ++ new) by (by rewrite <- app_assoc). apply Hn, NoDup_app.
        split; [done|]. split; [intros y Hy ->%list_elem_of_singleton; done|apply NoDup_singleton].
      * intros P HPx Hneed n Hn'. assert (P (sourceNode x)) by (apply HPx; [by left|auto]). apply elem_of_cons in Hn' as [->|Hn']; [done|].
        apply (HP P); [intros y Hy; apply HPx; by right|set_solver|done].
    + destruct (IH need g) as (new & -> & Hn & Hs & Hc & HP). exists new. split_and!; [done|done|set_solver| |intros P HPx; apply HP; set_solver].
      intros -> y [->|Hy]%elem_of_cons Ht; [|by apply Hc]. apply andb_false_iff in E as [E%includes_false|E%negb_false%includes_true]; done.
Qed.

Lemma upstream_loop_ok p id : forall fuel need, NoDup need -> id ∈ need -> (forall n, n ∈ need -> n ∈ id :: map sourceNode (pl_edges p)) ->
  (forall n, n ∈ need -> rtc (feeds p) n id) -> (S (length (pl_edges p)) < fuel + length need)%nat ->
  exists need', upstream_loop fuel (pl_edges p) need = Some need' /\ NoDup need' /\ forall n, n ∈ need' <-> rtc (feeds p) n id.
Proof.
  induction fuel as [|fuel IH]; intros need Hnd Hid Hsub Hrtc Hf.
  - exfalso. assert (length need <= length (id :: map sourceNode (pl_edges p)))%nat as Hl by (by apply submseteq_length, NoDup_submseteq).
    cbn in Hl. rewrite length_map in Hl. lia.
  - cbn [upstream_loop]. destruct (grow_fold (pl_edges p) need false) as (new & -> & Hn & Hs & Hc & HP). cbn [orb]. case_bool_decide as E; cbn [negb].
    + subst new. rewrite app_nil_r. exists need. split_and!; [done|done|]. intros n. split; [apply Hrtc|].
      revert n. apply rtc_ind_l; [done|]. intros a b (x & Hx & <- & <-) _ IHr. by apply Hc.
    + apply IH; [auto|set_solver|set_solver| |].
      * intros n [Hn'|Hn']%elem_of_app; [auto|]. apply (HP (fun n => rtc (feeds p) n id)); [|done|done]. intros x Hx Ht. eapply rtc_l; [by exists x|done].
      * rewrite length_app. destruct new; [done|]. cbn. lia.
Qed.

(** Running one stage and what it needs: the loop of [upstreamOf] ends
    whatever the graph (one turn per edge is enough, with cycles or edges to
    nowhere), and the set it returns is exactly the stages from which the
    stage can be reached along the edges, the stage itself included; a run with
    [only] works through those of them that are enabled, in the order of the
    pipeline. *)
Theorem upstreamOf_is_ancestors p id :
  exists need, upstreamOf p id = Some need /\ NoDup need /\ (forall n, n ∈ need <-> rtc (feeds p) n id) /\
    exists stages, stages_run p (Some id) = Some stages /\ stages `sublist_of` pl_nodes p /\
      forall s, s ∈ stages <-> s ∈ pl_nodes p /\ gn_enabled s = true /\ rtc (feeds p) (gn_id s) id.
Proof.
  destruct (upstream_loop_ok p id (S (length (pl_edges p))) [id]) as (need & E & Hnd & Hr);
    [apply NoDup_singleton|set_solver|set_solver|intros n ->%list_elem_of_singleton; done|cbn; lia|].
  exists need. split_and!; [exact E|done|done|]. unfold stages_run, upstreamOf. rewrite E.
  exists (List.filter (fun n => gn_enabled n && includes (gn_id n) need) (pl_nodes p)). split_and!; [done| |].
  - induction (pl_nodes p) as [|s l IH]; cbn; [constructor|]. destruct (_ && _); by constructor.
  - intros s. rewrite list_elem_of_In, filter_In, andb_true_iff, includes_true, Hr, <- list_elem_of_In. tauto.
Qed.

(** ** A pipeline without problems is well typed *)

(** An edge whose two ends have ports of one type. *)
Definition typed_edge (p : Pipeline) (x : GraphEdge) : Prop := exists s t out inp, s ∈ pl_nodes p /\ gn_id s = sourceNode x /\ t ∈ pl_nodes p /\ gn_id t = targetNode x /\
  output_port s (sourcePort x) = Some out /\ input_port t (targetPort x) = Some inp /\ po_type out = po_type inp.

Record well_typed (p : Pipeline) : Prop := {
  wt_stages : NoDup (map gn_id (pl_nodes p));
  wt_edges : NoDup (map ge_id (pl_edges p));
  wt_params : forall n, n ∈ pl_nodes p -> exists spec, specOf (gn_type n) = Some spec /\
    forall k v, (k, v) ∈ gn_params n -> exists s q, List.find (fun s => bool_decide (pa_id s = k)) (ns_params spec) = Some s /\ v = JNum q /\ (pa_min s <= q <= pa_max s)%Q;
  wt_ports : forall x, x ∈ pl_edges p -> typed_edge p x;
  wt_single : NoDup (map (fun x => (targetNode x, targetPort x)) (pl_edges p));
  wt_acyclic : forall n, ~ tc (precedes p) n n }.

Lemma read_node_id v n : read_node v = Some n -> gn_id n <> EmptyString.
Proof.
  unfold read_node. intros H. destruct (as_object v) as [f|]; [cbn in H|done]. destruct (text (field "id" f)) as [id|] eqn:E; [cbn in H|done].
  assert (id <> EmptyString) as Hid. { intros ->. unfold text in E. destruct (field "id" f) as [[| | |s| |]|]; try done. destruct (_ && _) eqn:Eb; [|done]. by injection E as ->. }
  repeat match type of H with (?o ≫= _) = _ => let y := fresh in destruct o as [y|]; [cbn in H|done] end. by injection H as <-.
Qed.

Lemma filter_nil {A} (f : A -> bool) l : List.filter f l = [] <-> forall x, x ∈ l -> f x = false.
Proof.
  induction l as [|x l IH]; cbn; [split; [set_solver|done]|]. destruct (f x) eqn:E; [split; [done|intros H; rewrite H in E by (by left); done]|].
  rewrite IH. split; [intros H y [->|Hy]%elem_of_cons; auto|intros H y Hy; apply H; by right].
Qed.

Lemma node_problems_nil n seen : (node_problems n seen = []) <-> gn_id n ∉ seen /\ forall q, q ∈ gn_params n -> param_ok (specOf (gn_type n)) q = true.
Proof.
  unfold node_problems. destruct (includes (gn_id n) seen) eqn:Ei; [apply includes_true in Ei|apply includes_false in Ei; cbn [app]]; [split; [done|by intros [? _]]|].
  transitivity (List.filter (fun p => negb (param_ok (specOf (gn_type n)) p)) (gn_params n) = []); [split; [apply map_eq_nil|by intros ->]|].
  rewrite filter_nil. setoid_rewrite negb_false. naive_solver.
Qed.

Lemma read_nodes_ok l : forall seen ns ps, read_nodes l seen = Some (ns, ps) ->
  (forall n, n ∈ ns -> gn_id n <> EmptyString) /\
  (ps = [] <-> NoDup (map gn_id ns) /\ (forall n, n ∈ ns -> gn_id n ∉ seen) /\ forall n q, n ∈ ns -> q ∈ gn_params n -> param_ok (specOf (gn_type n)) q = true).
Proof.
  induction l as [|v l IH]; intros seen ns ps; cbn [read_nodes].
  - intros [= <- <-]. split; [set_solver|]. split; [intros _; split_and!; [constructor|set_solver..]|done].
  - destruct (read_node v) as [n|] eqn:En; [cbn|done]. destruct (read_nodes l (gn_id n :: seen)) as [[ns' ps']|] eqn:Er; [cbn|done]. intros [= <- <-].
    destruct (IH _ _ _ Er) as [Hne Hps]. split; [intros m [->|Hm]%elem_of_cons; [by eapply read_node_id|auto]|].
    assert (node_problems n seen ++ ps' = [] <-> gn_id n ∉ seen /\ (forall q, q ∈ gn_params n -> param_ok (specOf (gn_type n)) q = true) /\ ps' = []) as ->.
    { rewrite (and_assoc _ _ (ps' = [])), <- node_problems_nil. split; [by intros [? ?]%app_eq_nil|by intros [-> ->]]. }
    rewrite Hps. cbn [map]. rewrite NoDup_cons. split.
    + intros (H0 & Hq & H1 & H2 & H3). split_and!; [|done| |].
      * intros (m & Em & Hm)%list_elem_of_fmap. apply (H2 m Hm). rewrite <- Em. by left.
      * intros m [->|Hm]%elem_of_cons; [done|]. specialize (H2 m Hm). set_solver.
      * intros m q [->|Hm]%elem_of_cons Hin; [by apply Hq|by apply (H3 m q)].
    + intros ([H1 H2] & H3 & H4). split_and!; [apply H3; by left|intros q; apply H4; by left|done| |intros m q Hm; apply H4; by right].
      intros m Hm [E|Hin]%elem_of_cons; [|by apply (H3 m); [by right|]]. apply H1. apply list_elem_of_fmap. by exists m.
Qed.

Lemma read_edges_ok l : forall seen es ps, read_edges l seen = Some (es, ps) ->
  (ps = [] <-> NoDup (map ge_id es) /\ (forall x, x ∈ es -> ge_id x ∉ seen)).
Proof.
  induction l as [|v l IH]; intros seen es ps; cbn [read_edges].
  - intros [= <- <-]. split; [intros _; split; [constructor|set_solver]|done].
  - destruct (read_edge v) as [x|] eqn:En; [cbn|done]. destruct (read_edges l (ge_id x :: seen)) as [[es' ps']|] eqn:Er; [cbn|done]. intros [= <- <-].
    destruct (includes (ge_id x) seen) eqn:Ei; [apply includes_true in Ei|apply includes_false in Ei].
    + split; [done|]. intros [_ H]. exfalso. apply (H x); [by left|done].
    + cbn [app map]. rewrite (IH _ _ _ Er), NoDup_cons. split.
      * intros [H1 H2]. split_and!; [|done|].
        -- intros (y & Ey & Hy)%list_elem_of_fmap. apply (H2 y Hy). rewrite <- Ey. by left.
        -- intros y [->|Hy]%elem_of_cons; [done|]. specialize (H2 y Hy). set_solver.
      * intros [[H1 H2] H3]. split; [done|]. intros y Hy [E|Hin]%elem_of_cons; [|by apply (H3 y); [by right|]]. apply H1, list_elem_of_fmap. by exists y.
Qed.

(** The map of stages by id, when the ids are distinct. *)
Lemma by_id_get nodes : forall m, NoDup (map gn_id nodes) -> (forall n, n ∈ nodes -> om_get (gn_id n) m = None) ->
  forall k n, om_get k (fold_left (fun m n => om_set (gn_id n) n m) nodes m) = Some n <-> (n ∈ nodes /\ gn_id n = k) \/ om_get k m = Some n.
Proof.
  induction nodes as [|x nodes IH]; intros m Hnd Hm k n; cbn [fold_left].
  - split; [by right|]. intros [[Hn _]|]; [by apply not_elem_of_nil in Hn|done].
  - cbn [map] in Hnd. apply NoDup_cons in Hnd as [Hx Hnd].
    assert (forall y, y ∈ nodes -> gn_id y <> gn_id x) as Hne by (intros y Hy E; apply Hx, list_elem_of_fmap; by exists y).
    rewrite (IH (om_set (gn_id x) x m) Hnd) by (intros y Hy; rewrite om_get_set_ne by (by apply Hne); apply Hm; by right).
    rewrite om_get_set, elem_of_cons. specialize (Hm x ltac:(by left)). case_bool_decide as E; [subst k|].
    + split; [intros [[? ?]|[= <-]]; [left; auto|left; auto]|]. intros [[[->|Hn] Ek]|Hg]; [by right|left; auto|congruence].
    + split; [intros [[? ?]|?]; auto|]. intros [[[->|Hn] Ek]|Hg]; [congruence|by left|by right].
Qed.

Lemma by_id_ok nodes : NoDup (map gn_id nodes) -> forall k n, om_get k (by_id nodes) = Some n <-> n ∈ nodes /\ gn_id n = k.
Proof. intros H k n. unfold by_id. rewrite by_id_get by done. split; [intros [?|[=]]; done|by left]. Qed.

Lemma edge_problem_none ids x : edge_problem ids x = None <-> exists s t out inp, om_get (sourceNode x) ids = Some s /\ om_get (targetNode x) ids = Some t /\
  output_port s (sourcePort x) = Some out /\ input_port t (targetPort x) = Some inp /\ po_type out = po_type inp.
Proof.
  unfold edge_problem. destruct (om_get (sourceNode x) ids) as [s|]; [|naive_solver]. destruct (om_get (targetNode x) ids) as [t|]; [|naive_solver].
  destruct (output_port s (sourcePort x)) as [out|] eqn:E1; [|naive_solver]. destruct (input_port t (targetPort x)) as [inp|] eqn:E2; [|naive_solver].
  case_bool_decide; [|naive_solver]. split; [intros _; by exists s, t, out, inp|done].
Qed.

Lemma double_inputs_nil edges : forall seen, double_inputs edges seen = [] <-> NoDup (map input_key edges) /\ forall x, x ∈ edges -> input_key x ∉ seen.
Proof.
  induction edges as [|x edges IH]; intros seen; cbn [double_inputs map]; [split; [split; [constructor|set_solver]|done]|].
  destruct (includes (input_key x) seen) eqn:Ei; [apply includes_true in Ei|apply includes_false in Ei].
  - split; [done|]. intros [_ H]. exfalso. apply (H x); [by left|done].
  - cbn [app]. rewrite IH, NoDup_cons. split.
    + intros [H1 H2]. split_and!; [|done|].
      * intros (y & Ey & Hy)%list_elem_of_fmap. apply (H2 y Hy). rewrite <- Ey. by left.
      * intros y [->|Hy]%elem_of_cons; [done|]. specialize (H2 y Hy). set_solver.
    + intros [[H1 H2] H3]. split; [done|]. intros y Hy [E|Hin]%elem_of_cons; [|by apply (H3 y); [by right|]]. apply H1, list_elem_of_fmap. by exists y.
Qed.

(** ** The key of an input is not ambiguous: no port of the catalogue has a dot *)

Definition dot : Ascii.ascii := Ascii.ascii_of_nat 46.
Definition no_dot (s : string) : bool := forallb (fun c => negb (bool_decide (c = dot))) (chars s).

Lemma catalogue_no_dot : forallb (fun s => forallb (fun o => no_dot (po_id o)) (ns_inputs s)) NODE_SPECS = true.
Proof. vm_compute. reflexivity. Qed.

Lemma split_unique {A} (c : A) l1 m1 l2 m2 : l1 ++ c :: m1 = l2 ++ c :: m2 -> c ∉ m1 -> c ∉ m2 -> l1 = l2 /\ m1 = m2.
Proof.
  revert l2. induction l1 as [|x l1 IH]; intros [|y l2] E H1 H2; cbn in E.
  - by injection E.
  - injection E as -> ->. exfalso. apply H1. set_solver.
  - injection E as -> <-. exfalso. apply H2. set_solver.
  - injection E as -> E. destruct (IH l2 E H1 H2) as [-> ->]. done.
Qed.

Lemma no_dot_elem s : no_dot s = true -> dot ∉ chars s.
Proof.
  unfold no_dot. intros H Hin. apply list_elem_of_In in Hin. apply (proj1 (forallb_forall _ _) H) in Hin. by rewrite bool_decide_eq_true_2 in Hin.
Qed.

Lemma input_port_no_dot n id o : input_port n id = Some o -> po_id o = id /\ no_dot id = true.
Proof.
  unfold input_port. intros H. apply find_some in H as [Hin Hb%bool_decide_eq_true]. split; [done|]. rewrite <- Hb.
  destruct (specOf (gn_type n)) as [s|] eqn:Es; [|done]. cbn in Hin. apply find_some in Es as [Hs _].
  pose proof (proj1 (forallb_forall _ _) catalogue_no_dot s Hs) as H. exact (proj1 (forallb_forall _ _) H o Hin).
Qed.

Lemma input_key_inj x y : no_dot (targetPort x) = true -> no_dot (targetPort y) = true -> input_key x = input_key y ->
  (targetNode x, targetPort x) = (targetNode y, targetPort y).
Proof.
  intros Hx Hy E. apply (f_equal chars) in E. unfold input_key in E. rewrite !chars_app in E.
  apply (split_unique dot (chars (targetNode x)) (chars (targetPort x)) (chars (targetNode y)) (chars (targetPort y))) in E as [E1 E2]; [|by apply no_dot_elem..].
  apply chars_inj in E1 as ->. by apply chars_inj in E2 as ->.
Qed.

Lemma NoDup_map_iff {A B C} (f : A -> B) (g : A -> C) l : (forall x y, x ∈ l -> y ∈ l -> f x = f y <-> g x = g y) -> NoDup (map f l) <-> NoDup (map g l).
Proof.
  induction l as [|x l IH]; intros H; cbn [map]; [split; constructor|]. rewrite !NoDup_cons, IH by (intros; apply H; by right).
  assert (f x ∈ map f l <-> g x ∈ map g l) as ->; [|done].
  rewrite !list_elem_of_fmap. split; intros (y & E & Hy); exists y; (split; [|done]); (apply H; [by left|by right|done]).
Qed.

Lemma graph_problems_ok p : NoDup (map gn_id (pl_nodes p)) -> EmptyString ∉ map gn_id (pl_nodes p) ->
  graph_problems p = [] <-> (forall n, n ∈ pl_nodes p -> is_Some (specOf (gn_type n))) /\
    (forall x, x ∈ pl_edges p -> edge_problem (by_id (pl_nodes p)) x = None) /\
    NoDup (map input_key (pl_edges p)) /\ (forall n, ~ tc (precedes p) n n).
Proof.
  intros Hnd He. unfold graph_problems.
  assert (forall (A : Type) (a b : list A), a ++ b = [] <-> a = [] /\ b = []) as Happ by (intros A a b; split; [apply app_eq_nil|by intros [-> ->]]).
  rewrite !Happ. clear Happ.
  assert ((if bool_decide (order p = None) then [problem "graph" "the graph has a cycle"] else []) = [] <-> forall n, ~ tc (precedes p) n n) as ->.
  { case_bool_decide as E.
    - split; [done|]. intros Hc. destruct (order_none p E) as [?|[?|[n Hn]]]; [done|done|]. by apply Hc in Hn.
    - destruct (order p) as [l|] eqn:El; [|done]. split; [intros _|done]. apply order_some in El as (Hl & Hp & _ & Hb). by apply (ordered_no_cycle p l). }
  assert (omap (edge_problem (by_id (pl_nodes p))) (pl_edges p) = [] <-> forall x, x ∈ pl_edges p -> edge_problem (by_id (pl_nodes p)) x = None) as ->.
  { induction (pl_edges p) as [|x l IH]; cbn; [split; [set_solver|done]|]. destruct (edge_problem _ x) eqn:E.
    - split; [done|]. intros H. rewrite H in E by (by left). done.
    - rewrite IH. split; [intros H y [->|Hy]%elem_of_cons; auto|intros H y Hy; apply H; by right]. }
  rewrite double_inputs_nil.
  match goal with |- context [map ?f ?l = []] => assert (map f l = [] <-> forall n, n ∈ pl_nodes p -> is_Some (specOf (gn_type n))) as -> end.
  { transitivity (List.filter (fun n => negb (bool_decide (is_Some (specOf (gn_type n))))) (pl_nodes p) = []); [split; [apply map_eq_nil|by intros ->]|].
    rewrite filter_nil. setoid_rewrite negb_false. setoid_rewrite bool_decide_eq_true. done. }
  intuition set_solver.
Qed.

Lemma param_ok_iff spec k v : param_ok (Some spec) (k, v) = true <->
  exists s q, List.find (fun s => bool_decide (pa_id s = k)) (ns_params spec) = Some s /\ v = JNum q /\ (pa_min s <= q <= pa_max s)%Q.
Proof.
  unfold param_ok. cbn [from_option fst snd]. destruct (List.find _ (ns_params spec)) as [s|]; [|naive_solver].
  destruct v as [| |q| | |]; try naive_solver. unfold Qltb. rewrite negb_orb, !negb_involutive, andb_true_iff, !Qle_bool_iff.
  split; [intros [H1 H2]; by exists s, q|intros (s' & q' & [= <-] & [= <-] & H); exact H].
Qed.

Lemma stage_params_ok (ns : list GraphNode) : ((forall n, n ∈ ns -> is_Some (specOf (gn_type n))) /\ (forall n q, n ∈ ns -> q ∈ gn_params n -> param_ok (specOf (gn_type n)) q = true)) <->
  forall n, n ∈ ns -> exists spec, specOf (gn_type n) = Some spec /\
    forall k v, (k, v) ∈ gn_params n -> exists s q, List.find (fun s => bool_decide (pa_id s = k)) (ns_params spec) = Some s /\ v = JNum q /\ (pa_min s <= q <= pa_max s)%Q.
Proof.
  split.
  - intros [Hs Hp] n Hn. destruct (Hs n Hn) as [spec E]. exists spec. split; [done|]. intros k v Hk. apply param_ok_iff. rewrite <- E. by apply Hp.
  - intros H. split; [intros n Hn; destruct (H n Hn) as (s & -> & _); done|]. intros n [k v] Hn Hk. destruct (H n Hn) as (s & -> & Hp). by apply param_ok_iff, Hp.
Qed.

Lemma edge_ports p : NoDup (map gn_id (pl_nodes p)) -> forall x, edge_problem (by_id (pl_nodes p)) x = None <-> typed_edge p x.
Proof.
  intros Hn x. rewrite edge_problem_none. setoid_rewrite (by_id_ok (pl_nodes p) Hn). split; intros (s & t & out & inp & H); exists s, t, out, inp; naive_solver.
Qed.

Lemma single_source p : (forall x, x ∈ pl_edges p -> typed_edge p x) ->
  NoDup (map input_key (pl_edges p)) <-> NoDup (map (fun x => (targetNode x, targetPort x)) (pl_edges p)).
Proof.
  intros H. apply NoDup_map_iff. intros x y Hx Hy. split; [|by intros [= E1 E2]; unfold input_key; rewrite E1, E2].
  destruct (H x Hx) as (s & t & out & inp & _ & _ & _ & _ & _ & Hi & _), (H y Hy) as (s' & t' & out' & inp' & _ & _ & _ & _ & _ & Hi' & _).
  apply input_port_no_dot in Hi as [_ Hi], Hi' as [_ Hi']. by apply input_key_inj.
Qed.

(** C10: What the editor may save and run: [validate] finds no problem in a JSON
    value exactly when it is read as a pipeline that is well typed, that is,
    its stages and edges have distinct ids, every stage is of the catalogue and
    each of its parameters is a number within the range the catalogue gives it,
    every edge goes from an output to an input of existing stages and the two
    ports have the same type, no input has two sources, and no stage depends on
    itself. *)
Theorem validate_is_typing v : validate v = [] <-> exists p ps, read_pipeline v = inr (p, ps) /\ well_typed p.
Proof.
  unfold validate. destruct (read_pipeline v) as [x|[p ps]] eqn:E; [split; [done|by intros (p & ps & [=] & _)]|].
  transitivity (well_typed p); [|split; [intros H; by exists p, ps|by intros (p' & ps' & [= <- <-] & H)]].
  unfold read_pipeline in E. destruct (read_shape v) as [[[[[[id name] uid] at_] nodes] edges]|]; [|done].
  destruct (read_nodes nodes []) as [[ns ps1]|] eqn:En; [|done]. destruct (read_edges edges []) as [[es ps2]|] eqn:Ee; [|done]. injection E as <- <-.
  destruct (read_nodes_ok _ _ _ _ En) as [Hne H1]. pose proof (read_edges_ok _ _ _ _ Ee) as H2.
  set (p := {| pl_id := id; pl_name := name; pl_uid := uid; pl_nodes := ns; pl_edges := es; pl_updatedAt := at_ |}).
  assert (EmptyString ∉ map gn_id ns) as He by (intros (n & En' & Hn)%list_elem_of_fmap; by apply (Hne n)).
  transitivity (ps1 = [] /\ ps2 = [] /\ graph_problems p = []).
  { split; [by intros [[? ?]%app_eq_nil ?]%app_eq_nil|by intros (-> & -> & ->)]. }
  rewrite H1, H2. clear H1 H2 En Ee. split.
  - intros ((Hn & _ & Hp) & [Hex _] & Hg). apply graph_problems_ok in Hg as (Hs & Hep & Hk & Hc); [|done|done].
    setoid_rewrite (edge_ports p Hn) in Hep. constructor; try done; [by apply stage_params_ok|by rewrite <- (single_source p Hep)].
  - intros [W1 W2 W3 W4 W5 W6]. split_and!; try done; [set_solver|by apply stage_params_ok|set_solver|].
    apply graph_problems_ok; [done|done|]. split_and!; [intros n Hn; destruct (W3 n Hn) as (s & -> & _); done|by setoid_rewrite (edge_ports p W1)|by rewrite (single_source p W4)|done].
Qed.

Lemma validate_is_typing_witness : exists p ps, read_pipeline (pipeline_json (defaultPipeline "aa:bb:cc:dd:ee:01" 5)) = inr (p, ps) /\ well_typed p.
Proof. apply validate_is_typing. vm_compute. reflexivity. Defined.


Lemma order_is_topological_witness : stands_before "bg-1" "human-1" ["thermal-1"; "bg-1"; "stats-1"; "human-1"; "proj-1"; "heat-1"; "desk-1"; "occ-1"; "map-1"].
Proof.
  destruct (order_is_topological (defaultPipeline "aa:bb:cc:dd:ee:01" 5)) as (_ & H & _). destruct (H _ default_order) as (_ & _ & Hb).
  apply Hb. exists (e "bg-1" "foreground" "human-1" "foreground"). cbn. set_solver.
Defined.
