(* ===== verification/Params.v ===== *)
(** Parameter writes of the debugger (src/algo/params.ts): temporary changes of
    device and edge parameters, their recovery journal and the way back. The
    file system answers each save of the journal from a list the state carries;
    what the nodes report is an argument of every operation; the asynchronous
    command of a change is a flight that an event lands. *)

From S2P Require Import Prelude Json Graph Protocol Registry Occupancy.

(** @algo/params.ts 27-27 REVERT_MS *)
Definition REVERT_MS : Z := 15 * 60000.

Record Limits := { li_lo : Q; li_hi : Q; li_unit : string }.

(** @algo/params.ts 33-40 EDGE_PARAMS *)
Definition EDGE_PARAMS : list (string * Limits) :=
  [("occupancy.seatRadiusCm", {| li_lo := 20; li_hi := 300; li_unit := "cm" |});
   ("occupancy.mergeCm", {| li_lo := 0; li_hi := 200; li_unit := "cm" |});
   ("occupancy.enterWindow", {| li_lo := 1; li_hi := 60; li_unit := "frames" |});
   ("occupancy.enterMin", {| li_lo := 1; li_hi := 60; li_unit := "frames" |});
   ("occupancy.releaseMs", {| li_lo := 2000; li_hi := 300000; li_unit := "ms" |});
   ("occupancy.staleMs", {| li_lo := 2000; li_hi := 120000; li_unit := "ms" |})].

Inductive Kind := KDevice | KEdge.
#[export] Instance kind_eq_dec : EqDecision Kind.
Proof. solve_decision. Defined.

(** [pc_ref] is the identity of the object, which flights keep hold of.
    @algo/params.ts 42-60 PendingChange *)
Record PendingChange := {
  pc_uid : string; pc_nodeId : string; pc_param : string; pc_binding : Kind; pc_from : option Q; pc_to : Q; pc_at : Z; pc_revertAt : Z;
  pc_confirmedAt : option Z; pc_cmdSeq : option Z; pc_commandAt : option Z; pc_commandBoot : option Z; pc_commandGeneration : option Z;
  pc_restoring : bool; pc_ref : nat }.

Inductive Action := AApply | ACommit | ARevert | APersist.
(** @algo/types.ts 145-157 AuditEntry *)
Record AuditEntry := {
  ae_at : Z; ae_uid : string; ae_nodeId : string; ae_param : string; ae_binding : Kind; ae_from : option Q; ae_to : Q; ae_by : string;
  ae_revertAt : option Z; ae_action : Action }.

(** What a save of the journal does: the file is replaced and synced; nothing is
    replaced; or it is replaced and the sync of its directory fails. *)
Inductive Saved := SaveOk | SaveFailed | SaveLate.

Definition Key : Type := string * string.

(** A command on its way: the apply or the revert of a change. *)
Record Flight := { fl_change : PendingChange; fl_revert : bool; fl_by : string; fl_previous : Q }.
(** A command given to the ingest: (uid, opcode, argument, value). *)
Record Sent := { se_uid : string; se_opcode : Z; se_argument : nat; se_value : Q }.

(** @algo/params.ts 62-69 ParamBroker *)
Record ParamBroker := {
  br_pending : list (Key * PendingChange); br_audit : list AuditEntry; br_journal : option (list PendingChange);
  br_reverting : list (Key * Flight); br_persisting : list (string * string);
  br_engine : Engine; br_sent : list Sent; br_disk : list Saved; br_next : nat }.

(** What the nodes and the links report at an instant. *)
Record NodeReport := { nr_params : list (string * Q); nr_lastCmd : Z; nr_receivedAt : Z; nr_generation : option Z }.
Record Env := { ev_now : Z; ev_status : string -> option NodeReport; ev_boot : string -> option Z; ev_link : string -> option Z }.

Definition with_pending (v : list (Key * PendingChange)) (st : ParamBroker) : ParamBroker :=
  {| br_pending := v; br_audit := br_audit st; br_journal := br_journal st; br_reverting := br_reverting st; br_persisting := br_persisting st;
     br_engine := br_engine st; br_sent := br_sent st; br_disk := br_disk st; br_next := br_next st |}.
Definition with_reverting (v : list (Key * Flight)) (st : ParamBroker) : ParamBroker :=
  {| br_pending := br_pending st; br_audit := br_audit st; br_journal := br_journal st; br_reverting := v; br_persisting := br_persisting st;
     br_engine := br_engine st; br_sent := br_sent st; br_disk := br_disk st; br_next := br_next st |}.
Definition with_persisting (v : list (string * string)) (st : ParamBroker) : ParamBroker :=
  {| br_pending := br_pending st; br_audit := br_audit st; br_journal := br_journal st; br_reverting := br_reverting st; br_persisting := v;
     br_engine := br_engine st; br_sent := br_sent st; br_disk := br_disk st; br_next := br_next st |}.
Definition with_engine (v : Engine) (st : ParamBroker) : ParamBroker :=
  {| br_pending := br_pending st; br_audit := br_audit st; br_journal := br_journal st; br_reverting := br_reverting st; br_persisting := br_persisting st;
     br_engine := v; br_sent := br_sent st; br_disk := br_disk st; br_next := br_next st |}.
Definition send_out (c : Sent) (st : ParamBroker) : ParamBroker :=
  {| br_pending := br_pending st; br_audit := br_audit st; br_journal := br_journal st; br_reverting := br_reverting st; br_persisting := br_persisting st;
     br_engine := br_engine st; br_sent := br_sent st ++ [c]; br_disk := br_disk st; br_next := br_next st |}.

(** @algo/params.ts 105-107 key *)
Definition key (uid param : string) : Key := (if starts_with "occupancy." param then "*" else uid, param).

(** @algo/params.ts 109-116 savePending *)
Definition savePending (st : ParamBroker) : ParamBroker * bool :=
  match br_journal st with
  | None => (st, true)
  | Some old =>
      let answer := hd SaveOk (br_disk st) in
      let new := List.filter (fun c => bool_decide (pc_binding c = KDevice)) (map snd (br_pending st)) in
      ({| br_pending := br_pending st; br_audit := br_audit st; br_journal := Some (match answer with SaveFailed => old | _ => new end);
          br_reverting := br_reverting st; br_persisting := br_persisting st; br_engine := br_engine st; br_sent := br_sent st;
          br_disk := tail (br_disk st); br_next := br_next st |},
       match answer with SaveOk => true | _ => false end)
  end.

(** @algo/params.ts 118-126 log *)
Definition log (e : AuditEntry) (st : ParamBroker) : ParamBroker :=
  {| br_pending := br_pending st; br_audit := push_cap 500 e (br_audit st); br_journal := br_journal st; br_reverting := br_reverting st;
     br_persisting := br_persisting st; br_engine := br_engine st; br_sent := br_sent st; br_disk := br_disk st; br_next := br_next st |}.

(** ** Confirmation by the status of the node *)

(** [status.params?.[c.param]], [status.lastCmd >= c.cmdSeq]
    @algo/params.ts 147-154 confirm *)
Definition shows (env : Env) (c : PendingChange) : bool :=
  match ev_status env (pc_uid c) with
  | None => false
  | Some s =>
      if match pc_commandGeneration c with Some g => default 0 (nr_generation s) <=? g | None => false end then false
      else if (nr_receivedAt s <? default (pc_at c) (pc_commandAt c)) ||
              match pc_commandBoot c with Some b => negb (bool_decide (ev_boot env (pc_uid c) = Some b)) | None => false end then false
      else match pc_cmdSeq c with Some q => q <=? nr_lastCmd s | None => false end &&
           match om_get (pc_param c) (nr_params s) with Some v => Qeqb v (pc_to c) | None => false end
  end.

Definition confirmed (now : Z) (c : PendingChange) : PendingChange :=
  {| pc_uid := pc_uid c; pc_nodeId := pc_nodeId c; pc_param := pc_param c; pc_binding := pc_binding c; pc_from := pc_from c; pc_to := pc_to c;
     pc_at := pc_at c; pc_revertAt := pc_revertAt c; pc_confirmedAt := Some now; pc_cmdSeq := pc_cmdSeq c; pc_commandAt := pc_commandAt c;
     pc_commandBoot := pc_commandBoot c; pc_commandGeneration := pc_commandGeneration c; pc_restoring := pc_restoring c; pc_ref := pc_ref c |}.

(** @algo/params.ts 146-154 confirm *)
Definition settles (env : Env) (c : PendingChange) : bool :=
  bool_decide (pc_confirmedAt c = None) && bool_decide (pc_binding c = KDevice) && shows env c.

(** The entries after the pass over the map, and those it took out.
    @algo/params.ts 144-158 confirm *)
Definition confirm_pass (env : Env) (pending : list (Key * PendingChange)) : list (Key * PendingChange) * list (Key * PendingChange) :=
  (map (fun p => (p.1, if settles env p.2 then confirmed (ev_now env) p.2 else p.2)) (List.filter (fun p => negb (settles env p.2 && pc_restoring p.2)) pending),
   List.filter (fun p => settles env p.2 && pc_restoring p.2) pending).

Definition set_all (l : list (Key * PendingChange)) (m : list (Key * PendingChange)) : list (Key * PendingChange) :=
  fold_left (fun m p => om_set p.1 p.2 m) l m.

(** @algo/params.ts 143-166 confirm *)
Definition confirm (env : Env) (st : ParamBroker) : ParamBroker :=
  let '(left_, restored) := confirm_pass env (br_pending st) in
  let st := with_pending left_ st in
  match restored with
  | [] => st
  | _ => match savePending st with
         | (st, true) => st
         | (st, false) => with_pending (set_all restored (br_pending st)) st
         end
  end.

(** @algo/params.ts 128-131 changes *)
Definition changes (env : Env) (st : ParamBroker) : ParamBroker * list PendingChange :=
  let st := confirm env st in (st, map snd (br_pending st)).

(** @algo/params.ts 177-179 deviceParams *)
Definition deviceParams (env : Env) (uid : string) : list (string * Q) := from_option nr_params [] (ev_status env uid).

(** @algo/params.ts 190-200 requested *)
Definition requested (env : Env) (uid : string) (st : ParamBroker) : ParamBroker * list (string * Q) :=
  let st := confirm env st in
  (st, fold_left (fun out c => if bool_decide (pc_uid c = uid) && bool_decide (pc_binding c = KDevice) && bool_decide (pc_confirmedAt c = None)
                               then om_set (pc_param c) (pc_to c) out else out) (map snd (br_pending st)) []).

(** @algo/params.ts 202-212 edgeParams *)
Definition edgeParams (st : ParamBroker) : list (string * Q) :=
  let o := en_opts (br_engine st) in
  [("occupancy.seatRadiusCm", seatRadiusCm o); ("occupancy.mergeCm", mergeCm o); ("occupancy.enterWindow", inject_Z (enterWindow o));
   ("occupancy.enterMin", inject_Z (enterMin o)); ("occupancy.releaseMs", releaseMs o); ("occupancy.staleMs", staleMs o)].

(** @algo/params.ts 390-391 setEdge *)
Definition patch_of (path : string) (v : Q) : Patch :=
  let one s := if bool_decide (path = s) then Some (Finite v) else None in
  {| pt_staleMs := one "occupancy.staleMs"; pt_releaseMs := one "occupancy.releaseMs"; pt_seatRadiusCm := one "occupancy.seatRadiusCm";
     pt_enterWindow := one "occupancy.enterWindow"; pt_enterMin := one "occupancy.enterMin"; pt_mergeCm := one "occupancy.mergeCm" |}.
(** @algo/params.ts 389-392 setEdge *)
Definition setEdge (path : string) (v : Q) (st : ParamBroker) : result string ParamBroker :=
  let! p := setOptions (br_engine st) (patch_of path v) in Ok (with_engine p.1 st).

(** ** Changing a parameter *)

Definition is_integer (q : Q) : bool := Qnum q mod Zpos (Qden q) =? 0.
Definition finite (v : jsnum) : option Q := match v with Finite q => Some q | NotFinite => None end.

(** The name of the parameter, its binding and the value it has now.
    @algo/params.ts 228-247 apply *)
Definition baseline (env : Env) (uid : string) (binding : ParamBinding) (value : jsnum) (st : ParamBroker) : result string (string * Kind * Q * option Q) :=
  match binding with
  | Device name =>
      match om_get name PARAM_LIMITS with
      | None => Err (name +:+ " is not a node parameter")
      | Some (lo, hi) =>
          match finite value with
          | None => Err "a node parameter is an integer on the wire"
          | Some v =>
              throw_if negb (is_integer v) with "a node parameter is an integer on the wire" in
              throw_if Qltb v (inject_Z lo) || Qltb (inject_Z hi) v
                with "the node only accepts " +:+ name +:+ " between " +:+ show lo +:+ " and " +:+ show hi +:+ "; it would ignore " +:+ show (Qfloor v) in
              match om_get name (deviceParams env uid) with
              | None => Err "wait for a STATUS with the current parameter before changing it"
              | Some q => Ok (name, KDevice, v, Some q)
              end
          end
      end
  | Edge path =>
      match om_get path EDGE_PARAMS with
      | None => Err (path +:+ " is not a tunable edge parameter")
      | Some l =>
          let why := path +:+ " must be between " +:+ show (Qfloor (li_lo l)) +:+ " and " +:+ show (Qfloor (li_hi l)) +:+ " " +:+ li_unit l in
          match finite value with
          | None => Err why
          | Some v =>
              throw_if Qltb v (li_lo l) || Qltb (li_hi l) v with why in
              Ok (path, KEdge, v, om_get path (edgeParams st))
          end
      end
  | Local => Err "that parameter is local to the debugger and needs no write"
  end.

Definition flying (k : Key) (st : ParamBroker) : bool := om_has k (br_reverting st).
Definition saving (uid : string) (st : ParamBroker) : bool := om_has uid (br_persisting st).

(** @algo/params.ts 255-271 apply *)
Definition new_change (env : Env) (uid nodeId param : string) (kind : Kind) (from : option Q) (v : Q) (ref : nat) : PendingChange :=
  let device := bool_decide (kind = KDevice) in
  {| pc_uid := uid; pc_nodeId := nodeId; pc_param := param; pc_binding := kind; pc_from := from; pc_to := v; pc_at := ev_now env;
     pc_revertAt := ev_now env + REVERT_MS; pc_confirmedAt := if device then None else Some (ev_now env); pc_cmdSeq := None;
     pc_commandAt := Some (ev_now env);
     pc_commandBoot := if device then ev_link env uid else None;
     pc_commandGeneration := if device then s ← ev_status env uid; nr_generation s else None;
     pc_restoring := false; pc_ref := ref |}.

Definition restore_entry (k : Key) (existing : option PendingChange) (st : ParamBroker) : ParamBroker :=
  with_pending (match existing with Some c => om_set k c (br_pending st) | None => om_del k (br_pending st) end) st.

Definition next_ref (st : ParamBroker) : ParamBroker :=
  {| br_pending := br_pending st; br_audit := br_audit st; br_journal := br_journal st; br_reverting := br_reverting st; br_persisting := br_persisting st;
     br_engine := br_engine st; br_sent := br_sent st; br_disk := br_disk st; br_next := S (br_next st) |}.

Definition entry_of (uid : string) (c : PendingChange) (action : Action) (at_ : Z) (from : option Q) (to : Q) (by_ : string) (revertAt : option Z) : AuditEntry :=
  {| ae_at := at_; ae_uid := uid; ae_nodeId := pc_nodeId c; ae_param := pc_param c; ae_binding := pc_binding c; ae_from := from; ae_to := to;
     ae_by := by_; ae_revertAt := revertAt; ae_action := action |}.

Inductive Answer := Refused (why : string) | Applied | OnItsWay | Yes | No.

(** [apply] up to the command it waits for; an edge parameter is done at once.
    @algo/params.ts 219-301 apply *)
Definition apply (env : Env) (uid nodeId : string) (binding : ParamBinding) (value : jsnum) (by_ : string) (st : ParamBroker) : ParamBroker * Answer :=
  if saving uid st then (st, Refused "wait for the parameter save to finish")
  else
    match baseline env uid binding value st with
    | Err why => (st, Refused why)
    | Ok (param, kind, v, from) =>
        let k := key uid param in
        if flying k st then (st, Refused "wait for the current parameter command to finish")
        else
          let existing := om_get k (br_pending st) in
          let c := new_change env uid nodeId param kind (match existing with Some x => pc_from x | None => from end) v (br_next st) in
          let st := next_ref (with_pending (om_set k c (br_pending st)) st) in
          match savePending st with
          | (st, false) => (fst (savePending (restore_entry k existing st)), Refused "the journal cannot be written")
          | (st, true) =>
              match kind with
              | KDevice =>
                  let st := with_reverting (om_set k {| fl_change := c; fl_revert := false; fl_by := by_; fl_previous := v |} (br_reverting st)) st in
                  (send_out {| se_uid := uid; se_opcode := CMD_SET_PARAM; se_argument := default O (index_of param PARAM_NAMES); se_value := v |} st, OnItsWay)
              | KEdge =>
                  match setEdge param v st with
                  | Ok st => (log (entry_of uid c AApply (ev_now env) (pc_from c) v by_ (Some (pc_revertAt c))) st, Applied)
                  | Err why => (fst (savePending (restore_entry k existing st)), Refused why)
                  end
              end
          end
    end.

(** A change to the object of a flight, as far as the map still holds it. *)
Definition touch (k : Key) (ref : nat) (f : PendingChange -> PendingChange) (st : ParamBroker) : ParamBroker :=
  match om_get k (br_pending st) with
  | Some c => if Nat.eqb (pc_ref c) ref then with_pending (om_set k (f c) (br_pending st)) st else st
  | None => st
  end.

Definition retry_at (at_ : Z) (c : PendingChange) : PendingChange :=
  {| pc_uid := pc_uid c; pc_nodeId := pc_nodeId c; pc_param := pc_param c; pc_binding := pc_binding c; pc_from := pc_from c; pc_to := pc_to c;
     pc_at := pc_at c; pc_revertAt := at_; pc_confirmedAt := pc_confirmedAt c; pc_cmdSeq := pc_cmdSeq c; pc_commandAt := pc_commandAt c;
     pc_commandBoot := pc_commandBoot c; pc_commandGeneration := pc_commandGeneration c; pc_restoring := pc_restoring c; pc_ref := pc_ref c |}.
Definition sent_as (seq : Z) (c : PendingChange) : PendingChange :=
  {| pc_uid := pc_uid c; pc_nodeId := pc_nodeId c; pc_param := pc_param c; pc_binding := pc_binding c; pc_from := pc_from c; pc_to := pc_to c;
     pc_at := pc_at c; pc_revertAt := pc_revertAt c; pc_confirmedAt := pc_confirmedAt c; pc_cmdSeq := Some seq; pc_commandAt := pc_commandAt c;
     pc_commandBoot := pc_commandBoot c; pc_commandGeneration := pc_commandGeneration c; pc_restoring := pc_restoring c; pc_ref := pc_ref c |}.
(** @algo/params.ts 332-334 revert *)
Definition aimed (env : Env) (uid : string) (c : PendingChange) : PendingChange :=
  {| pc_uid := pc_uid c; pc_nodeId := pc_nodeId c; pc_param := pc_param c; pc_binding := pc_binding c; pc_from := pc_from c; pc_to := pc_to c;
     pc_at := pc_at c; pc_revertAt := pc_revertAt c; pc_confirmedAt := pc_confirmedAt c; pc_cmdSeq := pc_cmdSeq c; pc_commandAt := Some (ev_now env);
     pc_commandBoot := ev_link env uid; pc_commandGeneration := s ← ev_status env uid; nr_generation s; pc_restoring := pc_restoring c; pc_ref := pc_ref c |}.
(** @algo/params.ts 335-339 revert *)
Definition going_back (seq now : Z) (c : PendingChange) : PendingChange :=
  {| pc_uid := pc_uid c; pc_nodeId := pc_nodeId c; pc_param := pc_param c; pc_binding := pc_binding c; pc_from := pc_from c;
     pc_to := default (pc_to c) (pc_from c); pc_at := pc_at c; pc_revertAt := now + 5000; pc_confirmedAt := None; pc_cmdSeq := Some seq;
     pc_commandAt := pc_commandAt c; pc_commandBoot := pc_commandBoot c; pc_commandGeneration := pc_commandGeneration c; pc_restoring := true;
     pc_ref := pc_ref c |}.

(** The end of a revert that did not throw: [c] is the change it put back.
    @algo/params.ts 350-358 revert *)
Definition revert_ends (env : Env) (uid : string) (k : Key) (c : PendingChange) (by_ : string) (previous : Q) (st : ParamBroker) : ParamBroker * Answer :=
  let st := if bool_decide (pc_binding c = KDevice) then st else with_pending (om_del k (br_pending st)) st in
  match savePending st with
  | (st, false) => (st, Refused "the journal cannot be written")
  | (st, true) => (log (entry_of uid c ARevert (ev_now env) (Some previous) (default previous (pc_from c)) by_ None) (confirm env st), Yes)
  end.

(** [revert] up to the command it waits for.
    @algo/params.ts 319-349 revert *)
Definition revert (env : Env) (uid param by_ : string) (st : ParamBroker) : ParamBroker * Answer :=
  let k := key uid param in
  match om_get k (br_pending st) with
  | None => (st, No)
  | Some c =>
      if flying k st || saving uid st then (st, No)
      else
        let failed (st : ParamBroker) why := (fst (savePending (touch k (pc_ref c) (retry_at (ev_now env + 5000)) st)), Refused why) in
        match pc_from c with
        | None => revert_ends env uid k c by_ (pc_to c) st
        | Some from =>
            match pc_binding c with
            | KDevice =>
                match index_of (pc_param c) PARAM_NAMES with
                | None => failed st "invalid recovery parameter"
                | Some id =>
                    let st := touch k (pc_ref c) (aimed env uid) st in
                    let st := with_reverting (om_set k {| fl_change := c; fl_revert := true; fl_by := by_; fl_previous := pc_to c |} (br_reverting st)) st in
                    (send_out {| se_uid := uid; se_opcode := CMD_SET_PARAM; se_argument := id; se_value := from |} st, OnItsWay)
                end
            | KEdge =>
                match setEdge (pc_param c) from st with
                | Ok st => revert_ends env uid k c by_ (pc_to c) st
                | Err why => failed st why
                end
            end
        end
  end.

(** The command of a flight was sent under a sequence number, or failed.
    @algo/params.ts 280-300 apply *)
Definition apply_lands (env : Env) (k : Key) (fl : Flight) (answer : option Z) (st : ParamBroker) : ParamBroker * Answer :=
  let st := with_reverting (om_del k (br_reverting st)) st in
  match answer with
  | Some seq =>
      let c := fl_change fl in
      (log (entry_of (pc_uid c) c AApply (pc_at c) (pc_from c) (fl_previous fl) (fl_by fl) (Some (pc_revertAt c))) (touch k (pc_ref c) (sent_as seq) st), Applied)
  | None => (touch k (pc_ref (fl_change fl)) (retry_at (ev_now env + 5000)) st, Refused "the command failed")
  end.

(** @algo/params.ts 335-358 revert *)
Definition revert_lands (env : Env) (k : Key) (fl : Flight) (answer : option Z) (st : ParamBroker) : ParamBroker * Answer :=
  let st := with_reverting (om_del k (br_reverting st)) st in
  match answer with
  | None => (fst (savePending (touch k (pc_ref (fl_change fl)) (retry_at (ev_now env + 5000)) st)), Refused "the command failed")
  | Some seq =>
      let st := touch k (pc_ref (fl_change fl)) (going_back seq (ev_now env)) st in
      match savePending st with
      | (st, false) => (st, Refused "the journal cannot be written")
      | (st, true) =>
          let c := fl_change fl in
          (log (entry_of (pc_uid c) c ARevert (ev_now env) (Some (fl_previous fl)) (default (fl_previous fl) (pc_from c)) (fl_by fl) None) (confirm env st), Yes)
      end
  end.

Definition lands (env : Env) (k : Key) (answer : option Z) (st : ParamBroker) : ParamBroker :=
  match om_get k (br_reverting st) with
  | None => st
  | Some fl => fst ((if fl_revert fl then revert_lands else apply_lands) env k fl answer st)
  end.

(** @algo/params.ts 304-316 commit *)
Definition commit (env : Env) (uid param by_ : string) (st : ParamBroker) : ParamBroker * Answer :=
  let k := key uid param in
  if flying k st then (st, Refused "wait for the current parameter command to finish")
  else
    match om_get k (br_pending st) with
    | None => (st, No)
    | Some c =>
        match savePending (with_pending (om_del k (br_pending st)) st) with
        | (st, false) => (with_pending (om_set k c (br_pending st)) st, Refused "the journal cannot be written")
        | (st, true) => (log (entry_of uid c ACommit (ev_now env) (pc_from c) (pc_to c) by_ None) st, Yes)
        end
    end.

Definition of_device (uid : string) (c : PendingChange) : bool := bool_decide (pc_uid c = uid) && bool_decide (pc_binding c = KDevice).

(** @algo/params.ts 366-373 persist *)
Definition persist (uid by_ : string) (st : ParamBroker) : ParamBroker * Answer :=
  if saving uid st then (st, Refused "wait for the parameter save to finish")
  else if existsb (fun p => bool_decide (pc_uid p.2 = uid) && (flying p.1 st || pc_restoring p.2)) (br_pending st)
  then (st, Refused "wait for the current parameter command and recovery to finish")
  else (send_out {| se_uid := uid; se_opcode := CMD_SAVE_PARAMS; se_argument := O; se_value := 0 |} (with_persisting (om_set uid by_ (br_persisting st)) st), OnItsWay).

(** @algo/params.ts 373-387 persist *)
Definition persist_lands (env : Env) (uid : string) (sent : bool) (st : ParamBroker) : ParamBroker :=
  match om_get uid (br_persisting st) with
  | None => st
  | Some by_ =>
      let st := with_persisting (om_del uid (br_persisting st)) st in
      if negb sent then st
      else
        let previous := List.filter (fun p => of_device uid p.2) (br_pending st) in
        match savePending (with_pending (List.filter (fun p => negb (of_device uid p.2)) (br_pending st)) st) with
        | (st, false) => with_pending (set_all previous (br_pending st)) st
        | (st, true) =>
            log {| ae_at := ev_now env; ae_uid := uid; ae_nodeId := "device"; ae_param := "*"; ae_binding := KDevice; ae_from := None; ae_to := 0;
                   ae_by := by_; ae_revertAt := None; ae_action := APersist |} st
        end
  end.

(** @algo/params.ts 394-400 sweep *)
Definition sweep (env : Env) (st : ParamBroker) : ParamBroker :=
  fold_left (fun st p =>
    if ev_now env <? pc_revertAt p.2 then st
    else if flying p.1 st then st
    else fst (revert env (pc_uid p.2) (pc_param p.2) "auto-revert" st)) (br_pending st) st.

(** ** Starting again from the journal *)

(** @algo/params.ts 81-83 ParamBroker *)
Definition loadable (c : PendingChange) : bool :=
  bool_decide (pc_binding c = KDevice) && is_uid (pc_uid c) &&
  match om_get (pc_param c) PARAM_LIMITS, pc_from c with
  | Some (lo, hi), Some q => is_integer q && negb (Qltb q (inject_Z lo) || Qltb (inject_Z hi) q)
  | _, _ => false
  end.

(** The entries are objects of their own: they are numbered from 0.
    @algo/params.ts 71-91 ParamBroker *)
Definition reload (now : Z) (engine : Engine) (disk : list Saved) (journal : option (list PendingChange)) : result string ParamBroker :=
  let saved := default [] journal in
  throw_if 50000 <? Z.of_nat (length saved) with "invalid pending parameter journal" in
  throw_if negb (forallb loadable saved) with "invalid pending parameter journal entry" in
  Ok {| br_pending := fold_left (fun m p => om_set (key (pc_uid p.2) (pc_param p.2)) (p.2) m)
          (imap (fun i c => (i, {| pc_uid := pc_uid c; pc_nodeId := pc_nodeId c; pc_param := pc_param c; pc_binding := pc_binding c; pc_from := pc_from c;
             pc_to := pc_to c; pc_at := pc_at c; pc_revertAt := now; pc_confirmedAt := pc_confirmedAt c; pc_cmdSeq := pc_cmdSeq c;
             pc_commandAt := pc_commandAt c; pc_commandBoot := pc_commandBoot c; pc_commandGeneration := pc_commandGeneration c;
             pc_restoring := pc_restoring c; pc_ref := i |})) saved) [];
        br_audit := []; br_journal := journal; br_reverting := []; br_persisting := []; br_engine := engine; br_sent := []; br_disk := disk;
        br_next := length saved |}.

Inductive Event :=
| EApply (env : Env) (uid nodeId : string) (b : ParamBinding) (value : jsnum) (by_ : string)
| ELands (env : Env) (k : Key) (answer : option Z)
| ECommit (env : Env) (uid param by_ : string)
| ERevert (env : Env) (uid param by_ : string)
| EPersist (uid by_ : string)
| EPersistLands (env : Env) (uid : string) (sent : bool)
| ELook (env : Env)
| ESweep (env : Env).

Definition broker_step (st : ParamBroker) (e : Event) : ParamBroker :=
  match e with
  | EApply env uid nodeId b v by_ => fst (apply env uid nodeId b v by_ st)
  | ELands env k answer => lands env k answer st
  | ECommit env uid param by_ => fst (commit env uid param by_ st)
  | ERevert env uid param by_ => fst (revert env uid param by_ st)
  | EPersist uid by_ => fst (persist uid by_ st)
  | EPersistLands env uid sent => persist_lands env uid sent st
  | ELook env => confirm env st
  | ESweep env => sweep env st
  end.

(** ** The journal covers every change that is pending

    What a change goes back to: its node, its parameter, its binding and its
    value before anyone started. *)
Definition base (c : PendingChange) : string * string * Kind * option Q := (pc_uid c, pc_param c, pc_binding c, pc_from c).

Definition keyed (p : list (Key * PendingChange)) : Prop := forall x, x ∈ p -> x.1 = key (pc_uid x.2) (pc_param x.2).

(** The map a journal is read as: a later entry for a key replaces an earlier. *)
Definition journal_map (j : list PendingChange) : list (Key * PendingChange) :=
  fold_left (fun m c => om_set (key (pc_uid c) (pc_param c)) c m) j [].

Definition covers (journal : list PendingChange) (pending : list (Key * PendingChange)) : Prop :=
  forall p, p ∈ pending -> pc_binding p.2 = KDevice -> exists c, om_get p.1 (journal_map journal) = Some c /\ base c = base p.2.

(** Every change of [q] was there in [p]. *)
Definition from_old (q p : list (Key * PendingChange)) : Prop := forall x, x ∈ q -> exists y, y ∈ p /\ y.1 = x.1 /\ base y.2 = base x.2.

Lemma from_old_refl p : from_old p p.
Proof. intros x Hx. by exists x. Qed.
Lemma from_old_trans p q r : from_old r q -> from_old q p -> from_old r p.
Proof. intros H1 H2 x Hx. destruct (H1 x Hx) as (y & Hy & E1 & E2). destruct (H2 y Hy) as (z & Hz & E3 & E4). exists z. split_and!; [done|congruence|congruence]. Qed.
Lemma from_old_sub q p : (forall x, x ∈ q -> x ∈ p) -> from_old q p.
Proof. intros H x Hx. exists x. auto. Qed.
#[local] Hint Resolve from_old_refl : core.

Lemma covers_old j p q : covers j p -> from_old q p -> covers j q.
Proof.
  intros H Hq x Hx Hd. destruct (Hq x Hx) as (y & Hy & Ek & Eb). destruct (H y Hy) as (c & Hc & Ec); [by unfold base in Eb; congruence|]. rewrite <- Ek. exists c. split; [done|congruence].
Qed.

Lemma from_old_filter f p : from_old (List.filter f p) p.
Proof. apply from_old_sub. intros x Hx. apply list_elem_of_In in Hx. apply filter_In in Hx as [Hx _]. by apply list_elem_of_In. Qed.

Lemma from_old_del (k : Key) p : from_old (om_del k p) p.
Proof. apply from_old_filter. Qed.

Lemma from_old_set (k : Key) (c c0 : PendingChange) p : om_get k p = Some c0 -> base c = base c0 -> from_old (om_set k c p) p.
Proof.
  intros Hg Hb x [->|Hx]%om_set_elem; [|by exists x]. exists (k, c0). split_and!; [by apply om_get_elem|done|by symmetry].
Qed.

Lemma from_old_set_all l p q : from_old p q -> from_old l q -> from_old (set_all l p) q.
Proof.
  unfold set_all. revert p. induction l as [|x l IH]; intros p Hp Hl; [done|]. cbn [fold_left]. apply IH; [|intros y Hy; apply Hl; by right].
  intros y [->|Hy]%om_set_elem; [|by apply Hp]. destruct (Hl x) as (z & Hz & E1 & E2); [by left|]. by exists z.
Qed.

(** Edge parameters are the ones under "occupancy."; a device parameter has a
    value to go back to. *)
Definition kind_ok (c : PendingChange) : Prop :=
  match pc_binding c with
  | KDevice => starts_with "occupancy." (pc_param c) = false /\ is_Some (pc_from c)
  | KEdge => starts_with "occupancy." (pc_param c) = true
  end.

Lemma base_kind_ok c c' : base c = base c' -> kind_ok c -> kind_ok c'.
Proof. unfold base, kind_ok. by intros [= _ -> -> ->]. Qed.

(** A journal that can be written and is in step with the changes. *)
Record in_step (st : ParamBroker) : Prop := {
  is_journal : exists j, br_journal st = Some j /\ covers j (br_pending st);
  is_disk : SaveLate ∉ br_disk st;
  is_nodup : NoDup (om_keys (br_pending st));
  is_keys : keyed (br_pending st);
  is_kinds : forall p, p ∈ br_pending st -> kind_ok p.2 }.

Definition devices (p : list (Key * PendingChange)) : list PendingChange := List.filter (fun c => bool_decide (pc_binding c = KDevice)) (map snd p).

Lemma journal_map_devices p : forall m, keyed p -> NoDup (om_keys p) -> (forall k, k ∈ om_keys p -> om_get k m = None) ->
  forall k c, om_get k p = Some c -> pc_binding c = KDevice -> om_get k (fold_left (fun m c => om_set (key (pc_uid c) (pc_param c)) c m) (devices p) m) = Some c.
Proof.
  assert (forall p m k, keyed p -> k ∉ om_keys p -> om_get k (fold_left (fun m c => om_set (key (pc_uid c) (pc_param c)) c m) (devices p) m) = om_get k m) as Hout.
  { clear. induction p as [|[k' c'] p IH]; intros m k Hk Hn; [done|]. unfold devices. cbn [map List.filter snd].
    assert (keyed p) as Hk' by (intros x Hx; apply Hk; by right). assert (k ∉ om_keys p) as Hn' by (intros Hi; apply Hn; by right).
    destruct (bool_decide (pc_binding c' = KDevice)); [|by apply IH]. cbn [fold_left]. fold (devices p). rewrite IH by done. apply om_get_set_ne.
    pose proof (Hk (k', c') ltac:(by left)) as E. cbn in E. rewrite <- E. intros ->. apply Hn. by left. }
  induction p as [|[k' c'] p IH]; intros m Hk Hn Hm k c; [done|]. cbn [om_get]. cbn [om_keys map fst] in Hn. apply NoDup_cons in Hn as [Hni Hn].
  assert (keyed p) as Hk' by (intros x Hx; apply Hk; by right). pose proof (Hk (k', c') ltac:(by left)) as E. cbn in E.
  unfold devices. cbn [map List.filter snd]. case_bool_decide as Ekk.
  - intros [= ->] Hd. subst k. rewrite bool_decide_eq_true_2 by done. cbn [fold_left]. fold (devices p). rewrite (Hout p _ _ Hk' Hni). rewrite <- E. apply om_get_set_eq.
  - intros Hc Hd. destruct (bool_decide (pc_binding c' = KDevice)); cbn [fold_left]; fold (devices p); apply IH; try done; intros i Hi.
    + rewrite <- E, om_get_set_ne; [apply Hm; by right|]. intros ->. by apply Hni.
    + apply Hm. by right.
Qed.

Lemma devices_cover p : keyed p -> NoDup (om_keys p) -> covers (devices p) p.
Proof.
  intros Hk Hn [k c] Hx Hd. exists c. split; [|done]. apply journal_map_devices; try done. by apply om_elem_get.
Qed.

(** A save that works brings the journal in step, one that fails leaves it. *)
Lemma save_ok st j : br_journal st = Some j -> SaveLate ∉ br_disk st -> keyed (br_pending st) -> NoDup (om_keys (br_pending st)) ->
  let r := savePending st in
  br_pending (fst r) = br_pending st /\ SaveLate ∉ br_disk (fst r) /\ br_reverting (fst r) = br_reverting st /\ br_sent (fst r) = br_sent st /\
  br_persisting (fst r) = br_persisting st /\ br_engine (fst r) = br_engine st /\
  exists j', br_journal (fst r) = Some j' /\ (if snd r then covers j' (br_pending st) else j' = j).
Proof.
  intros Hj Hd Hk Hn. unfold savePending. rewrite Hj. cbn. split_and!; try done.
  - destruct (br_disk st); [done|]. set_solver.
  - destruct (br_disk st) as [|[] l] eqn:E; cbn; [eexists; split; [done|by apply devices_cover]..| |set_solver]. by exists j.
Qed.

Lemma save_in_step st : in_step st -> in_step (fst (savePending st)) /\ br_pending (fst (savePending st)) = br_pending st.
Proof.
  intros [(j & Hj & Hc) Hd Hn Hk Hki]. destruct (save_ok st j Hj Hd Hk Hn) as (Ep & Ed & _ & _ & _ & _ & j' & Hj' & Hc'). split; [|done].
  constructor; rewrite ?Ep; try done. exists j'. split; [done|]. destruct (snd (savePending st)); [done|]. by subst.
Qed.

(** Any state whose changes are among those of [st] and whose journal covers them. *)
Lemma old_in_step st st' : in_step st -> from_old (br_pending st') (br_pending st) -> NoDup (om_keys (br_pending st')) ->
  (exists j, br_journal st' = Some j /\ covers j (br_pending st')) -> SaveLate ∉ br_disk st' -> in_step st'.
Proof.
  intros [_ _ _ Hk Hki] Hp Hn Hj Hd. constructor; try done.
  - intros x Hx. destruct (Hp x Hx) as (y & Hy & Ey & Eb). rewrite <- Ey, (Hk y Hy). unfold base in Eb. injection Eb as -> -> _ _. done.
  - intros x Hx. destruct (Hp x Hx) as (y & Hy & _ & Eb). by eapply base_kind_ok, Hki.
Qed.

(** Changing the map to a part of what it was and saving it. *)
Lemma shrink_in_step st p : in_step st -> from_old p (br_pending st) -> NoDup (om_keys p) -> in_step (with_pending p st).
Proof.
  intros H Hp Hnp. eapply (old_in_step st); [done|done|done| |apply H]. destruct H as [(j & Hj & Hc) _ _ _ _]. exists j. split; [done|]. by eapply covers_old.
Qed.

Lemma nodup_filter f (p : list (Key * PendingChange)) : NoDup (om_keys p) -> NoDup (om_keys (List.filter f p)).
Proof.
  unfold om_keys. induction p as [|x p IH]; [done|]. cbn [map List.filter]. intros [Hx Hn]%NoDup_cons. destruct (f x); [|by apply IH].
  cbn [map]. constructor; [|by apply IH]. intros (y & E & Hy)%list_elem_of_fmap. apply Hx, list_elem_of_fmap. exists y. split; [done|].
  apply list_elem_of_In in Hy. apply filter_In in Hy as [Hy _]. by apply list_elem_of_In.
Qed.

Lemma nodup_set_all l : forall p : list (Key * PendingChange), NoDup (om_keys p) -> NoDup (om_keys (set_all l p)).
Proof. induction l as [|x l IH]; intros p Hp; [done|]. cbn. apply IH. by apply om_set_nodup. Qed.
#[local] Hint Resolve from_old_filter from_old_del nodup_filter nodup_set_all om_del_nodup om_set_nodup : core.

(** [st'] keeps the journal in step and makes no new change. *)
Definition keeps (st st' : ParamBroker) : Prop := in_step st' /\ from_old (br_pending st') (br_pending st).

Lemma keeps_refl st : in_step st -> keeps st st.
Proof. by split. Qed.
Lemma keeps_trans st1 st2 st3 : keeps st1 st2 -> keeps st2 st3 -> keeps st1 st3.
Proof. intros [_ H1] [H2 H3]. split; [done|]. by eapply from_old_trans. Qed.

Lemma in_step_eq st st' : in_step st -> br_pending st' = br_pending st -> br_journal st' = br_journal st -> br_disk st' = br_disk st -> in_step st'.
Proof. intros [H1 H2 H3 H4 H5] Ep Ej Ed. constructor; by rewrite ?Ep, ?Ej, ?Ed. Qed.

Lemma keeps_eq st st1 st' : keeps st st1 -> br_pending st' = br_pending st1 -> br_journal st' = br_journal st1 -> br_disk st' = br_disk st1 -> keeps st st'.
Proof. intros [H1 H2] Ep Ej Ed. split; [by eapply in_step_eq|by rewrite Ep]. Qed.

Lemma keeps_shrink st p : in_step st -> from_old p (br_pending st) -> NoDup (om_keys p) -> keeps st (with_pending p st).
Proof. intros H Hp Hn. split; [by apply shrink_in_step|done]. Qed.

Lemma keeps_save st st1 : keeps st st1 -> keeps st (fst (savePending st1)).
Proof. intros [H1 H2]. destruct (save_in_step st1 H1) as [H3 E]. split; [done|by rewrite E]. Qed.

(** Taking entries out, saving, and putting them back when the save fails. *)
Lemma keeps_transaction st p l : in_step st -> from_old p (br_pending st) -> NoDup (om_keys p) -> from_old l (br_pending st) ->
  keeps st (match savePending (with_pending p st) with (st', true) => st' | (st', false) => with_pending (set_all l (br_pending st')) st' end).
Proof.
  intros H Hp Hn Hl. pose proof (shrink_in_step st p H Hp Hn) as H1. pose proof (save_in_step _ H1) as [H2 E2].
  pose proof H as [(j & Hj & Hc) Hd _ _ _]. destruct (save_ok (with_pending p st) j Hj Hd (is_keys _ H1) Hn) as (Ep & Ed & _ & _ & _ & _ & j' & Hj' & Hc').
  destruct (savePending (with_pending p st)) as [st' []]; cbn [fst snd] in *; [split; [done|by rewrite E2]|]. subst j'.
  assert (from_old (set_all l (br_pending st')) (br_pending st)) as Hs by (apply from_old_set_all; [by rewrite E2|done]).
  split; [|done]. apply (old_in_step st); [done|done|apply nodup_set_all; by rewrite E2|exists j; split; [done|by eapply covers_old]|done].
Qed.

Lemma confirm_keeps env st : in_step st -> keeps st (confirm env st).
Proof.
  intros H. unfold confirm, confirm_pass. set (f := fun p : Key * PendingChange => negb (settles env p.2 && pc_restoring p.2)).
  set (g := fun p : Key * PendingChange => (p.1, if settles env p.2 then confirmed (ev_now env) p.2 else p.2)).
  assert (from_old (map g (List.filter f (br_pending st))) (br_pending st)) as Hp.
  { intros x Hx. apply list_elem_of_fmap in Hx as (y & -> & Hy). exists y. split_and!; [|done|subst g; cbn; by destruct (settles env y.2)].
    apply list_elem_of_In in Hy. apply filter_In in Hy as [Hy _]. by apply list_elem_of_In. }
  assert (NoDup (om_keys (map g (List.filter f (br_pending st))))) as Hn.
  { unfold om_keys. rewrite map_map. subst g. cbn. apply nodup_filter, H. }
  pose proof (keeps_transaction st _ (List.filter (fun p => settles env p.2 && pc_restoring p.2) (br_pending st)) H Hp Hn (from_old_filter _ _)) as Ht.
  destruct (List.filter (fun p => settles env p.2 && pc_restoring p.2) (br_pending st)); [by apply keeps_shrink|exact Ht].
Qed.

Lemma touch_keeps k ref f st : in_step st -> (forall c, base (f c) = base c) -> keeps st (touch k ref f st).
Proof.
  intros H Hf. unfold touch. destruct (om_get k (br_pending st)) as [c|] eqn:E; [|by apply keeps_refl]. destruct (Nat.eqb _ _); [|by apply keeps_refl].
  apply keeps_shrink; [done|by eapply from_old_set|]. apply om_set_nodup, H.
Qed.

Lemma setEdge_same path v st st' : setEdge path v st = Ok st' -> exists e, st' = with_engine e st.
Proof. unfold setEdge. intros ((p & o) & _ & [= <-])%rbind_ok. by exists p. Qed.

Lemma revert_ends_keeps env uid k c by_ previous st : in_step st -> keeps st (fst (revert_ends env uid k c by_ previous st)).
Proof.
  intros H. unfold revert_ends. set (st1 := if bool_decide (pc_binding c = KDevice) then st else with_pending (om_del k (br_pending st)) st).
  assert (keeps st st1) as H1.
  { subst st1. case_bool_decide; [by apply keeps_refl|]. apply keeps_shrink; [done|apply from_old_del|apply om_del_nodup, H]. }
  pose proof (keeps_save _ _ H1) as H2. destruct (savePending st1) as [st2 []]; cbn [fst] in *; [|done].
  eapply keeps_trans; [exact H2|]. destruct (confirm_keeps env st2 (proj1 H2)) as [H3 H4]. split; [by eapply in_step_eq|done].
Qed.

Lemma revert_keeps env uid param by_ st : in_step st -> keeps st (fst (revert env uid param by_ st)).
Proof.
  intros H. unfold revert. destruct (om_get _ (br_pending st)) as [c|] eqn:E; [|by apply keeps_refl]. destruct (_ || _); [by apply keeps_refl|].
  assert (forall st', keeps st st' -> keeps st (fst (savePending (touch (key uid param) (pc_ref c) (retry_at (ev_now env + 5000)) st')))) as Hfail.
  { intros st' H'. apply keeps_save. eapply keeps_trans; [exact H'|]. by apply touch_keeps; [apply H'|]. }
  destruct (pc_from c) as [from|]; [|by apply revert_ends_keeps]. destruct (pc_binding c).
  - destruct (index_of (pc_param c) PARAM_NAMES) as [id|]; [|by apply Hfail, keeps_refl]. cbn [fst].
    eapply keeps_eq; [apply (touch_keeps (key uid param) (pc_ref c) (aimed env uid) st H)|..]; done.
  - destruct (setEdge (pc_param c) from st) as [st'|why] eqn:Es; [|by apply Hfail, keeps_refl].
    apply setEdge_same in Es as [e ->]. assert (keeps st (with_engine e st)) as He by (by eapply keeps_eq; [by apply keeps_refl|..]).
    eapply keeps_trans; [exact He|]. apply revert_ends_keeps, He.
Qed.

Definition sweep_one (env : Env) (st : ParamBroker) (p : Key * PendingChange) : ParamBroker :=
  if ev_now env <? pc_revertAt p.2 then st
  else if flying p.1 st then st
  else fst (revert env (pc_uid p.2) (pc_param p.2) "auto-revert" st).

Lemma sweep_one_keeps env st p : in_step st -> keeps st (sweep_one env st p).
Proof. intros H. unfold sweep_one. destruct (_ <? _); [by apply keeps_refl|]. destruct (flying _ _); [by apply keeps_refl|]. by apply revert_keeps. Qed.

Lemma sweep_fold_keeps env l : forall st, in_step st -> keeps st (fold_left (sweep_one env) l st).
Proof.
  induction l as [|p l IH]; intros st H; [by apply keeps_refl|]. cbn [fold_left]. pose proof (sweep_one_keeps env st p H) as H1.
  eapply keeps_trans; [exact H1|]. apply IH, H1.
Qed.

Lemma sweep_keeps env st : in_step st -> keeps st (sweep env st).
Proof. apply sweep_fold_keeps. Qed.

Lemma lands_keeps env k answer st : in_step st -> keeps st (lands env k answer st).
Proof.
  intros H. unfold lands. destruct (om_get k (br_reverting st)) as [fl|]; [|by apply keeps_refl].
  assert (keeps st (with_reverting (om_del k (br_reverting st)) st)) as H0 by (by eapply keeps_eq; [by apply keeps_refl|..]).
  assert (forall f, (forall c, base (f c) = base c) -> keeps st (touch k (pc_ref (fl_change fl)) f (with_reverting (om_del k (br_reverting st)) st))) as Ht
    by (intros f Hf; eapply keeps_trans; [exact H0|]; apply touch_keeps; [apply H0|done]).
  destruct (fl_revert fl).
  - unfold revert_lands. destruct answer as [seq|]; [|by apply keeps_save, Ht].
    pose proof (keeps_save _ _ (Ht (going_back seq (ev_now env)) ltac:(done))) as H2.
    destruct (savePending _) as [st2 []]; cbn [fst] in *; [|done]. eapply keeps_trans; [exact H2|].
    by eapply keeps_eq; [apply confirm_keeps, H2|..].
  - unfold apply_lands. destruct answer as [seq|]; cbn [fst]; [|by apply Ht].
    by eapply keeps_eq; [apply (Ht (sent_as seq)); done|..].
Qed.

Lemma commit_keeps env uid param by_ st : in_step st -> keeps st (fst (commit env uid param by_ st)).
Proof.
  intros H. unfold commit. destruct (flying _ st); [by apply keeps_refl|]. destruct (om_get _ (br_pending st)) as [c|] eqn:E; [|by apply keeps_refl].
  pose proof (keeps_transaction st (om_del (key uid param) (br_pending st)) [(key uid param, c)] H (from_old_del _ _) (om_del_nodup _ _ (is_nodup _ H))) as Ht.
  destruct (savePending _) as [st' []]; cbn [fst].
  - eapply keeps_eq; [apply Ht|done..]. intros x ->%list_elem_of_singleton. exists (key uid param, c). split; [by apply om_get_elem|done].
  - apply Ht. intros x ->%list_elem_of_singleton. exists (key uid param, c). split; [by apply om_get_elem|done].
Qed.

Lemma persist_lands_keeps env uid sent st : in_step st -> keeps st (persist_lands env uid sent st).
Proof.
  intros H. unfold persist_lands. destruct (om_get uid (br_persisting st)) as [by_|]; [|by apply keeps_refl].
  set (st1 := with_persisting (om_del uid (br_persisting st)) st). assert (keeps st st1) as H1 by (by eapply keeps_eq; [by apply keeps_refl|..]).
  destruct (negb sent); [done|]. eapply keeps_trans; [exact H1|].
  pose proof (keeps_transaction st1 (List.filter (fun p => negb (of_device uid p.2)) (br_pending st1)) (List.filter (fun p => of_device uid p.2) (br_pending st1))
    (proj1 H1) (from_old_filter _ _) (nodup_filter _ _ (is_nodup _ (proj1 H1))) (from_old_filter _ _)) as Ht.
  destruct (savePending _) as [st' []]; [|exact Ht]. by eapply keeps_eq; [exact Ht|..].
Qed.

Lemma save_same st : let st' := fst (savePending st) in
  br_pending st' = br_pending st /\ br_sent st' = br_sent st /\ br_reverting st' = br_reverting st /\ br_persisting st' = br_persisting st.
Proof. unfold savePending. by destruct (br_journal st). Qed.

Lemma confirm_same env st : br_sent (confirm env st) = br_sent st /\ br_reverting (confirm env st) = br_reverting st /\ br_persisting (confirm env st) = br_persisting st.
Proof.
  unfold confirm. destruct (confirm_pass env (br_pending st)) as [l r]. pose proof (save_same (with_pending l st)) as (_ & Es & Er & Ep).
  destruct r; [done|]. by destruct (savePending (with_pending l st)) as [st' []].
Qed.

Lemma touch_same k ref f st : let st' := touch k ref f st in br_sent st' = br_sent st /\ br_reverting st' = br_reverting st /\ br_persisting st' = br_persisting st.
Proof. unfold touch. destruct (om_get k (br_pending st)); [|done]. by destruct (Nat.eqb _ _). Qed.

(** [x] sends the value a change of [p] goes back to. *)
Definition sends_back (p : list (Key * PendingChange)) (x : Sent) : Prop :=
  se_opcode x = CMD_SET_PARAM /\ exists k c, (k, c) ∈ p /\ pc_binding c = KDevice /\ pc_uid c = se_uid x /\ pc_from c = Some (se_value x) /\
    index_of (pc_param c) PARAM_NAMES = Some (se_argument x).

Lemma sends_back_old p q x : from_old q p -> sends_back q x -> sends_back p x.
Proof.
  intros H (Hx & k & c & Hc & H1 & H2 & H3 & H4). split; [done|]. destruct (H (k, c) Hc) as ([k0 c0] & Hc0 & _ & Eb). cbn in Eb. unfold base in Eb.
  injection Eb as E1 E2 E3 E4. exists k0, c0. split_and!; [done|congruence..].
Qed.

Lemma index_of_elem x l n : index_of x l = Some n -> x ∈ l.
Proof.
  revert n. induction l as [|y l IH]; intros n; cbn; [done|]. case_bool_decide as E; [intros _; subst; by left|].
  destruct (index_of x l); [intros _; right; by eapply IH|done].
Qed.

Lemma names_not_edge x n : index_of x PARAM_NAMES = Some n -> starts_with "occupancy." x = false.
Proof.
  intros H%index_of_elem. assert (forallb (fun x => negb (starts_with "occupancy." x)) PARAM_NAMES = true) as Ha by (vm_compute; reflexivity).
  apply list_elem_of_In in H. by apply (proj1 (forallb_forall _ _) Ha x), negb_true in H.
Qed.

Definition sent_more (p : list (Key * PendingChange)) (st st' : ParamBroker) : Prop := exists more, br_sent st' = br_sent st ++ more /\ forall x, x ∈ more -> sends_back p x.

Lemma sent_none p st st' : br_sent st' = br_sent st -> sent_more p st st'.
Proof. intros E. exists []. rewrite app_nil_r. split; [done|]. by intros x ?%not_elem_of_nil. Qed.

Lemma revert_ends_same env uid k c by_ previous st : br_sent (fst (revert_ends env uid k c by_ previous st)) = br_sent st.
Proof.
  unfold revert_ends. set (st1 := if bool_decide (pc_binding c = KDevice) then st else with_pending (om_del k (br_pending st)) st).
  assert (br_sent st1 = br_sent st) as <- by (subst st1; by case_bool_decide). pose proof (save_same st1) as (_ & Es & _).
  destruct (savePending st1) as [st2 []]; cbn [fst] in *; [|done]. change (br_sent (confirm env st2) = br_sent st1). by destruct (confirm_same env st2) as (-> & _).
Qed.

Lemma revert_sends env uid param by_ st : in_step st -> sent_more (br_pending st) st (fst (revert env uid param by_ st)).
Proof.
  intros H. unfold revert. destruct (om_get _ (br_pending st)) as [c|] eqn:E; [|by apply sent_none]. destruct (_ || _); [by apply sent_none|].
  assert (forall st', br_sent st' = br_sent st -> sent_more (br_pending st) st (fst (savePending (touch (key uid param) (pc_ref c) (retry_at (ev_now env + 5000)) st')))) as Hfail.
  { intros st' H'. apply sent_none. destruct (save_same (touch (key uid param) (pc_ref c) (retry_at (ev_now env + 5000)) st')) as (_ & -> & _).
    by destruct (touch_same (key uid param) (pc_ref c) (retry_at (ev_now env + 5000)) st') as (-> & _). }
  destruct (pc_from c) as [from|] eqn:Ef; [|apply sent_none; apply revert_ends_same]. destruct (pc_binding c) eqn:Eb.
  - destruct (index_of (pc_param c) PARAM_NAMES) as [id|] eqn:Ei; [|by apply Hfail]. cbn [fst].
    eexists. split; [cbn; by destruct (touch_same (key uid param) (pc_ref c) (aimed env uid) st) as (-> & _)|]. intros x ->%list_elem_of_singleton.
    split; [done|]. exists (key uid param), c. apply om_get_elem in E. split_and!; [done|done| |done|done].
    pose proof (is_keys _ H _ E) as Ek. cbn in Ek. unfold key in Ek. injection Ek as Eu Ep. subst param. rewrite (names_not_edge _ _ Ei) in Eu. done.
  - destruct (setEdge (pc_param c) from st) as [st'|why] eqn:Es; [|by apply Hfail].
    apply setEdge_same in Es as [e ->]. apply sent_none. by rewrite revert_ends_same.
Qed.

Lemma sweep_sends env st : in_step st -> sent_more (br_pending st) st (sweep env st).
Proof.
  intros H. change (sweep env st) with (fold_left (sweep_one env) (br_pending st) st). generalize (br_pending st) at 2 as l.
  assert (forall l s, keeps st s -> sent_more (br_pending st) st s -> sent_more (br_pending st) st (fold_left (sweep_one env) l s)) as Hf.
  { induction l as [|p l IH]; intros s Hk Hs; [done|]. cbn [fold_left]. apply IH; [eapply keeps_trans; [exact Hk|]; apply sweep_one_keeps, Hk|].
    unfold sweep_one. destruct (_ <? _); [done|]. destruct (flying p.1 s); [done|].
    destruct Hs as (m1 & E1 & H1). destruct (revert_sends env (pc_uid p.2) (pc_param p.2) "auto-revert" s (proj1 Hk)) as (m2 & E2 & H2).
    exists (m1 ++ m2). split; [by rewrite E2, E1, <- app_assoc|]. intros x [Hx|Hx]%elem_of_app; [auto|]. eapply sends_back_old; [apply Hk|auto]. }
  intros l. apply Hf; [by apply keeps_refl|by apply sent_none].
Qed.

(** ** What an apply does *)

Definition same_from (p q : list (Key * PendingChange)) : Prop := forall k c c', om_get k p = Some c -> om_get k q = Some c' -> pc_from c' = pc_from c.

Lemma keeps_same_from st st' : in_step st -> keeps st st' -> same_from (br_pending st) (br_pending st').
Proof.
  intros H [H1 H2] k c c' Hc Hc'. apply om_get_elem in Hc'. destruct (H2 _ Hc') as ([k0 c0] & H0 & Ek & Eb). cbn in Ek, Eb. subst k0.
  apply (om_elem_get k c0 _ (is_nodup _ H)) in H0. rewrite Hc in H0. injection H0 as <-. unfold base in Eb. congruence.
Qed.

(** [x] is an experiment that the journal can undo. *)
Definition recorded (st : ParamBroker) (x : Sent) : Prop :=
  exists k c j c', om_get k (br_pending st) = Some c /\ pc_binding c = KDevice /\ pc_uid c = se_uid x /\ pc_to c = se_value x /\
    index_of (pc_param c) PARAM_NAMES = Some (se_argument x) /\ br_journal st = Some j /\ om_get k (journal_map j) = Some c' /\ base c' = base c /\ is_Some (pc_from c').

Lemma baseline_kind env uid b v st param kind q from : baseline env uid b v st = Ok (param, kind, q, from) ->
  kind = KDevice -> is_Some from /\ is_Some (index_of param PARAM_NAMES).
Proof.
  unfold baseline. destruct b as [name|path|]; [| |done].
  - destruct (om_get name PARAM_LIMITS) as [[lo hi]|] eqn:El; [|done]. destruct (finite v) as [x|]; [|done].
    destruct (negb (is_integer x)); [done|]. destruct (_ || _); [done|]. destruct (om_get name (deviceParams env uid)) as [w|]; [|done].
    intros [= <- <- <- <-] _. split; [by eexists|]. apply om_get_elem in El.
    assert (forallb (fun p => bool_decide (is_Some (index_of (p.1) PARAM_NAMES))) PARAM_LIMITS = true) as Ha by (vm_compute; reflexivity).
    apply list_elem_of_In in El. by apply (proj1 (forallb_forall _ _) Ha), bool_decide_eq_true in El.
  - destruct (om_get path EDGE_PARAMS) as [l|]; [|done]. destruct (finite v); [|done]. destruct (_ || _); [done|]. by intros [= _ <- _ _].
Qed.

Lemma restore_entry_old k c p0 st : NoDup (om_keys p0) -> br_pending st = om_set k c p0 ->
  from_old (br_pending (restore_entry k (om_get k p0) st)) p0 /\ NoDup (om_keys (br_pending (restore_entry k (om_get k p0) st))).
Proof.
  intros Hn Ep. unfold restore_entry. cbn [br_pending with_pending]. rewrite Ep.
  set (q := match om_get k p0 with Some c => om_set k c (om_set k _ p0) | None => _ end).
  assert (NoDup (om_keys q)) as Hq by (subst q; destruct (om_get k p0); auto). split; [|done]. apply from_old_sub. intros [k' x] Hx.
  apply (om_elem_get _ _ _ Hq) in Hx. apply om_get_elem. subst q. destruct (om_get k p0) as [c0|] eqn:E.
  - rewrite !om_get_set in Hx. case_bool_decide; congruence.
  - rewrite om_get_del, om_get_set in Hx. by case_bool_decide.
Qed.

(** The change is in the map and the journal has been tried. *)
Lemma set_and_save st k c : in_step st -> k = key (pc_uid c) (pc_param c) -> kind_ok c ->
  let r := savePending (next_ref (with_pending (om_set k c (br_pending st)) st)) in
  br_pending (fst r) = om_set k c (br_pending st) /\ br_sent (fst r) = br_sent st /\ SaveLate ∉ br_disk (fst r) /\
  (snd r = true -> in_step (fst r)) /\ (snd r = false -> exists j, br_journal (fst r) = Some j /\ covers j (br_pending st)).
Proof.
  intros [(j & Hj & Hc) Hd Hn Hks Hki] Hk Hkc. set (st1 := next_ref _).
  assert (keyed (br_pending st1)) as Hk1 by (intros x [->|Hx]%om_set_elem; [done|by apply Hks]).
  pose proof (save_ok st1 j Hj Hd Hk1 (om_set_nodup k c _ Hn)) as (Ep & Ed & _ & Es & _ & _ & j' & Hj' & Hc'). change (br_pending st1) with (om_set k c (br_pending st)) in *.
  cbv zeta. split_and!; [exact Ep|exact Es|exact Ed| |intros E; rewrite E in Hc'; subst j'; by exists j].
  intros E. rewrite E in Hc'. constructor; rewrite ?Ep; [by exists j'|done|by apply om_set_nodup| |]; intros x [->|Hx]%om_set_elem; auto.
Qed.

(** The new change, whose way back is that of the change it replaces. *)
Lemma new_change_ok env uid nodeId b v st param kind q from ref : in_step st -> baseline env uid b v st = Ok (param, kind, q, from) ->
  kind_ok (new_change env uid nodeId param kind (match om_get (key uid param) (br_pending st) with Some x => pc_from x | None => from end) q ref) /\
  (forall c, om_get (key uid param) (br_pending st) = Some c -> pc_binding c = kind) /\
  (kind = KDevice -> is_Some (index_of param PARAM_NAMES)).
Proof.
  intros H Eb. assert ((if bool_decide (kind = KDevice) then starts_with "occupancy." param = false /\ is_Some from /\ is_Some (index_of param PARAM_NAMES)
    else starts_with "occupancy." param = true)) as Hkind.
  { case_bool_decide as Ek; [destruct (baseline_kind _ _ _ _ _ _ _ _ _ Eb Ek) as [H1 [n Hn]]; split_and!; [by eapply names_not_edge|done|by exists n]|].
    revert Eb. unfold baseline. destruct b as [name|path|]; [destruct (om_get name PARAM_LIMITS) as [[lo hi]|]; [|done]; destruct (finite v); [|done]; break_goal; try done; intros [= _ <- _ _]; done| |done].
    destruct (om_get path EDGE_PARAMS) as [l|] eqn:El; [|done]. destruct (finite v); [|done]. destruct (_ || _); [done|]. intros [= <- <- _ _].
    apply om_get_elem in El. assert (forallb (fun p => starts_with "occupancy." p.1) EDGE_PARAMS = true) as Ha by (vm_compute; reflexivity).
    apply list_elem_of_In in El. exact (proj1 (forallb_forall _ _) Ha _ El). }
  assert (forall c, om_get (key uid param) (br_pending st) = Some c -> pc_binding c = kind /\ kind_ok c) as Hold.
  { intros c Hc%om_get_elem. pose proof (is_kinds _ H _ Hc) as Hko. pose proof (is_keys _ H _ Hc) as Hke. cbn in Hko, Hke. split; [|done].
    unfold key in Hke. injection Hke as _ Ep. unfold kind_ok in Hko. rewrite <- Ep in Hko. case_bool_decide as Ek; [destruct (pc_binding c); [done|]; naive_solver congruence|].
    destruct (pc_binding c), kind; try done. naive_solver congruence. }
  split_and!; [|intros c Hc; by apply Hold|intros ->; by apply Hkind].
  unfold kind_ok. cbn. destruct kind; [|by rewrite bool_decide_eq_false_2 in Hkind]. rewrite bool_decide_eq_true_2 in Hkind by done. split; [apply Hkind|].
  destruct (om_get (key uid param) (br_pending st)) as [c|] eqn:E; [|apply Hkind]. destruct (Hold c eq_refl) as [Hb Hk]. unfold kind_ok in Hk. rewrite Hb in Hk. apply Hk.
Qed.

Lemma apply_in_step env uid nodeId b v by_ st : in_step st -> let st' := fst (apply env uid nodeId b v by_ st) in
  in_step st' /\ same_from (br_pending st) (br_pending st') /\ (exists more, br_sent st' = br_sent st ++ more /\ forall x, x ∈ more -> recorded st' x).
Proof.
  intros H. assert (forall st', keeps st st' -> br_sent st' = br_sent st -> in_step st' /\ same_from (br_pending st) (br_pending st') /\
    (exists more, br_sent st' = br_sent st ++ more /\ forall x, x ∈ more -> recorded st' x)) as Hkeep.
  { intros st' Hk Es. split_and!; [apply Hk|by apply keeps_same_from|]. exists []. rewrite app_nil_r. split; [done|by intros x ?%not_elem_of_nil]. }
  unfold apply. destruct (saving uid st); [by apply Hkeep; [apply keeps_refl|]|].
  destruct (baseline env uid b v st) as [[[[param kind] q] from]|why] eqn:Eb; [|by apply Hkeep; [apply keeps_refl|]].
  destruct (flying (key uid param) st); [by apply Hkeep; [apply keeps_refl|]|].
  destruct (new_change_ok env uid nodeId b v st param kind q from (br_next st) H Eb) as (Hkc & Hsame & Hidx).
  set (k := key uid param) in *. set (c := new_change env uid nodeId param kind _ q (br_next st)) in *.
  pose proof (set_and_save st k c H eq_refl Hkc) as (Ep & Es & Ed & Ht & Hf). set (st1 := next_ref (with_pending (om_set k c (br_pending st)) st)) in *.
  assert (forall st2, br_pending st2 = om_set k c (br_pending st) -> br_sent st2 = br_sent st -> SaveLate ∉ br_disk st2 ->
    (exists j, br_journal st2 = Some j /\ covers j (br_pending st)) -> let st3 := fst (savePending (restore_entry k (om_get k (br_pending st)) st2)) in
    keeps st st3 /\ br_sent st3 = br_sent st) as Hundo.
  { intros st2 Ep2 Es2 Hd2 (j & Hj & Hc). destruct (restore_entry_old k c (br_pending st) st2 (is_nodup _ H) Ep2) as [Ho Hn]. split.
    - apply keeps_save. split; [|exact Ho]. apply (old_in_step st); [done|exact Ho|exact Hn| |exact Hd2]. exists j. split; [exact Hj|by eapply covers_old].
    - destruct (save_same (restore_entry k (om_get k (br_pending st)) st2)) as (_ & -> & _). exact Es2. }
  destruct (savePending st1) as [st2 []]; cbn [fst snd] in *; [|by apply Hkeep; apply Hundo; auto].
  specialize (Ht eq_refl). assert (same_from (br_pending st) (br_pending st2)) as Hsf.
  { rewrite Ep. intros k' c0 c' Hc0. rewrite om_get_set. case_bool_decide; [|rewrite Hc0; by intros [= ->]]. subst k'. intros [= <-]. subst c. cbn. by rewrite Hc0. }
  destruct kind.
  - cbn [fst]. split_and!; [by eapply in_step_eq|exact Hsf|]. eexists. split; [cbn; by rewrite Es|]. intros x ->%list_elem_of_singleton.
    destruct (is_journal _ Ht) as (j & Hj & Hc). destruct (Hidx eq_refl) as [n En].
    assert (om_get k (br_pending st2) = Some c) as Hg by (rewrite Ep; apply om_get_set_eq).
    destruct (Hc (k, c) (om_get_elem _ _ _ Hg) eq_refl) as (c' & Hc' & Ec'). exists k, c, j, c'. cbn [se_uid se_value se_argument].
    split_and!; [exact Hg|done|done|done| |exact Hj|exact Hc'|exact Ec'|]; [exact (eq_trans En (f_equal (fun o => Some (default O o)) (eq_sym En)))|]. unfold base in Ec'. injection Ec' as _ _ _ ->. apply Hkc.
  - destruct (setEdge param q st2) as [st3|why] eqn:Ese.
    + apply setEdge_same in Ese as [en ->]. cbn [fst]. split_and!; [by eapply in_step_eq|exact Hsf|]. exists []. rewrite app_nil_r. split; [exact Es|by intros x ?%not_elem_of_nil].
    + cbn [fst]. apply Hkeep; apply Hundo; try done; destruct (is_journal _ Ht) as (j & Hj & Hc); exists j; (split; [done|]).
      all: intros [k' x] Hx Hd; apply (om_elem_get _ _ _ (is_nodup _ H)) in Hx; apply (Hc (k', x)); [|done]; apply om_get_elem; rewrite Ep, om_get_set_ne; [done|].
      all: intros ->; apply Hsame in Hx; cbn in Hd; congruence.
Qed.

(** ** Starting again *)

Definition like (now : Z) (a : option PendingChange) (b : option PendingChange) : Prop :=
  match a, b with
  | None, None => True
  | Some c, Some c' => base c' = base c /\ pc_revertAt c' = now
  | _, _ => False
  end.

Lemma reload_like now (f : nat -> PendingChange -> PendingChange) : (forall i c, base (f i c) = base c /\ pc_revertAt (f i c) = now) ->
  forall j n m m', (forall k, like now (om_get k m) (om_get k m')) ->
  forall k, like now (om_get k (fold_left (fun m c => om_set (key (pc_uid c) (pc_param c)) c m) j m))
                     (om_get k (fold_left (fun m p => om_set (key (pc_uid p.2) (pc_param p.2)) (p.2) m) (imap (fun i c => (n + i, f (n + i) c)%nat) j) m')).
Proof.
  intros Hf. induction j as [|c j IH]; intros n m m' Hm k; [apply Hm|]. rewrite imap_cons. cbn [fold_left fst snd].
  assert (imap ((fun i c => ((n + i)%nat, f (n + i)%nat c)) ∘ S) j = imap (fun i c => ((S n + i)%nat, f (S n + i)%nat c)) j) as ->.
  { apply imap_ext. intros i x _. cbn. by rewrite Nat.add_succ_r. }
  apply IH. intros k'. destruct (Hf (n + 0)%nat c) as [Hb Hr]. assert (key (pc_uid (f (n + 0)%nat c)) (pc_param (f (n + 0)%nat c)) = key (pc_uid c) (pc_param c)) as ->
    by (unfold base in Hb; by injection Hb as -> -> _ _).
  rewrite !om_get_set. case_bool_decide; [done|apply Hm].
Qed.

Definition renewed (now : Z) (i : nat) (c : PendingChange) : PendingChange :=
  {| pc_uid := pc_uid c; pc_nodeId := pc_nodeId c; pc_param := pc_param c; pc_binding := pc_binding c; pc_from := pc_from c;
     pc_to := pc_to c; pc_at := pc_at c; pc_revertAt := now; pc_confirmedAt := pc_confirmedAt c; pc_cmdSeq := pc_cmdSeq c;
     pc_commandAt := pc_commandAt c; pc_commandBoot := pc_commandBoot c; pc_commandGeneration := pc_commandGeneration c;
     pc_restoring := pc_restoring c; pc_ref := i |}.

Lemma fold_set_keyed l : forall m, keyed m -> NoDup (om_keys m) ->
  let m' := fold_left (fun m (p : nat * PendingChange) => om_set (key (pc_uid p.2) (pc_param p.2)) (p.2) m) l m in
  keyed m' /\ NoDup (om_keys m') /\ forall x, x ∈ m' -> x ∈ m \/ exists i, (i, x.2) ∈ l.
Proof.
  induction l as [|p l IH]; intros m Hk Hn; [cbn; auto|]. cbn [fold_left]. destruct (IH (om_set (key (pc_uid p.2) (pc_param p.2)) p.2 m)) as (H1 & H2 & H3).
  - intros x [->|Hx]%om_set_elem; [done|by apply Hk].
  - by apply om_set_nodup.
  - split_and!; [done|done|]. intros x Hx. destruct (H3 x Hx) as [Hx'|[i Hi]]; [|right; exists i; by right].
    apply om_set_elem in Hx' as [->|Hx']; [right; exists p.1; destruct p; by left|by left].
Qed.

Lemma limits_not_edge param lims : om_get param PARAM_LIMITS = Some lims -> starts_with "occupancy." param = false.
Proof.
  intros H%om_get_elem. assert (forallb (fun p => negb (starts_with "occupancy." p.1)) PARAM_LIMITS = true) as Ha by (vm_compute; reflexivity).
  apply list_elem_of_In in H. by apply (proj1 (forallb_forall _ _) Ha), negb_true in H.
Qed.

Lemma loadable_kind c : loadable c = true -> kind_ok c /\ pc_binding c = KDevice.
Proof.
  unfold loadable. intros [[Hb%bool_decide_eq_true _]%andb_true_iff Hl]%andb_true_iff. split; [|done]. unfold kind_ok. rewrite Hb.
  destruct (om_get (pc_param c) PARAM_LIMITS) as [[lo hi]|] eqn:E; [|done]. destruct (pc_from c); [|done]. split; [by eapply limits_not_edge|by eexists].
Qed.

(** The broker a journal starts is in step, and every entry the journal is read
    as is to be put back at once. *)
Lemma reload_in_step now engine disk j st : reload now engine disk (Some j) = Ok st -> SaveLate ∉ disk ->
  in_step st /\ (forall k, like now (om_get k (journal_map j)) (om_get k (br_pending st))) /\ br_sent st = [].
Proof.
  unfold reload. cbn [default from_option id]. destruct (_ <? _); [done|]. destruct (negb (forallb loadable j)) eqn:El; [done|]. intros <-%Ok_inj Hd.
  apply negb_false in El. fold (renewed now).
  assert (forall k, like now (om_get k (journal_map j)) (om_get k (fold_left (fun m p => om_set (key (pc_uid p.2) (pc_param p.2)) (p.2) m) (imap (fun i c => (i, renewed now i c)) j) []))) as Hl.
  { intros k. exact (reload_like now (renewed now) ltac:(done) j O [] [] ltac:(done) k). }
  destruct (fold_set_keyed (imap (fun i c => (i, renewed now i c)) j) []) as (H1 & H2 & H3); [by intros x ?%not_elem_of_nil|constructor|].
  split; [|split; [exact Hl|done]]. constructor; [|exact Hd|exact H2|exact H1|].
  - exists j. split; [done|]. intros [k c] Hx Hb. cbn [br_pending fst snd] in *. apply (om_elem_get _ _ _ H2) in Hx. specialize (Hl k). rewrite Hx in Hl.
    destruct (om_get k (journal_map j)) as [c0|]; [|done]. exists c0. destruct Hl as [Hl _]. auto.
  - intros x Hx. destruct (H3 x Hx) as [Hn|[i Hi]]; [by apply not_elem_of_nil in Hn|]. apply elem_of_lookup_imap in Hi as (i' & c & [= _ Ec] & Hc).
    apply list_elem_of_lookup_2, list_elem_of_In in Hc. apply (proj1 (forallb_forall _ _) El), loadable_kind in Hc as [Hc _].
    rewrite Ec. by eapply base_kind_ok; [|exact Hc].
Qed.

Lemma lands_sent env k answer st : br_sent (lands env k answer st) = br_sent st.
Proof.
  unfold lands. destruct (om_get k (br_reverting st)) as [fl|]; [|done]. set (st1 := with_reverting (om_del k (br_reverting st)) st).
  assert (forall f, br_sent (touch k (pc_ref (fl_change fl)) f st1) = br_sent st) as Ht by (intros f; by destruct (touch_same k (pc_ref (fl_change fl)) f st1) as (-> & _)).
  destruct (fl_revert fl).
  - unfold revert_lands. fold st1. destruct answer as [seq|]; cbn [fst].
    + pose proof (save_same (touch k (pc_ref (fl_change fl)) (going_back seq (ev_now env)) st1)) as (_ & Es & _). rewrite Ht in Es.
      destruct (savePending _) as [st2 []]; cbn [fst] in *; [|done]. change (br_sent (confirm env st2) = br_sent st). by destruct (confirm_same env st2) as (-> & _).
    + destruct (save_same (touch k (pc_ref (fl_change fl)) (retry_at (ev_now env + 5000)) st1)) as (_ & -> & _). apply Ht.
  - unfold apply_lands. fold st1. destruct answer; cbn [fst]; apply Ht.
Qed.

Lemma commit_sent env uid param by_ st : br_sent (fst (commit env uid param by_ st)) = br_sent st.
Proof.
  unfold commit. destruct (flying _ st); [done|]. destruct (om_get _ (br_pending st)); [|done].
  pose proof (save_same (with_pending (om_del (key uid param) (br_pending st)) st)) as (_ & Es & _). by destruct (savePending _) as [st' []].
Qed.

Lemma persist_lands_sent env uid sent st : br_sent (persist_lands env uid sent st) = br_sent st.
Proof.
  unfold persist_lands. destruct (om_get uid (br_persisting st)); [|done]. destruct (negb sent); [done|].
  match goal with |- context [savePending ?x] => pose proof (save_same x) as (_ & Es & _); destruct (savePending x) as [st' []] end; exact Es.
Qed.

Lemma step_in_step e st : in_step st -> in_step (broker_step st e) /\ same_from (br_pending st) (br_pending (broker_step st e)) /\
  exists more, br_sent (broker_step st e) = br_sent st ++ more /\
    forall x, x ∈ more -> se_opcode x = CMD_SET_PARAM -> sends_back (br_pending st) x \/ recorded (broker_step st e) x.
Proof.
  intros H. assert (forall st', keeps st st' -> sent_more (br_pending st) st st' -> in_step st' /\ same_from (br_pending st) (br_pending st') /\
    exists more, br_sent st' = br_sent st ++ more /\ forall x, x ∈ more -> se_opcode x = CMD_SET_PARAM -> sends_back (br_pending st) x \/ recorded st' x) as Hk.
  { intros st' Hk (more & E & Hm). split_and!; [apply Hk|by apply keeps_same_from|]. exists more. split; [done|]. intros x Hx _. left. auto. }
  destruct e as [env uid nodeId b v by_|env k answer|env uid param by_|env uid param by_|uid by_|env uid sent|env|env]; cbn [broker_step].
  - destruct (apply_in_step env uid nodeId b v by_ st H) as (H1 & H2 & more & E & Hm). split_and!; [done|done|]. exists more. split; [done|]. intros x Hx _. right. auto.
  - apply Hk; [by apply lands_keeps|]. apply sent_none, lands_sent.
  - apply Hk; [by apply commit_keeps|]. apply sent_none, commit_sent.
  - apply Hk; [by apply revert_keeps|by apply revert_sends].
  - unfold persist. destruct (saving uid st); [apply Hk; [by apply keeps_refl|by apply sent_none]|]. destruct (existsb _ _); [apply Hk; [by apply keeps_refl|by apply sent_none]|].
    cbn [fst]. assert (keeps st (with_persisting (om_set uid by_ (br_persisting st)) st)) as H1 by (by eapply keeps_eq; [by apply keeps_refl|..]).
    split_and!; [by eapply in_step_eq; [apply H1|..]|exact (keeps_same_from _ _ H H1)|]. eexists. split; [reflexivity|]. by intros x ->%list_elem_of_singleton.
  - apply Hk; [by apply persist_lands_keeps|]. apply sent_none, persist_lands_sent.
  - apply Hk; [by apply confirm_keeps|]. apply sent_none. by destruct (confirm_same env st).
  - apply Hk; [by apply sweep_keeps|by apply sweep_sends].
Qed.

Lemma run_in_step es : forall st, in_step st -> in_step (run broker_step st es).
Proof. induction es as [|e es IH]; intros st H; [done|]. apply IH. by apply step_in_step. Qed.

(** C7: A change of a sensor can always be undone, also after a crash: from any
    start (a journal that is read, with a file system that either replaces the
    journal or does not), after any operations, the map the journal would be
    read as holds, for every device change that is pending, the same node,
    parameter and value to go back to; no step, not even a second change of the
    same parameter, alters the value a pending change goes back to; and a
    SET_PARAM command only leaves for a sensor either to send a pending change
    back or, with an experiment, when the journal already holds the way back. *)
Theorem recovery_is_durable now engine disk j0 st0 es e :
  reload now engine disk (Some j0) = Ok st0 -> SaveLate ∉ disk ->
  let st := run broker_step st0 es in let st' := broker_step st e in
  (exists j, br_journal st = Some j /\ forall k c, om_get k (br_pending st) = Some c -> pc_binding c = KDevice ->
     exists c', om_get k (journal_map j) = Some c' /\ base c' = base c) /\
  same_from (br_pending st) (br_pending st') /\
  (exists more, br_sent st' = br_sent st ++ more /\
     forall x, x ∈ more -> se_opcode x = CMD_SET_PARAM -> sends_back (br_pending st) x \/ recorded st' x).
Proof.
  intros Hr Hd st st'. destruct (reload_in_step _ _ _ _ _ Hr Hd) as (H0 & _). assert (in_step st) as H by (by apply run_in_step).
  destruct (step_in_step e st H) as (_ & H2 & H3). split_and!; [|exact H2|exact H3].
  destruct (is_journal _ H) as (j & Hj & Hc). exists j. split; [exact Hj|]. intros k c Hk Hb. apply (Hc (k, c)); [by apply om_get_elem|exact Hb].
Qed.

(** After a crash at any moment the broker starts from its journal, unless
    an entry of it goes back to a value outside the limits of its parameter,
    and every device change that was pending is pending again with the same
    value to go back to, to be put back at once. *)
Theorem restart_puts_back now engine disk j0 st0 es j now' engine' disk' :
  reload now engine disk (Some j0) = Ok st0 -> SaveLate ∉ disk ->
  let st := run broker_step st0 es in
  br_journal st = Some j -> forallb loadable j = true -> Z.of_nat (length j) <= 50000 ->
  exists st1, reload now' engine' disk' (Some j) = Ok st1 /\
    forall k c, om_get k (br_pending st) = Some c -> pc_binding c = KDevice ->
      exists c', om_get k (br_pending st1) = Some c' /\ base c' = base c /\ pc_revertAt c' = now'.
Proof.
  intros Hr Hd st Hj Hl Hlen. destruct (reload_in_step _ _ _ _ _ Hr Hd) as (H0 & _). assert (in_step st) as H by (by apply run_in_step).
  assert (exists st1, reload now' engine' [] (Some j) = Ok st1) as [st1 E1].
  { unfold reload. cbn [default from_option id]. rewrite (proj2 (Z.ltb_ge _ _)) by done. rewrite Hl. by eexists. }
  assert (exists st2, reload now' engine' disk' (Some j) = Ok st2 /\ br_pending st2 = br_pending st1) as (st2 & E2 & Ep).
  { revert E1. unfold reload. cbn [default from_option id]. rewrite (proj2 (Z.ltb_ge _ _)) by done. rewrite Hl. intros <-%Ok_inj. by eexists. }
  exists st2. split; [done|]. rewrite Ep. destruct (reload_in_step _ _ _ _ _ E1 ltac:(set_solver)) as (_ & Hlike & _).
  intros k c Hk Hb. destruct (is_journal _ H) as (j' & Hj' & Hc). rewrite Hj in Hj'. injection Hj' as <-.
  destruct (Hc (k, c) (om_get_elem _ _ _ Hk) Hb) as (c' & Hc' & Eb). specialize (Hlike k). cbn [fst snd] in *. rewrite Hc' in Hlike.
  destruct (om_get k (br_pending st1)) as [c1|]; [|done]. destruct Hlike as [Hb1 Hr1]. exists c1. split_and!; [done|congruence|done].
Qed.

(** ** A change that is not committed is put back *)

(** The same object, but for when it was confirmed. *)
Definition near (c c' : PendingChange) : Prop := confirmed 0 c' = confirmed 0 c.

Lemma near_trans c1 c2 c3 : near c1 c2 -> near c2 c3 -> near c1 c3.
Proof. unfold near. congruence. Qed.

(** The journal can be written from now on. *)
Definition calm (st : ParamBroker) : Prop := in_step st /\ br_disk st = [].

Lemma save_calm st : calm st -> exists st', savePending st = (st', true) /\ calm st' /\ br_pending st' = br_pending st /\
  br_reverting st' = br_reverting st /\ br_persisting st' = br_persisting st /\ br_sent st' = br_sent st.
Proof.
  intros [H Hd]. destruct (save_in_step st H) as [H1 E]. pose proof (save_same st) as (_ & E2 & E3 & E4).
  assert (snd (savePending st) = true /\ br_disk (fst (savePending st)) = []) as [Et Ed].
  { destruct (is_journal _ H) as (j & Hj & _). unfold savePending. by rewrite Hj, Hd. }
  exists (fst (savePending st)). split_and!; try done. destruct (savePending st); cbn in *. by rewrite Et.
Qed.

Lemma om_get_filter_map (f : Key * PendingChange -> bool) (g : Key * PendingChange -> PendingChange) p k : NoDup (om_keys p) ->
  om_get k (map (fun x => (x.1, g x)) (List.filter f p)) = match om_get k p with Some c => if f (k, c) then Some (g (k, c)) else None | None => None end.
Proof.
  induction p as [|[k' c'] p IH]; [done|]. cbn [om_keys map fst om_get List.filter]. intros [Hni Hn]%NoDup_cons. case_bool_decide as E.
  - subst k'. destruct (f (k, c')); cbn [map om_get fst]; [by rewrite bool_decide_eq_true_2|]. rewrite IH by done.
    assert (om_get k p = None) as -> by (by apply om_get_None). done.
  - destruct (f (k', c')); cbn [map om_get fst]; [rewrite bool_decide_eq_false_2 by done|]; by apply IH.
Qed.

Lemma confirm_calm env st : calm st -> calm (confirm env st) /\
  forall k, om_get k (br_pending (confirm env st)) =
    match om_get k (br_pending st) with
    | Some c => if settles env c then if pc_restoring c then None else Some (confirmed (ev_now env) c) else Some c
    | None => None
    end.
Proof.
  intros [H Hd]. pose proof (confirm_keeps env st H) as [H1 _].
  assert (br_disk (confirm env st) = [] /\ br_pending (confirm env st) = (confirm_pass env (br_pending st)).1) as [Ed Ep].
  { unfold confirm. destruct (confirm_pass env (br_pending st)) as [l r] eqn:El. destruct r; [done|].
    destruct (is_journal _ H) as (j & Hj & _). unfold savePending. cbn [br_journal with_pending br_disk]. by rewrite Hj, Hd. }
  split; [done|]. intros k. rewrite Ep. unfold confirm_pass. cbn [fst].
  rewrite (om_get_filter_map (fun p => negb (settles env p.2 && pc_restoring p.2)) (fun p => if settles env p.2 then confirmed (ev_now env) p.2 else p.2) _ _ (is_nodup _ H)).
  destruct (om_get k (br_pending st)) as [c|]; [|done]. cbn [snd]. by destruct (settles env c), (pc_restoring c).
Qed.

(** What a look at the statuses makes of an entry. *)
Definition looked (env : Env) (c : PendingChange) : option PendingChange := if pc_restoring c then None else Some (confirmed (ev_now env) c).

(** What the work on other parameters may do to the change under [k]. *)
Record apart (env : Env) (k : Key) (st st' : ParamBroker) : Prop := {
  ap_reverting : om_get k (br_reverting st') = om_get k (br_reverting st);
  ap_persisting : br_persisting st' = br_persisting st;
  ap_entry : om_get k (br_pending st') = om_get k (br_pending st) \/
    exists c, om_get k (br_pending st) = Some c /\ settles env c = true /\ om_get k (br_pending st') = looked env c }.

Lemma apart_refl env k st : apart env k st st.
Proof. constructor; [done|done|by left]. Qed.
#[local] Hint Resolve apart_refl : core.

Lemma apart_same env k st st' : om_get k (br_reverting st') = om_get k (br_reverting st) -> br_persisting st' = br_persisting st ->
  om_get k (br_pending st') = om_get k (br_pending st) -> apart env k st st'.
Proof. intros. constructor; [done|done|by left]. Qed.

Lemma apart_trans env k st1 st2 st3 : apart env k st1 st2 -> apart env k st2 st3 -> apart env k st1 st3.
Proof.
  intros [A1 A2 A3] [B1 B2 B3]. constructor; [congruence|congruence|]. destruct B3 as [->|(c2 & H2 & S2 & ->)]; [done|]. destruct A3 as [E|(c1 & H1 & S1 & E)].
  - right. exists c2. by rewrite <- E.
  - rewrite E in H2. unfold looked in H2. destruct (pc_restoring c1); [done|]. by injection H2 as <-.
Qed.

Lemma apart_confirm env k st : calm st -> apart env k st (confirm env st).
Proof.
  intros H. destruct (confirm_calm env st H) as [_ Hg]. destruct (confirm_same env st) as (_ & Er & Ep). constructor; [by rewrite Er|done|].
  rewrite Hg. destruct (om_get k (br_pending st)) as [c|]; [|by left]. destruct (settles env c) eqn:E; [|by left]. right. by exists c.
Qed.

Lemma apart_save env k st : calm st -> apart env k st (fst (savePending st)).
Proof. intros H. destruct (save_calm st H) as (st' & -> & _ & Ep & Er & Es & _). apply apart_same; cbn [fst]; by rewrite ?Ep, ?Er, ?Es. Qed.

Lemma apart_touch env k k' ref f st : k <> k' -> apart env k st (touch k' ref f st).
Proof.
  intros Hne. unfold touch. destruct (om_get k' (br_pending st)) as [c|]; [|done]. destruct (Nat.eqb _ _); [|done]. apply apart_same; [done|done|by apply om_get_set_ne].
Qed.

Lemma calm_touch k ref f st : calm st -> (forall c, base (f c) = base c) -> calm (touch k ref f st).
Proof.
  intros [H Hd] Hf. split; [by apply touch_keeps|]. unfold touch. destruct (om_get k (br_pending st)); [|done]. by destruct (Nat.eqb _ _).
Qed.

Lemma apart_revert_ends env k k' uid c by_ previous st : calm st -> k <> k' ->
  calm (fst (revert_ends env uid k' c by_ previous st)) /\ apart env k st (fst (revert_ends env uid k' c by_ previous st)).
Proof.
  intros [H Hd] Hne. unfold revert_ends. set (st1 := if bool_decide (pc_binding c = KDevice) then st else with_pending (om_del k' (br_pending st)) st).
  assert (calm st1 /\ apart env k st st1) as [H1 A1].
  { subst st1. case_bool_decide; [done|].
    split; [split; [apply keeps_shrink; [done|apply from_old_del|apply om_del_nodup, H]|done]|]. apply apart_same; [done|done|by apply om_get_del_ne]. }
  pose proof (apart_save env k st1 H1) as A2. destruct (save_calm st1 H1) as (st2 & E2 & H2 & _). rewrite E2 in *. cbn [fst] in *.
  destruct (confirm_calm env st2 H2) as [[H3 Hd3] _]. pose proof (apart_confirm env k st2 H2) as A3. split; [split; [by eapply in_step_eq|done]|].
  eapply apart_trans; [exact A1|]. eapply apart_trans; [exact A2|]. destruct A3 as [P1 P2 P3]. by constructor.
Qed.

Lemma apart_revert env k uid param by_ st : calm st -> k <> key uid param ->
  calm (fst (revert env uid param by_ st)) /\ apart env k st (fst (revert env uid param by_ st)).
Proof.
  intros H Hne. unfold revert. destruct (om_get _ (br_pending st)) as [c|]; [|done]. destruct (_ || _); [done|].
  assert (forall st', calm st' -> apart env k st st' -> let st2 := fst (savePending (touch (key uid param) (pc_ref c) (retry_at (ev_now env + 5000)) st')) in
    calm st2 /\ apart env k st st2) as Hfail.
  { intros st' H' A'. assert (calm (touch (key uid param) (pc_ref c) (retry_at (ev_now env + 5000)) st')) as Ht by (by apply calm_touch).
    destruct (save_calm _ Ht) as (st3 & E3 & H3 & _). pose proof (apart_save env k _ Ht) as A3. rewrite E3 in *. cbn [fst] in *. split; [done|].
    eapply apart_trans; [exact A'|]. eapply apart_trans; [by apply apart_touch|done]. }
  destruct (pc_from c) as [from|]; [|by apply apart_revert_ends]. destruct (pc_binding c).
  - destruct (index_of (pc_param c) PARAM_NAMES) as [id|]; [|by apply Hfail]. cbn [fst].
    pose proof (calm_touch (key uid param) (pc_ref c) (aimed env uid) st H ltac:(done)) as [H1 H2]. split; [split; [by eapply in_step_eq|done]|].
    destruct (apart_touch env k (key uid param) (pc_ref c) (aimed env uid) st Hne) as [P1 P2 P3]. constructor; [|done|done].
    cbn [br_reverting with_reverting send_out]. by rewrite om_get_set_ne.
  - destruct (setEdge (pc_param c) from st) as [st'|why] eqn:Es; [|by apply Hfail].
    apply setEdge_same in Es as [en ->]. assert (calm (with_engine en st)) as Hc by (destruct H as [H1 H2]; split; [by eapply in_step_eq|done]).
    destruct (apart_revert_ends env k (key uid param) uid c by_ (pc_to c) _ Hc Hne) as [H1 [P1 P2 P3]]. split; [done|]. by constructor.
Qed.

Lemma apart_sweep_one env k st p : calm st -> p.1 = key (pc_uid p.2) (pc_param p.2) -> k <> p.1 ->
  calm (sweep_one env st p) /\ apart env k st (sweep_one env st p).
Proof.
  intros H Hk Hne. unfold sweep_one. destruct (_ <? _); [done|]. destruct (flying p.1 st); [done|]. apply apart_revert; [done|]. by rewrite <- Hk.
Qed.

Lemma apart_sweep env k l : forall st, calm st -> keyed l -> k ∉ om_keys l -> calm (fold_left (sweep_one env) l st) /\ apart env k st (fold_left (sweep_one env) l st).
Proof.
  induction l as [|p l IH]; intros st H Hk Hni; cbn [fold_left om_keys map] in *; [done|].
  apply not_elem_of_cons in Hni as [Hne Hni]. destruct (apart_sweep_one env k st p H (Hk p ltac:(by left)) Hne) as [H1 A1].
  destruct (IH _ H1 (fun x Hx => Hk x ltac:(by right)) Hni) as [H2 A2]. split; [done|]. by eapply apart_trans.
Qed.

Lemma near_confirmed now c : near c (confirmed now c).
Proof. done. Qed.
Lemma near_refl c : near c c.
Proof. done. Qed.
#[local] Hint Resolve near_refl near_confirmed : core.

(** The way back is on its way: the command is out, its flight holds the change,
    and so do the pending ones ([c1]). *)
Definition on_way_back (env : Env) (k : Key) (c c1 : PendingChange) (st : ParamBroker) : Prop :=
  exists fl, om_get k (br_pending st) = Some c1 /\ near (aimed env (pc_uid c) c) c1 /\ om_get k (br_reverting st) = Some fl /\ fl_revert fl = true /\ pc_ref (fl_change fl) = pc_ref c.

Lemma near_fields c c' : near c c' -> base c' = base c /\ pc_ref c' = pc_ref c /\ pc_revertAt c' = pc_revertAt c /\ pc_commandAt c' = pc_commandAt c /\
  pc_commandBoot c' = pc_commandBoot c /\ pc_commandGeneration c' = pc_commandGeneration c.
Proof. destruct c, c'. unfold near, confirmed, base. cbn. intros H. injection H. intros. subst. done. Qed.

Lemma near_aimed env c c1 : near c c1 -> near (aimed env (pc_uid c) c) (aimed env (pc_uid c) c1).
Proof. destruct c, c1. unfold near, confirmed, aimed. cbn. intros H. injection H. intros. subst. done. Qed.

Lemma revert_starts env k c id st : calm st -> k = key (pc_uid c) (pc_param c) -> flying k st = false -> saving (pc_uid c) st = false ->
  pc_binding c = KDevice -> index_of (pc_param c) PARAM_NAMES = Some id -> forall c0 from, om_get k (br_pending st) = Some c0 -> near c c0 -> pc_from c = Some from ->
  let st' := sweep_one env st (k, c) in pc_revertAt c <= ev_now env ->
  calm st' /\ on_way_back env k c (aimed env (pc_uid c) c0) st' /\ br_sent st' = br_sent st ++ [{| se_uid := pc_uid c; se_opcode := CMD_SET_PARAM; se_argument := id; se_value := from |}].
Proof.
  intros H Hk Hf Hs Hb Hi c0 from Hg Hn Hv st' Ht. subst st'. unfold sweep_one. cbn [fst snd]. rewrite (proj2 (Z.ltb_ge _ _)) by done. rewrite Hf.
  unfold revert. rewrite <- Hk, Hg, Hf, Hs. cbn [orb].
  destruct (near_fields _ _ Hn) as (Eb & Er & _). unfold base in Eb. injection Eb as E1 E2 E3 E4. rewrite E4, Hv, E3, Hb, E2, Hi. cbn [fst].
  pose proof (calm_touch k (pc_ref c0) (aimed env (pc_uid c)) st H ltac:(done)) as [H1 H2].
  assert (br_pending (touch k (pc_ref c0) (aimed env (pc_uid c)) st) = om_set k (aimed env (pc_uid c) c0) (br_pending st)) as Ep.
  { unfold touch. by rewrite Hg, Nat.eqb_refl. }
  split_and!; [split; [by eapply in_step_eq|done]| |cbn; by destruct (touch_same k (pc_ref c0) (aimed env (pc_uid c)) st) as (-> & _)].
  eexists. cbn [br_pending br_reverting send_out with_reverting]. rewrite Ep, !om_get_set_eq. split_and!; [done|by apply near_aimed|done|done|done].
Qed.

(** What the node has to report for the way back to count as arrived. *)
Definition reports_back (env env2 : Env) (c : PendingChange) (seq : Z) (from : Q) : Prop :=
  exists s v, ev_status env2 (pc_uid c) = Some s /\ om_get (pc_param c) (nr_params s) = Some v /\ (v == from)%Q /\
    seq <= nr_lastCmd s /\ ev_now env <= nr_receivedAt s /\
    (forall g, (r ← ev_status env (pc_uid c); nr_generation r) = Some g -> g < default 0 (nr_generation s)) /\
    (forall b, ev_link env (pc_uid c) = Some b -> ev_boot env2 (pc_uid c) = Some b).

Lemma going_back_settles env env2 c c1 seq from now : near (aimed env (pc_uid c) c) c1 -> pc_binding c = KDevice -> pc_from c = Some from ->
  reports_back env env2 c seq from -> settles env2 (going_back seq now c1) = true.
Proof.
  intros Hn Hb Hv (s & v & Hs & Hp & Hq & Hl & Hr & Hg & Hbo). destruct (near_fields _ _ Hn) as (Eb & _ & _ & Ea & Ebo & Ege).
  unfold base in Eb. cbn in Eb, Ea, Ebo, Ege. injection Eb as E1 E2 E3 E4. unfold settles, shows. cbn. rewrite E3, Hb. cbn. rewrite E1, Hs, Ege, Ea, Ebo, E2, Hp, E4, Hv. cbn.
  assert (match s ← ev_status env (pc_uid c); nr_generation s with Some g => default 0 (nr_generation s) <=? g | None => false end = false) as ->.
  { destruct (s0 ← ev_status env (pc_uid c); nr_generation s0) as [g|]; [|done]. apply Z.leb_gt. by apply Hg. }
  rewrite (proj2 (Z.ltb_ge _ _)) by done. cbn [orb].
  assert (match ev_link env (pc_uid c) with Some b => negb (bool_decide (ev_boot env2 (pc_uid c) = Some b)) | None => false end = false) as ->.
  { destruct (ev_link env (pc_uid c)) as [b|]; [|done]. by rewrite bool_decide_eq_true_2 by auto. }
  rewrite (proj2 (Z.leb_le _ _)) by done. cbn [andb]. unfold Qeqb. rewrite Hq. by rewrite (proj2 (Qle_bool_iff from from)) by apply Qle_refl.
Qed.

(** The command was given: what the pending entry is then, and after a look. *)
Lemma lands_back env env1 env2 k c c1 seq st : calm st -> on_way_back env k c c1 st -> let cb := going_back seq (ev_now env1) c1 in
  om_get k (br_pending (confirm env2 (lands env1 k (Some seq) st))) = if settles env1 cb || settles env2 cb then None else Some cb.
Proof.
  intros H (fl & Hg & Hn & Hr & Hrev & Href) cb. unfold lands. rewrite Hr, Hrev. unfold revert_lands.
  set (st0 := with_reverting (om_del k (br_reverting st)) st). assert (calm st0) as H0 by (destruct H as [H1 H2]; split; [by eapply in_step_eq|done]).
  pose proof (calm_touch k (pc_ref (fl_change fl)) (going_back seq (ev_now env1)) st0 H0 ltac:(done)) as Ht.
  assert (om_get k (br_pending (touch k (pc_ref (fl_change fl)) (going_back seq (ev_now env1)) st0)) = Some cb) as Hg1.
  { unfold touch. change (br_pending st0) with (br_pending st). rewrite Hg. destruct (near_fields _ _ Hn) as (_ & Er & _). cbn in Er. rewrite Href, Er, Nat.eqb_refl. apply om_get_set_eq. }
  destruct (save_calm _ Ht) as (st2 & -> & H2 & Ep & _). rewrite <- Ep in Hg1. cbn [fst].
  destruct (confirm_calm env1 st2 H2) as [[H3 Hd3] Hc]. specialize (Hc k). rewrite Hg1 in Hc. change (pc_restoring cb) with true in Hc.
  match goal with |- context [confirm env2 (log ?e ?s)] => assert (calm (log e s)) as H4 by (split; [by eapply in_step_eq|done]); destruct (confirm_calm env2 (log e s) H4) as [_ Hc2] end.
  rewrite Hc2. change (br_pending (log _ (confirm env1 st2))) with (br_pending (confirm env1 st2)). rewrite Hc.
  by destruct (settles env1 cb).
Qed.

Lemma sweep_fold_sent env l : forall st, in_step st -> exists more, br_sent (fold_left (sweep_one env) l st) = br_sent st ++ more.
Proof.
  induction l as [|p l IH]; intros st H; cbn [fold_left]; [exists []; by rewrite app_nil_r|].
  destruct (IH (sweep_one env st p)) as [m2 E2]; [by apply sweep_one_keeps|]. assert (exists m1, br_sent (sweep_one env st p) = br_sent st ++ m1) as [m1 E1].
  { unfold sweep_one. destruct (_ <? _); [exists []; by rewrite app_nil_r|]. destruct (flying p.1 st); [exists []; by rewrite app_nil_r|].
    destruct (revert_sends env (pc_uid p.2) (pc_param p.2) "auto-revert" st H) as (m & E & _). by exists m. }
  exists (m1 ++ m2). by rewrite E2, E1, <- app_assoc.
Qed.

(** The entry was dropped by a look, which saw an earlier way back arrive. *)
Definition arrived (env : Env) (k : Key) (c : PendingChange) (st : ParamBroker) : Prop :=
  om_get k (br_pending st) = None /\ pc_restoring c = true /\ settles env c = true.

Lemma apart_gone env k c st st' : apart env k st st' -> om_get k (br_pending st) = Some c ->
  (exists c', om_get k (br_pending st') = Some c' /\ near c c') \/ arrived env k c st'.
Proof.
  intros [_ _ [E|(c1 & H1 & S1 & E)]] Hg; rewrite Hg in *; [left; by exists c|]. injection H1 as <-. unfold looked in E. destruct (pc_restoring c) eqn:Er; [by right|left; by exists (confirmed (ev_now env) c)].
Qed.

Lemma way_back_apart env k c c1 st st' : on_way_back env k c c1 st -> apart env k st st' -> (exists c2, on_way_back env k c c2 st') \/ arrived env k c1 st'.
Proof.
  intros (fl & Hg & Hn & Hr & Hrev & Href) A. destruct (apart_gone _ _ _ _ _ A Hg) as [(c2 & E & Hn2)|]; [left|by right].
  exists c2, fl. split_and!; try done; [by eapply near_trans|by rewrite (ap_reverting _ _ _ _ A)].
Qed.

(** A sweep starts the way back of a change whose time has come. *)
Lemma sweep_starts env k c id from st : calm st -> om_get k (br_pending st) = Some c -> pc_binding c = KDevice -> index_of (pc_param c) PARAM_NAMES = Some id ->
  pc_from c = Some from -> pc_revertAt c <= ev_now env -> flying k st = false -> saving (pc_uid c) st = false ->
  let st1 := sweep env st in calm st1 /\
  ((exists c1, on_way_back env k c c1 st1 /\ {| se_uid := pc_uid c; se_opcode := CMD_SET_PARAM; se_argument := id; se_value := from |} ∈ drop (length (br_sent st)) (br_sent st1)) \/
   (om_get k (br_pending st1) = None /\ pc_restoring c = true /\ (settles env c || settles env (aimed env (pc_uid c) c)) = true)).
Proof.
  intros H Hg Hb Hi Hv Ht Hf Hs st1. subst st1. change (sweep env st) with (fold_left (sweep_one env) (br_pending st) st).
  pose proof (om_get_elem _ _ _ Hg) as Hin. pose proof (is_keys _ (proj1 H)) as Hkeys. pose proof (is_nodup _ (proj1 H)) as Hnd.
  pose proof (Hkeys _ Hin) as Hk. cbn in Hk. apply list_elem_of_split in Hin as (l1 & l2 & El). rewrite El in Hkeys, Hnd |- *. unfold om_keys in Hnd. rewrite map_app in Hnd. cbn [map fst] in Hnd.
  apply NoDup_app in Hnd as (_ & Hd & [Hn2 _]%NoDup_cons). rewrite fold_left_app. cbn [fold_left].
  destruct (apart_sweep env k l1 st H) as [H1 A1]; [intros x Hx; apply Hkeys; set_solver|intros Hx; apply (Hd k Hx); by left|].
  destruct (sweep_fold_sent env l1 st (proj1 H)) as [more1 Em1]. set (s1 := fold_left (sweep_one env) l1 st) in *.
  assert (flying k s1 = false) as Hf1 by (unfold flying, om_has in *; by rewrite (ap_reverting _ _ _ _ A1)).
  assert (saving (pc_uid c) s1 = false) as Hs1 by (unfold saving in *; by rewrite (ap_persisting _ _ _ _ A1)).
  assert (keyed l2) as Hk2 by (intros x Hx; apply Hkeys; set_solver).
  assert (forall c0, om_get k (br_pending s1) = Some c0 -> c0 = c \/ c0 = confirmed (ev_now env) c) as Hc0.
  { intros c0 E0. destruct (ap_entry _ _ _ _ A1) as [E|(c' & Hc' & _ & E)]; rewrite E in E0; rewrite Hg in *; [left; congruence|]. injection Hc' as <-. unfold looked in E0. destruct (pc_restoring c); [done|right; congruence]. }
  destruct (om_get k (br_pending s1)) as [c0|] eqn:E0.
  - assert (near c c0) as Hn by (destruct (Hc0 c0 eq_refl) as [->| ->]; done).
    destruct (revert_starts env k c id s1 H1 Hk Hf1 Hs1 Hb Hi c0 from E0 Hn Hv Ht) as (H3 & Hw & Es).
    destruct (apart_sweep env k l2 _ H3 Hk2 Hn2) as [H4 A4]. split; [done|].
    destruct (way_back_apart _ _ _ _ _ _ Hw A4) as [[c1 Hw']|(Hnone & Hr & Hset)].
    + left. exists c1. split; [done|]. destruct (sweep_fold_sent env l2 _ (proj1 H3)) as [more ->]. rewrite Es, Em1, <- !app_assoc, drop_app_length. set_solver.
    + right. split; [done|]. destruct (Hc0 c0 eq_refl) as [->| ->]; [split; [done|by rewrite Hset, orb_true_r]|done].
  - assert (sweep_one env s1 (k, c) = s1) as ->.
    { unfold sweep_one. cbn [fst snd]. destruct (_ <? _); [done|]. rewrite Hf1. unfold revert. by rewrite <- Hk, E0. }
    destruct (apart_sweep env k l2 _ H1 Hk2 Hn2) as [H4 A4]. split; [done|]. right.
    destruct (apart_gone _ _ _ _ _ A1 Hg) as [(c' & E' & _)|(_ & Hr & Hset)]; [congruence|]. split; [|by rewrite Hset].
    destruct (ap_entry _ _ _ _ A4) as [->|(c' & E' & _)]; [done|congruence].
Qed.

(** A command that failed is tried again five seconds later. *)
Lemma lands_failed env env1 k c c1 st : on_way_back env k c c1 st ->
  flying k (lands env1 k None st) = false /\ om_get k (br_pending (lands env1 k None st)) = Some (retry_at (ev_now env1 + 5000) c1).
Proof.
  intros (fl & Hg & Hn & Hr & Hrev & Href). unfold lands. rewrite Hr, Hrev. unfold revert_lands. cbn [fst].
  set (st0 := with_reverting (om_del k (br_reverting st)) st).
  destruct (save_same (touch k (pc_ref (fl_change fl)) (retry_at (ev_now env1 + 5000)) st0)) as (Ep & _ & Er & _).
  unfold flying, om_has. rewrite Ep, Er. destruct (touch_same k (pc_ref (fl_change fl)) (retry_at (ev_now env1 + 5000)) st0) as (_ & -> & _).
  split; [subst st0; cbn [br_reverting with_reverting]; by rewrite om_get_del_eq|].
  destruct (near_fields _ _ Hn) as (_ & Ere & _). unfold touch. change (br_pending st0) with (br_pending st). rewrite Hg. cbn in Ere. rewrite Href, Ere, Nat.eqb_refl. apply om_get_set_eq.
Qed.


(** ** Witnesses *)

Definition demo_engine : Engine := {| en_nodes := []; en_seats := []; en_tables := []; en_opts := DEFAULT_OCCUPANCY |}.
Definition demo_node : string := "aa:bb:cc:dd:ee:01".
Definition demo_env (now lastCmd area : Z) : Env :=
  {| ev_now := now; ev_status := fun _ => Some {| nr_params := [("min_area", area # 1)]; nr_lastCmd := lastCmd; nr_receivedAt := now; nr_generation := Some now |};
     ev_boot := fun _ => Some 3; ev_link := fun _ => Some 3 |}.
Definition demo_start : ParamBroker :=
  {| br_pending := []; br_audit := []; br_journal := Some []; br_reverting := []; br_persisting := []; br_engine := demo_engine; br_sent := []; br_disk := []; br_next := O |}.
Definition demo_key : Key := (demo_node, "min_area").
Definition demo_events : list Event :=
  [EApply (demo_env 1000 6 4) demo_node "human-1" (Device "min_area") (Finite 9) "ana"; ELands (demo_env 1010 6 4) demo_key (Some 7)].

Definition demo_state : ParamBroker := Eval vm_compute in run broker_step demo_start demo_events.

Lemma demo_state_run : run broker_step demo_start demo_events = demo_state.
Proof. vm_compute. reflexivity. Qed.

Definition demo_change : PendingChange :=
  {| pc_uid := demo_node; pc_nodeId := "human-1"; pc_param := "min_area"; pc_binding := KDevice; pc_from := Some (4 # 1)%Q; pc_to := 9; pc_at := 1000;
     pc_revertAt := 901000; pc_confirmedAt := None; pc_cmdSeq := Some 7; pc_commandAt := Some 1000; pc_commandBoot := Some 3;
     pc_commandGeneration := Some 1000; pc_restoring := false; pc_ref := O |}.

Lemma recovery_is_durable_witness : exists j c', br_journal demo_state = Some j /\ om_get demo_key (journal_map j) = Some c' /\ pc_from c' = Some (4 # 1)%Q.
Proof.
  destruct (recovery_is_durable 0 demo_engine [] [] demo_start demo_events (ELook (demo_env 2000 6 4)) eq_refl ltac:(set_solver)) as [(j & Hj & Hc) _].
  rewrite demo_state_run in Hj, Hc. destruct (Hc demo_key demo_change) as (c' & Hc' & Eb); [vm_compute; reflexivity|reflexivity|].
  exists j, c'. split_and!; [exact Hj|exact Hc'|]. unfold base in Eb. by injection Eb as _ _ _ ->.
Defined.

Lemma restart_puts_back_witness : exists st1 c', reload 5000 demo_engine [] (br_journal demo_state) = Ok st1 /\
  om_get demo_key (br_pending st1) = Some c' /\ pc_from c' = Some (4 # 1)%Q /\ pc_revertAt c' = 5000.
Proof.
  assert (Z.of_nat (length (default [] (br_journal demo_state))) <= 50000) as Hle by (vm_compute; discriminate).
  destruct (restart_puts_back 0 demo_engine [] [] demo_start demo_events (default [] (br_journal demo_state)) 5000 demo_engine [] eq_refl ltac:(set_solver)
    ltac:(vm_compute; reflexivity) ltac:(vm_compute; reflexivity) Hle) as (st1 & E & H).
  rewrite demo_state_run in H. destruct (H demo_key demo_change) as (c' & Hc' & Eb & Hr); [vm_compute; reflexivity|reflexivity|].
  exists st1, c'. split_and!; [exact E|exact Hc'| |exact Hr]. unfold base in Eb. by injection Eb as _ _ _ ->.
Defined.


(** A status may report a value outside the limits of its parameter (here an
    area of 300, the limit being 200): the change is accepted and its way back
    written to the journal, and the broker then refuses to start from it. *)
Example journal_that_cannot_be_read :
  exists st, run broker_step demo_start [EApply (demo_env 1000 6 300) demo_node "human-1" (Device "min_area") (Finite 9) "ana"] = st /\
    br_journal st <> Some [] /\ reload 2000 demo_engine [] (br_journal st) = Err "invalid pending parameter journal entry".
Proof. eexists. split; [reflexivity|]. split; [vm_compute; discriminate|vm_compute; reflexivity]. Qed.

(** When the directory cannot be synced after the journal was replaced, a commit
    fails and the change is pending again, but the journal no longer has it. *)
Example late_failure_loses_the_way_back :
  let st := run broker_step {| br_pending := br_pending demo_state; br_audit := []; br_journal := br_journal demo_state; br_reverting := []; br_persisting := [];
    br_engine := demo_engine; br_sent := []; br_disk := [SaveLate]; br_next := 1%nat |} [ECommit (demo_env 3000 7 9) demo_node "min_area" "ana"] in
  om_get demo_key (br_pending st) = Some demo_change /\ br_journal st = Some [].
Proof. vm_compute. done. Qed.
