(* ===== verification/Zip.v ===== *)
(** Uploaded archives (src/algo/train/zip.ts): judging every entry of a zip
    file from its directory, and extracting what was accepted.

    A JavaScript string is the list of its UTF-16 units here, and a path in the
    file system the list of its segments below the root directory. Decoding
    UTF-8 and inflating are the platform's: the classes [Utf8] and [Inflate]. *)

From S2P Require Import Prelude Bytes.

(** [new TextDecoder('utf-8', {fatal: true}).decode]; [None] when it throws. *)
Class Utf8 := { utf8_decode : list Z -> option (list Z) }.

(** What [createInflateRaw] and [createReadStream] pass on, piece by piece, and
    whether they got to the end. *)
Class Inflate := { inflate : list Z -> list (list Z) * bool; pieces : list Z -> list (list Z) }.
Class InflateLaws {I : Inflate} : Prop := { pieces_concat b : concat (pieces b) = b }.

(** @algo/train/zip.ts 21-21 ZipError *)
Inductive zip_error :=
| ZipError (entry : option (list Z)) (why : string)
| RangeError.

(** @algo/train/zip.ts 23-26 ZipLimits *)
Record ZipLimits := { maxEntries : Z; maxUnpackedBytes : Z }.

(** @algo/train/zip.ts 28-39 ZipEntry *)
Record ZipEntry := {
  ze_path : list Z; ze_dir : bool; ze_skip : bool; ze_method : Z; ze_crc : Z; ze_compressedSize : Z; ze_size : Z; ze_dataOffset : Z }.

(** @algo/train/zip.ts 41-41 EOCD *)
Definition EOCD : Z := 101010256.
(** @algo/train/zip.ts 42-42 CENTRAL *)
Definition CENTRAL : Z := 33639248.
(** @algo/train/zip.ts 43-43 LOCAL *)
Definition LOCAL : Z := 67324752.
(** @algo/train/zip.ts 44-44 ZIP64_LOCATOR *)
Definition ZIP64_LOCATOR : Z := 117853008.
(** @algo/train/zip.ts 45-45 MAX_CENTRAL_BYTES *)
Definition MAX_CENTRAL_BYTES : Z := 16 * 1024 * 1024.
(** @algo/train/zip.ts 46-46 S_IFMT *)
Definition S_IFMT : Z := 61440.
(** @algo/train/zip.ts 47-47 S_IFREG *)
Definition S_IFREG : Z := 32768.
(** @algo/train/zip.ts 48-48 S_IFDIR *)
Definition S_IFDIR : Z := 16384.
(** @algo/train/zip.ts 49-49 S_IFLNK *)
Definition S_IFLNK : Z := 40960.

Definition fail_zip {A} (why : string) : result zip_error A := Err (ZipError None why).
Definition fail_entry {A} (entry : list Z) (why : string) : result zip_error A := Err (ZipError (Some entry) why).
Definition u (n : nat) (o : Z) (b : list Z) : result zip_error Z := of_option RangeError (read_uint n (Z.to_nat o) b).

(** @algo/train/zip.ts 51-56 readAt *)
Definition readAt (file : list Z) (pos len : Z) : result zip_error (list Z) :=
  let b := sub (Z.to_nat pos) (Z.to_nat len) file in
  if Nat.eqb (length b) (Z.to_nat len) then Ok b else fail_zip "the archive is truncated".

(** ** Names *)

(** [s.split('/')] and [segs.join('/')] *)
Fixpoint split_slash (l : list Z) : list (list Z) :=
  match l with
  | [] => [[]]
  | c :: l' =>
      if c =? 47 then [] :: split_slash l'
      else match split_slash l' with [] => [[c]] | w :: ws => (c :: w) :: ws end
  end.
Fixpoint join_slash (segs : list (list Z)) : list Z :=
  match segs with
  | [] => []
  | [s] => s
  | s :: segs' => s ++ 47 :: join_slash segs'
  end.

Definition units (s : string) : list Z := map code (chars s).
Definition DOTDOT : list Z := [46; 46].
Definition DOT : list Z := [46].
Definition is_letter (c : Z) : bool := between 65 90 c || between 97 122 c.
Definition starts (p l : list Z) : bool := bool_decide (take (length p) l = p).
Definition ends (p l : list Z) : bool := starts (List.rev p) (List.rev l).

(** [/[\x00-\x1f\x7f\\]/] *)
Definition bad_unit (c : Z) : bool := between 0 31 c || (c =? 127) || (c =? 92).

Section names.
Context {U : Utf8}.

(** @algo/train/zip.ts 61-75 cleanName *)
Definition cleanName (raw : list Z) : result zip_error (list Z * bool) :=
  match utf8_decode raw with
  | None => fail_zip "an entry name is not valid UTF-8"
  | Some name =>
      let shown := take 120 name in
      if Nat.eqb (length name) 0 || Nat.ltb 512 (length name) then fail_entry shown "empty or overlong name"
      else if existsb bad_unit name then fail_entry shown "control characters or backslashes in the name"
      else if starts [47] name || match name with c :: 58 :: _ => is_letter c | _ => false end then fail_entry shown "absolute path"
      else
        let dir := ends [47] name in
        let segs := split_slash (if dir then take (length name - 1) name else name) in
        if existsb (fun s => bool_decide (s = DOTDOT)) segs then fail_entry shown ".. in the path"
        else if existsb (fun s => bool_decide (s = []) || bool_decide (s = DOT)) segs then fail_entry shown "empty or . path segment"
        else if Nat.ltb 32 (length segs) then fail_entry shown "nested deeper than 32 directories"
        else Ok (join_slash segs, dir)
  end.

(** ** The directory *)

(** An entry with what the directory alone says of it. *)
Record Central := { ce_entry : ZipEntry; ce_localOffset : Z; ce_rawName : list Z }.

(** The Unix file type, when the archive has one.
    @algo/train/zip.ts 150-159 readZip *)
Definition entry_kind (name : list Z) (slash : bool) (madeBy external usize : Z) : result zip_error bool :=
  let shown := take 120 name in
  let type := Z.land (Z.shiftr external 16) S_IFMT in
  let unix := Z.shiftr madeBy 8 =? 3 in
  if unix && (type =? S_IFLNK) then fail_entry shown "symbolic links are not allowed"
  else if unix && negb (type =? 0) && negb (type =? S_IFREG) && negb (type =? S_IFDIR) then fail_entry shown "only files and directories are allowed"
  else if unix && (type =? S_IFREG) && slash then fail_entry shown "a file named like a directory"
  else
    let dir := slash || (unix && (type =? S_IFDIR)) in
    if dir && negb (usize =? 0) then fail_entry shown "a directory with contents" else Ok dir.

(** @algo/train/zip.ts 164-164 readZip *)
Definition is_litter (name : list Z) : bool :=
  bool_decide (name = units "__MACOSX") || starts (units "__MACOSX/") name || bool_decide (name = units ".DS_Store") || ends (units "/.DS_Store") name.

(** The entry of the directory at [p], where the next one is, and the bytes
    unpacked up to this one.
    @algo/train/zip.ts 126-165 readZip *)
Definition central_entry (limits : ZipLimits) (cd : list Z) (p unpacked : Z) : result zip_error (Central * Z * Z) :=
  let n := Z.of_nat (length cd) in
  throw_if n <? p + 46 with ZipError None "corrupt archive (central directory)" in
  let! signature := u 4 p cd in
  throw_if negb (signature =? CENTRAL) with ZipError None "corrupt archive (central directory)" in
  let! madeBy := u 2 (p + 4) cd in
  let! flags := u 2 (p + 8) cd in
  let! method := u 2 (p + 10) cd in
  let! crc := u 4 (p + 16) cd in
  let! compressedSize := u 4 (p + 20) cd in
  let! usize := u 4 (p + 24) cd in
  let! nameLen := u 2 (p + 28) cd in
  let! extraLen := u 2 (p + 30) cd in
  let! commentLen := u 2 (p + 32) cd in
  let! diskStart := u 2 (p + 34) cd in
  let! external := u 4 (p + 38) cd in
  let! localOffset := u 4 (p + 42) cd in
  throw_if n <? p + 46 + nameLen + extraLen + commentLen with ZipError None "corrupt archive (central directory)" in
  let rawName := sub (Z.to_nat (p + 46)) (Z.to_nat nameLen) cd in
  throw_if negb (diskStart =? 0) with ZipError None "split (multi-part) archives are not supported" in
  throw_if (compressedSize =? 2 ^ 32 - 1) || (usize =? 2 ^ 32 - 1) || (localOffset =? 2 ^ 32 - 1) with ZipError None "ZIP64 archives are not supported" in
  let! (name, slash) := cleanName rawName in
  let shown := take 120 name in
  throw_if negb (Z.land flags 65 =? 0) with ZipError (Some shown) "encrypted entries are not supported" in
  throw_if negb (method =? 0) && negb (method =? 8) with ZipError (Some shown) "compression method is not supported (use deflate)" in
  let! dir := entry_kind name slash madeBy external usize in
  throw_if maxUnpackedBytes limits <? unpacked + usize with ZipError None "unpacks to too many MB" in
  Ok ({| ce_entry := {| ze_path := name; ze_dir := dir; ze_skip := is_litter name; ze_method := method; ze_crc := crc;
                        ze_compressedSize := compressedSize; ze_size := usize; ze_dataOffset := 0 |};
         ce_localOffset := localOffset; ce_rawName := rawName |}, p + 46 + nameLen + extraLen + commentLen, unpacked + usize).

(** @algo/train/zip.ts 125-166 readZip *)
Fixpoint central_entries (limits : ZipLimits) (cd : list Z) (total : nat) (p unpacked : Z) : result zip_error (list Central * Z * Z) :=
  match total with
  | O => Ok ([], p, unpacked)
  | S total =>
      let! (c, p, unpacked) := central_entry limits cd p unpacked in
      let! (cs, p, unpacked) := central_entries limits cd total p unpacked in
      Ok (c :: cs, p, unpacked)
  end.

(** The directories an entry needs.
    @algo/train/zip.ts 177-178 readZip *)
Definition parents (path : list Z) : list (list Z) :=
  let segs := split_slash path in map (fun i => join_slash (take i segs)) (List.seq 1 (length segs - 1)).

(** @algo/train/zip.ts 171-179 readZip *)
Fixpoint claim_names (cs : list Central) (files dirs : gset (list Z)) : result zip_error (gset (list Z) * gset (list Z)) :=
  match cs with
  | [] => Ok (files, dirs)
  | c :: cs =>
      let e := ce_entry c in
      if ze_skip e then claim_names cs files dirs
      else if bool_decide (ze_path e ∈ files) || (negb (ze_dir e) && bool_decide (ze_path e ∈ dirs)) then fail_entry (ze_path e) "appears twice"
      else
        let files := if ze_dir e then files else {[ze_path e]} ∪ files in
        let dirs := if ze_dir e then {[ze_path e]} ∪ dirs else dirs in
        claim_names cs files (list_to_set (parents (ze_path e)) ∪ dirs)
  end.

(** @algo/train/zip.ts 180-180 readZip *)
Definition both (cs : list Central) (files dirs : gset (list Z)) : option (list Z) :=
  List.find (fun f => bool_decide (f ∈ files) && bool_decide (f ∈ dirs)) (map (fun c => ze_path (ce_entry c)) cs).

(** Where the data of an entry starts, its local header agreeing with the
    directory.
    @algo/train/zip.ts 187-199 readZip *)
Definition local_entry (file : list Z) (cdOffset end_ : Z) (c : Central) : result zip_error Z :=
  let e := ce_entry c in
  throw_if ce_localOffset c <? end_ with ZipError (Some (ze_path e)) "overlaps another" in
  let! local := readAt file (ce_localOffset c) 30 in
  let! signature := u 4 0 local in
  throw_if negb (signature =? LOCAL) with ZipError (Some (ze_path e)) "bad local header" in
  let! method := u 2 8 local in
  let! flags := u 2 6 local in
  throw_if negb (method =? ze_method e) || negb (Z.land flags 65 =? 0) with ZipError (Some (ze_path e)) "local header disagrees with the directory" in
  let! nameLen := u 2 26 local in
  let! extraLen := u 2 28 local in
  let! name := readAt file (ce_localOffset c + 30) nameLen in
  throw_if negb (bool_decide (name = ce_rawName c)) with ZipError (Some (ze_path e)) "local name disagrees with the directory" in
  let dataOffset := ce_localOffset c + 30 + nameLen + extraLen in
  throw_if cdOffset <? dataOffset + ze_compressedSize e with ZipError (Some (ze_path e)) "data runs past the archive" in
  Ok dataOffset.

(** The offsets of the data, by the place of the entry in the archive.
    @algo/train/zip.ts 185-200 readZip *)
Fixpoint local_entries (file : list Z) (cdOffset end_ : Z) (cs : list (nat * Central)) : result zip_error (list (nat * Z)) :=
  match cs with
  | [] => Ok []
  | (i, c) :: cs =>
      let! dataOffset := local_entry file cdOffset end_ c in
      let! rest := local_entries file cdOffset (dataOffset + ze_compressedSize (ce_entry c)) cs in
      Ok ((i, dataOffset) :: rest)
  end.

Definition by_offset (a b : nat * Central) : bool := ce_localOffset a.2 <=? ce_localOffset b.2.
Definition with_offset (offset : Z) (e : ZipEntry) : ZipEntry :=
  {| ze_path := ze_path e; ze_dir := ze_dir e; ze_skip := ze_skip e; ze_method := ze_method e; ze_crc := ze_crc e;
     ze_compressedSize := ze_compressedSize e; ze_size := ze_size e; ze_dataOffset := offset |}.

(** The end record, the last thing in the file but for its comment.
    @algo/train/zip.ts 103-105 readZip *)
Definition end_record (tail : list Z) : option Z :=
  List.find (fun i => match u 4 i tail, u 2 (i + 20) tail with
                      | Ok signature, Ok n => (signature =? EOCD) && (i + 22 + n =? Z.of_nat (length tail))
                      | _, _ => false
                      end)
    (map Z.of_nat (List.rev (List.seq 0 (length tail - 21)))).

(** The entries after their names and places were checked.
    @algo/train/zip.ts 171-204 readZip *)
Definition place_entries (file : list Z) (cdOffset : Z) (cs : list Central) : result zip_error (list ZipEntry) :=
  let! (files, dirs) := claim_names cs ∅ ∅ in
  match both cs files dirs with
  | Some f => fail_entry f "is both a file and a directory"
  | None =>
      let! offsets := local_entries file cdOffset 0 (isort by_offset (imap pair cs)) in
      Ok (imap (fun i c => with_offset (default 0 (om_get i offsets)) (ce_entry c)) cs)
  end.

(** @algo/train/zip.ts 94-208 readZip *)
Definition readZip (file : list Z) (limits : ZipLimits) : result zip_error (list ZipEntry * Z) :=
  let size := Z.of_nat (length file) in
  throw_if size <? 22 with ZipError None "not a zip archive" in
  let tailLen := Z.min size (22 + 65535) in
  let! tail := readAt file (size - tailLen) tailLen in
  match end_record tail with
  | None => fail_zip "not a zip archive (no end-of-directory record)"
  | Some at_ =>
      let eocdPos := size - tailLen + at_ in
      let! total := u 2 (at_ + 10) tail in
      let! cdSize := u 4 (at_ + 12) tail in
      let! cdOffset := u 4 (at_ + 16) tail in
      let! disk := u 2 (at_ + 4) tail in
      let! cdDisk := u 2 (at_ + 6) tail in
      let! here := u 2 (at_ + 8) tail in
      throw_if negb (disk =? 0) || negb (cdDisk =? 0) || negb (here =? total) with ZipError None "split (multi-part) archives are not supported" in
      throw_if (total =? 65535) || (cdSize =? 2 ^ 32 - 1) || (cdOffset =? 2 ^ 32 - 1) with ZipError None "ZIP64 archives are not supported" in
      let! locator := if 20 <=? eocdPos then let! b := readAt file (eocdPos - 20) 4 in u 4 0 b else Ok 0 in
      throw_if locator =? ZIP64_LOCATOR with ZipError None "ZIP64 archives are not supported" in
      throw_if maxEntries limits <? total with ZipError None "too many entries" in
      throw_if (eocdPos <? cdOffset + cdSize) || (MAX_CENTRAL_BYTES <? cdSize) with ZipError None "corrupt archive (central directory out of range)" in
      let! cd := readAt file cdOffset cdSize in
      let! (cs, p, unpackedBytes) := central_entries limits cd (Z.to_nat total) 0 0 in
      throw_if negb (p =? Z.of_nat (length cd)) with ZipError None "corrupt archive (central directory length)" in
      let! entries := place_entries file cdOffset cs in
      Ok (entries, unpackedBytes)
  end.
End names.

(** ** The checksum *)

Definition crc_bit (c : Z) : Z := if Z.odd c then Z.lxor 3988292384 (Z.shiftr c 1) else Z.shiftr c 1.
(** @algo/train/zip.ts 78-82 CRC_TABLE *)
Definition CRC_TABLE : list Z := map (fun n => Nat.iter 8 crc_bit (Z.of_nat n)) (List.seq 0 256).

(** One byte of the loop, on the unsigned 32-bit value. *)
Definition crc_byte (c b : Z) : Z := Z.lxor (nth (Z.to_nat (Z.land (Z.lxor c b) 255)) CRC_TABLE 0) (Z.shiftr c 8).
Definition not32 (c : Z) : Z := 2 ^ 32 - 1 - c.
(** @algo/train/zip.ts 83-88 crc32 *)
Definition crc32 (buf : list Z) (prev : Z) : Z := not32 (fold_left crc_byte buf (not32 prev)).

(** ** Extraction *)

(** A file system: the absolute paths that exist. *)
Notation segments := (list (list Z)).
Inductive node := Dir | File (content : list Z).
Notation FS := (gmap segments node).
#[export] Instance node_eq : EqDecision node.
Proof. solve_decision. Defined.

(** [path.resolve] of an absolute path and relative segments. *)
Definition resolve_step (at_ : segments) (seg : list Z) : segments :=
  if bool_decide (seg = []) || bool_decide (seg = DOT) then at_
  else if bool_decide (seg = DOTDOT) then take (length at_ - 1) at_
  else at_ ++ [seg].
Definition resolve (root : segments) (segs : list (list Z)) : segments := fold_left resolve_step segs root.

(** [target.startsWith(root + sep)] *)
Definition inside (root target : segments) : bool :=
  negb (bool_decide (root = [])) && bool_decide (take (length root) target = root) && Nat.ltb (length root) (length target).

Section extract.
Context {I : Inflate}.
(** Whether the system lets a path be created, or a piece be written. *)
Context (allows : segments -> nat -> bool).

(** [dirname(p)] *)
Definition dirname (p : segments) : segments := take (length p - 1) p.
Definition is_dir (fs : FS) (p : segments) : bool := match p with [] => true | _ => bool_decide (fs !! p = Some Dir) end.
Definition exists_at (fs : FS) (p : segments) : bool := is_dir fs p || bool_decide (is_Some (fs !! p)).
(** Whether every directory on the way to a path is there. *)
Definition reachable (fs : FS) (p : segments) : bool := forallb (fun k => is_dir fs (take k p)) (List.seq 0 (length p)).

Definition mkdir (p : segments) (fs : FS) : result string FS :=
  if allows p 0 && negb (exists_at fs p) && reachable fs p then Ok (<[p := Dir]> fs) else Err "mkdir".

(** [mkdir(p, {recursive: true})]: the missing directories on the way, from the
    top; [k] of the segments are there. *)
Fixpoint mkdir_from (k : nat) (todo : nat) (p : segments) (fs : FS) : FS * option string :=
  match todo with
  | O => (fs, None)
  | S todo =>
      let q := take (S k) p in
      if is_dir fs q then mkdir_from (S k) todo p fs
      else if exists_at fs q || negb (allows q 0) then (fs, Some "mkdir")
      else mkdir_from (S k) todo p (<[q := Dir]> fs)
  end.
Definition mkdir_recursive (p : segments) (fs : FS) : FS * option string := mkdir_from 0 (length p) p fs.

(** The pieces pass the meter and are written until one is too many or cannot
    be written: the bytes and the checksum of those that passed, and what went
    wrong.
    @algo/train/zip.ts 211-221 Meter *)
Fixpoint meter (target : segments) (max : Z) (k : nat) (chunks : list (list Z)) (written : list Z) (crc : Z) : list Z * Z * option string :=
  match chunks with
  | [] => (written, crc, None)
  | c :: chunks =>
      if max <? Z.of_nat (length (written ++ c)) then (written, crc, Some "inflates past its declared size")
      else if negb (allows target (S k)) then (written, crc32 c crc, Some "write")
      else meter target max (S k) chunks (written ++ c) (crc32 c crc)
  end.

(** What reaches the meter: nothing of an entry without data, the inflated
    bytes of one that is compressed.
    @algo/train/zip.ts 240-247 extractZip *)
Definition source (file : list Z) (e : ZipEntry) : list (list Z) * bool :=
  let data := sub (Z.to_nat (ze_dataOffset e)) (Z.to_nat (ze_compressedSize e)) file in
  if ze_compressedSize e =? 0 then ([], true) else if ze_method e =? 8 then inflate data else (pieces data, true).

(** What the pipeline writes of one entry, and the checks after it.
    @algo/train/zip.ts 238-254 extractZip *)
Definition write_entry (file : list Z) (e : ZipEntry) (target : segments) (fs : FS) : FS * option string :=
  if exists_at fs target || negb (reachable fs target) || negb (allows target 0) then (fs, Some "open")
  else
    let '(chunks, complete) := source file e in
    let '(written, crc, wrong) := meter target (ze_size e) 0 chunks [] 0 in
    let fs := <[target := File written]> fs in
    match wrong with
    | Some why => (fs, Some why)
    | None =>
        if negb complete then (fs, Some "inflate")
        else if negb (Z.of_nat (length written) =? ze_size e) then (fs, Some "size disagrees with the directory")
        else if negb (crc =? ze_crc e) then (fs, Some "CRC mismatch (corrupt archive)")
        else (fs, None)
    end.

(** @algo/train/zip.ts 232-254 extractZip *)
Definition extract_entry (file : list Z) (root : segments) (e : ZipEntry) (fs : FS) : FS * option string :=
  if ze_skip e then (fs, None)
  else
    let target := resolve root (split_slash (ze_path e)) in
    if negb (inside root target) then (fs, Some "escapes the destination")
    else if ze_dir e then mkdir_recursive target fs
    else
      let '(fs, wrong) := mkdir_recursive (dirname target) fs in
      match wrong with
      | Some why => (fs, Some why)
      | None => write_entry file e target fs
      end.

Fixpoint extract_entries (file : list Z) (root : segments) (es : list ZipEntry) (fs : FS) : FS * option string :=
  match es with
  | [] => (fs, None)
  | e :: es =>
      let '(fs, wrong) := extract_entry file root e fs in
      match wrong with Some why => (fs, Some why) | None => extract_entries file root es fs end
  end.

(** @algo/train/zip.ts 228-256 extractZip *)
Definition extractZip (file : list Z) (dest : segments) (entries : list ZipEntry) (fs : FS) : FS * option string :=
  match mkdir dest fs with
  | Err why => (fs, Some why)
  | Ok fs => extract_entries file dest entries fs
  end.
End extract.

(** ** Names are safe *)

Lemma split_nonempty l : split_slash l <> [].
Proof. destruct l as [|c l]; [done|]. cbn. destruct (c =? 47); [done|]. by destruct (split_slash l). Qed.

Lemma join_split l : join_slash (split_slash l) = l.
Proof.
  induction l as [|c l IH]; [done|]. cbn [split_slash]. destruct (Z.eqb_spec c 47) as [->|Hne].
  - cbn [join_slash]. pose proof (split_nonempty l). rewrite IH. by destruct (split_slash l).
  - pose proof (split_nonempty l). destruct (split_slash l) as [|w ws]; [done|]. rewrite <- IH. cbn. by destruct ws.
Qed.

Lemma split_no_slash l s : s ∈ split_slash l -> 47 ∉ s.
Proof.
  revert s; induction l as [|c l IH]; intros s; cbn [split_slash]; [intros ->%list_elem_of_singleton; apply not_elem_of_nil|].
  destruct (Z.eqb_spec c 47) as [->|Hne].
  - intros [->|Hs]%elem_of_cons; [apply not_elem_of_nil|by apply IH].
  - destruct (split_slash l) as [|w ws]; [intros ->%list_elem_of_singleton; rewrite list_elem_of_singleton; congruence|].
    intros [->|Hs]%elem_of_cons; [|apply IH; by right]. rewrite not_elem_of_cons. split; [congruence|]. apply IH. by left.
Qed.

(** A path that leads nowhere but down. *)
Definition good_segment (s : list Z) : Prop := s <> [] /\ s <> DOT /\ s <> DOTDOT.
Record safe_path (p : list Z) : Prop := {
  sp_segments : Forall good_segment (split_slash p);
  sp_depth : (length (split_slash p) <= 32)%nat;
  sp_length : (0 < length p <= 512)%nat;
  sp_units : Forall (fun c => bad_unit c = false) p }.

Lemma existsb_false {A} (f : A -> bool) l : existsb f l = false <-> Forall (fun x => f x = false) l.
Proof. induction l as [|x l IH]; cbn; [split; [constructor|done]|]. rewrite orb_false_iff, IH. split; [intros []; by constructor|by inversion 1]. Qed.

(** Take apart a computation that returned, one binding at a time. *)
Ltac ok_step H :=
  match type of H with
  | (if ?b then Err _ else _) = Ok _ => let E := fresh "Hc" in destruct b eqn:E; [discriminate H|]
  | rbind ?m _ = Ok _ => let v := fresh "v" in let E := fresh "Hm" in destruct m as [v|] eqn:E; [cbn [rbind] in H|discriminate H]
  | (let '(_, _) := ?v in _) = Ok _ => destruct v
  end.
Ltac ok_steps H := repeat (ok_step H; cbv beta iota zeta in H).

Section reading.
Context {U : Utf8}.

Lemma cleanName_safe raw path dir : cleanName raw = Ok (path, dir) -> safe_path path.
Proof.
  unfold cleanName. destruct (utf8_decode raw) as [name|]; [|done]. destruct (_ || _) eqn:E1; [done|]. destruct (existsb bad_unit name) eqn:E2; [done|].
  destruct (starts [47] name || _) eqn:E3; [done|]. set (p := if ends [47] name then _ else name).
  destruct (existsb _ (split_slash p)) eqn:E4; [done|]. destruct (existsb (fun s => _ || _) (split_slash p)) eqn:E5; [done|].
  destruct (Nat.ltb_spec 32 (length (split_slash p))); [done|]. intros [= <- <-]. rewrite join_split.
  apply existsb_false in E2, E4, E5. rewrite orb_false_iff in E1. destruct E1 as [E1a E1b]. apply Nat.eqb_neq in E1a. apply Nat.ltb_ge in E1b.
  assert (length p <= length name)%nat as Hlen by (unfold p; destruct (ends _ _); [rewrite length_take; lia|done]).
  split; [|done| |].
  - rewrite Forall_forall in *. intros s Hs. specialize (E4 s Hs). specialize (E5 s Hs). apply orb_false_iff in E5 as [E5 E6].
    apply bool_decide_eq_false in E4, E5, E6. done.
  - split; [|lia]. destruct p eqn:Ep; [|cbn; lia]. exfalso. rewrite Forall_forall in E5. specialize (E5 [] ltac:(by left)).
    by rewrite bool_decide_eq_true_2 in E5.
  - unfold p. destruct (ends _ _); [by apply Forall_take|done].
Qed.

(** ** The directory *)

Lemma u_ok n o b v : u n o b = Ok v -> read_uint n (Z.to_nat o) b = Some v.
Proof. unfold u, of_option. by destruct (read_uint n (Z.to_nat o) b) as [?|]; [intros [= ->]|]. Qed.

Lemma u_nonneg n o b v : bytes_ok b -> u n o b = Ok v -> 0 <= v.
Proof. intros Hb Hv%u_ok. apply read_uint_range in Hv; [lia|done]. Qed.

Definition entry_safe (e : ZipEntry) : Prop :=
  safe_path (ze_path e) /\ (ze_method e = 0 \/ ze_method e = 8) /\ 0 <= ze_size e /\ 0 <= ze_compressedSize e /\ (ze_dir e = true -> ze_size e = 0).

Lemma entry_kind_ok name slash madeBy external usize dir : entry_kind name slash madeBy external usize = Ok dir -> dir = true -> usize = 0.
Proof.
  unfold entry_kind. destruct (_ && (_ =? S_IFLNK)); [done|]. destruct (_ && negb (_ =? S_IFDIR)); [done|]. destruct (_ && slash); [done|].
  destruct (_ && negb (usize =? 0)) eqn:E; [done|]. intros [= <-] Hd. rewrite Hd in E. cbn in E. apply negb_false, Z.eqb_eq in E. done.
Qed.

Lemma central_entry_ok limits cd p unpacked c p' unpacked' : bytes_ok cd -> 0 <= p ->
  central_entry limits cd p unpacked = Ok (c, p', unpacked') ->
  entry_safe (ce_entry c) /\ 0 <= p' /\ unpacked' = unpacked + ze_size (ce_entry c) /\ unpacked' <= maxUnpackedBytes limits.
Proof.
  intros Hb Hp. unfold central_entry. intros He. ok_steps He. injection He as <- <- <-.
  repeat match goal with Hm : u _ _ _ = Ok ?v |- _ => let Hn := fresh "Hn" in pose proof (u_nonneg _ _ _ _ Hb Hm) as Hn; clear Hm end.
  cbn [ce_entry ze_size ze_path ze_method ze_compressedSize ze_dir].
  repeat match goal with Hm : cleanName _ = Ok _ |- _ => apply cleanName_safe in Hm end.
  repeat match goal with Hm : entry_kind _ _ _ _ _ = Ok _ |- _ => pose proof (entry_kind_ok _ _ _ _ _ _ Hm); clear Hm end.
  bprop. split_and!; try done; lia.
Qed.

Definition total_size (es : list ZipEntry) : Z := foldr (fun e n => ze_size e + n) 0 es.

Lemma central_entries_ok limits cd total : bytes_ok cd -> forall p unpacked cs p' unpacked', 0 <= p ->
  central_entries limits cd total p unpacked = Ok (cs, p', unpacked') ->
  Forall (fun c => entry_safe (ce_entry c)) cs /\ length cs = total /\ unpacked' = unpacked + total_size (map ce_entry cs) /\
  (cs = [] \/ unpacked' <= maxUnpackedBytes limits).
Proof.
  intros Hb. induction total as [|total IH]; intros p unpacked cs p' unpacked' Hp; cbn [central_entries]; [intros [= <- <- <-]; unfold total_size; cbn; split_and!; [constructor|done|lia|by left]|].
  intros He. ok_steps He. injection He as <- <- <-. destruct (central_entry_ok _ _ _ _ _ _ _ Hb Hp Hm) as (Hs & Hp' & -> & Hmax).
  destruct (IH _ _ _ _ _ Hp' Hm0) as (Hf & Hl & -> & Hlast). unfold total_size in *. cbn. split_and!; [by constructor|lia|lia|].
  right. destruct Hlast as [-> |]; [cbn in *; lia|done].
Qed.

(** ** One name, one entry *)

Definition kept (cs : list Central) : list ZipEntry := List.filter (fun e => negb (ze_skip e)) (map ce_entry cs).
Definition file_paths (es : list ZipEntry) : list (list Z) := map ze_path (List.filter (fun e => negb (ze_dir e)) es).
Definition dir_paths (es : list ZipEntry) : list (list Z) := map ze_path (List.filter ze_dir es).

Lemma claim_names_ok cs : forall files dirs files' dirs', claim_names cs files dirs = Ok (files', dirs') ->
  NoDup (file_paths (kept cs)) /\ (forall p, p ∈ file_paths (kept cs) -> p ∉ files) /\
  (forall p, p ∈ files' <-> p ∈ files \/ p ∈ file_paths (kept cs)) /\
  (forall p, p ∈ dirs' <-> p ∈ dirs \/ p ∈ dir_paths (kept cs) \/ exists e, e ∈ kept cs /\ p ∈ parents (ze_path e)).
Proof.
  induction cs as [|c cs IH]; intros files dirs files' dirs'; cbn [claim_names].
  - intros [= <- <-]. unfold kept, file_paths, dir_paths. cbn. split_and!; [constructor|by intros p ?%not_elem_of_nil| |]; intros p.
    + split; [by left|]. by intros [?|?%not_elem_of_nil].
    + split; [by left|]. intros [?|[?%not_elem_of_nil|(e & ?%not_elem_of_nil & _)]]; done.
  - assert (kept (c :: cs) = if ze_skip (ce_entry c) then kept cs else ce_entry c :: kept cs) as Ek.
    { unfold kept. cbn [map List.filter]. by destruct (ze_skip (ce_entry c)). }
    rewrite Ek. clear Ek. destruct (ze_skip (ce_entry c)); [apply IH|]. destruct (_ || _) eqn:Ec; [done|].
    intros He. destruct (IH _ _ _ _ He) as (Hnd & Hnew & Hfiles & Hdirs). apply orb_false_iff in Ec as [Ec1%bool_decide_eq_false Ec2].
    unfold file_paths, dir_paths in *. cbn [List.filter map]. destruct (ze_dir (ce_entry c)) eqn:Ed; cbn [negb map] in *.
    + split_and!; [done|set_solver|set_solver|]. intros p. rewrite Hdirs. set_unfold. split.
      * intros [[Hp|[->|Hp]]|[Hp|(e & He' & Hp)]]; [right; right; eauto|right; left; by left|by left|right; left; by right|right; right; eauto].
      * intros [Hp|[[->|Hp]|(e & [->|He'] & Hp)]]; [left; by right; right|left; right; by left|right; by left|left; by left|right; right; eauto].
    + split_and!; [constructor; [|done]; intros Hin; apply Hnew in Hin; set_solver|set_solver|set_solver|].
      intros p. rewrite Hdirs. set_unfold. split.
      * intros [[Hp|Hp]|[Hp|(e & He' & Hp)]]; [right; right; eauto|by left|right; by left|right; right; eauto].
      * intros [Hp|[Hp|(e & [->|He'] & Hp)]]; [left; by right|right; by left|left; by left|right; right; eauto].
Qed.

(** What the names of an accepted archive are, but for the entries that are
    skipped: no file appears twice, and none is where another entry needs a
    directory. *)
Definition names_distinct (es : list ZipEntry) : Prop :=
  let es := List.filter (fun e => negb (ze_skip e)) es in
  NoDup (file_paths es) /\
  forall p, p ∈ file_paths es -> p ∉ dir_paths es /\ forall e, e ∈ es -> p ∉ parents (ze_path e).

Lemma claimed_distinct cs files dirs : claim_names cs ∅ ∅ = Ok (files, dirs) -> both cs files dirs = None -> names_distinct (map ce_entry cs).
Proof.
  intros (Hnd & _ & Hfiles & Hdirs)%claim_names_ok Hboth. split; [done|]. fold (kept cs). intros p Hp.
  assert (p ∉ dirs) as Hno.
  { intros Hd. assert (p ∈ map (fun c => ze_path (ce_entry c)) cs) as Hin.
    { unfold file_paths, kept in Hp. rewrite list_elem_of_fmap in Hp. destruct Hp as (e & -> & He%list_elem_of_In).
      apply filter_In in He as [He _]. apply filter_In in He as [He _]. apply in_map_iff in He as (c & <- & Hc).
      apply list_elem_of_In. apply in_map_iff. by exists c. }
    apply list_elem_of_In in Hin. pose proof (List.find_none _ _ Hboth p Hin) as Hf. cbn in Hf. rewrite andb_false_iff, !bool_decide_eq_false in Hf.
    destruct Hf as [Hf|Hf]; [|done]. apply Hf, Hfiles. by right. }
  split; [intros Hp'|intros e He Hp']; apply Hno, Hdirs; eauto.
Qed.

(** ** Every entry's bytes are its own *)

Lemma readAt_ok file pos len b : readAt file pos len = Ok b -> length b = Z.to_nat len /\ b = sub (Z.to_nat pos) (Z.to_nat len) file.
Proof. unfold readAt. destruct (Nat.eqb_spec (length (sub (Z.to_nat pos) (Z.to_nat len) file)) (Z.to_nat len)); [|done]. by intros [= <-]. Qed.

Lemma readAt_bytes file pos len b : bytes_ok file -> readAt file pos len = Ok b -> bytes_ok b.
Proof. intros Hf [_ ->]%readAt_ok. by apply sub_bytes_ok. Qed.

Lemma local_entry_ok file cdOffset end_ c dataOffset : bytes_ok file -> 0 <= end_ -> local_entry file cdOffset end_ c = Ok dataOffset ->
  end_ <= ce_localOffset c /\ ce_localOffset c < dataOffset /\ dataOffset + ze_compressedSize (ce_entry c) <= cdOffset.
Proof.
  intros Hb Hend. unfold local_entry. intros He. ok_steps He. injection He as <-.
  match goal with Hm : readAt file (ce_localOffset c) 30 = Ok ?v |- _ => pose proof (readAt_bytes _ _ _ _ Hb Hm) as Hv end.
  repeat match goal with Hm : u _ _ _ = Ok ?v |- _ => let Hn := fresh "Hn" in pose proof (u_nonneg _ _ _ _ Hv Hm) as Hn; clear Hm end.
  bprop. lia.
Qed.

(** The data of the entries in the order of their places: each starts where the
    ones before have ended, and ends before the directory. *)
Fixpoint placed (cdOffset end_ : Z) (cs : list (nat * Central)) (offsets : list (nat * Z)) : Prop :=
  match cs, offsets with
  | [], [] => True
  | (i, c) :: cs, (j, o) :: offsets =>
      i = j /\ end_ < o /\ o + ze_compressedSize (ce_entry c) <= cdOffset /\ placed cdOffset (o + ze_compressedSize (ce_entry c)) cs offsets
  | _, _ => False
  end.

Lemma local_entries_ok file cdOffset cs : bytes_ok file -> Forall (fun p => 0 <= ze_compressedSize (ce_entry p.2)) cs -> forall end_ offsets, 0 <= end_ ->
  local_entries file cdOffset end_ cs = Ok offsets -> placed cdOffset end_ cs offsets.
Proof.
  intros Hb Hs. induction Hs as [|[i c] cs Hc _ IH]; intros end_ offsets Hend; cbn [local_entries]; [by intros [= <-]|].
  intros He. ok_steps He. injection He as <-. destruct (local_entry_ok _ _ _ _ _ Hb Hend Hm) as (H1 & H2 & H3). cbn [snd] in Hc.
  cbn. split_and!; [done|lia|done|]. apply (IH (v + ze_compressedSize (ce_entry c)) v0); [lia|done].
Qed.

Lemma placed_lookup cdOffset cs : forall end_ offsets, placed cdOffset end_ cs offsets -> Forall (fun p => 0 <= ze_compressedSize (ce_entry p.2)) cs ->
  NoDup (map fst cs) -> forall i c, (i, c) ∈ cs -> exists o, om_get i offsets = Some o /\ end_ < o /\ o + ze_compressedSize (ce_entry c) <= cdOffset /\
    forall j c' o', (j, c') ∈ cs -> j <> i -> om_get j offsets = Some o' ->
      o + ze_compressedSize (ce_entry c) <= o' \/ o' + ze_compressedSize (ce_entry c') <= o.
Proof.
  induction cs as [|[k d] cs IH]; intros end_ offsets Hp Hc Hnd i c Hin; [by apply not_elem_of_nil in Hin|].
  destruct offsets as [|[k' o] offsets]; [done|]. destruct Hp as (<- & Ho & Hmax & Hp). inversion Hc as [|? ? Hd Hc']; subst. cbn [snd] in Hd. cbn [map fst] in Hnd.
  apply NoDup_cons in Hnd as [Hk Hnd]. assert (forall j c', (j, c') ∈ cs -> j <> k) as Hother.
  { intros j c' Hj ->. apply Hk. apply list_elem_of_fmap. by exists (k, c'). }
  cbn [om_get]. apply elem_of_cons in Hin as [[= -> ->]|Hin].
  - exists o. rewrite bool_decide_eq_true_2 by done. split_and!; [done|done|done|]. intros j c' o' [[= -> ->]|Hj]%elem_of_cons Hne; [done|].
    rewrite bool_decide_eq_false_2 by done. intros Ho'. left. destruct (IH _ _ Hp Hc' Hnd j c' Hj) as (o2 & E & Hlt & _). rewrite Ho' in E. injection E as [= <-]. lia.
  - destruct (IH _ _ Hp Hc' Hnd i c Hin) as (oi & E & Hlt & Hend & Hdis). exists oi. rewrite bool_decide_eq_false_2 by (by eapply Hother). split_and!; [done|lia|done|].
    intros j c' o' [[= -> ->]|Hj]%elem_of_cons Hne.
    + rewrite bool_decide_eq_true_2 by done. intros [= <-]. right. lia.
    + rewrite bool_decide_eq_false_2 by (by eapply Hother). by eapply Hdis.
Qed.

(** Each entry's data lies in the file, and no two share a byte. *)
Definition data_disjoint (size : Z) (es : list ZipEntry) : Prop :=
  (forall e, e ∈ es -> 0 <= ze_dataOffset e /\ ze_dataOffset e + ze_compressedSize e <= size) /\
  forall i j e e', es !! i = Some e -> es !! j = Some e' -> i <> j ->
    ze_dataOffset e + ze_compressedSize e <= ze_dataOffset e' \/ ze_dataOffset e' + ze_compressedSize e' <= ze_dataOffset e.

Lemma imap_pair_elem {A} (l : list A) i x : (i, x) ∈ imap pair l <-> l !! i = Some x.
Proof.
  rewrite elem_of_lookup_imap. split; [by intros (j & y & [= -> ->] & E)|]. intros E. by exists i, x.
Qed.

Lemma imap_pair_fst {A} (l : list A) : map fst (imap pair l) = List.seq 0 (length l).
Proof.
  assert (forall k, map fst (imap (fun i x => (k + i, x)%nat) l) = List.seq k (length l)) as Hk; [|exact (Hk 0%nat)].
  induction l as [|x l IH]; intros k; [done|]. cbn. rewrite Nat.add_0_r. f_equal. rewrite <- (IH (S k)). f_equal. apply imap_ext. intros i y _. cbn. f_equal. lia.
Qed.

Lemma placed_disjoint file cdOffset cs offsets : bytes_ok file -> cdOffset <= Z.of_nat (length file) -> Forall (fun c => entry_safe (ce_entry c)) cs ->
  local_entries file cdOffset 0 (isort by_offset (imap pair cs)) = Ok offsets ->
  data_disjoint (Z.of_nat (length file)) (imap (fun i c => with_offset (default 0 (om_get i offsets)) (ce_entry c)) cs).
Proof.
  intros Hb Hcd Hs Hl. set (sorted := isort by_offset (imap pair cs)) in *.
  assert (Forall (fun p => 0 <= ze_compressedSize (ce_entry p.2)) sorted) as Hc.
  { unfold sorted. rewrite isort_perm. apply Forall_forall. intros [i c] E%imap_pair_elem. by apply (Forall_lookup_1 _ _ _ _ Hs E). }
  assert (NoDup (map fst sorted)) as Hnd.
  { unfold sorted. rewrite isort_perm, imap_pair_fst. apply NoDup_ListNoDup, seq_NoDup. }
  assert (forall i c, cs !! i = Some c -> (i, c) ∈ sorted) as Hin by (intros i c E; unfold sorted; rewrite isort_elem; by apply imap_pair_elem).
  pose proof (placed_lookup _ _ _ _ (local_entries_ok file cdOffset sorted Hb Hc 0 offsets ltac:(lia) Hl) Hc Hnd) as Hp.
  split.
  - intros e He. apply elem_of_lookup_imap in He as (i & c & -> & E). destruct (Hp i c (Hin i c E)) as (o & Eo & Hlt & Hend & _). rewrite Eo. cbn. lia.
  - intros i j e e' Ei Ej Hne. rewrite list_lookup_imap in Ei, Ej.
    destruct (cs !! i) as [c|] eqn:Eci; [|done]. destruct (cs !! j) as [c'|] eqn:Ecj; [|done]. injection Ei as [= <-]. injection Ej as [= <-].
    destruct (Hp i c (Hin i c Eci)) as (o & Eo & _ & _ & Hdis). destruct (Hp j c' (Hin j c' Ecj)) as (o' & Eo' & _). rewrite Eo, Eo'. cbn. by eapply Hdis; [apply Hin| |].
Qed.

(** Entries that differ in their offset alone. *)
Definition same_but_offset (e e' : ZipEntry) : Prop := with_offset 0 e = with_offset 0 e'.

Lemma same_names es es' : Forall2 same_but_offset es es' ->
  file_paths es = file_paths es' /\ dir_paths es = dir_paths es' /\ map ze_path es = map ze_path es' /\
  Forall2 same_but_offset (List.filter (fun e => negb (ze_skip e)) es) (List.filter (fun e => negb (ze_skip e)) es').
Proof.
  unfold file_paths, dir_paths. induction 1 as [|e e' es es' He _ (IH1 & IH2 & IH3 & IH4)]; [split_and!; constructor|].
  pose proof He as [= Ep Ed Es _ _ _ _]. cbn [List.filter map]. rewrite <- Ed, <- Es.
  split_and!; [destruct (ze_dir e); cbn; congruence|destruct (ze_dir e); cbn; congruence|congruence|].
  destruct (negb (ze_skip e)); [by constructor|done].
Qed.

Lemma names_distinct_same es es' : Forall2 same_but_offset es es' -> names_distinct es -> names_distinct es'.
Proof.
  intros (_ & _ & _ & Hf)%same_names. apply same_names in Hf as (E1 & E2 & E3 & _). intros [Hnd Hp]. split; [by rewrite <- E1|].
  intros p. rewrite <- E1, <- E2. intros Hin. destruct (Hp p Hin) as [Hd He]. split; [done|]. intros e He' Hpar.
  apply (list_elem_of_fmap_2 ze_path) in He'. assert (ze_path e ∈ map ze_path (List.filter (fun e => negb (ze_skip e)) es)) as Hm by (by rewrite E3).
  apply list_elem_of_fmap in Hm as (e0 & E0 & H0). apply (He e0 H0). by rewrite <- E0.
Qed.

Lemma entry_safe_same e e' : same_but_offset e e' -> entry_safe e -> entry_safe e'.
Proof. destruct e, e'. unfold same_but_offset, with_offset, entry_safe. cbn. by intros [= -> -> -> -> -> -> ->]. Qed.

Lemma total_size_same es es' : Forall2 same_but_offset es es' -> total_size es = total_size es'.
Proof. unfold total_size. induction 1 as [|e e' es es' [= _ _ _ _ _ _ Es] _ IH]; [done|]. cbn. lia. Qed.

Lemma offsets_same offsets cs :
  Forall2 same_but_offset (map ce_entry cs) (imap (fun i c => with_offset (default 0 (om_get i offsets)) (ce_entry c)) cs).
Proof.
  apply Forall2_same_length_lookup_2; [by rewrite length_map, length_imap|]. intros i e e'. rewrite list_lookup_fmap, list_lookup_imap.
  destruct (cs !! i); [|done]. cbn. by intros [= <-] [= <-].
Qed.

Lemma sub_size o n b : (length (sub o n b) <= length b)%nat.
Proof. unfold sub. rewrite length_take, length_drop. lia. Qed.

Lemma end_record_range tail at_ : end_record tail = Some at_ -> 0 <= at_ /\ at_ + 22 <= Z.of_nat (length tail).
Proof.
  unfold end_record. intros [Hin _]%find_some. apply in_map_iff in Hin as (i & <- & Hi). apply in_rev, in_seq in Hi. lia.
Qed.

Lemma place_entries_ok file cdOffset cs es : bytes_ok file -> cdOffset <= Z.of_nat (length file) -> Forall (fun c => entry_safe (ce_entry c)) cs ->
  place_entries file cdOffset cs = Ok es ->
  Forall2 same_but_offset (map ce_entry cs) es /\ names_distinct es /\ data_disjoint (Z.of_nat (length file)) es.
Proof.
  intros Hb Hcd Hs. unfold place_entries. intros He. ok_step He. destruct v as [files dirs]. destruct (both cs files dirs) eqn:Hboth; [done|].
  ok_steps He. injection He as <-. rename Hm0 into Hoff. pose proof (offsets_same v cs) as Hsame. split_and!; [done| |by eapply placed_disjoint].
  eapply names_distinct_same; [exact Hsame|]. by eapply claimed_distinct.
Qed.

(** What an accepted archive is. *)
Record accepted (size : Z) (limits : ZipLimits) (entries : list ZipEntry) (unpackedBytes : Z) : Prop := {
  acc_safe : Forall entry_safe entries;
  acc_count : Z.of_nat (length entries) <= maxEntries limits;
  acc_total : unpackedBytes = total_size entries;
  acc_size : entries = [] \/ unpackedBytes <= maxUnpackedBytes limits;
  acc_names : names_distinct entries;
  acc_disjoint : data_disjoint size entries }.

(** C26: an archive [readZip] accepts is safe to extract, whatever its bytes
    are: every path leads only down, from 1 to 32 segments none of them empty, [.]
    or [..], with no control character or backslash; the archive has no more
    entries and declares no more unpacked bytes than the limits, and says
    exactly how many; of the entries that are extracted (all but what macOS adds,
    [__MACOSX] and [.DS_Store]) no file is named twice, nor is it where another
    needs a directory; and the data of each entry lies in the file, overlapping
    no other entry's. *)
Theorem accepted_archive_is_safe file limits entries unpackedBytes : bytes_ok file ->
  readZip file limits = Ok (entries, unpackedBytes) -> accepted (Z.of_nat (length file)) limits entries unpackedBytes.
Proof.
  intros Hb. unfold readZip. intros He. ok_step He. ok_steps He. destruct (end_record _) as [at_|] eqn:Hend; [|done]. ok_steps He.
  injection He as <- <-. rename Hm7 into Hcd, Hm8 into Hcs, Hm9 into Hplace.
  pose proof (readAt_bytes _ _ _ _ Hb Hm) as Hv. apply readAt_ok in Hm as [Hlen _]. apply end_record_range in Hend.
  pose proof (u_nonneg _ _ _ _ Hv Hm0). pose proof (u_nonneg _ _ _ _ Hv Hm1).
  destruct (central_entries_ok _ _ _ (readAt_bytes _ _ _ _ Hb Hcd) _ _ _ _ _ (Z.le_refl 0) Hcs) as (Hsafe & Hn & Htotal & Hmax).
  apply Z.ltb_ge in Hc3. apply orb_false_iff in Hc4 as [Hc4%Z.ltb_ge _].
  destruct (place_entries_ok file v2 l v8 Hb ltac:(lia) Hsafe Hplace) as (Hsame & Hnames & Hdis).
  pose proof (Forall2_length _ _ _ Hsame) as Hlen'. rewrite length_map in Hlen'.
  split; [|lia| |destruct Hmax as [->|]; [left; by inversion Hsame|by right]|done|done].
  - clear -Hsafe Hsame. apply Forall_map in Hsafe. induction Hsame as [|e e' es es' He _ IH]; [constructor|].
    inversion Hsafe; subst. constructor; [by eapply entry_safe_same|by apply IH].
  - rewrite <- (total_size_same _ _ Hsame). lia.
Qed.

(** ** A bad archive is a [ZipError] *)

Definition no_range_error {A} (r : result zip_error A) : Prop := r <> Err RangeError.

Lemma nre_bind {A B} (m : result zip_error A) (k : A -> result zip_error B) :
  no_range_error m -> (forall v, m = Ok v -> no_range_error (k v)) -> no_range_error (rbind m k).
Proof. unfold no_range_error. destruct m; cbn; [by eauto|congruence]. Qed.

Lemma nre_u n o b : 0 <= o -> o + Z.of_nat n <= Z.of_nat (length b) -> no_range_error (u n o b).
Proof. intros Ho Hn. unfold u, no_range_error. by rewrite read_uint_some by lia. Qed.

Lemma nre_readAt file pos len : no_range_error (readAt file pos len).
Proof. unfold readAt. by destruct (Nat.eqb _ _). Qed.

Lemma nre_cleanName raw : no_range_error (cleanName raw).
Proof. unfold cleanName, fail_zip, fail_entry, no_range_error. by repeat case_match. Qed.

Lemma nre_kind name slash madeBy external usize : no_range_error (entry_kind name slash madeBy external usize).
Proof. unfold entry_kind, fail_entry, no_range_error. by repeat case_match. Qed.

Lemma nre_claim cs : forall files dirs, no_range_error (claim_names cs files dirs).
Proof. induction cs as [|c cs IH]; intros files dirs; cbn [claim_names]; [done|]. case_match; [apply IH|]. by case_match; [|apply IH]. Qed.

(** One more step of a computation that does not read out of bounds. *)
Ltac nre_step :=
  lazymatch goal with
  | |- no_range_error (if ?b then Err _ else _) => let E := fresh "Hc" in destruct b eqn:E; [done|bprop]
  | |- no_range_error (rbind (u _ _ _) _) => let v := fresh "v" in let E := fresh "Hm" in apply nre_bind; [apply nre_u; lia|intros v E]
  | |- no_range_error (rbind (readAt _ _ _) _) =>
      let v := fresh "v" in let E := fresh "Hm" in apply nre_bind; [apply nre_readAt|intros v E; pose proof (proj1 (readAt_ok _ _ _ _ E))]
  | |- no_range_error (rbind _ _) => let v := fresh "v" in let E := fresh "Hm" in apply nre_bind; [|intros v E]
  | |- no_range_error (let '(_, _) := ?v in _) => destruct v
  | |- no_range_error (Ok _) => done
  end.
Ltac nre := repeat (nre_step; cbv beta zeta).

Lemma nre_central limits cd p unpacked : 0 <= p -> no_range_error (central_entry limits cd p unpacked).
Proof. intros Hp. unfold central_entry. nre; [apply nre_cleanName|apply nre_kind]. Qed.

Lemma nre_centrals limits cd total : bytes_ok cd -> forall p unpacked, 0 <= p -> no_range_error (central_entries limits cd total p unpacked).
Proof.
  intros Hb. induction total as [|total IH]; intros p unpacked Hp; cbn [central_entries]; [done|]. nre; [by apply nre_central|].
  apply IH. eapply central_entry_ok in Hm as (_ & Hp' & _); done.
Qed.

Lemma nre_local file cdOffset end_ c : no_range_error (local_entry file cdOffset end_ c).
Proof. unfold local_entry. nre. Qed.

Lemma nre_locals file cdOffset cs : forall end_, no_range_error (local_entries file cdOffset end_ cs).
Proof. induction cs as [|[i c] cs IH]; intros end_; cbn [local_entries]; [done|]. nre; [apply nre_local|apply IH]. Qed.

Lemma nre_place file cdOffset cs : no_range_error (place_entries file cdOffset cs).
Proof. unfold place_entries. nre; [apply nre_claim|]. destruct (both _ _ _); [done|]. nre. apply nre_locals. Qed.

(** however corrupt or truncated the uploaded file is, [readZip] never reads
    outside what it has read: it answers the entries or a [ZipError] that says
    what is wrong, and no [RangeError] escapes from a buffer. *)
Theorem corrupt_archive_is_a_zip_error file limits : bytes_ok file -> readZip file limits <> Err RangeError.
Proof.
  intros Hb. change (no_range_error (readZip file limits)). unfold readZip. nre_step. cbv zeta. nre_step.
  destruct (end_record v) as [at_|] eqn:Hend; [|done]. apply end_record_range in Hend. cbv zeta.
  nre; [case_match; nre; apply nre_u; lia|apply nre_centrals; [by eapply readAt_bytes|lia]|apply nre_place].
Qed.
End reading.

(** ** The checksum *)

(** The division the checksum is the remainder of, one bit of the data at a
    time: the reflected polynomial 0xedb88320, the low bit first. *)
Definition crc_bits (c b : Z) : Z := Nat.iter 8 crc_bit (Z.lxor c b).

Lemma crc_bit_lxor a b : crc_bit (Z.lxor a b) = Z.lxor (crc_bit a) (crc_bit b).
Proof.
  unfold crc_bit. rewrite <- !Z.bit0_odd, Z.lxor_spec, Z.shiftr_lxor. set (p := 3988292384).
  destruct (Z.testbit a 0), (Z.testbit b 0); cbn [xorb]; apply Z.bits_inj'; intros k _; rewrite ?Z.lxor_spec;
    destruct (Z.testbit p k), (Z.testbit (Z.shiftr a 1) k), (Z.testbit (Z.shiftr b 1) k); done.
Qed.

Lemma crc_iter_lxor n a b : Nat.iter n crc_bit (Z.lxor a b) = Z.lxor (Nat.iter n crc_bit a) (Nat.iter n crc_bit b).
Proof. induction n as [|n IH]; [done|]. by rewrite !Nat.iter_succ, IH, crc_bit_lxor. Qed.

Lemma crc_iter_shiftl n h : Nat.iter n crc_bit (Z.shiftl h (Z.of_nat n)) = h.
Proof.
  induction n as [|n IH]; [apply Z.shiftl_0_r|]. rewrite Nat.iter_succ_r. replace (crc_bit _) with (Z.shiftl h (Z.of_nat n)); [done|].
  unfold crc_bit. rewrite <- Z.bit0_odd, Z.shiftl_spec_low, Z.shiftr_shiftl_l by lia. f_equal. lia.
Qed.

Lemma split_at_8 c : c = Z.lxor (Z.land c 255) (Z.shiftl (Z.shiftr c 8) 8).
Proof.
  apply Z.bits_inj'. intros k Hk. rewrite Z.lxor_spec, Z.land_spec. change 255 with (Z.ones 8).
  destruct (Z.lt_ge_cases k 8).
  - rewrite Z.ones_spec_low, Z.shiftl_spec_low by lia. by rewrite andb_true_r, xorb_false_r.
  - rewrite Z.ones_spec_high, Z.shiftl_spec, Z.shiftr_spec by lia. rewrite andb_false_r, xorb_false_l. f_equal. lia.
Qed.

Lemma crc_byte_bits c b : byte_ok b -> crc_byte c b = crc_bits c b.
Proof.
  intros Hb. unfold byte_ok in Hb. unfold crc_byte, crc_bits. rewrite (split_at_8 (Z.lxor c b)) at 2. rewrite crc_iter_lxor, (crc_iter_shiftl 8).
  f_equal.
  - assert (0 <= Z.land (Z.lxor c b) 255 < 256) as Hr.
    { change 255 with (Z.ones 8). rewrite Z.land_ones by lia. apply Z.mod_pos_bound. lia. }
    set (i := Z.land (Z.lxor c b) 255) in *. unfold CRC_TABLE.
    rewrite (nth_indep _ 0 (Nat.iter 8 crc_bit (Z.of_nat 0))) by (rewrite length_map, length_seq; lia).
    rewrite (map_nth (fun n => Nat.iter 8 crc_bit (Z.of_nat n))), seq_nth by lia. f_equal. lia.
  - rewrite Z.shiftr_lxor, (Z.shiftr_div_pow2 b) by lia. rewrite (Z.div_small b) by (cbn; lia). by rewrite Z.lxor_0_r.
Qed.

Lemma crc32_app a b prev : crc32 (a ++ b) prev = crc32 b (crc32 a prev).
Proof. unfold crc32, not32. rewrite fold_left_app. do 2 f_equal. lia. Qed.

(** the table gives the checksum it stands for: [crc32] over the table
    of 256 entries is the remainder by the reflected polynomial 0xedb88320 taken
    bit by bit, and metering a file piece by piece gives the checksum of the
    whole file, however it was cut. *)
Theorem checksum_is_the_polynomial buf prev : bytes_ok buf ->
  crc32 buf prev = not32 (fold_left crc_bits buf (not32 prev)) /\
  forall chunks, concat chunks = buf -> fold_left (fun crc chunk => crc32 chunk crc) chunks prev = crc32 buf prev.
Proof.
  intros Hb. split.
  - unfold crc32. f_equal. generalize (not32 prev). induction Hb as [|b buf Hb _ IH]; intros c; [done|]. cbn [fold_left]. by rewrite crc_byte_bits.
  - intros chunks <-. clear Hb. revert prev. induction chunks as [|c chunks IH]; intros prev; [cbn; unfold crc32, not32; cbn; lia|].
    cbn [fold_left concat]. by rewrite crc32_app, IH.
Qed.

(** ** Extraction *)

Section extraction.
Context {I : Inflate} (allows : segments -> nat -> bool).
Notation mkdir := (mkdir allows).
Notation mkdir_from := (mkdir_from allows).
Notation mkdir_recursive := (mkdir_recursive allows).
Notation meter := (meter allows).
Notation write_entry := (write_entry allows).
Notation extract_entry := (extract_entry allows).
Notation extract_entries := (extract_entries allows).
Notation extractZip := (extractZip allows).

Lemma is_dir_mono fs fs' p : fs ⊆ fs' -> is_dir fs p = true -> is_dir fs' p = true.
Proof. intros Hsub. destruct p; [done|]. unfold is_dir. rewrite !bool_decide_eq_true. intros E. by eapply lookup_weaken. Qed.

Lemma exists_at_false fs p : exists_at fs p = false -> fs !! p = None /\ p <> [].
Proof.
  unfold exists_at. rewrite orb_false_iff, bool_decide_eq_false, <- eq_None_not_Some. intros [Hd ?]. split; [done|]. by intros ->.
Qed.

Lemma reachable_spec fs p : reachable fs p = true <-> forall k, (k < length p)%nat -> is_dir fs (take k p) = true.
Proof.
  unfold reachable. rewrite forallb_forall. split; intros H k Hk; apply H; [apply in_seq; lia|apply in_seq in Hk; lia].
Qed.

(** From one state of the file system to a later one: nothing that was there is
    touched, and what is new satisfies [P]. *)
Definition grows (P : segments -> node -> Prop) (fs fs' : FS) : Prop :=
  fs ⊆ fs' /\ forall p n, fs' !! p = Some n -> fs !! p = None -> P p n.

Lemma fs_grows_refl P fs : grows P fs fs.
Proof. split; [done|]. intros p n E1 E2. congruence. Qed.

Lemma fs_grows_trans P fs fs1 fs2 : grows P fs fs1 -> grows P fs1 fs2 -> grows P fs fs2.
Proof.
  intros [H1 P1] [H2 P2]. split; [by etrans|]. intros p n E E0. destruct (fs1 !! p) as [n1|] eqn:E1; [|by apply P2].
  pose proof (lookup_weaken _ _ _ _ E1 H2) as E2. assert (Some n = Some n1) as [= ->] by (etrans; [symmetry; exact E|exact E2]). by apply P1.
Qed.

Lemma fs_grows_impl (P Q : segments -> node -> Prop) fs fs' : (forall p n, P p n -> Q p n) -> grows P fs fs' -> grows Q fs fs'.
Proof. intros HPQ [H1 H2]. split; eauto. Qed.

Lemma fs_grows_insert (P : segments -> node -> Prop) fs p n : fs !! p = None -> P p n -> grows P fs (<[p := n]> fs).
Proof.
  intros Hnew HP. split; [by apply insert_subseteq|]. intros q m. destruct (decide (q = p)) as [->|Hne]; [rewrite lookup_insert_eq; by intros [= <-]|].
  rewrite lookup_insert_ne by done. congruence.
Qed.

Lemma mkdir_from_ok p todo : forall k fs fs' wrong, mkdir_from k todo p fs = (fs', wrong) ->
  grows (fun q n => n = Dir /\ exists i, (i <= k + todo)%nat /\ q = take i p /\ is_dir fs q = false) fs fs' /\
  (wrong = None -> forall i, (k < i <= k + todo)%nat -> is_dir fs' (take i p) = true).
Proof.
  induction todo as [|todo IH]; intros k fs fs' wrong; cbn [Zip.mkdir_from]; [intros [= <- <-]; split; [apply fs_grows_refl|lia]|].
  destruct (is_dir fs (take (S k) p)) eqn:Ed.
  - intros Hm. destruct (IH _ _ _ _ Hm) as [Hg Hd]. split; [eapply fs_grows_impl, Hg; intros q n (-> & i & ? & -> & ?); split; [done|]; exists i; split_and!; [lia|done|done]|].
    intros Hw i Hi. destruct (decide (i = S k)) as [->|]; [|apply Hd; [done|lia]]. eapply is_dir_mono, Ed. apply Hg.
  - destruct (_ || _) eqn:Ee; [intros [= <- <-]; split; [apply fs_grows_refl|done]|]. apply orb_false_iff in Ee as [[Hnew Hne]%exists_at_false _].
    intros Hm. destruct (IH _ _ _ _ Hm) as [Hg Hd]. split.
    + eapply fs_grows_trans; [apply fs_grows_insert; [done|split; [done|]; exists (S k); split_and!; [lia|done|done]]|].
      eapply fs_grows_impl, Hg. intros q n (-> & i & ? & -> & Hi). split; [done|]. exists i. split_and!; [lia|done|].
      apply not_true_is_false. intros Hi'. eapply is_dir_mono in Hi'; [|by apply (insert_subseteq _ (take (S k) p) Dir)]. congruence.
    + intros Hw i Hi. destruct (decide (i = S k)) as [->|]; [|apply Hd; [done|lia]]. eapply is_dir_mono; [apply Hg|].
      unfold is_dir. destruct (take (S k) p); [done|]. rewrite lookup_insert_eq. by apply bool_decide_eq_true_2.
Qed.

Lemma meter_ok target max chunks : forall k written written' crc wrong, Z.of_nat (length written) <= Z.max 0 max ->
  meter target max k chunks written (crc32 written 0) = (written', crc, wrong) ->
  Z.of_nat (length written') <= Z.max 0 max /\ (wrong = None -> written' = written ++ concat chunks /\ crc = crc32 written' 0).
Proof.
  induction chunks as [|c chunks IH]; intros k written written' crc wrong Hlen; cbn [Zip.meter].
  - intros [= <- <- <-]. split; [done|]. by rewrite app_nil_r.
  - destruct (Z.ltb_spec max (Z.of_nat (length (written ++ c)))); [by intros [= <- <- <-]|].
    destruct (allows target (S k)); cbn [negb]; [|by intros [= <- <- <-]]. rewrite <- crc32_app. intros Hm. apply IH in Hm; [|lia].
    cbn [concat]. by rewrite app_assoc.
Qed.

(** The bytes an entry stands for, when its data can be read to the end. *)
Definition contents (file : list Z) (e : ZipEntry) : option (list Z) :=
  let '(chunks, complete) := source file e in if complete then Some (concat chunks) else None.

(** The bytes of a stored entry are its data. *)
Lemma stored_contents `{!InflateLaws} file e : ze_method e <> 8 -> 0 < ze_compressedSize e ->
  contents file e = Some (sub (Z.to_nat (ze_dataOffset e)) (Z.to_nat (ze_compressedSize e)) file).
Proof.
  intros Hm Hc. unfold contents, source. destruct (Z.eqb_spec (ze_compressedSize e) 0); [lia|]. destruct (Z.eqb_spec (ze_method e) 8); [done|].
  by rewrite pieces_concat.
Qed.

(** A file as the directory declared it. *)
Definition as_declared (file : list Z) (e : ZipEntry) (c : list Z) : Prop :=
  contents file e = Some c /\ Z.of_nat (length c) = ze_size e /\ crc32 c 0 = ze_crc e.

Lemma write_entry_ok file e target fs fs' wrong : write_entry file e target fs = (fs', wrong) ->
  grows (fun p n => p = target /\ exists c, n = File c /\ Z.of_nat (length c) <= Z.max 0 (ze_size e)) fs fs' /\
  (wrong = None -> exists c, fs' !! target = Some (File c) /\ as_declared file e c).
Proof.
  unfold Zip.write_entry, as_declared, contents. destruct (_ || _) eqn:Ee; [intros [= <- <-]; split; [apply fs_grows_refl|done]|].
  repeat rewrite orb_false_iff in Ee. destruct Ee as [[[Hnew Hne]%exists_at_false Hr] Ha].
  destruct (source file e) as [chunks complete]. destruct (meter _ _ _ _ _ _) as [[written crc] wr] eqn:Hm.
  apply (meter_ok target (ze_size e) chunks 0 [] written crc wr) in Hm as [Hlen Hall]; [|cbn; lia]. intros He.
  assert (fs' = <[target := File written]> fs) as -> by (destruct wr; [|destruct complete; [destruct (_ =? ze_size e); [destruct (_ =? ze_crc e)|]|]]; by injection He).
  split; [apply fs_grows_insert; [done|]; split; [done|]; by exists written|]. intros ->. exists written. rewrite lookup_insert_eq.
  destruct wr; [done|]. destruct (Hall eq_refl) as [-> ->]. destruct complete; [|done]. cbn [negb] in He.
  destruct (Z.eqb_spec (Z.of_nat (length ([] ++ concat chunks))) (ze_size e)); [|done]. destruct (Z.eqb_spec (crc32 ([] ++ concat chunks) 0) (ze_crc e)); [|done].
  done.
Qed.

(** Where an entry goes. *)
Definition target_of (root : segments) (e : ZipEntry) : segments := resolve root (split_slash (ze_path e)).

(** What extraction may add below the root: the directories on the way to an
    entry, and files that are an entry's, no longer than it declared. *)
Definition extracted_for (root : segments) (e : ZipEntry) (p : segments) (n : node) : Prop :=
  ze_skip e = false /\
  ((n = Dir /\ exists i, (i <= length (target_of root e))%nat /\ p = take i (target_of root e) /\ (ze_dir e = false -> (i < length (target_of root e))%nat)) \/
   (ze_dir e = false /\ p = target_of root e /\ exists c, n = File c /\ Z.of_nat (length c) <= Z.max 0 (ze_size e))).
Definition extracted (root : segments) (es : list ZipEntry) (p : segments) (n : node) : Prop :=
  inside root p = true /\ exists e, e ∈ es /\ extracted_for root e p n.

(** What is there of an entry after it was extracted. *)
Definition present (file : list Z) (root : segments) (fs : FS) (e : ZipEntry) : Prop :=
  if ze_dir e then fs !! target_of root e = Some Dir
  else exists c, fs !! target_of root e = Some (File c) /\ as_declared file e c.

Lemma inside_spec root p : inside root p = true <-> root <> [] /\ take (length root) p = root /\ (length root < length p)%nat.
Proof. clear. unfold inside. bprop. tauto. Qed.

Lemma mkdir_recursive_inside root target p fs fs' wrong : inside root target = true -> p = target \/ p = dirname target ->
  (forall k, (k <= length root)%nat -> is_dir fs (take k root) = true) -> mkdir_recursive p fs = (fs', wrong) ->
  grows (fun q n => n = Dir /\ inside root q = true /\ exists i, (i <= length p)%nat /\ q = take i p) fs fs' /\ (wrong = None -> forall i, (i <= length p)%nat -> is_dir fs' (take i p) = true).
Proof.
  intros (Hne & Htake & Hlen)%inside_spec Hp Hroot Hm. apply mkdir_from_ok in Hm as [Hg Hd]. cbn [Nat.add] in *.
  assert (exists m, p = take m target /\ length p = m) as (m & -> & Hlm).
  { destruct Hp as [-> | ->]; [exists (length target)|exists (length target - 1)%nat]; unfold dirname; rewrite ?length_take; split; try lia; [by rewrite firstn_all|done]. }
  split.
  - eapply fs_grows_impl, Hg. intros q n (-> & i & Hi & -> & Hq). split; [done|]. split; [|by exists i]. rewrite take_take in *. rewrite Hlm in Hi.
    replace (i `min` m)%nat with i in * by lia. rewrite length_take in Hlm. apply inside_spec. rewrite take_take, length_take.
    assert (length root < i)%nat as Hlt.
    { destruct (decide (i <= length root)%nat) as [Hle|]; [|lia]. pose proof (Hroot i Hle) as E. rewrite <- Htake, take_take in E. replace (i `min` length root)%nat with i in E by lia. congruence. }
    split_and!; [done|by replace (length root `min` i)%nat with (length root) by lia|lia].
  - intros Hw i Hi. destruct i as [|i]; [done|]. apply Hd; [done|lia].
Qed.

Lemma is_dir_lookup fs p : p <> [] -> is_dir fs p = true -> fs !! p = Some Dir.
Proof. intros Hp. destruct p; [done|]. by intros ?%bool_decide_eq_true. Qed.

Lemma extract_entry_ok file root e fs fs' wrong : (forall k, (k <= length root)%nat -> is_dir fs (take k root) = true) ->
  extract_entry file root e fs = (fs', wrong) ->
  grows (extracted root [e]) fs fs' /\ (wrong = None -> ze_skip e = false -> present file root fs' e).
Proof.
  intros Hroot. unfold Zip.extract_entry, present. fold (target_of root e). destruct (ze_skip e) eqn:Es; [intros [= <- <-]; split; [apply fs_grows_refl|done]|].
  destruct (inside root (target_of root e)) eqn:Ei; [|intros [= <- <-]; split; [apply fs_grows_refl|done]]. cbn [negb].
  destruct (ze_dir e) eqn:Ed.
  - intros Hm. apply (mkdir_recursive_inside root (target_of root e)) in Hm as [Hg Hd]; [|done|by left|done].
    split; [eapply fs_grows_impl, Hg; intros q n (-> & ? & i & ? & ->); split; [done|]; exists e; split; [by left|]; split; [done|]; left; split; [done|]; exists i; split_and!; [lia|done|congruence]|].
    intros Hw _. specialize (Hd Hw _ (Nat.le_refl _)). rewrite firstn_all in Hd. apply is_dir_lookup; [|done].
    intros E. rewrite E in Ei. apply inside_spec in Ei as (_ & _ & Hl). cbn in Hl. lia.
  - destruct (mkdir_recursive _ _) as [fs1 wrong1] eqn:Hm. apply (mkdir_recursive_inside root (target_of root e)) in Hm as [Hg Hd]; [|done|by right|done].
    assert (grows (extracted root [e]) fs fs1) as Hg1 .
    { eapply fs_grows_impl, Hg. intros q n (-> & ? & i & Hi & ->). split; [done|]. exists e. split; [by left|]. split; [done|]. left. split; [done|].
      unfold dirname in *. rewrite length_take in Hi. apply inside_spec in Ei as (_ & _ & Hl). exists i. rewrite take_take. split_and!; [lia|by replace (i `min` _)%nat with i by lia|lia]. }
    destruct wrong1; [by intros [= <- <-]|]. intros [Hg2 Hp]%write_entry_ok. split; [|by intros; apply Hp].
    eapply fs_grows_trans; [exact Hg1|]. eapply fs_grows_impl, Hg2. intros p n (-> & c & -> & Hc). split; [done|]. exists e.
    split; [by left|]. split; [done|]. right. split_and!; [done|done|by exists c].
Qed.

Lemma extract_entries_ok file root es : forall fs fs' wrong, (forall k, (k <= length root)%nat -> is_dir fs (take k root) = true) ->
  extract_entries file root es fs = (fs', wrong) ->
  grows (extracted root es) fs fs' /\ (wrong = None -> forall e, e ∈ es -> ze_skip e = false -> present file root fs' e).
Proof.
  induction es as [|e es IH]; intros fs fs' wrong Hroot; cbn [Zip.extract_entries].
  - intros [= <- <-]. split; [apply fs_grows_refl|]. by intros _ e ?%not_elem_of_nil.
  - destruct (extract_entry file root e fs) as [fs1 wrong1] eqn:He. apply extract_entry_ok in He as [Hg Hp]; [|done].
    assert (grows (extracted root (e :: es)) fs fs1) as Hg1.
    { eapply fs_grows_impl, Hg. intros p n [Hi (e' & ->%list_elem_of_singleton & Hrest)]. split; [done|]. exists e. split; [by left|done]. }
    destruct wrong1; [by intros [= <- <-]|]. intros Hes. apply IH in Hes as [Hg2 Hp2]; [|intros k Hk; eapply is_dir_mono; [apply Hg|by apply Hroot]].
    split.
    + eapply fs_grows_trans; [exact Hg1|]. eapply fs_grows_impl, Hg2. intros p n [Hi (e' & He' & Hrest)]. split; [done|]. exists e'. split; [by right|done].
    + intros Hw e' [->|He']%elem_of_cons Hs; [|by apply Hp2]. specialize (Hp eq_refl Hs). destruct Hg2 as [Hsub _]. unfold present in *.
      destruct (ze_dir e); [by eapply lookup_weaken|]. destruct Hp as (c & E & Hc). exists c. split; [by eapply lookup_weaken|done].
Qed.

Lemma mkdir_ok p fs fs' : mkdir p fs = Ok fs' ->
  p <> [] /\ fs !! p = None /\ fs' = <[p := Dir]> fs /\ forall k, (k <= length p)%nat -> is_dir fs' (take k p) = true.
Proof.
  unfold Zip.mkdir. destruct (_ && _) eqn:E; [|done]. intros [= <-]. repeat rewrite andb_true_iff in E. destruct E as [[_ Hn%negb_true_iff] Hr].
  apply exists_at_false in Hn as [Hn Hp]. split_and!; [done|done|done|]. intros k Hk.
  destruct (decide (k = length p)) as [->|]; [rewrite firstn_all; destruct p; [done|]; apply bool_decide_eq_true_2, lookup_insert_eq|].
  eapply is_dir_mono; [by apply (insert_subseteq fs p Dir)|]. apply (proj1 (reachable_spec fs p) Hr). lia.
Qed.

(** extraction writes below the destination and nowhere else, whatever
    the entries it is given and wherever it stops. Nothing that was in the file
    system is changed or removed; what is new is the destination itself, or lies
    below it, and is a directory an entry needs or the file of an entry, never
    longer than the entry declared, even when its data inflates to more. When it succeeds, every
    entry not skipped is there: a directory, or a file whose bytes are the entry's
    data and whose length and checksum are the declared ones. *)
Theorem extraction_stays_inside file dest entries fs fs' wrong : extractZip file dest entries fs = (fs', wrong) ->
  fs ⊆ fs' /\
  (forall p n, fs' !! p = Some n -> fs !! p = None -> p = dest \/ extracted dest entries p n) /\
  (wrong = None -> forall e, e ∈ entries -> ze_skip e = false -> present file dest fs' e).
Proof.
  unfold Zip.extractZip. destruct (mkdir dest fs) as [fs1|] eqn:Hm; [|intros [= <- <-]; split_and!; [done|intros p n ??; congruence|done]].
  apply mkdir_ok in Hm as (Hne & Hnew & -> & Hroot). intros [Hg Hp]%extract_entries_ok; [|done].
  assert (grows (fun p n => p = dest \/ extracted dest entries p n) fs fs') as [Hsub Hall]; [|done].
  eapply fs_grows_trans; [apply fs_grows_insert; [done|by left]|]. eapply fs_grows_impl, Hg. intros p n ?. by right.
Qed.

(** ** An accepted archive extracts *)

Lemma split_join segs : segs <> [] -> Forall (fun s => 47 ∉ s) segs -> split_slash (join_slash segs) = segs.
Proof.
  intros Hne Hs. induction Hs as [|s segs Hs Hall IH]; [done|]. clear Hne.
  assert (forall l, 47 ∉ s -> split_slash (s ++ 47 :: l) = s :: split_slash l) as Hsl.
  { intros l. clear. induction s as [|c s IH]; [done|]. rewrite not_elem_of_cons. intros [Hc Hs]. cbn [app split_slash].
    destruct (Z.eqb_spec c 47); [congruence|]. by rewrite IH. }
  destruct segs as [|s' segs]; [|change (join_slash (s :: s' :: segs)) with (s ++ 47 :: join_slash (s' :: segs)); by rewrite Hsl, IH].
  cbn [join_slash]. clear -Hs. induction s as [|c s IH]; [done|]. rewrite not_elem_of_cons in Hs. cbn [split_slash].
  destruct (Z.eqb_spec c 47); [destruct Hs; congruence|]. by rewrite IH by apply Hs.
Qed.

Lemma resolve_good root segs : Forall good_segment segs -> resolve root segs = root ++ segs.
Proof.
  unfold resolve. intros Hs. revert root. induction Hs as [|s segs (H1 & H2 & H3) _ IH]; intros root; [by rewrite app_nil_r|].
  cbn [fold_left]. unfold resolve_step at 2. rewrite !bool_decide_eq_false_2 by done. cbn [orb]. rewrite IH. by rewrite <- app_assoc.
Qed.

Lemma target_of_safe root e : safe_path (ze_path e) -> target_of root e = root ++ split_slash (ze_path e).
Proof. intros [Hs _ _ _]. by apply resolve_good. Qed.

(** Where the targets of two entries meet, their names meet. *)
Lemma prefix_is_parent path path' i : (0 < i)%nat -> (i < length (split_slash path))%nat -> split_slash path' = take i (split_slash path) -> path' ∈ parents path.
Proof.
  intros Hi Hl E. rewrite <- (join_split path'), E. unfold parents. apply list_elem_of_fmap. exists i. split; [done|].
  apply list_elem_of_In, in_seq. lia.
Qed.

Lemma mkdir_from_succeeds p todo : (forall q k, allows q k = true) -> forall k fs,
  (forall i c, (0 < i <= k + todo)%nat -> fs !! take i p <> Some (File c)) -> (k + todo <= length p)%nat -> (mkdir_from k todo p fs).2 = None.
Proof.
  intros Hall. induction todo as [|todo IH]; intros k fs Hfile Hlen; cbn [Zip.mkdir_from]; [done|].
  destruct (is_dir fs (take (S k) p)) eqn:Ed; [apply IH; [intros i c ?; apply Hfile; lia|lia]|].
  destruct (exists_at fs (take (S k) p)) eqn:Ee.
  - exfalso. unfold exists_at in Ee. rewrite Ed in Ee. apply bool_decide_eq_true in Ee as [[|c] En]; [|by apply (Hfile (S k) c); [lia|]].
    unfold is_dir in Ed. destruct (take (S k) p); [done|]. rewrite En in Ed. by rewrite bool_decide_eq_true_2 in Ed.
  - rewrite Hall. cbn [negb orb]. apply IH; [|lia]. intros i c Hi. destruct (decide (take i p = take (S k) p)) as [->|Hne]; [by rewrite lookup_insert_eq|].
    rewrite lookup_insert_ne by done. apply Hfile. lia.
Qed.

Lemma meter_succeeds target max chunks : (forall q k, allows q k = true) -> forall k written crc,
  Z.of_nat (length (written ++ concat chunks)) <= max -> (meter target max k chunks written crc).2 = None.
Proof.
  intros Hall. induction chunks as [|c chunks IH]; intros k written crc Hlen; cbn [Zip.meter]; [done|]. cbn [concat] in Hlen. rewrite app_assoc in Hlen.
  destruct (Z.ltb_spec max (Z.of_nat (length (written ++ c)))) as [Hlt|]; [rewrite length_app in Hlen; lia|]. rewrite Hall. by apply IH.
Qed.

Lemma write_entry_succeeds file e target fs c : (forall q k, allows q k = true) -> target <> [] -> fs !! target = None -> reachable fs target = true ->
  as_declared file e c -> (write_entry file e target fs).2 = None.
Proof.
  intros Hall Hne Hnew Hr (Hc & Hlen & Hcrc). unfold Zip.write_entry, exists_at, contents in *. rewrite (bool_decide_eq_false_2 (is_Some (fs !! target))) by (rewrite Hnew; by intros []). rewrite Hr, Hall.
  replace (is_dir fs target) with false by (unfold is_dir; rewrite Hnew; by destruct target). cbn [negb orb].
  destruct (source file e) as [chunks complete]. destruct complete; [|done]. injection Hc as <-.
  destruct (meter target (ze_size e) 0 chunks [] 0) as [[written crc] wr] eqn:Hm. pose proof (meter_succeeds target (ze_size e) chunks Hall 0 [] 0) as Hs.
  rewrite Hm in Hs. cbn [app snd] in Hs. specialize (Hs ltac:(rewrite Hlen; apply Z.le_refl)) as ->. destruct (proj2 (meter_ok target (ze_size e) chunks 0 [] written crc None (Z.le_max_l _ _) Hm) eq_refl) as [-> ->].
  cbn [negb app]. rewrite Hlen, Hcrc, !Z.eqb_refl. done.
Qed.

(** The file system as extraction has made it after some of the entries. *)
Definition built (root : segments) (past : list ZipEntry) (fs : FS) : Prop :=
  (forall k, (k <= length root)%nat -> is_dir fs (take k root) = true) /\
  forall p n, fs !! p = Some n -> inside root p = true -> exists e, e ∈ past /\ extracted_for root e p n.

Lemma built_step root past e fs fs' : built root past fs -> grows (extracted root [e]) fs fs' -> built root (past ++ [e]) fs'.
Proof.
  intros [Hroot Hin] [Hsub Hnew]. split; [intros k Hk; eapply is_dir_mono; [done|by apply Hroot]|]. intros p n E Hp.
  destruct (fs !! p) as [m|] eqn:Em.
  - destruct (Hin p m Em Hp) as (e' & He' & Hfor). exists e'. split; [apply elem_of_app; by left|]. pose proof (lookup_weaken _ _ _ _ Em Hsub) as E'.
    by assert (m = n) as <- by congruence.
  - destruct (Hnew p n E Em) as (_ & e' & ->%list_elem_of_singleton & Hfor). exists e. split; [apply elem_of_app; right; by left|done].
Qed.

(** In a good archive a file of an entry is never on the way to another. *)
Definition apart (e e' : ZipEntry) : Prop :=
  ze_skip e = false -> ze_skip e' = false -> ze_dir e' = false ->
  ze_path e' ∉ parents (ze_path e) /\ (ze_path e = ze_path e' -> ze_dir e = false).

Lemma names_apart es e e' : names_distinct es -> e ∈ es -> e' ∈ es -> apart e e'.
Proof.
  intros [_ Hn] He He' Hs Hs' Hd'. assert (forall x, x ∈ es -> ze_skip x = false -> x ∈ List.filter (fun e => negb (ze_skip e)) es) as Hkept.
  { intros x Hx Hsx. apply list_elem_of_In, filter_In. rewrite Hsx. split; [by apply list_elem_of_In|done]. }
  destruct (Hn (ze_path e')) as [Hdir Hpar].
  { apply list_elem_of_fmap. exists e'. split; [done|]. apply list_elem_of_In, filter_In. rewrite Hd'. split; [by apply list_elem_of_In, Hkept|done]. }
  split; [by apply Hpar, Hkept|]. intros E. apply not_true_is_false. intros Hd. apply Hdir. rewrite <- E. apply list_elem_of_fmap. exists e. split; [done|].
  apply list_elem_of_In, filter_In. split; [by apply list_elem_of_In, Hkept|done].
Qed.

Lemma names_once past e e' rest : names_distinct (past ++ e :: rest) -> e' ∈ past ->
  ze_skip e = false -> ze_skip e' = false -> ze_dir e = false -> ze_dir e' = false -> ze_path e' <> ze_path e.
Proof.
  intros [Hnd _] He' Hs Hs' Hd Hd' E. unfold file_paths in Hnd. rewrite !List.filter_app, map_app in Hnd. cbn [List.filter] in Hnd.
  rewrite Hs in Hnd. cbn [negb List.filter] in Hnd. rewrite Hd in Hnd. cbn [negb map] in Hnd. apply NoDup_app in Hnd as (_ & Hno & _).
  apply (Hno (ze_path e)); [|by left]. rewrite <- E. apply list_elem_of_fmap. exists e'. split; [done|].
  apply list_elem_of_In, filter_In. rewrite Hd'. split; [|done]. apply filter_In. rewrite Hs'. split; [by apply list_elem_of_In|done].
Qed.

Lemma take_app_root {A} (root segs : list A) i : (length root <= i)%nat -> take i (root ++ segs) = root ++ take (i - length root) segs.
Proof. intros Hi. rewrite take_app. by rewrite take_ge by done. Qed.

(** No file stands where a directory for [e] has to be. *)
Lemma way_is_clear root past e rest fs i c : Forall (fun e => safe_path (ze_path e)) (past ++ e :: rest) -> names_distinct (past ++ e :: rest) ->
  built root past fs -> root <> [] -> ze_skip e = false -> (0 < i <= length (target_of root e))%nat -> (ze_dir e = false -> (i < length (target_of root e))%nat) ->
  fs !! take i (target_of root e) <> Some (File c).
Proof.
  intros Hsafe Hn [Hroot Hin] Hne Hs Hi Hlast E. rewrite Forall_forall in Hsafe.
  rewrite (target_of_safe root e) in * by (apply Hsafe; apply elem_of_app; right; by left).
  destruct (decide (i <= length root)%nat) as [Hle|Hgt].
  { rewrite take_app_le in E by done. specialize (Hroot i Hle). unfold is_dir in Hroot. destruct i as [|i]; [lia|].
    destruct root; [done|]. apply bool_decide_eq_true in Hroot. cbn in *. congruence. }
  rewrite take_app_root in E by lia. rewrite length_app in *. set (j := (i - length root)%nat) in *.
  destruct (Hin _ _ E) as (e' & He' & Hs' & [[Hd _]|(Hd' & Et & _)]); [|done|].
  { apply inside_spec. rewrite take_app_length, length_app, length_take. split_and!; [done|done|lia]. }
  assert (e' ∈ past ++ e :: rest) as Hin' by (apply elem_of_app; by left).
  rewrite (target_of_safe root e') in Et by by apply Hsafe. apply app_inv_head in Et.
  destruct (names_apart _ e e' Hn ltac:(apply elem_of_app; right; by left) Hin' Hs Hs' Hd') as [Hpar Hsame].
  destruct (decide (j < length (split_slash (ze_path e)))%nat) as [Hlt|Hge]; [apply Hpar; eapply (prefix_is_parent _ _ j); [lia|done|done]|].
  rewrite take_ge in Et by lia. assert (ze_path e = ze_path e') as Ep by (rewrite <- (join_split (ze_path e)), Et; apply join_split).
  specialize (Hlast (Hsame Ep)). lia.
Qed.

(** Nothing stands where the file of [e] has to be. *)
Lemma place_is_free root past e rest fs : Forall (fun e => safe_path (ze_path e)) (past ++ e :: rest) -> names_distinct (past ++ e :: rest) ->
  built root past fs -> root <> [] -> ze_skip e = false -> ze_dir e = false -> fs !! target_of root e = None.
Proof.
  intros Hsafe Hn [Hroot Hin] Hne Hs Hd. destruct (fs !! target_of root e) as [n|] eqn:E; [exfalso|done]. rewrite Forall_forall in Hsafe.
  assert (e ∈ past ++ e :: rest) as Hine by (apply elem_of_app; right; by left).
  pose proof (sp_segments _ (Hsafe e Hine)) as Hseg. rewrite (target_of_safe root e) in * by by apply Hsafe.
  assert (0 < length (split_slash (ze_path e)))%nat as Hpos by (pose proof (split_nonempty (ze_path e)); destruct (split_slash (ze_path e)); [done|cbn; lia]).
  destruct (Hin _ _ E) as (e' & He' & Hs' & Hfor).
  { apply inside_spec. rewrite take_app_length, length_app. split_and!; [done|done|lia]. }
  assert (e' ∈ past ++ e :: rest) as Hin' by (apply elem_of_app; by left). rewrite (target_of_safe root e') in Hfor by by apply Hsafe.
  destruct (names_apart _ e' e Hn Hin' Hine Hs' Hs Hd) as [Hpar Hsame].
  destruct Hfor as [(_ & i & Hi & Et & Hlast)|(Hd' & Et%app_inv_head & _)].
  - rewrite length_app in *. assert (length root < i)%nat as Hgt.
    { apply (f_equal length) in Et. rewrite length_app, length_take, length_app in Et. lia. }
    rewrite take_app_root in Et by lia. apply app_inv_head in Et.
    destruct (decide (i - length root < length (split_slash (ze_path e')))%nat) as [Hlt|Hge]; [apply Hpar; eapply prefix_is_parent; [|exact Hlt|exact Et]; lia|].
    rewrite take_ge in Et by lia. assert (ze_path e' = ze_path e) as Ep by (rewrite <- (join_split (ze_path e)), Et; symmetry; apply join_split).
    specialize (Hlast (Hsame Ep)). lia.
  - apply (names_once _ _ _ _ Hn He' Hs Hs' Hd Hd'). rewrite <- (join_split (ze_path e')), <- Et. apply join_split.
Qed.

Lemma extract_entry_succeeds file root past e rest fs : (forall q k, allows q k = true) ->
  Forall (fun e => safe_path (ze_path e)) (past ++ e :: rest) -> names_distinct (past ++ e :: rest) -> root <> [] -> built root past fs ->
  (ze_skip e = false -> ze_dir e = false -> exists c, as_declared file e c) -> (extract_entry file root e fs).2 = None.
Proof.
  intros Hall Hsafe Hn Hne Hb Hhonest. unfold Zip.extract_entry. fold (target_of root e). destruct (ze_skip e) eqn:Hs; [done|].
  assert (safe_path (ze_path e)) as He by (rewrite Forall_forall in Hsafe; apply Hsafe; apply elem_of_app; right; by left).
  assert (inside root (target_of root e) = true) as Hi.
  { rewrite target_of_safe by done. apply inside_spec. rewrite take_app_length, length_app. pose proof (split_nonempty (ze_path e)).
    destruct (split_slash (ze_path e)); [done|]. cbn. split_and!; [done|done|lia]. }
  rewrite Hi. cbn [negb].
  pose proof (fun i c => way_is_clear root past e rest fs i c Hsafe Hn Hb Hne Hs) as Hclear. destruct (ze_dir e) eqn:Hd.
  - apply mkdir_from_succeeds; [done| |lia]. intros i c Hr. by apply Hclear.
  - assert (length (dirname (target_of root e)) < length (target_of root e))%nat as Hl.
    { apply inside_spec in Hi as (_ & _ & Hi). unfold dirname. rewrite length_take. lia. }
    assert ((mkdir_recursive (dirname (target_of root e)) fs).2 = None) as Hok.
    { apply mkdir_from_succeeds; [done| |lia]. intros i c Hr. unfold dirname in *. rewrite length_take in Hl, Hr. rewrite take_take.
      replace (i `min` _)%nat with i by lia. apply Hclear; lia. }
    destruct (mkdir_recursive _ _) as [fs1 wrong1] eqn:Hm. cbn [snd] in Hok. subst wrong1.
    apply (mkdir_recursive_inside root (target_of root e)) in Hm as [Hg Hdir]; [|done|by right|apply Hb].
    destruct (Hhonest eq_refl eq_refl) as [c Hc]. apply (write_entry_succeeds _ _ _ _ c); [done| | | |done].
    + intros E. rewrite E in Hl. cbn in Hl. lia.
    + destruct (fs1 !! target_of root e) as [n|] eqn:E; [exfalso|done]. destruct Hg as [_ Hnew].
      destruct (Hnew _ _ E (place_is_free root past e rest fs Hsafe Hn Hb Hne Hs Hd)) as (_ & _ & i & Hi' & Et).
      apply (f_equal length) in Et. rewrite length_take in Et. lia.
    + apply reachable_spec. intros k Hk. unfold dirname in Hdir. rewrite length_take in Hdir. specialize (Hdir eq_refl k ltac:(lia)).
      rewrite take_take in Hdir. by replace (k `min` _)%nat with k in Hdir by lia.
Qed.

Lemma extract_entries_succeed file root rest : (forall q k, allows q k = true) -> root <> [] ->
  forall past fs, Forall (fun e => safe_path (ze_path e)) (past ++ rest) -> names_distinct (past ++ rest) -> built root past fs ->
  Forall (fun e => ze_skip e = false -> ze_dir e = false -> exists c, as_declared file e c) rest -> (extract_entries file root rest fs).2 = None.
Proof.
  intros Hall Hne. induction rest as [|e rest IH]; intros past fs Hsafe Hn Hb Hhonest; cbn [Zip.extract_entries]; [done|].
  inversion Hhonest as [|? ? He Hrest]; subst. pose proof (extract_entry_succeeds file root past e rest fs Hall Hsafe Hn Hne Hb He) as Hok.
  destruct (extract_entry file root e fs) as [fs1 wrong] eqn:Hx. cbn [snd] in Hok. subst wrong.
  apply extract_entry_ok in Hx as [Hg _]; [|apply Hb]. apply (IH (past ++ [e])); [by rewrite <- app_assoc|by rewrite <- app_assoc|by eapply built_step|done].
Qed.

End extraction.

(** what [readZip] accepts, [extractZip] extracts: into a destination that
    does not exist yet, whose parent directories do, on a file system that lets it
    write, the extraction of an accepted archive whose files are what they declare
    (their data inflates to the declared size and checksum) succeeds. No entry
    meets the file or the directory of another on its way, and none is taken to
    lead outside: the checks of the names were enough. *)
Theorem accepted_archive_extracts `{Utf8} `{Inflate} allows file limits entries unpackedBytes dest fs :
  bytes_ok file -> readZip file limits = Ok (entries, unpackedBytes) ->
  (forall p k, allows p k = true) -> dest <> [] -> reachable fs dest = true -> (forall p n, fs !! p = Some n -> p <> dest /\ inside dest p = false) ->
  Forall (fun e => ze_skip e = false -> ze_dir e = false -> exists c, as_declared file e c) entries ->
  (extractZip allows file dest entries fs).2 = None.
Proof.
  intros Hb Hr Hall Hne Hreach Hnew Hhonest. apply accepted_archive_is_safe in Hr as [Hsafe _ _ _ Hn _]; [|done].
  assert (fs !! dest = None) as Hd by (destruct (fs !! dest) as [n|] eqn:E; [by destruct (Hnew _ _ E)|done]).
  unfold extractZip. destruct (mkdir allows dest fs) as [fs1|] eqn:Hm.
  - apply mkdir_ok in Hm as (_ & _ & -> & Hroot). apply (extract_entries_succeed allows file dest entries Hall Hne []); [|done| |done].
    + eapply Forall_impl; [exact Hsafe|]. by intros e [? _].
    + split; [done|]. intros p n. destruct (decide (p = dest)) as [->|Hp]; [intros _ Hin; apply inside_spec in Hin as (_ & _ & Hlt); lia|].
      rewrite lookup_insert_ne by done. intros E Hin. destruct (Hnew _ _ E) as [_ Hno]. congruence.
  - unfold mkdir, exists_at in Hm. rewrite Hall, Hd, Hreach in Hm. rewrite (bool_decide_eq_false_2 (is_Some None)) in Hm by (by intros []).
    unfold is_dir in Hm. rewrite Hd in Hm. by destruct dest.
Qed.

(** ** The hypotheses can hold *)

(** An archive of one stored file, [d/hi.txt]. *)
Definition example_name : list Z := units "d/hi.txt".
Definition example_data : list Z := units "hi".
Definition example_local : list Z :=
  le 4 LOCAL ++ le 2 20 ++ le 2 0 ++ le 2 0 ++ le 4 0 ++ le 4 (crc32 example_data 0) ++ le 4 2 ++ le 4 2 ++ le 2 8 ++ le 2 0 ++ example_name ++ example_data.
Definition example_central : list Z :=
  le 4 CENTRAL ++ le 2 788 ++ le 2 20 ++ le 2 0 ++ le 2 0 ++ le 4 0 ++ le 4 (crc32 example_data 0) ++ le 4 2 ++ le 4 2 ++ le 2 8 ++ le 2 0 ++ le 2 0 ++
  le 2 0 ++ le 2 0 ++ le 4 (Z.shiftl S_IFREG 16) ++ le 4 0 ++ example_name.
Definition example_archive : list Z :=
  example_local ++ example_central ++
  le 4 EOCD ++ le 2 0 ++ le 2 0 ++ le 2 1 ++ le 2 1 ++ le 4 (Z.of_nat (length example_central)) ++ le 4 (Z.of_nat (length example_local)) ++ le 2 0.
Definition example_limits : ZipLimits := {| maxEntries := 5000; maxUnpackedBytes := 1000000 |}.
Definition example_entry : ZipEntry :=
  {| ze_path := example_name; ze_dir := false; ze_skip := false; ze_method := 0; ze_crc := crc32 example_data 0; ze_compressedSize := 2; ze_size := 2; ze_dataOffset := 38 |}.
Definition ascii_only : Utf8 := {| utf8_decode b := if forallb (fun c => c <? 128) b then Some b else None |}.
Definition stored_only : Inflate := {| inflate b := ([], false); pieces b := [b] |}.
Definition example_fs : FS := {[ [units "srv"] := Dir ]}.
Definition example_dest : segments := [units "srv"; units "upload"].

Lemma bytes_ok_dec (l : list Z) : forallb (between 0 255) l = true -> bytes_ok l.
Proof.
  rewrite forallb_forall. intros H. apply Forall_forall. intros x Hx%list_elem_of_In. specialize (H x Hx). unfold between in H. unfold byte_ok. bprop. lia.
Qed.

Lemma accepted_archive_is_safe_witness :
  accepted (Z.of_nat (length example_archive)) example_limits [example_entry] 2.
Proof. apply (@accepted_archive_is_safe ascii_only); [apply bytes_ok_dec; vm_compute; reflexivity|vm_compute; reflexivity]. Defined.

Lemma corrupt_archive_is_a_zip_error_witness :
  @readZip ascii_only (removelast example_archive) example_limits = Err (ZipError None "not a zip archive (no end-of-directory record)") /\
  @readZip ascii_only (removelast example_archive) example_limits <> Err RangeError.
Proof.
  split; [vm_compute; reflexivity|]. apply (@corrupt_archive_is_a_zip_error ascii_only). apply bytes_ok_dec. vm_compute. reflexivity.
Defined.

Lemma checksum_is_the_polynomial_witness :
  crc32 (units "123456789") 0 = 3421780262 /\
  crc32 (units "123456789") 0 = not32 (fold_left crc_bits (units "123456789") (not32 0)).
Proof.
  split; [vm_compute; reflexivity|]. apply (proj1 (checksum_is_the_polynomial (units "123456789") 0 ltac:(apply bytes_ok_dec; vm_compute; reflexivity))).
Defined.

Lemma extraction_stays_inside_witness :
  let r := @extractZip stored_only (fun _ _ => true) example_archive example_dest [example_entry] example_fs in
  r.2 = None /\ example_fs ⊆ r.1 /\ r.1 !! (example_dest ++ [units "d"; units "hi.txt"]) = Some (File example_data).
Proof.
  intros r. split; [vm_compute; reflexivity|]. split; [|vm_compute; reflexivity].
  exact (proj1 (@extraction_stays_inside stored_only (fun _ _ => true) example_archive example_dest [example_entry] example_fs r.1 r.2 (surjective_pairing r))).
Defined.

Lemma accepted_archive_extracts_witness :
  (@extractZip stored_only (fun _ _ => true) example_archive example_dest [example_entry] example_fs).2 = None.
Proof.
  apply (@accepted_archive_extracts ascii_only stored_only (fun _ _ => true) example_archive example_limits [example_entry] 2).
  - apply bytes_ok_dec. vm_compute. reflexivity.
  - vm_compute. reflexivity.
  - reflexivity.
  - discriminate.
  - vm_compute. reflexivity.
  - intros p n E. unfold example_fs in E. rewrite lookup_singleton_Some in E. destruct E as [<- <-]. split; [discriminate|reflexivity].
  - apply Forall_singleton. intros _ _. exists example_data. split; [|split]; vm_compute; reflexivity.
Defined.
