(* ===== verification/Sessions.v ===== *)
(** Signed sessions and their revocation (src/web/auth.ts), over the private
    files of src/shared/private-file.ts.

    A session is a token its bearer keeps; what the server keeps are the tokens
    that were logged out, in memory and in a file that every process of the site
    shares. Section [site] puts several processes around one file. The HMAC, the
    base64url text of a JSON value and the moment and the outcome of every read
    and write of the file are inputs. *)

From S2P Require Import Prelude Json.

(** ** Private files *)

(** One version of the file: what [JSON.parse] makes of it, [None] when it
    throws, and its bytes. The version stands for the inode, the modification
    time and the size that tell two versions apart. *)
Record version := { f_id : nat; f_content : option json; f_size : Z }.
(** The file on disk, [None] while it was never written. *)
Notation disk := (option version).

(** What a process remembers of the file: [null] or nothing yet, [''] after a
    write of its own, or the version it read. *)
Inductive stamp := Unseen | Outdated | Seen (id : nat).
#[export] Instance stamp_eq : EqDecision stamp.
Proof. solve_decision. Defined.

(** How the replacement of a file ends: done, failed with the old file in place,
    or failed after the new one was renamed into place. *)
Inductive outcome := Written | Unwritten | Unsynced.

(** @shared/private-file.ts 24-38 writePrivateJson *)
Definition writePrivateJson (value : json) (o : outcome) (d : disk) : disk * result string unit :=
  let new := Some {| f_id := match d with Some v => S (f_id v) | None => O end; f_content := Some value; f_size := json_bytes value |} in
  match o with
  | Written => (new, Ok tt)
  | Unwritten => (d, Err "write")
  | Unsynced => (new, Err "fsync")
  end.

(** Work under the lock of the file, unless another writer holds it.
    @shared/private-file.ts 7-22 withPrivateFileLock *)
Definition withPrivateFileLock {St A} (busy : bool) (work : St -> St * result string A) (s : St) : St * result string A :=
  if busy then (s, Err "Account storage is busy. Try again shortly.") else work s.

(** ** Sessions *)

(** HMAC-SHA256 in base64url of a text under a secret, and the base64url text of
    a JSON value and back ([None] when it throws). *)
Class Tokens := { mac : string -> string -> string; body_text : json -> string; body_json : string -> option json }.

Definition DOT_CHAR : Ascii.ascii := Ascii.ascii_of_N 46.
Definition is_base64url (c : Ascii.ascii) : bool :=
  is_digit c || is_lower c || is_upper c || bool_decide (c = Ascii.ascii_of_N 95) || bool_decide (c = Ascii.ascii_of_N 45).
(** [/^[A-Za-z0-9_-]{43}$/] *)
Definition is_mac (s : string) : bool := Nat.eqb (String.length s) 43 && forallb is_base64url (chars s).

Class TokenLaws {T : Tokens} : Prop := {
  body_json_text v : body_json (body_text v) = Some v;
  body_text_plain v : body_text v <> "" /\ DOT_CHAR ∉ chars (body_text v);
  mac_shape secret text : is_mac (mac secret text) = true }.

(** @web/auth.ts 192-196 Sessions *)
Record Config := { c_secret : string; c_ttlMs : Z; c_revocationsPath : bool; c_accountVersion : option (string -> option string) }.
(** @web/auth.ts 193-195 Sessions *)
Record Sessions := { revoked : list (string * Q); validAfter : option Q; revocationStamp : stamp }.

Definition with_stamp (st : stamp) (s : Sessions) : Sessions := {| revoked := revoked s; validAfter := validAfter s; revocationStamp := st |}.
Definition REVOKED_MAX : Z := 10000.

Definition parse_revoked (v : json) : option (string * Q) :=
  match v with
  | JArr [JStr k; JNum q] => if is_mac k then Some (k, q) else None
  | _ => None
  end.

(** @web/auth.ts 280-287 reloadRevocations *)
Definition parse_revocations (now : Z) (v : json) : option (list (string * Q) * option Q) :=
  match v with
  | JObj f =>
      match field "validAfter" f, field "revoked" f with
      | Some after, Some (JArr l) =>
          match match after with JNull => Some None | JNum q => Some (Some q) | _ => None end, mapM parse_revoked l with
          | Some after, Some entries =>
              if REVOKED_MAX <? Z.of_nat (length l) then None
              else Some (fold_left (fun m p => if Qltb (inject_Z now) p.2 then om_set p.1 p.2 m else m) entries [], after)
          | _, _ => None
          end
      | _, _ => None
      end
  | _ => None
  end.

(** [None] when it throws; [io] says whether the file can be looked at.
    @web/auth.ts 268-289 reloadRevocations *)
Definition reloadRevocations (cfg : Config) (io : bool) (d : disk) (now : Z) (s : Sessions) : option Sessions :=
  if negb (c_revocationsPath cfg) then Some s
  else if negb io then None
  else
    match d with
    | None => if bool_decide (revocationStamp s = Unseen) then Some s else None
    | Some v =>
        if bool_decide (revocationStamp s = Seen (f_id v)) then Some s
        else
          match f_content v ≫= parse_revocations now with
          | Some (entries, after) => Some {| revoked := entries; validAfter := after; revocationStamp := Seen (f_id v) |}
          | None => None
          end
    end.

(** [new Sessions(...)]: [None] when it throws.
    @web/auth.ts 196-198 constructor *)
Definition newSessions (cfg : Config) (io : bool) (d : disk) (now : Z) : option Sessions :=
  reloadRevocations cfg io d now {| revoked := []; validAfter := None; revocationStamp := Unseen |}.

(** [a > -Infinity], [-Infinity] being [None]. *)
Definition above (q : Q) (after : option Q) : bool := match after with None => true | Some a => Qltb a q end.

Section sessions.
Context {T : Tokens} (cfg : Config).
Notation sign := (mac (c_secret cfg)).
Notation ttl := (c_ttlMs cfg).

(** @web/auth.ts 200-205 issue *)
Definition issue (email : string) (nonce : string) (now : Z) : result string string :=
  let version := c_accountVersion cfg ≫= fun f => f email in
  match c_accountVersion cfg, version with
  | Some _, None | Some _, Some "" => Err "Unknown account."
  | _, _ =>
      let body := body_text (JObj ([("e", JStr email); ("x", JInt (now + ttl)); ("n", JStr nonce)] ++
                                   match version with Some v => [("v", JStr v)] | None => [] end)) in
      Ok (body +:+ "." +:+ sign body)
  end.

(** The parts of a token whose signature is ours.
    @web/auth.ts 246-252 detail *)
Definition signed_body (token : string) : option string :=
  match split_on DOT_CHAR token with
  | [body; m] => if bool_decide (body = "") || bool_decide (m = "") || negb (bool_decide (sign body = m)) then None else Some body
  | _ => None
  end.

(** What the token says: the account, the end, the version of the account.
    @web/auth.ts 254-255 detail *)
Definition claims (token : string) : option (string * Q * option json) :=
  match signed_body token ≫= body_json with
  | Some (JObj f) => match field "e" f, field "x" f with Some (JStr e), Some (JNum x) => Some (e, x, field "v" f) | _, _ => None end
  | _ => None
  end.

(** @web/auth.ts 255-258 detail *)
Definition judge (token : string) (now : Z) (s : Sessions) : option (string * Q) :=
  match claims token with
  | None => None
  | Some (e, x, v) =>
      if Qle_bool x (inject_Z now) || Qltb (inject_Z (now + ttl)) x || bool_decide (e = "") || (254 <? js_length e)
         || negb (above (x - inject_Z ttl)%Q (validAfter s)) || om_has (sign token) (revoked s) then None
      else
        match c_accountVersion cfg with
        | None => Some (e, x)
        | Some current =>
            match v, current e with
            | Some (JStr v), Some c => if bool_decide (v = c) then Some (e, x) else None
            | _, _ => None
            end
        end
  end.

(** What is known of a token, and the memory after the file was looked at.
    @web/auth.ts 242-262 detail *)
Definition detail (io : bool) (d : disk) (token : string) (now : Z) (s : Sessions) : option (string * Q) * Sessions :=
  if bool_decide (token = "") || (2048 <? js_length token) then (None, s)
  else
    match reloadRevocations cfg io d now s with
    | None => (None, s)
    | Some s => (judge token now s, s)
    end.

(** @web/auth.ts 213-215 read *)
Definition read (io : bool) (d : disk) (token : string) (now : Z) (s : Sessions) : option string * Sessions :=
  let '(found, s) := detail io d token now s in (fst <$> found, s).

Definition revocations_json (s : Sessions) : json :=
  JObj [("validAfter", match validAfter s with Some q => JNum q | None => JNull end);
        ("revoked", JArr (map (fun p => JArr [JStr p.1; JNum p.2]) (revoked s)))].

(** @web/auth.ts 291-295 saveRevocations *)
Definition saveRevocations (o : outcome) (d : disk) (s : Sessions) : Sessions * disk * result string unit :=
  if negb (c_revocationsPath cfg) then (s, d, Ok tt)
  else
    let '(d, r) := writePrivateJson (revocations_json s) o d in
    match r with Ok _ => (with_stamp Outdated s, d, Ok tt) | Err why => (s, d, Err why) end.

(** The memory once the token is out.
    @web/auth.ts 229-233 revokeUnlocked *)
Definition forget (token : string) (expiresAt : Q) (now : Z) (s : Sessions) : Sessions :=
  let live := List.filter (fun p => negb (Qle_bool p.2 (inject_Z now))) (revoked s) in
  let '(live, after) := if REVOKED_MAX <=? Z.of_nat (length live) then ([], Some (inject_Z now)) else (live, validAfter s) in
  {| revoked := om_set (sign token) expiresAt live; validAfter := after; revocationStamp := revocationStamp s |}.

(** Whether the token was live, too.
    @web/auth.ts 226-235 revokeUnlocked *)
Definition revokeUnlocked (io : bool) (o : outcome) (token : string) (now : Z) (st : Sessions * disk) : (Sessions * disk) * result string bool :=
  let '(s, d) := st in
  let '(found, s) := detail io d token now s in
  match found with
  | None => ((s, d), Ok false)
  | Some (_, expiresAt) =>
      let '(s, d, r) := saveRevocations o d (forget token expiresAt now s) in
      ((s, d), match r with Ok _ => Ok true | Err why => Err why end)
  end.

(** @web/auth.ts 218-225 revoke *)
Definition revoke (busy io : bool) (o : outcome) (token : string) (now : Z) (st : Sessions * disk) : (Sessions * disk) * result string bool :=
  if c_revocationsPath cfg then
    withPrivateFileLock busy (fun st =>
      let s := if bool_decide (revocationStamp st.1 = Unseen) then st.1 else with_stamp Outdated st.1 in
      revokeUnlocked io o token now (s, st.2)) st
  else revokeUnlocked io o token now st.
End sessions.

(** ** One site: several processes around one file of revocations *)

Section site.
Context {T : Tokens} (cfg : Config).

Record Site := { procs : gmap nat Sessions; s_disk : disk }.

Inductive op :=
| Start (i : nat)
| Stop (i : nat)
| Read (i : nat) (token : string)
| Revoke (i : nat) (token : string) (busy : bool) (o : outcome).

(** An operation, whether the file can be looked at meanwhile, and when. *)
Record event := { ev_op : op; ev_io : bool; ev_now : Z }.

Inductive answer := Nothing | Known (who : option string) | Ended (r : result string bool).

Definition site_step (w : Site) (ev : event) : Site * answer :=
  let io := ev_io ev in let now := ev_now ev in
  match ev_op ev with
  | Start i =>
      match newSessions cfg io (s_disk w) now with
      | Some s => ({| procs := <[i := s]> (procs w); s_disk := s_disk w |}, Nothing)
      | None => ({| procs := delete i (procs w); s_disk := s_disk w |}, Nothing)
      end
  | Stop i => ({| procs := delete i (procs w); s_disk := s_disk w |}, Nothing)
  | Read i token =>
      match procs w !! i with
      | None => (w, Nothing)
      | Some s => let '(who, s) := read cfg io (s_disk w) token now s in ({| procs := <[i := s]> (procs w); s_disk := s_disk w |}, Known who)
      end
  | Revoke i token busy o =>
      match procs w !! i with
      | None => (w, Nothing)
      | Some s =>
          let '((s, d), r) := revoke cfg busy io o token now (s, s_disk w) in ({| procs := <[i := s]> (procs w); s_disk := d |}, Ended r)
      end
  end.

Definition site_run (w : Site) (evs : list event) : Site := fold_left (fun w ev => (site_step w ev).1) evs w.
Definition site_init (d : disk) : Site := {| procs := ∅; s_disk := d |}.
End site.

(** ** Tokens *)

Lemma split_plain sep l : sep ∉ l -> split_chars sep l = [l].
Proof.
  induction l as [|c l IH]; [done|]. rewrite not_elem_of_cons. intros [Hc Hl]. cbn [split_chars]. rewrite bool_decide_eq_false_2 by congruence. by rewrite IH.
Qed.

Lemma split_two sep a b : sep ∉ a -> sep ∉ b -> split_chars sep (a ++ sep :: b) = [a; b].
Proof.
  intros Ha Hb. induction a as [|c a IH]; cbn [app split_chars].
  - rewrite bool_decide_eq_true_2 by done. by rewrite split_plain.
  - rewrite not_elem_of_cons in Ha. rewrite bool_decide_eq_false_2 by (destruct Ha; congruence). by rewrite IH by apply Ha.
Qed.

Lemma split_chars_concat sep l : exists w ws, split_chars sep l = w :: ws.
Proof. destruct l as [|c l]; cbn; [eauto|]. case_bool_decide; [eauto|]. destruct (split_chars sep l); eauto. Qed.

Lemma split_chars_one sep l : forall a, split_chars sep l = [a] -> l = a.
Proof.
  induction l as [|c l IH]; intros a; cbn [split_chars]; [by intros [= <-]|]. destruct (split_chars_concat sep l) as (w & ws & E). rewrite E in *.
  case_bool_decide; [done|]. intros [= <- ->]. by rewrite (IH w).
Qed.

Lemma split_chars_two sep l : forall a b, split_chars sep l = [a; b] -> l = a ++ sep :: b.
Proof.
  induction l as [|c l IH]; intros a b; cbn [split_chars]; [done|]. case_bool_decide as Hc.
  - intros [= <- E]. subst c. cbn [app]. f_equal. by eapply split_chars_one.
  - destruct (split_chars_concat sep l) as (w & ws & E). rewrite E in *. intros [= <- ->]. by rewrite (IH w b).
Qed.

Section token_facts.
Context {T : Tokens} (cfg : Config).
Notation sign := (mac (c_secret cfg)).

Lemma signed_body_inv token body : signed_body cfg token = Some body -> token = body +:+ "." +:+ sign body.
Proof.
  unfold signed_body, split_on. destruct (split_chars DOT_CHAR (chars token)) as [|a [|b [|? ?]]] eqn:E; try done. cbn [map].
  destruct (_ || _) eqn:Ec; [done|]. intros [= <-]. repeat rewrite orb_false_iff in Ec. destruct Ec as [_ Em%negb_false_iff%bool_decide_eq_true].
  apply split_chars_two in E. apply chars_inj. rewrite E, !chars_app, Em. unfold chars. rewrite !String.list_ascii_of_string_of_list_ascii. done.
Qed.

Lemma plain_mac `{!TokenLaws} secret text : DOT_CHAR ∉ chars (mac secret text) /\ mac secret text <> "".
Proof.
  pose proof (mac_shape secret text) as Hm. unfold is_mac in Hm. apply andb_true_iff in Hm as [Hl Hm]. split.
  - intros Hin%list_elem_of_In. by apply (proj1 (forallb_forall _ _) Hm) in Hin.
  - intros E. by rewrite E in Hl.
Qed.

Lemma signed_body_own `{!TokenLaws} v : signed_body cfg (body_text v +:+ "." +:+ sign (body_text v)) = Some (body_text v).
Proof.
  destruct (body_text_plain v) as [Hne Hp]. destruct (plain_mac (c_secret cfg) (body_text v)) as [Hm Hmne]. unfold signed_body, split_on.
  rewrite !chars_app. change (chars "." ++ ?x) with (DOT_CHAR :: x). rewrite split_two by done. cbn [map]. unfold chars. rewrite !String.string_of_list_ascii_of_string.
  rewrite !bool_decide_eq_false_2 by done. by rewrite bool_decide_eq_true_2.
Qed.
End token_facts.

(** ** A logged-out token stays dead *)

Section revocation.
Context {T : Tokens} (cfg : Config).
Notation sign := (mac (c_secret cfg)).
Notation ttl := (c_ttlMs cfg).
(** Two texts never have the same HMAC. *)
Context (sign_inj : forall a b, sign a = sign b -> a = b).

(** From [t] on, nothing in these revocations lets the token through. *)
Definition dead (token : string) (t : Z) (entries : list (string * Q)) (after : option Q) : Prop :=
  match claims cfg token with
  | None => True
  | Some (_, x, _) =>
      (x <= inject_Z t)%Q \/ (exists a, after = Some a /\ (x - inject_Z ttl <= a)%Q) \/
      exists expiry, om_get (sign token) entries = Some expiry /\ (x <= expiry)%Q
  end.

Lemma Qle_mono t t' x : t <= t' -> (x <= inject_Z t)%Q -> (x <= inject_Z t')%Q.
Proof. intros Ht Hx. eapply Qle_trans; [exact Hx|]. by rewrite <- Zle_Qle. Qed.

Lemma dead_mono token t t' entries after : t <= t' -> dead token t entries after -> dead token t' entries after.
Proof.
  unfold dead. destruct (claims cfg token) as [[[e x] v]|]; [|done]. intros Ht [Hx|Hx]; [left; by eapply Qle_mono|by right].
Qed.

Lemma judge_dead token now s : dead token now (revoked s) (validAfter s) -> judge cfg token now s = None.
Proof.
  unfold judge, dead. destruct (claims cfg token) as [[[e x] v]|]; [|done]. intros [Hx|[(a & -> & Ha)|(expiry & E & _)]].
  - apply Qle_bool_iff in Hx. by rewrite Hx.
  - assert (above (x - inject_Z ttl) (Some a) = false) as ->.
    { cbn. apply not_true_iff_false. rewrite Qltb_lt. by apply Qle_not_lt. }
    cbn [negb]. by rewrite !orb_true_r.
  - unfold om_has. rewrite E. by rewrite !orb_true_r.
Qed.

Lemma judge_live token now s e x : judge cfg token now s = Some (e, x) ->
  exists v, claims cfg token = Some (e, x, v) /\ (inject_Z now < x)%Q /\ (x <= inject_Z (now + ttl))%Q.
Proof.
  unfold judge. destruct (claims cfg token) as [[[e' x'] v]|]; [|done]. destruct (_ || _) eqn:E; [done|]. intros Hj.
  assert (e' = e /\ x' = x) as [-> ->].
  { destruct (c_accountVersion cfg) as [cur|]; [|by injection Hj as -> ->]. destruct v as [[]|]; try done. destruct (cur e') as [c|]; [|done]. case_bool_decide; [by injection Hj as -> ->|done]. }
  exists v. split; [done|]. repeat rewrite orb_false_iff in E. destruct E as [[[[[E1 E2] _] _] _] _]. split.
  - apply Qnot_le_lt. intros Hle%Qle_bool_iff. congruence.
  - apply Qnot_lt_le. intros Hlt%Qltb_lt. congruence.
Qed.

(** Forgetting one token revives no other. *)
Lemma forget_dead token other x' now s : NoDup (om_keys (revoked s)) ->
  (forall e x v, claims cfg token = Some (e, x, v) -> (x <= inject_Z (now + ttl))%Q) ->
  (forall e x v, claims cfg other = Some (e, x, v) -> x' = x) ->
  dead token now (revoked s) (validAfter s) -> dead token now (revoked (forget cfg other x' now s)) (validAfter (forget cfg other x' now s)).
Proof.
  intros Hnd Hmax Hother. unfold dead. destruct (claims cfg token) as [[[e x] v]|] eqn:Ec; [|done]. intros Hd. unfold forget.
  destruct (REVOKED_MAX <=? _); cbn [revoked validAfter].
  { right. left. exists (inject_Z now). split; [done|]. specialize (Hmax _ _ _ eq_refl). rewrite inject_Z_plus in Hmax. lra. }
  destruct Hd as [Hx|[Ha|(expiry & E & Hle)]]; [by left|right; by left|].
  destruct (Qle_bool expiry (inject_Z now)) eqn:Ex; [left; apply Qle_bool_iff in Ex; lra|]. right. right.
  rewrite om_get_set. case_bool_decide as Hs; [|exists expiry; rewrite (om_get_filter_val (fun q => negb (Qle_bool q (inject_Z now)))) by done; by rewrite E, Ex].
  apply sign_inj in Hs. subst other. exists x'. split; [done|]. rewrite (Hother _ _ _ Ec). lra.
Qed.

Lemma forget_itself token x e v now s : claims cfg token = Some (e, x, v) ->
  dead token now (revoked (forget cfg token x now s)) (validAfter (forget cfg token x now s)).
Proof.
  intros Ec. unfold dead. rewrite Ec. right. right. exists x. unfold forget. destruct (REVOKED_MAX <=? _); cbn [revoked]; (split; [apply om_get_set_eq|lra]).
Qed.

Lemma forget_keys other x now s : NoDup (om_keys (revoked s)) -> NoDup (om_keys (revoked (forget cfg other x now s))).
Proof. intros Hnd. unfold forget. destruct (REVOKED_MAX <=? _); cbn [revoked]; apply om_set_nodup; [constructor|by apply om_filter_nodup]. Qed.

(** ** Through the file *)

Definition live_entries (now : Z) (entries : list (string * Q)) (m : list (string * Q)) : list (string * Q) :=
  fold_left (fun m p => if Qltb (inject_Z now) p.2 then om_set p.1 p.2 m else m) entries m.

Lemma live_entries_keys now entries : forall m, NoDup (om_keys m) -> NoDup (om_keys (live_entries now entries m)).
Proof. induction entries as [|p entries IH]; intros m Hm; [done|]. cbn. apply IH. destruct (Qltb _ _); [by apply om_set_nodup|done]. Qed.

Lemma live_entries_get now entries k : NoDup (om_keys entries) -> forall m,
  om_get k (live_entries now entries m) =
    match om_get k entries with Some q => if Qltb (inject_Z now) q then Some q else om_get k m | None => om_get k m end.
Proof.
  induction entries as [|[k' q] entries IH]; intros Hnd m; [done|]. cbn [om_keys map fst] in Hnd. apply NoDup_cons in Hnd as [Hk Hnd].
  change (live_entries now ((k', q) :: entries) m) with (live_entries now entries (if Qltb (inject_Z now) q then om_set k' q m else m)). rewrite IH by done. cbn [om_get]. case_bool_decide as E.
  - subst k'. replace (om_get k entries) with (@None Q) by (symmetry; by apply om_get_None). destruct (Qltb _ _); [apply om_get_set_eq|done].
  - destruct (om_get k entries) as [q'|]; [destruct (Qltb (inject_Z now) q'); [done|]|]; (destruct (Qltb (inject_Z now) q); [by apply om_get_set_ne|done]).
Qed.

Lemma mapM_revoked entries l : mapM parse_revoked (map (fun p => JArr [JStr p.1; JNum p.2]) entries) = Some l -> l = entries.
Proof.
  revert l. induction entries as [|[k q] entries IH]; intros l; cbn; [by intros [= <-]|]. destruct (is_mac k); [|done]. cbn.
  destruct (mapM parse_revoked _) as [l'|]; [|done]. cbn. intros [= <-]. by rewrite (IH l').
Qed.

(** What is written is read back as it was, less what has expired. *)
Lemma parse_written now s entries after : parse_revocations now (revocations_json s) = Some (entries, after) ->
  entries = live_entries now (revoked s) [] /\ after = validAfter s.
Proof.
  unfold parse_revocations, revocations_json. cbn [field om_get]. rewrite bool_decide_eq_true_2, bool_decide_eq_false_2 by done. cbn [om_get].
  rewrite bool_decide_eq_true_2 by done. destruct (validAfter s) as [q|]; (destruct (mapM _ _) as [l|] eqn:E; [|done]; apply mapM_revoked in E; subst l;
    destruct (_ <? _); [done|]; by intros [= <- <-]).
Qed.

(** A version of the file from which the token is dead when it is read from [t] on. *)
Definition file_dead (token : string) (t : Z) (v : version) : Prop :=
  forall now entries after, t <= now -> f_content v ≫= parse_revocations now = Some (entries, after) -> dead token now entries after.

Lemma file_dead_mono token t t' v : t <= t' -> file_dead token t v -> file_dead token t' v.
Proof. intros Ht Hd now entries after Hn. apply Hd. lia. Qed.

Lemma written_dead token t s id size : NoDup (om_keys (revoked s)) -> dead token t (revoked s) (validAfter s) ->
  file_dead token t {| f_id := id; f_content := Some (revocations_json s); f_size := size |}.
Proof.
  intros Hnd Hd now entries after Hn. cbn. intros [-> ->]%parse_written. apply (dead_mono _ _ now) in Hd; [|done]. revert Hd. unfold dead.
  destruct (claims cfg token) as [[[e x] v]|]; [|done]. intros [Hx|[Ha|(expiry & E & Hle)]]; [by left|right; by left|].
  destruct (Qltb (inject_Z now) expiry) eqn:El; [|left].
  - right. right. exists expiry. rewrite live_entries_get by done. by rewrite E, El.
  - apply Qle_trans with expiry; [done|]. apply Qnot_lt_le. intros Hlt%Qltb_lt. congruence.
Qed.

(** What a process remembers is no newer than the file, and the token is dead in
    it when it is the file. *)
Record good_memory (token : string) (t : Z) (v : version) (s : Sessions) : Prop := {
  gm_keys : NoDup (om_keys (revoked s));
  gm_old : forall id, revocationStamp s = Seen id -> (id <= f_id v)%nat;
  gm_dead : revocationStamp s = Seen (f_id v) -> dead token t (revoked s) (validAfter s) }.

Lemma parse_revocations_keys now v entries after : parse_revocations now v = Some (entries, after) -> NoDup (om_keys entries).
Proof.
  destruct v as [| | | | |f]; try done. unfold parse_revocations. destruct (field "validAfter" f) as [a|]; [|done]. destruct (field "revoked" f) as [[| | | |l|]|]; try done.
  destruct (match a with JNull => Some None | JNum q => Some (Some q) | _ => None end); [|done]. destruct (mapM parse_revoked l) as [es|]; [|done]. destruct (_ <? _); [done|]. intros [= <- _].
  apply (live_entries_keys now es []). constructor.
Qed.

Lemma reload_good token t v io now s s' : c_revocationsPath cfg = true -> t <= now -> file_dead token t v ->
  NoDup (om_keys (revoked s)) -> (forall id, revocationStamp s = Seen id -> (id <= f_id v)%nat) -> (revocationStamp s = Seen (f_id v) -> dead token t (revoked s) (validAfter s)) ->
  reloadRevocations cfg io (Some v) now s = Some s' ->
  good_memory token now v s' /\ revocationStamp s' = Seen (f_id v).
Proof.
  intros Hp Ht Hf Hnd Hold Hdead. unfold reloadRevocations. rewrite Hp. cbn [negb]. destruct io; [|done]. cbn [negb]. case_bool_decide as Es.
  - intros [= <-]. split; [|done]. split; [done|done|]. intros _. eapply dead_mono; [exact Ht|by apply Hdead].
  - destruct (f_content v ≫= parse_revocations now) as [[entries after]|] eqn:Ec; [|done]. intros [= <-]. split; [|done].
    split; cbn; [|intros id [= <-]; lia|intros _; by eapply Hf]. destruct (f_content v); [|done]. by eapply parse_revocations_keys.
Qed.

Lemma detail_good token t v io now other s : c_revocationsPath cfg = true -> t <= now -> file_dead token t v -> good_memory token t v s ->
  let r := detail cfg io (Some v) other now s in
  good_memory token now v r.2 /\ (r.1 <> None -> revocationStamp r.2 = Seen (f_id v)) /\ (other = token -> r.1 = None) /\
  (forall e x, r.1 = Some (e, x) -> exists c, claims cfg other = Some (e, x, c)).
Proof.
  intros Hp Ht Hf [Hnd Hold Hdead]. unfold detail.
  assert (good_memory token now v s) as Hsame by (split; [done|done|]; intros E; eapply dead_mono; [exact Ht|by apply Hdead]).
  destruct (_ || _); [done|]. destruct (reloadRevocations _ _ _ _ _) as [s'|] eqn:Er; [|done]. cbn.
  destruct (reload_good token t v io now s s' Hp Ht Hf Hnd Hold Hdead Er) as [Hg Hst]. split_and!; [done|done| |].
  - intros ->. apply judge_dead. by apply (gm_dead _ _ _ _ Hg).
  - intros e x Hj. apply judge_live in Hj as (c & Hc & _). by exists c.
Qed.

(** What a process remembers is no newer than the file. *)
Definition fits (d : disk) (s : Sessions) : Prop :=
  NoDup (om_keys (revoked s)) /\ forall id, revocationStamp s = Seen id -> exists v, d = Some v /\ (id <= f_id v)%nat.
Definition newer (d d' : disk) : Prop := forall v, d = Some v -> exists v', d' = Some v' /\ (f_id v <= f_id v')%nat.

Lemma fits_newer d d' s : newer d d' -> fits d s -> fits d' s.
Proof. intros Hn [Hnd Hs]. split; [done|]. intros id E. destruct (Hs id E) as (v & Hv & Hle). destruct (Hn v Hv) as (v' & Hv' & Hle'). exists v'. split; [done|lia]. Qed.

Lemma newer_refl d : newer d d.
Proof. intros v E. by exists v. Qed.

Lemma write_newer value o d : newer d (writePrivateJson value o d).1.
Proof. intros v ->. destruct o; cbn; eexists; (split; [done|cbn; lia]). Qed.

Lemma reload_fits io d now s s' : fits d s -> reloadRevocations cfg io d now s = Some s' -> fits d s'.
Proof.
  intros Hf. unfold reloadRevocations. destruct (c_revocationsPath cfg); cbn [negb]; [|by intros [= <-]]. destruct io; [|done]. cbn [negb]. destruct d as [v|].
  - case_bool_decide; [by intros [= <-]|]. destruct (f_content v ≫= parse_revocations now) as [[entries after]|] eqn:Ec; [|done]. intros [= <-].
    split; cbn; [destruct (f_content v); [|done]; by eapply parse_revocations_keys|]. intros id [= <-]. exists v. split; [done|lia].
  - case_bool_decide; [by intros [= <-]|done].
Qed.

Lemma detail_fits io d other now s : fits d s -> fits d (detail cfg io d other now s).2.
Proof.
  intros Hf. unfold detail. destruct (_ || _); [done|]. destruct (reloadRevocations _ _ _ _ _) as [s'|] eqn:Er; [|done]. cbn. by eapply reload_fits.
Qed.

Lemma save_fits o d s : fits d s -> let '(s', d', _) := saveRevocations cfg o d s in newer d d' /\ fits d' s'.
Proof.
  intros Hf. unfold saveRevocations. destruct (c_revocationsPath cfg); cbn [negb]; [|split; [apply newer_refl|done]].
  pose proof (write_newer (revocations_json s) o d) as Hn. destruct (writePrivateJson _ _ _) as [d' r]. cbn in Hn.
  destruct r; (split; [done|]); [|by eapply fits_newer]. destruct Hf as [Hnd Hs]. split; [done|]. intros id E. done.
Qed.

Lemma forget_fits d other x now s : fits d s -> fits d (forget cfg other x now s).
Proof. intros [Hnd Hs]. split; [by apply forget_keys|]. intros id E. apply Hs. unfold forget in E. by destruct (_ <=? _). Qed.

Lemma revokeUnlocked_fits io o other now s d : fits d s ->
  let '((s', d'), _) := revokeUnlocked cfg io o other now (s, d) in newer d d' /\ fits d' s'.
Proof.
  intros Hf. unfold revokeUnlocked. pose proof (detail_fits io d other now s Hf) as Hd. destruct (detail cfg io d other now s) as [[[e x]|] s1]; cbn in Hd; [|split; [apply newer_refl|done]].
  pose proof (save_fits o d _ (forget_fits d other x now s1 Hd)) as Hs. by destruct (saveRevocations _ _ _ _) as [[s2 d2] r].
Qed.

Lemma unstamp_fits d s : fits d s -> fits d (if bool_decide (revocationStamp s = Unseen) then s else with_stamp Outdated s).
Proof. intros Hf. case_bool_decide; [done|]. destruct Hf as [Hnd _]. by split. Qed.

Lemma revoke_fits busy io o other now s d : fits d s ->
  let '((s', d'), _) := revoke cfg busy io o other now (s, d) in newer d d' /\ fits d' s'.
Proof.
  intros Hf. unfold revoke, withPrivateFileLock. destruct (c_revocationsPath cfg); [|by apply revokeUnlocked_fits].
  destruct busy; [split; [apply newer_refl|done]|]. by apply revokeUnlocked_fits, unstamp_fits.
Qed.

Definition coherent (w : Site) : Prop := map_Forall (fun _ s => fits (s_disk w) s) (procs w).

Lemma site_step_coherent w ev : coherent w -> coherent (site_step cfg w ev).1.
Proof.
  intros Hw. destruct ev as [[i|i|i token|i token busy o] io now]; unfold site_step; cbn [ev_op ev_io ev_now].
  - destruct (newSessions _ _ _ _) as [s|] eqn:E; cbn; [|by apply map_Forall_delete]. apply map_Forall_insert_2; [|done]. eapply reload_fits, E.
    split; cbn; [constructor|done].
  - by apply map_Forall_delete.
  - destruct (procs w !! i) as [s|] eqn:E; [|done]. unfold read. pose proof (detail_fits io (s_disk w) token now s (Hw i s E)) as Hd.
    destruct (detail _ _ _ _ _ _) as [found s']. by apply map_Forall_insert_2.
  - destruct (procs w !! i) as [s|] eqn:E; [|done]. pose proof (revoke_fits busy io o token now s (s_disk w) (Hw i s E)) as Hr.
    destruct (revoke _ _ _ _ _ _ _) as [[s' d'] r]. destruct Hr as [Hn Hf]. apply map_Forall_insert_2; [done|].
    eapply map_Forall_impl; [exact Hw|]. intros j s0. by apply fits_newer.
Qed.

Lemma site_run_coherent evs : forall w, coherent w -> coherent (site_run cfg w evs).
Proof. induction evs as [|ev evs IH]; intros w Hw; [done|]. by apply IH, site_step_coherent. Qed.

(** The state of the site from the moment a token was revoked. *)
Definition revoked_everywhere (token : string) (t : Z) (w : Site) : Prop :=
  exists v, s_disk w = Some v /\ file_dead token t v /\ map_Forall (fun _ s => good_memory token t v s) (procs w).

Lemma revoked_mono token t t' w : t <= t' -> revoked_everywhere token t w -> revoked_everywhere token t' w.
Proof.
  intros Ht (v & Hd & Hf & Hp). exists v. split_and!; [done|by eapply file_dead_mono|]. eapply map_Forall_impl; [exact Hp|].
  intros i s [H1 H2 H3]. split; [done|done|]. intros E. eapply dead_mono; [exact Ht|by apply H3].
Qed.

(** A later version of the file, and the memories of the others. *)
Lemma older_good token t v v' s : (f_id v < f_id v')%nat -> good_memory token t v s -> good_memory token t v' s.
Proof. intros Hlt [H1 H2 H3]. split; [done|intros id E; specialize (H2 id E); lia|]. intros E. specialize (H2 _ E). lia. Qed.

(** What writing does to a token that is dead in the memory written. *)
Lemma save_dead token t o v s : c_revocationsPath cfg = true -> NoDup (om_keys (revoked s)) -> (revocationStamp s = Seen (f_id v)) ->
  dead token t (revoked s) (validAfter s) ->
  let '(s', d', r) := saveRevocations cfg o (Some v) s in
  exists v', d' = Some v' /\ (v' = v \/ (f_id v < f_id v')%nat) /\ (v' = v /\ o = Unwritten \/ file_dead token t v') /\ good_memory token t v' s' /\ (r = Ok tt -> o = Written).
Proof.
  intros Hp Hnd Hst Hd. unfold saveRevocations. rewrite Hp. cbn [negb]. pose proof (written_dead token t s (S (f_id v)) (json_bytes (revocations_json s)) Hnd Hd) as Hw.
  destruct o; cbn; (eexists; split; [done|]).
  - split_and!; [right; cbn; lia|by right| |done]. split; [done| |]; cbn; done.
  - split_and!; [by left|by left| |done]. split; [done| |done]. rewrite Hst. intros id [= <-]. lia.
  - split_and!; [right; cbn; lia|by right| |done]. split; [done| |]; rewrite Hst; cbn; [intros id [= <-]; lia|]. intros [= E]. lia.
Qed.

Lemma revoke_good token t v busy io o now other s : c_revocationsPath cfg = true -> t <= now -> file_dead token t v -> good_memory token t v s ->
  (forall e x c, claims cfg token = Some (e, x, c) -> (x <= inject_Z (now + ttl))%Q) ->
  let '((s', d'), _) := revoke cfg busy io o other now (s, Some v) in
  exists v', d' = Some v' /\ (v' = v \/ (f_id v < f_id v')%nat) /\ file_dead token now v' /\ good_memory token now v' s'.
Proof.
  intros Hp Ht Hf Hg Hmax. unfold revoke, withPrivateFileLock. rewrite Hp.
  assert (forall s, good_memory token t v s -> good_memory token now v s) as Hlater.
  { intros s0 [H1 H2 H3]. split; [done|done|]. intros E. eapply dead_mono; [exact Ht|by apply H3]. }
  pose proof (file_dead_mono token t now v Ht Hf) as Hf'. destruct busy; [exists v; split_and!; [done|by left|done|by apply Hlater]|]. cbn [fst snd].
  assert (good_memory token t v (if bool_decide (revocationStamp s = Unseen) then s else with_stamp Outdated s)) as Hg'.
  { case_bool_decide; [done|]. destruct Hg as [H1 H2 H3]. by split. }
  revert Hg'. generalize (if bool_decide (revocationStamp s = Unseen) then s else with_stamp Outdated s). clear Hg s. intros s Hg.
  unfold revokeUnlocked. pose proof (detail_good token t v io now other s Hp Ht Hf Hg) as Hd. destruct (detail cfg io (Some v) other now s) as [found s1].
  cbn in Hd. destruct Hd as (Hg1 & Hst & _ & Hc). destruct found as [[e x]|]; [|exists v; split_and!; [done|by left|done|done]].
  specialize (Hst ltac:(done)). destruct (Hc e x eq_refl) as (c & Hother).
  assert (dead token now (revoked (forget cfg other x now s1)) (validAfter (forget cfg other x now s1))) as Hdead.
  { apply forget_dead; [apply Hg1|done| |by apply (gm_dead _ _ _ _ Hg1)]. intros e' x' c' E. congruence. }
  assert (revocationStamp (forget cfg other x now s1) = Seen (f_id v)) as Hst' by (unfold forget; by destruct (_ <=? _)).
  pose proof (save_dead token now o v _ Hp (forget_keys other x now s1 (gm_keys _ _ _ _ Hg1)) Hst' Hdead) as Hs.
  destruct (saveRevocations _ _ _ _) as [[s2 d2] r]. destruct Hs as (v' & -> & Hv & Hfd & Hgm & _). exists v'. split_and!; [done|done| |done].
  by destruct Hfd as [[-> _]|].
Qed.

Lemma site_step_good token t w ev : c_revocationsPath cfg = true -> t <= ev_now ev ->
  (forall e x c, claims cfg token = Some (e, x, c) -> (x <= inject_Z (t + ttl))%Q) ->
  revoked_everywhere token t w -> revoked_everywhere token (ev_now ev) (site_step cfg w ev).1.
Proof.
  intros Hp Ht Hmax Hw. pose proof (revoked_mono _ _ _ _ Ht Hw) as (v & Hd & Hf & Hgood).
  assert (forall e x c, claims cfg token = Some (e, x, c) -> (x <= inject_Z (ev_now ev + ttl))%Q) as Hmax'.
  { intros e x c E. eapply Qle_trans; [by eapply Hmax|]. rewrite <- Zle_Qle. lia. }
  destruct ev as [[i|i|i other|i other busy o] io now]; unfold site_step; cbn [ev_op ev_io ev_now] in *.
  - rewrite Hd. destruct (newSessions _ _ _ _) as [s|] eqn:E; cbn; exists v; (split_and!; [done|done|]); [|by apply map_Forall_delete].
    apply map_Forall_insert_2; [|done]. apply (reload_good token now v) in E as [Hg _]; try done. constructor.
  - exists v. split_and!; [done|done|]. by apply map_Forall_delete.
  - destruct (procs w !! i) as [s|] eqn:E; [|by exists v]. unfold read. rewrite Hd.
    pose proof (detail_good token now v io now other s Hp (Z.le_refl now) Hf (Hgood i s E)) as Hg. destruct (detail _ _ _ _ _ _) as [found s'].
    exists v. split_and!; [done|done|]. apply map_Forall_insert_2; [apply Hg|done].
  - destruct (procs w !! i) as [s|] eqn:E; [|by exists v]. rewrite Hd.
    pose proof (revoke_good token now v busy io o now other s Hp (Z.le_refl now) Hf (Hgood i s E) Hmax') as Hr. destruct (revoke _ _ _ _ _ _ _) as [[s' d'] r].
    destruct Hr as (v' & -> & Hv & Hf' & Hg). exists v'. split_and!; [done|done|]. apply map_Forall_insert_2; [done|].
    destruct Hv as [->|Hlt]; [done|]. eapply map_Forall_impl; [exact Hgood|]. intros j s0. by apply older_good.
Qed.

Lemma site_run_good token t evs : c_revocationsPath cfg = true -> (forall e x c, claims cfg token = Some (e, x, c) -> (x <= inject_Z (t + ttl))%Q) ->
  forall w t0, t <= t0 -> Sorted Z.le (t0 :: map ev_now evs) -> revoked_everywhere token t0 w ->
  exists t1, t0 <= t1 /\ Forall (fun ev => ev_now ev <= t1) evs /\ revoked_everywhere token t1 (site_run cfg w evs) /\ (forall n, Sorted Z.le (t0 :: map ev_now evs ++ [n]) -> t1 <= n).
Proof.
  intros Hp Hmax. induction evs as [|ev evs IH]; intros w t0 Ht Hs Hw; cbn [map app] in *.
  - exists t0. split_and!; [lia|constructor|done|]. intros n Hn. inversion Hn as [|? ? ? Hh]; subst. by inversion Hh.
  - inversion Hs as [|? ? Hs' Hh]; subst. inversion Hh as [|? ? Hle]; subst. destruct (IH (site_step cfg w ev).1 (ev_now ev)) as (t1 & H1 & H2 & H3 & H4); [lia|done| |].
    { apply site_step_good with t0; [done|done| |done]. intros e x c E. eapply Qle_trans; [by eapply Hmax|]. rewrite <- Zle_Qle. lia. }
    exists t1. split_and!; [lia|by constructor|done|]. intros n Hn. apply H4. by inversion Hn.
Qed.

(** Revoking a live token, from a state the site can be in. *)
Lemma revoke_establishes token w i io busy o now : c_revocationsPath cfg = true -> coherent w ->
  (site_step cfg w {| ev_op := Revoke i token busy o; ev_io := io; ev_now := now |}).2 = Ended (Ok true) ->
  revoked_everywhere token now (site_step cfg w {| ev_op := Revoke i token busy o; ev_io := io; ev_now := now |}).1 /\
  (forall e x c, claims cfg token = Some (e, x, c) -> (x <= inject_Z (now + ttl))%Q).
Proof.
  intros Hp Hw. unfold site_step. cbn [ev_op ev_io ev_now]. destruct (procs w !! i) as [s|] eqn:E; [|done]. pose proof (Hw i s E) as Hfit.
  unfold revoke, withPrivateFileLock. rewrite Hp. destruct busy; [done|]. cbn [fst snd]. apply unstamp_fits in Hfit.
  revert Hfit. generalize (if bool_decide (revocationStamp s = Unseen) then s else with_stamp Outdated s). clear E s. intros s Hfit.
  unfold revokeUnlocked. pose proof (detail_fits io (s_disk w) token now s Hfit) as Hfit1. destruct (detail cfg io (s_disk w) token now s) as [found s1] eqn:Ed.
  cbn in Hfit1. destruct found as [[e x]|]; [|done].
  assert (exists c, claims cfg token = Some (e, x, c) /\ (x <= inject_Z (now + ttl))%Q) as (c & Hc & Hx).
  { unfold detail in Ed. destruct (_ || _); [done|]. destruct (reloadRevocations _ _ _ _ _); [|done]. injection Ed as Ej _. apply judge_live in Ej as (c & ? & ? & ?). by exists c. }
  destruct (saveRevocations _ _ _ _) as [[s2 d2] r] eqn:Es. destruct r as [[]|]; [|done]. intros _. split; [|intros e' x' c' E'; rewrite Hc in E'; by injection E' as <- <- <-].
  pose proof (forget_itself token x e c now s1 Hc) as Hdead. pose proof (forget_keys token x now s1 (proj1 Hfit1)) as Hkeys.
  unfold saveRevocations in Es. rewrite Hp in Es. cbn [negb] in Es. destruct o; try done. cbn in Es. injection Es as <- <-.
  eexists. split; [done|]. cbn [procs]. split; [by apply written_dead|]. apply map_Forall_insert_2; [split; [done|done|done]|].
  eapply map_Forall_impl; [exact Hw|]. intros j s0 [H1 H2]. split; [done| |].
  - intros id E. destruct (H2 id E) as (v & Hv & Hle). rewrite Hv. cbn. lia.
  - intros E. destruct (H2 _ E) as (v & Hv & Hle). rewrite Hv in Hle. cbn in Hle. lia.
Qed.

(** C12: signing out is final, for every process of the site, if two texts
    never have the same HMAC and the clock does not go back. Once [revoke] has written that a live token is out, no process that shares the file ever
    takes that token for a session again: not after other tokens are revoked, by
    any process and whether or not the writing succeeds, not when the list of
    revoked tokens overflows and is thrown away, not when its entries expire, not
    in a process that is started later, and not while the file cannot be looked
    at. *)
Theorem logout_is_final d before i token io busy o now later j io' now' who : c_revocationsPath cfg = true ->
  let w := site_run cfg (site_init d) before in
  let logout := {| ev_op := Revoke i token busy o; ev_io := io; ev_now := now |} in
  (site_step cfg w logout).2 = Ended (Ok true) -> Sorted Z.le (now :: map ev_now later ++ [now']) ->
  (site_step cfg (site_run cfg (site_step cfg w logout).1 later) {| ev_op := Read j token; ev_io := io'; ev_now := now' |}).2 <> Known (Some who).
Proof.
  intros Hp w logout Hr Hs. assert (coherent w) as Hw by (apply site_run_coherent, map_Forall_empty).
  destruct (revoke_establishes _ _ _ _ _ _ _ Hp Hw Hr) as [Hev Hmax]. fold logout in Hev.
  assert (Sorted Z.le (now :: map ev_now later)) as Hs'.
  { clear -Hs. revert Hs. generalize now. induction later as [|ev later IH]; intros n Hs; [by repeat constructor|]. cbn in *. inversion Hs as [|? ? H1 H2]; subst.
    constructor; [by apply IH|]. inversion H2; subst. by constructor. }
  destruct (site_run_good token now later Hp Hmax _ now (Z.le_refl now) Hs' Hev) as (t1 & Hle & _ & (v & Hd & Hf & Hg) & Hlast). specialize (Hlast now' Hs).
  set (w' := site_run cfg (site_step cfg w logout).1 later) in *. clearbody w'. unfold site_step. cbn [ev_op ev_io ev_now]. destruct (procs w' !! j) as [s|] eqn:E; [|done]. unfold read.
  rewrite Hd. pose proof (detail_good token t1 v io' now' token s Hp Hlast Hf (Hg j s E)) as Hdg. destruct (detail _ _ _ _ _ _) as [found s']. cbn in *.
  destruct Hdg as (_ & _ & Hnone & _). rewrite (Hnone eq_refl). by intros [=].
Qed.
End revocation.

(** ** A session that was issued is read back *)

(** a session that was issued reads back as the account it was issued
    for, in any process, from the moment it was issued until it expires, as long
    as the file of revocations can be read and neither names the token nor ends
    every session of before, and the account is still at the version it was
    issued for. *)
Theorem issued_session_reads_back {T : Tokens} {L : TokenLaws} cfg email nonce now token io d now' s s' :
  issue cfg email nonce now = Ok token -> email <> "" -> js_length email <= 254 -> js_length token <= 2048 ->
  now <= now' < now + c_ttlMs cfg ->
  reloadRevocations cfg io d now' s = Some s' -> om_get (mac (c_secret cfg) token) (revoked s') = None -> above (inject_Z now) (validAfter s') = true ->
  (read cfg io d token now' s).1 = Some email.
Proof.
  intros Hi Hne Hlen Htok Hnow Hr Hrev Hafter. unfold issue in Hi. set (version := c_accountVersion cfg ≫= fun f => f email) in *.
  set (v := JObj _) in *.
  assert (token = body_text v +:+ "." +:+ mac (c_secret cfg) (body_text v) /\
          match c_accountVersion cfg with Some f => exists c, f email = Some c /\ version = Some c | None => version = None end) as [-> Hv].
  { unfold version in *. destruct (c_accountVersion cfg) as [f|]; cbn [mbind option_bind] in *; [|split; [by injection Hi as <-|done]].
    destruct (f email) as [c|]; [|done]. destruct c; [done|]. split; [by injection Hi as <-|by eexists]. }
  clear Hi. set (token := body_text v +:+ _) in *.
  assert (claims cfg token = Some (email, inject_Z (now + c_ttlMs cfg), JStr <$> version)) as Hc.
  { unfold claims, token. rewrite signed_body_own. cbn [mbind option_bind]. rewrite body_json_text. unfold v. cbn [app field om_get].
    all: try exact L. by destruct version. }
  assert (token <> "") as Htne.
  { intros E. unfold claims in Hc. rewrite E in Hc. unfold signed_body, split_on in Hc. done. }
  unfold read, detail. rewrite bool_decide_eq_false_2 by done. cbn [orb]. destruct (Z.ltb_spec 2048 (js_length token)); [lia|]. rewrite Hr.
  unfold judge. rewrite Hc.
  assert (Qle_bool (inject_Z (now + c_ttlMs cfg)) (inject_Z now') = false) as ->.
  { apply not_true_iff_false. rewrite Qle_bool_iff, <- Zle_Qle. lia. }
  assert (Qltb (inject_Z (now' + c_ttlMs cfg)) (inject_Z (now + c_ttlMs cfg)) = false) as ->.
  { apply not_true_iff_false. rewrite Qltb_lt, <- Zlt_Qlt. lia. }
  rewrite bool_decide_eq_false_2 by done. destruct (Z.ltb_spec 254 (js_length email)); [lia|]. unfold om_has. rewrite Hrev.
  assert (above (inject_Z (now + c_ttlMs cfg) - inject_Z (c_ttlMs cfg)) (validAfter s') = true) as ->.
  { unfold above in *. destruct (validAfter s') as [a|]; [|done]. rewrite Qltb_lt in *. rewrite inject_Z_plus. lra. }
  cbn [orb negb]. destruct (c_accountVersion cfg) as [f|]; [|done]. destruct Hv as (c & Hf & Hversion). rewrite Hversion. cbn [fmap option_fmap option_map].
  rewrite Hf. by rewrite bool_decide_eq_true_2.
Qed.

(** ** Counting attempts *)

(** @web/auth.ts 299-302 RateLimiter *)
Record RateLimiter := { r_max : Z; r_windowMs : Z; r_hits : list (string * (Z * Z)) }.

Definition HITS_MAX : Z := 10000.
Definition with_hits (hits : list (string * (Z * Z))) (r : RateLimiter) : RateLimiter := {| r_max := r_max r; r_windowMs := r_windowMs r; r_hits := hits |}.

(** @web/auth.ts 304-318 allow *)
Definition allow (key : string) (now : Z) (r : RateLimiter) : bool * RateLimiter :=
  let fresh hits := (true, with_hits (om_set key (1, now + r_windowMs r) hits) r) in
  match om_get key (r_hits r) with
  | None =>
      if HITS_MAX <=? Z.of_nat (length (r_hits r)) then
        let hits := List.filter (fun p => negb (p.2.2 <=? now)) (r_hits r) in
        if HITS_MAX <=? Z.of_nat (length hits) then (false, with_hits hits r) else fresh hits
      else fresh (r_hits r)
  | Some (n, reset) =>
      if reset <=? now then fresh (r_hits r)
      else if r_max r <=? n then (false, r)
      else (true, with_hits (om_set key (n + 1, reset) (r_hits r)) r)
  end.

(** The attempts of [key] that were let through. *)
Fixpoint let_through (key : string) (attempts : list (string * Z)) (r : RateLimiter) : Z :=
  match attempts with
  | [] => 0
  | (k, now) :: attempts =>
      let '(ok, r) := allow k now r in
      (if ok && bool_decide (k = key) then 1 else 0) + let_through key attempts r
  end.

(** What is left for [key] until [last]. *)
Definition credit (key : string) (now last : Z) (r : RateLimiter) : Z :=
  match om_get key (r_hits r) with
  | Some (n, reset) => if reset <=? now then r_max r else if last <? reset then r_max r - n else (r_max r - n) + r_max r
  | None => r_max r
  end.

Definition counts_ok (r : RateLimiter) : Prop := forall k n reset, om_get k (r_hits r) = Some (n, reset) -> 1 <= n <= r_max r.

Lemma credit_mono key now now' last r : now <= now' <= last -> 0 <= r_max r -> counts_ok r -> credit key now' last r <= credit key now last r.
Proof.
  intros Hn Hm Hc. unfold credit. destruct (om_get key (r_hits r)) as [[n reset]|] eqn:E; [|lia]. specialize (Hc _ _ _ E).
  destruct (Z.leb_spec reset now), (Z.leb_spec reset now'), (Z.ltb_spec last reset); lia.
Qed.

Lemma counts_ok_set r k n reset hits : (forall k n reset, om_get k hits = Some (n, reset) -> 1 <= n <= r_max r) -> 1 <= n <= r_max r ->
  counts_ok (with_hits (om_set k (n, reset) hits) r).
Proof. intros Hh Hn k' n' reset'. cbn [r_hits with_hits r_max]. rewrite om_get_set. case_bool_decide; [by intros [= <- <-]|apply Hh]. Qed.

(** The entry a new window starts with pays for the attempt that starts it. *)
Lemma fresh_credit key k now last r hits : 1 <= r_max r -> now <= last < now + r_windowMs r -> NoDup (om_keys hits) ->
  (forall k n reset, om_get k hits = Some (n, reset) -> 1 <= n <= r_max r) ->
  (k <> key -> credit key now last (with_hits hits r) <= credit key now last r) -> (k = key -> r_max r <= credit key now last r) ->
  let r' := with_hits (om_set k (1, now + r_windowMs r) hits) r in
  counts_ok r' /\ NoDup (om_keys (r_hits r')) /\ (if bool_decide (k = key) then 1 else 0) + credit key now last r' <= credit key now last r.
Proof.
  intros Hm Hlast Hnd Hc Hother Hsame r'. split_and!; [by apply counts_ok_set|by apply om_set_nodup|]. unfold r'. case_bool_decide as E.
  - subst k. specialize (Hsame eq_refl). unfold credit at 1. cbn [r_hits with_hits r_max]. rewrite om_get_set_eq.
    destruct (Z.leb_spec (now + r_windowMs r) now); destruct (Z.ltb_spec last (now + r_windowMs r)); lia.
  - specialize (Hother E). unfold credit in *. cbn [r_hits with_hits r_max] in *. rewrite om_get_set_ne by congruence. lia.
Qed.

(** One attempt: what is left of the credit pays for it. *)
Lemma allow_credit key k now last r : 1 <= r_max r -> now <= last < now + r_windowMs r -> counts_ok r -> NoDup (om_keys (r_hits r)) ->
  let '(ok, r') := allow k now r in
  r_max r' = r_max r /\ r_windowMs r' = r_windowMs r /\ counts_ok r' /\ NoDup (om_keys (r_hits r')) /\
  (if ok && bool_decide (k = key) then 1 else 0) + credit key now last r' <= credit key now last r.
Proof.
  intros Hm Hlast Hc Hnd. unfold allow. set (purged := List.filter _ (r_hits r)).
  assert (NoDup (om_keys purged)) as Hndp by by apply om_filter_nodup.
  assert (forall k n reset, om_get k purged = Some (n, reset) -> 1 <= n <= r_max r) as Hcp.
  { intros k' n reset. unfold purged. rewrite (om_get_filter_val (fun h => negb (h.2 <=? now))) by done. destruct (om_get k' (r_hits r)) as [[n' reset']|] eqn:E; [|done]. cbn. destruct (_ <=? _); [done|].
    intros [= -> ->]. by eapply Hc. }
  assert (credit key now last (with_hits purged r) <= credit key now last r) as Hpc.
  { unfold credit, purged. cbn [r_hits with_hits r_max]. rewrite (om_get_filter_val (fun h => negb (h.2 <=? now))) by done. destruct (om_get key (r_hits r)) as [[n reset]|] eqn:E; [|lia]. cbn [snd].
    destruct (reset <=? now) eqn:El; cbn [negb]; [|rewrite El]; lia. }
  destruct (om_get k (r_hits r)) as [[n reset]|] eqn:Ek.
  - destruct (Z.leb_spec reset now) as [Hle|Hgt].
    + split_and!; [done|done|..]; apply (fresh_credit key k now last r (r_hits r)); try done; try lia; intros Hk; try (unfold credit; cbn [r_hits with_hits r_max]; lia);
        subst k; unfold credit; rewrite Ek; destruct (Z.leb_spec reset now); lia.
    + destruct (Z.leb_spec (r_max r) n); [split_and!; [done|done|done|done|cbn [andb]; lia]|]. specialize (Hc _ _ _ Ek) as Hn.
      split_and!; [done|done|apply counts_ok_set; [apply Hc|lia]|by apply om_set_nodup|]. unfold credit. cbn [r_hits with_hits r_max andb]. rewrite om_get_set. case_bool_decide as E.
      * subst key. rewrite bool_decide_eq_true_2 by done. rewrite Ek. destruct (Z.leb_spec reset now), (Z.ltb_spec last reset); lia.
      * rewrite bool_decide_eq_false_2 by done. lia.
  - assert (k = key -> r_max r <= credit key now last r) as Hkey by (intros ->; unfold credit; rewrite Ek; lia).
    destruct (HITS_MAX <=? _); [destruct (HITS_MAX <=? _); [split_and!; [done|done|done|done|cbn [andb]; lia]|]|]; (split_and!; [done|done|..]; apply (fresh_credit key k now last r); try done; lia).
Qed.

Lemma let_through_credit key last attempts : forall now r, 1 <= r_max r -> last < now + r_windowMs r -> counts_ok r -> NoDup (om_keys (r_hits r)) ->
  Sorted Z.le (now :: map snd attempts ++ [last]) -> let_through key attempts r <= credit key now last r.
Proof.
  induction attempts as [|[k t] attempts IH]; intros now r Hm Hlast Hc Hnd Hs; cbn [let_through].
  - unfold credit. destruct (om_get key (r_hits r)) as [[n reset]|] eqn:E; [|lia]. specialize (Hc _ _ _ E). destruct (reset <=? now), (last <? reset); lia.
  - cbn [map app snd] in Hs. inversion Hs as [|? ? Hs' Hh]; subst. inversion Hh as [|? ? Hle]; subst.
    assert (t <= last) as Ht.
    { apply Sorted_extends in Hs'; [|intros x y z; lia]. rewrite Forall_forall in Hs'. apply Hs'. apply elem_of_app. right. by left. }
    pose proof (allow_credit key k t last r Hm ltac:(lia) Hc Hnd) as Ha. destruct (allow k t r) as [ok r']. destruct Ha as (Em & Ew & Hc' & Hnd' & Hcr).
    specialize (IH t r' ltac:(lia) ltac:(lia) Hc' Hnd' Hs'). pose proof (credit_mono key now t last r ltac:(lia) ltac:(lia) Hc). lia.
Qed.

(** no address gets more attempts at signing in than it is allowed: in
    any stretch of time no longer than the window, whatever the other addresses
    do and whatever was counted before, at most twice the limit are let through
    for one key (the window is a fixed one, so the end of one and the start of the
    next may fall together), and only the limit when no window of the key was
    open. A flood of new addresses makes the limiter refuse; it never makes it
    forget an address that is blocked. *)
Theorem attempts_are_limited key attempts first last r : 1 <= r_max r -> last < first + r_windowMs r -> counts_ok r -> NoDup (om_keys (r_hits r)) ->
  Sorted Z.le (first :: map snd attempts ++ [last]) ->
  let_through key attempts r <= 2 * r_max r /\
  (om_get key (r_hits r) = None -> let_through key attempts r <= r_max r) /\
  (forall n reset, om_get key (r_hits r) = Some (n, reset) -> n = r_max r -> last < reset -> let_through key attempts r = 0).
Proof.
  intros Hm Hlast Hc Hnd Hs. pose proof (let_through_credit key last attempts first r Hm Hlast Hc Hnd Hs) as H. unfold credit in H.
  assert (0 <= let_through key attempts r) as Hpos.
  { clear. revert r. induction attempts as [|[k t] attempts IH]; intros r; cbn [let_through]; [lia|]. destruct (allow k t r) as [ok r']. specialize (IH r'). destruct (_ && _); lia. }
  assert (first <= last) as Hfl.
  { apply Sorted_extends in Hs; [|intros x y z; lia]. rewrite Forall_forall in Hs. apply Hs. apply elem_of_app. right. by left. }
  destruct (om_get key (r_hits r)) as [[n reset]|] eqn:E.
  - specialize (Hc _ _ _ E). split_and!; [destruct (reset <=? first), (last <? reset); lia|done|]. intros n' reset' [= <- <-] -> Hr.
    destruct (Z.leb_spec reset first), (Z.ltb_spec last reset); lia.
  - split_and!; [lia|by intros _|done].
Qed.

(** ** The laws of tokens can hold *)

Fixpoint json_tree (v : json) : gen_tree (string + Q + bool) :=
  match v with
  | JNull => GenNode 0 []
  | JBool b => GenLeaf (inr b)
  | JNum q => GenLeaf (inl (inr q))
  | JStr s => GenLeaf (inl (inl s))
  | JArr l => GenNode 1 (map json_tree l)
  | JObj f => GenNode 2 (flat_map (fun p => [GenLeaf (inl (inl p.1)); json_tree p.2]) f)
  end.
Fixpoint tree_json (t : gen_tree (string + Q + bool)) : json :=
  match t with
  | GenLeaf (inr b) => JBool b
  | GenLeaf (inl (inr q)) => JNum q
  | GenLeaf (inl (inl s)) => JStr s
  | GenNode 0 _ => JNull
  | GenNode 1 l => JArr (map tree_json l)
  | GenNode _ l =>
      JObj ((fix fields (l : list (gen_tree (string + Q + bool))) : list (string * json) :=
               match l with GenLeaf (inl (inl k)) :: v :: l => (k, tree_json v) :: fields l | _ => [] end) l)
  end.

Lemma tree_json_tree : forall v, tree_json (json_tree v) = v.
Proof.
  fix IH 1. intros [| | | |l|f]; cbn; try done; f_equal.
  - induction l as [|v l IHl]; cbn; [done|]. by rewrite IH, IHl.
  - induction f as [|[k v] f IHf]; cbn; [done|]. by rewrite IH, IHf.
Qed.

#[export] Instance Q_eq_dec : EqDecision Q.
Proof. solve_decision. Defined.
#[export] Instance Q_countable : Countable Q.
Proof. refine (inj_countable' (fun q => (Qnum q, Qden q)) (fun p => Qmake p.1 p.2) _). by intros []. Defined.

Fixpoint bits (p : positive) : list Ascii.ascii :=
  match p with xH => [] | xO p => Ascii.ascii_of_N 97 :: bits p | xI p => Ascii.ascii_of_N 98 :: bits p end.
Fixpoint of_bits (l : list Ascii.ascii) : positive :=
  match l with [] => xH | c :: l => if bool_decide (c = Ascii.ascii_of_N 97) then xO (of_bits l) else xI (of_bits l) end.

Lemma of_bits_bits p : of_bits (bits p) = p.
Proof. induction p as [p IH|p IH|]; cbn; [by rewrite IH|by rewrite IH|done]. Qed.

Definition plain_tokens : Tokens :=
  {| mac _ _ := "AAAAAAAAAAAAAAAAAAAAAAAAAAAAAAAAAAAAAAAAAAA";
     body_text v := String.string_of_list_ascii (Ascii.ascii_of_N 99 :: bits (encode (json_tree v)));
     body_json s := tree_json <$> decode (of_bits (List.tl (chars s))) |}.

Lemma plain_token_laws : @TokenLaws plain_tokens.
Proof.
  split.
  - intros v. unfold body_json, body_text, plain_tokens, chars. rewrite String.list_ascii_of_string_of_list_ascii. cbn [List.tl]. rewrite of_bits_bits, decode_encode. cbn.
    by rewrite tree_json_tree.
  - intros v. unfold body_text, plain_tokens, chars. rewrite String.list_ascii_of_string_of_list_ascii. split; [done|]. apply not_elem_of_cons. split; [done|].
    generalize (encode (json_tree v)). intros p. induction p; cbn; [by apply not_elem_of_cons|by apply not_elem_of_cons|apply not_elem_of_nil].
  - done.
Qed.

Definition day : Z := 86400000.
Definition demo_config : Config := {| c_secret := "secret"; c_ttlMs := day; c_revocationsPath := true; c_accountVersion := None |}.

Lemma issued_session_reads_back_witness :
  exists token, @issue plain_tokens demo_config "ann" "n" 1000 = Ok token /\
    (@read plain_tokens demo_config true None token 2000 {| revoked := []; validAfter := None; revocationStamp := Unseen |}).1 = Some "ann".
Proof.
  eexists. split; [reflexivity|].
  eapply (@issued_session_reads_back plain_tokens plain_token_laws demo_config "ann" "n" 1000); [reflexivity|discriminate|vm_compute; discriminate|vm_compute; discriminate| |reflexivity|reflexivity|reflexivity].
  unfold demo_config, day. cbn [c_ttlMs]. lia.
Defined.

(** A code without collisions: the dot and the underscore are spelled out. *)
Definition spell (c : Ascii.ascii) : list Ascii.ascii :=
  if bool_decide (c = Ascii.ascii_of_N 46) then map Ascii.ascii_of_N [95; 97; 97]%N
  else if bool_decide (c = Ascii.ascii_of_N 95) then map Ascii.ascii_of_N [95; 98]%N
  else [c].
Definition demo_body : string := "aaaaaaaaaaaaaaaaaaa".
Definition demo_tokens : Tokens :=
  {| mac _ text := String.String (Ascii.ascii_of_N 120) (String.string_of_list_ascii (flat_map spell (chars text)));
     body_text _ := demo_body;
     body_json b := if bool_decide (b = demo_body) then Some (JObj [("e", JStr "ann"); ("x", JInt 100000)]) else None |}.
Definition demo_token : string := demo_body +:+ ".x" +:+ demo_body.

Lemma spell_app c d x y : spell c ++ x = spell d ++ y -> c = d /\ x = y.
Proof. unfold spell. repeat case_bool_decide; subst; cbn; intros E; try done; injection E; intros; subst; done. Qed.
Lemma spell_nonempty c x : spell c ++ x <> [].
Proof. unfold spell. by repeat case_bool_decide. Qed.

Lemma spell_inj a : forall b, flat_map spell a = flat_map spell b -> a = b.
Proof.
  induction a as [|c a IH]; intros [|d b]; cbn [flat_map]; [done| | |].
  - intros E. by apply eq_sym, spell_nonempty in E.
  - by intros E%spell_nonempty.
  - intros [-> E]%spell_app. by rewrite (IH b).
Qed.

Lemma demo_mac_inj : forall a b, @mac demo_tokens "secret" a = @mac demo_tokens "secret" b -> a = b.
Proof.
  intros a b [= E]. apply chars_inj, spell_inj. apply (f_equal String.list_ascii_of_string) in E. by rewrite !String.list_ascii_of_string_of_list_ascii in E.
Qed.

Definition at_time (now : Z) (o : op) : event := {| ev_op := o; ev_io := true; ev_now := now |}.
Definition two_processes : list event := [at_time 50000 (Start 0); at_time 50000 (Start 1)].

(** Both processes knew the token before it was logged out. *)
Lemma logout_is_final_witness :
  let w := @site_run demo_tokens demo_config (site_init None) two_processes in
  let logout := at_time 60000 (Revoke 0 demo_token false Written) in
  (@site_step demo_tokens demo_config w (at_time 60000 (Read 1 demo_token))).2 = Known (Some "ann") /\
  (@site_step demo_tokens demo_config w logout).2 = Ended (Ok true) /\
  (@site_step demo_tokens demo_config (@site_step demo_tokens demo_config w logout).1 (at_time 61000 (Read 1 demo_token))).2 <> Known (Some "ann").
Proof.
  intros w logout. split; [vm_compute; reflexivity|]. split; [vm_compute; reflexivity|].
  apply (@logout_is_final demo_tokens demo_config demo_mac_inj None two_processes 0 demo_token true false Written 60000 [] 1 true 61000 "ann"); [reflexivity|vm_compute; reflexivity|].
  repeat constructor. discriminate.
Defined.

(** A logout while the file of revocations cannot be looked at changes nothing
    and reports nothing, and the token is a session again once it can. *)
Example logout_is_lost :
  let w := @site_run demo_tokens demo_config (site_init None) (two_processes ++ [at_time 55000 (Read 0 demo_token)]) in
  let logout := {| ev_op := Revoke 0 demo_token false Written; ev_io := false; ev_now := 60000 |} in
  (@site_step demo_tokens demo_config w logout).2 = Ended (Ok false) /\
  (@site_step demo_tokens demo_config (@site_step demo_tokens demo_config w logout).1 (at_time 61000 (Read 0 demo_token))).2 = Known (Some "ann").
Proof. split; vm_compute; reflexivity. Qed.

Lemma attempts_are_limited_witness :
  let r := {| r_max := 2; r_windowMs := 1000; r_hits := [] |} in
  let attempts := [("a", 10); ("a", 20); ("b", 30); ("a", 40); ("a", 50)] in
  let_through "a" attempts r = 2 /\ let_through "a" attempts r <= 2 * r_max r.
Proof.
  intros r attempts. split; [reflexivity|].
  apply (attempts_are_limited "a" attempts 0 60 r); [unfold r; cbn [r_max]; lia|unfold r; cbn [r_windowMs]; lia|by intros k n reset|constructor|].
  unfold attempts. cbn [map snd app]. repeat constructor; lia.
Defined.
