(* ===== verification/Accounts.v ===== *)
(** The accounts of the debugger console (src/algo/auth.ts) and what a role may
    do (src/modules/algo-admin/domain/permissions.ts).

    The accounts are a private file that the edge and the account tool share, as
    in Sessions.v; a process keeps the accounts it read last. Every account a
    process holds has been normalised by [refresh], so the optional fields of the
    file have their defaults in [AlgoUser]; fields the code does not know are not
    kept. A call that waits for a password hash is cut there. *)

From S2P Require Import Prelude Json Sessions.

(** ** Roles *)

(** @modules/algo-admin/domain/permissions.ts 1-2 ADMIN_ROLES *)
Inductive AdminRole := Viewer | Operator | Engineer | Admin.
(** @modules/algo-admin/domain/permissions.ts 3-4 CAPABILITIES *)
Inductive Capability := AlgoRead | AlgoWrite | TrainingRead | TrainingWrite | FirmwareRead | FirmwareWrite | NodesWrite | NodesAdmin | AccountsManage.
(** @modules/algo-admin/domain/permissions.ts 9-10 TEAM_ROLES *)
Inductive TeamRole := Ml | Frontend | Backend | Firmware | Hardware.

#[export] Instance AdminRole_eq : EqDecision AdminRole.
Proof. solve_decision. Defined.
#[export] Instance Capability_eq : EqDecision Capability.
Proof. solve_decision. Defined.
#[export] Instance TeamRole_eq : EqDecision TeamRole.
Proof. solve_decision. Defined.

Definition role_text (r : AdminRole) : string :=
  match r with Viewer => "viewer" | Operator => "operator" | Engineer => "engineer" | Admin => "admin" end.
Definition team_text (r : TeamRole) : string :=
  match r with Ml => "ml" | Frontend => "frontend" | Backend => "backend" | Firmware => "firmware" | Hardware => "hardware" end.
Definition TEAM_ROLES : list TeamRole := [Ml; Frontend; Backend; Firmware; Hardware].

(** The role a value of unknown shape is.
    @modules/algo-admin/domain/permissions.ts 18-18 isAdminRole *)
Definition isAdminRole (v : json) : option AdminRole :=
  match v with
  | JStr s => List.find (fun r => bool_decide (role_text r = s)) [Viewer; Operator; Engineer; Admin]
  | _ => None
  end.

(** @modules/algo-admin/domain/permissions.ts 11-11 isTeamRole *)
Definition isTeamRole (v : json) : option TeamRole :=
  match v with JStr s => List.find (fun r => bool_decide (team_text r = s)) TEAM_ROLES | _ => None end.

(** In the canonical order and without repeats.
    @modules/algo-admin/domain/permissions.ts 13-16 teamRolesOf *)
Definition teamRolesOf (v : json) : option (list TeamRole) :=
  match v with
  | JArr l =>
      if Nat.ltb (length TEAM_ROLES) (length l) then None
      else match mapM isTeamRole l with Some rs => Some (List.filter (fun r => includes r rs) TEAM_ROLES) | None => None end
  | _ => None
  end.

(** @modules/algo-admin/domain/permissions.ts 17-17 AdminPrincipal *)
Record AdminPrincipal := { pr_name : string; pr_role : AdminRole; pr_namedAccount : bool; pr_capabilities : list Capability }.

(** @modules/algo-admin/domain/permissions.ts 19-25 principal *)
Definition principal (name : string) (role : AdminRole) (namedAccount : bool) : AdminPrincipal :=
  {| pr_name := name; pr_role := role; pr_namedAccount := namedAccount;
     pr_capabilities :=
       [AlgoRead; TrainingRead; FirmwareRead] ++
       (if negb (bool_decide (role = Viewer)) then [AlgoWrite; TrainingWrite; NodesWrite] else []) ++
       (if bool_decide (role = Engineer) || bool_decide (role = Admin) then [FirmwareWrite; NodesAdmin] else []) ++
       (if bool_decide (role = Admin) && namedAccount then [AccountsManage] else []) |}.

(** What a command of a console takes: [String(op)] of its [op].
    @modules/algo-admin/domain/permissions.ts 27-30 nodeCommandCapability *)
Definition nodeCommandCapability (op : string) : Capability :=
  if includes op ["set"; "reset-bg"; "identify"; "save"] then NodesWrite else NodesAdmin.

(** ** Accounts *)

(** @algo/auth.ts 29-29 AlgoUser *)
Record AlgoUser := {
  u_name : string; u_salt : string; u_hash : string; u_createdAt : Q; u_role : AdminRole; u_disabled : bool; u_sessionVersion : Z; u_teamRoles : list TeamRole }.
#[export] Instance AlgoUser_eq : EqDecision AlgoUser.
Proof. solve_decision. Defined.
Notation accounts := (list (string * AlgoUser)).

(** @algo/auth.ts 26-26 NAME *)
Definition is_name (s : string) : bool :=
  let tail c := is_lower c || is_digit c || bool_decide (c = Ascii.ascii_of_N 95) || bool_decide (c = Ascii.ascii_of_N 46) || bool_decide (c = Ascii.ascii_of_N 45) in
  match chars s with
  | c :: l => (is_lower c || is_digit c) && forallb tail l && Nat.leb 1 (length l) && Nat.leb (length l) 31
  | [] => false
  end.
(** @algo/auth.ts 27-27 MIN_PASSWORD *)
Definition MIN_PASSWORD : Z := 12.
(** [/^[0-9a-f]{32}$/] *)
Definition is_hex32 (s : string) : bool := Nat.eqb (String.length s) 32 && forallb is_hex_lower (chars s).

(** @algo/auth.ts 93-95 normalise *)
Definition normalise (name : string) : string := js_lower (js_trim name).

(** A field that may be missing; [None] when it is there and not what it has to be. *)
Definition optional {A} (f : json -> option A) (missing : A) (v : option json) : option A :=
  match v with None => Some missing | Some v => f v end.
Definition version_of (v : json) : option Z := match as_safe_integer v with Some z => if 0 <=? z then Some z else None | None => None end.

(** One account of the file, with its defaults.
    @algo/auth.ts 61-65 refresh *)
Definition parse_user (v : json) : option AlgoUser :=
  match v with
  | JObj f =>
      match field "name" f, field "salt" f, field "hash" f, field "createdAt" f with
      | Some (JStr name), Some (JStr salt), Some (JStr hash), Some (JNum createdAt) =>
          if is_name name && is_hex32 salt && is_hex64 hash && Qle_bool 0 createdAt then
            match optional isAdminRole Engineer (field "role" f), optional as_bool false (field "disabled" f),
                  optional version_of 0 (field "sessionVersion" f), optional teamRolesOf [] (field "teamRoles" f) with
            | Some role, Some disabled, Some version, Some team =>
                Some {| u_name := name; u_salt := salt; u_hash := hash; u_createdAt := createdAt; u_role := role; u_disabled := disabled;
                        u_sessionVersion := version; u_teamRoles := team |}
            | _, _, _, _ => None
            end
          else None
      | _, _, _, _ => None
      end
  | _ => None
  end.

(** @algo/auth.ts 60-65 refresh *)
Definition parse_accounts (v : json) : option accounts :=
  match v with
  | JArr l =>
      match mapM parse_user l with
      | Some users => if bool_decide (NoDup (map u_name users)) then Some (map (fun u => (u_name u, u)) users) else None
      | None => None
      end
  | _ => None
  end.

Definition user_json (u : AlgoUser) : json :=
  JObj [("name", JStr (u_name u)); ("salt", JStr (u_salt u)); ("hash", JStr (u_hash u)); ("createdAt", JNum (u_createdAt u)); ("role", JStr (role_text (u_role u)));
        ("disabled", JBool (u_disabled u)); ("sessionVersion", JInt (u_sessionVersion u)); ("teamRoles", JArr (map (fun r => JStr (team_text r)) (u_teamRoles u)))].
Definition accounts_json (users : accounts) : json := JArr (map (fun p => user_json p.2) users).

(** @algo/auth.ts 36-39 AlgoUsers *)
Record AlgoUsers := { us_users : accounts; us_seen : stamp; us_invalid : bool }.

(** How a look at the file goes: it cannot be looked at, it cannot be read, or it
    is read. *)
Inductive look := NoStat | NoRead | Readable.

(** The largest file that is read.
    @algo/auth.ts 49-49 refresh *)
Definition MAX_FILE_BYTES : Z := 2000000.

(** @algo/auth.ts 45-72 refresh *)
Definition refresh (lk : look) (d : disk) (s : AlgoUsers) : AlgoUsers :=
  match lk, d with
  | NoStat, _ => {| us_users := []; us_seen := Outdated; us_invalid := true |}
  | _, None => {| us_users := []; us_seen := Outdated; us_invalid := false |}
  | _, Some v =>
      if MAX_FILE_BYTES <? f_size v then {| us_users := []; us_seen := Outdated; us_invalid := true |}
      else if bool_decide (us_seen s = Seen (f_id v)) then s
      else
        match (if lk is NoRead then None else f_content v ≫= parse_accounts) with
        | Some users => {| us_users := users; us_seen := Seen (f_id v); us_invalid := false |}
        | None => {| us_users := []; us_seen := Seen (f_id v); us_invalid := true |}
        end
  end.

(** @algo/auth.ts 41-43 constructor *)
Definition newAlgoUsers (lk : look) (d : disk) : AlgoUsers := refresh lk d {| us_users := []; us_seen := Outdated; us_invalid := false |}.

(** @algo/auth.ts 89-89 get *)
Definition get (lk : look) (d : disk) (name : string) (s : AlgoUsers) : AlgoUsers * option AlgoUser :=
  let s := refresh lk d s in (s, om_get name (us_users s)).

(** @algo/auth.ts 91-91 records *)
Definition records (lk : look) (d : disk) (s : AlgoUsers) : AlgoUsers * result string (list AlgoUser) :=
  let s := refresh lk d s in (s, if us_invalid s then Err "invalid account file" else Ok (map snd (us_users s))).

Definition enabledAdmin (u : AlgoUser) : bool := bool_decide (u_role u = Admin) && negb (u_disabled u).
Definition has_admin (users : accounts) : bool := existsb (fun p => enabledAdmin p.2) users.

(** @algo/auth.ts 178-181 protectLastAdmin *)
Definition protectLastAdmin (users next : accounts) : result string unit :=
  if has_admin users && negb (has_admin next) then Err "cannot remove, disable or demote the final enabled admin" else Ok tt.

(** @algo/auth.ts 183-186 save *)
Definition save (o : outcome) (next : accounts) (s : AlgoUsers) (d : disk) : (AlgoUsers * disk) * result string unit :=
  let '(d, r) := writePrivateJson (accounts_json next) o d in
  match r with
  | Ok _ => (({| us_users := next; us_seen := Outdated; us_invalid := us_invalid s |}, d), Ok tt)
  | Err why => ((s, d), Err why)
  end.

(** A change of the accounts under the lock of the file: [next] answers the new
    accounts, if they change, and the result.
    @algo/auth.ts 107-113 add *)
Definition locked {A} (busy : bool) (lk : look) (o : outcome) (authorize : accounts -> result string unit) (refusal : string)
    (next : accounts -> result string (option accounts * A)) (st : AlgoUsers * disk) : (AlgoUsers * disk) * result string A :=
  withPrivateFileLock busy (fun st =>
    let '(s, d) := st in
    let s := refresh lk d {| us_users := us_users s; us_seen := Outdated; us_invalid := us_invalid s |} in
    match authorize (us_users s) with
    | Err why => ((s, d), Err why)
    | Ok _ =>
        if us_invalid s then ((s, d), Err refusal)
        else
          match next (us_users s) with
          | Err why => ((s, d), Err why)
          | Ok (None, a) => ((s, d), Ok a)
          | Ok (Some users, a) =>
              let '(st, r) := save o users s d in
              (st, match r with Ok _ => Ok a | Err why => Err why end)
          end
    end) st.

(** scrypt of a password under a salt, in hexadecimal. *)
Class Scrypt := { scrypt : string -> string -> string }.
Class ScryptLaws {S : Scrypt} : Prop := { scrypt_hex password salt : is_hex64 (scrypt password salt) = true }.

Section accounts.
Context {T : Tokens} {S : Scrypt}.

(** With [active] hashes in progress.
    @web/auth.ts 42-48 passwordHash *)
Definition passwordHash (active : Z) (password salt : string) : result string string :=
  if 8 <=? active then Err "Sign-in is busy. Try again shortly." else Ok (scrypt password salt).

(** Up to the hash.
    @algo/auth.ts 97-106 add *)
Definition add_begin (lk : look) (d : disk) (active : Z) (rawName password : string) (role : json) (teamRoles : json) (salt : string) (now : Z) (s : AlgoUsers)
    : AlgoUsers * result string AlgoUser :=
  if 1024 <? js_length password then (s, Err "username and password required within the size limits")
  else
    match isAdminRole role with
    | None => (s, Err "invalid role")
    | Some role =>
        let name := normalise rawName in
        if negb (is_name name) then (s, Err "a username is 2-32 of a-z, 0-9, _ . - and starts with a letter or digit")
        else if js_length password <? MIN_PASSWORD then (s, Err "use at least 12 characters for the password")
        else
          let s := refresh lk d s in
          if us_invalid s then (s, Err "refusing to replace an invalid account file")
          else
            match passwordHash active password salt with
            | Err why => (s, Err why)
            | Ok hash =>
                (s, Ok {| u_name := name; u_salt := salt; u_hash := hash; u_createdAt := inject_Z now; u_role := role; u_disabled := false; u_sessionVersion := 0;
                          u_teamRoles := default [] (teamRolesOf teamRoles) |})
            end
    end.

(** What a change makes of the accounts in the file, if it changes them, and
    what it answers.
    @algo/auth.ts 111-112 add *)
Definition add_next (user : AlgoUser) (users : accounts) : result string (option accounts * AlgoUser) :=
  if om_has (u_name user) users then Err "account already exists" else Ok (Some (om_set (u_name user) user users), user).

(** From the hash on.
    @algo/auth.ts 107-115 add *)
Definition add_end (busy : bool) (lk : look) (o : outcome) (authorize : accounts -> result string unit) (user : AlgoUser) : AlgoUsers * disk -> (AlgoUsers * disk) * result string AlgoUser :=
  locked busy lk o authorize "refusing to replace an invalid account file" (add_next user).

(** @algo/auth.ts 122-126 remove *)
Definition remove_next (rawName : string) (expected : option AlgoUser) (users : accounts) : result string (option accounts * bool) :=
  let name := normalise rawName in
  match expected, om_get name users with
  | Some _, None => Err "no such account"
  | Some e, Some current =>
      if negb (bool_decide (current = e)) then Err "account changed; retry the operation"
      else let! _ := protectLastAdmin users (om_del name users) in Ok (Some (om_del name users), true)
  | None, None => Ok (None, false)
  | None, Some _ => let! _ := protectLastAdmin users (om_del name users) in Ok (Some (om_del name users), true)
  end.

(** @algo/auth.ts 117-128 remove *)
Definition remove (busy : bool) (lk : look) (o : outcome) (authorize : accounts -> result string unit) (rawName : string) (expected : option AlgoUser)
    : AlgoUsers * disk -> (AlgoUsers * disk) * result string bool :=
  locked busy lk o authorize "refusing to replace an invalid account file" (remove_next rawName expected).

(** @algo/auth.ts 155-155 update *)
Record Patch := { pt_role : option json; pt_disabled : option json; pt_revoke : bool; pt_salt : option string; pt_hash : option string; pt_teamRoles : option json }.

(** @algo/auth.ts 162-162 update *)
Definition unchanged (current expected : AlgoUser) : bool :=
  bool_decide (u_hash current = u_hash expected) && bool_decide (u_salt current = u_salt expected) && bool_decide (u_sessionVersion current = u_sessionVersion expected) &&
  Qeqb (u_createdAt current) (u_createdAt expected) && bool_decide (u_role current = u_role expected) && bool_decide (u_disabled current = u_disabled expected) &&
  bool_decide (u_teamRoles current = u_teamRoles expected).

(** The account after a change.
    @algo/auth.ts 163-172 update *)
Definition patched_user (patch : Patch) (current : AlgoUser) : result string AlgoUser :=
  let! role := match pt_role patch with None => Ok (u_role current) | Some v => of_option "invalid role" (isAdminRole v) end in
  let! disabled := match pt_disabled patch with None => Ok (u_disabled current) | Some v => of_option "invalid disabled flag" (as_bool v) end in
  let! team := match pt_teamRoles patch with None => Ok (u_teamRoles current) | Some v => of_option "invalid team roles" (teamRolesOf v) end in
  throw_if (match pt_salt patch, pt_hash patch with None, None => false | salt, hash => negb (is_hex32 (default "" salt) && is_hex64 (default "" hash)) end)
    with "invalid credentials" in
  let changed := pt_revoke patch || negb (bool_decide (role = u_role current)) || negb (bool_decide (disabled = u_disabled current)) || bool_decide (is_Some (pt_hash patch)) in
  let version := u_sessionVersion current + (if changed then 1 else 0) in
  throw_if max_safe <? version with "session version exhausted" in
  Ok {| u_name := u_name current; u_salt := default (u_salt current) (pt_salt patch); u_hash := default (u_hash current) (pt_hash patch);
        u_createdAt := u_createdAt current; u_role := role; u_disabled := disabled; u_sessionVersion := version; u_teamRoles := team |}.

(** @algo/auth.ts 160-175 update *)
Definition update_next (rawName : string) (patch : Patch) (expected : option AlgoUser) (users : accounts) : result string (option accounts * AlgoUser) :=
  let name := normalise rawName in
  match om_get name users with
  | None => Err "no such account"
  | Some current =>
      throw_if match expected with Some e => negb (unchanged current e) | None => false end with "account changed; retry the operation" in
      let! user := patched_user patch current in
      let! _ := protectLastAdmin users (om_set name user users) in
      Ok (Some (om_set name user users), user)
  end.

(** @algo/auth.ts 155-176 update *)
Definition update (busy : bool) (lk : look) (o : outcome) (authorize : accounts -> result string unit) (rawName : string) (patch : Patch) (expected : option AlgoUser)
    : AlgoUsers * disk -> (AlgoUsers * disk) * result string AlgoUser :=
  locked busy lk o authorize "invalid account file" (update_next rawName patch expected).

Definition new_password (salt hash : string) : Patch := {| pt_role := None; pt_disabled := None; pt_revoke := false; pt_salt := Some salt; pt_hash := Some hash; pt_teamRoles := None |}.

(** Up to the hash: the account to change, as it was, and its new credentials.
    @algo/auth.ts 146-150 resetPassword *)
Definition reset_begin (lk : look) (d : disk) (active : Z) (rawName password salt : string) (expected : option AlgoUser) (s : AlgoUsers) : AlgoUsers * result string (AlgoUser * Patch) :=
  if (js_length password <? MIN_PASSWORD) || (1024 <? js_length password) then (s, Err "invalid password length")
  else
    let '(s, found) := match expected with Some e => (s, Some e) | None => get lk d (normalise rawName) s end in
    match found with
    | None => (s, Err "no such account")
    | Some snapshot =>
        match passwordHash active password salt with
        | Err why => (s, Err why)
        | Ok hash => (s, Ok (snapshot, new_password salt hash))
        end
    end.

(** From the hash on.
    @algo/auth.ts 151-151 resetPassword *)
Definition reset_end (busy : bool) (lk : look) (o : outcome) (authorize : accounts -> result string unit) (rawName : string) (snapshot : AlgoUser) (patch : Patch) :=
  update busy lk o authorize rawName patch (Some snapshot).

(** Up to the hash: the name, the account as it was, and the hash that is
    computed (for an unknown name with a random salt).
    @algo/auth.ts 132-139 verifyRecord *)
Definition verify_begin (lk : look) (d : disk) (active : Z) (rawName password random : string) (s : AlgoUsers) : AlgoUsers * option (string * option AlgoUser * result string string) :=
  if (32 <? js_length rawName) || (1024 <? js_length password) then (s, None)
  else
    let name := normalise rawName in
    let '(s, user) := get lk d name s in
    (s, Some (name, user, passwordHash active password match user with Some u => u_salt u | None => random end)).

(** From the hash on.
    @algo/auth.ts 140-143 verifyRecord *)
Definition verify_end (lk : look) (d : disk) (name : string) (user : option AlgoUser) (hash : string) (s : AlgoUsers) : AlgoUsers * option AlgoUser :=
  match user with
  | None => (s, None)
  | Some u =>
      if u_disabled u then (s, None)
      else
        let '(s, current) := get lk d name s in
        (s, match current with
            | None => None
            | Some c =>
                if u_disabled c || negb (bool_decide (u_sessionVersion c = u_sessionVersion u)) || negb (bool_decide (u_hash c = u_hash u)) || negb (bool_decide (u_salt c = u_salt u)) then None
                else if bool_decide (hash = u_hash u) then Some c else None
            end)
  end.

(** ** Who a session stands for *)

(** @algo/auth.ts 189-197 AlgoAuthConfig *)
Record AlgoAuthConfig := { ac_enabled : bool; ac_sessionSecret : string }.

(** @algo/auth.ts 261-261 subjectFor *)
Definition subjectFor (cfg : AlgoAuthConfig) (u : AlgoUser) : string :=
  u_name u +:+ ":" +:+ mac (ac_sessionSecret cfg) (u_salt u +:+ ":" +:+ u_hash u +:+ (if u_sessionVersion u =? 0 then "" else ":" +:+ show (u_sessionVersion u))).

(** @algo/auth.ts 262-265 subject *)
Definition subject (cfg : AlgoAuthConfig) (lk : look) (d : disk) (name : string) (s : AlgoUsers) : AlgoUsers * option string :=
  let '(s, user) := get lk d name s in
  (s, match user with Some u => if u_disabled u then None else Some (subjectFor cfg u) | None => None end).

(** [identity] is what [sessions.read] makes of the cookie.
    @algo/auth.ts 269-275 principalOf *)
Definition principalOf (cfg : AlgoAuthConfig) (lk : look) (d : disk) (identity : option string) (s : AlgoUsers) : AlgoUsers * option AdminPrincipal :=
  if negb (ac_enabled cfg) then (s, Some (principal "local" Admin false))
  else
    match identity with
    | None => (s, None)
    | Some id =>
        match split_on (Ascii.ascii_of_N 58) id with
        | [] | "" :: _ => (s, None)
        | name :: _ =>
            let '(s, current) := get lk d name s in
            (s, match current with
                | None => None
                | Some u => if u_disabled u || negb (bool_decide (id = subjectFor cfg u)) then None else Some (principal (u_name u) (u_role u) true)
                end)
        end
    end.

Inductive verdict := Status (code : Z) | Next.

(** @algo/auth.ts 278-283 requireCapability *)
Definition requireCapability (cfg : AlgoAuthConfig) (lk : look) (d : disk) (c : Capability) (identity : option string) (s : AlgoUsers) : AlgoUsers * verdict :=
  let '(s, current) := principalOf cfg lk d identity s in
  (s, match current with None => Status 401 | Some p => if includes c (pr_capabilities p) then Next else Status 403 end).

(** @algo/auth.ts 378-381 accountSubject *)
Definition accountSubject (cfg : AlgoAuthConfig) (lk : look) (d : disk) (name : string) (s : AlgoUsers) : AlgoUsers * option string :=
  if negb (ac_enabled cfg) then (s, None)
  else
    let '(s, current) := get lk d name s in
    match current with
    | Some u => if includes NodesAdmin (pr_capabilities (principal name (u_role u) true)) then subject cfg lk d name s else (s, None)
    | None => (s, None)
    end.

(** The session a sign-in ends with: for the account [verifyRecord] answered, if
    it is still that account.
    @algo/auth.ts 356-366 login *)
Definition login_end (cfg : AlgoAuthConfig) (lk : look) (d : disk) (verified : option AlgoUser) (s : AlgoUsers) : AlgoUsers * result Z string :=
  match verified with
  | None => (s, Err 401)
  | Some u =>
      let issuedSubject := subjectFor cfg u in
      let '(s, now_) := subject cfg lk d (u_name u) s in
      (s, if bool_decide (now_ = Some issuedSubject) then Ok issuedSubject else Err 401)
  end.

(** What a sign-in does before the password is hashed: the status it is refused
    with, or the limiter after it; [human] is what the check of the visitor says.
    @algo/auth.ts 341-355 login *)
Definition login_begin (cfg : AlgoAuthConfig) (limiter : RateLimiter) (ip : string) (now : Z) (name password : string) (human : bool) : RateLimiter * result Z unit :=
  if bool_decide (name = "") || bool_decide (password = "") || (32 <? js_length name) || (1024 <? js_length password) then (limiter, Err 400)
  else
    let '(ok, limiter) := allow ip now limiter in
    if negb ok then (limiter, Err 429) else if negb human then (limiter, Err 403) else (limiter, Ok tt).
End accounts.

(** ** The processes that share the accounts *)

(** An operation of one process, whether another writer holds the lock, how the
    look at the file goes and how a replacement of it ends. Looking is whatever
    only reads: [get], [has], [size], [names]. *)
Inductive change :=
| Launch
| Look
| Adding (authorize : accounts -> result string unit) (user : AlgoUser)
| Removing (authorize : accounts -> result string unit) (rawName : string) (expected : option AlgoUser)
| Updating (authorize : accounts -> result string unit) (rawName : string) (patch : Patch) (expected : option AlgoUser).
Record deed := { de_process : nat; de_change : change; de_busy : bool; de_look : look; de_outcome : outcome }.
Inductive reply := Silent | Replied (r : result string AlgoUser) | Removed (r : result string bool).

Record Office := { of_procs : gmap nat AlgoUsers; of_disk : disk }.

Definition office_step (w : Office) (e : deed) : Office * reply :=
  let '{| de_process := i; de_change := c; de_busy := busy; de_look := lk; de_outcome := o |} := e in
  let put st := {| of_procs := <[i := st.1]> (of_procs w); of_disk := st.2 |} in
  match c, of_procs w !! i with
  | Launch, _ => (put (newAlgoUsers lk (of_disk w), of_disk w), Silent)
  | _, None => (w, Silent)
  | Look, Some s => (put (refresh lk (of_disk w) s, of_disk w), Silent)
  | Adding authorize user, Some s => let '(st, r) := add_end busy lk o authorize user (s, of_disk w) in (put st, Replied r)
  | Removing authorize rawName expected, Some s => let '(st, r) := remove busy lk o authorize rawName expected (s, of_disk w) in (put st, Removed r)
  | Updating authorize rawName patch expected, Some s => let '(st, r) := update busy lk o authorize rawName patch expected (s, of_disk w) in (put st, Replied r)
  end.
Definition office_run (w : Office) (es : list deed) : Office := fold_left (fun w e => (office_step w e).1) es w.

(** ** What is written is read back *)

(** An account the file may hold. *)
Record user_ok (u : AlgoUser) : Prop := {
  uo_name : is_name (u_name u) = true;
  uo_salt : is_hex32 (u_salt u) = true;
  uo_hash : is_hex64 (u_hash u) = true;
  uo_created : (0 <= u_createdAt u)%Q;
  uo_version : 0 <= u_sessionVersion u <= max_safe;
  uo_team : exists rs, u_teamRoles u = List.filter (fun r => includes r rs) TEAM_ROLES }.

Definition accounts_ok (users : accounts) : Prop := Forall (fun p => p.1 = u_name p.2 /\ user_ok p.2) users /\ NoDup (om_keys users).

Lemma team_text_inv r : isTeamRole (JStr (team_text r)) = Some r.
Proof. by destruct r. Qed.
Lemma role_text_inv r : isAdminRole (JStr (role_text r)) = Some r.
Proof. by destruct r. Qed.

Lemma team_json_inv rs : mapM isTeamRole (map (fun r => JStr (team_text r)) rs) = Some rs.
Proof. induction rs as [|r rs IH]; [done|]. cbn [map mapM]. rewrite team_text_inv. cbn. fold (mapM (M := option) isTeamRole). by rewrite IH. Qed.

Lemma team_filter_again rs : let t := List.filter (fun r => includes r rs) TEAM_ROLES in List.filter (fun r => includes r t) TEAM_ROLES = t.
Proof.
  intros t. unfold t. apply List.filter_ext_in. intros r Hr. destruct (includes r rs) eqn:E.
  - apply includes_true, list_elem_of_In, filter_In. done.
  - apply includes_false. intros Hin%list_elem_of_In%filter_In. destruct Hin. congruence.
Qed.

Lemma parse_user_json u : user_ok u -> parse_user (user_json u) = Some u.
Proof.
  intros [H1 H2 H3 H4 H5 [rs Ht]]. unfold parse_user, user_json. set (f := _ :: _).
  change (field "name" f) with (Some (JStr (u_name u))). change (field "salt" f) with (Some (JStr (u_salt u))). change (field "hash" f) with (Some (JStr (u_hash u))).
  change (field "createdAt" f) with (Some (JNum (u_createdAt u))). change (field "role" f) with (Some (JStr (role_text (u_role u)))).
  change (field "disabled" f) with (Some (JBool (u_disabled u))). change (field "sessionVersion" f) with (Some (JInt (u_sessionVersion u))).
  change (field "teamRoles" f) with (Some (JArr (map (fun r => JStr (team_text r)) (u_teamRoles u)))).
  cbv beta iota. rewrite H1, H2, H3. apply Qle_bool_iff in H4. rewrite H4. cbn [andb]. unfold optional. rewrite role_text_inv. cbn [as_bool].
  unfold version_of. rewrite as_safe_integer_JInt by lia. destruct (Z.leb_spec 0 (u_sessionVersion u)); [|lia].
  unfold teamRolesOf. rewrite length_map. rewrite team_json_inv.
  assert (Nat.ltb (length TEAM_ROLES) (length (u_teamRoles u)) = false) as ->.
  { rewrite Ht. apply Nat.ltb_ge, List.filter_length_le. }
  rewrite Ht, team_filter_again, <- Ht. by destruct u.
Qed.

Lemma mapM_user_json users : Forall (fun p => p.1 = u_name p.2 /\ user_ok p.2) users -> mapM parse_user (map (fun p => user_json p.2) users) = Some (map snd users).
Proof.
  induction 1 as [|[k u] users [Hk Hu] _ IH]; [done|]. cbn [map mapM snd]. rewrite parse_user_json by done. cbn. fold (mapM (M := option) parse_user). by rewrite IH.
Qed.

Lemma names_keys users : Forall (fun p : string * AlgoUser => p.1 = u_name p.2 /\ user_ok p.2) users -> map u_name (map snd users) = om_keys users /\ map (fun u => (u_name u, u)) (map snd users) = users.
Proof.
  induction 1 as [|[k u] users [Hk _] _ [IH1 IH2]]; [done|]. cbn in *. subst k. rewrite IH1, IH2. done.
Qed.

(** the accounts that are saved are the accounts that are read back: by
    the next look of any process, with the same names, salts, hashes, roles and
    session versions, and in the same order. *)
Theorem saved_accounts_are_read_back users : accounts_ok users -> parse_accounts (accounts_json users) = Some users.
Proof.
  intros [Hf Hnd]. unfold parse_accounts, accounts_json. rewrite mapM_user_json by done. destruct (names_keys users Hf) as [-> ->].
  by rewrite bool_decide_eq_true_2.
Qed.

Lemma optional_Some {A} (f : json -> option A) missing v a : optional f missing v = Some a -> v = None /\ a = missing \/ exists j, v = Some j /\ f j = Some a.
Proof. destruct v as [j|]; cbn; [intros; right; eauto|by intros [= <-]; left]. Qed.

Lemma teamRolesOf_canonical v rs : teamRolesOf v = Some rs -> exists rs', rs = List.filter (fun r => includes r rs') TEAM_ROLES.
Proof.
  unfold teamRolesOf. destruct v; try done. destruct (Nat.ltb _ _); [done|]. destruct (mapM isTeamRole l) as [rs'|]; [|done]. intros [= <-]. by exists rs'.
Qed.

Lemma version_of_range v z : version_of v = Some z -> 0 <= z <= max_safe.
Proof.
  unfold version_of. destruct (as_safe_integer v) as [n|] eqn:E; [|done]. apply as_safe_integer_range in E. destruct (Z.leb_spec 0 n); [|done]. intros [= <-]. lia.
Qed.

Lemma parse_user_ok v u : parse_user v = Some u -> user_ok u.
Proof.
  unfold parse_user. destruct v as [| | | | |f]; try done.
  destruct (field "name" f) as [[| | |name| |]|]; try done. destruct (field "salt" f) as [[| | |salt| |]|]; try done.
  destruct (field "hash" f) as [[| | |hash| |]|]; try done. destruct (field "createdAt" f) as [[| |q| | |]|]; try done.
  destruct (_ && _) eqn:E; [|done]. repeat rewrite andb_true_iff in E. destruct E as [[[E1 E2] E3] E4%Qle_bool_iff].
  destruct (optional isAdminRole _ _) as [role|]; [|done]. destruct (optional as_bool _ _) as [disabled|]; [|done].
  destruct (optional version_of _ _) as [version|] eqn:Ev; [|done]. destruct (optional teamRolesOf _ _) as [team|] eqn:Et; [|done]. intros [= <-].
  split; cbn; try done.
  - apply optional_Some in Ev as [[_ ->]|(j & _ & Hj)]; [done|by eapply version_of_range].
  - apply optional_Some in Et as [[_ ->]|(j & _ & Hj)]; [by exists []|by eapply teamRolesOf_canonical].
Qed.

Lemma parse_accounts_ok v users : parse_accounts v = Some users -> accounts_ok users.
Proof.
  unfold parse_accounts. destruct v as [| | | |l|]; try done. destruct (mapM parse_user l) as [us|] eqn:E; [|done]. case_bool_decide as Hnd; [|done]. intros [= <-].
  apply mapM_Some_1 in E. split; [|unfold om_keys; rewrite map_map; exact Hnd]. apply Forall_map. clear Hnd. induction E as [|j u l us Hu _ IH]; [constructor|].
  constructor; [|done]. split; [done|]. by eapply parse_user_ok.
Qed.

Lemma accounts_ok_del k users : accounts_ok users -> accounts_ok (om_del k users).
Proof.
  intros [Hf Hnd]. split; [|by apply om_del_nodup]. rewrite Forall_forall in *. intros p Hp. apply Hf. unfold om_del in Hp.
  apply list_elem_of_In, filter_In in Hp as [Hp _]. by apply list_elem_of_In.
Qed.

Lemma accounts_ok_set u users : accounts_ok users -> user_ok u -> accounts_ok (om_set (u_name u) u users).
Proof.
  intros [Hf Hnd] Hu. split; [|by apply om_set_nodup]. rewrite Forall_forall in *. intros p [->|Hp]%om_set_elem; [done|by apply Hf].
Qed.

Lemma accounts_ok_get k u users : accounts_ok users -> om_get k users = Some u -> u_name u = k /\ user_ok u.
Proof. intros [Hf _] E%om_get_elem. rewrite Forall_forall in Hf. by destruct (Hf _ E). Qed.

(** ** The file through the changes *)

(** The file is a good account file, of accounts that satisfy [P]. *)
Definition file_holds (P : accounts -> Prop) (d : disk) : Prop :=
  exists v users, d = Some v /\ f_content v ≫= parse_accounts = Some users /\ P users.

(** A file that the program wrote for these accounts. *)
Definition saved (users : accounts) (v : version) : Prop := f_content v ≫= parse_accounts = Some users /\ f_size v = json_bytes (accounts_json users).

(** How the file changes under the lock: not at all, or to accounts that [next]
    made of those in it. *)
Lemma locked_file {A} busy lk o authorize refusal (next : accounts -> result string (option accounts * A)) s d users v :
  d = Some v -> f_content v ≫= parse_accounts = Some users -> (forall users' a, next users = Ok (Some users', a) -> accounts_ok users') ->
  let '((s', d'), r) := locked busy lk o authorize refusal next (s, d) in
  (d' = d \/ exists users' a v', next users = Ok (Some users', a) /\ d' = Some v' /\ (f_id v < f_id v')%nat /\ saved users' v') /\
  (forall a, r = Ok a -> d' = d /\ next users = Ok (None, a) \/
    exists users' v', next users = Ok (Some users', a) /\ d' = Some v' /\ f_content v' ≫= parse_accounts = Some users').
Proof.
  intros -> Hv Hok. unfold locked, withPrivateFileLock. destruct busy; [split; [by left|done]|]. set (s1 := refresh _ _ _).
  assert (us_invalid s1 = true \/ us_users s1 = users) as Hs1.
  { unfold s1, refresh. destruct lk; [by left| |]; destruct (MAX_FILE_BYTES <? f_size v); [by left| |by left|]; cbn [us_seen]; rewrite bool_decide_eq_false_2 by done; [by left|].
    rewrite Hv. by right. }
  clearbody s1. destruct (authorize _) as [[]|]; [|split; [by left|done]]. destruct (us_invalid s1) eqn:Ei; [split; [by left|done]|].
  destruct Hs1 as [|Hs1]; [done|]. rewrite Hs1. destruct (next users) as [[[users'|] a]|] eqn:En; [|split; [by left|intros a' E; injection E as <-; by left]|split; [by left|done]].
  specialize (Hok users' a eq_refl). pose proof (saved_accounts_are_read_back users' Hok) as Hread. unfold save.
  destruct o; cbn.
  - split; [right; exists users', a; eexists; split_and!; try done; cbn; lia|]. intros a' E. injection E as <-. right. exists users'. by eexists.
  - by split; [left|].
  - split; [|done]. right. exists users', a. eexists. split_and!; try done; cbn; lia.
Qed.

Lemma has_admin_spec users : has_admin users = true <-> exists p, p ∈ users /\ enabledAdmin p.2 = true.
Proof. unfold has_admin. rewrite existsb_exists. split; intros (p & H1 & H2); exists p; (split; [by apply list_elem_of_In|done]). Qed.

Lemma protect_keeps users next : protectLastAdmin users next = Ok tt -> has_admin users = true -> has_admin next = true.
Proof. unfold protectLastAdmin. intros Hp Hu. rewrite Hu in Hp. cbn in Hp. by destruct (has_admin next). Qed.

Lemma of_option_Ok {A} (why : string) (o : option A) a : of_option why o = Ok a -> o = Some a.
Proof. by destruct o; [intros [= ->]|]. Qed.

Lemma patched_user_ok patch current user : user_ok current -> patched_user patch current = Ok user ->
  user_ok user /\ u_name user = u_name current /\
  (u_sessionVersion current <= u_sessionVersion user) /\ (u_salt user = u_salt current \/ pt_salt patch = Some (u_salt user)) /\
  (pt_revoke patch = true \/ u_role user <> u_role current \/ u_disabled user <> u_disabled current \/ is_Some (pt_hash patch) -> u_sessionVersion current < u_sessionVersion user).
Proof.
  intros [H1 H2 H3 H4 H5 H6]. unfold patched_user. intros Hp. repeat (apply rbind_ok in Hp as (? & ? & Hp)).
  destruct (match pt_salt patch, pt_hash patch with None, None => false | _, _ => _ end) eqn:Ec; [done|]. destruct (max_safe <? _) eqn:Em; [done|]. injection Hp as <-.
  cbn. apply Z.ltb_ge in Em. split_and!.
  - split; cbn; [done| | |done| |].
    + destruct (pt_salt patch) as [salt|]; [|done]. by apply negb_false, andb_true_iff in Ec as [Ec _].
    + destruct (pt_hash patch) as [hash|]; [|done]. destruct (pt_salt patch); by apply negb_false, andb_true_iff in Ec as [_ Ec].
    + destruct (_ || _); lia.
    + destruct (pt_teamRoles patch) as [v|]; [|by injection H7 as <-]. apply of_option_Ok in H7. by eapply teamRolesOf_canonical.
  - done.
  - destruct (_ || _); lia.
  - destruct (pt_salt patch); [by right|by left].
  - intros Hch. match goal with |- context [if ?b then 1 else 0] => assert (b = true) as -> end; [|lia].
    repeat rewrite orb_true_iff. rewrite !negb_true, !bool_decide_eq_false, bool_decide_eq_true. tauto.
Qed.

Definition made {A} (r : result string (option accounts * A)) : option accounts := match r with Ok (next, _) => next | Err _ => None end.

(** What a deed may make of the accounts. *)
Definition effect (c : change) (users : accounts) : option accounts :=
  match c with
  | Launch | Look => None
  | Adding _ user => made (add_next user users)
  | Removing _ rawName expected => made (remove_next rawName expected users)
  | Updating _ rawName patch expected => made (update_next rawName patch expected users)
  end.

(** An account that is added comes from [add_begin]. *)
Definition deed_ok (e : deed) : Prop := match de_change e with Adding _ user => user_ok user | _ => True end.

Lemma add_begin_ok `{Scrypt, !ScryptLaws} lk d active rawName password role team salt now s s' user :
  is_hex32 salt = true -> 0 <= now -> add_begin lk d active rawName password role team salt now s = (s', Ok user) -> user_ok user.
Proof.
  intros Hs Hn. unfold add_begin. destruct (_ <? _); [done|]. destruct (isAdminRole role) as [r|]; [|done]. destruct (is_name (normalise rawName)) eqn:En; [|done].
  cbn [negb]. destruct (_ <? _); [done|]. destruct (us_invalid _); [done|]. unfold passwordHash. destruct (_ <=? _); [done|]. intros [= _ <-].
  split; cbn; [done|done|apply scrypt_hex|change 0%Q with (inject_Z 0); by rewrite <- Zle_Qle|unfold max_safe; lia|].
  destruct (teamRolesOf team) as [rs|] eqn:Et; [by eapply teamRolesOf_canonical|by exists []].
Qed.

Lemma effect_ok e users users' : deed_ok e -> accounts_ok users -> effect (de_change e) users = Some users' -> accounts_ok users'.
Proof.
  destruct e as [i c busy lk o]. unfold deed_ok. cbn [de_change]. intros Hd Hok. destruct c as [| |au user|au raw expected|au raw patch expected]; cbn [effect]; try done.
  - unfold add_next. destruct (om_has _ _); [done|]. intros [= <-]. by apply accounts_ok_set.
  - assert (forall r : result string unit, made (rbind r (fun _ => Ok (Some (om_del (normalise raw) users), true))) = Some users' -> accounts_ok users') as Hdel.
    { intros [[]|]; cbn; [|done]. intros [= <-]. by apply accounts_ok_del. }
    unfold remove_next. destruct expected as [e|], (om_get _ users); try done; [|apply Hdel]. destruct (negb _); [done|apply Hdel].
  - unfold update_next. destruct (om_get _ users) as [current|] eqn:Ec; [|done]. destruct (match expected with Some e => _ | None => _ end); [done|].
    destruct (patched_user patch current) as [user|] eqn:Ep; [|done]. cbn. destruct (protectLastAdmin _ _) as [[]|]; [|done]. intros [= <-].
    destruct (accounts_ok_get _ _ _ Hok Ec) as [Hname Hcur]. destruct (patched_user_ok _ _ _ Hcur Ep) as (Hu & Hn & _). rewrite <- Hname, <- Hn. by apply accounts_ok_set.
Qed.

Lemma effect_admin c users users' : effect c users = Some users' -> has_admin users = true -> has_admin users' = true.
Proof.
  destruct c as [| |au user|au raw expected|au raw patch expected]; cbn [effect]; try done.
  - unfold add_next. destruct (om_has (u_name user) users) eqn:Eh; [done|]. intros [= <-] (p & Hp & Ha)%has_admin_spec. apply has_admin_spec. exists p. split; [|done].
    unfold om_has in Eh. destruct (om_get (u_name user) users) eqn:Eg; [done|]. clear -Hp Eg. induction users as [|[k v] users IH]; [by apply not_elem_of_nil in Hp|].
    cbn in *. case_bool_decide; [done|]. apply elem_of_cons in Hp as [->|Hp]; [by left|right; by apply IH].
  - assert (forall r : result string unit, r = protectLastAdmin users (om_del (normalise raw) users) ->
      made (rbind r (fun _ => Ok (Some (om_del (normalise raw) users), true))) = Some users' -> has_admin users = true -> has_admin users' = true) as Hdel.
    { intros [[]|] Er; cbn; [|done]. intros [= <-]. by apply protect_keeps. }
    unfold remove_next. destruct expected as [e|], (om_get _ users); try done; [|by apply Hdel]. destruct (negb _); [done|by apply Hdel].
  - unfold update_next. destruct (om_get _ users) as [current|] eqn:Ec; [|done]. destruct (match expected with Some e => _ | None => _ end); [done|].
    destruct (patched_user patch current) as [user|] eqn:Ep; [|done]. cbn. destruct (protectLastAdmin _ _) as [[]|] eqn:El; [|done]. intros [= <-]. by apply protect_keeps.
Qed.

Lemma office_step_file w e v users : deed_ok e -> of_disk w = Some v -> f_content v ≫= parse_accounts = Some users ->
  of_disk (office_step w e).1 = Some v \/
  exists users' v', effect (de_change e) users = Some users' /\ of_disk (office_step w e).1 = Some v' /\ (f_id v < f_id v')%nat /\ saved users' v'.
Proof.
  intros Hd Hv Hp. assert (accounts_ok users) as Hok by (destruct (f_content v); [by eapply parse_accounts_ok|done]).
  pose proof (fun users' => effect_ok e users users' Hd Hok) as Heff. clear Hd.
  destruct e as [i c busy lk o]. unfold office_step. cbn [de_process de_change de_busy de_look de_outcome] in *. rewrite Hv.
  destruct c as [| |au user|au raw expected|au raw patch expected]; cbn [effect] in Heff |- *.
  - by left.
  - destruct (of_procs w !! i); by left.
  - destruct (of_procs w !! i) as [s|]; [|by left]. unfold add_end.
    pose proof (locked_file busy lk o au "refusing to replace an invalid account file" (add_next user) s (Some v) users v eq_refl Hp) as Hl.
    destruct (locked _ _ _ _ _ _ _) as [[s' d'] r]. cbn. destruct Hl as [[->|(users' & a & v' & En & -> & Hlt & Hv')] _]; [|by left|].
    + intros users' a En. apply Heff. by rewrite En.
    + right. exists users', v'. by rewrite En.
  - destruct (of_procs w !! i) as [s|]; [|by left]. unfold remove.
    pose proof (locked_file busy lk o au "refusing to replace an invalid account file" (remove_next raw expected) s (Some v) users v eq_refl Hp) as Hl.
    destruct (locked _ _ _ _ _ _ _) as [[s' d'] r]. cbn. destruct Hl as [[->|(users' & a & v' & En & -> & Hlt & Hv')] _]; [|by left|].
    + intros users' a En. apply Heff. by rewrite En.
    + right. exists users', v'. by rewrite En.
  - destruct (of_procs w !! i) as [s|]; [|by left]. unfold update.
    pose proof (locked_file busy lk o au "invalid account file" (update_next raw patch expected) s (Some v) users v eq_refl Hp) as Hl.
    destruct (locked _ _ _ _ _ _ _) as [[s' d'] r]. cbn. destruct Hl as [[->|(users' & a & v' & En & -> & Hlt & Hv')] _]; [|by left|].
    + intros users' a En. apply Heff. by rewrite En.
    + right. exists users', v'. by rewrite En.
Qed.

(** *** How large the file gets *)

Lemma is_name_plain s : is_name s = true -> forallb plain (chars s) = true /\ js_length s <= 32.
Proof.
  unfold is_name, js_length. rewrite <- chars_length. destruct (chars s) as [|c l]; [done|]. repeat rewrite andb_true_iff. intros [[[Hc Hl] _] Hn%Nat.leb_le].
  cbn [length forallb]. split; [|lia]. apply andb_true_iff. split; [unfold plain, is_lower, is_digit, between in *; lia|]. apply forallb_forall. intros x Hx.
  rewrite forallb_forall in Hl. specialize (Hl x Hx). clear Hx Hc. rewrite !orb_true_iff in Hl.
  destruct Hl as [[[[H|H]|H%bool_decide_eq_true]|H%bool_decide_eq_true]|H%bool_decide_eq_true]; [unfold plain, is_lower, is_digit, between in *; lia..|by subst|by subst|by subst].
Qed.

Lemma is_hex_plain s n : Nat.eqb (String.length s) n && forallb is_hex_lower (chars s) = true -> forallb plain (chars s) = true /\ js_length s = Z.of_nat n.
Proof.
  intros [Hn%Nat.eqb_eq Hs]%andb_true_iff. unfold js_length. rewrite Hn. split; [|done]. apply forallb_forall. intros c Hc. rewrite forallb_forall in Hs.
  specialize (Hs c Hc). unfold plain, is_hex_lower, is_digit, between in *. lia.
Qed.

Lemma team_bytes rs : list_bytes (map json_bytes (map (fun r => JStr (team_text r)) (List.filter (fun r => includes r rs) TEAM_ROLES))) <= 100.
Proof. unfold TEAM_ROLES. cbn [List.filter]. repeat match goal with |- context [if ?b then _ else _] => destruct b end; by apply Z.leb_le. Qed.

Lemma user_bytes u : user_ok u -> json_bytes (user_json u) <= 399.
Proof.
  intros [[Hn Hn']%is_name_plain [Hs Hs']%is_hex_plain [Hh Hh']%is_hex_plain _ _ [rs Ht]].
  pose proof (number_bytes_bound (u_createdAt u)) as Hc. pose proof (number_bytes_bound (u_sessionVersion u # 1)) as Hv. pose proof (team_bytes rs) as Hr. rewrite <- Ht in Hr.
  assert (json_bytes (JStr (role_text (u_role u))) <= 10) as Hro by (destruct (u_role u); by apply Z.leb_le).
  assert (json_bytes (JBool (u_disabled u)) <= 5) as Hd by (by destruct (u_disabled u)).
  assert (json_bytes (JStr (u_name u)) <= 34) as H1 by (cbn [json_bytes]; rewrite text_bytes_plain by done; lia).
  assert (json_bytes (JStr (u_salt u)) = 34) as H2 by (cbn [json_bytes]; rewrite text_bytes_plain by done; lia).
  assert (json_bytes (JStr (u_hash u)) = 66) as H3 by (cbn [json_bytes]; rewrite text_bytes_plain by done; lia).
  unfold user_json.
  set (team := JArr _). assert (json_bytes team <= 100) as Hteam by (exact Hr).
  change (number_bytes (u_createdAt u)) with (json_bytes (JNum (u_createdAt u))) in Hc. change (number_bytes (u_sessionVersion u # 1)) with (json_bytes (JInt (u_sessionVersion u))) in Hv.
  clearbody team. revert H1 H2 H3 Hc Hv Hro Hd Hteam.
  generalize (JStr (u_name u)) (JStr (u_salt u)) (JStr (u_hash u)) (JNum (u_createdAt u)) (JInt (u_sessionVersion u)) (JStr (role_text (u_role u))) (JBool (u_disabled u)).
  intros j1 j2 j3 j4 j5 j6 j7 H1 H2 H3 Hc Hv Hro Hd Hteam. cbn [json_bytes map list_bytes foldr fst snd].
  change (text_bytes "name") with 6. change (text_bytes "salt") with 6. change (text_bytes "hash") with 6. change (text_bytes "createdAt") with 11.
  change (text_bytes "role") with 6. change (text_bytes "disabled") with 10. change (text_bytes "sessionVersion") with 16. change (text_bytes "teamRoles") with 11. lia.
Qed.

Lemma accounts_bytes users : accounts_ok users -> (length users <= 4999)%nat -> json_bytes (accounts_json users) <= MAX_FILE_BYTES.
Proof.
  intros [Hu _] Hn. unfold accounts_json. cbn [json_bytes]. etransitivity; [apply (list_bytes_bound _ 399); [|lia]|].
  - intros n (j & -> & Hj)%list_elem_of_fmap. apply list_elem_of_fmap in Hj as (p & -> & Hp). rewrite Forall_forall in Hu. by apply user_bytes, (Hu p Hp).
  - rewrite !length_map. unfold MAX_FILE_BYTES. lia.
Qed.

Lemma office_run_file v0 es : Forall deed_ok es -> forall w v users, of_disk w = Some v -> f_content v ≫= parse_accounts = Some users -> has_admin users = true ->
  v = v0 \/ f_size v = json_bytes (accounts_json users) ->
  exists v' users', of_disk (office_run w es) = Some v' /\ f_content v' ≫= parse_accounts = Some users' /\ has_admin users' = true /\
    (v' = v0 \/ f_size v' = json_bytes (accounts_json users')).
Proof.
  induction 1 as [|e es He _ IH]; intros w v users Hv Hp Ha Hs; [by exists v, users|].
  destruct (office_step_file w e v users He Hv Hp) as [Hw|(users' & v' & Eff & Hw & _ & Hp' & Hs')]; [by apply (IH _ v users)|].
  apply (IH (office_step w e).1 v' users'); [done|done|by eapply effect_admin|by right].
Qed.

(** C14: The file of accounts never loses its last admin. Once it holds an
    enabled admin it holds one forever: whatever accounts are added, removed,
    demoted, disabled or given new passwords, by any process, whatever that
    process last read, and however the lock, the look at the file and its
    replacement go each time. A process that looks at it anew has those accounts
    if the file is not above the 2,000,000 bytes it is willing to read; a file
    the program wrote is not, as long as there are fewer than 5,000 accounts
    (nothing keeps the program from writing a larger one). *)
Theorem an_admin_always_remains w es : Forall deed_ok es -> file_holds (fun users => has_admin users = true) (of_disk w) ->
  exists v users, of_disk (office_run w es) = Some v /\ f_content v ≫= parse_accounts = Some users /\ has_admin users = true /\
    (f_size v <= MAX_FILE_BYTES -> newAlgoUsers Readable (Some v) = {| us_users := users; us_seen := Seen (f_id v); us_invalid := false |}) /\
    (of_disk w = Some v \/ ((length users < 5000)%nat -> f_size v <= MAX_FILE_BYTES)).
Proof.
  intros Hes (v & users & Hv & Hp & Ha).
  destruct (office_run_file v es Hes w v users Hv Hp Ha (or_introl eq_refl)) as (v' & users' & Hv' & Hp' & Ha' & Hs).
  exists v', users'. split_and!; [done|done|done| |].
  - intros Hz. unfold newAlgoUsers, refresh. rewrite (proj2 (Z.ltb_ge _ _)) by done. cbn [us_seen]. rewrite bool_decide_eq_false_2 by done. by rewrite Hp'.
  - destruct Hs as [->|Hs]; [by left|right]. intros Hn. rewrite Hs. apply accounts_bytes; [|lia]. destruct (f_content v'); [by eapply parse_accounts_ok|done].
Qed.

(** ** Access follows the file *)

Definition in_file (d : disk) (name : string) (u : AlgoUser) : Prop :=
  exists v users, d = Some v /\ f_content v ≫= parse_accounts = Some users /\ om_get name users = Some u.

(** What a process holds is no newer than the file; when it is the file, every
    account it holds is in it. *)
Definition follows (d : disk) (s : AlgoUsers) : Prop :=
  forall id, us_seen s = Seen id -> exists v, d = Some v /\ (id <= f_id v)%nat /\ (id = f_id v -> forall name u, om_get name (us_users s) = Some u -> in_file d name u).

Lemma refresh_follows lk d s : follows d s ->
  follows d (refresh lk d s) /\ forall name u, om_get name (us_users (refresh lk d s)) = Some u -> in_file d name u.
Proof.
  intros Hf. unfold refresh. destruct lk; [by split| |].
  - destruct d as [v|]; [|by split]. destruct (_ <? _); [by split|]. case_bool_decide as Es; [|by split; [intros id [= <-]; exists v|]].
    split; [done|]. intros name u Hu. destruct (Hf _ Es) as (v' & [= <-] & _ & Hin). by apply Hin.
  - destruct d as [v|]; [|by split]. destruct (_ <? _); [by split|]. case_bool_decide as Es.
    { split; [done|]. intros name u Hu. destruct (Hf _ Es) as (v' & [= <-] & _ & Hin). by apply Hin. }
    destruct (f_content v ≫= parse_accounts) as [users|] eqn:Ep; [|by split; [intros id [= <-]; exists v|]].
    assert (forall name u, om_get name users = Some u -> in_file (Some v) name u) as Hin by (intros name u Hu; by exists v, users).
    split; [|done]. intros id [= <-]. by exists v.
Qed.

(** A file is followed by itself, or by one with a later version. *)
Definition later (d d' : disk) : Prop := d' = d \/ exists v', d' = Some v' /\ forall v, d = Some v -> (f_id v < f_id v')%nat.

Lemma follows_later d d' s : later d d' -> follows d s -> follows d' s.
Proof.
  intros [->|(v' & -> & Hlt)] Hf; [done|]. intros id E. destruct (Hf id E) as (v & Hv & Hle & _). specialize (Hlt v Hv). exists v'. split_and!; [done|lia|lia].
Qed.

Lemma write_later value o d : later d (writePrivateJson value o d).1.
Proof. destruct o; [right|by left|right]; (eexists; split; [done|]; intros v ->; cbn; lia). Qed.

Lemma locked_follows {A} busy lk o authorize refusal (next : accounts -> result string (option accounts * A)) s d : follows d s ->
  let '((s', d'), r) := locked busy lk o authorize refusal next (s, d) in later d d' /\ follows d' s'.
Proof.
  intros Hf. unfold locked, withPrivateFileLock. destruct busy; [split; [by left|done]|].
  destruct (refresh_follows lk d {| us_users := us_users s; us_seen := Outdated; us_invalid := us_invalid s |}) as [Hf1 _]; [done|].
  set (s1 := refresh _ _ _) in *. clearbody s1. destruct (authorize _); [|split; [by left|done]]. destruct (us_invalid s1); [split; [by left|done]|].
  destruct (next _) as [[[users'|] a']|]; [|split; [by left|done]..]. unfold save. pose proof (write_later (accounts_json users') o d) as Hl.
  destruct (writePrivateJson _ o d) as [d' r]. cbn [fst] in Hl. destruct r; (split; [done|]); [by intros id|by eapply follows_later].
Qed.

Definition office_ok (w : Office) : Prop := map_Forall (fun _ s => follows (of_disk w) s) (of_procs w).

Lemma put_ok w i s d : office_ok w -> later (of_disk w) d -> follows d s -> office_ok {| of_procs := <[i := s]> (of_procs w); of_disk := d |}.
Proof. intros Hw Hl Hs. apply map_Forall_insert_2; [done|]. eapply map_Forall_impl; [exact Hw|]. intros j s0. by apply follows_later. Qed.

Lemma office_step_ok w e : office_ok w -> office_ok (office_step w e).1.
Proof.
  intros Hw. destruct e as [i c busy lk o]. unfold office_step. cbn [de_process de_change de_busy de_look de_outcome]. destruct c as [| |au user|au raw expected|au raw patch expected].
  - apply put_ok; [done|by left|]. by apply refresh_follows.
  - destruct (of_procs w !! i) as [s|] eqn:E; [|done]. apply put_ok; [done|by left|]. by apply refresh_follows, (Hw i).
  - destruct (of_procs w !! i) as [s|] eqn:E; [|done]. pose proof (locked_follows busy lk o au "refusing to replace an invalid account file" (add_next user) s _ (Hw i s E)) as Hl.
    unfold add_end. destruct (locked _ _ _ _ _ _ _) as [[s' d'] r]. by apply put_ok; [|apply Hl..].
  - destruct (of_procs w !! i) as [s|] eqn:E; [|done]. pose proof (locked_follows busy lk o au "refusing to replace an invalid account file" (remove_next raw expected) s _ (Hw i s E)) as Hl.
    unfold remove. destruct (locked _ _ _ _ _ _ _) as [[s' d'] r]. by apply put_ok; [|apply Hl..].
  - destruct (of_procs w !! i) as [s|] eqn:E; [|done]. pose proof (locked_follows busy lk o au "invalid account file" (update_next raw patch expected) s _ (Hw i s E)) as Hl.
    unfold update. destruct (locked _ _ _ _ _ _ _) as [[s' d'] r]. by apply put_ok; [|apply Hl..].
Qed.

Lemma office_run_ok es : forall w, office_ok w -> office_ok (office_run w es).
Proof. induction es as [|e es IH]; intros w Hw; [done|]. by apply IH, office_step_ok. Qed.

Definition new_office (d : disk) : Office := {| of_procs := ∅; of_disk := d |}.

Lemma principalOf_follows {T : Tokens} cfg lk d identity s p : ac_enabled cfg = true -> follows d s -> (principalOf cfg lk d identity s).2 = Some p ->
  exists name u, in_file d name u /\ u_disabled u = false /\ identity = Some (subjectFor cfg u) /\ p = principal (u_name u) (u_role u) true.
Proof.
  intros He Hf. unfold principalOf. rewrite He. cbn [negb]. destruct identity as [id|]; [|done]. destruct (split_on _ id) as [|name rest]; [done|].
  destruct name as [|c name]; [done|]. set (nm := String.String c name). unfold get. destruct (refresh_follows lk d s Hf) as [_ Hin].
  destruct (om_get nm (us_users (refresh lk d s))) as [u|] eqn:E; [|done]. cbn. destruct (u_disabled u) eqn:Ed; [done|]. cbn [orb].
  case_bool_decide as Ei; [|done]. cbn [negb]. intros [= <-]. exists nm, u. split_and!; [by apply Hin|done|by subst id|done].
Qed.

(** access follows the account file. In any process of the site, whatever
    it read before, a request passes [requireCapability] only when the file as it
    is now holds an enabled account whose present role has that capability, and
    the session was opened for that account as it is now, with its password and
    its session version. A change of role, a disabled account or a new password
    takes effect with the next request, everywhere. *)
Theorem access_follows_the_file `{Tokens} cfg d es i s lk c identity : ac_enabled cfg = true ->
  of_procs (office_run (new_office d) es) !! i = Some s ->
  let d' := of_disk (office_run (new_office d) es) in
  (requireCapability cfg lk d' c identity s).2 = Next ->
  exists name u, in_file d' name u /\ u_disabled u = false /\ identity = Some (subjectFor cfg u) /\ c ∈ pr_capabilities (principal name (u_role u) true).
Proof.
  intros He Hs d'. assert (follows d' s) as Hf by (eapply (office_run_ok es (new_office d)); [apply map_Forall_empty|exact Hs]).
  unfold requireCapability. destruct (principalOf cfg lk d' identity s) as [s' current] eqn:Ep. destruct current as [p|]; [|done]. cbn.
  destruct (principalOf_follows cfg lk d' identity s p He Hf) as (name & u & Hin & Hd & Hi & ->); [by rewrite Ep|].
  destruct (includes c _) eqn:Ec; [|done]. intros _. exists name, u. split_and!; [done|done|done|]. by apply includes_true in Ec.
Qed.

(** ** A changed account ends its sessions *)

Lemma app_cut {A} (sep : A) a b x y : sep ∉ a -> sep ∉ b -> a ++ sep :: x = b ++ sep :: y -> a = b /\ x = y.
Proof.
  revert b. induction a as [|c a IH]; intros [|e b] Ha Hb; cbn; rewrite ?not_elem_of_cons in *.
  - by intros [= ->].
  - intros [= -> _]. tauto.
  - intros [= -> _]. tauto.
  - intros [= -> E]. destruct Ha, Hb. by destruct (IH b ltac:(done) ltac:(done) E) as [-> ->].
Qed.

Definition COLON : Ascii.ascii := Ascii.ascii_of_N 58.

Lemma name_plain s : is_name s = true -> COLON ∉ chars s.
Proof.
  unfold is_name. destruct (chars s) as [|c l]; [done|]. repeat rewrite andb_true_iff. intros [[[Hc Hl] _] _].
  apply not_elem_of_cons. split; [by intros <-|]. intros Hin%list_elem_of_In. by apply (proj1 (forallb_forall _ _) Hl) in Hin.
Qed.

Lemma hex_plain l : forallb is_hex_lower l = true -> COLON ∉ l.
Proof. intros Hl Hin%list_elem_of_In. by apply (proj1 (forallb_forall _ _) Hl) in Hin. Qed.

Lemma subject_inj `{Tokens} cfg u u' : (forall a b, mac (ac_sessionSecret cfg) a = mac (ac_sessionSecret cfg) b -> a = b) -> user_ok u -> user_ok u' ->
  subjectFor cfg u = subjectFor cfg u' -> u_name u = u_name u' /\ u_salt u = u_salt u' /\ u_sessionVersion u = u_sessionVersion u'.
Proof.
  intros Hmac [Hn Hs Hh _ Hv _] [Hn' Hs' Hh' _ Hv' _] E. unfold subjectFor in E. apply (f_equal chars) in E. rewrite !chars_app in E.
  apply (app_cut COLON) in E as [En Em%chars_inj%Hmac]; [|by apply name_plain..]. split; [by apply chars_inj|]. apply (f_equal chars) in Em. rewrite !chars_app in Em.
  unfold is_hex32 in *. apply andb_true_iff in Hs as [_ Hs], Hs' as [_ Hs']. apply (app_cut COLON) in Em as [Es Em]; [|by apply hex_plain..]. split; [by apply chars_inj|].
  unfold is_hex64 in *. apply andb_true_iff in Hh as [Hl _], Hh' as [Hl' _]. apply Nat.eqb_eq in Hl, Hl'.
  apply app_inj_1 in Em as [_ Em]; [|rewrite !chars_length; congruence]. apply chars_inj in Em.
  destruct (Z.eqb_spec (u_sessionVersion u) 0), (Z.eqb_spec (u_sessionVersion u') 0); [congruence|done|done|].
  injection Em as Em. unfold show in Em. exact (inj pretty _ _ Em).
Qed.

(** The account of this name, if there is one, is no longer the one [before]. *)
Definition moved_on (before : AlgoUser) (users : accounts) : Prop :=
  forall u, om_get (u_name before) users = Some u -> u_sessionVersion before < u_sessionVersion u \/ u_salt u <> u_salt before.

(** No new password is salted with the salt of [before]. *)
Definition fresh_salts (before : AlgoUser) (e : deed) : Prop :=
  match de_change e with
  | Adding _ user => u_salt user <> u_salt before
  | Updating _ _ patch _ => pt_salt patch <> Some (u_salt before)
  | _ => True
  end.

Lemma om_del_get_sub {V} (k k' : string) (m : list (string * V)) v : om_get k (om_del k' m) = Some v -> om_get k m = Some v.
Proof. rewrite om_get_del. by case_bool_decide. Qed.

Lemma made_protected (users next : accounts) users' {A} (a : A) : made (rbind (protectLastAdmin users next) (fun _ => Ok (Some next, a))) = Some users' -> users' = next.
Proof. destruct (protectLastAdmin users next) as [[]|]; cbn; [by intros [= <-]|done]. Qed.

Lemma effect_moved_on before e users users' : accounts_ok users -> fresh_salts before e -> moved_on before users ->
  effect (de_change e) users = Some users' -> moved_on before users'.
Proof.
  destruct e as [i c busy lk o]. unfold fresh_salts. cbn [de_change]. intros Hok Hfresh Hm. destruct c as [| |au user|au raw expected|au raw patch expected]; cbn [effect]; try done.
  - unfold add_next. destruct (om_has _ _); [done|]. intros [= <-] u. rewrite om_get_set. case_bool_decide; [intros [= <-]; by right|apply Hm].
  - unfold remove_next. intros E u Hu. apply Hm. destruct expected as [e|], (om_get _ users); try done; [destruct (negb _); [done|]|]; apply made_protected in E as ->; by eapply om_del_get_sub.
  - unfold update_next. destruct (om_get (normalise raw) users) as [current|] eqn:Ec; [|done]. destruct (match expected with Some e => _ | None => _ end); [done|].
    destruct (patched_user patch current) as [user|] eqn:Ep; [|done]. cbn [rbind]. intros E. apply made_protected in E as ->. intros u. rewrite om_get_set.
    case_bool_decide as En; [intros [= <-]|apply Hm]. destruct (accounts_ok_get _ _ _ Hok Ec) as [_ Hcur]. destruct (patched_user_ok _ _ _ Hcur Ep) as (_ & _ & Hv & Hs & _).
    rewrite <- En in Ec. destruct (Hm current Ec) as [Hlt|Hne]; [left; lia|]. destruct Hs as [Hs|Hs]; [right; congruence|]. right. congruence.
Qed.

Lemma office_run_moved_on before es : Forall deed_ok es -> Forall (fresh_salts before) es -> forall w,
  file_holds (moved_on before) (of_disk w) -> file_holds (moved_on before) (of_disk (office_run w es)).
Proof.
  intros Hok Hfr. induction es as [|e es IH]; intros w Hw; [done|]. inversion Hok; inversion Hfr; subst. apply IH; [done|done|]. destruct Hw as (v & users & Hv & Hp & Hm).
  destruct (office_step_file w e v users ltac:(done) Hv Hp) as [->|(users' & v' & Eff & -> & _ & [Hp' _])]; [by exists v, users|].
  exists v', users'. split_and!; [done|done|]. apply (effect_moved_on before e users); try done. destruct (f_content v); [by eapply parse_accounts_ok|done].
Qed.

(** What ends the sessions of an account: its removal, or a change of its role,
    of whether it is disabled, of its password, or one that asks for it. *)
Definition ends_sessions (before : AlgoUser) (c : change) (r : reply) : Prop :=
  match c, r with
  | Removing _ raw _, Removed (Ok true) => normalise raw = u_name before
  | Updating _ raw patch _, Replied (Ok user) =>
      normalise raw = u_name before /\
      (pt_revoke patch = true \/ u_role user <> u_role before \/ u_disabled user <> u_disabled before \/ is_Some (pt_hash patch))
  | _, _ => False
  end.

Lemma ends_sessions_moved_on before w e v users : of_disk w = Some v -> f_content v ≫= parse_accounts = Some users -> om_get (u_name before) users = Some before ->
  deed_ok e -> ends_sessions before (de_change e) (office_step w e).2 -> file_holds (moved_on before) (of_disk (office_step w e).1).
Proof.
  intros Hv Hp Hb Hd. assert (accounts_ok users) as Hok by (destruct (f_content v); [by eapply parse_accounts_ok|done]).
  pose proof (fun users' => effect_ok e users users' Hd Hok) as Heff. clear Hd. destruct e as [i c busy lk o]. unfold office_step. cbn [de_process de_change de_busy de_look de_outcome] in *.
  rewrite Hv. destruct c as [| |au user|au raw expected|au raw patch expected]; try done; cbn [effect] in Heff; try by destruct (of_procs w !! i).
  - destruct (of_procs w !! i) as [s|]; [|done]. unfold remove.
    pose proof (locked_file busy lk o au "refusing to replace an invalid account file" (remove_next raw expected) s (Some v) users v eq_refl Hp) as Hl.
    destruct (locked _ _ _ _ _ _ _) as [[s' d'] r]. cbn. destruct r as [[]|]; [|done..]. intros Hn. destruct Hl as [_ Hr]; [intros users' a En; apply Heff; by rewrite En|].
    destruct (Hr true eq_refl) as [[_ En]|(users' & v' & En & -> & Hp')].
    + exfalso. revert En. unfold remove_next. rewrite Hn, Hb. destruct expected as [e|]; [destruct (negb _); [done|]|]; destruct (protectLastAdmin _ _); done.
    + exists v', users'. split_and!; [done|done|]. assert (made (remove_next raw expected users) = Some users') as Em by (by rewrite En). revert Em. unfold remove_next. rewrite Hn, Hb.
      intros Em u Hu. exfalso. destruct expected as [e|]; [destruct (negb _); [done|]|]; apply made_protected in Em as ->; rewrite om_get_del_eq in Hu; done.
  - destruct (of_procs w !! i) as [s|]; [|done]. unfold update.
    pose proof (locked_file busy lk o au "invalid account file" (update_next raw patch expected) s (Some v) users v eq_refl Hp) as Hl.
    destruct (locked _ _ _ _ _ _ _) as [[s' d'] r]. cbn. destruct r as [user|]; [|done]. intros [Hn Hch]. destruct Hl as [_ Hr]; [intros users' a En; apply Heff; by rewrite En|].
    assert (forall next a, update_next raw patch expected users = Ok (next, a) -> exists user, patched_user patch before = Ok user /\ a = user /\ next = Some (om_set (u_name before) user users)) as Hnext.
    { intros next a. unfold update_next. rewrite Hn, Hb. destruct (match expected with Some e => _ | None => _ end); [done|]. destruct (patched_user patch before) as [user'|]; [|done]. cbn [rbind].
      destruct (protectLastAdmin _ _); [|done]. cbn [rbind]. intros [= <- <-]. by exists user'. }
    destruct (Hr user eq_refl) as [[_ En]|(users' & v' & En & -> & Hp')]; destruct (Hnext _ _ En) as (user' & Ep & -> & Es); [done|]. injection Es as ->.
    exists v', (om_set (u_name before) user' users). split_and!; [done|done|]. intros u. rewrite om_get_set_eq. intros [= <-]. left.
    destruct (accounts_ok_get _ _ _ Hok Hb) as [_ Hcur]. by apply (patched_user_ok _ _ _ Hcur Ep).
Qed.

(** C13: a changed account ends its sessions. Once an account has been removed,
    or its role, its password or whether it is enabled was changed, or its
    sessions were revoked, no session that was opened for it before stands for
    anyone again, in any process, whatever becomes of the account afterwards: not
    after it is enabled or promoted again, and not when another account gets its
    name. (Two texts never have the same HMAC, and no later password is salted with the
    old salt.) *)
Theorem changed_account_ends_sessions `{Tokens} cfg d es e later before j s lk :
  (forall a b, mac (ac_sessionSecret cfg) a = mac (ac_sessionSecret cfg) b -> a = b) -> ac_enabled cfg = true ->
  let w := office_run (new_office d) es in
  in_file (of_disk w) (u_name before) before -> Forall deed_ok (e :: later) -> Forall (fresh_salts before) later ->
  ends_sessions before (de_change e) (office_step w e).2 ->
  let w' := office_run (office_step w e).1 later in
  of_procs w' !! j = Some s ->
  (principalOf cfg lk (of_disk w') (Some (subjectFor cfg before)) s).2 = None.
Proof.
  intros Hmac Hen w (v & users & Hv & Hp & Hb) Hok Hfr Hends w' Hs. inversion Hok; subst.
  assert (user_ok before) as Hbefore by (destruct (f_content v); [by eapply accounts_ok_get; [eapply parse_accounts_ok|]|done]).
  pose proof (ends_sessions_moved_on before w e v users Hv Hp Hb ltac:(done) Hends) as Hm.
  apply (office_run_moved_on before later ltac:(done) Hfr) in Hm as (v' & users' & Hv' & Hp' & Hm). fold w' in Hv'.
  destruct (principalOf cfg lk (of_disk w') (Some (subjectFor cfg before)) s).2 as [p|] eqn:E; [exfalso|done].
  assert (office_ok w') as Hw' by (unfold w'; apply office_run_ok, office_step_ok, office_run_ok, map_Forall_empty).
  destruct (principalOf_follows cfg lk _ _ s p Hen (Hw' j s Hs) E) as (name & u & (v2 & users2 & Hv2 & Hp2 & Hu) & _ & [= Hsub] & _).
  rewrite Hv' in Hv2. injection Hv2 as <-. rewrite Hp' in Hp2. injection Hp2 as <-.
  assert (accounts_ok users') as Hok' by (destruct (f_content v'); [by eapply parse_accounts_ok|done]).
  destruct (accounts_ok_get _ _ _ Hok' Hu) as [Hname Huok]. destruct (subject_inj cfg before u Hmac Hbefore Huok Hsub) as (En & Es & Ev).
  rewrite <- Hname, <- En in Hu. destruct (Hm u Hu) as [Hlt|Hne]; [lia|congruence].
Qed.

(** ** Signing in *)

(** The accounts a look that reads the file finds. *)
Definition file_accounts (d : disk) : accounts := match d with Some v => default [] (f_content v ≫= parse_accounts) | None => [] end.

(** signing in takes the present password of an enabled account. Between
    the two halves of [verifyRecord] the password is hashed and anything may
    happen; whoever it answers is an account of the file as it is afterwards, under
    the name that was typed, enabled, and the password that was typed hashes to its
    present hash under its present salt; the session opened is for that account.
    And the right password does sign in: with the file unchanged and read, an
    enabled account and fewer than eight hashes in progress, the two halves answer that account. *)
Theorem sign_in_needs_the_present_password `{Tokens, Scrypt} cfg rawName password :
  (forall lk d active random s s1 name user hash lk' d' s' s2 c,
    verify_begin lk d active rawName password random s = (s1, Some (name, user, Ok hash)) -> follows d' s' ->
    verify_end lk' d' name user hash s' = (s2, Some c) ->
    name = normalise rawName /\ in_file d' name c /\ u_disabled c = false /\ scrypt password (u_salt c) = u_hash c /\
    forall lk2 s3 subject, login_end cfg lk2 d' (Some c) s2 = (s3, Ok subject) -> subject = subjectFor cfg c) /\
  (forall d active random s u, follows d s -> in_file d (normalise rawName) u -> u_disabled u = false -> scrypt password (u_salt u) = u_hash u ->
    js_length rawName <= 32 -> js_length password <= 1024 -> active < 8 ->
    us_users (refresh Readable d s) = file_accounts d ->
    exists s1 hash, verify_begin Readable d active rawName password random s = (s1, Some (normalise rawName, Some u, Ok hash)) /\
      (verify_end Readable d (normalise rawName) (Some u) hash s1).2 = Some u).
Proof.
  split.
  - intros lk d active random s s1 name user hash lk' d' s' s2 c. unfold verify_begin, verify_end, get. destruct (_ || _); [done|]. intros [= _ <- <- Eh] Hf.
    destruct (om_get (normalise rawName) (us_users (refresh lk d s))) as [u|]; [|done]. destruct (u_disabled u); [done|].
    destruct (refresh_follows lk' d' s' Hf) as [_ Hin]. destruct (om_get (normalise rawName) (us_users (refresh lk' d' s'))) as [c'|] eqn:Ec; [|done].
    destruct (u_disabled c') eqn:Ed; [done|]. cbn [orb]. case_bool_decide as E1; [|done]. case_bool_decide as E2; [|done]. case_bool_decide as E3; [|done]. cbn [negb orb].
    case_bool_decide as E4; [|done]. intros [= <- <-]. unfold passwordHash in Eh. destruct (8 <=? active); [done|]. injection Eh as Eh.
    split_and!; [done|by apply Hin|done|congruence|]. intros lk2 s3 subj. unfold login_end. destruct (subject _ _ _ _ _) as [s4 now_]. case_bool_decide; [by intros [= _ <-]|done].
  - intros d active random s u Hf (v & users & -> & Hp & Hu) Hd Hpw Hl1 Hl2 Ha Hus. unfold verify_begin, get. unfold file_accounts in Hus.
    destruct (Z.ltb_spec 32 (js_length rawName)); [lia|]. destruct (Z.ltb_spec 1024 (js_length password)); [lia|]. cbn [orb].
    rewrite Hp in Hus. change (default [] (Some users)) with users in Hus.
    assert (MAX_FILE_BYTES <? f_size v = false) as Hz by (destruct (_ <? _) eqn:E; [|done]; unfold refresh in Hus; rewrite E in Hus; cbn in Hus; by subst users).
    rewrite Hus, Hu.
    unfold passwordHash. destruct (Z.leb_spec 8 active); [lia|]. eexists _, _. split; [done|]. unfold verify_end. rewrite Hd. unfold get.
    assert (us_users (refresh Readable (Some v) (refresh Readable (Some v) s)) = users) as ->.
    { assert (us_seen (refresh Readable (Some v) s) = Seen (f_id v)) as Hseen.
      { unfold refresh. rewrite Hz. case_bool_decide; [done|]. by rewrite Hp. }
      unfold refresh at 1. rewrite Hz. by rewrite bool_decide_eq_true_2. }
    rewrite Hu, Hd. rewrite !bool_decide_eq_true_2 by done. done.
Qed.

(** ** The hypotheses can hold *)

Definition repeated (n : nat) (c : Ascii.ascii) : string := String.string_of_list_ascii (List.repeat c n).
Definition hex_a : Ascii.ascii := Ascii.ascii_of_N 97.
Definition hex_b : Ascii.ascii := Ascii.ascii_of_N 98.
Definition flat_scrypt : Scrypt := {| scrypt password _ := repeated 64 (if js_length password =? 12 then hex_a else hex_b) |}.
Definition ann : AlgoUser :=
  {| u_name := "ann"; u_salt := repeated 32 hex_a; u_hash := repeated 64 hex_a; u_createdAt := 1; u_role := Admin; u_disabled := false; u_sessionVersion := 0; u_teamRoles := [Ml] |}.
Definition bob : AlgoUser :=
  {| u_name := "bob"; u_salt := repeated 32 hex_b; u_hash := repeated 64 hex_a; u_createdAt := 2; u_role := Operator; u_disabled := false; u_sessionVersion := 3; u_teamRoles := [] |}.
Definition example_accounts : accounts := [("ann", ann); ("bob", bob)].
Definition example_disk : disk := Some {| f_id := 0; f_content := Some (accounts_json example_accounts); f_size := json_bytes (accounts_json example_accounts) |}.
Definition anyone (_ : accounts) : result string unit := Ok tt.
Definition doing (i : nat) (c : change) : deed := {| de_process := i; de_change := c; de_busy := false; de_look := Readable; de_outcome := Written |}.
Definition to_role (r : AdminRole) : Patch := {| pt_role := Some (JStr (role_text r)); pt_disabled := None; pt_revoke := false; pt_salt := None; pt_hash := None; pt_teamRoles := None |}.
Definition demo_auth : AlgoAuthConfig := {| ac_enabled := true; ac_sessionSecret := "secret" |}.

Lemma ann_ok : user_ok ann.
Proof. split; try reflexivity; [discriminate|vm_compute; split; discriminate|exists [Ml]; reflexivity]. Qed.
Lemma bob_ok : user_ok bob.
Proof. split; try reflexivity; [discriminate|vm_compute; split; discriminate|exists []; reflexivity]. Qed.

Lemma saved_accounts_are_read_back_witness : parse_accounts (accounts_json example_accounts) = Some example_accounts.
Proof.
  apply saved_accounts_are_read_back. split; [|apply (bool_decide_unpack _); vm_compute; exact I].
  constructor; [split; [reflexivity|apply ann_ok]|]. constructor; [split; [reflexivity|apply bob_ok]|constructor].
Defined.

(** Demoting the last admin is refused; removing an operator is not. *)
Definition some_deeds : list deed := [doing 0 Launch; doing 1 Launch; doing 0 (Updating anyone "Ann " (to_role Viewer) None); doing 1 (Removing anyone "bob" None)].

Lemma an_admin_always_remains_witness :
  (office_step (office_run (new_office example_disk) [doing 0 Launch]) (doing 0 (Updating anyone "Ann " (to_role Viewer) None))).2 =
    Replied (Err "cannot remove, disable or demote the final enabled admin") /\
  exists v users, of_disk (office_run (new_office example_disk) some_deeds) = Some v /\ has_admin users = true /\ us_users (newAlgoUsers Readable (Some v)) = users.
Proof.
  split; [vm_compute; reflexivity|]. destruct (an_admin_always_remains (new_office example_disk) some_deeds) as (v & users & Hv & Hp & Ha & Hn & _); [repeat constructor| |].
  - eexists _, example_accounts. split; [reflexivity|]. split; vm_compute; reflexivity.
  - exists v, users. split; [exact Hv|]. split; [exact Ha|]. rewrite Hn; [reflexivity|]. vm_compute in Hv. injection Hv as <-. apply Z.leb_le. vm_compute. reflexivity.
Defined.

Lemma access_follows_the_file_witness :
  (@requireCapability demo_tokens demo_auth Readable example_disk AccountsManage (Some (@subjectFor demo_tokens demo_auth ann)) (newAlgoUsers Readable example_disk)).2 = Next /\
  exists name u, in_file example_disk name u /\ u_disabled u = false /\
    Some (@subjectFor demo_tokens demo_auth ann) = Some (@subjectFor demo_tokens demo_auth u) /\ AccountsManage ∈ pr_capabilities (principal name (u_role u) true).
Proof.
  split; [vm_compute; reflexivity|].
  apply (@access_follows_the_file demo_tokens demo_auth example_disk [doing 0 Launch] 0 (newAlgoUsers Readable example_disk) Readable AccountsManage); [reflexivity|vm_compute; reflexivity|vm_compute; reflexivity].
Defined.

(** Bob is made a viewer and an operator again: his old session stays ended. *)
Lemma changed_account_ends_sessions_witness :
  let w := office_run (new_office example_disk) [doing 0 Launch; doing 1 Launch] in
  let e := doing 0 (Updating anyone "bob" (to_role Viewer) None) in
  let w' := office_run (office_step w e).1 [doing 0 (Updating anyone "bob" (to_role Operator) None)] in
  exists s, of_procs w' !! 1%nat = Some s /\
    (@principalOf demo_tokens demo_auth Readable (of_disk w) (Some (@subjectFor demo_tokens demo_auth bob)) s).2 = Some (principal "bob" Operator true) /\
    (@principalOf demo_tokens demo_auth Readable (of_disk w') (Some (@subjectFor demo_tokens demo_auth bob)) s).2 = None.
Proof.
  intros w e w'. exists (newAlgoUsers Readable example_disk). split; [vm_compute; reflexivity|]. split; [vm_compute; reflexivity|].
  apply (@changed_account_ends_sessions demo_tokens demo_auth example_disk [doing 0 Launch; doing 1 Launch] e [doing 0 (Updating anyone "bob" (to_role Operator) None)] bob 1).
  - exact demo_mac_inj.
  - reflexivity.
  - exists {| f_id := 0; f_content := Some (accounts_json example_accounts); f_size := json_bytes (accounts_json example_accounts) |}, example_accounts. split; [reflexivity|]. split; vm_compute; reflexivity.
  - repeat constructor.
  - repeat constructor. discriminate.
  - vm_compute. split; [reflexivity|]. right. left. discriminate.
  - vm_compute. reflexivity.
Defined.

Lemma sign_in_needs_the_present_password_witness :
  exists s1 hash,
    @verify_begin flat_scrypt Readable example_disk 0 " Ann" "twelve chars" "" (newAlgoUsers Readable example_disk) = (s1, Some (normalise " Ann", Some ann, Ok hash)) /\
    (verify_end Readable example_disk (normalise " Ann") (Some ann) hash s1).2 = Some ann.
Proof.
  apply (proj2 (@sign_in_needs_the_present_password demo_tokens flat_scrypt demo_auth " Ann" "twelve chars")).
  - apply (refresh_follows Readable example_disk {| us_users := []; us_seen := Outdated; us_invalid := false |}). intros id E. discriminate E.
  - exists {| f_id := 0; f_content := Some (accounts_json example_accounts); f_size := json_bytes (accounts_json example_accounts) |}, example_accounts. split; [reflexivity|]. split; vm_compute; reflexivity.
  - reflexivity.
  - reflexivity.
  - vm_compute. discriminate.
  - vm_compute. discriminate.
  - lia.
  - vm_compute. reflexivity.
Defined.

(** A file that could not be read once is not read again until it changes:
    everybody is locked out meanwhile. *)
Example one_failed_read_locks_out :
  let s := newAlgoUsers NoRead example_disk in us_users (refresh Readable example_disk s) = [] /\ us_invalid (refresh Readable example_disk s) = true.
Proof. split; reflexivity. Qed.
