(* ===== verification/Campus.v ===== *)
(** The campus view of the web tier: what an edge publishes
    ([edge/runtime.ts]), who may publish it ([web/publishers.ts]), the check of
    what arrives and the merge of the snapshots of several edges
    ([web/store.ts]), and the routes around them
    ([modules/occupancy/routes/occupancy-router.ts]).

    A TypeScript type guard is a reader: it answers with the value at its type
    exactly when the guard of the code answers true. [String(x)] of an object
    with a field [toString] throws, so a reader can also throw. *)

From S2P Require Import Prelude Bytes Json Seats Geometry Registry Occupancy.

(** @shared/types.ts 84-91 OccupancySnapshot *)
Record OccupancySnapshot := {
  os_edgeId : string; os_siteId : string; os_siteName : string; os_generatedAt : Q; os_floors : list FloorState }.

(** ** What an edge publishes *)

(** [OccupancyEngine.snapshot] with the edge and the site around its floors.
    @edge/occupancy.ts 310-310 snapshot *)
Definition edge_snapshot (reg : Registry) (edgeId : string) (e : Engine) (now : Z) : Engine * OccupancySnapshot :=
  let '(e, floors) := snapshot reg e now in
  (e, {| os_edgeId := edgeId; os_siteId := rg_siteId reg; os_siteName := rg_siteName reg; os_generatedAt := inject_Z now; os_floors := floors |}).

(** @edge/runtime.ts 195-198 publicSnapshot *)
Definition publicSnapshot (reg : Registry) (s : OccupancySnapshot) : OccupancySnapshot :=
  let pub := map fd_id (List.filter (fun f => bool_decide (fd_visibility f = Public)) (rg_floors reg)) in
  {| os_edgeId := os_edgeId s; os_siteId := os_siteId s; os_siteName := os_siteName s; os_generatedAt := os_generatedAt s;
     os_floors := List.filter (fun f => includes (fl_id f) pub) (os_floors s) |}.

(** [JSON.stringify] of a snapshot, as the value it is the text of. *)
Definition opt_json {A} (f : A -> json) (o : option A) : json := match o with Some a => f a | None => JNull end.
Definition point_json (p : Q * Q) : json := JArr [JNum p.1; JNum p.2].

(** @shared/types.ts 21-33 SeatState *)
Definition seat_json (s : SeatState) : json :=
  JObj [("id", JStr (st_id s)); ("x", JNum (st_x s)); ("y", JNum (st_y s)); ("side", JStr (side_text (st_side s)));
        ("index", JInt (st_index s)); ("occupied", opt_json JBool (st_occupied s)); ("neighbors", JArr (map JStr (st_neighbors s)))].

Definition status_text (s : CoverageStatus) : string :=
  match s with CovOk => "ok" | CovFallback => "fallback" | CovUnknown => "unknown" end.

Definition rect_json (r : Rect) : json :=
  JObj [("x", JNum (rect_x r)); ("y", JNum (rect_y r)); ("width", JNum (rect_width r)); ("height", JNum (rect_height r))].

(** @shared/types.ts 42-53 TableState *)
Definition table_json (t : TableState) : json :=
  JObj [("id", JStr (tb_id t)); ("name", JStr (tb_name t)); ("zoneId", JStr (tb_zoneId t)); ("rect", rect_json (tb_rect t));
        ("capacity", JInt (tb_capacity t)); ("occupied", opt_json JInt (tb_occupied t)); ("free", opt_json JInt (tb_free t));
        ("status", JStr (status_text (tb_status t))); ("seats", JArr (map seat_json (tb_seats t)))].

(** @shared/types.ts 55-61 ZoneState *)
Definition zone_json (z : ZoneState) : json :=
  JObj [("id", JStr (zn_id z)); ("name", JStr (zn_name z)); ("polygon", JArr (map point_json (zn_polygon z)));
        ("people", opt_json JInt (zn_people z))].

(** @shared/types.ts 63-70 FloorTotals *)
Definition totals_json (t : FloorTotals) : json :=
  JObj [("seats", JInt (tt_seats t)); ("free", JInt (tt_free t)); ("occupied", JInt (tt_occupied t));
        ("unknownSeats", JInt (tt_unknownSeats t)); ("tablesFullyFree", JInt (tt_tablesFullyFree t))].

(** @shared/types.ts 72-82 FloorState *)
Definition floor_json (f : FloorState) : json :=
  JObj [("id", JStr (fl_id f)); ("building", JStr (fl_building f)); ("name", JStr (fl_name f)); ("width", JNum (fl_width f));
        ("height", JNum (fl_height f)); ("outline", JArr (map point_json (fl_outline f))); ("zones", JArr (map zone_json (fl_zones f)));
        ("tables", JArr (map table_json (fl_tables f))); ("totals", totals_json (fl_totals f))].

(** @edge/publisher.ts 32-32 publish *)
Definition snapshot_json (s : OccupancySnapshot) : json :=
  JObj [("version", JInt 1); ("edgeId", JStr (os_edgeId s)); ("site", JObj [("id", JStr (os_siteId s)); ("name", JStr (os_siteName s))]);
        ("generatedAt", JNum (os_generatedAt s)); ("floors", JArr (map floor_json (os_floors s)))].

(** ** The check of what arrives *)

(** A guard that answers false, or a throw. *)
Inductive refusal := Invalid | Thrown.

Notation "'assert!' c 'in' k" := (if c then k else Err Invalid)
  (at level 10, c at level 100, k at level 200) : result_scope.

(** The value of a field that is known to be there. *)
Definition at_key (k : string) (o : list (string * json)) : json := default JNull (field k o).

(** @web/store.ts 73-76 record *)
Definition record (v : json) (keys : list string) : result refusal (list (string * json)) :=
  match v with
  | JObj o => assert! Nat.eqb (length (om_keys o)) (length keys) && forallb (fun k => om_has k o) keys in Ok o
  | _ => Err Invalid
  end.

(** @web/store.ts 77-79 text *)
Definition text_upto (max : Z) (v : json) : result refusal string :=
  match v with JStr s => assert! (0 <? js_length s) && (js_length s <=? max) in Ok s | _ => Err Invalid end.
Definition text : json -> result refusal string := text_upto 255.

(** From here on the text of a number reads as [Infinity]. *)
Definition too_large : Q := inject_Z (2 ^ 1024 - 2 ^ 970).

(** @web/store.ts 80-80 finite *)
Definition finite (v : json) : result refusal Q :=
  match v with JNum q => assert! Qltb (Qabs q) too_large in Ok q | _ => Err Invalid end.

(** @web/store.ts 81-81 nonnegative *)
Definition nonnegative (v : json) : result refusal Q :=
  let! q := finite v in assert! Qle_bool 0 q in Ok q.

(** @web/store.ts 82-84 count *)
Definition count_upto (max : Z) (v : json) : result refusal Z :=
  let! _ := nonnegative v in
  match as_safe_integer v with Some z => assert! z <=? max in Ok z | None => Err Invalid end.
Definition count : json -> result refusal Z := count_upto 1000000.

(** @web/store.ts 85-85 list *)
Definition list_upto (max : Z) (v : json) : result refusal (list json) :=
  match v with JArr l => assert! Z.of_nat (length l) <=? max in Ok l | _ => Err Invalid end.

(** The [id] of an item, if it is a string. *)
Definition item_id (v : json) : option string :=
  match v with JObj o => match field "id" o with Some (JStr s) => Some s | _ => None end | _ => None end.

(** @web/store.ts 86-89 unique *)
Definition unique (l : list json) : result refusal unit :=
  match mapM item_id l with Some ids => assert! bool_decide (NoDup ids) in Ok tt | None => Err Invalid end.

Definition point (v : json) : result refusal (Q * Q) :=
  match v with JArr [x; y] => let! x := finite x in let! y := finite y in Ok (x, y) | _ => Err Invalid end.

(** @web/store.ts 90-93 polygon *)
Definition polygon (v : json) : result refusal (list (Q * Q)) :=
  let! l := list_upto 1000 v in
  assert! Nat.leb 3 (length l) in
  rmap point l.

(** [String(v)]; what the text of a number is does not matter to the callers. *)
Fixpoint js_text (v : json) : result refusal string :=
  match v with
  | JNull => Ok "null"
  | JBool b => Ok (if b then "true" else "false")
  | JNum _ => Ok "0"
  | JStr s => Ok s
  | JArr l =>
      (fix join (l : list json) : result refusal string :=
         match l with
         | [] => Ok ""
         | x :: rest =>
             let! s := match x with JNull => Ok "" | _ => js_text x end in
             match rest with [] => Ok s | _ => let! s' := join rest in Ok (s +:+ "," +:+ s') end
         end) l
  | JObj o => if om_has "toString" o then Err Thrown else Ok "[object Object]"
  end.

Definition side_named (s : string) : option SeatSide :=
  List.find (fun x => bool_decide (side_text x = s)) [L; R; T; B].

(** [null], [true] or [false]. *)
Definition tri (v : json) : result refusal (option bool) :=
  match v with JNull => Ok None | JBool b => Ok (Some b) | _ => Err Invalid end.

(** The side is tested by its text, so an array that prints as a side passes
    as well; in what is stored it stays an array.
    @web/store.ts 94-99 validSeat *)
Definition validSeat (v : json) : result refusal SeatState :=
  let! o := record v ["id"; "x"; "y"; "side"; "index"; "occupied"; "neighbors"] in
  let! id := text (at_key "id" o) in
  let! x := finite (at_key "x" o) in
  let! y := finite (at_key "y" o) in
  let! s := js_text (at_key "side" o) in
  let! side := of_option Invalid (side_named s) in
  let! index := count_upto 100 (at_key "index" o) in
  let! occupied := tri (at_key "occupied" o) in
  let! near := list_upto 100 (at_key "neighbors" o) in
  let! neighbors := rmap text near in
  assert! bool_decide (NoDup neighbors) in
  Ok {| st_id := id; st_x := x; st_y := y; st_side := side; st_index := index; st_occupied := occupied; st_neighbors := neighbors |}.

Definition validRect (v : json) : result refusal Rect :=
  let! r := record v ["x"; "y"; "width"; "height"] in
  let! x := finite (at_key "x" r) in
  let! y := finite (at_key "y" r) in
  let! width := finite (at_key "width" r) in
  assert! Qltb 0 width in
  let! height := finite (at_key "height" r) in
  assert! Qltb 0 height in
  Ok {| rect_x := x; rect_y := y; rect_width := width; rect_height := height |}.

Definition is_null (v : json) : bool := match v with JNull => true | _ => false end.

(** [t.seats.every((s) => s.occupied === null)], and of booleans. *)
Definition all_open (seats : list SeatState) : bool := forallb (fun s => bool_decide (st_occupied s = None)) seats.
Definition all_known (seats : list SeatState) : bool := forallb (fun s => negb (bool_decide (st_occupied s = None))) seats.

(** The numbers of a table against its seats: status, occupied and free.
    @web/store.ts 109-112 validTable *)
Definition table_numbers (o : list (string * json)) (capacity : Z) (seats : list SeatState) :
    result refusal (CoverageStatus * (option Z * option Z)) :=
  let known status :=
    let! occupied := count_upto capacity (at_key "occupied" o) in
    let! free := count_upto capacity (at_key "free" o) in
    assert! (occupied + free =? capacity) && all_known seats && (count_occupied seats =? occupied) in
    Ok (status, (Some occupied, Some free)) in
  match at_key "status" o with
  | JStr s =>
      if bool_decide (s = "unknown") then
        assert! is_null (at_key "occupied" o) && is_null (at_key "free" o) && all_open seats in Ok (CovUnknown, (None, None))
      else if bool_decide (s = "ok") then known CovOk
      else if bool_decide (s = "fallback") then known CovFallback
      else Err Invalid
  | _ => Err Invalid
  end.

(** [t.seats.some((s) => s.neighbors.some((id) => id === s.id || !ids.has(id)))] *)
Definition strays (seats : list SeatState) : bool :=
  existsb (fun s => existsb (fun id => bool_decide (id = st_id s) || negb (includes id (map st_id seats))) (st_neighbors s)) seats.

(** @web/store.ts 100-113 validTable *)
Definition validTable (v : json) : result refusal TableState :=
  let! o := record v ["id"; "name"; "zoneId"; "rect"; "capacity"; "occupied"; "free"; "status"; "seats"] in
  let! id := text (at_key "id" o) in
  let! name := text (at_key "name" o) in
  let! zoneId := text (at_key "zoneId" o) in
  let! capacity := count_upto 100 (at_key "capacity" o) in
  assert! 1 <=? capacity in
  let! rect := validRect (at_key "rect" o) in
  let! l := list_upto 100 (at_key "seats" o) in
  assert! Z.of_nat (length l) =? capacity in
  let! _ := unique l in
  let! seats := rmap validSeat l in
  assert! negb (strays seats) in
  let! (status, (occupied, free)) := table_numbers o capacity seats in
  Ok {| tb_id := id; tb_name := name; tb_zoneId := zoneId; tb_rect := rect; tb_capacity := capacity; tb_occupied := occupied;
        tb_free := free; tb_status := status; tb_seats := seats |}.

(** @web/store.ts 118-120 validFloor *)
Definition validZone (v : json) : result refusal ZoneState :=
  let! o := record v ["id"; "name"; "polygon"; "people"] in
  let! id := text (at_key "id" o) in
  let! name := text (at_key "name" o) in
  let! shape := polygon (at_key "polygon" o) in
  let! people := match at_key "people" o with JNull => Ok None | p => let! n := count p in Ok (Some n) end in
  Ok {| zn_id := id; zn_name := name; zn_polygon := shape; zn_people := people |}.

(** @web/store.ts 122-123 validFloor *)
Definition validTotals (v : json) : result refusal FloorTotals :=
  let! o := record v ["seats"; "free"; "occupied"; "unknownSeats"; "tablesFullyFree"] in
  let! seats := count (at_key "seats" o) in
  let! free := count (at_key "free" o) in
  let! occupied := count (at_key "occupied" o) in
  let! unknownSeats := count (at_key "unknownSeats" o) in
  let! tablesFullyFree := count (at_key "tablesFullyFree" o) in
  Ok {| tt_seats := seats; tt_free := free; tt_occupied := occupied; tt_unknownSeats := unknownSeats; tt_tablesFullyFree := tablesFullyFree |}.

#[export] Instance totals_eq_dec : EqDecision FloorTotals.
Proof. solve_decision. Defined.

(** @web/store.ts 114-135 validFloor *)
Definition validFloor (v : json) : result refusal FloorState :=
  let! o := record v ["id"; "building"; "name"; "width"; "height"; "outline"; "zones"; "tables"; "totals"] in
  let! id := text (at_key "id" o) in
  let! building := text (at_key "building" o) in
  let! name := text (at_key "name" o) in
  let! width := finite (at_key "width" o) in
  assert! Qltb 0 width in
  let! height := finite (at_key "height" o) in
  assert! Qltb 0 height in
  let! outline := polygon (at_key "outline" o) in
  let! zl := list_upto 1000 (at_key "zones" o) in
  let! _ := unique zl in
  let! zones := rmap validZone zl in
  let! tl := list_upto 1000 (at_key "tables" o) in
  let! _ := unique tl in
  let! tables := rmap validTable tl in
  let! totals := validTotals (at_key "totals" o) in
  assert! forallb (fun t => includes (tb_zoneId t) (map zn_id zones)) tables in
  assert! bool_decide (NoDup (tables ≫= fun t => map st_id (tb_seats t))) in
  assert! bool_decide (totals = floor_totals tables) in
  Ok {| fl_id := id; fl_building := building; fl_name := name; fl_width := width; fl_height := height; fl_outline := outline;
        fl_zones := zones; fl_tables := tables; fl_totals := totals |}.

Definition is_one (v : json) : bool := match v with JNum q => Qeqb q 1 | _ => false end.

(** @web/store.ts 66-71 isSnapshot *)
Definition isSnapshot (v : json) : result refusal OccupancySnapshot :=
  let! o := record v ["version"; "edgeId"; "site"; "generatedAt"; "floors"] in
  assert! is_one (at_key "version" o) in
  let! edgeId := text_upto 99 (at_key "edgeId" o) in
  let! site := record (at_key "site" o) ["id"; "name"] in
  let! siteId := text (at_key "id" site) in
  let! siteName := text (at_key "name" site) in
  let! generatedAt := nonnegative (at_key "generatedAt" o) in
  let! fl := list_upto 200 (at_key "floors" o) in
  let! _ := unique fl in
  let! floors := rmap validFloor fl in
  Ok {| os_edgeId := edgeId; os_siteId := siteId; os_siteName := siteName; os_generatedAt := generatedAt; os_floors := floors |}.

(** ** The merge *)

(** @shared/types.ts 94-100 CampusFloor *)
Record CampusFloor := { cf_floor : FloorState; cf_edgeId : string; cf_updatedAt : Z; cf_stale : bool }.

(** @web/store.ts 10-13 SnapshotStore *)
Record SnapshotStore := { ss_staleMs : Z; ss_latest : list (string * (OccupancySnapshot * Z)) }.

Definition new_store (staleMs : Z) : SnapshotStore := {| ss_staleMs := staleMs; ss_latest := [] |}.

(** @web/store.ts 15-20 put *)
Definition put (s : SnapshotStore) (snap : OccupancySnapshot) (now : Z) : bool * SnapshotStore :=
  if negb (om_has (os_edgeId snap) (ss_latest s)) && (256 <=? Z.of_nat (length (ss_latest s))) then (false, s)
  else (true, {| ss_staleMs := ss_staleMs s; ss_latest := om_set (os_edgeId snap) (snap, now) (ss_latest s) |}).

(** @web/store.ts 45-59 blank *)
Definition blank (f : FloorState) : FloorState :=
  let tables := map (fun t =>
    {| tb_id := tb_id t; tb_name := tb_name t; tb_zoneId := tb_zoneId t; tb_rect := tb_rect t; tb_capacity := tb_capacity t;
       tb_occupied := None; tb_free := None; tb_status := CovUnknown;
       tb_seats := map (fun s => {| st_id := st_id s; st_x := st_x s; st_y := st_y s; st_side := st_side s; st_index := st_index s;
                                    st_occupied := None; st_neighbors := st_neighbors s |}) (tb_seats t) |}) (fl_tables f) in
  {| fl_id := fl_id f; fl_building := fl_building f; fl_name := fl_name f; fl_width := fl_width f; fl_height := fl_height f;
     fl_outline := fl_outline f; fl_tables := tables;
     fl_zones := map (fun z => {| zn_id := zn_id z; zn_name := zn_name z; zn_polygon := zn_polygon z; zn_people := None |}) (fl_zones f);
     fl_totals := {| tt_seats := tt_seats (fl_totals f); tt_free := 0; tt_occupied := 0; tt_unknownSeats := tt_seats (fl_totals f);
                     tt_tablesFullyFree := 0 |} |}.

(** One floor of one snapshot.
    @web/store.ts 26-33 view *)
Definition show_floor (stale : bool) (edgeId : string) (receivedAt : Z) (byFloor : list (string * CampusFloor)) (f : FloorState) :
    list (string * CampusFloor) :=
  let shown := {| cf_floor := if stale then blank f else f; cf_edgeId := edgeId; cf_updatedAt := receivedAt; cf_stale := stale |} in
  match om_get (fl_id f) byFloor with
  | None => om_set (fl_id f) shown byFloor
  | Some previous => if cf_updatedAt previous <=? receivedAt then om_set (fl_id f) shown byFloor else byFloor
  end.

(** @web/store.ts 24-34 view *)
Definition show_edge (staleMs now : Z) (byFloor : list (string * CampusFloor)) (p : OccupancySnapshot * Z) : list (string * CampusFloor) :=
  let '(snap, receivedAt) := p in
  fold_left (show_floor (staleMs <? now - receivedAt) (os_edgeId snap) receivedAt) (os_floors snap) byFloor.

Definition by_floor (s : SnapshotStore) (now : Z) : list (string * CampusFloor) :=
  fold_left (show_edge (ss_staleMs s) now) (map snd (ss_latest s)) [].

Section view.
Context {collation : Collation}.

(** @web/store.ts 36-36 view *)
Definition floor_before (a b : CampusFloor) : bool :=
  let c := localeCompare (fl_building (cf_floor a)) (fl_building (cf_floor b)) in
  if c =? 0 then localeCompare (fl_name (cf_floor a)) (fl_name (cf_floor b)) <=? 0 else c <=? 0.

(** @web/store.ts 22-38 view *)
Definition view (s : SnapshotStore) (now : Z) : list CampusFloor := isort floor_before (map snd (by_floor s now)).
End view.

(** @web/store.ts 40-42 edges *)
Definition edges (s : SnapshotStore) (now : Z) : list (string * Z) :=
  map (fun p => (os_edgeId p.2.1, now - p.2.2)) (ss_latest s).

(** ** Who may publish *)

(** [Buffer.from(s)]: UTF-8, of code units below 256. *)
Definition utf8_bytes (s : string) : list Z :=
  chars s ≫= fun c => if code c <? 128 then [code c] else [192 + code c / 64; 128 + code c mod 64].

(** @web/publishers.ts 7-7 SnapshotPublishers *)
Record Publisher := { pb_token : list Z; pb_floors : list string; pb_revoked : bool }.

Notation SnapshotPublishers := (list (string * Publisher)) (only parsing).

(** [/^[A-Za-z0-9._-]{1,128}$/] *)
Definition is_name_char (c : Ascii.ascii) : bool :=
  is_digit c || is_lower c || is_upper c || (code c =? 46) || (code c =? 95) || (code c =? 45).
Definition is_publisher_name (s : string) : bool := between 1 128 (js_length s) && forallb is_name_char (chars s).

(** [/^[0-9a-f]{64}$/.test(token) && !/^0+$/.test(token)] *)
Definition is_publisher_token (s : string) : bool := is_hex64 s && negb (forallb (fun c => code c =? 48) (chars s)).

Definition bad_identity : string := "invalid snapshot publisher identity or credential".

(** The checks of one entry, and what is kept of it. [seen]: the credentials
    of the entries before.
    @web/publishers.ts 13-13 SnapshotPublishers *)
Definition read_publisher (seen : list string) (id : string) (v : json) : result string (string * Publisher) :=
  match v with
  | JObj o =>
      throw_if negb (is_publisher_name id) || has_extra ["token"; "floors"; "revoked"] o with bad_identity in
      match field "token" o, field "floors" o with
      | Some (JStr token), Some (JArr l) =>
          throw_if negb (is_publisher_token token) || includes token seen || Nat.ltb 100 (length l) with bad_identity in
          let! floors := of_option bad_identity (mapM as_string l) in
          throw_if negb (forallb is_publisher_name floors) || negb (bool_decide (NoDup floors)) with bad_identity in
          let! revoked := match field "revoked" o with None => Ok false | Some (JBool b) => Ok b | Some _ => Err bad_identity end in
          Ok (token, {| pb_token := utf8_bytes token; pb_floors := floors; pb_revoked := revoked |})
      | _, _ => Err bad_identity
      end
  | _ => Err bad_identity
  end.

(** @web/publishers.ts 12-16 SnapshotPublishers *)
Fixpoint read_publishers (secrets owners : list string) (l : list (string * json)) (entries : SnapshotPublishers) :
    result string SnapshotPublishers :=
  match l with
  | [] => Ok entries
  | (id, v) :: rest =>
      let! (token, p) := read_publisher secrets id v in
      throw_if existsb (fun floor => includes floor owners) (pb_floors p) with "snapshot floor must have one authorized publisher" in
      read_publishers (secrets ++ [token]) (owners ++ pb_floors p) rest (om_set id p entries)
  end.

(** @web/publishers.ts 8-17 SnapshotPublishers *)
Definition new_publishers (value : json) : result string SnapshotPublishers :=
  let bad := "invalid snapshot publisher schema" in
  match value with
  | JObj root =>
      match field "version" root, field "edges" root with
      | Some version, Some (JObj entries) =>
          throw_if negb (is_one version) || has_extra ["version"; "edges"] root || Nat.ltb 5000 (length entries) with bad in
          read_publishers [] [] entries []
      | _, _ => Err bad
      end
  | _ => Err bad
  end.

Record Stat := { stat_isFile : bool; stat_size : Z; stat_mode : Z }.

(** [None]: the file cannot be looked at, or its text is not JSON.
    @web/publishers.ts 18-22 fromFile *)
Definition fromFile (s : option Stat) (value : option json) : result string SnapshotPublishers :=
  let! s := of_option "ENOENT" s in
  throw_if negb (stat_isFile s) || (2 * 1024 * 1024 <? stat_size s) || negb (Z.land (stat_mode s) 63 =? 0)
    with "snapshot publisher file must be a bounded mode-0600 file" in
  let! value := of_option "SyntaxError" value in
  new_publishers value.

(** @web/publishers.ts 23-26 authenticate *)
Definition authenticate (ps : SnapshotPublishers) (edgeId : option json) (token : list Z) : bool :=
  match edgeId with
  | Some (JStr id) =>
      match om_get id ps with Some e => negb (pb_revoked e) && bool_decide (token = pb_token e) | None => false end
  | _ => false
  end.

(** @web/publishers.ts 27-30 authorizes *)
Definition authorizes (ps : SnapshotPublishers) (s : OccupancySnapshot) : bool :=
  match om_get (os_edgeId s) ps with
  | Some e => negb (pb_revoked e) && forallb (fun f => includes (fl_id f) (pb_floors e)) (os_floors s)
  | None => false
  end.

(** ** The routes *)

(** @modules/occupancy/routes/occupancy-router.ts 8-15 OccupancyRouterDependencies *)
Record Dependencies := { dp_pushToken : string; dp_publishers : option SnapshotPublishers }.

(** [(header ?? '').replace(/^Bearer /, '')] *)
Definition bearer (header : option string) : string :=
  let h := default "" header in if starts_with "Bearer " h then String.substring 7 (String.length h - 7) h else h.

(** @modules/occupancy/routes/occupancy-router.ts 47-51 hasEdgeToken *)
Definition hasEdgeToken (header : option string) (expectedToken : string) : bool :=
  bool_decide (utf8_bytes (bearer header) = utf8_bytes expectedToken).

(** A push: the status of the answer, whether the listeners are told, and the
    store afterwards. [body] is what the JSON middleware has parsed, if
    anything.
    @modules/occupancy/routes/occupancy-router.ts 20-31 createOccupancyRouter *)
Definition push (d : Dependencies) (authorization : option string) (body : option json) (now : Z) (s : SnapshotStore) :
    (Z * bool) * SnapshotStore :=
  let token := utf8_bytes (bearer authorization) in
  let authenticated :=
    match dp_publishers d with
    | Some ps => authenticate ps (match body with Some (JObj o) => field "edgeId" o | _ => None end) token
    | None => hasEdgeToken authorization (dp_pushToken d)
    end in
  if negb authenticated then ((401, false), s)
  else match match body with Some v => isSnapshot v | None => Err Invalid end with
  | Err Invalid => ((400, false), s)
  | Err Thrown => ((500, false), s)
  | Ok snap =>
      if match dp_publishers d with Some ps => negb (authorizes ps snap) | None => false end then ((403, false), s)
      else let '(stored, s) := put s snap now in
        if negb stored then ((503, false), s) else ((200, true), s)
  end.

Section search.
Context {collation : Collation}.

(** A search for seats: [seats] is what [Number] made of the query ([None]:
    not a number), [floor] the query if it is one string. The answer is
    [None] for a 400. The meter of usage is left out.
    @modules/occupancy/routes/occupancy-router.ts 33-44 createOccupancyRouter *)
Definition search (seats : option Q) (floor : option string) (now : Z) (s : SnapshotStore) : option (list SeatSuggestion) :=
  match seats with
  | Some q =>
      match as_integer (JNum q) with
      | Some n => if between 1 30 n then Some (take 20 (searchSeats (map cf_floor (view s now)) n floor)) else None
      | None => None
      end
  | None => None
  end.
End search.

(** ** What the readers accept *)

(** Takes apart a reader that has answered, the tests it made included. *)
Ltac inv_read H :=
  repeat (inv_ok H;
    try match type of H with
    | (let '(_, _) := ?p in _) = Ok _ => destruct p
    | of_option _ ?o = Ok _ => apply of_option_ok in H
    end);
  try apply Ok_inj in H.

Lemma record_ok v keys o : record v keys = Ok o -> v = JObj o /\ length o = length keys /\ forall k, k ∈ keys -> is_Some (field k o).
Proof.
  unfold record. destruct v as [| | | | |o']; try done. intros H. inv_read H. subst o'. bprop. destruct Hc as [Hl Hk].
  rewrite om_length_keys in Hl. split_and!; [done|done|]. intros k Hin. rewrite forallb_forall in Hk.
  apply list_elem_of_In, Hk in Hin. unfold om_has in Hin. unfold field. by destruct (om_get k o).
Qed.

Lemma text_ok max v s : text_upto max v = Ok s -> v = JStr s /\ 0 < js_length s <= max.
Proof. unfold text_upto. destruct v; try done. intros H. inv_read H. subst. bprop. done. Qed.

Lemma finite_ok v q : finite v = Ok q -> v = JNum q.
Proof. unfold finite. destruct v; try done. intros H. inv_read H. by subst. Qed.

Lemma as_integer_nonneg q z : (0 <= q)%Q -> as_integer (JNum q) = Some z -> 0 <= z.
Proof.
  unfold as_integer, Qle. cbn. intros Hq. destruct (_ mod _ =? 0); [|done]. intros [= <-]. apply Z.div_pos; lia.
Qed.

Lemma count_ok max v n : count_upto max v = Ok n -> 0 <= n <= max /\ as_safe_integer v = Some n.
Proof.
  unfold count_upto, nonnegative. intros H. inv_read H. inv_read Hm. apply finite_ok in Hm0. subst v a.
  destruct (as_safe_integer (JNum a0)) as [z|] eqn:E; [|done]. inv_read H. subst z. bprop. split; [|done]. split; [|done].
  unfold as_safe_integer in E. destruct (as_integer (JNum a0)) as [z|] eqn:Ez; [|done]. destruct (_ && _); [|done]. injection E as ->.
  eapply as_integer_nonneg; [|done]. done.
Qed.

Lemma list_ok max v l : list_upto max v = Ok l -> v = JArr l /\ Z.of_nat (length l) <= max.
Proof. unfold list_upto. destruct v; try done. intros H. inv_read H. subst. bprop. done. Qed.

Lemma unique_ok l u : unique l = Ok u -> exists ids, mapM item_id l = Some ids /\ NoDup ids.
Proof. unfold unique. destruct (mapM item_id l) as [ids|]; [|done]. intros H. inv_read H. bprop. eauto. Qed.

(** The ids of the items are the ids of what is read. *)
Lemma unique_read {A} (read : json -> result refusal A) (name : A -> string) l l' u :
  (forall v a, read v = Ok a -> item_id v = Some (name a)) ->
  unique l = Ok u -> rmap read l = Ok l' -> NoDup (map name l').
Proof.
  intros Hid (ids & Hm & Hnd)%unique_ok Hr. replace (map name l') with ids; [done|].
  apply rmap_ok_iff in Hr. apply mapM_Some in Hm. revert ids Hm Hnd. induction Hr as [|v a l l' Hv _ IH]; intros ids Hm Hnd.
  - by inversion Hm.
  - inversion Hm as [|? id ? ids' Hi Hm']; subst. cbn. apply NoDup_cons in Hnd as [_ Hnd].
    rewrite (Hid v a Hv) in Hi. injection Hi as <-. by rewrite (IH ids').
Qed.

Lemma rmap_Forall {E A B} (f : A -> result E B) (P : B -> Prop) l l' :
  (forall a b, f a = Ok b -> P b) -> rmap f l = Ok l' -> Forall P l'.
Proof. intros Hf Hr%rmap_ok_iff. induction Hr as [|a b l l' Hab _ IH]; constructor; eauto. Qed.

Lemma field_of_key k o v : is_Some (field k o) -> at_key k o = v -> field k o = Some v.
Proof. unfold at_key. intros [w ->]. cbn. congruence. Qed.

(** What reads a record with an [id] reads an item of that id. *)
Lemma item_read v keys o id max : record v keys = Ok o -> "id" ∈ keys -> text_upto max (at_key "id" o) = Ok id -> item_id v = Some id.
Proof.
  intros (-> & _ & Hk)%record_ok Hin [Hid _]%text_ok. unfold item_id. by rewrite (field_of_key _ _ _ (Hk _ Hin) Hid).
Qed.

(** ** Accepted tables and floors *)

Definition seat_ok (s : SeatState) : Prop :=
  0 < js_length (st_id s) <= 255 /\ 0 <= st_index s <= 100 /\ NoDup (st_neighbors s).

(** The seats of a table are as many as it holds, under different names, with
    neighbours among themselves, and its numbers say what they show. *)
Record table_ok (t : TableState) : Prop := {
  ta_id : 0 < js_length (tb_id t) <= 255;
  ta_capacity : 1 <= tb_capacity t <= 100;
  ta_seats : Z.of_nat (length (tb_seats t)) = tb_capacity t;
  ta_names : NoDup (map st_id (tb_seats t));
  ta_seat : Forall seat_ok (tb_seats t);
  ta_near s id : s ∈ tb_seats t -> id ∈ st_neighbors s -> id <> st_id s /\ id ∈ map st_id (tb_seats t);
  ta_shown : table_shown (tb_capacity t) t }.

Record floor_ok (f : FloorState) : Prop := {
  fa_id : 0 < js_length (fl_id f) <= 255;
  fa_size : (0 < fl_width f)%Q /\ (0 < fl_height f)%Q;
  fa_zones : NoDup (map zn_id (fl_zones f));
  fa_names : NoDup (map tb_id (fl_tables f));
  fa_table : Forall table_ok (fl_tables f);
  fa_zone t : t ∈ fl_tables f -> tb_zoneId t ∈ map zn_id (fl_zones f);
  fa_seats : NoDup (fl_tables f ≫= fun t => map st_id (tb_seats t));
  fa_totals : fl_totals f = floor_totals (fl_tables f) }.

(** Reads off what the tests of a reader say of the values it has read. *)
Ltac read_facts :=
  unfold text in *;
  repeat match goal with
  | H : text_upto _ _ = Ok _ |- _ => apply text_ok in H as [_ H]
  | H : count_upto _ _ = Ok _ |- _ => apply count_ok in H as [H _]
  | H : bool_decide _ = true |- _ => apply bool_decide_eq_true in H
  end.

Lemma validSeat_ok v s : validSeat v = Ok s -> seat_ok s /\ item_id v = Some (st_id s).
Proof.
  unfold validSeat, seat_ok. intros H. inv_read H. subst s. cbn [st_id st_index st_neighbors].
  split; [|eapply item_read; [eassumption|by left|eassumption]]. read_facts. done.
Qed.

Lemma all_open_ok seats : all_open seats = true -> Forall (fun x => st_occupied x = None) seats.
Proof. unfold all_open. rewrite forallb_forall. intros H. apply Forall_forall. intros s Hs%list_elem_of_In%H. by bprop. Qed.

Lemma all_known_ok seats : all_known seats = true -> Forall (fun x => st_occupied x <> None) seats.
Proof. unfold all_known. rewrite forallb_forall. intros H. apply Forall_forall. intros s Hs%list_elem_of_In%H. by bprop. Qed.

Lemma count_occupied_nonneg seats : 0 <= count_occupied seats.
Proof. unfold count_occupied. lia. Qed.

Lemma table_numbers_shown o capacity seats status occupied free t :
  table_numbers o capacity seats = Ok (status, (occupied, free)) ->
  tb_seats t = seats -> tb_status t = status -> tb_occupied t = occupied -> tb_free t = free -> table_shown capacity t.
Proof.
  unfold table_numbers, table_shown. intros H <- -> -> ->. destruct (at_key "status" o); try done. case_bool_decide.
  - inv_read H. injection H as <- <- <-. apply andb_true_iff in Hc as [_ Hopen]. left. split_and!; try done. by apply all_open_ok.
  - assert (exists st, st <> CovUnknown /\
      rbind (count_upto capacity (at_key "occupied" o)) (fun occupied => rbind (count_upto capacity (at_key "free" o)) (fun free =>
        if (occupied + free =? capacity) && all_known (tb_seats t) && (count_occupied (tb_seats t) =? occupied)
        then Ok (st, (Some occupied, Some free)) else Err Invalid)) = Ok (status, (occupied, free))) as (st & Hst & H').
    { case_bool_decide; [by exists CovOk|]. case_bool_decide; [by exists CovFallback|done]. }
    clear H. inv_read H'. injection H' as <- <- <-. apply andb_true_iff in Hc as [[Hsum%Z.eqb_eq Hk]%andb_true_iff Hn%Z.eqb_eq].
    read_facts. right. split_and!; [done|by apply all_known_ok|]. exists a, a0. split_and!; (done || lia).
Qed.

Lemma strays_ok seats : strays seats = false ->
  forall s id, s ∈ seats -> id ∈ st_neighbors s -> id <> st_id s /\ id ∈ map st_id seats.
Proof.
  intros H s id Hs%list_elem_of_In Hid%list_elem_of_In. unfold strays in H. apply not_true_iff_false in H.
  destruct (decide (id = st_id s \/ id ∉ map st_id seats)) as [Hbad|Hgood]; [|split; [tauto|]; destruct (decide (id ∈ map st_id seats)); tauto].
  destruct H. apply existsb_exists. exists s. split; [done|]. apply existsb_exists. exists id. split; [done|].
  apply orb_true_iff. rewrite bool_decide_eq_true, negb_true, includes_false. done.
Qed.

Lemma validTable_ok v t : validTable v = Ok t -> table_ok t /\ item_id v = Some (tb_id t).
Proof.
  unfold validTable. intros H. inv_read H. subst t. cbn [tb_id].
  split; [|eapply item_read; [eassumption|by left|eassumption]].
  match goal with Hr : rmap validSeat ?l = Ok ?s, Hu : unique ?l = Ok _ |- _ =>
    pose proof (unique_read validSeat st_id l s _ (fun v a H => proj2 (validSeat_ok v a H)) Hu Hr) as Hnd;
    pose proof (rmap_Forall validSeat seat_ok l s (fun v a H => proj1 (validSeat_ok v a H)) Hr) as Hseats;
    pose proof (rmap_ok_length _ _ _ Hr) as Hlen end.
  bprop. read_facts. constructor; cbn [tb_id tb_capacity tb_seats]; try done; [lia|lia| |].
  - by apply strays_ok.
  - by eapply table_numbers_shown; [eassumption|..].
Qed.

Lemma validZone_id v z : validZone v = Ok z -> item_id v = Some (zn_id z).
Proof.
  unfold validZone. intros H. inv_read H. subst z. cbn [zn_id]. eapply item_read; [eassumption|by left|eassumption].
Qed.

Lemma validFloor_ok v f : validFloor v = Ok f -> floor_ok f /\ item_id v = Some (fl_id f).
Proof.
  unfold validFloor. intros H. inv_read H. subst f. cbn [fl_id].
  split; [|eapply item_read; [eassumption|by left|eassumption]].
  match goal with Hr : rmap validTable ?l = Ok ?s, Hu : unique ?l = Ok _ |- _ =>
    pose proof (unique_read validTable tb_id l s _ (fun v a H => proj2 (validTable_ok v a H)) Hu Hr) as Hnd;
    pose proof (rmap_Forall validTable table_ok l s (fun v a H => proj1 (validTable_ok v a H)) Hr) as Htables end.
  match goal with Hr : rmap validZone ?l = Ok ?s, Hu : unique ?l = Ok _ |- _ =>
    pose proof (unique_read validZone zn_id l s _ validZone_id Hu Hr) as Hzones end.
  read_facts. constructor; cbn; try done.
  - split; apply Qltb_lt; done.
  - intros t Ht%list_elem_of_In. match goal with Hf : forallb _ _ = true |- _ => rewrite forallb_forall in Hf; apply Hf in Ht end.
    by apply includes_true.
Qed.

(** A snapshot that was accepted: its edge has a name and its floors, under
    different names, are whole. *)
Definition snapshot_ok (s : OccupancySnapshot) : Prop :=
  0 < js_length (os_edgeId s) <= 99 /\ NoDup (map fl_id (os_floors s)) /\ Forall floor_ok (os_floors s).

Lemma isSnapshot_ok v s : isSnapshot v = Ok s -> snapshot_ok s.
Proof.
  unfold isSnapshot, snapshot_ok. intros H. inv_read H. subst s. cbn [os_edgeId os_floors].
  match goal with Hr : rmap validFloor ?l = Ok ?s, Hu : unique ?l = Ok _ |- _ =>
    pose proof (unique_read validFloor fl_id l s _ (fun v a H => proj2 (validFloor_ok v a H)) Hu Hr) as Hnd;
    pose proof (rmap_Forall validFloor floor_ok l s (fun v a H => proj1 (validFloor_ok v a H)) Hr) as Hfloors end.
  read_facts. done.
Qed.

(** ** What the merge shows *)

(** Floors with the publication they came in. *)
Definition published (pubs : list (OccupancySnapshot * Z)) : list ((OccupancySnapshot * Z) * FloorState) :=
  pubs ≫= fun p => map (pair p) (os_floors p.1).

Definition shown_as (staleMs now : Z) (x : (OccupancySnapshot * Z) * FloorState) : CampusFloor :=
  let stale := staleMs <? now - x.1.2 in
  {| cf_floor := if stale then blank x.2 else x.2; cf_edgeId := os_edgeId x.1.1; cf_updatedAt := x.1.2; cf_stale := stale |}.

Lemma elem_of_published pubs snap at_ f : ((snap, at_), f) ∈ published pubs <-> (snap, at_) ∈ pubs /\ f ∈ os_floors snap.
Proof.
  unfold published. rewrite list_elem_of_bind. split.
  - intros ([s a] & (f' & [= <- <- <-] & Hf)%list_elem_of_fmap & Hp). done.
  - intros [Hp Hf]. exists (snap, at_). split; [|done]. apply list_elem_of_fmap. by exists f.
Qed.

Lemma by_floor_flat s now :
  by_floor s now = fold_left (fun m x => show_floor (ss_staleMs s <? now - x.1.2) (os_edgeId x.1.1) x.1.2 m x.2)
    (published (map snd (ss_latest s))) [].
Proof.
  unfold by_floor. generalize (@nil (string * CampusFloor)). induction (map snd (ss_latest s)) as [|[snap a] l IH]; intros m; [done|].
  cbn [fold_left]. rewrite IH. unfold published. cbn. rewrite fold_left_app. f_equal.
  generalize m. induction (os_floors snap) as [|f fl IHf]; intros m'; [done|]. cbn. apply IHf.
Qed.

Lemma shown_as_id staleMs now x : fl_id (cf_floor (shown_as staleMs now x)) = fl_id x.2.
Proof. unfold shown_as. cbn. by destruct (_ <? _). Qed.

(** The map of the merge after any part of the floors: each entry is the
    newest of those under its id. *)
Record merged (staleMs now : Z) (l : list ((OccupancySnapshot * Z) * FloorState)) (m : list (string * CampusFloor)) : Prop := {
  mg_keys : NoDup (om_keys m);
  mg_entry id cf : om_get id m = Some cf -> exists x, x ∈ l /\ cf = shown_as staleMs now x /\ fl_id x.2 = id /\
    forall y, y ∈ l -> fl_id y.2 = id -> y.1.2 <= x.1.2;
  mg_all x : x ∈ l -> is_Some (om_get (fl_id x.2) m) }.

Lemma merged_step staleMs now l m x : merged staleMs now l m ->
  merged staleMs now (l ++ [x]) (show_floor (staleMs <? now - x.1.2) (os_edgeId x.1.1) x.1.2 m x.2).
Proof.
  intros [Hk He Ha]. unfold show_floor. fold (shown_as staleMs now x).
  assert (forall m', m' = om_set (fl_id x.2) (shown_as staleMs now x) m -> (forall y, y ∈ l -> fl_id y.2 = fl_id x.2 -> y.1.2 <= x.1.2) ->
    merged staleMs now (l ++ [x]) m') as Hset.
  { intros m' -> Hnew. constructor.
    - by apply om_set_nodup.
    - intros id cf. rewrite om_get_set. case_bool_decide as E.
      + intros [= <-]. exists x. subst id. split_and!; [apply elem_of_app; right; by left|done|done|].
        intros y [Hy| ->%list_elem_of_singleton]%elem_of_app E; [by apply Hnew|lia].
      + intros (z & Hz & -> & Hid & Hmax)%He. exists z. split_and!; [by apply elem_of_app; left|done|done|].
        intros y [Hy| ->%list_elem_of_singleton]%elem_of_app Ey; [by apply Hmax|congruence].
    - intros y [Hy| ->%list_elem_of_singleton]%elem_of_app; rewrite om_get_set; case_bool_decide; first [done|by eexists|by apply Ha]. }
  destruct (om_get (fl_id x.2) m) as [prev|] eqn:Ep.
  - destruct (He _ _ Ep) as (z & Hz & -> & Hid & Hmax). cbn [cf_updatedAt shown_as]. destruct (Z.leb_spec z.1.2 x.1.2) as [Hle|Hgt].
    + apply Hset; [done|]. intros y Hy Ey. specialize (Hmax y Hy Ey). lia.
    + constructor; [done| |].
      * intros id cf Hg. destruct (He _ _ Hg) as (w & Hw & -> & Hid' & Hmax'). exists w. split_and!; [by apply elem_of_app; left|done|done|].
        intros y [Hy| ->%list_elem_of_singleton]%elem_of_app Ey; [by apply Hmax'|]. rewrite <- Hid', <- Ey in *.
        specialize (Hmax' z Hz ltac:(congruence)). lia.
      * intros y [Hy| ->%list_elem_of_singleton]%elem_of_app; [by apply Ha|eauto].
  - apply Hset; [done|]. intros y Hy Ey. destruct (Ha y Hy) as [? Hs]. congruence.
Qed.

Lemma by_floor_merged s now : merged (ss_staleMs s) now (published (map snd (ss_latest s))) (by_floor s now).
Proof.
  rewrite by_floor_flat. induction (published (map snd (ss_latest s))) as [|x l IH] using rev_ind.
  - constructor; [constructor|done|by intros ? ?%not_elem_of_nil].
  - rewrite fold_left_app. by apply merged_step.
Qed.

(** A floor whose edge is quiet: nothing is known of it. *)
Definition tells_nothing (f : FloorState) : Prop :=
  Forall (fun t => tb_status t = CovUnknown /\ tb_occupied t = None /\ tb_free t = None /\ Forall (fun s => st_occupied s = None) (tb_seats t)) (fl_tables f) /\
  Forall (fun z => zn_people z = None) (fl_zones f) /\ tt_free (fl_totals f) = 0 /\ tt_occupied (fl_totals f) = 0 /\
  tt_tablesFullyFree (fl_totals f) = 0 /\ tt_unknownSeats (fl_totals f) = tt_seats (fl_totals f).

Lemma blank_tells_nothing f : tells_nothing (blank f).
Proof.
  unfold tells_nothing, blank. cbn. split_and!; try done; apply Forall_map, Forall_forall; [|done].
  intros t _. split_and!; [done|done|done|]. cbn. apply Forall_map, Forall_forall. done.
Qed.

Lemma sum_of_map {A B} (g : A -> B) (f : B -> Z) l : sum_of f (map g l) = sum_of (fun x => f (g x)) l.
Proof. induction l as [|x l IH]; [done|]. cbn [map]. by rewrite !sum_of_cons, IH. Qed.

Lemma totals_unknown tables : Forall (fun t => is_unknown t = true) tables ->
  floor_totals tables = {| tt_seats := sum_of tb_capacity tables; tt_free := 0; tt_occupied := 0;
                           tt_unknownSeats := sum_of tb_capacity tables; tt_tablesFullyFree := 0 |}.
Proof.
  intros H. unfold floor_totals. assert (List.filter is_unknown tables = tables /\ List.filter (fun t => negb (is_unknown t)) tables = []) as [-> ->]; [|done].
  induction H as [|t l Ht _ [IH1 IH2]]; [done|]. cbn [List.filter]. by rewrite Ht, IH1, IH2.
Qed.

(** A blanked floor is as whole as the one it was made of. *)
Lemma blank_ok f : floor_ok f -> floor_ok (blank f).
Proof.
  intros [Hid Hsize Hz Hn Ht Hzone Hs Htot]. constructor; cbn [fl_id fl_width fl_height fl_zones fl_tables fl_totals blank].
  - done.
  - done.
  - rewrite map_map. exact Hz.
  - rewrite map_map. exact Hn.
  - apply Forall_map. apply (Forall_impl _ _ _ Ht). intros t [H1 H2 H3 H4 H5 H6 H7]. constructor; cbn.
    + done.
    + done.
    + by rewrite length_map.
    + rewrite map_map. exact H4.
    + apply Forall_map. exact H5.
    + intros s id (s' & -> & Hs')%list_elem_of_fmap Hid'. cbn in *. rewrite map_map. by apply H6.
    + left. split_and!; try done. apply Forall_map, Forall_forall. done.
  - intros t (t' & -> & Ht')%list_elem_of_fmap. cbn. rewrite map_map. by apply Hzone.
  - revert Hs. match goal with |- NoDup ?a -> NoDup ?b => assert (b = a) as -> end; [|done].
    clear. induction (fl_tables f) as [|t l IH]; [done|]. cbn. rewrite IH. f_equal. rewrite map_map. done.
  - rewrite totals_unknown; [|apply Forall_map, Forall_forall; intros t _; by apply bool_decide_eq_true].
    rewrite Htot, sum_of_map. reflexivity.
Qed.

(** Publications, one after the other, and the last one of an edge. *)
Definition store_put (s : SnapshotStore) (p : OccupancySnapshot * Z) : SnapshotStore := snd (put s p.1 p.2).
Definition newest_from (es : list (OccupancySnapshot * Z)) (edge : string) : option (OccupancySnapshot * Z) :=
  last (List.filter (fun p => bool_decide (os_edgeId p.1 = edge)) es).

Lemma newest_snoc es p edge : newest_from (es ++ [p]) edge = if bool_decide (os_edgeId p.1 = edge) then Some p else newest_from es edge.
Proof. unfold newest_from. rewrite List.filter_app. cbn. case_bool_decide; [by rewrite last_snoc|by rewrite app_nil_r]. Qed.

(** The store after some publications: at most 256 edges, each with its last
    one. *)
Record stored (staleMs : Z) (es : list (OccupancySnapshot * Z)) (s : SnapshotStore) : Prop := {
  sd_stale : ss_staleMs s = staleMs;
  sd_keys : NoDup (om_keys (ss_latest s));
  sd_bound : Z.of_nat (length (ss_latest s)) <= 256;
  sd_last edge p : om_get edge (ss_latest s) = Some p -> newest_from es edge = Some p /\ os_edgeId p.1 = edge /\ p ∈ es;
  sd_all edges edge p : (forall q, q ∈ es -> os_edgeId q.1 ∈ edges) -> Z.of_nat (length edges) <= 256 ->
    newest_from es edge = Some p -> om_get edge (ss_latest s) = Some p }.

Lemma stored_step staleMs es s p : stored staleMs es s -> stored staleMs (es ++ [p]) (store_put s p).
Proof.
  destruct p as [snap at_]. intros [Hst Hk Hb Hl Ha]. unfold store_put, put. cbn [fst snd].
  destruct (negb (om_has (os_edgeId snap) (ss_latest s)) && (256 <=? Z.of_nat (length (ss_latest s)))) eqn:Efull; cbn [snd].
  - bprop. destruct Efull as [Hnew Hfull]. constructor; [done|done|done| |].
    + intros edge q Hg. destruct (Hl _ _ Hg) as (Hn & He & Hin). rewrite newest_snoc. cbn [fst]. rewrite bool_decide_eq_false_2.
      { split_and!; [done|done|by apply elem_of_app; left]. }
      intros E. rewrite E in Hnew. unfold om_has in Hnew. by rewrite Hg in Hnew.
    + intros edges edge q Hin Hlen _. exfalso.
      assert (length (os_edgeId snap :: om_keys (ss_latest s)) <= length edges)%nat as Hle; [|cbn in Hle; rewrite om_length_keys in Hle; lia].
      apply submseteq_length, NoDup_submseteq.
      * apply NoDup_cons. split; [|done]. rewrite <- om_has_keys. congruence.
      * intros k [->|Hkey%om_has_keys]%elem_of_cons; [apply (Hin (snap, at_)), elem_of_app; right; by left|]. unfold om_has in Hkey.
        destruct (om_get k (ss_latest s)) as [r|] eqn:Er; [|done]. destruct (Hl _ _ Er) as (_ & <- & Hr). by apply Hin, elem_of_app; left.
  - constructor; cbn [ss_staleMs ss_latest]; [done|by apply om_set_nodup| | |].
    + rewrite om_length_set. destruct (om_has _ _); [done|]. cbn [negb andb] in Efull. apply Z.leb_gt in Efull. lia.
    + intros edge q. rewrite om_get_set, newest_snoc. cbn [fst]. case_bool_decide as E.
      * intros [= <-]. subst edge. rewrite bool_decide_eq_true_2 by done. split_and!; [done|done|apply elem_of_app; right; by left].
      * intros (Hn & He & Hin)%Hl. rewrite bool_decide_eq_false_2 by congruence. split_and!; [done|done|by apply elem_of_app; left].
    + intros edges edge q Hin Hlen. rewrite om_get_set, newest_snoc. cbn [fst]. case_bool_decide as E1; case_bool_decide as E2; try congruence.
      apply (Ha edges); [|done]. intros r Hr. by apply Hin, elem_of_app; left.
Qed.

Lemma store_stored staleMs es : stored staleMs es (run store_put (new_store staleMs) es).
Proof.
  induction es as [|p es IH] using rev_ind.
  - constructor; cbn; [done|constructor|lia|done|]. intros edges edge p _ _. done.
  - unfold run in *. rewrite fold_left_app. by apply stored_step.
Qed.

Section shown.
Context {collation : Collation}.

Lemma elem_of_view s now cf : cf ∈ view s now <-> exists id, (id, cf) ∈ by_floor s now.
Proof.
  unfold view. rewrite isort_elem, list_elem_of_fmap. split.
  - intros ([id cf'] & -> & H). by exists id.
  - intros (id & H). by exists (id, cf).
Qed.

Lemma view_spec staleMs es now : let s := run store_put (new_store staleMs) es in
  merged staleMs now (published (map snd (ss_latest s))) (by_floor s now) /\ stored staleMs es s.
Proof. cbn zeta. pose proof (store_stored staleMs es) as Hs. split; [|done].
  pose proof (by_floor_merged (run store_put (new_store staleMs) es) now) as Hm. by rewrite (sd_stale _ _ _ Hs) in Hm. Qed.

(** A floor of the view is one of the last publication of its edge, as it was
    published or blanked. *)
Lemma view_shows staleMs es now cf : cf ∈ view (run store_put (new_store staleMs) es) now ->
  exists snap f, newest_from es (cf_edgeId cf) = Some (snap, cf_updatedAt cf) /\ (snap, cf_updatedAt cf) ∈ es /\
    os_edgeId snap = cf_edgeId cf /\ f ∈ os_floors snap /\ cf = shown_as staleMs now ((snap, cf_updatedAt cf), f).
Proof.
  intros (id & Hin)%elem_of_view. destruct (view_spec staleMs es now) as [[Hk He _] Hs].
  apply om_elem_get in Hin; [|done]. destruct (He _ _ Hin) as ([[snap at_] f] & Hp & -> & _ & _). cbn.
  apply elem_of_published in Hp as [([edge p] & E & Hl)%list_elem_of_fmap Hf]. cbn in E. subst p. apply om_elem_get in Hl; [|apply Hs].
  destruct (sd_last _ _ _ Hs _ _ Hl) as (Hn & <- & Hes). exists snap, f. done.
Qed.

Lemma view_ids staleMs es now : NoDup (map (fun cf => fl_id (cf_floor cf)) (view (run store_put (new_store staleMs) es) now)).
Proof.
  destruct (view_spec staleMs es now) as [[Hk He _] _]. unfold view. rewrite isort_perm. rewrite map_map.
  replace (map _ (by_floor _ now)) with (om_keys (by_floor (run store_put (new_store staleMs) es) now)); [done|].
  apply map_ext_in. intros [id cf] Hin%list_elem_of_In. cbn. apply om_elem_get in Hin; [|done].
  destruct (He _ _ Hin) as (x & _ & -> & <- & _). by rewrite shown_as_id.
Qed.

(** C15: A dead edge never leaves its last numbers on screen. After any
    publications, whenever the campus is looked at, each floor appears once,
    and it comes from the last snapshot its edge has sent: as it was published
    while that is at most [staleMs] old, and with nothing known of any table,
    seat or zone once it is older. The store never holds more than 256 edges,
    each once, and refuses a publication just when it is full and the edge is a
    new one; while no more than 256 have ever published, each floor of each
    edge's last snapshot is shown, by a publication at least as new. *)
Theorem view_never_shows_old_numbers staleMs es now :
  let s := run store_put (new_store staleMs) es in
  let v := view s now in
  NoDup (om_keys (ss_latest s)) /\ (length (ss_latest s) <= 256)%nat /\
  (forall snap at_, fst (put s snap at_) = false <-> os_edgeId snap ∉ om_keys (ss_latest s) /\ length (ss_latest s) = 256%nat) /\
  NoDup (map (fun cf => fl_id (cf_floor cf)) v) /\
  (forall cf, cf ∈ v -> exists snap f, newest_from es (cf_edgeId cf) = Some (snap, cf_updatedAt cf) /\ f ∈ os_floors snap /\
     if now - cf_updatedAt cf <=? staleMs then cf_stale cf = false /\ cf_floor cf = f
     else cf_stale cf = true /\ cf_floor cf = blank f /\ tells_nothing (cf_floor cf)) /\
  (forall edges edge snap at_ f, (forall p, p ∈ es -> os_edgeId p.1 ∈ edges) -> Z.of_nat (length edges) <= 256 ->
     newest_from es edge = Some (snap, at_) -> f ∈ os_floors snap ->
     exists cf, cf ∈ v /\ fl_id (cf_floor cf) = fl_id f /\ at_ <= cf_updatedAt cf).
Proof.
  intros s v. destruct (store_stored staleMs es) as [_ Hkeys Hbound _ _]. fold s in Hkeys, Hbound. split_and!; [done|lia| |apply view_ids| |].
  - intros snap at_. rewrite <- om_has_keys, not_true_iff_false. unfold put. destruct (om_has _ _); cbn [negb andb].
    + by split; [|intros [? _]].
    + destruct (Z.leb_spec 256 (Z.of_nat (length (ss_latest s)))); cbn [fst]; split; try done; intros; [split; [done|lia]|lia].
  - intros cf (snap & f & Hn & _ & _ & Hf & E)%view_shows. exists snap, f. split_and!; [done|done|].
    assert (cf_stale cf = (staleMs <? now - cf_updatedAt cf) /\ cf_floor cf = if staleMs <? now - cf_updatedAt cf then blank f else f) as [-> ->]
      by (rewrite E; done). destruct (Z.leb_spec (now - cf_updatedAt cf) staleMs).
    + rewrite (proj2 (Z.ltb_ge _ _)) by lia. done.
    + rewrite (proj2 (Z.ltb_lt _ _)) by lia. split_and!; [done|done|apply blank_tells_nothing].
  - intros edges edge snap at_ f Hin Hlen Hn Hf. destruct (view_spec staleMs es now) as [[Hk He Ha] Hs].
    pose proof (sd_all _ _ _ Hs edges edge _ Hin Hlen Hn) as Hg.
    assert (((snap, at_), f) ∈ published (map snd (ss_latest (run store_put (new_store staleMs) es)))) as Hp.
    { apply elem_of_published. split; [|done]. apply list_elem_of_fmap. exists (edge, (snap, at_)). split; [done|]. by apply om_get_elem. }
    destruct (Ha _ Hp) as [cf Hcf]. destruct (He _ _ Hcf) as (x & Hx & -> & Hid & Hmax). exists (shown_as staleMs now x).
    split_and!; [apply elem_of_view; eexists; by apply om_get_elem|by rewrite shown_as_id|apply (Hmax _ Hp); done].
Qed.
End shown.

(** ** Pushes *)

(** A push as it arrives: the header, the body and the time. *)
Notation Push := (option string * option json * Z)%type (only parsing).
Definition serve (d : Dependencies) (s : SnapshotStore) (p : Push) : SnapshotStore := snd (push d p.1.1 p.1.2 p.2 s).

(** What a push brings to the store, if it is let through. *)
Definition let_through (d : Dependencies) (p : Push) : option (OccupancySnapshot * Z) :=
  let token := utf8_bytes (bearer p.1.1) in
  match p.1.2 with
  | Some v =>
      if match dp_publishers d with
         | Some ps => authenticate ps (match v with JObj o => field "edgeId" o | _ => None end) token
         | None => hasEdgeToken p.1.1 (dp_pushToken d)
         end
      then match isSnapshot v with
           | Ok snap => if match dp_publishers d with Some ps => authorizes ps snap | None => true end then Some (snap, p.2) else None
           | Err _ => None
           end
      else None
  | None => None
  end.

Lemma serve_puts d s p : serve d s p = match let_through d p with Some q => store_put s q | None => s end.
Proof.
  destruct p as [[header body] now]. unfold serve, push, let_through, store_put. cbn [fst snd].
  destruct body as [v|]; [|by destruct (dp_publishers d) as [ps|]; [|destruct (hasEdgeToken _ _)]].
  destruct (dp_publishers d) as [ps|].
  - destruct (authenticate _ _ _); [|done]. cbn [negb]. destruct (isSnapshot v) as [snap|[]]; [|done|done].
    destruct (authorizes ps snap); [|done]. cbn [negb fst snd]. destruct (put s snap now) as [[] s']  eqn:E; [done|]. cbn.
    unfold put in E. destruct (_ && _); congruence.
  - destruct (hasEdgeToken _ _); [|done]. cbn [negb]. destruct (isSnapshot v) as [snap|[]]; [|done|done].
    cbn [fst snd]. destruct (put s snap now) as [[] s'] eqn:E; [done|]. cbn. unfold put in E. destruct (_ && _); congruence.
Qed.

Lemma run_serve d s evs : run (serve d) s evs = run store_put s (omap (let_through d) evs).
Proof.
  revert s. induction evs as [|p evs IH]; intros s; [done|]. unfold run in *. cbn [fold_left omap list_omap]. rewrite serve_puts, IH.
  by destruct (let_through d p).
Qed.

Lemma let_through_ok d p snap at_ : let_through d p = Some (snap, at_) ->
  p.2 = at_ /\ exists v, p.1.2 = Some v /\ isSnapshot v = Ok snap /\
    match dp_publishers d with
    | Some ps => authenticate ps (Some (JStr (os_edgeId snap))) (utf8_bytes (bearer p.1.1)) = true /\ authorizes ps snap = true
    | None => hasEdgeToken p.1.1 (dp_pushToken d) = true
    end.
Proof.
  unfold let_through. destruct p as [[header [v|]] now]; [|done]. cbn [fst snd]. intros H.
  destruct (match dp_publishers d with Some _ => _ | None => _ end) eqn:Ea; [|done].
  destruct (isSnapshot v) as [snap'|] eqn:Ev; [|done]. destruct (match dp_publishers d with Some _ => _ | None => _ end) eqn:Eb in H; [|done].
  injection H as -> ->. split; [done|]. exists v. split_and!; [done|done|]. destruct (dp_publishers d) as [ps|]; [|done]. split; [|done].
  unfold isSnapshot in Ev. inv_read Ev. subst snap. cbn [os_edgeId].
  match goal with Hr : record v _ = Ok _, Ht : text_upto 99 _ = Ok _ |- _ => apply record_ok in Hr as (-> & _ & Hk); apply text_ok in Ht as [Ht _];
    rewrite (field_of_key "edgeId" _ _ (Hk _ ltac:(right; by left)) Ht) in Ea end. done.
Qed.

(** ** Who publishes a floor *)

Lemma utf8_ascii s : forallb is_hex_lower (chars s) = true -> utf8_bytes s = map code (chars s).
Proof.
  unfold utf8_bytes. induction (chars s) as [|c l IH]; [done|]. cbn [forallb map]. intros [Hc Hl]%andb_true_iff. cbn [mbind list_bind].
  assert (code c <? 128 = true) as ->; [|cbn; f_equal; by apply IH].
  apply Z.ltb_lt. unfold is_hex_lower, is_digit, between in Hc. lia.
Qed.

Lemma utf8_inj a b : is_hex64 a = true -> is_hex64 b = true -> utf8_bytes a = utf8_bytes b -> a = b.
Proof.
  unfold is_hex64. intros [_ Ha]%andb_true_iff [_ Hb]%andb_true_iff. rewrite !utf8_ascii by done.
  intros H. apply chars_inj. assert (Inj (=) (=) code) as Hinj by exact code_inj. by apply (inj (fmap code)).
Qed.

(** The entries read so far: nobody shares a credential or a floor. *)
Record publishers_ok (secrets owners : list string) (ps : SnapshotPublishers) : Prop := {
  po_entry id p : om_get id ps = Some p -> (exists t, t ∈ secrets /\ pb_token p = utf8_bytes t) /\ pb_floors p ⊆ owners;
  po_floor id id' p p' f : om_get id ps = Some p -> om_get id' ps = Some p' -> f ∈ pb_floors p -> f ∈ pb_floors p' -> id = id';
  po_token id id' p p' : om_get id ps = Some p -> om_get id' ps = Some p' -> pb_token p = pb_token p' -> id = id' }.

Lemma read_publisher_ok seen id v token p : read_publisher seen id v = Ok (token, p) ->
  token ∉ seen /\ is_hex64 token = true /\ pb_token p = utf8_bytes token.
Proof.
  unfold read_publisher. destruct v as [| | | | |o]; try done. intros H. inv_read H.
  destruct (field "token" o) as [[| | |t| |]|]; try done. destruct (field "floors" o) as [[| | | |l|]|]; try done. inv_read H.
  injection H as <- <-. cbn [pb_token]. apply orb_false_iff in Hc0 as [[Ht Hs]%orb_false_iff _].
  apply negb_false in Ht. unfold is_publisher_token in Ht. apply andb_true_iff in Ht as [Ht _]. split_and!; [by apply includes_false|done|done].
Qed.

Lemma read_publishers_ok l : forall secrets owners entries ps, (forall t, t ∈ secrets -> is_hex64 t = true) -> publishers_ok secrets owners entries ->
  read_publishers secrets owners l entries = Ok ps -> exists secrets' owners', publishers_ok secrets' owners' ps.
Proof.
  induction l as [|[id v] l IH]; intros secrets owners entries ps Hhex Hok; cbn [read_publishers]; [intros [= <-]; eauto|].
  intros H. inv_read H. destruct (read_publisher_ok _ _ _ _ _ Hm) as (Hnew & Ht & Hp). destruct Hok as [He Hf Htk].
  assert (forall f, f ∈ pb_floors p -> f ∉ owners) as Hfree.
  { intros f Hin Ho. apply not_true_iff_false in Hc. destruct Hc. apply existsb_exists. exists f. split; [by apply list_elem_of_In|by apply includes_true]. }
  assert (forall t, t ∈ secrets ++ [s] -> is_hex64 t = true) as Hhex' by (intros t [Hin| ->%list_elem_of_singleton]%elem_of_app; [by apply Hhex|done]).
  revert H. apply IH; [done|]. constructor.
  - intros k q. rewrite om_get_set. case_bool_decide.
    + intros [= <-]. split; [exists s; split; [apply elem_of_app; right; by left|done]|set_solver].
    + intros [(t & Hin & Eq) Hs]%He. split; [exists t; split; [by apply elem_of_app; left|done]|set_solver].
  - intros k k' q q' f. rewrite !om_get_set. case_bool_decide as E1; case_bool_decide as E2.
    + intros _ _. congruence.
    + intros [= <-] [_ Hs]%He Hin Hin'. destruct (Hfree f Hin). by apply Hs.
    + intros [_ Hs]%He [= <-] Hin Hin'. destruct (Hfree f Hin'). by apply Hs.
    + apply Hf.
  - assert (forall k q, om_get k entries = Some q -> pb_token q <> pb_token p) as Hdiff.
    { intros k q [(t & Hin & Eq) _]%He E. apply Hnew. rewrite <- (utf8_inj t s); [done|by apply Hhex|done|congruence]. }
    intros k k' q q'. rewrite !om_get_set. case_bool_decide as E1; case_bool_decide as E2.
    + intros _ _. congruence.
    + intros [= <-] Hg E. by destruct (Hdiff _ _ Hg).
    + intros Hg [= <-] E. by destruct (Hdiff _ _ Hg).
    + apply Htk.
Qed.

Lemma new_publishers_ok value ps : new_publishers value = Ok ps -> exists secrets owners, publishers_ok secrets owners ps.
Proof.
  unfold new_publishers. destruct value as [| | | | |root]; try done. destruct (field "version" root); [|done].
  destruct (field "edges" root) as [[| | | | |l]|]; try done. intros H. inv_read H. revert H. apply read_publishers_ok; [by intros t ?%not_elem_of_nil|].
  constructor; done.
Qed.

Lemma authorized ps snap f : authorizes ps snap = true -> f ∈ os_floors snap ->
  exists e, om_get (os_edgeId snap) ps = Some e /\ pb_revoked e = false /\ fl_id f ∈ pb_floors e.
Proof.
  unfold authorizes. destruct (om_get (os_edgeId snap) ps) as [e|]; [|done]. intros [Hr Hf]%andb_true_iff Hin.
  exists e. split_and!; [done|by apply negb_true|]. rewrite forallb_forall in Hf. by apply includes_true, Hf, list_elem_of_In.
Qed.

(** A floor is shown only from its own publisher. When edges have keys of
    their own, then whatever is pushed, by whoever, a floor of the campus view
    was pushed under the bearer token of an edge that is not revoked and that
    lists the floor, no other edge lists that floor and no other edge has that
    token. *)
Theorem a_floor_has_one_publisher {collation : Collation} value ps d staleMs evs now cf :
  new_publishers value = Ok ps -> dp_publishers d = Some ps ->
  cf ∈ view (run (serve d) (new_store staleMs) evs) now ->
  exists e header body, om_get (cf_edgeId cf) ps = Some e /\ pb_revoked e = false /\ fl_id (cf_floor cf) ∈ pb_floors e /\
    (header, body, cf_updatedAt cf) ∈ evs /\ utf8_bytes (bearer header) = pb_token e /\
    forall other o, om_get other ps = Some o -> fl_id (cf_floor cf) ∈ pb_floors o \/ pb_token o = pb_token e -> other = cf_edgeId cf.
Proof.
  intros (secrets & owners & [_ Hfl Htk])%new_publishers_ok Hd. rewrite run_serve. intros (snap & f & _ & Hin & He & Hf & Ecf)%view_shows.
  apply list_elem_of_omap in Hin as (p & Hp & Ho). destruct (let_through_ok _ _ _ _ Ho) as (Ht & v & Hv & _ & Hauth). rewrite Hd in Hauth.
  destruct Hauth as [Ha Hb]. destruct (authorized _ _ _ Hb Hf) as (e & Hg & Hr & Hfe). rewrite He in *.
  assert (fl_id (cf_floor cf) = fl_id f) as Eid by (rewrite Ecf; by rewrite shown_as_id).
  cbn [authenticate] in Ha. rewrite Hg in Ha. apply andb_true_iff in Ha as [_ Htoken%bool_decide_eq_true].
  exists e, p.1.1, p.1.2. rewrite Eid. split_and!; try done.
  - by destruct p as [[? ?] ?]; cbn in *; subst.
  - intros other o Hgo [Hin|Heq]; [by eapply Hfl|by eapply Htk].
Qed.

(** ** Searches *)

Lemma free_count seats : Forall (fun s => st_occupied s <> None) seats ->
  Z.of_nat (length (List.filter (fun s => bool_decide (st_occupied s = Some false)) seats)) = Z.of_nat (length seats) - count_occupied seats.
Proof.
  unfold count_occupied. induction 1 as [|s l Hs _ IH]; [done|]. cbn [List.filter length].
  destruct (st_occupied s) as [[]|] eqn:E; [| |done].
  - rewrite bool_decide_eq_false_2, bool_decide_eq_true_2 by done. cbn [length]. lia.
  - rewrite bool_decide_eq_true_2, bool_decide_eq_false_2 by done. cbn [length]. lia.
Qed.

(** A table that shows how many seats are free has that many free seats. *)
Lemma free_shown t n : table_ok t -> tb_free t = Some n ->
  Z.of_nat (length (List.filter (fun s => bool_decide (st_occupied s = Some false)) (tb_seats t))) = n /\ tb_status t <> CovUnknown.
Proof.
  intros Hok Hf. pose proof (ta_seats _ Hok) as Hl. destruct (ta_shown _ Hok) as [(_ & _ & Hn & _)|(Hs & Hk & o & f & Ho & Hf' & Hc & _ & _ & Hsum)].
  - congruence.
  - split; [|done]. rewrite free_count by done. assert (n = f) by congruence. lia.
Qed.

Lemma neighbouring_sublist tables a b : (a, b) ∈ neighbouringTables tables -> [a; b] `sublist_of` tables.
Proof.
  induction tables as [|t l IH]; cbn [neighbouringTables]; [by intros ?%not_elem_of_nil|].
  intros [(b' & [= -> ->] & [Hb _]%list_elem_of_In%filter_In)%list_elem_of_fmap|H%IH]%elem_of_app.
  - by apply sublist_skip, singleton_sublist_l, list_elem_of_In.
  - by apply sublist_cons.
Qed.

Lemma sublist_List_filter {A} (f : A -> bool) l : List.filter f l `sublist_of` l.
Proof. induction l as [|x l IH]; [done|]. cbn. destruct (f x); by constructor. Qed.

(** The free seats a suggestion may name, in the order of the tables. *)
Definition free_of (t : TableState) : list SeatState := List.filter (fun s => bool_decide (st_occupied s = Some false)) (tb_seats t).

Lemma single_ok f n t sg : table_ok t -> 1 <= n -> sg ∈ single_suggestion f n t ->
  sg_floorId sg = fl_id f /\ sg_tableIds sg = [tb_id t] /\ Z.of_nat (length (sg_seatIds sg)) = n /\ NoDup (sg_seatIds sg) /\
  (forall id, id ∈ sg_seatIds sg -> exists s, s ∈ tb_seats t /\ st_id s = id /\ st_occupied s = Some false).
Proof.
  intros Hok Hn. unfold single_suggestion. destruct (findGroup t n) as [ids|] eqn:Eg; [|by intros ?%not_elem_of_nil].
  destruct (tb_free t) as [k|] eqn:Ek; [|by intros ?%not_elem_of_nil]. destruct (tb_occupied t); [|by intros ?%not_elem_of_nil].
  intros ->%list_elem_of_singleton. cbn. destruct (free_shown _ _ Hok Ek) as [_ Hst].
  assert (table_wf t) as Hwf by (split; [apply Hok|apply (Forall_impl _ _ _ (ta_seat _ Hok)); by intros s (_ & _ & ?)]).
  destruct (proj1 (findGroup_correct t n Hwf Hst Hn) _ Eg) as [(Hnd & Hin & _) Hl]. split_and!; try done.
Qed.

Lemma pair_ok f n tables a b sg : Forall table_ok tables -> NoDup (tables ≫= fun t => map st_id (tb_seats t)) ->
  (a, b) ∈ neighbouringTables tables -> 1 <= n -> sg ∈ pair_suggestion f n (a, b) ->
  sg_floorId sg = fl_id f /\ sg_tableIds sg = [tb_id a; tb_id b] /\ Z.of_nat (length (sg_seatIds sg)) = n /\ NoDup (sg_seatIds sg) /\
  (forall id, id ∈ sg_seatIds sg -> exists t s, (t = a \/ t = b) /\ s ∈ tb_seats t /\ st_id s = id /\ st_occupied s = Some false).
Proof.
  intros Hok Hnd Hab%neighbouring_sublist Hn. unfold pair_suggestion.
  destruct (tb_free a) as [fa|] eqn:Ea; [|by intros ?%not_elem_of_nil]. destruct (tb_free b) as [fb|] eqn:Eb; [|by intros ?%not_elem_of_nil].
  destruct (tb_occupied a); [|by intros ?%not_elem_of_nil]. destruct (tb_occupied b); [|by intros ?%not_elem_of_nil].
  destruct (Z.ltb_spec (fa + fb) n) as [|Hfit]; [by intros ?%not_elem_of_nil|]. intros ->%list_elem_of_singleton. cbn.
  rewrite Forall_forall in Hok. assert (table_ok a /\ table_ok b) as [Ha Hb].
  { split; apply Hok; eapply elem_of_sublist; try exact Hab; [by left|right; by left]. }
  rewrite List.filter_app. fold (free_of a) (free_of b).
  pose proof (proj1 (free_shown _ _ Ha Ea)) as Hla. pose proof (proj1 (free_shown _ _ Hb Eb)) as Hlb.
  split_and!; [done|done| | |].
  - rewrite length_map, length_take, length_app. unfold free_of. lia.
  - eapply sublist_NoDup; [exact Hnd|]. etransitivity; [|apply (bind_sublist _ _ _ Hab)]. cbn. rewrite app_nil_r, <- map_app.
    apply (fmap_sublist st_id). etransitivity; [apply sublist_take|]. apply sublist_app; apply sublist_List_filter.
  - intros id (s & -> & Hs)%list_elem_of_fmap. apply (fun H => elem_of_sublist _ _ _ H (sublist_take _ _)) in Hs.
    apply elem_of_app in Hs as [Hs|Hs]; apply list_elem_of_In, filter_In in Hs as [Hs Ho]; apply list_elem_of_In in Hs;
      apply bool_decide_eq_true in Ho; eauto 10.
Qed.

(** What a suggestion promises: [n] different seats of its tables on that
    floor, each of them free. *)
Definition offers (n : Z) (f : FloorState) (sg : SeatSuggestion) : Prop :=
  sg_floorId sg = fl_id f /\ Z.of_nat (length (sg_seatIds sg)) = n /\ NoDup (sg_seatIds sg) /\
  forall id, id ∈ sg_seatIds sg -> exists t s, t ∈ fl_tables f /\ tb_id t ∈ sg_tableIds sg /\ s ∈ tb_seats t /\ st_id s = id /\ st_occupied s = Some false.

Lemma floor_offers n f sg : floor_ok f -> 1 <= n -> sg ∈ floor_suggestions n f -> offers n f sg.
Proof.
  intros Hok Hn. pose proof (fa_table _ Hok) as Ht. unfold floor_suggestions. intros [Hs|Hs]%elem_of_app.
  - apply list_elem_of_bind in Hs as (t & Hs & Hin). pose proof (proj1 (Forall_forall _ _) Ht t Hin) as Htok.
    destruct (single_ok _ _ _ _ Htok Hn Hs) as (H1 & H2 & H3 & H4 & H5). split_and!; try done.
    intros id (s & ? & ? & ?)%H5. exists t, s. rewrite H2. split_and!; try done. by left.
  - destruct (_ <? n); [|by apply not_elem_of_nil in Hs]. apply list_elem_of_bind in Hs as ([a b] & Hs & Hin).
    destruct (pair_ok _ _ _ _ _ _ Ht (fa_seats _ Hok) Hin Hn Hs) as (H1 & H2 & H3 & H4 & H5). split_and!; try done.
    apply neighbouring_sublist in Hin. intros id (t & s & Hab & ? & ? & ?)%H5. exists t, s. rewrite H2.
    split_and!; try done; [eapply elem_of_sublist; [|exact Hin]|]; destruct Hab as [-> | ->]; set_solver.
Qed.

(** A blanked floor has no seat to offer. *)
Lemma blank_offers_nothing n f sg : 1 <= n -> ~ offers n (blank f) sg.
Proof.
  intros Hn (_ & Hl & _ & Hin). destruct (sg_seatIds sg) as [|id l]; [cbn in Hl; lia|].
  destruct (Hin id ltac:(by left)) as (t & s & Ht & _ & Hs & _ & Ho). destruct (blank_tells_nothing f) as [Hall _].
  rewrite Forall_forall in Hall. destruct (Hall t Ht) as (_ & _ & _ & Hs'). rewrite Forall_forall in Hs'. specialize (Hs' s Hs). congruence.
Qed.

(** A search sends nobody to a floor that has gone quiet. Whatever has been
    pushed, every suggestion for [n] seats is made of [n] different seats that
    the last snapshot of the floor's edge, at most [staleMs] old, shows free;
    the search is for one to thirty seats, answers with at most twenty
    suggestions, and with a floor named only on that floor. *)
Theorem search_offers_free_seats_of_live_floors {collation : Collation} d staleMs evs seats floor now l :
  let s := run (serve d) (new_store staleMs) evs in
  search seats floor now s = Some l ->
  exists q n, seats = Some q /\ as_integer (JNum q) = Some n /\ 1 <= n <= 30 /\ (length l <= 20)%nat /\
  forall sg, sg ∈ l -> exists cf snap, cf ∈ view s now /\ now - cf_updatedAt cf <= staleMs /\
    newest_from (omap (let_through d) evs) (cf_edgeId cf) = Some (snap, cf_updatedAt cf) /\ cf_floor cf ∈ os_floors snap /\
    offers n (cf_floor cf) sg /\ (forall id, floor = Some id -> id <> "" -> sg_floorId sg = id).
Proof.
  intros s. unfold search. destruct seats as [q|]; [|done]. destruct (as_integer (JNum q)) as [n|] eqn:Eq; [|done].
  destruct (between 1 30 n) eqn:En; [|done]. intros [= <-]. exists q, n. unfold between in En. split_and!; [done|done|lia|lia|rewrite length_take; lia|].
  assert (1 <= n) as Hn by lia. intros sg Hsg. apply (fun H => elem_of_sublist _ _ _ H (sublist_take _ _)) in Hsg.
  unfold searchSeats in Hsg. rewrite isort_elem in Hsg. apply list_elem_of_bind in Hsg as (fl & Hsg & Hfl).
  apply list_elem_of_In, filter_In in Hfl as [Hfl Hwanted]. apply list_elem_of_In, list_elem_of_fmap in Hfl as (cf & -> & Hcf).
  unfold s in Hcf. rewrite run_serve in Hcf. pose proof Hcf as (snap & f & Hlast & Hin & _ & Hf & Ecf)%view_shows.
  apply list_elem_of_omap in Hin as (p & _ & Ho). destruct (let_through_ok _ _ _ _ Ho) as (_ & v & _ & (_ & _ & Hok)%isSnapshot_ok & _).
  pose proof (proj1 (Forall_forall _ _) Hok f Hf) as Hfok.
  assert (cf_floor cf = if staleMs <? now - cf_updatedAt cf then blank f else f) as Efl by (rewrite Ecf; done).
  destruct (Z.ltb_spec staleMs (now - cf_updatedAt cf)) as [|Hlive].
  - rewrite Efl in Hsg. apply floor_offers in Hsg; [|by apply blank_ok|done]. by apply blank_offers_nothing in Hsg.
  - exists cf, snap. unfold s. rewrite run_serve, Efl in *. pose proof (floor_offers n f sg Hfok Hn Hsg) as Hoff.
    split_and!; [done|done|done|done|done|]. intros id -> Hne. rewrite bool_decide_eq_false_2 in Hwanted by done.
    apply bool_decide_eq_true in Hwanted. destruct Hoff as [-> _]. done.
Qed.

(** ** Examples and witnesses *)

#[local] Instance byte_collation : Collation :=
  {| localeCompare a b := match String.compare a b with Lt => -1 | Eq => 0 | Gt => 1 end |}.

Definition demo_pushed : OccupancySnapshot :=
  Eval vm_compute in publicSnapshot demo_reg (snd (edge_snapshot demo_reg "edge-1" demo_seen 1500)).

Definition hex_token (c : string) : string := String.concat "" (repeat c 64).

Definition demo_publishers_json : json :=
  JObj [("version", JInt 1); ("edges", JObj
    [("edge-1", JObj [("token", JStr (hex_token "a")); ("floors", JArr [JStr "f1"])]);
     ("edge-2", JObj [("token", JStr (hex_token "b")); ("floors", JArr [JStr "g1"]); ("revoked", JBool true)])])].

Definition demo_publishers : SnapshotPublishers :=
  Eval vm_compute in match new_publishers demo_publishers_json with Ok ps => ps | Err _ => [] end.

Definition demo_deps : Dependencies := {| dp_pushToken := ""; dp_publishers := Some demo_publishers |}.
Definition demo_push (token : string) (now : Z) : Push := (Some ("Bearer " +:+ token), Some (snapshot_json demo_pushed), now).

(** The edge's own token lets its floor in; the token of another does not. *)
Example pushes_with_keys :
  push demo_deps (Some ("Bearer " +:+ hex_token "a")) (Some (snapshot_json demo_pushed)) 2000 (new_store 30000) =
    ((200, true), {| ss_staleMs := 30000; ss_latest := [("edge-1", (demo_pushed, 2000))] |}) /\
  push demo_deps (Some ("Bearer " +:+ hex_token "b")) (Some (snapshot_json demo_pushed)) 2000 (new_store 30000) = ((401, false), new_store 30000).
Proof. split; vm_compute; reflexivity. Qed.

Lemma a_floor_has_one_publisher_witness : exists cf,
  cf ∈ view (run (serve demo_deps) (new_store 30000) [demo_push (hex_token "a") 2000]) 2100 /\
  exists e header body, om_get (cf_edgeId cf) demo_publishers = Some e /\ pb_revoked e = false /\ fl_id (cf_floor cf) ∈ pb_floors e /\
    (header, body, cf_updatedAt cf) ∈ [demo_push (hex_token "a") 2000] /\ utf8_bytes (bearer header) = pb_token e /\
    forall other o, om_get other demo_publishers = Some o -> fl_id (cf_floor cf) ∈ pb_floors o \/ pb_token o = pb_token e -> other = cf_edgeId cf.
Proof.
  destruct (view (run (serve demo_deps) (new_store 30000) [demo_push (hex_token "a") 2000]) 2100) as [|cf l] eqn:E; [vm_compute in E; discriminate|].
  exists cf. split; [left|].
  apply (a_floor_has_one_publisher demo_publishers_json demo_publishers demo_deps 30000 [demo_push (hex_token "a") 2000] 2100 cf);
    [vm_compute; reflexivity|reflexivity|rewrite E; left].
Defined.

(** Two seats together, while the floor is live; none once its edge has been
    quiet for more than half a minute. *)
Lemma search_offers_free_seats_of_live_floors_witness :
  let s := run (serve demo_deps) (new_store 30000) [demo_push (hex_token "a") 2000] in
  search (Some 2%Q) None 40000 s = Some [] /\
  exists l sg, search (Some 2%Q) None 3000 s = Some l /\ sg ∈ l /\ sg_seatIds sg = ["T1-L1"; "T1-L2"] /\
    exists cf snap, cf ∈ view s 3000 /\ 3000 - cf_updatedAt cf <= 30000 /\
      newest_from (omap (let_through demo_deps) [demo_push (hex_token "a") 2000]) (cf_edgeId cf) = Some (snap, cf_updatedAt cf) /\
      cf_floor cf ∈ os_floors snap /\ offers 2 (cf_floor cf) sg.
Proof.
  intros s. split; [vm_compute; reflexivity|].
  destruct (search (Some 2%Q) None 3000 s) as [[|sg l]|] eqn:E; [vm_compute in E; discriminate| |vm_compute in E; discriminate].
  exists (sg :: l), sg. split; [reflexivity|]. split; [left|]. split; [vm_compute in E; injection E as <- _; reflexivity|].
  destruct (search_offers_free_seats_of_live_floors demo_deps 30000 [demo_push (hex_token "a") 2000] (Some 2%Q) None 3000 (sg :: l) E)
    as (q & n & [= <-] & En & _ & _ & H).
  injection En as <-. destruct (H sg ltac:(left)) as (cf & snap & H1 & H2 & H3 & H4 & H5 & _).
  exists cf, snap. split; [exact H1|]. split; [exact H2|]. split; [exact H3|]. split; [exact H4|exact H5].
Defined.

Definition odd_seat (side : json) : json :=
  JObj [("id", JStr "s"); ("x", JInt 0); ("y", JInt 0); ("side", side); ("index", JInt 0); ("occupied", JNull); ("neighbors", JArr [])].

(** The side of a seat is not checked to be a string: an array is accepted,
    and an object can make the check throw. *)
Example array_side_is_accepted :
  is_ok (validSeat (odd_seat (JArr [JArr [JStr "L"]]))) = true /\
  validSeat (odd_seat (JObj [("toString", JNull)])) = Err Thrown /\
  validSeat (odd_seat (JStr "X")) = Err Invalid.
Proof. repeat split; vm_compute; reflexivity. Qed.

(** An edge can be given a credential under a name that no snapshot of it can
    carry: publishers may have 128 characters, snapshots at most 99. *)
Example long_names_never_publish :
  let name := String.concat "" (repeat "e" 100) in
  is_ok (new_publishers (JObj [("version", JInt 1); ("edges", JObj [(name, JObj [("token", JStr (hex_token "a")); ("floors", JArr [])])])])) = true /\
  forall v s, isSnapshot v = Ok s -> os_edgeId s <> name.
Proof.
  split; [vm_compute; reflexivity|]. intros v s [Hid _]%isSnapshot_ok E. rewrite E in Hid. vm_compute in Hid. destruct Hid as [_ H]. by apply H.
Qed.
