(* ===== verification/Publish.v ===== *)
(** The contract between an edge and the web tier: what an edge publishes is a
    snapshot the web tier accepts, and it arrives as it was. The edge is
    [Registry] and [Occupancy], the web tier is [Campus]; what the two do not
    share are sizes, and those are the hypothesis [fits]. *)

From S2P Require Import Prelude Json Seats Geometry Registry Occupancy Campus.

(** ** Reading back what was written *)

Lemma text_upto_str max s : 0 < js_length s <= max -> text_upto max (JStr s) = Ok s.
Proof. intros H. unfold text_upto. by rewrite (proj2 (Z.ltb_lt _ _)), (proj2 (Z.leb_le _ _)) by lia. Qed.

Definition is_finite (q : Q) : Prop := (Qabs q < too_large)%Q.

Lemma finite_num q : is_finite q -> finite (JNum q) = Ok q.
Proof. intros H. unfold finite. by rewrite (proj2 (Qltb_lt _ _) H). Qed.

Lemma small_finite q : (0 <= q <= 1000000)%Q -> is_finite q.
Proof.
  intros [H1 H2]. unfold is_finite. rewrite Qabs_pos by done. eapply Qle_lt_trans; [exact H2|].
  apply Qltb_lt. vm_compute. reflexivity.
Qed.

Lemma count_upto_int max n : 0 <= n <= max -> max <= 1000000 -> count_upto max (JInt n) = Ok n.
Proof.
  intros H Hmax. unfold count_upto, nonnegative.
  assert (0 <= inject_Z n <= 1000000)%Q as Hq by (split; unfold Qle; cbn; lia).
  change (JInt n) with (JNum (inject_Z n)). rewrite finite_num by (by apply small_finite). cbn [rbind].
  rewrite (proj2 (Qle_bool_iff _ _)) by apply Hq. change (JNum (inject_Z n)) with (JInt n).
  rewrite as_safe_integer_JInt by (unfold max_safe; lia). by rewrite (proj2 (Z.leb_le _ _)) by lia.
Qed.

Lemma list_upto_arr max l : Z.of_nat (length l) <= max -> list_upto max (JArr l) = Ok l.
Proof. intros H. unfold list_upto. by rewrite (proj2 (Z.leb_le _ _)). Qed.

Lemma rmap_written {A} (read : json -> result refusal A) (write : A -> json) l :
  Forall (fun a => read (write a) = Ok a) l -> rmap read (map write l) = Ok l.
Proof. induction 1 as [|a l Ha _ IH]; [done|]. cbn [map rmap]. by rewrite Ha, IH. Qed.

Lemma unique_written {A} (write : A -> json) (name : A -> string) l :
  (forall a, item_id (write a) = Some (name a)) -> NoDup (map name l) -> unique (map write l) = Ok tt.
Proof.
  intros Hw Hnd. unfold unique. assert (mapM item_id (map write l) = Some (map name l)) as ->; [|by rewrite bool_decide_eq_true_2].
  clear Hnd. induction l as [|a l IH]; [done|]. cbn [map mapM]. rewrite Hw. cbn. by rewrite IH.
Qed.

Lemma polygon_written l : (3 <= length l)%nat -> Z.of_nat (length l) <= 1000 -> Forall (fun p => is_finite p.1 /\ is_finite p.2) l ->
  polygon (JArr (map point_json l)) = Ok l.
Proof.
  intros H3 Hl Hf. unfold polygon. rewrite list_upto_arr by (by rewrite length_map). cbn [rbind]. rewrite length_map, (proj2 (Nat.leb_le _ _)) by done.
  apply rmap_written. apply (Forall_impl _ _ _ Hf). intros [x y] [Hx Hy]. cbn [point_json point fst snd] in *. by rewrite !finite_num.
Qed.

(** ** What fits *)

Definition short (max : Z) (s : string) : Prop := 0 < js_length s <= max.

Record seat_wire (s : SeatState) : Prop := {
  sw_id : short 255 (st_id s);
  sw_place : is_finite (st_x s) /\ is_finite (st_y s);
  sw_index : 0 <= st_index s <= 100;
  sw_near : Z.of_nat (length (st_neighbors s)) <= 100 /\ Forall (short 255) (st_neighbors s) /\ NoDup (st_neighbors s) }.

Lemma side_named_text side : side_named (side_text side) = Some side.
Proof. by destruct side. Qed.

Lemma at_key_here k v o : at_key k ((k, v) :: o) = v.
Proof. unfold at_key, field. cbn. by rewrite bool_decide_eq_true_2. Qed.
Lemma at_key_next k k' v o : k <> k' -> at_key k ((k', v) :: o) = at_key k o.
Proof. intros H. unfold at_key, field. cbn. by rewrite bool_decide_eq_false_2. Qed.

(** One step of reading a written object. *)
Ltac read_field := repeat first [rewrite at_key_here | rewrite at_key_next by discriminate].
Ltac read_record := change (record (JObj ?o) _) with (Ok (E := refusal) o); cbn [rbind].
Tactic Notation "read_by" uconstr(H) := read_field; rewrite H; [cbn [rbind]|..].

Lemma seat_written s : seat_wire s -> validSeat (seat_json s) = Ok s.
Proof.
  intros [Hid [Hx Hy] Hi (Hn & Hs & Hnd)]. unfold validSeat, seat_json, text. read_record.
  read_by text_upto_str; [|done]. read_by finite_num; [|done]. read_by finite_num; [|done].
  read_field. cbn [js_text rbind]. rewrite side_named_text. cbn [of_option rbind].
  read_by count_upto_int; [|lia|lia]. read_field.
  assert (tri (opt_json JBool (st_occupied s)) = Ok (st_occupied s)) as -> by (by destruct (st_occupied s)). cbn [rbind].
  read_by list_upto_arr; [|by rewrite length_map]. rewrite rmap_written.
  - cbn [rbind]. rewrite bool_decide_eq_true_2 by done. by destruct s.
  - apply (Forall_impl _ _ _ Hs). intros id H. by apply text_upto_str.
Qed.

Record table_wire (t : TableState) : Prop := {
  tw_text : short 255 (tb_id t) /\ short 255 (tb_name t) /\ short 255 (tb_zoneId t);
  tw_rect : is_finite (rect_x (tb_rect t)) /\ is_finite (rect_y (tb_rect t)) /\
    (is_finite (rect_width (tb_rect t)) /\ 0 < rect_width (tb_rect t))%Q /\ (is_finite (rect_height (tb_rect t)) /\ 0 < rect_height (tb_rect t))%Q;
  tw_capacity : 1 <= tb_capacity t <= 100;
  tw_seats : Z.of_nat (length (tb_seats t)) = tb_capacity t;
  tw_names : NoDup (map st_id (tb_seats t));
  tw_seat : Forall seat_wire (tb_seats t);
  tw_near s id : s ∈ tb_seats t -> id ∈ st_neighbors s -> id <> st_id s /\ id ∈ map st_id (tb_seats t);
  tw_shown : table_shown (tb_capacity t) t }.

Lemma rect_written r : is_finite (rect_x r) -> is_finite (rect_y r) -> (is_finite (rect_width r) /\ 0 < rect_width r)%Q ->
  (is_finite (rect_height r) /\ 0 < rect_height r)%Q -> validRect (rect_json r) = Ok r.
Proof.
  intros Hx Hy [Hw Hw0] [Hh Hh0]. unfold validRect, rect_json. read_record.
  read_by finite_num; [|done]. read_by finite_num; [|done]. read_by finite_num; [|done]. rewrite (proj2 (Qltb_lt _ _) Hw0).
  read_by finite_num; [|done]. rewrite (proj2 (Qltb_lt _ _) Hh0). by destruct r.
Qed.

Lemma forallb_Forall {A} (f : A -> bool) (P : A -> Prop) l : (forall x, P x -> f x = true) -> Forall P l -> forallb f l = true.
Proof. intros Hf. induction 1 as [|x l Hx _ IH]; [done|]. cbn. by rewrite (Hf x Hx), IH. Qed.

Lemma numbers_written o t : table_shown (tb_capacity t) t -> 1 <= tb_capacity t <= 100 ->
  at_key "status" o = JStr (status_text (tb_status t)) -> at_key "occupied" o = opt_json JInt (tb_occupied t) ->
  at_key "free" o = opt_json JInt (tb_free t) -> table_numbers o (tb_capacity t) (tb_seats t) = Ok (tb_status t, (tb_occupied t, tb_free t)).
Proof.
  intros Hs Hc Es Eo Ef. unfold table_numbers. rewrite Es, Eo, Ef. destruct Hs as [(-> & -> & -> & Hopen)|(Hst & Hk & n & f & -> & -> & Hn & H0 & H1 & Hsum)].
  - cbn [status_text opt_json is_null]. rewrite bool_decide_eq_true_2 by done. unfold all_open.
    erewrite forallb_Forall; [done| |exact Hopen]. intros s E. by apply bool_decide_eq_true.
  - cbn [opt_json]. assert (0 <= n <= tb_capacity t /\ 0 <= f <= tb_capacity t) as [Hn' Hf'] by lia.
    rewrite (count_upto_int _ n Hn'), (count_upto_int _ f Hf') by lia. cbn [rbind].
    assert (all_known (tb_seats t) = true) as ->.
    { eapply forallb_Forall; [|exact Hk]. intros s E. by apply negb_true, bool_decide_eq_false. }
    rewrite (proj2 (Z.eqb_eq _ _) Hsum), (proj2 (Z.eqb_eq _ _) (eq_sym Hn)). by destruct (tb_status t).
Qed.

Lemma strays_none seats : (forall s id, s ∈ seats -> id ∈ st_neighbors s -> id <> st_id s /\ id ∈ map st_id seats) -> strays seats = false.
Proof.
  intros H. apply not_true_iff_false. unfold strays. intros (s & Hs & (id & Hid & Hbad)%existsb_exists)%existsb_exists.
  apply list_elem_of_In in Hs, Hid. destruct (H s id Hs Hid) as [Hne Hin].
  apply orb_true_iff in Hbad as [Hbad|Hbad]; [by apply bool_decide_eq_true in Hbad|by apply negb_true, includes_false in Hbad].
Qed.

Lemma table_written t : table_wire t -> validTable (table_json t) = Ok t.
Proof.
  intros [(Hid & Hname & Hz) (Hx & Hy & Hw & Hh) Hc Hl Hnd Hs Hnear Hshown]. unfold validTable, table_json, text. read_record.
  read_by text_upto_str; [|done]. read_by text_upto_str; [|done]. read_by text_upto_str; [|done].
  read_by count_upto_int; [|lia|lia]. rewrite (proj2 (Z.leb_le _ _)) by lia. read_by rect_written; [|done..].
  read_by list_upto_arr; [|rewrite length_map; lia]. rewrite length_map, (proj2 (Z.eqb_eq _ _) Hl).
  rewrite (unique_written seat_json st_id) by done. cbn [rbind]. rewrite rmap_written; [cbn [rbind]|].
  - rewrite strays_none by done. cbn [negb]. erewrite numbers_written; [|done|done|by read_field..]. cbn [rbind]. by destruct t.
  - apply (Forall_impl _ _ _ Hs). apply seat_written.
Qed.

Record zone_wire (z : ZoneState) : Prop := {
  zw_text : short 255 (zn_id z) /\ short 255 (zn_name z);
  zw_polygon : (3 <= length (zn_polygon z))%nat /\ Z.of_nat (length (zn_polygon z)) <= 1000 /\ Forall (fun p => is_finite p.1 /\ is_finite p.2) (zn_polygon z);
  zw_people n : zn_people z = Some n -> 0 <= n <= 1000000 }.

Lemma zone_written z : zone_wire z -> validZone (zone_json z) = Ok z.
Proof.
  intros [[Hid Hname] (H3 & Hl & Hf) Hp]. unfold validZone, zone_json, text. read_record.
  read_by text_upto_str; [|done]. read_by text_upto_str; [|done]. read_by polygon_written; [|done..]. read_field.
  destruct z as [id name shape [n|]]; cbn [opt_json zn_people] in *; [|done]. specialize (Hp n eq_refl).
  change (JInt n) with (JNum (n # 1)). cbv beta iota. change (JNum (n # 1)) with (JInt n). unfold count. by rewrite count_upto_int by lia.
Qed.

Record floor_wire (f : FloorState) : Prop := {
  fw_text : short 255 (fl_id f) /\ short 255 (fl_building f) /\ short 255 (fl_name f);
  fw_size : (is_finite (fl_width f) /\ 0 < fl_width f)%Q /\ (is_finite (fl_height f) /\ 0 < fl_height f)%Q;
  fw_outline : (3 <= length (fl_outline f))%nat /\ Z.of_nat (length (fl_outline f)) <= 1000 /\ Forall (fun p => is_finite p.1 /\ is_finite p.2) (fl_outline f);
  fw_zones : Z.of_nat (length (fl_zones f)) <= 1000 /\ NoDup (map zn_id (fl_zones f)) /\ Forall zone_wire (fl_zones f);
  fw_tables : Z.of_nat (length (fl_tables f)) <= 1000 /\ NoDup (map tb_id (fl_tables f)) /\ Forall table_wire (fl_tables f);
  fw_zone t : t ∈ fl_tables f -> tb_zoneId t ∈ map zn_id (fl_zones f);
  fw_seats : NoDup (fl_tables f ≫= fun t => map st_id (tb_seats t));
  fw_totals : fl_totals f = floor_totals (fl_tables f) }.

Lemma sum_of_bounds {A} (f : A -> Z) c l : Forall (fun x => 0 <= f x <= c) l -> 0 <= sum_of f l <= c * Z.of_nat (length l).
Proof. induction 1 as [|x l Hx _ IH]; [cbn; lia|]. rewrite sum_of_cons. cbn [length]. lia. Qed.

Lemma Forall_filter_b {A} (P : A -> Prop) (f : A -> bool) l : Forall P l -> Forall P (List.filter f l).
Proof. rewrite !List.Forall_forall. intros H x [Hx _]%filter_In. by apply H. Qed.

Lemma totals_bounded tables : Forall table_wire tables -> Z.of_nat (length tables) <= 1000 ->
  let t := floor_totals tables in
  0 <= tt_seats t <= 1000000 /\ 0 <= tt_free t <= 1000000 /\ 0 <= tt_occupied t <= 1000000 /\
  0 <= tt_unknownSeats t <= 1000000 /\ 0 <= tt_tablesFullyFree t <= 1000000.
Proof.
  intros Hw Hl. cbn.
  assert (forall (f : TableState -> Z) (g : TableState -> bool), (forall t, table_wire t -> 0 <= f t <= 100) -> 0 <= sum_of f (List.filter g tables) <= 1000000) as Hsum.
  { intros f g Hf. pose proof (sum_of_bounds f 100 (List.filter g tables)) as Hb. pose proof (List.filter_length_le g tables).
    assert (Forall (fun x => 0 <= f x <= 100) (List.filter g tables)) as Hall by (apply Forall_filter_b, (Forall_impl _ _ _ Hw), Hf).
    specialize (Hb Hall). lia. }
  assert (forall t, table_wire t -> 0 <= tb_capacity t <= 100 /\ 0 <= default 0 (tb_free t) <= 100 /\ 0 <= default 0 (tb_occupied t) <= 100) as Hnum.
  { intros t [_ _ Hc _ _ _ _ Hs]. destruct Hs as [(_ & -> & -> & _)|(_ & _ & o & f & -> & -> & _ & H0 & H1 & Hs)]; cbn; lia. }
  refine (conj _ (conj _ (conj _ (conj _ _)))); try (apply Hsum; intros t Ht; by apply Hnum).
  - pose proof (sum_of_bounds tb_capacity 100 tables) as Hb.
    assert (Forall (fun x => 0 <= tb_capacity x <= 100) tables) as Hall by (apply (Forall_impl _ _ _ Hw); intros t Ht; by apply Hnum).
    specialize (Hb Hall). lia.
  - match goal with |- 0 <= Z.of_nat (length (List.filter ?f (List.filter ?g tables))) <= _ =>
      pose proof (List.filter_length_le f (List.filter g tables)); pose proof (List.filter_length_le g tables) end. lia.
Qed.

Lemma totals_written t : (0 <= tt_seats t <= 1000000 /\ 0 <= tt_free t <= 1000000 /\ 0 <= tt_occupied t <= 1000000 /\
  0 <= tt_unknownSeats t <= 1000000 /\ 0 <= tt_tablesFullyFree t <= 1000000) -> validTotals (totals_json t) = Ok t.
Proof.
  intros (H1 & H2 & H3 & H4 & H5). unfold validTotals, totals_json, count. read_record.
  read_by count_upto_int; [|done|lia]. read_by count_upto_int; [|done|lia]. read_by count_upto_int; [|done|lia].
  read_by count_upto_int; [|done|lia]. read_by count_upto_int; [|done|lia]. by destruct t.
Qed.

Lemma floor_written f : floor_wire f -> validFloor (floor_json f) = Ok f.
Proof.
  intros [(Hid & Hb & Hname) [[Hw Hw0] [Hh Hh0]] (Ho1 & Ho2 & Ho3) (Hz1 & Hz2 & Hz3) (Ht1 & Ht2 & Ht3) Hzone Hseats Htot].
  unfold validFloor, floor_json, text. read_record.
  read_by text_upto_str; [|done]. read_by text_upto_str; [|done]. read_by text_upto_str; [|done].
  read_by finite_num; [|done]. rewrite (proj2 (Qltb_lt _ _) Hw0). read_by finite_num; [|done]. rewrite (proj2 (Qltb_lt _ _) Hh0).
  read_by polygon_written; [|done..]. read_by list_upto_arr; [|by rewrite length_map]. rewrite (unique_written zone_json zn_id) by done. cbn [rbind].
  rewrite rmap_written by (apply (Forall_impl _ _ _ Hz3), zone_written). cbn [rbind].
  read_by list_upto_arr; [|by rewrite length_map]. rewrite (unique_written table_json tb_id) by done. cbn [rbind].
  rewrite rmap_written by (apply (Forall_impl _ _ _ Ht3), table_written). cbn [rbind].
  read_by totals_written; [|rewrite Htot; by apply totals_bounded].
  assert (forallb (fun t => includes (tb_zoneId t) (map zn_id (fl_zones f))) (fl_tables f) = true) as ->.
  { apply forallb_forall. intros t Ht%list_elem_of_In. by apply includes_true, Hzone. }
  rewrite (bool_decide_eq_true_2 _ Hseats), (bool_decide_eq_true_2 _ Htot). by destruct f.
Qed.

Record snapshot_wire (s : OccupancySnapshot) : Prop := {
  nw_text : short 99 (os_edgeId s) /\ short 255 (os_siteId s) /\ short 255 (os_siteName s);
  nw_time : (0 <= os_generatedAt s)%Q /\ is_finite (os_generatedAt s);
  nw_floors : Z.of_nat (length (os_floors s)) <= 200 /\ NoDup (map fl_id (os_floors s)) /\ Forall floor_wire (os_floors s) }.

Lemma snapshot_written s : snapshot_wire s -> isSnapshot (snapshot_json s) = Ok s.
Proof.
  intros [(Hid & Hsid & Hsn) [Ht0 Ht] (Hf1 & Hf2 & Hf3)]. unfold isSnapshot, snapshot_json, text. read_record. read_field.
  cbn [is_one]. change (is_one (JInt 1)) with true. cbv iota. read_by text_upto_str; [|done]. read_field. read_record.
  read_by text_upto_str; [|done]. read_by text_upto_str; [|done]. unfold nonnegative. read_by finite_num; [|done].
  rewrite (proj2 (Qle_bool_iff _ _) Ht0). cbn [rbind]. read_by list_upto_arr; [|by rewrite length_map].
  rewrite (unique_written floor_json fl_id) by done. cbn [rbind]. rewrite rmap_written by (apply (Forall_impl _ _ _ Hf3), floor_written).
  by destruct s.
Qed.

(** ** The seats of a configuration *)

Record seat_def_ok (s : SeatSpec) : Prop := {
  dk_id : 0 < js_length (sp_id s);
  dk_place : (-1000 <= sp_x s <= 200000 /\ -1000 <= sp_y s <= 200000)%Q;
  dk_index : 0 <= sp_index s <= 20 }.

Record seats_def_ok (seats : list SeatSpec) : Prop := {
  df_seat : Forall seat_def_ok seats;
  df_names : NoDup (map sp_id seats);
  df_near s : s ∈ seats -> NoDup (sp_neighbors s) /\ Z.of_nat (length (sp_neighbors s)) <= 20 /\
    forall id, id ∈ sp_neighbors s -> id <> sp_id s /\ id ∈ map sp_id seats }.

Lemma id_with_dash a b : 0 < js_length (a +:+ "-" +:+ b).
Proof. rewrite !js_length_app. unfold js_length. cbn [String.length]. lia. Qed.

(** The seats a configuration lists, before their neighbours are found. *)
Lemma listed_seats tableId floor w l : (fd_width floor <= 100000)%Q -> (fd_height floor <= 100000)%Q ->
  forall i acc seats, for_each (add_seat tableId floor w) i l acc = Ok seats -> length acc = i ->
  (forall k s, acc !! k = Some s -> sp_index s = Z.of_nat k /\ 0 < js_length (sp_id s) /\ (0 <= sp_x s <= 100000 /\ 0 <= sp_y s <= 100000)%Q) ->
  forall k s, seats !! k = Some s -> sp_index s = Z.of_nat k /\ 0 < js_length (sp_id s) /\ (0 <= sp_x s <= 100000 /\ 0 <= sp_y s <= 100000)%Q.
Proof.
  intros Hw Hh. induction l as [|v l IH]; intros i acc seats; cbn [for_each]; [by intros [= <-]|].
  intros (acc' & H1 & H2)%rbind_ok Hlen Hacc. eapply (IH _ _ _ H2).
  - unfold add_seat in H1. inv_ok H1. injection H1 as <-. rewrite length_app. cbn. lia.
  - unfold add_seat in H1. inv_ok H1. injection H1 as <-. intros k s [Hk|[Hk Hs]]%lookup_app_Some; [by apply Hacc|].
    apply list_lookup_singleton_Some in Hs as [Hk0 <-]. cbn [sp_index sp_id sp_x sp_y].
    repeat match goal with H : num _ _ _ _ _ = Ok _ |- _ => apply num_range in H as [? ?] end.
    split_and!; [lia|apply id_with_dash|done|lra|done|lra].
Qed.

Lemma explicit_ok v id (rect : Rect) capacity floor w seats : (fd_width floor <= 100000)%Q -> (fd_height floor <= 100000)%Q -> 0 <= capacity <= 20 ->
  explicitSeats v id capacity floor w = Ok seats -> seats_def_ok seats.
Proof.
  intros Hw Hh Hc He. assert (Z.of_nat (length seats) = capacity) as Hlen.
  { apply (table_seats_length [("seats", v)] id rect capacity floor w); [lia|exact He]. }
  unfold explicitSeats in He. destruct v as [| | | |l|]; try done. inv_ok He. apply negb_false, bool_decide_eq_true in Hc1. rename a into listed.
  pose proof (listed_seats id floor w l Hw Hh 0%nat [] listed Hm eq_refl ltac:(done)) as Hl. apply Ok_inj in He. subst seats.
  rewrite length_map in Hlen.
  assert (forall s, s ∈ listed -> exists k, listed !! k = Some s /\ (k < length listed)%nat) as Hpos.
  { intros s (k & Hk)%list_elem_of_lookup. exists k. split; [done|]. by eapply lookup_lt_Some. }
  constructor.
  - apply Forall_map, Forall_forall. intros s (k & Hk & Hlt)%Hpos. destruct (Hl k s Hk) as (Hi & Hid & Hx & Hy). constructor; cbn; [done|split; lra|lia].
  - by rewrite map_map.
  - rewrite map_map. cbn [sp_id]. intros s (a & -> & Ha)%list_elem_of_fmap. cbn [sp_neighbors sp_id].
    match goal with |- context [List.filter ?f listed] => pose proof (sublist_List_filter f listed) as Hsub; pose proof (List.filter_length_le f listed) end.
    split_and!.
    + eapply sublist_NoDup; [exact Hc1|]. by apply (fmap_sublist sp_id).
    + rewrite length_map. lia.
    + intros i (b & -> & Hb)%list_elem_of_fmap. apply list_elem_of_In, filter_In in Hb as [Hb%list_elem_of_In [Hne _]%andb_true_iff].
      apply negb_true, Z.eqb_neq in Hne. split; [|apply list_elem_of_fmap; by exists b].
      intros E. destruct (Hpos a Ha) as (j & Hj & _), (Hpos b Hb) as (k & Hk & _).
      assert (j = k) as ->; [|congruence]. apply (NoDup_lookup _ j k (sp_id a) Hc1); rewrite list_lookup_fmap; [by rewrite Hj|by rewrite Hk, <- E].
Qed.

(** ** The seats the code lays out itself *)

Lemma seat_id_inj tableId s s' n n' : tableId +:+ "-" +:+ side_text s +:+ show n = tableId +:+ "-" +:+ side_text s' +:+ show n' -> s = s' /\ n = n'.
Proof.
  intros H. apply (f_equal chars) in H. rewrite !chars_app in H. apply app_inv_head in H. apply app_inv_head in H.
  assert (s = s') as ->.
  { destruct s, s'; try done; cbn in H; discriminate H. }
  split; [done|]. apply app_inv_head, chars_inj in H. by apply (inj pretty).
Qed.

(** A rectangle on a floor of a configuration. *)
Definition rect_on (r : Rect) : Prop :=
  (0 <= rect_x r /\ 0 <= rect_y r /\ 20 <= rect_width r /\ 20 <= rect_height r /\
   rect_x r + rect_width r <= 100000 /\ rect_y r + rect_height r <= 100000)%Q.

(** A seat named after its side and its place there. *)
Definition named_after (tableId : string) (s : SeatSpec) : Prop :=
  sp_id s = tableId +:+ "-" +:+ side_text (sp_side s) +:+ show (sp_index s + 1).

Lemma named_same tableId a b : named_after tableId a -> named_after tableId b -> sp_id a = sp_id b -> sp_side a = sp_side b /\ sp_index a = sp_index b.
Proof. unfold named_after. intros -> -> [? ?]%seat_id_inj. split; [done|lia]. Qed.

Lemma share_range i n d : (i < n)%nat -> (0 <= d)%Q -> (0 <= (inject_Z (Z.of_nat i) + (1 # 2)) / inject_Z (Z.of_nat n) * d <= d)%Q.
Proof.
  intros Hi Hd. set (t := ((inject_Z (Z.of_nat i) + (1 # 2)) / inject_Z (Z.of_nat n))%Q).
  assert (0 <= t <= 1)%Q as [H0 H1].
  { unfold t. split.
    - apply Qle_shift_div_l; [unfold Qlt; cbn; lia|]. rewrite Qmult_0_l. unfold Qle. cbn. lia.
    - apply Qle_shift_div_r; [unfold Qlt; cbn; lia|]. unfold Qle. cbn. lia. }
  split; nra.
Qed.

Lemma rounded_range q : (-100 <= q <= 101000)%Q -> (-1000 <= inject_Z (js_round q) <= 200000)%Q.
Proof.
  intros H. change (-100)%Q with (inject_Z (-100)) in H. change 101000%Q with (inject_Z 101000) in H. apply js_round_range in H.
  change (-1000)%Q with (inject_Z (-1000)). change 200000%Q with (inject_Z 200000). rewrite <- !Zle_Qle. lia.
Qed.

Lemma side_seat tableId rect vertical side n s : rect_on rect -> (n <= 20)%nat -> s ∈ side_seats tableId rect vertical side n ->
  sp_side s = side /\ named_after tableId s /\ seat_def_ok s.
Proof.
  intros (Hx & Hy & Hw & Hh & Hxw & Hyh) Hn (i & -> & Hi)%list_elem_of_fmap. apply list_elem_of_In, in_seq in Hi.
  assert (i < n)%nat as Hlt by lia. unfold named_after. cbn [sp_side sp_id sp_index]. split_and!; [done|done|].
  assert (0 <= rect_width rect)%Q as Hw0 by lra. assert (0 <= rect_height rect)%Q as Hh0 by lra.
  pose proof (share_range i n _ Hlt Hw0) as [? ?]. pose proof (share_range i n _ Hlt Hh0) as [? ?].
  constructor; cbn [sp_id sp_x sp_y sp_index]; [apply id_with_dash| |lia]. unfold SEAT_OFFSET_CM.
  split; apply rounded_range; destruct vertical; try case_bool_decide; lra.
Qed.

Lemma side_seats_names tableId rect vertical side n : NoDup (map sp_id (side_seats tableId rect vertical side n)).
Proof.
  unfold side_seats. rewrite map_map. cbn [sp_id]. apply (NoDup_fmap_2_strong _); [|apply NoDup_ListNoDup, seq_NoDup].
  intros i j _ _ [_ E]%seat_id_inj. lia.
Qed.

(** The seats beside a seat and across from it. *)
Lemma near_seats tableId seats a other : named_after tableId a -> other <> sp_side a ->
  (forall side index s, seat_at seats side index = Some s -> s ∈ seats /\ sp_side s = side /\ sp_index s = index /\ named_after tableId s) ->
  let near := map sp_id (omap id [seat_at seats (sp_side a) (sp_index a - 1); seat_at seats (sp_side a) (sp_index a + 1); seat_at seats other (sp_index a)]) in
  NoDup near /\ Z.of_nat (length near) <= 20 /\ forall i, i ∈ near -> i <> sp_id a /\ i ∈ map sp_id seats.
Proof.
  intros Ha Hother Hat near.
  assert (forall x y, named_after tableId x -> named_after tableId y -> sp_side x <> sp_side y \/ sp_index x <> sp_index y -> sp_id x <> sp_id y) as Hdiff.
  { intros x y Hx Hy Hd E. destruct (named_same _ _ _ Hx Hy E). tauto. }
  assert (forall x, x ∈ seats -> sp_id x ∈ map sp_id seats) as Hel by (intros x Hx; apply list_elem_of_fmap; by exists x).
  unfold near. cbn.
  destruct (seat_at seats (sp_side a) (sp_index a - 1)) as [x|] eqn:Ex; try (apply Hat in Ex as (? & ? & ? & ?));
  destruct (seat_at seats (sp_side a) (sp_index a + 1)) as [y|] eqn:Ey; try (apply Hat in Ey as (? & ? & ? & ?));
  destruct (seat_at seats other (sp_index a)) as [z|] eqn:Ez; try (apply Hat in Ez as (? & ? & ? & ?)); cbn;
  (split_and!; [rewrite ?NoDup_cons, ?not_elem_of_cons; split_and?; try apply not_elem_of_nil; try apply NoDup_nil_2; apply Hdiff; try done; (left; congruence) || (right; lia)|lia|]);
  intros i Hi; rewrite ?elem_of_cons in Hi; destruct_or?; subst; try (by apply not_elem_of_nil in Hi);
  (split; [apply Hdiff; try done; (left; congruence) || (right; lia)|by apply Hel]).
Qed.

Lemma generate_ok id rect capacity : rect_on rect -> (capacity <= 20)%nat -> seats_def_ok (generateSeats id rect capacity).
Proof.
  intros Hr Hc. unfold generateSeats. set (vertical := Qle_bool _ _).
  assert (exists s0 s1, (if vertical then (L, R) else (T, B)) = (s0, s1) /\ s0 <> s1) as (s0 & s1 & -> & Hne) by (destruct vertical; eauto).
  assert (Nat.div2 (S capacity) <= 20 /\ Nat.div2 capacity <= 20)%nat as [H0 H1] by (pose proof (div2_split capacity) as Hd; revert Hd Hc; generalize (Nat.div2 (S capacity)), (Nat.div2 capacity); clear; intros; lia).
  set (seats := side_seats id rect vertical s0 _ ++ side_seats id rect vertical s1 _).
  assert (forall s, s ∈ seats -> named_after id s /\ seat_def_ok s /\ (sp_side s = s0 \/ sp_side s = s1)) as Hs.
  { intros s [Hin|Hin]%elem_of_app; [destruct (side_seat _ _ _ _ _ _ Hr H0 Hin) as (? & ? & ?)|destruct (side_seat _ _ _ _ _ _ Hr H1 Hin) as (? & ? & ?)]; eauto. }
  assert (NoDup (map sp_id seats)) as Hnd.
  { unfold seats. rewrite map_app. apply NoDup_app. split_and!; [apply side_seats_names| |apply side_seats_names].
    intros i (a & -> & Ha)%list_elem_of_fmap (b & E & Hb)%list_elem_of_fmap.
    destruct (side_seat _ _ _ _ _ _ Hr H0 Ha) as (Hsa & Hna & _), (side_seat _ _ _ _ _ _ Hr H1 Hb) as (Hsb & Hnb & _).
    destruct (named_same id a b Hna Hnb E). congruence. }
  assert (forall side index s, seat_at seats side index = Some s -> s ∈ seats /\ sp_side s = side /\ sp_index s = index) as Hat.
  { intros side index s [Hin Hm]%find_some. apply andb_true_iff in Hm as [?%bool_decide_eq_true ?%Z.eqb_eq]. split_and!; [by apply list_elem_of_In|done|done]. }
  constructor.
  - apply Forall_map, Forall_forall. intros s (_ & [? ? ?] & _)%Hs. by constructor.
  - by rewrite map_map.
  - rewrite map_map. cbn [sp_id]. intros s (a & -> & Ha)%list_elem_of_fmap. cbn [sp_neighbors sp_id].
    destruct (Hs a Ha) as (Hna & _ & Hside). set (other := if bool_decide (sp_side a = s0) then s1 else s0).
    assert (other <> sp_side a) as Hother by (unfold other; case_bool_decide; intuition congruence).
    apply (near_seats id seats a other Hna Hother).
    intros side index s Hat'. destruct (Hat _ _ _ Hat') as (Hin & <- & <-). split_and!; [done|done|done|by apply Hs].
Qed.

(** ** Floors and tables of an accepted configuration *)

Record table_def_ok (t : TableDef) : Prop := {
  tk_text : 0 < js_length (td_id t) /\ 0 < js_length (td_name t) /\ 0 < js_length (td_zoneId t);
  tk_rect : rect_on (td_rect t);
  tk_capacity : 1 <= td_capacity t <= 20 /\ Z.of_nat (length (td_seats t)) = td_capacity t;
  tk_seats : seats_def_ok (td_seats t) }.

Record floor_def_ok (f : FloorDef) : Prop := {
  fk_text : 0 < js_length (fd_id f) /\ 0 < js_length (fd_building f) /\ 0 < js_length (fd_name f);
  fk_size : (100 <= fd_width f <= 100000 /\ 100 <= fd_height f <= 100000)%Q;
  fk_outline : (3 <= length (fd_outline f))%nat;
  fk_zones : NoDup (map zd_id (fd_zones f)) /\
    Forall (fun z => 0 < js_length (zd_id z) /\ 0 < js_length (zd_name z) /\ (3 <= length (zd_polygon z))%nat) (fd_zones f);
  fk_tables : NoDup (fd_tables f) }.

(** Floors whose listed tables are there, each in a zone of its floor. *)
Record site_ok (floors : list FloorDef) (tables : list (string * TableDef)) : Prop := {
  so_floor fl : fl ∈ floors -> floor_def_ok fl;
  so_table id t : (id, t) ∈ tables -> td_id t = id /\ table_def_ok t;
  so_listed fl id : fl ∈ floors -> id ∈ fd_tables fl ->
    om_has id tables = true /\ forall t, (id, t) ∈ tables -> td_zoneId t ∈ map zd_id (fd_zones fl) }.

Lemma str_nonempty o k w s : str o k w = Ok s -> 0 < js_length s.
Proof.
  unfold str. destruct (field k o) as [[| | |v| |]|]; try done. intros H. inv_ok H. injection H as ->.
  destruct s as [|c s]; [done|]. unfold js_length. cbn [String.length]. lia.
Qed.

Lemma points_three v w l : points v w = Ok l -> (3 <= length l)%nat.
Proof.
  unfold points. destruct v as [[| | | |j|]|]; try done. intros H. inv_ok H. apply Nat.ltb_ge in Hc.
  by rewrite (rmap_ok_length _ _ _ H).
Qed.

Lemma table_seats_ok t id rect capacity floor w seats : (fd_width floor <= 100000)%Q -> (fd_height floor <= 100000)%Q -> rect_on rect ->
  1 <= capacity <= 20 -> table_seats t id rect capacity floor w = Ok seats -> seats_def_ok seats.
Proof.
  intros Hw Hh Hr Hc. unfold table_seats. destruct (field "seats" t) as [v|].
  - apply (explicit_ok v id rect); [done|done|lia].
  - intros [= <-]. apply generate_ok; [done|lia].
Qed.

(** One table read. *)
Lemma add_table_def w ti tv floor tables si floor' tables' si' : (fd_width floor <= 100000)%Q -> (fd_height floor <= 100000)%Q ->
  add_table w ti tv (floor, (tables, si)) = Ok (floor', (tables', si')) ->
  exists id t, tables' = om_set id t tables /\ td_id t = id /\ om_has id tables = false /\ table_def_ok t /\ td_zoneId t ∈ map zd_id (fd_zones floor) /\
    floor' = {| fd_id := fd_id floor; fd_visibility := fd_visibility floor; fd_building := fd_building floor; fd_name := fd_name floor;
                fd_width := fd_width floor; fd_height := fd_height floor; fd_outline := fd_outline floor; fd_zones := fd_zones floor;
                fd_tables := fd_tables floor ++ [id] |}.
Proof.
  intros Hw Hh H. unfold add_table in H. inv_ok H. injection H as <- <- <-. eexists _, _. split; [reflexivity|]. cbn [td_id].
  repeat match goal with H : num _ _ _ _ _ = Ok _ |- _ => apply num_range in H end.
  repeat match goal with H : str _ _ _ = Ok _ |- _ => apply str_nonempty in H end.
  match goal with H : of_option _ _ = Ok ?c |- _ => apply of_option_ok in H; rename H into Hcap; rename c into cap end.
  match goal with H : (1 <= _ <= 20)%Q |- _ => pose proof (integer_in_range _ _ H Hcap) as Hcap20 end.
  match goal with H : (Qltb _ _ || Qltb _ _) = false |- _ => apply orb_false_iff in H as [Hx Hy] end.
  rewrite Qltb_ge in Hx, Hy.
  match goal with H : table_seats _ _ ?r _ _ _ = Ok _ |- _ => rename H into Hseats; assert (rect_on r) as Hrect by (unfold rect_on; cbn; lra) end.
  split_and!; [done|done| | |reflexivity].
  - constructor; cbn [td_id td_name td_zoneId td_rect td_capacity td_seats]; [done|done|split; [done|]|].
    + eapply table_seats_length; [|exact Hseats]. lia.
    + eapply table_seats_ok; [exact Hw|exact Hh|exact Hrect|exact Hcap20|exact Hseats].
  - cbn [td_zoneId]. match goal with H : negb (existsb _ _) = false |- _ => apply negb_false, existsb_exists in H as (z & Hz & E%bool_decide_eq_true) end.
    apply list_elem_of_fmap. exists z. split; [done|by apply list_elem_of_In].
Qed.

Lemma add_table_site floors w ti tv floor tables si floor' tables' si' :
  add_table w ti tv (floor, (tables, si)) = Ok (floor', (tables', si')) ->
  site_ok (floors ++ [floor]) tables -> site_ok (floors ++ [floor']) tables'.
Proof.
  intros H [Hf Ht Hl]. pose proof (Hf floor ltac:(apply elem_of_app; right; by left)) as [Htx [[? ?] [? ?]] Ho Hz Hnd].
  apply add_table_def in H as (id & t & -> & Hid & Hnew & Hok & Hzone & ->); [|done|done].
  assert (forall fl i, fl ∈ floors ++ [floor] -> i ∈ fd_tables fl -> i <> id) as Hold.
  { intros fl i Hfl Hi ->. destruct (Hl fl id Hfl Hi). congruence. }
  constructor.
  - intros fl [Hfl| ->%list_elem_of_singleton]%elem_of_app; [apply Hf, elem_of_app; by left|]. constructor; cbn; try done.
    apply NoDup_app. split_and!; [done| |apply NoDup_singleton]. intros i Hi ->%list_elem_of_singleton.
    by apply (Hold floor id); [apply elem_of_app; right; by left|..].
  - intros i t' [[= -> ->]|Hin]%om_set_elem; [done|by apply Ht].
  - assert (forall fl i, fl ∈ floors ++ [floor] -> i ∈ fd_tables fl -> om_has i (om_set id t tables) = true /\
      forall t', (i, t') ∈ om_set id t tables -> td_zoneId t' ∈ map zd_id (fd_zones fl)) as Hkeep.
    { intros fl i Hfl Hi. destruct (Hl fl i Hfl Hi) as [Hh Hz']. rewrite om_has_set, Hh, orb_true_r. split; [done|].
      intros t' [[= -> ->]|Hin]%om_set_elem; [by destruct (Hold fl id Hfl Hi)|by apply Hz']. }
    intros fl i [Hfl| ->%list_elem_of_singleton]%elem_of_app; [by apply Hkeep, elem_of_app; left|].
    cbn [fd_tables fd_zones]. intros [Hi| ->%list_elem_of_singleton]%elem_of_app; [apply (Hkeep floor); [apply elem_of_app; right; by left|done]|].
    rewrite om_has_set, bool_decide_eq_true_2 by done. split; [done|]. intros t' [[= ->]|Hin]%om_set_elem; [done|].
    exfalso. apply not_true_iff_false in Hnew. apply Hnew, om_has_keys, list_elem_of_fmap. by exists (id, t').
Qed.

Lemma add_zone_ok w zi zv zones zones' : add_zone w zi zv zones = Ok zones' ->
  (NoDup (map zd_id zones) /\ Forall (fun z => 0 < js_length (zd_id z) /\ 0 < js_length (zd_name z) /\ (3 <= length (zd_polygon z))%nat) zones) ->
  NoDup (map zd_id zones') /\ Forall (fun z => 0 < js_length (zd_id z) /\ 0 < js_length (zd_name z) /\ (3 <= length (zd_polygon z))%nat) zones'.
Proof.
  unfold add_zone. intros H [Hnd Hall]. inv_ok H. injection H as <-.
  repeat match goal with H : str _ _ _ = Ok _ |- _ => apply str_nonempty in H end.
  match goal with H : points _ _ = Ok _ |- _ => apply points_three in H end.
  match goal with H : existsb _ _ = false |- _ => apply not_exists_id in H; rename H into Hnew end. split.
  - rewrite map_app. apply NoDup_app. split_and!; [done| |apply NoDup_singleton]. by intros i Hi ->%list_elem_of_singleton.
  - apply Forall_app. split; [done|]. by constructor.
Qed.

Lemma add_floor_site fi fv b b' : add_floor fi fv b = Ok b' -> site_ok (bd_floors b) (bd_tables b) -> site_ok (bd_floors b') (bd_tables b').
Proof.
  unfold add_floor. intros H Hok. inv_ok H.
  match goal with E : for_each (add_table _) _ _ _ = Ok ?d |- _ => destruct d as [floor' [tables si]]; rename E into Hloop end. injection H as <-.
  repeat match goal with H : str _ _ _ = Ok _ |- _ => apply str_nonempty in H end.
  repeat match goal with H : num _ _ _ _ _ = Ok _ |- _ => apply num_range in H end.
  match goal with H : points _ _ = Ok _ |- _ => apply points_three in H end. cbn [bd_floors bd_tables].
  match goal with E : for_each (add_zone _) _ _ _ = Ok _ |- _ => rename E into Hzones end.
  eapply (for_each_inv (fun zs => NoDup (map zd_id zs) /\ Forall (fun z => 0 < js_length (zd_id z) /\ 0 < js_length (zd_name z) /\ (3 <= length (zd_polygon z))%nat) zs)) in Hzones;
    [|by intros ???? _ Hz E; eapply add_zone_ok|split; constructor].
  eapply (for_each_inv (fun s => site_ok (bd_floors b ++ [fst s]) (fst (snd s)))) in Hloop; [exact Hloop| |].
  - intros i tv [fl [ts s1]] [fl' [ts' s1']] _ Hs E. by eapply add_table_site.
  - cbn [fst snd]. destruct Hok as [Hf Ht Hl]. constructor; [|done|].
    + intros fl [Hfl| ->%list_elem_of_singleton]%elem_of_app; [by apply Hf|]. constructor; cbn; try done. constructor.
    + intros fl i [Hfl| ->%list_elem_of_singleton]%elem_of_app; [by apply Hl|]. cbn. by intros ?%not_elem_of_nil.
Qed.

Lemma site_ok_set floors tables id t : site_ok floors tables -> td_id t = id -> table_def_ok t ->
  (forall fl, fl ∈ floors -> id ∈ fd_tables fl -> td_zoneId t ∈ map zd_id (fd_zones fl)) -> site_ok floors (om_set id t tables).
Proof.
  intros [Hf Ht Hl] Hid Hok Hz. constructor; [done| |].
  - intros i t' [[= -> ->]|Hin]%om_set_elem; [done|by apply Ht].
  - intros fl i Hfl Hi. destruct (Hl fl i Hfl Hi) as [Hh Hz']. rewrite om_has_set, Hh, orb_true_r. split; [done|].
    intros t' [[= -> ->]|Hin]%om_set_elem; [by apply Hz|by apply Hz'].
Qed.

Lemma site_ok_zone floors tables id t fl : site_ok floors tables -> (id, t) ∈ tables -> fl ∈ floors -> id ∈ fd_tables fl ->
  td_zoneId t ∈ map zd_id (fd_zones fl).
Proof. intros [_ _ Hl] Hin Hfl Hi. by apply (Hl fl id Hfl Hi). Qed.

(** Owners and coverage change nothing of a table that is published. *)
Lemma table_def_owner u t : table_def_ok t -> table_def_ok (set_owner u t).
Proof. by intros [H1 H2 H3 H4]; constructor. Qed.
Lemma table_def_cover l t : table_def_ok t -> table_def_ok (set_coveredBy l t).
Proof. by intros [H1 H2 H3 H4]; constructor. Qed.

Lemma own_site floors w uid fid i tid tables tables' : own w uid fid i tid tables = Ok tables' -> site_ok floors tables -> site_ok floors tables'.
Proof.
  unfold own. destruct (om_get tid tables) as [t|] eqn:Et; [|done]. intros H Hok. inv_ok H. destruct (td_owner t); [done|]. injection H as <-.
  apply om_get_elem in Et. destruct (so_table _ _ Hok _ _ Et) as [Hid Ht].
  apply site_ok_set; [done|done|by apply table_def_owner|]. intros fl Hfl Hi. by apply (site_ok_zone _ _ _ _ _ Hok Et).
Qed.

Lemma add_node_site floors ni nv st st' : add_node floors ni nv st = Ok st' -> site_ok floors (fst st) -> site_ok floors (fst st').
Proof.
  unfold add_node. intros H Hok. inv_ok H. destruct (field "floor" _), (field "pose" _); try done.
  - unfold add_placed in H. destruct st as [tables nodes]. inv_ok H. injection H as <-. cbn [fst] in *.
    match goal with E : for_each (own _ _ _) _ _ _ = Ok _ |- _ => eapply (for_each_inv (site_ok floors)) in E; [exact E| |exact Hok] end.
    intros i tid s s' _ Hs E. by eapply own_site.
  - inv_ok H. by injection H as <-.
Qed.

Section accepted.
Context {T : Trig}.

Lemma registry_site site nodesJ reg : buildRegistry site nodesJ = Ok reg ->
  0 < js_length (rg_siteId reg) /\ 0 < js_length (rg_siteName reg) /\ NoDup (map fd_id (rg_floors reg)) /\ site_ok (rg_floors reg) (rg_tables reg).
Proof.
  intros Hreg. destruct (registry_inv _ _ _ Hreg) as (Hids & _). unfold buildRegistry in Hreg. inv_ok Hreg.
  match goal with E : for_each add_floor _ _ _ = Ok ?b |- _ => set (bd := b) in *; rename E into Hfloors end.
  match goal with E : for_each (add_node _) _ _ _ = Ok ?tn |- _ => destruct tn as [tables nodes]; rename E into Hnodes end.
  inv_ok Hreg. injection Hreg as <-. cbn [rg_floors rg_tables rg_siteId rg_siteName] in *.
  repeat match goal with H : str _ _ _ = Ok _ |- _ => apply str_nonempty in H end. split_and!; [done|done|done|].
  match goal with E : for_each (cover _) _ _ _ = Ok _ |- _ => rename E into Hcover end.
  apply (for_each_inv (fun b => site_ok (bd_floors b) (bd_tables b))) in Hfloors; cycle 1.
  { intros i fv b b' _ Hb E. by eapply add_floor_site. }
  { constructor; [by intros ? ?%not_elem_of_nil|by intros ? ? ?%not_elem_of_nil|by intros ? ? ?%not_elem_of_nil]. }
  apply (for_each_inv (fun st => site_ok (bd_floors bd) (fst st))) in Hnodes; [|by intros i nv s s' _ Hs E; eapply add_node_site|done].
  cbn [fst] in Hnodes. apply (for_each_inv (site_ok (bd_floors bd))) in Hcover; [done| |done].
  intros i [id t] s s' Hin Hs E. unfold cover in E. inv_ok E. injection E as <-. destruct (so_table _ _ Hnodes _ _ Hin) as [Hid Ht].
  apply site_ok_set; [done|done|by apply table_def_cover|]. intros fl Hfl Hi. by apply (site_ok_zone _ _ _ _ _ Hnodes Hin).
Qed.
End accepted.

(** ** What an edge publishes *)

(** The sizes the web tier allows and the edge does not check. Seats of
    different tables of a floor under one id are the one thing among them that
    is not a size. *)
Record floor_fits (f : FloorState) : Prop := {
  ft_text : js_length (fl_id f) <= 255 /\ js_length (fl_building f) <= 255 /\ js_length (fl_name f) <= 255;
  ft_outline : Z.of_nat (length (fl_outline f)) <= 1000 /\ Forall (fun p => is_finite p.1 /\ is_finite p.2) (fl_outline f);
  ft_zones : Z.of_nat (length (fl_zones f)) <= 1000 /\ Forall (fun z =>
    js_length (zn_id z) <= 255 /\ js_length (zn_name z) <= 255 /\ Z.of_nat (length (zn_polygon z)) <= 1000 /\
    Forall (fun p => is_finite p.1 /\ is_finite p.2) (zn_polygon z) /\ forall n, zn_people z = Some n -> 0 <= n <= 1000000) (fl_zones f);
  ft_tables : Z.of_nat (length (fl_tables f)) <= 1000 /\ Forall (fun t =>
    js_length (tb_id t) <= 255 /\ js_length (tb_name t) <= 255 /\ Forall (fun s => js_length (st_id s) <= 255) (tb_seats t)) (fl_tables f);
  ft_seats : NoDup (fl_tables f ≫= fun t => map st_id (tb_seats t)) }.

Record fits (s : OccupancySnapshot) : Prop := {
  ft_names : short 99 (os_edgeId s) /\ js_length (os_siteId s) <= 255 /\ js_length (os_siteName s) <= 255;
  ft_time : (0 <= os_generatedAt s)%Q /\ is_finite (os_generatedAt s);
  ft_floors : Z.of_nat (length (os_floors s)) <= 200 /\ Forall floor_fits (os_floors s) }.

(** The tables and floors of a snapshot, each as some state of the engine shows
    it. *)
Lemma table_states_of l now : forall e, Forall2 (fun t s => exists e0, s = snd (tableState e0 t now)) l (snd (table_states e l now)).
Proof.
  induction l as [|t l IH]; intros e; [constructor|]. cbn [table_states].
  destruct (tableState e t now) as [e1 s] eqn:E. specialize (IH e1). destruct (table_states e1 l now) as [e2 ss]. cbn [snd] in *.
  constructor; [|done]. exists e. by rewrite E.
Qed.

Lemma snapshot_of reg e now : Forall2 (fun fl f => exists e0, f = snd (floor_state reg e0 now fl)) (rg_floors reg) (snd (snapshot reg e now)).
Proof.
  unfold snapshot.
  assert (forall l st done_, Forall2 (fun fl f => exists e0, f = snd (floor_state reg e0 now fl)) done_ (snd st) ->
    Forall2 (fun fl f => exists e0, f = snd (floor_state reg e0 now fl)) (done_ ++ l)
      (snd (fold_left (fun st floor => let '(e, s) := floor_state reg (fst st) now floor in (e, snd st ++ [s])) l st))) as H.
  { induction l as [|fl l IH]; intros st d Hd; [by rewrite app_nil_r|]. cbn [fold_left].
    destruct (floor_state reg (fst st) now fl) as [e1 s] eqn:E. replace (d ++ fl :: l) with ((d ++ [fl]) ++ l) by (by rewrite <- app_assoc).
    apply IH. cbn [snd]. apply Forall2_app; [done|]. constructor; [|constructor]. exists (fst st). by rewrite E. }
  apply (H (rg_floors reg) (e, []) []). constructor.
Qed.

Lemma rect_finite r : rect_on r -> is_finite (rect_x r) /\ is_finite (rect_y r) /\
  (is_finite (rect_width r) /\ 0 < rect_width r)%Q /\ (is_finite (rect_height r) /\ 0 < rect_height r)%Q.
Proof. intros (? & ? & ? & ? & ? & ?). split_and!; try (apply small_finite; lra); lra. Qed.

Lemma place_finite q : (-1000 <= q <= 200000)%Q -> is_finite q.
Proof.
  intros [H1 H2]. unfold is_finite. apply (Qle_lt_trans _ 200000); [apply Qabs_Qle_condition; lra|]. apply Qltb_lt. vm_compute. reflexivity.
Qed.

(** A table, as the engine shows it, goes over the wire. *)
Lemma shown_table_wire e t now : table_def_ok t -> let s := snd (tableState e t now) in
  js_length (tb_id s) <= 255 -> js_length (tb_name s) <= 255 -> js_length (tb_zoneId s) <= 255 ->
  Forall (fun x => js_length (st_id x) <= 255) (tb_seats s) -> table_wire s.
Proof.
  intros [(H1 & H2 & H3) Hr [Hc Hl] [Hs Hn Hnear]] s Hid Hname Hz Hseats.
  pose proof (tableState_shown e t now Hl) as Hshown. fold s in Hshown.
  assert (exists e1 known, tb_seats s = map (seat_state e1 known) (td_seats t)) as (e1 & known & Eseats) by (by eexists _, _).
  assert (map st_id (tb_seats s) = map sp_id (td_seats t)) as Enames by (rewrite Eseats; by rewrite map_map).
  constructor; try done.
  - by apply (rect_finite (td_rect t)).
  - cbn. lia.
  - rewrite Eseats, length_map. exact Hl.
  - by rewrite Enames.
  - rewrite Eseats in *. apply Forall_map. rewrite Forall_map in Hseats. apply Forall_forall. intros x Hx.
    rewrite Forall_forall in Hs, Hseats. destruct (Hs x Hx) as [Hx1 [Hx2 Hx3] Hx4], (Hnear x Hx) as (Hx5 & Hx6 & Hx7).
    constructor; cbn [st_id st_x st_y st_index st_neighbors seat_state].
    + split; [done|]. by apply Hseats.
    + split; by apply place_finite.
    + lia.
    + split_and!; [lia| |done]. apply Forall_forall. intros i Hi. destruct (Hx7 i Hi) as [_ (y & -> & Hy)%list_elem_of_fmap].
      split; [apply (Hs y Hy)|by apply (Hseats y)].
  - rewrite Enames. rewrite Eseats. intros x i (y & -> & Hy)%list_elem_of_fmap Hi. by apply (Hnear y Hy).
Qed.

(** The parts of a floor as the engine shows it. *)
Record shows (reg : Registry) (now : Z) (fl : FloorDef) (f : FloorState) : Prop := {
  sh_text : fl_id f = fd_id fl /\ fl_building f = fd_building fl /\ fl_name f = fd_name fl;
  sh_size : fl_width f = fd_width fl /\ fl_height f = fd_height fl /\ fl_outline f = fd_outline fl;
  sh_zones : exists e, fl_zones f = map (zone_state e (fl_tables f) now) (fd_zones fl);
  sh_tables : Forall2 (fun t s => exists e, s = snd (tableState e t now)) (omap (fun id => om_get id (rg_tables reg)) (fd_tables fl)) (fl_tables f);
  sh_totals : fl_totals f = floor_totals (fl_tables f) }.

Lemma floor_state_shows reg e now fl : shows reg now fl (snd (floor_state reg e now fl)).
Proof.
  unfold floor_state. pose proof (table_states_of (omap (fun id => om_get id (rg_tables reg)) (fd_tables fl)) now e) as H.
  destruct (table_states e _ now) as [e1 tables]. cbn [snd] in *. constructor; cbn; try done. by exists e1.
Qed.

Lemma listed_ids tables ids : (forall id t, (id, t) ∈ tables -> td_id t = id) ->
  map td_id (omap (fun id => om_get id tables) ids) `sublist_of` ids.
Proof.
  intros H. induction ids as [|id ids IH]; [done|]. cbn. destruct (om_get id tables) as [t|] eqn:E; [|by apply sublist_cons].
  cbn. rewrite (H id t) by (by apply om_get_elem). by apply sublist_skip.
Qed.

Section shown_floor.
Context (reg : Registry) (now : Z) (fl : FloorDef) (f : FloorState).
Context (Hsite : site_ok (rg_floors reg) (rg_tables reg)) (Hfl : fl ∈ rg_floors reg) (Hshows : shows reg now fl f).

Lemma shown_table s : s ∈ fl_tables f -> exists id t e, id ∈ fd_tables fl /\ (id, t) ∈ rg_tables reg /\ s = snd (tableState e t now).
Proof.
  intros (i & Hi)%list_elem_of_lookup. destruct (Forall2_lookup_r _ _ _ _ _ (sh_tables _ _ _ _ Hshows) Hi) as (t & Ht & e & ->).
  apply list_elem_of_lookup_2, list_elem_of_omap in Ht as (id & Hid & Ht). exists id, t, e. split_and!; [done|by apply om_get_elem|done].
Qed.

Lemma shown_zone_ids : map zn_id (fl_zones f) = map zd_id (fd_zones fl).
Proof. destruct (sh_zones _ _ _ _ Hshows) as (e & ->). rewrite map_map. apply map_ext. intros z. apply zone_state_id. Qed.

Lemma shown_zone_listed s : s ∈ fl_tables f -> tb_zoneId s ∈ map zn_id (fl_zones f).
Proof.
  intros (id & t & e & Hid & Hin & ->)%shown_table. rewrite shown_zone_ids. by apply (site_ok_zone _ _ _ _ _ Hsite Hin).
Qed.

Lemma shown_table_ids : NoDup (map tb_id (fl_tables f)).
Proof.
  assert (map tb_id (fl_tables f) = map td_id (omap (fun id => om_get id (rg_tables reg)) (fd_tables fl))) as ->.
  { induction (sh_tables _ _ _ _ Hshows) as [|t s l l' (e & ->) _ IH]; [done|]. cbn [map]. by rewrite IH. }
  eapply sublist_NoDup; [apply (fk_tables _ (so_floor _ _ Hsite fl Hfl))|]. apply listed_ids. intros id t Hin. by apply (so_table _ _ Hsite).
Qed.

Lemma shown_zones_wire : floor_fits f -> Forall zone_wire (fl_zones f).
Proof.
  intros Hfits. destruct (ft_zones _ Hfits) as [_ Z2]. destruct (fk_zones _ (so_floor _ _ Hsite fl Hfl)) as [_ Kz].
  rewrite Forall_forall in Z2. rewrite Forall_forall in Kz. apply Forall_forall. intros z Hz. destruct (Z2 z Hz) as (? & ? & ? & ? & ?).
  destruct (sh_zones _ _ _ _ Hshows) as (e & Ez). rewrite Ez in Hz. apply list_elem_of_fmap in Hz as (zd & -> & Hzd). destruct (Kz zd Hzd) as (? & ? & ?).
  assert (forall z', zn_id (zone_state e (fl_tables f) now z') = zd_id z' /\ zn_name (zone_state e (fl_tables f) now z') = zd_name z' /\
    zn_polygon (zone_state e (fl_tables f) now z') = zd_polygon z') as Hzs by (intros z'; unfold zone_state; by destruct (fold_left _ _ _)).
  destruct (Hzs zd) as (X1 & X2 & X3). constructor; [|rewrite X3 in *; done|done]. unfold short. rewrite X1, X2 in *. done.
Qed.

Lemma shown_tables_wire : floor_fits f -> Forall table_wire (fl_tables f).
Proof.
  intros Hfits. destruct (ft_tables _ Hfits) as [_ B2], (ft_zones _ Hfits) as [_ Z2]. rewrite Forall_forall in B2. rewrite Forall_forall in Z2. apply Forall_forall.
  intros s Hs. destruct (B2 s Hs) as (? & ? & ?). pose proof (shown_zone_listed s Hs) as (z & Ez & Hz)%list_elem_of_fmap.
  destruct (Z2 z Hz) as (? & _). destruct (shown_table s Hs) as (id & t & e & _ & Hin & ->).
  apply shown_table_wire; try done; [by apply (so_table _ _ Hsite id)|by rewrite Ez].
Qed.

(** A floor, as the engine shows it, goes over the wire if it fits. *)
Lemma shown_floor_wire : floor_fits f -> floor_wire f.
Proof.
  intros Hfits. pose proof Hfits as [(T1 & T2 & T3) (O1 & O2) (Z1 & _) (B1 & _) Hseats].
  destruct (so_floor _ _ Hsite fl Hfl) as [(K1 & K2 & K3) [[W1 W2] [W3 W4]] Ko [Kz1 _] _].
  destruct (sh_text _ _ _ _ Hshows) as (E1 & E2 & E3), (sh_size _ _ _ _ Hshows) as (E4 & E5 & E6). constructor.
  - unfold short. rewrite E1, E2, E3 in *. done.
  - rewrite E4, E5. split_and!; try (apply small_finite; lra); lra.
  - rewrite E6 in *. done.
  - split_and!; [done|by rewrite shown_zone_ids|by apply shown_zones_wire].
  - split_and!; [done|by apply shown_table_ids|by apply shown_tables_wire].
  - apply shown_zone_listed.
  - done.
  - by apply sh_totals in Hshows.
Qed.
End shown_floor.

Section contract.
Context {T : Trig}.

(** C16: What an edge publishes, the web tier accepts, and it arrives as it was.
    For an accepted configuration, whatever the engine has seen and whenever
    the snapshot is taken, its public floors pass the check of the web tier and
    are read back unchanged, if they keep to its sizes and no two seats of a
    floor share an id. *)
Theorem published_snapshot_is_accepted site nodesJ reg edgeId e now : buildRegistry site nodesJ = Ok reg ->
  let s := publicSnapshot reg (snd (edge_snapshot reg edgeId e now)) in fits s -> isSnapshot (snapshot_json s) = Ok s.
Proof.
  intros Hreg s Hfits. destruct (registry_site _ _ _ Hreg) as (Hid & Hname & Hnd & Hsite).
  pose proof (snapshot_of reg e now) as Hof. destruct Hfits as [(F1 & F2 & F3) [F4 F5] [F6 F7]]. apply snapshot_written.
  unfold s, publicSnapshot, edge_snapshot in *. destruct (snapshot reg e now) as [e' floors]. cbn [snd os_edgeId os_siteId os_siteName os_generatedAt os_floors] in *.
  constructor; [done|done|]. cbn [os_floors]. split_and!; [done| |].
  - assert (map fl_id floors = map fd_id (rg_floors reg)) as Eids.
    { clear -Hof. induction Hof as [|fl f l l' (e0 & ->) _ IH]; [done|]. cbn [map].
      rewrite IH. f_equal. apply (floor_state_shows reg e0 now fl). }
    eapply sublist_NoDup; [rewrite <- Eids in Hnd; exact Hnd|]. apply (fmap_sublist fl_id), sublist_List_filter.
  - rewrite Forall_forall in F7. apply Forall_forall. intros f Hf. specialize (F7 f Hf).
    apply list_elem_of_In, filter_In in Hf as [Hf%list_elem_of_In _]. apply list_elem_of_lookup in Hf as (i & Hi).
    destruct (Forall2_lookup_r _ _ _ _ _ Hof Hi) as (fl & Hfl & e0 & ->). apply list_elem_of_lookup_2 in Hfl.
    by apply (shown_floor_wire reg now fl _ Hsite Hfl (floor_state_shows reg e0 now fl)).
Qed.
End contract.

(** A floor that only the console shows is in nothing an edge publishes. *)
Theorem console_floors_stay reg edgeId e now fl : NoDup (map fd_id (rg_floors reg)) -> fl ∈ rg_floors reg -> fd_visibility fl = Console ->
  fd_id fl ∉ map fl_id (os_floors (publicSnapshot reg (snd (edge_snapshot reg edgeId e now)))).
Proof.
  intros Hnd Hfl Hv (f & E & Hf)%list_elem_of_fmap. unfold publicSnapshot in Hf. cbn [os_floors] in Hf.
  apply list_elem_of_In, filter_In in Hf as [_ Hf%includes_true]. rewrite <- E in Hf.
  apply list_elem_of_fmap in Hf as (fl' & E' & [Hfl' Hp%bool_decide_eq_true]%list_elem_of_In%filter_In). apply list_elem_of_In in Hfl'.
  assert (fl' = fl) as ->; [|congruence]. apply list_elem_of_lookup in Hfl as (i & Hi), Hfl' as (j & Hj).
  assert (i = j) as ->; [|congruence]. apply (NoDup_lookup _ i j (fd_id fl) Hnd); rewrite list_lookup_fmap; [by rewrite Hi|by rewrite Hj, E'].
Qed.

(** ** Witnesses *)

(** Closes the bounds of [fits] on concrete values. *)
Ltac in_bounds := repeat match goal with
  | |- _ /\ _ => split
  | |- Forall _ (_ :: _) => constructor
  | |- Forall _ [] => constructor
  | |- forall _, _ => intros
  | |- short _ _ => split
  end; try (vm_compute; first [reflexivity | discriminate]).

Lemma demo_fits : fits demo_pushed.
Proof.
  constructor; [in_bounds|in_bounds|]. split; [vm_compute; discriminate|]. constructor; [|constructor]. constructor; cbn [demo_pushed fl_outline fl_zones fl_tables].
  - in_bounds.
  - in_bounds.
  - split; [vm_compute; discriminate|]. constructor; [|constructor]. cbn [zn_polygon]. in_bounds. all: match goal with H : zn_people _ = Some _ |- _ => vm_compute in H; first [discriminate H|injection H as <-] end; vm_compute; discriminate.
  - in_bounds. cbn [tb_seats]. in_bounds.
  - vm_compute. repeat (constructor; [rewrite ?elem_of_cons; set_solver|]). constructor.
Qed.

Lemma published_snapshot_is_accepted_witness :
  os_edgeId demo_pushed = "edge-1" /\ map fl_id (os_floors demo_pushed) = ["f1"] /\ isSnapshot (snapshot_json demo_pushed) = Ok demo_pushed.
Proof.
  split; [reflexivity|]. split; [reflexivity|].
  exact (@published_snapshot_is_accepted flat_trig demo_site_json demo_nodes_json demo_reg "edge-1" demo_seen 1500 demo_reg_ok demo_fits).
Defined.

(** The one thing that is not a size: a configuration is accepted in which two
    tables have a seat of the same id, and then the web tier refuses every
    snapshot of the edge, whatever its other floors show. *)
Definition clash_site_json : json := demo_site [demo_floor_json "f" "public"
  [demo_table_json "A" 100 [("capacity", jn 1); ("seats", JArr [JObj [("id", JStr "B-L1"); ("x", jn 90); ("y", jn 160)]])];
   demo_table_json "A-B" 300 [("capacity", jn 1)]]].

Example shared_seat_ids_are_refused : exists reg,
  @buildRegistry flat_trig clash_site_json (JObj [("nodes", JArr [])]) = Ok reg /\
  isSnapshot (snapshot_json (publicSnapshot reg (snd (edge_snapshot reg "edge-1" (new_engine reg DEFAULT_OCCUPANCY) 0)))) = Err Invalid.
Proof.
  destruct (@buildRegistry flat_trig clash_site_json (JObj [("nodes", JArr [])])) as [reg|e] eqn:E; [|vm_compute in E; discriminate].
  exists reg. split; [reflexivity|]. vm_compute in E. injection E as <-. vm_compute. reflexivity.
Qed.
