(* ===== verification/Flash.v ===== *)
(** Writing firmware to a board from the browser: which images go where
    ([shared/flasher/images.ts], [md5.ts]), the manifest of a release
    ([release.ts]), the release the edge offers
    ([infrastructure/firmware-release/github-release-source.ts]) and the driver
    of the loader ([algo-app/src/console/flash/esp.ts]). Messages are kept
    without the numbers some of them quote. *)

From S2P Require Import Prelude Bytes Json NodeServer.

Definition zlen {A} (l : list A) : Z := Z.of_nat (length l).

(** ** MD5 *)

(** @shared/flasher/md5.ts 10-15 S *)
Definition S_SHIFTS : list Z :=
  [7; 12; 17; 22; 7; 12; 17; 22; 7; 12; 17; 22; 7; 12; 17; 22;
   5; 9; 14; 20; 5; 9; 14; 20; 5; 9; 14; 20; 5; 9; 14; 20;
   4; 11; 16; 23; 4; 11; 16; 23; 4; 11; 16; 23; 4; 11; 16; 23;
   6; 10; 15; 21; 6; 10; 15; 21; 6; 10; 15; 21; 6; 10; 15; 21].

(** The values of [Math.floor(Math.abs(Math.sin(i + 1)) * 2 ** 32) >>> 0].
    @shared/flasher/md5.ts 16-16 K *)
Definition K_SINES : list Z :=
  [0xd76aa478; 0xe8c7b756; 0x242070db; 0xc1bdceee; 0xf57c0faf; 0x4787c62a; 0xa8304613; 0xfd469501;
   0x698098d8; 0x8b44f7af; 0xffff5bb1; 0x895cd7be; 0x6b901122; 0xfd987193; 0xa679438e; 0x49b40821;
   0xf61e2562; 0xc040b340; 0x265e5a51; 0xe9b6c7aa; 0xd62f105d; 0x02441453; 0xd8a1e681; 0xe7d3fbc8;
   0x21e1cde6; 0xc33707d6; 0xf4d50d87; 0x455a14ed; 0xa9e3e905; 0xfcefa3f8; 0x676f02d9; 0x8d2a4c8a;
   0xfffa3942; 0x8771f681; 0x6d9d6122; 0xfde5380c; 0xa4beea44; 0x4bdecfa9; 0xf6bb4b60; 0xbebfbc70;
   0x289b7ec6; 0xeaa127fa; 0xd4ef3085; 0x04881d05; 0xd9d4d039; 0xe6db99e5; 0x1fa27cf8; 0xc4ac5665;
   0xf4292244; 0x432aff97; 0xab9423a7; 0xfc93a039; 0x655b59c3; 0x8f0ccc92; 0xffeff47d; 0x85845dd1;
   0x6fa87e4f; 0xfe2ce6e0; 0xa3014314; 0x4e0811a1; 0xf7537e82; 0xbd3af235; 0x2ad7d2bb; 0xeb86d391].

(** @shared/flasher/md5.ts 19-26 md5 *)
Definition md5_padded (data : bytes) : bytes :=
  let length_ := zlen data in
  let size := i32 (Z.shiftl (Z.shiftr (u32 (length_ + 8)) 6) 6) + 64 in
  let padded := put_byte (length data) 0x80 (put 0 data (alloc (Z.to_nat size))) in
  let padded := put (length padded - 8) (le 4 (u32 (Z.shiftl length_ 3))) padded in
  put (length padded - 4) (le 4 (length_ / 2 ^ 29)) padded.

(** @shared/flasher/md5.ts 33-43 md5 *)
Definition md5_round (m : list Z) (st : Z * Z * Z * Z) (i : nat) : Z * Z * Z * Z :=
  let '(a, b, c, d) := st in
  let '(f, g) :=
    if Nat.ltb i 16 then (Z.lor (Z.land b c) (Z.land (Z.lnot b) d), i)
    else if Nat.ltb i 32 then (Z.lor (Z.land d b) (Z.land (Z.lnot d) c), Nat.modulo (5 * i + 1) 16)
    else if Nat.ltb i 48 then (Z.lxor (Z.lxor b c) d, Nat.modulo (3 * i + 5) 16)
    else (Z.lxor c (Z.lor b (Z.lnot d)), Nat.modulo (7 * i) 16) in
  let sum := u32 (a + f + default 0 (K_SINES !! i) + default 0 (m !! g)) in
  let shift := default 0 (S_SHIFTS !! i) in
  (d, u32 (b + Z.lor (i32 (Z.shiftl sum shift)) (Z.shiftr sum (32 - shift))), b, c).

(** @shared/flasher/md5.ts 30-45 md5 *)
Definition md5_block (padded : bytes) (st : Z * Z * Z * Z) (block : nat) : Z * Z * Z * Z :=
  let m := map (fun i => unle (sub (64 * block + 4 * i) 4 padded)) (List.seq 0 16) in
  let '(a0, b0, c0, d0) := st in
  let '(a, b, c, d) := fold_left (md5_round m) (List.seq 0 64) st in
  (u32 (a0 + a), u32 (b0 + b), u32 (c0 + c), u32 (d0 + d)).

(** @shared/flasher/md5.ts 18-50 md5 *)
Definition md5 (data : bytes) : bytes :=
  let padded := md5_padded data in
  let '(a0, b0, c0, d0) :=
    fold_left (md5_block padded) (List.seq 0 (Nat.div (length padded) 64)) (0x67452301, 0xefcdab89, 0x98badcfe, 0x10325476) in
  le 4 a0 ++ le 4 b0 ++ le 4 c0 ++ le 4 d0.

Definition md5Hex (data : bytes) : string := to_hex (md5 data).

Example md5_of_nothing : md5Hex [] = "d41d8cd98f00b204e9800998ecf8427e".
Proof. vm_compute. reflexivity. Qed.
Example md5_of_letters :
  md5Hex (bytes_of_string "abcdefghijklmnopqrstuvwxyzabcdefghijklmnopqrstuvwxyzabcdefghijklmnopqrstuvwxyz") = "15061fc3840896c5299a5b8cc1cf5b5f".
Proof. vm_compute. reflexivity. Qed.

(** ** The plan of a flash *)

(** @shared/flasher/images.ts 22-22 SECTOR *)
Definition SECTOR : Z := 0x1000.
(** @shared/flasher/images.ts 24-24 FLASH_BYTES *)
Definition FLASH_BYTES : Z := 8 * 1024 * 1024.
(** @shared/flasher/images.ts 26-26 ESP32_S3_CHIP_ID *)
Definition ESP32_S3_CHIP_ID : Z := 9.
(** @shared/flasher/images.ts 27-27 BOOTLOADER_OFFSET *)
Definition BOOTLOADER_OFFSET : Z := 0.
(** @shared/flasher/images.ts 28-28 PARTITION_TABLE_OFFSET *)
Definition PARTITION_TABLE_OFFSET : Z := 0x8000.

(** @shared/flasher/images.ts 38-44 Partition *)
Record Partition := { pt_label : string; pt_type : Z; pt_subtype : Z; pt_offset : Z; pt_size : Z }.

(** @shared/flasher/images.ts 46-46 SegmentName *)
Inductive SegmentName := Bootloader | PartitionTable | BootSelector | Application.

(** @shared/flasher/images.ts 48-52 FlashSegment *)
Record FlashSegment := { sg_name : SegmentName; sg_address : Z; sg_data : bytes }.

(** @shared/flasher/images.ts 54-61 FlashPlan *)
Record FlashPlan := { fp_version : string; fp_segments : list FlashSegment; fp_preserved : list Partition; fp_totalBytes : Z }.

(** @shared/flasher/images.ts 63-67 FirmwareFiles *)
Record FirmwareFiles := { ff_bootloader : bytes; ff_partitions : bytes; ff_application : bytes }.

(** @shared/flasher/images.ts 69-69 end *)
Definition pt_end (p : Partition) : Z := pt_offset p + pt_size p.
(** @shared/flasher/images.ts 70-70 sectors *)
Definition sectors (n : Z) : Z := (n + SECTOR - 1) / SECTOR * SECTOR.

Fixpoint until_zero (l : bytes) : bytes :=
  match l with [] => [] | b :: l' => if b =? 0 then [] else b :: until_zero l' end.

(** @shared/flasher/images.ts 87-93 parsePartitionTable *)
Definition partition_entry (offset : nat) (b : bytes) : Partition :=
  {| pt_label := string_of_bytes (until_zero (sub (offset + 12) 16 b)); pt_type := byte_at (offset + 2) b; pt_subtype := byte_at (offset + 3) b;
     pt_offset := unle (sub (offset + 4) 4 b); pt_size := unle (sub (offset + 8) 4 b) |}.

(** The loop over the entries, [n] of them left; the flag is [checked].
    @shared/flasher/images.ts 84-104 parsePartitionTable *)
Fixpoint partition_entries (n : nat) (offset : nat) (b : bytes) (out : list Partition) : result string (list Partition * bool) :=
  match n with
  | O => Ok (out, false)
  | S n' =>
      let magic := unle (sub offset 2 b) in
      if magic =? 0x50aa then partition_entries n' (offset + 32) b (out ++ [partition_entry offset b])
      else if magic =? 0xebeb then
        throw_if negb (bool_decide (to_hex (md5 (take offset b)) = to_hex (sub (offset + 16) 16 b)))
          with "the partition table is damaged (its checksum does not match)" in
        Ok (out, true)
      else Ok (out, false)
  end.

(** @shared/flasher/images.ts 77-108 parsePartitionTable *)
Definition parsePartitionTable (b : bytes) : result string (list Partition) :=
  throw_if (zlen b =? 0) || (SECTOR <? zlen b) || negb (zlen b mod 32 =? 0)
    with "the partition table is not a partitions.bin (wrong size)" in
  let! (out, checked) := partition_entries (Nat.div (length b) 32) 0 b [] in
  throw_if bool_decide (out = []) with "the partition table is not a partitions.bin (no entries)" in
  throw_if negb checked with "the partition table has no checksum; rebuild the firmware" in
  Ok out.

(** @shared/flasher/images.ts 111-114 imageChipId *)
Definition imageChipId (image : bytes) : option Z :=
  if (zlen image <? 24) || negb (byte_at 0 image =? 0xe9) then None
  else Some (Z.lor (byte_at 12 image) (Z.shiftl (byte_at 13 image) 8)).

(** [/[0-9A-Za-z.-]/] *)
Definition is_version_byte (b : Z) : bool := between 48 57 b || between 65 90 b || between 97 122 b || (b =? 46) || (b =? 45).
Fixpoint version_run (l : bytes) : bytes :=
  match l with [] => [] | b :: l' => if is_version_byte b then b :: version_run l' else [] end.

Definition marker : bytes := [0x74; 0x6d; 0x73; 0x65; 0x6e; 0x73; 0x65; 0x2d].

(** The search from one position on.
    @shared/flasher/images.ts 120-131 tmsenseVersion *)
Fixpoint version_from (l : bytes) : option string :=
  match l with
  | [] => None
  | _ :: rest =>
      if Nat.ltb 8 (length l) then
        if bool_decide (take 8 l = marker) then
          let text := version_run (take 12 l) in
          if between 48 57 (byte_at 8 text) then Some (string_of_bytes text) else version_from rest
        else version_from rest
      else None
  end.

(** @shared/flasher/images.ts 117-132 tmsenseVersion *)
Definition tmsenseVersion (application : bytes) : option string := version_from application.

(** @shared/flasher/images.ts 145-152 bootSelector *)
Definition bootSelector : bytes :=
  let out := replicate (Z.to_nat 0x2000) 0xff in
  let out := put 0 [1; 0; 0; 0] out in
  let out := put 28 [0x9a; 0x98; 0x43; 0x47] out in
  put (Z.to_nat 0x1000) [0; 0; 0; 0] out.

(** @shared/flasher/images.ts 154-158 requireImage *)
Definition requireImage (image : bytes) (what : string) : result string unit :=
  match imageChipId image with
  | None => Err ("the " +:+ what +:+ " is not an ESP32 image")
  | Some chip => throw_if negb (chip =? ESP32_S3_CHIP_ID) with ("the " +:+ what +:+ " was built for a different chip") in Ok tt
  end.

(** What a write erases: its sectors. *)
Definition sg_end (s : FlashSegment) : Z := sg_address s + sectors (zlen (sg_data s)).

(** @shared/flasher/images.ts 224-239 assertPreserves *)
Definition assertPreserves (plan : FlashPlan) : result string unit :=
  let segments := imap pair (fp_segments plan) in
  let! _ := rmap (fun x : nat * FlashSegment =>
    let '(i, s) := x in
    throw_if negb (sg_address s mod SECTOR =? 0) with "would not start on a sector boundary" in
    throw_if existsb (fun keep => (sg_address s <? pt_end keep) && (pt_offset keep <? sg_end s)) (fp_preserved plan)
      with "refusing to flash: would erase a partition that holds the node's settings" in
    throw_if existsb (fun y : nat * FlashSegment => negb (Nat.eqb y.1 i) && (sg_address s <? sg_end y.2) && (sg_address y.2 <? sg_end s)) segments
      with "refusing to flash: two images overlap" in
    Ok tt) segments in
  Ok tt.

Definition is_nvs (p : Partition) : bool := (pt_type p =? 1) && ((pt_subtype p =? 2) || (pt_subtype p =? 4)).

(** The size of the region each image may fill.
    @shared/flasher/images.ts 187-192 planFlash *)
Definition allowed (selector slot : Partition) (name : SegmentName) : Z :=
  match name with
  | Bootloader => PARTITION_TABLE_OFFSET - BOOTLOADER_OFFSET
  | PartitionTable => SECTOR
  | BootSelector => pt_size selector
  | Application => pt_size slot
  end.

(** @shared/flasher/images.ts 200-206 planFlash *)
Definition fit_regions (selector slot : Partition) (segments : list FlashSegment) : result string unit :=
  let! _ := rmap (fun s =>
    throw_if zlen (sg_data s) =? 0 with "an image is empty" in
    throw_if allowed selector slot (sg_name s) <? zlen (sg_data s) with "an image does not fit its region" in
    Ok tt) segments in
  Ok tt.

#[local] Arguments fit_regions : simpl never.
#[local] Arguments assertPreserves : simpl never.
#[local] Arguments parsePartitionTable : simpl never.
#[local] Arguments requireImage : simpl never.
#[local] Opaque bootSelector.

(** @shared/flasher/images.ts 164-214 planFlash *)
Definition planFlash (files : FirmwareFiles) : result string FlashPlan :=
  let! _ := requireImage (ff_bootloader files) "bootloader" in
  let! _ := requireImage (ff_application files) "application image" in
  let megabytes := Z.shiftl 1 (Z.shiftr (byte_at 3 (ff_bootloader files)) 4) in
  throw_if negb (megabytes * 1024 * 1024 =? FLASH_BYTES) with "the bootloader was built for another size of flash" in
  let! version := of_option "the application image does not identify itself as TMsense firmware" (tmsenseVersion (ff_application files)) in
  let! table := parsePartitionTable (ff_partitions files) in
  let selector := List.find (fun p => (pt_type p =? 1) && (pt_subtype p =? 0)) table in
  let slot := List.find (fun p => (pt_type p =? 0) && (pt_subtype p =? 0x10)) table in
  let preserved := List.filter is_nvs table in
  match selector, slot with
  | Some selector, Some slot =>
      throw_if bool_decide (preserved = []) with "the partition table has no NVS partition; a node could not keep its settings" in
      throw_if negb (zlen bootSelector =? pt_size selector) with "the partition table has an unexpected boot selector size" in
      let segments :=
        [{| sg_name := Bootloader; sg_address := BOOTLOADER_OFFSET; sg_data := ff_bootloader files |};
         {| sg_name := PartitionTable; sg_address := PARTITION_TABLE_OFFSET; sg_data := ff_partitions files |};
         {| sg_name := BootSelector; sg_address := pt_offset selector; sg_data := bootSelector |};
         {| sg_name := Application; sg_address := pt_offset slot; sg_data := ff_application files |}] in
      let plan := {| fp_version := version; fp_segments := segments; fp_preserved := preserved;
                     fp_totalBytes := fold_left (fun sum s => sum + zlen (sg_data s)) segments 0 |} in
      let! _ := fit_regions selector slot segments in
      throw_if existsb (fun p => (pt_offset p <? PARTITION_TABLE_OFFSET + SECTOR) || (FLASH_BYTES <? pt_end p)) table
        with "a partition lies outside the board's 8 MB of flash" in
      let! _ := assertPreserves plan in
      Ok plan
  | _, _ => Err "the partition table has no boot selector or no first application slot; TMsense needs both"
  end.

(** ** Writing the plan to a board *)

(** What the loader finds on the serial port: the error it connects or writes
    with, if any, the name of the chip, the size of its flash and its MAC. *)
Record Board := {
  bd_main : result string string;bd_size : result string (option string); bd_mac : result string string;
  bd_reports : list (nat * Z * Z); bd_write : result string unit }.

Inductive FlashEvent :=
| Connect
| WriteFlash (fileArray : list (bytes * Z)) (eraseAll : bool)
| Progressed (fraction : Q)
| Disconnect.

(** @algo-app/src/console/flash/esp.ts 25-25 SIZES *)
Definition SIZES (size : string) : option Q :=
  om_get size [("256KB", 1 # 4); ("512KB", 1 # 2); ("1MB", 1); ("2MB", 2); ("4MB", 4); ("8MB", 8); ("16MB", 16); ("32MB", 32);
               ("64MB", 64); ("128MB", 128); ("256MB", 256)]%Q.

(** The part of the whole that is written: [written] of [total] bytes of the
    image [index] as the loader sends it.
    @algo-app/src/console/flash/esp.ts 73-76 writeFirmware *)
Definition reported (plan : FlashPlan) (r : nat * Z * Z) : Q :=
  let '(index, written, total) := r in
  let sizes := map (fun s => zlen (sg_data s)) (fp_segments plan) in
  let before := fold_left Z.add (take index sizes) 0 in
  let of_this := if 0 <? total then (inject_Z written / inject_Z total)%Q else 1%Q in
  Qmin' 1 ((inject_Z before + inject_Z (default 0 (sizes !! index)) * of_this) / inject_Z (fp_totalBytes plan)).

Definition contains (sub s : string) : bool :=
  existsb (fun i => String.prefix sub (String.string_of_list_ascii (drop i (chars s)))) (List.seq 0 (S (String.length s))).

(** [/Failed to connect|No serial data|Wrong boot mode|TX path/i] *)
Definition no_bootloader (message : string) : bool :=
  existsb (fun t => contains t (js_lower message)) ["failed to connect"; "no serial data"; "wrong boot mode"; "tx path"].

(** What the caller is told of an error of the loader.
    @algo-app/src/console/flash/esp.ts 82-86 writeFirmware *)
Definition loader_error (message : string) : string :=
  if no_bootloader message then "could not reach the board's bootloader" else "writing firmware failed: " +:+ message.

(** The job without its [catch] and [finally]: an error is [inl] a refusal of
    ours or [inr] an error of the loader.
    @algo-app/src/console/flash/esp.ts 52-80 writeFirmware *)
Definition write_board (board : Board) (plan : FlashPlan) : list FlashEvent * result (string + string) string :=
  match bd_main board with
  | Err e => ([Connect], Err (inr e))
  | Ok chip =>
      if negb (bool_decide (chip = "ESP32-S3")) then ([Connect], Err (inl ("this board is an " +:+ chip +:+ ", not the ESP32-S3 a TMsense node uses")))
      else match bd_size board with
      | Err e => ([Connect], Err (inr e))
      | Ok size =>
          let megabytes := SIZES (default "" size) in
          if match megabytes with Some mb => Qltb (mb * 1024 * 1024) (inject_Z FLASH_BYTES) | None => false end
          then ([Connect], Err (inl "this board has too little flash; TMsense needs 8 MB"))
          else match bd_mac board with
          | Err e => ([Connect], Err (inr e))
          | Ok mac =>
              let events := [Connect; WriteFlash (map (fun s => (sg_data s, sg_address s)) (fp_segments plan)) false]
                              ++ map (fun r => Progressed (reported plan r)) (bd_reports board) in
              match bd_write board with
              | Err e => (events, Err (inr e))
              | Ok _ => (events ++ [Progressed 1], Ok (js_lower mac))
              end
          end
      end
  end.

(** @algo-app/src/console/flash/esp.ts 28-92 writeFirmware *)
Definition writeFirmware (board : Board) (plan : FlashPlan) : list FlashEvent * result string string :=
  match assertPreserves plan with
  | Err e => ([], Err e)
  | Ok _ =>
      let '(events, r) := write_board board plan in
      (events ++ [Disconnect],
       match r with Ok mac => Ok mac | Err (inl refusal) => Err refusal | Err (inr message) => Err (loader_error message) end)
  end.

(** ** What a plan leaves alone *)

Lemma elem_of_imap_pair {A} (l : list A) i x : (i, x) ∈ imap pair l <-> l !! i = Some x.
Proof.
  rewrite list_elem_of_lookup. split.
  - intros (k & Hk). rewrite list_lookup_imap in Hk. destruct (l !! k) eqn:E; [|done]. cbn in Hk. injection Hk as <- <-. done.
  - intros H. exists i. rewrite list_lookup_imap, H. done.
Qed.

Lemma rmap_all {E A B} (f : A -> result E B) l ys x : rmap f l = Ok ys -> x ∈ l -> exists y, f x = Ok y.
Proof.
  intros H%rmap_ok_iff (i & Hi)%list_elem_of_lookup. destruct (Forall2_lookup_l _ _ _ _ _ H Hi) as (y & _ & Hy). eauto.
Qed.

Definition erases (s : FlashSegment) (a : Z) : Prop := sg_address s <= a < sg_end s.

Lemma assertPreserves_ok plan u i s : assertPreserves plan = Ok u -> fp_segments plan !! i = Some s ->
  sg_address s mod SECTOR = 0 /\
  (forall p a, p ∈ fp_preserved plan -> erases s a -> ~ (pt_offset p <= a < pt_end p)) /\
  (forall j t a, j <> i -> fp_segments plan !! j = Some t -> erases s a -> ~ erases t a).
Proof.
  unfold assertPreserves, erases. intros H Hi. inv_ok H. destruct (rmap_all _ _ _ (i, s) Hm) as (y & Hy); [by apply elem_of_imap_pair|].
  cbn beta iota in Hy. inv_ok Hy. apply negb_false, Z.eqb_eq in Hc. split_and!; [done| |].
  - intros p b Hp Ha Hin. apply (existsb_none _ _ p) in Hc0; [|done]. cbn beta in Hc0. lia.
  - intros j t b Hne Hj Ha Hin. apply (existsb_none _ _ (j, t)) in Hc1; [|by apply elem_of_imap_pair]. cbn [fst snd] in Hc1.
    apply Nat.eqb_neq in Hne. rewrite Hne in Hc1. cbn [negb andb] in Hc1. lia.
Qed.

Lemma fit_regions_ok selector slot segments u s : fit_regions selector slot segments = Ok u -> s ∈ segments ->
  0 < zlen (sg_data s) <= allowed selector slot (sg_name s).
Proof.
  unfold fit_regions. intros H Hs. inv_ok H. destruct (rmap_all _ _ _ s Hm Hs) as (y & Hy). cbn beta in Hy. inv_ok Hy.
  unfold zlen in *. lia.
Qed.

Lemma sectors_fit n m : 0 <= n <= m * SECTOR -> sectors n <= m * SECTOR.
Proof.
  intros H. unfold sectors. apply Z.mul_le_mono_nonneg_r; [done|]. apply Z.lt_succ_r, Z.div_lt_upper_bound; [done|]. unfold SECTOR in *. lia.
Qed.

Lemma aligned_end a n : 0 <= n -> a mod SECTOR = 0 -> a + n <= FLASH_BYTES -> a + sectors n <= FLASH_BYTES.
Proof.
  intros Hn Ha Hle. apply Z.mod_divide in Ha as [k ->]; [|done]. assert (FLASH_BYTES = 2048 * SECTOR) as E by reflexivity.
  pose proof (sectors_fit n (2048 - k)) as H. lia.
Qed.

(** What the loader is told to write is the plan, to the right chip, and
    without erasing anything else. *)
Lemma write_board_writes board plan array all : WriteFlash array all ∈ fst (write_board board plan) ->
  all = false /\ array = map (fun s => (sg_data s, sg_address s)) (fp_segments plan) /\ bd_main board = Ok "ESP32-S3".
Proof.
  assert (forall e, WriteFlash array all ∈ fst ([Connect], e : result (string + string) string) -> False) as Hno.
  { intros e H%list_elem_of_singleton. done. }
  unfold write_board. destruct (bd_main board) as [chip|]; [|intros H; by apply Hno in H].
  case_bool_decide as Ec; [subst chip|intros H; by apply Hno in H]. cbn [negb].
  destruct (bd_size board) as [size|]; [|intros H; by apply Hno in H].
  destruct (match SIZES _ with Some _ => _ | None => _ end); [intros H; by apply Hno in H|].
  destruct (bd_mac board) as [mac|]; [|intros H; by apply Hno in H].
  assert (forall tail, (forall x, x ∈ tail -> exists f, x = Progressed f) ->
    WriteFlash array all ∈ [Connect; WriteFlash (map (fun s => (sg_data s, sg_address s)) (fp_segments plan)) false] ++ tail ->
    all = false /\ array = map (fun s => (sg_data s, sg_address s)) (fp_segments plan)) as Hyes.
  { intros tail Ht [H|H]%elem_of_app; [|by destruct (Ht _ H)].
    rewrite !elem_of_cons in H. destruct H as [H|[H|H%elem_of_nil]]; [done|by injection H|done]. }
  assert (forall x, x ∈ map (fun r => Progressed (reported plan r)) (bd_reports board) -> exists f, x = Progressed f) as Hp.
  { intros x (r & -> & _)%list_elem_of_fmap. eauto. }
  destruct (bd_write board); cbn [fst]; intros H.
  - rewrite <- app_assoc in H. apply Hyes in H as [-> ->]; [done|]. intros x [Hx|Hx%list_elem_of_singleton]%elem_of_app; eauto.
  - apply Hyes in H as [-> ->]; done.
Qed.

Lemma writeFirmware_writes board plan array all : WriteFlash array all ∈ fst (writeFirmware board plan) ->
  all = false /\ array = map (fun s => (sg_data s, sg_address s)) (fp_segments plan) /\ bd_main board = Ok "ESP32-S3".
Proof.
  unfold writeFirmware. destruct (assertPreserves plan); [|intros []%elem_of_nil].
  pose proof (write_board_writes board plan array all) as H. destruct (write_board board plan) as [events r]. cbn [fst] in *.
  intros [He|He%list_elem_of_singleton]%elem_of_app; [by apply H|done].
Qed.

(** C36: A flash never erases NVS. If the plan of a build is accepted, there is
    an NVS partition in the very table that will be written, and none of the
    four writes erases a byte of any NVS partition, two writes never erase the
    same byte, and all stay inside the board's flash; each image is what the
    build holds and starts where its region starts. Whatever board is on the
    port, what is written to it is these four images and nothing is erased
    besides, and only if its chip is the one they were built for. *)
Theorem a_flash_never_erases_nvs files plan : planFlash files = Ok plan -> exists table selector slot,
  parsePartitionTable (ff_partitions files) = Ok table /\ selector ∈ table /\ slot ∈ table /\ (exists p, p ∈ table /\ is_nvs p = true) /\
  map (fun s => (sg_name s, sg_address s, sg_data s)) (fp_segments plan) =
    [(Bootloader, 0, ff_bootloader files); (PartitionTable, 0x8000, ff_partitions files);
     (BootSelector, pt_offset selector, bootSelector); (Application, pt_offset slot, ff_application files)] /\
  (forall s p a, s ∈ fp_segments plan -> p ∈ table -> is_nvs p = true -> erases s a -> ~ (pt_offset p <= a < pt_end p)) /\
  (forall i j s t a, i <> j -> fp_segments plan !! i = Some s -> fp_segments plan !! j = Some t -> erases s a -> ~ erases t a) /\
  (forall s a, s ∈ fp_segments plan -> erases s a -> 0 <= a < FLASH_BYTES) /\
  (forall board array all, WriteFlash array all ∈ fst (writeFirmware board plan) ->
     all = false /\ array = map (fun s => (sg_data s, sg_address s)) (fp_segments plan) /\ bd_main board = Ok "ESP32-S3").
Proof.
  unfold planFlash. intros H. inv_ok H. rename a2 into table.
  destruct (List.find _ table) as [selector|] eqn:Esel; [|done]. destruct (List.find _ table) as [slot|] eqn:Eslot in H; [|done].
  apply find_some in Esel as [Hsel%list_elem_of_In _], Eslot as [Hslot%list_elem_of_In _]. inv_ok H. injection H as <-.
  cbn [fp_segments]. exists table, selector, slot.
  match goal with Hp : assertPreserves ?pl = Ok _ |- _ => set (plan := pl) in *; rename Hp into Hplan end.
  assert (forall p, p ∈ table -> 0x9000 <= pt_offset p /\ pt_end p <= FLASH_BYTES) as Hbounds.
  { intros p Hp. match goal with He : existsb _ table = false |- _ => apply (existsb_none _ _ p) in He; [|done] end. unfold PARTITION_TABLE_OFFSET, SECTOR in *. lia. }
  split_and!; [done|done|done| |reflexivity| | | |intros board array all; apply writeFirmware_writes].
  - apply bool_decide_eq_false in Hc0. destruct (List.filter is_nvs table) as [|p l] eqn:Ef; [done|].
    exists p. rewrite list_elem_of_In. apply filter_In. rewrite Ef. by left.
  - intros s p x (i & Hi)%list_elem_of_lookup Hp Hn. destruct (assertPreserves_ok plan _ i s Hplan Hi) as (_ & Hk & _). apply Hk.
    cbn [fp_preserved plan]. apply list_elem_of_In, filter_In. split; [by apply list_elem_of_In|done].
  - intros i j s t x Hne Hi Hj. destruct (assertPreserves_ok plan _ i s Hplan Hi) as (_ & _ & Ho). by apply (Ho j t x).
  - intros s x Hs Ha. pose proof Hs as (i & Hi)%list_elem_of_lookup. destruct (assertPreserves_ok plan _ i s Hplan Hi) as (Hal & _ & _).
    match goal with Hr : fit_regions _ _ _ = Ok _ |- _ => pose proof (fit_regions_ok _ _ _ _ s Hr Hs) as Hfit end.
    destruct (Hbounds _ Hsel), (Hbounds _ Hslot).
    pose proof (aligned_end (sg_address s) (zlen (sg_data s)) ltac:(lia) Hal) as Hend. unfold erases, sg_end in Ha.
    assert (0 <= sg_address s /\ sg_address s + zlen (sg_data s) <= FLASH_BYTES) as [? ?]; [|lia].
    clear - Hs Hfit H H0 H1 H2. rewrite !elem_of_cons in Hs. unfold pt_end in *.
    destruct Hs as [->|[->|[->|[->|Hs%elem_of_nil]]]]; [..|done]; cbn [allowed sg_name sg_address sg_data] in *;
      unfold BOOTLOADER_OFFSET, PARTITION_TABLE_OFFSET, SECTOR, FLASH_BYTES in *; lia.
Qed.

(** A small build: its table has NVS, the boot selector and two slots. *)
Definition entry (type subtype offset size : Z) (label : string) : bytes :=
  [0xaa; 0x50; type; subtype] ++ le 4 offset ++ le 4 size ++ put 0 (bytes_of_string label) (alloc 16) ++ le 4 0.
Definition with_checksum (entries : bytes) : bytes := entries ++ [0xeb; 0xeb] ++ replicate 14 0xff ++ md5 entries.
Definition image (text : string) : bytes := [0xe9; 0; 0; 0x3f; 0; 0; 0; 0; 0; 0; 0; 0; 9; 0] ++ bytes_of_string text ++ alloc 20.
Definition build (table : bytes) : FirmwareFiles :=
  {| ff_bootloader := image "boot"; ff_partitions := table; ff_application := image "tmsense-1.6" |}.
Definition usual_table : bytes :=
  with_checksum (entry 1 2 0x9000 0x5000 "nvs" ++ entry 1 0 0xe000 0x2000 "otadata" ++ entry 0 0x10 0x10000 0x330000 "app0").

Example usual_build_is_planned :
  match planFlash (build usual_table) with
  | Ok plan => fp_version plan = "tmsense-1.6" /\ map sg_address (fp_segments plan) = [0; 0x8000; 0xe000; 0x10000]
  | Err _ => False
  end.
Proof. vm_compute. split; reflexivity. Qed.

Lemma a_flash_never_erases_nvs_witness : exists plan, planFlash (build usual_table) = Ok plan /\
  forall a, 0x9000 <= a < 0xe000 -> Forall (fun s => ~ erases s a) (fp_segments plan).
Proof.
  assert (exists plan, planFlash (build usual_table) = Ok plan) as [plan Hp].
  { destruct (planFlash (build usual_table)) as [plan|e] eqn:E; [by exists plan|exfalso]. revert E. vm_compute. discriminate. }
  exists plan. split; [exact Hp|]. intros a Ha.
  destruct (a_flash_never_erases_nvs (build usual_table) plan Hp) as (table & _ & _ & Ht & _ & _ & _ & _ & Hk & _).
  apply Forall_forall. intros s Hs He.
  apply (Hk s {| pt_label := "nvs"; pt_type := 1; pt_subtype := 2; pt_offset := 0x9000; pt_size := 0x5000 |} a Hs); [|reflexivity|exact He|exact Ha].
  revert Ht. cut (match parsePartitionTable (ff_partitions (build usual_table)) with
    | Ok (p :: _) => p = {| pt_label := "nvs"; pt_type := 1; pt_subtype := 2; pt_offset := 0x9000; pt_size := 0x5000 |} | _ => False end);
    [|vm_compute; reflexivity].
  intros H Ht. rewrite Ht in H. destruct table as [|p l]; [destruct H|]. subst p. left.
Defined.

(** A build whose application slot is half a sector short of a boundary: its
    last write erases the start of the partition that follows the slot. *)
Example a_short_slot_is_accepted :
  let table := with_checksum (entry 1 2 0x9000 0x5000 "nvs" ++ entry 1 0 0xe000 0x2000 "otadata" ++ entry 0 0x10 0x10000 0x800 "app0" ++
                              entry 1 0x82 0x10800 0x1000 "spiffs") in
  match planFlash (build table) with
  | Ok plan => exists s, s ∈ fp_segments plan /\ erases s 0x10800
  | Err _ => False
  end.
Proof.
  cbv zeta.
  match goal with |- match ?p with _ => _ end => cut (match p with Ok plan => existsb (fun s => between (sg_address s) (sg_end s - 1) 0x10800) (fp_segments plan) = true | Err _ => False end); [|vm_compute; reflexivity]; destruct p as [plan|]; [|done] end.
  intros (s & Hs%list_elem_of_In & Hb)%existsb_exists. exists s. split; [exact Hs|]. unfold erases, between in *. lia.
Qed.

(** ** The manifest of a release *)

(** @shared/flasher/release.ts 17-17 TMSENSE_REPOSITORY *)
Definition TMSENSE_REPOSITORY : string := "Mysteringz/TMsense".
(** @shared/flasher/release.ts 18-18 RELEASE_MANIFEST *)
Definition RELEASE_MANIFEST : string := "tmflash-manifest.json".
(** @shared/flasher/release.ts 19-19 RELEASE_BOARD *)
Definition RELEASE_BOARD : string := "heltec_wifi_lora_32_V3".
(** @shared/flasher/release.ts 21-21 RELEASE_FILES *)
Definition RELEASE_FILES : list string := ["bootloader.bin"; "partitions.bin"; "firmware.bin"].
(** @shared/flasher/release.ts 26-28 RELEASE_FILE_LIMITS *)
Definition RELEASE_FILE_LIMITS (name : string) : Z :=
  if bool_decide (name = "bootloader.bin") then 0x8000 else if bool_decide (name = "partitions.bin") then 0xc00 else 0x330000.
(** @shared/flasher/release.ts 29-29 RELEASE_MANIFEST_LIMIT *)
Definition RELEASE_MANIFEST_LIMIT : Z := 16 * 1024.

(** @shared/flasher/release.ts 31-31 ReleaseFile *)
Record ReleaseFile := { rf_name : string; rf_size : Z; rf_sha256 : string }.
(** @shared/flasher/release.ts 33-41 ReleaseManifest *)
Record ReleaseManifest := { rm_version : string; rm_tag : string; rm_commit : string; rm_files : list ReleaseFile }.
(** @shared/flasher/release.ts 43-47 PublishedRelease *)
Record PublishedRelease := { pr_manifest : ReleaseManifest; pr_repository : string; pr_checkedAt : Z }.

(** @shared/flasher/release.ts 54-56 ReleaseUnavailable *)
Inductive Reason := RNone | Unreachable | RInvalid.
#[export] Instance reason_eq_dec : EqDecision Reason.
Proof. solve_decision. Defined.
Record ReleaseUnavailable := { ru_reason : Reason; ru_message : string }.

(** @shared/flasher/release.ts 59-59 invalid *)
Definition invalid {A} (what : string) : result ReleaseUnavailable A := Err {| ru_reason := RInvalid; ru_message := "the release manifest " +:+ what |}.

Notation "'unless' c 'give' e 'in' k" := (if c then k else e)
  (at level 10, c at level 100, e at level 100, k at level 200) : result_scope.

Definition digits (l : list Ascii.ascii) : bool := Nat.ltb 0 (length l) && forallb is_digit l.
(** [/^tmsense-\d+\.\d+(\.\d+)?$/] *)
Definition is_version (s : string) : bool :=
  starts_with "tmsense-" s &&
  let parts := split_chars (Ascii.ascii_of_N 46) (drop 8 (chars s)) in
  (Nat.eqb (length parts) 2 || Nat.eqb (length parts) 3) && forallb digits parts.

(** [/^[0-9a-f]{40}$/] *)
Definition is_commit (s : string) : bool := Nat.eqb (String.length s) 40 && forallb is_hex_lower (chars s).

Definition is_text (v : option json) (s : string) : bool := match v with Some (JStr t) => bool_decide (t = s) | _ => false end.

(** @shared/flasher/release.ts 77-84 parseManifest *)
Definition parse_release_file (entry : json) : result ReleaseUnavailable ReleaseFile :=
  let entry := match entry with JObj o => Some o | JArr _ => Some [] | _ => None end in
  match entry with
  | None => invalid "lists a file that is not an object"
  | Some o =>
      match field "name" o with
      | Some (JStr name) =>
          unless includes name RELEASE_FILES give invalid "lists a file this console does not flash" in
          match field "size" o with
          | Some v =>
              match as_integer v with
              | Some size =>
                  unless (0 <? size) && (size <=? RELEASE_FILE_LIMITS name) give invalid "gives a file a size this board has no room for" in
                  match field "sha256" o with
                  | Some (JStr sha) => unless is_hex64 sha give invalid "gives no SHA-256" in Ok {| rf_name := name; rf_size := size; rf_sha256 := sha |}
                  | _ => invalid "gives no SHA-256"
                  end
              | None => invalid "gives a file a size this board has no room for"
              end
          | None => invalid "gives a file a size this board has no room for"
          end
      | _ => invalid "lists a file this console does not flash"
      end
  end.

Definition named (name : string) (f : ReleaseFile) : bool := bool_decide (rf_name f = name).

(** Reading the manifest, already parsed ([None]: it is not JSON).
    @shared/flasher/release.ts 62-87 parseManifest *)
Definition parseManifest (raw : option json) : result ReleaseUnavailable ReleaseManifest :=
  match raw with
  | None => invalid "is not JSON"
  | Some (JObj manifest) =>
      unless match field "format" manifest with Some (JNum q) => Qeqb q 1 | _ => false end give invalid "is in a format this console does not read" in
      unless is_text (field "project" manifest) "TMsense" give invalid "is not for TMsense" in
      unless is_text (field "board" manifest) RELEASE_BOARD give invalid "is for another board" in
      match field "version" manifest with
      | Some (JStr version) =>
          unless is_version version && (js_length version <=? 12) give invalid "has no TMsense version" in
          let tag := "v" +:+ String.string_of_list_ascii (drop 8 (chars version)) in
          unless is_text (field "tag" manifest) tag give invalid "names a tag that is not its version" in
          match field "commit" manifest with
          | Some (JStr commit) =>
              unless is_commit commit give invalid "does not say which commit it was built from" in
              match field "files" manifest with
              | Some (JArr files) =>
                  unless Nat.eqb (length files) 3 give invalid "does not list exactly the three images" in
                  let! listed := rmap parse_release_file files in
                  unless forallb (fun name => Nat.eqb (length (List.filter (named name) listed)) 1) RELEASE_FILES
                    give invalid "does not list each image exactly once" in
                  Ok {| rm_version := version; rm_tag := tag; rm_commit := commit;
                        rm_files := omap (fun name => List.find (named name) listed) RELEASE_FILES |}
              | _ => invalid "does not list exactly the three images"
              end
          | _ => invalid "does not say which commit it was built from"
          end
      | _ => invalid "has no TMsense version"
      end
  | Some _ => invalid "is not an object"
  end.

(** ** The release on offer *)

(** A parsed URL, [new URL(text, base)]; an absolute text needs no base. *)
Record Url := { u_protocol : string; u_hostname : string; u_username : string; u_password : string; u_href : string }.
Class Urls := { url_parse : string -> option Url -> option Url }.

(** What one request came to: [None] when the fetch itself failed. The body is
    its chunks and whether they ended well; [None]: there is none. *)
Record Response := { rs_status : Z; rs_location : option string; rs_body : option (list bytes * bool) }.

Definition starts_href (suffix s : string) : bool :=
  let n := String.length s in let k := String.length suffix in
  Nat.leb k n && bool_decide (String.substring (n - k) k s = suffix).

(** The hosts a download may go to.
    @infrastructure/firmware-release/github-release-source.ts 125-125 get *)
Definition is_github (u : Url) : bool :=
  bool_decide (u_protocol u = "https:") && (bool_decide (u_hostname u = "github.com") || starts_href ".githubusercontent.com" (u_hostname u)) &&
  bool_decide (u_username u = "") && bool_decide (u_password u = "").

Definition unreachable {A} (m : string) : result ReleaseUnavailable A := Err {| ru_reason := Unreachable; ru_message := m |}.
Definition invalid_release {A} (m : string) : result ReleaseUnavailable A := Err {| ru_reason := RInvalid; ru_message := m |}.

(** The body as it arrives, counted.
    @infrastructure/firmware-release/github-release-source.ts 149-166 get *)
Fixpoint read_body (limit : Z) (total : Z) (chunks : list bytes) (ended : bool) (got : bytes) : result ReleaseUnavailable bytes :=
  match chunks with
  | [] => if ended then Ok got else unreachable "the download from GitHub stopped part-way"
  | c :: rest =>
      let total := total + zlen c in
      if limit <? total then invalid_release "a release file is larger than anything this board could hold"
      else read_body limit total rest ended (got ++ c)
  end.

Section source.
Context {urls : Urls} {sha : Sha} {text : JsonText}.

(** One file: the targets that were asked, and what came of it. [hops] is how
    many more may be asked, [answers] what the network gives, in turn.
    @infrastructure/firmware-release/github-release-source.ts 124-169 get *)
Fixpoint get_hops (limit : Z) (hops : nat) (target : Url) (answers : list (option Response)) :
    list Url * result ReleaseUnavailable (option bytes) :=
  match hops with
  | O => ([], unreachable "GitHub redirected the download too many times")
  | S hops' =>
      if negb (is_github target) then ([], invalid_release "GitHub pointed the download somewhere that is not GitHub")
      else
        let response := match answers with r :: _ => r | [] => None end in
        match response with
        | None => ([target], unreachable "GitHub could not be reached for the TMsense release")
        | Some r =>
            if includes (rs_status r) [301; 302; 303; 307; 308] then
              match rs_location r with
              | None => ([target], unreachable "GitHub answered with a redirect to nowhere")
              | Some location =>
                  if bool_decide (location = "") then ([target], unreachable "GitHub answered with a redirect to nowhere")
                  else match url_parse location (Some target) with
                  | None => ([target], invalid_release "GitHub pointed the download somewhere that is not GitHub")
                  | Some next => let '(asked, r) := get_hops limit hops' next (tail answers) in (target :: asked, r)
                  end
              end
            else if rs_status r =? 404 then ([target], Ok None)
            else match rs_body r with
            | Some (chunks, ended) =>
                if between 200 299 (rs_status r) then
                  ([target], let! b := read_body limit 0 chunks ended [] in Ok (Some b))
                else ([target], unreachable "GitHub answered with an error")
            | None => ([target], unreachable "GitHub answered with an error")
            end
        end
  end.

(** @infrastructure/firmware-release/github-release-source.ts 21-21 MAX_REDIRECTS *)
Definition MAX_REDIRECTS : nat := 5.

(** What the network answers to the download of each address, hop by hop. *)
Notation Network := (string -> list (option Response)) (only parsing).

(** @infrastructure/firmware-release/github-release-source.ts 122-123 get *)
Definition get (net : Network) (url : string) (limit : Z) : list Url * result ReleaseUnavailable (option bytes) :=
  match url_parse url None with
  | None => ([], unreachable "GitHub could not be reached for the TMsense release")
  | Some target => get_hops limit (S MAX_REDIRECTS) target (net url)
  end.

(** @infrastructure/firmware-release/github-release-source.ts 38-38 GitHubReleaseSource *)
Record Held := { hd_release : PublishedRelease; hd_files : list (string * bytes) }.

(** @infrastructure/firmware-release/github-release-source.ts 37-48 GitHubReleaseSource *)
Record Source := { so_repository : string; so_current : option Held; so_failure : option (Z * ReleaseUnavailable); so_checking : bool }.

Definition with_current (c : option Held) (s : Source) : Source :=
  {| so_repository := so_repository s; so_current := c; so_failure := so_failure s; so_checking := so_checking s |}.

Definition get_file (files : list (string * bytes)) (tag name : string) : result ReleaseUnavailable bytes :=
  of_option {| ru_reason := RInvalid; ru_message := "release " +:+ tag +:+ " has no " +:+ name |} (om_get name files).

(** The files of a manifest, one after the other.
    @infrastructure/firmware-release/github-release-source.ts 95-103 fetchLatest *)
Fixpoint fetch_files (net : Network) (base tag : string) (l : list ReleaseFile) (files : list (string * bytes)) :
    list Url * result ReleaseUnavailable (list (string * bytes)) :=
  match l with
  | [] => ([], Ok files)
  | file :: rest =>
      let '(asked, got) := get net (base +:+ "/download/" +:+ tag +:+ "/" +:+ rf_name file) (RELEASE_FILE_LIMITS (rf_name file)) in
      match got with
      | Err e => (asked, Err e)
      | Ok None => (asked, invalid_release ("release " +:+ tag +:+ " has no " +:+ rf_name file))
      | Ok (Some b) =>
          if negb (zlen b =? rf_size file) || negb (bool_decide (to_hex (sha256 b) = rf_sha256 file))
          then (asked, invalid_release (rf_name file +:+ " is not the file its manifest describes"))
          else let '(asked', r) := fetch_files net base tag rest (om_set (rf_name file) b files) in (asked ++ asked', r)
      end
  end.

(** The three files as a flash plan.
    @infrastructure/firmware-release/github-release-source.ts 104-115 fetchLatest *)
Definition check_files (manifest : ReleaseManifest) (files : list (string * bytes)) : result ReleaseUnavailable unit :=
  let tag := rm_tag manifest in
  let planned :=
    let! b := get_file files tag "bootloader.bin" in
    let! p := get_file files tag "partitions.bin" in
    let! f := get_file files tag "firmware.bin" in
    match planFlash {| ff_bootloader := b; ff_partitions := p; ff_application := f |} with Ok plan => Ok plan | Err m => invalid_release m end in
  match planned with
  | Err e => invalid_release ("release " +:+ tag +:+ " cannot be flashed: " +:+ ru_message e)
  | Ok plan =>
      unless bool_decide (fp_version plan = rm_version manifest)
        give invalid_release ("release " +:+ tag +:+ " says it is " +:+ rm_version manifest +:+ ", but its firmware reports another version") in
      Ok tt
  end.

(** What is on offer once a manifest has been read and its files are not held.
    [now] is the clock when the check ends.
    @infrastructure/firmware-release/github-release-source.ts 95-118 fetchLatest *)
Definition download (net : Network) (repository : string) (now : Z) (manifest : ReleaseManifest) :
    list Url * result ReleaseUnavailable Held :=
  let '(asked, files) := fetch_files net ("https://github.com/" +:+ repository +:+ "/releases") (rm_tag manifest) (rm_files manifest) [] in
  (asked,
   let! files := files in
   let! _ := check_files manifest files in
   Ok {| hd_release := {| pr_manifest := manifest; pr_repository := repository; pr_checkedAt := now |}; hd_files := files |}).

(** @infrastructure/firmware-release/github-release-source.ts 91-91 fetchLatest *)
Definition same_release (held : Held) (manifest : ReleaseManifest) : bool :=
  let known := pr_manifest (hd_release held) in
  bool_decide (rm_tag known = rm_tag manifest) &&
  forallb (fun file => existsb (fun k => bool_decide (rf_name k = rf_name file) && bool_decide (rf_sha256 k = rf_sha256 file)) (rm_files known))
    (rm_files manifest).

(** @infrastructure/firmware-release/github-release-source.ts 85-119 fetchLatest *)
Definition fetchLatest (net : Network) (now : Z) (s : Source) : list Url * result ReleaseUnavailable Held :=
  let base := "https://github.com/" +:+ so_repository s +:+ "/releases" in
  let '(asked, listing) := get net (base +:+ "/latest/download/" +:+ RELEASE_MANIFEST) RELEASE_MANIFEST_LIMIT in
  match listing with
  | Err e => (asked, Err e)
  | Ok None => (asked, Err {| ru_reason := RNone; ru_message := "the TMsense repository has not published a release with flashable images yet" |})
  | Ok (Some b) =>
      match parseManifest (json_parse b) with
      | Err e => (asked, Err e)
      | Ok manifest =>
          let fresh := let '(asked', r) := download net (so_repository s) now manifest in (asked ++ asked', r) in
          match so_current s with
          | Some held =>
              if same_release held manifest then
                (asked, Ok {| hd_release := {| pr_manifest := pr_manifest (hd_release held); pr_repository := pr_repository (hd_release held);
                                               pr_checkedAt := now |}; hd_files := hd_files held |})
              else fresh
          | None => fresh
          end
      end
  end.

(** What the one who asked for the latest release gets. *)
Inductive Answer := Offered (r : PublishedRelease) | Refused (e : ReleaseUnavailable) | Pending.

(** @infrastructure/firmware-release/github-release-source.ts 16-16 FRESH_MS *)
Definition FRESH_MS : Z := 60000.
(** @infrastructure/firmware-release/github-release-source.ts 19-19 RETRY_MS *)
Definition RETRY_MS : Z := 15000.

(** @infrastructure/firmware-release/github-release-source.ts 50-60 latest *)
Definition latest (at_ : Z) (s : Source) : Answer * Source :=
  let start := (Pending, {| so_repository := so_repository s; so_current := so_current s; so_failure := so_failure s; so_checking := true |}) in
  let retry :=
    match so_failure s with
    | Some (failed, e) =>
        if at_ - failed <? RETRY_MS then
          match so_current s with Some c => (Offered (hd_release c), s) | None => (Refused e, s) end
        else start
    | None => start
    end in
  match so_current s with
  | Some c => if at_ - pr_checkedAt (hd_release c) <? FRESH_MS then (Offered (hd_release c), s) else retry
  | None => retry
  end.

(** @infrastructure/firmware-release/github-release-source.ts 62-65 bytes *)
Definition bytes_of (tag name : string) (s : Source) : option bytes :=
  match so_current s with
  | Some c => if bool_decide (rm_tag (pr_manifest (hd_release c)) = tag) then om_get name (hd_files c) else None
  | None => None
  end.

(** The end of a check: what those who wait for it get.
    @infrastructure/firmware-release/github-release-source.ts 67-83 check *)
Definition check (net : Network) (now : Z) (s : Source) : (list Url * Answer) * Source :=
  let '(asked, r) := fetchLatest net now s in
  match r with
  | Ok held => ((asked, Offered (hd_release held)),
      {| so_repository := so_repository s; so_current := Some held; so_failure := None; so_checking := false |})
  | Err known =>
      let s' := {| so_repository := so_repository s; so_current := so_current s; so_failure := Some (now, known); so_checking := false |} in
      match so_current s with
      | Some c =>
          if bool_decide (ru_reason known = Unreachable) then ((asked, Offered (hd_release c)), s')
          else ((asked, Refused known), with_current None s')
      | None => ((asked, Refused known), with_current None s')
      end
  end.

(** The life of a source: it is asked, and checks come to an end. *)
Inductive Event := Ask (at_ : Z) | Checked (net : Network) (now : Z).

Definition source_step (s : Source) (ev : Event) : Source :=
  match ev with
  | Ask at_ => snd (latest at_ s)
  | Checked net now => if so_checking s then snd (check net now s) else s
  end.

Definition new_source (repository : string) : Source :=
  {| so_repository := repository; so_current := None; so_failure := None; so_checking := false |}.

(** ** What is offered *)

(** A release that is what it says: its files are the ones its manifest names,
    by size and hash, they make a plan, and the firmware in it says the
    version of the release, which is its tag. *)
Definition genuine (c : Held) : Prop :=
  let m := pr_manifest (hd_release c) in
  rm_tag m = "v" +:+ String.string_of_list_ascii (drop 8 (chars (rm_version m))) /\
  (forall name b, om_get name (hd_files c) = Some b -> exists f, f ∈ rm_files m /\ rf_name f = name /\ zlen b = rf_size f /\ to_hex (sha256 b) = rf_sha256 f) /\
  exists b p f plan, om_get "bootloader.bin" (hd_files c) = Some b /\ om_get "partitions.bin" (hd_files c) = Some p /\
    om_get "firmware.bin" (hd_files c) = Some f /\
    planFlash {| ff_bootloader := b; ff_partitions := p; ff_application := f |} = Ok plan /\ fp_version plan = rm_version m.

Lemma get_hops_github limit hops target answers : Forall (fun u => is_github u = true) (fst (get_hops limit hops target answers)).
Proof.
  revert target answers. induction hops as [|hops IH]; intros target answers; [constructor|]. cbn [get_hops].
  destruct (is_github target) eqn:Eg; cbn [negb]; [|constructor].
  assert (Forall (fun u => is_github u = true) [target]) as Hone by (by constructor).
  destruct (match answers with r :: _ => r | [] => None end) as [r|]; [|done].
  destruct (includes (rs_status r) _).
  - destruct (rs_location r) as [location|]; [|done]. case_bool_decide; [done|]. destruct (url_parse location (Some target)) as [next|]; [|done].
    specialize (IH next (tail answers)). destruct (get_hops limit hops next (tail answers)) as [asked r']. by constructor.
  - destruct (rs_status r =? 404); [done|]. destruct (rs_body r) as [[chunks ended]|]; [|done]. by destruct (between _ _ _).
Qed.

Lemma get_github net url limit : Forall (fun u => is_github u = true) (fst (get net url limit)).
Proof. unfold get. destruct (url_parse url None); [apply get_hops_github|constructor]. Qed.

Lemma fetch_files_ok net base tag l : forall files,
  Forall (fun u => is_github u = true) (fst (fetch_files net base tag l files)) /\
  forall files', snd (fetch_files net base tag l files) = Ok files' -> forall name b, om_get name files' = Some b ->
    om_get name files = Some b \/ exists f, f ∈ l /\ rf_name f = name /\ zlen b = rf_size f /\ to_hex (sha256 b) = rf_sha256 f.
Proof.
  induction l as [|file l IH]; intros files; cbn [fetch_files]; [split; [constructor|]; intros files' [= <-]; auto|].
  pose proof (get_github net (base +:+ "/download/" +:+ tag +:+ "/" +:+ rf_name file) (RELEASE_FILE_LIMITS (rf_name file))) as Hg.
  destruct (get net _ _) as [asked [[b|]|e]]; cbn [fst] in Hg; [|by split|by split].
  destruct (negb (zlen b =? rf_size file) || negb (bool_decide (to_hex (sha256 b) = rf_sha256 file))) eqn:Ec; [by split|].
  apply orb_false_iff in Ec as [Hsize%negb_false%Z.eqb_eq Hsha%negb_false%bool_decide_eq_true].
  destruct (IH (om_set (rf_name file) b files)) as [Hg' Hf]. destruct (fetch_files net base tag l _) as [asked' r]. cbn [fst snd] in *.
  split; [by apply Forall_app|]. intros files' Hr name b' Hb. destruct (Hf files' Hr name b' Hb) as [Hin|(f & Hin & ?)].
  - rewrite om_get_set in Hin. case_bool_decide as E; [|by left]. injection Hin as <-. right. exists file. split; [by left|done].
  - right. exists f. split; [by right|done].
Qed.

Lemma check_files_ok manifest files u : check_files manifest files = Ok u ->
  exists b p f plan, om_get "bootloader.bin" files = Some b /\ om_get "partitions.bin" files = Some p /\ om_get "firmware.bin" files = Some f /\
    planFlash {| ff_bootloader := b; ff_partitions := p; ff_application := f |} = Ok plan /\ fp_version plan = rm_version manifest.
Proof.
  unfold check_files, get_file. destruct (om_get "bootloader.bin" files) as [b|]; [|done]. destruct (om_get "partitions.bin" files) as [p|]; [|done].
  destruct (om_get "firmware.bin" files) as [f|]; [|done]. cbn [of_option rbind].
  destruct (planFlash _) as [plan|e] eqn:Ep; [|done]. case_bool_decide as Ev; [|done]. intros _. by exists b, p, f, plan.
Qed.

Lemma parseManifest_tag raw m : parseManifest raw = Ok m -> rm_tag m = "v" +:+ String.string_of_list_ascii (drop 8 (chars (rm_version m))).
Proof.
  unfold parseManifest, invalid. destruct raw as [[| | | | |manifest]|]; try done. intros H. inv_ok H.
  destruct (field "version" manifest) as [[| | |version| |]|]; try done. inv_ok H.
  destruct (field "commit" manifest) as [[| | |commit| |]|]; try done. inv_ok H.
  destruct (field "files" manifest) as [[| | | |files|]|]; try done. inv_ok H. by injection H as <-.
Qed.

Lemma download_ok net repository now manifest : rm_tag manifest = "v" +:+ String.string_of_list_ascii (drop 8 (chars (rm_version manifest))) ->
  Forall (fun u => is_github u = true) (fst (download net repository now manifest)) /\
  forall held, snd (download net repository now manifest) = Ok held -> genuine held.
Proof.
  intros Htag. unfold download. destruct (fetch_files_ok net ("https://github.com/" +:+ repository +:+ "/releases") (rm_tag manifest) (rm_files manifest) []) as [Hg Hf].
  destruct (fetch_files _ _ _ _ _) as [asked files]. cbn [fst snd] in *. split; [done|]. intros held H. inv_ok H. subst files. injection H as <-.
  split_and!; cbn; [done| |by eapply check_files_ok]. intros name b Hb. by destruct (Hf _ eq_refl name b Hb).
Qed.

Lemma fetchLatest_ok net now s : (forall c, so_current s = Some c -> genuine c) ->
  Forall (fun u => is_github u = true) (fst (fetchLatest net now s)) /\ forall held, snd (fetchLatest net now s) = Ok held -> genuine held.
Proof.
  intros Hs. unfold fetchLatest.
  assert (forall asked e, Forall (fun u => is_github u = true) asked ->
    Forall (fun u => is_github u = true) (fst (asked, @Err ReleaseUnavailable Held e)) /\
    forall held, snd (asked, @Err ReleaseUnavailable Held e) = Ok held -> genuine held) as Herr.
  { intros asked e Ha. split; [exact Ha|]. intros held H. discriminate H. }
  pose proof (get_github net (("https://github.com/" +:+ so_repository s +:+ "/releases") +:+ "/latest/download/" +:+ RELEASE_MANIFEST) RELEASE_MANIFEST_LIMIT) as Hg.
  destruct (get net _ _) as [asked [[b|]|e]]; cbn [fst] in Hg; [|exact (Herr _ _ Hg)|exact (Herr _ _ Hg)].
  destruct (parseManifest (json_parse b)) as [manifest|e] eqn:Em; [|exact (Herr _ _ Hg)].
  pose proof (download_ok net (so_repository s) now manifest (parseManifest_tag _ _ Em)) as [Hg' Hd].
  destruct (download net (so_repository s) now manifest) as [asked' r]. cbn [fst snd] in Hg', Hd.
  assert (Forall (fun u => is_github u = true) (asked ++ asked')) as Hall by (apply Forall_app; exact (conj Hg Hg')).
  destruct (so_current s) as [held|]; [|exact (conj Hall Hd)]. destruct (same_release held manifest); [|exact (conj Hall Hd)].
  split; [exact Hg|]. cbn [snd]. intros h [= <-]. exact (Hs held eq_refl).
Qed.

Lemma check_genuine net now s : (forall c, so_current s = Some c -> genuine c) -> forall c, so_current (snd (check net now s)) = Some c -> genuine c.
Proof.
  intros Hs. destruct (fetchLatest_ok net now s Hs) as [_ Hf]. unfold check. destruct (fetchLatest net now s) as [asked [held|e]]; cbn [snd] in *.
  - intros c [= <-]. by apply Hf.
  - destruct (so_current s) as [c0|] eqn:E; [|done]. case_bool_decide; [|done]. cbn. intros c [= <-]. by apply Hs.
Qed.

Lemma latest_current at_ s : so_current (snd (latest at_ s)) = so_current s.
Proof.
  destruct s as [repository [c|] [[failed e]|] checking]; unfold latest; cbn [so_current so_failure so_repository so_checking];
    repeat match goal with |- context [if ?b then _ else _] => destruct b end; reflexivity.
Qed.

Lemma latest_offered at_ s r : fst (latest at_ s) = Offered r -> exists c, so_current s = Some c /\ hd_release c = r.
Proof.
  destruct s as [repository [c|] [[failed e]|] checking]; unfold latest; cbn [so_current so_failure so_repository so_checking];
    repeat match goal with |- context [if ?b then _ else _] => destruct b end; cbn [fst]; intros H; try discriminate H; injection H as <-; eauto.
Qed.

Lemma source_genuine repository evs : forall c, so_current (run source_step (new_source repository) evs) = Some c -> genuine c.
Proof.
  apply (run_invariant source_step (fun s => forall c, so_current s = Some c -> genuine c)); [|done].
  intros s [at_|net now] Hs; cbn [source_step]; [by rewrite latest_current|]. destruct (so_checking s); [by apply check_genuine|done].
Qed.

(** *** A latest release that is missing or broken *)

Definition final {A} (r : result ReleaseUnavailable A) : Prop := exists e, r = Err e /\ ru_reason e <> Unreachable.

Definition served (net : Network) (base tag : string) (file : ReleaseFile) : result ReleaseUnavailable (option bytes) :=
  snd (get net (base +:+ "/download/" +:+ tag +:+ "/" +:+ rf_name file) (RELEASE_FILE_LIMITS (rf_name file))).
Definition as_listed (file : ReleaseFile) (b : bytes) : Prop := zlen b = rf_size file /\ to_hex (sha256 b) = rf_sha256 file.

(** One of the files is not there, is not the one that is listed, or is refused
    for its size or the place it is to come from; those before it are fine. *)
Inductive spoiled (net : Network) (base tag : string) : list ReleaseFile -> Prop :=
| file_missing f l : served net base tag f = Ok None -> spoiled net base tag (f :: l)
| file_wrong f l b : served net base tag f = Ok (Some b) -> ~ as_listed f b -> spoiled net base tag (f :: l)
| file_refused f l : final (served net base tag f) -> spoiled net base tag (f :: l)
| file_later f l b : served net base tag f = Ok (Some b) -> as_listed f b -> spoiled net base tag l -> spoiled net base tag (f :: l).

Definition releases (s : Source) : string := "https://github.com/" +:+ so_repository s +:+ "/releases".
Definition served_manifest (net : Network) (s : Source) : result ReleaseUnavailable (option bytes) :=
  snd (get net (releases s +:+ "/latest/download/" +:+ RELEASE_MANIFEST) RELEASE_MANIFEST_LIMIT).

(** The latest release names its files, and they are not the ones that are held. *)
Definition announces (net : Network) (s : Source) (m : ReleaseManifest) : Prop :=
  exists b, served_manifest net s = Ok (Some b) /\ parseManifest (json_parse b) = Ok m /\ forall c, so_current s = Some c -> same_release c m = false.

Inductive unfit (net : Network) (s : Source) : Prop :=
| no_manifest : served_manifest net s = Ok None -> unfit net s
| manifest_refused : final (served_manifest net s) -> unfit net s
| manifest_broken b e : served_manifest net s = Ok (Some b) -> parseManifest (json_parse b) = Err e -> unfit net s
| files_broken m : announces net s m -> spoiled net (releases s) (rm_tag m) (rm_files m) -> unfit net s
| no_plan m files e : announces net s m -> snd (fetch_files net (releases s) (rm_tag m) (rm_files m) []) = Ok files -> check_files m files = Err e -> unfit net s.

Lemma as_listed_spec f b : negb (zlen b =? rf_size f) || negb (bool_decide (to_hex (sha256 b) = rf_sha256 f)) = false <-> as_listed f b.
Proof. unfold as_listed. rewrite orb_false_iff, !negb_false_iff, Z.eqb_eq, bool_decide_eq_true. done. Qed.

Lemma final_err {A} e : final (@Err ReleaseUnavailable A e) <-> ru_reason e <> Unreachable.
Proof. split; [by intros (? & [= <-] & ?)|by exists e]. Qed.
Lemma not_final_ok {A} (x : A) : ~ final (Ok x).
Proof. by intros (? & ? & _). Qed.

Lemma fetch_files_spoiled net base tag l : forall files, spoiled net base tag l <-> final (snd (fetch_files net base tag l files)).
Proof.
  induction l as [|f l IH]; intros files; [split; [by inversion 1|intros H; by apply not_final_ok in H]|]. cbn [fetch_files].
  assert (served net base tag f = snd (get net (base +:+ "/download/" +:+ tag +:+ "/" +:+ rf_name f) (RELEASE_FILE_LIMITS (rf_name f)))) as Es by done.
  destruct (get net _ _) as [asked [[b|]|e]]; cbn [snd] in *.
  - destruct (negb (zlen b =? rf_size f) || _) eqn:Ec; cbn [snd].
    + split; [intros _; by eexists|intros _]. apply (file_wrong _ _ _ _ _ b Es). rewrite <- as_listed_spec. congruence.
    + apply as_listed_spec in Ec. specialize (IH (om_set (rf_name f) b files)). destruct (fetch_files net base tag l _) as [asked' r]. cbn [snd] in *. rewrite <- IH. split.
      * inversion 1 as [? ? H0|? ? ? H0|? ? H0|? ? ? H0]; subst; rewrite Es in *; try done; [by injection H0 as <-|by apply not_final_ok in H0].
      * by apply (file_later _ _ _ _ _ b).
  - split; [intros _; by eexists|intros _; by apply file_missing].
  - split.
    + inversion 1 as [? ? H0|? ? ? H0|? ? H0|? ? ? H0]; subst; rewrite Es in *; done || (by apply final_err in H0; apply final_err).
    + intros H. apply file_refused. rewrite Es. by apply final_err in H; apply final_err.
Qed.

Lemma rmap_err {E A B} (f : A -> result E B) l e : rmap f l = Err e -> exists x, f x = Err e.
Proof.
  induction l as [|x l IH]; [done|]. cbn [rmap]. destruct (f x) as [y|e'] eqn:Ex; cbn [rbind]; [|intros [= <-]; by exists x].
  destruct (rmap f l) as [ys|e']; cbn [rbind]; [done|]. intros [= <-]. by apply IH.
Qed.

Lemma parse_release_file_final v e : parse_release_file v = Err e -> ru_reason e = RInvalid.
Proof. unfold parse_release_file, invalid. intros H. repeat (case_match; try (by injection H as <-); try done). Qed.
Lemma parseManifest_final raw e : parseManifest raw = Err e -> ru_reason e = RInvalid.
Proof.
  unfold parseManifest, invalid. intros H. repeat (case_match; try (by injection H as <-); try done).
  destruct (rmap parse_release_file _) as [listed|e'] eqn:El; cbn [rbind] in H; [case_match; [done|by injection H as <-]|].
  injection H as <-. apply rmap_err in El as (x & Hx). by eapply parse_release_file_final.
Qed.
Lemma check_files_final m files e : check_files m files = Err e -> ru_reason e = RInvalid.
Proof. unfold check_files, invalid_release. intros H. repeat (case_match; try (by injection H as <-); try done). Qed.

Lemma fetchLatest_unfit net now s : unfit net s <-> final (snd (fetchLatest net now s)).
Proof.
  unfold fetchLatest. change ("https://github.com/" +:+ so_repository s +:+ "/releases") with (releases s).
  assert (served_manifest net s = snd (get net (releases s +:+ "/latest/download/" +:+ RELEASE_MANIFEST) RELEASE_MANIFEST_LIMIT)) as Es by done.
  assert (forall m b, served_manifest net s = Ok (Some b) -> announces net s m -> parseManifest (json_parse b) = Ok m) as Ha.
  { intros m b Hb (b' & Hb' & Hm & _). congruence. }
  destruct (get net _ _) as [asked [[b|]|e]]; cbn [snd] in Es |- *.
  - assert (unfit net s -> forall m, parseManifest (json_parse b) = Ok m -> announces net s m /\
      (spoiled net (releases s) (rm_tag m) (rm_files m) \/ exists files e, snd (fetch_files net (releases s) (rm_tag m) (rm_files m) []) = Ok files /\ check_files m files = Err e)) as Hu.
    { intros [H0|H0|b' e' H0 H1|m' H0 H1|m' files e' H0 H1 H2] m Hm; rewrite Es in *; try done; [by apply not_final_ok in H0|congruence| |];
      pose proof (Ha m' b eq_refl H0) as Hm'; assert (m' = m) as -> by congruence; split; eauto 6. }
    destruct (parseManifest (json_parse b)) as [m|e] eqn:Em; cbn [snd].
    + set (fresh := download net (so_repository s) now m).
      assert (announces net s m -> (unfit net s <-> final (snd (let '(asked', r) := fresh in (asked ++ asked', r))))) as Hfresh.
      { intros Han. subst fresh. unfold download. change ("https://github.com/" +:+ so_repository s +:+ "/releases") with (releases s).
        pose proof (fetch_files_spoiled net (releases s) (rm_tag m) (rm_files m) []) as Hsp. destruct (fetch_files _ _ _ _ _) as [asked' r] eqn:Ef. cbn [snd] in *. split.
        - intros H. destruct (Hu H m eq_refl) as [_ [H1|(files & e & Hr & Hc)]].
          + apply Hsp in H1 as (e & -> & He). by apply final_err.
          + rewrite Ef in Hr. cbn [snd] in Hr. subst r. cbn [rbind]. rewrite Hc. cbn [rbind]. apply final_err. by rewrite (check_files_final _ _ _ Hc).
        - destruct r as [files|e]; cbn [rbind]; [|intros H%final_err; eapply files_broken; [done|]; by apply Hsp, final_err].
          destruct (check_files m files) as [[]|e] eqn:Ec; cbn [rbind]; [intros H; by apply not_final_ok in H|]. intros _. eapply no_plan; [done| |exact Ec]. by rewrite Ef. }
      destruct (so_current s) as [c|] eqn:Ecur; [destruct (same_release c m) eqn:Esame|].
      * cbn [snd]. split; [|intros H; by apply not_final_ok in H]. intros H. destruct (Hu H m eq_refl) as [(_ & _ & _ & Hc) _]. specialize (Hc c Ecur). congruence.
      * apply Hfresh. exists b. split_and!; [done|done|]. rewrite Ecur. by intros c' [= <-].
      * apply Hfresh. exists b. split_and!; [done|done|]. by rewrite Ecur.
    + split; [intros _; apply final_err; by rewrite (parseManifest_final _ _ Em)|intros _; by eapply manifest_broken].
  - split; [intros _; by eexists|intros _; by apply no_manifest].
  - split.
    + intros [H0|H0|b' e' H0 H1|m' (b' & H0 & _) H1|m' files e' (b' & H0 & _) H1 H2]; rewrite Es in *; try done; by apply final_err in H0; apply final_err.
    + intros H. apply manifest_refused. rewrite Es. by apply final_err in H; apply final_err.
Qed.

Lemma latest_nothing at_ s r : so_current s = None -> fst (latest at_ s) <> Offered r.
Proof. intros Hs H. apply latest_offered in H as (c & Hc & _). congruence. Qed.

(** C37: Only a genuine release is offered for flashing. Whatever is asked and
    whatever the network answers, the bytes handed out under a tag belong to a
    release of that tag whose files have the sizes and hashes its manifest
    gives, make a flash plan and report its version; only GitHub's own hosts
    are ever asked; a check that finds the latest release missing or broken
    (no manifest or one that cannot be read, a file that is not there or not
    the one listed, files that are too large, come from elsewhere or make no
    plan) is refused and leaves nothing to hand out or to offer, not even an
    older release; and any other check, one that cannot reach GitHub included,
    takes nothing away. *)
Theorem offered_release_is_genuine repository evs :
  let s := run source_step (new_source repository) evs in
  (forall tag name b, bytes_of tag name s = Some b -> exists c, rm_tag (pr_manifest (hd_release c)) = tag /\ om_get name (hd_files c) = Some b /\ genuine c) /\
  (forall at_ r, fst (latest at_ s) = Offered r -> exists c, hd_release c = r /\ genuine c) /\
  (forall net now, Forall (fun u => is_github u = true) (fst (fst (check net now s))) /\
     let s' := snd (check net now s) in
     (unfit net s -> (exists e, snd (fst (check net now s)) = Refused e) /\ (forall tag name, bytes_of tag name s' = None) /\ forall at_ r, fst (latest at_ s') <> Offered r) /\
     (forall e, snd (fst (check net now s)) = Refused e -> forall tag name, bytes_of tag name s' = None) /\
     (~ unfit net s -> forall c, so_current s = Some c -> exists c', so_current s' = Some c' /\ snd (fst (check net now s)) = Offered (hd_release c'))).
Proof.
  intros s. pose proof (source_genuine repository evs) as Hs. fold s in Hs. split_and!.
  - intros tag name b. unfold bytes_of. destruct (so_current s) as [c|]; [|done]. case_bool_decide; [|done]. intros Hb. exists c. auto.
  - intros at_ r (c & Hc & <-)%latest_offered. exists c. auto.
  - intros net now. destruct (fetchLatest_ok net now s Hs) as [Hg _]. pose proof (fetchLatest_unfit net now s) as Hu. cbv zeta. unfold check. destruct (fetchLatest net now s) as [asked [held|e]]; cbn [fst snd] in *.
    + split_and!; [done|intros H%Hu; by apply not_final_ok in H|done|by eexists].
    + rewrite final_err in Hu. destruct (so_current s) as [c|] eqn:Ec; [case_bool_decide as Er|]; (split; [exact Hg|]); cbn [fst snd].
      * split_and!; [by intros H%Hu|done|]. intros _ c' [= <-]. by exists c.
      * split_and!; [intros _; split_and!; [by eexists|done|intros; by apply latest_nothing]|done|]. intros Hn. by destruct Hn; apply Hu.
      * split_and!; [intros _; split_and!; [by eexists|done|intros; by apply latest_nothing]|done|done].
Qed.
End source.
