(* ===== verification/Provision.v ===== *)
(** Setting up a node over its serial console from the browser: the settings
    and the lines that write them ([shared/flasher/settings.ts]) and the talk
    with the firmware ([shared/flasher/node-console.ts]). A JavaScript string
    is the list of its code units here, since the lines may hold any
    character; the code that waits for the node is a program over the answers
    it gets, in the order it asks for them. *)

From S2P Require Import Prelude.

(** ** Text *)

Notation text := (list Z) (only parsing).
Definition u (s : string) : text := map code (chars s).
Definition dec (n : Z) : text := u (show n).

Definition prefixb (p l : text) : bool := bool_decide (take (length p) l = p).
Definition suffixb (p l : text) : bool := bool_decide (drop (length l - length p) l = p).
Definition has (c : Z) (l : text) : bool := existsb (Z.eqb c) l.

(** [text.indexOf(c)] for one character; [None] is [-1]. *)
Fixpoint indexOf (c : Z) (l : text) : option nat :=
  match l with [] => None | x :: l' => if x =? c then Some O else option_map S (indexOf c l') end.

(** [text.indexOf(p)] for a text that is not empty. *)
Fixpoint indexOf_text (p l : text) : option nat :=
  match l with [] => None | _ :: l' => if prefixb p l then Some O else option_map S (indexOf_text p l') end.

(** [text.split(c)] for one character. *)
Fixpoint split (c : Z) (l : text) : list text :=
  match l with
  | [] => [[]]
  | x :: l' =>
      if x =? c then [] :: split c l'
      else match split c l' with [] => [[x]] | w :: ws => (x :: w) :: ws end
  end.

(** [text.split(sep).join(by)] for a separator that is not empty; [skip] is how
    much of an occurrence is still to be passed over. *)
Fixpoint replace_from (sep by_ : text) (skip : nat) (l : text) : text :=
  match l with
  | [] => []
  | x :: l' =>
      match skip with
      | S skip' => replace_from sep by_ skip' l'
      | O => if prefixb sep l then by_ ++ replace_from sep by_ (length sep - 1) l' else x :: replace_from sep by_ 0 l'
      end
  end.
Definition replace_all (sep by_ l : text) : text := replace_from sep by_ 0 l.

(** White space, as [trim] and [\s] know it. *)
Definition white (c : Z) : bool :=
  between 9 13 c || includes c [32; 160; 0x1680; 0x2028; 0x2029; 0x202f; 0x205f; 0x3000; 0xfeff] || between 0x2000 0x200a c.
Fixpoint trim_left (l : text) : text := match l with [] => [] | c :: l' => if white c then trim_left l' else l end.
Definition trim (l : text) : text := List.rev (trim_left (List.rev (trim_left l))).

(** The bytes of the UTF-8 text [TextEncoder] makes; half of a pair is encoded
    as the replacement character, three bytes. *)
Fixpoint utf8_length (l : text) : Z :=
  match l with
  | [] => 0
  | c :: l' =>
      if c <? 0x80 then 1 + utf8_length l'
      else if c <? 0x800 then 2 + utf8_length l'
      else if between 0xd800 0xdbff c
           then match l' with
                | d :: l'' => if between 0xdc00 0xdfff d then 4 + utf8_length l'' else 3 + utf8_length l'
                | [] => 3
                end
      else 3 + utf8_length l'
  end.

(** What the tables of Unicode and the number grammar of the language give. *)
Class JsText := { toLowerCase : text -> text; toNumber : text -> option Q }.

Definition a_digit (c : Z) : bool := between 48 57 c.
Definition a_lower (c : Z) : bool := between 97 122 c.
Definition a_control (c : Z) : bool := between 0 31 c || (c =? 127).

(** The number a run of digits is; [None]: the text is not one. *)
Definition digits (l : text) : option Z :=
  if negb (bool_decide (l = [])) && forallb a_digit l then Some (fold_left (fun n c => 10 * n + (c - 48)) l 0) else None.

(** ** The settings of a node *)

(** @shared/flasher/settings.ts 14-14 UplinkMode *)
Inductive UplinkMode := Wifi | Lora.
(** @shared/flasher/settings.ts 16-16 UplinkTransport *)
Inductive UplinkTransport := Udp | Wss.
#[export] Instance uplink_mode_eq_dec : EqDecision UplinkMode.
Proof. solve_decision. Defined.
#[export] Instance uplink_transport_eq_dec : EqDecision UplinkTransport.
Proof. solve_decision. Defined.

(** The frame rate is 1, 2 or 4; [None] keeps the node's.
    @shared/flasher/settings.ts 25-38 NodeSettings *)
Record NodeSettings := {
  ns_mode : UplinkMode; ns_ssid : text; ns_password : text; ns_gateway : text; ns_key : text;
  ns_transport : UplinkTransport; ns_cloudUrl : text; ns_frameRate : option Z }.

(** @shared/flasher/settings.ts 40-42 EMPTY_SETTINGS *)
Definition EMPTY_SETTINGS : NodeSettings :=
  {| ns_mode := Wifi; ns_ssid := []; ns_password := []; ns_gateway := []; ns_key := []; ns_transport := Udp; ns_cloudUrl := []; ns_frameRate := None |}.

Definition mode_text (m : UplinkMode) : text := match m with Wifi => u "wifi" | Lora => u "lora" end.
Definition transport_text (t : UplinkTransport) : text := match t with Udp => u "udp" | Wss => u "wss" end.

(** @shared/flasher/settings.ts 45-45 MAX_SSID *)
Definition MAX_SSID : Z := 32.
(** @shared/flasher/settings.ts 46-46 MAX_PASSWORD *)
Definition MAX_PASSWORD : Z := 63.
(** @shared/flasher/settings.ts 47-47 MAX_KEY *)
Definition MAX_KEY : Z := 64.
(** @shared/flasher/settings.ts 49-49 MAX_CLOUD_URL *)
Definition MAX_CLOUD_URL : Z := 128.
(** @shared/flasher/settings.ts 50-50 MIN_NODE_ID *)
Definition MIN_NODE_ID : Z := 1.
(** @shared/flasher/settings.ts 51-51 MAX_NODE_ID *)
Definition MAX_NODE_ID : Z := 65535.

(** @shared/flasher/settings.ts 55-57 gatewayName *)
Definition gatewayName (m : UplinkMode) : text := match m with Wifi => u "TMWAccess" | Lora => u "TMLAccess" end.

(** [/^(0|[1-9]\d{0,2})$/] and at most 255. *)
Definition octet (part : text) : bool :=
  match part with
  | [] => false
  | d :: rest => (bool_decide (part = [48]) || (between 49 57 d && forallb a_digit rest && Nat.leb (length rest) 2)) &&
                 match digits part with Some n => n <=? 255 | None => false end
  end.
(** @shared/flasher/settings.ts 59-62 isIPv4 *)
Definition isIPv4 (l : text) : bool := let parts := split 46 l in Nat.eqb (length parts) 4 && forallb octet parts.

(** [/^[a-z0-9-]{1,63}$/] *)
Definition dns_label (l : text) : bool :=
  between 1 63 (Z.of_nat (length l)) && forallb (fun c => a_lower c || a_digit c || (c =? 45)) l &&
  negb (prefixb [45] l) && negb (suffixb [45] l).

(** [/^[A-Za-z0-9/\-_.~]+$/] *)
Definition path_char (c : Z) : bool := between 65 90 c || a_lower c || a_digit c || includes c [47; 45; 95; 46; 126].

(** @shared/flasher/settings.ts 84-108 cloudUrlProblem *)
Definition cloudUrlProblem (url : text) : option text :=
  if bool_decide (url = []) || (MAX_CLOUD_URL <? utf8_length url) then Some (u "Cloud URL must be 1" ++ [0x2013] ++ u "128 characters")
  else if existsb (fun c => negb (between 0x21 0x7e c) || (c =? 37) || (c =? 92)) url then Some (u "Cloud URL may contain only printable ASCII, no spaces, % or \")
  else if has 63 url || has 35 url then Some (u "Cloud URL must not have a query or fragment")
  else if negb (prefixb (u "wss://") url) then Some (u "Cloud URL must start with wss://")
  else
    let rest := drop 6 url in
    match indexOf 47 rest with
    | None => Some (u "Cloud URL needs a path, like /tmnode")
    | Some slash =>
        let authority := take slash rest in
        if has 64 authority then Some (u "Cloud URL must not contain a user name or password")
        else
          let checked :=
            match indexOf 58 authority with
            | Some colon => if bool_decide (drop (S colon) authority = u "443") then Some (take colon authority) else None
            | None => Some authority
            end in
          match checked with
          | None => Some (u "Cloud URL port must be 443")
          | Some host =>
              if negb (between 1 100 (Z.of_nat (length host)) && existsb a_lower host && forallb dns_label (split 46 host))
              then Some (u "Cloud URL host must be a lowercase DNS name")
              else
                let path := drop slash rest in
                if (Z.of_nat (length path) <? 2) || (64 <? Z.of_nat (length path)) || negb (forallb path_char path) ||
                   bool_decide (indexOf_text (u "//") path <> None) ||
                   existsb (fun part => bool_decide (part = u ".") || bool_decide (part = u "..")) (split 47 path)
                then Some (u "Cloud URL path must be like /tmnode") else None
          end
    end.

Section provision.
Context {js : JsText}.

(** @shared/flasher/settings.ts 69-78 canonicalCloudUrl *)
Definition canonicalCloudUrl (raw : text) : text :=
  let t := trim raw in
  match indexOf_text (u "://") t with
  | None => t
  | Some schemeEnd =>
      let rest := drop (schemeEnd + 3) t in
      let slash := indexOf 47 rest in
      let authority := toLowerCase (match slash with None => rest | Some n => take n rest end) in
      let authority := if suffixb (u ":443") authority then take (length authority - 4) authority else authority in
      toLowerCase (take schemeEnd t) ++ u "://" ++ authority ++ match slash with None => [] | Some n => drop n rest end
  end.

(** @shared/flasher/settings.ts 111-129 settingsProblems *)
Definition settingsProblems (s : NodeSettings) : list text :=
  let fields := [(u "SSID", ns_ssid s); (u "Password", ns_password s); (u "Gateway IP", ns_gateway s); (u "Signing key", ns_key s); (u "Cloud URL", ns_cloudUrl s)] in
  let on (b : bool) (m : text) : list text := if b then [m] else [] in
  (fields ≫= fun f => on (existsb a_control f.2) (f.1 ++ u " cannot contain a line break or control character")) ++
  on (MAX_SSID <? utf8_length (ns_ssid s)) (u "SSID is longer than 32 bytes") ++
  on (prefixb [32] (ns_ssid s) || suffixb [32] (ns_ssid s)) (u "SSID starts or ends with a space") ++
  on (negb (bool_decide (ns_password s = [])) && ((utf8_length (ns_password s) <? 8) || (MAX_PASSWORD <? utf8_length (ns_password s))))
    (u "Wi-Fi password must be 8" ++ [0x2013] ++ u "63 characters (WPA2)") ++
  on (negb (bool_decide (ns_gateway s = [])) && negb (isIPv4 (ns_gateway s)))
    (gatewayName (ns_mode s) ++ u " IP " ++ [0x201c] ++ ns_gateway s ++ [0x201d] ++ u " is not an IPv4 address") ++
  on (MAX_KEY <? utf8_length (ns_key s)) (u "Signing key is longer than 64 bytes") ++
  on (has 32 (ns_key s)) (u "Signing key cannot contain spaces") ++
  on (bool_decide (ns_mode s = Lora) && bool_decide (ns_transport s = Wss)) (u "LoRa has no direct-cloud transport; choose the local gateway") ++
  (if bool_decide (ns_cloudUrl s = []) then [] else match cloudUrlProblem (canonicalCloudUrl (ns_cloudUrl s)) with Some problem => [problem] | None => [] end).

(** The id is a whole number here, or not given.
    @shared/flasher/settings.ts 131-134 nodeIdProblems *)
Definition nodeIdProblems (id : option Z) : list text :=
  match id with
  | None => [u "Enter a node ID"]
  | Some id => if between MIN_NODE_ID MAX_NODE_ID id then [] else [u "Node ID must be 1" ++ [0x2013] ++ u "65535"]
  end.

(** @shared/flasher/settings.ts 140-144 ConsoleCommand *)
Record ConsoleCommand := { cc_line : text; cc_expect : text; cc_display : text }.
(** @shared/flasher/settings.ts 146-146 command *)
Definition command (line expect : text) : ConsoleCommand := {| cc_line := line; cc_expect := expect; cc_display := line |}.
Definition masked (line expect display : text) : ConsoleCommand := {| cc_line := line; cc_expect := expect; cc_display := display |}.

(** Six bullets. *)
Definition BULLET : Z := 0x2022.
Definition MASK : text := replicate 6 BULLET.

(** @shared/flasher/settings.ts 156-177 provisioningCommands *)
Definition provisioningCommands (id : Z) (s : NodeSettings) (directCloud : bool) : list ConsoleCommand :=
  let given (v : text) (c : ConsoleCommand) : list ConsoleCommand := if bool_decide (v = []) then [] else [c] in
  let first := command (u "set id " ++ dec id) (u "id updated") in
  let mode := command (u "set mode " ++ mode_text (ns_mode s)) (u "mode updated") in
  match ns_mode s with
  | Wifi =>
      let url := canonicalCloudUrl (ns_cloudUrl s) in
      [first; mode] ++
      given (ns_ssid s) (command (u "set ssid " ++ ns_ssid s) (u "ssid updated")) ++
      given (ns_password s) (masked (u "set pass " ++ ns_password s) (u "pass updated") (u "set pass " ++ MASK)) ++
      given (ns_gateway s) (command (u "set edges " ++ ns_gateway s) (u "edges updated")) ++
      (if directCloud then
         given url (command (u "set cloud_url " ++ url) (u "cloud_url updated")) ++
         [command (u "set transport " ++ transport_text (ns_transport s)) (u "transport updated")]
       else [])
  | Lora =>
      [first] ++ (if directCloud then [command (u "set transport udp") (u "transport updated")] else []) ++ [mode] ++
      given (ns_gateway s) (command (u "set lora_gw " ++ ns_gateway s) (u "lora_gw updated"))
  end ++
  given (ns_key s) (masked (u "set key " ++ ns_key s) (u "key updated") (u "set key " ++ MASK)) ++
  match ns_frameRate s with Some fps => [command (u "set fps " ++ dec fps) (u "fps updated")] | None => [] end ++
  [command (u "save") (u "saved")].

(** @shared/flasher/settings.ts 184-186 secretsOf *)
Definition secretsOf (s : NodeSettings) : list text := List.filter (fun v => Nat.ltb 0 (length v)) [ns_password s; ns_key s].

(** @shared/flasher/settings.ts 188-192 scrub *)
Definition scrub (t : text) (secrets : list text) : text := fold_left (fun out secret => replace_all secret MASK out) secrets t.

(** ** What a node says of itself *)

(** @shared/flasher/node-console.ts 28-29 NodeInfo *)
Record NodeInfo := { fields : gmap (list Z) (list Z) }.
Definition fieldOf (info : NodeInfo) (name : string) : option text := fields info !! u name.

(** @shared/flasher/node-console.ts 31-31 uid *)
Definition uid (info : NodeInfo) : option text := fieldOf info "uid".
(** @shared/flasher/node-console.ts 32-32 firmware *)
Definition firmware (info : NodeInfo) : option text := fieldOf info "fw".
(** @shared/flasher/node-console.ts 33-36 nodeId *)
Definition nodeId (info : NodeInfo) : option Z := fieldOf info "node_id" ≫= digits.
(** @shared/flasher/node-console.ts 37-40 mode *)
Definition mode (info : NodeInfo) : option UplinkMode :=
  match fieldOf info "mode" with
  | Some m => if bool_decide (m = u "wifi") then Some Wifi else if bool_decide (m = u "lora") then Some Lora else None
  | None => None
  end.
Definition unless_text (absent : string) (v : option text) : option text :=
  match v with Some t => if bool_decide (t = u absent) then None else Some t | None => None end.
(** @shared/flasher/node-console.ts 41-44 ssid *)
Definition ssid (info : NodeInfo) : option text := unless_text "(unset)" (fieldOf info "ssid").
(** @shared/flasher/node-console.ts 45-45 passwordSet *)
Definition passwordSet (info : NodeInfo) : bool := bool_decide (fieldOf info "password" = Some (u "(set)")).
(** @shared/flasher/node-console.ts 46-46 keySet *)
Definition keySet (info : NodeInfo) : bool := bool_decide (fieldOf info "key" = Some (u "(set)")).
(** @shared/flasher/node-console.ts 48-51 edge *)
Definition edge (info : NodeInfo) : option text :=
  match fieldOf info "edges" with
  | None => None
  | Some edges =>
      let first := List.hd [] (split 32 edges) in
      if bool_decide (first = []) || bool_decide (first = u "(none)") then None else Some first
  end.
(** @shared/flasher/node-console.ts 52-55 loraGateway *)
Definition loraGateway (info : NodeInfo) : option text := unless_text "(none)" (fieldOf info "lora_gw").
(** @shared/flasher/node-console.ts 57-59 capabilities *)
Definition capabilities (info : NodeInfo) : list text :=
  List.filter (fun cap => negb (bool_decide (cap = []))) (map trim (split 44 (default [] (fieldOf info "caps")))).
(** @shared/flasher/node-console.ts 61-61 supportsDirectCloud *)
Definition supportsDirectCloud (info : NodeInfo) : bool := includes (u "wss1") (capabilities info).
(** @shared/flasher/node-console.ts 62-62 supportsFrameRate *)
Definition supportsFrameRate (info : NodeInfo) : bool := includes (u "fps1") (capabilities info).
(** @shared/flasher/node-console.ts 64-67 frameRate *)
Definition frameRate (info : NodeInfo) : option Z :=
  match fieldOf info "fps" ≫= toNumber with
  | Some q => List.find (fun n => Qeqb q (inject_Z n)) [1; 2; 4]
  | None => None
  end.
(** @shared/flasher/node-console.ts 69-69 transport *)
Definition transport (info : NodeInfo) : UplinkTransport := if bool_decide (fieldOf info "transport" = Some (u "wss")) then Wss else Udp.
(** @shared/flasher/node-console.ts 70-73 cloudUrl *)
Definition cloudUrl (info : NodeInfo) : option text := unless_text "(none)" (fieldOf info "cloud_url").

(** @shared/flasher/node-console.ts 80-86 parseField *)
Definition parseField (line : text) : option (text * text) :=
  match indexOf 58 line with
  | None => None
  | Some colon =>
      let name := trim (take colon line) in
      if negb (bool_decide (name = [])) && forallb (fun c => a_lower c || (c =? 95)) name then Some (name, trim (drop (S colon) line)) else None
  end.

Definition or_nothing (v : option text) : text := default (u "nothing") v.

(** @shared/flasher/node-console.ts 93-124 verifyNode *)
Definition verifyNode (info : NodeInfo) (id : Z) (s : NodeSettings) : list text * list text :=
  let on (b : bool) (m : text) : list text := if b then [m] else [] in
  let given (v : text) : bool := negb (bool_decide (v = [])) in
  let want := canonicalCloudUrl (ns_cloudUrl s) in
  let noEdge := bool_decide (edge info = None) in
  let common :=
    on (negb (bool_decide (nodeId info = Some id))) (u "node ID reads " ++ or_nothing (fieldOf info "node_id") ++ u ", expected " ++ dec id) ++
    on (negb (bool_decide (mode info = Some (ns_mode s)))) (u "mode reads " ++ or_nothing (fieldOf info "mode") ++ u ", expected " ++ mode_text (ns_mode s)) ++
    match ns_frameRate s with
    | Some fps => on (negb (bool_decide (frameRate info = Some fps))) (u "frame rate reads " ++ or_nothing (fieldOf info "fps") ++ u ", expected " ++ dec fps ++ u " fps")
    | None => []
    end in
  let '(errors, warnings) :=
    match ns_mode s with
    | Wifi =>
        let cloud := bool_decide (ns_transport s = Wss) || bool_decide (transport info = Wss) in
        (on (given (ns_ssid s) && negb (bool_decide (ssid info = Some (ns_ssid s)))) (u "SSID was not stored") ++
         on (given (ns_password s) && negb (passwordSet info)) (u "Wi-Fi password was not stored") ++
         on (given (ns_gateway s) && negb (bool_decide (edge info = Some (ns_gateway s))))
           (u "TMWAccess IP reads " ++ or_nothing (edge info) ++ u ", expected " ++ ns_gateway s) ++
         (if cloud then
            on (negb (bool_decide (transport info = ns_transport s)))
              (u "transport reads " ++ default (u "nothing (old firmware)") (fieldOf info "transport") ++ u ", expected " ++ transport_text (ns_transport s)) ++
            on (given want && negb (bool_decide (cloudUrl info = Some want))) (u "cloud URL reads " ++ or_nothing (cloudUrl info) ++ u ", expected " ++ want) ++
            on (bool_decide (ns_transport s = Wss) && bool_decide (cloudUrl info = None)) (u "no cloud URL on the node: transport wss has nowhere to go")
          else
            on (supportsDirectCloud info && negb (bool_decide (transport info = Udp)))
              (u "transport reads " ++ or_nothing (fieldOf info "transport") ++ u ", expected udp")),
         on (bool_decide (ssid info = None)) (u "no Wi-Fi SSID on the node") ++
         on (negb (passwordSet info)) (u "no Wi-Fi password on the node") ++
         on noEdge (if cloud then u "no TMWAccess IP kept on the node: a USB rollback to UDP will need one"
                    else u "no TMWAccess IP on the node: it has nowhere to send"))
    | Lora =>
        (on (given (ns_gateway s) && negb (bool_decide (loraGateway info = Some (ns_gateway s))))
           (u "TMLAccess IP reads " ++ or_nothing (loraGateway info) ++ u ", expected " ++ ns_gateway s),
         on (bool_decide (loraGateway info = None)) (u "no TMLAccess IP on the node") ++
         [u "this firmware has no LoRa uplink yet: the node stores the settings but sends nothing until it does"])
    end in
  (common ++ errors ++ on (given (ns_key s) && negb (keySet info)) (u "signing key was not stored"),
   warnings ++ on (negb (keySet info)) (u "no signing key: telemetry is unsigned and TMedge will reject it")).

End provision.

(** ** Talking to it *)

(** @shared/flasher/node-console.ts 241-248 Admission *)
Inductive Admission := Registered | Pending | Denied | Failed (reason : text).

(** @shared/flasher/node-console.ts 250-250 ProvisionStage *)
Inductive ProvisionStage := Provisioning | AwaitingApproval | JoiningWifi | ReachingEdge.

(** What the code asks of its surroundings, with the answer it gets: the
    clock, a line written to the link, the next line of the link within a
    time, and the admission of the node by the edge. [Err] is what was thrown. *)
Inductive Input :=
| INow (t : Z)
| IWritten (r : result text unit)
| ILine (r : result text (option text))
| IAdmitted (r : result text Admission).

(** What the code does meanwhile. *)
Inductive Event :=
| Write (line : text)
| Read (timeoutMs : Z)
| Log (line : text)
| StageOf (stage : ProvisionStage)
| Admit (info : NodeInfo).

(** How far it got: a result, an error, or an answer that has not come.
    [Exhausted] is no outcome of the code, see [provision_is_never_cut_short]. *)
Inductive Outcome (A : Type) := Done (a : A) | Throws (message : text) | Waiting | Exhausted.
#[global] Arguments Done {A}.
#[global] Arguments Throws {A}.
#[global] Arguments Waiting {A}.
#[global] Arguments Exhausted {A}.

(** A run on a list of answers: what was done, the outcome, and the answers
    that are left. *)
Definition talk (A : Type) : Type := list Input -> list Event * Outcome A * list Input.

Definition tret {A} (a : A) : talk A := fun ins => ([], Done a, ins).
Definition tthrow {A} (message : text) : talk A := fun ins => ([], Throws message, ins).
Definition tbind {A B} (m : talk A) (k : A -> talk B) : talk B := fun ins =>
  match m ins with
  | (es, Done a, ins') => let '(es', r, ins'') := k a ins' in (es ++ es', r, ins'')
  | (es, Throws e, ins') => (es, Throws e, ins')
  | (es, Waiting, ins') => (es, Waiting, ins')
  | (es, Exhausted, ins') => (es, Exhausted, ins')
  end.
Declare Scope talk_scope.
Delimit Scope talk_scope with talk.
Notation "'do' x <- m ; k" := (tbind m (fun x => k)) (at level 200, x pattern at level 0, m at level 100, k at level 200) : talk_scope.
Open Scope talk_scope.

Definition emit (e : Event) : talk unit := fun ins => ([e], Done tt, ins).
Definition now : talk Z := fun ins => match ins with INow t :: ins' => ([], Done t, ins') | _ => ([], Waiting, ins) end.
Definition answered {A} (r : result text A) : Outcome A := match r with Ok a => Done a | Err e => Throws e end.
Definition write (line : text) : talk unit := fun ins =>
  match ins with IWritten r :: ins' => ([Write line], answered r, ins') | _ => ([Write line], Waiting, ins) end.
Definition readLine (timeoutMs : Z) : talk (option text) := fun ins =>
  match ins with ILine r :: ins' => ([Read timeoutMs], answered r, ins') | _ => ([Read timeoutMs], Waiting, ins) end.
Definition admit_node (info : NodeInfo) : talk Admission := fun ins =>
  match ins with IAdmitted r :: ins' => ([Admit info], answered r, ins') | _ => ([Admit info], Waiting, ins) end.

(** Going round a loop: the body says whether to go on and with what. Each
    round takes an answer, so there is one round more than answers at most. *)
Fixpoint loop_from {S A} (fuel : nat) (body : S -> talk (S + A)) (s : S) : talk A :=
  match fuel with
  | O => fun ins => ([], Exhausted, ins)
  | Datatypes.S fuel' => do next <- body s; match next with inl s' => loop_from fuel' body s' | inr a => tret a end
  end.
Definition loop {S A} (body : S -> talk (S + A)) (s : S) : talk A := fun ins => loop_from (Datatypes.S (length ins)) body s ins.

Section console.
Context {js : JsText}.

Definition LF : Z := 10.
Definition logged (secrets : list text) (line : text) : talk unit := emit (Log (scrub line secrets)).
Definition seconds (ms : Z) : text := dec ((ms + 500) / 1000).

(** The loop that reads [show], on what has been read of a block so far.
    @shared/flasher/node-console.ts 176-185 collectShow *)
Definition collect_line (deadline : Z) (known : gmap (list Z) (list Z)) : talk (gmap (list Z) (list Z) + option NodeInfo) :=
  do at_ <- now;
  do line <- readLine (Z.max 0 (deadline - at_));
  match line with
  | None => tret (inr None)
  | Some line =>
      match parseField line with
      | None => tret (inl known)
      | Some (name, value) =>
          let known := <[name := value]> (if bool_decide (name = u "uid") then ∅ else known) in
          if bool_decide (name = u "boot") && bool_decide (known !! u "uid" <> None) then tret (inr (Some {| fields := known |}))
          else tret (inl known)
      end
  end.

(** @shared/flasher/node-console.ts 173-186 collectShow *)
Definition collectShow (timeoutMs : Z) : talk (option NodeInfo) :=
  do start <- now; loop (collect_line (start + timeoutMs)) ∅.

(** @shared/flasher/node-console.ts 151-156 waitUntilReady *)
Definition ask_show (deadline timeoutMs : Z) (_ : unit) : talk (unit + NodeInfo) :=
  do at_ <- now;
  if at_ <? deadline then
    do _ <- write ([LF] ++ u "show" ++ [LF]);
    do at_ <- now;
    do info <- collectShow (Z.min 1500 (Z.max 100 (deadline - at_)));
    match info with Some info => tret (inr info) | None => tret (inl tt) end
  else tthrow (u "no answer from TMsense firmware within " ++ seconds timeoutMs ++ u " s " ++ [0x2014] ++ u " is it a TMsense, and is its firmware running?").

(** @shared/flasher/node-console.ts 149-157 waitUntilReady *)
Definition waitUntilReady (timeoutMs : Z) : talk NodeInfo :=
  do start <- now; loop (ask_show (start + timeoutMs) timeoutMs) tt.

(** @shared/flasher/node-console.ts 162-162 show *)
Definition discard (quiet : Z) (_ : unit) : talk (unit + unit) :=
  do at_ <- now;
  if at_ <? quiet then
    do at_ <- now;
    do line <- readLine (Z.max 1 (quiet - at_));
    match line with Some _ => tret (inl tt) | None => tret (inr tt) end
  else tret (inr tt).

(** @shared/flasher/node-console.ts 159-167 show *)
Definition show_node (timeoutMs : Z) : talk NodeInfo :=
  do start <- now;
  do _ <- loop (discard (start + 200)) tt;
  do _ <- write (u "show" ++ [LF]);
  do info <- collectShow timeoutMs;
  match info with Some info => tret info | None => tthrow (u "node did not answer `show`") end.

(** @shared/flasher/node-console.ts 135-135 FAILURES *)
Definition FAILURES : list text := [u "invalid"; u "unknown"; u "usage:"; u "SAVE FAILED"; u "line too long"].
(** @shared/flasher/node-console.ts 136-136 BOOT_PREFIXES *)
Definition BOOT_PREFIXES : list text := [u "[boot]"; u "[wifi]"; u "[lora]"; u "[sensor]"; u "[cloud]"].

(** Waiting for the answer to a command: [true] once it has come.
    @shared/flasher/node-console.ts 192-197 run *)
Definition await_answer (deadline : Z) (c : ConsoleCommand) (_ : unit) : talk (unit + bool) :=
  do at_ <- now;
  do line <- readLine (Z.max 0 (deadline - at_));
  match line with
  | None => tret (inr false)
  | Some line =>
      if prefixb (cc_expect c) line then tret (inr true)
      else if existsb (fun failure => prefixb failure line) FAILURES then tthrow (u "node refused `" ++ cc_display c ++ u "`: " ++ line)
      else tret (inl tt)
  end.

(** @shared/flasher/node-console.ts 188-199 run *)
Definition run_command (secrets : list text) (timeoutMs : Z) (c : ConsoleCommand) : talk unit :=
  do _ <- logged secrets ([0x203a; 32] ++ cc_display c);
  do _ <- write (cc_line c ++ [LF]);
  do start <- now;
  do answered <- loop (await_answer (start + timeoutMs) c) tt;
  if answered then tret tt else tthrow (u "no answer to `" ++ cc_display c ++ u "` within " ++ seconds timeoutMs ++ u " s").

(** @shared/flasher/node-console.ts 126-133 BootWatch *)
Record BootWatch := { bw_ip : option text; bw_edgeAccepted : bool; bw_cloudError : option text }.

Fixpoint take_solid (l : text) : text := match l with [] => [] | c :: l' => if white c then [] else c :: take_solid l' end.

(** [/^\[wifi\] connected ip=(\S+)/] *)
Definition joined_ip (line : text) : option text :=
  let p := u "[wifi] connected ip=" in
  if prefixb p line then let ip := take_solid (drop (length p) line) in if bool_decide (ip = []) then None else Some ip else None.

(** @shared/flasher/node-console.ts 211-231 rebootAndWatch *)
Definition watch_line (secrets : list text) (cloudTimeoutMs : Z) (st : Z * BootWatch) : talk (Z * BootWatch + BootWatch) :=
  let '(deadline, watch) := st in
  do at_ <- now;
  do line <- readLine (Z.max 0 (deadline - at_));
  match line with
  | None => tret (inr watch)
  | Some line =>
      match (match bw_ip watch with None => joined_ip line | Some _ => None end) with
      | Some ip =>
          let watch := {| bw_ip := Some ip; bw_edgeAccepted := bw_edgeAccepted watch; bw_cloudError := bw_cloudError watch |} in
          do _ <- logged secrets line;
          if cloudTimeoutMs <=? 0 then tret (inr watch)
          else do at_ <- now; tret (inl (at_ + cloudTimeoutMs, watch))
      | None =>
          if prefixb (u "[cloud] report accepted") line then
            do _ <- logged secrets line;
            tret (inr {| bw_ip := bw_ip watch; bw_edgeAccepted := true; bw_cloudError := bw_cloudError watch |})
          else
            let backoff := u "[cloud] backoff: " in
            let watch :=
              if prefixb backoff line
              then {| bw_ip := bw_ip watch; bw_edgeAccepted := bw_edgeAccepted watch; bw_cloudError := Some (drop (length backoff) line) |}
              else watch in
            do _ <- (if existsb (fun p => prefixb p line) BOOT_PREFIXES then logged secrets line else tret tt);
            tret (inl (deadline, watch))
      end
  end.

(** @shared/flasher/node-console.ts 234-237 reboot *)
Definition reboot (secrets : list text) : talk unit :=
  do _ <- logged secrets ([0x203a; 32] ++ u "reboot"); write (u "reboot" ++ [LF]).

(** @shared/flasher/node-console.ts 206-232 rebootAndWatch *)
Definition rebootAndWatch (secrets : list text) (wifiTimeoutMs cloudTimeoutMs : Z) : talk BootWatch :=
  do _ <- reboot secrets;
  do start <- now;
  loop (watch_line secrets cloudTimeoutMs) (start + wifiTimeoutMs, {| bw_ip := None; bw_edgeAccepted := false; bw_cloudError := None |}).

(** ** Provisioning *)

(** The times are given here, with their defaults already filled in; the flag
    says that the edge is to be asked to admit the node.
    @shared/flasher/node-console.ts 252-270 ProvisionOptions *)
Record ProvisionOptions := { po_bootTimeoutMs : Z; po_wifiTimeoutMs : Z; po_edgeTimeoutMs : Z; po_admit : bool }.

(** @shared/flasher/node-console.ts 272-280 Provisioned *)
Record Provisioned := { pv_info : NodeInfo; pv_ip : option text; pv_edgeAccepted : option bool; pv_admission : option Admission; pv_warnings : list text }.

Fixpoint each {A} (f : A -> talk unit) (l : list A) : talk unit :=
  match l with [] => tret tt | x :: l' => do _ <- f x; each f l' end.

(** [errors.join('; ')] *)
Fixpoint joined (sep : text) (l : list text) : text :=
  match l with [] => [] | [x] => x | x :: l' => x ++ sep ++ joined sep l' end.

(** The edge is asked to admit the node: its answer and what there is to note.
    @shared/flasher/node-console.ts 324-336 provision *)
Definition seek_admission (options : ProvisionOptions) (after : NodeInfo) : talk (option Admission * list text) :=
  match uid after with
  | Some id =>
      if po_admit options && negb (bool_decide (id = [])) then
        do _ <- emit (StageOf AwaitingApproval);
        do admission <- admit_node after;
        match admission with
        | Denied => tthrow (u "TMedge turned down the request to admit " ++ id ++ u ": the node is set up but will not be allowed to connect")
        | Failed reason => tthrow (u "TMedge admission failed: " ++ reason)
        | Pending => tret (Some Pending, [u "TMedge has not admitted " ++ id ++ u " yet " ++ [0x2014] ++
                                            u " the request is waiting in Adoption; the node will connect once somebody approves it"])
        | Registered => tret (Some Registered, [])
        end
      else tret (None, [])
  | None => tret (None, [])
  end.

Definition is_pending (a : option Admission) : bool := match a with Some Pending => true | _ => false end.

(** The node is restarted, and watched as it comes up if it can: the address
    it joined with, whether the edge took a report, and notes.
    @shared/flasher/node-console.ts 338-363 provision *)
Definition come_up (secrets : list text) (settings : NodeSettings) (options : ProvisionOptions) (after : NodeInfo) (admission : option Admission) :
    talk (option text * option bool * list text) :=
  match ssid after with
  | Some name =>
      if bool_decide (ns_mode settings = Wifi) && (0 <? po_wifiTimeoutMs options) then
        do _ <- emit (StageOf JoiningWifi);
        let cloud := bool_decide (transport after = Wss) && (0 <? po_edgeTimeoutMs options) && negb (is_pending admission) in
        do _ <- (if cloud then logged secrets (u "then waiting up to " ++ seconds (po_edgeTimeoutMs options) ++ u " s for TMedge to accept a report") else tret tt);
        do watch <- rebootAndWatch secrets (po_wifiTimeoutMs options) (if cloud then po_edgeTimeoutMs options else 0);
        match bw_ip watch with
        | Some ip =>
            do _ <- logged secrets (u "joined " ++ name ++ u " as " ++ ip);
            if cloud then
              do _ <- emit (StageOf ReachingEdge);
              if bw_edgeAccepted watch then do _ <- logged secrets (u "TMedge accepted a report"); tret (Some ip, Some true, [])
              else tret (Some ip, Some false,
                [u "joined Wi-Fi, but TMedge did not accept a report within " ++ seconds (po_edgeTimeoutMs options) ++ u " s" ++
                 match bw_cloudError watch with
                 | Some e => if bool_decide (e = []) then [] else u " (last error: " ++ e ++ u ")"
                 | None => []
                 end ++ u " " ++ [0x2014] ++ u " the node is not delivering occupancy yet"])
            else tret (Some ip, None, [])
        | None =>
            tret (None, None, [u "did not join " ++ [0x201c] ++ name ++ [0x201d] ++ u " within " ++ seconds (po_wifiTimeoutMs options) ++ u " s " ++
                               [0x2014] ++ u " check the SSID, password and signal"])
        end
      else do _ <- reboot secrets; tret (None, None, [])
  | None => do _ <- reboot secrets; tret (None, None, [])
  end.

(** What is missing in the firmware for these settings.
    @shared/flasher/node-console.ts 312-317 provision *)
Definition incapable (before : NodeInfo) (settings : NodeSettings) : option text :=
  let name := default (u "this firmware") (firmware before) in
  if bool_decide (ns_mode settings = Wifi) && bool_decide (ns_transport settings = Wss) && negb (supportsDirectCloud before)
  then Some (name ++ u " has no direct-to-cloud transport: flash the current TMsense, or choose the local gateway")
  else if bool_decide (ns_frameRate settings <> None) && negb (supportsFrameRate before)
  then Some (name ++ u " has no frame-rate selection: flash TMsense 1.6 or newer, or keep the node's current rate")
  else None.

(** @shared/flasher/node-console.ts 304-366 provision *)
Definition provision (nodeId : Z) (settings : NodeSettings) (options : ProvisionOptions) (secrets : list text) : talk Provisioned :=
  do before <- waitUntilReady (po_bootTimeoutMs options);
  do _ <- logged secrets (u "node " ++ default (u "?") (uid before) ++ u " running " ++ default (u "unknown firmware") (firmware before));
  match incapable before settings with
  | Some message => tthrow message
  | None =>
      do _ <- emit (StageOf Provisioning);
      do _ <- each (run_command secrets 4000) (provisioningCommands nodeId settings (supportsDirectCloud before));
      do after <- show_node 4000;
      let '(errors, warnings) := verifyNode after nodeId settings in
      if negb (bool_decide (errors = [])) then tthrow (u "verification failed: " ++ joined (u "; ") errors)
      else
        do (admission, asked) <- seek_admission options after;
        do (ip, edgeAccepted, up) <- come_up secrets settings options after admission;
        let notes := warnings ++ asked ++ up in
        do _ <- each (fun note => logged secrets ([0x26a0; 0xfe0e; 32] ++ note)) notes;
        tret {| pv_info := after; pv_ip := ip; pv_edgeAccepted := edgeAccepted; pv_admission := admission; pv_warnings := notes |}
  end.

(** @shared/flasher/node-console.ts 293-302 provisionNode *)
Definition provisionNode (nodeId : Z) (settings : NodeSettings) (options : ProvisionOptions) : talk Provisioned := fun ins =>
  let secrets := secretsOf settings in
  match provision nodeId settings options secrets ins with
  | (es, Throws message, ins') => (es, Throws (scrub message secrets), ins')
  | r => r
  end.
End console.

(** ** Masking *)

(** [p] stands somewhere in [l]. *)
Fixpoint within (p l : text) : bool := prefixb p l || match l with [] => false | _ :: l' => within p l' end.

Lemma prefixb_cons x p l : prefixb (x :: p) l = true <-> exists l', l = x :: l' /\ prefixb p l' = true.
Proof.
  unfold prefixb. destruct l as [|y l]; cbn [length take]; rewrite ?bool_decide_eq_true; split.
  - done.
  - by intros (l' & H & _).
  - intros [= -> H]. exists l. by rewrite bool_decide_eq_true.
  - intros (l' & [= -> ->] & H%bool_decide_eq_true). by rewrite H.
Qed.

Lemma prefixb_nil l : prefixb [] l = true.
Proof. unfold prefixb. by destruct l. Qed.

(** A text without bullets that stands at the front of a masked text stood
    there before. *)
Lemma replace_prefix sep p : BULLET ∉ p -> forall l skip, prefixb p (replace_from sep MASK skip l) = true -> prefixb p (drop skip l) = true.
Proof.
  revert sep. induction p as [|c p IHp]; intros sep Hp; [intros; apply prefixb_nil|].
  apply not_elem_of_cons in Hp as [Hc Hp]. induction l as [|x l IHl]; intros skip; [by destruct skip|].
  destruct skip as [|skip]; cbn [replace_from drop]; [|apply IHl].
  destruct (prefixb sep (x :: l)).
  - intros (l' & [= <- _] & _)%prefixb_cons. done.
  - intros (l' & [= <- <-] & H)%prefixb_cons. apply prefixb_cons. exists l. split; [done|]. apply (IHp sep Hp l 0%nat H).
Qed.

Lemma replace_within sep p : p <> [] -> BULLET ∉ p -> forall l skip, within p (replace_from sep MASK skip l) = true -> within p l = true /\ p <> sep.
Proof.
  intros Hne Hp. assert (forall l, within p (MASK ++ l) = within p l) as Hmask.
  { intros l. destruct p as [|c p]; [done|]. apply not_elem_of_cons in Hp as [Hc _].
    assert (forall k, prefixb (c :: p) (BULLET :: k) = false) as Hb.
    { intros k. apply not_true_iff_false. intros (l' & [= <- _] & _)%prefixb_cons. done. }
    unfold MASK. generalize 6%nat as n. induction n as [|n IH]; [done|]. cbn [replicate app within]. by rewrite Hb. }
  assert (within p [] = false) as Hnil by (destruct p; [done|by destruct p]).
  induction l as [|x l IH]; intros skip; cbn [replace_from]; [by rewrite Hnil|].
  cbn [within]. destruct skip as [|skip]; [|intros [Hl Hs]%IH; by rewrite Hl, orb_true_r].
  destruct (prefixb sep (x :: l)) eqn:Es; [rewrite Hmask; intros [Hl Hs]%IH; by rewrite Hl, orb_true_r|].
  cbn [within]. intros [H|H]%orb_true_iff; [|apply IH in H as [Hl Hs]; by rewrite Hl, orb_true_r].
  assert (prefixb p (x :: l) = true) as Hx.
  { apply (replace_prefix sep p Hp (x :: l) 0). cbn [replace_from]. by rewrite Es. }
  rewrite Hx. split; [done|]. intros ->. congruence.
Qed.

Lemma scrub_hides secrets p t : p ∈ secrets -> p <> [] -> BULLET ∉ p -> within p (scrub t secrets) = false.
Proof.
  intros Hin Hne Hp. apply not_true_iff_false. unfold scrub. revert t.
  assert (forall l t, within p t = false -> within p (fold_left (fun out secret => replace_all secret MASK out) l t) = false) as Hkeep.
  { induction l as [|sep l IH]; intros t Ht; [done|]. cbn [fold_left]. apply IH. apply not_true_iff_false. intros [H _]%(replace_within sep p Hne Hp).
    congruence. }
  induction secrets as [|sep l IH]; [by apply elem_of_nil in Hin|]. intros t. cbn [fold_left].
  apply elem_of_cons in Hin as [<-|Hin]; [|by apply IH]. rewrite Hkeep; [done|].
  apply not_true_iff_false. intros [_ H]%(replace_within p p Hne Hp). done.
Qed.

Lemma secretsOf_given s secret : secret ∈ secretsOf s <-> secret <> [] /\ (secret = ns_password s \/ secret = ns_key s).
Proof.
  unfold secretsOf. rewrite list_elem_of_In, filter_In. cbn [In]. split.
  - intros [[<-|[<-|[]]] H]; (split; [by intros E; rewrite E in H|auto]).
  - intros [Hne H]. split; [|by destruct secret]. destruct H; auto.
Qed.

(** ** Runs *)

(** What a run of [m] does: [es] and its outcome satisfy [Q]. *)
Definition runs {A} (m : talk A) (Q : list Event -> Outcome A -> Prop) : Prop :=
  forall ins, let '(es, r, _) := m ins in Q es r.

Definition every_event {A} (P : Event -> Prop) (m : talk A) : Prop := runs m (fun es _ => Forall P es).

Section every_event.
Variable P : Event -> Prop.

Lemma every_ret {A} (a : A) : every_event P (tret a).
Proof. intros ins. constructor. Qed.
Lemma every_throw {A} m : every_event P (@tthrow A m).
Proof. intros ins. constructor. Qed.
Lemma every_now : every_event P now.
Proof. intros [|[] ins]; constructor. Qed.
Lemma every_emit e : P e -> every_event P (emit e).
Proof. intros H ins. by constructor. Qed.
Lemma every_bind {A B} (m : talk A) (k : A -> talk B) : every_event P m -> (forall a, every_event P (k a)) -> every_event P (tbind m k).
Proof.
  intros Hm Hk ins. specialize (Hm ins). unfold tbind. destruct (m ins) as [[es [a|e| |]] ins']; try done.
  specialize (Hk a ins'). destruct (k a ins') as [[es' r] ins'']. by apply Forall_app.
Qed.
Lemma every_loop {S A} (body : S -> talk (S + A)) s : (forall s, every_event P (body s)) -> every_event P (loop body s).
Proof.
  intros Hb ins. unfold loop. generalize (Datatypes.S (length ins)) as fuel. intros fuel. revert s ins.
  induction fuel as [|fuel IH]; intros s ins; [constructor|]. cbn [loop_from].
  apply (every_bind (body s)); [done|]. intros [s'|a]; [intros ins'; apply IH|apply every_ret].
Qed.
Lemma every_each {A} (f : A -> talk unit) l : (forall x, every_event P (f x)) -> every_event P (each f l).
Proof. intros Hf. induction l as [|x l IH]; [apply every_ret|]. cbn [each]. by apply every_bind. Qed.
End every_event.

(** Nothing is logged but what went through [scrub]. *)
Definition scrubbed (secrets : list text) (e : Event) : Prop := match e with Log line => exists t, line = scrub t secrets | _ => True end.

Lemma every_write P line : P (Write line) -> every_event P (write line).
Proof. intros H [|[] ins]; cbn; by repeat constructor. Qed.
Lemma every_read P ms : P (Read ms) -> every_event P (readLine ms).
Proof. intros H [|[] ins]; cbn; by repeat constructor. Qed.
Lemma every_admit P info : P (Admit info) -> every_event P (admit_node info).
Proof. intros H [|[] ins]; cbn; by repeat constructor. Qed.
Lemma scrubbed_logged secrets line : every_event (scrubbed secrets) (logged secrets line).
Proof. apply every_emit. cbn. eauto. Qed.

Create HintDb talk.
#[export] Hint Resolve every_ret every_throw every_now every_emit every_write every_read every_admit every_bind every_loop every_each scrubbed_logged : talk.
#[export] Hint Extern 1 (scrubbed _ _) => exact I : talk.

(** Walk through the code of a program over its binds and its branches. *)
Ltac walk :=
  repeat (intros; match goal with
  | |- context [match ?x with _ => _ end] => lazymatch x with context [match _ with _ => _ end] => fail | _ => destruct x end
  | |- every_event _ (tbind _ _) => apply every_bind
  | |- _ => solve [eauto with talk]
  end).

Section proofs.
Context {js : JsText}.

Lemma collectShow_every P ms : (forall n, P (Read n)) -> every_event P (collectShow ms).
Proof. intros H. unfold collectShow. apply every_bind; [apply every_now|]. intros start. apply every_loop. intros known. unfold collect_line. walk. Qed.

Lemma provision_scrubbed id s options secrets : every_event (scrubbed secrets) (provision id s options secrets).
Proof.
  assert (forall ms, every_event (scrubbed secrets) (collectShow ms)) as Hc by (intros; by apply collectShow_every).
  assert (forall ms, every_event (scrubbed secrets) (waitUntilReady ms)) as Hw.
  { intros ms. unfold waitUntilReady. apply every_bind; [apply every_now|]. intros start. apply every_loop. intros []. unfold ask_show. walk. }
  assert (forall ms, every_event (scrubbed secrets) (show_node ms)) as Hs.
  { intros ms. unfold show_node. apply every_bind; [apply every_now|]. intros start. apply every_bind; [|walk].
    apply every_loop. intros []. unfold discard. walk. }
  assert (forall ms c, every_event (scrubbed secrets) (run_command secrets ms c)) as Hr.
  { intros ms c. unfold run_command. do 3 (apply every_bind; [eauto with talk|intros ?]). apply every_bind; [|walk].
    apply every_loop. intros []. unfold await_answer. walk. }
  assert (every_event (scrubbed secrets) (reboot secrets)) as Hb by (unfold reboot; walk).
  assert (forall a b, every_event (scrubbed secrets) (rebootAndWatch secrets a b)) as Hrb.
  { intros a b. unfold rebootAndWatch. do 2 (apply every_bind; [eauto with talk|intros ?]). apply every_loop.
    intros [deadline watch]. unfold watch_line. walk. }
  unfold provision, seek_admission, come_up. walk.
Qed.

(** C39: What is logged while a node is provisioned, and the message a run fails
    with, never show the Wi-Fi password or the signing key, whatever the node
    prints, however the run goes and wherever in the line the node or the code
    would have put it, as long as the secret does not itself hold the bullet
    that masks are made of. (The warnings that a successful run returns are
    not masked and not claimed here.) *)
Theorem logs_and_failures_are_masked id s options ins secret : secret ∈ secretsOf s -> BULLET ∉ secret ->
  let '(es, r, _) := provisionNode id s options ins in
  (forall line, Log line ∈ es -> within secret line = false) /\ (forall message, r = Throws message -> within secret message = false).
Proof.
  intros Hin Hb. assert (secret <> []) as Hne by (by apply secretsOf_given in Hin as [? _]).
  pose proof (provision_scrubbed id s options (secretsOf s) ins) as H. unfold provisionNode.
  destruct (provision id s options (secretsOf s) ins) as [[es r] ins'].
  assert (forall line, Log line ∈ es -> within secret line = false) as Hlog.
  { intros line Hl. rewrite Forall_forall in H. destruct (H _ Hl) as [t ->]. by apply scrub_hides. }
  destruct r as [p|message| |]; (split; [exact Hlog|]); intros m Hm; try discriminate Hm. injection Hm as <-. by apply scrub_hides.
Qed.

(** ** What is written to the node *)

Definition writes (es : list Event) : list text := omap (fun e => match e with Write line => Some line | _ => None end) es.

Lemma writes_app a b : writes (a ++ b) = writes a ++ writes b.
Proof. apply omap_app. Qed.

(** A run of [m] writes [w], or the first lines of it if it does not get to a
    result. *)
Definition writing {A} (w : list text) (m : talk A) : Prop :=
  runs m (fun es r => writes es `prefix_of` w /\ (forall a, r = Done a -> writes es = w)).

Lemma writing_ret {A} (a : A) : writing [] (tret a).
Proof. intros ins. done. Qed.
Lemma writing_throw {A} m : writing [] (@tthrow A m).
Proof. intros ins. done. Qed.
Lemma writing_now : writing [] now.
Proof. intros [|[] ins]; done. Qed.
Lemma writing_read ms : writing [] (readLine ms).
Proof. intros [|[] ins]; done. Qed.
Lemma writing_admit info : writing [] (admit_node info).
Proof. intros [|[] ins]; done. Qed.
Lemma writing_write line : writing [line] (write line).
Proof. intros [|[] ins]; done. Qed.
Lemma writing_logged secrets line : writing [] (logged secrets line).
Proof. intros ins. done. Qed.
Lemma writing_stage st : writing [] (emit (StageOf st)).
Proof. intros ins. done. Qed.

Lemma writing_bind {A B} w1 w2 (m : talk A) (k : A -> talk B) : writing w1 m -> (forall a, writing w2 (k a)) -> writing (w1 ++ w2) (tbind m k).
Proof.
  intros Hm Hk ins. specialize (Hm ins). unfold tbind. destruct (m ins) as [[es r] ins']. destruct Hm as [Hp Hd].
  destruct r as [a|e| |]; try (split; [by apply prefix_app_r|done]).
  specialize (Hk a ins'). destruct (k a ins') as [[es' r] ins'']. destruct Hk as [Hp' Hd']. rewrite writes_app, (Hd a eq_refl).
  split; [by apply prefix_app|]. intros b Hb. by rewrite (Hd' b Hb).
Qed.

Lemma writing_silent {A B} w (m : talk A) (k : A -> talk B) : writing [] m -> (forall a, writing w (k a)) -> writing w (tbind m k).
Proof. apply (writing_bind [] w). Qed.
Lemma writing_then {A B} w (m : talk A) (k : A -> talk B) : writing w m -> (forall a, writing [] (k a)) -> writing w (tbind m k).
Proof. intros Hm Hk. rewrite <- (app_nil_r w). by apply writing_bind. Qed.

Lemma writing_loop {S A} (body : S -> talk (S + A)) s : (forall s, writing [] (body s)) -> writing [] (loop body s).
Proof.
  intros Hb ins. unfold loop. generalize (Datatypes.S (length ins)) as fuel. intros fuel. revert s ins.
  induction fuel as [|fuel IH]; intros s ins; [done|]. cbn [loop_from].
  apply (writing_silent [] (body s)); [done|]. intros [s'|a]; [intros ins'; apply IH|apply writing_ret].
Qed.

Lemma writing_each {A} (f : A -> talk unit) (w : A -> list text) l : (forall x, writing (w x) (f x)) -> writing (l ≫= w) (each f l).
Proof. intros Hf. induction l as [|x l IH]; [apply writing_ret|]. cbn [each]. by apply (writing_bind (w x)). Qed.

Lemma writing_each_silent {A} (f : A -> talk unit) l : (forall x, writing [] (f x)) -> writing [] (each f l).
Proof. intros Hf. induction l as [|x l IH]; [apply writing_ret|]. cbn [each]. by apply writing_silent. Qed.

Hint Resolve writing_ret writing_throw writing_now writing_read writing_admit writing_write writing_logged writing_stage writing_silent writing_loop writing_each_silent : writing.
Ltac silence :=
  repeat (intros; match goal with
  | |- context [match ?x with _ => _ end] => lazymatch x with context [match _ with _ => _ end] => fail | _ => destruct x end
  | |- writing [] (tbind _ _) => apply writing_silent
  | |- _ => solve [eauto with writing]
  end).

Lemma collectShow_silent ms : writing [] (collectShow ms).
Proof. unfold collectShow. apply writing_silent; [apply writing_now|]. intros start. apply writing_loop. intros known. unfold collect_line. silence. Qed.
Hint Resolve collectShow_silent : writing.

Definition SHOW_TWICE : text := [LF] ++ u "show" ++ [LF].

Lemma waitUntilReady_writes ms : runs (waitUntilReady ms) (fun es _ => exists n, writes es = replicate n SHOW_TWICE).
Proof.
  unfold waitUntilReady. intros ins. unfold tbind. destruct ins as [|[start|?|?|?] ins]; try by exists 0%nat.
  cbn [now]. unfold loop. generalize (Datatypes.S (length ins)) as fuel. generalize (start + ms) as deadline. clear start.
  intros deadline fuel. revert ins. induction fuel as [|fuel IH]; intros ins; [by exists 0%nat|]. cbn [loop_from].
  assert (writing [SHOW_TWICE] (do _ <- write SHOW_TWICE; do at_ <- now; do info <- collectShow (Z.min 1500 (Z.max 100 (deadline - at_)));
    match info with Some info => tret (inr info) | None => tret (@inl unit _ tt) end)) as Hbody.
  { apply writing_then; [apply writing_write|]. silence. }
  unfold ask_show at 1. unfold tbind at 1 2. destruct ins as [|[at_|?|?|?] ins]; try by exists 0%nat. cbn [now].
  destruct (at_ <? deadline); [|by exists 0%nat]. fold SHOW_TWICE. specialize (Hbody ins).
  destruct ((do _ <- write SHOW_TWICE; _) ins) as [[es r] ins']. destruct Hbody as [Hp Hd].
  assert (exists n, writes es = replicate n SHOW_TWICE) as Hes.
  { destruct (writes es) as [|x [|y l]]; [by exists 0%nat| |]; destruct Hp as [k Hk]; cbn in Hk; [|done]. injection Hk as <- _. by exists 1%nat. }
  destruct r as [[[]|info]|e| |]; cbn [app]; try done.
  - specialize (IH ins'). destruct (loop_from fuel _ tt ins') as [[es' r] ins'']. destruct IH as [n Hn]. destruct Hes as [n' Hn'].
    exists (n' + n)%nat. change (writes es' = replicate n SHOW_TWICE) in Hn. change (writes (es ++ es') = replicate (n' + n) SHOW_TWICE). rewrite writes_app, Hn, Hn', replicate_add. done.
  - cbn. rewrite app_nil_r. done.
Qed.

Lemma run_command_writes secrets ms c : writing [cc_line c ++ [LF]] (run_command secrets ms c).
Proof.
  unfold run_command. apply writing_silent; [apply writing_logged|]. intros _. apply writing_then; [apply writing_write|]. intros _.
  apply writing_silent; [apply writing_now|]. intros start. apply writing_silent; [|silence]. apply writing_loop. intros []. unfold await_answer. silence.
Qed.

Lemma show_node_writes ms : writing [u "show" ++ [LF]] (show_node ms).
Proof.
  unfold show_node. apply writing_silent; [apply writing_now|]. intros start. apply writing_silent.
  - apply writing_loop. intros []. unfold discard. silence.
  - intros _. apply writing_then; [apply writing_write|]. silence.
Qed.

Lemma reboot_writes secrets : writing [u "reboot" ++ [LF]] (reboot secrets).
Proof. unfold reboot. apply writing_silent; [apply writing_logged|]. intros _. apply writing_write. Qed.

Lemma rebootAndWatch_writes secrets a b : writing [u "reboot" ++ [LF]] (rebootAndWatch secrets a b).
Proof.
  unfold rebootAndWatch. apply writing_then; [apply reboot_writes|]. intros _. apply writing_silent; [apply writing_now|]. intros start.
  apply writing_loop. intros [deadline watch]. unfold watch_line. silence.
Qed.

Lemma come_up_writes secrets s options after admission : writing [u "reboot" ++ [LF]] (come_up secrets s options after admission).
Proof.
  assert (writing [u "reboot" ++ [LF]] (do _ <- reboot secrets; tret (None : option text, None : option bool, [] : list text))) as Hplain.
  { apply writing_then; [apply reboot_writes|]. silence. }
  unfold come_up. destruct (ssid after) as [name|]; [|exact Hplain]. destruct (bool_decide _ && _); [|exact Hplain].
  apply writing_silent; [apply writing_stage|]. intros _. cbv zeta. apply writing_silent; [silence|]. intros _.
  apply writing_then; [apply rebootAndWatch_writes|]. silence.
Qed.

(** Everything a node that can take the settings is told, once it answers. *)
Definition dialogue (id : Z) (s : NodeSettings) (before : NodeInfo) : list text :=
  map (fun c => cc_line c ++ [LF]) (provisioningCommands id s (supportsDirectCloud before)) ++ [u "show" ++ [LF]; u "reboot" ++ [LF]].

Lemma bind_map {A B} (f : A -> B) l : (l ≫= fun x => [f x]) = map f l.
Proof. induction l as [|x l IH]; [done|]. cbn. by f_equal. Qed.

(** What follows the answer of the node. *)
Definition settle (id : Z) (s : NodeSettings) (options : ProvisionOptions) (secrets : list text) (after : NodeInfo) : talk Provisioned :=
  let '(errors, warnings) := verifyNode after id s in
  if negb (bool_decide (errors = [])) then tthrow (u "verification failed: " ++ joined (u "; ") errors)
  else
    do (admission, asked) <- seek_admission options after;
    do (ip, edgeAccepted, up) <- come_up secrets s options after admission;
    let notes := warnings ++ asked ++ up in
    do _ <- each (fun note => logged secrets ([0x26a0; 0xfe0e; 32] ++ note)) notes;
    tret {| pv_info := after; pv_ip := ip; pv_edgeAccepted := edgeAccepted; pv_admission := admission; pv_warnings := notes |}.

Lemma settle_writes id s options secrets after : writing [u "reboot" ++ [LF]] (settle id s options secrets after).
Proof.
  assert (forall w w', writing [] (@tthrow Provisioned w') -> writing w (@tthrow Provisioned w')) as Hthrow.
  { intros w w' _ ins. split; [apply prefix_nil|done]. }
  unfold settle. destruct (verifyNode after id s) as [errors warnings]. destruct (negb _); [by apply Hthrow, writing_throw|].
  apply writing_silent; [unfold seek_admission; silence|]. intros [admission asked].
  apply writing_then; [apply come_up_writes|]. intros [[ip edgeAccepted] up]. silence.
Qed.

(** What is asked of a node, read back from it. *)
Definition as_asked (info : NodeInfo) (id : Z) (s : NodeSettings) : Prop :=
  nodeId info = Some id /\ mode info = Some (ns_mode s) /\ (forall fps, ns_frameRate s = Some fps -> frameRate info = Some fps) /\
  (ns_key s <> [] -> keySet info = true) /\
  match ns_mode s with
  | Wifi =>
      (ns_ssid s <> [] -> ssid info = Some (ns_ssid s)) /\ (ns_password s <> [] -> passwordSet info = true) /\
      (ns_gateway s <> [] -> edge info = Some (ns_gateway s)) /\ transport info = ns_transport s /\
      (ns_transport s = Wss -> cloudUrl info <> None /\
         (canonicalCloudUrl (ns_cloudUrl s) <> [] -> cloudUrl info = Some (canonicalCloudUrl (ns_cloudUrl s))))
  | Lora => ns_gateway s <> [] -> loraGateway info = Some (ns_gateway s)
  end.

Lemma on_nil (b : bool) (m : text) : (if b then [m] else []) = [] <-> b = false.
Proof. by destruct b. Qed.

Lemma given_false (v : text) b : negb (bool_decide (v = [])) && negb b = false -> v <> [] -> b = true.
Proof. intros H Hv. rewrite bool_decide_eq_false_2 in H by done. by destruct b. Qed.

Lemma wanted_false {A} `{EqDecision A} (a b : A) : negb (bool_decide (a = b)) = false -> a = b.
Proof. by intros H%negb_false%bool_decide_eq_true. Qed.

Lemma verify_ok info id s : fst (verifyNode info id s) = [] -> as_asked info id s.
Proof.
  unfold verifyNode, as_asked. destruct (ns_mode s) eqn:Em; cbn [fst]; rewrite ?app_nil, ?on_nil; intros ((Hid & Hmode & Hfps) & Hrest & Hkey);
    (split; [by apply wanted_false|]); (split; [by apply wanted_false|]); (split; [|split; [by apply given_false|]]).
  - intros fps E. rewrite E, on_nil in Hfps. by apply wanted_false.
  - destruct Hrest as (Hs & Hp & Hg & Ht).
    split; [intros H; eapply bool_decide_eq_true, given_false; done|]. split; [by apply given_false|].
    split; [intros H; eapply bool_decide_eq_true, given_false; done|].
    destruct (bool_decide (ns_transport s = Wss) || bool_decide (transport info = Wss)) eqn:Ec.
    + rewrite !app_nil, !on_nil in Ht. destruct Ht as (Ht & Hw & Hc). split; [by apply wanted_false|]. intros E.
      rewrite (bool_decide_eq_true_2 _ E) in Hc. split; [by apply bool_decide_eq_false in Hc|].
      intros H. eapply bool_decide_eq_true, given_false; done.
    + apply orb_false_iff in Ec as [E1%bool_decide_eq_false E2%bool_decide_eq_false].
      split; [|done]. by destruct (transport info), (ns_transport s).
  - intros fps E. rewrite E, on_nil in Hfps. by apply wanted_false.
  - intros H. eapply bool_decide_eq_true, given_false; done.
Qed.

(** What is true of the result of a run, if there is one. *)
Definition results {A} (m : talk A) (Q : A -> Prop) : Prop := runs m (fun _ r => forall a, r = Done a -> Q a).

Lemma results_bind {A B} (m : talk A) (k : A -> talk B) Q R : results m Q -> (forall a, Q a -> results (k a) R) -> results (tbind m k) R.
Proof.
  intros Hm Hk ins. specialize (Hm ins). unfold tbind. destruct (m ins) as [[es [a|e| |]] ins']; try done.
  specialize (Hk a (Hm a eq_refl) ins'). destruct (k a ins') as [[es' r] ins'']. exact Hk.
Qed.
Lemma results_next {A B} (m : talk A) (k : A -> talk B) R : (forall a, results (k a) R) -> results (tbind m k) R.
Proof. intros H. apply (results_bind m k (fun _ => True)); [|auto]. intros ins. by destruct (m ins) as [[] ?]. Qed.
Lemma results_ret {A} (a : A) (Q : A -> Prop) : Q a -> results (tret a) Q.
Proof. intros H ins b [= <-]. done. Qed.
Lemma results_throw {A} m (Q : A -> Prop) : results (tthrow m) Q.
Proof. intros ins a H. discriminate H. Qed.

(** The answer of the edge is no refusal, and it is asked if it is to be. *)
Definition admitted (options : ProvisionOptions) (after : NodeInfo) (admission : option Admission) : Prop :=
  if po_admit options && bool_decide (default [] (uid after) <> []) then admission = Some Registered \/ admission = Some Pending else admission = None.

Lemma seek_admission_admits options after : results (seek_admission options after) (fun r => admitted options after r.1).
Proof.
  unfold seek_admission, admitted. destruct (uid after) as [id|]; cbn [default]; [|rewrite andb_false_r; by apply results_ret].
  destruct (po_admit options); cbn [andb]; [|by apply results_ret].
  destruct (bool_decide (id = [])) eqn:E; cbn [negb].
  - apply bool_decide_eq_true in E as ->. by apply results_ret.
  - apply bool_decide_eq_false in E. rewrite bool_decide_eq_true_2 by done. apply results_next. intros _. apply results_next.
    intros [| | |reason]; try apply results_throw; apply results_ret; auto.
Qed.

(** An edge is only waited for where the node sends to it, has joined, and is not still to be admitted. *)
Definition watched (after : NodeInfo) (admission : option Admission) (ip : option text) (edgeAccepted : option bool) : Prop :=
  edgeAccepted <> None -> transport after = Wss /\ admission <> Some Pending /\ ip <> None.

Lemma come_up_watches secrets s options after admission :
  results (come_up secrets s options after admission) (fun r => watched after admission r.1.1 r.1.2).
Proof.
  assert (results (do _ <- reboot secrets; tret (None : option text, None : option bool, [] : list text)) (fun r => watched after admission r.1.1 r.1.2)) as Hplain.
  { apply results_next. intros _. by apply results_ret. }
  unfold come_up. destruct (ssid after) as [name|]; [|exact Hplain]. destruct (bool_decide _ && _); [|exact Hplain].
  apply results_next. intros _. cbv zeta. apply results_next. intros _. apply results_next. intros watch.
  destruct (bw_ip watch) as [ip|]; [|by apply results_ret]. apply results_next. intros _.
  destruct (bool_decide (transport after = Wss) && _ && _) eqn:Ec; [|by apply results_ret].
  apply andb_true_iff in Ec as [[Et _]%andb_true_iff Ep]. apply bool_decide_eq_true in Et.
  assert (forall b, watched after admission (Some ip) (Some b)) as Hw.
  { intros b _. split_and!; [done| |done]. by intros ->. }
  apply results_next. intros _. destruct (bw_edgeAccepted watch); [apply results_next; intros _|]; apply results_ret, Hw.
Qed.

Lemma settle_results id s options secrets after : results (settle id s options secrets after) (fun p =>
  pv_info p = after /\ as_asked after id s /\ admitted options after (pv_admission p) /\ watched after (pv_admission p) (pv_ip p) (pv_edgeAccepted p)).
Proof.
  unfold settle. pose proof (verify_ok after id s) as Hv. destruct (verifyNode after id s) as [errors warnings]. cbn [fst] in Hv.
  case_bool_decide as E; cbn [negb]; [|apply results_throw]. specialize (Hv E).
  eapply results_bind; [apply seek_admission_admits|]. intros [admission asked] Ha.
  eapply results_bind; [apply come_up_watches|]. intros [[ip edgeAccepted] up] Hw. apply results_next. intros _. by apply results_ret.
Qed.

(** *** What the node said *)

(** The answers [m] takes, and its result if there is one. *)
Definition takes {A} (m : talk A) (Q : list Input -> A -> Prop) : Prop :=
  forall ins, let '(_, r, ins') := m ins in exists t, ins = t ++ ins' /\ forall a, r = Done a -> Q t a.
Definition anything {A} (_ : list Input) (_ : A) : Prop := True.

Lemma takes_bind {A B} (m : talk A) (k : A -> talk B) Q R : takes m Q -> (forall a t, Q t a -> takes (k a) (fun t' => R (t ++ t'))) -> takes (tbind m k) R.
Proof.
  intros Hm Hk ins. specialize (Hm ins). unfold tbind. destruct (m ins) as [[es r] ins']. destruct Hm as (t & -> & Hq).
  destruct r as [a|e| |]; try (by exists t). specialize (Hk a t (Hq a eq_refl) ins'). destruct (k a ins') as [[es' r] ins'']. destruct Hk as (t' & -> & Hr).
  exists (t ++ t'). by rewrite app_assoc.
Qed.
Lemma takes_mono {A} (m : talk A) (Q R : list Input -> A -> Prop) : takes m Q -> (forall t a, Q t a -> R t a) -> takes m R.
Proof. intros Hm H ins. specialize (Hm ins). destruct (m ins) as [[es r] ins']. destruct Hm as (t & Ht & Hq). exists t. eauto. Qed.
Lemma takes_ret {A} (a : A) (Q : list Input -> A -> Prop) : Q [] a -> takes (tret a) Q.
Proof. intros H ins. exists []. split; [done|]. by intros b [= <-]. Qed.
Lemma takes_throw {A} m (Q : list Input -> A -> Prop) : takes (tthrow m) Q.
Proof. intros ins. by exists []. Qed.
Lemma takes_now (Q : list Input -> Z -> Prop) : (forall at_, Q [INow at_] at_) -> takes now Q.
Proof. intros H [|[at_| | |] ins]; cbn; try (by exists []). exists [INow at_]. split; [done|]. by intros x [= <-]. Qed.
Lemma takes_emit e : takes (emit e) anything.
Proof. intros ins. by exists []. Qed.
Lemma takes_write line : takes (write line) anything.
Proof. intros [|[|r| |] ins]; try (by exists []). by exists [IWritten r]. Qed.
Lemma takes_admit info : takes (admit_node info) anything.
Proof. intros [|[| | |r] ins]; try (by exists []). by exists [IAdmitted r]. Qed.
Lemma takes_read ms (Q : list Input -> option text -> Prop) : (forall line, Q [ILine (Ok line)] line) -> takes (readLine ms) Q.
Proof. intros H [|[| |r|] ins]; try (by exists []). exists [ILine r]. split; [done|]. destruct r as [l|e]; cbn; intros x [= <-]; apply H. Qed.
Lemma takes_next {A B} (m : talk A) (k : A -> talk B) R : takes m anything -> (forall a t, takes (k a) (fun t' => R (t ++ t'))) -> takes (tbind m k) R.
Proof. intros Hm Hk. by eapply takes_bind. Qed.
Lemma takes_any_bind {A B} (m : talk A) (k : A -> talk B) : takes m anything -> (forall a, takes (k a) anything) -> takes (tbind m k) anything.
Proof. intros Hm Hk. by apply takes_next. Qed.

(** A loop comes to the end of its last round. *)
Lemma takes_loop {S A} (body : S -> talk (S + A)) s (Q : list Input -> A -> Prop) : (forall t t' a, Q t' a -> Q (t ++ t') a) ->
  (forall s, takes (body s) (fun t x => match x with inl _ => True | inr a => Q t a end)) -> takes (loop body s) Q.
Proof.
  intros Hq Hb ins. unfold loop. generalize (Datatypes.S (length ins)) as fuel. intros fuel. revert s ins.
  induction fuel as [|fuel IH]; intros s ins; [by exists []|]. cbn [loop_from].
  apply (takes_bind (body s) _ _ Q (Hb s)). intros [s'|a] t Ht ins'.
  - specialize (IH s' ins'). destruct (loop_from fuel body s' ins') as [[es r] ins'']. destruct IH as (t' & -> & Hr). exists t'. eauto.
  - exists []. split; [done|]. rewrite app_nil_r. by intros b [= <-].
Qed.
Lemma takes_any_loop {S A} (body : S -> talk (S + A)) s : (forall s, takes (body s) anything) -> takes (loop body s) anything.
Proof. intros Hb. apply takes_loop; [done|]. intros s'. eapply takes_mono; [apply Hb|]. by intros t []. Qed.
Lemma takes_any_each {A} (f : A -> talk unit) l : (forall x, takes (f x) anything) -> takes (each f l) anything.
Proof. intros Hf. induction l as [|x l IH]; [by apply takes_ret|]. by apply takes_any_bind. Qed.
Lemma takes_any_now : takes now anything.
Proof. by apply takes_now. Qed.
Lemma takes_any_read ms : takes (readLine ms) anything.
Proof. by apply takes_read. Qed.
Lemma takes_any_ret {A} (a : A) : takes (tret a) anything.
Proof. by apply takes_ret. Qed.
Lemma takes_any_throw {A} m : takes (@tthrow A m) anything.
Proof. apply takes_throw. Qed.
Lemma takes_any_logged secrets line : takes (logged secrets line) anything.
Proof. apply takes_emit. Qed.

Hint Resolve takes_any_ret takes_any_throw takes_any_now takes_emit takes_write takes_any_read takes_admit takes_any_logged takes_any_each takes_any_loop : takes.
Ltac take_all :=
  repeat (intros; match goal with
  | |- context [match ?x with _ => _ end] => lazymatch x with context [match _ with _ => _ end] => fail | _ => destruct x end
  | |- takes (tbind _ _) anything => apply takes_any_bind
  | |- _ => solve [eauto with takes]
  end).

(** The lines that came, and the fields of a block of them: a [uid] starts anew. *)
Definition lines_of (t : list Input) : list text := omap (fun i => match i with ILine (Ok line) => line | _ => None end) t.
Definition add_line (known : gmap (list Z) (list Z)) (line : text) : gmap (list Z) (list Z) :=
  match parseField line with Some (name, value) => <[name := value]> (if bool_decide (name = u "uid") then ∅ else known) | None => known end.

(** [info] is what the last lines of [t] say, up to the one with [boot]. *)
Definition heard (t : list Input) (info : NodeInfo) : Prop :=
  exists before block line boot, lines_of t = before ++ block ++ [line] /\ parseField line = Some (u "boot", boot) /\
    fields info = fold_left add_line (block ++ [line]) ∅ /\ uid info <> None.

Lemma lines_app a b : lines_of (a ++ b) = lines_of a ++ lines_of b.
Proof. apply omap_app. Qed.
Lemma heard_later t t' info : heard t' info -> heard (t ++ t') info.
Proof. intros (l & block & line & boot & E & H). exists (lines_of t ++ l), block, line, boot. rewrite lines_app, E, app_assoc. done. Qed.

Lemma collect_line_takes deadline known : takes (collect_line deadline known) (fun t x =>
  match x with
  | inl known' => exists ls, lines_of t = ls /\ known' = fold_left add_line ls known
  | inr (Some info) => exists line boot, lines_of t = [line] /\ parseField line = Some (u "boot", boot) /\ fields info = add_line known line /\ uid info <> None
  | inr None => True
  end).
Proof.
  unfold collect_line. apply (takes_bind _ _ (fun t _ => lines_of t = [])); [by apply takes_now|]. intros at_ t0 H0.
  apply (takes_bind _ _ (fun t line => lines_of t = option_list line)); [apply takes_read; by intros []|]. intros [line|] t1 H1; [|by apply takes_ret].
  destruct (parseField line) as [[name value]|] eqn:Ep.
  - destruct (bool_decide (name = u "boot") && _) eqn:Eb; apply takes_ret; rewrite !lines_app, H0, H1; cbn.
    + apply andb_true_iff in Eb as [->%bool_decide_eq_true Hu%bool_decide_eq_true]. exists line, value. unfold add_line. rewrite Ep. done.
    + exists [line]. split; [done|]. cbn. unfold add_line. by rewrite Ep.
  - apply takes_ret. rewrite !lines_app, H0, H1. exists [line]. split; [done|]. cbn. unfold add_line. by rewrite Ep.
Qed.

Lemma collectShow_takes ms : takes (collectShow ms) (fun t r => forall info, r = Some info -> heard t info).
Proof.
  unfold collectShow. apply takes_next; [apply takes_any_now|]. intros start t0 ins. unfold loop. generalize (Datatypes.S (length ins)) as fuel. intros fuel.
  assert (forall known, takes (loop_from fuel (collect_line (start + ms)) known) (fun t r => forall info, r = Some info ->
    exists ls line boot, lines_of t = ls ++ [line] /\ parseField line = Some (u "boot", boot) /\ fields info = fold_left add_line (ls ++ [line]) known /\ uid info <> None)) as H.
  { clear ins. induction fuel as [|fuel IH]; intros known; [intros ins; by exists []|]. cbn [loop_from].
    eapply takes_bind; [apply collect_line_takes|]. intros [known'|[info|]] t Ht; [|apply takes_ret; intros info' [= <-]|by apply takes_ret].
    - destruct Ht as (ls & E & ->). eapply takes_mono; [apply IH|]. intros t' r H info Hi. destruct (H info Hi) as (ls' & line & boot & E' & Hp & Hf & Hu).
      exists (ls ++ ls'), line, boot. rewrite lines_app, E, E', <- !app_assoc. split_and!; [done|done|by rewrite Hf, !fold_left_app|done].
    - destruct Ht as (line & boot & E & Hp & Hf & Hu). exists [], line, boot. rewrite app_nil_r. done. }
  specialize (H ∅ ins). destruct (loop_from fuel _ ∅ ins) as [[es r] ins']. destruct H as (t & -> & H). exists t. split; [done|].
  intros a Ha info Hi. destruct (H a Ha info Hi) as (ls & line & boot & E & H'). apply heard_later. exists [], ls, line, boot. done.
Qed.

Lemma waitUntilReady_takes ms : takes (waitUntilReady ms) heard.
Proof.
  unfold waitUntilReady. apply takes_next; [apply takes_any_now|]. intros start t0. eapply takes_mono; [|by intros t a; apply heard_later].
  apply takes_loop; [by intros t t' a; apply heard_later|]. intros []. unfold ask_show. apply takes_next; [apply takes_any_now|]. intros at_ t1.
  destruct (at_ <? _); [|apply takes_throw]. do 2 (apply takes_next; [eauto with takes|intros ? ?]). eapply takes_bind; [apply collectShow_takes|].
  intros [info|] t9 H; apply takes_ret; [|done]. rewrite app_nil_r. do 3 apply heard_later. by apply H.
Qed.

Lemma show_node_takes ms : takes (show_node ms) heard.
Proof.
  unfold show_node. apply takes_next; [apply takes_any_now|]. intros start t0. apply takes_next; [apply takes_any_loop; intros []; unfold discard; take_all|]. intros [] t1.
  apply takes_next; [apply takes_write|]. intros [] t2. eapply takes_bind; [apply collectShow_takes|].
  intros [info|] t H; [apply takes_ret|apply takes_throw]. rewrite app_nil_r. do 3 apply heard_later. by apply H.
Qed.

Lemma run_command_takes secrets ms c : takes (run_command secrets ms c) anything.
Proof.
  unfold run_command. do 3 (apply takes_any_bind; [eauto with takes|intros ?]). apply takes_any_bind; [|take_all].
  apply takes_any_loop. intros []. unfold await_answer. take_all.
Qed.

Lemma settle_takes id s options secrets after : takes (settle id s options secrets after) anything.
Proof.
  assert (takes (reboot secrets) anything) as Hb by (unfold reboot; take_all).
  assert (forall a b, takes (rebootAndWatch secrets a b) anything) as Hrb.
  { intros a b. unfold rebootAndWatch. do 2 (apply takes_any_bind; [eauto with takes|intros ?]). apply takes_any_loop. intros [deadline watch]. unfold watch_line. take_all. }
  unfold settle, seek_admission, come_up. take_all.
Qed.

(** What a firmware must be able to do for the settings. *)
Definition able (info : NodeInfo) (s : NodeSettings) : Prop :=
  (ns_mode s = Wifi -> ns_transport s = Wss -> u "wss1" ∈ capabilities info) /\ (ns_frameRate s <> None -> u "fps1" ∈ capabilities info).

Lemma incapable_able info s : incapable info s = None <-> able info s.
Proof.
  unfold incapable, able, supportsDirectCloud, supportsFrameRate. split.
  - intros H. destruct (_ && _ && _) eqn:E1 in H; [done|]. destruct (_ && negb _) eqn:E2 in H; [done|]. split.
    + intros Hm Ht. rewrite (bool_decide_eq_true_2 _ Hm), (bool_decide_eq_true_2 _ Ht) in E1. by apply includes_true, negb_false.
    + intros Hf. rewrite (bool_decide_eq_true_2 _ Hf) in E2. by apply includes_true, negb_false.
  - intros [H1 H2]. destruct (bool_decide (ns_mode s = Wifi)) eqn:Em; cbn [andb].
    + destruct (bool_decide (ns_transport s = Wss)) eqn:Et; cbn [andb].
      * bprop. rewrite (proj2 (includes_true _ _)) by auto. cbn [negb]. destruct (bool_decide (ns_frameRate s <> None)) eqn:Ef; [|done]. bprop. by rewrite (proj2 (includes_true _ _)) by auto.
      * destruct (bool_decide (ns_frameRate s <> None)) eqn:Ef; [|done]. bprop. by rewrite (proj2 (includes_true _ _)) by auto.
    + destruct (bool_decide (ns_frameRate s <> None)) eqn:Ef; [|done]. bprop. by rewrite (proj2 (includes_true _ _)) by auto.
Qed.

(** The run once the node has answered. *)
Definition proceed (id : Z) (s : NodeSettings) (options : ProvisionOptions) (secrets : list text) (before : NodeInfo) : talk Provisioned :=
  do _ <- logged secrets (u "node " ++ default (u "?") (uid before) ++ u " running " ++ default (u "unknown firmware") (firmware before));
  match incapable before s with
  | Some message => tthrow message
  | None =>
      do _ <- emit (StageOf Provisioning);
      do _ <- each (run_command secrets 4000) (provisioningCommands id s (supportsDirectCloud before));
      do after <- show_node 4000; settle id s options secrets after
  end.

Lemma proceed_writes id s options secrets before : able before s -> writing (dialogue id s before) (proceed id s options secrets before).
Proof.
  intros Hi%incapable_able. unfold proceed. rewrite Hi. apply writing_silent; [apply writing_logged|]. intros _.
  apply writing_silent; [apply writing_stage|]. intros _. unfold dialogue. rewrite <- bind_map.
  apply writing_bind; [apply writing_each; intros c; apply run_command_writes|]. intros _.
  apply (writing_bind [_] [_]); [apply show_node_writes|]. intros after. apply settle_writes.
Qed.

Lemma proceed_refuses id s options secrets before : ~ able before s -> runs (proceed id s options secrets before) (fun es r => writes es = [] /\ exists message, r = Throws message).
Proof.
  intros Hi ins. unfold proceed. destruct (incapable before s) as [message|] eqn:E; [|by apply incapable_able in E].
  unfold tbind, logged, emit, tthrow. cbn. eauto.
Qed.

Lemma proceed_results id s options secrets before : results (proceed id s options secrets before) (fun p => as_asked (pv_info p) id s /\
  admitted options (pv_info p) (pv_admission p) /\ watched (pv_info p) (pv_admission p) (pv_ip p) (pv_edgeAccepted p)).
Proof.
  unfold proceed. apply results_next. intros _. destruct (incapable before s); [apply results_throw|].
  do 3 (apply results_next; intros ?). intros ins'. pose proof (settle_results id s options secrets a1 ins') as H.
  destruct (settle id s options secrets a1 ins') as [[es r] ins'']. intros p Hp. destruct (H p Hp) as (-> & ? & ? & ?). done.
Qed.

Lemma proceed_takes id s options secrets before : takes (proceed id s options secrets before) (fun t p => exists t' t'', t = t' ++ t'' /\ heard t' (pv_info p)).
Proof.
  unfold proceed. apply takes_next; [apply takes_any_logged|]. intros _ t0. destruct (incapable before s); [apply takes_throw|].
  apply takes_next; [apply takes_emit|]. intros _ t1. apply takes_next; [apply takes_any_each; intros c; apply run_command_takes|]. intros _ t2.
  eapply takes_bind; [apply show_node_takes|]. intros after t3 Ha ins. pose proof (settle_takes id s options secrets after ins) as Ht. pose proof (settle_results id s options secrets after ins) as Hr.
  destruct (settle id s options secrets after ins) as [[es r] ins']. destruct Ht as (t4 & -> & _). exists t4. split; [done|]. intros p Hp. destruct (Hr p Hp) as (-> & _).
  exists (t0 ++ t1 ++ t2 ++ t3), t4. split; [by rewrite !app_assoc|]. by do 3 apply heard_later.
Qed.


(** ** No run is cut short *)

(** [m] comes to an outcome of the code, and its result takes [k] answers. *)
Definition steady {A} (k : nat) (m : talk A) : Prop := forall ins, let '(_, r, ins') := m ins in
  r <> Exhausted /\ forall a, r = Done a -> (length ins' + k <= length ins)%nat.

Lemma steady_ret {A} (a : A) : steady 0 (tret a).
Proof. intros ins. split; [done|]. lia. Qed.
Lemma steady_throw {A} m k : steady k (@tthrow A m).
Proof. intros ins. done. Qed.
Lemma steady_emit e : steady 0 (emit e).
Proof. intros ins. split; [done|]. lia. Qed.
Lemma steady_now : steady 1 now.
Proof. intros [|[] ins]; (split; [done|]); intros ? [=]; cbn; lia. Qed.
Lemma steady_read ms : steady 1 (readLine ms).
Proof. intros [|[| |[]|] ins]; (split; [done|]); intros ? [=]; cbn; lia. Qed.
Lemma steady_write line : steady 1 (write line).
Proof. intros [|[|[]| |] ins]; (split; [done|]); intros ? [=]; cbn; lia. Qed.
Lemma steady_admit info : steady 1 (admit_node info).
Proof. intros [|[| | |[]] ins]; (split; [done|]); intros ? [=]; cbn; lia. Qed.
Lemma steady_bind {A B} i j k (m : talk A) (f : A -> talk B) : steady i m -> (forall a, steady j (f a)) -> (k <= i + j)%nat -> steady k (tbind m f).
Proof.
  intros Hm Hf Hk ins. specialize (Hm ins). unfold tbind. destruct (m ins) as [[es [a|e| |]] ins']; try by destruct Hm.
  destruct Hm as [_ Hm]. specialize (Hm a eq_refl). specialize (Hf a ins'). destruct (f a ins') as [[es' r] ins''].
  destruct Hf as [Hr Hf]. split; [done|]. intros b Hb. specialize (Hf b Hb). lia.
Qed.
Lemma steady_weaken {A} k (m : talk A) : steady k m -> steady 0 m.
Proof. intros H ins. specialize (H ins). destruct (m ins) as [[es r] ins']. destruct H as [? H]. split; [done|]. intros a Ha. specialize (H a Ha). lia. Qed.

(** There is a round left for every answer: the fuel is enough. *)
Lemma steady_loop {S A} (body : S -> talk (S + A)) s : (forall s, steady 1 (body s)) -> steady 0 (loop body s).
Proof.
  intros Hb ins. unfold loop. assert (length ins < Datatypes.S (length ins))%nat as Hle by lia. revert Hle.
  generalize (Datatypes.S (length ins)) as fuel. intros fuel. revert s ins. induction fuel as [|fuel IH]; intros s ins Hle; [lia|].
  cbn [loop_from]. unfold tbind. specialize (Hb s ins). destruct (body s ins) as [[es r] ins']. destruct Hb as [Hr Hb].
  destruct r as [[s'|a]|e| |]; try done.
  - specialize (Hb _ eq_refl). specialize (IH s' ins' ltac:(lia)). destruct (loop_from fuel body s' ins') as [[es' r] ins''].
    destruct IH as [? IH]. split; [done|]. intros a Ha. specialize (IH a Ha). lia.
  - specialize (Hb _ eq_refl). cbn. split; [done|]. intros; lia.
Qed.
Lemma steady_each {A} (f : A -> talk unit) l : (forall x, steady 0 (f x)) -> steady 0 (each f l).
Proof. intros Hf. induction l as [|x l IH]; [apply steady_ret|]. cbn [each]. by eapply steady_bind. Qed.

Hint Resolve steady_ret steady_throw steady_emit steady_now steady_read steady_write steady_admit steady_loop steady_each : steady.
Hint Extern 2 (steady 0 now) => exact (steady_weaken 1 _ steady_now) : steady.
Hint Extern 2 (steady 0 (readLine _)) => exact (steady_weaken 1 _ (steady_read _)) : steady.
Hint Extern 2 (steady 0 (write _)) => exact (steady_weaken 1 _ (steady_write _)) : steady.
Hint Extern 2 (steady 0 (admit_node _)) => exact (steady_weaken 1 _ (steady_admit _)) : steady.
Ltac steadily :=
  repeat (intros; match goal with
  | |- context [match ?x with _ => _ end] => lazymatch x with context [match _ with _ => _ end] => fail | _ => destruct x end
  | |- steady 0 (tbind _ _) => eapply (steady_bind 0 0); [| |lia]
  | |- steady 1 (tbind now _) => eapply (steady_bind 1 0); [apply steady_now| |lia]
  | |- _ => solve [unfold logged; eauto with steady]
  end).

Lemma collectShow_steady ms : steady 0 (collectShow ms).
Proof.
  unfold collectShow. eapply (steady_bind 0 0); [eauto with steady| |lia]. intros start. apply steady_loop. intros known. unfold collect_line. steadily.
Qed.

(** Provisioning is never cut short by the bound on its loops. *)
Theorem provision_is_never_cut_short id s options ins :
  let '(_, r, _) := provisionNode id s options ins in r <> Exhausted.
Proof.
  assert (forall ms, steady 0 (waitUntilReady ms)) as Hw.
  { intros ms. unfold waitUntilReady. eapply (steady_bind 0 0); [eauto with steady| |lia]. intros start. apply steady_loop. intros []. unfold ask_show. pose proof collectShow_steady. steadily. }
  assert (forall ms, steady 0 (show_node ms)) as Hs.
  { intros ms. unfold show_node. pose proof collectShow_steady. eapply (steady_bind 0 0); [steadily| |lia]. intros start.
    eapply (steady_bind 0 0); [|steadily|lia]. apply steady_loop. intros []. unfold discard. steadily. }
  assert (forall secrets ms c, steady 0 (run_command secrets ms c)) as Hr.
  { intros secrets ms c. unfold run_command. do 3 (eapply (steady_bind 0 0); [steadily| |lia]; intros ?). eapply (steady_bind 0 0); [|steadily|lia].
    apply steady_loop. intros []. unfold await_answer. steadily. }
  assert (forall secrets, steady 0 (reboot secrets)) as Hb by (intros; unfold reboot; steadily).
  assert (forall secrets a b, steady 0 (rebootAndWatch secrets a b)) as Hrb.
  { intros secrets a b. unfold rebootAndWatch. do 2 (eapply (steady_bind 0 0); [steadily| |lia]; intros ?). apply steady_loop.
    intros [deadline watch]. unfold watch_line. steadily. }
  assert (steady 0 (provision id s options (secretsOf s))) as H by (unfold provision, seek_admission, come_up; steadily).
  unfold provisionNode. specialize (H ins). destruct (provision id s options (secretsOf s) ins) as [[es r] ins']. destruct H as [H _]. by destruct r.
Qed.

(** ** What a console line can hold *)

Definition fits (l : text) : Prop := Forall (fun c => a_control c = false) l /\ utf8_length l < 160.

Lemma utf8_ascii_app p l : forallb (between 32 126) p = true -> utf8_length (p ++ l) = Z.of_nat (length p) + utf8_length l.
Proof.
  induction p as [|c p IH]; [done|]. cbn [forallb app utf8_length length]. intros [Hc Hp]%andb_true_iff. unfold between in Hc.
  rewrite (proj2 (Z.ltb_lt c 0x80)) by lia. rewrite IH by done. lia.
Qed.

Lemma printable_plain c : between 32 126 c = true -> a_control c = false.
Proof. unfold between, a_control, between. lia. Qed.

Lemma fits_after p l n : forallb (between 32 126) p = true -> existsb a_control l = false -> utf8_length l <= n ->
  Z.of_nat (length p) + n < 160 -> fits (p ++ l).
Proof.
  intros Hp Hc Hl Hn. split; [|rewrite utf8_ascii_app by done; lia]. apply Forall_app. split; apply Forall_forall; intros c Hin.
  - rewrite forallb_forall in Hp. apply printable_plain, Hp. by apply list_elem_of_In.
  - destruct (a_control c) eqn:E; [|done]. apply not_true_iff_false in Hc. contradict Hc. apply existsb_exists. exists c.
    split; [by apply list_elem_of_In|done].
Qed.

Lemma utf8_printable l : forallb (between 32 126) l = true -> existsb a_control l = false /\ utf8_length l = Z.of_nat (length l).
Proof.
  intros H. split; [|rewrite <- (app_nil_r l) at 1; rewrite utf8_ascii_app by done; cbn; lia].
  apply not_true_iff_false. intros (c & Hin & Hc)%existsb_exists. rewrite forallb_forall in H. by rewrite (printable_plain c) in Hc by auto.
Qed.

Lemma split_parts c l : Z.of_nat (length l) + 1 = fold_right (fun w n => Z.of_nat (length w) + 1 + n) 0 (split c l) /\
  forall x, x ∈ l -> x = c \/ exists w, w ∈ split c l /\ x ∈ w.
Proof.
  induction l as [|y l [IH1 IH2]]; cbn [split length]; [split; [done|by intros x ?%elem_of_nil]|].
  destruct (y =? c) eqn:E.
  - cbn [fold_right length]. split; [lia|]. intros x [->|Hx]%elem_of_cons; [left; lia|].
    destruct (IH2 x Hx) as [|(w & Hw & Hxw)]; [by left|]. right. exists w. split; [by right|done].
  - destruct (split c l) as [|w ws]; cbn [fold_right length] in *; [lia|]. split; [lia|].
    intros x [->|Hx]%elem_of_cons; [right; exists (y :: w); split; left|].
    destruct (IH2 x Hx) as [|(w' & [->|Hw]%elem_of_cons & Hxw)]; [by left| |].
    + right. exists (y :: w). split; [left|by right].
    + right. exists w'. split; [by right|done].
Qed.

Lemma octet_short part : octet part = true -> (length part <= 3)%nat /\ forallb a_digit part = true.
Proof.
  destruct part as [|d rest]; [done|]. unfold octet. intros [[E%bool_decide_eq_true|H]%orb_true_iff _]%andb_true_iff; [injection E as -> ->; split; [cbn; lia|done]|].
  apply andb_true_iff in H as [[Hd Hr]%andb_true_iff Hn%Nat.leb_le]. cbn [length forallb]. rewrite Hr, andb_true_r. split; [lia|].
  unfold a_digit, between in *. lia.
Qed.

Lemma address_short l : isIPv4 l = true -> forallb (between 32 126) l = true /\ (length l <= 15)%nat.
Proof.
  unfold isIPv4. destruct (split_parts 46 l) as [Hlen Hin]. intros [H4%Nat.eqb_eq Ho]%andb_true_iff. rewrite forallb_forall in Ho.
  assert (forall w, w ∈ split 46 l -> (length w <= 3)%nat /\ forallb a_digit w = true) as Hw by (intros w Hw%list_elem_of_In; by apply octet_short, Ho).
  split.
  - apply forallb_forall. intros c Hc%list_elem_of_In. destruct (Hin c Hc) as [->|(w & Hws & Hcw%list_elem_of_In)]; [done|].
    destruct (Hw w Hws) as [_ Hd]. rewrite forallb_forall in Hd. specialize (Hd c Hcw). unfold a_digit, between in *. lia.
  - destruct (split 46 l) as [|a [|b [|c [|d [|e ws]]]]]; try discriminate H4. cbn [fold_right] in Hlen.
    assert (length a <= 3 /\ length b <= 3 /\ length c <= 3 /\ length d <= 3)%nat as (? & ? & ? & ?).
    { split_and!; apply Hw; rewrite !elem_of_cons; auto. }
    lia.
Qed.

Lemma dec_fits n : between 0 65535 n = true -> forallb (between 32 126) (dec n) = true /\ (length (dec n) <= 5)%nat.
Proof.
  intros H. destruct (show_digits n 4) as [Hd Hl]; [unfold between in H; cbn; lia|]. unfold dec, u. rewrite length_map. split; [|exact Hl].
  apply forallb_forall. intros c (d & <- & Hin)%in_map_iff. rewrite forallb_forall in Hd. specialize (Hd d Hin). unfold is_digit, between in *. lia.
Qed.

Lemma fits_ascii p l : forallb (between 32 126) p = true -> forallb (between 32 126) l = true -> (length p + length l < 160)%nat -> fits (p ++ l).
Proof. intros Hp Hl Hn. destruct (utf8_printable l Hl) as [Hc Hu]. apply (fits_after p l (utf8_length l)); [done|done|lia|lia]. Qed.

Lemma cloud_url_fits url : cloudUrlProblem url = None -> forallb (between 32 126) url = true /\ utf8_length url <= 128.
Proof.
  unfold cloudUrlProblem. destruct (bool_decide (url = []) || _) eqn:E1; [done|]. apply orb_false_iff in E1 as [_ E1].
  destruct (existsb _ url) eqn:E2; [done|]. intros _. unfold MAX_CLOUD_URL in E1. split; [|lia].
  apply forallb_forall. intros c Hc. destruct (between 32 126 c) eqn:E; [done|]. rewrite (proj2 (existsb_exists _ url)) in E2; [done|].
  exists c. split; [done|]. unfold between in *. lia.
Qed.

Lemma canonical_of_nothing : canonicalCloudUrl [] = [].
Proof. reflexivity. Qed.

(** C40: What is written fits the console. If the settings have no problem, the
    node id is one and the frame rate one of the three, then every command
    that would be sent is a single line of fewer than 160 bytes without a
    control character, so the node reads it as the one command it is. *)
Theorem commands_fit_the_console id s direct c : settingsProblems s = [] -> nodeIdProblems (Some id) = [] ->
  default 1 (ns_frameRate s) ∈ [1; 2; 4] -> c ∈ provisioningCommands id s direct -> fits (cc_line c).
Proof.
  intros Hs Hid Hfps Hc. unfold settingsProblems in Hs. cbn [mbind list_bind] in Hs.
  rewrite !app_nil, !on_nil in Hs. cbn [fst snd] in Hs. destruct Hs as ((Cs & Cp & Cg & Ck & _) & Ls & _ & Lp & Lg & Lk & _ & _ & Lu).
  cbn [nodeIdProblems] in Hid. destruct (between _ _ id) eqn:Ei; [|done].
  assert (forall v cmd, c ∈ (if bool_decide (v = [] :> text) then [] else [cmd]) -> v <> [] /\ c = cmd) as Hgiven.
  { intros v cmd. destruct (bool_decide (v = [])) eqn:E; [by intros ?%elem_of_nil|intros ?%list_elem_of_singleton]. by apply bool_decide_eq_false in E. }
  assert (fits (u "set id " ++ dec id)) as Fid.
  { destruct (dec_fits id) as [? ?]; [unfold between, MIN_NODE_ID, MAX_NODE_ID in *; lia|]. apply fits_ascii; [done|done|cbn; lia]. }
  assert (forall m, fits (u "set mode " ++ mode_text m)) as Fmode by (intros []; by apply fits_ascii; [| |cbn; lia]).
  assert (forall t, fits (u "set transport " ++ transport_text t)) as Ftr by (intros []; by apply fits_ascii; [| |cbn; lia]).
  assert (forall p, forallb (between 32 126) p = true -> (length p <= 20)%nat -> ns_gateway s <> [] -> fits (p ++ ns_gateway s)) as Fgw.
  { intros p Hp Hl Hne. rewrite bool_decide_eq_false_2 in Lg by done. destruct (address_short (ns_gateway s)) as [? ?]; [by destruct (isIPv4 _)|].
    apply fits_ascii; [done|done|lia]. }
  assert (fits (u "set key " ++ ns_key s)) as Fkey by (apply (fits_after _ _ 64); [done|done|unfold MAX_KEY in Lk; lia|cbn; lia]).
  unfold provisioningCommands in Hc. rewrite app_assoc, !elem_of_app in Hc. destruct Hc as [[Hc|Hc]|[Hc|Hc]].
  - destruct (ns_mode s) eqn:Em; rewrite !elem_of_app, ?elem_of_cons, ?elem_of_nil in Hc.
    + destruct Hc as [[->|[->|[]]]|[Hc|[Hc|[Hc|Hc]]]]; [exact Fid|apply (Fmode Wifi)|..].
      * apply Hgiven in Hc as [_ ->]. apply (fits_after _ _ 32); [done|done|unfold MAX_SSID in Ls; lia|cbn; lia].
      * apply Hgiven in Hc as [Hne ->]. rewrite bool_decide_eq_false_2 in Lp by done. cbn [negb andb] in Lp. apply orb_false_iff in Lp as [_ Lp].
        apply (fits_after _ _ 63); [done|done|unfold MAX_PASSWORD in Lp; lia|cbn; lia].
      * apply Hgiven in Hc as [Hne ->]. apply Fgw; [done|cbn; lia|done].
      * destruct direct; [|by apply elem_of_nil in Hc]. rewrite elem_of_app, list_elem_of_singleton in Hc. destruct Hc as [Hc| ->]; [|apply Ftr].
        apply Hgiven in Hc as [Hne ->]. 
        rewrite bool_decide_eq_false_2 in Lu by (intros E; by rewrite E in Hne). destruct (cloudUrlProblem (canonicalCloudUrl (ns_cloudUrl s))) eqn:Eu; [done|].
        destruct (cloud_url_fits _ Eu) as [Hu Hl]. apply (fits_after _ _ 128); [done|by apply utf8_printable|done|cbn; lia].
    + destruct Hc as [[->|[]]|[Hc|[[->|[]]|Hc]]]; [exact Fid| |apply (Fmode Lora)|].
      * destruct direct; [|by apply elem_of_nil in Hc]. apply list_elem_of_singleton in Hc as ->. apply (Ftr Udp).
      * apply Hgiven in Hc as [Hne ->]. apply Fgw; [done|cbn; lia|done].
  - apply Hgiven in Hc as [_ ->]. exact Fkey.
  - destruct (ns_frameRate s) as [fps|]; [|by apply elem_of_nil in Hc]. apply list_elem_of_singleton in Hc as ->. change (fps ∈ [1; 2; 4]) in Hfps.
    rewrite !elem_of_cons, elem_of_nil in Hfps. destruct Hfps as [->|[->|[->|[]]]]; apply fits_ascii; vm_compute; lia || reflexivity.
  - apply list_elem_of_singleton in Hc as ->. by split; [repeat constructor|].
Qed.
End proofs.

(** ** Runs of a node *)

Module Runs.
#[local] Instance ascii_text : JsText :=
  {| toLowerCase := map (fun c => if between 65 90 c then c + 32 else c); toNumber := fun l => option_map inject_Z (digits l) |}.

Definition direct : NodeSettings :=
  {| ns_mode := Wifi; ns_ssid := u "home"; ns_password := u "hunter22"; ns_gateway := []; ns_key := u "k1-secret"; ns_transport := Wss;
     ns_cloudUrl := u " WSS://Sense.Example.com:443/tmnode"; ns_frameRate := Some 4 |}.
Definition usual : ProvisionOptions := {| po_bootTimeoutMs := 25000; po_wifiTimeoutMs := 30000; po_edgeTimeoutMs := 90000; po_admit := true |}.

Definition says (line : string) : list Input := [INow 0; ILine (Ok (Some (u line)))].
Definition report : list Input :=
  INow 0 :: (["uid : 0a:0b"; "fw : tmsense-1.6"; "node_id : 7"; "mode : wifi"; "ssid : home"; "password : (set)"; "key : (set)"; "edges : (none)";
              "caps : wss1, fps1"; "fps : 4"; "transport : wss"; "cloud_url : wss://sense.example.com/tmnode"; "boot : 3"] ≫= says).
Definition ready : list Input := [INow 0; INow 0; IWritten (Ok tt); INow 0] ++ report.
Definition answers (line : string) : list Input := [IWritten (Ok tt); INow 0] ++ says line.
Definition told : list Input :=
  ["id updated"; "mode updated"; "ssid updated"; "pass updated"; "cloud_url updated"; "transport updated"; "key updated"; "fps updated"; "saved"] ≫= answers.
Definition reread : list Input := [INow 0; INow 200; IWritten (Ok tt)] ++ report.
Definition joins : list Input := [IAdmitted (Ok Registered); IWritten (Ok tt); INow 0] ++ says "[wifi] connected ip=10.0.0.9 rssi=-60" ++ [INow 0].

Example usual_settings_are_fine : settingsProblems direct = [] /\ canonicalCloudUrl (ns_cloudUrl direct) = u "wss://sense.example.com/tmnode".
Proof. split; vm_compute; reflexivity. Qed.

Example usual_run_succeeds :
  match provisionNode 7 direct usual (ready ++ told ++ reread ++ joins ++ says "[cloud] report accepted") with
  | (_, Done p, []) => pv_ip p = Some (u "10.0.0.9") /\ pv_edgeAccepted p = Some true /\ pv_admission p = Some Registered /\
                       pv_warnings p = [u "no TMWAccess IP kept on the node: a USB rollback to UDP will need one"]
  | _ => False
  end.
Proof. vm_compute. repeat split; reflexivity. Qed.

(** A node that quotes the command it was sent. *)
Definition quoting : list Input :=
  ready ++ (["id updated"; "mode updated"; "ssid updated"] ≫= answers) ++ answers "unknown setting: pass hunter22".

Example quoted_password_is_masked :
  match provisionNode 7 direct usual quoting with
  | (_, Throws message, []) => message = u "node refused `set pass " ++ MASK ++ u "`: unknown setting: pass " ++ MASK
  | _ => False
  end.
Proof. vm_compute. reflexivity. Qed.

Lemma logs_and_failures_are_masked_witness :
  let '(es, r, _) := provisionNode 7 direct usual quoting in
  (forall line, Log line ∈ es -> within (u "hunter22") line = false) /\ (forall message, r = Throws message -> within (u "hunter22") message = false).
Proof.
  apply (logs_and_failures_are_masked 7 direct usual quoting (u "hunter22")).
  - apply (bool_decide_eq_true _). vm_compute. reflexivity.
  - apply (bool_decide_eq_true _). vm_compute. reflexivity.
Defined.

Lemma commands_fit_the_console_witness : fits (u "set pass hunter22").
Proof.
  apply (commands_fit_the_console 7 direct true (masked (u "set pass hunter22") (u "pass updated") (u "set pass " ++ MASK))).
  - vm_compute. reflexivity.
  - vm_compute. reflexivity.
  - apply (bool_decide_eq_true _). vm_compute. reflexivity.
  - right. right. right. left.
Defined.

(** What the code does that its comments do not say: a password that is part
    of the key uncovers the rest of it, the notes of a run are not masked, and
    a port given twice is taken off once. *)
Example part_of_the_key_is_shown : scrub (u "unknown setting: key xhunter22y") [u "hunter22"; u "xhunter22y"] = u "unknown setting: key x" ++ MASK ++ u "y".
Proof. vm_compute. reflexivity. Qed.

Example notes_are_not_masked :
  match provisionNode 7 direct usual (ready ++ told ++ reread ++ joins ++ says "[cloud] backoff: key k1-secret refused" ++ [INow 0; ILine (Ok None)]) with
  | (_, Done p, []) => existsb (within (u "k1-secret")) (pv_warnings p) = true
  | _ => False
  end.
Proof. vm_compute. reflexivity. Qed.

(** A key of the characters of the mask is accepted, and shown wherever
    something is masked. *)
Definition bulleted : NodeSettings :=
  {| ns_mode := Lora; ns_ssid := []; ns_password := []; ns_gateway := u "10.0.0.1"; ns_key := [BULLET; BULLET]; ns_transport := Udp; ns_cloudUrl := []; ns_frameRate := None |}.
Example a_key_of_bullets_is_shown : settingsProblems bulleted = [] /\ within (ns_key bulleted) (scrub (u "unknown setting: key " ++ ns_key bulleted) (secretsOf bulleted)) = true.
Proof. split; vm_compute; reflexivity. Qed.

Example a_second_port_stays :
  canonicalCloudUrl (u "wss://h:443:443/x") = u "wss://h:443/x" /\ cloudUrlProblem (canonicalCloudUrl (u "wss://h:443:443/x")) = None.
Proof. split; vm_compute; reflexivity. Qed.
End Runs.
