(* ===== verification/Adoption.v ===== *)
(** Admitting a node (src/edge/provisioning.ts): the queue of requests that a
    flasher makes and a person answers, its file, and the entry it writes to
    the nodes of the site; the codes a person compares
    (provisioning-routers.ts); and the tokens of flashers
    (src/edge/adoption-credentials.ts). A file is the JSON value it holds. *)

From S2P Require Import Prelude Json Geometry Seats Registry.

(** ** The queue *)

(** @modules/provisioning/domain/provisioning-policy.ts 2-2 REQUEST_TTL_MS *)
Definition REQUEST_TTL_MS : Z := 30 * 60000.
(** @modules/provisioning/domain/provisioning-policy.ts 4-4 MAX_PENDING *)
Definition MAX_PENDING : nat := 32.

Definition word_char (c : Ascii.ascii) : bool := is_lower c || is_upper c || is_digit c || (code c =? 95).

(** [/^[\w .,'()/-]{1,60}$/]
    @edge/provisioning.ts 31-31 LABEL_RE *)
Definition LABEL_RE (s : string) : bool :=
  between 1 60 (js_length s) && forallb (fun c => word_char c || includes (code c) [32; 46; 44; 39; 40; 41; 47; 45]) (chars s).

(** [/^[0-9a-f-]{36}$/] *)
Definition ID_RE (s : string) : bool := (js_length s =? 36) && forallb (fun c => is_hex_lower c || (code c =? 45)) (chars s).

(** @edge/provisioning.ts 33-43 JoinRequest *)
Record JoinRequest := {
  jr_id : string; jr_uid : string; jr_label : string; jr_firmware : option string; jr_from : string; jr_at : Z; jr_expiresAt : Z }.

(** @edge/provisioning.ts 45-47 JoinOutcome *)
Inductive JoinOutcome := PendingRequest (request : JoinRequest) | AlreadyRegistered (uid : string).

(** An [ApplicationError], by its kind, or any other error. *)
Inductive Failure := Validation | Conflict | NotFound | Unavailable | Crash.
#[export] Instance failure_eq_dec : EqDecision Failure.
Proof. solve_decision. Defined.

(** A line of the audit file. *)
Record Entry := { en_action : string; en_uid : string; en_by : string; en_id : string; en_at : Z }.

(** The service with the registry it shares, and its files: the nodes of the
    site ([None]: it cannot be read as JSON), the queue ([None]: there is none)
    and the audit.
    @edge/provisioning.ts 64-68 Provisioning *)
Record Desk := {
  dk_reg : Registry; dk_pending : list (string * JoinRequest); dk_nodes : option json; dk_stored : option json; dk_log : list Entry }.

Definition with_pending (p : list (string * JoinRequest)) (d : Desk) : Desk :=
  {| dk_reg := dk_reg d; dk_pending := p; dk_nodes := dk_nodes d; dk_stored := dk_stored d; dk_log := dk_log d |}.
Definition with_stored (s : option json) (d : Desk) : Desk :=
  {| dk_reg := dk_reg d; dk_pending := dk_pending d; dk_nodes := dk_nodes d; dk_stored := s; dk_log := dk_log d |}.
Definition with_nodes (n : option json) (d : Desk) : Desk :=
  {| dk_reg := dk_reg d; dk_pending := dk_pending d; dk_nodes := n; dk_stored := dk_stored d; dk_log := dk_log d |}.
Definition with_reg (r : Registry) (d : Desk) : Desk :=
  {| dk_reg := r; dk_pending := dk_pending d; dk_nodes := dk_nodes d; dk_stored := dk_stored d; dk_log := dk_log d |}.

Definition set_nodes (nodes : list (string * NodeDef)) (r : Registry) : Registry :=
  {| rg_siteId := rg_siteId r; rg_siteName := rg_siteName r; rg_floors := rg_floors r; rg_tables := rg_tables r; rg_nodes := nodes;
     rg_seatIndex := rg_seatIndex r |}.

Definition rows (d : Desk) : list JoinRequest := map snd (dk_pending d).

(** @edge/provisioning.ts 243-246 expire *)
Definition expire (now : Z) (d : Desk) : Desk := with_pending (List.filter (fun e => negb (jr_expiresAt e.2 <=? now)) (dk_pending d)) d.

(** [written] is whether the audit file can be appended to; nothing depends on it.
    @edge/provisioning.ts 258-265 log *)
Definition log (written : bool) (e : Entry) (d : Desk) : Desk :=
  {| dk_reg := dk_reg d; dk_pending := dk_pending d; dk_nodes := dk_nodes d; dk_stored := dk_stored d;
     dk_log := if written then dk_log d ++ [e] else dk_log d |}.

Definition opt_json (s : option string) : json := match s with Some s => JStr s | None => JNull end.

(** [JSON.stringify] of a request. *)
Definition request_json (r : JoinRequest) : json :=
  JObj [("id", JStr (jr_id r)); ("uid", JStr (jr_uid r)); ("label", JStr (jr_label r)); ("firmware", opt_json (jr_firmware r));
        ("from", JStr (jr_from r)); ("at", JInt (jr_at r)); ("expiresAt", JInt (jr_expiresAt r))].

(** @edge/provisioning.ts 250-256 persistPending *)
Definition persistPending (written : bool) (l : list JoinRequest) (d : Desk) : result Failure Desk :=
  if written then Ok (with_stored (Some (JArr (map request_json l))) d) else Err Unavailable.

(** @edge/provisioning.ts 101-105 authorise *)
Definition authorise (token presented : option string) : bool :=
  match token, presented with Some want, Some p => bool_decide (p = want) | _, _ => false end.

(** @edge/provisioning.ts 118-121 requests *)
Definition requests (now : Z) (d : Desk) : list JoinRequest * Desk :=
  let d := expire now d in (isort (fun a b => jr_at a <=? jr_at b) (rows d), d).

Definition find_uid (uid : string) (d : Desk) : option JoinRequest := List.find (fun r => bool_decide (jr_uid r = uid)) (rows d).

(** @edge/provisioning.ts 158-163 statusOf *)
Definition statusOf (uid : string) (now : Z) (d : Desk) : string * Desk :=
  let d := expire now d in
  let u := js_lower uid in
  (if om_has u (rg_nodes (dk_reg d)) then "registered" else match find_uid u d with Some _ => "pending" | None => "unknown" end, d).

(** [s || null] *)
Definition or_null (s : string) : option string := if bool_decide (s = EmptyString) then None else Some s.

(** [s.slice(0, n)] *)
Definition js_slice (n : nat) (s : string) : string := String.string_of_list_ascii (take n (chars s)).

Section input.
Context {texts : Texts}.

(** [String(v ?? '')] *)
Definition text_or_empty (v : option json) : result Failure string :=
  match v with None | Some JNull => Ok "" | Some v => of_option Crash (text_of v) end.

(** The fields of a request that can be made: uid, label (empty: none), firmware.
    @edge/provisioning.ts 126-133 request *)
Definition read_input (input : list (string * json)) : result Failure (string * string * option string) :=
  let! u := text_or_empty (field "uid" input) in
  let uid := js_trim (js_lower u) in
  throw_if negb (UID_RE uid) with Validation in
  let! l := text_or_empty (field "label" input) in
  let rawLabel := js_trim l in
  throw_if negb (bool_decide (rawLabel = EmptyString)) && negb (LABEL_RE rawLabel) with Validation in
  let! f := text_or_empty (field "firmware" input) in
  Ok (uid, rawLabel, or_null (js_slice 40 (js_trim f))).

(** Two readings of the clock, the id drawn, and whether the two files take
    what is written.
    @edge/provisioning.ts 124-155 request *)
Definition request (input : list (string * json)) (from : string) (t0 t1 : Z) (id : string) (written logged : bool) (d : Desk) :
    result Failure JoinOutcome * Desk :=
  let d := expire t0 d in
  match read_input input with
  | Err e => (Err e, d)
  | Ok (uid, rawLabel, firmware) =>
      if om_has uid (rg_nodes (dk_reg d)) then (Ok (AlreadyRegistered uid), d)
      else match find_uid uid d with
      | Some existing => (Ok (PendingRequest existing), d)
      | None =>
          if Nat.leb MAX_PENDING (length (dk_pending d)) then (Err Conflict, d)
          else
            let req := {| jr_id := id; jr_uid := uid; jr_label := if bool_decide (rawLabel = EmptyString) then uid else rawLabel;
                          jr_firmware := firmware; jr_from := from; jr_at := t1; jr_expiresAt := t1 + REQUEST_TTL_MS |} in
            match persistPending written (rows d ++ [req]) d with
            | Err e => (Err e, d)
            | Ok d =>
                let d := with_pending (om_set id req (dk_pending d)) d in
                (Ok (PendingRequest req), log logged {| en_action := "request"; en_uid := uid; en_by := from; en_id := id; en_at := t1 |} d)
            end
      end
  end.
End input.

(** [n.uid === uid] of an entry of the file *)
Definition entry_uid (uid : string) (n : json) : bool :=
  match n with JObj o => match field "uid" o with Some (JStr s) => bool_decide (s = uid) | _ => false end | _ => false end.

(** @edge/provisioning.ts 224-241 appendToNodesFile *)
Definition appendToNodesFile (node : NodeDef) (written : bool) (d : Desk) : result Failure Desk :=
  match dk_nodes d with
  | Some (JObj doc) =>
      match field "nodes" doc with
      | Some (JArr nodes) =>
          throw_if existsb (entry_uid (nd_uid node)) nodes with Conflict in
          if written
          then Ok (with_nodes (Some (JObj (om_set "nodes" (JArr (nodes ++ [JObj [("uid", JStr (nd_uid node)); ("label", JStr (nd_label node))]])) doc))) d)
          else Err Crash
      | _ => Err Crash
      end
  | _ => Err Crash
  end.

(** @edge/provisioning.ts 182-191 approve *)
Definition unplaced (req : JoinRequest) : NodeDef :=
  {| nd_uid := jr_uid req; nd_label := jr_label req; nd_floorId := None; nd_pose := None; nd_owns := []; nd_simulated := false; nd_rgb := false;
     nd_detector := OnNode |}.

(** @edge/provisioning.ts 173-203 approve *)
Definition approve (id by_ : string) (t0 t1 : Z) (written kept logged : bool) (d : Desk) : result Failure NodeDef * Desk :=
  let d := expire t0 d in
  match om_get id (dk_pending d) with
  | None => (Err NotFound, d)
  | Some req =>
      if om_has (jr_uid req) (rg_nodes (dk_reg d)) then (Err Conflict, with_pending (om_del id (dk_pending d)) d)
      else
        let node := unplaced req in
        match appendToNodesFile node written d with
        | Err e => (Err e, d)
        | Ok d =>
            let d := with_reg (set_nodes (om_set (nd_uid node) node (rg_nodes (dk_reg d))) (dk_reg d)) d in
            let d := with_pending (om_del id (dk_pending d)) d in
            let d := match persistPending kept (rows d) d with Ok d => d | Err _ => d end in
            (Ok node, log logged {| en_action := "approve"; en_uid := nd_uid node; en_by := by_; en_id := id; en_at := t1 |} d)
        end
  end.

(** @edge/provisioning.ts 205-213 deny *)
Definition deny (id by_ : string) (t0 t1 : Z) (written logged : bool) (d : Desk) : result Failure JoinRequest * Desk :=
  let d := expire t0 d in
  match om_get id (dk_pending d) with
  | None => (Err NotFound, d)
  | Some req =>
      match persistPending written (List.filter (fun r => negb (bool_decide (jr_id r = id))) (rows d)) d with
      | Err e => (Err e, d)
      | Ok d =>
          let d := with_pending (om_del id (dk_pending d)) d in
          (Ok req, log logged {| en_action := "deny"; en_uid := jr_uid req; en_by := by_; en_id := id; en_at := t1 |} d)
      end
  end.

(** ** Starting again *)

Definition str_where (p : string -> bool) (v : option json) : option string :=
  match v with Some (JStr s) => if p s then Some s else None | _ => None end.

(** One row of the file of the queue.
    @edge/provisioning.ts 78-86 Provisioning *)
Definition read_row (v : json) : option JoinRequest :=
  row ← as_object v;
  id ← str_where ID_RE (field "id" row);
  uid ← str_where UID_RE (field "uid" row);
  label ← str_where LABEL_RE (field "label" row);
  firmware ← match field "firmware" row with
             | Some JNull => Some None
             | Some (JStr s) => if 40 <? js_length s then None else Some (Some s)
             | _ => None
             end;
  from ← str_where (fun s => negb (100 <? js_length s)) (field "from" row);
  at_ ← field "at" row ≫= as_safe_integer;
  expiresAt ← field "expiresAt" row ≫= as_safe_integer;
  if expiresAt - at_ =? REQUEST_TTL_MS
  then Some {| jr_id := id; jr_uid := uid; jr_label := label; jr_firmware := firmware; jr_from := from; jr_at := at_; jr_expiresAt := expiresAt |}
  else None.

(** @edge/provisioning.ts 77-88 Provisioning *)
Fixpoint read_rows (reg : Registry) (now : Z) (l : list json) (pending : list (string * JoinRequest)) : option (list (string * JoinRequest)) :=
  match l with
  | [] => Some pending
  | v :: rest =>
      row ← read_row v;
      read_rows reg now rest
        (if (now <? jr_expiresAt row) && negb (om_has (jr_uid row) (rg_nodes reg)) then om_set (jr_id row) row pending else pending)
  end.

(** The service is made anew over its files. [safe]: the file is a plain one of
    at most 128 KB that only its owner can read.
    @edge/provisioning.ts 68-90 Provisioning *)
Definition restart (reg : Registry) (safe : bool) (now : Z) (d : Desk) : option Desk :=
  let start pending := {| dk_reg := reg; dk_pending := pending; dk_nodes := dk_nodes d; dk_stored := dk_stored d; dk_log := dk_log d |} in
  match dk_stored d with
  | None => Some (start [])
  | Some (JArr l) =>
      if safe && Nat.leb (length l) MAX_PENDING then start <$> read_rows reg now l [] else None
  | Some _ => None
  end.

(** ** The code a person compares *)

Definition upper_char (c : Ascii.ascii) : Ascii.ascii := if is_lower c then Ascii.ascii_of_N (Z.to_N (code c - 32)) else c.

(** @modules/provisioning/routes/provisioning-routers.ts 7-7 pairingCode *)
Definition pairingCode (id : string) : string :=
  String.string_of_list_ascii (map upper_char (take 8 (List.filter (fun c => negb (code c =? 45)) (chars id)))).

(** @modules/provisioning/routes/provisioning-routers.ts 10-17 confirmApproval *)
Definition confirmApproval (id : string) (input : list (string * json)) (now : Z) (d : Desk) : result Failure unit * Desk :=
  let '(waiting, d) := requests now d in
  match List.find (fun item => bool_decide (jr_id item = id)) waiting with
  | None => (Err NotFound, d)
  | Some req =>
      let is_text (k s : string) := match field k input with Some (JStr t) => bool_decide (t = s) | _ => false end in
      (if is_text "uid" (jr_uid req) && is_text "pairingCode" (pairingCode id) then Ok tt else Err Validation, d)
  end.

(** ** What an admission changes *)

Lemma om_set_last {V} (k : string) (v : V) m : om_get k m = None -> om_set k v m = m ++ [(k, v)].
Proof.
  induction m as [|[k' v'] m IH]; [done|]. cbn [om_get om_set app]. case_bool_decide as E; [done|].
  intros H. by rewrite IH.
Qed.

Lemma for_each_app {S A} (f : nat -> A -> S -> result string S) l1 l2 i s :
  for_each f i (l1 ++ l2) s = let! s' := for_each f i l1 s in for_each f (i + length l1) l2 s'.
Proof.
  revert i s. induction l1 as [|x l1 IH]; intros i s; cbn [app for_each length rbind]; [by rewrite Nat.add_0_r|].
  destruct (f i x s) as [s'|]; [|done]. cbn [rbind]. by rewrite IH, Nat.add_succ_comm.
Qed.

Lemma for_each_ext {S A} (f g : nat -> A -> S -> result string S) l i s : (forall i x s, f i x s = g i x s) -> for_each f i l s = for_each g i l s.
Proof.
  intros H. revert i s. induction l as [|x l IH]; intros i s; [done|]. cbn [for_each]. rewrite H. destruct (g i x s); [|done]. cbn [rbind]. apply IH.
Qed.

Lemma uid_chars u : UID_RE u = true -> u <> "" /\ forall c, c ∈ chars u -> is_hex_lower c = true \/ code c = 58.
Proof.
  unfold UID_RE. intros [Hl%bool_decide_eq_true H]%andb_true_iff. split; [by intros ->|].
  match type of H with ?g 0%nat (chars u) = true => assert (forall l i, g i l = true -> forall c, c ∈ l -> is_hex_lower c = true \/ code c = 58) as Hg end;
    [|exact (Hg _ _ H)].
  clear. induction l as [|d l IH]; intros i H c Hc; [by apply elem_of_nil in Hc|]. apply andb_true_iff in H as [Hd H].
  apply elem_of_cons in Hc as [->|Hc]; [|exact (IH (S i) H c Hc)]. destruct (Nat.eqb _ _); [right; lia|by left].
Qed.

Lemma uid_plain u : UID_RE u = true -> is_blank u = false /\ toLowerCase u = u.
Proof.
  intros H. destruct (uid_chars u H) as [Hne Hc]. split.
  - unfold is_blank. destruct u as [|c s]; [done|]. specialize (Hc c ltac:(left)). cbn [chars String.list_ascii_of_string forallb].
    assert (is_space c = false) as ->; [|done]. unfold is_space, is_hex_lower, is_digit, between in *. lia.
  - unfold toLowerCase. assert (map lower_char (chars u) = chars u) as ->.
    { rewrite <- (map_id (chars u)) at 2. apply map_ext_in. intros c Hin%list_elem_of_In. destruct (Hc c Hin) as [Hx|Hx];
        unfold lower_char, is_upper, is_hex_lower, is_digit, between in *; case_match; [lia|done|lia|done]. }
    apply String.string_of_list_ascii_of_string.
Qed.

Section admission.
Context {T : Trig}.

Definition new_entry (uid label : string) : json := JObj [("uid", JStr uid); ("label", JStr label)].

Lemma add_node_new floors ni uid label tables nodes : UID_RE uid = true -> label <> "" -> om_get uid nodes = None ->
  add_node floors ni (new_entry uid label) (tables, nodes) =
    Ok (tables, nodes ++ [(uid, {| nd_uid := uid; nd_label := label; nd_floorId := None; nd_pose := None; nd_owns := []; nd_simulated := false;
                                   nd_rgb := false; nd_detector := OnNode |})]).
Proof.
  intros Hu Hl Hn. destruct (uid_plain uid Hu) as [Hb Hlow]. unfold add_node, new_entry. cbn [obj rbind].
  set (e := [("uid", JStr uid); ("label", JStr label)]).
  assert (only e (at_ "nodes" ni) ["uid"; "label"; "floor"; "pose"; "owns"; "simulated"; "rgb"; "detector"] = Ok tt) as -> by reflexivity.
  assert (field "uid" e = Some (JStr uid) /\ field "label" e = Some (JStr label)) as [Fu Fl] by done.
  assert (field "floor" e = None /\ field "pose" e = None /\ field "owns" e = None /\ field "simulated" e = None /\ field "rgb" e = None /\
    field "detector" e = None) as (F1 & F2 & F3 & F4 & F5 & F6) by done.
  clearbody e. cbn [rbind]. rewrite F1, F2, F3, F4, F5, F6. cbn [is_bool_or_absent negb detector_of rbind]. unfold str. rewrite Fu, Hb. cbn [rbind].
  rewrite Hlow, Hu. cbn [negb fst snd]. unfold om_has. rewrite Hn. unfold add_unplaced. rewrite F3, F4, F5, Fl. cbn [is_true rbind]. rewrite om_set_last by done.
  unfold label_of. by rewrite bool_decide_eq_false_2.
Qed.

Lemma seeing_unplaced nodes uid n t : nd_pose n = None -> seeing (nodes ++ [(uid, n)]) t = seeing nodes t.
Proof.
  intros Hp. unfold seeing. rewrite map_app, omap_app. cbn [map snd omap list_omap]. rewrite Hp. cbn. by rewrite app_nil_r.
Qed.

Lemma cover_unplaced nodes uid n i e tables : nd_pose n = None -> cover (nodes ++ [(uid, n)]) i e tables = cover nodes i e tables.
Proof. intros Hp. unfold cover, coveredBy. destruct e as [id t]. by rewrite !seeing_unplaced. Qed.

Lemma only_same_keys o o' w allowed : om_keys o' = om_keys o -> only o' w allowed = only o w allowed.
Proof. intros H. unfold only. by rewrite H. Qed.

(** One more node that nobody has placed changes nothing but the list of nodes. *)
Lemma buildRegistry_admits site doc nodes reg uid label : buildRegistry site (JObj doc) = Ok reg -> field "nodes" doc = Some (JArr nodes) ->
  UID_RE uid = true -> label <> "" -> om_get uid (rg_nodes reg) = None ->
  buildRegistry site (JObj (om_set "nodes" (JArr (nodes ++ [new_entry uid label])) doc)) =
    Ok (set_nodes (rg_nodes reg ++ [(uid, {| nd_uid := uid; nd_label := label; nd_floorId := None; nd_pose := None; nd_owns := [];
                                             nd_simulated := false; nd_rgb := false; nd_detector := OnNode |})]) reg).
Proof.
  intros H Hf Hu Hl Hn. unfold buildRegistry in *.
  repeat match goal with
  | H : rbind ?m _ = Ok _ |- context [rbind ?m _] => let a := fresh "a" in let E := fresh "E" in destruct m as [a|] eqn:E; [|discriminate H]; cbn [rbind] in *
  end.
  cbn [obj rbind] in *. rewrite (only_same_keys doc); [|rewrite om_keys_set; unfold om_has; unfold field in Hf; by rewrite Hf].
  destruct (only doc _ _) as [u|]; [|discriminate H]. cbn [rbind] in *. rewrite Hf in H. unfold field at 1. rewrite om_get_set_eq. cbn [array_of rbind] in *.
  rewrite for_each_app. destruct (for_each (add_node _) 0 nodes _) as [[tables nodes']|] eqn:En; [|discriminate H]. cbn [rbind for_each] in *.
  destruct (for_each (cover nodes') 0 tables tables) as [tables'|] eqn:Ec; [|discriminate H]. cbn [rbind] in H. injection H as <-. cbn [rg_nodes] in *.
  rewrite add_node_new by done. cbn [rbind].
  rewrite (for_each_ext _ (cover nodes')) by (intros; by apply cover_unplaced). rewrite Ec. reflexivity.
Qed.
End admission.

(** ** The life of the desk *)

Inductive act :=
| Ask (input : list (string * json)) (from id : string)
| Look
| Status (uid : string)
| Approve (id by_ : string)
| Deny (id by_ : string).

(** One call, with its two readings of the clock and what the files take. *)
Record deed := { de_act : act; de_t0 : Z; de_t1 : Z; de_nodes : bool; de_queue : bool; de_log : bool }.

Section life.
Context {T : Trig} {texts : Texts}.

Definition desk_step (d : Desk) (e : deed) : Desk :=
  match de_act e with
  | Ask input from id => snd (request input from (de_t0 e) (de_t1 e) id (de_queue e) (de_log e) d)
  | Look => snd (requests (de_t0 e) d)
  | Status uid => snd (statusOf uid (de_t0 e) d)
  | Approve id by_ => snd (approve id by_ (de_t0 e) (de_t1 e) (de_nodes e) (de_queue e) (de_log e) d)
  | Deny id by_ => snd (deny id by_ (de_t0 e) (de_t1 e) (de_queue e) (de_log e) d)
  end.

(** What is documented of the surroundings: the clock does not run backwards
    and stays in range, and an id that is drawn is a new UUID. *)
Definition fair (t : Z) (d : Desk) (e : deed) : Prop :=
  t <= de_t0 e <= de_t1 e /\ - max_safe <= de_t1 e /\ de_t1 e + REQUEST_TTL_MS <= max_safe /\
  match de_act e with Ask _ from id => ID_RE id = true /\ id ∉ om_keys (dk_pending d) /\ js_length from <= 100 | _ => True end.

Definition new_desk (reg : Registry) (nodes : json) : Desk :=
  {| dk_reg := reg; dk_pending := []; dk_nodes := Some nodes; dk_stored := None; dk_log := [] |}.

(** Every desk there can be at a site, [t] being the last time its queue was
    cleared of old requests: calls, and restarts of the edge. *)
Inductive reach (site : json) : Z -> Desk -> Prop :=
| reach_new nodes reg t : buildRegistry site nodes = Ok reg -> reach site t (new_desk reg nodes)
| reach_step t d e : reach site t d -> fair t d e -> reach site (de_t0 e) (desk_step d e)
| reach_restart t d nodes reg now d' : reach site t d -> dk_nodes d = Some nodes -> buildRegistry site nodes = Ok reg -> t <= now ->
    restart reg true now d = Some d' -> reach site now d'.

(** A request as [request] makes it. *)
Definition row_ok (r : JoinRequest) : Prop :=
  ID_RE (jr_id r) = true /\ UID_RE (jr_uid r) = true /\ (LABEL_RE (jr_label r) = true \/ jr_label r = jr_uid r) /\
  match jr_firmware r with Some f => js_length f <= 40 | None => True end /\ js_length (jr_from r) <= 100 /\
  - max_safe <= jr_at r /\ jr_at r <= max_safe - REQUEST_TTL_MS /\ jr_expiresAt r = jr_at r + REQUEST_TTL_MS.

Definition registered (reg : Registry) (u : string) : bool := om_has u (rg_nodes reg).
Definition alive (t : Z) (reg : Registry) (r : JoinRequest) : bool := (t <? jr_expiresAt r) && negb (registered reg (jr_uid r)).

(** What the file of the queue holds. *)
Definition kept (d : Desk) (l : list JoinRequest) : Prop :=
  match dk_stored d with None => l = [] | Some s => s = JArr (map request_json l) end.

Definition index (l : list JoinRequest) : list (string * JoinRequest) := map (fun r => (jr_id r, r)) l.

(** The requests that wait are those of the file that are not too old at [t]
    and not yet admitted. *)
Definition queue_ok (t : Z) (d : Desk) : Prop := exists l, kept d l /\ (length l <= MAX_PENDING)%nat /\ Forall row_ok l /\
  NoDup (map jr_id l) /\ NoDup (map jr_uid l) /\ dk_pending d = index (List.filter (alive t (dk_reg d)) l).

Lemma filter_index (f : JoinRequest -> bool) l : List.filter (fun e => f e.2) (index l) = index (List.filter f l).
Proof. unfold index. induction l as [|r l IH]; [done|]. cbn [map List.filter snd]. destruct (f r); cbn [map]; by rewrite IH. Qed.

Lemma rows_index l d : dk_pending d = index l -> rows d = l.
Proof. unfold rows, index. intros ->. by rewrite map_map, map_id. Qed.

Lemma keys_index l : om_keys (index l) = map jr_id l.
Proof. unfold om_keys, index. by rewrite map_map. Qed.

Lemma del_index id l : om_del id (index l) = index (List.filter (fun r => negb (bool_decide (jr_id r = id))) l).
Proof.
  induction l as [|r l IH]; [done|]. unfold om_del, index in *. cbn [map List.filter fst].
  rewrite (bool_decide_ext (id = jr_id r) (jr_id r = id)) by (split; done). case_bool_decide; cbn [negb map]; by rewrite IH.
Qed.

Lemma get_index id l r : om_get id (index l) = Some r -> r ∈ l /\ jr_id r = id.
Proof. intros H%om_get_elem. apply list_elem_of_fmap in H as (r' & [= -> ->] & Hr). done. Qed.

Lemma nodup_same {A B} (g : A -> B) l x y : NoDup (map g l) -> x ∈ l -> y ∈ l -> g x = g y -> x = y.
Proof.
  intros Hnd (i & Hi)%list_elem_of_lookup (j & Hj)%list_elem_of_lookup E. assert (i = j) as ->; [|congruence].
  apply (NoDup_lookup _ i j (g x) Hnd); rewrite list_lookup_fmap; [by rewrite Hi|by rewrite Hj, E].
Qed.

Lemma expire_ok t t' d : queue_ok t d -> t <= t' -> queue_ok t' (expire t' d).
Proof.
  intros (l & Hk & Hs & Hr & Hi & Hu & Hp) Ht. exists l. split_and!; try done. cbn [expire with_pending dk_pending dk_reg]. rewrite Hp.
  rewrite (filter_index (fun r => negb (jr_expiresAt r <=? t'))), filter_filter. f_equal. apply filter_ext. intros r. unfold alive. cbn [with_pending dk_reg]. destruct (registered _ _); cbn [negb]; lia.
Qed.

(** The file is written anew with what waits, and nothing else changes. *)
Lemma persisted_ok t d l : Forall row_ok l -> NoDup (map jr_id l) -> NoDup (map jr_uid l) -> (length l <= MAX_PENDING)%nat ->
  (forall r, r ∈ l -> alive t (dk_reg d) r = true) -> queue_ok t (with_pending (index l) (with_stored (Some (JArr (map request_json l))) d)).
Proof.
  intros Hr Hi Hu Hs Ha. exists l. split_and!; try done. cbn. by rewrite filter_all.
Qed.

Lemma js_slice_length n s : js_length (js_slice n s) <= Z.of_nat n.
Proof.
  unfold js_length, js_slice. rewrite <- chars_length. unfold chars at 1.
  rewrite String.list_ascii_of_string_of_list_ascii, length_take. lia.
Qed.

Lemma log_ok t b e d : queue_ok t d -> queue_ok t (log b e d).
Proof. done. Qed.

Lemma read_input_ok input uid label firmware : read_input input = Ok (uid, label, firmware) ->
  UID_RE uid = true /\ (label = "" \/ LABEL_RE label = true) /\ match firmware with Some f => js_length f <= 40 | None => True end.
Proof.
  unfold read_input. intros H. apply rbind_ok in H as (x & _ & H). destruct (UID_RE (js_trim (js_lower x))) eqn:Hu; [|done]. cbn [negb] in H.
  apply rbind_ok in H as (y & _ & H). destruct (negb (bool_decide (js_trim y = "")) && negb (LABEL_RE (js_trim y))) eqn:Hl; [done|].
  apply rbind_ok in H as (z & _ & H). injection H as <- <- <-. split; [done|]. split.
  - apply andb_false_iff in Hl as [H%negb_false%bool_decide_eq_true|H%negb_false]; auto.
  - unfold or_null. destruct (bool_decide (js_slice 40 (js_trim z) = "")); [exact I|]. apply js_slice_length.
Qed.

Lemma request_ok t input from t0 t1 id w lg d : queue_ok t d -> t <= t0 <= t1 -> - max_safe <= t1 -> t1 + REQUEST_TTL_MS <= max_safe ->
  ID_RE id = true -> id ∉ om_keys (dk_pending d) -> js_length from <= 100 -> queue_ok t0 (snd (request input from t0 t1 id w lg d)).
Proof.
  intros Hq Ht Hlo Hhi Hid Hnew Hfrom. assert (id ∉ om_keys (dk_pending (expire t0 d))) as Hnew'.
  { intros H. apply Hnew. unfold om_keys in *. apply list_elem_of_fmap in H as (e & -> & He). apply list_elem_of_fmap. exists e. split; [done|].
    cbn in He. by apply filter_in in He as [He _]. }
  pose proof (expire_ok t t0 d Hq ltac:(lia)) as (l & Hk & Hs & Hr & Hi & Hu & Hp). unfold request. set (d1 := expire t0 d) in *.
  assert (queue_ok t0 d1) as Hq1 by (by exists l). clearbody d1. set (L := List.filter (alive t0 (dk_reg d1)) l) in *.
  destruct (read_input input) as [[[uid label] firmware]|e] eqn:Ein; [|exact Hq1]. apply read_input_ok in Ein as (Huid & Hlabel & Hfirm).
  destruct (om_has uid (rg_nodes (dk_reg d1))) eqn:Ereg; [exact Hq1|]. unfold find_uid. rewrite (rows_index _ _ Hp).
  destruct (List.find _ L) as [r|] eqn:Ef; [exact Hq1|].
  destruct (Nat.leb MAX_PENDING (length (dk_pending d1))) eqn:El; [exact Hq1|].
  unfold persistPending. destruct w; [|exact Hq1]. cbn [snd]. apply log_ok.
  set (req := {| jr_id := id |}). assert (length L < MAX_PENDING)%nat as HL.
  { apply Nat.leb_gt in El. by rewrite Hp in El; unfold index in El; rewrite length_map in El. }
  rewrite Hp, keys_index in Hnew'.
  assert (om_set id req (dk_pending d1) = index (L ++ [req])) as Hset.
  { rewrite Hp, om_set_last by (apply om_get_None; by rewrite keys_index). unfold index. by rewrite map_app. }
  cbn [with_stored dk_pending]. rewrite Hset. apply persisted_ok.
  - apply Forall_app. split; [by apply filter_Forall|]. apply Forall_singleton. split_and!; cbn; try done; try lia; [].
    case_bool_decide as E; [by right|]. left. by destruct Hlabel.
  - rewrite map_app. apply NoDup_app. split_and!; [by apply filter_nodup| |apply NoDup_singleton]. intros x Hx ->%list_elem_of_singleton. done.
  - rewrite map_app. apply NoDup_app. split_and!; [by apply filter_nodup| |apply NoDup_singleton]. intros x Hx ->%list_elem_of_singleton.
    apply list_elem_of_fmap in Hx as (r & E & Hx%list_elem_of_In). eapply find_none in Ef; [|exact Hx]. cbn in E, Ef. by rewrite bool_decide_eq_true_2 in Ef.
  - rewrite length_app. cbn. lia.
  - intros r [Hx%filter_in| ->%list_elem_of_singleton]%elem_of_app; [by destruct Hx|]. unfold alive, registered. cbn [req jr_expiresAt jr_uid]. rewrite Ereg.
    cbn [negb]. unfold REQUEST_TTL_MS. lia.
Qed.

Lemma only_this reg node t l req : NoDup (map jr_id l) -> NoDup (map jr_uid l) -> req ∈ l -> nd_uid node = jr_uid req ->
  List.filter (fun r => negb (bool_decide (jr_id r = jr_id req))) (List.filter (alive t reg) l) =
  List.filter (alive t (set_nodes (om_set (nd_uid node) node (rg_nodes reg)) reg)) l.
Proof.
  intros Hi Hu Hreq En. rewrite filter_filter. apply filter_ext_in. intros r Hr%list_elem_of_In. unfold alive, registered. cbn [set_nodes rg_nodes].
  rewrite om_has_set, En. destruct (t <? jr_expiresAt r); [|done]. cbn [andb].
  destruct (om_has (jr_uid r) (rg_nodes reg)); [by rewrite orb_true_r|]. rewrite orb_false_r. cbn [negb andb]. f_equal. apply bool_decide_ext.
  split; intros E; [by rewrite (nodup_same jr_id l r req Hi Hr Hreq E)|by rewrite (nodup_same jr_uid l r req Hu Hr Hreq E)].
Qed.

Lemma append_same node w d d' : appendToNodesFile node w d = Ok d' ->
  dk_reg d' = dk_reg d /\ dk_pending d' = dk_pending d /\ dk_stored d' = dk_stored d.
Proof.
  unfold appendToNodesFile. destruct (dk_nodes d) as [[| | | | |doc]|]; try done. destruct (field "nodes" doc) as [[| | | |nodes|]|]; try done.
  destruct (existsb _ nodes); [done|]. destruct w; [|done]. by intros [= <-].
Qed.

Lemma approve_ok t id by_ t0 t1 w k lg d : queue_ok t d -> t <= t0 -> queue_ok t0 (snd (approve id by_ t0 t1 w k lg d)).
Proof.
  intros Hq Ht. pose proof (expire_ok t t0 d Hq Ht) as Hq1. pose proof Hq1 as (l & Hk & Hs & Hr & Hi & Hu & Hp). unfold approve.
  set (d1 := expire t0 d) in *. clearbody d1. destruct (om_get id (dk_pending d1)) as [req|] eqn:Eg; [|exact Hq1].
  rewrite Hp in Eg. apply get_index in Eg as [[Hreq Ha]%filter_in <-]. unfold alive, registered in Ha. apply andb_true_iff in Ha as [_ Ha%negb_true].
  rewrite Ha. destruct (appendToNodesFile (unplaced req) w d1) as [d2|e] eqn:Ea; [|exact Hq1]. apply append_same in Ea as (E1 & E2 & E3). cbn [snd].
  apply log_ok. pose proof (only_this (dk_reg d1) (unplaced req) t0 l req Hi Hu Hreq eq_refl) as Hf.
  set (reg' := set_nodes _ _) in Hf. rewrite E1. change (nd_uid (unplaced req)) with (jr_uid req) in *. fold reg'.
  assert (om_del (jr_id req) (dk_pending (with_reg reg' d2)) = index (List.filter (alive t0 reg') l)) as Hd.
  { cbn [with_reg dk_pending]. by rewrite E2, Hp, del_index, Hf. }
  rewrite Hd. destruct k; cbn [persistPending].
  - set (L := List.filter (alive t0 reg') l). rewrite (rows_index L) by done.
    apply (persisted_ok t0 (with_reg reg' d2) L); [by apply filter_Forall|by apply filter_nodup|by apply filter_nodup| |].
    + pose proof (filter_length (alive t0 reg') l). unfold L. lia.
    + by intros r [_ ?]%filter_in.
  - exists l. split_and!; try done. unfold kept in *. cbn. by rewrite E3.
Qed.

Lemma deny_queue_ok t id by_ t0 t1 w lg d : queue_ok t d -> t <= t0 -> queue_ok t0 (snd (deny id by_ t0 t1 w lg d)).
Proof.
  intros Hq Ht. pose proof (expire_ok t t0 d Hq Ht) as Hq1. pose proof Hq1 as (l & Hk & Hs & Hr & Hi & Hu & Hp). unfold deny.
  set (d1 := expire t0 d) in *. clearbody d1. destruct (om_get id (dk_pending d1)) as [req|]; [|exact Hq1]. destruct w; [|exact Hq1]. cbn [persistPending snd].
  apply log_ok. rewrite (rows_index _ _ Hp). cbn [with_stored dk_pending]. rewrite Hp, del_index. set (L := List.filter (fun r => negb _) _).
  apply (persisted_ok t0 d1 L); [by do 2 apply filter_Forall|by do 2 apply filter_nodup|by do 2 apply filter_nodup| |].
  - pose proof (filter_length (fun r => negb (bool_decide (jr_id r = id))) (List.filter (alive t0 (dk_reg d1)) l)).
    pose proof (filter_length (alive t0 (dk_reg d1)) l). unfold L. lia.
  - by intros r [[_ ?]%filter_in _]%filter_in.
Qed.

(** ** The queue read back *)

Lemma read_row_ok r : row_ok r -> read_row (request_json r) = if LABEL_RE (jr_label r) then Some r else None.
Proof.
  intros (Hid & Hu & _ & Hf & Hfrom & Hlo & Hhi & He). unfold read_row, request_json. cbn [as_object mbind option_bind].
  set (o := [("id", _); _; _; _; _; _; _]).
  assert (field "id" o = Some (JStr (jr_id r)) /\ field "uid" o = Some (JStr (jr_uid r)) /\ field "label" o = Some (JStr (jr_label r)) /\
    field "firmware" o = Some (opt_json (jr_firmware r)) /\ field "from" o = Some (JStr (jr_from r)) /\ field "at" o = Some (JInt (jr_at r)) /\
    field "expiresAt" o = Some (JInt (jr_expiresAt r))) as (-> & -> & -> & -> & -> & -> & ->) by done.
  clearbody o. unfold str_where. rewrite Hid, Hu. cbn [mbind option_bind]. destruct (LABEL_RE (jr_label r)); [|done].
  assert (match opt_json (jr_firmware r) with JNull => Some None | JStr s => if 40 <? js_length s then None else Some (Some s) | _ => None end = Some (jr_firmware r)) as E.
  { destruct (jr_firmware r) as [f|]; [|done]. cbn. by rewrite (proj2 (Z.ltb_ge 40 (js_length f))). }
  cbn [mbind option_bind]. rewrite E. rewrite (proj2 (Z.ltb_ge 100 (js_length (jr_from r)))) by done. cbn [negb mbind option_bind].
  unfold REQUEST_TTL_MS in *. rewrite !as_safe_integer_JInt by lia. cbn [mbind option_bind]. rewrite He, (proj2 (Z.eqb_eq _ _)) by lia.
  f_equal. destruct r. cbn in *. by rewrite He.
Qed.

Lemma read_rows_ok reg now l : Forall row_ok l -> forall acc, NoDup (map jr_id (acc ++ l)) ->
  read_rows reg now (map request_json l) (index acc) =
    if forallb (fun r => LABEL_RE (jr_label r)) l then Some (index (acc ++ List.filter (alive now reg) l)) else None.
Proof.
  induction l as [|r l IH]; intros Hr acc Hnd; [by rewrite app_nil_r|]. apply Forall_cons in Hr as [Hr1 Hr]. cbn [map read_rows forallb List.filter].
  rewrite (read_row_ok r Hr1). destruct (LABEL_RE (jr_label r)); [|done]. cbn [mbind option_bind andb].
  change ((now <? jr_expiresAt r) && negb (om_has (jr_uid r) (rg_nodes reg))) with (alive now reg r). destruct (alive now reg r).
  - rewrite om_set_last.
    + assert (index acc ++ [(jr_id r, r)] = index (acc ++ [r])) as -> by (unfold index; by rewrite map_app).
      rewrite IH; [by rewrite <- app_assoc|done|by rewrite <- app_assoc].
    + apply om_get_None. rewrite keys_index. rewrite map_app in Hnd. apply NoDup_app in Hnd as (_ & Hnd & _). intros Hin. apply (Hnd _ Hin). left.
  - apply IH; [done|]. rewrite map_app in *. cbn [map] in Hnd. apply NoDup_app in Hnd as (H1 & H2 & [_ H3]%NoDup_cons). apply NoDup_app. split_and!; try done.
    intros x Hx Hl. apply (H2 x Hx). by right.
Qed.

Lemma restart_with reg now d l : kept d l -> (length l <= MAX_PENDING)%nat -> Forall row_ok l -> NoDup (map jr_id l) ->
  restart reg true now d =
    if forallb (fun r => LABEL_RE (jr_label r)) l
    then Some {| dk_reg := reg; dk_pending := index (List.filter (alive now reg) l); dk_nodes := dk_nodes d; dk_stored := dk_stored d; dk_log := dk_log d |}
    else None.
Proof.
  unfold kept, restart. intros Hk Hs Hr Hi. destruct (dk_stored d) as [s|]; [|by subst l]. subst s. rewrite length_map. apply Nat.leb_le in Hs as ->.
  cbn [andb]. pose proof (read_rows_ok reg now l Hr [] Hi) as E. change (index []) with (@nil (string * JoinRequest)) in E. rewrite E. by destruct (forallb _ l).
Qed.

(** ** What holds at every desk *)

(** The running registry is the one the edge would start with. *)
Definition agrees (site : json) (d : Desk) : Prop := exists nodes, dk_nodes d = Some nodes /\ buildRegistry site nodes = Ok (dk_reg d).

Lemma approve_agrees site id by_ t0 t1 w k lg t d : queue_ok t d -> t <= t0 -> agrees site d ->
  let d' := snd (approve id by_ t0 t1 w k lg d) in
  agrees site d' /\
  (dk_reg d' = dk_reg d \/ exists req, om_get id (dk_pending d) = Some req /\ t0 < jr_expiresAt req /\ om_has (jr_uid req) (rg_nodes (dk_reg d)) = false /\
    dk_reg d' = set_nodes (om_set (jr_uid req) (unplaced req) (rg_nodes (dk_reg d))) (dk_reg d)).
Proof.
  intros Hq Ht (nodes & Hn & Hb). pose proof (expire_ok t t0 d Hq Ht) as (l & _ & _ & Hrow & Hi & _ & Hp). cbv zeta. unfold approve.
  set (d1 := expire t0 d) in *. assert (agrees site d1) as Hag by (by exists nodes).
  destruct (om_get id (dk_pending d1)) as [req|] eqn:Eg; [|split; [exact Hag|by left]].
  destruct (om_has (jr_uid req) (rg_nodes (dk_reg d1))) eqn:Ereg; [split; [by exists nodes|by left]|].
  assert (om_get id (dk_pending d) = Some req /\ t0 < jr_expiresAt req /\ row_ok req) as (Hget & Hexp & Hok).
  { pose proof Eg as E. rewrite Hp in E. apply get_index in E as [[Hreq Ha]%filter_in _]. rewrite Forall_forall in Hrow. split_and!; [|unfold alive in Ha; lia|by apply Hrow].
    destruct Hq as (l0 & _ & _ & _ & Hi0 & _ & Hp0). cbn [d1 expire with_pending dk_pending] in Eg.
    rewrite (om_get_filter_val (fun r => negb (jr_expiresAt r <=? t0))) in Eg by (rewrite Hp0, keys_index; by apply filter_nodup).
    destruct (om_get id (dk_pending d)) as [r|]; [|done]. destruct (negb _); [|done]. exact Eg. }
  destruct (appendToNodesFile (unplaced req) w d1) as [d2|e] eqn:Ea; [|split; [exact Hag|by left]]. cbn [snd].
  pose proof (append_same _ _ _ _ Ea) as (E1 & _ & _). unfold appendToNodesFile in Ea. change (dk_nodes d1) with (dk_nodes d) in Ea. rewrite Hn in Ea.
  destruct nodes as [| | | | |doc]; try discriminate Ea. destruct (field "nodes" doc) as [[| | | |entries|]|] eqn:Ef; try discriminate Ea.
  destruct (existsb _ entries); [discriminate Ea|]. destruct w; [|discriminate Ea]. injection Ea as <-.
  destruct Hok as (_ & Hu & Hl & _). pose proof (uid_chars _ Hu) as [Hne _].
  assert (jr_label req <> "") as Hlne by (destruct Hl as [Hl| ->]; [by intros E; rewrite E in Hl|done]).
  assert (om_get (jr_uid req) (rg_nodes (dk_reg d)) = None) as Hnone.
  { unfold om_has in Ereg. change (dk_reg d1) with (dk_reg d) in Ereg. by destruct (om_get (jr_uid req) (rg_nodes (dk_reg d))). }
  pose proof (buildRegistry_admits site doc entries (dk_reg d) (jr_uid req) (jr_label req) Hb Ef Hu Hlne Hnone) as Hnew.
  split.
  - eexists. split; [by destruct k|]. destruct k; cbn; rewrite (om_set_last (jr_uid req)) by exact Hnone; exact Hnew.
  - right. exists req. split_and!; [done|done|exact Ereg|by destruct k].
Qed.

Lemma other_same d e : (forall id by_, de_act e <> Approve id by_) -> dk_reg (desk_step d e) = dk_reg d /\ dk_nodes (desk_step d e) = dk_nodes d.
Proof.
  intros H. unfold desk_step. destruct (de_act e) as [input from id| |uid|id by_|id by_] eqn:E; try done; [| by destruct (H id by_)|].
  - unfold request. destruct (read_input input) as [[[uid label] firmware]|]; [|done]. destruct (om_has uid _); [done|].
    destruct (find_uid uid _); [done|]. destruct (Nat.leb _ _); [done|]. by destruct (de_queue e).
  - unfold deny. destruct (om_get id _); [|done]. by destruct (de_queue e).
Qed.

Lemma step_agrees site t d e : queue_ok t d -> fair t d e -> agrees site d -> agrees site (desk_step d e).
Proof.
  intros Hq (Ht & _ & _ & Hf) Hag. destruct (de_act e) as [| | |id by_|] eqn:E;
    try (assert (forall id by_, de_act e <> Approve id by_) as Hna by (by rewrite E); destruct (other_same d e Hna) as [E1 E2]; unfold agrees in *; by rewrite E1, E2).
  unfold desk_step. rewrite E. by eapply approve_agrees; [exact Hq|lia|].
Qed.

Lemma step_queue t d e : queue_ok t d -> fair t d e -> queue_ok (de_t0 e) (desk_step d e).
Proof.
  intros Hq (Ht & Hlo & Hhi & Hf). unfold desk_step. destruct (de_act e) as [input from id| |uid|id by_|id by_].
  - destruct Hf as (? & ? & ?). by eapply request_ok.
  - apply (expire_ok t); [done|lia].
  - apply (expire_ok t); [done|lia].
  - apply (approve_ok t); [done|lia].
  - apply (deny_queue_ok t); [done|lia].
Qed.

Lemma reach_ok site t d : reach site t d -> queue_ok t d /\ agrees site d.
Proof.
  induction 1 as [nodes reg t Hb|t d e _ [Hq Ha] Hf|t d nodes reg now d' _ [Hq Ha] Hn Hb Ht Hr].
  - split; [|by exists nodes]. exists []. split_and!; [done|cbn; lia|constructor|constructor|constructor|done].
  - split; [by eapply step_queue|by eapply step_agrees].
  - destruct Hq as (l & Hk & Hs & Hrow & Hi & Hu & _). rewrite (restart_with reg now d l Hk Hs Hrow Hi) in Hr.
    destruct (forallb _ l); [|done]. injection Hr as <-. split; [|by exists nodes]. by exists l.
Qed.

(** C18: Admission gives an identity and nothing else. Whatever is asked,
    answered or restarted, the registry that is running is the one the edge
    would start with from its files; floors, tables, who owns and covers them
    and the seats stay as they are; and the only change to the nodes is that an
    approval adds the unplaced node of a request that waits and is not too old. *)
Theorem admission_changes_no_count site t d e : reach site t d -> fair t d e ->
  let d' := desk_step d e in
  (exists nodes, dk_nodes d' = Some nodes /\ buildRegistry site nodes = Ok (dk_reg d')) /\
  rg_floors (dk_reg d') = rg_floors (dk_reg d) /\ rg_tables (dk_reg d') = rg_tables (dk_reg d) /\ rg_seatIndex (dk_reg d') = rg_seatIndex (dk_reg d) /\
  (rg_nodes (dk_reg d') = rg_nodes (dk_reg d) \/
   exists id by_ req, de_act e = Approve id by_ /\ om_get id (dk_pending d) = Some req /\ de_t0 e < jr_expiresAt req /\
     om_has (jr_uid req) (rg_nodes (dk_reg d)) = false /\ rg_nodes (dk_reg d') = om_set (jr_uid req) (unplaced req) (rg_nodes (dk_reg d))).
Proof.
  intros [Hq Ha]%reach_ok Hf. cbv zeta. pose proof (step_agrees site t d e Hq Hf Ha) as Hag. split; [exact Hag|].
  destruct (de_act e) as [| | |id by_|] eqn:E;
    try (assert (forall id by_, de_act e <> Approve id by_) as Hna by (by rewrite E); destruct (other_same d e Hna) as [-> _]; by (split_and!; [..|left])).
  destruct Hf as (Ht & _). destruct (approve_agrees site id by_ (de_t0 e) (de_t1 e) (de_nodes e) (de_queue e) (de_log e) t d Hq ltac:(lia) Ha) as [_ H].
  unfold desk_step. rewrite E. destruct H as [-> |(req & Hg & Hexp & Hn & ->)]; [by (split_and!; [..|left])|]. split_and!; [done..|].
  right. by exists id, by_, req.
Qed.

(** C19: The queue of admissions is bounded and survives a restart, as long as
    the clock does not go back. At most 32 requests wait, one to a node, none of
    an admitted node; and the edge that starts over the files at a later time
    comes up with exactly the requests that waited and are not too old by then,
    provided that every request in the file, one that is too old or admitted by
    now included, has a label of its own; otherwise it does not come up. (A
    request without a label is kept with the uid as its label, which the check of
    the file refuses.) *)
Theorem queue_survives_a_restart site t d : reach site t d ->
  (length (dk_pending d) <= MAX_PENDING)%nat /\ NoDup (map jr_uid (rows d)) /\
  (forall r, r ∈ rows d -> om_has (jr_uid r) (rg_nodes (dk_reg d)) = false /\ t < jr_expiresAt r) /\
  exists l, kept d l /\ forall now, t <= now ->
    restart (dk_reg d) true now d =
      if forallb (fun r => LABEL_RE (jr_label r)) l then Some (with_pending (List.filter (fun e => now <? jr_expiresAt e.2) (dk_pending d)) d) else None.
Proof.
  intros [(l & Hk & Hs & Hr & Hi & Hu & Hp) _]%reach_ok. rewrite (rows_index _ _ Hp), Hp. split_and!.
  - unfold index. rewrite length_map. pose proof (filter_length (alive t (dk_reg d)) l). lia.
  - by apply filter_nodup.
  - intros r [_ H]%filter_in. unfold alive, registered in H. destruct (om_has _ _); [|lia]. by rewrite andb_false_r in H.
  - exists l. split; [done|]. intros now Hnow. rewrite (restart_with _ now d l Hk Hs Hr Hi). destruct (forallb _ l); [|done]. unfold with_pending. do 2 f_equal.
    rewrite (filter_index (fun r => now <? jr_expiresAt r)), filter_filter. f_equal. apply filter_ext. intros r. unfold alive.
    destruct (registered _ _); cbn [negb]; lia.
Qed.

(** Only a request for which a person gave the code shown on the flasher is
    confirmed, and looking for it changes no node. *)
Theorem confirmed_request_is_the_one_shown id input now d u :
  fst (confirmApproval id input now d) = Ok u ->
  exists req, req ∈ rows (expire now d) /\ jr_id req = id /\ field "uid" input = Some (JStr (jr_uid req)) /\
    field "pairingCode" input = Some (JStr (pairingCode id)) /\ now < jr_expiresAt req.
Proof.
  unfold confirmApproval, requests. destruct (List.find _ _) as [req|] eqn:Ef; cbn [fst]; [|done].
  apply find_some in Ef as [Hin%list_elem_of_In Hid%bool_decide_eq_true]. rewrite isort_elem in Hin.
  destruct (field "uid" input) as [[| | |a| |]|] eqn:Eu; try done. destruct (field "pairingCode" input) as [[| | |b| |]|] eqn:Ep; rewrite ?andb_false_r; try done.
  destruct (bool_decide (a = jr_uid req) && bool_decide (b = pairingCode id)) eqn:E; [|done]. apply andb_true_iff in E as [->%bool_decide_eq_true ->%bool_decide_eq_true].
  intros _. exists req. split_and!; try done. unfold rows, expire, with_pending in Hin. cbn in Hin.
  apply list_elem_of_fmap in Hin as (e & -> & [_ H]%filter_in). lia.
Qed.
End life.

(** ** A desk at the demonstration site *)

Module Demo.
#[local] Instance texts : Texts := {| text_of := fun v => match v with JStr s => Some s | _ => Some "" end |}.
#[local] Instance trig : Trig := flat_trig.

Definition asked : string := "30:ed:a0:00:00:09".
Definition id1 : string := "00000000-0000-4000-8000-000000000001".
Definition d0 : Desk := new_desk demo_reg demo_nodes_json.
Definition say (a : act) (t : Z) : deed := {| de_act := a; de_t0 := t; de_t1 := t; de_nodes := true; de_queue := true; de_log := true |}.
Definition ask (label : string) : deed := say (Ask [("uid", JStr "30:ED:A0:00:00:09 "); ("label", JStr label)] "127.0.0.1" id1) 1000.
Definition d1 : Desk := desk_step d0 (ask "Bench").
Definition allow : deed := say (Approve id1 "console") 2000.

Lemma d1_reached : reach demo_site_json 1000 d1.
Proof.
  apply (reach_step demo_site_json 0 d0 (ask "Bench")); [apply reach_new, demo_reg_ok|]. unfold fair, max_safe, REQUEST_TTL_MS. cbn [ask say de_t0 de_t1 de_act].
  do 3 (split; [lia|]). split; [vm_compute; reflexivity|]. split; [by intros ?%elem_of_nil|]. vm_compute. discriminate.
Qed.

Lemma allow_fair : fair 1000 d1 allow.
Proof. unfold fair, max_safe, REQUEST_TTL_MS. cbn [allow say de_t0 de_t1 de_act]. do 3 (split; [lia|]). exact I. Qed.

Lemma admission_changes_no_count_witness :
  om_get asked (rg_nodes (dk_reg (desk_step d1 allow))) =
    Some {| nd_uid := asked; nd_label := "Bench"; nd_floorId := None; nd_pose := None; nd_owns := []; nd_simulated := false; nd_rgb := false;
            nd_detector := OnNode |} /\
  rg_tables (dk_reg (desk_step d1 allow)) = rg_tables demo_reg.
Proof.
  destruct (admission_changes_no_count demo_site_json 1000 d1 allow d1_reached allow_fair) as (_ & _ & Ht & _ & _).
  split; [vm_compute; reflexivity|]. exact Ht.
Defined.

Lemma queue_survives_a_restart_witness : (length (dk_pending d1) <= MAX_PENDING)%nat /\ map jr_uid (rows d1) = [asked] /\
  option_map rows (restart demo_reg true 5000 d1) = Some (rows d1).
Proof.
  destruct (queue_survives_a_restart demo_site_json 1000 d1 d1_reached) as (Hs & _ & _ & _). split_and!; [exact Hs|vm_compute; reflexivity..].
Defined.

(** A request without a label, then a restart. *)
Example unlabelled_request_stops_a_restart :
  let d := desk_step d0 (ask "") in
  map jr_label (rows d) = [asked] /\ restart demo_reg true 2000 d = None.
Proof. vm_compute. split; reflexivity. Qed.

(** A node written into the file by hand, in capitals, and then admitted. *)
Example admission_of_a_node_in_capitals :
  let capitals := JObj [("nodes", JArr [demo_node_json "30:ED:A0:00:00:09" []])] in
  let d := desk_step (with_nodes (Some capitals) d1) allow in
  is_ok (buildRegistry demo_site_json capitals) = true /\ om_has asked (rg_nodes (dk_reg d)) = true /\
  match dk_nodes d with Some nodes => is_ok (buildRegistry demo_site_json nodes) = false | None => False end.
Proof. vm_compute. split_and!; reflexivity. Qed.
End Demo.
