(* ===== verification/Flashers.v ===== *)
(** The tokens with which a flasher may ask for an admission
    (src/edge/adoption-credentials.ts): issued once, kept as digests in a
    file, bound to an account, and gone when they are revoked or too old; and
    the sign-in by which the flasher on a Mac gets one
    (src/algo/flasher-login.ts), with the request that waits between its two
    looks at the account as a state of its own. The account behind a name is
    [Accounts.accountSubject], here a function. *)

From S2P Require Import Prelude Bytes Json NodeServer Accounts Sessions Adoption.

(** @edge/adoption-credentials.ts 5-8 StoredCredential *)
Record StoredCredential := {
  sc_id : string; sc_label : string; sc_createdAt : Z; sc_expiresAt : Z; sc_by : string; sc_digest : string; sc_binding : option string }.

(** The file: there is none, it is not one to trust (too long, readable by
    others, no JSON), or the value it holds. *)
Inductive Vault := Absent | Untrusted | Holds (root : json).

Definition ITEM_KEYS : list string := ["id"; "label"; "createdAt"; "expiresAt"; "by"; "digest"; "binding"].

(** @edge/adoption-credentials.ts 67-77 read *)
Definition read_item (v : json) : option StoredCredential :=
  item ← as_object v;
  if has_extra ITEM_KEYS item then None
  else
    by_ ← str_where (fun s => js_length s <=? 100) (field "by" item);
    binding ← match field "binding" item with
              | None => Some None
              | Some (JStr b) => if (100 <? js_length b) || negb (starts_with "algo:" by_) then None else Some (Some b)
              | Some _ => None
              end;
    id ← str_where ID_RE (field "id" item);
    label ← str_where (fun s => js_length s <=? 60) (field "label" item);
    createdAt ← field "createdAt" item ≫= as_safe_integer;
    expiresAt ← field "expiresAt" item ≫= as_safe_integer;
    digest ← str_where is_hex64 (field "digest" item);
    if expiresAt <=? createdAt then None
    else Some {| sc_id := id; sc_label := label; sc_createdAt := createdAt; sc_expiresAt := expiresAt; sc_by := by_; sc_digest := digest; sc_binding := binding |}.

(** @edge/adoption-credentials.ts 60-81 read *)
Definition read (vault : Vault) : result Failure (list StoredCredential) :=
  match vault with
  | Absent => Ok []
  | Untrusted => Err Unavailable
  | Holds root =>
      of_option Unavailable
        (o ← as_object root;
         tokens ← field "tokens" o ≫= as_array;
         if negb (match field "version" o with Some (JNum q) => Qeqb q 1 | _ => false end) || has_extra ["version"; "tokens"] o || Nat.ltb 32 (length tokens)
         then None else mapM read_item tokens)
  end.

(** Whether the account a credential is bound to is still the same: what
    [bindAccounts] was given.
    @edge/adoption-credentials.ts 83-85 active *)
Definition active (accountSubject : string -> option string) (now : Z) (item : StoredCredential) : bool :=
  (now <? sc_expiresAt item) &&
  match sc_binding item with
  | None => true
  | Some b => bool_decide (b = EmptyString) || bool_decide (accountSubject (String.string_of_list_ascii (drop 5 (chars (sc_by item)))) = Some b)
  end.

(** [JSON.stringify] of an entry: [binding] is left out when there is none. *)
Definition item_json (c : StoredCredential) : json :=
  JObj ([("id", JStr (sc_id c)); ("label", JStr (sc_label c)); ("createdAt", JInt (sc_createdAt c)); ("expiresAt", JInt (sc_expiresAt c));
         ("by", JStr (sc_by c)); ("digest", JStr (sc_digest c))] ++ match sc_binding c with Some b => [("binding", JStr b)] | None => [] end).

(** @edge/adoption-credentials.ts 93-99 write *)
Definition write (written : bool) (tokens : list StoredCredential) (vault : Vault) : result Failure Vault :=
  if written then Ok (Holds (JObj [("version", JInt 1); ("tokens", JArr (map item_json tokens))])) else Err Unavailable.

(** [/^tmflash_[0-9a-f]{64}$/] *)
Definition is_token (t : string) : bool := starts_with "tmflash_" t && is_hex64 (String.string_of_list_ascii (drop 8 (chars t))).

(** [/^[\w .()-]{1,60}$/] *)
Definition is_flasher_label (s : string) : bool :=
  between 1 60 (js_length s) && forallb (fun c => word_char c || includes (code c) [32; 46; 40; 41; 45]) (chars s).

Section flashers.
Context {sha : Sha}.

Definition digest_of (token : string) : string := to_hex (sha256 (bytes_of_string token)).

(** @edge/adoption-credentials.ts 21-23 list *)
Definition list_active (accountSubject : string -> option string) (now : Z) (vault : Vault) : result Failure (list StoredCredential) :=
  let! l := read vault in Ok (List.filter (active accountSubject now) l).

(** @edge/adoption-credentials.ts 25-31 authorize *)
Definition authorize (accountSubject : string -> option string) (now : Z) (token : option string) (vault : Vault) : bool :=
  match token with
  | Some t =>
      is_token t &&
      match read vault with
      | Ok l => existsb (fun item => active accountSubject now item && bool_decide (sc_digest item = digest_of t)) l
      | Err _ => false
      end
  | None => false
  end.

(** What is drawn for a credential: 32 random bytes in hex, and a UUID; and
    three readings of the clock.
    @edge/adoption-credentials.ts 33-44 issue *)
Definition issue (accountSubject : string -> option string) (label hours : json) (by_ : string) (binding : option string)
    (secret id : string) (t0 t1 t2 : Z) (written : bool) (vault : Vault) : result Failure (StoredCredential * string) * Vault :=
  match label, hours with
  | JStr l, JNum h =>
      if negb (is_flasher_label (js_trim l)) || negb (existsb (fun n => Qeqb h (inject_Z n)) [1; 24; 168]) then (Err Validation, vault)
      else match read vault with
      | Err e => (Err e, vault)
      | Ok all =>
          let entries := List.filter (active accountSubject t0) all in
          if Nat.leb 32 (length entries) then (Err Conflict, vault)
          else
            let token := "tmflash_" +:+ secret in
            let item := {| sc_id := id; sc_label := js_trim l; sc_createdAt := t1; sc_expiresAt := t2 + Qfloor h * 3600000; sc_by := by_;
                           sc_digest := digest_of token; sc_binding := match binding with Some b => or_null b | None => None end |} in
            match write written (entries ++ [item]) vault with
            | Err e => (Err e, vault)
            | Ok vault' => (Ok (item, token), vault')
            end
      end
  | _, _ => (Err Validation, vault)
  end.

(** @edge/adoption-credentials.ts 15-19 issueForAccount *)
Definition issueForAccount (accountSubject : string -> option string) (label hours : json) (user : string)
    (secret id : string) (t0 t1 t2 : Z) (written : bool) (vault : Vault) : result Failure (StoredCredential * string) * Vault :=
  match accountSubject user with
  | Some binding =>
      if bool_decide (binding = EmptyString) then (Err Validation, vault)
      else issue accountSubject label hours ("algo:" +:+ user) (Some binding) secret id t0 t1 t2 written vault
  | None => (Err Validation, vault)
  end.

(** @edge/adoption-credentials.ts 53-58 revoke *)
Definition revoke (id : string) (written : bool) (vault : Vault) : result Failure unit * Vault :=
  match read vault with
  | Err e => (Err e, vault)
  | Ok entries =>
      if negb (existsb (fun item => bool_decide (sc_id item = id)) entries) then (Err NotFound, vault)
      else match write written (List.filter (fun item => negb (bool_decide (sc_id item = id))) entries) vault with
      | Err e => (Err e, vault)
      | Ok vault' => (Ok tt, vault')
      end
  end.

(** @edge/adoption-credentials.ts 46-51 signOut *)
Definition signOut (token : option string) (written : bool) (vault : Vault) : result Failure unit * Vault :=
  match token with
  | Some t =>
      if negb (is_token t) then (Ok tt, vault)
      else match read vault with
      | Err e => (Err e, vault)
      | Ok l =>
          match List.find (fun item => bool_decide (sc_digest item = digest_of t)) l with
          | Some item => revoke (sc_id item) written vault
          | None => (Ok tt, vault)
          end
      end
  | None => (Ok tt, vault)
  end.

(** ** The sign-in of a flasher on a Mac *)

(** The base64url text of some bytes, without padding. *)
Definition b64_digit (v : Z) : Ascii.ascii :=
  Ascii.ascii_of_N (Z.to_N (if v <? 26 then 65 + v else if v <? 52 then 71 + v else if v <? 62 then v - 4 else if v =? 62 then 45 else 95)).
Fixpoint b64_chars (bs : list Z) : list Ascii.ascii :=
  match bs with
  | a :: b :: c :: bs => b64_digit (a / 4) :: b64_digit (a mod 4 * 16 + b / 16) :: b64_digit (b mod 16 * 4 + c / 64) :: b64_digit (c mod 64) :: b64_chars bs
  | [a; b] => [b64_digit (a / 4); b64_digit (a mod 4 * 16 + b / 16); b64_digit (b mod 16 * 4)]
  | [a] => [b64_digit (a / 4); b64_digit (a mod 4 * 16)]
  | [] => []
  end.
(** The example of RFC 7636, appendix B. *)
Example b64_of_rfc7636 : String.string_of_list_ascii (b64_chars [19; 211; 30; 150; 26; 26; 216; 236; 47; 22; 177; 12; 76; 152; 46; 8; 118; 168; 120; 173;
  109; 241; 68; 86; 110; 225; 137; 74; 203; 112; 249; 195]) = "E9Melhoa2OwvFrEMTJguCHaoeK1t8URWbuGJSstw-cM".
Proof. reflexivity. Qed.

Definition challenge_of (verifier : string) : string := String.string_of_list_ascii (b64_chars (sha256 (bytes_of_string verifier))).

(** @algo/flasher-login.ts 8-8 Grant *)
Record Grant := { g_challenge : string; g_user : string; g_subject : string; g_expiresAt : Z }.

(** A request to authorize that waits for the storage: what it took with it. *)
Record Waiting := { w_user : string; w_subject : string; w_challenge : string; w_state : string }.

(** @algo/flasher-login.ts 13-17 flasherLogin *)
Record Login := { lo_codes : list (string * Grant); lo_limiter : RateLimiter; lo_waiting : list Waiting; lo_vault : Vault }.
Definition new_login (v : Vault) : Login :=
  {| lo_codes := []; lo_limiter := {| r_max := 30; r_windowMs := 60000; r_hits := [] |}; lo_waiting := []; lo_vault := v |}.
Definition with_codes (m : list (string * Grant)) (l : Login) : Login :=
  {| lo_codes := m; lo_limiter := lo_limiter l; lo_waiting := lo_waiting l; lo_vault := lo_vault l |}.
Definition with_waiting (w : list Waiting) (l : Login) : Login :=
  {| lo_codes := lo_codes l; lo_limiter := lo_limiter l; lo_waiting := w; lo_vault := lo_vault l |}.
Definition with_vault (v : Vault) (l : Login) : Login :=
  {| lo_codes := lo_codes l; lo_limiter := lo_limiter l; lo_waiting := lo_waiting l; lo_vault := v |}.
Definition with_limiter (r : RateLimiter) (l : Login) : Login :=
  {| lo_codes := lo_codes l; lo_limiter := r; lo_waiting := lo_waiting l; lo_vault := lo_vault l |}.

(** What a request is answered; [Waits] is no answer yet. *)
Inductive Reply := Refused (status : Z) | Thrown (e : Failure) | Waits | Redirect (url : string) | SignedIn (item : StoredCredential) (token user : string).

(** @algo/flasher-login.ts 20-20 expire *)
Definition expire_codes (now : Z) (l : Login) : Login := with_codes (List.filter (fun e => negb (g_expiresAt e.2 <=? now)) (lo_codes l)) l.

(** @algo/flasher-login.ts 9-9 CALLBACK *)
Definition CALLBACK : string := "hk.hkumyseat.tmflash://login".

Definition nonempty (o : option string) : option string := o ≫= or_null.

(** Up to the wait for the storage: [admitted] is what the capability check
    answers, [who] the account of the session.
    @algo/flasher-login.ts 18-30 authorize *)
Definition authorize_start (admitted : verdict) (header : bool) (who : option string) (accountSubject : string -> option string)
    (body : list (string * json)) (now : Z) (l : Login) : Reply * Login :=
  match admitted with
  | Accounts.Status c => (Refused c, l)
  | Next =>
      if negb header then (Refused 403, l)
      else match (user ← nonempty who; subject ← nonempty (accountSubject user); Some (user, subject)) with
      | None => (Refused 401, l)
      | Some (user, subject) =>
          match field "challenge" body, field "state" body with
          | Some (JStr challenge), Some (JStr state) =>
              if negb (is_mac challenge) || negb (is_mac state) then (Refused 400, l)
              else
                let l := expire_codes now l in
                if Nat.leb 128 (length (lo_codes l)) then (Refused 429, l)
                else (Waits, with_waiting (lo_waiting l ++ [{| w_user := user; w_subject := subject; w_challenge := challenge; w_state := state |}]) l)
          | _, _ => (Refused 400, l)
          end
      end
  end.

(** And after it, of the [i]-th request that waits; [code] is 32 random bytes
    in base64url.
    @algo/flasher-login.ts 30-35 authorize *)
Definition authorize_end (i : nat) (ready : bool) (who : option string) (accountSubject : string -> option string) (code : string) (now : Z) (l : Login) : Reply * Login :=
  match lo_waiting l !! i with
  | None => (Waits, l)
  | Some w =>
      let l := with_waiting (delete i (lo_waiting l)) l in
      if negb ready then (Thrown Unavailable, l)
      else if negb (bool_decide (who = Some (w_user w))) || negb (bool_decide (accountSubject (w_user w) = Some (w_subject w))) then (Refused 401, l)
      else
        (Redirect (CALLBACK +:+ "?code=" +:+ code +:+ "&state=" +:+ w_state w),
         with_codes (om_set code {| g_user := w_user w; g_subject := w_subject w; g_challenge := w_challenge w; g_expiresAt := now + 60000 |} (lo_codes l)) l)
  end.

(** [/^[A-Za-z0-9._~-]{43,128}$/] *)
Definition is_verifier (s : string) : bool :=
  between 43 128 (js_length s) && forallb (fun c => is_digit c || is_lower c || is_upper c || includes (code c) [46; 95; 126; 45]) (chars s).

(** @algo/flasher-login.ts 37-50 exchange *)
Definition exchange (ip : string) (accountSubject : string -> option string) (body : list (string * json)) (secret id : string)
    (now t0 t1 t2 : Z) (written : bool) (l : Login) : Reply * Login :=
  let '(ok, limiter) := allow ip now (lo_limiter l) in
  let l := with_limiter limiter l in
  if negb ok then (Refused 429, l)
  else
    let l := expire_codes now l in
    let given := match field "code" body with Some (JStr code) => grant ← om_get code (lo_codes l); Some (code, grant) | _ => None end in
    match given, field "verifier" body with
    | Some (code, grant), Some (JStr verifier) =>
        if negb (is_verifier verifier) || negb (bool_decide (accountSubject (g_user grant) = Some (g_subject grant))) then (Refused 401, l)
        else if negb (bool_decide (challenge_of verifier = g_challenge grant)) then (Refused 401, l)
        else
          let l := with_codes (om_del code (lo_codes l)) l in
          let '(r, vault) := issue accountSubject (JStr "TMflash on Mac") (JInt 24) ("algo:" +:+ g_user grant) (Some (g_subject grant)) secret id t0 t1 t2 written (lo_vault l) in
          (match r with Ok (item, token) => SignedIn item token (g_user grant) | Err e => Thrown e end, with_vault vault l)
    | _, _ => (Refused 401, l)
    end.

(** @algo/flasher-login.ts 51-55 logout *)
Definition logout (bearer : option string) (written : bool) (l : Login) : result Failure unit * Login :=
  let '(r, vault) := signOut bearer written (lo_vault l) in (r, with_vault vault l).
End flashers.

(** ** What is read back *)

(** A credential as [issueForAccount] makes it. *)
Definition cred_ok (c : StoredCredential) : Prop :=
  ID_RE (sc_id c) = true /\ js_length (sc_label c) <= 60 /\ js_length (sc_by c) <= 100 /\ starts_with "algo:" (sc_by c) = true /\
  is_hex64 (sc_digest c) = true /\ - max_safe <= sc_createdAt c /\ sc_createdAt c < sc_expiresAt c /\ sc_expiresAt c <= max_safe /\
  match sc_binding c with Some b => js_length b <= 100 | None => True end.

Lemma read_item_ok c : cred_ok c -> read_item (item_json c) = Some c.
Proof.
  intros (Hid & Hl & Hby & Halgo & Hd & Hlo & Hlt & Hhi & Hb). unfold read_item, item_json. cbn [as_object mbind option_bind].
  set (o := _ ++ _). assert (has_extra ITEM_KEYS o = false) as -> by (unfold o; by destruct (sc_binding c)).
  assert (field "by" o = Some (JStr (sc_by c)) /\ field "id" o = Some (JStr (sc_id c)) /\ field "label" o = Some (JStr (sc_label c)) /\
    field "createdAt" o = Some (JInt (sc_createdAt c)) /\ field "expiresAt" o = Some (JInt (sc_expiresAt c)) /\ field "digest" o = Some (JStr (sc_digest c)) /\
    field "binding" o = option_map JStr (sc_binding c)) as (-> & -> & -> & -> & -> & -> & ->) by (unfold o; by destruct (sc_binding c)).
  clearbody o. unfold str_where. rewrite (proj2 (Z.leb_le _ _) Hby). cbn [mbind option_bind].
  assert (match option_map JStr (sc_binding c) with
          | Some (JStr b) => if (100 <? js_length b) || negb (starts_with "algo:" (sc_by c)) then None else Some (Some b)
          | Some _ => None | None => Some None end = Some (sc_binding c)) as ->.
  { destruct (sc_binding c) as [b|]; [|done]. cbn [option_map]. by rewrite Halgo, (proj2 (Z.ltb_ge 100 (js_length b))). }
  cbn [mbind option_bind]. rewrite Hid, (proj2 (Z.leb_le _ _) Hl), Hd. cbn [mbind option_bind]. rewrite !as_safe_integer_JInt by lia. cbn [mbind option_bind].
  rewrite (proj2 (Z.leb_gt _ _) Hlt). by destruct c.
Qed.

(** The file holds these credentials. *)
Definition holds (v : Vault) (l : list StoredCredential) : Prop :=
  (v = Absent /\ l = []) \/ v = Holds (JObj [("version", JInt 1); ("tokens", JArr (map item_json l))]).

Lemma read_holds v l : holds v l -> Forall cred_ok l -> (length l <= 32)%nat -> read v = Ok l.
Proof.
  intros [[-> ->]| ->] Hl Hs; [done|]. unfold read. cbn [as_object mbind option_bind]. set (o := [_; _]).
  assert (field "tokens" o = Some (JArr (map item_json l)) /\ field "version" o = Some (JInt 1) /\ has_extra ["version"; "tokens"] o = false) as (-> & -> & ->) by done.
  clearbody o. cbn [as_array mbind option_bind]. rewrite length_map. rewrite (proj2 (Nat.ltb_ge 32 (length l)) Hs). cbn [orb negb Qeqb].
  assert (mapM read_item (map item_json l) = Some l) as ->; [|done].
  induction Hl as [|c l Hc Hl IH]; [done|]. cbn [map mapM]. rewrite (read_item_ok c Hc). cbn [mbind option_bind]. rewrite IH; [done|]. cbn in Hs. lia.
Qed.

(** What is documented of SHA-256: a digest is 32 bytes. *)
Class ShaLaws {sha : Sha} : Prop := { sha_hex m : is_hex64 (to_hex (sha256 m)) = true }.

Section life.
Context {sha : Sha} {laws : ShaLaws}.

(** The ids that a sign-out takes away. *)
Definition signed_out (token : option string) (v : Vault) : list string :=
  match token, read v with
  | Some t, Ok l => if is_token t then map sc_id (option_list (List.find (fun item => bool_decide (sc_digest item = digest_of t)) l)) else []
  | _, _ => []
  end.

Definition if_ok {A} (r : result Failure A) (l : list string) : list string := match r with Ok _ => l | Err _ => [] end.

(** The clock goes forward, the id is new, and what names the account is short. *)
Definition sane (t1 t2 : Z) (id : string) (given : list StoredCredential) (user b : string) : Prop :=
  t1 <= t2 /\ - max_safe <= t1 /\ t2 + 168 * 3600000 <= max_safe /\ ID_RE id = true /\ id ∉ map sc_id given /\
  js_length user <= 95 /\ js_length b <= 100 /\ b <> "".

Definition and_given (r : result Failure (StoredCredential * string)) (given : list StoredCredential) : list StoredCredential :=
  match r with Ok (c, _) => c :: given | Err _ => given end.

(** Every file there can be, with what was issued for it and what was revoked. *)
Inductive life : Vault -> list StoredCredential -> list string -> Prop :=
| life_new : life Absent [] []
| life_issue v given gone subject label hours user b secret id t0 t1 t2 w r v' : life v given gone ->
    sane t1 t2 id given user b -> issue subject label hours ("algo:" +:+ user) (Some b) secret id t0 t1 t2 w v = (r, v') ->
    life v' (and_given r given) gone
| life_revoke v given gone id w r v' : life v given gone -> revoke id w v = (r, v') -> life v' given (if_ok r [id] ++ gone)
| life_signOut v given gone token w r v' : life v given gone -> signOut token w v = (r, v') -> life v' given (if_ok r (signed_out token v) ++ gone).

Definition known (v : Vault) (given : list StoredCredential) (gone : list string) : Prop := exists l,
  holds v l /\ Forall cred_ok l /\ (length l <= 32)%nat /\ (forall c, c ∈ l -> c ∈ given /\ sc_id c ∉ gone) /\
  (forall c, c ∈ given -> exists b user, sc_binding c = Some b /\ b <> "" /\ sc_by c = "algo:" +:+ user) /\ (forall id, id ∈ gone -> id ∈ map sc_id given).

Lemma known_read v given gone : known v given gone -> exists l, read v = Ok l /\ holds v l /\ Forall cred_ok l /\ (length l <= 32)%nat /\
  forall c, c ∈ l -> c ∈ given /\ sc_id c ∉ gone.
Proof. intros (l & Hh & Hc & Hs & Hg & _). exists l. split; [by apply read_holds|done]. Qed.

Lemma starts_with_app p s : starts_with p (p +:+ s) = true.
Proof.
  unfold starts_with. induction p as [|c p IH]; [by destruct s|]. change (String.prefix (String c p) (String c (p +:+ s)) = true).
  unfold String.prefix; fold String.prefix. destruct (Ascii.ascii_dec c c); [exact IH|done].
Qed.

Lemma Qfloor_hours h : existsb (fun n => Qeqb h (inject_Z n)) [1; 24; 168] = true -> 1 <= Qfloor h <= 168.
Proof.
  intros (n & Hn & H)%existsb_exists. unfold Qeqb in H. apply andb_true_iff in H as [H1%Qle_bool_iff H2%Qle_bool_iff].
  assert (Qfloor h = n) as ->; [|by destruct Hn as [<-|[<-|[<-|[]]]]; lia].
  rewrite <- (Qfloor_Z n). apply Z.le_antisymm; apply Qfloor_resp_le; done.
Qed.

Lemma issue_failed subject label hours by_ binding secret id t0 t1 t2 w v e v' :
  issue subject label hours by_ binding secret id t0 t1 t2 w v = (Err e, v') -> v' = v.
Proof.
  unfold issue. destruct label as [| | |lab| |]; try by intros [= _ <-]. destruct hours as [| |h| | |]; try by intros [= _ <-]. destruct (_ || _); [by intros [= _ <-]|].
  destruct (read v) as [l|]; [|by intros [= _ <-]]. destruct (Nat.leb _ _); [by intros [= _ <-]|]. by destruct w; intros [= _ <-].
Qed.

(** What a credential that was issued is, and where it stands. *)
Lemma issue_made v given gone subject label hours user b secret id t0 t1 t2 w c token v' : known v given gone ->
  sane t1 t2 id given user b -> issue subject label hours ("algo:" +:+ user) (Some b) secret id t0 t1 t2 w v = (Ok (c, token), v') ->
  exists entries h, hours = JNum h /\ holds v' (entries ++ [c]) /\ Forall cred_ok (entries ++ [c]) /\ (length (entries ++ [c]) <= 32)%nat /\
    (forall x, x ∈ entries -> x ∈ given /\ sc_id x ∉ gone) /\ sc_binding c = Some b /\ sc_by c = "algo:" +:+ user /\
    sc_id c = id /\ token = "tmflash_" +:+ secret /\ sc_digest c = digest_of token /\ sc_expiresAt c = t2 + Qfloor h * 3600000.
Proof.
  intros Hk (Ht & Hlo & Hhi & Hid & _ & Huser & Hb & Hne). destruct (known_read _ _ _ Hk) as (l & Hr & Hh & Hc & Hs & Hg). unfold issue.
  destruct label as [| | |lab| |]; try done. destruct hours as [| |h| | |]; try done.
  destruct (negb (is_flasher_label (js_trim lab)) || _) eqn:El; [done|]. rewrite Hr.
  set (entries := List.filter _ l). destruct (Nat.leb 32 (length entries)) eqn:Ele; [done|]. destruct w; [|done].
  cbn [write]. set (item := {| sc_id := id |}). intros H. injection H as <- <- <-. apply orb_false_iff in El as [Hlab%negb_false Hh'%negb_false%Qfloor_hours].
  assert (or_null b = Some b) as Hnull by (unfold or_null; by rewrite bool_decide_eq_false_2).
  exists entries, h. split_and!; try done.
  - by right.
  - apply Forall_app. split; [by apply filter_Forall|]. apply Forall_singleton. unfold is_flasher_label in Hlab. apply andb_true_iff in Hlab as [Hlab _].
    unfold cred_ok, item. cbn [sc_id sc_label sc_by sc_digest sc_createdAt sc_expiresAt sc_binding].
    split; [done|]. split; [unfold between in Hlab; lia|]. split; [rewrite js_length_app; change (js_length "algo:") with 5; lia|]. split; [apply starts_with_app|].
    split; [apply sha_hex|]. split; [done|]. split; [lia|]. split; [lia|]. by rewrite Hnull.
  - rewrite length_app. cbn. apply Nat.leb_gt in Ele. lia.
  - intros x [Hx _]%filter_in. by apply Hg.
Qed.

Lemma issue_known v given gone subject label hours user b secret id t0 t1 t2 w r v' : known v given gone ->
  sane t1 t2 id given user b -> issue subject label hours ("algo:" +:+ user) (Some b) secret id t0 t1 t2 w v = (r, v') ->
  known v' (and_given r given) gone.
Proof.
  intros Hk Hsane. destruct r as [[c token]|e]; [|by intros ->%issue_failed]. cbn [and_given].
  intros (entries & h & _ & Hh & Hok & Hs & Hin & Eb & Eby & Eid & _)%(issue_made _ _ _ _ _ _ _ _ _ _ _ _ _ _ _ _ _ Hk Hsane).
  destruct Hk as (_ & _ & _ & _ & _ & Hgiven & Hgone). exists (entries ++ [c]). split_and!; try done.
  - intros x [Hx|Hx%list_elem_of_singleton]%elem_of_app; [destruct (Hin x Hx); split; [by right|done]|]. subst x. split; [left|].
    intros Hgo. apply Hgone in Hgo. destruct Hsane as (_ & _ & _ & _ & Hnew & _). congruence.
  - intros x [->|Hx]%elem_of_cons; [|by apply Hgiven]. exists b, user. destruct Hsane as (_ & _ & _ & _ & _ & _ & _ & ?). done.
  - intros x Hx. cbn [map]. right. by apply Hgone.
Qed.

Lemma revoke_known v given gone id w r v' : known v given gone -> revoke id w v = (r, v') -> known v' given (if_ok r [id] ++ gone).
Proof.
  intros Hk. pose proof Hk as (l & Hh & Hc & Hs & Hg & Hgiven & Hgone). unfold revoke. rewrite (read_holds v l Hh Hc Hs).
  destruct (existsb _ l) eqn:Ex; cbn [negb]; [|by intros [= <- <-]]. destruct w; [|by intros [= <- <-]]. cbn [write]. intros [= <- <-]. cbn [if_ok app].
  apply existsb_exists in Ex as (c0 & Hc0%list_elem_of_In & <-%bool_decide_eq_true).
  eexists (List.filter _ l). split_and!; [by right|by apply filter_Forall| | |done|].
  - etrans; [apply filter_length|done].
  - intros c [Hin Hne]%filter_in. destruct (Hg c Hin) as [? ?]. split; [done|]. apply not_elem_of_cons. split; [|done]. by apply negb_true, bool_decide_eq_false in Hne.
  - intros x [->|Hx]%elem_of_cons; [|by apply Hgone]. apply list_elem_of_fmap. exists c0. split; [done|]. by apply Hg.
Qed.

Lemma signOut_known v given gone token w r v' : known v given gone -> signOut token w v = (r, v') -> known v' given (if_ok r (signed_out token v) ++ gone).
Proof.
  intros Hk. destruct (known_read _ _ _ Hk) as (l & Hr & _). unfold signOut, signed_out. destruct token as [t|]; [|intros [= <- <-]; exact Hk]. rewrite Hr.
  destruct (is_token t); cbn [negb]; [|intros [= <- <-]; exact Hk]. destruct (List.find _ l) as [item|]; [|intros [= <- <-]; exact Hk]. apply revoke_known, Hk.
Qed.

Lemma life_known v given gone : life v given gone -> known v given gone.
Proof.
  induction 1 as [|v given gone subject label hours user b secret id t0 t1 t2 w r v' _ IH Hs H|v given gone id w r v' _ IH H|v given gone token w r v' _ IH H];
    [|exact (issue_known _ _ _ _ _ _ _ _ _ _ _ _ _ _ _ _ IH Hs H)|exact (revoke_known _ _ _ _ _ _ _ IH H)|exact (signOut_known _ _ _ _ _ _ _ IH H)].
  exists []. split; [left; split; reflexivity|]. split; [constructor|]. split; [cbn; lia|].
  split; [by intros c ?%elem_of_nil|]. split; [by intros c ?%elem_of_nil|by intros c ?%elem_of_nil].
Qed.

Lemma drop_algo user : String.string_of_list_ascii (drop 5 (chars ("algo:" +:+ user))) = user.
Proof. rewrite chars_app. change (drop 5 (chars "algo:" ++ chars user)) with (chars user). apply String.string_of_list_ascii_of_string. Qed.

Lemma is_token_made secret : is_hex64 secret = true -> is_token ("tmflash_" +:+ secret) = true.
Proof.
  intros H. unfold is_token. rewrite starts_with_app, chars_app. change (drop 8 (chars "tmflash_" ++ chars secret)) with (chars secret).
  unfold chars. by rewrite String.string_of_list_ascii_of_string.
Qed.

(** What was just issued opens the door, while its account is what it was. *)
Lemma issued_opens v given gone subject label hours user b secret id t0 t1 t2 w c token v' subject' now : known v given gone ->
  sane t1 t2 id given user b -> is_hex64 secret = true -> issue subject label hours ("algo:" +:+ user) (Some b) secret id t0 t1 t2 w v = (Ok (c, token), v') ->
  now < sc_expiresAt c -> subject' user = Some b -> authorize subject' now (Some token) v' = true.
Proof.
  intros Hk Hs Hsec Hi Hnow Hsub.
  destruct (issue_made _ _ _ _ _ _ _ _ _ _ _ _ _ _ _ _ _ Hk Hs Hi) as (entries & h & _ & Hh & Hok & Hl & _ & Eb & Eby & _ & -> & Ed & _).
  unfold authorize. rewrite (read_holds _ _ Hh Hok Hl), is_token_made by done. cbn [andb]. apply existsb_exists. exists c.
  split; [apply list_elem_of_In, elem_of_app; right; left|]. rewrite Ed, bool_decide_eq_true_2, andb_true_r by done. unfold active.
  rewrite Eb, Eby, drop_algo, Hsub, (bool_decide_eq_true_2 (Some b = Some b)), orb_true_r, andb_true_r by done. lia.
Qed.

(** A flasher's token is good for the account it was given to, for its time
    and until it is revoked. A token that is accepted was issued, has not been
    revoked or signed out, has not reached its end, and the account that asked
    for it is still the one it was. The token that has just been issued is
    accepted until its end while its account stays what it is; and a file that
    cannot be trusted lets nobody in. *)
Theorem flasher_token_is_current v given gone : life v given gone ->
  (forall subject now token, authorize subject now (Some token) v = true ->
     exists c user binding, c ∈ given /\ sc_digest c = digest_of token /\ sc_id c ∉ gone /\ now < sc_expiresAt c /\
       sc_by c = "algo:" +:+ user /\ sc_binding c = Some binding /\ subject user = Some binding) /\
  (forall subject label hours user b secret id t0 t1 t2 w c token v' now, subject user = Some b -> sane t1 t2 id given user b -> is_hex64 secret = true ->
     issueForAccount subject label hours user secret id t0 t1 t2 w v = (Ok (c, token), v') -> now < sc_expiresAt c ->
     authorize subject now (Some token) v' = true) /\
  (forall subject now token, authorize subject now token Untrusted = false).
Proof.
  intros Hl. pose proof (life_known _ _ _ Hl) as Hk. split_and!.
  - intros subject now token. destruct (known_read _ _ _ Hk) as (l & Hr & _ & _ & _ & Hg). destruct Hk as (_ & _ & _ & _ & _ & Hgiven & _).
    unfold authorize. rewrite Hr. intros [_ (c & Hc%list_elem_of_In & [Ha Hd%bool_decide_eq_true]%andb_true_iff)%existsb_exists]%andb_true_iff.
    destruct (Hg c Hc) as [Hin Hgo]. destruct (Hgiven c Hin) as (b & user & Eb & Hne & Eu). unfold active in Ha. rewrite Eu, Eb, drop_algo in Ha.
    apply andb_true_iff in Ha as [Ht%Z.ltb_lt Ha]. exists c, user, b. split_and!; try done.
    by apply orb_true_iff in Ha as [?%bool_decide_eq_true|?%bool_decide_eq_true].
  - intros subject label hours user b secret id t0 t1 t2 w c token v' now Hsub Hs Hsec Hi Hnow. unfold issueForAccount in Hi. rewrite Hsub in Hi.
    destruct (bool_decide (b = "")); [done|]. by eapply issued_opens.
  - intros subject now [t|]; [|done]. unfold authorize. cbn [read]. apply andb_false_r.
Qed.
End life.

(** ** The sign-in, from the browser to the token *)

Section serving.
Context {sha : Sha} {laws : ShaLaws}.

(** A request to authorize as it came, and what is remembered of a history:
    the requests that were let through to wait, the codes with the moment they
    were given, the codes that were spent, and the life of the file. *)
Record Asking := { as_admitted : verdict; as_header : bool; as_who : option string; as_subject : string -> option string; as_body : list (string * json) }.
Record Ledger := { ld_asked : list Asking; ld_codes : list (string * (Z * Grant)); ld_spent : list string; ld_given : list StoredCredential; ld_gone : list string }.

Definition short (accountSubject : string -> option string) : Prop :=
  forall user b, accountSubject user = Some b -> js_length user <= 95 /\ js_length b <= 100.

Definition asked (a : Asking) (r : Reply) (h : Ledger) : Ledger :=
  {| ld_asked := match r with Waits => a :: ld_asked h | _ => ld_asked h end; ld_codes := ld_codes h; ld_spent := ld_spent h;
     ld_given := ld_given h; ld_gone := ld_gone h |}.
Definition coded (code : string) (now : Z) (l : Login) (h : Ledger) : Ledger :=
  {| ld_asked := ld_asked h; ld_codes := match om_get code (lo_codes l) with Some g => (code, (now, g)) :: ld_codes h | None => ld_codes h end;
     ld_spent := ld_spent h; ld_given := ld_given h; ld_gone := ld_gone h |}.
Definition exchanged (body : list (string * json)) (r : Reply) (h : Ledger) : Ledger :=
  {| ld_asked := ld_asked h; ld_codes := ld_codes h;
     ld_spent := match r, field "code" body with (SignedIn _ _ _ | Thrown _), Some (JStr c) => c :: ld_spent h | _, _ => ld_spent h end;
     ld_given := match r with SignedIn c _ _ => c :: ld_given h | _ => ld_given h end; ld_gone := ld_gone h |}.
Definition filed (given : list StoredCredential) (gone : list string) (h : Ledger) : Ledger :=
  {| ld_asked := ld_asked h; ld_codes := ld_codes h; ld_spent := ld_spent h; ld_given := given; ld_gone := gone |}.

(** A clock that goes forward and an id that is new. *)
Definition in_order (t1 t2 : Z) (id : string) (h : Ledger) : Prop :=
  t1 <= t2 /\ - max_safe <= t1 /\ t2 + 168 * 3600000 <= max_safe /\ ID_RE id = true /\ id ∉ map sc_id (ld_given h).

(** Every history of the edge since it started on a file. *)
Inductive serve : Login -> Ledger -> Prop :=
| serve_new v given gone : life v given gone -> serve (new_login v) {| ld_asked := []; ld_codes := []; ld_spent := []; ld_given := given; ld_gone := gone |}
| serve_start l h a now r l' : serve l h -> short (as_subject a) ->
    authorize_start (as_admitted a) (as_header a) (as_who a) (as_subject a) (as_body a) now l = (r, l') -> serve l' (asked a r h)
| serve_end l h i ready who subject code now r l' : serve l h -> code ∉ map fst (ld_codes h) ->
    authorize_end i ready who subject code now l = (r, l') -> serve l' (coded code now l' h)
| serve_exchange l h ip subject body secret id now t0 t1 t2 w r l' : serve l h -> in_order t1 t2 id h ->
    exchange ip subject body secret id now t0 t1 t2 w l = (r, l') -> serve l' (exchanged body r h)
| serve_logout l h bearer w r l' : serve l h -> logout bearer w l = (r, l') ->
    serve l' (filed (ld_given h) (if_ok r (signed_out bearer (lo_vault l)) ++ ld_gone h) h)
| serve_issue l h subject label hours user b secret id t0 t1 t2 w r v : serve l h -> sane t1 t2 id (ld_given h) user b ->
    issue subject label hours ("algo:" +:+ user) (Some b) secret id t0 t1 t2 w (lo_vault l) = (r, v) ->
    serve (with_vault v l) (filed (and_given r (ld_given h)) (ld_gone h) h)
| serve_revoke l h id w r v : serve l h -> revoke id w (lo_vault l) = (r, v) ->
    serve (with_vault v l) (filed (ld_given h) (if_ok r [id] ++ ld_gone h) h).

(** A request was let through with what waits for the storage. *)
Definition asked_for (h : Ledger) (user subject challenge : string) : Prop := exists a, a ∈ ld_asked h /\ as_admitted a = Next /\ as_header a = true /\
  as_who a = Some user /\ as_subject a user = Some subject /\ field "challenge" (as_body a) = Some (JStr challenge) /\
  js_length user <= 95 /\ js_length subject <= 100 /\ subject <> "".

Record served (l : Login) (h : Ledger) : Prop := {
  sv_known : known (lo_vault l) (ld_given h) (ld_gone h);
  sv_nodup : NoDup (om_keys (lo_codes l));
  sv_codes c g : (c, g) ∈ lo_codes l -> c ∉ ld_spent h /\ exists at_, (c, (at_, g)) ∈ ld_codes h;
  sv_granted c at_ g : (c, (at_, g)) ∈ ld_codes h -> g_expiresAt g = at_ + 60000 /\ asked_for h (g_user g) (g_subject g) (g_challenge g);
  sv_spent c : c ∈ ld_spent h -> c ∈ map fst (ld_codes h);
  sv_waiting w : w ∈ lo_waiting l -> asked_for h (w_user w) (w_subject w) (w_challenge w) }.

Lemma asked_more a r h user subject challenge : asked_for h user subject challenge -> asked_for (asked a r h) user subject challenge.
Proof. intros (x & Hx & H). exists x. split; [|done]. destruct r; try done. by right. Qed.

(** Codes that end do no harm. *)
Lemma served_expire l h now : served l h -> served (expire_codes now l) h.
Proof.
  intros [H1 H2 H3 H4 H5 H6]. constructor; try done; cbn [lo_codes expire_codes with_codes].
  - by apply om_filter_nodup.
  - intros c g [Hin _]%filter_in. by apply H3.
Qed.

Lemma nonempty_Some o s : nonempty o = Some s -> o = Some s /\ s <> "".
Proof. destruct o as [x|]; [|done]. unfold nonempty, or_null. cbn. case_bool_decide; [done|]. by intros [= <-]. Qed.

Lemma served_asked l h a r : served l h -> served l (asked a r h).
Proof.
  intros [H1 H2 H3 H4 H5 H6]. constructor; try done.
  - intros c at_ g Hc. destruct (H4 c at_ g Hc). split; [done|by apply asked_more].
  - intros w Hw. by apply asked_more, H6.
Qed.

Lemma served_start l h a now r l' : served l h -> short (as_subject a) ->
  authorize_start (as_admitted a) (as_header a) (as_who a) (as_subject a) (as_body a) now l = (r, l') -> served l' (asked a r h).
Proof.
  intros H Hsh. assert (forall r0, (r0, l) = (r, l') -> served l' (asked a r h)) as Hsame by (intros r0 [= <- <-]; by apply served_asked).
  unfold authorize_start. destruct (as_admitted a) as [c|] eqn:Ea; [by apply Hsame|]. destruct (as_header a) eqn:Eh; [|by apply Hsame]. cbn [negb].
  destruct (nonempty (as_who a)) as [user|] eqn:Eu; [|by apply Hsame]. cbn [mbind option_bind].
  destruct (nonempty (as_subject a user)) as [subject|] eqn:Es; [|by apply Hsame]. cbn [mbind option_bind].
  destruct (field "challenge" (as_body a)) as [[| | |challenge| |]|] eqn:Ec; try by apply Hsame.
  destruct (field "state" (as_body a)) as [[| | |state| |]|]; try by apply Hsame. destruct (_ || _); [by apply Hsame|].
  destruct (Nat.leb 128 _); [intros [= <- <-]; by apply served_asked, served_expire|]. intros [= <- <-].
  apply nonempty_Some in Eu as [Eu _]. apply nonempty_Some in Es as [Es Hne]. destruct (Hsh _ _ Es) as [Hu Hs].
  destruct (served_asked _ _ a Waits (served_expire _ _ now H)) as [H1 H2 H3 H4 H5 H6]. constructor; try done.
  intros w [Hw|Hw%list_elem_of_singleton]%elem_of_app; [by apply H6|]. subst w. exists a. cbn [w_user w_subject w_challenge]. split_and!; try done. left.
Qed.

Lemma served_end l h i ready who subject code now r l' : served l h -> code ∉ map fst (ld_codes h) ->
  authorize_end i ready who subject code now l = (r, l') -> served l' (coded code now l' h).
Proof.
  intros H Hnew. assert (om_get code (lo_codes l) = None) as Hno.
  { destruct (om_get code (lo_codes l)) as [g|] eqn:E; [|done]. apply om_get_elem in E. destruct (sv_codes _ _ H _ _ E) as [_ (at_ & Hin)].
    destruct Hnew. apply list_elem_of_fmap. by exists (code, (at_, g)). }
  assert (forall l0, served l0 h -> lo_codes l0 = lo_codes l -> served l0 (coded code now l0 h)) as Hsame.
  { intros l0 [H1 H2 H3 H4 H5 H6] E. constructor; try done; cbn [coded ld_codes ld_spent]; rewrite E, Hno; auto.
    intros c g. rewrite <- E. apply H3. }
  unfold authorize_end. destruct (lo_waiting l !! i) as [w|] eqn:Ew; [|intros [= <- <-]; by apply Hsame].
  assert (served (with_waiting (delete i (lo_waiting l)) l) h) as Hd.
  { destruct H as [H1 H2 H3 H4 H5 H6]. constructor; try done. intros x Hx. cbn [lo_waiting with_waiting] in Hx. apply H6.
    by apply list_elem_of_delete_inv in Hx. }
  destruct ready; [|intros [= <- <-]; by apply Hsame]. cbn [negb]. destruct (_ || _); [intros [= <- <-]; by apply Hsame|]. intros [= <- <-].
  destruct H as [H1 H2 H3 H4 H5 H6]. unfold coded. cbn [lo_codes with_codes with_waiting]. rewrite om_get_set_eq.
  assert (asked_for h (w_user w) (w_subject w) (w_challenge w)) as Hw by (apply H6; by apply list_elem_of_lookup_2 in Ew). constructor; try done.
  - by apply om_set_nodup.
  - intros c g [[= -> ->]|Hin]%om_set_elem; cbn [ld_spent ld_codes]; [split; [by intros ?%H5|]; exists now; left|].
    destruct (H3 c g Hin) as [? (at_ & ?)]. split; [done|]. exists at_. by right.
  - intros c at_ g [[= -> -> ->]|Hin]%elem_of_cons; [by split|]. exact (H4 c at_ g Hin).
  - intros c Hc. right. by apply H5.
  - intros x Hx. by apply (sv_waiting _ _ Hd).
Qed.

(** What is given to somebody or taken from somebody leaves the sign-in as it is. *)
Lemma served_file l h v given gone : served l h -> known v given gone -> served (with_vault v l) (filed given gone h).
Proof. intros [H1 H2 H3 H4 H5 H6] Hk. by constructor. Qed.

(** The parts of an exchange that gets as far as a token. *)
Lemma exchange_far ip subject body secret id now t0 t1 t2 w l r l' : exchange ip subject body secret id now t0 t1 t2 w l = (r, l') ->
  (exists l0 c, r = Refused c /\ l' = expire_codes now l0 /\ lo_codes l0 = lo_codes l /\ lo_waiting l0 = lo_waiting l /\ lo_vault l0 = lo_vault l) \/
  (exists c l0, r = Refused c /\ l' = with_limiter l0 l) \/
  exists limiter code verifier g q v, field "code" body = Some (JStr code) /\ field "verifier" body = Some (JStr verifier) /\
    om_get code (lo_codes (expire_codes now l)) = Some g /\ subject (g_user g) = Some (g_subject g) /\ challenge_of verifier = g_challenge g /\
    issue subject (JStr "TMflash on Mac") (JInt 24) ("algo:" +:+ g_user g) (Some (g_subject g)) secret id t0 t1 t2 w (lo_vault l) = (q, v) /\
    r = match q with Ok (item, token) => SignedIn item token (g_user g) | Err e => Thrown e end /\
    l' = with_vault v (with_codes (om_del code (lo_codes (expire_codes now l))) (with_limiter limiter l)).
Proof.
  unfold exchange. destruct (allow ip now (lo_limiter l)) as [ok limiter]. destruct ok; cbn [negb]; [|intros [= <- <-]; right; left; by eexists _, _].
  assert (forall c, (Refused c, expire_codes now (with_limiter limiter l)) = (r, l') -> exists l0 c, r = Refused c /\ l' = expire_codes now l0 /\
    lo_codes l0 = lo_codes l /\ lo_waiting l0 = lo_waiting l /\ lo_vault l0 = lo_vault l) as Hno by (intros c [= <- <-]; by exists (with_limiter limiter l), c).
  destruct (field "code" body) as [[| | |code| |]|] eqn:Ec; try by (intros ?%Hno; left).
  destruct (om_get code _) as [g|] eqn:Eg; [|by (intros ?%Hno; left)]. cbn [mbind option_bind].
  destruct (field "verifier" body) as [[| | |verifier| |]|] eqn:Ev; try by (intros ?%Hno; left).
  destruct (negb (is_verifier verifier) || _) eqn:E1; [by (intros ?%Hno; left)|]. apply orb_false_iff in E1 as [_ E1%negb_false%bool_decide_eq_true].
  destruct (negb _) eqn:E2; [by (intros ?%Hno; left)|]. apply negb_false, bool_decide_eq_true in E2.
  destruct (issue _ _ _ _ _ _ _ _ _ _ _ _) as [q v] eqn:Ei. intros H. injection H as <- <-. right. right.
  exists limiter, code, verifier, g, q, v. split_and!; try done.
Qed.

Lemma served_exchange l h ip subject body secret id now t0 t1 t2 w r l' : served l h -> in_order t1 t2 id h ->
  exchange ip subject body secret id now t0 t1 t2 w l = (r, l') -> served l' (exchanged body r h).
Proof.
  intros H Hord. intros [(l0 & c & -> & -> & E1 & E2 & E3)|[(c & l0 & -> & ->)|(limiter & code & verifier & g & q & v & Ec & _ & Eg & _ & _ & Ei & -> & ->)]]%exchange_far.
  - apply served_expire. destruct H as [H1 H2 H3 H4 H5 H6]. by constructor; rewrite ?E1, ?E2, ?E3.
  - by destruct H as [H1 H2 H3 H4 H5 H6]; constructor.
  - pose proof (served_expire _ _ now H) as [H1 H2 H3 H4 H5 H6]. apply om_get_elem in Eg. destruct (H3 _ _ Eg) as [Hns (at_ & Hat)].
    destruct (H4 _ _ _ Hat) as [_ (a & _ & _ & _ & _ & _ & _ & Hu & Hs & Hne)].
    assert (known v (and_given q (ld_given h)) (ld_gone h)) as Hk.
    { destruct Hord as (? & ? & ? & ? & ?). eapply issue_known; [exact H1| |exact Ei]. by repeat split. }
    assert (ld_spent (exchanged body (match q with Ok (item, token) => SignedIn item token (g_user g) | Err e => Thrown e end) h) = code :: ld_spent h) as Hsp
      by (cbn [exchanged ld_spent]; rewrite Ec; by destruct q as [[]|]).
    constructor.
    + by destruct q as [[]|].
    + by apply om_del_nodup.
    + intros c0 g0 Hin. rewrite Hsp. cbn [lo_codes with_vault with_codes] in Hin. unfold om_del in Hin. apply filter_in in Hin as [Hin Hc].
      destruct (H3 c0 g0 Hin) as [? ?]. split; [|done]. apply not_elem_of_cons. split; [|done]. apply negb_true, bool_decide_eq_false in Hc. cbn in Hc. congruence.
    + intros c0 at0 g0 Hin. exact (H4 c0 at0 g0 Hin).
    + intros c0. rewrite Hsp. intros [->|Hin]%elem_of_cons; [|by apply H5]. apply list_elem_of_fmap. by exists (code, (at_, g)).
    + intros x Hx. by apply H6.
Qed.

Lemma serve_served l h : serve l h -> served l h.
Proof.
  induction 1 as [v given gone Hl|l h a now r l' _ IH Hs H|l h i ready who subject code now r l' _ IH Hc H|l h ip subject body secret id now t0 t1 t2 w r l' _ IH Ho H|
    l h bearer w r l' _ IH H|l h subject label hours user b secret id t0 t1 t2 w r v _ IH Hs H|l h id w r v _ IH H].
  - constructor; cbn; [by apply life_known|constructor|by intros c g ?%elem_of_nil|by intros c at_ g ?%elem_of_nil|by intros c ?%elem_of_nil|by intros c ?%elem_of_nil].
  - by eapply served_start.
  - by eapply served_end.
  - by eapply served_exchange.
  - unfold logout in H. destruct (signOut _ _ _) as [q v] eqn:E. injection H as <- <-. apply served_file; [done|]. eapply signOut_known; [apply IH|done].
  - apply served_file; [done|]. eapply issue_known; [apply IH|done..].
  - apply served_file; [done|]. eapply revoke_known; [apply IH|done].
Qed.

(** C20: A flasher is signed in as the person who let it in, and only once. A
    token is handed out for a code that was given less than a minute ago and
    never spent, to somebody who knows the text behind the challenge that
    came with the request for that code; that request came with the header, in a session that
    had the capability, of the very account the token is for, which is still
    the same account. The token opens the door for a day, as long as the
    account stays what it is, and the code is gone. *)
Theorem sign_in_is_for_who_asked l h ip subject body secret id now t0 t1 t2 w c token user l' :
  serve l h -> in_order t1 t2 id h -> is_hex64 secret = true ->
  exchange ip subject body secret id now t0 t1 t2 w l = (SignedIn c token user, l') ->
  exists code verifier at_ g a, field "code" body = Some (JStr code) /\ field "verifier" body = Some (JStr verifier) /\
    (code, (at_, g)) ∈ ld_codes h /\ code ∉ ld_spent h /\ now < at_ + 60000 /\ om_get code (lo_codes l') = None /\
    a ∈ ld_asked h /\ as_admitted a = Next /\ as_header a = true /\ as_who a = Some user /\
    field "challenge" (as_body a) = Some (JStr (challenge_of verifier)) /\ as_subject a user = subject user /\ subject user <> None /\
    sc_expiresAt c = t2 + 86400000 /\
    (forall subject' now', subject' user = subject user -> now' < t2 + 86400000 -> authorize subject' now' (Some token) (lo_vault l') = true).
Proof.
  intros Hv (Ho1 & Ho2 & Ho3 & Ho4 & Ho5) Hsec. apply serve_served in Hv.
  intros [(l0 & x & ? & _)|[(x & l0 & ? & _)|(limiter & code & verifier & g & q & v & Ec & Ev & Eg & Es & Ech & Ei & Er & ->)]]%exchange_far; [done|done|].
  destruct q as [[c' token']|]; [|done]. injection Er as -> -> ->.
  destruct (served_expire _ _ now Hv) as [H1 H2 H3 H4 _ _]. assert (now < g_expiresAt g) as Hnow.
  { apply om_get_elem in Eg. cbn [lo_codes expire_codes with_codes] in Eg. apply filter_in in Eg as [_ Eg]. cbn in Eg. lia. }
  apply om_get_elem in Eg. destruct (H3 _ _ Eg) as [Hns (at_ & Hat)].
  destruct (H4 _ _ _ Hat) as [Hat' (a & Ha & Ha1 & Ha2 & Ha3 & Ha4 & Ha5 & Hu & Hs & Hne)].
  assert (sane t1 t2 id (ld_given h) (g_user g) (g_subject g)) as Hsane by done.
  destruct (issue_made _ _ _ _ _ _ _ _ _ _ _ _ _ _ _ _ _ H1 Hsane Ei) as (entries & hr & Ehr & _ & _ & _ & _ & _ & _ & _ & _ & _ & Eexp).
  injection Ehr as <-. change (Qfloor (24 # 1) * 3600000) with 86400000 in Eexp.
  exists code, verifier, at_, g, a. rewrite Es. split_and!; try done; try lia.
  - apply om_get_del_eq.
  - by rewrite Ech.
  - intros subject' now' E Hn. eapply issued_opens; [exact H1|exact Hsane|exact Hsec|exact Ei|lia|done].
Qed.
End serving.

Module Run.

(** A digest that is easy to compute: 32 times the sum of the bytes. *)
#[export] Instance demo_sha : Sha := {| sha256 m := replicate 32 (fold_left Z.add m 0 mod 256) |}.
#[export] Instance demo_sha_laws : ShaLaws.
Proof.
  constructor. intros m. unfold sha256, demo_sha. pose proof (Z.mod_pos_bound (fold_left Z.add m 0) 256 ltac:(lia)) as Hb.
  set (b := _ mod 256) in *. clearbody b.
  assert (forallb (fun n => is_hex64 (to_hex (replicate 32 (Z.of_nat n)))) (seq 0 256) = true) as H by (vm_compute; reflexivity).
  rewrite forallb_forall in H. specialize (H (Z.to_nat b)). rewrite Z2Nat.id in H by lia. apply H, in_seq. lia.
Qed.

Definition engineer (name : string) : option string := if bool_decide (name = "ada") then Some "ada:mac" else None.
Definition secret : string := "00000000000000000000000000000000000000000000000000000000000000aa".
Definition id2 : string := "00000000-0000-4000-8000-000000000002".
Definition verifier : string := "verifier-verifier-verifier-verifier-verifier".
Definition state : string := "state-state-state-state-state-state-state-s".
Definition code1 : string := "code-code-code-code-code-code-code-code-cod".

Definition issued : result Failure (StoredCredential * string) * Vault :=
  issueForAccount engineer (JStr "bench") (JInt 24) "ada" secret id2 1000 1000 1000 true Absent.
Definition cred1 : StoredCredential := Eval vm_compute in match issued.1 with Ok (c, _) => c | Err _ => {| sc_id := ""; sc_label := ""; sc_createdAt := 0; sc_expiresAt := 0; sc_by := ""; sc_digest := ""; sc_binding := None |} end.
Definition file1 : Vault := Eval vm_compute in issued.2.

Lemma sane1 : sane 1000 1000 id2 [] "ada" "ada:mac".
Proof. repeat split; try discriminate; by intros ?%elem_of_nil. Qed.

Lemma life1 : life file1 [cred1] [].
Proof.
  apply (life_issue Absent [] [] engineer (JStr "bench") (JInt 24) "ada" "ada:mac" secret id2 1000 1000 1000 true (Ok (cred1, "tmflash_" +:+ secret)) file1);
    [constructor|exact sane1|vm_compute; reflexivity].
Qed.

Lemma flasher_token_is_current_witness : authorize engineer 5000 (Some ("tmflash_" +:+ secret)) file1 = true /\
  exists c user binding, c ∈ [cred1] /\ sc_digest c = digest_of ("tmflash_" +:+ secret) /\ sc_id c ∉ [] /\ 5000 < sc_expiresAt c /\
    sc_by c = "algo:" +:+ user /\ sc_binding c = Some binding /\ engineer user = Some binding.
Proof.
  assert (authorize engineer 5000 (Some ("tmflash_" +:+ secret)) file1 = true) as H by (vm_compute; reflexivity).
  split; [exact H|]. exact (proj1 (flasher_token_is_current file1 [cred1] [] life1) engineer 5000 _ H).
Defined.

(** The engineer opens the page of the flasher, lets it in, and the flasher
    exchanges the code. *)
Definition login0 : Login := new_login Absent.
Definition ask1 : Asking := {| as_admitted := Next; as_header := true; as_who := Some "ada"; as_subject := engineer;
  as_body := [("challenge", JStr (challenge_of verifier)); ("state", JStr state)] |}.
Definition login1 : Login := Eval vm_compute in (authorize_start (as_admitted ask1) (as_header ask1) (as_who ask1) (as_subject ask1) (as_body ask1) 1000 login0).2.
Definition login2 : Login := Eval vm_compute in (authorize_end 0 true (Some "ada") engineer code1 2000 login1).2.
Definition body1 : list (string * json) := [("code", JStr code1); ("verifier", JStr verifier)].
Definition answer1 : Reply * Login := exchange "127.0.0.1" engineer body1 secret id2 3000 3000 3000 3000 true login2.
Definition ledger0 : Ledger := {| ld_asked := []; ld_codes := []; ld_spent := []; ld_given := []; ld_gone := [] |}.
Definition ledger2 : Ledger := coded code1 2000 login2 (asked ask1 Waits ledger0).

Lemma engineer_short : short engineer.
Proof. intros user b. unfold engineer. case_bool_decide as E; [|done]. intros [= <-]. subst user. split; discriminate. Qed.

Lemma serve2 : serve login2 ledger2.
Proof.
  unfold ledger2. eapply (serve_end login1 _ 0 true (Some "ada") engineer code1 2000 (Redirect _)); [|cbn; by intros ?%elem_of_nil|vm_compute; reflexivity].
  eapply (serve_start login0 ledger0 ask1 1000 Waits); [constructor; constructor|exact engineer_short|vm_compute; reflexivity].
Qed.

Example flasher_sent_back : (authorize_end 0 true (Some "ada") engineer code1 2000 login1).1 =
  Redirect ("hk.hkumyseat.tmflash://login?code=" +:+ code1 +:+ "&state=" +:+ state).
Proof. vm_compute. reflexivity. Qed.

(** The same code does not work a second time, and not with another verifier. *)
Example code_is_spent : (exchange "127.0.0.1" engineer body1 secret id2 4000 4000 4000 4000 true answer1.2).1 = Refused 401 /\
  (exchange "127.0.0.1" engineer [("code", JStr code1); ("verifier", JStr (verifier +:+ "x"))] secret id2 3000 3000 3000 3000 true login2).1 = Refused 401.
Proof. split; vm_compute; reflexivity. Qed.

Lemma sign_in_is_for_who_asked_witness : exists c token user l', answer1 = (SignedIn c token user, l') /\
  exists code verifier at_ g a, field "code" body1 = Some (JStr code) /\ field "verifier" body1 = Some (JStr verifier) /\
    (code, (at_, g)) ∈ ld_codes ledger2 /\ code ∉ ld_spent ledger2 /\ 3000 < at_ + 60000 /\ om_get code (lo_codes l') = None /\
    a ∈ ld_asked ledger2 /\ as_admitted a = Next /\ as_header a = true /\ as_who a = Some user /\
    field "challenge" (as_body a) = Some (JStr (challenge_of verifier)) /\ as_subject a user = engineer user /\ engineer user <> None /\
    sc_expiresAt c = 3000 + 86400000 /\
    (forall subject' now', subject' user = engineer user -> now' < 3000 + 86400000 -> authorize subject' now' (Some token) (lo_vault l') = true).
Proof.
  destruct answer1 as [r l'] eqn:E. assert (answer1.1 = r) as Er by by rewrite E.
  destruct r as [| | | |c token user]; try (vm_compute in Er; discriminate Er). exists c, token, user, l'. split; [reflexivity|].
  refine (sign_in_is_for_who_asked login2 ledger2 "127.0.0.1" engineer body1 secret id2 3000 3000 3000 3000 true c token user l' serve2 _ _ E).
  - repeat split; try discriminate. by intros ?%elem_of_nil.
  - vm_compute. reflexivity.
Defined.
End Run.
