(* ===== verification/Documents.v ===== *)
(** The shared parts of the team's workspace: the checks of what a person
    types (src/modules/workspace/domain/workspace.ts) and the JSON document a
    mailbox or a board is kept in
    (src/infrastructure/workspace/json-document-store.ts), over the private
    files of [Sessions]. Text is code units below 256; a file that somebody
    edited may hold further fields, which this model leaves out. *)

From S2P Require Import Prelude Json Sessions.

(** ** What may be typed *)

(** [Unexpected] is any other error, such as a [TypeError].
    @modules/workspace/domain/workspace.ts 102-102 WorkspaceErrorCode *)
Inductive WorkspaceErrorCode :=
| UNAUTHENTICATED | FORBIDDEN | VALIDATION | NOT_FOUND | STALE_REVISION | CLOSED | FULL | RATE_LIMITED | STORAGE_UNAVAILABLE | Unexpected.
#[export] Instance code_eq : EqDecision WorkspaceErrorCode.
Proof. solve_decision. Defined.

Notation answer := (result WorkspaceErrorCode).

Module LIMITS.
(** @modules/workspace/domain/workspace.ts 12-18 LIMITS *)
Definition subject : Z := 120.
Definition body : Z := 4000.
Definition recipients : nat := 32.
Definition title : Z := 120.
Definition detail : Z := 2000.
Definition messages : nat := 1000.
Definition requests : nat := 500.
Definition tasks : nat := 1000.
Definition listed : nat := 100.
Definition preview : nat := 140.
End LIMITS.

(** @modules/workspace/domain/workspace.ts 29-29 Member *)
Record Member := { me_name : string; me_since : Q; me_teamRoles : list string }.

(** @modules/workspace/domain/workspace.ts 32-36 Actor *)
Record Actor := { ac_name : string; ac_since : Q; ac_teamRoles : list string; ac_canTriage : bool; ac_isAdmin : bool }.

(** A key that is an array index; [Object.keys] puts these first. *)
Definition is_index (k : string) : bool :=
  match chars k with
  | [] => false
  | [c] => is_digit c
  | c :: l => negb (code c =? 48) && forallb is_digit (c :: l) && (digits_value (c :: l) <? 2 ^ 32 - 1)
  end.
Definition object_keys (o : list (string * json)) : list string :=
  List.filter is_index (om_keys o) ++ List.filter (fun k => negb (is_index k)) (om_keys o).

(** The first unknown key is refused, unless it is the empty one, which is no
    true value.
    @modules/workspace/domain/workspace.ts 111-117 fields *)
Definition fields (input : json) (allowed : list string) : answer (list (string * json)) :=
  match as_object input with
  | None => Err VALIDATION
  | Some body =>
      match List.find (fun k => negb (includes k allowed)) (object_keys body) with
      | Some extra => if bool_decide (extra = EmptyString) then Ok body else Err VALIDATION
      | None => Ok body
      end
  end.

(** @modules/workspace/domain/workspace.ts 121-121 CONTROL *)
Definition is_control (c : Ascii.ascii) : bool :=
  let n := code c in (n <=? 8) || (n =? 11) || (n =? 12) || between 14 31 n || (n =? 127).

(** [s.replace(/\s+/g, ' ')] *)
Fixpoint collapse (inside : bool) (l : list Ascii.ascii) : list Ascii.ascii :=
  match l with
  | [] => []
  | c :: l => if is_space c then if inside then collapse true l else Ascii.ascii_of_N 32 :: collapse true l else c :: collapse false l
  end.

(** [s.replace(/\r\n?/g, '\n')] *)
Fixpoint unix_lines (l : list Ascii.ascii) : list Ascii.ascii :=
  match l with
  | [] => []
  | c :: l' =>
      if code c =? 13
      then Ascii.ascii_of_N 10 :: match l' with d :: l'' => if code d =? 10 then unix_lines l'' else unix_lines l' | [] => [] end
      else c :: unix_lines l'
  end.

Definition no_control (l : list Ascii.ascii) : list Ascii.ascii := List.filter (fun c => negb (is_control c)) l.

(** @modules/workspace/domain/workspace.ts 124-130 oneLine *)
Definition oneLine (value : option json) (max : Z) : answer string :=
  match value with
  | Some (JStr s) =>
      let cleaned := js_trim (String.string_of_list_ascii (collapse false (no_control (chars s)))) in
      if bool_decide (cleaned = EmptyString) then Err VALIDATION
      else if max <? js_length cleaned then Err VALIDATION else Ok cleaned
  | _ => Err VALIDATION
  end.

(** @modules/workspace/domain/workspace.ts 133-140 paragraphs *)
Definition paragraphs (value : option json) (max : Z) (required : bool) : answer string :=
  match value with
  | None => if required then Err VALIDATION else Ok ""
  | Some (JStr s) =>
      let cleaned := js_trim (String.string_of_list_ascii (no_control (unix_lines (chars s)))) in
      if bool_decide (cleaned = EmptyString) && required then Err VALIDATION
      else if max <? js_length cleaned then Err VALIDATION else Ok cleaned
  | Some _ => Err VALIDATION
  end.

(** @modules/workspace/domain/workspace.ts 143-146 revisionOf *)
Definition revisionOf (value : option json) : answer Z :=
  match value ≫= as_safe_integer with
  | Some n => if n <? 1 then Err VALIDATION else Ok n
  | None => Err VALIDATION
  end.

(** [/^\d{4}-\d{2}-\d{2}$/] *)
Definition is_date (s : string) : bool :=
  match chars s with
  | [a; b; c; d; h; e; f; h'; i; j] => forallb is_digit [a; b; c; d; e; f; i; j] && (code h =? 45) && (code h' =? 45)
  | _ => false
  end.

Definition leap (y : Z) : bool := (y mod 4 =? 0) && (negb (y mod 100 =? 0) || (y mod 400 =? 0)).
Definition days_in (y m : Z) : Z := if m =? 2 then if leap y then 29 else 28 else if includes m [4; 6; 9; 11] then 30 else 31.

(** The days that [new Date] and [toISOString] give back as they were. *)
Definition is_day (s : string) : bool :=
  match chars s with
  | [a; b; c; d; _; e; f; _; i; j] =>
      let y := digits_value [a; b; c; d] in let m := digits_value [e; f] in between 1 12 m && between 1 (days_in y m) (digits_value [i; j])
  | _ => false
  end.

(** @modules/workspace/domain/workspace.ts 149-156 dayOrNull *)
Definition dayOrNull (value : json) : answer (option string) :=
  match value with
  | JNull => Ok None
  | JStr s => if bool_decide (s = EmptyString) then Ok None else if is_date s && is_day s then Ok (Some s) else Err VALIDATION
  | _ => Err VALIDATION
  end.

Example days : map (fun s => is_ok (dayOrNull (JStr s))) ["2024-02-29"; "2023-02-29"; "2026-12-31"; "2026-13-01"; "2026-04-31"] = [true; false; true; false; false].
Proof. reflexivity. Qed.

Lemma oneLine_ok v max s : oneLine v max = Ok s -> s <> "" /\ js_length s <= max.
Proof.
  unfold oneLine. destruct v as [[| | |x| |]|]; try done. set (c := js_trim _). case_bool_decide; [done|]. destruct (Z.ltb_spec max (js_length c)); [done|]. by intros [= <-].
Qed.

Lemma paragraphs_ok v max required s : 0 <= max -> paragraphs v max required = Ok s -> js_length s <= max.
Proof.
  intros Hm. unfold paragraphs. destruct v as [[| | |x| |]|]; try done.
  - set (c := js_trim _). destruct (_ && _); [done|]. destruct (Z.ltb_spec max (js_length c)); [done|]. by intros [= <-].
  - destruct required; [done|]. by intros [= <-].
Qed.

Lemma revisionOf_ok v n : revisionOf v = Ok n -> 1 <= n <= max_safe.
Proof.
  unfold revisionOf. destruct (v ≫= as_safe_integer) as [z|] eqn:E; [|done]. destruct v as [v|]; [|done]. apply as_safe_integer_range in E.
  destruct (Z.ltb_spec z 1); [done|]. intros [= <-]. lia.
Qed.

Lemma dayOrNull_ok v d : dayOrNull v = Ok d -> match d with Some s => is_date s = true | None => True end.
Proof.
  unfold dayOrNull. destruct v as [| | |s| |]; try done; [by intros [= <-]|]. case_bool_decide; [by intros [= <-]|].
  destruct (is_date s) eqn:E; [|done]. cbn [andb]. destruct (is_day s); [|done]. by intros [= <-].
Qed.

(** ** Rows of a document *)

(** The first row that [p] holds of, changed or taken out. *)
Fixpoint alter_first {A} (p : A -> bool) (f : A -> A) (l : list A) : list A :=
  match l with [] => [] | x :: l => if p x then f x :: l else x :: alter_first p f l end.
Fixpoint drop_first {A} (p : A -> bool) (l : list A) : list A :=
  match l with [] => [] | x :: l => if p x then l else x :: drop_first p l end.

Lemma find_split {A} (p : A -> bool) l x : List.find p l = Some x -> exists l1 l2, l = l1 ++ x :: l2 /\ p x = true /\ Forall (fun y => p y = false) l1 /\
  (forall f, alter_first p f l = l1 ++ f x :: l2) /\ drop_first p l = l1 ++ l2.
Proof.
  induction l as [|y l IH]; [done|]. cbn [List.find alter_first drop_first]. destruct (p y) eqn:E.
  - intros [= ->]. exists [], l. by split_and!.
  - intros (l1 & l2 & -> & Hx & Hl & Hf & Hd)%IH. exists (y :: l1), l2. split_and!; [done|done|by constructor| |by rewrite Hd].
    intros f. cbn [app]. by rewrite Hf.
Qed.

Lemma find_none_iff {A} (p : A -> bool) l : List.find p l = None <-> Forall (fun y => p y = false) l.
Proof.
  rewrite Forall_forall. setoid_rewrite list_elem_of_In. split; [apply List.find_none|]. induction l as [|y l IH]; [done|]. intros H. cbn [List.find].
  rewrite (H y (or_introl eq_refl)). apply IH. intros z Hz. by apply H; right.
Qed.

(** Rows of which no two have the same key and each is as it should be. *)
Definition rows_ok {A} (key : A -> string) (P : A -> Prop) (l : list A) : Prop := NoDup (map key l) /\ Forall P l.

Section rows.
Context {A : Type} (key : A -> string) (P : A -> Prop).

Lemma rows_swap l1 l2 x x' : rows_ok key P (l1 ++ x :: l2) -> key x' = key x -> (P x -> P x') -> rows_ok key P (l1 ++ x' :: l2).
Proof.
  intros [Hn Hp] Hk Hx. split; [by rewrite map_app in *; cbn [map]; rewrite Hk|].
  apply Forall_app in Hp as [H1 [H2 H3]%Forall_cons]. apply Forall_app. split; [done|]. constructor; auto.
Qed.

Lemma rows_gone l1 l2 x : rows_ok key P (l1 ++ x :: l2) -> rows_ok key P (l1 ++ l2) /\ key x ∉ map key (l1 ++ l2).
Proof.
  intros [Hn Hp]. rewrite map_app in Hn. cbn [map] in Hn. apply NoDup_app in Hn as (H1 & H2 & [Hx H3]%NoDup_cons).
  apply Forall_app in Hp as [Hp1 [_ Hp2]%Forall_cons]. unfold rows_ok. rewrite map_app. split; [split|].
  - apply NoDup_app. split; [done|]. split; [|done]. intros y Hy Hy2. apply (H2 y Hy). by right.
  - by apply Forall_app.
  - intros [Hk|Hk]%elem_of_app; [apply (H2 (key x) Hk); left|done].
Qed.

Lemma rows_snoc l x : rows_ok key P l -> key x ∉ map key l -> P x -> rows_ok key P (l ++ [x]).
Proof.
  intros [Hn Hp] Hx HPx. split.
  - rewrite map_app. cbn [map]. apply NoDup_app. split; [done|]. split; [by intros y Hy ->%list_elem_of_singleton|apply NoDup_singleton].
  - apply Forall_app. split; [done|by constructor].
Qed.

(** How the rows of one document become those of the next. *)
Definition rows_moved (moved : A -> A -> Prop) (may_go new : A -> Prop) (l l' : list A) : Prop :=
  (forall x, x ∈ l -> (exists x', x' ∈ l' /\ moved x x') \/ (may_go x /\ key x ∉ map key l')) /\
  (forall x', x' ∈ l' -> (exists x, x ∈ l /\ moved x x') \/ (new x' /\ key x' ∉ map key l)).

Context (moved : A -> A -> Prop) (may_go new : A -> Prop).

Lemma rows_moved_map f l : (forall x, x ∈ l -> moved x (f x)) -> rows_moved moved may_go new l (map f l).
Proof.
  intros Hf. split; intros x Hx.
  - left. exists (f x). split; [apply list_elem_of_fmap; by exists x|by apply Hf].
  - apply list_elem_of_fmap in Hx as (y & -> & Hy). left. exists y. split; [done|by apply Hf].
Qed.

Lemma rows_moved_same l : (forall x, moved x x) -> rows_moved moved may_go new l l.
Proof. intros Hr. rewrite <- (map_id l) at 2. by apply rows_moved_map. Qed.

Lemma rows_moved_swap l1 l2 x x' : (forall y, moved y y) -> moved x x' -> rows_moved moved may_go new (l1 ++ x :: l2) (l1 ++ x' :: l2).
Proof.
  intros Hr Hx. split; intros y [Hy|[->|Hy]%elem_of_cons]%elem_of_app; left;
    (exists y + exists x' + exists x); (split; [apply elem_of_app; (by left) || (right; by left) || (right; by right)|done]).
Qed.

Lemma rows_moved_gone l1 l2 x : (forall y, moved y y) -> rows_ok key P (l1 ++ x :: l2) -> may_go x -> rows_moved moved may_go new (l1 ++ x :: l2) (l1 ++ l2).
Proof.
  intros Hr [_ Hk]%rows_gone Hx. split.
  - intros y [Hy|[->|Hy]%elem_of_cons]%elem_of_app; [left|by right|left]; exists y; (split; [apply elem_of_app; auto|done]).
  - intros y [Hy|Hy]%elem_of_app; left; exists y; (split; [apply elem_of_app; (by left) || (right; by right)|done]).
Qed.

Lemma rows_moved_snoc l x : (forall y, moved y y) -> new x -> key x ∉ map key l -> rows_moved moved may_go new l (l ++ [x]).
Proof.
  intros Hr Hx Hk. split.
  - intros y Hy. left. exists y. split; [apply elem_of_app; by left|done].
  - intros y [Hy| ->%list_elem_of_singleton]%elem_of_app; [left; by exists y|by right].
Qed.
End rows.

(** ** The file of a document *)

Section store.
Context {T : Type} (empty : T) (parse : json -> option T) (print : T -> json).

(** @infrastructure/workspace/json-document-store.ts 20-24 JsonDocumentStore *)
Record JsonDocumentStore := { ds_cached : option T; ds_seen : stamp }.
Definition new_store : JsonDocumentStore := {| ds_cached := None; ds_seen := Outdated |}.

(** What the file system answers to one call: whether the file can be looked at
    and is at most 16 MB, whether it can be read, how the replacement ends, and
    whether the new file can be looked at. *)
Record Io := { io_stat : bool; io_read : bool; io_write : outcome; io_again : bool }.

(** @infrastructure/workspace/json-document-store.ts 26-50 read *)
Definition read (io : Io) (d : disk) (s : JsonDocumentStore) : answer T * JsonDocumentStore :=
  if negb (io_stat io) then (Err STORAGE_UNAVAILABLE, s)
  else
    match d with
    | None => (Ok empty, new_store)
    | Some v =>
        let again :=
          match (if io_read io then f_content v ≫= parse else None) with
          | Some document => (Ok document, {| ds_cached := Some document; ds_seen := Seen (f_id v) |})
          | None => (Err STORAGE_UNAVAILABLE, s)
          end in
        match ds_cached s with
        | Some cached => if bool_decide (ds_seen s = Seen (f_id v)) then (Ok cached, s) else again
        | None => again
        end
    end.

(** [change] throws or gives its result and the changed draft.
    @infrastructure/workspace/json-document-store.ts 52-59 update *)
Definition update {R} (change : T -> answer (R * T)) (io : Io) (d : disk) (s : JsonDocumentStore) : answer R * JsonDocumentStore * disk :=
  match read io d s with
  | (Err e, s) => (Err e, s, d)
  | (Ok document, s) =>
      match change document with
      | Err e => (Err e, s, d)
      | Ok (r, draft) =>
          match writePrivateJson (print draft) (io_write io) d with
          | (d, Err _) => (Err STORAGE_UNAVAILABLE, s, d)
          | (d, Ok _) =>
              (Ok r, {| ds_cached := Some draft; ds_seen := match d with Some v => if io_again io then Seen (f_id v) else Outdated | None => Outdated end |}, d)
          end
      end
  end.

(** What the file holds: [None] when it is not to be trusted. *)
Definition stored (d : disk) : option T := match d with None => Some empty | Some v => f_content v ≫= parse end.

(** What a process remembers is of the file that is there, or of an older one. *)
Definition store_ok (d : disk) (s : JsonDocumentStore) : Prop :=
  match ds_seen s with
  | Seen id => exists v, d = Some v /\ (id <= f_id v)%nat /\ (id = f_id v -> ds_cached s = None \/ ds_cached s = stored d)
  | _ => True
  end.

Lemma new_store_ok d : store_ok d new_store.
Proof. done. Qed.

(** A read gives what the file holds, or nothing. *)
Lemma read_spec io d s r s' : store_ok d s -> read io d s = (r, s') ->
  store_ok d s' /\ (r = Err STORAGE_UNAVAILABLE \/ exists doc, r = Ok doc /\ stored d = Some doc).
Proof.
  intros Hs. unfold read. destruct (io_stat io); cbn [negb]; [|intros [= <- <-]; split; [done|by left]].
  destruct d as [v|]; [|intros [= <- <-]; split; [done|right; by exists empty]].
  assert (forall r s', (match (if io_read io then f_content v ≫= parse else None) with
      | Some document => (Ok document, {| ds_cached := Some document; ds_seen := Seen (f_id v) |})
      | None => (Err STORAGE_UNAVAILABLE, s) end) = (r, s') ->
      store_ok (Some v) s' /\ (r = Err STORAGE_UNAVAILABLE \/ exists doc, r = Ok doc /\ stored (Some v) = Some doc)) as Hagain.
  { intros r0 s0. destruct (if io_read io then _ else _) as [doc|] eqn:E; [|intros [= <- <-]; split; [done|by left]]. intros [= <- <-].
    assert (stored (Some v) = Some doc) as Hd by (destruct (io_read io); [exact E|done]). split; [|right; by exists doc].
    exists v. rewrite Hd. split_and!; [done|done|by right]. }
  destruct (ds_cached s) as [c|] eqn:Ec; [|by apply Hagain]. destruct (bool_decide (ds_seen s = Seen (f_id v))) eqn:Eb; [|by apply Hagain].
  apply bool_decide_eq_true in Eb. intros [= <- <-]. split; [done|]. right. exists c. split; [done|]. unfold store_ok in Hs. rewrite Eb in Hs.
  destruct Hs as (v' & [= <-] & _ & H). destruct (H eq_refl) as [|H']; congruence.
Qed.

(** A change is made whole or not at all, and what is answered is what was
    done: only a failure of the file itself may leave a change that was
    refused. A file that cannot be trusted is never replaced. *)
Lemma update_spec {R} (change : T -> answer (R * T)) io d s r s' d' :
  (forall doc x doc', stored d = Some doc -> change doc = Ok (x, doc') -> parse (print doc') = Some doc') ->
  store_ok d s -> update change io d s = (r, s', d') ->
  store_ok d' s' /\
  ((exists doc x doc', stored d = Some doc /\ change doc = Ok (x, doc') /\ r = Ok x /\ stored d' = Some doc') \/
   (exists e doc, stored d = Some doc /\ change doc = Err e /\ r = Err e /\ d' = d) \/
   (exists doc x doc', stored d = Some doc /\ change doc = Ok (x, doc') /\ r = Err STORAGE_UNAVAILABLE /\ io_write io = Unsynced /\ stored d' = Some doc') \/
   (r = Err STORAGE_UNAVAILABLE /\ d' = d)).
Proof.
  intros Hgood Hs. unfold update. destruct (read io d s) as [q s1] eqn:Er. destruct (read_spec _ _ _ _ _ Hs Er) as [Hs1 [->|(doc & -> & Hd)]].
  { intros [= <- <- <-]. split; [done|]. by right; right; right. }
  destruct (change doc) as [[x doc']|e] eqn:Ec; [|intros [= <- <- <-]; split; [done|right; left; by exists e, doc]].
  pose proof (Hgood _ _ _ Hd Ec) as Hp. unfold writePrivateJson. destruct (io_write io) eqn:Ew; intros [= <- <- <-].
  - split; [|left; by exists doc, x, doc']. unfold store_ok. cbn [ds_seen ds_cached]. destruct (io_again io); [|done].
    eexists. split; [reflexivity|]. cbn [f_id]. split; [done|]. intros _. right. cbn. by rewrite Hp.
  - split; [done|]. by right; right; right.
  - split; [|right; right; left; by exists doc, x, doc']. unfold store_ok in *. destruct (ds_seen s1) as [| |id]; [done|done|].
    destruct Hs1 as (v & -> & Hle & _). eexists. split; [reflexivity|]. cbn [f_id]. split; [lia|]. lia.
Qed.

(** A request to a service over the file: what was typed is checked first, and
    then the change is made. *)
Definition serve {R} (asked : answer (T -> answer (R * T))) (io : Io) (d : disk) (s : JsonDocumentStore) : answer R * JsonDocumentStore * disk :=
  match asked with
  | Err e => (Err e, s, d)
  | Ok change => update change io d s
  end.

(** What became of a request: the document is another, by the change that was
    asked for, or it is the same and the request was refused; only where the
    disk fails after the new file is in place is a change reported as failed. *)
Definition carried_out {R} (asked : answer (T -> answer (R * T))) (io : Io) (doc : T) (r : answer R) (doc' : T) : Prop :=
  (doc' = doc /\ is_ok r = false) \/
  exists change x, asked = Ok change /\ change doc = Ok (x, doc') /\ (r = Ok x \/ (r = Err STORAGE_UNAVAILABLE /\ io_write io = Unsynced)).

Context (ok : T -> Prop) (ok_roundtrip : forall doc, ok doc -> parse (print doc) = Some doc).

Lemma serve_spec {R} (asked : answer (T -> answer (R * T))) io d s doc r s' d' : store_ok d s -> stored d = Some doc -> ok doc ->
  (forall change x doc', asked = Ok change -> change doc = Ok (x, doc') -> ok doc') -> serve asked io d s = (r, s', d') ->
  store_ok d' s' /\ exists doc', stored d' = Some doc' /\ ok doc' /\ carried_out asked io doc r doc'.
Proof.
  intros Hs Hdoc Hok Hstep. unfold serve. destruct asked as [change|e]; [|intros [= <- <- <-]; split; [done|]; exists doc; split; [done|]; split; [done|by left]].
  assert (forall doc0, stored d = Some doc0 -> doc0 = doc) as Hthe by congruence.
  intros H. apply update_spec in H as [Hs' H]; [|intros dc x dc' ->%Hthe E2; by eapply ok_roundtrip, Hstep|done].
  split; [done|]. destruct H as [(doc0 & x & doc' & ->%Hthe & E2 & -> & E3)|[(e & doc0 & _ & _ & -> & ->)|[(doc0 & x & doc' & ->%Hthe & E2 & -> & Ew & E3)|[-> ->]]]].
  - exists doc'. split; [done|]. split; [by eapply Hstep|]. right. exists change, x. auto.
  - exists doc. split; [done|]. split; [done|by left].
  - exists doc'. split; [done|]. split; [by eapply Hstep|]. right. exists change, x. auto.
  - exists doc. split; [done|]. split; [done|by left].
Qed.
End store.
Arguments JsonDocumentStore T : clear implicits.
