(* ===== verification/Mail.v ===== *)
(** Mail between the people of the debugger console
    (src/modules/workspace/application/mailbox.ts): every operation on the
    document, as a check of what was typed that gives the change to make, and
    the mailbox over its file. *)

From S2P Require Import Prelude Json Sessions Accounts Documents.

(** @modules/workspace/domain/workspace.ts 38-51 StoredMessage *)
Record StoredMessage := {
  m_id : string; m_from : string; m_to : list string; m_subject : string; m_body : string; m_sentAt : Q; m_replyTo : option string;
  m_readBy : list string; m_hiddenFor : list string }.

(** A [MailDocument]: its messages. *)
Notation mail := (list StoredMessage).

(** @modules/workspace/application/mailbox.ts 15-15 ID *)
Definition ID (s : string) : bool := (js_length s =? 12) && forallb is_base64url (chars s).

(** @modules/workspace/application/mailbox.ts 17-18 isNames *)
Definition isNames (v : option json) (max : nat) : option (list string) :=
  l ← v ≫= as_array;
  if Nat.ltb max (length l) then None else mapM (fun x => s ← as_string x; if is_name s then Some s else None) l.

(** @modules/workspace/application/mailbox.ts 24-30 parseMail *)
Definition parse_message (v : json) : option StoredMessage :=
  m ← as_object v;
  id ← text_where ID (field "id" m);
  from ← text_where is_name (field "from" m);
  to ← isNames (field "to" m) LIMITS.recipients;
  if Nat.eqb (length to) 0 then None
  else
    subject ← text_where (fun s => js_length s <=? LIMITS.subject) (field "subject" m);
    body ← text_where (fun s => js_length s <=? LIMITS.body) (field "body" m);
    sentAt ← time_of (field "sentAt" m);
    replyTo ← null_or (text_where ID) (field "replyTo" m);
    readBy ← isNames (field "readBy" m) LIMITS.recipients;
    hiddenFor ← isNames (field "hiddenFor" m) (LIMITS.recipients + 1);
    Some {| m_id := id; m_from := from; m_to := to; m_subject := subject; m_body := body; m_sentAt := sentAt; m_replyTo := replyTo;
            m_readBy := readBy; m_hiddenFor := hiddenFor |}.

(** @modules/workspace/application/mailbox.ts 21-33 parseMail *)
Definition parseMail (v : json) : option mail :=
  document ← as_object v;
  l ← field "messages" document ≫= as_array;
  if negb (version_one document) || Nat.ltb LIMITS.messages (length l) then None
  else
    messages ← mapM parse_message l;
    if bool_decide (NoDup (map m_id messages)) then Some messages else None.

(** @modules/workspace/application/mailbox.ts 35-35 emptyMail *)
Definition emptyMail : mail := [].

(** [JSON.stringify] of the document. *)
Definition message_json (m : StoredMessage) : json :=
  JObj [("id", JStr (m_id m)); ("from", JStr (m_from m)); ("to", JArr (map JStr (m_to m))); ("subject", JStr (m_subject m)); ("body", JStr (m_body m));
        ("sentAt", JNum (m_sentAt m)); ("replyTo", opt_text (m_replyTo m)); ("readBy", JArr (map JStr (m_readBy m))); ("hiddenFor", JArr (map JStr (m_hiddenFor m)))].
Definition mail_json (d : mail) : json := JObj [("version", JInt 1); ("messages", JArr (map message_json d))].

(** ** What a person sees *)

Inductive Box := Inbox | Sent.

(** @modules/workspace/application/mailbox.ts 52-56 boxOf *)
Definition boxOf (message : StoredMessage) (actor : Actor) : option Box :=
  if Qltb (m_sentAt message) (ac_since actor) || includes (ac_name actor) (m_hiddenFor message) then None
  else if bool_decide (m_from message = ac_name actor) then Some Sent
  else if includes (ac_name actor) (m_to message) then Some Inbox else None.

(** The preview is its text and whether an ellipsis follows.
    @modules/workspace/domain/workspace.ts 83-86 MessageHeader *)
Record MessageHeader := {
  h_id : string; h_box : Box; h_from : string; h_to : list string; h_subject : string; h_preview : string * bool; h_sentAt : Q; h_read : bool;
  h_replyTo : option string }.

(** @modules/workspace/domain/workspace.ts 87-87 MessageView *)
Record MessageView := { v_header : MessageHeader; v_body : string }.

(** @modules/workspace/application/mailbox.ts 58-67 header *)
Definition header (message : StoredMessage) (box : Box) (actor : Actor) : MessageHeader :=
  let flat := collapse false (chars (m_body message)) in
  {| h_id := m_id message; h_box := box; h_from := m_from message; h_to := m_to message; h_subject := m_subject message;
     h_preview := if Nat.ltb LIMITS.preview (length flat) then (String.string_of_list_ascii (take (LIMITS.preview - 1) flat), true)
                  else (String.string_of_list_ascii flat, false);
     h_sentAt := m_sentAt message; h_replyTo := m_replyTo message;
     h_read := match box with Sent => true | Inbox => includes (ac_name actor) (m_readBy message) end |}.

Definition view_of (message : StoredMessage) (box : Box) (actor : Actor) : MessageView := {| v_header := header message box actor; v_body := m_body message |}.

Definition has_id (id : string) (m : StoredMessage) : bool := bool_decide (m_id m = id).

(** @modules/workspace/application/mailbox.ts 69-75 find *)
Definition find (document : mail) (actor : Actor) (id : string) : answer (StoredMessage * Box) :=
  of_option NOT_FOUND
    (message ← (if ID id then List.find (has_id id) document else None); box ← boxOf message actor; Some (message, box)).

(** @modules/workspace/domain/workspace.ts 88-88 MailboxView *)
Record MailboxView := { mv_unread : nat; mv_inbox : list MessageHeader; mv_sent : list MessageHeader; mv_omitted : nat * nat }.

Definition is_inbox (h : MessageHeader) : bool := match h_box h with Inbox => true | Sent => false end.

(** What an operation answers. *)
Inductive Reply := Viewed (v : MessageView) | Removed (id : string).

(** What is done to the document once the request is known to be well formed. *)
Notation change := (mail -> answer (Reply * mail)).

Section mail.
Context {texts : Texts} {collation : Collation}.

Definition newer (a b : MessageHeader) : bool :=
  if Qltb (h_sentAt b) (h_sentAt a) then true else if Qltb (h_sentAt a) (h_sentAt b) then false else localeCompare (h_id a) (h_id b) <=? 0.

(** What is listed of the messages a person sees.
    @modules/workspace/application/mailbox.ts 78-88 list *)
Definition list_of (headers : list MessageHeader) : MailboxView :=
  let inbox := List.filter is_inbox headers in
  let sent := List.filter (fun h => negb (is_inbox h)) headers in
  let newest rows := take LIMITS.listed (isort newer rows) in
  {| mv_unread := length (List.filter (fun h => negb (h_read h)) headers); mv_inbox := newest inbox; mv_sent := newest sent;
     mv_omitted := ((length inbox - LIMITS.listed)%nat, (length sent - LIMITS.listed)%nat) |}.

(** What a person sees of one message. *)
Definition seen_by (actor : Actor) (m : StoredMessage) : option MessageView := box ← boxOf m actor; Some (view_of m box actor).

(** @modules/workspace/application/mailbox.ts 77-89 list *)
Definition list_mail (actor : Actor) (document : mail) : MailboxView := list_of (map v_header (omap (seen_by actor) document)).

(** @modules/workspace/application/mailbox.ts 91-94 open *)
Definition open (actor : Actor) (id : string) (document : mail) : answer MessageView :=
  let! (message, box) := find document actor id in Ok (view_of message box actor).

(** ** What a person does *)


(** [String(v)] *)
Definition js_string (v : json) : answer string := match v with JStr s => Ok s | _ => of_option Unexpected (text_of v) end.

(** The oldest mail makes room.
    @modules/workspace/application/mailbox.ts 118-123 send *)
Definition make_room (draft : mail) : mail :=
  if Nat.ltb LIMITS.messages (length draft)
  then drop (length draft - LIMITS.messages) (isort (fun a b => Qle_bool (m_sentAt a) (m_sentAt b)) draft) else draft.

(** What is sent is put into the document, if what it answers can be seen.
    @modules/workspace/application/mailbox.ts 110-125 send *)
Definition post (actor : Actor) (message : StoredMessage) (draft : mail) : answer (Reply * mail) :=
  throw_if match m_replyTo message with
           | Some id => negb (existsb (fun m => has_id id m && match boxOf m actor with Some _ => true | None => false end) draft)
           | None => false
           end with VALIDATION in
  Ok (Viewed (view_of message Sent actor), make_room (draft ++ [message])).

(** [newId] is 9 random bytes in base64url.
    @modules/workspace/application/mailbox.ts 96-116 send *)
Definition send (actor : Actor) (members : list Member) (now : Z) (newId : string) (input : json) : answer change :=
  let! body := fields input ["to"; "subject"; "body"; "replyTo"] in
  let! named := of_option VALIDATION (field "to" body ≫= as_array) in
  throw_if Nat.eqb (length named) 0 with VALIDATION in
  throw_if Nat.ltb LIMITS.recipients (length named) with VALIDATION in
  let! names := of_option VALIDATION (mapM as_string named) in
  let to := isort String.leb (remove_dups (map (fun name => js_lower (js_trim name)) names)) in
  throw_if includes (ac_name actor) to with VALIDATION in
  throw_if existsb (fun name => negb (includes name (map me_name members))) to with VALIDATION in
  let! subject := oneLine (field "subject" body) LIMITS.subject in
  let! text := paragraphs (field "body" body) LIMITS.body true in
  let! replyTo := match field "replyTo" body with None | Some JNull => Ok None | Some v => let! s := js_string v in Ok (Some s) end in
  Ok (post actor {| m_id := newId; m_from := ac_name actor; m_to := to; m_subject := subject; m_body := text; m_sentAt := inject_Z now;
                    m_replyTo := replyTo; m_readBy := []; m_hiddenFor := [] |}).

Definition set_readBy (l : list string) (m : StoredMessage) : StoredMessage :=
  {| m_id := m_id m; m_from := m_from m; m_to := m_to m; m_subject := m_subject m; m_body := m_body m; m_sentAt := m_sentAt m; m_replyTo := m_replyTo m;
     m_readBy := l; m_hiddenFor := m_hiddenFor m |}.
Definition set_hiddenFor (l : list string) (m : StoredMessage) : StoredMessage :=
  {| m_id := m_id m; m_from := m_from m; m_to := m_to m; m_subject := m_subject m; m_body := m_body m; m_sentAt := m_sentAt m; m_replyTo := m_replyTo m;
     m_readBy := m_readBy m; m_hiddenFor := l |}.

Definition without (name : string) (l : list string) : list string := List.filter (fun n => negb (bool_decide (n = name))) l.

(** @modules/workspace/application/mailbox.ts 128-140 mark *)
Definition mark (actor : Actor) (id : string) (input : json) : answer change :=
  let! body := fields input ["read"] in
  let! read := of_option VALIDATION (field "read" body ≫= as_bool) in
  Ok (fun draft : mail =>
    let! (message, box) := find draft actor id in
    match box with
    | Inbox =>
        let others := without (ac_name actor) (m_readBy message) in
        let message := set_readBy (if (read : bool) then others ++ [ac_name actor] else others) message in
        Ok (Viewed (view_of message box actor), alter_first (has_id id) (fun _ => message) draft)
    | Sent => Ok (Viewed (view_of message box actor), draft)
    end).

(** Somebody still has it.
    @modules/workspace/application/mailbox.ts 147-147 remove *)
Definition kept (message : StoredMessage) : bool := existsb (fun name => negb (includes name (m_hiddenFor message))) (m_from message :: m_to message).

(** @modules/workspace/application/mailbox.ts 143-151 remove *)
Definition remove (actor : Actor) (id : string) : answer change :=
  Ok (fun draft : mail =>
    let! (message, _) := find draft actor id in
    let message := set_hiddenFor (m_hiddenFor message ++ [ac_name actor]) message in
    Ok (Removed id, if kept message then alter_first (has_id id) (fun _ => message) draft else drop_first (has_id id) draft)).

Inductive request := Send (now : Z) (newId : string) (input : json) | Mark (id : string) (input : json) | Remove (id : string).

Definition requested (actor : Actor) (members : list Member) (q : request) : answer change :=
  match q with Send now newId input => send actor members now newId input | Mark id input => mark actor id input | Remove id => remove actor id end.
End mail.

(** ** What is kept in the file *)

Record message_ok (m : StoredMessage) : Prop := {
  mo_id : ID (m_id m) = true; mo_from : is_name (m_from m) = true; mo_to : (1 <= length (m_to m) <= LIMITS.recipients)%nat;
  mo_names : Forall (fun n => is_name n = true) (m_to m); mo_subject : js_length (m_subject m) <= LIMITS.subject; mo_body : js_length (m_body m) <= LIMITS.body;
  mo_sentAt : Qle_bool 0 (m_sentAt m) = true; mo_replyTo : match m_replyTo m with Some id => ID id = true | None => True end;
  mo_self : m_from m ∉ m_to m;
  mo_readBy : NoDup (m_readBy m) /\ m_readBy m ⊆ m_to m; mo_hiddenFor : NoDup (m_hiddenFor m) /\ m_hiddenFor m ⊆ m_from m :: m_to m }.

Definition mail_ok (d : mail) : Prop := (length d <= LIMITS.messages)%nat /\ rows_ok m_id message_ok d.

Lemma nodup_subset_length {A} (l k : list A) : NoDup l -> l ⊆ k -> (length l <= length k)%nat.
Proof. intros Hn Hs. apply NoDup_incl_length; [by apply NoDup_ListNoDup|]. intros x Hx. apply list_elem_of_In, Hs, list_elem_of_In, Hx. Qed.

Lemma isNames_ok l max : Forall (fun n => is_name n = true) l -> (length l <= max)%nat -> isNames (Some (JArr (map JStr l))) max = Some l.
Proof.
  intros Hl Hm. unfold isNames. cbn [mbind option_bind as_array]. rewrite length_map, (proj2 (Nat.ltb_ge _ _) Hm). clear Hm.
  induction Hl as [|x l Hx Hl IH]; [done|]. cbn [map mapM as_string mbind option_bind]. rewrite Hx. cbn [mbind option_bind] in *. by rewrite IH.
Qed.

Lemma text_where_ok p s : p s = true -> text_where p (Some (JStr s)) = Some s.
Proof. intros H. unfold text_where. cbn. by rewrite H. Qed.

Lemma message_roundtrip m : message_ok m -> parse_message (message_json m) = Some m.
Proof.
  intros [H1 H2 [H3 H3'] H4 H5 H6 H7 H8 _ [H9 H9'] [H10 H10']]. unfold parse_message, message_json. cbn [as_object mbind option_bind]. set (o := [_; _; _; _; _; _; _; _; _]).
  assert (field "id" o = Some (JStr (m_id m)) /\ field "from" o = Some (JStr (m_from m)) /\ field "to" o = Some (JArr (map JStr (m_to m))) /\
    field "subject" o = Some (JStr (m_subject m)) /\ field "body" o = Some (JStr (m_body m)) /\ field "sentAt" o = Some (JNum (m_sentAt m)) /\
    field "replyTo" o = Some (opt_text (m_replyTo m)) /\ field "readBy" o = Some (JArr (map JStr (m_readBy m))) /\
    field "hiddenFor" o = Some (JArr (map JStr (m_hiddenFor m)))) as (-> & -> & -> & -> & -> & -> & -> & -> & ->) by done.
  clearbody o. assert (forall l, l ⊆ m_from m :: m_to m -> Forall (fun n => is_name n = true) l) as Hn.
  { intros l Hl. apply Forall_forall. intros x Hx. apply Hl in Hx as [->|Hx]%elem_of_cons; [done|]. by rewrite Forall_forall in H4; apply H4. }
  rewrite !text_where_ok by first [assumption|by apply Z.leb_le]. rewrite (isNames_ok (m_to m)) by assumption.
  rewrite (isNames_ok (m_hiddenFor m)) by (by apply Hn || (pose proof (nodup_subset_length _ _ H10 H10'); cbn [length] in *; lia)).
  rewrite (isNames_ok (m_readBy m)) by ((apply Hn; intros x Hx; right; by apply H9') || (pose proof (nodup_subset_length _ _ H9 H9'); lia)).
  cbn [mbind option_bind]. replace (Nat.eqb (length (m_to m)) 0) with false by (symmetry; apply Nat.eqb_neq; lia).
  unfold time_of. rewrite H7. cbn [mbind option_bind].
  assert (null_or (text_where ID) (Some (opt_text (m_replyTo m))) = Some (m_replyTo m)) as ->; [|by destruct m].
  destruct (m_replyTo m) as [id|]; [|done]. unfold null_or, opt_text. by rewrite text_where_ok.
Qed.

Lemma mail_roundtrip d : mail_ok d -> parseMail (mail_json d) = Some d.
Proof.
  intros (Hl & Hn & Hm). unfold parseMail, mail_json. cbn [as_object mbind option_bind]. set (o := [_; _]).
  assert (field "messages" o = Some (JArr (map message_json d)) /\ version_one o = true) as [-> ->] by done. clearbody o. cbn [as_array mbind option_bind].
  rewrite length_map, (proj2 (Nat.ltb_ge _ _) Hl). cbn [negb orb]. rewrite mapM_roundtrip. 2:{ eapply Forall_impl; [exact Hm|]. apply message_roundtrip. }
  cbn [mbind option_bind]. by rewrite bool_decide_eq_true_2.
Qed.

(** ** One message of the box *)

(** What was found, and the document around it. *)
Lemma find_ok d actor id m box : find d actor id = Ok (m, box) ->
  m ∈ d /\ m_id m = id /\ boxOf m actor = Some box /\ exists l1 l2, d = l1 ++ m :: l2 /\
    (forall f, alter_first (has_id id) f d = l1 ++ f m :: l2) /\ drop_first (has_id id) d = l1 ++ l2.
Proof.
  unfold find. destruct (ID id); [|done]. destruct (List.find (has_id id) d) as [m'|] eqn:Ef; [|done]. cbn [mbind option_bind].
  destruct (boxOf m' actor) as [b|] eqn:Eb; [|done]. cbn. intros [= -> ->]. apply find_split in Ef as (l1 & l2 & -> & Hid & _ & Ha & Hd).
  apply bool_decide_eq_true in Hid. split_and!; [apply elem_of_app; right; left|done|done|]. by exists l1, l2.
Qed.

Lemma boxOf_some m actor box : boxOf m actor = Some box ->
  (ac_since actor <= m_sentAt m)%Q /\ ac_name actor ∉ m_hiddenFor m /\
  match box with Sent => m_from m = ac_name actor | Inbox => m_from m <> ac_name actor /\ ac_name actor ∈ m_to m end.
Proof.
  unfold boxOf, Qltb. destruct (negb (Qle_bool (ac_since actor) (m_sentAt m)) || _) eqn:E; [done|]. apply orb_false_iff in E as [E1%negb_false%Qle_bool_iff E2%includes_false].
  destruct (bool_decide (m_from m = ac_name actor)) eqn:E3; [apply bool_decide_eq_true in E3; by intros [= <-]|]. apply bool_decide_eq_false in E3.
  destruct (includes _ _) eqn:E4; [|done]. apply includes_true in E4. by intros [= <-].
Qed.

Lemma elem_of_without_name x name l : x ∈ without name l <-> x ∈ l /\ x <> name.
Proof. unfold without. rewrite filter_in. by rewrite negb_true, bool_decide_eq_false. Qed.

Lemma without_name_nodup name l : NoDup l -> NoDup (without name l).
Proof. intros H. rewrite <- (map_id l) in H. apply (filter_nodup id (fun n => negb (bool_decide (n = name)))) in H. by rewrite map_id in H. Qed.

(** Opening and hiding keep a message what it is. *)
Lemma message_read m actor (read : bool) : message_ok m -> boxOf m actor = Some Inbox ->
  message_ok (set_readBy (if read then without (ac_name actor) (m_readBy m) ++ [ac_name actor] else without (ac_name actor) (m_readBy m)) m).
Proof.
  intros [H1 H2 H3 H4 H5 H6 H7 H8 H9 [Ha Hb] H10] (_ & _ & _ & Hin)%boxOf_some. constructor; try done. cbn [m_readBy m_to set_readBy].
  assert (without (ac_name actor) (m_readBy m) ⊆ m_to m) as Hs by (intros x [Hx _]%elem_of_without_name; by apply Hb).
  destruct read; [|by split; [apply without_name_nodup|]]. split.
  - apply nodup_snoc; [by apply without_name_nodup|]. by intros [_ ?]%elem_of_without_name.
  - intros x [Hx| ->%list_elem_of_singleton]%elem_of_app; [by apply Hs|done].
Qed.

Lemma message_hidden m actor box : message_ok m -> boxOf m actor = Some box -> message_ok (set_hiddenFor (m_hiddenFor m ++ [ac_name actor]) m).
Proof.
  intros [H1 H2 H3 H4 H5 H6 H7 H8 H9 H10 [Ha Hb]] (_ & Hh & Hbox)%boxOf_some. constructor; try done. cbn [m_hiddenFor m_from m_to set_hiddenFor].
  split; [by apply nodup_snoc|]. intros x [Hx| ->%list_elem_of_singleton]%elem_of_app; [by apply Hb|].
  destruct box; [right; by destruct Hbox|rewrite <- Hbox; left].
Qed.

(** ** Every operation keeps the document whole *)

Definition oldest_first (a b : StoredMessage) : bool := Qle_bool (m_sentAt a) (m_sentAt b).

Lemma oldest_first_sorted d : StronglySorted (fun a b => oldest_first a b = true) (isort oldest_first d).
Proof.
  apply isort_sorted; unfold oldest_first.
  - intros x y. rewrite !Qle_bool_iff. destruct (Qlt_le_dec (m_sentAt x) (m_sentAt y)) as [H|H]; [left; by apply Qlt_le_weak|by right].
  - intros x y z. rewrite !Qle_bool_iff. apply Qle_trans.
Qed.

Lemma sorted_drop {A} (R : A -> A -> Prop) k l x y : StronglySorted R l -> x ∈ take k l -> y ∈ drop k l -> R x y.
Proof.
  intros H. revert k. induction H as [|z l Hs IH Hz]; intros k; [rewrite take_nil; by intros ?%elem_of_nil|]. destruct k as [|k]; [by intros ?%elem_of_nil|].
  cbn [take drop]. intros [->|Hx]%elem_of_cons Hy; [|by eapply IH]. rewrite Forall_forall in Hz. apply Hz. rewrite <- (take_drop k l). apply elem_of_app. by right.
Qed.

(** Room is made by giving up the oldest: what is kept was there, and whatever
    is given up is no newer than anything kept, in a full box. *)
Lemma make_room_spec d : (length d <= S LIMITS.messages)%nat ->
  (length (make_room d) <= LIMITS.messages)%nat /\ (forall m, m ∈ make_room d -> m ∈ d) /\ (NoDup (map m_id d) -> NoDup (map m_id (make_room d))) /\
  ((length d <= LIMITS.messages)%nat -> make_room d = d) /\
  forall m, m ∈ d -> m ∈ make_room d \/ (length d = S LIMITS.messages /\ forall k, k ∈ make_room d -> (m_sentAt m <= m_sentAt k)%Q).
Proof.
  intros Hl. unfold make_room. fold oldest_first. destruct (Nat.ltb_spec LIMITS.messages (length d)) as [Hlt|Hge].
  - pose proof (isort_perm oldest_first d) as Hp. pose proof (oldest_first_sorted d) as Hs. set (l := isort oldest_first d) in *. set (k := (length d - LIMITS.messages)%nat) in *.
    split_and!.
    + rewrite length_drop, Hp. lia.
    + intros m Hm. rewrite <- Hp, <- (take_drop k l). apply elem_of_app. by right.
    + intros Hn. rewrite <- Hp, <- (take_drop k l), map_app in Hn. by apply NoDup_app in Hn as (_ & _ & Hn).
    + lia.
    + intros m Hm. rewrite <- Hp, <- (take_drop k l) in Hm. apply elem_of_app in Hm as [Hm|Hm]; [|by left]. right. split; [lia|].
      intros x Hx. apply Qle_bool_iff. exact (sorted_drop _ k l m x Hs Hm Hx).
  - split_and!; [lia|done|done|done|]. intros m Hm. by left.
Qed.

Section steps.
Context {texts : Texts}.

(** Names are those of accounts, and an id that is drawn is new. *)
Definition fair (actor : Actor) (members : list Member) (q : request) (d : mail) : Prop :=
  is_name (ac_name actor) = true /\ Forall (fun m => is_name (me_name m) = true) members /\
  match q with Send now newId _ => 0 <= now /\ ID newId = true /\ newId ∉ map m_id d | _ => True end.

Lemma mapM_length {A B} (f : A -> option B) l k : mapM f l = Some k -> length k = length l.
Proof. intros H%mapM_Some_1. symmetry. by eapply Forall2_length. Qed.

(** What is posted: a message of the actor to other members. *)
Lemma send_post actor members now newId input ch : send actor members now newId input = Ok ch ->
  exists m, ch = post actor m /\ m_id m = newId /\ m_from m = ac_name actor /\ m_sentAt m = inject_Z now /\ m_readBy m = [] /\ m_hiddenFor m = [] /\
    (1 <= length (m_to m) <= LIMITS.recipients)%nat /\ ac_name actor ∉ m_to m /\ (forall n, n ∈ m_to m -> n ∈ map me_name members) /\
    js_length (m_subject m) <= LIMITS.subject /\ js_length (m_body m) <= LIMITS.body.
Proof.
  unfold send. intros H. apply rbind_ok in H as (body & _ & H). apply rbind_ok in H as (named & _ & H).
  destruct (Nat.eqb_spec (length named) 0) as [|Hne]; [done|]. destruct (Nat.ltb_spec LIMITS.recipients (length named)) as [|Hle]; [done|].
  apply rbind_ok in H as (names & Hnames & H). destruct (mapM as_string named) as [ns|] eqn:En; [|done]. injection Hnames as <-. apply mapM_length in En.
  set (to := isort _ _) in H. destruct (includes (ac_name actor) to) eqn:Ei; [done|]. apply includes_false in Ei.
  destruct (existsb _ to) eqn:Ee; [done|]. apply rbind_ok in H as (subject & Hsub%oneLine_ok & H). apply rbind_ok in H as (text & Htext%paragraphs_ok & H); [|done].
  apply rbind_ok in H as (replyTo & _ & H). injection H as <-. eexists. split; [reflexivity|]. cbn. split_and!; try done.
  - unfold to. rewrite isort_length. destruct ns as [|n ns]; [by destruct Hne|]. cbn [map]. set (l := _ :: _).
    destruct (remove_dups l) as [|x r] eqn:Er; [|cbn; lia]. exfalso. assert (js_lower (js_trim n) ∈ remove_dups l) as Hx by (apply elem_of_remove_dups; left).
    rewrite Er in Hx. by apply elem_of_nil in Hx.
  - unfold to. rewrite isort_length. pose proof (NoDup_remove_dups (map (fun name => js_lower (js_trim name)) ns)) as Hn.
    assert (remove_dups (map (fun name => js_lower (js_trim name)) ns) ⊆ map (fun name => js_lower (js_trim name)) ns) as Hs by (intros x Hx; exact (proj1 (elem_of_remove_dups _ _) Hx)).
    apply nodup_subset_length in Hs; [|done]. rewrite length_map in Hs. lia.
  - intros n Hn. apply (existsb_none _ _ _ Ee) in Hn. cbn in Hn. by apply negb_false, includes_true in Hn.
  - by destruct Hsub.
Qed.

(** The same letter, whoever opened or hid it. *)
Definition same_letter (m m' : StoredMessage) : Prop := m_id m = m_id m' /\ m_from m = m_from m' /\ m_to m = m_to m' /\ m_subject m = m_subject m' /\
  m_body m = m_body m' /\ m_sentAt m = m_sentAt m' /\ m_replyTo m = m_replyTo m'.

(** Why a letter may go: everybody it belongs to took it out, or the box is full
    of letters that are no older. *)
Definition may_go (actor : Actor) (q : request) (d d' : mail) (m : StoredMessage) : Prop :=
  (q = Remove (m_id m) /\ forall name, name ∈ m_from m :: m_to m -> name = ac_name actor \/ name ∈ m_hiddenFor m) \/
  ((exists now id input, q = Send now id input) /\ length d = LIMITS.messages /\ forall k, k ∈ d' -> (m_sentAt m <= m_sentAt k)%Q).

Lemma same_letter_refl m : same_letter m m.
Proof. by unfold same_letter. Qed.

(** A message in the middle of the document is changed for one of the same id,
    or goes. *)
Lemma mail_ok_swap l1 l2 m m' : mail_ok (l1 ++ m :: l2) -> m_id m' = m_id m -> message_ok m' -> mail_ok (l1 ++ m' :: l2).
Proof. intros [Hl Hr] Hid Hok. split; [by rewrite length_app in *|]. by eapply rows_swap. Qed.

Lemma mail_ok_gone l1 l2 m : mail_ok (l1 ++ m :: l2) -> mail_ok (l1 ++ l2).
Proof. intros [Hl [Hr _]%rows_gone]. split; [rewrite length_app in *; cbn in Hl; lia|done]. Qed.

Lemma post_ok actor members now newId input ch d r d' : send actor members now newId input = Ok ch -> fair actor members (Send now newId input) d -> mail_ok d ->
  ch d = Ok (r, d') -> exists m, message_ok m /\ r = Viewed (view_of m Sent actor) /\ d' = make_room (d ++ [m]) /\ m_id m = newId /\ m_from m = ac_name actor /\
    m_sentAt m = inject_Z now.
Proof.
  intros (m & -> & H1 & H2 & H3 & H4 & H5 & H6 & H7 & H8 & H9 & H10)%send_post (Hname & Hmem & Hnow & Hid & Hnew) (_ & _ & Hd).
  unfold post. destruct (match m_replyTo m with Some _ => _ | None => _ end) eqn:Er; [done|]. intros [= <- <-]. exists m. split_and!; try done. constructor; try done.
  - by rewrite H1.
  - by rewrite H2.
  - apply Forall_forall. intros n Hn. apply H8 in Hn. apply list_elem_of_fmap in Hn as (x & -> & Hx). rewrite Forall_forall in Hmem. by apply Hmem.
  - rewrite H3. apply Qle_bool_iff. unfold Qle. cbn. lia.
  - destruct (m_replyTo m) as [id|]; [|done]. apply negb_false, existsb_exists in Er as (x & Hx%list_elem_of_In & [Hxid%bool_decide_eq_true _]%andb_true_iff).
    rewrite Forall_forall in Hd. rewrite <- Hxid. by apply Hd.
  - by rewrite H2.
  - rewrite H4. split; [constructor|]. intros x ?%elem_of_nil. done.
  - rewrite H5. split; [constructor|]. intros x ?%elem_of_nil. done.
Qed.

Lemma step_ok actor members q ch d r d' : requested actor members q = Ok ch -> fair actor members q d -> mail_ok d -> ch d = Ok (r, d') ->
  mail_ok d' /\ forall m, m ∈ d -> (exists m', m' ∈ d' /\ same_letter m m') \/ may_go actor q d d' m.
Proof.
  intros Hq Hf Hd Hr. destruct q as [now newId input|id input|id]; cbn [requested] in Hq.
  - destruct (post_ok _ _ _ _ _ _ _ _ _ Hq Hf Hd Hr) as (m & Hm & _ & -> & Hid & _ & _). destruct Hd as (Hl & Hn & Hd). destruct Hf as (_ & _ & _ & _ & Hnew).
    assert (length (d ++ [m]) = S (length d)) as Hlen by (rewrite length_app; cbn; lia). destruct (make_room_spec (d ++ [m])) as (G1 & G2 & G3 & _ & G5); [lia|].
    split; [split; [done|split]|].
    + apply G3. rewrite map_app. cbn [map]. apply nodup_snoc; [done|by rewrite Hid].
    + apply Forall_forall. intros x [Hx|Hx%list_elem_of_singleton]%G2%elem_of_app; [by rewrite Forall_forall in Hd; apply Hd|by subst].
    + intros x Hx. destruct (G5 x) as [H|[H1 H2]]; [apply elem_of_app; by left|left; exists x; split; [done|apply same_letter_refl]|].
      right. right. split; [by eexists _, _, _|]. split; [lia|done].
  - unfold mark in Hq. apply rbind_ok in Hq as (body & _ & Hq). apply rbind_ok in Hq as (read & _ & Hq). injection Hq as <-.
    apply rbind_ok in Hr as ([m box] & Hfind & Hr). destruct (find_ok _ _ _ _ _ Hfind) as (Hin & Hid & Hbox & l1 & l2 & -> & Ha & _). destruct box.
    + injection Hr as <- <-. rewrite Ha. assert (message_ok m) as Hm by (destruct Hd as (_ & _ & Hd); rewrite Forall_forall in Hd; by apply Hd).
      split; [eapply mail_ok_swap; [done|done|by apply message_read]|]. intros x [Hx|[->|Hx]%elem_of_cons]%elem_of_app; left.
      * exists x. split; [apply elem_of_app; by left|apply same_letter_refl].
      * eexists. split; [apply elem_of_app; right; left|done].
      * exists x. split; [apply elem_of_app; right; by right|apply same_letter_refl].
    + injection Hr as <- <-. split; [done|]. intros x Hx. left. exists x. split; [done|apply same_letter_refl].
  - injection Hq as <-. apply rbind_ok in Hr as ([m box] & Hfind & Hr). destruct (find_ok _ _ _ _ _ Hfind) as (Hin & Hid & Hbox & l1 & l2 & -> & Ha & Hdrop).
    assert (message_ok m) as Hm by (destruct Hd as (_ & _ & Hd); rewrite Forall_forall in Hd; by apply Hd).
    set (gone := set_hiddenFor _ m) in Hr. destruct (kept gone) eqn:Ek; injection Hr as <- <-.
    + rewrite Ha. split; [eapply mail_ok_swap; [done|done|by eapply message_hidden]|]. intros x [Hx|[->|Hx]%elem_of_cons]%elem_of_app; left.
      * exists x. split; [apply elem_of_app; by left|apply same_letter_refl].
      * exists gone. split; [apply elem_of_app; right; left|done].
      * exists x. split; [apply elem_of_app; right; by right|apply same_letter_refl].
    + rewrite Hdrop. split; [by eapply mail_ok_gone|]. intros x [Hx|[->|Hx]%elem_of_cons]%elem_of_app.
      * left. exists x. split; [apply elem_of_app; by left|apply same_letter_refl].
      * right. left. split; [by rewrite Hid|]. intros name Hn. change (m_from m :: m_to m) with (m_from gone :: m_to gone) in Hn.
        apply (existsb_none _ _ _ Ek) in Hn. cbn in Hn. apply negb_false, includes_true in Hn. apply elem_of_app in Hn as [Hn|Hn%list_elem_of_singleton]; auto.
      * left. exists x. split; [apply elem_of_app; by right|apply same_letter_refl].
Qed.
End steps.

(** ** Who sees what *)

(** All that a person sees. *)
Definition mailbox_of (actor : Actor) (d : mail) : list MessageView := omap (seen_by actor) d.

Definition reply_of (x : answer (Reply * mail)) : answer Reply := match x with Ok (r, _) => Ok r | Err e => Err e end.

Definition is_view (id : string) (v : MessageView) : bool := bool_decide (h_id (v_header v) = id).

Lemma seen_by_id actor m v : seen_by actor m = Some v -> h_id (v_header v) = m_id m.
Proof. unfold seen_by. destruct (boxOf m actor); [|done]. by intros [= <-]. Qed.

Lemma find_unseen actor id d : id ∉ map m_id d -> List.find (is_view id) (mailbox_of actor d) = None.
Proof.
  induction d as [|m d IH]; [done|]. cbn [map]. intros [Hne Hd]%not_elem_of_cons. unfold mailbox_of in *. cbn [omap list_omap].
  destruct (seen_by actor m) as [v|] eqn:E; [|by apply IH]. cbn [List.find]. unfold is_view at 1. rewrite (seen_by_id _ _ _ E), bool_decide_eq_false_2 by congruence. by apply IH.
Qed.

Lemma find_seen actor id d : NoDup (map m_id d) -> List.find (has_id id) d ≫= seen_by actor = List.find (is_view id) (mailbox_of actor d).
Proof.
  induction d as [|m d IH]; [done|]. cbn [map]. intros [Hnew Hd]%NoDup_cons. cbn [List.find]. unfold mailbox_of. cbn [omap list_omap].
  unfold has_id at 1. case_bool_decide as E.
  - subst id. cbn [mbind option_bind]. destruct (seen_by actor m) as [v|] eqn:Ev; [|symmetry; by apply find_unseen].
    cbn [List.find]. unfold is_view at 1. by rewrite (seen_by_id _ _ _ Ev), bool_decide_eq_true_2.
  - rewrite (IH Hd). destruct (seen_by actor m) as [v|] eqn:Ev; [|done]. cbn [List.find]. unfold is_view at 2.
    by rewrite (seen_by_id _ _ _ Ev), bool_decide_eq_false_2.
Qed.

(** A message is opened out of what is seen, and nothing else. *)
Lemma open_seen actor id d : NoDup (map m_id d) ->
  open actor id d = of_option NOT_FOUND (if ID id then List.find (is_view id) (mailbox_of actor d) else None).
Proof.
  intros Hd. rewrite <- (find_seen actor id d Hd). unfold open, find. destruct (ID id); [|done]. destruct (List.find (has_id id) d) as [m|]; [|done].
  cbn [mbind option_bind]. unfold seen_by. by destruct (boxOf m actor).
Qed.

Lemma answers_seen actor id d :
  existsb (fun m => has_id id m && match boxOf m actor with Some _ => true | None => false end) d = existsb (is_view id) (mailbox_of actor d).
Proof.
  induction d as [|m d IH]; [done|]. unfold mailbox_of in *. cbn [existsb omap list_omap]. rewrite IH. destruct (seen_by actor m) as [v|] eqn:E.
  - cbn [existsb]. f_equal. unfold is_view. rewrite (seen_by_id _ _ _ E). unfold seen_by in E. destruct (boxOf m actor); [|done]. by rewrite andb_true_r.
  - unfold seen_by in E. destruct (boxOf m actor); [done|]. by rewrite andb_false_r.
Qed.

Lemma includes_snoc (name : string) l : includes name (l ++ [name]) = true.
Proof. apply includes_true, elem_of_app. right. by apply list_elem_of_singleton. Qed.
Lemma includes_without (name : string) l : includes name (without name l) = false.
Proof. apply includes_false. by intros [_ ?]%elem_of_without_name. Qed.
Lemma includes_without_ne (name other : string) l : other <> name -> includes other (without name l) = includes other l.
Proof. intros H. unfold includes. apply bool_decide_ext. rewrite elem_of_without_name. naive_solver. Qed.
Lemma includes_snoc_ne (name other : string) l : other <> name -> includes other (l ++ [name]) = includes other l.
Proof. intros H. unfold includes. apply bool_decide_ext. rewrite elem_of_app, list_elem_of_singleton. naive_solver. Qed.

Definition set_read (read : bool) (v : MessageView) : MessageView :=
  let h := v_header v in
  match h_box h with
  | Sent => v
  | Inbox => {| v_header := {| h_id := h_id h; h_box := Inbox; h_from := h_from h; h_to := h_to h; h_subject := h_subject h; h_preview := h_preview h;
                 h_sentAt := h_sentAt h; h_read := read; h_replyTo := h_replyTo h |}; v_body := v_body v |}
  end.

Section privacy.
Context {texts : Texts} {collation : Collation}.

(** The answer to a request follows from what the person sees. *)
Lemma reply_seen actor members q ch d1 d2 : requested actor members q = Ok ch -> NoDup (map m_id d1) -> NoDup (map m_id d2) ->
  mailbox_of actor d1 = mailbox_of actor d2 -> reply_of (ch d1) = reply_of (ch d2).
Proof.
  intros Hq Hn1 Hn2 Hsame. assert (forall id, open actor id d1 = open actor id d2) as Hopen by (intros id; by rewrite !open_seen, Hsame).
  destruct q as [now newId input|id input|id]; cbn [requested] in Hq.
  - apply send_post in Hq as (m & -> & _). unfold post. destruct (m_replyTo m) as [id|]; [|done]. rewrite !answers_seen, Hsame. by destruct (negb _).
  - unfold mark in Hq. apply rbind_ok in Hq as (body & _ & Hq). apply rbind_ok in Hq as (read & _ & Hq). injection Hq as <-.
    assert (forall d, reply_of (let! (message, box) := find d actor id in
      match box with
      | Inbox => Ok (Viewed (view_of (set_readBy (if read then without (ac_name actor) (m_readBy message) ++ [ac_name actor] else without (ac_name actor) (m_readBy message)) message) box actor),
          alter_first (has_id id) (fun _ => set_readBy (if read then without (ac_name actor) (m_readBy message) ++ [ac_name actor] else without (ac_name actor) (m_readBy message)) message) d)
      | Sent => Ok (Viewed (view_of message box actor), d) end) = let! v := open actor id d in Ok (Viewed (set_read read v))) as H.
    { intros d. unfold open. destruct (find d actor id) as [[m box]|e]; [|done]. cbn [rbind]. destruct box; [|done]. cbn [reply_of]. do 2 f_equal.
      unfold view_of, set_read, header. cbn. do 2 f_equal. destruct read; [apply includes_snoc|apply includes_without]. }
    cbv zeta. by rewrite !H, Hopen.
  - injection Hq as <-. specialize (Hopen id). unfold open in Hopen.
    destruct (find d1 actor id) as [[m1 b1]|e1], (find d2 actor id) as [[m2 b2]|e2]; cbn in *; congruence.
Qed.

(** Nobody's reading or removing shows in another person's mailbox. *)
Lemma others_see_same actor other members q ch d r d' : ac_name other <> ac_name actor -> requested actor members q = Ok ch -> ch d = Ok (r, d') ->
  match q with Send _ _ _ => True | _ => mailbox_of other d' = mailbox_of other d end.
Proof.
  intros Hne Hq Hr. destruct q as [now newId input|id input|id]; cbn [requested] in Hq; [done| |].
  - unfold mark in Hq. apply rbind_ok in Hq as (body & _ & Hq). apply rbind_ok in Hq as (read & _ & Hq). injection Hq as <-.
    apply rbind_ok in Hr as ([m box] & Hfind & Hr). destruct (find_ok _ _ _ _ _ Hfind) as (_ & _ & _ & l1 & l2 & -> & Ha & _). destruct box; injection Hr as <- <-; [|done].
    rewrite Ha. unfold mailbox_of. rewrite !omap_app. f_equal. cbn [omap list_omap]. set (k := if read then _ else _).
    assert (seen_by other (set_readBy k m) = seen_by other m) as ->; [|done]. unfold seen_by. change (boxOf (set_readBy k m) other) with (boxOf m other).
    destruct (boxOf m other) as [b|]; [|done]. unfold view_of, header. cbn. do 3 f_equal. destruct b; [|done]. unfold k.
    destruct read; rewrite ?includes_snoc_ne by done; by apply includes_without_ne.
  - injection Hq as <-. apply rbind_ok in Hr as ([m box] & Hfind & Hr). destruct (find_ok _ _ _ _ _ Hfind) as (_ & _ & _ & l1 & l2 & -> & Ha & Hdrop).
    set (gone := set_hiddenFor _ m) in Hr.
    assert (seen_by other gone = seen_by other m) as Hsame.
    { unfold seen_by. assert (boxOf gone other = boxOf m other) as ->; [|by destruct (boxOf m other)]. unfold boxOf, gone. cbn. by rewrite includes_snoc_ne. }
    destruct (kept gone) eqn:Ek; injection Hr as <- <-; unfold mailbox_of; [rewrite Ha|rewrite Hdrop]; rewrite !omap_app; f_equal; cbn [omap list_omap].
    + by rewrite Hsame.
    + assert (seen_by other m = None) as ->; [|done]. unfold seen_by. destruct (boxOf m other) as [b|] eqn:Eb; [|done]. exfalso.
      apply boxOf_some in Eb as (_ & Hh & Hb). assert (ac_name other ∈ m_from gone :: m_to gone) as Hin.
      { unfold gone. cbn. destruct b; [right; by destruct Hb|rewrite Hb; left]. }
      apply (existsb_none _ _ _ Ek) in Hin. cbn in Hin. apply negb_false, includes_true in Hin. apply elem_of_app in Hin as [Hin|Hin%list_elem_of_singleton]; congruence.
Qed.

(** C21: A letter is between its sender and those it was sent to. What a person
    is listed, may open, and is answered to any request follows from the
    letters that person sent or was sent, since the account is theirs, and did
    not remove: two documents that differ in other people's letters cannot be
    told apart, not even by asking for an id. Reading or removing changes
    nobody else's mailbox, and sending adds the letter to those it is for. *)
Theorem mail_is_private d : mail_ok d ->
  (forall actor m v, m ∈ d -> seen_by actor m = Some v ->
     (m_from m = ac_name actor \/ ac_name actor ∈ m_to m) /\ (ac_since actor <= m_sentAt m)%Q /\ ac_name actor ∉ m_hiddenFor m) /\
  (forall actor d2, mail_ok d2 -> mailbox_of actor d = mailbox_of actor d2 ->
     list_mail actor d = list_mail actor d2 /\ (forall id, open actor id d = open actor id d2) /\
     forall members q ch, requested actor members q = Ok ch -> reply_of (ch d) = reply_of (ch d2)) /\
  (forall actor other members q ch r d', ac_name other <> ac_name actor -> requested actor members q = Ok ch -> fair actor members q d -> ch d = Ok (r, d') ->
     match q with
     | Send now newId _ => exists m, m_id m = newId /\ m_from m = ac_name actor /\ m_sentAt m = inject_Z now /\ r = Viewed (view_of m Sent actor) /\
         (forall v, v ∈ mailbox_of other d' -> v ∈ mailbox_of other d \/ seen_by other m = Some v) /\
         ((length d < LIMITS.messages)%nat -> mailbox_of other d' = mailbox_of other d ++ option_list (seen_by other m))
     | _ => mailbox_of other d' = mailbox_of other d
     end).
Proof.
  intros Hd. split_and!.
  - intros actor m v _ Hv. unfold seen_by in Hv. destruct (boxOf m actor) as [b|] eqn:Eb; [|done]. apply boxOf_some in Eb as (H1 & H2 & H3).
    split_and!; [|done|done]. destruct b; [right; by destruct H3|by left].
  - intros actor d2 Hd2 Hsame. destruct Hd as (_ & Hn & _), Hd2 as (_ & Hn2 & _). split_and!.
    + unfold list_mail. change (omap (seen_by actor)) with (mailbox_of actor). by rewrite Hsame.
    + intros id. by rewrite !open_seen, Hsame.
    + intros members q ch Hq. by eapply reply_seen.
  - intros actor other members q ch r d' Hne Hq Hf Hr. pose proof (others_see_same actor other members q ch d r d' Hne Hq Hr) as Ho.
    destruct q as [now newId input| |]; [|done|done].
    destruct (post_ok _ _ _ _ _ _ _ _ _ Hq Hf Hd Hr) as (m & Hm & -> & -> & Hid & Hfrom & Hat). destruct Hd as (Hl & _).
    assert (length (d ++ [m]) = S (length d)) as Hlen by (rewrite length_app; cbn; lia). destruct (make_room_spec (d ++ [m])) as (_ & G2 & _ & G4 & _); [lia|].
    exists m. split_and!; try done.
    + intros v (x & Hx & Hv)%list_elem_of_omap. apply G2, elem_of_app in Hx as [Hx| ->%list_elem_of_singleton]; [left; apply list_elem_of_omap; by exists x|by right].
    + intros Hlt. rewrite G4 by lia. unfold mailbox_of. rewrite omap_app. by f_equal.
Qed.
End privacy.

(** ** The mailbox over its file *)

Section mailroom.
Context {texts : Texts} {collation : Collation}.

(** A request to the mailbox, with what the file system answers.
    @modules/workspace/application/mailbox.ts 37-43 Mailbox *)
Definition serve_mail (actor : Actor) (members : list Member) (q : request) (io : Io) (d : disk) (s : JsonDocumentStore mail) :
    answer Reply * JsonDocumentStore mail * disk := serve emptyMail parseMail mail_json (requested actor members q) io d s.

Definition mail_in (d : disk) : option mail := stored emptyMail parseMail d.
Definition read_mail (io : Io) (d : disk) (s : JsonDocumentStore mail) : answer mail * JsonDocumentStore mail := read emptyMail parseMail io d s.

(** The file and the process over it, from the first start on: requests, reads
    and restarts. *)
Inductive mailroom : disk -> JsonDocumentStore mail -> Prop :=
| mailroom_new : mailroom None new_store
| mailroom_restart d s : mailroom d s -> mailroom d new_store
| mailroom_read io d s r s' : mailroom d s -> read_mail io d s = (r, s') -> mailroom d s'
| mailroom_request actor members q io d s r s' d' : mailroom d s -> (forall doc, mail_in d = Some doc -> fair actor members q doc) ->
    serve_mail actor members q io d s = (r, s', d') -> mailroom d' s'.

Lemma serve_mail_spec actor members q io d s doc r s' d' : store_ok emptyMail parseMail d s -> mail_in d = Some doc -> mail_ok doc ->
  fair actor members q doc -> serve_mail actor members q io d s = (r, s', d') ->
  store_ok emptyMail parseMail d' s' /\ exists doc', mail_in d' = Some doc' /\ mail_ok doc' /\ carried_out (requested actor members q) io doc r doc'.
Proof.
  intros Hs Hdoc Hok Hf. apply serve_spec; [apply mail_roundtrip|done|done|done|]. intros ch x doc' Hch Hx. by apply (step_ok _ _ _ _ _ _ _ Hch Hf Hok Hx).
Qed.

Lemma mailroom_holds d s : mailroom d s -> store_ok emptyMail parseMail d s /\ exists doc, mail_in d = Some doc /\ mail_ok doc.
Proof.
  induction 1 as [|d s _ [_ IH]|io d s r s' _ [IHs IH] Hr|actor members q io d s r s' d' _ [IHs (doc & IH1 & IH2)] Hf Hr].
  - split; [done|]. exists []. split; [done|]. split; [cbn; lia|]. split; constructor.
  - by split.
  - split; [|done]. by apply read_spec in Hr as [? _].
  - destruct (serve_mail_spec _ _ _ _ _ _ _ _ _ _ IHs IH1 IH2 (Hf _ IH1) Hr) as [? (doc' & ? & ? & _)]. split; [done|]. by exists doc'.
Qed.

(** C22: No letter is lost. Whatever the file system does and however often the
    process starts again, the file holds a mailbox that is read back whole: at
    most a thousand letters, of ids of their own. A request is carried out on
    it whole, or refused and nothing is changed; only when the disk fails after
    the new file is in place is a change reported as failed. A letter goes
    when everybody it belongs to took it out, or from a full box, when it is
    no newer than any that stays. *)
Theorem mail_is_kept d s : mailroom d s -> exists doc, mail_in d = Some doc /\ mail_ok doc /\
  (forall io r s', read_mail io d s = (r, s') -> r = Ok doc \/ r = Err STORAGE_UNAVAILABLE) /\
  forall actor members q io r s' d', fair actor members q doc -> serve_mail actor members q io d s = (r, s', d') ->
    exists doc', mail_in d' = Some doc' /\ mail_ok doc' /\ carried_out (requested actor members q) io doc r doc' /\
      forall m, m ∈ doc -> (exists m', m' ∈ doc' /\ same_letter m m') \/ may_go actor q doc doc' m.
Proof.
  intros [Hs (doc & Hdoc & Hok)]%mailroom_holds. exists doc. split_and!; [done|done| |].
  - intros io r s' Hr. apply read_spec in Hr as [_ [->|(doc' & -> & Hd)]]; [by right| |done]. left. unfold mail_in in Hdoc. congruence.
  - intros actor members q io r s' d' Hf Hr. destruct (serve_mail_spec _ _ _ _ _ _ _ _ _ _ Hs Hdoc Hok Hf Hr) as [_ (doc' & H1 & H2 & H3)].
    exists doc'. split_and!; [done|done|done|]. intros m Hm. destruct H3 as [[-> _]|(ch & x & Hch & Hx & _)].
    + left. exists m. split; [done|apply same_letter_refl].
    + by apply (step_ok _ _ _ _ _ _ _ Hch Hf Hok Hx).
Qed.
End mailroom.

Module Post.

#[local] Instance no_texts : Texts := {| text_of _ := None |}.
#[local] Instance by_bytes : Collation := {| localeCompare a b := if String.leb a b then if String.leb b a then 0 else -1 else 1 |}.

Definition people : list Member := [{| me_name := "ada"; me_since := 10; me_teamRoles := [] |}; {| me_name := "bob"; me_since := 20; me_teamRoles := [] |}; {| me_name := "cy"; me_since := 30; me_teamRoles := [] |}].
Definition as_actor (m : Member) : Actor := {| ac_name := me_name m; ac_since := me_since m; ac_teamRoles := me_teamRoles m; ac_canTriage := false; ac_isAdmin := false |}.
Definition ada : Actor := {| ac_name := "ada"; ac_since := 10; ac_teamRoles := []; ac_canTriage := true; ac_isAdmin := true |}.
Definition bob : Actor := {| ac_name := "bob"; ac_since := 20; ac_teamRoles := []; ac_canTriage := false; ac_isAdmin := false |}.
Definition cy : Actor := {| ac_name := "cy"; ac_since := 30; ac_teamRoles := []; ac_canTriage := false; ac_isAdmin := false |}.
Definition letter : json := JObj [("to", JArr [JStr " Bob"]); ("subject", JStr "  two   words "); ("body", JStr "hello")].
Definition fine : Io := {| io_stat := true; io_read := true; io_write := Written; io_again := true |}.
Definition first_letter : request := Send 100 "AAAAAAAAAAAA" letter.
Definition after_first : answer Reply * JsonDocumentStore mail * disk := Eval vm_compute in serve_mail ada people first_letter fine None new_store.
Definition file1 : disk := Eval vm_compute in after_first.2.
Definition store1 : JsonDocumentStore mail := Eval vm_compute in after_first.1.2.
Definition mail1 : mail := Eval vm_compute in match mail_in file1 with Some d => d | None => [] end.

Lemma fair_first d : d = [] -> fair ada people first_letter d.
Proof. intros ->. split; [reflexivity|]. split; [by repeat constructor|]. split; [discriminate|]. split; [reflexivity|]. by intros ?%elem_of_nil. Qed.

Lemma room1 : mailroom file1 store1.
Proof.
  apply (mailroom_request ada people first_letter fine None new_store (after_first.1.1) store1 file1); [constructor| |vm_compute; reflexivity].
  intros doc [= <-]. by apply fair_first.
Qed.

Lemma mail1_ok : mail_ok mail1.
Proof.
  destruct (mailroom_holds _ _ room1) as [_ (doc & Hd & Hok)]. assert (mail_in file1 = Some mail1) as E by (vm_compute; reflexivity). rewrite E in Hd. injection Hd as <-. exact Hok.
Qed.

Example bob_reads_it : mv_unread (list_mail bob mail1) = 1%nat /\ list_mail cy mail1 = list_mail cy [] /\ is_ok (open bob "AAAAAAAAAAAA" mail1) = true /\
  open cy "AAAAAAAAAAAA" mail1 = Err NOT_FOUND /\ open cy "BBBBBBBBBBBB" mail1 = Err NOT_FOUND.
Proof. vm_compute. repeat split. Qed.

Lemma mail_is_private_witness : mail_ok mail1 /\ list_mail cy mail1 = list_mail cy [] /\ (forall id, open cy id mail1 = open cy id []).
Proof.
  split; [exact mail1_ok|]. destruct (proj1 (proj2 (mail_is_private mail1 mail1_ok)) cy []) as (H1 & H2 & _); [|vm_compute; reflexivity|exact (conj H1 H2)].
  split; [cbn; lia|]. split; constructor.
Defined.

Lemma mail_is_kept_witness : exists doc, mail_in file1 = Some doc /\ mail_ok doc /\ length doc = 1%nat.
Proof.
  destruct (mail_is_kept file1 store1 room1) as (doc & H & Hok & _). exists doc. split; [exact H|]. split; [exact Hok|].
  assert (mail_in file1 = Some mail1) as E by (vm_compute; reflexivity). rewrite E in H. injection H as <-. reflexivity.
Defined.
End Post.
