(* ===== verification/Board.v ===== *)
(** Feature requests, votes and tasks of the team
    (src/modules/workspace/application/board.ts): every operation on the
    document, as a check of what was typed that gives the change to make, and
    the board over its file. *)

From S2P Require Import Prelude Json Sessions Accounts Documents Mail.

(** ** The document *)

(** @modules/workspace/domain/workspace.ts 20-21 REQUEST_STATUSES *)
Inductive RequestStatus := Open | Planned | InProgress | Shipped | Declined.
#[export] Instance request_status_eq : EqDecision RequestStatus.
Proof. solve_decision. Defined.
(** @modules/workspace/domain/workspace.ts 25-26 TASK_STATUSES *)
Inductive TaskStatus := Todo | Doing | Done.
#[export] Instance task_status_eq : EqDecision TaskStatus.
Proof. solve_decision. Defined.

Definition request_status_text (s : RequestStatus) : string :=
  match s with Open => "open" | Planned => "planned" | InProgress => "in-progress" | Shipped => "shipped" | Declined => "declined" end.
Definition task_status_text (s : TaskStatus) : string := match s with Todo => "todo" | Doing => "doing" | Done => "done" end.

(** @modules/workspace/application/board.ts 22-22 isRequestStatus *)
Definition as_request_status (v : option json) : option RequestStatus :=
  s ← v ≫= as_string; List.find (fun x => bool_decide (request_status_text x = s)) [Open; Planned; InProgress; Shipped; Declined].
(** @modules/workspace/application/board.ts 23-23 isTaskStatus *)
Definition as_task_status (v : option json) : option TaskStatus :=
  s ← v ≫= as_string; List.find (fun x => bool_decide (task_status_text x = s)) [Todo; Doing; Done].

(** @modules/workspace/domain/workspace.ts 23-23 CLOSED_REQUEST *)
Definition closed (s : RequestStatus) : bool := includes s [Shipped; Declined].

(** @modules/workspace/domain/workspace.ts 54-65 StoredRequest *)
Record StoredRequest := {
  q_id : string; q_title : string; q_detail : string; q_author : string; q_status : RequestStatus; q_votes : list string;
  q_createdAt : Q; q_updatedAt : Q; q_revision : Z }.

(** @modules/workspace/domain/workspace.ts 66-80 StoredTask *)
Record StoredTask := {
  t_id : string; t_title : string; t_detail : string; t_createdBy : string; t_assignee : option string; t_status : TaskStatus; t_due : option string;
  t_requestId : option string; t_createdAt : Q; t_updatedAt : Q; t_revision : Z }.

(** @modules/workspace/domain/workspace.ts 81-81 BoardDocument *)
Record BoardDocument := { bd_nextRequest : Z; bd_nextTask : Z; bd_requests : list StoredRequest; bd_tasks : list StoredTask }.

Definition numbered (letter : Z) (s : string) : bool :=
  match chars s with
  | a :: b :: c :: l => (code a =? letter) && (code b =? 45) && is_digit c && negb (code c =? 48) && forallb is_digit l && Nat.leb (length l) 8
  | _ => false
  end.
(** @modules/workspace/application/board.ts 21-21 REQUEST_ID *)
Definition REQUEST_ID (s : string) : bool := numbered 82 s.
(** @modules/workspace/application/board.ts 21-21 TASK_ID *)
Definition TASK_ID (s : string) : bool := numbered 84 s.

(** @modules/workspace/application/board.ts 25-26 isRevision *)
Definition as_counter (v : option json) : option Z := n ← v ≫= as_safe_integer; if n <? 1 then None else Some n.

Definition is_title (s : string) : bool := negb (bool_decide (s = EmptyString)) && (js_length s <=? LIMITS.title).
Definition is_detail (s : string) : bool := js_length s <=? LIMITS.detail.

(** @modules/workspace/application/board.ts 35-40 parseBoard *)
Definition parse_request (v : json) : option StoredRequest :=
  r ← as_object v;
  id ← text_where REQUEST_ID (field "id" r);
  title ← text_where is_title (field "title" r);
  detail ← text_where is_detail (field "detail" r);
  author ← text_where is_name (field "author" r);
  status ← as_request_status (field "status" r);
  votes ← field "votes" r ≫= as_array;
  votes ← mapM (fun v => text_where is_name (Some v)) votes;
  createdAt ← time_of (field "createdAt" r);
  updatedAt ← time_of (field "updatedAt" r);
  revision ← as_counter (field "revision" r);
  Some {| q_id := id; q_title := title; q_detail := detail; q_author := author; q_status := status; q_votes := votes; q_createdAt := createdAt;
          q_updatedAt := updatedAt; q_revision := revision |}.

(** @modules/workspace/application/board.ts 41-48 parseBoard *)
Definition parse_task (v : json) : option StoredTask :=
  t ← as_object v;
  id ← text_where TASK_ID (field "id" t);
  title ← text_where is_title (field "title" t);
  detail ← text_where is_detail (field "detail" t);
  createdBy ← text_where is_name (field "createdBy" t);
  assignee ← null_or (text_where is_name) (field "assignee" t);
  status ← as_task_status (field "status" t);
  due ← null_or (text_where is_date) (field "due" t);
  requestId ← null_or (text_where REQUEST_ID) (field "requestId" t);
  createdAt ← time_of (field "createdAt" t);
  updatedAt ← time_of (field "updatedAt" t);
  revision ← as_counter (field "revision" t);
  Some {| t_id := id; t_title := title; t_detail := detail; t_createdBy := createdBy; t_assignee := assignee; t_status := status; t_due := due;
          t_requestId := requestId; t_createdAt := createdAt; t_updatedAt := updatedAt; t_revision := revision |}.

Definition ids (d : BoardDocument) : list string := map q_id (bd_requests d) ++ map t_id (bd_tasks d).

(** @modules/workspace/application/board.ts 29-52 parseBoard *)
Definition parseBoard (v : json) : option BoardDocument :=
  document ← as_object v;
  if negb (version_one document) then None
  else
    nextRequest ← as_counter (field "nextRequest" document);
    nextTask ← as_counter (field "nextTask" document);
    requests ← field "requests" document ≫= as_array;
    tasks ← field "tasks" document ≫= as_array;
    if Nat.ltb LIMITS.requests (length requests) || Nat.ltb LIMITS.tasks (length tasks) then None
    else
      requests ← mapM parse_request requests;
      tasks ← mapM parse_task tasks;
      let d := {| bd_nextRequest := nextRequest; bd_nextTask := nextTask; bd_requests := requests; bd_tasks := tasks |} in
      if bool_decide (NoDup (ids d)) then Some d else None.

(** @modules/workspace/application/board.ts 54-54 emptyBoard *)
Definition emptyBoard : BoardDocument := {| bd_nextRequest := 1; bd_nextTask := 1; bd_requests := []; bd_tasks := [] |}.

(** [JSON.stringify] of the document. *)
Definition request_json (r : StoredRequest) : json :=
  JObj [("id", JStr (q_id r)); ("title", JStr (q_title r)); ("detail", JStr (q_detail r)); ("author", JStr (q_author r));
        ("status", JStr (request_status_text (q_status r))); ("votes", JArr (map JStr (q_votes r))); ("createdAt", JNum (q_createdAt r));
        ("updatedAt", JNum (q_updatedAt r)); ("revision", JInt (q_revision r))].
Definition task_json (t : StoredTask) : json :=
  JObj [("id", JStr (t_id t)); ("title", JStr (t_title t)); ("detail", JStr (t_detail t)); ("createdBy", JStr (t_createdBy t));
        ("assignee", opt_text (t_assignee t)); ("status", JStr (task_status_text (t_status t))); ("due", opt_text (t_due t));
        ("requestId", opt_text (t_requestId t)); ("createdAt", JNum (t_createdAt t)); ("updatedAt", JNum (t_updatedAt t)); ("revision", JInt (t_revision t))].
Definition board_json (d : BoardDocument) : json :=
  JObj [("version", JInt 1); ("nextRequest", JInt (bd_nextRequest d)); ("nextTask", JInt (bd_nextTask d));
        ("requests", JArr (map request_json (bd_requests d))); ("tasks", JArr (map task_json (bd_tasks d)))].

(** ** What a person sees *)

(** @modules/workspace/domain/workspace.ts 90-96 RequestView *)
Record RequestView := {
  rv_request : StoredRequest; rv_votes : nat; rv_voted : bool; rv_openTasks : nat; rv_canEdit : bool; rv_canTriage : bool; rv_canVote : bool; rv_canRemove : bool }.
(** @modules/workspace/domain/workspace.ts 97-99 TaskView *)
Record TaskView := { tv_task : StoredTask; tv_canEdit : bool; tv_canStatus : bool; tv_canRemove : bool }.

Definition own (request : StoredRequest) (actor : Actor) : bool :=
  bool_decide (q_author request = ac_name actor) && bool_decide (q_status request = Open).

(** The view leaves the names of those who voted out; here it is the request, with
    what is shown in their place.
    @modules/workspace/application/board.ts 66-74 requestView *)
Definition requestView (request : StoredRequest) (document : BoardDocument) (actor : Actor) : RequestView :=
  {| rv_request := {| q_id := q_id request; q_title := q_title request; q_detail := q_detail request; q_author := q_author request; q_status := q_status request;
                      q_votes := []; q_createdAt := q_createdAt request; q_updatedAt := q_updatedAt request; q_revision := q_revision request |};
     rv_votes := length (q_votes request); rv_voted := includes (ac_name actor) (q_votes request);
     rv_openTasks := length (List.filter (fun task => bool_decide (t_requestId task = Some (q_id request)) && negb (bool_decide (t_status task = Done))) (bd_tasks document));
     rv_canEdit := own request actor || ac_canTriage actor; rv_canTriage := ac_canTriage actor; rv_canVote := negb (closed (q_status request));
     rv_canRemove := own request actor || ac_isAdmin actor |}.

(** @modules/workspace/application/board.ts 76-78 taskView *)
Definition taskView (task : StoredTask) (actor : Actor) : TaskView :=
  {| tv_task := task; tv_canEdit := ac_canTriage actor; tv_canStatus := ac_canTriage actor || bool_decide (t_assignee task = Some (ac_name actor));
     tv_canRemove := ac_canTriage actor |}.

Definition most_wanted (a b : RequestView) : bool :=
  if Nat.ltb (rv_votes b) (rv_votes a) then true
  else if Nat.ltb (rv_votes a) (rv_votes b) then false else Qle_bool (q_createdAt (rv_request b)) (q_createdAt (rv_request a)).

(** @modules/workspace/application/board.ts 80-88 view *)
Definition view (actor : Actor) (document : BoardDocument) : list RequestView * list TaskView :=
  (isort most_wanted (map (fun request => requestView request document actor) (bd_requests document)),
   isort (fun a b => Qle_bool (t_updatedAt (tv_task b)) (t_updatedAt (tv_task a))) (map (fun task => taskView task actor) (bd_tasks document))).

(** ** What a person does *)

(** What an operation answers. *)
Inductive BoardReply := SeenRequest (v : RequestView) | SeenTask (v : TaskView) | Gone (id : string).

(** What is done to the document once the request is known to be well formed. *)
Notation board_change := (BoardDocument -> answer (BoardReply * BoardDocument)).

Definition req_is (id : string) (r : StoredRequest) : bool := bool_decide (q_id r = id).
Definition task_is (id : string) (t : StoredTask) : bool := bool_decide (t_id t = id).

Definition with_requests (l : list StoredRequest) (d : BoardDocument) : BoardDocument :=
  {| bd_nextRequest := bd_nextRequest d; bd_nextTask := bd_nextTask d; bd_requests := l; bd_tasks := bd_tasks d |}.
Definition with_tasks (l : list StoredTask) (d : BoardDocument) : BoardDocument :=
  {| bd_nextRequest := bd_nextRequest d; bd_nextTask := bd_nextTask d; bd_requests := bd_requests d; bd_tasks := l |}.

(** @modules/workspace/application/board.ts 90-94 request *)
Definition request (draft : BoardDocument) (id : string) : answer StoredRequest :=
  of_option NOT_FOUND (if REQUEST_ID id then List.find (req_is id) (bd_requests draft) else None).

(** @modules/workspace/application/board.ts 96-100 task *)
Definition task (draft : BoardDocument) (id : string) : answer StoredTask :=
  of_option NOT_FOUND (if TASK_ID id then List.find (task_is id) (bd_tasks draft) else None).

(** [v === undefined ? undefined : f(v)] *)
Definition given {A} (f : option json -> answer A) (v : option json) : answer (option A) :=
  match v with None => Ok None | Some v => let! a := f (Some v) in Ok (Some a) end.

(** @modules/workspace/application/board.ts 102-112 createRequest *)
Definition createRequest (actor : Actor) (now : Z) (input : json) : answer board_change :=
  let! body := fields input ["title"; "detail"] in
  let! title := oneLine (field "title" body) LIMITS.title in
  let! detail := paragraphs (field "detail" body) LIMITS.detail false in
  Ok (fun draft =>
    throw_if Nat.leb LIMITS.requests (length (bd_requests draft)) with FULL in
    let request := {| q_id := "R-" +:+ show (bd_nextRequest draft); q_title := title; q_detail := detail; q_author := ac_name actor; q_status := Open;
                      q_votes := [ac_name actor]; q_createdAt := inject_Z now; q_updatedAt := inject_Z now; q_revision := 1 |} in
    let draft := {| bd_nextRequest := bd_nextRequest draft + 1; bd_nextTask := bd_nextTask draft; bd_requests := bd_requests draft ++ [request]; bd_tasks := bd_tasks draft |} in
    Ok (SeenRequest (requestView request draft actor), draft)).

(** A choice from a list: [undefined] or one of its values.
    @modules/workspace/application/board.ts 119-120 updateRequest *)
Definition choice {A} (f : option json -> option A) (v : option json) : answer (option A) :=
  match v with None => Ok None | Some v => match f (Some v) with Some a => Ok (Some a) | None => Err VALIDATION end end.

Definition edited_request (title detail : option string) (status : option RequestStatus) (now : Z) (r : StoredRequest) : StoredRequest :=
  {| q_id := q_id r; q_title := default (q_title r) title; q_detail := default (q_detail r) detail; q_author := q_author r;
     q_status := default (q_status r) status; q_votes := q_votes r; q_createdAt := q_createdAt r; q_updatedAt := inject_Z now; q_revision := q_revision r + 1 |}.


(** @modules/workspace/application/board.ts 114-135 updateRequest *)
Definition updateRequest (actor : Actor) (id : string) (now : Z) (input : json) : answer board_change :=
  let! body := fields input ["revision"; "title"; "detail"; "status"] in
  let! revision := revisionOf (field "revision" body) in
  let! title := given (fun v => oneLine v LIMITS.title) (field "title" body) in
  let! detail := given (fun v => paragraphs v LIMITS.detail false) (field "detail" body) in
  let! status := choice as_request_status (field "status" body) in
  throw_if negb (is_some title || is_some detail || is_some status) with VALIDATION in
  Ok (fun draft =>
    let! found := request draft id in
    throw_if is_some status && negb (ac_canTriage actor) with FORBIDDEN in
    throw_if (is_some title || is_some detail) && negb (ac_canTriage actor) && negb (own found actor) with FORBIDDEN in
    throw_if negb (q_revision found =? revision) with STALE_REVISION in
    let changed := edited_request title detail status now found in
    let draft := with_requests (alter_first (req_is id) (fun _ => changed) (bd_requests draft)) draft in
    Ok (SeenRequest (requestView changed draft actor), draft)).

Definition with_votes (l : list string) (r : StoredRequest) : StoredRequest :=
  {| q_id := q_id r; q_title := q_title r; q_detail := q_detail r; q_author := q_author r; q_status := q_status r; q_votes := l;
     q_createdAt := q_createdAt r; q_updatedAt := q_updatedAt r; q_revision := q_revision r |}.

(** @modules/workspace/application/board.ts 137-149 vote *)
Definition vote (actor : Actor) (id : string) (input : json) : answer board_change :=
  let! body := fields input ["vote"] in
  let! vote := of_option VALIDATION (field "vote" body ≫= as_bool) in
  Ok (fun draft =>
    let! found := request draft id in
    throw_if closed (q_status found) with CLOSED in
    let others := without (ac_name actor) (q_votes found) in
    let changed := with_votes (if (vote : bool) then others ++ [ac_name actor] else others) found in
    let draft := with_requests (alter_first (req_is id) (fun _ => changed) (bd_requests draft)) draft in
    Ok (SeenRequest (requestView changed draft actor), draft)).

Definition unlink (id : string) (t : StoredTask) : StoredTask :=
  if bool_decide (t_requestId t = Some id)
  then {| t_id := t_id t; t_title := t_title t; t_detail := t_detail t; t_createdBy := t_createdBy t; t_assignee := t_assignee t; t_status := t_status t;
          t_due := t_due t; t_requestId := None; t_createdAt := t_createdAt t; t_updatedAt := t_updatedAt t; t_revision := t_revision t |}
  else t.

(** @modules/workspace/application/board.ts 151-164 removeRequest *)
Definition removeRequest (actor : Actor) (id : string) (input : json) : answer board_change :=
  let! body := fields input ["revision"] in
  let! revision := revisionOf (field "revision" body) in
  Ok (fun draft =>
    let! found := request draft id in
    throw_if negb (ac_isAdmin actor) && negb (own found actor) with FORBIDDEN in
    throw_if negb (q_revision found =? revision) with STALE_REVISION in
    Ok (Gone id, with_tasks (map (unlink id) (bd_tasks draft)) (with_requests (drop_first (req_is id) (bd_requests draft)) draft))).

(** @modules/workspace/application/board.ts 166-170 assignee *)
Definition assignee (members : list Member) (value : json) : answer (option string) :=
  match value with
  | JNull => Ok None
  | JStr s => if bool_decide (s = EmptyString) then Ok None else if includes s (map me_name members) then Ok (Some s) else Err VALIDATION
  | _ => Err VALIDATION
  end.

Section tasks.
Context {texts : Texts}.

(** @modules/workspace/application/board.ts 172-186 createTask *)
Definition createTask (actor : Actor) (members : list Member) (now : Z) (input : json) : answer board_change :=
  let! body := fields input ["title"; "detail"; "assignee"; "due"; "requestId"] in
  throw_if negb (ac_canTriage actor) with FORBIDDEN in
  let! title := oneLine (field "title" body) LIMITS.title in
  let! detail := paragraphs (field "detail" body) LIMITS.detail false in
  let! who := match field "assignee" body with None => Ok None | Some v => assignee members v end in
  let! due := match field "due" body with None => Ok None | Some v => dayOrNull v end in
  let! requestId := match field "requestId" body with None | Some JNull => Ok None | Some v => let! s := js_string v in Ok (Some s) end in
  Ok (fun draft =>
    throw_if Nat.leb LIMITS.tasks (length (bd_tasks draft)) with FULL in
    throw_if match requestId with Some id => negb (existsb (req_is id) (bd_requests draft)) | None => false end with VALIDATION in
    let task := {| t_id := "T-" +:+ show (bd_nextTask draft); t_title := title; t_detail := detail; t_createdBy := ac_name actor; t_assignee := who; t_status := Todo;
                   t_due := due; t_requestId := requestId; t_createdAt := inject_Z now; t_updatedAt := inject_Z now; t_revision := 1 |} in
    Ok (SeenTask (taskView task actor),
        {| bd_nextRequest := bd_nextRequest draft; bd_nextTask := bd_nextTask draft + 1; bd_requests := bd_requests draft; bd_tasks := bd_tasks draft ++ [task] |})).
End tasks.

Definition edited_task (title detail : option string) (who : option (option string)) (due : option (option string)) (status : option TaskStatus) (now : Z) (t : StoredTask) : StoredTask :=
  {| t_id := t_id t; t_title := default (t_title t) title; t_detail := default (t_detail t) detail; t_createdBy := t_createdBy t; t_assignee := default (t_assignee t) who;
     t_status := default (t_status t) status; t_due := default (t_due t) due; t_requestId := t_requestId t; t_createdAt := t_createdAt t;
     t_updatedAt := inject_Z now; t_revision := t_revision t + 1 |}.

(** @modules/workspace/application/board.ts 188-217 updateTask *)
Definition updateTask (actor : Actor) (members : list Member) (id : string) (now : Z) (input : json) : answer board_change :=
  let! body := fields input ["revision"; "title"; "detail"; "assignee"; "due"; "status"] in
  let! revision := revisionOf (field "revision" body) in
  let! title := given (fun v => oneLine v LIMITS.title) (field "title" body) in
  let! detail := given (fun v => paragraphs v LIMITS.detail false) (field "detail" body) in
  let! due := match field "due" body with None => Ok None | Some v => let! d := dayOrNull v in Ok (Some d) end in
  let! status := choice as_task_status (field "status" body) in
  let reassign := is_some (field "assignee" body) in
  throw_if negb (is_some title || is_some detail || is_some due || is_some status || reassign) with VALIDATION in
  Ok (fun draft =>
    let! found := task draft id in
    let onlyStatus := negb (is_some title || is_some detail || is_some due || reassign) in
    throw_if negb (ac_canTriage actor) && negb (onlyStatus && bool_decide (t_assignee found = Some (ac_name actor))) with FORBIDDEN in
    throw_if negb (t_revision found =? revision) with STALE_REVISION in
    let! who := match field "assignee" body with
                | None => Ok None
                | Some v =>
                    if match v, t_assignee found with JNull, None => true | JStr s, Some a => bool_decide (s = a) | _, _ => false end then Ok None
                    else let! a := assignee members v in Ok (Some a)
                end in
    let changed := edited_task title detail who due status now found in
    Ok (SeenTask (taskView changed actor), with_tasks (alter_first (task_is id) (fun _ => changed) (bd_tasks draft)) draft)).

(** @modules/workspace/application/board.ts 219-228 removeTask *)
Definition removeTask (actor : Actor) (id : string) (input : json) : answer board_change :=
  let! body := fields input ["revision"] in
  let! revision := revisionOf (field "revision" body) in
  Ok (fun draft =>
    let! found := task draft id in
    throw_if negb (ac_canTriage actor) with FORBIDDEN in
    throw_if negb (t_revision found =? revision) with STALE_REVISION in
    Ok (Gone id, with_tasks (drop_first (task_is id) (bd_tasks draft)) draft)).

Inductive board_request :=
| CreateRequest (now : Z) (input : json) | UpdateRequest (id : string) (now : Z) (input : json) | Vote (id : string) (input : json) | RemoveRequest (id : string) (input : json)
| CreateTask (now : Z) (input : json) | UpdateTask (id : string) (now : Z) (input : json) | RemoveTask (id : string) (input : json).

Definition asked {texts : Texts} (actor : Actor) (members : list Member) (q : board_request) : answer board_change :=
  match q with
  | CreateRequest now input => createRequest actor now input
  | UpdateRequest id now input => updateRequest actor id now input
  | Vote id input => vote actor id input
  | RemoveRequest id input => removeRequest actor id input
  | CreateTask now input => createTask actor members now input
  | UpdateTask id now input => updateTask actor members id now input
  | RemoveTask id input => removeTask actor id input
  end.

(** ** What is kept in the file *)

(** An id that was given before the counter came to [next]. *)
Definition id_below (letter : string) (next : Z) (id : string) : Prop := exists k, id = letter +:+ show k /\ 1 <= k < next.

Record request_ok (next : Z) (r : StoredRequest) : Prop := {
  ro_id : id_below "R-" next (q_id r); ro_title : is_title (q_title r) = true; ro_detail : is_detail (q_detail r) = true; ro_author : is_name (q_author r) = true;
  ro_once : NoDup (q_votes r); ro_votes : Forall (fun n => is_name n = true) (q_votes r);
  ro_times : Qle_bool 0 (q_createdAt r) = true /\ Qle_bool 0 (q_updatedAt r) = true; ro_revision : 1 <= q_revision r <= max_safe }.

Record task_ok (next : Z) (t : StoredTask) : Prop := {
  to_id : id_below "T-" next (t_id t); to_title : is_title (t_title t) = true; to_detail : is_detail (t_detail t) = true; to_createdBy : is_name (t_createdBy t) = true;
  to_assignee : match t_assignee t with Some n => is_name n = true | None => True end; to_due : match t_due t with Some s => is_date s = true | None => True end;
  to_requestId : match t_requestId t with Some id => REQUEST_ID id = true | None => True end;
  to_times : Qle_bool 0 (t_createdAt t) = true /\ Qle_bool 0 (t_updatedAt t) = true; to_revision : 1 <= t_revision t <= max_safe }.

Definition LAST_ID : Z := 10 ^ 9.

Definition board_ok (d : BoardDocument) : Prop :=
  1 <= bd_nextRequest d <= LAST_ID /\ 1 <= bd_nextTask d <= LAST_ID /\
  (length (bd_requests d) <= LIMITS.requests)%nat /\ (length (bd_tasks d) <= LIMITS.tasks)%nat /\
  rows_ok q_id (request_ok (bd_nextRequest d)) (bd_requests d) /\ rows_ok t_id (task_ok (bd_nextTask d)) (bd_tasks d).

(** The digits of a positive number do not begin with a nought. *)
Lemma show_go_leading x s : (0 < x)%N -> exists c ds, chars (pretty_N_go x s) = c :: ds /\ code c <> 48.
Proof.
  revert s. induction x as [x IH] using (well_founded_induction N.lt_wf_0). intros s Hx. rewrite pretty_N_go_step by done.
  destruct (decide (x `div` 10 = 0)%N) as [Hz|Hz].
  - assert (x < 10)%N as Hlt by (pose proof (N.div_mod x 10); pose proof (N.mod_lt x 10); lia). rewrite Hz, N.mod_small by lia. exists (pretty_N_char x), (chars s). split; [done|].
    assert (x = 1 \/ x = 2 \/ x = 3 \/ x = 4 \/ x = 5 \/ x = 6 \/ x = 7 \/ x = 8 \/ x = 9)%N as Hc by lia.
    repeat (destruct Hc as [->|Hc]; [done|]). by subst.
  - destruct (IH (x `div` 10)%N ltac:(apply N.div_lt; lia) (String (pretty_N_char (x `mod` 10)) s)) as (c & ds & H & Hc); [by apply N.neq_0_lt_0|]. by exists c, ds.
Qed.

Lemma numbered_show letter a p n : chars p = [a; Ascii.ascii_of_N 45] -> code a = letter -> 1 <= n < LAST_ID -> numbered letter (p +:+ show n) = true.
Proof.
  intros Hp Ha Hn. unfold numbered. rewrite chars_app, Hp. cbn [app]. destruct (show_digits n 8) as [Hd Hl]; [change (10 ^ Z.of_nat 9) with LAST_ID; lia|].
  assert (exists c ds, chars (show n) = c :: ds /\ code c <> 48) as (c & ds & E & Hc).
  { unfold show, pretty. destruct n as [|p'|p']; [lia| |lia]. apply (show_go_leading (Npos p') ""). lia. }
  rewrite E in *. cbn [forallb length] in *. apply andb_true_iff in Hd as [Hd1 Hd2]. rewrite Ha, Hd1, Hd2, Z.eqb_refl. change (code (Ascii.ascii_of_N 45) =? 45) with true.
  rewrite (proj2 (Z.eqb_neq _ _) Hc). cbn [andb negb]. apply Nat.leb_le. lia.
Qed.

Lemma REQUEST_ID_below next id : next <= LAST_ID -> id_below "R-" next id -> REQUEST_ID id = true.
Proof. intros Hn (k & -> & Hk). eapply (numbered_show 82); [reflexivity|reflexivity|lia]. Qed.
Lemma TASK_ID_below next id : next <= LAST_ID -> id_below "T-" next id -> TASK_ID id = true.
Proof. intros Hn (k & -> & Hk). eapply (numbered_show 84); [reflexivity|reflexivity|lia]. Qed.

Lemma show_inj n m : show n = show m -> n = m.
Proof. unfold show. apply pretty_Z_inj. Qed.

Lemma id_below_fresh p next id : (forall a b, p +:+ a = p +:+ b -> a = b) -> id_below p next id -> id <> p +:+ show next.
Proof. intros Hp (k & -> & Hk) E. apply Hp, show_inj in E. lia. Qed.

Lemma id_below_more p next next' id : next <= next' -> id_below p next id -> id_below p next' id.
Proof. intros Hn (k & -> & Hk). exists k. split; [done|lia]. Qed.

Lemma status_roundtrip s : as_request_status (Some (JStr (request_status_text s))) = Some s.
Proof. by destruct s. Qed.
Lemma task_status_roundtrip s : as_task_status (Some (JStr (task_status_text s))) = Some s.
Proof. by destruct s. Qed.
Lemma as_counter_ok n : 1 <= n <= max_safe -> as_counter (Some (JInt n)) = Some n.
Proof. intros H. unfold as_counter. cbn [mbind option_bind]. rewrite as_safe_integer_JInt by lia. cbn [mbind option_bind]. by rewrite (proj2 (Z.ltb_ge n 1)) by lia. Qed.
Lemma null_or_text p o : match o with Some s => p s = true | None => True end -> null_or (text_where p) (Some (opt_text o)) = Some o.
Proof. intros H. destruct o as [s|]; [|done]. unfold null_or, opt_text. by rewrite text_where_ok. Qed.
Lemma request_roundtrip next r : next <= LAST_ID -> request_ok next r -> parse_request (request_json r) = Some r.
Proof.
  intros Hn [H1 H2 H3 H4 _ H5 [H6 H7] H8]. unfold parse_request, request_json. cbn [as_object mbind option_bind]. set (o := [_; _; _; _; _; _; _; _; _]).
  assert (field "id" o = Some (JStr (q_id r)) /\ field "title" o = Some (JStr (q_title r)) /\ field "detail" o = Some (JStr (q_detail r)) /\
    field "author" o = Some (JStr (q_author r)) /\ field "status" o = Some (JStr (request_status_text (q_status r))) /\
    field "votes" o = Some (JArr (map JStr (q_votes r))) /\ field "createdAt" o = Some (JNum (q_createdAt r)) /\ field "updatedAt" o = Some (JNum (q_updatedAt r)) /\
    field "revision" o = Some (JInt (q_revision r))) as (-> & -> & -> & -> & -> & -> & -> & -> & ->) by done.
  clearbody o. apply REQUEST_ID_below in H1; [|done]. rewrite !text_where_ok by assumption. rewrite status_roundtrip, !time_of_ok, as_counter_ok by assumption.
  cbn [as_array mbind option_bind]. rewrite mapM_roundtrip; [by destruct r|]. eapply Forall_impl; [exact H5|]. intros n Hname. by apply text_where_ok.
Qed.

Lemma task_roundtrip next t : next <= LAST_ID -> task_ok next t -> parse_task (task_json t) = Some t.
Proof.
  intros Hn [H1 H2 H3 H4 H5 H6 H7 [H8 H9] H10]. unfold parse_task, task_json. cbn [as_object mbind option_bind]. set (o := [_; _; _; _; _; _; _; _; _; _; _]).
  assert (field "id" o = Some (JStr (t_id t)) /\ field "title" o = Some (JStr (t_title t)) /\ field "detail" o = Some (JStr (t_detail t)) /\
    field "createdBy" o = Some (JStr (t_createdBy t)) /\ field "assignee" o = Some (opt_text (t_assignee t)) /\ field "status" o = Some (JStr (task_status_text (t_status t))) /\
    field "due" o = Some (opt_text (t_due t)) /\ field "requestId" o = Some (opt_text (t_requestId t)) /\ field "createdAt" o = Some (JNum (t_createdAt t)) /\
    field "updatedAt" o = Some (JNum (t_updatedAt t)) /\ field "revision" o = Some (JInt (t_revision t))) as (-> & -> & -> & -> & -> & -> & -> & -> & -> & -> & ->) by done.
  clearbody o. apply TASK_ID_below in H1; [|done]. rewrite !text_where_ok by assumption. rewrite task_status_roundtrip, !null_or_text, !time_of_ok, as_counter_ok by assumption.
  cbn [mbind option_bind]. by destruct t.
Qed.

Lemma board_ids_nodup d : board_ok d -> NoDup (ids d).
Proof.
  intros (_ & _ & _ & _ & [Hr Hro] & [Ht Hto]). apply NoDup_app. split; [done|]. split; [|done]. intros id (r & -> & Hr')%list_elem_of_fmap (t & E & Ht')%list_elem_of_fmap.
  rewrite Forall_forall in Hro. rewrite Forall_forall in Hto. destruct (ro_id _ _ (Hro r Hr')) as (k & Ek & _), (to_id _ _ (Hto t Ht')) as (k' & Ek' & _). rewrite Ek, Ek' in E. discriminate E.
Qed.

Lemma board_roundtrip d : board_ok d -> parseBoard (board_json d) = Some d.
Proof.
  intros Hok. pose proof (board_ids_nodup d Hok) as Hids. destruct Hok as (Hnr & Hnt & Hlr & Hlt & [_ Hr] & [_ Ht]). unfold parseBoard, board_json. cbn [as_object mbind option_bind].
  set (o := [_; _; _; _; _]).
  assert (version_one o = true /\ field "nextRequest" o = Some (JInt (bd_nextRequest d)) /\ field "nextTask" o = Some (JInt (bd_nextTask d)) /\
    field "requests" o = Some (JArr (map request_json (bd_requests d))) /\ field "tasks" o = Some (JArr (map task_json (bd_tasks d)))) as (-> & -> & -> & -> & ->) by done.
  clearbody o. assert (LAST_ID <= max_safe) as Hmax by done. rewrite !as_counter_ok by lia. cbn [negb mbind option_bind as_array]. rewrite !length_map.
  rewrite (proj2 (Nat.ltb_ge _ _) Hlr), (proj2 (Nat.ltb_ge _ _) Hlt). cbn [orb].
  rewrite (mapM_roundtrip parse_request request_json). 2:{ eapply Forall_impl; [exact Hr|]. intros r. apply request_roundtrip. lia. }
  cbn [mbind option_bind]. rewrite (mapM_roundtrip parse_task task_json). 2:{ eapply Forall_impl; [exact Ht|]. intros t. apply task_roundtrip. lia. }
  cbn [mbind option_bind]. destruct d as [a b rs ts]. by rewrite bool_decide_eq_true_2.
Qed.

(** ** How a board may change *)

(** What somebody may do to a request that stays. *)
Record request_moved (actor : Actor) (x x' : StoredRequest) : Prop := {
  rm_same : q_id x' = q_id x /\ q_author x' = q_author x /\ q_createdAt x' = q_createdAt x;
  rm_votes : without (ac_name actor) (q_votes x') = without (ac_name actor) (q_votes x);
  rm_closed : closed (q_status x) = true -> q_votes x' = q_votes x;
  rm_text : (q_title x' = q_title x /\ q_detail x' = q_detail x) \/ ac_canTriage actor = true \/ own x actor = true;
  rm_status : q_status x' = q_status x \/ ac_canTriage actor = true;
  rm_revision : (q_revision x' = q_revision x /\ q_title x' = q_title x /\ q_detail x' = q_detail x /\ q_status x' = q_status x) \/ q_revision x' = q_revision x + 1 }.

(** What somebody may do to a task that stays; [left] are the requests there
    are afterwards. *)
Record task_moved (actor : Actor) (left : list StoredRequest) (t t' : StoredTask) : Prop := {
  tm_same : t_id t' = t_id t /\ t_createdBy t' = t_createdBy t /\ t_createdAt t' = t_createdAt t;
  tm_work : (t_title t' = t_title t /\ t_detail t' = t_detail t /\ t_due t' = t_due t /\ t_assignee t' = t_assignee t) \/ ac_canTriage actor = true;
  tm_status : t_status t' = t_status t \/ ac_canTriage actor = true \/ t_assignee t = Some (ac_name actor);
  tm_link : t_requestId t' = t_requestId t \/ (t_requestId t' = None /\ exists id, t_requestId t = Some id /\ id ∉ map q_id left);
  tm_revision : (t_revision t' = t_revision t /\ t_title t' = t_title t /\ t_detail t' = t_detail t /\ t_due t' = t_due t /\ t_assignee t' = t_assignee t /\
                 t_status t' = t_status t) \/ t_revision t' = t_revision t + 1 }.

Definition board_moved (actor : Actor) (d d' : BoardDocument) : Prop :=
  rows_moved q_id (request_moved actor) (fun x => ac_isAdmin actor = true \/ own x actor = true)
    (fun x' => q_id x' = "R-" +:+ show (bd_nextRequest d) /\ q_author x' = ac_name actor /\ q_status x' = Open /\ q_votes x' = [ac_name actor] /\ q_revision x' = 1)
    (bd_requests d) (bd_requests d') /\
  rows_moved t_id (task_moved actor (bd_requests d')) (fun _ => ac_canTriage actor = true)
    (fun t' => ac_canTriage actor = true /\ t_id t' = "T-" +:+ show (bd_nextTask d) /\ t_createdBy t' = ac_name actor /\ t_status t' = Todo /\ t_revision t' = 1)
    (bd_tasks d) (bd_tasks d') /\
  bd_nextRequest d <= bd_nextRequest d' /\ bd_nextTask d <= bd_nextTask d'.

(** Names are those of accounts, the clock is past 1970, and the numbers have
    not run out. *)
Definition fair_board (actor : Actor) (members : list Member) (now : Z) (d : BoardDocument) : Prop :=
  is_name (ac_name actor) = true /\ Forall (fun m => is_name (me_name m) = true) members /\ 0 <= now /\
  bd_nextRequest d < LAST_ID /\ bd_nextTask d < LAST_ID /\
  Forall (fun r => q_revision r < max_safe) (bd_requests d) /\ Forall (fun t => t_revision t < max_safe) (bd_tasks d).

Lemma request_moved_refl actor x : request_moved actor x x.
Proof. constructor; auto. Qed.
Lemma task_moved_refl actor left t : task_moved actor left t t.
Proof. constructor; auto. left. by split_and!. Qed.
#[local] Hint Resolve request_moved_refl task_moved_refl : tmedge.

Lemma request_found d id r : request d id = Ok r -> q_id r = id /\ exists l1 l2, bd_requests d = l1 ++ r :: l2 /\
  (forall f, alter_first (req_is id) f (bd_requests d) = l1 ++ f r :: l2) /\ drop_first (req_is id) (bd_requests d) = l1 ++ l2.
Proof.
  unfold request. destruct (REQUEST_ID id); [|done]. destruct (List.find _ _) as [x|] eqn:E; [|done]. intros [= ->].
  apply find_split in E as (l1 & l2 & E & Hid & _ & Ha & Hd). apply bool_decide_eq_true in Hid. split; [done|]. by exists l1, l2.
Qed.

Lemma task_found d id t : task d id = Ok t -> t_id t = id /\ exists l1 l2, bd_tasks d = l1 ++ t :: l2 /\
  (forall f, alter_first (task_is id) f (bd_tasks d) = l1 ++ f t :: l2) /\ drop_first (task_is id) (bd_tasks d) = l1 ++ l2.
Proof.
  unfold task. destruct (TASK_ID id); [|done]. destruct (List.find _ _) as [x|] eqn:E; [|done]. intros [= ->].
  apply find_split in E as (l1 & l2 & E & Hid & _ & Ha & Hd). apply bool_decide_eq_true in Hid. split; [done|]. by exists l1, l2.
Qed.

Lemma task_ok_unlinked next id t : task_ok next t -> task_ok next (unlink id t).
Proof. intros [H1 H2 H3 H4 H5 H6 H7 H8 H9]. unfold unlink. case_bool_decide; by constructor. Qed.

Lemma with_requests_ok d l : board_ok d -> (length l <= length (bd_requests d))%nat -> rows_ok q_id (request_ok (bd_nextRequest d)) l -> board_ok (with_requests l d).
Proof. intros (H1 & H2 & H3 & H4 & H5 & H6) Hl Hr. split; [done|]. split; [done|]. split; [cbn; lia|]. by split_and!. Qed.
Lemma with_tasks_ok d l : board_ok d -> (length l <= length (bd_tasks d))%nat -> rows_ok t_id (task_ok (bd_nextTask d)) l -> board_ok (with_tasks l d).
Proof. intros (H1 & H2 & H3 & H4 & H5 & H6) Hl Hr. split; [done|]. split; [done|]. split; [done|]. split; [cbn; lia|]. by split. Qed.

Lemma request_changed actor d l1 x l2 x' : board_ok d -> bd_requests d = l1 ++ x :: l2 -> request_moved actor x x' ->
  (request_ok (bd_nextRequest d) x -> request_ok (bd_nextRequest d) x') ->
  board_ok (with_requests (l1 ++ x' :: l2) d) /\ board_moved actor d (with_requests (l1 ++ x' :: l2) d).
Proof.
  intros H E Hm Hok. split.
  - apply with_requests_ok; [done|by rewrite E, !length_app|]. destruct H as (_ & _ & _ & _ & H & _). rewrite E in H. eapply rows_swap; [exact H|by apply Hm|exact Hok].
  - split; [rewrite E; apply rows_moved_swap; eauto with tmedge|]. split; [apply rows_moved_same; eauto with tmedge|done].
Qed.

Lemma task_changed actor d l1 t l2 t' : board_ok d -> bd_tasks d = l1 ++ t :: l2 -> task_moved actor (bd_requests d) t t' ->
  (task_ok (bd_nextTask d) t -> task_ok (bd_nextTask d) t') ->
  board_ok (with_tasks (l1 ++ t' :: l2) d) /\ board_moved actor d (with_tasks (l1 ++ t' :: l2) d).
Proof.
  intros H E Hm Hok. split.
  - apply with_tasks_ok; [done|by rewrite E, !length_app|]. destruct H as (_ & _ & _ & _ & _ & H). rewrite E in H. eapply rows_swap; [exact H|by apply Hm|exact Hok].
  - split; [apply rows_moved_same; eauto with tmedge|]. split; [rewrite E; apply rows_moved_swap; eauto with tmedge|done].
Qed.

Lemma edited_request_ok next title detail status now r : 0 <= now -> q_revision r < max_safe ->
  match title with Some s => is_title s = true | None => True end -> match detail with Some s => is_detail s = true | None => True end ->
  request_ok next r -> request_ok next (edited_request title detail status now r).
Proof.
  intros Hnow Hrev Ht Hd [H1 H2 H3 H4 H5 H6 [H7 H8] H9]. constructor; try done; cbn.
  - by destruct title.
  - by destruct detail.
  - split; [done|]. apply Qle_bool_iff. unfold Qle. cbn. lia.
  - lia.
Qed.

Lemma given_title v o : given (fun v => oneLine v LIMITS.title) v = Ok o -> match o with Some s => is_title s = true | None => True end.
Proof.
  destruct v as [v|]; [|by intros [= <-]]. cbn [given]. intros (s & [Hne Hl]%oneLine_ok & [= <-])%rbind_ok. unfold is_title. rewrite bool_decide_eq_false_2 by done. by apply Z.leb_le.
Qed.
Lemma given_detail v o : given (fun v => paragraphs v LIMITS.detail false) v = Ok o -> match o with Some s => is_detail s = true | None => True end.
Proof. destruct v as [v|]; [|by intros [= <-]]. cbn [given]. intros (s & Hl%paragraphs_ok & [= <-])%rbind_ok; [|done]. by apply Z.leb_le. Qed.

Lemma updateRequest_ok actor members id now input ch d r d' : updateRequest actor id now input = Ok ch -> fair_board actor members now d -> board_ok d ->
  ch d = Ok (r, d') -> board_ok d' /\ board_moved actor d d'.
Proof.
  intros Hq (_ & _ & Hnow & _ & _ & Hrev & _) Hok Hr. unfold updateRequest in Hq. apply rbind_ok in Hq as (body & _ & Hq). apply rbind_ok in Hq as (revision & _ & Hq).
  apply rbind_ok in Hq as (title & Htitle%given_title & Hq). apply rbind_ok in Hq as (detail & Hdetail%given_detail & Hq). apply rbind_ok in Hq as (status & _ & Hq).
  destruct (negb _) in Hq; [done|]. injection Hq as <-. apply rbind_ok in Hr as (x & Hx & Hr). apply request_found in Hx as (Hid & l1 & l2 & E & Ha & _).
  destruct (is_some status && _) eqn:E1; [done|]. destruct ((is_some title || is_some detail) && _ && _) eqn:E2; [done|]. destruct (negb (q_revision x =? revision)); [done|].
  injection Hr as <- <-. rewrite Ha. rewrite E, Forall_app, Forall_cons in Hrev. destruct Hrev as (_ & Hx & _). apply (request_changed _ _ _ x); [done|done| |by apply edited_request_ok].
  constructor; cbn; [done|done|done| | |by right].
  - destruct (ac_canTriage actor); [by right; left|]. destruct (own x actor); [by right; right|]. rewrite !andb_true_r in E2. left. by destruct title, detail.
  - destruct (ac_canTriage actor); [by right|]. rewrite andb_true_r in E1. left. by destruct status.
Qed.

#[local] Arguments without : simpl never.
#[local] Arguments Nat.leb : simpl never.

Lemma without_without name l : without name (without name l) = without name l.
Proof. apply filter_all. intros x [_ Hx]%elem_of_without_name. by apply negb_true, bool_decide_eq_false. Qed.
Lemma without_snoc name l : without name (l ++ [name]) = without name l.
Proof. unfold without. rewrite List.filter_app. cbn. rewrite bool_decide_eq_true_2 by done. cbn. by rewrite app_nil_r. Qed.

Lemma vote_ok actor members id input now ch d r d' : vote actor id input = Ok ch -> fair_board actor members now d -> board_ok d ->
  ch d = Ok (r, d') -> board_ok d' /\ board_moved actor d d'.
Proof.
  intros Hq (Hname & _) Hok Hr. unfold vote in Hq. apply rbind_ok in Hq as (body & _ & Hq). apply rbind_ok in Hq as (yes & _ & Hq). injection Hq as <-.
  apply rbind_ok in Hr as (x & Hx & Hr). apply request_found in Hx as (Hid & l1 & l2 & E & Ha & _). destruct (closed (q_status x)) eqn:Ec; [done|].
  injection Hr as <- <-. rewrite Ha. apply (request_changed _ _ _ x); [done|done| |].
  - constructor; cbn; [done| |congruence|by left|by left|by left]. destruct yes; [rewrite without_snoc|]; apply without_without.
  - intros [H1 H2 H3 H4 H5 H6 H7 H8]. assert (Forall (fun n => is_name n = true) (without (ac_name actor) (q_votes x))) as Hw by by apply filter_Forall.
    constructor; try done; cbn; destruct yes; [|by apply without_name_nodup| |done].
    + apply nodup_snoc; [by apply without_name_nodup|]. by intros [_ ?]%elem_of_without_name.
    + apply Forall_app. split; [done|by constructor].
Qed.

Lemma removeRequest_ok actor members id input now ch d r d' : removeRequest actor id input = Ok ch -> fair_board actor members now d -> board_ok d ->
  ch d = Ok (r, d') -> board_ok d' /\ board_moved actor d d'.
Proof.
  intros Hq _ Hok Hr. unfold removeRequest in Hq. apply rbind_ok in Hq as (body & _ & Hq). apply rbind_ok in Hq as (revision & _ & Hq). injection Hq as <-.
  apply rbind_ok in Hr as (x & Hx & Hr). apply request_found in Hx as (Hid & l1 & l2 & E & _ & Hd).
  destruct (negb (ac_isAdmin actor) && negb (own x actor)) eqn:E1; [done|]. destruct (negb (q_revision x =? revision)); [done|]. injection Hr as <- <-. rewrite Hd.
  pose proof Hok as (H1 & H2 & H3 & H4 & H5 & [H6 H7]). rewrite E in H5. destruct (rows_gone _ _ _ _ _ H5) as [Hrows Hgone]. split.
  - apply with_tasks_ok; [|by cbn; rewrite length_map|].
    + apply with_requests_ok; [done|rewrite E, !length_app; cbn; lia|done].
    + cbn. split.
      * rewrite map_map, (map_ext _ t_id); [done|]. intros t. unfold unlink. by case_bool_decide.
      * apply Forall_map. eapply Forall_impl; [exact H7|]. intros t. apply task_ok_unlinked.
  - split; [|split; [|done]]; cbn [bd_requests bd_tasks with_tasks with_requests].
    + rewrite E. eapply rows_moved_gone; [apply request_moved_refl|exact H5|]. destruct (ac_isAdmin actor); [by left|]. by destruct (own x actor); [right|].
    + apply rows_moved_map. intros t _. unfold unlink. case_bool_decide as Et; [|apply task_moved_refl].
      constructor; cbn; [done|by left; split_and!|by left| |by left; split_and!]. right. split; [done|]. exists id. split; [done|]. by rewrite <- Hid.
Qed.

Lemma removeTask_ok actor members id input now ch d r d' : removeTask actor id input = Ok ch -> fair_board actor members now d -> board_ok d ->
  ch d = Ok (r, d') -> board_ok d' /\ board_moved actor d d'.
Proof.
  intros Hq _ Hok Hr. unfold removeTask in Hq. apply rbind_ok in Hq as (body & _ & Hq). apply rbind_ok in Hq as (revision & _ & Hq). injection Hq as <-.
  apply rbind_ok in Hr as (t & Ht & Hr). apply task_found in Ht as (Hid & l1 & l2 & E & _ & Hd).
  destruct (ac_canTriage actor) eqn:Ec; [|done]. cbn [negb] in Hr. destruct (negb (t_revision t =? revision)); [done|]. injection Hr as <- <-. rewrite Hd.
  pose proof Hok as (_ & _ & _ & _ & _ & H6). rewrite E in H6. destruct (rows_gone _ _ _ _ _ H6) as [Hrows Hgone]. split.
  - apply with_tasks_ok; [done|rewrite E, !length_app; cbn; lia|done].
  - split; [apply rows_moved_same; eauto with tmedge|]. split; [|done]. cbn [bd_tasks with_tasks]. rewrite E. eapply rows_moved_gone; [apply task_moved_refl|exact H6|done].
Qed.

Lemma below_new letter next l : (forall a b : string, letter +:+ a = letter +:+ b -> a = b) -> Forall (id_below letter next) l -> letter +:+ show next ∉ l.
Proof. intros Hp Hl Hin. rewrite Forall_forall in Hl. by eapply id_below_fresh; [exact Hp|apply Hl, Hin|]. Qed.

Lemma request_ids_below d : board_ok d -> Forall (id_below "R-" (bd_nextRequest d)) (map q_id (bd_requests d)).
Proof. intros (_ & _ & _ & _ & [_ H] & _). apply Forall_map. eapply Forall_impl; [exact H|]. intros x Hx. apply Hx. Qed.
Lemma task_ids_below d : board_ok d -> Forall (id_below "T-" (bd_nextTask d)) (map t_id (bd_tasks d)).
Proof. intros (_ & _ & _ & _ & _ & [_ H]). apply Forall_map. eapply Forall_impl; [exact H|]. intros x Hx. apply Hx. Qed.

Lemma request_ok_more next next' r : next <= next' -> request_ok next r -> request_ok next' r.
Proof. intros Hn [H1 H2 H3 H4 H5 H6 H7 H8]. constructor; try done. by eapply id_below_more. Qed.
Lemma task_ok_more next next' t : next <= next' -> task_ok next t -> task_ok next' t.
Proof. intros Hn [H1 H2 H3 H4 H5 H6 H7 H8 H9]. constructor; try done. by eapply id_below_more. Qed.

Lemma inject_time now : 0 <= now -> Qle_bool 0 (inject_Z now) = true.
Proof. intros H. apply Qle_bool_iff. unfold Qle. cbn. lia. Qed.

Lemma title_ok v s : oneLine v LIMITS.title = Ok s -> is_title s = true.
Proof. intros [Hne Hl]%oneLine_ok. unfold is_title. rewrite bool_decide_eq_false_2 by done. by apply Z.leb_le. Qed.
Lemma detail_ok v s : paragraphs v LIMITS.detail false = Ok s -> is_detail s = true.
Proof. intros Hl%paragraphs_ok; [|done]. by apply Z.leb_le. Qed.

Lemma createRequest_ok actor members now input ch d r d' : createRequest actor now input = Ok ch -> fair_board actor members now d -> board_ok d ->
  ch d = Ok (r, d') -> board_ok d' /\ board_moved actor d d'.
Proof.
  intros Hq (Hname & _ & Hnow & Hlast & _) Hok Hr. unfold createRequest in Hq. apply rbind_ok in Hq as (body & _ & Hq).
  apply rbind_ok in Hq as (title & Htitle%title_ok & Hq). apply rbind_ok in Hq as (detail & Hdetail%detail_ok & Hq). injection Hq as <-.
  revert Hr. cbv beta. destruct (Nat.leb_spec LIMITS.requests (length (bd_requests d))) as [|Hl]; [done|]. intros Hr. injection Hr as <- <-.
  set (x := {| q_id := _ |}). assert (q_id x ∉ map q_id (bd_requests d)) as Hnew.
  { apply (below_new "R-"); [by intros a b [= ]|by apply request_ids_below]. }
  pose proof Hok as (H1 & H2 & H3 & H4 & [H5 H5'] & H6). split.
  - split; [cbn; lia|]. split; [done|]. split; [cbn; rewrite length_app; cbn; lia|]. split; [done|]. split; [|done]. cbn [bd_requests bd_nextRequest]. apply rows_snoc; [split; [done|]|done|].
    + eapply Forall_impl; [exact H5'|]. intros y. apply request_ok_more. lia.
    + constructor; try done; cbn; [exists (bd_nextRequest d); split; [done|lia]|apply NoDup_singleton|by constructor|split; by apply inject_time].
  - split; [|split; [apply rows_moved_same; eauto with tmedge|cbn; lia]]. apply rows_moved_snoc; [eauto with tmedge|by split_and!|done].
Qed.

Lemma assignee_ok members v o : Forall (fun m => is_name (me_name m) = true) members -> assignee members v = Ok o -> match o with Some n => is_name n = true | None => True end.
Proof.
  intros Hm. unfold assignee. destruct v as [| | |s| |]; try done; [by intros [= <-]|]. case_bool_decide; [by intros [= <-]|].
  destruct (includes s _) eqn:E; [|done]. intros [= <-]. apply includes_true, list_elem_of_fmap in E as (m & -> & Hin). rewrite Forall_forall in Hm. by apply Hm.
Qed.

Section board.
Context {texts : Texts}.

Lemma createTask_ok actor members now input ch d r d' : createTask actor members now input = Ok ch -> fair_board actor members now d -> board_ok d ->
  ch d = Ok (r, d') -> board_ok d' /\ board_moved actor d d'.
Proof.
  intros Hq (Hname & Hmem & Hnow & _ & Hlast & _) Hok Hr. unfold createTask in Hq. apply rbind_ok in Hq as (body & _ & Hq).
  destruct (ac_canTriage actor) eqn:Ec; [|done]. cbn [negb] in Hq. apply rbind_ok in Hq as (title & Htitle%title_ok & Hq).
  apply rbind_ok in Hq as (detail & Hdetail%detail_ok & Hq). apply rbind_ok in Hq as (who & Hwho & Hq). apply rbind_ok in Hq as (due & Hdue & Hq).
  apply rbind_ok in Hq as (requestId & _ & Hq). injection Hq as <-. revert Hr. cbv beta. destruct (Nat.leb_spec LIMITS.tasks (length (bd_tasks d))) as [|Hl]; [done|]. intros Hr.
  destruct (match requestId with Some _ => _ | None => _ end) eqn:El; [done|]. injection Hr as <- <-.
  set (t := {| t_id := _ |}). assert (t_id t ∉ map t_id (bd_tasks d)) as Hnew.
  { apply (below_new "T-"); [by intros a b [= ]|by apply task_ids_below]. }
  pose proof Hok as (H1 & H2 & H3 & H4 & [H5 H5'] & [H6 H6']). split.
  - split; [done|]. split; [cbn; lia|]. split; [done|]. split; [cbn; rewrite length_app; cbn; lia|]. split; [done|]. cbn [bd_tasks bd_nextTask]. apply rows_snoc; [split; [done|]|done|].
    + eapply Forall_impl; [exact H6'|]. intros y. apply task_ok_more. lia.
    + constructor; try done; cbn; [exists (bd_nextTask d); split; [done|lia]| | | |split; by apply inject_time].
      * destruct (field "assignee" body) as [v|]; [by eapply assignee_ok|by injection Hwho as <-].
      * destruct (field "due" body) as [v|]; [by eapply dayOrNull_ok|by injection Hdue as <-].
      * destruct requestId as [id|]; [|done]. apply negb_false, existsb_exists in El as (x & Hx%list_elem_of_In & Hid%bool_decide_eq_true).
        rewrite <- Hid. rewrite Forall_forall in H5'. eapply REQUEST_ID_below; [|apply H5', Hx]. lia.
  - split; [apply rows_moved_same; eauto with tmedge|]. split; [|cbn; lia]. apply rows_moved_snoc; [eauto with tmedge|by split_and!|done].
Qed.

Lemma updateTask_ok actor members id now input ch d r d' : updateTask actor members id now input = Ok ch -> fair_board actor members now d -> board_ok d ->
  ch d = Ok (r, d') -> board_ok d' /\ board_moved actor d d'.
Proof.
  intros Hq (_ & Hmem & Hnow & _ & _ & _ & Hrev) Hok Hr. unfold updateTask in Hq. apply rbind_ok in Hq as (body & _ & Hq). apply rbind_ok in Hq as (revision & _ & Hq).
  apply rbind_ok in Hq as (title & Htitle%given_title & Hq). apply rbind_ok in Hq as (detail & Hdetail%given_detail & Hq). apply rbind_ok in Hq as (due & Hdue & Hq).
  apply rbind_ok in Hq as (status & _ & Hq). destruct (negb _) in Hq; [done|]. injection Hq as <-. apply rbind_ok in Hr as (t & Ht & Hr).
  apply task_found in Ht as (Hid & l1 & l2 & E & Ha & _). destruct (negb (ac_canTriage actor) && _) eqn:E1; [done|]. destruct (negb (t_revision t =? revision)); [done|].
  apply rbind_ok in Hr as (who & Hwho & Hr). injection Hr as <- <-. rewrite Ha. rewrite E, Forall_app, Forall_cons in Hrev. destruct Hrev as (_ & Ht & _).
  assert (is_some (field "assignee" body) = false -> who = None) as Hnone by (destruct (field "assignee" body); [done|]; by injection Hwho as <-).
  apply (task_changed _ _ _ t); [done|done| |].
  - constructor; cbn; [done| | |by left|by right].
    + destruct (ac_canTriage actor); [by right|]. left. cbn [negb andb] in E1. apply negb_false, andb_true_iff in E1 as [E1 _].
      apply negb_true, orb_false_iff in E1 as [[[Et Ed]%orb_false_iff Edue]%orb_false_iff ->%Hnone]. by destruct title, detail, due.
    + destruct (ac_canTriage actor); [by right; left|]. right. right. cbn [negb andb] in E1. by apply negb_false, andb_true_iff in E1 as [_ ?%bool_decide_eq_true].
  - intros [H1 H2 H3 H4 H5 H6 H7 [H8 H9] H10]. constructor; try done; cbn; [by destruct title|by destruct detail| | |split; [done|by apply inject_time]|lia].
    + destruct who as [w|]; [|done]. cbn. destruct (field "assignee" body) as [v|]; [|done]. destruct (match v with JNull => _ | _ => _ end); [done|].
      apply rbind_ok in Hwho as (a & Hassign & [= ->]). by eapply assignee_ok.
    + destruct due as [o|]; [|done]. cbn. destruct (field "due" body) as [v|]; [|done]. apply rbind_ok in Hdue as (a & Hday & [= ->]). by eapply dayOrNull_ok.
Qed.

Definition time_of_request (q : board_request) : Z :=
  match q with CreateRequest now _ | UpdateRequest _ now _ | CreateTask now _ | UpdateTask _ now _ => now | _ => 0 end.

Lemma board_step actor members q ch d r d' : asked actor members q = Ok ch -> fair_board actor members (time_of_request q) d -> board_ok d ->
  ch d = Ok (r, d') -> board_ok d' /\ board_moved actor d d'.
Proof.
  intros Hq Hf Hok Hr. destruct q as [now input|id now input|id input|id input|now input|id now input|id input]; cbn [asked time_of_request] in *.
  - by eapply createRequest_ok.
  - by eapply updateRequest_ok.
  - by eapply vote_ok.
  - by eapply removeRequest_ok.
  - by eapply createTask_ok.
  - by eapply updateTask_ok.
  - by eapply removeTask_ok.
Qed.
End board.

(** ** Who may do what *)

Section rights.
Context {texts : Texts}.

(** C23: Whoever does whatever, the board changes only as their rights allow. A
    request is filed by its author, with their vote and under a new number;
    its words are changed by its author while it is open, or with write
    access; its status with write access only; its author (while it is open)
    or an admin takes it away; and nobody changes the vote of another, nor any
    vote once it is decided. A task is made, changed, handed out and deleted
    with write access, save that the person it is assigned to may move its
    status; it loses its link only when its request is gone. Every edit moves
    the revision on by one. *)
Theorem board_changes_need_rights actor members q ch d r d' : asked actor members q = Ok ch -> fair_board actor members (time_of_request q) d -> board_ok d ->
  ch d = Ok (r, d') ->
  rows_moved q_id (request_moved actor) (fun x => ac_isAdmin actor = true \/ own x actor = true)
    (fun x' => q_id x' = "R-" +:+ show (bd_nextRequest d) /\ q_author x' = ac_name actor /\ q_status x' = Open /\ q_votes x' = [ac_name actor] /\ q_revision x' = 1)
    (bd_requests d) (bd_requests d') /\
  rows_moved t_id (task_moved actor (bd_requests d')) (fun _ => ac_canTriage actor = true)
    (fun t' => ac_canTriage actor = true /\ t_id t' = "T-" +:+ show (bd_nextTask d) /\ t_createdBy t' = ac_name actor /\ t_status t' = Todo /\ t_revision t' = 1)
    (bd_tasks d) (bd_tasks d').
Proof. intros Hq Hf Hok Hr. destruct (board_step _ _ _ _ _ _ _ Hq Hf Hok Hr) as [_ (H1 & H2 & _)]. by split. Qed.

(** What may come of a board. *)
Inductive later : BoardDocument -> BoardDocument -> Prop :=
| later_same d : later d d
| later_step d d' actor members q ch r d'' : later d d' -> asked actor members q = Ok ch -> fair_board actor members (time_of_request q) d' -> ch d' = Ok (r, d'') ->
    later d d''.

Lemma later_ok d d' : board_ok d -> later d d' -> board_ok d'.
Proof. intros Hok. induction 1 as [|d d' actor members q ch r d'' _ IH Hq Hf Hr]; [done|]. specialize (IH Hok). by apply (board_step _ _ _ _ _ _ _ Hq Hf IH Hr). Qed.

(** What was saved against revision [n] is behind. *)
Definition request_past (id : string) (n : Z) (d : BoardDocument) : Prop :=
  id_below "R-" (bd_nextRequest d) id /\ forall x, x ∈ bd_requests d -> q_id x = id -> n < q_revision x.
Definition task_past (id : string) (n : Z) (d : BoardDocument) : Prop :=
  id_below "T-" (bd_nextTask d) id /\ forall t, t ∈ bd_tasks d -> t_id t = id -> n < t_revision t.

Lemma request_past_moved actor d d' id n : board_moved actor d d' -> request_past id n d -> request_past id n d'.
Proof.
  intros ([_ Hback] & _ & Hn & _) [Hb Hx]. split; [by eapply id_below_more|]. intros x' Hx' Hid. destruct (Hback x' Hx') as [(x & Hin & [[Hsame _] _ _ _ _ Hrev])|[(Enew & _) _]].
  - specialize (Hx x Hin ltac:(congruence)). destruct Hrev as [[Hrev _]|Hrev]; lia.
  - exfalso. rewrite Hid in Enew. revert Enew. by apply (id_below_fresh "R-"); [intros a b [= ]|].
Qed.

Lemma task_past_moved actor d d' id n : board_moved actor d d' -> task_past id n d -> task_past id n d'.
Proof.
  intros (_ & [_ Hback] & _ & Hn) [Hb Hx]. split; [by eapply id_below_more|]. intros t' Ht' Hid. destruct (Hback t' Ht') as [(t & Hin & [[Hsame _] _ _ _ Hrev])|[(_ & Enew & _) _]].
  - specialize (Hx t Hin ltac:(congruence)). destruct Hrev as [[Hrev _]|Hrev]; lia.
  - exfalso. rewrite Hid in Enew. revert Enew. by apply (id_below_fresh "T-"); [intros a b [= ]|].
Qed.

Lemma past_later (past : BoardDocument -> Prop) d d' : (forall actor a b, board_moved actor a b -> past a -> past b) -> board_ok d -> later d d' -> past d -> past d'.
Proof.
  intros Hp Hok Hl. induction Hl as [|d d' actor members q ch r d'' Hl IH Hq Hf Hr]; [done|]. intros H.
  destruct (board_step _ _ _ _ _ _ _ Hq Hf (later_ok _ _ Hok Hl) Hr) as [_ Hm]. by eapply Hp, IH.
Qed.

(** The revision a save is made against. *)
Definition based_on (input : json) : option json := as_object input ≫= field "revision".

Lemma fields_ok input allowed body : fields input allowed = Ok body -> as_object input = Some body.
Proof. unfold fields. destruct (as_object input) as [b|]; [|done]. destruct (List.find _ _); [case_bool_decide; [|done]|]; by intros [= ->]. Qed.

(** The one row of its key was changed, or taken out. *)
Lemma only_row {A} (key : A -> string) P (good : A -> Prop) l1 l2 x x' : rows_ok key P (l1 ++ x :: l2) -> good x' ->
  (forall y, y ∈ l1 ++ x' :: l2 -> key y = key x -> good y) /\ (forall y, y ∈ l1 ++ l2 -> key y = key x -> good y).
Proof.
  intros [_ Hx]%rows_gone Hgood. assert (forall y, y ∈ l1 ++ l2 -> key y = key x -> good y) as Hno.
  { intros y Hy E. destruct Hx. apply list_elem_of_fmap. by exists y. }
  split; [|exact Hno]. intros y [Hy|[->|Hy]%elem_of_cons]%elem_of_app E; [|done|]; apply Hno; (done || (apply elem_of_app; auto)).
Qed.

Lemma saved_request actor id now input ch d r d' : updateRequest actor id now input = Ok ch \/ removeRequest actor id input = Ok ch -> ch d = Ok (r, d') ->
  exists n x, revisionOf (based_on input) = Ok n /\ request d id = Ok x /\ q_revision x = n /\ (board_ok d -> request_past id n d').
Proof.
  unfold based_on. intros [Hq|Hq] Hr; unfold updateRequest, removeRequest in Hq; apply rbind_ok in Hq as (body & Hb%fields_ok & Hq);
    apply rbind_ok in Hq as (n & Hn & Hq); rewrite Hb; cbn [mbind option_bind].
  - apply rbind_ok in Hq as (title & _ & Hq). apply rbind_ok in Hq as (detail & _ & Hq). apply rbind_ok in Hq as (status & _ & Hq). destruct (negb _) in Hq; [done|].
    injection Hq as <-. apply rbind_ok in Hr as (x & Hx & Hr). destruct (_ && _); [done|]. destruct (_ && _ && _); [done|].
    destruct (q_revision x =? n) eqn:E; [|done]. apply Z.eqb_eq in E. exists n, x. split_and!; [done|done|done|]. injection Hr as <- <-.
    destruct (request_found _ _ _ Hx) as (Hid & l1 & l2 & El & Ha & _). rewrite Ha. intros (_ & _ & _ & _ & Hrows & _). rewrite El in Hrows. split.
    + destruct Hrows as [_ [_ [Hxo _]%Forall_cons]%Forall_app]. rewrite <- Hid. apply Hxo.
    + rewrite <- Hid. cbn [bd_requests with_requests]. apply (only_row _ _ (fun y => n < q_revision y) _ _ _ (edited_request title detail status now x) Hrows). cbn. lia.
  - injection Hq as <-. apply rbind_ok in Hr as (x & Hx & Hr). destruct (_ && _); [done|]. destruct (q_revision x =? n) eqn:E; [|done]. apply Z.eqb_eq in E. exists n, x.
    split_and!; [done|done|done|]. injection Hr as <- <-. destruct (request_found _ _ _ Hx) as (Hid & l1 & l2 & El & _ & Hd). rewrite Hd.
    intros (_ & _ & _ & _ & Hrows & _). rewrite El in Hrows. split.
    + destruct Hrows as [_ [_ [Hxo _]%Forall_cons]%Forall_app]. rewrite <- Hid. apply Hxo.
    + rewrite <- Hid. cbn [bd_requests with_requests with_tasks]. apply (only_row _ _ (fun y => n < q_revision y) _ _ _ (edited_request None None None 0 x) Hrows). cbn. lia.
Qed.

Lemma saved_task actor members id now input ch d r d' : updateTask actor members id now input = Ok ch \/ removeTask actor id input = Ok ch -> ch d = Ok (r, d') ->
  exists n t, revisionOf (based_on input) = Ok n /\ task d id = Ok t /\ t_revision t = n /\ (board_ok d -> task_past id n d').
Proof.
  unfold based_on. intros [Hq|Hq] Hr; unfold updateTask, removeTask in Hq; apply rbind_ok in Hq as (body & Hb%fields_ok & Hq);
    apply rbind_ok in Hq as (n & Hn & Hq); rewrite Hb; cbn [mbind option_bind].
  - apply rbind_ok in Hq as (title & _ & Hq). apply rbind_ok in Hq as (detail & _ & Hq). apply rbind_ok in Hq as (due & _ & Hq). apply rbind_ok in Hq as (status & _ & Hq).
    destruct (negb _) in Hq; [done|]. injection Hq as <-. apply rbind_ok in Hr as (t & Ht & Hr). destruct (_ && _); [done|].
    destruct (t_revision t =? n) eqn:E; [|done]. apply Z.eqb_eq in E. exists n, t. split_and!; [done|done|done|]. cbn [negb] in Hr.
    apply rbind_ok in Hr as (who & _ & Hr). injection Hr as <- <-.
    destruct (task_found _ _ _ Ht) as (Hid & l1 & l2 & El & Ha & _). rewrite Ha. intros (_ & _ & _ & _ & _ & Hrows). rewrite El in Hrows. split.
    + destruct Hrows as [_ [_ [Hxo _]%Forall_cons]%Forall_app]. rewrite <- Hid. apply Hxo.
    + rewrite <- Hid. cbn [bd_tasks with_tasks]. apply (only_row _ _ (fun y => n < t_revision y) _ _ _ (edited_task title detail who due status now t) Hrows). cbn. lia.
  - injection Hq as <-. apply rbind_ok in Hr as (t & Ht & Hr). destruct (negb _); [done|]. destruct (t_revision t =? n) eqn:E; [|done]. apply Z.eqb_eq in E. exists n, t.
    split_and!; [done|done|done|]. injection Hr as <- <-. destruct (task_found _ _ _ Ht) as (Hid & l1 & l2 & El & _ & Hd). rewrite Hd.
    intros (_ & _ & _ & _ & _ & Hrows). rewrite El in Hrows. split.
    + destruct Hrows as [_ [_ [Hxo _]%Forall_cons]%Forall_app]. rewrite <- Hid. apply Hxo.
    + rewrite <- Hid. cbn [bd_tasks with_tasks]. apply (only_row _ _ (fun y => n < t_revision y) _ _ _ (edited_task None None None None None 0 t) Hrows). cbn. lia.
Qed.

(** What a request saves, and against which revision. *)
Inductive row := RequestRow (id : string) | TaskRow (id : string).
Definition saves (q : board_request) : option (row * option json) :=
  match q with
  | UpdateRequest id _ input | RemoveRequest id input => Some (RequestRow id, based_on input)
  | UpdateTask id _ input | RemoveTask id input => Some (TaskRow id, based_on input)
  | _ => None
  end.

(** C24: No edit is overwritten unseen. Once somebody's edit or removal went
    through, no other that was made against the same revision of that request
    or task goes through, however much is done in between: not even after
    the row is gone, whose number is never given again. *)
Theorem no_edit_is_lost actor members q ch d r d' d'' actor' members' q' ch' sv : board_ok d -> saves q = Some sv -> saves q' = Some sv ->
  asked actor members q = Ok ch -> fair_board actor members (time_of_request q) d -> ch d = Ok (r, d') -> later d' d'' ->
  asked actor' members' q' = Ok ch' -> is_ok (ch' d'') = false.
Proof.
  intros Hok Hs Hs' Hq Hf Hr Hl Hq'. destruct (board_step _ _ _ _ _ _ _ Hq Hf Hok Hr) as [Hok' _]. destruct (ch' d'') as [[r' d3]|e] eqn:Er; [exfalso|done].
  assert ((exists id n, sv.1 = RequestRow id /\ revisionOf sv.2 = Ok n /\ request_past id n d') \/ (exists id n, sv.1 = TaskRow id /\ revisionOf sv.2 = Ok n /\ task_past id n d')) as Hpast.
  { destruct q as [|id now input| |id input| |id now input|id input]; cbn [saves asked] in *; try done; injection Hs as <-; [left|left|right|right].
    - destruct (saved_request actor id now input ch d r d' (or_introl Hq) Hr) as (n & x & Hn & _ & _ & Hp). exists id, n. auto.
    - destruct (saved_request actor id 0 input ch d r d' (or_intror Hq) Hr) as (n & x & Hn & _ & _ & Hp). exists id, n. auto.
    - destruct (saved_task actor members id now input ch d r d' (or_introl Hq) Hr) as (n & x & Hn & _ & _ & Hp). exists id, n. auto.
    - destruct (saved_task actor members id 0 input ch d r d' (or_intror Hq) Hr) as (n & x & Hn & _ & _ & Hp). exists id, n. auto. }
  assert ((exists id n x, sv.1 = RequestRow id /\ revisionOf sv.2 = Ok n /\ request d'' id = Ok x /\ q_revision x = n) \/
          (exists id n t, sv.1 = TaskRow id /\ revisionOf sv.2 = Ok n /\ task d'' id = Ok t /\ t_revision t = n)) as Hnow.
  { destruct q' as [|id now input| |id input| |id now input|id input]; cbn [saves asked] in *; try done; injection Hs' as <-; [left|left|right|right].
    - destruct (saved_request actor' id now input ch' d'' r' d3 (or_introl Hq') Er) as (n & x & Hn & Hx & Hrev & _). by exists id, n, x.
    - destruct (saved_request actor' id 0 input ch' d'' r' d3 (or_intror Hq') Er) as (n & x & Hn & Hx & Hrev & _). by exists id, n, x.
    - destruct (saved_task actor' members' id now input ch' d'' r' d3 (or_introl Hq') Er) as (n & x & Hn & Hx & Hrev & _). by exists id, n, x.
    - destruct (saved_task actor' members' id 0 input ch' d'' r' d3 (or_intror Hq') Er) as (n & x & Hn & Hx & Hrev & _). by exists id, n, x. }
  destruct Hpast as [(id & n & E1 & E2 & Hp)|(id & n & E1 & E2 & Hp)], Hnow as [(id' & n' & x & E1' & E2' & Hx & Hrev)|(id' & n' & x & E1' & E2' & Hx & Hrev)]; try congruence;
    assert (id' = id) as -> by congruence; assert (n' = n) as -> by congruence.
  - apply (past_later (request_past id n) _ _ (fun a b c => request_past_moved a b c id n) Hok' Hl) in Hp as [_ Hp].
    destruct (request_found _ _ _ Hx) as (Hid & l1 & l2 & El & _). specialize (Hp x). rewrite El in Hp. specialize (Hp ltac:(apply elem_of_app; right; left) Hid). lia.
  - apply (past_later (task_past id n) _ _ (fun a b c => task_past_moved a b c id n) Hok' Hl) in Hp as [_ Hp].
    destruct (task_found _ _ _ Hx) as (Hid & l1 & l2 & El & _). specialize (Hp x). rewrite El in Hp. specialize (Hp ltac:(apply elem_of_app; right; left) Hid). lia.
Qed.
End rights.

(** ** The board over its file *)

Section boardroom.
Context {texts : Texts}.

(** A request to the board, with what the file system answers.
    @modules/workspace/application/board.ts 59-64 Board *)
Definition serve_board (actor : Actor) (members : list Member) (q : board_request) (io : Io) (d : disk) (s : JsonDocumentStore BoardDocument) :
    answer BoardReply * JsonDocumentStore BoardDocument * disk := serve emptyBoard parseBoard board_json (asked actor members q) io d s.

Definition board_in (d : disk) : option BoardDocument := stored emptyBoard parseBoard d.

(** The file and the process over it, from the first start on. *)
Inductive boardroom : disk -> JsonDocumentStore BoardDocument -> Prop :=
| boardroom_new : boardroom None new_store
| boardroom_restart d s : boardroom d s -> boardroom d new_store
| boardroom_read io d s r s' : boardroom d s -> read emptyBoard parseBoard io d s = (r, s') -> boardroom d s'
| boardroom_request actor members q io d s r s' d' : boardroom d s -> (forall doc, board_in d = Some doc -> fair_board actor members (time_of_request q) doc) ->
    serve_board actor members q io d s = (r, s', d') -> boardroom d' s'.

Lemma serve_board_spec actor members q io d s doc r s' d' : store_ok emptyBoard parseBoard d s -> board_in d = Some doc -> board_ok doc ->
  fair_board actor members (time_of_request q) doc -> serve_board actor members q io d s = (r, s', d') ->
  store_ok emptyBoard parseBoard d' s' /\ exists doc', board_in d' = Some doc' /\ board_ok doc' /\ carried_out (asked actor members q) io doc r doc'.
Proof.
  intros Hs Hdoc Hok Hf. apply serve_spec; [apply board_roundtrip|done|done|done|]. intros ch x doc' Hch Hx. by apply (board_step _ _ _ _ _ _ _ Hch Hf Hok Hx).
Qed.

Lemma emptyBoard_ok : board_ok emptyBoard.
Proof. split; [done|]. split; [done|]. split; [cbn; lia|]. split; [cbn; lia|]. split; split; constructor. Qed.

(** Whatever the file system does, the file holds a board that is read back
    whole, and nobody has two votes on a request. *)
Theorem board_is_kept d s : boardroom d s -> store_ok emptyBoard parseBoard d s /\ exists doc, board_in d = Some doc /\ board_ok doc /\
  forall x, x ∈ bd_requests doc -> NoDup (q_votes x).
Proof.
  intros H. assert (store_ok emptyBoard parseBoard d s /\ exists doc, board_in d = Some doc /\ board_ok doc) as [Hs (doc & Hd & Hok)].
  { induction H as [|d s _ [_ IH]|io d s r s' _ [IHs IH] Hr|actor members q io d s r s' d' _ [IHs (doc & IH1 & IH2)] Hf Hr].
    - split; [done|]. exists emptyBoard. split; [done|apply emptyBoard_ok].
    - by split.
    - split; [|done]. by apply read_spec in Hr as [? _].
    - destruct (serve_board_spec _ _ _ _ _ _ _ _ _ _ IHs IH1 IH2 (Hf _ IH1) Hr) as [? (doc' & ? & ? & _)]. split; [done|]. by exists doc'. }
  split; [done|]. exists doc. split_and!; [done|done|]. intros x Hx. destruct Hok as (_ & _ & _ & _ & [_ Hr] & _). rewrite Forall_forall in Hr. apply (Hr x Hx).
Qed.
End boardroom.

Module Team.
Import Mail.Post.
#[local] Existing Instance no_texts.

Definition file_it : board_request := CreateRequest 100 (JObj [("title", JStr " A  new   map")]).
Definition edit_it (revision : Z) : json := JObj [("revision", JInt revision); ("title", JStr "A map")].

Lemma fair_empty actor now : is_name (ac_name actor) = true -> 0 <= now -> fair_board actor people now emptyBoard.
Proof. intros H Hn. split; [done|]. split; [by repeat constructor|]. split; [done|]. split; [done|]. split; [done|]. split; constructor. Qed.

Definition filed : answer (BoardReply * BoardDocument) := let! ch := asked bob people file_it in ch emptyBoard.
Definition board1 : BoardDocument := Eval vm_compute in match filed with Ok (_, d) => d | Err _ => emptyBoard end.

Example bob_filed : map q_id (bd_requests board1) = ["R-1"] /\ map q_title (bd_requests board1) = ["A new map"] /\ map q_votes (bd_requests board1) = [["bob"]].
Proof. repeat split. Qed.

(** Somebody without write access cannot decide it, nor edit what another filed. *)
Example cy_may_not : (let! ch := asked cy people (UpdateRequest "R-1" 200 (edit_it 1)) in ch board1) = Err FORBIDDEN /\
  (let! ch := asked bob people (UpdateRequest "R-1" 200 (JObj [("revision", JInt 1); ("status", JStr "shipped")])) in ch board1) = Err FORBIDDEN.
Proof. split; vm_compute; reflexivity. Qed.

Lemma board1_made ch : asked bob people file_it = Ok ch -> exists r, ch emptyBoard = Ok (r, board1).
Proof. intros [= <-]. eexists. vm_compute. reflexivity. Qed.

Lemma board_changes_need_rights_witness : exists ch r, asked bob people file_it = Ok ch /\ ch emptyBoard = Ok (r, board1) /\
  rows_moved q_id (request_moved bob) (fun x => ac_isAdmin bob = true \/ own x bob = true)
    (fun x' => q_id x' = "R-" +:+ show 1 /\ q_author x' = "bob" /\ q_status x' = Open /\ q_votes x' = ["bob"] /\ q_revision x' = 1) [] (bd_requests board1).
Proof.
  destruct (asked bob people file_it) as [ch|e] eqn:E; [|discriminate E]. destruct (board1_made ch E) as [r Hr]. exists ch, r. split; [reflexivity|]. split; [exact Hr|].
  exact (proj1 (board_changes_need_rights bob people file_it ch emptyBoard r board1 E (fair_empty bob 100 eq_refl ltac:(lia)) emptyBoard_ok Hr)).
Defined.

Lemma board1_ok : board_ok board1.
Proof.
  destruct (asked bob people file_it) as [ch|e] eqn:E; [|discriminate E]. destruct (board1_made ch E) as [r Hr].
  exact (proj1 (board_step bob people file_it ch emptyBoard r board1 E (fair_empty bob 100 eq_refl ltac:(lia)) emptyBoard_ok Hr)).
Qed.

(** Two people edit the same request; the second is told to look again. *)
Definition bobs_edit : board_request := UpdateRequest "R-1" 200 (edit_it 1).
Definition adas_removal : board_request := RemoveRequest "R-1" (JObj [("revision", JInt 1)]).

Lemma no_edit_is_lost_witness : exists ch r d' ch', asked bob people bobs_edit = Ok ch /\ ch board1 = Ok (r, d') /\ asked ada people adas_removal = Ok ch' /\ is_ok (ch' d') = false.
Proof.
  destruct (asked bob people bobs_edit) as [ch|e] eqn:E; [|discriminate E]. destruct (asked ada people adas_removal) as [ch'|e] eqn:E'; [|discriminate E'].
  destruct (ch board1) as [[r d']|e] eqn:Er; [|exfalso; injection E as <-; vm_compute in Er; discriminate Er].
  exists ch, r, d', ch'. split; [reflexivity|]. split; [exact Er|]. split; [reflexivity|].
  refine (no_edit_is_lost bob people bobs_edit ch board1 r d' d' ada people adas_removal ch' _ board1_ok eq_refl eq_refl E _ Er (later_same d') E').
  split; [reflexivity|]. split; [by repeat constructor|]. split; [discriminate|]. split; [reflexivity|]. split; [reflexivity|]. split; [by repeat constructor|constructor].
Defined.
End Team.
