(* ===== verification/Workspace.v ===== *)
(** Who stands behind a request to the workspace
    (src/modules/workspace/routes/workspace-router.ts, and the members of
    src/algo/server.ts): from the accounts of [Accounts] to the actor of [Mail]
    and [Board], and the gate every write passes. *)

From S2P Require Import Prelude Json Sessions Accounts Documents Mail Board.

(** The people who can be written to; with sign-in off there is one.
    @algo/server.ts 249-252 teamMembers *)
Definition teamMembers (cfg : AlgoAuthConfig) (users : list AlgoUser) : list Member :=
  if ac_enabled cfg
  then map (fun user => {| me_name := u_name user; me_since := u_createdAt user; me_teamRoles := map team_text (u_teamRoles user) |}) (List.filter (fun user => negb (u_disabled user)) users)
  else [{| me_name := "local"; me_since := 0; me_teamRoles := [] |}].

(** [p] is what [auth.principalOf] makes of the request.
    @modules/workspace/routes/workspace-router.ts 29-36 actorOf *)
Definition actorOf (p : option AdminPrincipal) (members : list Member) : answer Actor :=
  match p with
  | None => Err UNAUTHENTICATED
  | Some p =>
      if negb (includes AlgoRead (pr_capabilities p)) then Err FORBIDDEN
      else
        match List.find (fun m => bool_decide (me_name m = pr_name p)) members with
        | None => Err UNAUTHENTICATED
        | Some self => Ok {| ac_name := me_name self; ac_since := me_since self; ac_teamRoles := me_teamRoles self; ac_canTriage := includes AlgoWrite (pr_capabilities p);
                             ac_isAdmin := bool_decide (pr_role p = Admin) |}
        end
  end.

(** The budgets of a router, of sends and of other writes.
    @modules/workspace/routes/workspace-router.ts 20-22 createWorkspaceRouter *)
Definition sends : RateLimiter := {| r_max := 30; r_windowMs := 300000; r_hits := [] |}.
Definition writes : RateLimiter := {| r_max := 240; r_windowMs := 300000; r_hits := [] |}.

(** The gate of a write: the person behind it, the header, the origin (where one
    is named) and the budget; [here] is the origin of this server.
    @modules/workspace/routes/workspace-router.ts 47-53 write *)
Definition write (p : option AdminPrincipal) (members : list Member) (header : bool) (origin : option string) (here : string) (now : Z) (budget : RateLimiter) :
    answer Actor * RateLimiter :=
  match actorOf p members with
  | Err e => (Err e, budget)
  | Ok actor =>
      if negb header || match origin with Some o => negb (bool_decide (o = EmptyString)) && negb (bool_decide (o = here)) | None => false end then (Err FORBIDDEN, budget)
      else let '(ok, budget) := allow (ac_name actor) now budget in (if ok then Ok actor else Err RATE_LIMITED, budget)
  end.

(** What the answer's status is.
    @modules/workspace/routes/workspace-router.ts 24-27 fail *)
Definition status_of (e : WorkspaceErrorCode) : Z :=
  match e with
  | UNAUTHENTICATED => 401 | FORBIDDEN => 403 | VALIDATION => 400 | NOT_FOUND => 404 | STALE_REVISION | CLOSED | FULL => 409 | RATE_LIMITED => 429
  | STORAGE_UNAVAILABLE | Unexpected => 503
  end.

(** ** Rights come from the account *)

Section access.
Context {tokens : Tokens}.

Lemma members_named cfg users : accounts_ok users -> Forall (fun m => is_name (me_name m) = true) (teamMembers cfg (map snd users)).
Proof.
  intros [Hu _]. unfold teamMembers. destruct (ac_enabled cfg); [|by repeat constructor]. apply Forall_map, filter_Forall, Forall_map.
  eapply Forall_impl; [exact Hu|]. intros [k u] [_ H]. apply H.
Qed.

(** C25: What a person may do in the workspace is what their account allows. The
    actor of a request is the enabled account its session was opened for, as
    old as that account, with write access unless it is a viewer's, an admin
    if it is one's; every name it meets is a member's, and so are the names
    that [Mail] and [Board] ask to be well formed. A write that passes the
    gate came with the header, from this origin or none, in its budget. *)
Theorem workspace_rights_follow_the_account cfg lk d identity s p s' : ac_enabled cfg = true ->
  principalOf cfg lk d identity s = (s', Some p) -> accounts_ok (us_users s') ->
  let members := teamMembers cfg (map snd (us_users s')) in
  exists actor u, actorOf (Some p) members = Ok actor /\ om_get (ac_name actor) (us_users s') = Some u /\ u_disabled u = false /\ identity = Some (subjectFor cfg u) /\
    ac_since actor = u_createdAt u /\ (ac_canTriage actor = true <-> u_role u <> Viewer) /\ (ac_isAdmin actor = true <-> u_role u = Admin) /\
    is_name (ac_name actor) = true /\ Forall (fun m => is_name (me_name m) = true) members /\
    forall header origin here now budget a b, write (Some p) members header origin here now budget = (Ok a, b) ->
      a = actor /\ header = true /\ (origin = None \/ origin = Some "" \/ origin = Some here) /\ allow (ac_name actor) now budget = (true, b).
Proof.
  intros Hen Hp Hok members. assert (Forall (fun m => is_name (me_name m) = true) members) as Hnames by by apply members_named.
  unfold principalOf in Hp. rewrite Hen in Hp. cbn [negb] in Hp. destruct identity as [id|]; [|done]. destruct (split_on _ id) as [|name rest]; [done|].
  destruct name as [|c name]; [done|]. unfold get in Hp. destruct (om_get (String c name) (us_users (refresh lk d s))) as [u|] eqn:Eu; [|done].
  destruct (u_disabled u) eqn:Ed; [done|]. cbn [orb] in Hp. destruct (bool_decide (id = subjectFor cfg u)) eqn:Eid; [|done]. apply bool_decide_eq_true in Eid.
  injection Hp as <- <-. destruct (accounts_ok_get _ _ _ Hok Eu) as [Hname Huok].
  assert (List.find (fun m => bool_decide (me_name m = u_name u)) members = Some {| me_name := u_name u; me_since := u_createdAt u; me_teamRoles := map team_text (u_teamRoles u) |}) as Hfind.
  { unfold members, teamMembers. rewrite Hen. destruct (List.find _ _) as [m|] eqn:Ef.
    - apply List.find_some in Ef as [Hin%list_elem_of_In Hm%bool_decide_eq_true]. apply list_elem_of_fmap in Hin as (u' & -> & [Hu' _]%filter_in). cbn in Hm.
      apply list_elem_of_fmap in Hu' as ([k u''] & -> & Hin). destruct Hok as [Hkeys Hnd]. rewrite Forall_forall in Hkeys. destruct (Hkeys _ Hin) as [Hk _]. cbn in Hk, Hm.
      apply om_elem_get in Hin; [|done]. rewrite Hk in Hin. cbn in Hin. rewrite Hm, Hname, Eu in Hin. by injection Hin as ->.
    - exfalso. apply find_none_iff in Ef. rewrite Forall_forall in Ef. specialize (Ef {| me_name := u_name u; me_since := u_createdAt u; me_teamRoles := map team_text (u_teamRoles u) |}).
      cbn in Ef. rewrite bool_decide_eq_true_2 in Ef by done. discriminate Ef. apply list_elem_of_fmap. exists u. split; [done|]. apply filter_in. split; [|by rewrite Ed].
      apply list_elem_of_fmap. exists (String c name, u). split; [done|by apply om_get_elem]. }
  set (actor := {| ac_name := u_name u; ac_since := u_createdAt u; ac_teamRoles := map team_text (u_teamRoles u); ac_canTriage := includes AlgoWrite (pr_capabilities (principal (u_name u) (u_role u) true));
                   ac_isAdmin := bool_decide (u_role u = Admin) |}).
  assert (actorOf (Some (principal (u_name u) (u_role u) true)) members = Ok actor) as Hactor.
  { unfold actorOf. change (pr_name (principal (u_name u) (u_role u) true)) with (u_name u). by rewrite Hfind. }
  exists actor, u. split; [exact Hactor|]. cbn [actor ac_name ac_since ac_canTriage ac_isAdmin]. split_and!; try done.
  - by rewrite Hname.
  - by rewrite Eid.
  - by destruct (u_role u).
  - by destruct (u_role u).
  - apply Huok.
  - intros header origin here now budget a b. unfold write. rewrite Hactor. destruct header; [|done]. cbn [negb orb].
    destruct (match origin with Some _ => _ | None => _ end) eqn:Eo; [done|]. destruct (allow (ac_name actor) now budget) as [ok b'] eqn:Ea. destruct ok; [|done].
    intros [= <- <-]. split_and!; [done|done| |done]. destruct origin as [o|]; [|by left]. right. apply andb_false_iff in Eo as [Eo%negb_false%bool_decide_eq_true|Eo%negb_false%bool_decide_eq_true].
    + left. by rewrite Eo.
    + right. by rewrite Eo.
Qed.
End access.

Definition bobs_session : option string := Some (@subjectFor demo_tokens demo_auth bob).
Definition demo_users : AlgoUsers := newAlgoUsers Readable example_disk.
Definition demo_members : list Member := teamMembers demo_auth (map snd (us_users demo_users)).

Lemma demo_users_ok : accounts_ok (us_users demo_users).
Proof. apply (parse_accounts_ok (accounts_json example_accounts)). vm_compute. reflexivity. Qed.

(** Bob is an operator: he may decide requests, and is no admin. *)
Lemma workspace_rights_follow_the_account_witness : exists actor u, actorOf (Some (principal "bob" Operator true)) demo_members = Ok actor /\
  om_get (ac_name actor) (us_users demo_users) = Some u /\ u_disabled u = false /\ bobs_session = Some (@subjectFor demo_tokens demo_auth u) /\
  (ac_canTriage actor = true <-> u_role u <> Viewer) /\ (ac_isAdmin actor = true <-> u_role u = Admin).
Proof.
  destruct (@workspace_rights_follow_the_account demo_tokens demo_auth Readable example_disk bobs_session demo_users (principal "bob" Operator true) demo_users)
    as (actor & u & H1 & H2 & H3 & H4 & _ & H6 & H7 & _); [reflexivity|vm_compute; reflexivity|exact demo_users_ok|].
  exists actor, u. split; [exact H1|]. split; [exact H2|]. split; [exact H3|]. split; [exact H4|]. split; [exact H6|exact H7].
Defined.
