(* ===== verification/Failover.v ===== *)
(** One leader for a site, with PostgreSQL as the witness
    (src/infrastructure/postgres/site-leadership.ts), and the replay state that
    the leader writes behind a fence
    (src/infrastructure/postgres/replay-store.ts).

    A time is a number of microseconds, the resolution of a PostgreSQL
    timestamp. A statement is what it does to the one row it reads and writes:
    [s] is its statement_timestamp, [c] the clock when it takes effect. What
    the database answers reaches a process later, or never; the clock of a
    process runs at the pace of the database's, at an offset of its own. *)

From S2P Require Import Prelude Replay.

Definition MS : Z := 1000.

(** ** Configuration *)

(** [/^[a-z0-9][a-z0-9_.-]{0,63}$/]
    @infrastructure/postgres/site-leadership.ts 5-6 SITE_ID *)
Definition SITE_ID (s : string) : bool :=
  match chars s with
  | c :: l => (is_lower c || is_digit c) && forallb (fun c => is_lower c || is_digit c || includes (code c) [95; 46; 45]) l && Nat.leb (length l) 63
  | [] => false
  end.

(** @infrastructure/postgres/site-leadership.ts 8-11 SiteIdentity *)
Record SiteIdentity := { si_siteId : string; si_originId : string }.
(** @infrastructure/postgres/site-leadership.ts 13-16 SiteLeaseConfig *)
Record SiteLeaseConfig := { lc_identity : SiteIdentity; lc_ttlMs : Z; lc_renewMs : Z }.
(** @infrastructure/postgres/site-leadership.ts 18-21 SiteFence *)
Record SiteFence := { sf_identity : SiteIdentity; sf_holderId : string; sf_generation : Z }.

Section config.
(** [Number] of a text, where it is a whole number. *)
Context (to_integer : string -> option Z).

(** A variable of the environment; [None] is one that is not set.
    @infrastructure/postgres/site-leadership.ts 25-33 boundedInteger *)
Definition boundedInteger (raw : option string) (fallback min max : Z) : result string Z :=
  match raw with
  | None | Some EmptyString => Ok fallback
  | Some raw =>
      match to_integer raw with
      | Some value => if between (- (2 ^ 53 - 1)) (2 ^ 53 - 1) value && negb (value <? min) && negb (max <? value) then Ok value else Err "must be an integer"
      | None => Err "must be an integer"
      end
  end.

(** @infrastructure/postgres/site-leadership.ts 36-43 loadSiteIdentity *)
Definition loadSiteIdentity (site origin : option string) : result string (option SiteIdentity) :=
  let siteId := js_trim (default "" site) in
  let originId := js_trim (default "" origin) in
  if bool_decide (siteId = EmptyString) && bool_decide (originId = EmptyString) then Ok None
  else if negb (SITE_ID siteId) then Err "FAILOVER_SITE_ID"
  else if negb (SITE_ID originId) then Err "FAILOVER_ORIGIN_ID"
  else Ok (Some {| si_siteId := siteId; si_originId := originId |}).

(** @infrastructure/postgres/site-leadership.ts 45-52 loadSiteLeaseConfig *)
Definition loadSiteLeaseConfig (site origin ttl renew : option string) : result string (option SiteLeaseConfig) :=
  let! identity := loadSiteIdentity site origin in
  match identity with
  | None => Ok None
  | Some identity =>
      let! ttlMs := boundedInteger ttl 15000 5000 120000 in
      let! renewMs := boundedInteger renew (ttlMs / 3) 1000 60000 in
      throw_if ttlMs <=? renewMs * 2 with "FAILOVER_LEASE_RENEW_MS" in
      Ok (Some {| lc_identity := identity; lc_ttlMs := ttlMs; lc_renewMs := renewMs |})
  end.

(** Two renewals fit into a lease, and the margin is less than a fifth of it. *)
Lemma loaded_lease site origin ttl renew c : loadSiteLeaseConfig site origin ttl renew = Ok (Some c) ->
  5000 <= lc_ttlMs c <= 120000 /\ 1000 <= lc_renewMs c /\ lc_renewMs c * 2 < lc_ttlMs c.
Proof.
  assert (forall raw fallback min max v, boundedInteger raw fallback min max = Ok v -> min <= fallback <= max \/ fallback = v -> min <= fallback <= max -> min <= v <= max) as Hb.
  { intros raw fallback min max v H _ Hf. unfold boundedInteger in H. destruct raw as [[|a raw]|]; [by injection H as <-| |by injection H as <-].
    destruct (to_integer _) as [z|]; [|done]. destruct (Z.ltb_spec z min), (Z.ltb_spec max z); rewrite ?andb_false_r in H; try done.
    destruct (between _ _ z); [|done]. injection H as <-. lia. }
  unfold loadSiteLeaseConfig. intros H. apply rbind_ok in H as ([identity|] & _ & H); [|done].
  apply rbind_ok in H as (t & Ht%Hb & H); [|by left|lia]. apply rbind_ok in H as (r & Hr & H).
  assert (1000 <= r) as Hr'.
  { apply Hb in Hr; [lia|left|]; split; [apply Z.div_le_lower_bound|apply Z.div_le_upper_bound|apply Z.div_le_lower_bound|apply Z.div_le_upper_bound]; lia. }
  destruct (Z.leb_spec t (r * 2)); [done|]. injection H as <-. cbn. lia.
Qed.
End config.

(** ** The statements *)

(** The row of the site in [public.site_leadership]. *)
Record Row := { lr_origin : string; lr_holder : string; lr_generation : Z; lr_until : Z }.

Definition ttl (cfg : SiteLeaseConfig) : Z := lc_ttlMs cfg * MS.

(** The row as it is afterwards, where one is returned.
    @infrastructure/postgres/site-leadership.ts 96-115 start *)
Definition acquire (cfg : SiteLeaseConfig) (holder : string) (s : Z) (row : option Row) : option Row :=
  let origin := si_originId (lc_identity cfg) in
  match row with
  | None => Some {| lr_origin := origin; lr_holder := holder; lr_generation := 1; lr_until := s + ttl cfg |}
  | Some cur =>
      let same := bool_decide (lr_holder cur = holder) in
      if (lr_until cur <=? s) || same
      then Some {| lr_origin := origin; lr_holder := holder; lr_generation := if same && (s <? lr_until cur) then lr_generation cur else lr_generation cur + 1; lr_until := s + ttl cfg |}
      else None
  end.

Definition held_by (origin holder : string) (generation : Z) (row : Row) : bool :=
  bool_decide (lr_origin row = origin) && bool_decide (lr_holder row = holder) && (lr_generation row =? generation).

(** @infrastructure/postgres/site-leadership.ts 158-164 renew *)
Definition renew_row (cfg : SiteLeaseConfig) (holder : string) (generation s : Z) (row : option Row) : option Row :=
  match row with
  | Some cur =>
      if held_by (si_originId (lc_identity cfg)) holder generation cur && (s <? lr_until cur)
      then Some {| lr_origin := lr_origin cur; lr_holder := lr_holder cur; lr_generation := lr_generation cur; lr_until := s + ttl cfg |} else None
  | None => None
  end.

(** @infrastructure/postgres/site-leadership.ts 202-206 stop *)
Definition release_row (cfg : SiteLeaseConfig) (holder : string) (generation s : Z) (row : option Row) : option Row :=
  match row with
  | Some cur =>
      if held_by (si_originId (lc_identity cfg)) holder generation cur
      then Some {| lr_origin := lr_origin cur; lr_holder := lr_holder cur; lr_generation := lr_generation cur; lr_until := s |} else None
  | None => None
  end.

(** What a returned row says: the generation and the time that remains.
    @infrastructure/postgres/site-leadership.ts 54-57 LeaseRow *)
Record LeaseRow := { le_generation : Z; le_remaining : Z }.
Definition returned (c : Z) (row : Row) : LeaseRow := {| le_generation := lr_generation row; le_remaining := Z.max 0 (lr_until row - c) |}.

(** Whether the traffic of an origin is let through.
    @infrastructure/postgres/site-leadership.ts 218-232 active *)
Definition traffic (identity : SiteIdentity) (connected : bool) (c : Z) (row : option Row) : bool :=
  connected && match row with Some r => bool_decide (lr_origin r = si_originId identity) && (c <? lr_until r) | None => false end.

(** ** A process *)

(** [None] of [safeUntil] is [-Infinity]; a timer is when it is due.
    @infrastructure/postgres/site-leadership.ts 78-91 PostgresSiteLease *)
Record SiteLease := {
  sl_generation : option Z; sl_safeUntil : option Z; sl_renewTimer : option Z; sl_expiryTimer : option Z; sl_onLost : bool; sl_stopped : bool }.
Definition new_lease : SiteLease :=
  {| sl_generation := None; sl_safeUntil := None; sl_renewTimer := None; sl_expiryTimer := None; sl_onLost := false; sl_stopped := false |}.

(** [now] is [performance.now()].
    @infrastructure/postgres/site-leadership.ts 123-125 active *)
Definition active (now : Z) (l : SiteLease) : bool :=
  negb (sl_stopped l) && match sl_generation l, sl_safeUntil l with Some _, Some safe => now <? safe | _, _ => false end.

(** @infrastructure/postgres/site-leadership.ts 127-130 fence *)
Definition fence (cfg : SiteLeaseConfig) (holder : string) (now : Z) (l : SiteLease) : option SiteFence :=
  if active now l then g ← sl_generation l; Some {| sf_identity := lc_identity cfg; sf_holderId := holder; sf_generation := g |} else None.

Definition margin (cfg : SiteLeaseConfig) : Z := Z.max 250 (Z.min 1000 (lc_ttlMs cfg / 10)) * MS.

(** The local deadline of a lease that was answered at [now].
    @infrastructure/postgres/site-leadership.ts 141-142 accept *)
Definition deadline (cfg : SiteLeaseConfig) (row : LeaseRow) (now : Z) : Z := now + Z.max MS (le_remaining row - margin cfg).

(** [None]: the row is refused.
    @infrastructure/postgres/site-leadership.ts 132-146 accept *)
Definition accept (cfg : SiteLeaseConfig) (row : LeaseRow) (now : Z) (l : SiteLease) : option SiteLease :=
  if (le_remaining row <=? 0) || (le_generation row <? 0) then None
  else
    let safe := deadline cfg row now in
    Some {| sl_generation := Some (le_generation row); sl_safeUntil := Some safe; sl_renewTimer := sl_renewTimer l;
            sl_expiryTimer := Some (now + Z.max MS (safe - now)); sl_onLost := sl_onLost l; sl_stopped := sl_stopped l |}.

(** @infrastructure/postgres/site-leadership.ts 148-153 scheduleRenewal *)
Definition scheduleRenewal (delay now : Z) (l : SiteLease) : SiteLease :=
  match sl_stopped l, sl_generation l with
  | false, Some _ =>
      {| sl_generation := sl_generation l; sl_safeUntil := sl_safeUntil l; sl_renewTimer := Some (now + delay); sl_expiryTimer := sl_expiryTimer l;
         sl_onLost := sl_onLost l; sl_stopped := sl_stopped l |}
  | _, _ => l
  end.

(** The second part: whether the loss is told.
    @infrastructure/postgres/site-leadership.ts 178-189 lose *)
Definition lose (l : SiteLease) : SiteLease * bool :=
  match sl_stopped l, sl_generation l with
  | false, Some _ =>
      ({| sl_generation := None; sl_safeUntil := None; sl_renewTimer := None; sl_expiryTimer := None; sl_onLost := false; sl_stopped := false |}, sl_onLost l)
  | _, _ => (l, false)
  end.

(** Up to the statement; [None]: it throws.
    @infrastructure/postgres/site-leadership.ts 93-96 start *)
Definition start (l : SiteLease) : option SiteLease :=
  match sl_stopped l, sl_generation l with
  | false, None =>
      Some {| sl_generation := None; sl_safeUntil := sl_safeUntil l; sl_renewTimer := sl_renewTimer l; sl_expiryTimer := sl_expiryTimer l; sl_onLost := true; sl_stopped := false |}
  | _, _ => None
  end.

(** And after it: whether it leads; [None] throws.
    @infrastructure/postgres/site-leadership.ts 116-121 start *)
Definition start_end (cfg : SiteLeaseConfig) (row : option LeaseRow) (now : Z) (l : SiteLease) : option bool * SiteLease :=
  match row with
  | None => (Some false, l)
  | Some row => match accept cfg row now l with Some l => (Some true, scheduleRenewal (lc_renewMs cfg * MS) now l) | None => (None, l) end
  end.

(** What a renewal comes to that failed: another, while the lease lasts.
    @infrastructure/postgres/site-leadership.ts 169-175 renew *)
Definition renew_failed (now : Z) (l : SiteLease) : SiteLease * bool :=
  match sl_safeUntil l with
  | Some safe =>
      let remaining := safe - now in
      if remaining <=? 0 then lose l else (scheduleRenewal (Z.max (100 * MS) (Z.min (500 * MS) (remaining / (2 * MS) * MS))) now l, false)
  | None => lose l
  end.

(** The end of a renewal: an error, no row, or one.
    @infrastructure/postgres/site-leadership.ts 155-176 renew *)
Definition renew_end (cfg : SiteLeaseConfig) (answer : option (option LeaseRow)) (now : Z) (l : SiteLease) : SiteLease * bool :=
  match answer with
  | Some None => lose l
  | Some (Some row) => match accept cfg row now l with Some l => (scheduleRenewal (lc_renewMs cfg * MS) now l, false) | None => renew_failed now l end
  | None => renew_failed now l
  end.

(** The generation to give back, where there is one.
    @infrastructure/postgres/site-leadership.ts 191-201 stop *)
Definition stop (l : SiteLease) : SiteLease * option Z :=
  if sl_stopped l then (l, None)
  else ({| sl_generation := None; sl_safeUntil := None; sl_renewTimer := None; sl_expiryTimer := None; sl_onLost := sl_onLost l; sl_stopped := true |}, sl_generation l).

(** ** Several processes around the row *)

Inductive Statement := Starting | Renewing (generation : Z) | Stopping (generation : Z).

(** A statement that was sent: its effect, once it had one (when, and the row it
    returned), and whether the process still waits for it. *)
Record Flight := { fl_what : Statement; fl_effect : option (Z * option Row); fl_waited : bool }.
Definition sent (what : Statement) : Flight := {| fl_what := what; fl_effect := None; fl_waited := true |}.

Record Process := { pr_lease : SiteLease; pr_flights : list Flight }.
Record World := { wd_now : Z; wd_row : option Row; wd_procs : gmap string Process }.

Inductive Event :=
| Pass (dt : Z) | Start (p : string) | RenewTimer (p : string) | ExpiryTimer (p : string) | Stop (p : string)
| Effect (p : string) (i : nat) (s : Z) | Answered (p : string) (i : nat) (arrived : bool).

Section world.
(** The configuration of each holder, and how far its clock is from the
    database's. *)
Context (cfg : string -> SiteLeaseConfig) (offset : string -> Z).

Definition local (p : string) (w : World) : Z := wd_now w + offset p.
Definition process (p : string) (w : World) : Process := default {| pr_lease := new_lease; pr_flights := [] |} (wd_procs w !! p).
Definition set_process (p : string) (x : Process) (w : World) : World := {| wd_now := wd_now w; wd_row := wd_row w; wd_procs := <[p := x]> (wd_procs w) |}.
Definition set_row (r : option Row) (w : World) : World := {| wd_now := wd_now w; wd_row := r; wd_procs := wd_procs w |}.

Definition execute (p : string) (what : Statement) (s : Z) (row : option Row) : option Row :=
  match what with
  | Starting => acquire (cfg p) p s row
  | Renewing g => renew_row (cfg p) p g s row
  | Stopping g => release_row (cfg p) p g s row
  end.

(** What the process does with an answer; [None] is an error. *)
Definition receive (p : string) (what : Statement) (answer : option (option LeaseRow)) (now : Z) (l : SiteLease) : SiteLease :=
  match what with
  | Starting => match answer with Some row => (start_end (cfg p) row now l).2 | None => l end
  | Renewing _ => (renew_end (cfg p) answer now l).1
  | Stopping _ => l
  end.

Definition step (w : World) (e : Event) : World :=
  match e with
  | Pass dt => {| wd_now := wd_now w + dt; wd_row := wd_row w; wd_procs := wd_procs w |}
  | Start p =>
      let x := process p w in
      match start (pr_lease x) with Some l => set_process p {| pr_lease := l; pr_flights := pr_flights x ++ [sent Starting] |} w | None => w end
  | RenewTimer p =>
      let x := process p w in
      match sl_stopped (pr_lease x), sl_generation (pr_lease x) with
      | false, Some g => set_process p {| pr_lease := pr_lease x; pr_flights := pr_flights x ++ [sent (Renewing g)] |} w
      | _, _ => w
      end
  | ExpiryTimer p => let x := process p w in set_process p {| pr_lease := (lose (pr_lease x)).1; pr_flights := pr_flights x |} w
  | Stop p =>
      let x := process p w in let '(l, g) := stop (pr_lease x) in
      set_process p {| pr_lease := l; pr_flights := pr_flights x ++ match g with Some g => [sent (Stopping g)] | None => [] end |} w
  | Effect p i s =>
      let x := process p w in
      match pr_flights x !! i with
      | Some {| fl_what := what; fl_effect := None; fl_waited := waited |} =>
          let r := execute p what s (wd_row w) in
          set_process p {| pr_lease := pr_lease x; pr_flights := <[i := {| fl_what := what; fl_effect := Some (wd_now w, r); fl_waited := waited |}]> (pr_flights x) |}
            (set_row (match r with Some r => Some r | None => wd_row w end) w)
      | _ => w
      end
  | Answered p i arrived =>
      let x := process p w in
      match pr_flights x !! i with
      | Some {| fl_what := what; fl_effect := effect; fl_waited := true |} =>
          match (if arrived then effect else None) with
          | Some (c, r) => set_process p {| pr_lease := receive p what (Some (returned c <$> r)) (local p w) (pr_lease x); pr_flights := delete i (pr_flights x) |} w
          | None =>
              if arrived then w
              else set_process p {| pr_lease := receive p what None (local p w) (pr_lease x); pr_flights := <[i := {| fl_what := what; fl_effect := effect; fl_waited := false |}]> (pr_flights x) |} w
          end
      | _ => w
      end
  end.

(** Time goes forward, a statement starts before it takes effect, and those of
    one holder take effect in the order they were started. *)
Definition sequential (w : World) (e : Event) : Prop :=
  match e with
  | Pass dt => 0 <= dt
  | Effect p i s => s <= wd_now w /\ forall r, wd_row w = Some r -> lr_holder r = p -> lr_until r <= s + ttl (cfg p)
  | _ => True
  end.

(** The answer to a statement is there within the margin, and a millisecond
    before the lease ends. *)
Definition prompt (w : World) (e : Event) : Prop :=
  match e with
  | Answered p i true => forall f c r, pr_flights (process p w) !! i = Some f -> fl_effect f = Some (c, Some r) -> wd_now w <= c + margin (cfg p) /\ wd_now w + MS <= lr_until r
  | _ => True
  end.

Definition leads (p : string) (w : World) : bool := active (local p w) (pr_lease (process p w)).

Definition new_world (t : Z) : World := {| wd_now := t; wd_row := None; wd_procs := ∅ |}.

(** Every history in which the database answers promptly. *)
Inductive reach : World -> Prop :=
| reach_new t : reach (new_world t)
| reach_step w e : reach w -> sequential w e -> prompt w e -> reach (step w e).

(** A lease that a process was given, or is about to be: while it lasts, the row
    is that process's. *)
Definition claim (p : string) (g until : Z) (w : World) : Prop :=
  wd_now w < until -> exists r, wd_row w = Some r /\ lr_origin r = si_originId (lc_identity (cfg p)) /\ lr_holder r = p /\ lr_generation r = g /\ until <= lr_until r.

Record held (p : string) (x : Process) (w : World) : Prop := {
  hd_flight f c r : f ∈ pr_flights x -> fl_effect f = Some (c, Some r) -> claim p (lr_generation r) (lr_until r) w;
  hd_lease g u : sl_generation (pr_lease x) = Some g -> sl_safeUntil (pr_lease x) = Some u -> claim p g (u - offset p) w;
  hd_stop f g : f ∈ pr_flights x -> fl_what f <> Stopping g }.

Definition witnessed (w : World) : Prop := forall p, sl_stopped (pr_lease (process p w)) = false -> held p (process p w) w.

Lemma process_same p x w : process p (set_process p x w) = x.
Proof. unfold process, set_process. cbn. by rewrite lookup_insert_eq. Qed.
Lemma process_other p q x w : p <> q -> process p (set_process q x w) = process p w.
Proof. intros H. unfold process, set_process. cbn. by rewrite lookup_insert_ne. Qed.

(** Only the row and the time matter to a claim. *)
Lemma claim_later p g u w w' : wd_row w' = wd_row w -> wd_now w <= wd_now w' -> claim p g u w -> claim p g u w'.
Proof. intros Hr Hn H Hu. rewrite Hr. apply H. lia. Qed.

Lemma held_later p x w w' : wd_row w' = wd_row w -> wd_now w <= wd_now w' -> held p x w -> held p x w'.
Proof.
  intros Hr Hn [H1 H2 H3]. constructor; [|  |done].
  - intros f c r Hf He. eapply claim_later; [done..|by eapply H1].
  - intros g u Hg Hu. eapply claim_later; [done..|by apply H2].
Qed.

(** A process does something of its own. *)
Lemma witnessed_own p x w : witnessed w -> (sl_stopped (pr_lease x) = false -> held p x w) -> witnessed (set_process p x w).
Proof.
  intros Hw Hx q. destruct (decide (q = p)) as [->|Hne].
  - rewrite process_same. intros Hs. apply (held_later _ _ w); [done|cbn; lia|by apply Hx].
  - rewrite process_other by done. intros Hs. apply (held_later _ _ w); [done|cbn; lia|by apply Hw].
Qed.

(** A statement of [p] takes nothing from a lease that lasts, be it its own or another's. *)
Lemma execute_keeps p what s w q g u r : s <= wd_now w -> (forall r, wd_row w = Some r -> lr_holder r = p -> lr_until r <= s + ttl (cfg p)) ->
  execute p what s (wd_row w) = Some r -> (q = p -> forall g, what <> Stopping g) -> claim q g u w -> claim q g u (set_row (Some r) w).
Proof.
  intros Hs Hord Hx Hstop Hc Hu. cbn in Hu. destruct (Hc Hu) as (cur & Er & Ho & Hh & Hg & Hl). rewrite Er in Hx. exists r. split; [done|].
  specialize (Hord cur Er). destruct what as [|g'|g']; cbn [execute] in Hx.
  - unfold acquire in Hx. destruct (Z.leb_spec (lr_until cur) s); [lia|]. case_bool_decide as Hp; [|done]. cbn [orb andb] in Hx.
    specialize (Hord Hp). destruct (Z.ltb_spec s (lr_until cur)); [|lia]. injection Hx as <-. cbn. subst. split_and!; try done; lia.
  - unfold renew_row in Hx. destruct (held_by _ _ _ _ && _) eqn:E; [|done]. apply andb_true_iff in E as [E _]. unfold held_by in E.
    apply andb_true_iff in E as [[Eo%bool_decide_eq_true Eh%bool_decide_eq_true]%andb_true_iff Eg]. specialize (Hord Eh). injection Hx as <-. cbn. split_and!; try done; lia.
  - unfold release_row in Hx. destruct (held_by _ _ _ _) eqn:E; [|done]. unfold held_by in E.
    apply andb_true_iff in E as [[_ Eh%bool_decide_eq_true]%andb_true_iff _]. exfalso. by eapply Hstop; [congruence|].
Qed.

(** The row that a statement returns is a claim of its process. *)
Lemma execute_claims p what s w r : execute p what s (wd_row w) = Some r -> (forall g, what <> Stopping g) -> claim p (lr_generation r) (lr_until r) (set_row (Some r) w).
Proof.
  intros Hx Hstop _. exists r. split; [done|]. destruct what as [|g'|g']; cbn [execute] in Hx; [| |by destruct (Hstop g')].
  - unfold acquire in Hx. destruct (wd_row w) as [cur|]; [destruct (_ || _); [|done]|]; injection Hx as <-; cbn; split_and!; try done; lia.
  - unfold renew_row in Hx. destruct (wd_row w) as [cur|]; [|done]. destruct (held_by _ _ _ _ && _) eqn:E; [|done]. apply andb_true_iff in E as [E _]. unfold held_by in E.
    apply andb_true_iff in E as [[Eo%bool_decide_eq_true Eh%bool_decide_eq_true]%andb_true_iff Eg]. injection Hx as <-. cbn. split_and!; try done; lia.
Qed.

(** ** What the process believes *)

Definition claimed (p : string) (l : SiteLease) (w : World) : Prop :=
  forall g u, sl_generation l = Some g -> sl_safeUntil l = Some u -> claim p g (u - offset p) w.

Lemma schedule_claimed p delay now l w : claimed p l w -> claimed p (scheduleRenewal delay now l) w.
Proof. intros H. unfold scheduleRenewal. destruct (sl_stopped l); [done|]. destruct (sl_generation l) eqn:E; [|done]. intros g' u Hg. apply H. rewrite E. exact Hg. Qed.

Lemma lose_claimed p l w : claimed p l w -> claimed p (lose l).1 w.
Proof. unfold lose. destruct (sl_stopped l), (sl_generation l); done. Qed.

Lemma failed_claimed p now l w : claimed p l w -> claimed p (renew_failed now l).1 w.
Proof.
  intros H. unfold renew_failed. destruct (sl_safeUntil l); [destruct (_ <=? 0)|]; cbn [fst]; by first [apply lose_claimed|apply schedule_claimed].
Qed.

(** The local deadline is not later than the lease's end, where the answer came in time. *)
Lemma accept_claimed p c r l l' w : accept (cfg p) (returned c r) (local p w) l = Some l' -> wd_now w <= c + margin (cfg p) -> wd_now w + MS <= lr_until r ->
  claim p (lr_generation r) (lr_until r) w -> claimed p l' w.
Proof.
  intros Ha H1 H2 Hc. unfold accept in Ha. destruct (_ || _); [done|]. injection Ha as <-. intros g u Hg Hu. injection Hg as <-. injection Hu as <-.
  assert (deadline (cfg p) (returned c r) (local p w) - offset p <= lr_until r) as Hd.
  { assert (0 <= margin (cfg p)) by (unfold margin, MS; lia). unfold deadline, returned, local, MS in *. cbn [le_remaining le_generation]. lia. }
  intros Hu. destruct Hc as (row & Hr & Ho & Hh & Hg & Hl); [lia|]. exists row. split_and!; try done. lia.
Qed.

Lemma receive_claimed p what c r l w : wd_now w <= c + margin (cfg p) -> wd_now w + MS <= lr_until r -> claim p (lr_generation r) (lr_until r) w ->
  claimed p l w -> claimed p (receive p what (Some (Some (returned c r))) (local p w) l) w.
Proof.
  intros H1 H2 Hc Hl. destruct what as [|g|g]; [| |done]; cbn [receive start_end renew_end];
    destruct (accept _ _ _ l) as [l'|] eqn:Ea; cbn [fst snd]; try done; try (by apply schedule_claimed; eapply accept_claimed). by apply failed_claimed.
Qed.

(** An error, or no row. *)
Lemma receive_none p what answer l w : (answer = None \/ answer = Some None) -> claimed p l w -> claimed p (receive p what answer (local p w) l) w.
Proof. intros [-> | ->] Hl; destruct what; try done; cbn [receive renew_end]; by first [apply failed_claimed|apply lose_claimed]. Qed.

Lemma lose_stopped l : sl_stopped (lose l).1 = sl_stopped l.
Proof. unfold lose. destruct (sl_stopped l) eqn:E, (sl_generation l); by cbn. Qed.
Lemma schedule_stopped delay now l : sl_stopped (scheduleRenewal delay now l) = sl_stopped l.
Proof. unfold scheduleRenewal. destruct (sl_stopped l) eqn:E, (sl_generation l); by cbn. Qed.
Lemma accept_stopped c row now l l' : accept c row now l = Some l' -> sl_stopped l' = sl_stopped l.
Proof. unfold accept. destruct (_ || _); [done|]. by intros [= <-]. Qed.
Lemma failed_stopped now l : sl_stopped (renew_failed now l).1 = sl_stopped l.
Proof. unfold renew_failed. destruct (sl_safeUntil l); [destruct (_ <=? 0)|]; cbn [fst]; by rewrite ?lose_stopped, ?schedule_stopped. Qed.

Lemma receive_stopped p what answer now l : sl_stopped (receive p what answer now l) = sl_stopped l.
Proof.
  destruct what as [|g|g], answer as [[row|]|]; try done; cbn [receive start_end renew_end fst snd]; rewrite ?lose_stopped, ?failed_stopped; try done;
    (destruct (accept _ row now l) eqn:E; cbn [fst snd]; [by rewrite schedule_stopped, (accept_stopped _ _ _ _ _ E)|by rewrite ?failed_stopped]).
Qed.

(** The flights of a process change: those left are known, or carry no row yet. *)
Lemma held_flights p x y w : held p x w -> claimed p (pr_lease y) w ->
  (forall f, f ∈ pr_flights y -> (exists g, g ∈ pr_flights x /\ fl_what f = fl_what g /\ fl_effect f = fl_effect g) \/ (fl_effect f = None /\ forall g, fl_what f <> Stopping g)) ->
  held p y w.
Proof.
  intros [H1 H2 H3] Hl Hf. constructor; [|done|].
  - intros f c r Hin He. destruct (Hf f Hin) as [(g & Hg & _ & Hx)|[Hx _]]; [|congruence]. eapply H1; [done|by rewrite <- Hx].
  - intros f g Hin. destruct (Hf f Hin) as [(f' & Hg & -> & _)|[_ Hx]]; [by apply H3|by apply Hx].
Qed.

Lemma elem_snoc {A} (x y : A) l : x ∈ l ++ [y] -> x ∈ l \/ x = y.
Proof. rewrite elem_of_app, list_elem_of_singleton. done. Qed.

Lemma effect_keeps p i what s w q g u : sequential w (Effect p i s) -> (q = p -> forall g, what <> Stopping g) -> claim q g u w ->
  claim q g u (set_row (match execute p what s (wd_row w) with Some r => Some r | None => wd_row w end) w).
Proof.
  intros [Hs Hord] Hstop Hc. destruct (execute p what s (wd_row w)) as [r|] eqn:E; [by eapply execute_keeps|]. by eapply claim_later; [| |exact Hc].
Qed.

(** A statement takes effect, seen by a process that keeps its belief. *)
Lemma effect_held p i what s w q x : sequential w (Effect p i s) -> (q = p -> forall g, what <> Stopping g) -> held q x w ->
  held q x (set_row (match execute p what s (wd_row w) with Some r => Some r | None => wd_row w end) w).
Proof.
  intros Hseq Hstop [H1 H2 H3]. constructor; [| |done].
  - intros f c r Hf He. eapply effect_keeps; [done..|by eapply H1].
  - intros g u Hg Hu. eapply effect_keeps; [done..|by apply H2].
Qed.

Lemma held_claimed p x w : held p x w -> claimed p (pr_lease x) w.
Proof. intros [_ H _]. exact H. Qed.

Lemma effect_witnessed p i s w : witnessed w -> sequential w (Effect p i s) -> witnessed (step w (Effect p i s)).
Proof.
  intros Hw Hseq. cbn [step]. destruct (pr_flights _ !! i) as [[what [eff|] waited]|] eqn:Ef; [done| |done].
  set (w' := set_row (match execute p what s (wd_row w) with Some r => Some r | None => wd_row w end) w). intros q. destruct (decide (q = p)) as [->|Hne].
  - rewrite process_same. intros Hs. assert (forall g, what <> Stopping g) as Hst.
    { intros g. apply (hd_stop _ _ _ (Hw p Hs) _ g (list_elem_of_lookup_2 _ _ _ Ef)). }
    apply (held_later _ _ w'); [done|cbn; lia|].
    destruct (effect_held p i what s w p _ Hseq (fun _ => Hst) (Hw p Hs)) as [K1 K2 K3]. constructor; [|done|].
    + intros f c r Hf He. apply list_elem_of_lookup in Hf as [j Hj]. cbn in Hj. apply list_lookup_insert_Some in Hj as [(-> & <- & _)|[_ Hj]];
        [|by eapply K1; [eapply list_elem_of_lookup_2|]]. cbn in He. injection He as _ He. unfold w'. rewrite He. by eapply execute_claims.
    + intros f g Hf. apply list_elem_of_lookup in Hf as [j Hj]. cbn in Hj. apply list_lookup_insert_Some in Hj as [(-> & <- & _)|[_ Hj]];
        [apply Hst|by eapply K3, list_elem_of_lookup_2].
  - rewrite process_other by done. intros Hs. apply (held_later _ _ w'); [done|cbn; lia|]. apply (effect_held p i); [done| |by apply Hw]. congruence.
Qed.

Lemma answered_witnessed p i arrived w : witnessed w -> prompt w (Answered p i arrived) -> witnessed (step w (Answered p i arrived)).
Proof.
  intros Hw Hp. cbn [step]. destruct (pr_flights _ !! i) as [[what eff [|]]|] eqn:Ef; [|done..]. pose proof (list_elem_of_lookup_2 _ _ _ Ef) as Hin.
  destruct (if arrived then eff else None) as [[c r]|] eqn:Ee.
  - destruct arrived; [|done]. subst eff. apply witnessed_own; [done|]. cbn. rewrite receive_stopped. intros Es. pose proof (Hw p Es) as Hh.
    apply (held_flights _ (process p w)); [done| |].
    + destruct r as [r|]; [|apply receive_none; [by right|by apply held_claimed]]. destruct (Hp _ _ _ Ef eq_refl) as [P1 P2].
      apply receive_claimed; [done..| |by apply held_claimed]. by eapply hd_flight.
    + cbn. intros f Hf. left. exists f. split; [|done]. by eapply list_elem_of_delete_inv.
  - destruct arrived; [done|]. apply witnessed_own; [done|]. cbn. rewrite receive_stopped. intros Es. pose proof (Hw p Es) as Hh.
    apply (held_flights _ (process p w)); [done|apply receive_none; [by left|by apply held_claimed]|].
    cbn. intros f Hf. left. apply list_elem_of_lookup in Hf as [j Hj]. apply list_lookup_insert_Some in Hj as [(-> & <- & _)|[_ Hj]];
      [by eexists|exists f; split; [by eapply list_elem_of_lookup_2|done]].
Qed.

Lemma step_witnessed w e : witnessed w -> sequential w e -> prompt w e -> witnessed (step w e).
Proof.
  intros Hw Hseq Hp. destruct e as [dt|p|p|p|p|p i s|p i arrived];
    [..|by apply effect_witnessed|by apply answered_witnessed]; cbn [step].
  - intros q Hs. apply (held_later _ _ w); [done|cbn in *; lia|by apply Hw].
  - unfold start. destruct (sl_stopped _) eqn:Es; [done|]. destruct (sl_generation _) eqn:Eg; [done|]. apply witnessed_own; [done|]. intros _.
    apply (held_flights _ (process p w)); [by apply Hw| by intros g u [=]|]. cbn. intros f [Hf| ->]%elem_snoc; [left; by exists f|by right].
  - destruct (sl_stopped _) eqn:Es; [done|]. destruct (sl_generation _) eqn:Eg; [|done]. apply witnessed_own; [done|]. intros _.
    apply (held_flights _ (process p w)); [by apply Hw|by apply (held_claimed _ (process p w)), Hw|]. cbn. intros f [Hf| ->]%elem_snoc; [left; by exists f|by right].
  - apply witnessed_own; [done|]. cbn. rewrite lose_stopped. intros Es. apply (held_flights _ (process p w)); [by apply Hw| |].
    + by apply lose_claimed, (held_claimed _ (process p w)), Hw.
    + intros f Hf. left. by exists f.
  - unfold stop. destruct (sl_stopped _) eqn:Es; apply witnessed_own; try done; cbn; congruence.
Qed.

Lemma reach_witnessed w : reach w -> witnessed w.
Proof.
  induction 1; [|by apply step_witnessed]. intros p _. constructor; cbn; [by intros f c r ?%elem_of_nil|done|by intros f g ?%elem_of_nil].
Qed.

(** What a process that leads relies on. *)
Lemma leader_claim w p : reach w -> leads p w = true -> exists g r, sl_generation (pr_lease (process p w)) = Some g /\ wd_row w = Some r /\
  lr_origin r = si_originId (lc_identity (cfg p)) /\ lr_holder r = p /\ lr_generation r = g /\ wd_now w < lr_until r.
Proof.
  intros Hw Hl. unfold leads, active in Hl. apply andb_true_iff in Hl as [Hs Hl]. apply negb_true_iff in Hs.
  destruct (sl_generation _) as [g|] eqn:Eg; [|done]. destruct (sl_safeUntil _) as [u|] eqn:Eu; [|done]. apply Z.ltb_lt in Hl.
  destruct (hd_lease _ _ _ (reach_witnessed w Hw p Hs) g u Eg Eu) as (r & Hr & Ho & Hh & Hg & Hu); unfold local in *; [lia|].
  exists g, r. split_and!; try done. lia.
Qed.

(** C27: At every moment at most one process leads a site, as long as the
    database answers within the margin: a process that takes itself for the
    leader, by its own clock, is the holder in the row of the database, whose
    lease has not ended, its fence names the generation that stands there,
    traffic is let through for its origin only, and every other process that
    leads is the same one. The clocks of the processes may differ. *)
Theorem one_leader_at_a_time w p : reach w -> leads p w = true -> exists r, wd_row w = Some r /\ lr_holder r = p /\ wd_now w < lr_until r /\
  fence (cfg p) p (local p w) (pr_lease (process p w)) = Some {| sf_identity := lc_identity (cfg p); sf_holderId := p; sf_generation := lr_generation r |} /\
  (forall identity, traffic identity true (wd_now w) (wd_row w) = bool_decide (si_originId identity = si_originId (lc_identity (cfg p)))) /\
  forall q, leads q w = true -> q = p.
Proof.
  intros Hw Hl. destruct (leader_claim w p Hw Hl) as (g & r & Hg & Hr & Ho & Hh & Hgen & Hu). exists r. split_and!; try done.
  - unfold fence. change (active _ _) with (leads p w). rewrite Hl, Hg, Hgen. done.
  - intros identity. unfold traffic. rewrite Hr, Ho. apply Z.ltb_lt in Hu. rewrite Hu, andb_true_r. by apply bool_decide_ext.
  - intros q Hq. destruct (leader_claim w q Hw Hq) as (g' & r' & _ & Hr' & _ & Hh' & _). congruence.
Qed.

(** Generations grow, and with every new holder. *)
Lemma execute_generation p what s cur r : execute p what s (Some cur) = Some r ->
  lr_generation cur <= lr_generation r /\ (lr_holder r <> lr_holder cur -> lr_generation cur < lr_generation r).
Proof.
  destruct what as [|g|g]; cbn [execute acquire renew_row release_row].
  - destruct (_ || _); [|done]. intros [= <-]. cbn. case_bool_decide as E; cbn [andb]; [destruct (s <? lr_until cur)|]; split; try lia; congruence.
  - destruct (held_by _ _ _ _ && _); [|done]. intros [= <-]. by cbn.
  - destruct (held_by _ _ _ _); [|done]. intros [= <-]. by cbn.
Qed.

Lemma step_row w e : wd_row (step w e) = wd_row w \/ exists p what s r, execute p what s (wd_row w) = Some r /\ wd_row (step w e) = Some r.
Proof.
  destruct e as [dt|p|p|p|p|p i s|p i arrived]; cbn [step]; [by left| | |by left| | |].
  - left. by destruct (start (pr_lease (process p w))).
  - left. by destruct (sl_stopped (pr_lease (process p w))), (sl_generation (pr_lease (process p w))).
  - left. by destruct (stop (pr_lease (process p w))).
  - destruct (pr_flights (process p w) !! i) as [[what [|] ?]|]; [by left| |by left]. cbn. destruct (execute p what s (wd_row w)) as [r|] eqn:E; [|by left].
    right. by exists p, what, s, r.
  - left. destruct (pr_flights (process p w) !! i) as [[what eff [|]]|]; [|done..]. destruct (if arrived then eff else None) as [[]|]; [done|]. by destruct arrived.
Qed.

Lemma step_generation w e cur : wd_row w = Some cur -> exists r, wd_row (step w e) = Some r /\
  lr_generation cur <= lr_generation r /\ (lr_holder r <> lr_holder cur -> lr_generation cur < lr_generation r).
Proof.
  intros Hr. destruct (step_row w e) as [-> |(p & what & s & r & Hx & ->)].
  - exists cur. split_and!; done || lia.
  - exists r. split; [done|]. rewrite Hr in Hx. by eapply execute_generation.
Qed.
End world.

(** ** Two origins *)

Module Demo.

Definition lease_of (origin : string) : SiteLeaseConfig :=
  {| lc_identity := {| si_siteId := "campus"; si_originId := origin |}; lc_ttlMs := 15000; lc_renewMs := 5000 |}.
Definition cfg (p : string) : SiteLeaseConfig := lease_of (if bool_decide (p = "a") then "edge-a" else "edge-b").
(** The clock of [b] is an hour ahead. *)
Definition offset (p : string) : Z := if bool_decide (p = "b") then 3600000000 else 0.
Definition run (w : World) (l : list Event) : World := fold_left (step cfg offset) l w.

Definition first : list Event := [Start "a"; Effect "a" 0 0; Pass 2000; Answered "a" 0 true].
Definition begun : World := run (new_world 0) first.

Example the_second_waits : let w := run begun [Start "b"; Effect "b" 0 2000; Answered "b" 0 true] in
  leads offset "a" w = true /\ leads offset "b" w = false.
Proof. by vm_compute. Qed.

(** One that is gone is followed after its lease, a generation later. *)
Example a_successor : let w := run begun [Pass 14998000; Start "b"; Effect "b" 0 15000000; Answered "b" 0 true] in
  leads offset "a" w = false /\ leads offset "b" w = true /\ (lr_generation <$> wd_row w) = Some 2.
Proof. by vm_compute. Qed.

(** And one that stops, at once. *)
Example a_handover : let w := run begun [Stop "a"; Effect "a" 0 2000; Start "b"; Effect "b" 0 2000; Answered "b" 0 true] in
  leads offset "a" w = false /\ leads offset "b" w = true.
Proof. by vm_compute. Qed.

(** The time that remains is that of when the row was written, and it is counted
    from when the answer arrives: after an answer that took longer than the
    margin, two processes lead. *)
Example late_answer_makes_two_leaders :
  let w := run (new_world 0) [Start "a"; Effect "a" 0 0; Pass 14000000; Answered "a" 0 true; Pass 1000000; Start "b"; Effect "b" 0 15000000; Answered "b" 0 true] in
  leads offset "a" w = true /\ leads offset "b" w = true.
Proof. by vm_compute. Qed.

(** The renewal that was answered after the loss makes the process lead again,
    and nothing tells of the next loss: [onLost] is gone. *)
Example revived_after_loss :
  let w := run begun [RenewTimer "a"; Effect "a" 0 2000; Pass 14000000; ExpiryTimer "a"; Pass 500000; Answered "a" 0 true] in
  leads offset "a" w = true /\ (lose (pr_lease (process "a" w))).2 = false.
Proof. by vm_compute. Qed.

Lemma begun_reached : reach cfg offset begun.
Proof.
  unfold begun, run, first. cbn [fold_left]. repeat apply reach_step; try exact I; [apply reach_new|split; [done|]|cbn; lia|].
  - intros r Hr. vm_compute in Hr. done.
  - intros f c r Hf He. vm_compute in Hf. injection Hf as <-. injection He as <- <-. split; apply Z.leb_le; by vm_compute.
Qed.

Lemma one_leader_at_a_time_witness : exists r, wd_row begun = Some r /\ lr_holder r = "a" /\ lr_generation r = 1 /\ forall q, leads offset q begun = true -> q = "a".
Proof.
  destruct (one_leader_at_a_time cfg offset begun "a" begun_reached eq_refl) as (r & Hr & Hh & _ & _ & _ & Hq). exists r. split; [done|]. split; [done|].
  split; [|done]. vm_compute in Hr. injection Hr as <-. done.
Defined.
End Demo.
