(* ===== verification/SharedReplay.v ===== *)
(** The replay state that several origins share: the packet cursors and the
    command counter of PostgreSQL behind the fence of the site's leader
    (src/infrastructure/postgres/replay-store.ts), the handshakes of gateways
    that were admitted (src/infrastructure/postgres/hello-replay-store.ts and the
    file src/edge/hello-replay.ts), and the import of a journal
    (src/infrastructure/postgres/replay-import.ts).

    The tables are maps; a statement is what it does to them, at one moment,
    together with the row of the site. *)

From S2P Require Import Prelude Json Secure Replay Failover.

(** A handshake is [(id, nonce)]; what is kept of it is when it expires, in
    milliseconds. *)
Record Shared := { sh_cursors : gmap string Cursor; sh_command : option Z; sh_hellos : gmap (string * string) Z }.

(** @infrastructure/postgres/replay-store.ts 14-18 PostgresReplayStore *)
Record PostgresReplayStore := { prs_cursors : gmap string Cursor; prs_commandSeq : Z }.

(** [Err] of a sentence that a person reads is what the code throws. *)
Definition FENCED : string := "site leadership is not active".

(** @infrastructure/postgres/replay-store.ts 20-38 open *)
Definition open (sh : Shared) : result string PostgresReplayStore :=
  throw_if Nat.ltb 5000 (size (sh_cursors sh)) with "replay cursor node limit exceeded" in
  throw_if negb (forallb (fun r => is_uid r.1 && is_u32 (boot r.2) && is_u32 (seq r.2)) (map_to_list (sh_cursors sh))) with "invalid PostgreSQL replay cursor" in
  let sequence := default 0 (sh_command sh) in
  throw_if negb (is_u32 sequence) with "invalid PostgreSQL command cursor" in
  Ok {| prs_cursors := sh_cursors sh; prs_commandSeq := sequence |}.

(** What a statement is guarded with: nothing, where there is no fence
    ([provider] is [None]), or the fence the provider returned.
    @infrastructure/postgres/replay-store.ts 129-143 guard *)
Definition guard (provider : option (option SiteFence)) : result string (option SiteFence) :=
  match provider with
  | None => Ok None
  | Some None => Err FENCED
  | Some (Some fence) => Ok (Some fence)
  end.

(** And what the guard is worth when the statement runs: [row] is the row of the
    site that the fence names.
    @infrastructure/postgres/replay-store.ts 134-140 guard *)
Definition lease_guard (fence : option SiteFence) (s : Z) (row : option Row) : bool :=
  match fence, row with
  | None, _ => true
  | Some f, Some r => held_by (si_originId (sf_identity f)) (sf_holderId f) (sf_generation f) r && (s <? lr_until r)
  | Some _, None => false
  end.

(** @infrastructure/postgres/replay-store.ts 125-127 validate *)
Definition validate (uid : string) (c : Cursor) : bool := is_uid uid && is_u32 (boot c) && is_u32 (seq c).

Inductive Request := Accept (uid : string) (c : Cursor) (commandSeq : option Z) | Allocate (floor : Z) | Forget (uid : string).
Inductive Answer :=
| Accepted (fenced accepted : bool) (command_sequence : Z) | Allocated (fenced : bool) (sequence : option Z) | Deleted (fenced reset : bool).

(** What comes before the statement.
    @infrastructure/postgres/replay-store.ts 44-47 acceptAsync *)
Definition send (provider : option (option SiteFence)) (r : Request) : result string (option SiteFence) :=
  match r with
  | Accept uid c n =>
      throw_if negb (validate uid c) with "invalid replay cursor" in
      throw_if match n with Some n => negb (is_u32 n) | None => false end with "invalid command cursor" in
      guard provider
  | Allocate floor => throw_if negb (is_u32 floor) with "invalid command cursor floor" in guard provider
  | Forget uid => throw_if negb (is_uid uid) with "invalid node uid" in guard provider
  end.

Definition newer (c d : Cursor) : bool := (boot d <? boot c) || ((boot c =? boot d) && (seq d <? seq c)).

(** [INSERT ... ON CONFLICT (uid) DO UPDATE ... WHERE]: the row, if there is one
    to write.
    @infrastructure/postgres/replay-store.ts 50-56 acceptAsync *)
Definition cursor_write (uid : string) (c : Cursor) (sh : Shared) : option Shared :=
  if match sh_cursors sh !! uid with Some cur => newer c cur | None => true end
  then Some {| sh_cursors := <[uid := c]> (sh_cursors sh); sh_command := sh_command sh; sh_hellos := sh_hellos sh |} else None.

(** [greatest(current.sequence, n)] *)
Definition raise_command (n : Z) (sh : Shared) : Shared :=
  {| sh_cursors := sh_cursors sh; sh_command := Some (match sh_command sh with Some cur => Z.max cur n | None => n end); sh_hellos := sh_hellos sh |}.

(** @infrastructure/postgres/replay-store.ts 48-69 acceptAsync *)
Definition accept_sql (fenced : bool) (uid : string) (c : Cursor) (n : option Z) (sh : Shared) : Answer * Shared :=
  let before := default 0 (sh_command sh) in
  match (if fenced then cursor_write uid c sh else None), n with
  | Some sh, Some n => let sh := raise_command n sh in (Accepted fenced true (default 0 (sh_command sh)), sh)
  | Some sh, None => (Accepted fenced true before, sh)
  | None, _ => (Accepted fenced false before, sh)
  end.

(** [Err]: the number does not fit the column, and nothing is written.
    @infrastructure/postgres/replay-store.ts 86-96 allocateCommandSeq *)
Definition allocate_sql (fenced : bool) (floor : Z) (sh : Shared) : result string Answer * Shared :=
  if fenced then
    let n := match sh_command sh with Some cur => Z.max floor (cur + 1) | None => floor end in
    if is_u32 n then (Ok (Allocated true (Some n)), {| sh_cursors := sh_cursors sh; sh_command := Some n; sh_hellos := sh_hellos sh |})
    else (Err "ingest_command_cursor_sequence_check", sh)
  else (Ok (Allocated false None), sh).

(** @infrastructure/postgres/replay-store.ts 111-119 resetAsync *)
Definition reset_sql (fenced : bool) (uid : string) (sh : Shared) : Answer * Shared :=
  (Deleted fenced (fenced && bool_decide (is_Some (sh_cursors sh !! uid))),
   if fenced then {| sh_cursors := delete uid (sh_cursors sh); sh_command := sh_command sh; sh_hellos := sh_hellos sh |} else sh).

Definition run_sql (fenced : bool) (r : Request) (sh : Shared) : result string Answer * Shared :=
  match r with
  | Accept uid c n => let (a, sh) := accept_sql fenced uid c n sh in (Ok a, sh)
  | Allocate floor => allocate_sql fenced floor sh
  | Forget uid => let (a, sh) := reset_sql fenced uid sh in (Ok a, sh)
  end.

(** What a caller is told: nothing, a command number, whether there was a cursor. *)
Inductive Told := Done | Number (n : Z) | Existed (b : bool).

(** @infrastructure/postgres/replay-store.ts 70-76 acceptAsync *)
Definition accepted (uid : string) (c : Cursor) (fenced accepted : bool) (n : Z) (st : PostgresReplayStore) : PostgresReplayStore * result string Told :=
  if negb fenced then (st, Err "site leadership changed before replay state committed")
  else if negb accepted then (st, Err "replayed or duplicate sequence")
  else if negb (is_u32 n) then (st, Err "invalid PostgreSQL command cursor")
  else ({| prs_cursors := <[uid := c]> (prs_cursors st); prs_commandSeq := Z.max (prs_commandSeq st) n |}, Ok Done).

(** @infrastructure/postgres/replay-store.ts 97-101 allocateCommandSeq *)
Definition allocated (fenced : bool) (n : option Z) (st : PostgresReplayStore) : PostgresReplayStore * result string Told :=
  if negb fenced then (st, Err "site leadership changed before command allocation")
  else
    let sequence := default 0 n in
    if is_u32 sequence then ({| prs_cursors := prs_cursors st; prs_commandSeq := Z.max (prs_commandSeq st) sequence |}, Ok (Number sequence))
    else (st, Err "command sequence exhausted").

(** @infrastructure/postgres/replay-store.ts 120-122 resetAsync *)
Definition deleted (uid : string) (fenced reset : bool) (st : PostgresReplayStore) : PostgresReplayStore * result string Told :=
  if negb fenced then (st, Err "site leadership changed before cursor reset")
  else ({| prs_cursors := delete uid (prs_cursors st); prs_commandSeq := prs_commandSeq st |}, Ok (Existed reset)).

(** A request from its start to its answer, the statement at [s] when the row of
    the site is [row].
    @infrastructure/postgres/replay-store.ts 83-102 allocateCommandSeq *)
Definition request (provider : option (option SiteFence)) (s : Z) (row : option Row) (r : Request) (sh : Shared) (st : PostgresReplayStore) :
    Shared * PostgresReplayStore * result string Told :=
  match send provider r with
  | Err e => (sh, st, Err e)
  | Ok fence =>
      let '(answer, sh) := run_sql (lease_guard fence s row) r sh in
      let '(st, told) :=
        match answer, r with
        | Err e, _ => (st, Err e)
        | Ok (Accepted f a n), Accept uid c _ => accepted uid c f a n st
        | Ok (Allocated f n), _ => allocated f n st
        | Ok (Deleted f b), Forget uid => deleted uid f b st
        | Ok _, _ => (st, Err EmptyString)
        end in
      (sh, st, told)
  end.

(** ** Handshakes *)

(** @infrastructure/postgres/hello-replay-store.ts 8-8 WINDOW_MS *)
Definition WINDOW_MS : Z := 60000.

Definition set_hellos (h : gmap (string * string) Z) (sh : Shared) : Shared :=
  {| sh_cursors := sh_cursors sh; sh_command := sh_command sh; sh_hellos := h |}.

(** [DELETE ... WHERE expires_at < statement_timestamp()] *)
Definition unexpired (s : Z) (h : gmap (string * string) Z) : gmap (string * string) Z := filter (fun p => s <= p.2 * MS) h.
(** [SELECT count( * ) ... WHERE expires_at >= statement_timestamp()] *)
Definition live (s : Z) (h : gmap (string * string) Z) : nat := size (unexpired s h).

(** When the statements of a transaction start: the first, the one that deletes,
    and the rest. *)
Record Times := { tm_read : Z; tm_delete : Z; tm_count : Z }.

(** The transaction; what it wrote is kept where it does not roll back.
    @infrastructure/postgres/hello-replay-store.ts 14-65 accept *)
Definition hello_accept (provider : option (option SiteFence)) (t : Times) (row : option Row) (id nonce : string) (expires : Z) (sh : Shared) :
    Shared * result string bool :=
  if negb (is_name 64 id) || negb (is_name 128 nonce) || negb (expires <=? max_safe) || (expires <? 0) then (sh, Ok false)
  else
    match guard provider with
    | Err e => (sh, Err e)
    | Ok fence =>
        if negb (lease_guard fence (tm_read t) row) then (sh, Err "site leadership changed before gateway admission")
        else
          let helloAt := expires - WINDOW_MS in
          if (WINDOW_MS * MS <? Z.abs (tm_read t - helloAt * MS)) || (expires * MS <=? tm_read t) then (sh, Ok false)
          else
            let h := unexpired (tm_delete t) (sh_hellos sh) in
            if Nat.leb (Z.to_nat 4096) (live (tm_count t) h) then (sh, Ok false)
            else match h !! (id, nonce) with
                 | Some _ => (set_hellos h sh, Ok false)
                 | None => (set_hellos (<[(id, nonce) := expires]> h) sh, Ok true)
                 end
    end.

(** ** The import of a journal *)

(** @edge/hello-replay.ts 8-11 HelloReplaySnapshot *)
Record HelloReplaySnapshot := { hs_highWater : Z; hs_nonces : list (string * Z) }.

(** [key.slice(0, separator)] and [key.slice(separator + 1)].
    @infrastructure/postgres/replay-import.ts 27-31 importLegacyReplayState *)
Definition hello_row (entry : string * Z) : result string (string * string * Z) :=
  match String.index 0 "|" entry.1 with
  | Some (S n) => Ok (String.substring 0 (S n) entry.1, String.substring (S (S n)) (String.length entry.1 - S (S n)) entry.1, entry.2)
  | _ => Err "gateway replay snapshot is invalid"
  end.

Fixpoint hello_rows (l : list (string * Z)) : result string (list (string * string * Z)) :=
  match l with [] => Ok [] | e :: l => let! r := hello_row e in let! rs := hello_rows l in Ok (r :: rs) end.

(** @infrastructure/postgres/replay-import.ts 47-57 importLegacyReplayState *)
Definition import_cursors (c : list (string * Cursor)) (sh : Shared) : Shared :=
  fold_left (fun sh p => default sh (cursor_write p.1 p.2 sh)) c sh.

(** @infrastructure/postgres/replay-import.ts 66-76 importLegacyReplayState *)
Definition import_hellos (s : Z) (rows : list (string * string * Z)) (h : gmap (string * string) Z) : gmap (string * string) Z :=
  fold_left (fun h r => if s <? r.2 * MS then <[r.1 := match h !! r.1 with Some cur => Z.max cur r.2 | None => r.2 end]> h else h) rows h.

(** In the times of a transaction, [tm_count] is also when the handshakes are
    imported. The first part of the result is what is committed.
    @infrastructure/postgres/replay-import.ts 19-93 importLegacyReplayState *)
Definition importLegacyReplayState (t : Times) (row : option Row) (siteId : string) (replay : ReplaySnapshot) (hellos : HelloReplaySnapshot) (sh : Shared) :
    Shared * result string (nat * Z * nat) :=
  if negb (SITE_ID siteId) then (sh, Err "FAILOVER_SITE_ID is invalid")
  else
    match hello_rows (hs_nonces hellos) with
    | Err e => (sh, Err e)
    | Ok rows =>
        if match row with Some r => tm_read t <? lr_until r | None => false end then (sh, Err "stop the active site owner before importing replay state")
        else
          let sh1 := raise_command (sn_commandSeq replay) (import_cursors (sn_cursors replay) sh) in
          let h := import_hellos (tm_count t) rows (unexpired (tm_delete t) (sh_hellos sh1)) in
          let n := live (tm_count t) h in
          if Nat.ltb (Z.to_nat 4096) n then (sh, Err "gateway replay capacity would be exceeded")
          else (set_hellos h sh1, Ok (length (sn_cursors replay), sn_commandSeq replay, n))
    end.

(** ** The file of handshakes *)

Section file.
Context {jt : JsonText}.

Definition hello_key_ok (k : string) : bool :=
  match split_on (Ascii.ascii_of_nat 124) k with [id; nonce] => is_name 64 id && is_name 128 nonce | _ => false end.

(** [bytes] is the length of the file.
    An entry whose first part is not a text is refused here; the code tests the
    text of an array, too.
    @edge/hello-replay.ts 14-27 readHelloReplaySnapshot *)
Definition readHelloReplaySnapshot (bytes : Z) (text : list Z) : result string HelloReplaySnapshot :=
  throw_if 2 * 1024 * 1024 <? bytes with "HELLO journal too large" in
  match json_parse text with
  | None => Err "SyntaxError"
  | Some JNull => Err "TypeError"
  | Some v =>
      let value := default [] (as_object v) in
      let entry v := l ← as_array v; match l with [JStr k; e] => n ← as_safe_integer e; if hello_key_ok k && (0 <=? n) then Some (k, n) else None | _ => None end in
      match field "version" value ≫= as_integer, field "highWater" value ≫= as_safe_integer, field "nonces" value ≫= as_array with
      | Some 1, Some highWater, Some l =>
          match mapM entry l with
          | Some nonces =>
              if (highWater <? 0) || Nat.ltb (Z.to_nat 4096) (length l) || negb (bool_decide (NoDup (map fst nonces)))
              then Err "invalid HELLO journal" else Ok {| hs_highWater := highWater; hs_nonces := nonces |}
          | None => Err "invalid HELLO journal"
          end
      | _, _, _ => Err "invalid HELLO journal"
      end
  end.

(** A missing file is an empty one.
    @edge/hello-replay.ts 32-39 read *)
Definition read_hellos (found : option (Z * list Z)) : result string HelloReplaySnapshot :=
  match found with None => Ok {| hs_highWater := 0; hs_nonces := [] |} | Some (bytes, text) => readHelloReplaySnapshot bytes text end.
End file.

(** Under the lock of the file, on what was read; the second part is what is
    written.
    @edge/hello-replay.ts 40-50 accept *)
Definition file_accept (key : string) (expires now : Z) (v : HelloReplaySnapshot) : bool * option HelloReplaySnapshot :=
  if now <? hs_highWater v then (false, None)
  else
    let entries := List.filter (fun p => now <=? p.2) (hs_nonces v) in
    if om_has key entries || Nat.leb (Z.to_nat 4096) (length entries) then (false, None)
    else (true, Some {| hs_highWater := now; hs_nonces := om_set key expires entries |}).

(** ** Several origins at work *)

(** What became of a request, newest first, and behind which fence. *)
Inductive What :=
| Packet (uid : string) (c : Cursor) (command : option Z) | Command (n : Z) | Forgot (uid : string)
| Hello (id nonce : string) (expires read commit : Z).
Record Entry := { en_fence : option SiteFence; en_what : What }.
Record System := { sy_world : World; sy_shared : Shared; sy_log : list Entry }.

Inductive Act :=
| Lead (e : Failover.Event) | Ask (provider : option (option SiteFence)) (s : Z) (r : Request)
| Greet (provider : option (option SiteFence)) (t : Times) (id nonce : string) (expires : Z)
| Seed (t : Times) (siteId : string) (replay : ReplaySnapshot) (hellos : HelloReplaySnapshot).

Definition what_of (r : Request) (a : result string Answer) : list What :=
  match r, a with
  | Accept uid c n, Ok (Accepted _ true _) => [Packet uid c n]
  | Allocate _, Ok (Allocated _ (Some n)) => [Command n]
  | Forget uid, Ok (Deleted true _) => [Forgot uid]
  | _, _ => []
  end.

Section system.
Context (cfg : string -> SiteLeaseConfig) (offset : string -> Z).

Definition row_of (y : System) : option Row := wd_row (sy_world y).
Definition now_of (y : System) : Z := wd_now (sy_world y).

Definition act (y : System) (a : Act) : System :=
  match a with
  | Lead e => {| sy_world := Failover.step cfg offset (sy_world y) e; sy_shared := sy_shared y; sy_log := sy_log y |}
  | Ask provider s r =>
      match send provider r with
      | Err _ => y
      | Ok fence =>
          let '(answer, sh) := run_sql (lease_guard fence s (row_of y)) r (sy_shared y) in
          {| sy_world := sy_world y; sy_shared := sh; sy_log := map (fun w => {| en_fence := fence; en_what := w |}) (what_of r answer) ++ sy_log y |}
      end
  | Greet provider t id nonce expires =>
      let '(sh, answer) := hello_accept provider t (row_of y) id nonce expires (sy_shared y) in
      {| sy_world := sy_world y; sy_shared := sh;
         sy_log := match answer, provider with
                   | Ok true, Some f => [{| en_fence := f; en_what := Hello id nonce expires (tm_read t) (now_of y) |}]
                   | Ok true, None => [{| en_fence := None; en_what := Hello id nonce expires (tm_read t) (now_of y) |}]
                   | _, _ => []
                   end ++ sy_log y |}
  | Seed t siteId replay hellos =>
      {| sy_world := sy_world y; sy_shared := (importLegacyReplayState t (row_of y) siteId replay hellos (sy_shared y)).1; sy_log := sy_log y |}
  end.

(** The statements of a transaction start in order, and before it ends. *)
Definition in_time (t : Times) (y : System) : Prop := tm_read t <= tm_delete t <= tm_count t /\ tm_count t <= now_of y.
Definition possible (y : System) (a : Act) : Prop :=
  match a with
  | Lead e => sequential cfg (sy_world y) e
  | Ask _ s _ => s <= now_of y
  | Greet _ t _ _ _ | Seed t _ _ _ => in_time t y
  end.

(** Every history that starts with an empty database; nothing is asked of how
    soon the database answers. *)
Inductive history : System -> Prop :=
| history_new t : history {| sy_world := new_world t; sy_shared := {| sh_cursors := ∅; sh_command := None; sh_hellos := ∅ |}; sy_log := [] |}
| history_act y a : history y -> possible y a -> history (act y a).

Definition number_of (w : What) : option Z := match w with Packet _ _ n => n | Command n => Some n | _ => None end.

(** [e2] came after [e1], with [l] between them. *)
Record follows (e1 : Entry) (l : list Entry) (e2 : Entry) : Prop := {
  fo_fence f1 f2 : en_fence e1 = Some f1 -> en_fence e2 = Some f2 -> sf_generation f1 <= sf_generation f2 /\ (sf_generation f1 = sf_generation f2 -> sf_holderId f1 = sf_holderId f2);
  fo_packet uid c1 c2 n1 n2 : en_what e1 = Packet uid c1 n1 -> en_what e2 = Packet uid c2 n2 -> Forgot uid ∉ map en_what l -> newer c2 c1 = true;
  fo_command n1 n2 : number_of (en_what e1) = Some n1 -> en_what e2 = Command n2 -> n1 < n2;
  fo_hello id nonce x r1 m1 r2 m2 : en_what e1 = Hello id nonce x r1 m1 -> en_what e2 = Hello id nonce x r2 m2 -> r2 < x * MS < m2 }.

Definition in_order (log : list Entry) : Prop := forall l0 e2 l e1 l1, log = l0 ++ e2 :: l ++ e1 :: l1 -> follows e1 l e2.

Record sound (y : System) : Prop := {
  so_order : in_order (sy_log y);
  so_fence e f : e ∈ sy_log y -> en_fence e = Some f ->
    exists r, row_of y = Some r /\ sf_generation f <= lr_generation r /\ (sf_generation f = lr_generation r -> sf_holderId f = lr_holder r);
  so_packet l e uid c n l1 : sy_log y = l ++ e :: l1 -> en_what e = Packet uid c n -> Forgot uid ∉ map en_what l ->
    exists cur, sh_cursors (sy_shared y) !! uid = Some cur /\ (cur = c \/ newer cur c = true);
  so_command e n : e ∈ sy_log y -> number_of (en_what e) = Some n -> exists m, sh_command (sy_shared y) = Some m /\ n <= m;
  so_hello e id nonce x r m : e ∈ sy_log y -> en_what e = Hello id nonce x r m ->
    (exists x', sh_hellos (sy_shared y) !! (id, nonce) = Some x' /\ x <= x') \/ x * MS < now_of y }.

(** A log grows in order when what is added follows all that is there. *)
Lemma in_order_cons e log : in_order log -> (forall l e1 l1, log = l ++ e1 :: l1 -> follows e1 l e) -> in_order (e :: log).
Proof.
  intros Ho He l0 e2 l e1 l1 H. destruct l0 as [|x l0]; [|by injection H as _ H; eapply Ho]. injection H as <- H. by eapply He.
Qed.

Lemma newer_cursor_trans c d e : newer c d = true -> newer d e = true -> newer c e = true.
Proof. unfold newer. rewrite !orb_true_iff, !andb_true_iff, !Z.ltb_lt, !Z.eqb_eq. lia. Qed.

(** ** What the statements keep *)

(** A cursor, a command number and a handshake only grow. *)
Record grows (now : Z) (a b : Shared) : Prop := {
  gr_cursors uid c : sh_cursors a !! uid = Some c -> exists d, sh_cursors b !! uid = Some d /\ (d = c \/ newer d c = true);
  gr_command m : sh_command a = Some m -> exists n, sh_command b = Some n /\ m <= n;
  gr_hellos k x : sh_hellos a !! k = Some x -> (exists y, sh_hellos b !! k = Some y /\ x <= y) \/ x * MS < now }.

Lemma tables_grow_refl now a : grows now a a.
Proof. constructor; intros; [exists c|exists m|left; exists x]; split; try done; try lia. by left. Qed.

Lemma tables_grow_trans now a b c : grows now a b -> grows now b c -> grows now a c.
Proof.
  intros [A1 A2 A3] [B1 B2 B3]. constructor.
  - intros uid x Hx. destruct (A1 _ _ Hx) as (y & Hy & Hxy). destruct (B1 _ _ Hy) as (z & Hz & Hyz). exists z. split; [done|].
    destruct Hxy as [<-|Hxy], Hyz as [->|Hyz]; [by left|by right..|]. right. by eapply newer_cursor_trans.
  - intros m Hm. destruct (A2 _ Hm) as (n & Hn & ?). destruct (B2 _ Hn) as (o & Ho & ?). exists o. split; [done|lia].
  - intros k x Hx. destruct (A3 _ _ Hx) as [(y & Hy & ?)|?]; [|by right]. destruct (B3 _ _ Hy) as [(z & Hz & ?)|?]; [left; exists z; split; [done|lia]|right; unfold MS in *; lia].
Qed.

Lemma cursor_write_grows now uid c a b : cursor_write uid c a = Some b -> grows now a b /\ sh_cursors b !! uid = Some c /\ forall cur, sh_cursors a !! uid = Some cur -> newer c cur = true.
Proof.
  unfold cursor_write. destruct (match _ with Some cur => _ | None => _ end) eqn:E; [|done]. intros [= <-]. cbn. split; [|split].
  - constructor; cbn; [|intros m Hm; exists m; split; [done|lia]|intros k x Hx; left; exists x; split; [done|lia]]. intros u d Hd. destruct (decide (u = uid)) as [->|Hne].
    + exists c. rewrite lookup_insert_eq. rewrite Hd in E. by split; [|right].
    + exists d. rewrite lookup_insert_ne by done. by split; [|left].
  - by rewrite lookup_insert_eq.
  - intros cur Hc. by rewrite Hc in E.
Qed.

Lemma raise_command_grows now n a : grows now a (raise_command n a).
Proof.
  constructor; cbn; [intros u c Hc; exists c; by split; [|left]| |intros k x Hx; left; exists x; split; [done|lia]].
  intros m Hm. rewrite Hm. eexists. split; [done|lia].
Qed.

(** What an entry says of the tables before and after it. *)
Record adds (y : System) (sh : Shared) (e : Entry) : Prop := {
  ad_cursors uid c : sh_cursors (sy_shared y) !! uid = Some c -> en_what e <> Forgot uid -> exists d, sh_cursors sh !! uid = Some d /\ (d = c \/ newer d c = true);
  ad_commands m : sh_command (sy_shared y) = Some m -> exists n, sh_command sh = Some n /\ m <= n;
  ad_hellos k x : sh_hellos (sy_shared y) !! k = Some x -> (exists z, sh_hellos sh !! k = Some z /\ x <= z) \/ x * MS < now_of y;
  ad_fence f : en_fence e = Some f -> exists r, row_of y = Some r /\ sf_generation f = lr_generation r /\ sf_holderId f = lr_holder r;
  ad_packet uid c n : en_what e = Packet uid c n -> sh_cursors sh !! uid = Some c /\ forall cur, sh_cursors (sy_shared y) !! uid = Some cur -> newer c cur = true;
  ad_number n : number_of (en_what e) = Some n -> exists m, sh_command sh = Some m /\ n <= m;
  ad_command n m : en_what e = Command n -> sh_command (sy_shared y) = Some m -> m < n;
  ad_hello id nonce x r m : en_what e = Hello id nonce x r m -> sh_hellos sh !! (id, nonce) = Some x /\ r < x * MS /\ m = now_of y /\
    forall z, sh_hellos (sy_shared y) !! (id, nonce) = Some z -> z * MS < now_of y }.

Lemma adds_follows y sh e l e1 l1 : sound y -> adds y sh e -> sy_log y = l ++ e1 :: l1 -> follows e1 l e.
Proof.
  intros Hs Ha Hl. assert (e1 ∈ sy_log y) as Hin by (rewrite Hl; apply elem_of_app; right; left). constructor.
  - intros f1 f2 H1 H2. destruct (so_fence _ Hs _ _ Hin H1) as (r & Hr & Hle & Heq). destruct (ad_fence _ _ _ Ha _ H2) as (r' & Hr' & -> & ->). simplify_eq. done.
  - intros uid c1 c2 n1 n2 H1 H2 Hn. destruct (so_packet _ Hs _ _ _ _ _ _ Hl H1 Hn) as (cur & Hc & Hcur). destruct (ad_packet _ _ _ Ha _ _ _ H2) as [_ Hx].
    specialize (Hx _ Hc). destruct Hcur as [->|Hcur]; [done|by eapply newer_cursor_trans].
  - intros n1 n2 H1 H2. destruct (so_command _ Hs _ _ Hin H1) as (m & Hm & Hle). pose proof (ad_command _ _ _ Ha _ _ H2 Hm). lia.
  - intros id nonce x r1 m1 r2 m2 H1 H2. destruct (ad_hello _ _ _ Ha _ _ _ _ _ H2) as (_ & Hr & -> & Hz). split; [done|].
    destruct (so_hello _ Hs _ _ _ _ _ _ Hin H1) as [(x' & Hx & Hle)|Hx]; [|done]. specialize (Hz _ Hx). unfold MS in *. lia.
Qed.

Lemma sound_add y sh e : sound y -> adds y sh e -> sound {| sy_world := sy_world y; sy_shared := sh; sy_log := e :: sy_log y |}.
Proof.
  intros Hs Ha. constructor; cbn.
  - apply in_order_cons; [apply (so_order _ Hs)|]. intros l e1 l1 Hl. by eapply adds_follows.
  - intros e' f [->|Hin]%elem_of_cons Hf; [|by apply (so_fence _ Hs e')]. destruct (ad_fence _ _ _ Ha _ Hf) as (r & Hr & -> & ->). exists r. split_and!; done || lia.
  - intros l e' uid c n l1 Hl Hw Hn. destruct l as [|x l].
    + injection Hl as -> _. destruct (ad_packet _ _ _ Ha _ _ _ Hw) as [Hc _]. exists c. by split; [|left].
    + injection Hl as <- Hl. cbn in Hn. apply not_elem_of_cons in Hn as [Hne Hn]. destruct (so_packet _ Hs _ _ _ _ _ _ Hl Hw Hn) as (cur & Hc & Hcur).
      destruct (ad_cursors _ _ _ Ha _ _ Hc) as (d & Hd & Hdc); [congruence|]. exists d. split; [done|]. destruct Hdc as [->|Hdc], Hcur as [->|Hcur]; [by left|by right..|].
      right. by eapply newer_cursor_trans.
  - intros e' n [->|Hin]%elem_of_cons Hn; [by apply (ad_number _ _ _ Ha)|]. destruct (so_command _ Hs _ _ Hin Hn) as (m & Hm & Hle).
    destruct (ad_commands _ _ _ Ha _ Hm) as (k & Hk & ?). exists k. split; [done|lia].
  - intros e' id nonce x r m [->|Hin]%elem_of_cons Hw.
    + destruct (ad_hello _ _ _ Ha _ _ _ _ _ Hw) as (Hx & _). left. exists x. split; [done|lia].
    + destruct (so_hello _ Hs _ _ _ _ _ _ Hin Hw) as [(x' & Hx & Hle)|Hx]; [|by right].
      destruct (ad_hellos _ _ _ Ha _ _ Hx) as [(z & Hz & ?)|?]; [left; exists z; split; [done|lia]|right; unfold now_of, MS in *; cbn; lia].
Qed.

(** Something happens that is not logged. *)
Lemma sound_quiet y w sh : sound y -> now_of y <= wd_now w -> grows (wd_now w) (sy_shared y) sh ->
  (forall r, row_of y = Some r -> exists r', wd_row w = Some r' /\ lr_generation r <= lr_generation r' /\ (lr_holder r' <> lr_holder r -> lr_generation r < lr_generation r')) ->
  sound {| sy_world := w; sy_shared := sh; sy_log := sy_log y |}.
Proof.
  intros Hs Ht [G1 G2 G3] Hr. constructor; cbn; [apply (so_order _ Hs)|..].
  - intros e f Hin Hf. destruct (so_fence _ Hs _ _ Hin Hf) as (r & Hr0 & Hle & Heq). destruct (Hr _ Hr0) as (r' & Hr' & Hle' & Hh). exists r'. split_and!; [done|lia|].
    intros Hg. destruct (decide (lr_holder r' = lr_holder r)) as [->|Hne]; [apply Heq; lia|specialize (Hh Hne); lia].
  - intros l e uid c n l1 Hl Hw Hn. destruct (so_packet _ Hs _ _ _ _ _ _ Hl Hw Hn) as (cur & Hc & Hcur). destruct (G1 _ _ Hc) as (d & Hd & Hdc). exists d. split; [done|].
    destruct Hdc as [->|Hdc], Hcur as [->|Hcur]; [by left|by right..|]. right. by eapply newer_cursor_trans.
  - intros e n Hin Hn. destruct (so_command _ Hs _ _ Hin Hn) as (m & Hm & Hle). destruct (G2 _ Hm) as (k & Hk & ?). exists k. split; [done|lia].
  - intros e id nonce x r m Hin Hw. unfold now_of in *. cbn. destruct (so_hello _ Hs _ _ _ _ _ _ Hin Hw) as [(x' & Hx & Hle)|Hx]; unfold now_of in *; [|right; lia].
    destruct (G3 _ _ Hx) as [(z & Hz & ?)|?]; [left; exists z; split; [done|lia]|right; unfold MS in *; lia].
Qed.

Lemma sound_same y sh : sound y -> grows (now_of y) (sy_shared y) sh -> sound {| sy_world := sy_world y; sy_shared := sh; sy_log := sy_log y |}.
Proof. intros Hs Hg. apply sound_quiet; [done|done|done|]. intros r Hr. exists r. split_and!; done || lia. Qed.

(** A guard that holds names the holder and the generation of the row. *)
Lemma guarded f s y : lease_guard (Some f) s (row_of y) = true -> exists r, row_of y = Some r /\ sf_generation f = lr_generation r /\ sf_holderId f = lr_holder r.
Proof.
  cbn. destruct (row_of y) as [r|]; [|done]. intros [H _]%andb_true_iff. unfold held_by in H.
  apply andb_true_iff in H as [[_ Hh%bool_decide_eq_true]%andb_true_iff Hg%Z.eqb_eq]. by exists r.
Qed.

(** ** Each request *)

Lemma ask_sound y s fence r : sound y ->
  let '(answer, sh) := run_sql (lease_guard fence s (row_of y)) r (sy_shared y) in
  sound {| sy_world := sy_world y; sy_shared := sh; sy_log := map (fun w => {| en_fence := fence; en_what := w |}) (what_of r answer) ++ sy_log y |}.
Proof.
  intros Hs. destruct (lease_guard fence s (row_of y)) eqn:Eg; [|by destruct r; apply sound_same, tables_grow_refl].
  assert (forall f, fence = Some f -> exists r, row_of y = Some r /\ sf_generation f = lr_generation r /\ sf_holderId f = lr_holder r) as Hf.
  { intros f ->. by eapply guarded. }
  destruct r as [uid c n|floor|uid]; cbn [run_sql].
  - unfold accept_sql. destruct (cursor_write uid c (sy_shared y)) as [sh|] eqn:Ew; [|by apply sound_same, tables_grow_refl].
    destruct (cursor_write_grows (now_of y) _ _ _ _ Ew) as ([G1 G2 G3] & Hc & Hn). destruct n as [n|]; cbn; apply sound_add; try done; constructor; cbn; try done;
      try (by intros; apply G1); try (by intros; eapply G2); try (by intros ? ? ? [= <- <- <-]).
    + intros m Hm. destruct (G2 _ Hm) as (k & -> & ?). eexists. split; [done|lia].
    + intros m [= <-]. destruct (sh_command sh); eexists; (split; [done|lia]).
  - unfold allocate_sql. destruct (is_u32 _) eqn:Eu; [|by apply sound_same, tables_grow_refl]. cbn. apply sound_add; [done|].
    constructor; cbn; try done; [intros u d Hd _; exists d; by split; [|left]| |intros k x Hx; left; exists x; split; [done|lia]| |];
      destruct (sh_command (sy_shared y)) as [cur|]; try done.
    + intros m [= <-]. eexists. split; [done|lia].
    + intros n [= <-]. eexists. split; [done|lia].
    + intros n [= <-]. eexists. split; [done|lia].
    + intros n m [= <-] [= <-]. lia.
  - cbn. apply sound_add; [done|]. constructor; cbn; try done.
    + intros u d Hd Hne. exists d. rewrite lookup_delete_ne by congruence. by split; [|left].
    + intros m Hm. exists m. split; [done|lia].
    + intros k x Hx. left. exists x. split; [done|lia].
Qed.

Lemma unexpired_lookup s h k x : h !! k = Some x -> unexpired s h !! k = Some x \/ x * MS < s.
Proof.
  intros Hx. destruct (decide (s <= x * MS)) as [Hle|Hgt]; [left|right; lia]. unfold unexpired. by apply map_lookup_filter_Some.
Qed.
Lemma unexpired_grows now s sh : s <= now -> grows now sh (set_hellos (unexpired s (sh_hellos sh)) sh).
Proof.
  intros Hs. constructor; cbn; [intros u c Hc; exists c; by split; [|left]|intros m Hm; exists m; split; [done|lia]|].
  intros k x Hx. destruct (unexpired_lookup s _ _ _ Hx) as [H|H]; [left; exists x; split; [done|lia]|right; lia].
Qed.

Lemma greet_sound y provider t id nonce expires : sound y -> in_time t y -> sound (act y (Greet provider t id nonce expires)).
Proof.
  intros Hs [Ht Hn]. cbn [act]. unfold hello_accept. destruct (_ || (expires <? 0)); [by apply sound_same, tables_grow_refl|].
  destruct (guard provider) as [fence|e] eqn:Ep; [|by apply sound_same, tables_grow_refl]. destruct (lease_guard fence _ _) eqn:Eg; cbn [negb]; [|by apply sound_same, tables_grow_refl].
  destruct (_ || _) eqn:Ex; [by apply sound_same, tables_grow_refl|]. apply orb_false_iff in Ex as [_ Ex%Z.leb_gt]. destruct (Nat.leb _ _); [by apply sound_same, tables_grow_refl|].
  pose proof (unexpired_grows (now_of y) (tm_delete t) (sy_shared y) ltac:(lia)) as Hg.
  set (h := unexpired _ _) in *. destruct (h !! (id, nonce)) as [old|] eqn:Eh; [by apply sound_same|]. destruct Hg as [G1 G2 G3].
  set (e := {| en_fence := fence; en_what := Hello id nonce expires (tm_read t) (now_of y) |}).
  assert (match provider with Some f => [{| en_fence := f; en_what := Hello id nonce expires (tm_read t) (now_of y) |}] | None => [{| en_fence := None; en_what := Hello id nonce expires (tm_read t) (now_of y) |}] end = [e]) as ->.
  { unfold e. destruct provider as [[f|]|]; cbn in Ep; [injection Ep as ->|discriminate|injection Ep as <-]; done. }
  cbn [app]. apply sound_add; [done|]. constructor; cbn; try done; [intros; by apply G1|..].
  - intros k x Hx. destruct (G3 _ _ Hx) as [(z & Hz & ?)|?]; [left|by right]. exists z. rewrite lookup_insert_ne; [done|]. intros <-. cbn in Hz. congruence.
  - intros f ->. by eapply guarded.
  - intros i n x r m [= <- <- <- <- <-]. rewrite lookup_insert_eq. split_and!; try done. intros z Hz. destruct (unexpired_lookup (tm_delete t) _ _ _ Hz) as [H|H]; [|lia].
    unfold h in Eh. congruence.
Qed.

Lemma import_cursors_grows now l sh : grows now sh (import_cursors l sh).
Proof.
  revert sh. induction l as [|p l IH]; intros sh; [apply tables_grow_refl|]. cbn [import_cursors fold_left]. eapply tables_grow_trans; [|apply IH].
  destruct (cursor_write _ _ _) as [sh'|] eqn:E; [by eapply cursor_write_grows in E as [? _]|apply tables_grow_refl].
Qed.

Lemma import_hellos_keep s rows h k x : h !! k = Some x -> exists z, import_hellos s rows h !! k = Some z /\ x <= z.
Proof.
  revert h x. induction rows as [|r rows IH]; intros h x Hx; [exists x; split; [done|lia]|]. cbn [import_hellos fold_left].
  destruct (s <? r.2 * MS); [|by apply IH]. destruct (decide (k = r.1)) as [->|Hne].
  - rewrite Hx. destruct (IH (<[r.1 := Z.max x r.2]> h) (Z.max x r.2)) as (z & Hz & ?); [by rewrite lookup_insert_eq|]. exists z. split; [done|lia].
  - apply IH. by rewrite lookup_insert_ne by congruence.
Qed.

(** What an import that succeeds has done. *)
Lemma import_result t row siteId replay hellos sh sh' v : importLegacyReplayState t row siteId replay hellos sh = (sh', Ok v) ->
  exists rows, hello_rows (hs_nonces hellos) = Ok rows /\ (forall r, row = Some r -> lr_until r <= tm_read t) /\
  let sh1 := raise_command (sn_commandSeq replay) (import_cursors (sn_cursors replay) sh) in
  sh' = set_hellos (import_hellos (tm_count t) rows (unexpired (tm_delete t) (sh_hellos sh1))) sh1.
Proof.
  unfold importLegacyReplayState. destruct (negb _); [done|]. destruct (hello_rows _) as [rows|]; [|done]. destruct (match row with Some r => _ | None => _ end) eqn:Er; [done|].
  destruct (Nat.ltb _ _); [done|]. intros [= <- _]. exists rows. split; [done|]. split; [|done]. intros r ->. by apply Z.ltb_ge.
Qed.

Lemma import_grows now t row siteId replay hellos sh : tm_delete t <= now -> grows now sh (importLegacyReplayState t row siteId replay hellos sh).1.
Proof.
  intros Hn. destruct (importLegacyReplayState _ _ _ _ _ _) as [sh' [v|e]] eqn:E; cbn.
  - apply import_result in E as (rows & _ & _ & ->). eapply tables_grow_trans; [apply import_cursors_grows|]. eapply tables_grow_trans; [apply raise_command_grows|].
    destruct (unexpired_grows now (tm_delete t) (raise_command (sn_commandSeq replay) (import_cursors (sn_cursors replay) sh)) Hn) as [G1 G2 G3].
    constructor; cbn in *; [done..|]. intros k x Hx. destruct (G3 _ _ Hx) as [(z & Hz & ?)|?]; [left|by right].
    destruct (import_hellos_keep (tm_count t) rows _ _ _ Hz) as (z' & Hz' & ?). exists z'. split; [done|lia].
  - unfold importLegacyReplayState in E. destruct (negb _); [injection E as <- _; apply tables_grow_refl|]. destruct (hello_rows _); [|injection E as <- _; apply tables_grow_refl].
    destruct (match row with Some r => _ | None => _ end); [injection E as <- _; apply tables_grow_refl|]. destruct (Nat.ltb _ _); [injection E as <- _; apply tables_grow_refl|done].
Qed.

Lemma act_sound y a : sound y -> possible y a -> sound (act y a).
Proof.
  intros Hs Hp. destruct a as [e|provider s r|provider t id nonce expires|t siteId replay hellos].
  - cbn [act]. apply sound_quiet; [done| |apply tables_grow_refl|].
    + unfold now_of. destruct e; cbn in *; try lia; try (repeat case_match; cbn; lia).
    + intros r Hr. by apply step_generation.
  - cbn [act]. destruct (send provider r) as [fence|e]; [|done]. pose proof (ask_sound y s fence r Hs) as H. by destruct (run_sql _ _ _).
  - destruct Hp. by apply greet_sound.
  - cbn [act]. apply sound_same; [done|]. apply import_grows. destruct Hp. lia.
Qed.

(** C17: What several origins write to the shared replay state is one history, in
    the order of its generations, however late the database answers and whatever
    a former leader still sends: after a write behind the fence of a generation
    none succeeds behind an earlier one, and all of a generation are its one
    holder's; a packet is accepted only if its boot and sequence are later than
    those of every packet of that node since its cursor was last reset; a
    command number is larger than every one allocated before and every one that a
    node reported; and a handshake is admitted again only by a transaction that
    read the clock before the handshake ended and finished afterwards. *)
Theorem shared_replay_is_one_history y l0 e2 l e1 l1 : history y -> sy_log y = l0 ++ e2 :: l ++ e1 :: l1 -> follows e1 l e2.
Proof.
  intros Hy. assert (sound y) as Hs; [|apply (so_order _ Hs)]. clear l0 e2 l e1 l1. induction Hy as [t|y a _ IH Hp]; [|by apply act_sound].
  constructor; cbn; [intros l0 e2 l e1 l1 H; by apply app_cons_not_nil in H|by intros e f ?%elem_of_nil| |by intros e n ?%elem_of_nil|by intros e i n x r m ?%elem_of_nil].
  intros l e uid c n l1 H. by apply app_cons_not_nil in H.
Qed.
End system.

(** ** An import is repeated *)

Definition reached_by (sh : Shared) (p : string * Cursor) : Prop := exists cur, sh_cursors sh !! p.1 = Some cur /\ (cur = p.2 \/ newer cur p.2 = true).

Lemma reached_grows sh sh' p : grows 0 sh sh' -> reached_by sh p -> reached_by sh' p.
Proof.
  intros [G _ _] (cur & Hc & Hcur). destruct (G _ _ Hc) as (d & Hd & Hdc). exists d. split; [done|].
  destruct Hdc as [->|Hdc], Hcur as [->|Hcur]; [by left|by right..|]. right. by eapply newer_cursor_trans.
Qed.

Lemma newer_asym c d : newer c d = true -> newer d c = false.
Proof. unfold newer. rewrite !orb_true_iff, orb_false_iff, !andb_true_iff, andb_false_iff, !Z.ltb_lt, !Z.eqb_eq, !Z.ltb_ge, Z.eqb_neq. lia. Qed.
Lemma newer_irrefl c : newer c c = false.
Proof. unfold newer. rewrite orb_false_iff, andb_false_iff, !Z.ltb_ge. lia. Qed.

Lemma cursor_write_reached sh p : reached_by (default sh (cursor_write p.1 p.2 sh)) p.
Proof.
  destruct (cursor_write p.1 p.2 sh) as [sh'|] eqn:E; cbn.
  - apply (cursor_write_grows 0) in E as (_ & Hc & _). exists p.2. by split; [|left].
  - unfold cursor_write in E. destruct (sh_cursors sh !! p.1) as [cur|] eqn:Ec; [|done]. destruct (newer p.2 cur) eqn:En; [done|]. exists cur. split; [done|].
    destruct p.2 as [b s], cur as [b' s']. unfold newer in *. cbn in *. rewrite orb_false_iff, andb_false_iff, !Z.ltb_ge, Z.eqb_neq in En.
    destruct (decide (b = b')) as [->|Hb]; [destruct (decide (s = s')) as [->|Hs]; [by left|]|]; right; rewrite orb_true_iff, andb_true_iff, !Z.ltb_lt, Z.eqb_eq; lia.
Qed.

Lemma reached_write sh p : reached_by sh p -> cursor_write p.1 p.2 sh = None.
Proof.
  intros (cur & Hc & Hcur). unfold cursor_write. rewrite Hc. destruct Hcur as [->|Hcur]; [by rewrite newer_irrefl|by rewrite newer_asym].
Qed.

Lemma import_reached l sh : Forall (reached_by (import_cursors l sh)) l.
Proof.
  revert sh. induction l as [|p l IH]; intros sh; [done|]. cbn [import_cursors fold_left]. constructor; [|apply IH].
  eapply reached_grows; [apply import_cursors_grows|apply cursor_write_reached].
Qed.

Lemma import_again l sh : Forall (reached_by sh) l -> import_cursors l sh = sh.
Proof. induction 1 as [|p l Hp _ IH]; [done|]. cbn [import_cursors fold_left]. by rewrite reached_write. Qed.

Lemma hellos_reached s rows h r : r ∈ rows -> s < r.2 * MS -> exists z, import_hellos s rows h !! r.1 = Some z /\ r.2 <= z.
Proof.
  revert h. induction rows as [|r' rows IH]; intros h Hin Hs; [by apply elem_of_nil in Hin|]. cbn [import_hellos fold_left]. apply elem_of_cons in Hin as [->|Hin]; [|by apply IH].
  apply Z.ltb_lt in Hs. rewrite Hs. destruct (import_hellos_keep s rows (<[r'.1:=match h !! r'.1 with Some cur => Z.max cur r'.2 | None => r'.2 end]> h) r'.1 _ (lookup_insert_eq _ _ _)) as (z & Hz & Hle).
  exists z. split; [done|]. destruct (h !! r'.1); lia.
Qed.

Lemma hellos_again s rows h : (forall r, r ∈ rows -> s < r.2 * MS -> exists z, h !! r.1 = Some z /\ r.2 <= z) -> import_hellos s rows h = h.
Proof.
  induction rows as [|r rows IH]; intros H; [done|]. cbn [import_hellos fold_left]. destruct (Z.ltb_spec s (r.2 * MS)) as [Hs|Hs].
  - destruct (H r) as (z & Hz & Hle); [by left|done|]. rewrite Hz, Z.max_l by done. rewrite insert_id by done. apply IH. intros. apply H; [by right|done].
  - apply IH. intros. apply H; [by right|done].
Qed.

(** What is there after an import was there before or is in the journal. *)
Lemma import_cursors_from l : forall sh uid c, sh_cursors (import_cursors l sh) !! uid = Some c -> sh_cursors sh !! uid = Some c \/ (uid, c) ∈ l.
Proof.
  induction l as [|p l IH]; intros sh uid c; [by left|]. cbn [import_cursors fold_left]. intros [H|H]%IH; [|right; by right].
  unfold cursor_write in H. destruct (match sh_cursors sh !! p.1 with Some cur => _ | None => _ end); cbn in H; [|by left].
  destruct (decide (p.1 = uid)) as [<-|Hne]; [rewrite lookup_insert_eq in H|rewrite lookup_insert_ne in H by done; by left].
  injection H as <-. right. destruct p. by left.
Qed.

Lemma import_hellos_from s rows : forall h k z, import_hellos s rows h !! k = Some z -> h !! k = Some z \/ (k, z) ∈ rows.
Proof.
  induction rows as [|r rows IH]; intros h k z; [by left|]. cbn [import_hellos fold_left]. intros [H|H]%IH; [|right; by right].
  destruct (s <? r.2 * MS); [|by left]. destruct (decide (r.1 = k)) as [<-|Hne]; [rewrite lookup_insert_eq in H|rewrite lookup_insert_ne in H by done; by left].
  injection H as <-. destruct r as [k z']. cbn in *. destruct (h !! k) as [cur|] eqn:E; [|right; by left].
  destruct (Z.max_spec cur z') as [[_ ->]|[_ ->]]; [right; by left|by left].
Qed.

(** The state after an import of a journal at the times [t]: the cursors, the
    command number and the handshakes that have not ended are as high as the
    journal's, and nothing else has changed but what has expired. *)
Record imports (t : Times) (replay : ReplaySnapshot) (rows : list (string * string * Z)) (sh sh' : Shared) : Prop := {
  im_grows : grows (tm_delete t) sh sh';
  im_cursors : Forall (reached_by sh') (sn_cursors replay);
  im_command : sh_command sh' = Some (match sh_command sh with Some n => Z.max n (sn_commandSeq replay) | None => sn_commandSeq replay end);
  im_hellos r : r ∈ rows -> tm_count t < r.2 * MS -> exists z, sh_hellos sh' !! r.1 = Some z /\ r.2 <= z;
  im_cursor uid c : sh_cursors sh' !! uid = Some c -> sh_cursors sh !! uid = Some c \/ (uid, c) ∈ sn_cursors replay;
  im_hello k z : sh_hellos sh' !! k = Some z -> sh_hellos sh !! k = Some z \/ (k, z) ∈ rows }.

Lemma import_cursors_command l sh : sh_command (import_cursors l sh) = sh_command sh /\ sh_hellos (import_cursors l sh) = sh_hellos sh.
Proof.
  revert sh. induction l as [|p l IH]; intros sh; [done|]. destruct (IH (default sh (cursor_write p.1 p.2 sh))) as [E1 E2].
  unfold import_cursors in *. cbn [fold_left]. rewrite E1, E2.
  unfold cursor_write. by destruct (match sh_cursors sh !! p.1 with Some cur => _ | None => _ end).
Qed.

Lemma import_imports t row siteId replay hellos sh sh' v : importLegacyReplayState t row siteId replay hellos sh = (sh', Ok v) ->
  exists rows, hello_rows (hs_nonces hellos) = Ok rows /\ imports t replay rows sh sh'.
Proof.
  intros H. pose proof (import_grows (tm_delete t) t row siteId replay hellos sh (Z.le_refl _)) as Hg. rewrite H in Hg.
  apply import_result in H as (rows & Hr & _ & H). cbv zeta in H. destruct (import_cursors_command (sn_cursors replay) sh) as [Ec Eh].
  exists rows. split; [done|]. constructor; [done|..]; subst sh'; cbn.
  - exact (import_reached (sn_cursors replay) sh).
  - by rewrite Ec.
  - intros r. apply hellos_reached.
  - apply import_cursors_from.
  - rewrite Eh. intros k z [Hz|]%import_hellos_from; [left|by right]. unfold unexpired in Hz. by apply map_lookup_filter_Some in Hz as [? _].
Qed.

(** C28: An import of a journal goes through only while no leader's lease lasts,
    and is safe to repeat. It raises the cursors, the command number and the
    handshakes that have not ended to what the journal says, lowers none, and
    changes nothing else but remove what has expired; a second import of the
    same journal, whenever it comes, leaves the cursors and the command number
    as they are and does nothing to the handshakes but remove what has expired. *)
Theorem import_is_safe_to_repeat t t' row row' siteId replay hellos sh sh1 sh2 v v' : tm_count t <= tm_delete t' <= tm_count t' ->
  importLegacyReplayState t row siteId replay hellos sh = (sh1, Ok v) -> importLegacyReplayState t' row' siteId replay hellos sh1 = (sh2, Ok v') ->
  (forall r, row = Some r -> lr_until r <= tm_read t) /\ (exists rows, hello_rows (hs_nonces hellos) = Ok rows /\ imports t replay rows sh sh1) /\
  sh_cursors sh2 = sh_cursors sh1 /\ sh_command sh2 = sh_command sh1 /\ sh_hellos sh2 = unexpired (tm_delete t') (sh_hellos sh1).
Proof.
  intros Ht H1 H2. destruct (import_imports _ _ _ _ _ _ _ _ H1) as (rows & Hr & Hi). destruct (import_result _ _ _ _ _ _ _ _ H1) as (_ & _ & Hl & _).
  apply import_result in H2 as (rows' & Hr' & _ & H2). rewrite Hr in Hr'. injection Hr' as <-. cbv zeta in H2. rewrite (import_again _ _ (im_cursors _ _ _ _ _ Hi)) in H2.
  split; [done|]. split; [by exists rows|]. subst sh2. cbn. rewrite (im_command _ _ _ _ _ Hi). split; [done|]. split.
  - f_equal. destruct (sh_command sh); lia.
  - apply hellos_again. intros r Hin Hs. destruct (im_hellos _ _ _ _ _ Hi r Hin) as (z & Hz & Hle); [lia|]. exists z. split; [|done].
    destruct (unexpired_lookup (tm_delete t') _ _ _ Hz) as [H|H]; [done|]. unfold MS in *. lia.
Qed.

(** ** The file of handshakes *)

Definition greet_file (v : HelloReplaySnapshot * list (string * Z * Z)) (e : string * Z * Z) : HelloReplaySnapshot * list (string * Z * Z) :=
  match file_accept e.1.1 e.1.2 e.2 v.1 with (true, Some v') => (v', e :: v.2) | _ => v end.

Record kept_once (v : HelloReplaySnapshot) (log : list (string * Z * Z)) : Prop := {
  ko_keys : NoDup (om_keys (hs_nonces v));
  ko_each e : e ∈ log -> (exists x, om_get e.1.1 (hs_nonces v) = Some x /\ e.1.2 <= x) \/ e.1.2 < hs_highWater v;
  ko_order l0 e2 l e1 l1 : log = l0 ++ e2 :: l ++ e1 :: l1 -> e1.1.1 = e2.1.1 -> e1.1.2 < e2.2 }.

Lemma greet_file_kept v log e : kept_once v log -> kept_once (greet_file (v, log) e).1 (greet_file (v, log) e).2.
Proof.
  intros Hk. destruct e as [[key expires] now]. unfold greet_file, file_accept. cbn [fst snd]. destruct (Z.ltb_spec now (hs_highWater v)) as [|Hn]; [done|].
  set (entries := List.filter _ _). destruct (om_has key entries) eqn:Eh; [done|]. destruct (Nat.leb _ _); [done|]. cbn. destruct Hk as [K1 K2 K3].
  assert (NoDup (om_keys entries)) as Hnd by by apply om_filter_nodup.
  assert (forall e, e ∈ log -> (exists x, om_get e.1.1 entries = Some x /\ e.1.2 <= x) \/ e.1.2 < now) as Hold.
  { intros e He. destruct (K2 e He) as [(x & Hx & Hle)|Hlt]; [|right; lia]. unfold entries. rewrite (om_get_filter_val (fun x => now <=? x)) by done. rewrite Hx. cbn.
    destruct (Z.leb_spec now x); [left; by exists x|right; lia]. }
  constructor; cbn [hs_nonces hs_highWater].
  - by apply om_set_nodup.
  - intros e [->|He]%elem_of_cons; cbn; [left; exists expires; rewrite om_get_set_eq; split; [done|lia]|]. destruct (Hold e He) as [(x & Hx & Hle)|Hlt]; [left|by right].
    exists x. rewrite om_get_set_ne; [done|]. intros <-. by rewrite (proj2 (om_has_keys _ _) (om_get_Some_keys _ _ _ Hx)) in Eh.
  - intros l0 e2 l e1 l1 Hl Hkey. destruct l0 as [|x l0]; [|injection Hl as _ Hl; by eapply K3]. injection Hl as <- Hl. cbn in *.
    destruct (Hold e1) as [(x & Hx & Hle)|Hlt]; [rewrite Hl; apply elem_of_app; right; by left| |done].
    rewrite Hkey in Hx. by rewrite (proj2 (om_has_keys _ _) (om_get_Some_keys _ _ _ Hx)) in Eh.
Qed.

(** Whatever the clock does, a handshake in the file is not admitted again before it ended. *)
Theorem file_admits_once v es log : NoDup (om_keys (hs_nonces v)) -> (fold_left greet_file es (v, [])).2 = log ->
  forall l0 e2 l e1 l1, log = l0 ++ e2 :: l ++ e1 :: l1 -> e1.1.1 = e2.1.1 -> e1.1.2 < e2.2.
Proof.
  intros Hnd <-. apply (ko_order (fold_left greet_file es (v, [])).1). assert (kept_once v []) as H.
  { constructor; [done|by intros e ?%elem_of_nil|intros l0 e2 l e1 l1 H; by apply app_cons_not_nil in H]. }
  revert H. generalize (@nil (string * Z * Z)). revert v Hnd. induction es as [|e es IH]; intros v Hnd log H; [done|]. cbn [fold_left].
  pose proof (greet_file_kept v log e H) as H'. destruct (greet_file (v, log) e) as [v' log']. apply IH; [|done]. apply (ko_keys _ _ H').
Qed.

(** ** A handover *)

Module Demo.
Import Failover.Demo.

Definition uid : string := "aa:bb:cc:dd:ee:ff".
Definition fence_of (p : string) (g : Z) : option (option SiteFence) := Some (Some {| sf_identity := lc_identity (cfg p); sf_holderId := p; sf_generation := g |}).
Definition cursor (b s : Z) : Cursor := {| boot := b; seq := s |}.

Definition start_of : System := {| sy_world := new_world 0; sy_shared := {| sh_cursors := ∅; sh_command := None; sh_hellos := ∅ |}; sy_log := [] |}.
Definition acts (y : System) (l : list Act) : System := fold_left (act cfg offset) l y.

(** [a] leads and writes; it goes silent, [b] follows and writes; what [a] still
    sends is refused, and so is a packet that [a] had accepted. *)
Definition handover : list Act :=
  [Lead (Start "a"); Lead (Effect "a" 0 0); Lead (Answered "a" 0 true);
   Ask (fence_of "a" 1) 0 (Accept uid (cursor 7 1) (Some 40)); Ask (fence_of "a" 1) 0 (Allocate 41);
   Lead (Pass 15000000); Lead (Start "b"); Lead (Effect "b" 0 15000000); Lead (Answered "b" 0 true);
   Ask (fence_of "a" 1) 15000000 (Accept uid (cursor 7 2) None); Ask (fence_of "b" 2) 15000000 (Accept uid (cursor 7 1) None);
   Ask (fence_of "b" 2) 15000000 (Accept uid (cursor 7 2) None); Ask (fence_of "b" 2) 15000000 (Allocate 10)].
Definition handed : System := acts start_of handover.

Example what_was_written : map (fun e => (sf_holderId <$> en_fence e, en_what e)) (sy_log handed) =
  [(Some "b", Command 42); (Some "b", Packet uid (cursor 7 2) None); (Some "a", Command 41); (Some "a", Packet uid (cursor 7 1) (Some 40))].
Proof. by vm_compute. Qed.

(** What each is told. *)
Example a_former_leader_is_told : (request (fence_of "a" 1) 15000000 (wd_row (sy_world handed)) (Allocate 50) (sy_shared handed) {| prs_cursors := ∅; prs_commandSeq := 41 |}).2
  = Err "site leadership changed before command allocation".
Proof. by vm_compute. Qed.

(** The clock is read by a statement of its own: a handshake of the last moment
    is deleted between that statement and the next, and admitted twice. *)
Example a_handshake_is_admitted_twice :
  let e := 1000000 in
  let t1 := {| tm_read := 999000000; tm_delete := 999000100; tm_count := 999000200 |} in
  let t2 := {| tm_read := 999999900; tm_delete := 1000000100; tm_count := 1000000200 |} in
  let y := acts start_of [Lead (Pass 999500000); Greet None t1 "gw" "n1" e; Lead (Pass 600000); Greet None t2 "gw" "n1" e] in
  map en_what (sy_log y) = [Hello "gw" "n1" e 999999900 1000100000; Hello "gw" "n1" e 999000000 999500000].
Proof. by vm_compute. Qed.

Definition possibleb (y : System) (a : Act) : bool :=
  match a with
  | Lead (Pass dt) => 0 <=? dt
  | Lead (Effect p _ s) => (s <=? now_of y) && match row_of y with Some r => negb (bool_decide (lr_holder r = p)) || (lr_until r <=? s + ttl (cfg p)) | None => true end
  | Lead _ => true
  | Ask _ s _ => s <=? now_of y
  | _ => false
  end.

Lemma possibleb_ok y a : possibleb y a = true -> possible cfg y a.
Proof.
  destruct a as [[]| | |]; cbn; try done; try by intros ?%Z.leb_le. intros [Hs%Z.leb_le Hr]%andb_true_iff. split; [done|]. intros r E Hp. unfold row_of in Hr. rewrite E in Hr.
  rewrite bool_decide_eq_true_2 in Hr by done. by apply Z.leb_le.
Qed.

Lemma handed_reached : history cfg offset handed.
Proof. unfold handed, acts, handover. cbn [fold_left]. repeat (apply history_act; [|apply possibleb_ok; by vm_compute]). apply history_new. Qed.

Definition packet_of (p : string) (g b s : Z) (n : option Z) : Entry := {| en_fence := mjoin (fence_of p g); en_what := Packet uid (cursor b s) n |}.

Lemma shared_replay_is_one_history_witness : exists l0 l l1, sy_log handed = l0 ++ packet_of "b" 2 7 2 None :: l ++ packet_of "a" 1 7 1 (Some 40) :: l1 /\
  follows (packet_of "a" 1 7 1 (Some 40)) l (packet_of "b" 2 7 2 None).
Proof.
  exists [{| en_fence := mjoin (fence_of "b" 2); en_what := Command 42 |}], [{| en_fence := mjoin (fence_of "a" 1); en_what := Command 41 |}], [].
  assert (sy_log handed = [{| en_fence := mjoin (fence_of "b" 2); en_what := Command 42 |}] ++ packet_of "b" 2 7 2 None :: [{| en_fence := mjoin (fence_of "a" 1); en_what := Command 41 |}] ++ packet_of "a" 1 7 1 (Some 40) :: []) as H.
  { vm_compute. reflexivity. }
  split; [exact H|]. apply (shared_replay_is_one_history cfg offset handed _ _ _ _ _ handed_reached H).
Defined.

Definition journal : ReplaySnapshot := {| sn_cursors := [(uid, cursor 9 0)]; sn_commandSeq := 100 |}.
Definition greeted : HelloReplaySnapshot := {| hs_highWater := 0; hs_nonces := [("gw|n1", 90000); ("gw|n2", 1000)] |}.
Definition at_times (a b c : Z) : Times := {| tm_read := a; tm_delete := b; tm_count := c |}.

Lemma import_is_safe_to_repeat_witness : exists sh1 sh2, sh_hellos sh1 = <[("gw", "n1") := 90000]> ∅ /\ sh_command sh1 = Some 100 /\
  sh_cursors sh2 = sh_cursors sh1 /\ sh_command sh2 = sh_command sh1 /\ sh_hellos sh2 = unexpired 3000000 (sh_hellos sh1).
Proof.
  set (sh := {| sh_cursors := ∅; sh_command := Some 7; sh_hellos := ∅ |}).
  set (r1 := importLegacyReplayState (at_times 1000000 1000000 1000000) None "campus" journal greeted sh).
  set (r2 := importLegacyReplayState (at_times 3000000 3000000 3000000) None "campus" journal greeted r1.1).
  exists r1.1, r2.1. split; [by vm_compute|]. split; [by vm_compute|].
  apply (import_is_safe_to_repeat (at_times 1000000 1000000 1000000) (at_times 3000000 3000000 3000000) None None "campus" journal greeted sh r1.1 r2.1 (1%nat, 100, 1%nat) (1%nat, 100, 1%nat));
    [cbn; lia|by vm_compute|by vm_compute].
Defined.
End Demo.
