(* ===== verification/Settings.v ===== *)
(** What a person of the debugger console keeps about their own account: an
    address, what is to be sent there, and the code that confirms it
    (src/modules/algo-admin/domain/account-settings.ts,
    src/infrastructure/algo-admin/file-own-account.ts,
    src/modules/algo-admin/use-cases/manage-own-account.ts), over the document
    store of [Documents] and the accounts of [Accounts]. *)

From S2P Require Import Prelude Json Bytes Secure NodeServer Flashers Sessions Accounts Documents.

Inductive EmailTopic := TSensor | TTraining | TFirmware | TParameter | TMail | TTask.
#[export] Instance EmailTopic_eq : EqDecision EmailTopic.
Proof. solve_decision. Defined.

(** @modules/algo-admin/domain/account-settings.ts 13-13 EMAIL_TOPICS *)
Definition EMAIL_TOPICS : list EmailTopic := [TSensor; TTraining; TFirmware; TParameter; TMail; TTask].
Definition topic_text (t : EmailTopic) : string :=
  match t with TSensor => "sensor" | TTraining => "training" | TFirmware => "firmware" | TParameter => "parameter" | TMail => "mail" | TTask => "task" end.
(** @modules/algo-admin/domain/account-settings.ts 54-54 isTopic *)
Definition isTopic (v : json) : option EmailTopic :=
  s ← as_string v; List.find (fun t => bool_decide (topic_text t = s)) EMAIL_TOPICS.

(** @modules/algo-admin/domain/account-settings.ts 15-15 MAX_EMAIL *)
Definition MAX_EMAIL : Z := 254.
(** @modules/algo-admin/domain/account-settings.ts 30-31 CODE_LIFETIME_MS *)
Definition CODE_LIFETIME_MS : Z := 30 * 60000.
Definition CODE_TRIES : Z := 5.

(** @modules/algo-admin/domain/account-settings.ts 29-29 PendingCode *)
Record PendingCode := { pc_hash : string; pc_expiresAt : Q; pc_triesLeft : Z }.

(** @modules/algo-admin/domain/account-settings.ts 33-39 StoredSettings *)
Record StoredSettings := {
  se_name : string; se_accountCreatedAt : Q; se_updatedAt : Q; se_email : option string; se_notify : list EmailTopic;
  se_confirmedAt : option Q; se_code : option PendingCode }.
(** A [SettingsDocument]: its accounts. *)
Notation settings := (list StoredSettings).

(** @modules/algo-admin/domain/account-settings.ts 41-41 Subscriber *)
Record Subscriber := { su_name : string; su_createdAt : Q; su_email : string; su_notify : list EmailTopic }.

(** @modules/algo-admin/domain/account-settings.ts 17-26 AccountSettings *)
Record AccountSettings := { as_email : option string; as_notify : list EmailTopic; as_confirmed : bool }.
Definition NO_SETTINGS : AccountSettings := {| as_email := None; as_notify := []; as_confirmed := false |}.

(** ** What may be typed *)

(** No white space, no control character and none of the marks of a mail header. *)
Definition local_char (c : Ascii.ascii) : bool :=
  negb (is_space c || (code c <=? 31) || includes (code c) [64; 60; 62; 40; 41; 44; 59; 58; 34; 92; 127]).
Definition is_alnum (c : Ascii.ascii) : bool := is_lower c || is_upper c || is_digit c.
(** [[a-z0-9](?:[a-z0-9-]{0,61}[a-z0-9])?], in either case. *)
Definition is_label (l : list Ascii.ascii) : bool :=
  between 1 63 (Z.of_nat (length l)) && forallb (fun c => is_alnum c || (code c =? 45)) l
  && match List.hd_error l, last l with Some a, Some z => is_alnum a && is_alnum z | _, _ => false end.
Definition is_domain (l : list Ascii.ascii) : bool :=
  let labels := split_chars (Ascii.ascii_of_N 46) l in Nat.leb 2 (length labels) && forallb is_label labels.

Definition AT : Ascii.ascii := Ascii.ascii_of_N 64.

(** @modules/algo-admin/domain/account-settings.ts 57-64 emailAddress *)
Definition emailAddress (value : option json) : option string :=
  match value with
  | Some (JStr s) =>
      let text := js_trim s in
      if MAX_EMAIL <? js_length text then None
      else match split_chars AT (chars text) with
           | [local; domain] =>
               if between 1 64 (Z.of_nat (length local)) && forallb local_char local && is_domain domain
               then Some (String.string_of_list_ascii (local ++ AT :: map lower_char domain)) else None
           | _ => None
           end
  | _ => None
  end.

(** @modules/algo-admin/domain/account-settings.ts 67-70 emailTopics *)
Definition emailTopics (value : option json) : option (list EmailTopic) :=
  l ← value ≫= as_array;
  if Nat.ltb (length EMAIL_TOPICS) (length l) then None else ts ← mapM isTopic l; Some (List.filter (fun t => includes t ts) EMAIL_TOPICS).

(** ** The document *)

Definition number_of (v : option json) : option Q := match v with Some (JNum q) => Some q | _ => None end.

(** @modules/algo-admin/domain/account-settings.ts 94-100 pendingCode *)
Definition pendingCode (value : json) : option PendingCode :=
  o ← as_object value;
  hash ← text_where is_hex64 (field "hash" o);
  expiresAt ← number_of (field "expiresAt" o);
  triesLeft ← field "triesLeft" o ≫= as_integer;
  if between 0 CODE_TRIES triesLeft then Some {| pc_hash := hash; pc_expiresAt := expiresAt; pc_triesLeft := triesLeft |} else None.

(** A field that may be missing or [null]. *)
Definition maybe {A} (f : json -> option A) (v : option json) : option (option A) :=
  match v with None | Some JNull => Some None | Some v => Some <$> f v end.

(** @modules/algo-admin/domain/account-settings.ts 79-91 parseSettings *)
Definition parse_settings (entry : json) : option StoredSettings :=
  o ← as_object entry;
  notify ← emailTopics (field "notify" o);
  confirmed ← maybe (fun v => number_of (Some v)) (field "confirmedAt" o);
  code ← maybe pendingCode (field "code" o);
  name ← text_where is_name (field "name" o);
  created ← number_of (field "accountCreatedAt" o);
  updated ← number_of (field "updatedAt" o);
  email ← null_or (text_where (fun s => bool_decide (emailAddress (Some (JStr s)) = Some s))) (field "email" o);
  Some {| se_name := name; se_accountCreatedAt := created; se_updatedAt := updated; se_email := email; se_notify := notify;
          se_confirmedAt := match email with Some _ => confirmed | None => None end; se_code := code |}.

(** @modules/algo-admin/domain/account-settings.ts 73-92 parseSettings *)
Definition parseSettings (value : json) : option settings :=
  o ← as_object value;
  l ← field "accounts" o ≫= as_array;
  if negb (version_one o) || Nat.ltb (Z.to_nat 10000) (length l) then None
  else
    accounts ← mapM parse_settings l;
    if bool_decide (NoDup (map se_name accounts)) then Some accounts else None.

(** @modules/algo-admin/domain/account-settings.ts 43-43 emptySettings *)
Definition emptySettings : settings := [].

Definition opt_number (o : option Q) : json := match o with Some q => JNum q | None => JNull end.
Definition code_json (c : PendingCode) : json :=
  JObj [("hash", JStr (pc_hash c)); ("expiresAt", JNum (pc_expiresAt c)); ("triesLeft", JInt (pc_triesLeft c))].
Definition entry_json (e : StoredSettings) : json :=
  JObj [("name", JStr (se_name e)); ("accountCreatedAt", JNum (se_accountCreatedAt e)); ("updatedAt", JNum (se_updatedAt e)); ("email", opt_text (se_email e));
        ("notify", JArr (map (fun t => JStr (topic_text t)) (se_notify e))); ("confirmedAt", opt_number (se_confirmedAt e));
        ("code", match se_code e with Some c => code_json c | None => JNull end)].
Definition settings_json (d : settings) : json := JObj [("version", JInt 1); ("accounts", JArr (map entry_json d))].

(** ** The operations on it *)

(** @modules/algo-admin/repositories/own-account-repository.ts 18-18 AccountRef *)
Record AccountRef := { ar_name : string; ar_createdAt : Q }.

(** @infrastructure/algo-admin/file-own-account.ts 52-54 own *)
Definition is_own (account : AccountRef) (e : StoredSettings) : bool :=
  bool_decide (se_name e = ar_name account) && Qeqb (se_accountCreatedAt e) (ar_createdAt account).
Definition own (d : settings) (account : AccountRef) : option StoredSettings := List.find (is_own account) d.

(** @infrastructure/algo-admin/file-own-account.ts 56-61 read *)
Definition read_own (account : AccountRef) (d : settings) : AccountSettings :=
  match own d account with
  | Some kept => {| as_email := se_email kept; as_notify := se_notify kept; as_confirmed := is_some (se_confirmedAt kept) |}
  | None => NO_SETTINGS
  end.

Definition alive (current : list AccountRef) (e : StoredSettings) : bool := existsb (fun live => is_own live e) current.

(** @infrastructure/algo-admin/file-own-account.ts 63-80 save *)
Definition save (account : AccountRef) (email : option string) (notify : list EmailTopic) (current : list AccountRef) (now : Z) (draft : settings) :
    AccountSettings * settings :=
  let before := own draft account in
  let kept := before ≫= fun e => if bool_decide (se_email e = email) then Some e else None in
  let confirmedAt := kept ≫= se_confirmedAt in
  let others := List.filter (fun e => negb (bool_decide (se_name e = ar_name account)) && alive current e) draft in
  ({| as_email := email; as_notify := notify; as_confirmed := is_some confirmedAt |},
   match email with
   | None => others
   | Some _ => others ++ [{| se_name := ar_name account; se_accountCreatedAt := ar_createdAt account; se_updatedAt := inject_Z now; se_email := email; se_notify := notify;
                             se_confirmedAt := confirmedAt; se_code := kept ≫= se_code |}]
   end).

Definition with_code (c : option PendingCode) (confirmedAt : option Q) (e : StoredSettings) : StoredSettings :=
  {| se_name := se_name e; se_accountCreatedAt := se_accountCreatedAt e; se_updatedAt := se_updatedAt e; se_email := se_email e; se_notify := se_notify e;
     se_confirmedAt := confirmedAt; se_code := c |}.

(** @infrastructure/algo-admin/file-own-account.ts 82-91 expectCode *)
Definition expectCode (account : AccountRef) (email : string) (c : PendingCode) (draft : settings) : bool * settings :=
  match own draft account with
  | Some e =>
      if negb (bool_decide (se_email e = Some email)) || is_some (se_confirmedAt e) then (false, draft)
      else (true, alter_first (is_own account) (with_code (Some c) (se_confirmedAt e)) draft)
  | None => (false, draft)
  end.

Inductive Outcome := IsConfirmed | IsWrong | IsNone.

(** Whether there is something to try against.
    @infrastructure/algo-admin/file-own-account.ts 96-97 tryCode *)
Definition waiting (account : AccountRef) (now : Z) (d : settings) : bool :=
  match own d account with
  | Some {| se_code := Some c; se_email := Some _; se_confirmedAt := None |} => Qltb (inject_Z now) (pc_expiresAt c) && (0 <? pc_triesLeft c)
  | _ => false
  end.

(** @infrastructure/algo-admin/file-own-account.ts 98-105 tryCode *)
Definition tryCode (account : AccountRef) (matches : string -> string -> bool) (now : Z) (draft : settings) : Outcome * settings :=
  match own draft account with
  | Some e =>
      match se_code e, se_email e with
      | Some c, Some email =>
          if matches (pc_hash c) email then (IsConfirmed, alter_first (is_own account) (with_code None (Some (inject_Z now))) draft)
          else (IsWrong, alter_first (is_own account) (with_code (Some {| pc_hash := pc_hash c; pc_expiresAt := pc_expiresAt c; pc_triesLeft := pc_triesLeft c - 1 |}) (se_confirmedAt e)) draft)
      | _, _ => (IsNone, draft)
      end
  | None => (IsNone, draft)
  end.

(** @infrastructure/algo-admin/file-own-account.ts 109-119 subscribers *)
Definition subscribers (current : list AccountRef) (d : settings) : list Subscriber :=
  omap (fun e =>
    match se_email e, se_confirmedAt e with
    | Some email, Some _ =>
        if Nat.eqb (length (se_notify e)) 0 || negb (alive current e) then None
        else Some {| su_name := se_name e; su_createdAt := se_accountCreatedAt e; su_email := email; su_notify := se_notify e |}
    | _, _ => None
    end) d.

(** ** What a person may do to their own account *)

(** @modules/algo-admin/repositories/own-account-repository.ts 5-5 AccountProfile *)
Record AccountProfile := { pf_name : string; pf_role : AdminRole; pf_teamRoles : list TeamRole; pf_createdAt : Q }.
Definition ref_of (p : AccountProfile) : AccountRef := {| ar_name := pf_name p; ar_createdAt := pf_createdAt p |}.

(** @infrastructure/algo-admin/file-own-account.ts 14-17 profile *)
Definition profile (lk : look) (users : disk) (name : string) (s : AlgoUsers) : AlgoUsers * option AccountProfile :=
  let (s, user) := get lk users name s in
  (s, match user with
      | Some u => if u_disabled u then None else Some {| pf_name := u_name u; pf_role := u_role u; pf_teamRoles := u_teamRoles u; pf_createdAt := u_createdAt u |}
      | None => None
      end).

(** @infrastructure/algo-admin/file-own-account.ts 19-21 current *)
Definition current_accounts (lk : look) (users : disk) (s : AlgoUsers) : AlgoUsers * result string (list AccountRef) :=
  match records lk users s with
  | (s, Ok l) => (s, Ok (map (fun u => {| ar_name := u_name u; ar_createdAt := u_createdAt u |}) l))
  | (s, Err _) => (s, Err "STORAGE_UNAVAILABLE")
  end.

(** @modules/algo-admin/use-cases/manage-own-account.ts 114-119 profileOf *)
Definition profileOf (actor : AdminPrincipal) (found : option AccountProfile) : result string AccountProfile :=
  if negb (pr_namedAccount actor) then Err "LOCAL_MODE" else match found with Some p => Ok p | None => Err "UNAUTHENTICATED" end.

(** A body: an object of the named fields only. *)
Definition body_of (allowed : list string) (input : json) : result string (list (string * json)) :=
  match as_object input with
  | Some o => if has_extra allowed o then Err "VALIDATION" else Ok o
  | None => Err "VALIDATION"
  end.

(** @modules/algo-admin/use-cases/manage-own-account.ts 43-53 saveSettings *)
Definition checked_settings (input : json) : result string (option string * list EmailTopic) :=
  let! body := body_of ["email"; "notify"] input in
  let blank := match field "email" body with Some JNull => true | Some (JStr s) => bool_decide (js_trim s = EmptyString) | _ => false end in
  let email := if blank then None else emailAddress (field "email" body) in
  throw_if negb blank && negb (is_some email) with "VALIDATION" in
  match emailTopics (field "notify" body) with
  | Some notify => Ok (email, match email with Some _ => notify | None => [] end)
  | None => Err "VALIDATION"
  end.

(** @modules/algo-admin/use-cases/manage-own-account.ts 83-88 confirmEmail *)
Definition checked_code (input : json) : result string string :=
  let! body := body_of ["code"] input in
  let code := match field "code" body with Some (JStr s) => js_trim s | _ => EmptyString end in
  if Nat.eqb (String.length code) 6 && forallb is_digit (chars code) then Ok code else Err "VALIDATION".

(** The passwords that are tried, and no others.
    @modules/algo-admin/use-cases/manage-own-account.ts 96-108 changePassword *)
Definition checked_passwords (input : json) : result string (string * string) :=
  let! body := body_of ["current"; "password"] input in
  match field "current" body, field "password" body with
  | Some (JStr current), Some (JStr password) =>
      throw_if bool_decide (current = EmptyString) || (1024 <? js_length current) with "VALIDATION" in
      throw_if (js_length password <? MIN_PASSWORD) || (1024 <? js_length password) with "VALIDATION" in
      throw_if bool_decide (password = current) with "VALIDATION" in Ok (current, password)
  | _, _ => Err "VALIDATION"
  end.

(** What the mail service answers. *)
Inductive Delivery := Delivered | Refused | Unreachable.

Section manage.
Context {sha : Sha} {text : JsonText}.

(** @modules/algo-admin/use-cases/manage-own-account.ts 30-32 codeHash *)
Definition codeHash (account : AccountRef) (email code : string) : string :=
  to_hex (sha256 (json_text (JArr [JStr (ar_name account); JNum (ar_createdAt account); JStr email; JStr code]))).

Definition store := JsonDocumentStore settings.
Definition read_file (io : Io) (d : disk) (s : store) : answer settings * store := Documents.read emptySettings parseSettings io d s.

(** A change that always has a result; whatever fails is the storage.
    @infrastructure/algo-admin/file-own-account.ts 64-78 save *)
Definition on_file {R} (change : settings -> R * settings) (io : Io) (d : disk) (s : store) : result string R * store * disk :=
  match Documents.update emptySettings parseSettings settings_json (fun doc => Ok (change doc)) io d s with
  | (Ok r, s, d) => (Ok r, s, d)
  | (Err _, s, d) => (Err "STORAGE_UNAVAILABLE", s, d)
  end.

(** @infrastructure/algo-admin/file-own-account.ts 93-107 tryCode *)
Definition try_on_file (account : AccountRef) (matches : string -> string -> bool) (now : Z) (io io' : Io) (d : disk) (s : store) : result string Outcome * store * disk :=
  match read_file io d s with
  | (Err _, s) => (Err "STORAGE_UNAVAILABLE", s, d)
  | (Ok doc, s) => if waiting account now doc then on_file (tryCode account matches now) io' d s else (Ok IsNone, s, d)
  end.

(** What the page of an account shows, the role and the groups with the settings.
    @modules/algo-admin/use-cases/manage-own-account.ts 34-39 read *)
Definition read_account (actor : AdminPrincipal) (found : option AccountProfile) (io : Io) (d : disk) (s : store) :
    result string (option AccountProfile * AccountSettings) * store :=
  if negb (pr_namedAccount actor) then (Ok (None, NO_SETTINGS), s)
  else match profileOf actor found with
       | Err e => (Err e, s)
       | Ok p => match read_file io d s with
                 | (Ok doc, s) => (Ok (Some p, read_own (ref_of p) doc), s)
                 | (Err _, s) => (Err "STORAGE_UNAVAILABLE", s)
                 end
       end.

(** @modules/algo-admin/use-cases/manage-own-account.ts 41-55 saveSettings *)
Definition saveSettings (actor : AdminPrincipal) (found : option AccountProfile) (input : json) (current : result string (list AccountRef)) (now : Z) (io : Io) (d : disk) (s : store) :
    result string AccountSettings * store * disk :=
  match (let! p := profileOf actor found in let! v := checked_settings input in let! l := current in Ok (p, v, l)) with
  | Err e => (Err e, s, d)
  | Ok (p, (email, notify), l) => on_file (save (ref_of p) email notify l now) io d s
  end.

(** The code is kept before it is sent; the last part is the mail that was
    handed to the mail service: to whom, and the code.
    @modules/algo-admin/use-cases/manage-own-account.ts 62-79 sendCode *)
Definition sendCode (actor : AdminPrincipal) (found : option AccountProfile) (mailer : option Delivery) (code : string) (now : Z) (io io' : Io) (d : disk) (s : store) :
    result string Z * store * disk * option (string * string) :=
  match profileOf actor found, mailer with
  | Err e, _ => (Err e, s, d, None)
  | Ok _, None => (Err "EMAIL_OFF", s, d, None)
  | Ok p, Some delivery =>
      match read_file io d s with
      | (Err _, s) => (Err "STORAGE_UNAVAILABLE", s, d, None)
      | (Ok doc, s) =>
          let own := read_own (ref_of p) doc in
          match as_email own with
          | None => (Err "VALIDATION", s, d, None)
          | Some email =>
              if as_confirmed own then (Err "ALREADY_CONFIRMED", s, d, None)
              else
                let expiresAt := now + CODE_LIFETIME_MS in
                let pending := {| pc_hash := codeHash (ref_of p) email code; pc_expiresAt := inject_Z expiresAt; pc_triesLeft := CODE_TRIES |} in
                match on_file (expectCode (ref_of p) email pending) io' d s with
                | (Err e, s, d) => (Err e, s, d, None)
                | (Ok false, s, d) => (Err "STALE_REVISION", s, d, None)
                | (Ok true, s, d) =>
                    (match delivery with Delivered => Ok expiresAt | Refused => Err "MAIL_REFUSED" | Unreachable => Err "MAIL_UNAVAILABLE" end, s, d, Some (email, code))
                end
          end
      end
  end.

(** @modules/algo-admin/use-cases/manage-own-account.ts 81-93 confirmEmail *)
Definition confirmEmail (actor : AdminPrincipal) (found : option AccountProfile) (input : json) (now : Z) (io io' io'' : Io) (d : disk) (s : store) :
    result string AccountSettings * store * disk :=
  match (let! p := profileOf actor found in let! code := checked_code input in Ok (p, code)) with
  | Err e => (Err e, s, d)
  | Ok (p, code) =>
      match try_on_file (ref_of p) (fun hash email => bool_decide (hash = codeHash (ref_of p) email code)) now io io' d s with
      | (Err e, s, d) => (Err e, s, d)
      | (Ok IsNone, s, d) => (Err "NO_CODE", s, d)
      | (Ok IsWrong, s, d) => (Err "WRONG_CODE", s, d)
      | (Ok IsConfirmed, s, d) =>
          match read_file io'' d s with
          | (Ok doc, s) => (Ok (read_own (ref_of p) doc), s, d)
          | (Err _, s) => (Err "STORAGE_UNAVAILABLE", s, d)
          end
      end
  end.
End manage.

(** ** An address stays what it is *)

Lemma lower_char_again c : lower_char (lower_char c) = lower_char c.
Proof. by destruct c as [[] [] [] [] [] [] [] []]. Qed.
Lemma lower_char_alnum c : is_alnum (lower_char c) = is_alnum c.
Proof. by destruct c as [[] [] [] [] [] [] [] []]. Qed.
Lemma lower_char_dash c : (code (lower_char c) =? 45) = (code c =? 45).
Proof. by destruct c as [[] [] [] [] [] [] [] []]. Qed.
Lemma lower_char_dot c : bool_decide (lower_char c = Ascii.ascii_of_N 46) = bool_decide (c = Ascii.ascii_of_N 46).
Proof. by destruct c as [[] [] [] [] [] [] [] []]. Qed.
Lemma lower_char_at c : lower_char c = AT -> c = AT.
Proof. by destruct c as [[] [] [] [] [] [] [] []]. Qed.
Lemma alnum_plain c : is_alnum c = true -> is_space c = false.
Proof. by destruct c as [[] [] [] [] [] [] [] []]. Qed.

Lemma split_lower l : split_chars (Ascii.ascii_of_N 46) (map lower_char l) = map (map lower_char) (split_chars (Ascii.ascii_of_N 46) l).
Proof.
  induction l as [|c l IH]; [done|]. cbn [map split_chars]. rewrite lower_char_dot, IH. case_bool_decide; [done|]. by destruct (split_chars _ l).
Qed.

Lemma hd_error_map {A B} (f : A -> B) l : List.hd_error (map f l) = option_map f (List.hd_error l).
Proof. by destruct l. Qed.

Lemma forallb_fmap {A B} (f : A -> B) (p : B -> bool) (q : A -> bool) l : (forall a, p (f a) = q a) -> forallb p (map f l) = forallb q l.
Proof. intros H. induction l as [|a l IH]; [done|]. cbn [map forallb]. by rewrite H, IH. Qed.

Lemma label_lower w : is_label (map lower_char w) = is_label w.
Proof.
  unfold is_label. rewrite length_map, hd_error_map. f_equal; [f_equal; apply forallb_fmap; intros c; by rewrite lower_char_alnum, lower_char_dash|].
  change (map lower_char w) with (lower_char <$> w). rewrite fmap_last. destruct (List.hd_error w), (last w); cbn; by rewrite ?lower_char_alnum.
Qed.

Lemma domain_lower l : is_domain (map lower_char l) = is_domain l.
Proof. unfold is_domain. rewrite split_lower, length_map. f_equal. apply forallb_fmap, label_lower. Qed.

Lemma split_pieces sep l : Forall (fun w => sep ∉ w) (split_chars sep l).
Proof.
  induction l as [|c l IH]; [constructor; [apply not_elem_of_nil|done]|]. cbn [split_chars]. case_bool_decide as E; [constructor; [apply not_elem_of_nil|done]|].
  destruct (split_chars sep l) as [|w ws]; [constructor; [|done]; by apply not_elem_of_cons; split; [congruence|apply not_elem_of_nil]|].
  inversion IH; subst. constructor; [|done]. apply not_elem_of_cons. split; [congruence|done].
Qed.

Lemma trim_start_plain c l : is_space c = false -> trim_start (c :: l) = c :: l.
Proof. intros H. cbn. by rewrite H. Qed.

(** A text that neither starts nor ends with white space is its own trimming. *)
Lemma trim_plain c l z : is_space c = false -> is_space z = false -> js_trim (String.string_of_list_ascii (c :: l ++ [z])) = String.string_of_list_ascii (c :: l ++ [z]).
Proof.
  intros Hc Hz. unfold js_trim. rewrite chars_of_list, trim_start_plain by done. rewrite app_comm_cons, List.rev_app_distr. cbn [List.rev app].
  rewrite trim_start_plain by done. cbn [List.rev]. by rewrite List.rev_app_distr, List.rev_involutive.
Qed.

Lemma last_snoc_inv {A} (l : list A) z : last l = Some z -> exists l', l = l' ++ [z].
Proof. intros H. apply last_Some in H as [l' ->]. by exists l'. Qed.

Lemma split_tail sep l w : last (split_chars sep l) = Some w -> exists pre, l = pre ++ w.
Proof.
  induction l as [|c l IH]; [intros [= <-]; by exists []|]. cbn [split_chars]. destruct (split_chars_concat sep l) as (x & xs & E). rewrite E in *. case_bool_decide.
  - cbn [last]. intros H'. destruct (IH H') as [pre ->]. by exists (c :: pre).
  - destruct xs as [|y ys]; [intros [= <-]; apply split_chars_one in E as ->; by exists []|]. intros H'. destruct (IH H') as [pre ->]. by exists (c :: pre).
Qed.

(** The last of a domain is a letter or a digit. *)
Lemma domain_end l : is_domain l = true -> exists l' z, l = l' ++ [z] /\ is_alnum z = true.
Proof.
  unfold is_domain. intros [_ H]%andb_true_iff. destruct (last (split_chars (Ascii.ascii_of_N 46) l)) as [w|] eqn:Ew; [|by apply last_None in Ew; destruct (split_chars_concat (Ascii.ascii_of_N 46) l) as (x & xs & E); congruence].
  destruct (split_tail _ _ _ Ew) as [pre ->]. apply last_snoc_inv in Ew as [ws Ew]. rewrite Ew, forallb_app in H. apply andb_true_iff in H as [_ H]. cbn in H. rewrite andb_true_r in H.
  unfold is_label in H. apply andb_true_iff in H as [_ H]. destruct (List.hd_error w); [|done]. destruct (last w) as [z|] eqn:Ez; [|done]. apply last_snoc_inv in Ez as [l' ->].
  exists (pre ++ l'), z. rewrite <- app_assoc. split; [done|]. by apply andb_true_iff in H as [_ ?].
Qed.

Lemma not_in_map_lower l : AT ∉ l -> AT ∉ map lower_char l.
Proof. intros H Hin. apply list_elem_of_fmap in Hin as (c & E & Hc). symmetry in E. apply lower_char_at in E as ->. done. Qed.

(** What is kept of an address is an address, and is kept as it is. *)
Lemma emailAddress_again v m : emailAddress v = Some m -> emailAddress (Some (JStr m)) = Some m.
Proof.
  unfold emailAddress at 1. destruct v as [[| | |s| |]|]; try done. destruct (Z.ltb_spec MAX_EMAIL (js_length (js_trim s))) as [|Hlen]; [done|].
  destruct (split_chars AT (chars (js_trim s))) as [|local [|domain [|]]] eqn:Es; try done. destruct (_ && is_domain domain) eqn:E; [|done]. intros [= <-].
  apply andb_true_iff in E as [[Hl Hc]%andb_true_iff Hd]. destruct (domain_end _ Hd) as (d & z & -> & Hz). destruct local as [|c local]; [done|].
  cbn [forallb] in Hc. pose proof Hc as [Hc0%negb_true_iff _]%andb_true_iff. apply orb_false_iff in Hc0 as [[Hc0 _]%orb_false_iff _].
  pose proof (split_pieces AT (chars (js_trim s))) as Hp. rewrite Es in Hp. inversion Hp as [|? ? Hp1 Hp2]; subst. inversion Hp2 as [|? ? Hp3 _]; subst.
  unfold emailAddress. rewrite map_app. cbn [map]. rewrite <- app_comm_cons.
  replace (c :: local ++ AT :: map lower_char d ++ [lower_char z]) with (c :: (local ++ AT :: map lower_char d) ++ [lower_char z]) by (by rewrite <- app_assoc).
  rewrite trim_plain by (try done; apply alnum_plain; by rewrite lower_char_alnum).
  apply split_chars_two in Es. rewrite <- app_assoc, <- app_comm_cons. rewrite chars_of_list. rewrite app_comm_cons.
  replace (map lower_char d ++ [lower_char z]) with (map lower_char (d ++ [z])) by by rewrite map_app.
  rewrite split_two by (try done; by apply not_in_map_lower).
  assert (js_length (String.string_of_list_ascii ((c :: local) ++ AT :: map lower_char (d ++ [z]))) = js_length (js_trim s)) as ->.
  { unfold js_length. rewrite <- !chars_length, chars_of_list, Es, !length_app. cbn [length]. by rewrite length_map. }
  destruct (Z.ltb_spec MAX_EMAIL (js_length (js_trim s))); [lia|]. rewrite domain_lower, Hd, Hl. cbn [forallb]. rewrite Hc. cbn [andb]. do 3 f_equal. f_equal. rewrite map_map. apply map_ext, lower_char_again.
Qed.

(** ** A document is read back *)

Definition canonical (ts : list EmailTopic) : Prop := exists ts', ts = List.filter (fun t => includes t ts') EMAIL_TOPICS.
Definition code_ok (c : PendingCode) : Prop := is_hex64 (pc_hash c) = true /\ 0 <= pc_triesLeft c <= CODE_TRIES.
Record entry_ok (e : StoredSettings) : Prop := {
  eo_name : is_name (se_name e) = true;
  eo_email m : se_email e = Some m -> emailAddress (Some (JStr m)) = Some m;
  eo_none : se_email e = None -> se_confirmedAt e = None;
  eo_notify : canonical (se_notify e);
  eo_code c : se_code e = Some c -> code_ok c }.
Definition doc_ok (d : settings) : Prop := (length d <= Z.to_nat 10000)%nat /\ NoDup (map se_name d) /\ Forall entry_ok d.

Lemma topic_back ts : mapM isTopic (map (fun t => JStr (topic_text t)) ts) = Some ts.
Proof. apply (mapM_roundtrip isTopic (fun t => JStr (topic_text t))). apply Forall_forall. by intros [] _. Qed.

Lemma canonical_again ts : canonical ts -> List.filter (fun t => includes t ts) EMAIL_TOPICS = ts /\ (length ts <= length EMAIL_TOPICS)%nat.
Proof.
  intros [ts' ->]. split; [|apply List.filter_length_le]. apply List.filter_ext_in. intros t Ht. destruct (includes t ts') eqn:E.
  - apply includes_true. apply list_elem_of_In, filter_In. by split.
  - apply includes_false. intros Hin%list_elem_of_In. apply filter_In in Hin as [_ ?]. congruence.
Qed.

Lemma topics_back ts : canonical ts -> emailTopics (Some (JArr (map (fun t => JStr (topic_text t)) ts))) = Some ts.
Proof.
  intros [H Hl]%canonical_again. unfold emailTopics. cbn [mbind option_bind as_array]. rewrite length_map, (proj2 (Nat.ltb_ge _ _) Hl), topic_back. cbn [mbind option_bind]. by rewrite H.
Qed.

Lemma code_back c : code_ok c -> pendingCode (code_json c) = Some c.
Proof.
  intros [Hh Ht]. unfold pendingCode, code_json. cbn [as_object mbind option_bind]. set (o := [_; _; _]).
  assert (field "hash" o = Some (JStr (pc_hash c)) /\ field "expiresAt" o = Some (JNum (pc_expiresAt c)) /\ field "triesLeft" o = Some (JInt (pc_triesLeft c))) as (-> & -> & ->) by done.
  unfold text_where. cbn [mbind option_bind as_string]. rewrite Hh. cbn [mbind option_bind number_of]. rewrite as_integer_JInt. cbn [mbind option_bind].
  assert (between 0 CODE_TRIES (pc_triesLeft c) = true) as -> by (unfold between; apply andb_true_iff; split; apply Z.leb_le; lia). by destruct c.
Qed.

Lemma text_where_JStr p s : text_where p (Some (JStr s)) = if p s then Some s else None.
Proof. done. Qed.

Lemma entry_back e : entry_ok e -> parse_settings (entry_json e) = Some e.
Proof.
  intros [Hn He Hnone Ht Hc]. unfold parse_settings, entry_json. cbn [as_object mbind option_bind]. set (o := [_; _; _; _; _; _; _]).
  assert (field "notify" o = Some (JArr (map (fun t => JStr (topic_text t)) (se_notify e))) /\ field "confirmedAt" o = Some (opt_number (se_confirmedAt e)) /\
    field "code" o = Some (match se_code e with Some c => code_json c | None => JNull end) /\ field "name" o = Some (JStr (se_name e)) /\
    field "accountCreatedAt" o = Some (JNum (se_accountCreatedAt e)) /\ field "updatedAt" o = Some (JNum (se_updatedAt e)) /\ field "email" o = Some (opt_text (se_email e)))
    as (-> & -> & -> & -> & -> & -> & ->) by done. rewrite (topics_back _ Ht). cbn [mbind option_bind].
  assert (maybe (fun v => number_of (Some v)) (Some (opt_number (se_confirmedAt e))) = Some (se_confirmedAt e)) as -> by by destruct (se_confirmedAt e).
  assert (maybe pendingCode (Some match se_code e with Some c => code_json c | None => JNull end) = Some (se_code e)) as ->.
  { destruct (se_code e) as [c|] eqn:E; [|done]. change (Some <$> pendingCode (code_json c) = Some (Some c)). by rewrite code_back by by apply Hc. }
  cbn [mbind option_bind]. rewrite text_where_JStr, Hn. cbn [mbind option_bind number_of].
  destruct e as [name created updated [m|] notify confirmed code]; cbn [opt_text null_or se_email text_where mbind option_bind as_string fmap option_fmap option_map se_confirmedAt] in *.
  - rewrite bool_decide_eq_true_2 by by apply He. done.
  - rewrite Hnone by done. done.
Qed.

Lemma settings_back d : doc_ok d -> parseSettings (settings_json d) = Some d.
Proof.
  intros (Hl & Hn & He). unfold parseSettings, settings_json. cbn [as_object mbind option_bind]. set (o := [_; _]).
  assert (field "accounts" o = Some (JArr (map entry_json d)) /\ version_one o = true) as [-> ->] by done. clearbody o. cbn [as_array mbind option_bind].
  rewrite length_map, (proj2 (Nat.ltb_ge _ _) Hl). cbn [negb orb]. rewrite mapM_roundtrip by (eapply Forall_impl; [exact He|apply entry_back]).
  cbn [mbind option_bind]. by rewrite bool_decide_eq_true_2.
Qed.

(** ** Which entry is whose *)

Lemma own_in d account e : own d account = Some e -> e ∈ d /\ is_own account e = true.
Proof. intros H. apply List.find_some in H as [Hin Ho]. split; [by apply list_elem_of_In|done]. Qed.

Lemma is_own_name account e : is_own account e = true -> se_name e = ar_name account.
Proof. unfold is_own. intros [H _]%andb_true_iff. by apply bool_decide_eq_true in H. Qed.

Lemma Qeqb_eq a b : Qeqb a b = true <-> (a == b)%Q.
Proof.
  unfold Qeqb. rewrite andb_true_iff, !Qle_bool_iff. split; [intros [? ?]; by apply Qle_antisym|]. intros H. rewrite H. split; apply Qle_refl.
Qed.

Lemma is_own_iff account e : is_own account e = true <-> se_name e = ar_name account /\ (se_accountCreatedAt e == ar_createdAt account)%Q.
Proof. unfold is_own. by rewrite andb_true_iff, bool_decide_eq_true, Qeqb_eq. Qed.

(** Entries of one account are every account's alike. *)
Lemma is_own_same account e e' : is_own account e = true -> is_own account e' = true -> forall a, is_own a e = is_own a e'.
Proof.
  rewrite !is_own_iff. intros [N1 C1] [N2 C2] a. apply eq_true_iff_eq. rewrite !is_own_iff, N1, N2, C1, C2. done.
Qed.

(** The accounts of a document after the entry of one was changed. *)
Lemma alter_own_in f account d e : NoDup (map se_name d) -> own d account = Some e -> (forall x, se_name (f x) = se_name x) ->
  map se_name (alter_first (is_own account) f d) = map se_name d /\
  forall x, x ∈ alter_first (is_own account) f d -> x = f e \/ (x ∈ d /\ se_name x <> se_name e).
Proof.
  intros Hnd Ho Hf. apply find_split in Ho as (l1 & l2 & -> & Ho & _ & Ha & _). rewrite Ha, !map_app in *. cbn [map] in *. rewrite Hf. split; [done|].
  apply NoDup_app in Hnd as (_ & H1 & [H2 _]%NoDup_cons). intros x [Hx|[->|Hx]%elem_of_cons]%elem_of_app; [right|by left|right].
  - split; [apply elem_of_app; by left|]. intros E. eapply (H1 (se_name x)); [by apply list_elem_of_fmap_2|]. rewrite E. by left.
  - split; [apply elem_of_app; right; by right|]. intros E. apply H2. rewrite <- E. by apply list_elem_of_fmap_2.
Qed.

(** ** What happened to the file *)

(** Newest first. *)
Inductive Happening :=
| Issued (a : AccountRef) (email code : string) (at_ : Z)
| Guessed (a : AccountRef)
| Confirmed (a : AccountRef) (email typed : string) (at_ : Z).

Definition issued_to (e : StoredSettings) (h : Happening) : bool := match h with Issued a _ _ _ => is_own a e | _ => false end.
Definition guessed_by (e : StoredSettings) (h : Happening) : bool := match h with Guessed a => is_own a e | _ => false end.
Definition guesses (e : StoredSettings) (l : list Happening) : Z := Z.of_nat (length (List.filter (guessed_by e) l)).

Section life.
Context {sha : Sha} {text : JsonText} {laws : ShaLaws}.

(** The code that waits is the last that was issued to the account, for the
    address that is there, and the wrong tries since are counted. *)
Definition waits (log : list Happening) (e : StoredSettings) : Prop := forall c m, se_code e = Some c -> se_email e = Some m ->
  exists a code t l1 l2, log = l1 ++ Issued a m code t :: l2 /\ is_own a e = true /\ existsb (issued_to e) l1 = false /\
    pc_hash c = codeHash a m code /\ pc_expiresAt c = inject_Z (t + CODE_LIFETIME_MS) /\ pc_triesLeft c + guesses e l1 = CODE_TRIES.

(** An address that stands confirmed was confirmed by its code. *)
Definition answered (log : list Happening) (e : StoredSettings) (m : string) (q : Q) : Prop :=
  exists a a' code typed t t' l1 l2 l3, log = l1 ++ Confirmed a' m typed t' :: l2 ++ Issued a m code t :: l3 /\ is_own a e = true /\ is_own a' e = true /\
    q = inject_Z t' /\ t' < t + CODE_LIFETIME_MS /\ codeHash a' m typed = codeHash a m code /\ existsb (issued_to e) l2 = false /\ guesses e l2 < CODE_TRIES.

Definition told (log : list Happening) (e : StoredSettings) : Prop :=
  waits log e /\ forall q, se_confirmedAt e = Some q -> exists m, se_email e = Some m /\ answered log e m q.

Lemma issued_same e e' : (forall a, is_own a e = is_own a e') -> forall h, issued_to e h = issued_to e' h.
Proof. intros H [a m c t| |]; cbn; done. Qed.
Lemma guessed_same e e' : (forall a, is_own a e = is_own a e') -> forall h, guessed_by e h = guessed_by e' h.
Proof. intros H [|a|]; cbn; done. Qed.
Lemma existsb_same {A} (f g : A -> bool) l : (forall x, f x = g x) -> existsb f l = existsb g l.
Proof. intros H. induction l as [|x l IH]; [done|]. cbn. by rewrite H, IH. Qed.
Lemma guesses_same e e' l : (forall a, is_own a e = is_own a e') -> guesses e l = guesses e' l.
Proof. intros H. unfold guesses. do 2 f_equal. apply List.filter_ext. by apply guessed_same. Qed.

(** Only whose the entry is counts, and what it says. *)
Lemma told_same log e e' : (forall a, is_own a e = is_own a e') -> se_email e' = se_email e -> (se_code e' = se_code e \/ se_code e' = None) ->
  (se_confirmedAt e' = se_confirmedAt e \/ se_confirmedAt e' = None) -> told log e -> told log e'.
Proof.
  intros Hs Hm Hc Hq [W A]. split.
  - intros c m Ec Em. destruct Hc as [Hc|Hc]; [|congruence]. rewrite Hm in Em. rewrite Hc in Ec. destruct (W c m Ec Em) as (a & code & t & l1 & l2 & H1 & H2 & H3 & H4 & H5 & H6).
    exists a, code, t, l1, l2. rewrite <- Hs, <- (guesses_same _ _ _ Hs), <- (existsb_same _ _ _ (issued_same _ _ Hs)). done.
  - intros q Eq. destruct Hq as [Hq|Hq]; [|congruence]. rewrite Hq in Eq. destruct (A q Eq) as (m & Em & a & a' & code & typed & t & t' & l1 & l2 & l3 & H1 & H2 & H3 & H4 & H5 & H6 & H7 & H8).
    exists m. rewrite Hm. split; [done|]. exists a, a', code, typed, t, t', l1, l2, l3. rewrite <- !Hs, <- (guesses_same _ _ _ Hs), <- (existsb_same _ _ _ (issued_same _ _ Hs)). done.
Qed.

(** What happens to others leaves it. *)
Lemma told_other log e h : issued_to e h = false -> guessed_by e h = false -> told log e -> told (h :: log) e.
Proof.
  intros Hi Hg [W A]. split.
  - intros c m Ec Em. destruct (W c m Ec Em) as (a & code & t & l1 & l2 & -> & H2 & H3 & H4 & H5 & H6). exists a, code, t, (h :: l1), l2.
    unfold guesses in *. cbn [existsb List.filter]. by rewrite Hi, Hg.
  - intros q Eq. destruct (A q Eq) as (m & Em & a & a' & code & typed & t & t' & l1 & l2 & l3 & -> & H). exists m. split; [done|].
    by exists a, a', code, typed, t, t', (h :: l1), l2, l3.
Qed.

Lemma other_owner a e x : is_own a e = true -> se_name x <> se_name e -> is_own a x = false.
Proof. intros H Hne. apply not_true_iff_false. intros Hx. apply is_own_name in H, Hx. congruence. Qed.

Definition pending (account : AccountRef) (m code : string) (now : Z) : PendingCode :=
  {| pc_hash := codeHash account m code; pc_expiresAt := inject_Z (now + CODE_LIFETIME_MS); pc_triesLeft := CODE_TRIES |}.

Lemma pending_ok account m code now : code_ok (pending account m code now).
Proof. split; [apply sha_hex|]. cbn. unfold CODE_TRIES. lia. Qed.

(** ** Each operation *)

Lemma save_told log account email notify current now d : Forall (told log) d -> Forall (told log) (save account email notify current now d).2.
Proof.
  intros H. unfold save. cbn [snd]. set (others := List.filter _ d). assert (Forall (told log) others) as Ho by by apply filter_Forall.
  destruct email as [m|]; [|done]. apply Forall_app. split; [done|]. constructor; [|done]. set (kept := own d account ≫= _).
  assert (forall x, kept = Some x -> x ∈ d /\ is_own account x = true /\ se_email x = Some m) as Hk.
  { unfold kept. intros x. destruct (own d account) as [y|] eqn:Ey; [|done]. cbn [mbind option_bind]. case_bool_decide; [|done]. intros [= <-]. apply own_in in Ey as [? ?]. done. }
  clearbody kept. destruct kept as [x|]; [|split; [by intros c m'|by intros q]]. destruct (Hk x eq_refl) as (Hin & Hx & Em).
  rewrite Forall_forall in H. apply (told_same _ x); [|done|by left|by left|by apply H].
  apply (is_own_same account); [done|]. rewrite is_own_iff. cbn. split; [done|reflexivity].
Qed.

Lemma expect_told log account m code now d : NoDup (map se_name d) -> Forall (told log) d -> (expectCode account m (pending account m code now) d).1 = true ->
  Forall (told (Issued account m code now :: log)) (expectCode account m (pending account m code now) d).2.
Proof.
  intros Hnd H. unfold expectCode. destruct (own d account) as [e|] eqn:Ee; [|done]. destruct (_ || _) eqn:Eb; [done|]. intros _. cbn [snd].
  apply orb_false_iff in Eb as [Em%negb_false_iff%bool_decide_eq_true Eq]. destruct (alter_own_in (with_code (Some (pending account m code now)) (se_confirmedAt e)) account d e Hnd Ee ltac:(done)) as [_ Hx].
  destruct (own_in _ _ _ Ee) as [Hin Ho]. rewrite Forall_forall in H. apply Forall_forall. intros x [->|[Hd Hne]]%Hx.
  - split; [|cbn; intros q Hq; rewrite Hq in Eq; done]. intros c m' [= <-] Em'. cbn in Em'. rewrite Em in Em'. injection Em' as <-. exists account, code, now, [], log. split_and!; done.
  - apply told_other; [cbn; by apply (other_owner _ e)|done|by apply H].
Qed.

(** What a try comes to, where there is something to try. *)
Definition tried (account : AccountRef) (typed : string) (now : Z) (d : settings) : option Happening :=
  match own d account, (tryCode account (fun hash email => bool_decide (hash = codeHash account email typed)) now d).1 with
  | Some {| se_email := Some m |}, IsConfirmed => Some (Confirmed account m typed now)
  | _, IsWrong => Some (Guessed account)
  | _, _ => None
  end.
Definition noted (h : option Happening) (log : list Happening) : list Happening := match h with Some h => h :: log | None => log end.

Lemma try_told log account typed now d : NoDup (map se_name d) -> Forall (told log) d -> waiting account now d = true ->
  Forall (told (noted (tried account typed now d) log)) (tryCode account (fun hash email => bool_decide (hash = codeHash account email typed)) now d).2.
Proof.
  intros Hnd H. unfold waiting, tried, tryCode. destruct (own d account) as [e|] eqn:Ee; [|done]. destruct e as [name created updated [m|] notify [q|] [c|]] eqn:E; try done. cbn [se_code se_email se_confirmedAt].
  rewrite <- E in Ee. intros [Hexp%Qltb_lt Htries%Z.ltb_lt]%andb_true_iff. destruct (own_in _ _ _ Ee) as [Hin Ho]. rewrite Forall_forall in H. destruct (H e Hin) as [W _].
  destruct (W c m) as (a & code & t & l1 & l2 & Hlog & Ha & Hi & Hh & Hx & Hn); [by rewrite E..|]. case_bool_decide as Em; cbn [fst snd noted].
  - destruct (alter_own_in (with_code None (Some (inject_Z now))) account d e Hnd Ee ltac:(done)) as [_ Hx']. apply Forall_forall. intros x [->|[Hd Hne]]%Hx'.
    + split; [done|]. cbn. intros q [= <-]. exists m. split; [by rewrite E|]. exists a, account, code, typed, t, now, [], l1, l2. rewrite Hlog. split_and!; try done.
      * rewrite Hx in Hexp. apply Zlt_Qlt in Hexp || (rewrite <- Zlt_Qlt in Hexp). done.
      * congruence.
      * change (guesses e l1 < CODE_TRIES). lia.
    + apply told_other; [done|done|by apply H].
  - destruct (alter_own_in (with_code (Some {| pc_hash := pc_hash c; pc_expiresAt := pc_expiresAt c; pc_triesLeft := pc_triesLeft c - 1 |}) None) account d e Hnd Ee ltac:(done)) as [_ Hx'].
    apply Forall_forall. intros x [->|[Hd Hne]]%Hx'.
    + split; [|done]. intros c' m' [= <-] Em'. cbn in Em'. rewrite E in Em'. injection Em' as <-. exists a, code, t, (Guessed account :: l1), l2. rewrite Hlog. split_and!; try done.
      cbn [pc_triesLeft]. unfold guesses in *. cbn [List.filter guessed_by]. change (is_own account (with_code _ _ e)) with (is_own account e). rewrite Ho.
      cbn [length]. change (guessed_by (with_code _ _ e)) with (guessed_by e). lia.
    + apply told_other; [done|cbn; by apply (other_owner _ e)|by apply H].
Qed.

Lemma subset_length {A} (l : list StoredSettings) (f : StoredSettings -> A) (k : list A) : NoDup (map f l) -> (forall e, e ∈ l -> f e ∈ k) -> (length l <= length k)%nat.
Proof.
  intros Hn H. rewrite <- (length_map f l). apply NoDup_incl_length; [by apply NoDup_ListNoDup|]. intros a Ha%list_elem_of_In.
  apply list_elem_of_fmap in Ha as (e & -> & He). by apply list_elem_of_In, H.
Qed.

Lemma save_settings_ok account email notify current now d : doc_ok d -> is_name (ar_name account) = true -> canonical notify -> (length current < Z.to_nat 10000)%nat ->
  (forall m, email = Some m -> emailAddress (Some (JStr m)) = Some m) -> doc_ok (save account email notify current now d).2.
Proof.
  intros (Hl & Hn & He) Hname Hnot Hcur Hm. unfold save. cbn [snd]. set (others := List.filter _ d).
  assert (NoDup (map se_name others)) as Ho by by apply filter_nodup. assert (Forall entry_ok others) as Hoe by by apply filter_Forall.
  assert (forall e, e ∈ others -> se_name e <> ar_name account /\ se_name e ∈ map ar_name current) as Hin.
  { intros e Hx%list_elem_of_In. apply filter_In in Hx as [_ [Hne%negb_true_iff%bool_decide_eq_false Ha]%andb_true_iff]. split; [done|]. unfold alive in Ha. apply existsb_exists in Ha as (live & Hlive & Hown).
    apply is_own_name in Hown as ->. apply list_elem_of_fmap_2. by apply list_elem_of_In. }
  pose proof (subset_length others se_name (map ar_name current) Ho (fun e H => proj2 (Hin e H))) as Hlen. rewrite length_map in Hlen.
  destruct email as [m|]; [|split_and!; [lia|done|done]]. split_and!.
  - rewrite length_app. cbn [length]. lia.
  - rewrite map_app. cbn. apply nodup_snoc; [done|]. intros Hx. apply list_elem_of_fmap in Hx as (e & E & Hx). by apply (proj1 (Hin e Hx)).
  - apply Forall_app. split; [done|]. constructor; [|done]. constructor; cbn; [done|done|done|done|]. intros c Hc. destruct (own d account) as [x|] eqn:Ex; [|done]. cbn in Hc.
    case_bool_decide; [|done]. cbn in Hc. apply own_in in Ex as [Hx _]. rewrite Forall_forall in He. by apply (eo_code _ (He x Hx)).
Qed.

Lemma alter_own_ok f account d e : doc_ok d -> own d account = Some e -> (forall x, se_name (f x) = se_name x) -> (entry_ok e -> entry_ok (f e)) -> doc_ok (alter_first (is_own account) f d).
Proof.
  intros (Hl & Hn & He) Ho Hf Hok. destruct (alter_own_in f account d e Hn Ho Hf) as [Hnames Hin]. rewrite Forall_forall in He. split_and!.
  - rewrite <- (length_map se_name), Hnames, length_map. done.
  - by rewrite Hnames.
  - apply Forall_forall. intros x [->|[Hx _]]%Hin; [|by apply He]. by apply Hok, He, (own_in _ account).
Qed.

Lemma expect_ok account m code now d : doc_ok d -> doc_ok (expectCode account m (pending account m code now) d).2.
Proof.
  intros Hd. unfold expectCode. destruct (own d account) as [e|] eqn:Ee; [|done]. destruct (_ || _); [done|]. cbn [snd]. apply (alter_own_ok _ _ _ e); [done|done|done|].
  intros [H1 H2 H3 H4 H5]. constructor; cbn; try done. intros c [= <-]. apply pending_ok.
Qed.

Lemma try_ok account matches now d : doc_ok d -> waiting account now d = true -> doc_ok (tryCode account matches now d).2.
Proof.
  intros Hd. unfold waiting, tryCode. destruct (own d account) as [e|] eqn:Ee; [|done]. destruct e as [name created updated [m|] notify [q|] [c|]] eqn:E; try done. cbn [se_code se_email se_confirmedAt].
  rewrite <- E in Ee. intros [_ Htries%Z.ltb_lt]%andb_true_iff. destruct (matches (pc_hash c) m); cbn [snd]; (apply (alter_own_ok _ _ _ e); [done|done|done|]); intros [H1 H2 H3 H4 H5]; constructor; cbn; try done.
  - rewrite E. done.
  - intros c' [= <-]. destruct (H5 c) as [? ?]; [by rewrite E|]. split; [done|]. cbn. lia.
Qed.

(** ** The file *)

Definition version (d : disk) : option nat := f_id <$> d.
Definition in_file_now (d : disk) : option settings := stored emptySettings parseSettings d.
Definition fresh_store (d : disk) (s : store) : Prop := store_ok emptySettings parseSettings d s.

Lemma on_file_spec {R} (change : settings -> R * settings) io d s doc r s' d' : fresh_store d s -> in_file_now d = Some doc -> doc_ok doc -> doc_ok (change doc).2 ->
  on_file change io d s = (r, s', d') ->
  fresh_store d' s' /\ ((d' = d /\ is_ok r = false) \/ (version d' <> version d /\ in_file_now d' = Some (change doc).2 /\ (r = Ok (change doc).1 \/ is_ok r = false))).
Proof.
  intros Hs Hdoc Hok Hok' H. unfold on_file in H.
  destruct (update emptySettings parseSettings settings_json (fun doc => Ok (change doc)) io d s) as [[r0 s0] d0] eqn:Eu.
  assert (s0 = s' /\ d0 = d' /\ (r = match r0 with Ok x => Ok x | Err _ => Err "STORAGE_UNAVAILABLE" end)) as (-> & -> & ->) by (destruct r0; by injection H as <- <- <-).
  pose proof Eu as Hu. apply update_spec in Hu as [Hs' _]; [|intros doc0 x doc' E [= Ec0]; unfold in_file_now in Hdoc; rewrite E in Hdoc; injection Hdoc as ->; rewrite Ec0 in Hok'; by apply settings_back|done].
  split; [done|]. unfold update in Eu. destruct (Documents.read _ _ io d s) as [q s1] eqn:Er. destruct (read_spec _ _ _ _ _ _ _ Hs Er) as [_ [->|(doc1 & -> & Hd)]]; [injection Eu as <- <- <-; by left|].
  unfold in_file_now in Hdoc. rewrite Hd in Hdoc. injection Hdoc as ->. destruct (change doc) as [x doc'] eqn:Ec. cbn [fst snd] in *. unfold writePrivateJson in Eu.
  assert (forall v : disk, v = Some {| f_id := match d with Some v => S (f_id v) | None => O end; f_content := Some (settings_json doc'); f_size := json_bytes (settings_json doc') |} -> version v <> version d /\ in_file_now v = Some doc') as Hnew.
  { intros v ->. split; [destruct d as [w|]; cbn; [intros [= E]; lia|done]|]. unfold in_file_now, stored. cbn [f_content mbind option_bind]. by apply settings_back. }
  destruct (io_write io); injection Eu as <- <- <-; [right|by left|right]; destruct (Hnew _ eq_refl) as [H1 H2]; split_and!; try done; first [by left|by right].
Qed.

(** A file that was written notes what happened. *)
Definition noted_in (d d' : disk) (h : option Happening) (log : list Happening) : list Happening := if bool_decide (version d' = version d) then log else noted h log.

(** The file and the process over it, from the first start on. [found] is the
    account of the session, [current] the accounts there are. *)
Inductive room : disk -> store -> list Happening -> Prop :=
| room_new : room None new_store []
| room_restart d s log : room d s log -> room d new_store log
| room_read io d s r s' log : room d s log -> read_file io d s = (r, s') -> room d s' log
| room_save actor p input current now io d s r s' d' log : room d s log -> is_name (pf_name p) = true -> (length current < Z.to_nat 10000)%nat ->
    saveSettings actor (Some p) input (Ok current) now io d s = (r, s', d') -> room d' s' log
| room_send actor p mailer code now io io' d s r s' d' mail log : room d s log ->
    sendCode actor (Some p) mailer code now io io' d s = (r, s', d', mail) ->
    room d' s' (noted_in d d' (Some (Issued (ref_of p) (default EmptyString (in_file_now d ≫= fun doc => as_email (read_own (ref_of p) doc))) code now)) log)
| room_confirm actor p input now io io' io'' d s r s' d' log : room d s log -> confirmEmail actor (Some p) input now io io' io'' d s = (r, s', d') ->
    room d' s' (noted_in d d' (in_file_now d ≫= fun doc => match checked_code input with Ok typed => tried (ref_of p) typed now doc | Err _ => None end) log).

Record room_ok (d : disk) (s : store) (log : list Happening) : Prop := {
  ro_store : fresh_store d s; ro_doc : exists doc, in_file_now d = Some doc /\ doc_ok doc /\ Forall (told log) doc }.

Lemma noted_same d h log : noted_in d d h log = log.
Proof. unfold noted_in. by rewrite bool_decide_eq_true_2. Qed.
Lemma noted_new d d' h log : version d' <> version d -> noted_in d d' h log = noted h log.
Proof. intros H. unfold noted_in. by rewrite bool_decide_eq_false_2. Qed.

Lemma read_file_spec io d s r s' doc : fresh_store d s -> in_file_now d = Some doc -> read_file io d s = (r, s') -> fresh_store d s' /\ (r = Ok doc \/ exists e, r = Err e).
Proof.
  intros Hs Hd Hr. apply read_spec in Hr as [Hs' [->|(doc' & -> & Hd')]]; [split; [done|right; by eexists]| |done]. split; [done|left]. unfold in_file_now in Hd. congruence.
Qed.

(** A change of the file, with what it notes. *)
Lemma change_ok {R} (change : settings -> R * settings) h io d s log r s' d' : room_ok d s log ->
  (forall doc, in_file_now d = Some doc -> doc_ok doc -> Forall (told log) doc -> doc_ok (change doc).2 /\ Forall (told (noted h log)) (change doc).2) ->
  on_file change io d s = (r, s', d') -> room_ok d' s' (noted_in d d' h log).
Proof.
  intros [Hs (doc & Hd & Hok & Ht)] Hch H. destruct (Hch doc Hd Hok Ht) as [Hok' Ht']. destruct (on_file_spec _ _ _ _ _ _ _ _ Hs Hd Hok Hok' H) as [Hs' [[-> _]|(Hv & Hd' & _)]].
  - rewrite noted_same. constructor; [done|]. by exists doc.
  - rewrite noted_new by done. constructor; [done|]. by exists (change doc).2.
Qed.

Lemma saved_settings_ok input email notify : checked_settings input = Ok (email, notify) -> canonical notify /\ forall m, email = Some m -> emailAddress (Some (JStr m)) = Some m.
Proof.
  unfold checked_settings. intros H. apply rbind_ok in H as (body & _ & H). set (blank := match field "email" body with Some _ => _ | None => _ end) in H.
  assert (forall m, (if blank then None else emailAddress (field "email" body)) = Some m -> emailAddress (Some (JStr m)) = Some m) as He.
  { intros m Hm. destruct blank; [done|]. by eapply emailAddress_again. }
  set (e := if blank then None else _) in *. clearbody e blank. destruct (negb blank && negb (is_some e)); [done|]. cbn in H. destruct (emailTopics _) as [ts|] eqn:Et; [|done]. injection H as <- <-.
  split; [|done]. destruct e; [|by exists []]. unfold emailTopics in Et. destruct (_ ≫= as_array) as [l|]; [|done]. cbn [mbind option_bind] in Et. destruct (Nat.ltb _ _); [done|].
  destruct (mapM isTopic l) as [ts'|]; [|done]. cbn in Et. injection Et as <-. by exists ts'.
Qed.

(** What a person sees of the file decides whether a code can be kept. *)
Lemma expect_own account m d : as_email (read_own account d) = Some m -> as_confirmed (read_own account d) = false -> forall c, (expectCode account m c d).1 = true.
Proof.
  unfold read_own, expectCode. intros He Hc c. destruct (own d account) as [e|]; [|done]. cbn in *. destruct (se_confirmedAt e); [done|]. by rewrite bool_decide_eq_true_2.
Qed.

Lemma send_ok actor p mailer code now io io' d s r s' d' mail log : room_ok d s log -> sendCode actor (Some p) mailer code now io io' d s = (r, s', d', mail) ->
  room_ok d' s' (noted_in d d' (Some (Issued (ref_of p) (default EmptyString (in_file_now d ≫= fun doc => as_email (read_own (ref_of p) doc))) code now)) log).
Proof.
  intros [Hs (doc & Hd & Hok & Ht)] H. assert (room_ok d s log) as Hro by (constructor; [done|by exists doc]). rewrite Hd. cbn [mbind option_bind]. unfold sendCode, profileOf in H.
  destruct (negb (pr_namedAccount actor)); [injection H as _ <- <- _; by rewrite noted_same|]. destruct mailer as [delivery|]; [|injection H as _ <- <- _; by rewrite noted_same].
  destruct (read_file io d s) as [q s1] eqn:Er. destruct (read_file_spec _ _ _ _ _ _ Hs Hd Er) as [Hs1 [->|(e & ->)]]; [|injection H as _ <- <- _; rewrite noted_same; constructor; [done|by exists doc]].
  assert (room_ok d s1 log) as Hro1 by (constructor; [done|by exists doc]).
  destruct (as_email (read_own (ref_of p) doc)) as [m|] eqn:Em; [|injection H as _ <- <- _; by rewrite noted_same]. destruct (as_confirmed _) eqn:Ec; [injection H as _ <- <- _; by rewrite noted_same|].
  cbn [default]. change ({| pc_hash := _; pc_expiresAt := _; pc_triesLeft := _ |}) with (pending (ref_of p) m code now) in H.
  destruct (on_file (expectCode (ref_of p) m (pending (ref_of p) m code now)) io' d s1) as [[r0 s2] d2] eqn:Eo.
  assert (s2 = s' /\ d2 = d') as [-> ->] by (destruct r0 as [[]|]; by injection H as _ <- <- _).
  eapply (change_ok _ (Some (Issued (ref_of p) m code now))); [exact Hro1| |exact Eo]. intros doc0 E Hok0 Ht0. rewrite Hd in E. injection E as <-. split; [by apply expect_ok|].
  apply expect_told; [apply Hok|done|by apply expect_own].
Qed.

Lemma confirm_ok actor p input now io io' io'' d s r s' d' log : room_ok d s log -> confirmEmail actor (Some p) input now io io' io'' d s = (r, s', d') ->
  room_ok d' s' (noted_in d d' (in_file_now d ≫= fun doc => match checked_code input with Ok typed => tried (ref_of p) typed now doc | Err _ => None end) log).
Proof.
  intros [Hs (doc & Hd & Hok & Ht)] H. assert (room_ok d s log) as Hro by (constructor; [done|by exists doc]). rewrite Hd. cbn [mbind option_bind]. unfold confirmEmail, profileOf in H.
  destruct (negb (pr_namedAccount actor)); [injection H as _ <- <-; by rewrite noted_same|]. cbn [rbind] in H. destruct (checked_code input) as [typed|e]; [|injection H as _ <- <-; by rewrite noted_same]. cbn [rbind] in H.
  destruct (try_on_file _ _ _ _ _ _ _) as [[o s1] d1] eqn:Et. assert (room_ok d1 s1 (noted_in d d1 (tried (ref_of p) typed now doc) log)) as H1.
  { unfold try_on_file in Et. destruct (read_file io d s) as [q s2] eqn:Er. destruct (read_file_spec _ _ _ _ _ _ Hs Hd Er) as [Hs2 [->|(e & ->)]]; [|injection Et as _ <- <-; rewrite noted_same; constructor; [done|by exists doc]].
    assert (room_ok d s2 log) as Hro2 by (constructor; [done|by exists doc]). destruct (waiting _ _ _) eqn:Ew; [|injection Et as _ <- <-; by rewrite noted_same].
    eapply (change_ok _ (tried (ref_of p) typed now doc)); [exact Hro2| |exact Et]. intros doc0 E Hok0 Ht0. rewrite Hd in E. injection E as <-. split; [by apply try_ok|]. apply try_told; [apply Hok|done|done]. }
  destruct o as [[]|e]; [|by injection H as _ <- <-..]. destruct (read_file io'' d1 s1) as [q s2] eqn:Er. assert (s2 = s' /\ d1 = d') as [<- <-] by (destruct q; by injection H as _ <- <-).
  destruct H1 as [Hs1 (doc1 & Hd1 & ? & ?)]. destruct (read_file_spec _ _ _ _ _ _ Hs1 Hd1 Er) as [? _]. constructor; [done|by exists doc1].
Qed.

Lemma room_holds d s log : room d s log -> room_ok d s log.
Proof.
  induction 1 as [|d s log _ [_ IH]|io d s r s' log _ [IHs (doc & Hd & IH)] Hr|actor p input current now io d s r s' d' log _ IH Hname Hcur Hr| |].
  - constructor; [done|]. exists []. split; [done|]. split; [|done]. split; [cbn; lia|]. split; constructor.
  - by constructor.
  - destruct (read_file_spec _ _ _ _ _ _ IHs Hd Hr) as [? _]. constructor; [done|by exists doc].
  - unfold saveSettings, profileOf in Hr. destruct (negb (pr_namedAccount actor)); [by injection Hr as _ <- <-|]. cbn [rbind] in Hr.
    destruct (checked_settings input) as [[email notify]|e] eqn:Ec; [|by injection Hr as _ <- <-]. cbn [rbind] in Hr. destruct (saved_settings_ok _ _ _ Ec) as [Hnot Hm].
    replace log with (noted_in d d' None log) by (unfold noted_in; by case_bool_decide). eapply change_ok; [exact IH| |exact Hr]. intros doc Hd Hok Ht. split; [by apply save_settings_ok|by apply save_told].
  - by eapply send_ok.
  - by eapply confirm_ok.
Qed.

(** C29: Mail is sent to nobody but those who asked for it. Whatever the file
    system does and however often the process starts again, everybody whom
    news is sent to is an account there is, of that name and that making (a
    later account of the name inherits nothing), at an address which that
    account confirmed: a code was issued to it for this very address, was typed
    back by it within half an hour and after fewer than five wrong tries, and
    no other code had been issued in between. *)
Theorem news_goes_to_confirmed_addresses d s log current u doc : room d s log -> in_file_now d = Some doc -> u ∈ subscribers current doc ->
  (exists live, live ∈ current /\ ar_name live = su_name u /\ (ar_createdAt live == su_createdAt u)%Q) /\
  exists e q, e ∈ doc /\ se_name e = su_name u /\ se_accountCreatedAt e = su_createdAt u /\ se_confirmedAt e = Some q /\ answered log e (su_email u) q.
Proof.
  intros Hr Hd Hu. destruct (room_holds _ _ _ Hr) as [_ (doc' & Hd' & Hok & Ht)]. rewrite Hd in Hd'. injection Hd' as <-. unfold subscribers in Hu. apply list_elem_of_omap in Hu as (e & He & Hu).
  destruct (se_email e) as [m|] eqn:Em; [|done]. destruct (se_confirmedAt e) as [q|] eqn:Eq; [|done]. destruct (_ || _) eqn:Eb; [done|]. injection Hu as <-. cbn.
  apply orb_false_iff in Eb as [_ Ha%negb_false_iff]. rewrite Forall_forall in Ht. destruct (Ht e He) as [_ A]. destruct (A q Eq) as (m' & Em' & Hans). rewrite Em in Em'. injection Em' as <-. split.
  - unfold alive in Ha. apply existsb_exists in Ha as (live & Hl & [Hn Hc]%is_own_iff). exists live. split; [by apply list_elem_of_In|]. by rewrite Hn, Hc.
  - by exists e, q.
Qed.
End life.

Module Ann.
#[local] Existing Instance Flashers.Run.demo_sha.
#[local] Existing Instance Flashers.Run.demo_sha_laws.

Definition flat (v : json) : list Z := match v with JStr s => bytes_of_string s | _ => [] end.
#[local] Instance flat_text : JsonText := {| json_parse _ := None; json_text v := match v with JArr l => l ≫= flat | _ => [] end |}.

Definition fine : Io := {| io_stat := true; io_read := true; io_write := Written; io_again := true |}.
Definition ann : AdminPrincipal := principal "ann" Engineer true.
Definition anns : AccountProfile := {| pf_name := "ann"; pf_role := Engineer; pf_teamRoles := []; pf_createdAt := 7 |}.
Definition wish : json := JObj [("email", JStr " Ann.Lee@HKU.hk "); ("notify", JArr [JStr "task"; JStr "sensor"])].

Definition saved := saveSettings ann (Some anns) wish (Ok [ref_of anns]) 0 fine None new_store.
Definition mailed := sendCode ann (Some anns) (Some Delivered) "123456" 1000 fine fine saved.2 saved.1.2.
Definition wrong := confirmEmail ann (Some anns) (JObj [("code", JStr "111111")]) 2000 fine fine fine mailed.1.2 mailed.1.1.2.
Definition right := confirmEmail ann (Some anns) (JObj [("code", JStr "123456")]) 3000 fine fine fine wrong.2 wrong.1.2.

Example what_ann_is_told : (saved.1.1, mailed.1.1.1, mailed.2, wrong.1.1, right.1.1) =
  (Ok {| as_email := Some "Ann.Lee@hku.hk"; as_notify := [TSensor; TTask]; as_confirmed := false |}, Ok 1801000, Some ("Ann.Lee@hku.hk", "123456"), Err "WRONG_CODE",
   Ok {| as_email := Some "Ann.Lee@hku.hk"; as_notify := [TSensor; TTask]; as_confirmed := true |}).
Proof. by vm_compute. Qed.

Definition history : list Happening := [Confirmed (ref_of anns) "Ann.Lee@hku.hk" "123456" 3000; Guessed (ref_of anns); Issued (ref_of anns) "Ann.Lee@hku.hk" "123456" 1000].

Lemma ann_confirmed : room right.2 right.1.2 history.
Proof.
  assert (room saved.2 saved.1.2 []) as H1.
  { eapply (room_save ann anns wish [ref_of anns] 0 fine None new_store saved.1.1); [apply room_new|done|cbn; lia|by vm_compute]. }
  assert (room mailed.1.2 mailed.1.1.2 [Issued (ref_of anns) "Ann.Lee@hku.hk" "123456" 1000]) as H2.
  { exact (room_send ann anns (Some Delivered) "123456" 1000 fine fine _ _ mailed.1.1.1 _ _ mailed.2 _ H1 ltac:(by vm_compute)). }
  assert (room wrong.2 wrong.1.2 [Guessed (ref_of anns); Issued (ref_of anns) "Ann.Lee@hku.hk" "123456" 1000]) as H3.
  { exact (room_confirm ann anns (JObj [("code", JStr "111111")]) 2000 fine fine fine _ _ wrong.1.1 _ _ _ H2 ltac:(by vm_compute)). }
  exact (room_confirm ann anns (JObj [("code", JStr "123456")]) 3000 fine fine fine _ _ right.1.1 _ _ _ H3 ltac:(by vm_compute)).
Qed.

Lemma news_goes_to_confirmed_addresses_witness : exists u doc, in_file_now right.2 = Some doc /\ subscribers [ref_of anns] doc = [u] /\ su_email u = "Ann.Lee@hku.hk" /\
  exists e q, e ∈ doc /\ se_confirmedAt e = Some q /\ answered history e (su_email u) q.
Proof.
  set (u := {| su_name := "ann"; su_createdAt := 7; su_email := "Ann.Lee@hku.hk"; su_notify := [TSensor; TTask] |}).
  set (e := {| se_name := "ann"; se_accountCreatedAt := 7; se_updatedAt := 0; se_email := Some "Ann.Lee@hku.hk"; se_notify := [TSensor; TTask]; se_confirmedAt := Some (inject_Z 3000); se_code := None |}).
  assert (in_file_now right.2 = Some [e]) as Hd by by vm_compute. assert (subscribers [ref_of anns] [e] = [u]) as Hs by by vm_compute.
  exists u, [e]. split; [exact Hd|]. split; [exact Hs|]. split; [done|].
  destruct (news_goes_to_confirmed_addresses right.2 right.1.2 history [ref_of anns] u [e] ann_confirmed Hd) as [_ (e' & q & H1 & _ & _ & H2 & H3)]; [rewrite Hs; by left|].
  exists e', q. split; [exact H1|]. split; [exact H2|exact H3].
Defined.

(** A later account of the name has nothing to see and nothing to answer. *)
Example a_later_ann_inherits_nothing : let later := {| ar_name := "ann"; ar_createdAt := 8 |} in
  (read_own later <$> in_file_now right.2) = Some NO_SETTINGS /\ (subscribers [later] <$> in_file_now right.2) = Some [].
Proof. by vm_compute. Qed.
End Ann.
