(* ===== verification/Delivery.v ===== *)
(** What is emailed to a person, and when
    (src/modules/algo-admin/domain/email-delivery.ts), one pass over all who are
    to be written to (src/modules/algo-admin/use-cases/deliver-email-notifications.ts),
    and what a person gets over many passes. The wording of a message is not
    modelled. *)

From S2P Require Import Prelude Json Bytes Secure NodeServer Sessions Accounts Documents Settings.

(** @modules/algo-admin/domain/email-delivery.ts 26-35 TICK_MS *)
Definition HOLD_MS : Z := 10 * 60000.
Definition MIN_GAP_MS : Z := 15 * 60000.
Definition DAILY_LIMIT : Z := 12.
Definition REMEMBER_MS : Z := 24 * 60 * 60000.
Definition MAX_REMEMBERED : nat := Z.to_nat 1000.
Definition TOUCH_MS : Z := 60 * 60000.

(** @modules/algo-admin/domain/email-delivery.ts 37-50 NewsItem *)
Record NewsItem := {
  ni_key : string; ni_topic : EmailTopic; ni_subject : string; ni_event : string; ni_detail : option string; ni_at : option Q; ni_ongoing : bool; ni_path : string }.
(** @modules/algo-admin/domain/email-delivery.ts 52-52 News *)
Record News := { ns_items : list NewsItem; ns_answered : list EmailTopic }.
(** @modules/algo-admin/domain/email-delivery.ts 54-62 Remembered *)
Record Remembered := { rm_key : string; rm_topic : EmailTopic; rm_settled : bool; rm_since : Q; rm_lastPresentAt : Q }.
(** @modules/algo-admin/domain/email-delivery.ts 63-63 DeliveryRecord *)
Record DeliveryRecord := { dr_name : string; dr_accountCreatedAt : Q; dr_items : list Remembered; dr_lastTriedAt : Q; dr_day : string; dr_sentToday : Q }.
#[export] Instance Remembered_eq : EqDecision Remembered.
Proof. solve_decision. Defined.
#[export] Instance DeliveryRecord_eq : EqDecision DeliveryRecord.
Proof. solve_decision. Defined.
(** A [DeliveryDocument]: its accounts. *)
Notation ledger := (list DeliveryRecord).

(** ** The file *)

(** [/^(\d{4}-\d{2}-\d{2})?$/] *)
Definition is_day_text (s : string) : bool := bool_decide (s = EmptyString) || is_date s.
(** [/^[0-9a-f]{24}$/] *)
Definition is_hex24 (s : string) : bool := Nat.eqb (String.length s) 24 && forallb is_hex_lower (chars s).

(** @modules/algo-admin/domain/email-delivery.ts 81-86 parseDelivery *)
Definition parse_remembered (item : json) : option Remembered :=
  o ← as_object item;
  key ← text_where is_hex24 (field "key" o);
  topic ← field "topic" o ≫= isTopic;
  settled ← field "settled" o ≫= as_bool;
  since ← time_of (field "since" o);
  lastPresentAt ← time_of (field "lastPresentAt" o);
  Some {| rm_key := key; rm_topic := topic; rm_settled := settled; rm_since := since; rm_lastPresentAt := lastPresentAt |}.

(** @modules/algo-admin/domain/email-delivery.ts 76-87 parseDelivery *)
Definition parse_record (entry : json) : option DeliveryRecord :=
  o ← as_object entry;
  name ← text_where is_name (field "name" o);
  created ← time_of (field "accountCreatedAt" o);
  tried ← time_of (field "lastTriedAt" o);
  day ← text_where is_day_text (field "day" o);
  sentToday ← time_of (field "sentToday" o);
  l ← field "items" o ≫= as_array;
  if Nat.ltb MAX_REMEMBERED (length l) then None
  else items ← mapM parse_remembered l; Some {| dr_name := name; dr_accountCreatedAt := created; dr_items := items; dr_lastTriedAt := tried; dr_day := day; dr_sentToday := sentToday |}.

(** @modules/algo-admin/domain/email-delivery.ts 71-76 parseDelivery *)
Definition parseDelivery (value : json) : option ledger :=
  o ← as_object value;
  l ← field "accounts" o ≫= as_array;
  if negb (version_one o) || Nat.ltb (Z.to_nat 10000) (length l) then None else mapM parse_record l.

Definition remembered_json (r : Remembered) : json :=
  JObj [("key", JStr (rm_key r)); ("topic", JStr (topic_text (rm_topic r))); ("settled", JBool (rm_settled r)); ("since", JNum (rm_since r)); ("lastPresentAt", JNum (rm_lastPresentAt r))].
Definition record_json (r : DeliveryRecord) : json :=
  JObj [("name", JStr (dr_name r)); ("accountCreatedAt", JNum (dr_accountCreatedAt r)); ("items", JArr (map remembered_json (dr_items r)));
        ("lastTriedAt", JNum (dr_lastTriedAt r)); ("day", JStr (dr_day r)); ("sentToday", JNum (dr_sentToday r))].
Definition ledger_json (d : ledger) : json := JObj [("version", JInt 1); ("accounts", JArr (map record_json d))].

(** ** Days *)

Definition day_number (now : Z) : Z := now / 86400000.
(** [s.padStart(n, '0')] of a number. *)
Definition padded (n : nat) (z : Z) : string := String.string_of_list_ascii (List.repeat (Ascii.ascii_of_N 48) (n - String.length (show z))) +:+ show z.
(** The date of a day that is counted from 1970-01-01, of the years 0 to 9999. *)
Definition iso_date (days : Z) : string :=
  let z := days + 719468 in
  let era := z / 146097 in
  let doe := z - era * 146097 in
  let yoe := (doe - doe / 1460 + doe / 36524 - doe / 146096) / 365 in
  let doy := doe - (365 * yoe + yoe / 4 - yoe / 100) in
  let mp := (5 * doy + 2) / 153 in
  let d := doy - (153 * mp + 2) / 5 + 1 in
  let m := if mp <? 10 then mp + 3 else mp - 9 in
  padded 4 (yoe + era * 400 + (if m <=? 2 then 1 else 0)) +:+ "-" +:+ padded 2 m +:+ "-" +:+ padded 2 d.
(** @modules/algo-admin/domain/email-delivery.ts 91-91 dayOf *)
Definition dayOf (now : Z) : string := iso_date (day_number now).

Example some_days : map iso_date [0; 59; 19782; 19783; 20820; 11016] = ["1970-01-01"; "1970-03-01"; "2024-02-29"; "2024-03-01"; "2027-01-02"; "2000-02-29"].
Proof. by vm_compute. Qed.

(** ** One step for one person *)

Section plan.
Context {sha : Sha}.

(** The UTF-8 of a text of code units below 256. *)
Definition utf8 (s : string) : list Z := chars s ≫= fun c => if code c <? 128 then [code c] else [192 + code c / 64; 128 + code c mod 64].
(** @modules/algo-admin/domain/email-delivery.ts 90-90 hashed *)
Definition hashed (key : string) : string := String.substring 0 24 (to_hex (sha256 (utf8 key))).

(** What is there now, under its hash.
    @modules/algo-admin/domain/email-delivery.ts 99-99 plan *)
Definition present (news : News) : list (string * NewsItem) := fold_left (fun m i => om_set (hashed (ni_key i)) i m) (ns_items news) [].

(** At least so long after. *)
Definition since_ge (now : Z) (t : Q) (ms : Z) : bool := Qle_bool (inject_Z ms) (inject_Z now - t).

(** What becomes of something that is remembered.
    @modules/algo-admin/domain/email-delivery.ts 108-116 plan *)
Definition keep (here : list (string * NewsItem)) (answered wanted : list EmailTopic) (now : Z) (kept : Remembered) : option Remembered :=
  let settled := rm_settled kept || negb (includes (rm_topic kept) wanted) || since_ge now (rm_since kept) REMEMBER_MS in
  if om_has (rm_key kept) here
  then Some {| rm_key := rm_key kept; rm_topic := rm_topic kept; rm_settled := settled; rm_since := rm_since kept;
               rm_lastPresentAt := if since_ge now (rm_lastPresentAt kept) TOUCH_MS then inject_Z now else rm_lastPresentAt kept |}
  else if negb (includes (rm_topic kept) answered)
  then Some {| rm_key := rm_key kept; rm_topic := rm_topic kept; rm_settled := settled; rm_since := rm_since kept; rm_lastPresentAt := rm_lastPresentAt kept |}
  else if rm_settled kept && negb (since_ge now (rm_lastPresentAt kept) REMEMBER_MS) then Some kept else None.

(** Something new.
    @modules/algo-admin/domain/email-delivery.ts 118-118 plan *)
Definition fresh (wanted : list EmailTopic) (now : Z) (p : string * NewsItem) : Remembered :=
  {| rm_key := p.1; rm_topic := ni_topic p.2; rm_settled := negb (includes (ni_topic p.2) wanted); rm_since := inject_Z now; rm_lastPresentAt := inject_Z now |}.

(** Before the oldest go.
    @modules/algo-admin/domain/email-delivery.ts 107-118 plan *)
Definition all_items (here : list (string * NewsItem)) (answered wanted : list EmailTopic) (now : Z) (items : list Remembered) : list Remembered :=
  let kept := omap (keep here answered wanted now) items in
  kept ++ map (fresh wanted now) (List.filter (fun p => negb (includes p.1 (map rm_key kept))) here).

(** @modules/algo-admin/domain/email-delivery.ts 119-120 plan *)
Definition bounded (items : list Remembered) : list Remembered :=
  if Nat.ltb MAX_REMEMBERED (length items)
  then drop (length items - MAX_REMEMBERED) (isort (fun a b => Qle_bool (rm_lastPresentAt a) (rm_lastPresentAt b)) items) else items.

(** Whether it is time to say something: it is there, not settled, and lasts.
    @modules/algo-admin/domain/email-delivery.ts 126-129 plan *)
Definition ready_item (here : list (string * NewsItem)) (now : Z) (kept : Remembered) : option NewsItem :=
  item ← om_get (rm_key kept) here;
  if negb (rm_settled kept) && (negb (ni_ongoing item) || since_ge now (rm_since kept) HOLD_MS) then Some item else None.

(** @modules/algo-admin/domain/email-delivery.ts 98-131 plan *)
Definition plan (previous : option DeliveryRecord) (name : string) (createdAt : Q) (news : News) (notify : list EmailTopic) (now : Z) : option DeliveryRecord * list NewsItem :=
  let here := present news in
  match previous with
  | None =>
      if existsb (fun t => negb (includes t (ns_answered news))) EMAIL_TOPICS then (None, [])
      else
        let items := map (fun p => {| rm_key := p.1; rm_topic := ni_topic p.2; rm_settled := true; rm_since := inject_Z now; rm_lastPresentAt := inject_Z now |}) here in
        (Some {| dr_name := name; dr_accountCreatedAt := createdAt; dr_items := take MAX_REMEMBERED items; dr_lastTriedAt := 0; dr_day := dayOf now; dr_sentToday := 0 |}, [])
  | Some previous =>
      let items := bounded (all_items here (ns_answered news) notify now (dr_items previous)) in
      let sentToday := if bool_decide (dr_day previous = dayOf now) then dr_sentToday previous else 0%Q in
      let due := since_ge now (dr_lastTriedAt previous) MIN_GAP_MS && Qltb sentToday (inject_Z DAILY_LIMIT) in
      (Some {| dr_name := name; dr_accountCreatedAt := createdAt; dr_items := items; dr_lastTriedAt := dr_lastTriedAt previous; dr_day := dayOf now; dr_sentToday := sentToday |},
       if due then omap (ready_item here now) items else [])
  end.

Definition settle (keys : list string) (r : Remembered) : Remembered :=
  if includes (rm_key r) keys
  then {| rm_key := rm_key r; rm_topic := rm_topic r; rm_settled := true; rm_since := rm_since r; rm_lastPresentAt := rm_lastPresentAt r |} else r.

(** @modules/algo-admin/domain/email-delivery.ts 134-140 afterSending *)
Definition afterSending (record : DeliveryRecord) (tried : list NewsItem) (delivered : bool) (now : Z) : DeliveryRecord :=
  let keys := map (fun i => hashed (ni_key i)) tried in
  {| dr_name := dr_name record; dr_accountCreatedAt := dr_accountCreatedAt record;
     dr_items := if delivered then map (settle keys) (dr_items record) else dr_items record;
     dr_lastTriedAt := inject_Z now; dr_day := dr_day record; dr_sentToday := (dr_sentToday record + (if delivered then 1 else 0))%Q |}.

(** What one pass does for one person: the record, and what the message listed
    that the mail service was asked to send.
    @modules/algo-admin/use-cases/deliver-email-notifications.ts 54-64 run *)
Definition serve_one (previous : option DeliveryRecord) (name : string) (createdAt : Q) (news : News) (notify : list EmailTopic) (now : Z) (delivered : bool) :
    option DeliveryRecord * option (list NewsItem) :=
  let (record, ready) := plan previous name createdAt news notify now in
  match record, ready with
  | Some r, _ :: _ => (Some (afterSending r ready delivered now), Some ready)
  | _, _ => (record, None)
  end.

(** ** A pass over everybody *)

(** What is found out about somebody who is to be written to: the account, the
    news ([None] when it could not be had), the time, and whether the mail
    service took the message. *)
Record Found := { fd_profile : option AccountProfile; fd_news : option News; fd_now : Z; fd_delivered : bool }.

(** The record that is kept, and the message: to whom, and what it lists.
    @modules/algo-admin/use-cases/deliver-email-notifications.ts 46-66 run *)
Definition visit (before : ledger) (u : Subscriber) (f : Found) : option DeliveryRecord * option (string * list NewsItem) :=
  match fd_profile f with
  | Some p =>
      if negb (Qeqb (pf_createdAt p) (su_createdAt u)) then (None, None)
      else
        let previous := List.find (fun e => bool_decide (dr_name e = pf_name p) && Qeqb (dr_accountCreatedAt e) (pf_createdAt p)) before in
        match fd_news f with
        | None => (previous, None)
        | Some news =>
            let (record, message) := serve_one previous (pf_name p) (pf_createdAt p) news (su_notify u) (fd_now f) (fd_delivered f) in
            (record, pair (su_email u) <$> message)
        end
  | None => (None, None)
  end.

(** The records after a pass: [found] has what is found out about each of the
    subscribers, in turn.
    @modules/algo-admin/use-cases/deliver-email-notifications.ts 45-66 run *)
Definition next_ledger (before : ledger) (subscribers : list Subscriber) (found : list Found) : ledger := omap fst (zip_with (visit before) subscribers found).

(** A ledger that is the same as before is not written; the file system answers
    as in [Documents].
    @modules/algo-admin/use-cases/deliver-email-notifications.ts 39-71 run *)
Definition run_pass (subscribers : result string (list Subscriber)) (found : list Found) (io io' : Io) (d : disk) (s : JsonDocumentStore ledger) :
    list (string * list NewsItem) * JsonDocumentStore ledger * disk :=
  match subscribers with
  | Err _ => ([], s, d)
  | Ok subscribers =>
      match Documents.read [] parseDelivery io d s with
      | (Err _, s) => ([], s, d)
      | (Ok before, s) =>
          let after := next_ledger before subscribers found in
          let sent := omap snd (zip_with (visit before) subscribers found) in
          if bool_decide (before = after) then (sent, s, d)
          else let '(_, s, d) := Documents.update [] parseDelivery ledger_json (fun _ => Ok (tt, after)) io' d s in (sent, s, d)
      end
  end.

(** ** Many passes for one person *)

(** A pass at which somebody is a subscriber and the news are there. *)
Record Pass := { ps_news : News; ps_notify : list EmailTopic; ps_now : Z; ps_delivered : bool }.
Record Sent := { sn_at : Z; sn_items : list NewsItem; sn_delivered : bool }.

(** The record, the passes and the messages, newest first; when it began, with
    the hashes of what was there; and whether more than a record holds was ever
    to be remembered. *)
Record Story := { st_record : option DeliveryRecord; st_passes : list Pass; st_sent : list Sent; st_base : option (Z * list string); st_crowded : bool }.

Definition crowd (previous : option DeliveryRecord) (p : Pass) : bool :=
  Nat.ltb MAX_REMEMBERED
    match previous with
    | Some r => length (all_items (present (ps_news p)) (ns_answered (ps_news p)) (ps_notify p) (ps_now p) (dr_items r))
    | None => length (present (ps_news p))
    end.

(** What a pass over everybody is for one person: they are no subscriber, or no
    longer have the account; their news could not be had; or neither. *)
Inductive Turn := Away | Silent | Heard (p : Pass).
Definition turn_of (u : option Subscriber) (f : Found) : Turn :=
  match u, fd_profile f with
  | Some u, Some p =>
      if negb (Qeqb (pf_createdAt p) (su_createdAt u)) then Away
      else match fd_news f with
           | None => Silent
           | Some news => Heard {| ps_news := news; ps_notify := su_notify u; ps_now := fd_now f; ps_delivered := fd_delivered f |}
           end
  | _, _ => Away
  end.

(** The record that is kept for this person, and the message. Whoever is no
    subscriber is not in the list that replaces the ledger.
    @modules/algo-admin/use-cases/deliver-email-notifications.ts 45-68 run *)
Definition take_turn (name : string) (createdAt : Q) (previous : option DeliveryRecord) (t : Turn) : option DeliveryRecord * option (list NewsItem) :=
  match t with
  | Away => (None, None)
  | Silent => (previous, None)
  | Heard p => serve_one previous name createdAt (ps_news p) (ps_notify p) (ps_now p) (ps_delivered p)
  end.

(** A visit is a turn, from the record that is found in the ledger. *)
Lemma visit_turn before u f p : fd_profile f = Some p ->
  visit before u f = let (record, message) := take_turn (pf_name p) (pf_createdAt p) (List.find (fun e => bool_decide (dr_name e = pf_name p) && Qeqb (dr_accountCreatedAt e) (pf_createdAt p)) before) (turn_of (Some u) f) in
                     (record, pair (su_email u) <$> message).
Proof. intros E. unfold visit, turn_of. rewrite E. destruct (negb _); [done|]. by destruct (fd_news f). Qed.

Definition previous_of (before : ledger) (p : AccountProfile) : option DeliveryRecord :=
  List.find (fun e => bool_decide (dr_name e = pf_name p) && Qeqb (dr_accountCreatedAt e) (pf_createdAt p)) before.

(** Whose record is kept after a pass, and which. *)
Lemma next_ledger_turns before subscribers found e : e ∈ next_ledger before subscribers found -> exists u f p, u ∈ subscribers /\ fd_profile f = Some p /\
  turn_of (Some u) f <> Away /\ (take_turn (pf_name p) (pf_createdAt p) (previous_of before p) (turn_of (Some u) f)).1 = Some e.
Proof.
  unfold next_ledger. intros (x & Hx & He)%list_elem_of_omap. apply elem_of_lookup_zip_with in Hx as (i & u & f & -> & Hu & Hf).
  destruct (fd_profile f) as [p|] eqn:Ep; [|unfold visit in He; by rewrite Ep in He]. rewrite (visit_turn before u f p Ep) in He.
  exists u, f, p. split; [by eapply list_elem_of_lookup_2|]. split; [done|]. fold (previous_of before p) in He.
  destruct (turn_of (Some u) f) as [| |q]; [done|split; [done|]..]; by destruct (take_turn _ _ _ _).
Qed.

Definition begin : Story := {| st_record := None; st_passes := []; st_sent := []; st_base := None; st_crowded := false |}.

Definition hear (name : string) (createdAt : Q) (st : Story) (p : Pass) : Story :=
  let (record, message) := serve_one (st_record st) name createdAt (ps_news p) (ps_notify p) (ps_now p) (ps_delivered p) in
  {| st_record := record; st_passes := p :: st_passes st;
     st_sent := match message with Some l => {| sn_at := ps_now p; sn_items := l; sn_delivered := ps_delivered p |} :: st_sent st | None => st_sent st end;
     st_base := match st_record st, record with None, Some _ => Some (ps_now p, om_keys (present (ps_news p))) | _, _ => st_base st end;
     st_crowded := st_crowded st || crowd (st_record st) p |}.

(** The story is that of somebody who remains a subscriber: a pass at which they
    are none ends it, and it begins anew. *)
Definition go (name : string) (createdAt : Q) (st : Story) (t : Turn) : Story :=
  match t with Away => begin | Silent => st | Heard p => hear name createdAt st p end.

(** Its record and its messages are those of the turns. *)
Lemma go_turn name createdAt st t : let (record, message) := take_turn name createdAt (st_record st) t in
  st_record (go name createdAt st t) = record /\ (t <> Away -> map sn_items (st_sent (go name createdAt st t)) = option_list message ++ map sn_items (st_sent st)).
Proof. destruct t as [| |p]; cbn [take_turn go]; [done|done|]. unfold hear. by destruct (serve_one _ _ _ _ _ _ _) as [? [?|]]. Qed.

(** Time does not go back, and a subscriber has a topic ([subscribers] of
    [Settings]). *)
Definition timely (st : Story) (t : Turn) : Prop :=
  match t with Heard p => 0 <= ps_now p /\ (forall q, q ∈ st_passes st -> ps_now q <= ps_now p) /\ ps_notify p <> [] | _ => True end.
Inductive story (name : string) (createdAt : Q) : Story -> Prop :=
| story_begin : story name createdAt begin
| story_go st t : story name createdAt st -> timely st t -> story name createdAt (go name createdAt st t).

(** ** What is there, and what is remembered *)

Lemma present_facts l m : NoDup (om_keys m) -> (forall k i, om_get k m = Some i -> k = hashed (ni_key i)) ->
  let m' := fold_left (fun m i => om_set (hashed (ni_key i)) i m) l m in NoDup (om_keys m') /\ forall k i, om_get k m' = Some i -> k = hashed (ni_key i).
Proof.
  revert m. induction l as [|i l IH]; intros m Hn Hk; [done|]. cbn [fold_left]. apply IH; [by apply om_set_nodup|].
  intros k j. rewrite om_get_set. case_bool_decide as E; [by intros [= <-]|by apply Hk].
Qed.
Lemma present_nodup news : NoDup (om_keys (present news)).
Proof. apply (present_facts (ns_items news) []); [constructor|done]. Qed.
Lemma present_hashed news k i : om_get k (present news) = Some i -> k = hashed (ni_key i).
Proof. apply (present_facts (ns_items news) []); [constructor|done]. Qed.

Lemma since_ge_iff now t ms : since_ge now t ms = true <-> (inject_Z ms <= inject_Z now - t)%Q.
Proof. apply Qle_bool_iff. Qed.
Lemma since_lt now t ms : since_ge now t ms = false -> (inject_Z now - t < inject_Z ms)%Q.
Proof. intros H. apply Qnot_le_lt. intros Hle. apply since_ge_iff in Hle. congruence. Qed.

Lemma keep_key here answered wanted now a b : keep here answered wanted now a = Some b -> rm_key b = rm_key a /\ rm_topic b = rm_topic a /\ rm_since b = rm_since a /\ (rm_settled b = false -> rm_settled a = false).
Proof.
  unfold keep. destruct (om_has _ _); [|destruct (negb (includes _ _)); [|destruct (_ && _); [|done]]]; intros [= <-]; cbn; split_and!; try done; by intros [[? _]%orb_false_iff _]%orb_false_iff.
Qed.

(** A bounded record is part of what there was to remember, and all of it where it fits. *)
Lemma bounded_sub l : bounded l ⊆+ l.
Proof. unfold bounded. destruct (Nat.ltb _ _); [|done]. etrans; [apply submseteq_drop|]. by rewrite isort_perm. Qed.
Lemma bounded_in r l : r ∈ bounded l -> r ∈ l.
Proof. intros H. eapply elem_of_submseteq; [exact H|apply bounded_sub]. Qed.
Lemma bounded_all l : Nat.ltb MAX_REMEMBERED (length l) = false -> bounded l = l.
Proof. unfold bounded. by intros ->. Qed.

Lemma submseteq_nodup {A} (l k : list A) : l ⊆+ k -> NoDup k -> NoDup l.
Proof. intros [k' Hp]%submseteq_Permutation Hk. rewrite Hp in Hk. by apply NoDup_app in Hk as [? _]. Qed.

Lemma kept_keys here answered wanted now l : map rm_key (omap (keep here answered wanted now) l) ⊆+ map rm_key l.
Proof.
  induction l as [|r l IH]; [done|]. cbn [omap list_omap map]. destruct (keep here answered wanted now r) as [r'|] eqn:E; [|by apply submseteq_cons].
  cbn [map]. destruct (keep_key _ _ _ _ _ _ E) as [-> _]. by apply submseteq_skip.
Qed.

Lemma all_items_nodup here answered wanted now l : NoDup (om_keys here) -> NoDup (map rm_key l) -> NoDup (map rm_key (all_items here answered wanted now l)).
Proof.
  intros Hh Hl. unfold all_items. set (kept := omap _ l). rewrite map_app, map_map. cbn [rm_key fresh]. apply NoDup_app. split; [eapply submseteq_nodup; [apply kept_keys|done]|]. split.
  - intros k Hk Hin. apply list_elem_of_fmap in Hin as (p & -> & Hp%list_elem_of_In). apply filter_In in Hp as [_ Hp%negb_true_iff%includes_false]. done.
  - by apply (om_filter_nodup (fun p => negb (includes p.1 (map rm_key kept)))).
Qed.

Lemma om_get_keys {V} (k : string) (v : V) m : (k, v) ∈ m -> om_has k m = true.
Proof. intros H. apply om_has_keys. apply list_elem_of_fmap. by exists (k, v). Qed.

(** ** What holds of every story *)

(** For how long a thing has been there: the pass that first saw it, and every
    one since that saw it or did not know. *)
Definition lasting (key : string) (topic : EmailTopic) (since : Q) (passes : list Pass) : Prop :=
  exists l p0 l1, passes = l ++ p0 :: l1 /\ since = inject_Z (ps_now p0) /\ om_has key (present (ps_news p0)) = true /\
    Forall (fun p => om_has key (present (ps_news p)) = true \/ topic ∉ ns_answered (ps_news p)) l.

(** A hash is not news: it is settled, or was gone long enough. *)
Definition quiet (items : list Remembered) (passes : list Pass) (key : string) (lo : Q) : Prop :=
  (exists r, r ∈ items /\ rm_key r = key /\ rm_settled r = true /\ (lo <= rm_lastPresentAt r)%Q) \/
  (exists p, p ∈ passes /\ (lo + inject_Z REMEMBER_MS <= inject_Z (ps_now p))%Q /\ om_has key (present (ps_news p)) = false).

Definition last_now (passes : list Pass) : Z := match passes with p :: _ => ps_now p | [] => 0 end.
Definition delivered_on (day : Z) (sent : list Sent) : Z := Z.of_nat (length (List.filter (fun s => sn_delivered s && (day_number (sn_at s) =? day)) sent)).

Record good (items : list Remembered) (st : Story) : Prop := {
  gd_keys : NoDup (map rm_key items);
  gd_times r : r ∈ items -> (rm_lastPresentAt r <= inject_Z (last_now (st_passes st)))%Q;
  gd_lasting r : r ∈ items -> rm_settled r = false -> lasting (rm_key r) (rm_topic r) (rm_since r) (st_passes st);
  gd_base t keys k : st_crowded st = false -> st_base st = Some (t, keys) -> k ∈ keys -> quiet items (st_passes st) k (inject_Z t);
  gd_sent s i : st_crowded st = false -> s ∈ st_sent st -> sn_delivered s = true -> i ∈ sn_items s ->
    quiet items (st_passes st) (hashed (ni_key i)) (inject_Z (sn_at s) - inject_Z TOUCH_MS)%Q }.

(** *** One pass, item by item *)

Section pass.
Context (news : News) (notify : list EmailTopic) (now : Z) (p : Pass) (passes : list Pass) (items : list Remembered).
Hypothesis Hp : ps_news p = news /\ ps_now p = now.
Hypothesis Htimes : forall r, r ∈ items -> (rm_lastPresentAt r <= inject_Z now)%Q.
Notation here := (present news).
Notation next := (all_items here (ns_answered news) notify now items).

Lemma touch_pos : (0 <= inject_Z TOUCH_MS)%Q.
Proof. by apply Qle_bool_iff. Qed.

Lemma next_in r : r ∈ next -> (exists a, a ∈ items /\ keep here (ns_answered news) notify now a = Some r) \/ (exists i, (rm_key r, i) ∈ here /\ r = fresh notify now (rm_key r, i)).
Proof.
  unfold all_items. intros [H|H]%elem_of_app; [left|right].
  - apply list_elem_of_omap in H as (a & Ha & Hk). by exists a.
  - apply list_elem_of_fmap in H as ([k i] & -> & Hi%list_elem_of_In). apply filter_In in Hi as [Hi%list_elem_of_In _]. by exists i.
Qed.

Lemma next_times r : r ∈ next -> (rm_lastPresentAt r <= inject_Z now)%Q /\ (om_has (rm_key r) here = true -> (inject_Z now - inject_Z TOUCH_MS <= rm_lastPresentAt r)%Q).
Proof.
  intros [(a & Ha & Hk)|(i & _ & ->)]%next_in; [|cbn; split; [apply Qle_refl|intros _; pose proof touch_pos; lra]].
  specialize (Htimes a Ha). pose proof (keep_key _ _ _ _ _ _ Hk) as [Ekey _]. unfold keep in Hk. rewrite Ekey. destruct (om_has (rm_key a) here).
  - injection Hk as <-. cbn. destruct (since_ge now (rm_lastPresentAt a) TOUCH_MS) eqn:E; [split; [apply Qle_refl|intros _; pose proof touch_pos; lra]|]. apply since_lt in E. split; [done|]. intros _. lra.
  - split; [|done]. destruct (negb _); [by injection Hk as <-|]. destruct (_ && _); [by injection Hk as <-|done].
Qed.

Lemma next_lasting r : (forall a, a ∈ items -> rm_settled a = false -> lasting (rm_key a) (rm_topic a) (rm_since a) passes) -> r ∈ next -> rm_settled r = false ->
  lasting (rm_key r) (rm_topic r) (rm_since r) (p :: passes).
Proof.
  intros Hl [(a & Ha & Hk)|(i & Hi & ->)]%next_in Hs.
  - destruct (keep_key _ _ _ _ _ _ Hk) as (Ek & Et & Es & Eu). destruct (Hl a Ha (Eu Hs)) as (l & p0 & l1 & -> & H1 & H2 & H3). exists (p :: l), p0, l1. rewrite Ek, Et, Es. split_and!; try done.
    constructor; [|done]. destruct Hp as [-> _]. unfold keep in Hk. destruct (om_has (rm_key a) here); [by left|right]. destruct (includes (rm_topic a) (ns_answered news)) eqn:E; [|by apply includes_false in E].
    cbn [negb] in Hk. rewrite (Eu Hs) in Hk. done.
  - exists [], p, passes. destruct Hp as [Hn Ht]. rewrite Hn, Ht. cbn. split_and!; try done. by eapply om_get_keys.
Qed.

Lemma next_quiet k lo : quiet items passes k lo -> quiet next (p :: passes) k lo.
Proof.
  intros [(r & Hr & Hk & Hs & Hlo)|(q & Hq & H1 & H2)]; [|right; exists q; split; [by right|done]].
  destruct (keep here (ns_answered news) notify now r) as [r'|] eqn:E.
  - left. exists r'. destruct (keep_key _ _ _ _ _ _ E) as (Ek & _). split; [apply elem_of_app; left; apply list_elem_of_omap; by exists r|]. split; [congruence|].
    specialize (Htimes r Hr). unfold keep in E. rewrite Hs in E. cbn [orb andb] in E. destruct (om_has (rm_key r) here).
    + injection E as <-. cbn. split; [done|]. destruct (since_ge _ _ _); lra.
    + destruct (negb (includes _ _)); [by injection E as <-|]. destruct (negb _); [by injection E as <-|done].
  - right. exists p. destruct Hp as [Hn Ht]. split; [by left|]. rewrite Hn, Ht. rewrite <- Hk. unfold keep in E. rewrite Hs in E. destruct (om_has (rm_key r) here); [done|]. split; [|done].
    destruct (negb (includes _ _)); [done|]. destruct (since_ge now (rm_lastPresentAt r) REMEMBER_MS) eqn:Eg; [|done]. apply since_ge_iff in Eg. lra.
Qed.
End pass.

Lemma settle_fields keys r : rm_key (settle keys r) = rm_key r /\ rm_topic (settle keys r) = rm_topic r /\ rm_since (settle keys r) = rm_since r /\ rm_lastPresentAt (settle keys r) = rm_lastPresentAt r /\
  (rm_settled (settle keys r) = false -> rm_settled r = false) /\ (rm_settled r = true -> rm_settled (settle keys r) = true) /\ (rm_key r ∈ keys -> rm_settled (settle keys r) = true).
Proof. unfold settle. destruct (includes (rm_key r) keys) eqn:E; cbn; split_and!; try done. intros H. apply includes_true in H. congruence. Qed.

Lemma quiet_settle keys items passes k lo : quiet items passes k lo -> quiet (map (settle keys) items) passes k lo.
Proof.
  intros [(r & Hr & Hk & Hs & Hl)|H]; [left|by right]. exists (settle keys r). destruct (settle_fields keys r) as (E1 & _ & _ & E2 & _ & E3 & _).
  split; [by apply list_elem_of_fmap_2|]. rewrite E1, E2. split_and!; try done. by apply E3.
Qed.

(** What is ready, and why. *)
Lemma ready_spec news now (items : list Remembered) i : i ∈ omap (ready_item (present news) now) items ->
  exists r, r ∈ items /\ rm_key r = hashed (ni_key i) /\ om_get (rm_key r) (present news) = Some i /\ rm_settled r = false /\ (ni_ongoing i = true -> (inject_Z HOLD_MS <= inject_Z now - rm_since r)%Q).
Proof.
  intros (r & Hr & H)%list_elem_of_omap. unfold ready_item in H. destruct (om_get (rm_key r) (present news)) as [j|] eqn:Ej; [|done]. cbn in H.
  destruct (negb (rm_settled r) && _) eqn:E; [|done]. injection H as ->. apply andb_true_iff in E as [Hs%negb_true_iff Ho]. exists r. split_and!; try done; [by eapply present_hashed|].
  intros Hon. rewrite Hon in Ho. by apply since_ge_iff in Ho.
Qed.

Definition passed (st : Story) (p : Pass) (sent : list Sent) (base : option (Z * list string)) : Story :=
  {| st_record := None; st_passes := p :: st_passes st; st_sent := sent; st_base := base; st_crowded := st_crowded st || crowd (st_record st) p |}.

Lemma good_next st p r : st_record st = Some r -> good (dr_items r) st -> (last_now (st_passes st) <= ps_now p) ->
  good (bounded (all_items (present (ps_news p)) (ns_answered (ps_news p)) (ps_notify p) (ps_now p) (dr_items r))) (passed st p (st_sent st) (st_base st)).
Proof.
  intros Er [G1 G2 G3 G4 G5] Hn. set (nx := all_items _ _ _ _ _). assert (forall a, a ∈ dr_items r -> (rm_lastPresentAt a <= inject_Z (ps_now p))%Q) as Ht.
  { intros a Ha. specialize (G2 a Ha). rewrite Zle_Qle in Hn. lra. }
  assert (forall k lo, st_crowded (passed st p (st_sent st) (st_base st)) = false -> (st_crowded st = false -> quiet (dr_items r) (st_passes st) k lo) -> quiet (bounded nx) (p :: st_passes st) k lo) as Hq.
  { intros k lo Hc Hq. cbn in Hc. apply orb_false_iff in Hc as [Hc1 Hc2]. unfold crowd in Hc2. rewrite Er in Hc2. rewrite (bounded_all nx Hc2). apply (next_quiet _ _ _ p); [done|done|by apply Hq]. }
  constructor; cbn [st_passes st_base st_sent passed].
  - eapply submseteq_nodup; [apply fmap_submseteq, bounded_sub|]. apply all_items_nodup; [apply present_nodup|done].
  - intros a Ha%bounded_in. cbn. by apply (next_times _ _ _ _ Ht a Ha).
  - intros a Ha%bounded_in Hs. by apply (next_lasting _ _ _ p (st_passes st) _ (conj eq_refl eq_refl) a G3 Ha Hs).
  - intros t keys k Hc Hb Hk. apply Hq; [done|]. intros. by eapply G4.
  - intros s i Hc Hs Hd Hi. apply Hq; [done|]. intros. by eapply G5.
Qed.

(** The same with the message that was sent. *)
Lemma good_sent st p items base s : good items (passed st p (st_sent st) base) -> sn_at s = ps_now p -> sn_items s = omap (ready_item (present (ps_news p)) (ps_now p)) items ->
  (forall r, r ∈ items -> om_has (rm_key r) (present (ps_news p)) = true -> (inject_Z (ps_now p) - inject_Z TOUCH_MS <= rm_lastPresentAt r)%Q) ->
  good (if sn_delivered s then map (settle (map (fun i => hashed (ni_key i)) (sn_items s))) items else items) (passed st p (s :: st_sent st) base).
Proof.
  intros [G1 G2 G3 G4 G5] Hat Hit Htouch. set (keys := map _ (sn_items s)). cbn [st_passes st_base st_sent st_crowded passed] in *.
  assert (forall k lo, quiet items (p :: st_passes st) k lo -> quiet (if sn_delivered s then map (settle keys) items else items) (p :: st_passes st) k lo) as Hq.
  { intros k lo H. destruct (sn_delivered s); [by apply quiet_settle|done]. }
  constructor; cbn [st_passes st_base st_sent st_crowded passed].
  - destruct (sn_delivered s); [|done]. rewrite map_map. erewrite map_ext; [exact G1|]. intros r. apply settle_fields.
  - destruct (sn_delivered s); [|done]. intros r (a & -> & Ha)%list_elem_of_fmap. destruct (settle_fields keys a) as (_ & _ & _ & -> & _). by apply G2.
  - destruct (sn_delivered s); [|done]. intros r (a & -> & Ha)%list_elem_of_fmap. destruct (settle_fields keys a) as (-> & -> & -> & _ & Hu & _). intros Hs%Hu. by apply G3.
  - intros t ks k Hc Hb Hk. apply Hq. by eapply G4.
  - intros s' i Hc [->|Hs]%elem_of_cons Hd Hi; [|by apply Hq, G5]. rewrite Hd. left. pose proof Hi as Hi'. rewrite Hit in Hi'. apply ready_spec in Hi' as (r & Hr & Hk & Hg & _ & _).
    exists (settle keys r). destruct (settle_fields keys r) as (-> & _ & _ & -> & _ & _ & Hset). split; [by apply list_elem_of_fmap_2|]. split; [done|]. split.
    + apply Hset. rewrite Hk. unfold keys. by apply (list_elem_of_fmap_2 (fun i => hashed (ni_key i))).
    + rewrite Hat. apply Htouch; [done|]. apply om_has_keys. by eapply om_get_Some_keys.
Qed.

(** ** What a person gets *)

(** It was there, or unknown, at every pass from one at least [HOLD_MS] before
    the message on. *)
Definition held (key : string) (at_ : Z) (passes : list Pass) : Prop :=
  exists l0 topic l p0 l1, passes = l0 ++ l ++ p0 :: l1 /\ last_now (l ++ [p0]) = at_ /\ ps_now p0 + HOLD_MS <= at_ /\ om_has key (present (ps_news p0)) = true /\
    Forall (fun p => om_has key (present (ps_news p)) = true \/ topic ∉ ns_answered (ps_news p)) l.

(** It was gone, at a pass that is at least [ms] after [from]. *)
Definition gone (key : string) (from ms to : Z) (passes : list Pass) : Prop :=
  exists q, q ∈ passes /\ from + ms <= ps_now q <= to /\ om_has key (present (ps_news q)) = false.

Record mannered (st : Story) : Prop := {
  mn_gap l0 s2 s1 l1 : st_sent st = l0 ++ s2 :: s1 :: l1 -> sn_at s1 + MIN_GAP_MS <= sn_at s2;
  mn_limit day : delivered_on day (st_sent st) <= DAILY_LIMIT;
  mn_held s i : s ∈ st_sent st -> i ∈ sn_items s -> ni_ongoing i = true -> held (hashed (ni_key i)) (sn_at s) (st_passes st);
  mn_news s i t keys : st_crowded st = false -> st_base st = Some (t, keys) -> s ∈ st_sent st -> i ∈ sn_items s -> hashed (ni_key i) ∈ keys ->
    gone (hashed (ni_key i)) t REMEMBER_MS (sn_at s) (st_passes st);
  mn_twice l0 s2 l s1 l1 i1 i2 : st_crowded st = false -> st_sent st = l0 ++ s2 :: l ++ s1 :: l1 -> sn_delivered s1 = true -> i1 ∈ sn_items s1 -> i2 ∈ sn_items s2 ->
    hashed (ni_key i1) = hashed (ni_key i2) -> gone (hashed (ni_key i2)) (sn_at s1) (REMEMBER_MS - TOUCH_MS) (sn_at s2) (st_passes st) }.

Record kept_in (st : Story) (r : DeliveryRecord) : Prop := {
  ki_good : good (dr_items r) st;
  ki_tried : dr_lastTriedAt r = match st_sent st with s :: _ => inject_Z (sn_at s) | [] => 0%Q end;
  ki_day : dr_day r = dayOf (last_now (st_passes st));
  ki_count : (inject_Z (delivered_on (day_number (last_now (st_passes st))) (st_sent st)) <= dr_sentToday r)%Q }.

Record telling (st : Story) : Prop := {
  te_mannered : mannered st;
  te_times s : s ∈ st_sent st -> 0 <= sn_at s <= last_now (st_passes st);
  te_record : match st_record st with Some r => kept_in st r | None => st_sent st = [] /\ st_base st = None end;
  te_sorted q : q ∈ st_passes st -> 0 <= ps_now q <= last_now (st_passes st) }.

Lemma still_held k t q passes : held k t passes -> held k t (q :: passes).
Proof. intros (l0 & tp & l & p0 & l1 & -> & H). by exists (q :: l0), tp, l, p0, l1. Qed.
Lemma still_gone k a b c q passes : gone k a b c passes -> gone k a b c (q :: passes).
Proof. intros (x & Hx & H). exists x. split; [by right|done]. Qed.

Lemma nil_sent_mannered st : st_sent st = [] -> mannered st.
Proof.
  intros E. constructor; rewrite E.
  - intros l0 s2 s1 l1 H. by apply app_cons_not_nil in H.
  - intros day. unfold delivered_on, DAILY_LIMIT. cbn. lia.
  - by intros s i ?%elem_of_nil.
  - by intros s i t keys _ _ ?%elem_of_nil.
  - intros l0 s2 l s1 l1 i1 i2 _ H. by apply app_cons_not_nil in H.
Qed.

(** A pass without a message. *)
Lemma silent_mannered st p record base : mannered st -> (st_crowded st = false -> base = st_base st \/ st_sent st = []) ->
  mannered {| st_record := record; st_passes := p :: st_passes st; st_sent := st_sent st; st_base := base; st_crowded := st_crowded st || crowd (st_record st) p |}.
Proof.
  intros [M1 M2 M3 M4 M5] Hb. constructor; cbn [st_sent st_passes st_base st_crowded]; try done.
  - intros s i Hs Hi Ho. by apply still_held, M3.
  - intros s i t keys [Hc _]%orb_false_iff E Hs Hi Hk. apply still_gone. destruct (Hb Hc) as [->|E']; [by eapply M4|]. rewrite E' in Hs. by apply elem_of_nil in Hs.
  - intros l0 s2 l s1 l1 i1 i2 [Hc _]%orb_false_iff E Hd H1 H2 H3. apply still_gone. by eapply M5.
Qed.

(** What keeps quiet is not ready. *)
Lemma quiet_gone items passes p k lo from ms i : quiet items (p :: passes) k lo -> (lo + inject_Z REMEMBER_MS == inject_Z (from + ms))%Q -> NoDup (map rm_key items) ->
  i ∈ omap (ready_item (present (ps_news p)) (ps_now p)) items -> hashed (ni_key i) = k -> (forall q, q ∈ passes -> ps_now q <= ps_now p) ->
  gone k from ms (ps_now p) (p :: passes).
Proof.
  intros [(r & Hr & Hk & Hs & _)|(q & Hq & H1 & H2)] Hlo Hnd Hi Hik Htime.
  - apply ready_spec in Hi as (r' & Hr' & Hk' & _ & Hs' & _). exfalso. assert (r = r') as ->; [|congruence].
    apply list_elem_of_lookup in Hr as [n Hn]. apply list_elem_of_lookup in Hr' as [n' Hn']. assert (n = n') as ->; [|congruence].
    eapply (NoDup_lookup (map rm_key items)); [done| |]; change (map rm_key items) with (rm_key <$> items); rewrite list_lookup_fmap; [rewrite Hn|rewrite Hn']; cbn; [reflexivity|]. congruence.
  - exists q. split; [done|]. split; [|done]. rewrite Hlo in H1. apply Zle_Qle in H1 || rewrite <- Zle_Qle in H1. split; [done|]. apply elem_of_cons in Hq as [->|Hq]; [lia|by apply Htime].
Qed.

Lemma delivered_on_none day sent : (forall s, s ∈ sent -> day_number (sn_at s) <> day) -> delivered_on day sent = 0.
Proof.
  intros H. unfold delivered_on. induction sent as [|s sent IH]; [done|]. cbn [List.filter]. destruct (Z.eqb_spec (day_number (sn_at s)) day) as [E|_]; [exfalso; apply (H s); [by left|done]|].
  rewrite andb_false_r. apply IH. intros x Hx. apply H. by right.
Qed.

Lemma delivered_on_cons day s sent : delivered_on day (s :: sent) = delivered_on day sent + (if sn_delivered s && (day_number (sn_at s) =? day) then 1 else 0).
Proof. unfold delivered_on. cbn [List.filter]. destruct (_ && _); cbn [length]; lia. Qed.

(** The count of the record is not less than what was delivered today. *)
Lemma count_today st r now : telling st -> kept_in st r -> last_now (st_passes st) <= now ->
  (inject_Z (delivered_on (day_number now) (st_sent st)) <= if bool_decide (dr_day r = dayOf now) then dr_sentToday r else 0%Q)%Q.
Proof.
  intros Ht [_ _ Hday Hc] Hn. destruct (decide (day_number (last_now (st_passes st)) = day_number now)) as [E|Hne].
  - rewrite Hday. unfold dayOf. rewrite E, bool_decide_eq_true_2 by done. by rewrite <- E.
  - assert (delivered_on (day_number now) (st_sent st) = 0) as ->.
    { apply delivered_on_none. intros s Hs. destruct (te_times _ Ht s Hs) as [_ Hs']. unfold day_number in *.
      assert (sn_at s / 86400000 <= last_now (st_passes st) / 86400000) by (apply Z.div_le_mono; lia).
      assert (last_now (st_passes st) / 86400000 <= now / 86400000) by (apply Z.div_le_mono; lia). lia. }
    case_bool_decide; [|apply Qle_refl]. eapply Qle_trans; [|exact Hc]. rewrite <- Zle_Qle. unfold delivered_on. lia.
Qed.

(** The first record of a person. *)
Lemma start_telling name createdAt st p : telling st -> st_record st = None -> 0 <= ps_now p -> (forall q, q ∈ st_passes st -> ps_now q <= ps_now p) -> telling (hear name createdAt st p).
Proof.
  intros [T1 T2 T3 T4] Er H0 Hn. rewrite Er in T3. destruct T3 as [Es Eb]. unfold hear, serve_one, plan. rewrite Er.
  assert (forall q, q ∈ p :: st_passes st -> 0 <= ps_now q <= ps_now p) as Hsorted.
  { intros q [->|Hq]%elem_of_cons; [lia|]. specialize (Hn q Hq). specialize (T4 q Hq). lia. }
  destruct (existsb _ EMAIL_TOPICS); constructor; cbn [st_record st_sent st_passes st_base st_crowded last_now]; rewrite ?Es; try done; try (by apply nil_sent_mannered); try (by intros s ?%elem_of_nil).
  constructor; cbn [st_record st_sent st_passes st_base st_crowded last_now dr_items dr_lastTriedAt dr_day dr_sentToday]; try done.
  set (items := map _ (present (ps_news p))). assert (map rm_key items = om_keys (present (ps_news p))) as Hkeys by (unfold items; by rewrite map_map).
  constructor; cbn [st_record st_sent st_passes st_base st_crowded last_now].
  - eapply submseteq_nodup; [apply fmap_submseteq, submseteq_take|]. change (rm_key <$> items) with (map rm_key items). rewrite Hkeys. apply present_nodup.
  - intros r (n & Hr & _)%elem_of_take. apply list_elem_of_lookup_2, list_elem_of_fmap in Hr as (x & -> & _). apply Qle_refl.
  - intros r (n & Hr & _)%elem_of_take. apply list_elem_of_lookup_2, list_elem_of_fmap in Hr as (x & -> & _). done.
  - intros t keys k Hc [= <- <-] Hk. apply orb_false_iff in Hc as [_ Hc]. unfold crowd in Hc. apply Nat.ltb_ge in Hc.
    rewrite take_ge by (unfold items; by rewrite length_map). rewrite <- Hkeys in Hk. apply list_elem_of_fmap in Hk as (r & -> & Hr). left. exists r. split; [done|].
    apply list_elem_of_fmap in Hr as (x & -> & _). cbn. split_and!; try done. apply Qle_refl.
  - by intros s i _ ?%elem_of_nil.
Qed.

Lemma begin_telling : telling begin.
Proof. constructor; [by apply nil_sent_mannered|by intros s ?%elem_of_nil|done|by intros q ?%elem_of_nil]. Qed.

(** A message is in order. *)
Lemma message_mannered st p r items ready record base : telling st -> kept_in st r -> st_record st = Some r -> last_now (st_passes st) <= ps_now p -> (forall q, q ∈ st_passes st -> ps_now q <= ps_now p) ->
  good items (passed st p (st_sent st) (st_base st)) -> ready = omap (ready_item (present (ps_news p)) (ps_now p)) items ->
  since_ge (ps_now p) (dr_lastTriedAt r) MIN_GAP_MS = true -> Qltb (if bool_decide (dr_day r = dayOf (ps_now p)) then dr_sentToday r else 0%Q) (inject_Z DAILY_LIMIT) = true -> base = st_base st ->
  mannered {| st_record := record; st_passes := p :: st_passes st; st_sent := {| sn_at := ps_now p; sn_items := ready; sn_delivered := ps_delivered p |} :: st_sent st; st_base := base;
              st_crowded := st_crowded st || crowd (st_record st) p |}.
Proof.
  intros Ht Hk Er Hn Hq [G1 G2 G3 G4 G5] -> Hgap Hday ->. pose proof (te_mannered _ Ht) as [M1 M2 M3 M4 M5]. constructor; cbn [st_record st_sent st_passes st_base st_crowded last_now passed] in *.
  - intros l0 s2 s1 l1 H. destruct l0 as [|x l0]; [|injection H as _ H; by eapply M1]. injection H as <- H. cbn. apply since_ge_iff in Hgap. rewrite (ki_tried _ _ Hk), H in Hgap.
    assert (inject_Z (sn_at s1 + MIN_GAP_MS) <= inject_Z (ps_now p))%Q as Hle by (rewrite inject_Z_plus; lra). by rewrite <- Zle_Qle in Hle.
  - intros day. rewrite delivered_on_cons. cbn [sn_delivered sn_at]. specialize (M2 day). destruct (ps_delivered p && _) eqn:E; [|lia]. apply andb_true_iff in E as [_ <-%Z.eqb_eq].
    pose proof (count_today _ _ _ Ht Hk Hn) as Hc. apply Qltb_lt in Hday. assert (inject_Z (delivered_on (day_number (ps_now p)) (st_sent st)) < inject_Z DAILY_LIMIT)%Q as Hlt by lra. rewrite <- Zlt_Qlt in Hlt. lia.
  - intros s i [->|Hs]%elem_of_cons Hi Ho; [|by apply still_held, M3]. cbn in *. apply ready_spec in Hi as (a & Ha & Hk' & _ & Hs & Hold). specialize (Hold Ho).
    destruct (G3 a Ha Hs) as (l & p0 & l1 & E & Hsince & Hhas & Hl). rewrite Hk' in *. exists [], (rm_topic a), l, p0, l1. split; [done|]. split_and!; try done.
    + destruct l as [|x l]; injection E as <- _; done.
    + rewrite Hsince in Hold. assert (inject_Z (ps_now p0 + HOLD_MS) <= inject_Z (ps_now p))%Q as Hle by (rewrite inject_Z_plus; lra). by rewrite <- Zle_Qle in Hle.
  - intros s i t keys Hc Hb [->|Hs]%elem_of_cons Hi Hkeys.
    + cbn in *. apply (quiet_gone items _ _ _ (inject_Z t) _ _ i); [by eapply G4|by rewrite inject_Z_plus|done|done|done|done].
    + apply orb_false_iff in Hc as [Hc _]. apply still_gone. by eapply M4.
  - intros l0 s2 l s1 l1 i1 i2 Hc E Hd H1 H2 H3. destruct l0 as [|x l0].
    + injection E as <- E. cbn in *. rewrite <- H3. apply (quiet_gone items _ _ _ (inject_Z (sn_at s1) - inject_Z TOUCH_MS) _ _ i2); [|rewrite inject_Z_plus; unfold Z.sub; rewrite inject_Z_plus, inject_Z_opp; lra|done|done|congruence|done].
      apply G5; [done| |done|done]. rewrite E. apply elem_of_app. right. by left.
    + injection E as _ E. apply orb_false_iff in Hc as [Hc _]. apply still_gone. by eapply M5.
Qed.

(** Only what was passed and sent matters to what is remembered. *)
Lemma good_same items st st' : st_passes st' = st_passes st -> st_sent st' = st_sent st -> st_base st' = st_base st -> st_crowded st' = st_crowded st -> good items st -> good items st'.
Proof. intros E1 E2 E3 E4 [G1 G2 G3 G4 G5]. constructor; rewrite ?E1, ?E2, ?E3, ?E4; done. Qed.

Lemma next_telling name createdAt st r p : telling st -> st_record st = Some r -> 0 <= ps_now p -> (forall q, q ∈ st_passes st -> ps_now q <= ps_now p) -> telling (hear name createdAt st p).
Proof.
  intros Ht Er H0 Hn. pose proof (te_record _ Ht) as Hk. rewrite Er in Hk. assert (last_now (st_passes st) <= ps_now p) as Hlast by (destruct (st_passes st) as [|q l]; [done|apply Hn; by left]).
  pose proof (good_next st p r Er (ki_good _ _ Hk) Hlast) as Hg. unfold hear, serve_one, plan. rewrite Er. set (nx := all_items _ _ _ _ _) in *.
  pose proof (count_today st r (ps_now p) Ht Hk Hlast) as Hcount. set (sentToday := if bool_decide _ then _ else _) in *.
  assert (forall q, q ∈ p :: st_passes st -> 0 <= ps_now q <= ps_now p) as Hsorted.
  { intros q [->|Hq]%elem_of_cons; [lia|]. specialize (Hn q Hq). pose proof (te_sorted _ Ht q Hq). lia. }
  assert (forall s, s ∈ st_sent st -> 0 <= sn_at s <= ps_now p) as Hsent by (intros s Hs; pose proof (te_times _ Ht s Hs); lia).
  set (items := bounded nx) in *. destruct (since_ge _ (dr_lastTriedAt r) _) eqn:Edue; cbn [andb]; [destruct (Qltb sentToday _) eqn:Eday; [destruct (omap (ready_item _ _) items) as [|i l] eqn:Ei|]|].
  2: {
    set (s := {| sn_at := ps_now p; sn_items := i :: l; sn_delivered := ps_delivered p |}). constructor.
    - cbn [st_record st_sent st_passes st_base st_crowded]. rewrite <- Er. unfold s. rewrite <- Ei. by eapply message_mannered.
    - cbn. intros x [->|Hx]%elem_of_cons; [cbn; lia|by apply Hsent].
    - cbn [st_record]. constructor; cbn [st_sent st_passes last_now afterSending dr_items dr_lastTriedAt dr_day dr_sentToday]; [|done|done|].
      + apply (good_same _ (passed st p (s :: st_sent st) (st_base st))); [done|done|done|cbn; by rewrite Er|].
        refine (good_sent st p items (st_base st) s Hg eq_refl (eq_sym Ei) _). intros a Ha%bounded_in Hh. eapply (next_times _ _ _ (dr_items r)); [|exact Ha|exact Hh].
        intros b Hb. pose proof (gd_times _ _ (ki_good _ _ Hk) b Hb). rewrite Zle_Qle in Hlast. lra.
      + rewrite delivered_on_cons. cbn [sn_delivered sn_at s]. rewrite Z.eqb_refl, andb_true_r, inject_Z_plus. destruct (ps_delivered p); unfold inject_Z at 2; lra.
    - done. }
  all: constructor; cbn [st_record st_sent st_passes st_base st_crowded last_now]; [|done| |done];
    [rewrite <- Er; apply silent_mannered; [apply (te_mannered _ Ht)|by left]|].
  all: constructor; cbn [st_record st_sent st_passes last_now dr_items dr_lastTriedAt dr_day dr_sentToday]; [|apply (ki_tried _ _ Hk)|done|exact Hcount];
    eapply good_same; [..|exact Hg]; cbn; by rewrite ?Er.
Qed.

End plan.

Module Inbox.
#[local] Existing Instance Flashers.Run.demo_sha.

Definition item (key : string) (ongoing : bool) : NewsItem :=
  {| ni_key := key; ni_topic := TSensor; ni_subject := key; ni_event := "Offline report"; ni_detail := None; ni_at := None; ni_ongoing := ongoing; ni_path := "/nodes" |}.
Definition at_minute (m : Z) (items : list NewsItem) (delivered : bool) : Turn :=
  Heard {| ps_news := {| ns_items := items; ns_answered := EMAIL_TOPICS |}; ps_notify := [TSensor]; ps_now := (1000 + m) * 60000; ps_delivered := delivered |}.
Definition after (l : list Turn) : Story := fold_left (go "ann" 7) l begin.
Definition messages (st : Story) : list (Z * list string) := map (fun s => (sn_at s / 60000 - 1000, map ni_key (sn_items s))) (st_sent st).

(** What is there at the start is not news, a condition is held for ten minutes,
    and messages keep their distance. *)
Example a_morning : messages (after [at_minute 0 [item "a" true] true; at_minute 1 [item "a" true; item "b" true] true; at_minute 10 [item "a" true; item "b" true] true;
    at_minute 11 [item "b" true] true; at_minute 12 [item "b" true; item "c" false] true; at_minute 26 [item "c" false] true]) = [(26, ["c"]); (11, ["b"])].
Proof. by vm_compute. Qed.

(** A source that does not answer ends nothing. *)
Example a_silent_source : messages (after [at_minute 0 [] true; at_minute 1 [item "b" true] true;
    Heard {| ps_news := {| ns_items := []; ns_answered := [TMail] |}; ps_notify := [TSensor]; ps_now := 1005 * 60000; ps_delivered := true |}; at_minute 11 [item "b" true] true]) = [(11, ["b"])].
Proof. by vm_compute. Qed.

(** News that could not be had change nothing. *)
Example a_silent_pass : messages (after [at_minute 0 [] true; at_minute 1 [item "b" true] true; Silent; at_minute 11 [item "b" true] true]) = [(11, ["b"])].
Proof. by vm_compute. Qed.

(** All messages of some turns, also those before somebody was away. *)
Fixpoint told (previous : option DeliveryRecord) (l : list Turn) : list (Z * list string) :=
  match l with
  | [] => []
  | t :: l => let (record, message) := take_turn "ann" 7 previous t in
              match t, message with Heard p, Some items => [(ps_now p / 60000 - 1000, map ni_key items)] | _, _ => [] end ++ told record l
  end.

(** Whoever takes all topics away and sets one again is written to three minutes
    after the last message, and may get thirteen messages, or more, on a day: the
    distance and the count start over. *)
Definition in_and_out (n : nat) : list Turn :=
  [at_minute 0 [] true] ++ ((fun k => at_minute (15 * Z.of_nat (S k)) [item (show (Z.of_nat k)) false] true) <$> seq 0 n) ++
  [Away; at_minute (15 * Z.of_nat n + 1) [] true; at_minute (15 * Z.of_nat n + 2) [] true; at_minute (15 * Z.of_nat n + 3) [item "new" false] true].
Example limits_start_over : drop 10 (told None (in_and_out 12)) = [(165, ["10"]); (180, ["11"]); (183, ["new"])] /\ length (told None (in_and_out 12)) = 13%nat /\
  length (told None (in_and_out 20)) = 13%nat.
Proof. by vm_compute. Qed.

(** When it was last there is only noted once an hour: what was first seen an hour
    before it was delivered is forgotten an hour early. *)
Definition trying : list Turn := [at_minute 0 [] true; at_minute 60 [item "a" false] false; at_minute 119 [item "a" false] true; at_minute 120 [] true; at_minute 1500 [] true; at_minute 1501 [item "a" false] true].
Example told_twice_within_a_day : messages (after trying) = [(1501, ["a"]); (119, ["a"]); (60, ["a"])] /\ 1501 - 119 < REMEMBER_MS / 60000.
Proof. by vm_compute. Qed.

(** Turns that are passes, in the order of time. *)
Definition passes_of (l : list Turn) : list Pass := omap (fun t => match t with Heard p => Some p | _ => None end) l.
Lemma after_story l st : story "ann" 7 st -> Forall (fun t => match t with Heard p => 0 <= ps_now p /\ ps_notify p <> [] | _ => False end) l ->
  StronglySorted (fun p q => ps_now p <= ps_now q) (passes_of l) -> (forall p q, p ∈ passes_of l -> q ∈ st_passes st -> ps_now q <= ps_now p) -> story "ann" 7 (fold_left (go "ann" 7) l st).
Proof.
  intros Hst H0. revert st Hst. induction H0 as [|[| |p] l Hp H0 IH]; intros st Hst Hs Hq; [done|done|done|]. cbn [fold_left go]. destruct Hp as [Hp Hn]. cbn [passes_of omap list_omap] in Hs, Hq.
  apply StronglySorted_inv in Hs as [Hs Hle]. rewrite Forall_forall in Hle. apply IH; [|done|].
  - apply (story_go _ _ st (Heard p)); [done|]. split_and!; [done|intros q Hin; apply Hq; [by left|done]|done].
  - intros x q Hx Hin. assert (st_passes (hear "ann" 7 st p) = p :: st_passes st) as E by (unfold hear; by destruct (serve_one _ _ _ _ _ _ _)).
    rewrite E in Hin. apply elem_of_cons in Hin as [->|Hin]; [by apply Hle|apply Hq; [by right|done]].
Qed.

Lemma trying_story : story "ann" 7 (after trying).
Proof.
  apply after_story; [apply story_begin|repeat constructor; try done; cbn; lia| |]; [|by intros p q _ ?%elem_of_nil].
  repeat (constructor; [|repeat constructor; cbn; lia]). constructor.
Qed.

End Inbox.
